(* ===== verification/_CoqProject ===== *)
-Q . S2P
Prelude.v
Names.v
Splay.v
Table.v
Space.v
Hash.v
Entry.v
EntryInv.v
Alloc.v
Dealloc.v
Grow.v
Retry.v
World.v
Queue.v
Port.v
PortInv.v
PortQueue.v
PortDestroy.v
Mqueue.v
MqueueSpec.v
MqueueInv.v
Right.v
RightBits.v
RightLaws.v
RightWp.v
RightInv.v
RightOps.v
RightNotify.v
Object.v
ObjectInv.v
PortSpace.v
MachPort.v
ListInv.v
Marequest.v
MarequestInv.v
Kmsg.v
KmsgInv.v
KmsgBody.v
KmsgOps.v
KmsgBodyInv.v
KmsgCopyin.v
KmsgCopyout.v
KmsgSamples.v
Vm.v
Lock.v
LockInv.v
LockSteps.v
LockView.v
VmMap.v
VmRing.v
VmOwn.v
VmMapInv.v
VmClip.v
VmMapOps.v
VmDelete.v
VmSimplify.v
VmEnter.v
VmWire.v
VmFault.v
VmUser.v
VmObject.v
VmObjectInv.v
VmObjectFree.v
VmObjectCollapse.v
VmObjectLaws.v
VmObjectView.v
VmSamples.v
Samples.v
RightTheorems.v
SpaceTheorems.v
PortTheorems.v
MessageTheorems.v
ObjectTheorems.v
RequestTheorems.v
KmsgTheorems.v
VmTheorems.v
LockTheorems.v
