(* ===== verification/Prelude.v ===== *)
(** * The core of the Mach 4 kernel: ports and address spaces

    This development models three parts of the Mach 4 kernel: the one that gives
    ports, names and rights their meaning (the directory mach4/kernel/ipc),
    address maps with the memory objects behind them (mach4/kernel/vm), and the
    locks for readers and writers that protect the maps (kern/lock.c).  A task
    reaches a port by a name of its IPC space; the space translates the name
    to an entry, which holds a kind of right, a count of user references and
    the port.  Rights travel in messages: the kernel copies them in from the
    sender's space and out to the receiver's.  What must hold across all of
    this is that names mean what they should after every operation, that no
    right and no reference of a port is lost or made up, and that whoever
    asked to be notified is.

    The memory of a task is an address map: a sequence of entries sorted by
    address, in a circular list with two hints, each of which maps a range to
    a part of a memory object.  An object is a set of pages, and for those it
    does not have, the object it shadows; copies of copies make chains of
    shadows, which the kernel shortens.  What must hold is that an operation
    on a range changes exactly that range, that the reference counts of
    objects are the number of references to them, and that shortening a chain
    does not change what is found at an offset.

    ** Parts of the program and files of the development

    - [Prelude]: 32-bit arithmetic, lists linked by indices, generic lemmas.
    - [Names] (ipc/port.h, ipc_entry.h, include/mach/port.h): names as index
      and generation, the bits of an entry.  The class [PortConfig] stands for
      the build option PORT_GENERATIONS; everything is proved for both values.
    - [Splay] (ipc_splay.c): the splay tree of a space.  The C code keeps the
      tree in three parts with two pointers to where the parts continue; the
      model keeps the two outer parts as lists of frames.  The abstract state
      is the sorted list of entries [to_list], and every operation is shown to
      implement the operation on that list.  The traversal inverts pointers;
      its state [traversal] is the current node and the inverted path.
    - [Table] (ipc_table.c): the tables of sizes, computed by the functions
      that compute them at boot.  The class [EntrySizes] has what the rest
      relies on (increasing, the last two equal, within the range of indices)
      and [ipc_table_entries_sizes] shows that the computed table has it.
    - [Space]: entries, tree entries and spaces as records.  A pointer to an
      entry is [entry_ref]: an index of the table or a tree entry.
    - [Hash] (ipc_hash.c): the reverse tables from ports to names, the local
      one inside the entry table and the global one for tree entries.
    - [Entry] (ipc_entry.c, the body of ipc_space_create): lookup, allocation,
      deallocation and growth of the table.  The space is unlocked while the
      code allocates memory or waits; there the model applies [other_threads]
      of the [environment], and the allocators are parameters too.
    - [EntryInv], [Alloc], [Dealloc], [Grow], [Retry]: the invariant
      [space_inv] (free list, collision bits, splay tree and counters agree),
      the meaning of names [denotes] and [means], and the proofs that each
      operation changes exactly the names it should.  The invariant allows one
      name, the hole, whose entry is allocated and has no type yet: this is
      the state between ipc_entry_get and the caller's writing of the right.
      [Retry] treats the loops that drop the lock: [well_behaved] is what
      other threads may do.
    - [World] (ipc_object.h, ipc_port.h, ipc_pset.h, ipc_mqueue.h): kernel
      memory for ports, port sets, messages and waiting threads, by address,
      and the output (notifications, wake-ups, frees) as a list of [event]s.
      Code runs in the monad [M]; [None] is an access to memory that is not
      there.  Theorems that an operation returns [Some] therefore also say
      that it touches no freed object.
    - [Queue] (ipc_thread.h, ipc_thread.c, ipc_kmsg.h, ipc_kmsg.c): the
      circular queues of threads and of messages, as linked memory.  The class
      [QueueOps] has the routines that change a queue and [QueueLaws] says that
      they implement lists; it is proved for both kinds, and the other files
      use lists.
    - [Port] (ipc_port.c, ipc_pset.c, ipc_mqueue.c): dead-name, no-senders and
      port-destroyed requests, the queue limit, the receiver, port sets,
      moving messages between queues, the check for circles of receive rights
      in transit, send and send-once rights without a name, destruction.
      [PortInv], [PortQueue] and [PortDestroy] hold their properties.
    - [Mqueue] (ipc_mqueue.c): sending and receiving.  Both block, so they are
      steps of a thread between the points where other threads run; [step]
      interleaves any number of threads with timeouts, interruptions and
      changes of queue limits.  [MqueueSpec] is an abstract machine of senders
      and receivers with its invariant, and [MqueueInv] the simulation.
    - [Right] (ipc_right.c): all functions on rights.  They use a space only
      through the class [NameSpace]; [space_names] is the instance made of the
      operations of [Entry] and [Hash].
    - [RightLaws]: the class [NameSpaceLaws] of what rights rely on, proved
      for [space_names].  [RightBits] describes the bits of an entry by type,
      user references and flags; [RightWp] has rules for the calls the
      functions make; [RightInv], [RightOps] and [RightNotify] have the
      specifications of the functions, all against [NameSpaceLaws].
    - [Object] (ipc_object.c): names and objects allocated together, copyin and
      copyout of rights.  These routines allocate entries through the class
      [NameAlloc]; [ObjectInv] has its laws [NameAllocLaws], the proof that
      ipc_entry.c satisfies them, and the specifications of the routines.
    - [PortSpace] (ipc_port.c, ipc_pset.c, ipc_space.c, ipc_mqueue.c): what
      ports and sets do in a space, and the destruction of a space.
    - [MachPort] (mach_port.c): the system calls on names, of the new and of
      the old interface.  [ListInv] treats those that list a space.
    - [Marequest] (ipc_marequest.c): message-accepted requests in a chained
      hash table; [MarequestInv] relates its memory to a finite map.
    - [Kmsg] (ipc_kmsg.c): the headers of messages.  The frequent cases of
      ipc_kmsg_copyin_header, ipc_kmsg_copyout_header and
      ipc_kmsg_copyout_object are done by hand on the entries of the table, and
      everything else is done by the general code; both are translated, and
      [KmsgInv] shows that they agree.
    - [KmsgBody] (ipc_kmsg.c): the bodies of messages, sequences of type
      descriptors and data in a buffer of words, for the new interface, the
      old one and the kernel.  What the loops call, for rights and for memory,
      is the class [BodyOps]; [KmsgOps] is the instance in which the calls for
      rights are the routines of the files above and those for memory a
      parameter, the class [UserMemory].  [BodyLaws] of [KmsgBodyInv] is what
      the loops rely on (a right or a piece of memory that was taken can be
      released, once); [KmsgCopyin] and [KmsgCopyout] are proved against it,
      and [KmsgSamples] has an instance of the laws and concrete messages.
    - [Vm] (vm_map.h, vm_prot.h, vm_inherit.h, vm_param.h): entries, links and
      maps in memory, by address; the header of a map is a link at the address
      of the map, as in the code.  The class [ObjectOps] has the calls by which
      maps use memory objects; calls of the physical maps (pmap) and of the
      fault code are events.
    - [VmMap] (vm_map.c, vm_kern.c): the operations on maps.  Where the code
      waits it applies what other threads do, [vm_others] of the environment.
    - [VmRing], [VmOwn], [VmMapInv]: the links in memory as a list of regions
      ([rg_list]), the state that an operation owns ([own]), the meaning of an
      address ([mapped]) and the class [ObjectLaws] of what maps rely on.
      [VmClip], [VmMapOps], [VmDelete], [VmSimplify], [VmEnter], [VmWire] and
      [VmFault] have the specifications of clipping, the operations on ranges,
      deletion, joining of entries, entering, wiring and the lookup for a page
      fault.
    - [VmUser] (vm_user.c): the system calls that do not copy memory.
    - [VmObject] (vm_object.c, vm_resident.c): memory objects and their pages;
      [object_ops] is the instance of [ObjectOps] made of them.  [VmObjectInv],
      [VmObjectFree] and [VmObjectCollapse] have the invariant [obj_inv] (the
      counts, the pages, the ports, the cache and the order of the shadows)
      and the specifications; [VmObjectLaws] shows that [object_ops] satisfies
      [ObjectLaws], and [VmObjectView] defines the contents of an object.
    - [Lock] (kern/lock.c): sleep locks.  A routine is what it does between the
      points where it gives up the interlock, to spin or to sleep; [lock_continue]
      runs a thread on from such a point.  [LockInv] has the threads that use a
      lock ([lock_step], [lock_reachable]), what each of them holds and the
      invariant; [LockSteps] shows that every routine keeps it, and [LockView]
      what the lock is for others and who keeps a thread waiting.
    - [Samples], [KmsgSamples], [VmSamples]: small concrete states.
    - [RightTheorems], [SpaceTheorems], [PortTheorems], [MessageTheorems],
      [ObjectTheorems], [RequestTheorems], [KmsgTheorems], [VmTheorems],
      [LockTheorems]: the theorems, each with its application to a concrete
      state at the end of the file.

    ** What the theorems show

    - Rights ([RightTheorems]): copyin and copyout conserve the rights and
      references of a port ([balanced] is the equation) for all dispositions;
      refusals change nothing; a dead port turns names into dead names; the
      check before a copyin predicts it; deallocation and changes of the
      16-bit reference counts do what they say at every boundary; dead-name
      requests are registered.  One theorem shows a defect: the compatibility
      copyin leaves a freed entry in the reverse hash table.
    - Spaces ([SpaceTheorems]): the operations keep spaces well formed;
      lookup, allocation, deallocation and growth change the meaning of exactly
      the right names; the loops that grow and retry return; the reverse hash
      tables and the splay tree implement finite maps.  One theorem shows a
      defect with port generations: a name of index 0 is allocated and never
      found.
    - Ports ([PortTheorems]): no circles of receive rights in transit, the
      no-senders notification, the death of a port and who is told, backup
      ports, the order of messages when a port changes queues, the table of
      dead-name requests.
    - Messages ([MessageTheorems]): in every reachable state of any number of
      threads a message is in one place, and where a sender is blocked there is
      a message to receive or a thread at work on one for that port; the code
      follows the abstract machine; calls that fail keep the message; queues
      implement lists.  The theorem on senders leaves out messages marked
      circular, and one theorem shows why: destroying such a message uses up a
      wake-up and leaves the next sender asleep.
    - Capabilities and calls ([ObjectTheorems]): copyin and copyout on the
      translated space conserve rights and touch one name, refusals included;
      allocation gives new names; the listings have every name once.  Theorems
      show a defect, a compatibility right that is freed twice when its port is
      dead, and two places where the code departs from its documentation (a
      queue limit of 0 is accepted; codes of port_set_deallocate).
    - Requests ([RequestTheorems]): the table of message-accepted requests
      implements a finite map through all its operations, and a sender that
      forces a message into a queue is told once.
    - Message contents ([KmsgTheorems]): copyin of a message terminates and is
      all or nothing, whatever the user wrote into it, as long as no array of
      ports has a length that overflows; cleaning a message releases what it
      holds once, and copyout hands all of it on; the cases done by hand do
      what the general code does.  Theorems show three defects: the overflow
      (the code runs over the end of its buffer), rights made up by messages
      of the old interface, and a dead space that still receives.
    - Memory ([VmTheorems]): lookup finds the entry of an address wherever the
      hint is; entering a range, at an address or at the first place where it
      fits, removing it, and changing its protection or inheritance change
      exactly that range, keep the map well formed and the references right,
      and refusals change no entry; what was entered can be removed, also by
      the system calls.  Wiring counts every entry of the range, and gives it
      the object a fault would, or takes its counts back; unwiring changes all
      of the range or nothing.  The lookup for a fault finds the object of the
      page and resolves what is copied on write.  Joining entries leaves
      every address mapped to what it was.  Objects:
      a reference that is given back is the only one that goes, down the chain
      of shadows; collapsing a chain ends and keeps the contents.  Theorems
      show three defects: a search for space that wraps around returns with the
      map locked, an allocation whose size wraps around succeeds with nothing,
      and the test for projected buffers reaches one address too far.
    - Locks ([LockTheorems]): whatever any number of threads do that release
      what they hold and lock again only as a writer that may, a writer is alone;
      nobody sleeps in vain; and each step is a turn of the lock that [Vm] gives
      to maps.  The bounds: a thread holds the lock less than 4096 times and all
      of them less than 65536 times, which the fields of the lock can count.
      Theorems show two defects of recursive locks: an upgrade that keeps nobody
      out, and a panic after an upgrade.

    ** Fuel

    Loops that are not structural take fuel.  Splaying takes the size of the
    tree and the searches of the hash table its size, which is always enough
    (the specifications hold without a condition on fuel).  The loop of
    ipc_entry_grow_table takes the number of table sizes: each round grows the
    table, or returns, and [grow_table_terminates] shows that the fuel does
    not run out.  ipc_entry_alloc and ipc_entry_alloc_name retry as long as
    other threads grow the table, or take what it offers, in between; their
    fuel is an argument, and the theorems say how much is enough for a thread
    that runs alone.  The chain of destinations is followed with the number
    of ports as fuel, which is enough if there is no circle.  The search for
    a request in its chain takes the number of requests.  The loops over the
    body of a message take its number of words ([body_fuel]); every item has
    a descriptor of one word at least, and the theorems on messages show that
    this is enough.
    ipc_object_copyout and the compatibility copyouts retry when the space
    changed while it was unlocked, and mach_port_names and
    mach_port_get_set_status when their memory was too small; the fuel is an
    argument, and two rounds are enough for a thread that runs alone.  Sending
    to the kernel sends the reply, which may be to the kernel again; its fuel
    is the length of this chain, and [None] means a longer one.
    Loops over the entries of a map take the number of links in memory and two
    ([ring_fuel]), which is enough for a well-formed map; entering with
    wait_for_space retries [vm_patience] times, and deletion can wait as many
    times for entries in transition; more waits are [None].  vm_map_lookup
    starts anew when it loses the lock or meets a submap, with the fuel as an
    argument; the theorem on it takes a map without submaps and says nothing
    of lost locks, and needs no fuel.  Releasing an object follows its shadows with the number of
    objects and [oe_patience] waits as fuel, collapsing takes the number of
    objects, and the theorems show that both end.

    ** Not modelled

    Locks: an operation runs as a whole except where the code gives up the
    lock of the space or of the port, or blocks; the order of lock acquisition
    and the attempt to lock in ipc_port_check_circularity appear as arguments.
    Allocation of message buffers and the copying of whole messages
    (ipc_kmsg_get, ipc_kmsg_put and ipc_kmsg_destroy), and mach_msg.c with its
    variants.  The memory that a message carries is a token of the class
    [BodyOps], not an address space.  Notifications as messages
    (ipc_notify.c): calls appear as events.  Calls from other files to
    ipc_marequest.c also are events, which [serve_request] runs.
    old_mach_port_get_receive_status and the calls for migrating threads.  The
    configuration is the one the kernel is built with: MACH_IPC_COMPAT on,
    NORMA_IPC off, assertions off.  ipc_entry_grow_table reads one element past
    the table of sizes when the table cannot grow (the value is not used); the
    model reads 0 there.

    Of memory: copying of ranges (vm_map_copyin, vm_map_copyout, vm_map_fork and
    what they call, with the system calls vm_read, vm_write, vm_copy and vm_map),
    page faults after the lookup, the paging daemon, pagers (memory_object.c,
    vm_object_enter), the physical maps, and the queues of pages outside
    objects; NORMA_VM is off, and the map of the pages a pager has (MACH_PAGEMAP)
    is an address.  The page hash
    table is the search in the pages of the object.  An operation on a map runs
    with its lock, by itself; the object locks do not appear.  Of locks: simple
    locks, which are test-and-set instructions or, on one processor, debugging
    code; a loop that waits with the interlock held (a lock that cannot sleep, on
    one processor) does not end, and is [None].

    Open: ipc_notify.c; vm_map_copy; theorems on mach_port_rename and ipc_object_copyout_name;
    an invariant that the reverse hash tables hold exactly the pure send
    rights, which the defect of the compatibility copyin breaks. *)

From stdpp Require Export base list gmap sorting.
From Stdlib Require Export ZArith Lia.

#[global] Open Scope Z_scope.

(** ** Machine integers

    [natural_t], [mach_port_t], [ipc_entry_bits_t] and the counters of the IPC
    structures are 32-bit unsigned integers: they are kept in [Z] and every
    arithmetic operation that can leave the range is followed by [u32]. *)

Definition u32_max : Z := 4294967295.

Definition u32 (x : Z) : Z := x mod 4294967296.

Definition u32_range (x : Z) : Prop := 0 <= x <= u32_max.

Lemma u32_id x : u32_range x -> u32 x = x.
Proof. unfold u32_range, u32_max, u32. intros. apply Z.mod_small. lia. Qed.

Lemma u32_in_range x : u32_range (u32 x).
Proof.
  unfold u32_range, u32_max, u32.
  pose proof (Z.mod_pos_bound x 4294967296). lia.
Qed.

(** ** Sorted association lists

    The abstract value of a splay tree: its entries in increasing order of
    name. *)

Definition keys {A} (l : list (Z * A)) : list Z := map fst l.

Definition ksorted {A} (l : list (Z * A)) : Prop := StronglySorted Z.lt (keys l).

Section sorted_lists.
Context {A : Type}.
Implicit Types l : list (Z * A).

Lemma keys_app l1 l2 : keys (l1 ++ l2) = keys l1 ++ keys l2.
Proof. apply map_app. Qed.

Lemma elem_of_keys l n : n ∈ keys l <-> exists e, (n, e) ∈ l.
Proof.
  unfold keys. rewrite list_elem_of_In, in_map_iff. split.
  - intros [[m e] [? ?]]. simpl in *. subst. exists e. by apply list_elem_of_In.
  - intros [e ?]. exists (n, e). split; [done|]. by apply list_elem_of_In.
Qed.

Lemma elem_of_keys_pair l n e : (n, e) ∈ l -> n ∈ keys l.
Proof. rewrite elem_of_keys. eauto. Qed.

Lemma ssorted_app (k1 k2 : list Z) :
  StronglySorted Z.lt (k1 ++ k2) <->
  StronglySorted Z.lt k1 /\ StronglySorted Z.lt k2 /\
  (forall x y, x ∈ k1 -> y ∈ k2 -> x < y).
Proof.
  induction k1 as [|a k1 IH]; simpl.
  { split; [intros H; split_and!; [constructor|done|set_solver]|naive_solver]. }
  split.
  - intros H. apply StronglySorted_inv in H as [H Ha].
    apply IH in H as (H1 & H2 & H3). rewrite Forall_app in Ha. destruct Ha as [Ha1 Ha2].
    split_and!; [by constructor|done|]. intros x y Hx Hy.
    apply elem_of_cons in Hx as [->|Hx]; [|by apply H3].
    rewrite Forall_forall in Ha2. by apply Ha2.
  - intros (H1 & H2 & H3). apply StronglySorted_inv in H1 as [H1 Ha]. constructor.
    + apply IH. split_and!; [done|done|]. intros. apply H3; set_solver.
    + rewrite Forall_app. split; [done|]. apply Forall_forall. intros. apply H3; set_solver.
Qed.

Lemma ksorted_app l1 l2 :
  ksorted (l1 ++ l2) <->
  ksorted l1 /\ ksorted l2 /\ (forall x y, x ∈ keys l1 -> y ∈ keys l2 -> x < y).
Proof. unfold ksorted. rewrite keys_app. apply ssorted_app. Qed.

Lemma ksorted_cons n e l :
  ksorted ((n, e) :: l) <-> ksorted l /\ (forall y, y ∈ keys l -> n < y).
Proof.
  change ((n, e) :: l) with ([(n, e)] ++ l). rewrite ksorted_app. split.
  - intros (_ & ? & H). split; [done|]. intros. apply H; simpl; set_solver.
  - intros [? H]. split_and!; [repeat constructor|done|]. simpl.
    intros x y Hx. apply list_elem_of_singleton in Hx as ->. apply H.
Qed.

Lemma ksorted_NoDup l : ksorted l -> NoDup (keys l).
Proof.
  unfold ksorted. induction 1 as [|a k ? IH Ha]; constructor; [|done].
  intros Hin. rewrite Forall_forall in Ha. specialize (Ha _ Hin). lia.
Qed.

Lemma ksorted_unique l n e1 e2 :
  ksorted l -> (n, e1) ∈ l -> (n, e2) ∈ l -> e1 = e2.
Proof.
  induction l as [|[m e] l IH]; intros Hs H1 H2; [set_solver|].
  apply ksorted_cons in Hs as [Hs Hm].
  rewrite elem_of_cons in H1, H2.
  destruct H1 as [H1|H1], H2 as [H2|H2]; simplify_eq; try done.
  - apply elem_of_keys_pair, Hm in H2. lia.
  - apply elem_of_keys_pair, Hm in H1. lia.
  - by apply IH.
Qed.

(** The entries of a sorted list below, from and above a name. *)
Definition below (name : Z) l : list (Z * A) := filter (fun p => p.1 < name) l.
Definition from (name : Z) l : list (Z * A) := filter (fun p => name <= p.1) l.
Definition above (name : Z) l : list (Z * A) := filter (fun p => name < p.1) l.

Lemma filter_keys_all (P : Z * A -> Prop) `{forall x, Decision (P x)} l :
  (forall n e, n ∈ keys l -> P (n, e)) -> filter P l = l.
Proof.
  induction l as [|[n e] l IH]; intros Hl; [done|].
  rewrite filter_cons_True by (apply Hl; set_solver).
  rewrite IH; [done|]. intros; apply Hl. set_solver.
Qed.

Lemma filter_keys_none (P : Z * A -> Prop) `{forall x, Decision (P x)} l :
  (forall n e, n ∈ keys l -> ~ P (n, e)) -> filter P l = [].
Proof.
  induction l as [|[n e] l IH]; intros Hl; [done|].
  rewrite filter_cons_False by (apply Hl; set_solver).
  apply IH. intros; apply Hl. set_solver.
Qed.

Lemma below_app name l r :
  (forall x, x ∈ keys l -> x < name) -> (forall x, x ∈ keys r -> name <= x) ->
  below name (l ++ r) = l.
Proof.
  intros Hl Hr. unfold below. rewrite filter_app.
  rewrite filter_keys_all, filter_keys_none; [by rewrite app_nil_r| |naive_solver].
  intros x e Hx. apply Hr in Hx. simpl. lia.
Qed.

Lemma from_app name l r :
  (forall x, x ∈ keys l -> x < name) -> (forall x, x ∈ keys r -> name <= x) ->
  from name (l ++ r) = r.
Proof.
  intros Hl Hr. unfold from. rewrite filter_app.
  rewrite filter_keys_none, filter_keys_all; [done|naive_solver|].
  intros x e Hx. apply Hl in Hx. simpl. lia.
Qed.

Lemma above_app name l r :
  (forall x, x ∈ keys l -> x <= name) -> (forall x, x ∈ keys r -> name < x) ->
  above name (l ++ r) = r.
Proof.
  intros Hl Hr. unfold above. rewrite filter_app.
  rewrite filter_keys_none, filter_keys_all; [done|naive_solver|].
  intros x e Hx. apply Hl in Hx. simpl. lia.
Qed.

Lemma ksorted_remove l c r : ksorted (l ++ c :: r) -> ksorted (l ++ r).
Proof.
  destruct c as [n e]. rewrite !ksorted_app, ksorted_cons. intros (? & [? ?] & Hlt).
  split_and!; [done..|]. intros x y Hx Hy. apply Hlt; [done|]. simpl. apply elem_of_cons. by right.
Qed.

Lemma ksorted_two l x m y r : ksorted (l ++ x :: m ++ y :: r) -> x.1 < y.1.
Proof.
  rewrite ksorted_app. intros (_ & Hs & _). destruct x as [n e].
  apply ksorted_cons in Hs as [_ Hs]. apply Hs. rewrite keys_app, elem_of_app. simpl.
  rewrite elem_of_cons. tauto.
Qed.

Lemma elem_of_keys_around n e l r x :
  x ∈ keys (l ++ (n, e) :: r) <-> x ∈ keys l \/ x = n \/ x ∈ keys r.
Proof. rewrite keys_app, elem_of_app. simpl. by rewrite elem_of_cons. Qed.

(** The three filters on a list split around an entry a search stopped at. *)
Lemma filters_around name n e l r :
  (forall x, x ∈ keys l -> x < name /\ x < n) -> (forall x, x ∈ keys r -> name < x /\ n < x) ->
  below name (l ++ (n, e) :: r) = (if n <? name then l ++ [(n, e)] else l) /\
  from name (l ++ (n, e) :: r) = (if n <? name then r else (n, e) :: r) /\
  above name (l ++ (n, e) :: r) = (if name <? n then (n, e) :: r else r).
Proof.
  intros Hl Hr.
  assert (Hl1 : forall x, x ∈ keys l -> x < name) by naive_solver.
  assert (Hr1 : forall x, x ∈ keys r -> name < x) by naive_solver.
  assert (Hcons : l ++ (n, e) :: r = (l ++ [(n, e)]) ++ r) by (by rewrite <- app_assoc).
  assert (Hsnoc : forall x, x ∈ keys (l ++ [(n, e)]) -> x < name \/ x = n).
  { intros x. rewrite keys_app, elem_of_app. simpl. rewrite list_elem_of_singleton. naive_solver. }
  split_and!; destruct (Z.ltb_spec n name), (Z.ltb_spec name n); try lia;
    first [rewrite Hcons; (apply below_app || apply from_app || apply above_app)
          |(apply below_app || apply from_app || apply above_app)];
    intros x Hx; try (apply elem_of_cons in Hx as [->|Hx]);
    try (apply Hsnoc in Hx); try (apply Hl1 in Hx); try (apply Hr1 in Hx); simpl in *; lia.
Qed.

Lemma elem_of_keys_below name l x : x ∈ keys (below name l) <-> x ∈ keys l /\ x < name.
Proof.
  rewrite !elem_of_keys. unfold below. setoid_rewrite list_elem_of_filter. naive_solver.
Qed.

Lemma elem_of_keys_from name l x : x ∈ keys (from name l) <-> x ∈ keys l /\ name <= x.
Proof.
  rewrite !elem_of_keys. unfold from. setoid_rewrite list_elem_of_filter. naive_solver.
Qed.

Lemma elem_of_keys_above name l x : x ∈ keys (above name l) <-> x ∈ keys l /\ name < x.
Proof.
  rewrite !elem_of_keys. unfold above. setoid_rewrite list_elem_of_filter. naive_solver.
Qed.

Lemma elem_of_keys_filter (P : Z * A -> Prop) `{forall x, Decision (P x)} l x :
  x ∈ keys (filter P l) -> x ∈ keys l.
Proof. rewrite !elem_of_keys. intros [e He]. apply list_elem_of_filter in He. naive_solver. Qed.

Lemma ksorted_filter (P : Z * A -> Prop) `{forall x, Decision (P x)} l :
  ksorted l -> ksorted (filter P l).
Proof.
  induction l as [|[n e] l IH]; [done|]. rewrite ksorted_cons. intros [Hs Hn].
  rewrite filter_cons. destruct (decide _); [|by apply IH].
  apply ksorted_cons. split; [by apply IH|]. intros y Hy%elem_of_keys_filter. by apply Hn.
Qed.

Lemma below_from name l : ksorted l -> below name l ++ from name l = l.
Proof.
  induction l as [|[n e] l IH]; [done|]. rewrite ksorted_cons. intros [Hs Hn].
  unfold below, from in *. rewrite !filter_cons. simpl.
  destruct (decide (n < name)) as [Hlt|Hge].
  - rewrite decide_False by lia. simpl. by rewrite IH.
  - rewrite decide_True by lia. rewrite filter_keys_none, filter_keys_all; [done|..];
      intros x e' Hx; apply Hn in Hx; simpl; lia.
Qed.

Lemma below_above name l : ksorted l -> name ∉ keys l -> below name l ++ above name l = l.
Proof.
  intros Hs Hn. rewrite <- (below_from name l Hs) at 3. f_equal. clear Hs. unfold above, from.
  induction l as [|[x e] l IH]; [done|]. simpl in Hn. apply not_elem_of_cons in Hn as [Hx Hn].
  rewrite !filter_cons. simpl. rewrite IH by done. by repeat case_decide; try lia.
Qed.

(** Inserting and removing an entry of a sorted list, up to the order. *)
Lemma insert_perm name (e : A) l :
  ksorted l -> name ∉ keys l -> below name l ++ (name, e) :: above name l ≡ₚ (name, e) :: l.
Proof. intros. rewrite <- Permutation_middle. by rewrite below_above. Qed.

Lemma remove_perm name (e : A) l :
  ksorted l -> (name, e) ∈ l -> l ≡ₚ (name, e) :: below name l ++ above name l.
Proof.
  intros Hs Hin. apply list_elem_of_split in Hin as (l1 & l2 & ->).
  apply ksorted_app in Hs as (Hs1 & Hs2 & Hlt). apply ksorted_cons in Hs2 as [Hs2 Hgt].
  destruct (filters_around name name e l1 l2) as (-> & _ & ->).
  - intros x Hx. enough (x < name) by lia. apply Hlt; [done|]. simpl. apply elem_of_cons. by left.
  - intros x Hx. apply Hgt in Hx. lia.
  - rewrite Z.ltb_irrefl. by rewrite Permutation_middle.
Qed.

End sorted_lists.

(** [simplify_sorted] opens every [ksorted] hypothesis and goal over appends
    and conses. *)
Create Rewrite HintDb ksorted.
#[export] Hint Rewrite @ksorted_app @ksorted_cons @keys_app : ksorted.

Ltac simplify_sorted :=
  repeat (autorewrite with ksorted in *; destruct_and?; simpl in *).

(** [in_keys] proves that a name is a key of an append of lists. *)
Ltac in_keys :=
  simpl; rewrite ?keys_app; simpl;
  rewrite ?elem_of_app, ?elem_of_cons, ?list_elem_of_singleton; tauto.

(** ** Bit fields

    [field s w] is a mask of [w] bits starting at bit [s].  The masks of the C
    headers are literals; each is shown equal to its [field] by computation,
    and [bitwise] then proves equations between bit expressions by looking at
    one bit at a time. *)

Definition field (s w : Z) : Z := Z.shiftl (Z.ones w) s.

Lemma field_testbit s w i :
  0 <= s -> 0 <= w -> 0 <= i -> Z.testbit (field s w) i = (s <=? i) && (i <? s + w).
Proof.
  intros Hs Hw Hi. unfold field.
  rewrite Z.shiftl_spec by done.
  destruct (Z.leb_spec s i) as [Hle|Hlt]; simpl.
  - rewrite Z.testbit_ones_nonneg by lia. destruct (Z.ltb_spec (i - s) w), (Z.ltb_spec i (s + w)); lia.
  - by rewrite Z.testbit_neg_r by lia.
Qed.

Lemma u32_testbit_high x i : u32_range x -> 32 <= i -> Z.testbit x i = false.
Proof.
  unfold u32_range, u32_max. intros [H0 H1] Hi.
  destruct (Z.eq_dec x 0) as [->|Hx]; [by rewrite Z.bits_0|].
  apply Z.bits_above_log2; [done|].
  enough (Z.log2 x < 32) by lia. apply Z.log2_lt_pow2; lia.
Qed.

Lemma u32_range_bits x :
  0 <= x -> (forall i, 32 <= i -> Z.testbit x i = false) -> u32_range x.
Proof.
  intros H0 Hbits. split; [done|]. unfold u32_max.
  destruct (Z_lt_le_dec x (2 ^ 32)) as [Hlt|Hge]; [lia|]. exfalso.
  assert (Hx : 0 < x) by lia.
  pose proof (Z.bit_log2 x Hx) as Hb.
  assert (32 <= Z.log2 x) by (apply Z.log2_le_pow2; lia).
  rewrite Hbits in Hb; done.
Qed.

Lemma land_range x m : u32_range x -> u32_range (Z.land x m).
Proof.
  intros Hx. apply u32_range_bits; [apply Z.land_nonneg; left; apply Hx|].
  intros i Hi. by rewrite Z.land_spec, (u32_testbit_high x).
Qed.

Lemma lor_range x y : u32_range x -> u32_range y -> u32_range (Z.lor x y).
Proof.
  intros Hx Hy. apply u32_range_bits; [apply Z.lor_nonneg; split; [apply Hx|apply Hy]|].
  intros i Hi. by rewrite Z.lor_spec, !u32_testbit_high.
Qed.

(** Splits on the position of a bit index against the literal bounds in the
    goal. *)
Ltac bit_cases :=
  repeat match goal with
  | |- context [?a <=? ?b] => destruct (Z.leb_spec a b); simpl; try lia
  | |- context [?a <? ?b] => destruct (Z.ltb_spec a b); simpl; try lia
  end.

(** ** Lists threaded through arrays

    [linked_list next start l]: the successors of [start] are the elements of
    [l], and the last one has the successor 0. *)

Fixpoint linked_list (next : Z -> Z) (start : Z) (l : list Z) : Prop :=
  match l with
  | [] => next start = 0
  | i :: l => next start = i /\ linked_list next i l
  end.

Lemma linked_list_ext next next' start l :
  (forall j, j = start \/ j ∈ l -> next' j = next j) ->
  linked_list next start l -> linked_list next' start l.
Proof.
  revert start. induction l as [|i l IH]; intros start Heq; simpl.
  - rewrite Heq by auto. done.
  - rewrite Heq by auto. intros [? Hc]. split; [done|]. apply IH; [|done].
    intros j [->|Hj]; apply Heq; right; apply elem_of_cons; auto.
Qed.

(** Taking the first element off the list, and putting one in front of it. *)
Lemma linked_list_pop next next' start i l :
  linked_list next start (i :: l) -> NoDup (i :: l) -> start ∉ l ->
  next' start = next i -> (forall j, j ∈ l -> next' j = next j) ->
  linked_list next' start l.
Proof.
  intros [_ Hc] Hnd Hs Hstart Heq. destruct l as [|k l]; simpl in *; rewrite Hstart; [done|].
  destruct Hc as [Hk Hc]. split; [done|]. apply (linked_list_ext next); [|done].
  intros j [->|Hj]; apply Heq; apply elem_of_cons; auto.
Qed.

Lemma linked_list_push next next' start i l :
  linked_list next start l -> next' start = i -> next' i = next start ->
  (forall j, j ∈ l -> next' j = next j) ->
  linked_list next' start (i :: l).
Proof.
  intros Hc Hstart Hi Heq. split; [done|]. destruct l as [|k l]; simpl in *; rewrite Hi; [done|].
  destruct Hc as [Hk Hc]. split; [done|]. apply (linked_list_ext next); [|done].
  intros j [->|Hj]; apply Heq; apply elem_of_cons; auto.
Qed.

(** The same, from the index of the first element. *)
Definition linked_from (next : Z -> Z) (v : Z) (l : list Z) : Prop :=
  match l with
  | [] => v = 0
  | i :: l => v = i /\ linked_list next i l
  end.

Lemma linked_from_start next start l : linked_list next start l <-> linked_from next (next start) l.
Proof. by destruct l. Qed.

Lemma linked_from_ext next next' v l :
  (forall j, j ∈ l -> next' j = next j) -> linked_from next v l -> linked_from next' v l.
Proof.
  destruct l as [|i l]; [done|]. intros Heq [? Hc]. split; [done|]. apply (linked_list_ext next); [|done].
  intros j [->|Hj]; apply Heq, elem_of_cons; auto.
Qed.

Lemma linked_from_push next next' v i l :
  linked_from next v l -> next' i = v -> (forall j, j ∈ l -> next' j = next j) ->
  linked_from next' i (i :: l).
Proof.
  intros Hc Hi Heq. split; [done|]. rewrite linked_from_start, Hi. by apply (linked_from_ext next).
Qed.

(** A list of distinct indices below [n] has at most [n] elements. *)
Lemma range_length (fl : list Z) n :
  NoDup fl -> (forall i, i ∈ fl -> 0 <= i < Z.of_nat n) -> (length fl <= n)%nat.
Proof.
  intros Hnd Hr. rewrite <- (length_seq n 0), <- (length_map Z.of_nat).
  apply submseteq_length, NoDup_submseteq; [done|].
  intros i Hi. apply Hr in Hi. apply list_elem_of_fmap. exists (Z.to_nat i).
  split; [lia|]. apply elem_of_seq. lia.
Qed.

(** ** Functions changed at one place *)

Definition upd {K V} `{EqDecision K} (x : K) (v : V) (f : K -> V) : K -> V :=
  fun y => if decide (y = x) then v else f y.

Lemma upd_eq {K V} `{EqDecision K} (x : K) (v : V) f : upd x v f x = v.
Proof. unfold upd. by rewrite decide_True. Qed.
Lemma upd_ne {K V} `{EqDecision K} (x y : K) (v : V) f : y <> x -> upd x v f y = f y.
Proof. intros. unfold upd. by rewrite decide_False. Qed.

(** The sum over distinct places changes by the change at one. *)
Lemma sum_upd {V} (f : V -> nat) (ts : list Z) t (x : V) (g : Z -> V) :
  NoDup ts -> t ∈ ts ->
  (sum_list_with (fun u => f (upd t x g u)) ts + f (g t) = sum_list_with (fun u => f (g u)) ts + f x)%nat.
Proof.
  induction ts as [|u ts IH]; intros Hnd Hin; [by apply elem_of_nil in Hin|].
  apply NoDup_cons in Hnd as [Hu Hnd]. simpl. destruct (decide (u = t)) as [->|Hne].
  - rewrite upd_eq. assert (Hs : sum_list_with (fun u => f (upd t x g u)) ts = sum_list_with (fun u => f (g u)) ts).
    { clear IH Hin Hnd. induction ts as [|v ts IH]; [done|]. apply not_elem_of_cons in Hu as [Hv Hu]. simpl. rewrite upd_ne, IH by congruence. done. }
    rewrite Hs. lia.
  - rewrite upd_ne by done. apply elem_of_cons in Hin as [Hin|Hin]; [congruence|]. specialize (IH Hnd Hin). lia.
Qed.

Lemma sum_member {V} (f : V -> nat) (ts : list Z) t (g : Z -> V) :
  t ∈ ts -> (f (g t) <= sum_list_with (fun u => f (g u)) ts)%nat.
Proof.
  induction ts as [|u ts IH]; intros Hin; [by apply elem_of_nil in Hin|]. simpl.
  apply elem_of_cons in Hin as [->|Hin]; [lia|]. specialize (IH Hin). lia.
Qed.

Lemma sum_bound {V} (f : V -> nat) (ts : list Z) (g : Z -> V) n :
  (forall u, f (g u) <= n)%nat -> (sum_list_with (fun u => f (g u)) ts <= length ts * n)%nat.
Proof. intros Hn. induction ts as [|u ts IH]; simpl; [lia|]. specialize (Hn u). lia. Qed.
