(* ===== verification/Names.v ===== *)
(** * Port names and entry bits (ipc/port.h, ipc/ipc_entry.h, mach/port.h)

    A [mach_port_t] is an index with a generation number below it, when the
    kernel is built with [PORT_GENERATIONS], and a plain index otherwise.  The
    build option is a class argument of the development: every theorem holds
    for both builds. *)

From S2P Require Import Prelude.

Class PortConfig := { PORT_GENERATIONS : bool }.

(** The configuration of the sources ([PORT_GENERATIONS] is defined nowhere)
    and the alternative one. *)
Definition plain_names : PortConfig := {| PORT_GENERATIONS := false |}.
Definition generation_names : PortConfig := {| PORT_GENERATIONS := true |}.

Definition MACH_PORT_NULL : Z := 0.
Definition MACH_PORT_DEAD : Z := u32_max.

Definition MACH_PORT_VALID (name : Z) : bool :=
  negb (name =? MACH_PORT_NULL) && negb (name =? MACH_PORT_DEAD).

(** ** Rights and types *)

Definition MACH_PORT_RIGHT_SEND : Z := 0.
Definition MACH_PORT_RIGHT_RECEIVE : Z := 1.
Definition MACH_PORT_RIGHT_SEND_ONCE : Z := 2.
Definition MACH_PORT_RIGHT_PORT_SET : Z := 3.
Definition MACH_PORT_RIGHT_DEAD_NAME : Z := 4.

Definition MACH_PORT_TYPE (right : Z) : Z := Z.shiftl 1 (right + 16).
Definition MACH_PORT_TYPE_NONE : Z := 0.
Definition MACH_PORT_TYPE_SEND : Z := MACH_PORT_TYPE MACH_PORT_RIGHT_SEND.
Definition MACH_PORT_TYPE_RECEIVE : Z := MACH_PORT_TYPE MACH_PORT_RIGHT_RECEIVE.
Definition MACH_PORT_TYPE_SEND_ONCE : Z := MACH_PORT_TYPE MACH_PORT_RIGHT_SEND_ONCE.
Definition MACH_PORT_TYPE_PORT_SET : Z := MACH_PORT_TYPE MACH_PORT_RIGHT_PORT_SET.
Definition MACH_PORT_TYPE_DEAD_NAME : Z := MACH_PORT_TYPE MACH_PORT_RIGHT_DEAD_NAME.
Definition MACH_PORT_TYPE_SEND_RECEIVE : Z :=
  Z.lor MACH_PORT_TYPE_SEND MACH_PORT_TYPE_RECEIVE.
Definition MACH_PORT_TYPE_SEND_RIGHTS : Z :=
  Z.lor MACH_PORT_TYPE_SEND MACH_PORT_TYPE_SEND_ONCE.
Definition MACH_PORT_TYPE_PORT_RIGHTS : Z :=
  Z.lor MACH_PORT_TYPE_SEND_RIGHTS MACH_PORT_TYPE_RECEIVE.
Definition MACH_PORT_TYPE_PORT_OR_DEAD : Z :=
  Z.lor MACH_PORT_TYPE_PORT_RIGHTS MACH_PORT_TYPE_DEAD_NAME.

Definition MACH_PORT_TYPE_DNREQUEST : Z := 0x80000000.
Definition MACH_PORT_TYPE_MAREQUEST : Z := 0x40000000.
Definition MACH_PORT_TYPE_COMPAT : Z := 0x20000000.

(** ** Names *)

Section names.
Context `{PortConfig}.

Definition MACH_PORT_INDEX (name : Z) : Z :=
  if PORT_GENERATIONS then Z.shiftr name 8 else name.

Definition MACH_PORT_GEN (name : Z) : Z :=
  if PORT_GENERATIONS then Z.shiftl (Z.land name 0xff) 24 else 0.

Definition MACH_PORT_MAKE (index gen : Z) : Z :=
  if PORT_GENERATIONS then Z.lor (u32 (Z.shiftl index 8)) (Z.shiftr gen 24) else index.

Definition IE_BITS_GEN_MASK : Z := if PORT_GENERATIONS then 0xff000000 else 0.
Definition IE_BITS_GEN (bits : Z) : Z :=
  if PORT_GENERATIONS then Z.land bits 0xff000000 else 0.
Definition IE_BITS_GEN_ONE : Z := if PORT_GENERATIONS then 0x01000000 else 0.

Definition MACH_PORT_MAKEB (index bits : Z) : Z := MACH_PORT_MAKE index (IE_BITS_GEN bits).
End names.

(** ** Entry bits *)

Definition IE_BITS_UREFS_MASK : Z := 0x0000ffff.
Definition IE_BITS_UREFS (bits : Z) : Z := Z.land bits IE_BITS_UREFS_MASK.
Definition IE_BITS_TYPE_MASK : Z := 0x001f0000.
Definition IE_BITS_TYPE (bits : Z) : Z := Z.land bits IE_BITS_TYPE_MASK.
Definition IE_BITS_MAREQUEST : Z := 0x00200000.
Definition IE_BITS_COMPAT : Z := 0x00400000.
Definition IE_BITS_COLLISION : Z := 0x00800000.
Definition IE_BITS_RIGHT_MASK : Z := 0x007fffff.

(** [bits & mask] as a C condition. *)
Definition has (bits mask : Z) : bool := negb (Z.land bits mask =? 0).

(** [bits &~ mask]. *)
Definition clear (bits mask : Z) : Z := Z.ldiff bits mask.

Definition MACH_PORT_UREFS_MAX : Z := 65535.

(** [urefs] is unsigned and [delta] signed, so the sums are 32-bit wrapped. *)
Definition MACH_PORT_UREFS_OVERFLOW (urefs delta : Z) : bool :=
  (0 <? delta) &&
  ((u32 (urefs + delta) <=? urefs) || (MACH_PORT_UREFS_MAX <? u32 (urefs + delta))).

Definition MACH_PORT_UREFS_UNDERFLOW (urefs delta : Z) : bool :=
  (delta <? 0) && (urefs <? u32 (- delta)).

(** ** The layout of names *)

Section layout.
Context `{PortConfig}.

(** Generations as they are stored in entry bits. *)
Definition gen_ok (gen : Z) : Prop := IE_BITS_GEN gen = gen /\ u32_range gen.

(** The number of indices a name can carry. *)
Definition index_limit : Z := MACH_PORT_INDEX MACH_PORT_DEAD.

Lemma gen_ok_cases gen :
  gen_ok gen <-> exists k, 0 <= k <= (if PORT_GENERATIONS then 255 else 0) /\ gen = k * 16777216.
Proof.
  unfold gen_ok, IE_BITS_GEN. destruct PORT_GENERATIONS.
  - change 0xff000000 with (Z.shiftl (Z.ones 8) 24). split.
    + intros [Heq [Hr1 Hr2]]. exists (Z.shiftr gen 24).
      rewrite Z.shiftr_div_pow2 by done. unfold u32_max in *.
      assert (Hd : gen = Z.shiftl (Z.shiftr gen 24) 24).
      { rewrite <- Heq at 1. apply Z.bits_inj'. intros i Hi.
        rewrite Z.land_spec, !Z.shiftl_spec by done.
        destruct (Z_lt_le_dec i 24).
        - rewrite !(Z.testbit_neg_r _ (i - 24)) by lia. by rewrite andb_false_r.
        - rewrite Z.shiftr_spec by lia. replace (i - 24 + 24) with i by lia.
          destruct (Z_lt_le_dec i 32).
          + rewrite Z.testbit_ones_nonneg by lia.
            rewrite (proj2 (Z.ltb_lt (i - 24) 8)) by lia. by rewrite andb_true_r.
          + by rewrite u32_testbit_high. }
      rewrite Z.shiftl_mul_pow2, Z.shiftr_div_pow2 in Hd by done.
      change (2 ^ 24) with 16777216 in *. lia.
    + intros (k & Hk & ->). unfold u32_range, u32_max. split; [|lia].
      replace (k * 16777216) with (Z.shiftl k 24) by (rewrite Z.shiftl_mul_pow2; lia).
      rewrite <- Z.shiftl_land. f_equal. rewrite Z.land_ones by done. apply Z.mod_small. lia.
  - unfold u32_range, u32_max. split.
    + intros [<- _]. exists 0. lia.
    + intros (k & Hk & ->). lia.
Qed.

Lemma MAKE_arith index gen :
  0 <= index -> gen_ok gen ->
  MACH_PORT_MAKE index gen =
  if PORT_GENERATIONS then u32 (index * 256) + gen / 16777216 else index.
Proof.
  intros Hi (k & Hk & ->)%gen_ok_cases. unfold MACH_PORT_MAKE.
  destruct PORT_GENERATIONS; [|done].
  rewrite Z.shiftl_mul_pow2, Z.shiftr_div_pow2 by done.
  change (2 ^ 8) with 256. change (2 ^ 24) with 16777216. rewrite Z.div_mul by done.
  assert (Hm : u32 (index * 256) = Z.shiftl (index mod 16777216) 8).
  { rewrite Z.shiftl_mul_pow2 by done. unfold u32. change (2 ^ 8) with 256.
    replace 4294967296 with (16777216 * 256) by done.
    rewrite Z.mul_mod_distr_r by done. done. }
  rewrite Hm.
  rewrite <- Z.lxor_lor, <- Z.add_nocarry_lxor; [done|..];
    apply Z.bits_inj'; intros i Hi'; rewrite Z.land_spec, Z.shiftl_spec, Z.bits_0 by done;
    destruct (Z_lt_le_dec i 8);
    first [rewrite (Z.testbit_neg_r _ (i - 8)) by lia; done
          |rewrite andb_comm, (Z.bits_above_log2 k i), ?andb_false_l; try done; try lia];
    destruct (Z.eq_dec k 0) as [->|]; try (simpl; lia);
    assert (Z.log2 k < 8) by (apply Z.log2_lt_pow2; lia); lia.
Qed.

Lemma INDEX_arith name :
  MACH_PORT_INDEX name = if PORT_GENERATIONS then name / 256 else name.
Proof. unfold MACH_PORT_INDEX. destruct PORT_GENERATIONS; [|done]. by rewrite Z.shiftr_div_pow2. Qed.

Lemma GEN_arith name :
  MACH_PORT_GEN name = if PORT_GENERATIONS then name mod 256 * 16777216 else 0.
Proof.
  unfold MACH_PORT_GEN. destruct PORT_GENERATIONS; [|done].
  change 0xff with (Z.ones 8). by rewrite Z.land_ones, Z.shiftl_mul_pow2.
Qed.

Lemma index_limit_val : index_limit = if PORT_GENERATIONS then 16777215 else 4294967295.
Proof. unfold index_limit. rewrite INDEX_arith. by destruct PORT_GENERATIONS. Qed.

Lemma gen_ok_GEN name : gen_ok (MACH_PORT_GEN name).
Proof.
  apply gen_ok_cases. rewrite GEN_arith. destruct PORT_GENERATIONS; [|by exists 0].
  exists (name mod 256). pose proof (Z.mod_pos_bound name 256 ltac:(lia)). lia.
Qed.

Lemma gen_ok_0 : gen_ok 0.
Proof. apply gen_ok_cases. exists 0. destruct PORT_GENERATIONS; lia. Qed.

Lemma gen_ok_MASK : gen_ok IE_BITS_GEN_MASK.
Proof.
  apply gen_ok_cases. unfold IE_BITS_GEN_MASK. destruct PORT_GENERATIONS; [by exists 255|by exists 0].
Qed.

Lemma gen_ok_next gen : gen_ok gen -> gen_ok (u32 (gen + IE_BITS_GEN_ONE)).
Proof.
  intros (k & Hk & ->)%gen_ok_cases. apply gen_ok_cases. unfold IE_BITS_GEN_ONE.
  destruct PORT_GENERATIONS.
  - exists ((k + 1) mod 256). split; [pose proof (Z.mod_pos_bound (k + 1) 256 ltac:(lia)); lia|].
    unfold u32. replace 4294967296 with (256 * 16777216) by done.
    replace (k * 16777216 + 16777216) with ((k + 1) * 16777216) by lia.
    by rewrite Z.mul_mod_distr_r.
  - exists 0. unfold u32. by replace k with 0 by lia.
Qed.

Lemma gen_ok_IE_BITS_GEN bits : u32_range bits -> gen_ok (IE_BITS_GEN bits).
Proof.
  intros Hb. unfold gen_ok, IE_BITS_GEN. destruct PORT_GENERATIONS; [|done].
  split; [by rewrite <- Z.land_assoc|by apply land_range].
Qed.

Lemma INDEX_MAKE index gen :
  0 <= index <= index_limit -> gen_ok gen -> MACH_PORT_INDEX (MACH_PORT_MAKE index gen) = index.
Proof.
  intros Hi Hg. rewrite MAKE_arith, INDEX_arith by (done || lia).
  rewrite index_limit_val in Hi. apply gen_ok_cases in Hg as (k & Hk & ->).
  destruct PORT_GENERATIONS; [|done]. unfold u32. rewrite Z.div_mul by done.
  rewrite Z.mod_small by lia. rewrite Z.div_add_l by done.
  rewrite Z.div_small by lia. lia.
Qed.

Lemma GEN_MAKE index gen :
  0 <= index <= index_limit -> gen_ok gen -> MACH_PORT_GEN (MACH_PORT_MAKE index gen) = gen.
Proof.
  intros Hi Hg. rewrite MAKE_arith, GEN_arith by (done || lia).
  rewrite index_limit_val in Hi. apply gen_ok_cases in Hg as (k & Hk & ->).
  destruct PORT_GENERATIONS; [|lia]. unfold u32. rewrite Z.div_mul by done.
  rewrite (Z.mod_small (index * 256)) by lia. rewrite Z.add_comm, Z.mod_add by done.
  rewrite Z.mod_small by lia. lia.
Qed.

Lemma MAKE_INDEX_GEN name :
  u32_range name -> MACH_PORT_MAKE (MACH_PORT_INDEX name) (MACH_PORT_GEN name) = name.
Proof.
  intros Hn. pose proof (gen_ok_GEN name) as Hg.
  rewrite MAKE_arith; [|rewrite INDEX_arith; unfold u32_range in Hn;
    destruct PORT_GENERATIONS; [apply Z.div_pos|]; lia|done].
  rewrite INDEX_arith, GEN_arith. destruct PORT_GENERATIONS; [|done].
  unfold u32_range, u32_max, u32 in *. rewrite Z.div_mul by done.
  rewrite Z.mod_small by (pose proof (Z.mul_div_le name 256 ltac:(lia)); split; [apply Z.mul_nonneg_nonneg; [apply Z.div_pos|]|]; lia).
  pose proof (Z.div_mod name 256 ltac:(lia)). lia.
Qed.

Lemma INDEX_range name : u32_range name -> 0 <= MACH_PORT_INDEX name <= index_limit.
Proof.
  intros Hn. rewrite INDEX_arith, index_limit_val. unfold u32_range, u32_max in Hn.
  destruct PORT_GENERATIONS; [|lia]. split; [apply Z.div_pos; lia|].
  enough (name / 256 < 16777216) by lia. apply Z.div_lt_upper_bound; lia.
Qed.

Lemma MAKE_range index gen :
  0 <= index <= index_limit -> gen_ok gen -> u32_range (MACH_PORT_MAKE index gen).
Proof.
  intros Hi Hg. rewrite MAKE_arith by (done || lia).
  rewrite index_limit_val in Hi. apply gen_ok_cases in Hg as (k & Hk & ->).
  unfold u32_range, u32_max. destruct PORT_GENERATIONS; [|lia].
  rewrite Z.div_mul by done. unfold u32. rewrite Z.mod_small by lia. lia.
Qed.

(** Names are ordered first by index: the boundary name [MAKE(index, 0)]
    separates the smaller indices from the others. *)
Lemma name_lt_MAKE name index :
  u32_range name -> 0 <= index <= index_limit ->
  (name < MACH_PORT_MAKE index 0 <-> MACH_PORT_INDEX name < index).
Proof.
  intros Hn Hi. rewrite MAKE_arith, INDEX_arith by (lia || apply gen_ok_0).
  rewrite index_limit_val in Hi. unfold u32_range, u32_max in Hn.
  destruct PORT_GENERATIONS; [|done]. unfold u32. rewrite Z.mod_small by lia.
  rewrite Z.div_0_l, Z.add_0_r by done. split; intros.
  - apply Z.div_lt_upper_bound; lia.
  - pose proof (Z.div_mod name 256 ltac:(lia)). pose proof (Z.mod_pos_bound name 256 ltac:(lia)). lia.
Qed.

Lemma INDEX_mono a b : a <= b -> MACH_PORT_INDEX a <= MACH_PORT_INDEX b.
Proof.
  intros Hab. rewrite !INDEX_arith. destruct PORT_GENERATIONS; [|done].
  by apply Z.div_le_mono.
Qed.

Lemma name_eq a b :
  u32_range a -> u32_range b -> MACH_PORT_INDEX a = MACH_PORT_INDEX b ->
  MACH_PORT_GEN a = MACH_PORT_GEN b -> a = b.
Proof.
  intros Ha Hb Hi Hg. rewrite <- (MAKE_INDEX_GEN a), <- (MAKE_INDEX_GEN b) by done. by rewrite Hi, Hg.
Qed.
End layout.

(** ** Bits of entries *)

(** Every mask of ipc_entry.h is a field of consecutive bits. *)
Lemma mask_bits i :
  0 <= i ->
  Z.testbit IE_BITS_UREFS_MASK i = (0 <=? i) && (i <? 16) /\
  Z.testbit IE_BITS_TYPE_MASK i = (16 <=? i) && (i <? 21) /\
  Z.testbit IE_BITS_MAREQUEST i = (21 <=? i) && (i <? 22) /\
  Z.testbit IE_BITS_COMPAT i = (22 <=? i) && (i <? 23) /\
  Z.testbit IE_BITS_COLLISION i = (23 <=? i) && (i <? 24) /\
  Z.testbit IE_BITS_RIGHT_MASK i = (0 <=? i) && (i <? 23) /\
  Z.testbit 0xff000000 i = (24 <=? i) && (i <? 32).
Proof.
  intros Hi.
  change IE_BITS_UREFS_MASK with (field 0 16). change IE_BITS_TYPE_MASK with (field 16 5).
  change IE_BITS_MAREQUEST with (field 21 1). change IE_BITS_COMPAT with (field 22 1).
  change IE_BITS_COLLISION with (field 23 1). change IE_BITS_RIGHT_MASK with (field 0 23).
  change 0xff000000 with (field 24 8). rewrite !field_testbit by lia. done.
Qed.

(** Bits of a splay tree entry: the generation is in its name, and it never
    has the collision bit. *)
Definition tree_bits (bits : Z) : Prop := 0 <= bits < 8388608.

Lemma tree_bits_testbit bits i : tree_bits bits -> 23 <= i -> Z.testbit bits i = false.
Proof.
  intros [H0 H1] Hi. destruct (Z.eq_dec bits 0) as [->|]; [by rewrite Z.bits_0|].
  apply Z.bits_above_log2; [done|]. enough (Z.log2 bits < 23) by lia.
  apply Z.log2_lt_pow2; lia.
Qed.

Lemma tree_bits_u32 bits : tree_bits bits -> u32_range bits.
Proof. unfold tree_bits, u32_range, u32_max. lia. Qed.

Lemma gen_ok_testbit `{PortConfig} gen i :
  gen_ok gen -> 0 <= i -> i < 24 \/ 32 <= i \/ PORT_GENERATIONS = false -> Z.testbit gen i = false.
Proof.
  intros [Hg Hr] Hi Hc. rewrite <- Hg. unfold IE_BITS_GEN. destruct PORT_GENERATIONS.
  - rewrite Z.land_spec. destruct (mask_bits i Hi) as (_ & _ & _ & _ & _ & _ & ->).
    destruct Hc as [Hc|[Hc|Hc]]; [..|done];
      destruct (Z.leb_spec 24 i), (Z.ltb_spec i 32); try lia; by rewrite andb_false_r.
  - by rewrite Z.bits_0.
Qed.

Ltac bitwise :=
  apply Z.bits_inj'; let i := fresh "i" in let Hi := fresh "Hi" in intros i Hi;
  destruct (mask_bits i Hi) as (Hurefs & Htype & Hma & Hcompat & Hcoll & Hright & Hgenm);
  unfold IE_BITS_GEN, IE_BITS_TYPE, IE_BITS_UREFS, clear, IE_BITS_GEN_MASK in *;
  repeat match goal with |- context [if PORT_GENERATIONS then _ else _] =>
    destruct PORT_GENERATIONS eqn:? end;
  rewrite ?Z.land_spec, ?Z.lor_spec, ?Z.ldiff_spec, ?Z.bits_0;
  rewrite ?Hurefs, ?Htype, ?Hma, ?Hcompat, ?Hcoll, ?Hright, ?Hgenm, ?Z.bits_0;
  bit_cases;
  repeat match goal with
  | Hb : tree_bits ?b |- context [Z.testbit ?b i] => rewrite (tree_bits_testbit b i Hb) by lia
  | Hg : gen_ok ?g |- context [Z.testbit ?g i] =>
    rewrite (gen_ok_testbit g i Hg Hi) by first [lia | right; right; assumption]
  end;
  rewrite ?andb_true_r, ?andb_false_r, ?orb_true_r, ?orb_false_r, ?andb_true_r; try done.

Section bits.
Context `{PortConfig}.

Lemma TYPE_lor_COLLISION bits : IE_BITS_TYPE (Z.lor bits IE_BITS_COLLISION) = IE_BITS_TYPE bits.
Proof. bitwise. Qed.

Lemma GEN_lor_COLLISION bits : IE_BITS_GEN (Z.lor bits IE_BITS_COLLISION) = IE_BITS_GEN bits.
Proof. bitwise. Qed.

Lemma RIGHT_lor_COLLISION bits :
  Z.land (Z.lor bits IE_BITS_COLLISION) IE_BITS_RIGHT_MASK = Z.land bits IE_BITS_RIGHT_MASK.
Proof. bitwise. Qed.

Lemma TYPE_clear_COLLISION bits : IE_BITS_TYPE (clear bits IE_BITS_COLLISION) = IE_BITS_TYPE bits.
Proof. bitwise. Qed.

Lemma GEN_clear_COLLISION bits : IE_BITS_GEN (clear bits IE_BITS_COLLISION) = IE_BITS_GEN bits.
Proof. bitwise. Qed.

Lemma RIGHT_clear_COLLISION bits :
  Z.land (clear bits IE_BITS_COLLISION) IE_BITS_RIGHT_MASK = Z.land bits IE_BITS_RIGHT_MASK.
Proof. bitwise. Qed.

Lemma TYPE_RIGHT bits : IE_BITS_TYPE (Z.land bits IE_BITS_RIGHT_MASK) = IE_BITS_TYPE bits.
Proof. bitwise. Qed.

Lemma TYPE_tree_gen bits gen :
  gen_ok gen -> IE_BITS_TYPE (Z.lor bits gen) = IE_BITS_TYPE bits.
Proof. intros. bitwise. Qed.

Lemma GEN_tree_gen bits gen :
  tree_bits bits -> gen_ok gen -> IE_BITS_GEN (Z.lor bits gen) = gen.
Proof. intros. bitwise. Qed.

Lemma RIGHT_tree_gen bits gen :
  gen_ok gen -> Z.land (Z.lor bits gen) IE_BITS_RIGHT_MASK = Z.land bits IE_BITS_RIGHT_MASK.
Proof. intros. bitwise. Qed.

Lemma RIGHT_tree bits : tree_bits bits -> Z.land bits IE_BITS_RIGHT_MASK = bits.
Proof. intros. bitwise. Qed.

Lemma TYPE_gen gen : gen_ok gen -> IE_BITS_TYPE gen = 0.
Proof. intros. bitwise. Qed.

Lemma RIGHT_gen gen : gen_ok gen -> Z.land gen IE_BITS_RIGHT_MASK = 0.
Proof. intros. bitwise. Qed.

Lemma GEN_gen gen : gen_ok gen -> IE_BITS_GEN gen = gen.
Proof. intros [? _]. done. Qed.

Lemma COLLISION_gen gen : gen_ok gen -> has gen IE_BITS_COLLISION = false.
Proof.
  intros. unfold has. replace (Z.land gen IE_BITS_COLLISION) with 0; [done|]. symmetry. bitwise.
Qed.

Lemma COLLISION_tree_gen bits gen :
  tree_bits bits -> gen_ok gen -> has (Z.lor bits gen) IE_BITS_COLLISION = false.
Proof.
  intros. unfold has. replace (Z.land (Z.lor bits gen) IE_BITS_COLLISION) with 0; [done|].
  symmetry. bitwise.
Qed.

Lemma COLLISION_lor bits : has (Z.lor bits IE_BITS_COLLISION) IE_BITS_COLLISION = true.
Proof.
  unfold has. replace (Z.land (Z.lor bits IE_BITS_COLLISION) IE_BITS_COLLISION) with IE_BITS_COLLISION; [done|].
  symmetry. bitwise.
Qed.

Lemma COLLISION_clear bits : has (clear bits IE_BITS_COLLISION) IE_BITS_COLLISION = false.
Proof.
  unfold has. replace (Z.land (clear bits IE_BITS_COLLISION) IE_BITS_COLLISION) with 0; [done|].
  symmetry. bitwise.
Qed.

Lemma TYPE_land_GEN bits : IE_BITS_TYPE (Z.land bits IE_BITS_GEN_MASK) = 0.
Proof. bitwise. Qed.

Lemma land_GEN_MASK bits : Z.land bits IE_BITS_GEN_MASK = IE_BITS_GEN bits.
Proof. unfold IE_BITS_GEN_MASK, IE_BITS_GEN. destruct PORT_GENERATIONS; [done|]. apply Z.land_0_r. Qed.

Lemma tree_bits_lor_range bits gen : tree_bits bits -> gen_ok gen -> u32_range (Z.lor bits gen).
Proof. intros Hb [_ Hg]. apply lor_range; [by apply tree_bits_u32|done]. Qed.

Lemma COLLISION_range : u32_range IE_BITS_COLLISION.
Proof. unfold u32_range, u32_max, IE_BITS_COLLISION. lia. Qed.

Lemma clear_range bits m : u32_range bits -> u32_range (clear bits m).
Proof.
  intros Hb. apply u32_range_bits; [apply Z.ldiff_nonneg; left; apply Hb|].
  intros i Hi. unfold clear. by rewrite Z.ldiff_spec, (u32_testbit_high bits).
Qed.

Lemma TYPE_nonzero_bits bits : IE_BITS_TYPE bits <> 0 -> bits <> 0.
Proof. intros H0 ->. by apply H0. Qed.

(** Two values that agree outside the right: same generation and collision bit. *)
Definition same_frame (b b' : Z) : Prop := clear b' IE_BITS_RIGHT_MASK = clear b IE_BITS_RIGHT_MASK.

Lemma same_frame_bit b b' i : same_frame b b' -> 23 <= i -> Z.testbit b' i = Z.testbit b i.
Proof.
  intros Hf Hi. assert (Hb : Z.testbit (clear b' IE_BITS_RIGHT_MASK) i = Z.testbit (clear b IE_BITS_RIGHT_MASK) i)
    by (by rewrite Hf).
  unfold clear in Hb. rewrite !Z.ldiff_spec in Hb. destruct (mask_bits i ltac:(lia)) as (_ & _ & _ & _ & _ & Hr & _).
  rewrite Hr, (proj2 (Z.ltb_ge i 23)), andb_false_r in Hb by done. by rewrite !andb_true_r in Hb.
Qed.

Lemma same_frame_GEN b b' : same_frame b b' -> IE_BITS_GEN b' = IE_BITS_GEN b.
Proof. intros Hf. bitwise; rewrite (same_frame_bit b b') by (done || lia); done. Qed.

Lemma same_frame_COLLISION b b' : same_frame b b' -> has b' IE_BITS_COLLISION = has b IE_BITS_COLLISION.
Proof.
  intros Hf. unfold has. replace (Z.land b' IE_BITS_COLLISION) with (Z.land b IE_BITS_COLLISION); [done|].
  bitwise; rewrite (same_frame_bit b b') by (done || lia); done.
Qed.

Lemma same_frame_range b b' : same_frame b b' -> 0 <= b' -> u32_range b -> u32_range b'.
Proof.
  intros Hf Hb' Hb. apply u32_range_bits; [done|]. intros i Hi.
  rewrite (same_frame_bit b b') by (done || lia). by apply u32_testbit_high.
Qed.

Lemma same_frame_tree_bits b b' : same_frame b b' -> 0 <= b' -> tree_bits b -> tree_bits b'.
Proof.
  intros Hf Hb' Hb. unfold tree_bits. split; [done|].
  destruct (Z.eq_dec b' 0) as [->|]; [lia|]. apply (Z.log2_lt_cancel b' (2 ^ 23)).
  destruct (Z_lt_le_dec (Z.log2 b') 23) as [|Hge]; [rewrite Z.log2_pow2; lia|].
  pose proof (Z.bit_log2 b' ltac:(lia)) as Hbit.
  rewrite (same_frame_bit b b' _ Hf Hge), tree_bits_testbit in Hbit; done.
Qed.
End bits.
