(* ===== verification/Splay.v ===== *)
(** * Splay trees of IPC entries (ipc/ipc_splay.c)

    The tree is stored unassembled, as the C code does: [ist_root] is the
    middle tree of the last top-down splay, and the left and right trees are
    kept together with the pointer to their uninitialised innermost field.
    A left tree with its [ist_ltreep] is a list of frames, innermost first:
    each frame is an entry with its left child, whose right child is the next
    frame inwards, and the right child of the first frame is the field
    [ist_ltreep] points to.  The empty list is the case where [ist_ltreep]
    points to the [ist_ltree] field itself.  Right trees are symmetric.

    The abstract value of a splay tree is [to_list], the sorted list of its
    (name, entry) pairs; every operation is specified by what it does to that
    list. *)

From S2P Require Import Prelude.

Definition MACH_PORT_SMALLEST : Z := 0.
Definition MACH_PORT_LARGEST : Z := u32_max.

Section Splay.

(** [E] is the type of pointers to tree entries; the [ite_name] field, on
    which the order depends, is kept in the node. *)
Context {E : Type}.

Inductive tree :=
| ITE_NULL
| Node (ite_lchild : tree) (ite_name : Z) (entry : E) (ite_rchild : tree).

Definition lframe : Type := tree * Z * E.
Definition rframe : Type := Z * E * tree.

Record ipc_splay_tree := mk_splay {
  ist_name : Z;
  ist_root : tree;
  ist_ltree : list lframe;
  ist_rtree : list rframe
}.

Definition is_null (t : tree) : bool :=
  match t with ITE_NULL => true | Node _ _ _ _ => false end.

(** Storing through [ltreep] ([rtreep]) and reading [*ltree] ([*rtree]). *)
Fixpoint plug_left (lt : list lframe) (t : tree) : tree :=
  match lt with
  | [] => t
  | (l, n, e) :: lt => plug_left lt (Node l n e t)
  end.

Fixpoint plug_right (rt : list rframe) (t : tree) : tree :=
  match rt with
  | [] => t
  | (n, e, r) :: rt => plug_right rt (Node t n e r)
  end.

(** The working state of [ipc_splay_prim_lookup]: tree, left, right. *)
Definition zip : Type := tree * list lframe * list rframe.

Definition link_left (z : zip) : zip :=
  match z with
  | (Node l n e r, lt, rt) => (r, (l, n, e) :: lt, rt)
  | _ => z
  end.

Definition link_right (z : zip) : zip :=
  match z with
  | (Node l n e r, lt, rt) => (l, lt, (n, e, r) :: rt)
  | _ => z
  end.

Definition rotate_left (z : zip) : zip :=
  match z with
  | (Node l n e (Node rl rn re rr), lt, rt) => (Node (Node l n e rl) rn re rr, lt, rt)
  | _ => z
  end.

Definition rotate_right (z : zip) : zip :=
  match z with
  | (Node (Node ll ln le lr) n e r, lt, rt) => (Node ll ln le (Node lr n e r), lt, rt)
  | _ => z
  end.

(** One iteration of the loop; [None] when the loop exits. *)
Definition lookup_step (name : Z) (z : zip) : option zip :=
  match z with
  | (ITE_NULL, _, _) => None
  | (Node lchild tname _ rchild, _, _) =>
    if name =? tname then None
    else if name <? tname then
      match lchild with
      | ITE_NULL => None
      | Node ll tname _ lr =>
        let z := if (name <? tname) && negb (is_null ll) then rotate_right z else z in
        let z := link_right z in
        Some (if (tname <? name) && negb (is_null lr) then link_left z else z)
      end
    else
      match rchild with
      | ITE_NULL => None
      | Node rl tname _ rr =>
        let z := if (tname <? name) && negb (is_null rr) then rotate_left z else z in
        let z := link_left z in
        Some (if (name <? tname) && negb (is_null rl) then link_right z else z)
      end
  end.

Fixpoint lookup_loop (fuel : nat) (name : Z) (z : zip) : zip :=
  match fuel with
  | O => z
  | S fuel =>
    match lookup_step name z with
    | None => z
    | Some z => lookup_loop fuel name z
    end
  end.

Fixpoint tsize (t : tree) : nat :=
  match t with
  | ITE_NULL => O
  | Node l _ _ r => S (tsize l + tsize r)
  end.

(** The loop shortens the middle tree, so its size is enough fuel
    ([ipc_splay_prim_lookup_terminates]). *)
Definition ipc_splay_prim_lookup (name : Z) (t : tree) : zip :=
  lookup_loop (tsize t) name (t, [], []).

Definition ipc_splay_prim_assemble (t : tree) (lt : list lframe) (rt : list rframe) : tree :=
  match t with
  | ITE_NULL => ITE_NULL
  | Node l n e r => Node (plug_left lt l) n e (plug_right rt r)
  end.

Definition ipc_splay_tree_init (splay : ipc_splay_tree) : ipc_splay_tree :=
  mk_splay (ist_name splay) ITE_NULL (ist_ltree splay) (ist_rtree splay).

Definition ipc_splay_tree_pick (splay : ipc_splay_tree) : option (Z * E) :=
  match ist_root splay with
  | ITE_NULL => None
  | Node _ n e _ => Some (n, e)
  end.

(** The lookup shared by the operations: reassemble and splay [name], unless
    it is the name of the last lookup. *)
Definition resplay (splay : ipc_splay_tree) (name : Z) : zip :=
  if ist_name splay =? name then (ist_root splay, ist_ltree splay, ist_rtree splay)
  else
    let root := ipc_splay_prim_assemble (ist_root splay) (ist_ltree splay) (ist_rtree splay) in
    ipc_splay_prim_lookup name root.

Definition ipc_splay_tree_lookup (splay : ipc_splay_tree) (name : Z)
    : ipc_splay_tree * option E :=
  match ist_root splay with
  | ITE_NULL => (splay, None)
  | _ =>
    let '(root, lt, rt) := resplay splay name in
    let splay := mk_splay name root lt rt in
    match root with
    | Node _ n e _ => (splay, if name =? n then Some e else None)
    | ITE_NULL => (splay, None)
    end
  end.

Definition ipc_splay_tree_insert (splay : ipc_splay_tree) (name : Z) (entry : E)
    : ipc_splay_tree :=
  match ist_root splay with
  | ITE_NULL => mk_splay name (Node ITE_NULL name entry ITE_NULL) [] []
  | _ =>
    let '(root, lt, rt) := resplay splay name in
    match root with
    | ITE_NULL => splay
    | Node _ rname _ _ =>
      let '(ltree, rtree) :=
        if name <? rname then (plug_left lt ITE_NULL, plug_right rt root)
        else (plug_left lt root, plug_right rt ITE_NULL) in
      mk_splay name (Node ltree name entry rtree) [] []
    end
  end.

(** [small->ist_root = root] with its name and empty side trees, the other
    fields of a struct whose root is null being left alone. *)
Definition store_root (splay : ipc_splay_tree) (root : tree) : ipc_splay_tree :=
  match root with
  | ITE_NULL => mk_splay (ist_name splay) ITE_NULL (ist_ltree splay) (ist_rtree splay)
  | Node _ n _ _ => mk_splay n root [] []
  end.

Definition set_rchild (t saved : tree) : tree :=
  match t with ITE_NULL => ITE_NULL | Node l n e _ => Node l n e saved end.

Definition set_lchild (t saved : tree) : tree :=
  match t with ITE_NULL => ITE_NULL | Node _ n e r => Node saved n e r end.

Definition ipc_splay_tree_delete (splay : ipc_splay_tree) (name : Z) : ipc_splay_tree :=
  match ist_root splay with
  | ITE_NULL => splay
  | _ =>
    let '(root, lt, rt) := resplay splay name in
    match root with
    | ITE_NULL => splay
    | Node l _ _ r =>
      let ltree := plug_left lt l in
      let saved := plug_right rt r in
      let root :=
        if is_null ltree then saved
        else if is_null saved then ltree
        else
          let '(root, lt, rt) := ipc_splay_prim_lookup MACH_PORT_LARGEST ltree in
          set_rchild (ipc_splay_prim_assemble root lt rt) saved in
      store_root splay root
    end
  end.

(** Returns the tree left in [splay] and the new tree [small]. *)
Definition ipc_splay_tree_split (splay : ipc_splay_tree) (name : Z) (small : ipc_splay_tree)
    : ipc_splay_tree * ipc_splay_tree :=
  let small := ipc_splay_tree_init small in
  match ist_root splay with
  | ITE_NULL => (splay, small)
  | _ =>
    let '(root, lt, rt) := resplay splay name in
    match root with
    | ITE_NULL => (splay, small)
    | Node l n e r =>
      if n <? name then
        (store_root splay (plug_right rt ITE_NULL),
         store_root small (Node (plug_left lt l) n e r))
      else
        (mk_splay name (Node ITE_NULL n e r) [] rt,
         store_root small (plug_left lt l))
    end
  end.

(** Returns the joined tree and what is left of [small]. *)
Definition ipc_splay_tree_join (splay small : ipc_splay_tree)
    : ipc_splay_tree * ipc_splay_tree :=
  match ist_root small with
  | ITE_NULL => (splay, small)
  | _ =>
    let sroot := ipc_splay_prim_assemble (ist_root small) (ist_ltree small) (ist_rtree small) in
    let small := ipc_splay_tree_init small in
    let root :=
      match ist_root splay with
      | ITE_NULL => sroot
      | _ =>
        let '(root, lt, rt) := resplay splay MACH_PORT_SMALLEST in
        set_lchild (ipc_splay_prim_assemble root lt rt) sroot
      end in
    (store_root splay root, small)
  end.

(** Returns the tree, [*lowerp] and [*upperp]. *)
Definition ipc_splay_tree_bounds (splay : ipc_splay_tree) (name : Z)
    : ipc_splay_tree * Z * Z :=
  match ist_root splay with
  | ITE_NULL => (splay, MACH_PORT_LARGEST, MACH_PORT_SMALLEST)
  | _ =>
    let '(root, lt, rt) := resplay splay name in
    let splay := mk_splay name root lt rt in
    match root with
    | ITE_NULL => (splay, MACH_PORT_LARGEST, MACH_PORT_SMALLEST)
    | Node _ rname _ _ =>
      let lower :=
        if rname <=? name then rname
        else match lt with
             | [] => MACH_PORT_LARGEST
             | (_, n, _) :: _ => n
             end in
      let upper :=
        if name <=? rname then rname
        else match rt with
             | [] => MACH_PORT_SMALLEST
             | (n, _, _) :: _ => n
             end in
      (splay, lower, upper)
    end
  end.

(** ** Traversal by pointer inversion

    While a traversal is under way, [ist_ltree] holds the current entry and
    [ist_rtree] its parent, whose child pointer on the path has been reversed
    to point to the grandparent.  A reversed chain is again a [tree]: one of
    the two child fields of each parent is its own parent. *)

Inductive traversal :=
| Visit (current parent : tree)
| Done (root : tree).

Definition ite_name_of (t : tree) : Z :=
  match t with ITE_NULL => 0 | Node _ n _ _ => n end.

Fixpoint traverse_left (current parent : tree) : traversal :=
  match current with
  | ITE_NULL => Visit current parent
  | Node lchild n e r =>
    if is_null lchild then Visit current parent
    else traverse_left lchild (Node parent n e r)
  end.

Fixpoint traverse_back (parent current : tree) : traversal :=
  match parent with
  | ITE_NULL => Done current
  | Node pl pn pe pr =>
    if ite_name_of current <? pn then Visit (Node current pn pe pr) pl
    else traverse_back pr (Node pl pn pe current)
  end.

Definition traverse_right (current parent : tree) : traversal :=
  match current with
  | ITE_NULL => traverse_back parent current
  | Node l n e rchild =>
    if is_null rchild then traverse_back parent current
    else traverse_left rchild (Node l n e parent)
  end.

Definition ipc_splay_traverse_start (splay : ipc_splay_tree) : traversal :=
  match ist_root splay with
  | ITE_NULL => Done ITE_NULL
  | root =>
    let current := ipc_splay_prim_assemble root (ist_ltree splay) (ist_rtree splay) in
    traverse_left current ITE_NULL
  end.

Definition ipc_splay_traverse_next (t : traversal) (delete : bool) : traversal :=
  match t with
  | Done root => Done root
  | Visit ITE_NULL parent => Visit ITE_NULL parent
  | Visit (Node lchild name e rchild as current) parent =>
    if negb delete then traverse_right current parent
    else if is_null lchild then
      if is_null rchild then
        match parent with
        | ITE_NULL => Done ITE_NULL
        | Node pl pn pe pr =>
          if name <? pn then Visit (Node ITE_NULL pn pe pr) pl
          else traverse_back pr (Node pl pn pe ITE_NULL)
        end
      else traverse_left rchild parent
    else if is_null rchild then traverse_back parent lchild
    else
      let '(current, lt, rt) := ipc_splay_prim_lookup MACH_PORT_LARGEST lchild in
      let current := ipc_splay_prim_assemble current lt rt in
      traverse_right (set_rchild current rchild) parent
  end.

Definition ipc_splay_traverse_finish (splay : ipc_splay_tree) (t : traversal) : ipc_splay_tree :=
  match t with
  | Done root => store_root splay root
  | Visit _ _ => splay
  end.

Definition traverse_entry (t : traversal) : option (Z * E) :=
  match t with
  | Visit (Node _ n e _) _ => Some (n, e)
  | _ => None
  end.

(** ** Abstract value and invariant *)

Fixpoint elems (t : tree) : list (Z * E) :=
  match t with
  | ITE_NULL => []
  | Node l n e r => elems l ++ (n, e) :: elems r
  end.

Fixpoint lelems (lt : list lframe) : list (Z * E) :=
  match lt with
  | [] => []
  | (l, n, e) :: lt => lelems lt ++ elems l ++ [(n, e)]
  end.

Fixpoint relems (rt : list rframe) : list (Z * E) :=
  match rt with
  | [] => []
  | (n, e, r) :: rt => (n, e) :: elems r ++ relems rt
  end.

Definition zelems (z : zip) : list (Z * E) :=
  let '(t, lt, rt) := z in lelems lt ++ elems t ++ relems rt.

Definition to_list (splay : ipc_splay_tree) : list (Z * E) :=
  match ist_root splay with
  | ITE_NULL => []
  | root => zelems (root, ist_ltree splay, ist_rtree splay)
  end.

(** The result of a search for [name] that has run to its end: the three trees
    are sorted, [name] separates the side trees, and the root of the middle
    tree is where the search stops. *)
Definition search_done (name : Z) (z : zip) : Prop :=
  let '(t, lt, rt) := z in
  ksorted (zelems z) /\
  (forall x, x ∈ keys (lelems lt) -> x < name) /\
  (forall x, x ∈ keys (relems rt) -> name < x) /\
  t <> ITE_NULL /\
  lookup_step name z = None.

Definition splay_ok (splay : ipc_splay_tree) : Prop :=
  (forall x, x ∈ keys (to_list splay) -> u32_range x) /\
  (ist_root splay <> ITE_NULL ->
   search_done (ist_name splay) (ist_root splay, ist_ltree splay, ist_rtree splay)).

(** ** Lemmas on the primitives *)

Lemma elems_plug_left lt t : elems (plug_left lt t) = lelems lt ++ elems t.
Proof.
  revert t. induction lt as [|[[l n] e] lt IH]; intros t; simpl; [done|].
  rewrite IH. simpl. by rewrite <- !app_assoc.
Qed.

Lemma elems_plug_right rt t : elems (plug_right rt t) = elems t ++ relems rt.
Proof.
  revert t. induction rt as [|[[n e] r] rt IH]; intros t; simpl; [by rewrite app_nil_r|].
  rewrite IH. simpl. by rewrite <- !app_assoc.
Qed.

Lemma elems_assemble t lt rt :
  t <> ITE_NULL -> elems (ipc_splay_prim_assemble t lt rt) = zelems (t, lt, rt).
Proof.
  destruct t as [|l n e r]; [done|]. intros _. simpl.
  rewrite elems_plug_left, elems_plug_right. by rewrite <- !app_assoc.
Qed.

Lemma elems_nil t : elems t = [] <-> t = ITE_NULL.
Proof.
  destruct t; simpl; [done|]. split; [|done]. intros H.
  apply (f_equal length) in H. rewrite length_app in H. simpl in H. lia.
Qed.

Lemma is_null_spec t : is_null t = true <-> t = ITE_NULL.
Proof. by destruct t. Qed.

Ltac norm_app := simpl; repeat (rewrite <- app_assoc; simpl); rewrite ?app_nil_r; try done.

(** The operations are case analyses on [lookup_step]; this opens them. *)
Ltac step_cases :=
  repeat match goal with
  | |- context [?x =? ?y] => destruct (Z.eqb_spec x y); simpl
  | |- context [?x <? ?y] => destruct (Z.ltb_spec x y); simpl
  | |- context [?x <=? ?y] => destruct (Z.leb_spec x y); simpl
  | |- context [is_null ?t] => destruct t; simpl
  end.

Lemma lookup_step_elems name z z' :
  lookup_step name z = Some z' -> zelems z' = zelems z.
Proof.
  destruct z as [[[|l n e r] lt] rt]; simpl; [done|].
  destruct l as [|ll ln le lr], r as [|rl rn re rr]; step_cases; intros; simplify_eq;
    norm_app.
Qed.

Lemma lookup_step_size name z z' :
  lookup_step name z = Some z' -> (tsize z'.1.1 < tsize z.1.1)%nat /\ z'.1.1 <> ITE_NULL.
Proof.
  destruct z as [[[|l n e r] lt] rt]; simpl; [done|].
  destruct l as [|ll ln le lr], r as [|rl rn re rr]; step_cases; intros; simplify_eq;
    simpl; split; try done; lia.
Qed.

Definition separated (name : Z) (z : zip) : Prop :=
  (forall x, x ∈ keys (lelems z.1.2) -> x < name) /\
  (forall x, x ∈ keys (relems z.2) -> name < x).

Lemma rotate_elems z : zelems (rotate_left z) = zelems z /\ zelems (rotate_right z) = zelems z.
Proof.
  destruct z as [[[|[|ll ln le lr] n e [|rl rn re rr]] lt] rt]; split; norm_app.
Qed.

Lemma rotate_separated name z :
  separated name z -> separated name (rotate_left z) /\ separated name (rotate_right z).
Proof. by destruct z as [[[|[|ll ln le lr] n e [|rl rn re rr]] lt] rt]. Qed.

Lemma node_order l n e r lt rt :
  ksorted (zelems (Node l n e r, lt, rt)) ->
  (forall x, x ∈ keys (elems l) -> x < n) /\ (forall x, x ∈ keys (elems r) -> n < x).
Proof.
  simpl. rewrite !ksorted_app, ksorted_cons, !keys_app. simpl.
  intros (_ & ((_ & (_ & Hr) & Hl) & _) & _). split; [|done].
  intros x Hx. apply Hl; [done|]. apply elem_of_cons. by left.
Qed.

Lemma link_left_separated name z :
  ksorted (zelems z) -> separated name z -> ite_name_of z.1.1 < name ->
  z.1.1 <> ITE_NULL -> separated name (link_left z).
Proof.
  destruct z as [[[|l n e r] lt] rt]; [done|]. intros Hs [Hl Hr] Hn _. simpl in *.
  apply node_order in Hs as [Hs _]. split; simpl; [|done]. intros x.
  rewrite !keys_app, !elem_of_app. simpl. rewrite list_elem_of_singleton.
  intros [Hx|[Hx| ->]]; [by apply Hl| |done]. apply Hs in Hx. lia.
Qed.

Lemma link_right_separated name z :
  ksorted (zelems z) -> separated name z -> name < ite_name_of z.1.1 ->
  z.1.1 <> ITE_NULL -> separated name (link_right z).
Proof.
  destruct z as [[[|l n e r] lt] rt]; [done|]. intros Hs [Hl Hr] Hn _. simpl in *.
  apply node_order in Hs as [_ Hs]. split; simpl; [done|]. intros x.
  rewrite elem_of_cons, !keys_app, elem_of_app.
  intros [->|[Hx|Hx]]; [done| |by apply Hr]. apply Hs in Hx. lia.
Qed.

Lemma link_elems z :
  zelems (link_left z) = zelems z /\ zelems (link_right z) = zelems z.
Proof. destruct z as [[[|l n e r] lt] rt]; split; norm_app. Qed.

Lemma lookup_step_separated name z z' :
  ksorted (zelems z) -> separated name z -> lookup_step name z = Some z' -> separated name z'.
Proof.
  intros Hs Hsep. pose proof (rotate_elems z) as [Hrl Hrr].
  pose proof (rotate_separated name z Hsep) as [Hsl Hsr].
  destruct z as [[[|l n e r] lt] rt]; [done|].
  destruct l as [|ll ln le lr], r as [|rl rn re rr]; simpl; step_cases; intros; simplify_eq;
    try lia;
    repeat match goal with
    | |- separated _ (?a, (?b, ?c, ?d) :: ?lt, ?rt) =>
      apply (link_left_separated _ (Node b c d a, lt, rt)); simpl; try done
    | |- separated _ (?a, ?lt, (?b, ?c, ?d) :: ?rt) =>
      apply (link_right_separated _ (Node a b c d, lt, rt)); simpl; try done
    end; try lia; try (rewrite <- Hrl; done).
  all: clear - Hs; revert Hs; norm_app.
Qed.

Lemma lookup_loop_spec name fuel z :
  (tsize z.1.1 <= fuel)%nat -> z.1.1 <> ITE_NULL -> ksorted (zelems z) -> separated name z ->
  search_done name (lookup_loop fuel name z) /\ zelems (lookup_loop fuel name z) = zelems z.
Proof.
  revert z. induction fuel as [|fuel IH]; intros z Hfuel Hz Hs Hsep; simpl.
  { destruct z as [[[] ?] ?]; simpl in *; [done|lia]. }
  destruct (lookup_step name z) as [z'|] eqn:Hstep.
  - pose proof (lookup_step_size _ _ _ Hstep) as [Hsz Hne].
    pose proof (lookup_step_elems _ _ _ Hstep) as He.
    pose proof (lookup_step_separated _ _ _ Hs Hsep Hstep).
    rewrite <- He in Hs |- *. apply IH; [lia|done..].
  - split; [|done]. destruct z as [[t lt] rt], Hsep. by split_and!.
Qed.

Lemma prim_lookup_spec name t :
  t <> ITE_NULL -> ksorted (elems t) ->
  search_done name (ipc_splay_prim_lookup name t) /\
  zelems (ipc_splay_prim_lookup name t) = elems t.
Proof.
  intros Ht Hs.
  assert (Hz : zelems (t, [], []) = elems t) by norm_app.
  rewrite <- Hz in Hs |- *.
  apply lookup_loop_spec; [done..|]. split; intros x Hx; by apply elem_of_nil in Hx.
Qed.

(** Where a finished search stops, with the entries around it. *)
Lemma search_done_inv name z :
  search_done name z ->
  exists l n e r lt rt, z = (Node l n e r, lt, rt) /\
  ksorted (zelems z) /\
  (forall x, x ∈ keys (lelems lt ++ elems l) -> x < name /\ x < n) /\
  (forall x, x ∈ keys (elems r ++ relems rt) -> name < x /\ n < x) /\
  (name < n -> l = ITE_NULL) /\ (n < name -> r = ITE_NULL).
Proof.
  destruct z as [[[|l n e r] lt] rt]; intros (Hs & Hl & Hr & Hne & Hstep); [done|].
  exists l, n, e, r, lt, rt. simpl in Hstep.
  assert (Hnl : name < n -> l = ITE_NULL).
  { intros. revert Hstep. step_cases; try lia; destruct l; done. }
  assert (Hnr : n < name -> r = ITE_NULL).
  { intros. revert Hstep. step_cases; try lia; destruct r; done. }
  pose proof (node_order _ _ _ _ _ _ Hs) as [Hol Hor].
  simpl in Hs. pose proof Hs as Hs'.
  rewrite ksorted_app in Hs'. destruct Hs' as (_ & Hs' & H1).
  rewrite ksorted_app in Hs'. destruct Hs' as (_ & _ & H2).
  split_and!; try done; intros x; rewrite !keys_app, elem_of_app.
  - intros [Hx|Hx]; split; [by apply Hl| |..|by apply Hol].
    + apply H1; [done|]. rewrite !keys_app. simpl. set_solver.
    + destruct (Z.lt_ge_cases name n) as [Hlt|]; [rewrite (Hnl Hlt) in Hx; by apply elem_of_nil in Hx|].
      apply Hol in Hx. lia.
  - intros [Hx|Hx]; split; [|by apply Hor|by apply Hr|].
    + destruct (Z.lt_ge_cases n name) as [Hlt|]; [rewrite (Hnr Hlt) in Hx; by apply elem_of_nil in Hx|].
      apply Hor in Hx. lia.
    + apply H2; [|done]. rewrite keys_app. simpl. set_solver.
Qed.

Lemma search_done_keys name l n e r lt rt :
  search_done name (Node l n e r, lt, rt) ->
  (forall x, x ∈ keys (lelems lt ++ elems l) -> x < name /\ x < n) /\
  (forall x, x ∈ keys (elems r ++ relems rt) -> name < x /\ n < x) /\
  (name < n -> l = ITE_NULL) /\ (n < name -> r = ITE_NULL).
Proof.
  intros (? & ? & ? & ? & ? & ? & Heq & ? & ?)%search_done_inv. by simplify_eq.
Qed.

Lemma to_list_root s :
  ist_root s <> ITE_NULL -> to_list s = zelems (ist_root s, ist_ltree s, ist_rtree s).
Proof. unfold to_list. by destruct (ist_root s). Qed.

Lemma splay_ok_sorted s : splay_ok s -> ksorted (to_list s).
Proof.
  intros [_ H]. unfold to_list. destruct (ist_root s) eqn:Hr; [constructor|].
  specialize (H ltac:(done)). by destruct H.
Qed.

Lemma resplay_spec s name :
  splay_ok s -> ist_root s <> ITE_NULL ->
  search_done name (resplay s name) /\ zelems (resplay s name) = to_list s.
Proof.
  intros Hok Hne. pose proof (splay_ok_sorted _ Hok) as Hs. destruct Hok as [_ Hok].
  rewrite (to_list_root s Hne) in *. unfold resplay.
  destruct (Z.eqb_spec (ist_name s) name) as [<-|Hn]; [split; [by apply Hok|done]|].
  rewrite <- elems_assemble in Hs |- * by done.
  apply prim_lookup_spec; [|done]. by destruct (ist_root s).
Qed.

(** The form in which the operations use it: the entries are [L], the entry
    the search stopped at, and [R]. *)
Lemma resplay_cases s name :
  splay_ok s -> ist_root s <> ITE_NULL ->
  exists l n e r lt rt, resplay s name = (Node l n e r, lt, rt) /\
  search_done name (Node l n e r, lt, rt) /\
  to_list s = (lelems lt ++ elems l) ++ (n, e) :: (elems r ++ relems rt) /\
  (forall x, x ∈ keys (lelems lt ++ elems l) -> x < name /\ x < n) /\
  (forall x, x ∈ keys (elems r ++ relems rt) -> name < x /\ n < x) /\
  (name < n -> l = ITE_NULL) /\ (n < name -> r = ITE_NULL).
Proof.
  intros Hok Hne. destruct (resplay_spec s name Hok Hne) as [Hd Hz].
  destruct (search_done_inv _ _ Hd) as (l & n & e & r & lt & rt & Heq & _ & H).
  exists l, n, e, r, lt, rt. rewrite Heq in *. destruct H as (? & ? & ? & ?).
  split_and!; try done. rewrite <- Hz. norm_app.
Qed.

(** ** Building well-formed trees *)

Lemma splay_ok_null s : ist_root s = ITE_NULL -> splay_ok s /\ to_list s = [].
Proof.
  intros Hr. unfold splay_ok, to_list. rewrite Hr.
  split; [split; [|done]|done]. intros x Hx. by apply elem_of_nil in Hx.
Qed.

Lemma search_done_root l n e r :
  ksorted (elems (Node l n e r)) -> search_done n (Node l n e r, [], []).
Proof.
  intros Hs. split_and!; try done; try (by intros ? ?%elem_of_nil).
  - revert Hs. norm_app.
  - simpl. by rewrite Z.eqb_refl.
Qed.

Lemma store_root_spec s t :
  ksorted (elems t) -> (forall x, x ∈ keys (elems t) -> u32_range x) ->
  splay_ok (store_root s t) /\ to_list (store_root s t) = elems t.
Proof.
  intros Hs Hr. destruct t as [|l n e r].
  { by apply splay_ok_null. }
  assert (Hl : to_list (store_root s (Node l n e r)) = elems (Node l n e r)).
  { unfold to_list. norm_app. }
  split; [|done]. split; [by rewrite Hl|]. intros _. by apply search_done_root.
Qed.

Lemma splay_ok_search name t lt rt :
  search_done name (t, lt, rt) ->
  (forall x, x ∈ keys (zelems (t, lt, rt)) -> u32_range x) ->
  splay_ok (mk_splay name t lt rt) /\ to_list (mk_splay name t lt rt) = zelems (t, lt, rt).
Proof.
  intros Hd Hr. pose proof Hd as (_ & _ & _ & Hne & _).
  pose proof (to_list_root (mk_splay name t lt rt) Hne) as Hl. simpl in Hl.
  split; [|done]. split; [by rewrite Hl|done].
Qed.

Lemma splay_ok_range s x : splay_ok s -> x ∈ keys (to_list s) -> u32_range x.
Proof. intros [H _]. apply H. Qed.

(** ** Specifications of the operations *)

Lemma lookup_spec s name :
  splay_ok s ->
  splay_ok (ipc_splay_tree_lookup s name).1 /\
  to_list (ipc_splay_tree_lookup s name).1 = to_list s /\
  (forall e, (ipc_splay_tree_lookup s name).2 = Some e <-> (name, e) ∈ to_list s).
Proof.
  intros Hok. unfold ipc_splay_tree_lookup. destruct (ist_root s) as [|? ? ? ?] eqn:Hroot.
  { destruct (splay_ok_null s Hroot) as [_ Hl]. split_and!; try done.
    intros e. rewrite Hl. split; [done|]. by intros ?%elem_of_nil. }
  assert (Hne : ist_root s <> ITE_NULL) by (by rewrite Hroot).
  destruct (resplay_cases s name Hok Hne)
    as (l & n & e & r & lt & rt & -> & Hd & Hl & HL & HR & _ & _). simpl.
  destruct (splay_ok_search _ _ _ _ Hd) as [Hok' Hl'].
  { intros x Hx. apply (splay_ok_range s); [done|]. rewrite Hl. revert Hx. norm_app. }
  split_and!; [done|rewrite Hl', Hl; norm_app|].
  intros e'. destruct (Z.eqb_spec name n) as [->|Hn].
  - split; [intros; simplify_eq; rewrite Hl; set_solver|]. intros Hin.
    f_equal. eapply (ksorted_unique (to_list s)); [by apply splay_ok_sorted| |done].
    rewrite Hl. set_solver.
  - split; [done|]. rewrite Hl, elem_of_app, elem_of_cons. intros [Hin|[Hin|Hin]]; [|by simplify_eq|].
    + apply elem_of_keys_pair, HL in Hin. lia.
    + apply elem_of_keys_pair, HR in Hin. lia.
Qed.

Lemma split_range s (l r : list (Z * E)) p :
  splay_ok s -> to_list s = l ++ p :: r ->
  (forall x, x ∈ keys l -> u32_range x) /\ u32_range p.1 /\ (forall x, x ∈ keys r -> u32_range x).
Proof.
  intros [Hok _] Hl. rewrite Hl, keys_app in Hok. simpl in Hok.
  split_and!; intros; apply Hok; set_solver.
Qed.

Lemma insert_spec s name entry :
  splay_ok s -> u32_range name -> name ∉ keys (to_list s) ->
  splay_ok (ipc_splay_tree_insert s name entry) /\
  to_list (ipc_splay_tree_insert s name entry) =
    below name (to_list s) ++ (name, entry) :: above name (to_list s).
Proof.
  intros Hok Hname Hnew. unfold ipc_splay_tree_insert.
  destruct (ist_root s) as [|? ? ? ?] eqn:Hroot.
  { destruct (splay_ok_null s Hroot) as [_ Hl]. rewrite Hl.
    apply (store_root_spec s (Node ITE_NULL name entry ITE_NULL)); [repeat constructor|].
    simpl. by intros x ->%list_elem_of_singleton. }
  assert (Hne : ist_root s <> ITE_NULL) by (by rewrite Hroot).
  destruct (resplay_cases s name Hok Hne)
    as (l & n & e & r & lt & rt & -> & Hd & Hl & HL & HR & Hnl & Hnr).
  assert (Hn : name <> n).
  { intros ->. apply Hnew. rewrite Hl, keys_app. simpl. set_solver. }
  destruct (filters_around name n e _ _ HL HR) as (Hbelow & _ & Habove).
  rewrite <- Hl in Hbelow, Habove.
  set (t := if name <? n then Node (plug_left lt ITE_NULL) name entry (plug_right rt (Node l n e r))
            else Node (plug_left lt (Node l n e r)) name entry (plug_right rt ITE_NULL)).
  assert (Ht : elems t = below name (to_list s) ++ (name, entry) :: above name (to_list s)).
  { rewrite Hbelow, Habove. unfold t.
    destruct (Z.ltb_spec name n) as [Hlt|Hge], (Z.ltb_spec n name) as [Hlt'|Hge']; try lia; simpl;
      rewrite elems_plug_left, elems_plug_right; simpl.
    - rewrite (Hnl Hlt). norm_app.
    - rewrite (Hnr Hlt'). norm_app. }
  destruct (store_root_spec s t) as [Hok' Hl'].
  - rewrite Ht. pose proof (splay_ok_sorted _ Hok) as Hs.
    rewrite ksorted_app, ksorted_cons. split_and!; try (by apply ksorted_filter).
    + intros y. rewrite elem_of_keys_above. lia.
    + intros x y. rewrite elem_of_keys_below. simpl. rewrite elem_of_cons, elem_of_keys_above. lia.
  - rewrite Ht. intros x. rewrite keys_app, elem_of_app. simpl. rewrite elem_of_cons.
    intros [Hx|[->|Hx]]; [|done|]; apply (splay_ok_range s); try done;
      by apply elem_of_keys_filter in Hx.
  - rewrite <- Ht, <- Hl'. unfold t in *. by destruct (name <? n).
Qed.

(** Splaying [MACH_PORT_LARGEST] brings the last entry to the root. *)
Lemma splay_largest t :
  t <> ITE_NULL -> ksorted (elems t) -> (forall x, x ∈ keys (elems t) -> u32_range x) ->
  let '(root, lt, rt) := ipc_splay_prim_lookup MACH_PORT_LARGEST t in
  exists l n e, ipc_splay_prim_assemble root lt rt = Node l n e ITE_NULL /\
                elems t = elems l ++ [(n, e)].
Proof.
  intros Ht Hs Hrange. destruct (prim_lookup_spec MACH_PORT_LARGEST t Ht Hs) as [Hd Hz].
  destruct (ipc_splay_prim_lookup _ _) as [[[|l n e r] lt] rt]; [by destruct Hd as (_ & _ & _ & ? & _)|].
  destruct (search_done_keys _ _ _ _ _ _ _ Hd) as (_ & HR & _ & Hnr).
  assert (Hempty : elems r ++ relems rt = []).
  { destruct (elems r ++ relems rt) as [|[m em] rest] eqn:Hr; [done|]. exfalso.
    destruct (HR m) as [Hm _]; [simpl; set_solver|].
    assert (Hin : m ∈ keys (elems t)).
    { rewrite <- Hz. simpl. rewrite <- app_assoc, !keys_app. simpl.
      rewrite <- keys_app, Hr. simpl. set_solver. }
    apply Hrange in Hin. unfold u32_range, MACH_PORT_LARGEST in *. lia. }
  apply app_eq_nil in Hempty as [Hr Hrt]. simpl.
  exists (plug_left lt l), n, e. split.
  - f_equal. apply elems_nil. by rewrite elems_plug_right, Hr, Hrt.
  - rewrite <- Hz, elems_plug_left. simpl. rewrite Hr, Hrt. norm_app.
Qed.

Lemma delete_spec s name :
  splay_ok s -> name ∈ keys (to_list s) ->
  splay_ok (ipc_splay_tree_delete s name) /\
  to_list (ipc_splay_tree_delete s name) = below name (to_list s) ++ above name (to_list s).
Proof.
  intros Hok Hin. unfold ipc_splay_tree_delete.
  destruct (ist_root s) as [|? ? ? ?] eqn:Hroot.
  { destruct (splay_ok_null s Hroot) as [_ Hl]. rewrite Hl in Hin. by apply elem_of_nil in Hin. }
  assert (Hne : ist_root s <> ITE_NULL) by (by rewrite Hroot).
  destruct (resplay_cases s name Hok Hne)
    as (l & n & e & r & lt & rt & -> & Hd & Hl & HL & HR & Hnl & Hnr).
  assert (name = n) as <-.
  { rewrite Hl, keys_app, elem_of_app in Hin. simpl in Hin. rewrite elem_of_cons in Hin.
    destruct Hin as [Hx|[Hx|Hx]]; [apply HL in Hx; lia|done|apply HR in Hx; lia]. }
  destruct (filters_around name name e _ _ HL HR) as (Hbelow & _ & Habove).
  rewrite <- Hl, Z.ltb_irrefl in Hbelow, Habove. rewrite Hbelow, Habove.
  destruct (split_range s _ _ _ Hok Hl) as (HrL & _ & HrR).
  pose proof (splay_ok_sorted _ Hok) as Hs. rewrite Hl, ksorted_app, ksorted_cons in Hs.
  destruct Hs as (HsL & [HsR _] & HLR).
  set (root := if is_null (plug_left lt l) then plug_right rt r else _).
  assert (Ht : elems root = (lelems lt ++ elems l) ++ (elems r ++ relems rt)).
  { unfold root. rewrite <- elems_plug_left, <- elems_plug_right in *.
    destruct (plug_left lt l) as [|? ? ? ?] eqn:Hlt; [done|]. simpl is_null.
    destruct (plug_right rt r) as [|? ? ? ?] eqn:Hrt; [norm_app|]. simpl is_null.
    rewrite <- Hlt, <- Hrt in *.
    pose proof (splay_largest (plug_left lt l)) as Hbig.
    destruct (ipc_splay_prim_lookup MACH_PORT_LARGEST (plug_left lt l)) as [[root' lt'] rt'].
    destruct Hbig as (l' & n' & e' & -> & ->); [by rewrite Hlt|done..|]. simpl. norm_app. }
  rewrite <- Ht. apply store_root_spec; rewrite Ht.
  - rewrite ksorted_app. split_and!; [done..|]. intros x y Hx Hy. apply HLR; [done|]. simpl. set_solver.
  - intros x. rewrite keys_app, elem_of_app. naive_solver.
Qed.

Lemma split_spec s name small :
  splay_ok s -> u32_range name ->
  let '(s', small') := ipc_splay_tree_split s name small in
  splay_ok s' /\ splay_ok small' /\
  to_list s' = from name (to_list s) /\ to_list small' = below name (to_list s).
Proof.
  intros Hok Hname. unfold ipc_splay_tree_split.
  destruct (ist_root s) as [|? ? ? ?] eqn:Hroot.
  { destruct (splay_ok_null s Hroot) as [_ Hl]. rewrite Hl.
    destruct (splay_ok_null (ipc_splay_tree_init small)) as [? ?]; [done|]. done. }
  assert (Hne : ist_root s <> ITE_NULL) by (by rewrite Hroot).
  destruct (resplay_cases s name Hok Hne)
    as (l & n & e & r & lt & rt & -> & Hd & Hl & HL & HR & Hnl & Hnr).
  destruct (filters_around name n e _ _ HL HR) as (Hbelow & Hfrom & _).
  rewrite <- Hl in Hbelow, Hfrom. rewrite Hbelow, Hfrom.
  destruct (split_range s _ _ _ Hok Hl) as (HrL & Hrn & HrR). simpl in Hrn.
  pose proof (splay_ok_sorted _ Hok) as Hs. rewrite Hl, ksorted_app, ksorted_cons in Hs.
  destruct Hs as (HsL & [HsR HnR] & HLR).
  destruct (Z.ltb_spec n name) as [Hlt|Hge].
  - assert (Hr : r = ITE_NULL) by auto. subst r.
    destruct (store_root_spec s (plug_right rt ITE_NULL)) as [H1 H2];
      [by rewrite elems_plug_right..|].
    destruct (store_root_spec (ipc_splay_tree_init small) (Node (plug_left lt l) n e ITE_NULL)) as [H3 H4].
    { simpl. rewrite elems_plug_left, ksorted_app. split_and!; [done|repeat constructor|].
      simpl. intros x y Hx ->%list_elem_of_singleton. by apply HL. }
    { simpl. rewrite elems_plug_left, keys_app. intros x. rewrite elem_of_app. simpl.
      rewrite list_elem_of_singleton. naive_solver. }
    split_and!; try done; [rewrite H2|rewrite H4]; simpl;
      rewrite ?elems_plug_right, ?elems_plug_left; done.
  - destruct (store_root_spec (ipc_splay_tree_init small) (plug_left lt l)) as [H3 H4];
      [by rewrite elems_plug_left..|].
    destruct (splay_ok_search name (Node ITE_NULL n e r) [] rt) as [H1 H2].
    { split_and!; try done.
      - simpl. rewrite ksorted_cons. done.
      - by intros x ?%elem_of_nil.
      - intros x Hx. apply HR. rewrite keys_app. set_solver.
      - simpl. destruct (Z.eqb_spec name n), (Z.ltb_spec name n); try done; lia. }
    { simpl. intros x [->|Hx]%elem_of_cons; [done|]. by apply HrR. }
    split_and!; try done. by rewrite H4, elems_plug_left.
Qed.

Lemma join_spec s small :
  splay_ok s -> splay_ok small ->
  (forall x y, x ∈ keys (to_list small) -> y ∈ keys (to_list s) -> x < y) ->
  let '(s', small') := ipc_splay_tree_join s small in
  splay_ok s' /\ to_list small' = [] /\ to_list s' = to_list small ++ to_list s.
Proof.
  intros Hok Hsmall Hlt. unfold ipc_splay_tree_join.
  destruct (ist_root small) as [|? ? ? ?] eqn:Hroot.
  { destruct (splay_ok_null small Hroot) as [_ ->]. done. }
  assert (Hne : ist_root small <> ITE_NULL) by (by rewrite Hroot).
  rewrite <- Hroot in *.
  set (sroot := ipc_splay_prim_assemble _ _ _).
  assert (Hsr : elems sroot = to_list small).
  { unfold sroot. by rewrite elems_assemble, to_list_root. }
  set (root := match ist_root s with ITE_NULL => sroot | _ => _ end).
  assert (Ht : elems root = to_list small ++ to_list s).
  { unfold root. destruct (ist_root s) as [|? ? ? ?] eqn:Hroot'.
    { destruct (splay_ok_null s Hroot') as [_ ->]. by rewrite Hsr, app_nil_r. }
    assert (Hne' : ist_root s <> ITE_NULL) by (by rewrite Hroot').
    destruct (resplay_cases s MACH_PORT_SMALLEST Hok Hne')
      as (l & n & e & r & lt & rt & -> & Hd & Hl & HL & HR & Hnl & Hnr).
    assert (Hempty : lelems lt ++ elems l = []).
    { destruct (lelems lt ++ elems l) as [|[m em] rest] eqn:Hll; [done|]. exfalso.
      destruct (HL m) as [Hm _]; [simpl; set_solver|].
      assert (u32_range m) as Hrm by (apply (splay_ok_range s); [done|rewrite Hl; simpl; set_solver]).
      unfold u32_range, MACH_PORT_SMALLEST in *. lia. }
    simpl. rewrite elems_plug_right, Hsr, Hl, Hempty. done. }
  destruct (store_root_spec s root) as [H1 H2]; rewrite ?Ht.
  - rewrite ksorted_app. split_and!; try (by apply splay_ok_sorted). done.
  - intros x. rewrite keys_app, elem_of_app.
    intros [Hx|Hx]; [by apply (splay_ok_range small)|by apply (splay_ok_range s)].
  - split_and!; [done|done|]. by rewrite H2, Ht.
Qed.

(** [*lowerp] and [*upperp] are the tightest names around [name], with the
    sentinels for a missing side. *)
Definition tight_lower (name : Z) (l : list (Z * E)) (lower : Z) : Prop :=
  (lower ∈ keys l /\ lower <= name /\ forall x, x ∈ keys l -> x <= name -> x <= lower) \/
  (lower = MACH_PORT_LARGEST /\ forall x, x ∈ keys l -> name < x).

Definition tight_upper (name : Z) (l : list (Z * E)) (upper : Z) : Prop :=
  (upper ∈ keys l /\ name <= upper /\ forall x, x ∈ keys l -> name <= x -> upper <= x) \/
  (upper = MACH_PORT_SMALLEST /\ forall x, x ∈ keys l -> x < name).

Lemma last_left (lt : list lframe) l n e :
  ksorted (lelems ((l, n, e) :: lt)) ->
  n ∈ keys (lelems ((l, n, e) :: lt)) /\
  forall x, x ∈ keys (lelems ((l, n, e) :: lt)) -> x <= n.
Proof.
  simpl. rewrite app_assoc, ksorted_app. intros (_ & _ & H).
  split; [in_keys|]. intros x. rewrite (keys_app _ [_]), elem_of_app. simpl.
  rewrite list_elem_of_singleton. intros [Hx| ->]; [|done].
  apply Z.lt_le_incl, H; [done|in_keys].
Qed.

Lemma first_right (rt : list rframe) r n e :
  ksorted (relems ((n, e, r) :: rt)) ->
  n ∈ keys (relems ((n, e, r) :: rt)) /\
  forall x, x ∈ keys (relems ((n, e, r) :: rt)) -> n <= x.
Proof.
  simpl. rewrite ksorted_cons. intros [_ H].
  split; [in_keys|]. intros x [->|Hx]%elem_of_cons; [done|]. apply Z.lt_le_incl, H, Hx.
Qed.

Lemma bounds_spec s name :
  splay_ok s -> u32_range name ->
  let '(s', lower, upper) := ipc_splay_tree_bounds s name in
  splay_ok s' /\ to_list s' = to_list s /\
  tight_lower name (to_list s) lower /\ tight_upper name (to_list s) upper.
Proof.
  intros Hok Hname. unfold ipc_splay_tree_bounds.
  destruct (ist_root s) as [|? ? ? ?] eqn:Hroot.
  { destruct (splay_ok_null s Hroot) as [_ Hl]. rewrite Hl.
    split_and!; [done|done|right|right]; (split; [done|]); by intros x ?%elem_of_nil. }
  assert (Hne : ist_root s <> ITE_NULL) by (by rewrite Hroot).
  destruct (resplay_cases s name Hok Hne)
    as (l & n & e & r & lt & rt & -> & Hd & Hl & HL & HR & Hnl & Hnr).
  pose proof (splay_ok_sorted _ Hok) as Hs.
  assert (Hzl : zelems (Node l n e r, lt, rt) = to_list s) by (rewrite Hl; norm_app).
  destruct (splay_ok_search _ _ _ _ Hd) as [Hok' Hl'].
  { intros x. rewrite Hzl. by apply splay_ok_range. }
  rewrite Hl', Hzl. split_and!; try done; rewrite Hl in *.
  - apply ksorted_app in Hs as (HsL & _ & _). unfold tight_lower.
    setoid_rewrite elem_of_keys_around. destruct (Z.leb_spec n name) as [Hle|Hgt].
    + left. split_and!; [tauto|done|].
      intros x [Hx|[->|Hx]] ?; [apply HL in Hx|..|apply HR in Hx]; lia.
    + rewrite (Hnl Hgt) in *. simpl in *. rewrite app_nil_r in *.
      destruct lt as [|[[l0 n0] e0] lt].
      * right. split; [done|].
        intros x [Hx|[->|Hx]]; [by apply elem_of_nil in Hx|done|]. apply HR in Hx. lia.
      * destruct (last_left lt l0 n0 e0 HsL) as [Hin Hmax]. left.
        split_and!; [tauto|apply HL in Hin; lia|].
        intros x [Hx|[->|Hx]] ?; [by apply Hmax|lia|]. apply HR in Hx. lia.
  - apply ksorted_app in Hs as (_ & HsR & _). apply ksorted_cons in HsR as [HsR _].
    unfold tight_upper. setoid_rewrite elem_of_keys_around.
    destruct (Z.leb_spec name n) as [Hle|Hgt].
    + left. split_and!; [tauto|done|].
      intros x [Hx|[->|Hx]] ?; [apply HL in Hx|..|apply HR in Hx]; lia.
    + rewrite (Hnr Hgt) in *. simpl in *.
      destruct rt as [|[[n0 e0] r0] rt].
      * right. split; [done|].
        intros x [Hx|[->|Hx]]; [|done|by apply elem_of_nil in Hx]. apply HL in Hx. lia.
      * destruct (first_right rt r0 n0 e0 HsR) as [Hin Hmin]. left.
        split_and!; [tauto|apply HR in Hin; lia|].
        intros x [Hx|[->|Hx]] ?; [|lia|by apply Hmin]. apply HL in Hx. lia.
Qed.

Lemma pick_spec s :
  splay_ok s ->
  match ipc_splay_tree_pick s with
  | Some (n, e) => (n, e) ∈ to_list s
  | None => to_list s = []
  end.
Proof.
  intros Hok. unfold ipc_splay_tree_pick, to_list. destruct (ist_root s) as [|l n e r]; [done|].
  simpl. in_keys.
Qed.

(** ** Traversal

    [is_path parent b a] reads a reversed parent chain: [b] are the entries
    before and [a] those after the subtree the chain hangs from.  [visiting]
    describes a traversal stopped at an entry, with the entries already passed
    (and not deleted) and those to come. *)

Inductive is_path : tree -> list (Z * E) -> list (Z * E) -> Prop :=
| path_root : is_path ITE_NULL [] []
| path_left pp n e r b a :
    is_path pp b a -> is_path (Node pp n e r) b ((n, e) :: elems r ++ a)
| path_right pp n e l b a :
    is_path pp b a -> is_path (Node l n e pp) (b ++ elems l ++ [(n, e)]) a.

Definition visiting (t : traversal) (passed : list (Z * E)) (cur : Z * E)
    (todo : list (Z * E)) : Prop :=
  exists l r parent b a,
    t = Visit (Node l cur.1 cur.2 r) parent /\ is_path parent b a /\
    passed = b ++ elems l /\ todo = elems r ++ a.

Definition finished (t : traversal) (l : list (Z * E)) : Prop :=
  exists root, t = Done root /\ elems root = l.

(** The state the traversal reaches when [passed] is behind and [todo] ahead. *)
Definition reaches (t : traversal) (passed todo : list (Z * E)) : Prop :=
  match todo with
  | [] => finished t passed
  | cur :: todo => visiting t passed cur todo
  end.

Lemma traverse_left_spec current parent b a :
  current <> ITE_NULL -> is_path parent b a ->
  reaches (traverse_left current parent) b (elems current ++ a).
Proof.
  revert parent a. induction current as [|l IH n e r _]; intros parent a Hne Hp; [done|].
  simpl. destruct l as [|ll ln le lr]; simpl is_null; cbv iota.
  - exists ITE_NULL, r, parent, b, a. simpl. by rewrite app_nil_r.
  - specialize (IH (Node parent n e r) ((n, e) :: elems r ++ a) ltac:(done) ltac:(by constructor)).
    revert IH. rewrite <- app_assoc. done.
Qed.

Lemma traverse_back_spec parent current b a :
  current <> ITE_NULL -> is_path parent b a -> ksorted (b ++ elems current ++ a) ->
  reaches (traverse_back parent current) (b ++ elems current) a.
Proof.
  intros Hne Hp. revert current Hne.
  induction Hp as [|pp n e r b a Hp _|pp n e l b a Hp IH]; intros current Hne Hs; simpl.
  - by exists current.
  - assert (Hlt : ite_name_of current < n).
    { destruct current as [|l0 n0 e0 r0]; [done|]. simpl in *.
      rewrite ksorted_app in Hs. destruct Hs as (_ & Hs & _).
      rewrite ksorted_app in Hs. destruct Hs as (_ & _ & Hs).
      apply Hs; [rewrite keys_app; simpl; in_keys|simpl; in_keys]. }
    rewrite (proj2 (Z.ltb_lt _ _) Hlt). exists current, r, pp, b, a. done.
  - assert (Hgt : n < ite_name_of current).
    { destruct current as [|l0 n0 e0 r0]; [done|]. simpl in *.
      rewrite ksorted_app in Hs. destruct Hs as (_ & _ & Hs).
      apply Hs; [rewrite !keys_app; simpl; in_keys|rewrite !keys_app; simpl; in_keys]. }
    destruct (Z.ltb_spec (ite_name_of current) n) as [?|_]; [lia|].
    specialize (IH (Node l n e current)). simpl in IH.
    revert IH. revert Hs. norm_app. naive_solver.
Qed.

Lemma traverse_right_spec current parent b a l n e r :
  current = Node l n e r -> is_path parent b a -> ksorted (b ++ elems current ++ a) ->
  reaches (traverse_right current parent) (b ++ elems l ++ [(n, e)]) (elems r ++ a).
Proof.
  intros -> Hp Hs. simpl. destruct r as [|rl rn re rr] eqn:Hr; simpl is_null; cbv iota.
  - pose proof (traverse_back_spec parent (Node l n e ITE_NULL) b a ltac:(done) Hp Hs) as H.
    revert H. norm_app.
  - rewrite <- Hr. apply traverse_left_spec; [by rewrite Hr|]. by constructor.
Qed.

(** One step of the traversal, keeping or deleting the current entry. *)
Lemma traverse_next_spec t passed cur todo delete :
  ksorted (passed ++ cur :: todo) -> (forall x, x ∈ keys (passed ++ cur :: todo) -> u32_range x) ->
  visiting t passed cur todo ->
  reaches (ipc_splay_traverse_next t delete)
    (if delete then passed else passed ++ [cur]) todo.
Proof.
  intros Hs Hrange (l & r & parent & b & a & -> & Hp & -> & ->).
  destruct cur as [n e]. simpl in *.
  assert (Hs' : ksorted (b ++ elems (Node l n e r) ++ a)) by (revert Hs; norm_app).
  destruct delete; simpl; cycle 1.
  { pose proof (traverse_right_spec _ _ _ _ _ _ _ _ eq_refl Hp Hs') as H. revert H. norm_app. }
  destruct (is_null l) eqn:Hl; [apply is_null_spec in Hl as ->|]; destruct (is_null r) eqn:Hr;
    [apply is_null_spec in Hr as ->| |apply is_null_spec in Hr as ->|]; simpl in *.
  - rewrite app_nil_r in *. destruct Hp as [|pp pn pe pr b a Hp|pp pn pe pl b a Hp]; simpl in *.
    + by exists ITE_NULL.
    + destruct (Z.ltb_spec n pn) as [_|Hge].
      * exists ITE_NULL, pr, pp, b, a. simpl. by rewrite app_nil_r.
      * exfalso. pose proof (ksorted_two b (n, e) [] (pn, pe) (elems pr ++ a) Hs). simpl in *. lia.
    + destruct (Z.ltb_spec n pn) as [Hlt|_].
      * exfalso. rewrite <- !app_assoc, app_assoc in Hs.
        pose proof (ksorted_two _ (pn, pe) [] (n, e) a Hs). simpl in *. lia.
      * pose proof (traverse_back_spec pp (Node pl pn pe ITE_NULL) b a ltac:(done) Hp) as H.
        apply ksorted_remove in Hs. revert H Hs. norm_app.
  - rewrite app_nil_r. apply traverse_left_spec; [|done]. by intros ->.
  - apply traverse_back_spec; [by intros ->|done|].
    apply ksorted_remove in Hs. revert Hs. norm_app.
  - pose proof (splay_largest l) as Hbig.
    destruct (ipc_splay_prim_lookup MACH_PORT_LARGEST l) as [[root lt] rt].
    destruct Hbig as (l' & n' & e' & -> & Hle).
    { by intros ->. }
    { rewrite !ksorted_app in Hs'. tauto. }
    { intros x Hx. apply Hrange. rewrite !keys_app, !elem_of_app. tauto. }
    pose proof (traverse_right_spec (Node l' n' e' r) parent b a l' n' e' r eq_refl Hp) as H.
    simpl set_rchild. rewrite Hle. apply H. rewrite Hle in Hs.
    apply ksorted_remove in Hs. revert Hs. norm_app.
Qed.

Lemma traverse_start_spec s :
  splay_ok s -> reaches (ipc_splay_traverse_start s) [] (to_list s).
Proof.
  intros Hok. unfold ipc_splay_traverse_start, to_list.
  destruct (ist_root s) as [|l n e r] eqn:Hroot; [by exists ITE_NULL|].
  rewrite <- elems_assemble by done.
  rewrite <- (app_nil_r (elems _)). apply traverse_left_spec; [done|constructor].
Qed.

(** The loop of the callers: visit every entry with [f], which updates the
    caller's state and decides whether the entry is deleted. *)
Fixpoint traverse_loop {S : Type} (fuel : nat) (f : S -> Z * E -> S * bool)
    (st : S) (t : traversal) : S * traversal :=
  match fuel with
  | O => (st, t)
  | Datatypes.S fuel =>
    match traverse_entry t with
    | None => (st, t)
    | Some cur =>
      let '(st, delete) := f st cur in
      traverse_loop fuel f st (ipc_splay_traverse_next t delete)
    end
  end.

(** The specification of that loop: a left fold that keeps the entries it does
    not delete. *)
Fixpoint visit_all {S : Type} (f : S -> Z * E -> S * bool) (st : S) (l : list (Z * E))
    : S * list (Z * E) :=
  match l with
  | [] => (st, [])
  | cur :: l =>
    let '(st, delete) := f st cur in
    let '(st, kept) := visit_all f st l in
    (st, if delete then kept else cur :: kept)
  end.

Definition splay_size (s : ipc_splay_tree) : nat := length (to_list s).

Definition traverse_splay {S : Type} (f : S -> Z * E -> S * bool) (st : S) (s : ipc_splay_tree)
    : S * ipc_splay_tree :=
  let '(st, t) :=
    traverse_loop (Datatypes.S (splay_size s)) f st (ipc_splay_traverse_start s) in
  (st, ipc_splay_traverse_finish s t).

Lemma visit_all_kept {S : Type} (f : S -> Z * E -> S * bool) st l :
  (ksorted l -> ksorted (visit_all f st l).2) /\
  (forall x, x ∈ keys (visit_all f st l).2 -> x ∈ keys l).
Proof.
  revert st. induction l as [|[n e] l IH]; intros st; simpl; [done|].
  destruct (f st (n, e)) as [st' del]. specialize (IH st').
  destruct (visit_all f st' l) as [st'' kept]. simpl in *. destruct IH as [IH1 IH2].
  rewrite ksorted_cons. destruct del; simpl.
  - split; [naive_solver|]. intros x Hx. apply elem_of_cons. right. by apply IH2.
  - rewrite ksorted_cons. split; [naive_solver|].
    intros x [->|Hx]%elem_of_cons; apply elem_of_cons; naive_solver.
Qed.

Lemma traverse_loop_spec {S : Type} (f : S -> Z * E -> S * bool) fuel st t passed todo :
  (length todo < fuel)%nat -> ksorted (passed ++ todo) ->
  (forall x, x ∈ keys (passed ++ todo) -> u32_range x) ->
  reaches t passed todo ->
  exists t', traverse_loop fuel f st t = ((visit_all f st todo).1, t') /\
             finished t' (passed ++ (visit_all f st todo).2).
Proof.
  revert st t passed todo. induction fuel as [|fuel IH]; intros st t passed todo Hf Hs Hr Ht; [lia|].
  destruct todo as [|[n e] todo]; simpl.
  { destruct Ht as (root & -> & <-). simpl. exists (Done root). split; [done|].
    exists root. by rewrite app_nil_r. }
  pose proof (fun d => traverse_next_spec t passed (n, e) todo d Hs Hr Ht) as Hnext.
  destruct Ht as (l & r & parent & b & a & -> & Hp & Hpass & Htodo). simpl traverse_entry. cbv iota.
  destruct (f st (n, e)) as [st' del] eqn:Hfst. simpl.
  simpl in Hf. edestruct (IH st') as (t' & Heq & Hfin); [| | |exact (Hnext del)|].
  - lia.
  - destruct del; [by eapply ksorted_remove|]. by rewrite <- app_assoc.
  - intros x Hx. apply Hr. destruct del; revert Hx.
    + rewrite !keys_app, !elem_of_app. simpl. rewrite elem_of_cons. tauto.
    + by rewrite <- app_assoc.
  - exists t'. destruct (visit_all f st' todo) as [st'' kept]. split; [exact Heq|].
    simpl in *. revert Hfin. destruct del; [done|]. by rewrite <- app_assoc.
Qed.

Lemma traverse_splay_spec {S : Type} (f : S -> Z * E -> S * bool) st s :
  splay_ok s ->
  (traverse_splay f st s).1 = (visit_all f st (to_list s)).1 /\
  splay_ok (traverse_splay f st s).2 /\
  to_list (traverse_splay f st s).2 = (visit_all f st (to_list s)).2.
Proof.
  intros Hok. unfold traverse_splay.
  destruct (traverse_loop_spec f (Datatypes.S (splay_size s)) st (ipc_splay_traverse_start s) [] (to_list s))
    as (t' & -> & root & -> & Hroot); [unfold splay_size; lia|by apply splay_ok_sorted| |by apply traverse_start_spec|].
  { intros x. by apply splay_ok_range. }
  simpl in *. destruct (visit_all_kept f st (to_list s)) as [Hsorted Hsub].
  split; [done|]. rewrite <- Hroot. apply store_root_spec; rewrite Hroot.
  - by apply Hsorted, splay_ok_sorted.
  - intros x Hx. apply (splay_ok_range s); [done|]. by apply Hsub.
Qed.
End Splay.
