(* ===== verification/Table.v ===== *)
(** * Table sizes (ipc/ipc_table.c, ipc/ipc_table.h)

    [ipc_table_init] computes the arrays of sizes the entry tables and the
    dead-name request tables grow through.  The arrays are lists, filled from
    the front; [index] is the number of elements filled so far.

    [EntrySizes] is what the entry tables rely on (the comment of ipc_table.h);
    [ipc_table_entries_sizes] discharges it for the array that
    [ipc_table_init] computes. *)

From S2P Require Import Prelude Names.

(** i386: 4 KB pages, 4-byte pointers and integers. *)
Definition PAGE_SIZE : Z := 4096.
Definition sizeof_ipc_entry : Z := 16.
Definition sizeof_ipc_tree_entry : Z := 32.
Definition sizeof_ipc_port_request : Z := 8.

Definition ipc_table_entries_size : nat := 512.
Definition ipc_table_dnrequests_size : nat := 64.

Section fill.
Context (num : nat) (minsize elemsize : Z).

(** [if (size >= minsize) { its[index].its_size = size / elemsize; index++; }] *)
Definition fill_one (its : list Z) (size : Z) : list Z :=
  if minsize <=? size then its ++ [size / elemsize] else its.

(** First loop: powers of two, up to the page size. *)
Fixpoint fill_powers (fuel : nat) (its : list Z) (size : Z) : list Z * Z :=
  match fuel with
  | O => (its, size)
  | S fuel =>
    if (length its <? num)%nat && (size <? PAGE_SIZE) then
      fill_powers fuel (fill_one its size) (u32 (Z.shiftl size 1))
    else (its, size)
  end.

(** The inner loop: [period] counts down from 15. *)
Fixpoint fill_period (period : nat) (its : list Z) (size incrsize : Z) : list Z * Z :=
  match period with
  | O => (its, size)
  | S period =>
    if (length its <? num)%nat then
      fill_period period (fill_one its size) (u32 (size + incrsize)) incrsize
    else (its, size)
  end.

(** Second loop: increments of a page, then two pages, etc. *)
Fixpoint fill_pages (fuel : nat) (its : list Z) (size incrsize : Z) : list Z :=
  match fuel with
  | O => its
  | S fuel =>
    if (length its <? num)%nat then
      let '(its, size) := fill_period 15 its size incrsize in
      let incrsize :=
        if incrsize <? Z.shiftl PAGE_SIZE 3 then Z.shiftl incrsize 1 else incrsize in
      fill_pages fuel its size incrsize
    else its
  end.
End fill.

(** 32 doublings pass any page size, and each round of the second loop fills
    15 elements once [size] has passed [minsize]. *)
Definition ipc_table_fill (num : nat) (min elemsize : Z) : list Z :=
  let minsize := u32 (min * elemsize) in
  let '(its, size) := fill_powers num minsize elemsize 32 [] 1 in
  fill_pages num minsize elemsize num its size PAGE_SIZE.

Definition ipc_table_init : list Z * list Z :=
  let entries := ipc_table_fill (ipc_table_entries_size - 1) 4 sizeof_ipc_entry in
  let entries := entries ++ [nth (ipc_table_entries_size - 2) entries 0] in
  let dnrequests := ipc_table_fill (ipc_table_dnrequests_size - 1) 2 sizeof_ipc_port_request in
  (entries, dnrequests ++ [0]).

Definition ipc_table_entries : list Z := Eval vm_compute in ipc_table_init.1.
Definition ipc_table_dnrequests : list Z := Eval vm_compute in ipc_table_init.2.

(** ** What the users of the arrays rely on *)

Class EntrySizes `{PortConfig} := {
  its_size : nat -> Z;                 (* the array [ipc_table_entries] *)
  its_last : nat;                      (* the index of its last element *)
  its_first_pos : 0 < its_size 0;
  its_increasing : forall k, (S k < its_last)%nat -> its_size k < its_size (S k);
  its_last_eq : its_size its_last = its_size (pred its_last);
  its_last_pos : (1 < its_last)%nat;
  its_limit : forall k, (k <= its_last)%nat -> its_size k <= index_limit
}.

Fixpoint increasing (l : list Z) : bool :=
  match l with
  | x :: (y :: _) as l => (x <? y) && increasing l
  | _ => true
  end.

Lemma increasing_nth l k d :
  increasing l = true -> (S k < length l)%nat -> nth k l d < nth (S k) l d.
Proof.
  revert k. induction l as [|x l IH]; intros k Hinc Hk; [simpl in Hk; lia|].
  destruct l as [|y l]; [simpl in Hk; lia|].
  simpl in Hinc. apply andb_prop in Hinc as [Hxy Hinc]. apply Z.ltb_lt in Hxy.
  destruct k as [|k]; [done|]. apply IH; [done|]. simpl in *. lia.
Qed.

Lemma entries_computed :
  length ipc_table_entries = ipc_table_entries_size /\
  nth 0 ipc_table_entries 0 = 4 /\
  increasing (take 511 ipc_table_entries) = true /\
  nth 511 ipc_table_entries 0 = nth 510 ipc_table_entries 0 /\
  forallb (fun s => s <=? 16777215) ipc_table_entries = true.
Proof. vm_compute. done. Qed.

Lemma nth_take_lt (l : list Z) k n d : (k < n)%nat -> nth k (take n l) d = nth k l d.
Proof.
  revert k n. induction l as [|x l IH]; intros k n Hk; [by rewrite take_nil|].
  destruct n as [|n]; [lia|]. destruct k as [|k]; [done|]. simpl. apply IH. lia.
Qed.

Lemma entries_laws :
  0 < nth 0 ipc_table_entries 0 /\
  (forall k, (S k < 511)%nat -> nth k ipc_table_entries 0 < nth (S k) ipc_table_entries 0) /\
  nth 511 ipc_table_entries 0 = nth (pred 511) ipc_table_entries 0 /\
  (forall k, (k <= 511)%nat -> nth k ipc_table_entries 0 <= 16777215).
Proof.
  destruct entries_computed as (Hlen & H0 & Hinc & Hlast & Hlim).
  unfold ipc_table_entries_size in Hlen. split_and!.
  - by rewrite H0.
  - intros k Hk. rewrite <- !(nth_take_lt ipc_table_entries _ 511) by lia.
    apply increasing_nth; [done|]. rewrite length_take, Hlen. lia.
  - done.
  - intros k Hk. rewrite forallb_forall in Hlim. apply Z.leb_le, Hlim, nth_In. lia.
Qed.

Lemma entries_limit `{PortConfig} k :
  (k <= 511)%nat -> nth k ipc_table_entries 0 <= index_limit.
Proof.
  intros Hk. destruct entries_laws as (_ & _ & _ & Hlim). specialize (Hlim k Hk).
  rewrite index_limit_val. destruct PORT_GENERATIONS; lia.
Qed.

#[export] Instance ipc_table_entries_sizes `{PortConfig} : EntrySizes := {|
  its_size k := nth k ipc_table_entries 0;
  its_last := 511;
  its_first_pos := proj1 entries_laws;
  its_increasing := proj1 (proj2 entries_laws);
  its_last_eq := proj1 (proj2 (proj2 entries_laws));
  its_last_pos := ltac:(lia);
  its_limit := entries_limit
|}.
