(* ===== verification/Space.v ===== *)
(** * Entries and spaces (ipc/ipc_entry.h, ipc/ipc_space.h)

    The data of the capability table: table entries, splay tree entries, and
    the space that holds them.  Objects (ports and port sets) are addresses,
    [IO_NULL] being 0: the reverse hash tables hash them.

    A tree entry is reached through a pointer: the nodes of [is_tree] carry
    the pointer, and [is_ites] is the memory the pointers of the space's tree
    entries point to. *)

From S2P Require Import Prelude Names Splay Table.

Definition IO_NULL : Z := 0.

(** [ie_next] and [ie_request] are the two readings of the same word of the
    union [index]; [ie_index] belongs to the reverse hash table and is used
    independently of the other fields. *)
Record ipc_entry := mk_entry {
  ie_bits : Z;
  ie_object : Z;
  ie_request : Z;
  ie_index : Z
}.

Definition ie_next (e : ipc_entry) : Z := ie_request e.

Definition set_bits (b : Z) (e : ipc_entry) : ipc_entry :=
  mk_entry b (ie_object e) (ie_request e) (ie_index e).
Definition set_object (o : Z) (e : ipc_entry) : ipc_entry :=
  mk_entry (ie_bits e) o (ie_request e) (ie_index e).
Definition set_request (r : Z) (e : ipc_entry) : ipc_entry :=
  mk_entry (ie_bits e) (ie_object e) r (ie_index e).
Definition set_next (n : Z) (e : ipc_entry) : ipc_entry := set_request n e.
Definition set_index (i : Z) (e : ipc_entry) : ipc_entry :=
  mk_entry (ie_bits e) (ie_object e) (ie_request e) i.

Definition zero_entry : ipc_entry := mk_entry 0 0 0 0.

(** A table is a C array: [table[i]] and the update of one element. *)
Definition tget (table : list ipc_entry) (i : Z) : ipc_entry :=
  nth (Z.to_nat i) table zero_entry.

Definition tset (table : list ipc_entry) (i : Z) (f : ipc_entry -> ipc_entry) : list ipc_entry :=
  alter f (Z.to_nat i) table.

Definition tlen (table : list ipc_entry) : Z := Z.of_nat (length table).

(** Pointers to tree entries, and what they point to besides the name and the
    child pointers, which are in the splay tree. *)
Definition ite_ptr : Type := positive.

Record ipc_tree_entry := mk_ite {
  ite_bits : Z;
  ite_object : Z;
  ite_request : Z
}.

Record ipc_space := mk_space {
  is_active : bool;
  is_growing : bool;
  is_table : list ipc_entry;
  is_table_size : Z;
  is_table_next : nat;
  is_tree : ipc_splay_tree (E := ite_ptr);
  is_ites : gmap ite_ptr ipc_tree_entry;
  is_tree_total : Z;
  is_tree_small : Z;
  is_tree_hash : Z
}.

Definition with_table (t : list ipc_entry) (s : ipc_space) : ipc_space :=
  mk_space (is_active s) (is_growing s) t (is_table_size s) (is_table_next s)
    (is_tree s) (is_ites s) (is_tree_total s) (is_tree_small s) (is_tree_hash s).

Definition with_tree (t : ipc_splay_tree (E := ite_ptr)) (s : ipc_space) : ipc_space :=
  mk_space (is_active s) (is_growing s) (is_table s) (is_table_size s) (is_table_next s)
    t (is_ites s) (is_tree_total s) (is_tree_small s) (is_tree_hash s).

Definition with_ites (m : gmap ite_ptr ipc_tree_entry) (s : ipc_space) : ipc_space :=
  mk_space (is_active s) (is_growing s) (is_table s) (is_table_size s) (is_table_next s)
    (is_tree s) m (is_tree_total s) (is_tree_small s) (is_tree_hash s).

Definition with_total (n : Z) (s : ipc_space) : ipc_space :=
  mk_space (is_active s) (is_growing s) (is_table s) (is_table_size s) (is_table_next s)
    (is_tree s) (is_ites s) n (is_tree_small s) (is_tree_hash s).

Definition with_small (n : Z) (s : ipc_space) : ipc_space :=
  mk_space (is_active s) (is_growing s) (is_table s) (is_table_size s) (is_table_next s)
    (is_tree s) (is_ites s) (is_tree_total s) n (is_tree_hash s).

Definition with_tree_hash (n : Z) (s : ipc_space) : ipc_space :=
  mk_space (is_active s) (is_growing s) (is_table s) (is_table_size s) (is_table_next s)
    (is_tree s) (is_ites s) (is_tree_total s) (is_tree_small s) n.

Definition with_growing (g : bool) (s : ipc_space) : ipc_space :=
  mk_space (is_active s) g (is_table s) (is_table_size s) (is_table_next s)
    (is_tree s) (is_ites s) (is_tree_total s) (is_tree_small s) (is_tree_hash s).

(** [space->is_table = table; is_table_size = size; is_table_next = nits;] *)
Definition with_new_table (t : list ipc_entry) (size : Z) (next : nat) (s : ipc_space) : ipc_space :=
  mk_space (is_active s) (is_growing s) t size next
    (is_tree s) (is_ites s) (is_tree_total s) (is_tree_small s) (is_tree_hash s).

(** An [ipc_entry_t] points to a table slot or to a tree entry. *)
Inductive entry_ref :=
| TableEntry (index : Z)
| TreeEntry (ptr : ite_ptr).

#[export] Instance entry_ref_eq_dec : EqDecision entry_ref.
Proof. solve_decision. Defined.

(** ** Lemmas on tables *)

Lemma tlen_tset table i f : tlen (tset table i f) = tlen table.
Proof. unfold tlen, tset. by rewrite length_alter. Qed.

Lemma tget_lookup table i :
  0 <= i < tlen table -> table !! Z.to_nat i = Some (tget table i).
Proof.
  unfold tlen, tget. intros Hi.
  destruct (lookup_lt_is_Some_2 table (Z.to_nat i)) as [e He]; [lia|].
  rewrite He. f_equal. symmetry. by apply nth_lookup_Some.
Qed.

Lemma tget_tset_eq table i f :
  0 <= i < tlen table -> tget (tset table i f) i = f (tget table i).
Proof.
  intros Hi. unfold tset. pose proof (tget_lookup table i Hi) as Hl.
  unfold tget in *. rewrite nth_lookup, list_lookup_alter_eq, Hl. done.
Qed.

Lemma tget_tset_ne table i j f :
  0 <= i -> 0 <= j -> i <> j -> tget (tset table i f) j = tget table j.
Proof.
  intros Hi Hj Hne. unfold tget, tset. rewrite !nth_lookup.
  rewrite list_lookup_alter_ne; [done|]. lia.
Qed.

Lemma tget_tset table i j f :
  0 <= i < tlen table -> 0 <= j ->
  tget (tset table i f) j = if i =? j then f (tget table j) else tget table j.
Proof.
  intros Hi Hj. destruct (Z.eqb_spec i j) as [->|Hne]; [by apply tget_tset_eq|].
  apply tget_tset_ne; lia.
Qed.

Lemma tget_app_l t1 t2 i : 0 <= i < tlen t1 -> tget (t1 ++ t2) i = tget t1 i.
Proof. unfold tget, tlen. intros. by rewrite app_nth1 by lia. Qed.

Lemma tget_app_r t1 t2 i : tlen t1 <= i -> tget (t1 ++ t2) i = tget t2 (i - tlen t1).
Proof.
  unfold tget, tlen. intros. rewrite app_nth2 by lia. f_equal. lia.
Qed.

Lemma tget_replicate n e i : 0 <= i < Z.of_nat n -> tget (replicate n e) i = e.
Proof.
  intros Hi. unfold tget. rewrite nth_lookup, lookup_replicate_2; [done|]. lia.
Qed.

Lemma table_ext t1 t2 :
  tlen t1 = tlen t2 -> (forall i, 0 <= i < tlen t1 -> tget t1 i = tget t2 i) -> t1 = t2.
Proof.
  intros Hlen Heq. apply list_eq. intros k. unfold tlen in *.
  destruct (decide (k < length t1)%nat) as [Hk|Hk].
  - specialize (Heq (Z.of_nat k) ltac:(lia)).
    pose proof (tget_lookup t1 (Z.of_nat k) ltac:(unfold tlen; lia)) as H1.
    pose proof (tget_lookup t2 (Z.of_nat k) ltac:(unfold tlen; lia)) as H2.
    rewrite Nat2Z.id in H1, H2. by rewrite H1, H2, Heq.
  - rewrite !lookup_ge_None_2 by lia. done.
Qed.
