(* ===== verification/Hash.v ===== *)
(** * Reverse hash tables (ipc/ipc_hash.c)

    [Local] is the open-addressing table kept in the [ie_index] fields of a
    space's entry table, with linear probing and deletion by moving displaced
    indices back into the hole.  [Global] is the chained table of splay tree
    entries, with move-to-front.

    For the local table, [local_ok] says which indices the table holds and
    that each can be reached from its home slot; insertion and deletion add
    and remove exactly one index, and lookup finds an index for an object
    exactly when the table holds one. *)

From S2P Require Import Prelude Names Splay Table Space.

Module Local.

Definition IH_LOCAL_HASH (obj size : Z) : Z := Z.shiftr obj 6 mod size.

(** [if (++hindex == size) hindex = 0;] *)
Definition next_slot (size hindex : Z) : Z := if hindex + 1 =? size then 0 else hindex + 1.

Section ops.
Context `{PortConfig}.

(** The searches visit each slot at most once before they meet an empty one,
    so the size of the table is enough fuel. *)
Fixpoint lookup_from (fuel : nat) (table : list ipc_entry) (size obj hindex : Z) : option (Z * Z) :=
  match fuel with
  | O => None
  | S fuel =>
    let index := ie_index (tget table hindex) in
    if index =? 0 then None
    else
      let entry := tget table index in
      if ie_object entry =? obj then Some (MACH_PORT_MAKEB index (ie_bits entry), index)
      else lookup_from fuel table size obj (next_slot size hindex)
  end.

Definition ipc_hash_local_lookup (table : list ipc_entry) (size obj : Z) : option (Z * Z) :=
  lookup_from (Z.to_nat size) table size obj (IH_LOCAL_HASH obj size).

Fixpoint insert_from (fuel : nat) (table : list ipc_entry) (size index hindex : Z) : list ipc_entry :=
  match fuel with
  | O => table
  | S fuel =>
    if ie_index (tget table hindex) =? 0 then tset table hindex (set_index index)
    else insert_from fuel table size index (next_slot size hindex)
  end.

Definition ipc_hash_local_insert (table : list ipc_entry) (size obj index : Z) : list ipc_entry :=
  insert_from (Z.to_nat size) table size index (IH_LOCAL_HASH obj size).

(** The slot that holds [index]; [None] when the search meets an empty slot
    (the entry was not in the table, which the code reports once). *)
Fixpoint find_index (fuel : nat) (table : list ipc_entry) (size index hindex : Z) : option Z :=
  match fuel with
  | O => None
  | S fuel =>
    if ie_index (tget table hindex) =? index then Some hindex
    else if ie_index (tget table hindex) =? 0 then None
    else find_index fuel table size index (next_slot size hindex)
  end.

(** Is the object at [dindex], whose home is [tindex], displaced past the
    hole at [hindex]? *)
Definition displaced (hindex dindex tindex : Z) : bool :=
  if dindex <? hindex then (dindex <? tindex) && (tindex <=? hindex)
  else (dindex <? tindex) || (tindex <=? hindex).

(** The inner loop: the next displaced index after the hole, or 0 at the end
    of the clump. *)
Fixpoint find_displaced (fuel : nat) (table : list ipc_entry) (size hindex dindex : Z) : Z * Z :=
  match fuel with
  | O => (dindex, 0)
  | S fuel =>
    let dindex := next_slot size dindex in
    let index := ie_index (tget table dindex) in
    if index =? 0 then (dindex, 0)
    else
      let tindex := IH_LOCAL_HASH (ie_object (tget table index)) size in
      if displaced hindex dindex tindex then (dindex, index)
      else find_displaced fuel table size hindex dindex
  end.

Fixpoint close_hole (fuel : nat) (table : list ipc_entry) (size hindex dindex : Z) : list ipc_entry :=
  match fuel with
  | O => table
  | S fuel =>
    let '(dindex, index) := find_displaced (Z.to_nat size) table size hindex dindex in
    let table := tset table hindex (set_index index) in
    if index =? 0 then table else close_hole fuel table size dindex dindex
  end.

Definition ipc_hash_local_delete (table : list ipc_entry) (size obj index : Z) : list ipc_entry :=
  match find_index (Z.to_nat size) table size index (IH_LOCAL_HASH obj size) with
  | None => table
  | Some hindex => close_hole (Z.to_nat size) table size hindex hindex
  end.
End ops.

(** ** The invariant *)

(** How far a search that starts at [a] goes to reach [b]. *)
Definition dist (size a b : Z) : Z := if a <=? b then b - a else b - a + size.

Definition home (table : list ipc_entry) (index : Z) : Z :=
  IH_LOCAL_HASH (ie_object (tget table index)) (tlen table).

Definition slot (table : list ipc_entry) (s : Z) : Z := ie_index (tget table s).

(** [index] is found by a search from its home slot. *)
Definition reachable (table : list ipc_entry) (index : Z) : Prop :=
  exists s, 0 <= s < tlen table /\ slot table s = index /\
  forall s', 0 <= s' < tlen table ->
    dist (tlen table) (home table index) s' < dist (tlen table) (home table index) s ->
    slot table s' <> 0.

(** The table holds exactly the indices that satisfy [held]. *)
Record local_ok (table : list ipc_entry) (held : Z -> Prop) : Prop := {
  lo_held : forall s, 0 <= s < tlen table -> slot table s <> 0 -> held (slot table s);
  lo_once : forall s1 s2, 0 <= s1 < tlen table -> 0 <= s2 < tlen table ->
    slot table s1 <> 0 -> slot table s1 = slot table s2 -> s1 = s2;
  lo_reach : forall index, held index -> reachable table index;
  lo_range : forall index, held index -> 0 < index < tlen table
}.

Ltac dist_cases :=
  unfold dist, next_slot in *;
  repeat match goal with
  | |- context [?a <=? ?b] => destruct (Z.leb_spec a b)
  | |- context [?a =? ?b] => destruct (Z.eqb_spec a b)
  | Hc : context [?a <=? ?b] |- _ => destruct (Z.leb_spec a b)
  | Hc : context [?a =? ?b] |- _ => destruct (Z.eqb_spec a b)
  end; try lia.

Lemma dist_range size a b : 0 <= a < size -> 0 <= b < size -> 0 <= dist size a b < size.
Proof. intros. dist_cases. Qed.

Lemma dist_inj size a b c :
  0 <= a < size -> 0 <= b < size -> 0 <= c < size -> dist size a b = dist size a c -> b = c.
Proof. intros. dist_cases. Qed.

Lemma next_slot_range size h : 0 <= h < size -> 0 <= next_slot size h < size.
Proof. intros. dist_cases. Qed.

Lemma next_slot_dist size a h :
  0 <= a < size -> 0 <= h < size -> dist size a h < size - 1 ->
  dist size a (next_slot size h) = dist size a h + 1.
Proof. intros. dist_cases. Qed.

Lemma dist_refl size a : dist size a a = 0.
Proof. dist_cases. Qed.

Lemma IH_LOCAL_HASH_range obj size : 0 < size -> 0 <= IH_LOCAL_HASH obj size < size.
Proof. intros. unfold IH_LOCAL_HASH. apply Z.mod_pos_bound. lia. Qed.

Lemma home_range table index : 0 < tlen table -> 0 <= home table index < tlen table.
Proof. apply IH_LOCAL_HASH_range. Qed.

(** At least one slot is empty, because index 0 is never held. *)
Lemma local_ok_empty table held :
  0 < tlen table -> local_ok table held -> exists s, 0 <= s < tlen table /\ slot table s = 0.
Proof.
  intros Hpos Hok.
  set (slots := map (fun k => slot table (Z.of_nat k)) (seq 0 (length table))).
  destruct (decide (0 ∈ slots)) as [Hin|Hnin].
  { apply list_elem_of_In, in_map_iff in Hin as (k & Hk & Hin).
    apply in_seq in Hin. exists (Z.of_nat k). unfold tlen. split; [lia|done]. }
  exfalso.
  assert (Hnz : forall s, 0 <= s < tlen table -> slot table s <> 0).
  { intros s Hs Heq. apply Hnin. apply list_elem_of_In, in_map_iff.
    exists (Z.to_nat s). rewrite Z2Nat.id by lia. split; [done|].
    apply in_seq. unfold tlen in Hs. lia. }
  assert (Hnd : List.NoDup slots).
  { apply Finite.Injective_map_NoDup_in; [|apply seq_NoDup].
    intros k1 k2 Hk1 Hk2 Heq. apply in_seq in Hk1, Hk2.
    apply Nat2Z.inj. apply (lo_once _ _ Hok); unfold tlen; try lia; try done.
    apply Hnz. unfold tlen. lia. }
  assert (Hincl : incl slots (map Z.of_nat (seq 1 (length table - 1)))).
  { intros x Hx. apply in_map_iff in Hx as (k & <- & Hk). apply in_seq in Hk.
    assert (Hr : 0 <= Z.of_nat k < tlen table) by (unfold tlen; lia).
    pose proof (lo_range _ _ Hok _ (lo_held _ _ Hok _ Hr (Hnz _ Hr))) as Hb. unfold tlen in Hb.
    apply in_map_iff. exists (Z.to_nat (slot table (Z.of_nat k))).
    rewrite Z2Nat.id by lia. split; [done|]. apply in_seq. lia. }
  apply (NoDup_incl_length Hnd) in Hincl. unfold slots, tlen in *.
  rewrite !length_map, !length_seq in Hincl. lia.
Qed.

(** ** Lookup *)

Section correct.
Context `{PortConfig}.

Lemma lookup_from_spec fuel table held obj h :
  local_ok table held -> 0 < tlen table -> 0 <= h < tlen table ->
  let start := IH_LOCAL_HASH obj (tlen table) in
  (forall s, 0 <= s < tlen table -> dist (tlen table) start s < dist (tlen table) start h ->
     slot table s <> 0 /\ ie_object (tget table (slot table s)) <> obj) ->
  tlen table - dist (tlen table) start h <= Z.of_nat fuel ->
  match lookup_from fuel table (tlen table) obj h with
  | Some (name, index) =>
    held index /\ ie_object (tget table index) = obj /\
    name = MACH_PORT_MAKEB index (ie_bits (tget table index))
  | None => forall index, held index -> ie_object (tget table index) <> obj
  end.
Proof.
  intros Hok Hpos. revert h. induction fuel as [|fuel IH]; intros h Hh start Hseen Hfuel.
  { pose proof (dist_range (tlen table) start h (IH_LOCAL_HASH_range _ _ Hpos) Hh). lia. }
  assert (Hstart : 0 <= start < tlen table) by (apply IH_LOCAL_HASH_range; lia).
  simpl. fold (slot table h). destruct (Z.eqb_spec (slot table h) 0) as [Hz|Hnz].
  - intros index Hheld Hobj. destruct (lo_reach _ _ Hok _ Hheld) as (s & Hs & Hslot & Hpath).
    assert (Hhome : home table index = start) by (unfold home, start; by rewrite Hobj).
    rewrite Hhome in Hpath.
    destruct (Z_lt_le_dec (dist (tlen table) start s) (dist (tlen table) start h)) as [Hlt|Hge].
    + destruct (Hseen s Hs Hlt) as [_ Hne]. by rewrite Hslot in Hne.
    + destruct (Z.eq_dec (dist (tlen table) start s) (dist (tlen table) start h)) as [Heq|Hne].
      * apply dist_inj in Heq as ->; [|done..]. rewrite Hz in Hslot.
        pose proof (lo_range _ _ Hok _ Hheld). lia.
      * apply (Hpath h); [done|lia|done].
  - destruct (Z.eqb_spec (ie_object (tget table (slot table h))) obj) as [Hobj|Hobj].
    + split_and!; [by apply (lo_held _ _ Hok)|done|done].
    + destruct (local_ok_empty table held Hpos Hok) as (z & Hzr & Hz).
      assert (Hfar : dist (tlen table) start h < dist (tlen table) start z).
      { destruct (Z_lt_le_dec (dist (tlen table) start h) (dist (tlen table) start z)); [done|].
        exfalso. destruct (Z.eq_dec (dist (tlen table) start h) (dist (tlen table) start z)) as [He|He].
        - apply dist_inj in He as ->; done.
        - destruct (Hseen z); [done|lia|done]. }
      pose proof (dist_range (tlen table) start z Hstart Hzr) as Hdz.
      assert (Hnd : dist (tlen table) start (next_slot (tlen table) h) = dist (tlen table) start h + 1)
        by (apply next_slot_dist; lia).
      apply IH; [by apply next_slot_range| |unfold start in *; lia].
      fold start. rewrite Hnd. intros s Hs Hd.
      destruct (Z.eq_dec (dist (tlen table) start s) (dist (tlen table) start h)) as [He|He].
      * apply dist_inj in He as ->; done.
      * apply Hseen; [done|lia].
Qed.

Lemma local_lookup_spec table held obj :
  local_ok table held -> 0 < tlen table ->
  match ipc_hash_local_lookup table (tlen table) obj with
  | Some (name, index) =>
    held index /\ ie_object (tget table index) = obj /\
    name = MACH_PORT_MAKEB index (ie_bits (tget table index))
  | None => forall index, held index -> ie_object (tget table index) <> obj
  end.
Proof.
  intros Hok Hpos. apply lookup_from_spec; try done.
  - by apply IH_LOCAL_HASH_range.
  - intros s Hs Hd. rewrite dist_refl in Hd.
    pose proof (dist_range (tlen table) _ s (IH_LOCAL_HASH_range obj _ Hpos) Hs). lia.
  - rewrite dist_refl. lia.
Qed.
End correct.

(** ** Insertion *)

Lemma slot_set table h v s :
  0 <= h < tlen table -> 0 <= s ->
  slot (tset table h (set_index v)) s = if h =? s then v else slot table s.
Proof. intros. unfold slot. rewrite tget_tset by done. by destruct (h =? s). Qed.

Lemma object_set table h v s :
  0 <= h < tlen table -> 0 <= s ->
  ie_object (tget (tset table h (set_index v)) s) = ie_object (tget table s).
Proof. intros. rewrite tget_tset by done. by destruct (h =? s). Qed.

Lemma home_set table h v i :
  0 <= h < tlen table -> 0 <= i -> home (tset table h (set_index v)) i = home table i.
Proof. intros. unfold home. by rewrite object_set, tlen_tset. Qed.

Lemma insert_from_spec fuel table index start h z :
  0 <= start < tlen table -> 0 <= h < tlen table -> 0 <= z < tlen table -> slot table z = 0 ->
  (forall s, 0 <= s < tlen table -> dist (tlen table) start s < dist (tlen table) start h ->
     slot table s <> 0) ->
  tlen table - dist (tlen table) start h <= Z.of_nat fuel ->
  exists e, 0 <= e < tlen table /\ slot table e = 0 /\
    (forall s, 0 <= s < tlen table -> dist (tlen table) start s < dist (tlen table) start e ->
       slot table s <> 0) /\
    insert_from fuel table (tlen table) index h = tset table e (set_index index).
Proof.
  intros Hstart Hh Hz Hzero. revert h Hh. induction fuel as [|fuel IH]; intros h Hh Hseen Hfuel.
  { pose proof (dist_range (tlen table) start h Hstart Hh). lia. }
  simpl. fold (slot table h). destruct (Z.eqb_spec (slot table h) 0) as [Hh0|Hnz]; [by exists h|].
  assert (Hfar : dist (tlen table) start h < dist (tlen table) start z).
  { destruct (Z.eq_dec (dist (tlen table) start h) (dist (tlen table) start z)) as [He|He].
    - apply dist_inj in He as ->; done.
    - destruct (Z_lt_le_dec (dist (tlen table) start z) (dist (tlen table) start h)); [|lia].
      by destruct (Hseen z). }
  pose proof (dist_range (tlen table) start z Hstart Hz) as Hdz.
  assert (Hnd : dist (tlen table) start (next_slot (tlen table) h) = dist (tlen table) start h + 1)
    by (apply next_slot_dist; lia).
  apply IH; [by apply next_slot_range| |lia]. rewrite Hnd. intros s Hs Hd.
  destruct (Z.eq_dec (dist (tlen table) start s) (dist (tlen table) start h)) as [He|He].
  - apply dist_inj in He as ->; done.
  - apply Hseen; [done|lia].
Qed.

Lemma local_insert_tset table held index :
  local_ok table held -> 0 < tlen table ->
  exists e, 0 <= e < tlen table /\ slot table e = 0 /\
    (forall s, 0 <= s < tlen table ->
       dist (tlen table) (home table index) s < dist (tlen table) (home table index) e ->
       slot table s <> 0) /\
    ipc_hash_local_insert table (tlen table) (ie_object (tget table index)) index =
      tset table e (set_index index).
Proof.
  intros Hok Hpos. destruct (local_ok_empty _ _ Hpos Hok) as (z & Hz & Hzero).
  unfold ipc_hash_local_insert. fold (home table index).
  pose proof (home_range table index Hpos) as Hhome.
  apply (insert_from_spec _ table index (home table index) (home table index) z); try done.
  - intros s Hs Hd. rewrite dist_refl in Hd.
    pose proof (dist_range (tlen table) _ s Hhome Hs). lia.
  - rewrite dist_refl. lia.
Qed.

Lemma local_insert_spec table held index :
  local_ok table held -> 0 < index < tlen table -> ~ held index ->
  local_ok (ipc_hash_local_insert table (tlen table) (ie_object (tget table index)) index)
    (fun i => i = index \/ held i).
Proof.
  intros Hok Hi Hnew.
  destruct (local_insert_tset table held index Hok) as (e & He & He0 & Hpath & ->); [lia|].
  split; rewrite ?tlen_tset.
  - intros s Hs. rewrite slot_set by lia. destruct (Z.eqb_spec e s) as [->|]; [by left|].
    intros. right. by apply (lo_held _ _ Hok).
  - intros s1 s2 Hs1 Hs2. rewrite !slot_set by lia.
    destruct (Z.eqb_spec e s1), (Z.eqb_spec e s2); [congruence| | |].
    + intros ? Heq. destruct Hnew. rewrite Heq. apply (lo_held _ _ Hok); [done|lia].
    + intros Hnz <-. destruct Hnew. by apply (lo_held _ _ Hok).
    + by apply (lo_once _ _ Hok).
  - intros i [->|Hheld].
    + exists e. rewrite tlen_tset, home_set, slot_set, Z.eqb_refl by lia.
      split_and!; try lia. intros s Hs Hd. rewrite slot_set by lia.
      destruct (Z.eqb_spec e s); [lia|]. by apply Hpath.
    + destruct (lo_reach _ _ Hok _ Hheld) as (s & Hs & Hslot & Hp).
      pose proof (lo_range _ _ Hok _ Hheld) as Hr. exists s.
      rewrite tlen_tset, home_set, slot_set by lia.
      destruct (Z.eqb_spec e s) as [Hes|Hne]; [rewrite <- Hes, He0 in Hslot; lia|].
      split_and!; [lia..|done|]. intros s' Hs' Hd. rewrite slot_set by lia.
      destruct (Z.eqb_spec e s'); [lia|]. by apply Hp.
  - intros i [->|Hheld]; [done|]. by apply (lo_range _ _ Hok).
Qed.

(** ** Deletion

    While the hole at [h] is being closed, its slot still holds a stale, but
    non-zero, index. *)

Record hole_ok (table : list ipc_entry) (held : Z -> Prop) (h : Z) : Prop := {
  ho_hole : 0 <= h < tlen table /\ slot table h <> 0;
  ho_held : forall s, 0 <= s < tlen table -> s <> h -> slot table s <> 0 -> held (slot table s);
  ho_once : forall s1 s2, 0 <= s1 < tlen table -> 0 <= s2 < tlen table -> s1 <> h -> s2 <> h ->
    slot table s1 <> 0 -> slot table s1 = slot table s2 -> s1 = s2;
  ho_reach : forall i, held i -> exists s, 0 <= s < tlen table /\ s <> h /\ slot table s = i /\
    forall s', 0 <= s' < tlen table ->
      dist (tlen table) (home table i) s' < dist (tlen table) (home table i) s ->
      slot table s' <> 0;
  ho_range : forall i, held i -> 0 < i < tlen table
}.

(** [s] lies strictly after the hole and before [d], going round. *)
Definition between (size h s d : Z) : Prop := 0 < dist size h s < dist size h d.

(** The search for the index at [s] does not pass the hole. *)
Definition settled (table : list ipc_entry) (h s : Z) : Prop :=
  dist (tlen table) (home table (slot table s)) s < dist (tlen table) (home table (slot table s)) h.

Lemma displaced_spec size h d t :
  0 <= h < size -> 0 <= d < size -> 0 <= t < size -> d <> h ->
  displaced h d t = true <-> dist size t h < dist size t d.
Proof.
  intros. unfold displaced.
  destruct (Z.ltb_spec d h), (Z.ltb_spec d t), (Z.leb_spec t h); simpl; dist_cases; split; try done; lia.
Qed.

Lemma find_displaced_spec fuel table held h d z :
  hole_ok table held h -> 0 <= d < tlen table -> 0 <= z < tlen table -> slot table z = 0 ->
  dist (tlen table) h d < dist (tlen table) h z ->
  (forall s, 0 <= s < tlen table -> 0 < dist (tlen table) h s <= dist (tlen table) h d ->
     slot table s <> 0 /\ settled table h s) ->
  dist (tlen table) h z - dist (tlen table) h d <= Z.of_nat fuel ->
  let '(d', index) := find_displaced fuel table (tlen table) h d in
  0 <= d' < tlen table /\ d' <> h /\ slot table d' = index /\
  dist (tlen table) h d' <= dist (tlen table) h z /\
  (forall s, 0 <= s < tlen table -> between (tlen table) h s d' ->
     slot table s <> 0 /\ settled table h s) /\
  (index <> 0 -> ~ settled table h d').
Proof.
  intros Hok. destruct (ho_hole _ _ _ Hok) as [Hh Hstale]. revert d.
  induction fuel as [|fuel IH]; intros d Hd Hz Hzero Hlt Hseen Hfuel; [lia|]. simpl.
  pose proof (dist_range (tlen table) h z Hh Hz) as Hdz.
  assert (Hnd : dist (tlen table) h (next_slot (tlen table) d) = dist (tlen table) h d + 1)
    by (apply next_slot_dist; lia).
  set (d' := next_slot (tlen table) d) in *.
  assert (Hd' : 0 <= d' < tlen table) by (by apply next_slot_range).
  assert (Hne : d' <> h).
  { intros ->. rewrite dist_refl in Hnd. pose proof (dist_range (tlen table) h d Hh Hd). lia. }
  fold (slot table d'). destruct (Z.eqb_spec (slot table d') 0) as [Hd0|Hdnz].
  { split_and!; try done; [lia..| ]. intros s Hs [? ?]. apply Hseen; [done|lia]. }
  fold (home table (slot table d')).
  pose proof (home_range table (slot table d') ltac:(lia)) as Hhome.
  destruct (displaced h d' (home table (slot table d'))) eqn:Hdis.
  - rewrite displaced_spec in Hdis by done. split_and!; try done; [lia..| |].
    + intros s Hs [? ?]. apply Hseen; [done|lia].
    + unfold settled. lia.
  - assert (Hset : settled table h d').
    { unfold settled. destruct (Z_lt_le_dec (dist (tlen table) (home table (slot table d')) d')
        (dist (tlen table) (home table (slot table d')) h)) as [|Hge]; [done|].
      destruct (Z.eq_dec (dist (tlen table) (home table (slot table d')) d')
        (dist (tlen table) (home table (slot table d')) h)) as [He|].
      - apply dist_inj in He; [by destruct Hne|done..].
      - rewrite (proj2 (displaced_spec (tlen table) h d' _ Hh Hd' Hhome Hne)) in Hdis by lia. done. }
    apply IH; try done.
    + destruct (Z.eq_dec (dist (tlen table) h d') (dist (tlen table) h z)) as [He|]; [|lia].
      apply dist_inj in He as ->; done.
    + intros s Hs Hds.
      destruct (Z.eq_dec (dist (tlen table) h s) (dist (tlen table) h d')) as [He|].
      * apply dist_inj in He as ->; done.
      * apply Hseen; [done|lia].
    + lia.
Qed.

(** Filling the hole with 0, when no search passes it. *)
Lemma fill_hole table held h d :
  hole_ok table held h -> 0 <= d < tlen table -> d <> h -> slot table d = 0 ->
  (forall s, 0 <= s < tlen table -> between (tlen table) h s d ->
     slot table s <> 0 /\ settled table h s) ->
  local_ok (tset table h (set_index 0)) held.
Proof.
  intros Hok Hd Hdh Hd0 Hbetween. destruct (ho_hole _ _ _ Hok) as [Hh Hstale].
  split; rewrite ?tlen_tset.
  - intros s Hs. rewrite slot_set by lia. destruct (Z.eqb_spec h s); [done|].
    by apply (ho_held _ _ _ Hok).
  - intros s1 s2 Hs1 Hs2. rewrite !slot_set by lia.
    destruct (Z.eqb_spec h s1), (Z.eqb_spec h s2); try done. by apply (ho_once _ _ _ Hok).
  - intros i Hi. destruct (ho_reach _ _ _ Hok _ Hi) as (s & Hs & Hsh & Hslot & Hpath).
    pose proof (ho_range _ _ _ Hok _ Hi) as Hr. exists s.
    rewrite tlen_tset, home_set, slot_set by lia. destruct (Z.eqb_spec h s) as [->|_]; [done|].
    split_and!; [lia..|done|]. intros s' Hs' Hds. rewrite slot_set by lia.
    destruct (Z.eqb_spec h s') as [<-|_]; [|by apply Hpath]. exfalso.
    pose proof (home_range table i ltac:(lia)) as Hhome.
    destruct (decide (between (tlen table) h s d)) as [Hb|Hb].
    + destruct (Hbetween s Hs Hb) as [_ Hset]. unfold settled in Hset. rewrite Hslot in Hset. lia.
    + assert (s <> d) by (intros ->; lia).
      apply (Hpath d); [done| |done]. unfold between in Hb. dist_cases.
  - apply (ho_range _ _ _ Hok).
Qed.

(** Moving a displaced index into the hole moves the hole. *)
Lemma move_hole table held h d :
  hole_ok table held h -> 0 <= d < tlen table -> d <> h -> slot table d <> 0 ->
  ~ settled table h d ->
  hole_ok (tset table h (set_index (slot table d))) held d.
Proof.
  intros Hok Hd Hdh Hd0 Hset. destruct (ho_hole _ _ _ Hok) as [Hh Hstale].
  pose proof (ho_held _ _ _ Hok d Hd Hdh Hd0) as Hheld.
  split; rewrite ?tlen_tset.
  - rewrite slot_set by lia. destruct (Z.eqb_spec h d); [by subst|done].
  - intros s Hs Hsd. rewrite slot_set by lia. destruct (Z.eqb_spec h s); [done|].
    by apply (ho_held _ _ _ Hok).
  - intros s1 s2 Hs1 Hs2 Hn1 Hn2. rewrite !slot_set by lia.
    destruct (Z.eqb_spec h s1), (Z.eqb_spec h s2); intros Hnz Heq; [congruence| | |].
    + destruct Hn2. symmetry. apply (ho_once _ _ _ Hok); congruence.
    + destruct Hn1. apply (ho_once _ _ _ Hok); congruence.
    + apply (ho_once _ _ _ Hok); congruence.
  - intros i Hi. destruct (ho_reach _ _ _ Hok _ Hi) as (s & Hs & Hsh & Hslot & Hpath).
    pose proof (ho_range _ _ _ Hok _ Hi) as Hr.
    assert (Hpath' : forall s', 0 <= s' < tlen table ->
      dist (tlen table) (home table i) s' < dist (tlen table) (home table i) s ->
      slot (tset table h (set_index (slot table d))) s' <> 0).
    { intros s' Hs' Hds. rewrite slot_set by lia. destruct (h =? s'); [done|]. by apply Hpath. }
    destruct (Z.eq_dec i (slot table d)) as [->|Hne].
    + assert (s = d) as -> by (by apply (ho_once _ _ _ Hok); try congruence).
      exists h. rewrite home_set, slot_set, Z.eqb_refl by lia. split_and!; try lia.
      intros s' Hs' Hds. apply Hpath'; [done|]. unfold settled in Hset. lia.
    + exists s. rewrite home_set, slot_set by lia.
      destruct (Z.eqb_spec h s); [by subst|]. split_and!; try lia; [|done]. intros ->. by apply Hne.
  - apply (ho_range _ _ _ Hok).
Qed.

Lemma close_hole_spec fuel table held h z :
  hole_ok table held h -> 0 <= z < tlen table -> slot table z = 0 ->
  dist (tlen table) h z <= Z.of_nat fuel ->
  local_ok (close_hole fuel table (tlen table) h h) held.
Proof.
  revert table h. induction fuel as [|fuel IH]; intros table h Hok Hz Hzero Hfuel;
    destruct (ho_hole _ _ _ Hok) as [Hh Hstale].
  { assert (h = z); [|by subst]. apply (dist_inj (tlen table) h); try done.
    rewrite dist_refl. pose proof (dist_range (tlen table) h z Hh Hz). lia. }
  assert (Hpos : 0 < dist (tlen table) h z).
  { destruct (Z.eq_dec (dist (tlen table) h z) (dist (tlen table) h h)) as [He|He].
    - apply dist_inj in He as ->; done.
    - rewrite dist_refl in He. pose proof (dist_range (tlen table) h z Hh Hz). lia. }
  simpl. pose proof (dist_range (tlen table) h z Hh Hz) as Hdz.
  pose proof (find_displaced_spec (Z.to_nat (tlen table)) table held h h z Hok Hh Hz Hzero) as Hfind.
  rewrite dist_refl in Hfind. specialize (Hfind Hpos ltac:(intros; lia) ltac:(lia)).
  destruct (find_displaced _ table _ h h) as [d index].
  destruct Hfind as (Hd & Hdh & <- & Hle & Hbetween & Hset).
  destruct (Z.eqb_spec (slot table d) 0) as [Hd0|Hdnz].
  - rewrite Hd0. by apply (fill_hole table held h d).
  - rewrite <- (tlen_tset table h (set_index (slot table d))).
    apply IH; rewrite ?tlen_tset; try done.
    + apply move_hole; auto.
    + rewrite slot_set by lia. destruct (Z.eqb_spec h z); [by subst|done].
    + assert (d <> z) by (intros ->; done). clear -Hle Hh Hd Hz Hdh Hfuel H. dist_cases.
Qed.

Lemma find_index_spec fuel table held index h s :
  local_ok table held -> 0 <= s < tlen table -> slot table s = index -> held index ->
  0 <= h < tlen table ->
  dist (tlen table) (home table index) h <= dist (tlen table) (home table index) s ->
  (forall s', 0 <= s' < tlen table ->
     dist (tlen table) (home table index) s' < dist (tlen table) (home table index) s ->
     slot table s' <> 0) ->
  dist (tlen table) (home table index) s - dist (tlen table) (home table index) h < Z.of_nat fuel ->
  find_index fuel table (tlen table) index h = Some s.
Proof.
  intros Hok Hs Hslot Hheld. revert h.
  pose proof (lo_range _ _ Hok _ Hheld) as Hr.
  pose proof (home_range table index ltac:(lia)) as Hhome.
  induction fuel as [|fuel IH]; intros h Hh Hle Hpath Hfuel; [lia|]. simpl. fold (slot table h).
  destruct (Z.eq_dec (dist (tlen table) (home table index) h) (dist (tlen table) (home table index) s)) as [He|He].
  { apply dist_inj in He as ->; try done. by rewrite Hslot, Z.eqb_refl. }
  destruct (Z.eqb_spec (slot table h) index) as [Heq|_].
  { destruct He. f_equal. apply (lo_once _ _ Hok); try done; lia. }
  destruct (Z.eqb_spec (slot table h) 0) as [Hz|_]; [destruct (Hpath h); [done|lia|done]|].
  pose proof (dist_range (tlen table) (home table index) s Hhome Hs).
  assert (Hnd : dist (tlen table) (home table index) (next_slot (tlen table) h)
                = dist (tlen table) (home table index) h + 1) by (apply next_slot_dist; lia).
  apply IH; [by apply next_slot_range|lia|done|lia].
Qed.

Lemma local_delete_spec table held index :
  local_ok table held -> held index ->
  local_ok (ipc_hash_local_delete table (tlen table) (ie_object (tget table index)) index)
    (fun i => i <> index /\ held i).
Proof.
  intros Hok Hheld. pose proof (lo_range _ _ Hok _ Hheld) as Hr.
  destruct (lo_reach _ _ Hok _ Hheld) as (s & Hs & Hslot & Hpath).
  pose proof (home_range table index ltac:(lia)) as Hhome.
  destruct (local_ok_empty table held ltac:(lia) Hok) as (z & Hz & Hzero).
  unfold ipc_hash_local_delete. fold (home table index).
  pose proof (dist_range (tlen table) _ s Hhome Hs).
  rewrite (find_index_spec _ table held index _ s) by (rewrite ?dist_refl; done || lia).
  apply (close_hole_spec _ table _ s z); try done.
  - split.
    + split; [done|lia].
    + intros s' Hs' Hne Hnz. split; [|by apply (lo_held _ _ Hok)].
      intros Heq. apply Hne. apply (lo_once _ _ Hok); try done. congruence.
    + intros s1 s2 H1 H2 _ _. by apply (lo_once _ _ Hok).
    + intros i [Hne Hi]. destruct (lo_reach _ _ Hok _ Hi) as (s' & Hs' & Hslot' & Hpath').
      exists s'. split_and!; [lia..| |done|done]. congruence.
    + intros i [_ Hi]. by apply (lo_range _ _ Hok).
  - pose proof (dist_range (tlen table) s z Hs Hz). lia.
Qed.

(** ** The other fields

    The local table operations only write [ie_index] fields. *)

Definition rights_of (e : ipc_entry) : Z * Z * Z := (ie_bits e, ie_object e, ie_request e).

Lemma rights_tset_index table h v i :
  rights_of (tget (tset table h (set_index v)) i) = rights_of (tget table i).
Proof.
  unfold tget, tset. rewrite !nth_lookup.
  destruct (decide (Z.to_nat h = Z.to_nat i)) as [->|Hne].
  - rewrite list_lookup_alter_eq. by destruct (table !! Z.to_nat i).
  - by rewrite list_lookup_alter_ne.
Qed.

Lemma local_insert_frame table size obj index i :
  rights_of (tget (ipc_hash_local_insert table size obj index) i) = rights_of (tget table i) /\
  tlen (ipc_hash_local_insert table size obj index) = tlen table.
Proof.
  unfold ipc_hash_local_insert. generalize (IH_LOCAL_HASH obj size).
  induction (Z.to_nat size) as [|fuel IH]; intros h; simpl; [done|].
  destruct (_ =? 0); [|apply IH]. by rewrite rights_tset_index, tlen_tset.
Qed.

Lemma close_hole_frame fuel table size h d i :
  rights_of (tget (close_hole fuel table size h d) i) = rights_of (tget table i) /\
  tlen (close_hole fuel table size h d) = tlen table.
Proof.
  revert table h d. induction fuel as [|fuel IH]; intros table h d; simpl; [done|].
  destruct (find_displaced _ _ _ _ _) as [d' index]. destruct (index =? 0).
  - by rewrite rights_tset_index, tlen_tset.
  - destruct (IH (tset table h (set_index index)) d' d') as [-> ->].
    by rewrite rights_tset_index, tlen_tset.
Qed.

Lemma local_delete_frame table size obj index i :
  rights_of (tget (ipc_hash_local_delete table size obj index) i) = rights_of (tget table i) /\
  tlen (ipc_hash_local_delete table size obj index) = tlen table.
Proof.
  unfold ipc_hash_local_delete. destruct (find_index _ _ _ _ _); [apply close_hole_frame|done].
Qed.
End Local.

(** * The global table *)

Module Global.

(** A linked tree entry: the fields a search compares or returns.  They do not
    change while the entry is linked. *)
Record linked_entry := mk_linked {
  le_space : Z;
  le_object : Z;
  le_name : Z;
  le_ptr : ite_ptr
}.

#[export] Instance linked_entry_eq_dec : EqDecision linked_entry.
Proof. solve_decision. Defined.

Definition bucket : Type := list linked_entry.

(** [ipc_hash_global_table], with [ipc_hash_global_mask]. *)
Record ghash := mk_ghash {
  ipc_hash_global_table : list bucket;
  ipc_hash_global_mask : Z
}.

Definition IH_GLOBAL_HASH (g : ghash) (space obj : Z) : nat :=
  Z.to_nat (Z.land (u32 (Z.shiftr space 4 + Z.shiftr obj 6)) (ipc_hash_global_mask g)).

Definition get_bucket (g : ghash) (k : nat) : bucket := nth k (ipc_hash_global_table g) [].

Definition set_bucket (g : ghash) (k : nat) (b : bucket) : ghash :=
  mk_ghash (<[k := b]> (ipc_hash_global_table g)) (ipc_hash_global_mask g).

Definition matches (space obj : Z) (e : linked_entry) : bool :=
  (le_object e =? obj) && (le_space e =? space).

(** The first match of a chain and the chain without it. *)
Fixpoint unlink_match (f : linked_entry -> bool) (b : bucket) : option (linked_entry * bucket) :=
  match b with
  | [] => None
  | this :: rest =>
    if f this then Some (this, rest)
    else match unlink_match f rest with
         | Some (e, rest) => Some (e, this :: rest)
         | None => None
         end
  end.

Definition ipc_hash_global_lookup (g : ghash) (space obj : Z) : ghash * option (Z * ite_ptr) :=
  let k := IH_GLOBAL_HASH g space obj in
  match get_bucket g k with
  | [] => (g, None)
  | this :: rest =>
    if matches space obj this then (g, Some (le_name this, le_ptr this))
    else
      match unlink_match (matches space obj) rest with
      | Some (e, rest) => (set_bucket g k (e :: this :: rest), Some (le_name e, le_ptr e))
      | None => (g, None)
      end
  end.

Definition ipc_hash_global_insert (g : ghash) (space obj name : Z) (entry : ite_ptr) : ghash :=
  let k := IH_GLOBAL_HASH g space obj in
  set_bucket g k (mk_linked space obj name entry :: get_bucket g k).

Definition is_entry (space : Z) (entry : ite_ptr) (e : linked_entry) : bool :=
  bool_decide (le_ptr e = entry) && (le_space e =? space).

Definition ipc_hash_global_delete (g : ghash) (space obj name : Z) (entry : ite_ptr) : ghash :=
  let k := IH_GLOBAL_HASH g space obj in
  match unlink_match (is_entry space entry) (get_bucket g k) with
  | Some (_, rest) => set_bucket g k rest
  | None => g
  end.

(** ** Initialisation *)

(** Rounding up to a power of two; 32 rounds set every bit of a 32-bit mask. *)
Fixpoint round_up (fuel : nat) (mask bit : Z) : Z :=
  match fuel with
  | O => mask
  | S fuel =>
    let mask := Z.lor mask bit in
    if Z.land (u32 (mask + 1)) mask =? 0 then mask
    else round_up fuel mask (u32 (Z.shiftl bit 1))
  end.

(** [configured] is the value of [ipc_hash_global_size] before the call, and
    [ipc_tree_entry_max] the configured number of tree entries. *)
Definition ipc_hash_init (configured ipc_tree_entry_max : Z) : ghash :=
  let size :=
    if configured =? 0 then
      let size := Z.shiftr ipc_tree_entry_max 8 in
      if size <? 32 then 32 else size
    else configured in
  let mask := u32 (size - 1) in
  let '(size, mask) :=
    if negb (Z.land size mask =? 0) then
      let mask := round_up 32 mask 1 in (u32 (mask + 1), mask)
    else (size, mask) in
  mk_ghash (replicate (Z.to_nat size) []) mask.

(** ** Correctness *)

(** Every linked entry is in the bucket its space and object hash to. *)
Definition ghash_ok (g : ghash) : Prop :=
  length (ipc_hash_global_table g) = Z.to_nat (ipc_hash_global_mask g + 1) /\
  0 <= ipc_hash_global_mask g /\
  forall k e, e ∈ get_bucket g k -> IH_GLOBAL_HASH g (le_space e) (le_object e) = k.

(** The entries of the whole table. *)
Definition linked (g : ghash) (e : linked_entry) : Prop := exists k, e ∈ get_bucket g k.

Lemma empty_buckets g : Forall (eq []) (ipc_hash_global_table g) -> forall e, ~ linked g e.
Proof.
  intros Hall e (k & Hin). unfold get_bucket in Hin. rewrite nth_lookup in Hin.
  destruct (_ !! k) eqn:Hk; simpl in Hin; [|by apply elem_of_nil in Hin].
  pose proof (Forall_lookup_1 _ _ _ _ Hall Hk) as Heq. rewrite <- Heq in Hin. by apply elem_of_nil in Hin.
Qed.

Lemma IH_GLOBAL_HASH_range g space obj :
  ghash_ok g -> (IH_GLOBAL_HASH g space obj < length (ipc_hash_global_table g))%nat.
Proof.
  intros (Hlen & Hm & _). rewrite Hlen. unfold IH_GLOBAL_HASH.
  pose proof (Z.land_nonneg (u32 (Z.shiftr space 4 + Z.shiftr obj 6)) (ipc_hash_global_mask g)) as [_ Hnn].
  assert (Hle : Z.land (u32 (Z.shiftr space 4 + Z.shiftr obj 6)) (ipc_hash_global_mask g)
          <= ipc_hash_global_mask g).
  { rewrite Z.land_comm. apply Z.ldiff_le; [done|]. apply Z.bits_inj'. intros i Hi.
    rewrite Z.ldiff_spec, Z.land_spec, Z.bits_0. by destruct (Z.testbit (ipc_hash_global_mask g) i), (Z.testbit _ i). }
  specialize (Hnn (or_intror Hm)). lia.
Qed.

Lemma get_set_bucket g k b k' :
  (k < length (ipc_hash_global_table g))%nat ->
  get_bucket (set_bucket g k b) k' = if decide (k = k') then b else get_bucket g k'.
Proof.
  intros Hk. unfold get_bucket, set_bucket. simpl. rewrite !nth_lookup.
  destruct (decide (k = k')) as [<-|Hne].
  - by rewrite list_lookup_insert_eq.
  - by rewrite list_lookup_insert_ne.
Qed.

Lemma unlink_match_spec f b :
  match unlink_match f b with
  | Some (e, rest) => f e = true /\ b ≡ₚ e :: rest
  | None => forall e, e ∈ b -> f e = false
  end.
Proof.
  induction b as [|this b IH]; simpl; [by intros e ?%elem_of_nil|].
  destruct (f this) eqn:Hf; [done|]. destruct (unlink_match f b) as [[e rest]|].
  - destruct IH as [He IH]. split; [done|]. rewrite IH. apply Permutation_swap.
  - intros e [->|He]%elem_of_cons; [done|]. by apply IH.
Qed.

(** Replacing a bucket by a permutation of it changes nothing that a search
    can see. *)
Lemma permute_bucket g k b :
  ghash_ok g -> (k < length (ipc_hash_global_table g))%nat -> b ≡ₚ get_bucket g k ->
  ghash_ok (set_bucket g k b) /\ forall e, linked (set_bucket g k b) e <-> linked g e.
Proof.
  intros (Hlen & Hm & Hin) Hk Hb.
  assert (Hmem : forall k' e, e ∈ get_bucket (set_bucket g k b) k' <-> e ∈ get_bucket g k').
  { intros k' e. rewrite get_set_bucket by done. destruct (decide (k = k')) as [<-|]; [by rewrite Hb|done]. }
  split; [split_and!|].
  - simpl. by rewrite length_insert.
  - done.
  - intros k' e He. apply Hmem in He. by apply Hin.
  - intros e. unfold linked. by setoid_rewrite Hmem.
Qed.

Lemma matches_true space obj e :
  matches space obj e = true <-> le_object e = obj /\ le_space e = space.
Proof. unfold matches. rewrite andb_true_iff, !Z.eqb_eq. done. Qed.

Lemma global_lookup_spec g space obj :
  ghash_ok g ->
  let '(g', r) := ipc_hash_global_lookup g space obj in
  ghash_ok g' /\ (forall e, linked g' e <-> linked g e) /\
  match r with
  | Some (name, ptr) => linked g (mk_linked space obj name ptr)
  | None => forall name ptr, ~ linked g (mk_linked space obj name ptr)
  end.
Proof.
  intros Hok. unfold ipc_hash_global_lookup.
  set (k := IH_GLOBAL_HASH g space obj).
  assert (Hk : (k < length (ipc_hash_global_table g))%nat) by (by apply IH_GLOBAL_HASH_range).
  assert (Hbucket : forall name ptr, linked g (mk_linked space obj name ptr) ->
            mk_linked space obj name ptr ∈ get_bucket g k).
  { intros name ptr [k' Hin]. pose proof Hok as (_ & _ & Hh). pose proof (Hh _ _ Hin) as Hkk.
    simpl in Hkk. by rewrite <- Hkk in Hin. }
  destruct (get_bucket g k) as [|this rest] eqn:Hb.
  { split_and!; try done. intros name ptr Hl%Hbucket. by apply elem_of_nil in Hl. }
  destruct (matches space obj this) eqn:Hthis.
  { split_and!; try done. apply matches_true in Hthis as [<- <-]. exists k. rewrite Hb.
    destruct this. simpl. set_solver. }
  pose proof (unlink_match_spec (matches space obj) rest) as Hun.
  destruct (unlink_match (matches space obj) rest) as [[e rest']|].
  - destruct Hun as [He Hperm].
    destruct (permute_bucket g k (e :: this :: rest') Hok Hk) as [Hok' Hlinked].
    { rewrite Hb, Hperm. apply Permutation_swap. }
    split_and!; try done. apply matches_true in He as [<- <-]. exists k. rewrite Hb, Hperm.
    destruct e. simpl. set_solver.
  - split_and!; try done. intros name ptr Hl%Hbucket.
    assert (Hm : matches space obj (mk_linked space obj name ptr) = true) by (by apply matches_true).
    apply elem_of_cons in Hl as [<-|Hl]; [congruence|]. by rewrite (Hun _ Hl) in Hm.
Qed.

Lemma global_insert_spec g space obj name ptr :
  ghash_ok g ->
  ghash_ok (ipc_hash_global_insert g space obj name ptr) /\
  forall e, linked (ipc_hash_global_insert g space obj name ptr) e <->
            e = mk_linked space obj name ptr \/ linked g e.
Proof.
  intros Hok. pose proof (IH_GLOBAL_HASH_range g space obj Hok) as Hk.
  unfold ipc_hash_global_insert. set (k := IH_GLOBAL_HASH g space obj) in *.
  pose proof Hok as (Hlen & Hm & Hin). split; [split_and!|].
  - simpl. by rewrite length_insert.
  - done.
  - intros k' e. rewrite get_set_bucket by done. destruct (decide (k = k')) as [<-|]; [|apply Hin].
    intros [->|He]%elem_of_cons; [done|]. by apply Hin.
  - intros e. unfold linked. setoid_rewrite get_set_bucket; [|done]. split.
    + intros [k' He]. destruct (decide (k = k')); [|by eauto].
      apply elem_of_cons in He as [->|He]; eauto.
    + intros [->|[k' He]].
      * exists k. rewrite decide_True by done. set_solver.
      * exists k'. destruct (decide (k = k')) as [<-|]; [set_solver|done].
Qed.

(** Deleting a linked entry; entries are linked at most once, so exactly that
    one disappears. *)
Lemma global_delete_spec g space obj name ptr :
  ghash_ok g -> linked g (mk_linked space obj name ptr) ->
  NoDup (get_bucket g (IH_GLOBAL_HASH g space obj)) ->
  (forall e, linked g e -> le_space e = space -> le_ptr e = ptr -> e = mk_linked space obj name ptr) ->
  ghash_ok (ipc_hash_global_delete g space obj name ptr) /\
  forall e, linked (ipc_hash_global_delete g space obj name ptr) e <->
            e <> mk_linked space obj name ptr /\ linked g e.
Proof.
  intros Hok [k0 Hl] Hnd Huniq. pose proof (IH_GLOBAL_HASH_range g space obj Hok) as Hk.
  pose proof Hok as (Hlen & Hm & Hin). pose proof (Hin _ _ Hl) as Hk0. simpl in Hk0.
  unfold ipc_hash_global_delete. set (k := IH_GLOBAL_HASH g space obj) in *. subst k0.
  pose proof (unlink_match_spec (is_entry space ptr) (get_bucket g k)) as Hun.
  assert (Hself : is_entry space ptr (mk_linked space obj name ptr) = true).
  { unfold is_entry. simpl. by rewrite bool_decide_true, Z.eqb_refl. }
  destruct (unlink_match _ _) as [[e rest]|]; [|by rewrite (Hun _ Hl) in Hself].
  destruct Hun as [He Hperm]. apply andb_prop in He as [He1 He2].
  apply bool_decide_eq_true in He1. apply Z.eqb_eq in He2.
  assert (e = mk_linked space obj name ptr) as ->.
  { apply Huniq; try done. exists k. rewrite Hperm. set_solver. }
  rewrite Hperm in Hnd. apply NoDup_cons in Hnd as [Hnin _].
  split; [split_and!|].
  - simpl. by rewrite length_insert.
  - done.
  - intros k' e. rewrite get_set_bucket by done. destruct (decide (k = k')) as [<-|]; [|apply Hin].
    intros He. apply Hin. rewrite Hperm. set_solver.
  - intros e. unfold linked. setoid_rewrite get_set_bucket; [|done]. split.
    + intros [k' He]. destruct (decide (k = k')) as [<-|Hne].
      * split; [by intros ->|]. exists k. rewrite Hperm. set_solver.
      * split; [|by eauto]. intros ->. apply Hne. apply (Hin _ _ He).
    + intros [Hne [k' He]]. exists k'. destruct (decide (k = k')) as [<-|]; [|done].
      rewrite Hperm in He. set_solver.
Qed.

(** The rounding loop: after [k] rounds the mask is the original one with its
    [k] low bits set, and the loop ends when there is no zero bit below the
    highest one. *)
Lemma low_ones_power m : 0 < m -> Z.land (m + 1) m = 0 -> m = 2 ^ (Z.log2 m + 1) - 1.
Proof.
  intros Hm Hland. pose proof (Z.log2_spec m Hm) as [Hlo Hhi].
  pose proof (Z.log2_nonneg m) as Hl0. rewrite <- Z.add_1_r in Hhi.
  destruct (Z_lt_le_dec (m + 1) (2 ^ (Z.log2 m + 1))) as [Hlt|Hge]; [|lia]. exfalso.
  assert (Hlog : Z.log2 (m + 1) = Z.log2 m) by (apply Z.log2_unique; lia).
  assert (Hb : Z.testbit (Z.land (m + 1) m) (Z.log2 m) = true).
  { rewrite Z.land_spec, Z.bit_log2, andb_true_r by lia. rewrite <- Hlog. apply Z.bit_log2. lia. }
  rewrite Hland, Z.bits_0 in Hb. done.
Qed.

Lemma log2_lor_ones m k :
  0 < m -> 0 <= k <= Z.log2 m + 1 ->
  0 < Z.lor m (Z.ones k) /\ Z.log2 (Z.lor m (Z.ones k)) = Z.log2 m.
Proof.
  intros Hm Hk. assert (Hones : 0 <= Z.ones k) by (rewrite Z.ones_equiv; pose proof (Z.pow_pos_nonneg 2 k); lia).
  split.
  - assert (0 <= Z.lor m (Z.ones k)) by (apply Z.lor_nonneg; lia).
    destruct (Z.eq_dec (Z.lor m (Z.ones k)) 0) as [He|]; [|lia].
    apply Z.lor_eq_0_iff in He. lia.
  - rewrite Z.log2_lor by lia. apply Z.max_l.
    destruct (Z.eq_dec k 0) as [->|]; [simpl; apply Z.log2_nonneg|].
    rewrite Z.ones_equiv, Z.log2_pred_pow2 by lia. lia.
Qed.

Lemma round_up_spec fuel m k :
  0 < m < 2147483648 -> 0 <= k <= Z.log2 m -> Z.log2 m < k + Z.of_nat fuel ->
  round_up fuel (Z.lor m (Z.ones k)) (2 ^ k) = 2 ^ (Z.log2 m + 1) - 1.
Proof.
  intros Hm. revert k. induction fuel as [|fuel IH]; intros k Hk Hfuel; [lia|].
  simpl. assert (Hbit : Z.lor (Z.lor m (Z.ones k)) (2 ^ k) = Z.lor m (Z.ones (k + 1))).
  { rewrite <- Z.lor_assoc. f_equal. apply Z.bits_inj'. intros i Hi.
    rewrite Z.lor_spec, Z.pow2_bits_eqb, !Z.testbit_ones_nonneg by lia.
    destruct (Z.ltb_spec i k), (Z.eqb_spec k i), (Z.ltb_spec i (k + 1)); try done; lia. }
  rewrite Hbit. destruct (log2_lor_ones m (k + 1)) as [Hpos Hlog]; [lia..|].
  set (m' := Z.lor m (Z.ones (k + 1))) in *.
  assert (Hlog31 : Z.log2 m < 31) by (apply Z.log2_lt_pow2; lia).
  assert (Hm' : m' < 4294967295).
  { pose proof (Z.log2_spec m' Hpos) as [_ Hhi]. rewrite Hlog in Hhi.
    pose proof (Z.pow_le_mono_r 2 (Z.succ (Z.log2 m)) 31 ltac:(lia) ltac:(lia)). lia. }
  rewrite (u32_id (m' + 1)) by (unfold u32_range, u32_max; lia).
  destruct (Z.eqb_spec (Z.land (m' + 1) m') 0) as [H0|Hn0].
  - rewrite (low_ones_power m' Hpos H0). by rewrite Hlog.
  - assert (Hk1 : k + 1 <= Z.log2 m).
    { destruct (Z.eq_dec k (Z.log2 m)) as [->|]; [|lia]. exfalso. apply Hn0.
      assert (Hall : m' = Z.ones (Z.log2 m + 1)).
      { unfold m'. apply Z.bits_inj'. intros i Hi. rewrite Z.lor_spec.
        rewrite Z.testbit_ones_nonneg by lia. destruct (Z.ltb_spec i (Z.log2 m + 1)); [by rewrite orb_true_r|].
        rewrite Z.bits_above_log2 by lia. done. }
      rewrite Hall, Z.ones_equiv.
      replace (Z.pred (2 ^ (Z.log2 m + 1)) + 1) with (2 ^ (Z.log2 m + 1)) by lia.
      rewrite <- Z.ones_equiv. apply Z.bits_inj'. intros i Hi.
      rewrite Z.land_spec, Z.pow2_bits_eqb, Z.testbit_ones_nonneg, Z.bits_0 by lia.
      destruct (Z.eqb_spec (Z.log2 m + 1) i), (Z.ltb_spec i (Z.log2 m + 1)); try done; lia. }
    assert (Hshift : u32 (Z.shiftl (2 ^ k) 1) = 2 ^ (k + 1)).
    { rewrite Z.shiftl_mul_pow2 by lia. rewrite <- Z.pow_add_r by lia. apply u32_id.
      unfold u32_range, u32_max. pose proof (Z.pow_le_mono_r 2 (k + 1) 31 ltac:(lia) ltac:(lia)).
      pose proof (Z.pow_nonneg 2 (k + 1)). lia. }
    rewrite Hshift. apply IH; lia.
Qed.
End Global.

(** * The combined table (ipc_hash_lookup, ipc_hash_insert, ipc_hash_delete)

    [addr] is the address of the space, which the global table hashes. *)

Section combined.
Context `{PortConfig}.
Context (addr : Z).

Definition ipc_hash_lookup (s : ipc_space) (g : Global.ghash) (obj : Z)
    : Global.ghash * option (Z * entry_ref) :=
  match Local.ipc_hash_local_lookup (is_table s) (is_table_size s) obj with
  | Some (name, index) => (g, Some (name, TableEntry index))
  | None =>
    if 0 <? is_tree_hash s then
      let '(g, r) := Global.ipc_hash_global_lookup g addr obj in
      (g, match r with Some (name, p) => Some (name, TreeEntry p) | None => None end)
    else (g, None)
  end.

(** [(index < space->is_table_size) && (entry == &space->is_table[index])] *)
Definition in_table (s : ipc_space) (index : Z) (entry : entry_ref) : bool :=
  (index <? is_table_size s) && bool_decide (entry = TableEntry index).

Definition ipc_hash_insert (s : ipc_space) (g : Global.ghash) (obj name : Z) (entry : entry_ref)
    : ipc_space * Global.ghash :=
  let index := MACH_PORT_INDEX name in
  if in_table s index entry then
    (with_table (Local.ipc_hash_local_insert (is_table s) (is_table_size s) obj index) s, g)
  else
    match entry with
    | TreeEntry p =>
      (with_tree_hash (u32 (is_tree_hash s + 1)) s,
       Global.ipc_hash_global_insert g addr obj name p)
    | TableEntry _ => (s, g)
    end.

Definition ipc_hash_delete (s : ipc_space) (g : Global.ghash) (obj name : Z) (entry : entry_ref)
    : ipc_space * Global.ghash :=
  let index := MACH_PORT_INDEX name in
  if in_table s index entry then
    (with_table (Local.ipc_hash_local_delete (is_table s) (is_table_size s) obj index) s, g)
  else
    match entry with
    | TreeEntry p =>
      (with_tree_hash (u32 (is_tree_hash s - 1)) s,
       Global.ipc_hash_global_delete g addr obj name p)
    | TableEntry _ => (s, g)
    end.
End combined.
