(* ===== verification/Entry.v ===== *)
(** * Translation entries (ipc/ipc_entry.c, ipc_space_create of ipc/ipc_space.c)

    Allocation, lookup and deallocation of the entries of a space, and the
    growth of its table.  The functions are translated as they are written;
    where the code unlocks the space (to allocate memory, or to wait for
    another thread), the model applies [other_threads], what the rest of the
    system does to the space before the lock is taken again.

    The invariant [space_inv] ties the table, the free list threaded through
    it, the collision bits, the splay tree and the counters together, and the
    relation [denotes] says which entry a name denotes.  The theorems show
    that each operation changes the meaning of exactly the names it should. *)

From S2P Require Import Prelude Names Splay Table Space Hash.

Inductive kern_return :=
| KERN_SUCCESS
| KERN_NO_SPACE
| KERN_INVALID_ARGUMENT
| KERN_RESOURCE_SHORTAGE
| KERN_NAME_EXISTS
| KERN_INVALID_NAME
| KERN_INVALID_TASK
| KERN_INVALID_RIGHT
| KERN_INVALID_VALUE
| KERN_UREFS_OVERFLOW
| KERN_INVALID_CAPABILITY
| KERN_RIGHT_EXISTS
| KERN_NOT_IN_SET
| KERN_FAILURE
| KERN_NOT_RECEIVER
| KERN_INVALID_ADDRESS
| KERN_PROTECTION_FAILURE
| KERN_WRITE_PROTECTION_FAILURE
| KERN_INVALID_HOST.

#[export] Instance kern_return_eq_dec : EqDecision kern_return.
Proof. solve_decision. Defined.

(** What the code relies on from the rest of the system. *)
Record environment := {
  other_threads : ipc_space * Global.ghash -> ipc_space * Global.ghash;
  it_entries_alloc : Z -> bool;            (* does the (re)allocation succeed? *)
  ite_alloc : gmap ite_ptr ipc_tree_entry -> option ite_ptr
}.

Section ops.
Context `{PortConfig} `{!EntrySizes}.
Context (addr : Z) (env : environment).

(** ** Reading and writing through an [ipc_entry_t] *)

Definition read_entry (s : ipc_space) (r : entry_ref) : ipc_entry :=
  match r with
  | TableEntry i => tget (is_table s) i
  | TreeEntry p =>
    match is_ites s !! p with
    | Some it => mk_entry (ite_bits it) (ite_object it) (ite_request it) 0
    | None => zero_entry
    end
  end.

Definition write_entry (s : ipc_space) (r : entry_ref) (bits object request : Z) : ipc_space :=
  match r with
  | TableEntry i =>
    with_table (tset (is_table s) i (fun e => mk_entry bits object request (ie_index e))) s
  | TreeEntry p => with_ites (<[p := mk_ite bits object request]> (is_ites s)) s
  end.

(** ** A new space (ipc_space_create) *)

Definition new_table (n : nat) : list ipc_entry :=
  map (fun k => mk_entry IE_BITS_GEN_MASK IO_NULL
         (if (S k =? n)%nat then 0 else Z.of_nat (S k)) 0) (seq 0 n).

Definition empty_tree : ipc_splay_tree (E := ite_ptr) :=
  ipc_splay_tree_init (mk_splay 0 ITE_NULL [] []).

(** The space [ipc_space_create] builds once its memory is allocated and before
    it allocates the notify port (MACH_IPC_COMPAT). *)
Definition new_space (initial : nat) : ipc_space :=
  let new_size := its_size initial in
  mk_space true false (new_table (Z.to_nat new_size)) new_size (S initial) empty_tree ∅ 0 0 0.

(** ** ipc_entry.c *)

Definition ipc_entry_tree_collision (s : ipc_space) (name : Z) : ipc_space * bool :=
  let '(tree, lower, upper) := ipc_splay_tree_bounds (is_tree s) name in
  let index := MACH_PORT_INDEX name in
  (with_tree tree s,
   (negb (lower =? MACH_PORT_LARGEST) && (MACH_PORT_INDEX lower =? index)) ||
   (negb (upper =? 0) && (MACH_PORT_INDEX upper =? index))).

Definition tree_lookup (s : ipc_space) (name : Z) : ipc_space * option entry_ref :=
  let '(tree, r) := ipc_splay_tree_lookup (is_tree s) name in
  (with_tree tree s, match r with Some p => Some (TreeEntry p) | None => None end).

Definition ipc_entry_lookup (s : ipc_space) (name : Z) : ipc_space * option entry_ref :=
  let index := MACH_PORT_INDEX name in
  if index <? is_table_size s then
    let entry := tget (is_table s) index in
    if negb (IE_BITS_GEN (ie_bits entry) =? MACH_PORT_GEN name) then
      if has (ie_bits entry) IE_BITS_COLLISION then tree_lookup s name else (s, None)
    else if IE_BITS_TYPE (ie_bits entry) =? MACH_PORT_TYPE_NONE then (s, None)
    else (s, Some (TableEntry index))
  else if is_tree_total s =? 0 then (s, None)
  else tree_lookup s name.

(** [None] is KERN_NO_SPACE. *)
Definition ipc_entry_get (s : ipc_space) : ipc_space * option (Z * entry_ref) :=
  let table := is_table s in
  let first_free := ie_next (tget table 0) in
  if first_free =? 0 then (s, None)
  else
    let free_entry := tget table first_free in
    let table := tset table 0 (set_next (ie_next free_entry)) in
    let gen := u32 (ie_bits free_entry + IE_BITS_GEN_ONE) in
    let table := tset table first_free (fun e => set_request 0 (set_bits gen e)) in
    (with_table table s, Some (MACH_PORT_MAKE first_free gen, TableEntry first_free)).

(** Unlinking [index] from the free list: the entry before it on the list.
    The list is shorter than the table, whose length is the fuel. *)
Fixpoint free_predecessor (fuel : nat) (table : list ipc_entry) (index free_index : Z) : Z :=
  match fuel with
  | O => free_index
  | S fuel =>
    let next_index := ie_next (tget table free_index) in
    if next_index =? index then free_index
    else free_predecessor fuel table index next_index
  end.

Definition unlink_free (table : list ipc_entry) (index : Z) : list ipc_entry :=
  let free_index := free_predecessor (length table) table index 0 in
  let next_index := ie_next (tget table free_index) in
  tset table free_index (set_next (ie_next (tget table next_index))).

Definition local_insert_at (table : list ipc_entry) (size i : Z) : list ipc_entry :=
  Local.ipc_hash_local_insert table size (ie_object (tget table i)) i.

Definition ipc_entry_dealloc (s : ipc_space) (g : Global.ghash) (name : Z) (entry : entry_ref)
    : ipc_space * Global.ghash :=
  let index := MACH_PORT_INDEX name in
  let size := is_table_size s in
  if (index <? size) && bool_decide (entry = TableEntry index) then
    if has (ie_bits (tget (is_table s) index)) IE_BITS_COLLISION then
      (* must move an entry from tree to table *)
      let '(tree, collisions) :=
        ipc_splay_tree_split (is_tree s) (MACH_PORT_MAKE (index + 1) 0) empty_tree in
      let '(collisions, small) :=
        ipc_splay_tree_split collisions (MACH_PORT_MAKE index 0) empty_tree in
      match ipc_splay_tree_pick collisions with
      | None => (s, g)                      (* assert(pick) *)
      | Some (tname, tentry) =>
        let it := read_entry s (TreeEntry tentry) in
        let bits := ie_bits it in
        let obj := ie_object it in
        let table := tset (is_table s) index (fun e =>
          mk_entry (Z.lor bits (MACH_PORT_GEN tname)) obj (ie_request it) (ie_index e)) in
        let s := with_table table s in
        let '(s, g) :=
          if IE_BITS_TYPE bits =? MACH_PORT_TYPE_SEND then
            let g := Global.ipc_hash_global_delete g addr obj tname tentry in
            let s := with_tree_hash (u32 (is_tree_hash s - 1)) s in
            (with_table (Local.ipc_hash_local_insert (is_table s) size obj index) s, g)
          else (s, g) in
        let collisions := ipc_splay_tree_delete collisions tname in
        let s := with_ites (delete tentry (is_ites s)) s in
        let s := with_total (u32 (is_tree_total s - 1)) s in
        (* check if collision bit should still be on *)
        let '(s, tree) :=
          match ipc_splay_tree_pick collisions with
          | Some _ =>
            (with_table (tset (is_table s) index (fun e =>
               set_bits (Z.lor (ie_bits e) IE_BITS_COLLISION) e)) s,
             (ipc_splay_tree_join tree collisions).1)
          | None => (s, tree)
          end in
        (with_tree (ipc_splay_tree_join tree small).1 s, g)
      end
    else
      let table := tset (is_table s) index (fun e =>
        set_next (ie_next (tget (is_table s) 0))
          (set_bits (Z.land (ie_bits e) IE_BITS_GEN_MASK) e)) in
      (with_table (tset table 0 (set_next index)) s, g)
  else
    match entry with
    | TableEntry _ => (s, g)
    | TreeEntry tentry =>
      let s := with_tree (ipc_splay_tree_delete (is_tree s) name) s in
      let s := with_ites (delete tentry (is_ites s)) s in
      let s := with_total (u32 (is_tree_total s - 1)) s in
      if index <? size then
        let '(s, collision) := ipc_entry_tree_collision s name in
        if negb collision then
          (with_table (tset (is_table s) index (fun e =>
             set_bits (clear (ie_bits e) IE_BITS_COLLISION) e)) s, g)
        else (s, g)
      else if index <? its_size (is_table_next s) then
        let '(s, collision) := ipc_entry_tree_collision s name in
        if negb collision then (with_small (u32 (is_tree_small s - 1)) s, g) else (s, g)
      else (s, g)
    end.

(** ** ipc_entry_grow_table *)

(** Put an old entry into the reverse hash table. *)
Definition rehash_one (size : Z) (table : list ipc_entry) (i : Z) : list ipc_entry :=
  if IE_BITS_TYPE (ie_bits (tget table i)) =? MACH_PORT_TYPE_SEND
  then local_insert_at table size i else table.

Definition indices (lo hi : Z) : list Z :=
  map (fun k => lo + Z.of_nat k) (seq 0 (Z.to_nat (hi - lo))).

(** The body of the loop that moves tree entries into the table; the second
    component is the variable [delete]. *)
Definition move_entry (size : Z) (st : ipc_space * Global.ghash) (cur : Z * ite_ptr)
    : (ipc_space * Global.ghash) * bool :=
  let '(s, g) := st in
  let '(name, tentry) := cur in
  let gen := MACH_PORT_GEN name in
  let index := MACH_PORT_INDEX name in
  let bits := ie_bits (tget (is_table s) index) in
  if negb (bits =? 0) then
    ((with_table (tset (is_table s) index (set_bits (Z.lor bits IE_BITS_COLLISION))) s, g), false)
  else
    let it := read_entry s (TreeEntry tentry) in
    let bits := ie_bits it in
    let obj := ie_object it in
    let s := with_table (tset (is_table s) index (fun e =>
      mk_entry (Z.lor bits gen) obj (ie_request it) (ie_index e))) s in
    let '(s, g) :=
      if IE_BITS_TYPE bits =? MACH_PORT_TYPE_SEND then
        let g := Global.ipc_hash_global_delete g addr obj name tentry in
        let s := with_tree_hash (u32 (is_tree_hash s - 1)) s in
        (with_table (Local.ipc_hash_local_insert (is_table s) size obj index) s, g)
      else (s, g) in
    let s := with_total (u32 (is_tree_total s - 1)) s in
    (* ipc_splay_traverse_next frees the entry *)
    ((with_ites (delete tentry (is_ites s)) s, g), true).

Definition count_small (st : Z * Z) (cur : Z * ite_ptr) : (Z * Z) * bool :=
  let '(nosmall, index) := st in
  let nindex := MACH_PORT_INDEX cur.1 in
  (if negb (nindex =? index) then (u32 (nosmall + 1), nindex) else (nosmall, index), false).

(** Add an unused entry of the new part to the free list. *)
Definition add_free (st : list ipc_entry * Z) (i : Z) : list ipc_entry * Z :=
  let '(table, free_index) := st in
  if ie_bits (tget table i) =? 0 then
    (tset table i (fun e => set_next free_index (set_bits IE_BITS_GEN_MASK e)), i)
  else (table, free_index).

(** Transfer entries of the splay tree into the new part of the table, and
    count those that the next size would make room for. *)
Definition transfer_tree (osize size nsize : Z) (s : ipc_space) (g : Global.ghash)
    : ipc_space * Global.ghash :=
  if 0 <? is_tree_total s then
    let '(tree, small) := ipc_splay_tree_split (is_tree s) (MACH_PORT_MAKE nsize 0) empty_tree in
    let '(small, move) := ipc_splay_tree_split small (MACH_PORT_MAKE size 0) empty_tree in
    let '(move, ignore) := ipc_splay_tree_split move (MACH_PORT_MAKE osize 0) empty_tree in
    let '((s, g), move) := traverse_splay (move_entry size) (s, g) move in
    let '((nosmall, _), small) := traverse_splay count_small (0, 0) small in
    let s := with_small nosmall s in
    let tree := (ipc_splay_tree_join tree small).1 in
    let tree := (ipc_splay_tree_join tree move).1 in
    let tree := (ipc_splay_tree_join tree ignore).1 in
    (with_tree tree s, g)
  else (s, g).

(** Install the new table in the locked space. *)
Definition grow_install (osize size nsize : Z) (nits : nat) (s : ipc_space) (g : Global.ghash)
    : ipc_space * Global.ghash :=
  let table := map (set_index 0) (is_table s) ++ replicate (Z.to_nat (size - osize)) zero_entry in
  let table := fold_left (rehash_one size) (indices 0 osize) table in
  let s := with_new_table table size nits s in
  let '(s, g) := transfer_tree osize size nsize s g in
  let '(table, free_index) :=
    fold_left add_free (rev (indices osize size)) (is_table s, ie_next (tget (is_table s) 0)) in
  (with_table (tset table 0 (set_next free_index)) s, g).

(** One iteration of the loop: either the call returns, or it goes round. *)
Inductive grow_result :=
| Return (kr : kern_return) (s : ipc_space) (g : Global.ghash)
| Again (s : ipc_space) (g : Global.ghash).

Definition grow_step (s : ipc_space) (g : Global.ghash) : grow_result :=
  if is_growing s then
    (* somebody else is growing the table; wait for them to finish *)
    let '(s, g) := other_threads env (s, g) in Return KERN_SUCCESS s g
  else
    let its := is_table_next s in
    let size := its_size its in
    let osize := its_size (pred its) in
    let nits := S its in
    let nsize := its_size nits in
    if osize =? size then Return KERN_NO_SPACE s g
    else
      let '(s, g) := other_threads env (with_growing true s, g) in
      let s := with_growing false s in
      if negb (it_entries_alloc env size) then Return KERN_RESOURCE_SHORTAGE s g
      else if negb (is_active s) then
        let '(s, g) := other_threads env (s, g) in Return KERN_SUCCESS s g
      else
        let '(s, g) := grow_install osize size nsize nits s g in
        let '(s, g) := other_threads env (s, g) in
        if negb (is_active s) || negb (is_table_next s =? nits)%nat then Return KERN_SUCCESS s g
        else if (0 <? is_tree_small s) &&
                (u32 ((nsize - size) * sizeof_ipc_entry) <?
                 u32 (is_tree_small s * sizeof_ipc_tree_entry))
        then Again s g
        else Return KERN_SUCCESS s g.

(** The table sizes bound the number of iterations that grow the table. *)
Fixpoint grow_loop (fuel : nat) (s : ipc_space) (g : Global.ghash)
    : option (kern_return * ipc_space * Global.ghash) :=
  match fuel with
  | O => None
  | S fuel =>
    match grow_step s g with
    | Return kr s g => Some (kr, s, g)
    | Again s g => grow_loop fuel s g
    end
  end.

Definition ipc_entry_grow_table (s : ipc_space) (g : Global.ghash)
    : option (kern_return * ipc_space * Global.ghash) :=
  grow_loop (S its_last) s g.

(** ** ipc_entry_alloc and ipc_entry_alloc_name *)

(** The loops retry after growing the table; [None] when the fuel runs out. *)
Fixpoint ipc_entry_alloc (fuel : nat) (s : ipc_space) (g : Global.ghash)
    : option (kern_return * option (Z * entry_ref) * ipc_space * Global.ghash) :=
  match fuel with
  | O => None
  | S fuel =>
    if negb (is_active s) then Some (KERN_INVALID_TASK, None, s, g)
    else
      match ipc_entry_get s with
      | (s, Some r) => Some (KERN_SUCCESS, Some r, s, g)
      | (s, None) =>
        match ipc_entry_grow_table s g with
        | None => None
        | Some (KERN_SUCCESS, s, g) => ipc_entry_alloc fuel s g
        | Some (kr, s, g) => Some (kr, None, s, g)
        end
      end
  end.

(** What one round of [ipc_entry_alloc_name] finds in the locked space. *)
Inductive alloc_found :=
| Found (entry : entry_ref) (s : ipc_space)
| Grow (s : ipc_space)
| NeedTree (s : ipc_space).

Definition alloc_name_find (s : ipc_space) (name : Z) : alloc_found :=
  let index := MACH_PORT_INDEX name in
  let gen := MACH_PORT_GEN name in
  let entry := tget (is_table s) index in
  if (0 <? index) && (index <? is_table_size s) &&
     (negb (IE_BITS_TYPE (ie_bits entry) =? 0) && (IE_BITS_GEN (ie_bits entry) =? gen)) then
    Found (TableEntry index) s
  else if (0 <? index) && (index <? is_table_size s) &&
          (IE_BITS_TYPE (ie_bits entry) =? 0) then
    let table := unlink_free (is_table s) index in
    let table := tset table index (fun e => set_request 0 (set_bits gen e)) in
    Found (TableEntry index) (with_table table s)
  else
    let '(s, r) := if 0 <? is_tree_total s then tree_lookup s name else (s, None) in
    match r with
    | Some entry => Found entry s
    | None =>
      let size := is_table_size s in
      let nsize := its_size (is_table_next s) in
      if (size <=? index) && (index <? nsize) &&
         (u32 ((nsize - size) * sizeof_ipc_entry) <?
          u32 ((is_tree_small s + 1) * sizeof_ipc_tree_entry))
      then Grow s
      else NeedTree s
    end.

(** Insert the tree entry allocated in an earlier round. *)
Definition insert_tree_entry (s : ipc_space) (name : Z) (tree_entry : ite_ptr) : ipc_space :=
  let index := MACH_PORT_INDEX name in
  let s := with_total (u32 (is_tree_total s + 1)) s in
  let s :=
    if index <? is_table_size s then
      with_table (tset (is_table s) index (fun e =>
        set_bits (Z.lor (ie_bits e) IE_BITS_COLLISION) e)) s
    else if index <? its_size (is_table_next s) then
      let '(s, collision) := ipc_entry_tree_collision s name in
      if negb collision then with_small (u32 (is_tree_small s + 1)) s else s
    else s in
  let s := with_tree (ipc_splay_tree_insert (is_tree s) name tree_entry) s in
  with_ites (<[tree_entry := mk_ite 0 IO_NULL 0]> (is_ites s)) s.

Fixpoint ipc_entry_alloc_name (fuel : nat) (s : ipc_space) (g : Global.ghash) (name : Z)
    (tree_entry : option ite_ptr)
    : option (kern_return * option entry_ref * ipc_space * Global.ghash) :=
  match fuel with
  | O => None
  | S fuel =>
    if negb (is_active s) then Some (KERN_INVALID_TASK, None, s, g)
    else
      match alloc_name_find s name with
      | Found entry s => Some (KERN_SUCCESS, Some entry, s, g)
      | Grow s =>
        match ipc_entry_grow_table s g with
        | None => None
        | Some (KERN_SUCCESS, s, g) => ipc_entry_alloc_name fuel s g name tree_entry
        | Some (kr, s, g) => Some (kr, None, s, g)
        end
      | NeedTree s =>
        match tree_entry with
        | Some p =>
          Some (KERN_SUCCESS, Some (TreeEntry p), insert_tree_entry s name p, g)
        | None =>
          match ite_alloc env (is_ites s) with
          | None => Some (KERN_RESOURCE_SHORTAGE, None, s, g)
          | Some p =>
            let '(s, g) := other_threads env (s, g) in
            ipc_entry_alloc_name fuel s g name (Some p)
          end
        end
      end
  end.
End ops.
