(* ===== verification/EntryInv.v ===== *)
(** * The invariant of a space and the meaning of its names

    [space_inv hole s] is the invariant of ipc_entry.c; [hole] is the name of
    an entry that is allocated but has no type yet (the callers of the
    allocation routines fill it in, and the callers of the deallocation
    routine have taken its right away), if there is one.  [denotes] is the
    translation a space defines, and [means] adds the capability found there:
    the bits that describe the right, the object, the request.

    This file holds the lemmas on lookup, [ipc_entry_get] and writes through
    entry pointers; Dealloc.v and Grow.v treat the operations that move
    entries between the tree and the table. *)

From S2P Require Import Prelude Names Splay Table Space Hash Entry.

(** The free list of a table: the indices reached from the entry [start]. *)
Abbreviation chain T := (linked_list (fun i => ie_next (tget T i))).

Section inv.
Context `{PortConfig} `{!EntrySizes}.

Definition tbits (T : list ipc_entry) (i : Z) : Z := ie_bits (tget T i).

Definition used (hole : option Z) (T : list ipc_entry) (i : Z) : Prop :=
  IE_BITS_TYPE (tbits T i) <> 0 \/ hole = Some (MACH_PORT_MAKEB i (tbits T i)).

#[export] Instance used_dec hole T i : Decision (used hole T i).
Proof. unfold used. apply _. Defined.

(** The indices in the next part of the table that the tree would fill. *)
Definition small_set (lo hi : Z) (L : list (Z * ite_ptr)) : gset Z :=
  list_to_set (filter (fun i => lo <= i < hi) (map MACH_PORT_INDEX (keys L))).

Record inv (hole : option Z) (T : list ipc_entry) (size : Z) (next : nat)
    (L : list (Z * ite_ptr)) (ites : gmap ite_ptr ipc_tree_entry) (total small : Z) : Prop := {
  i_len : tlen T = size;
  i_size : size = its_size (pred next);
  i_next : (1 <= next <= its_last)%nat;
  i_bits : forall i, 0 <= i < size -> u32_range (tbits T i);
  i_free : exists fl, chain T 0 fl /\ NoDup fl /\
    forall i, i ∈ fl <-> 0 < i < size /\ ~ used hole T i;
  i_clean : forall i, 0 < i < size -> ~ used hole T i ->
    gen_ok (tbits T i) /\ ie_object (tget T i) = IO_NULL;
  i_zero : IE_BITS_TYPE (tbits T 0) = 0;
  i_zero_gen : IE_BITS_GEN (tbits T 0) = IE_BITS_GEN_MASK;
  i_names : forall x, x ∈ keys L -> u32_range x;
  i_valid : forall x, x ∈ keys L -> MACH_PORT_VALID x = true;
  i_sorted : ksorted L;
  i_ptrs : NoDup (map snd L);
  i_ites : forall x p, (x, p) ∈ L -> exists it, ites !! p = Some it /\
    tree_bits (ite_bits it) /\ (IE_BITS_TYPE (ite_bits it) <> 0 \/ hole = Some x);
  i_coll : forall x, x ∈ keys L -> MACH_PORT_INDEX x < size ->
    has (tbits T (MACH_PORT_INDEX x)) IE_BITS_COLLISION = true /\
    (MACH_PORT_INDEX x = 0 \/ used hole T (MACH_PORT_INDEX x)) /\
    IE_BITS_GEN (tbits T (MACH_PORT_INDEX x)) <> MACH_PORT_GEN x;
  i_coll' : forall i, 0 <= i < size -> has (tbits T i) IE_BITS_COLLISION = true ->
    exists x, x ∈ keys L /\ MACH_PORT_INDEX x = i;
  i_total : total = Z.of_nat (length L);
  i_small : small = Z.of_nat (base.size (small_set size (its_size next) L))
}.

Definition space_inv (hole : option Z) (s : ipc_space) : Prop :=
  splay_ok (is_tree s) /\
  inv hole (is_table s) (is_table_size s) (is_table_next s) (to_list (is_tree s))
    (is_ites s) (is_tree_total s) (is_tree_small s).

(** Which entry a name denotes. *)
Inductive denotes (hole : option Z) (s : ipc_space) (name : Z) : entry_ref -> Prop :=
| denotes_table i :
    0 < i < is_table_size s -> used hole (is_table s) i ->
    name = MACH_PORT_MAKEB i (tbits (is_table s) i) ->
    denotes hole s name (TableEntry i)
| denotes_tree p :
    (name, p) ∈ to_list (is_tree s) -> denotes hole s name (TreeEntry p).

(** The capability recorded in an entry. *)
Definition content (s : ipc_space) (r : entry_ref) : Z * Z * Z :=
  let e := read_entry s r in
  (Z.land (ie_bits e) IE_BITS_RIGHT_MASK, ie_object e, ie_request e).

Definition means (hole : option Z) (s : ipc_space) (name : Z) (c : Z * Z * Z) : Prop :=
  exists r, denotes hole s name r /\ content s r = c.

(** ** Sizes *)

Lemma its_size_bounds k : (k <= its_last)%nat -> 0 < its_size k <= index_limit.
Proof.
  intros Hk. split; [|by apply its_limit].
  assert (Hlt : forall j, (j < its_last)%nat -> 0 < its_size j).
  { induction j as [|j IH]; intros Hj; [apply its_first_pos|].
    pose proof (its_increasing j ltac:(lia)). specialize (IH ltac:(lia)). lia. }
  destruct (decide (k = its_last)) as [->|]; [|apply Hlt; lia].
  rewrite its_last_eq. apply Hlt. pose proof its_last_pos. lia.
Qed.

Lemma inv_size hole T size next L ites total small :
  inv hole T size next L ites total small -> 0 < size <= index_limit.
Proof.
  intros I. pose proof (i_next _ _ _ _ _ _ _ _ I). rewrite (i_size _ _ _ _ _ _ _ _ I).
  apply its_size_bounds. lia.
Qed.

(** ** Names of table entries *)

Lemma MAKEB_index i bits :
  0 <= i <= index_limit -> u32_range bits -> MACH_PORT_INDEX (MACH_PORT_MAKEB i bits) = i.
Proof. intros. apply INDEX_MAKE; [done|]. by apply gen_ok_IE_BITS_GEN. Qed.

Lemma MAKEB_gen i bits :
  0 <= i <= index_limit -> u32_range bits ->
  MACH_PORT_GEN (MACH_PORT_MAKEB i bits) = IE_BITS_GEN bits.
Proof. intros. apply GEN_MAKE; [done|]. by apply gen_ok_IE_BITS_GEN. Qed.

Lemma MAKEB_range i bits :
  0 <= i <= index_limit -> u32_range bits -> u32_range (MACH_PORT_MAKEB i bits).
Proof. intros. apply MAKE_range; [done|]. by apply gen_ok_IE_BITS_GEN. Qed.

Lemma MAKEB_name name bits :
  u32_range name -> IE_BITS_GEN bits = MACH_PORT_GEN name ->
  MACH_PORT_MAKEB (MACH_PORT_INDEX name) bits = name.
Proof. intros Hn Hg. unfold MACH_PORT_MAKEB. rewrite Hg. by apply MAKE_INDEX_GEN. Qed.

(** ** Lookup *)

Lemma with_tree_inv hole s tree :
  space_inv hole s -> splay_ok tree -> to_list tree = to_list (is_tree s) ->
  space_inv hole (with_tree tree s) /\
  (forall name r, denotes hole (with_tree tree s) name r <-> denotes hole s name r) /\
  (forall r, read_entry (with_tree tree s) r = read_entry s r).
Proof.
  intros [Hok I] Htree Hlist. split_and!.
  - split; [done|]. simpl. by rewrite Hlist.
  - intros name r. split; destruct 1; constructor; simpl in *; by rewrite ?Hlist in *.
  - done.
Qed.

Lemma tree_lookup_spec s name :
  splay_ok (is_tree s) ->
  exists tree, (tree_lookup s name).1 = with_tree tree s /\ splay_ok tree /\
    to_list tree = to_list (is_tree s) /\
    forall r, (tree_lookup s name).2 = Some r <->
              exists p, r = TreeEntry p /\ (name, p) ∈ to_list (is_tree s).
Proof.
  intros Hok. destruct (lookup_spec (is_tree s) name Hok) as (Hok' & Hl & Hr).
  unfold tree_lookup. destruct (ipc_splay_tree_lookup (is_tree s) name) as [tree r]. simpl in *.
  exists tree. split_and!; try done. intros r'. destruct r as [p|]; split.
  - intros ?. simplify_eq. exists p. split; [done|]. by apply Hr.
  - intros (p' & -> & Hin). apply Hr in Hin. by simplify_eq.
  - done.
  - intros (p' & -> & Hin). apply Hr in Hin. done.
Qed.

(** A table entry and a tree entry never share a name. *)
Lemma denotes_exclusive hole s name i p :
  space_inv hole s -> denotes hole s name (TableEntry i) -> (name, p) ∈ to_list (is_tree s) -> False.
Proof.
  intros [_ I] Hd Hin. inversion Hd as [? Hi Hu Hname|]; subst; simplify_eq.
  pose proof (inv_size _ _ _ _ _ _ _ _ I) as Hsize.
  pose proof (i_bits _ _ _ _ _ _ _ _ I i ltac:(lia)) as Hb.
  apply elem_of_keys_pair in Hin.
  destruct (i_coll _ _ _ _ _ _ _ _ I _ Hin) as (_ & _ & Hgen); rewrite MAKEB_index in * by (done || lia).
  - lia.
  - rewrite MAKEB_gen in Hgen by (done || lia). done.
Qed.

Lemma denotes_unique hole s name r1 r2 :
  space_inv hole s -> denotes hole s name r1 -> denotes hole s name r2 -> r1 = r2.
Proof.
  intros Hinv H1 H2. destruct r1 as [i1|p1], r2 as [i2|p2].
  - destruct Hinv as [_ I]. inversion H1; inversion H2; simplify_eq. f_equal.
    pose proof (inv_size _ _ _ _ _ _ _ _ I) as Hsize.
    pose proof (i_bits _ _ _ _ _ _ _ _ I) as Hb.
    rewrite <- (MAKEB_index i1 (tbits (is_table s) i1)) by (lia || apply Hb; lia).
    rewrite <- (MAKEB_index i2 (tbits (is_table s) i2)) by (lia || apply Hb; lia). congruence.
  - inversion H2; subst. exfalso. by eapply denotes_exclusive.
  - inversion H1; subst. exfalso. by eapply denotes_exclusive.
  - inversion H1; inversion H2; simplify_eq. f_equal.
    eapply ksorted_unique; [|done..]. destruct Hinv as [_ I]. apply I.
Qed.

Lemma denotes_range hole s name r : space_inv hole s -> denotes hole s name r -> u32_range name.
Proof.
  intros [_ I] [i Hi _ ->|p Hin].
  - pose proof (inv_size _ _ _ _ _ _ _ _ I). apply MAKEB_range; [lia|].
    apply (i_bits _ _ _ _ _ _ _ _ I). lia.
  - eapply i_names; [done|]. by eapply elem_of_keys_pair.
Qed.

Lemma entry_lookup_spec s name :
  space_inv None s -> u32_range name ->
  exists tree, (ipc_entry_lookup s name).1 = with_tree tree s /\ splay_ok tree /\
    to_list tree = to_list (is_tree s) /\
    forall r, (ipc_entry_lookup s name).2 = Some r <-> denotes None s name r.
Proof.
  intros Hinv Hname. pose proof Hinv as [Hok I]. pose proof (INDEX_range name Hname) as Hindex.
  pose proof (inv_size _ _ _ _ _ _ _ _ I) as Hsize. unfold ipc_entry_lookup.
  set (index := MACH_PORT_INDEX name) in *.
  assert (Hself : with_tree (is_tree s) s = s) by (by destruct s).
  assert (Htable : index < is_table_size s -> forall i, denotes None s name (TableEntry i) ->
            i = index /\ IE_BITS_GEN (tbits (is_table s) index) = MACH_PORT_GEN name /\
            IE_BITS_TYPE (tbits (is_table s) index) <> 0).
  { intros _ i Hd. inversion Hd as [? Hi [Hu|Hu] Hn|]; [|done]; subst i0.
    pose proof (i_bits _ _ _ _ _ _ _ _ I i ltac:(lia)) as Hb.
    unfold index. rewrite Hn, MAKEB_index, MAKEB_gen by (done || lia). done. }
  destruct (Z.ltb_spec index (is_table_size s)) as [Hlt|Hge]; cycle 1.
  { assert (Hno : forall i, ~ denotes None s name (TableEntry i)).
    { intros i Hd. inversion Hd as [? Hi _ Hn|]; subst i0.
      pose proof (i_bits _ _ _ _ _ _ _ _ I i ltac:(lia)) as Hb.
      unfold index in Hge. rewrite Hn, MAKEB_index in Hge by (done || lia). lia. }
    destruct (Z.eqb_spec (is_tree_total s) 0) as [Ht|Ht].
    - exists (is_tree s). rewrite Hself. split_and!; try done. intros r. split; [done|].
      intros Hd. destruct r as [i|p]; [by apply Hno in Hd|]. inversion Hd as [|? Hin]; subst.
      rewrite (i_total _ _ _ _ _ _ _ _ I) in Ht.
      destruct (to_list (is_tree s)); [by apply elem_of_nil in Hin|simpl in Ht; lia].
    - destruct (tree_lookup_spec s name Hok) as (tree & Heq & Hok' & Hl & Hr).
      exists tree. split_and!; try done. intros r. rewrite Hr. split.
      + intros (p & -> & Hin). by constructor.
      + intros Hd. destruct r as [i|p]; [by apply Hno in Hd|]. inversion Hd; eauto. }
  fold (tbits (is_table s) index).
  destruct (Z.eqb_spec (IE_BITS_GEN (tbits (is_table s) index)) (MACH_PORT_GEN name)) as [Hg|Hg]; simpl.
  - assert (Hnotree : forall p, (name, p) ∉ to_list (is_tree s)).
    { intros p Hin%elem_of_keys_pair. by apply (i_coll _ _ _ _ _ _ _ _ I) in Hin as (_ & _ & ?). }
    destruct (Z.eqb_spec (IE_BITS_TYPE (tbits (is_table s) index)) MACH_PORT_TYPE_NONE) as [Ht|Ht];
      exists (is_tree s); rewrite Hself; split_and!; try done; intros r; simpl; split; try done.
    + intros Hd. destruct r as [i|p]; [by apply Htable in Hd as (_ & _ & ?)|].
      inversion Hd; subst. by destruct (Hnotree p).
    + intros ?; simplify_eq. constructor.
      * destruct (Z.eq_dec index 0) as [Hz|]; [|lia]. rewrite Hz in Ht.
        by rewrite (i_zero _ _ _ _ _ _ _ _ I) in Ht.
      * by left.
      * symmetry. by apply MAKEB_name.
    + intros Hd. destruct r as [i|p]; [by apply Htable in Hd as (-> & _)|].
      inversion Hd; subst. by destruct (Hnotree p).
  - destruct (has (tbits (is_table s) index) IE_BITS_COLLISION) eqn:Hc.
    + destruct (tree_lookup_spec s name Hok) as (tree & Heq & Hok' & Hl & Hr).
      exists tree. split_and!; try done. intros r. rewrite Hr. split.
      * intros (p & -> & Hin). by constructor.
      * intros Hd. destruct r as [i|p]; [by apply Htable in Hd as (_ & ? & _)|]. inversion Hd; eauto.
    + exists (is_tree s). rewrite Hself. split_and!; try done. intros r. split; [done|].
      intros Hd. destruct r as [i|p]; [by apply Htable in Hd as (_ & ? & _)|].
      inversion Hd as [|? Hin]; subst. apply elem_of_keys_pair in Hin.
      apply (i_coll _ _ _ _ _ _ _ _ I) in Hin as (? & _); [|done]. unfold index in Hc. congruence.
Qed.

(** ** Changing the table *)

Lemma tbits_tset T i f j :
  0 <= i < tlen T -> 0 <= j ->
  tbits (tset T i f) j = if i =? j then ie_bits (f (tget T j)) else tbits T j.
Proof. intros. unfold tbits. rewrite tget_tset by done. by destruct (i =? j). Qed.

Lemma chain_ext T T' start fl :
  (forall j, j = start \/ j ∈ fl -> ie_next (tget T' j) = ie_next (tget T j)) ->
  chain T start fl -> chain T' start fl.
Proof. apply linked_list_ext. Qed.

Lemma used_ext hole T T' i : tbits T' i = tbits T i -> used hole T' i <-> used hole T i.
Proof. unfold used. by intros ->. Qed.

(** Only the entry of the hole can be in use without a type. *)
Lemma used_hole_index hole T size next L ites total small name i :
  inv hole T size next L ites total small -> 0 < i < size -> u32_range name ->
  used (Some name) T i -> IE_BITS_TYPE (tbits T i) <> 0 \/ i = MACH_PORT_INDEX name.
Proof.
  intros I Hi Hn [Hu|Hu]; [by left|right]. simplify_eq.
  pose proof (inv_size _ _ _ _ _ _ _ _ I).
  rewrite MAKEB_index; [done|lia|]. apply (i_bits _ _ _ _ _ _ _ _ I). lia.
Qed.

(** Taking the free slot [ff] out of the free list, with generation [gen]. *)
Section alloc_slot.
Context (T T' : list ipc_entry) (size : Z) (next : nat) (L : list (Z * ite_ptr))
  (ites : gmap ite_ptr ipc_tree_entry) (total small ff gen : Z).
Context (I : inv None T size next L ites total small).
Context (Hff : 0 < ff < size) (Hfree : ~ used None T ff) (Hgen : gen_ok gen).
Context (Hlen : tlen T' = tlen T).
Context (Hsame : forall j, 0 <= j < size -> j <> ff ->
  tbits T' j = tbits T j /\ ie_object (tget T' j) = ie_object (tget T j)).
Context (Hbits : tbits T' ff = gen) (Hobj : ie_object (tget T' ff) = ie_object (tget T ff)).
Context (Hchain : exists fl, chain T' 0 fl /\ NoDup fl /\
  forall i, i ∈ fl <-> (0 < i < size /\ ~ used None T i) /\ i <> ff).

#[local] Abbreviation name := (MACH_PORT_MAKE ff gen).

Lemma alloc_slot_name : MACH_PORT_INDEX name = ff /\ MACH_PORT_GEN name = gen /\ u32_range name.
Proof.
  pose proof (inv_size _ _ _ _ _ _ _ _ I).
  split_and!; [apply INDEX_MAKE|apply GEN_MAKE|apply MAKE_range]; done || lia.
Qed.

Lemma alloc_slot_makeb : MACH_PORT_MAKEB ff (tbits T' ff) = name.
Proof. unfold MACH_PORT_MAKEB. rewrite Hbits. by rewrite GEN_gen. Qed.

Lemma alloc_slot_used i : 0 < i < size -> used (Some name) T' i <-> i = ff \/ used None T i.
Proof.
  intros Hi. destruct (Z.eq_dec i ff) as [->|Hne].
  { split; [by left|]. intros _. right. by rewrite alloc_slot_makeb. }
  destruct (Hsame i ltac:(lia) Hne) as [Hb _]. unfold used. rewrite Hb. split.
  - intros [Hu|Hu]; [by right; left|]. exfalso. injection Hu as Hu. apply Hne.
    destruct alloc_slot_name as (<- & _ & _). rewrite Hu. symmetry.
    pose proof (inv_size _ _ _ _ _ _ _ _ I). apply MAKEB_index; [lia|].
    apply (i_bits _ _ _ _ _ _ _ _ I). lia.
  - intros [?|[Hu|Hu]]; [done|by left|done].
Qed.

Lemma alloc_slot_no_collision x : x ∈ keys L -> MACH_PORT_INDEX x < size -> MACH_PORT_INDEX x <> ff.
Proof.
  intros Hx Hlt Heq. destruct (i_coll _ _ _ _ _ _ _ _ I x Hx Hlt) as (_ & [?|Hu] & _); [lia|].
  rewrite Heq in Hu. done.
Qed.

Lemma alloc_slot_inv : inv (Some name) T' size next L ites total small.
Proof.
  split; try (by apply I).
  - rewrite Hlen. apply I.
  - intros i Hi. destruct (Z.eq_dec i ff) as [->|Hne]; [rewrite Hbits; apply Hgen|].
    destruct (Hsame i Hi Hne) as [-> _]. by apply (i_bits _ _ _ _ _ _ _ _ I).
  - destruct Hchain as (fl & Hc & Hnd & Hin). exists fl. split_and!; try done.
    intros i. rewrite Hin. split.
    + intros [[Hi Hu] Hne]. split; [done|]. rewrite alloc_slot_used by done. naive_solver.
    + intros [Hi Hu]. rewrite alloc_slot_used in Hu by done. naive_solver.
  - intros i Hi Hu. rewrite alloc_slot_used in Hu by done.
    destruct (Hsame i ltac:(lia) ltac:(naive_solver)) as [-> ->].
    apply (i_clean _ _ _ _ _ _ _ _ I); naive_solver.
  - destruct (Hsame 0 ltac:(lia) ltac:(lia)) as [-> _]. apply I.
  - destruct (Hsame 0 ltac:(lia) ltac:(lia)) as [-> _]. apply I.
  - intros x p Hin. destruct (i_ites _ _ _ _ _ _ _ _ I x p Hin) as (it & ? & ? & [?|?]); eauto 10.
  - intros x Hx Hlt. pose proof (alloc_slot_no_collision x Hx Hlt) as Hne.
    destruct (i_coll _ _ _ _ _ _ _ _ I x Hx Hlt) as (Hc & Hu & Hg).
    pose proof (INDEX_range _ (i_names _ _ _ _ _ _ _ _ I x Hx)) as Hr.
    destruct (Hsame (MACH_PORT_INDEX x)) as [Hb _]; [lia|done|]. rewrite Hb. split_and!; try done.
    destruct Hu as [?|Hu]; [by left|]. destruct (Z.eq_dec (MACH_PORT_INDEX x) 0); [by left|].
    right. apply alloc_slot_used; [lia|]. by right.
  - intros i Hi. destruct (Z.eq_dec i ff) as [->|Hne].
    + rewrite Hbits, COLLISION_gen by done. done.
    + destruct (Hsame i Hi Hne) as [-> _]. by apply (i_coll' _ _ _ _ _ _ _ _ I).
Qed.

Lemma alloc_slot_fresh s r :
  is_table s = T -> is_table_size s = size -> to_list (is_tree s) = L -> ~ denotes None s name r.
Proof.
  intros HT Hs HL Hd. destruct alloc_slot_name as (Hi & _ & _).
  destruct Hd as [i Hir Hu Hn|p Hin].
  - rewrite HT, Hs in *. pose proof (inv_size _ _ _ _ _ _ _ _ I).
    rewrite Hn, MAKEB_index in Hi; [by subst|lia|]. apply (i_bits _ _ _ _ _ _ _ _ I). lia.
  - rewrite HL in Hin. apply elem_of_keys_pair in Hin.
    apply (alloc_slot_no_collision _ Hin); lia.
Qed.

Lemma alloc_slot_means s :
  is_table s = T -> is_table_size s = size -> to_list (is_tree s) = L ->
  (forall j, 0 < j < size -> used None T j -> ie_request (tget T' j) = ie_request (tget T j)) ->
  ie_request (tget T' ff) = 0 ->
  forall name' c, means (Some name) (with_table T' s) name' c <->
    (name' = name /\ c = (0, IO_NULL, 0)) \/ means None s name' c.
Proof.
  intros HT Hs HL Hreq Hreq0 name' c.
  assert (Hcontent : content (with_table T' s) (TableEntry ff) = (0, IO_NULL, 0)).
  { unfold content. simpl. fold (tbits T' ff). rewrite Hbits, Hobj, Hreq0.
    destruct (i_clean _ _ _ _ _ _ _ _ I ff Hff Hfree) as [_ ->].
    by rewrite RIGHT_gen. }
  assert (Hold : forall i, 0 < i < size -> used None T i ->
            content (with_table T' s) (TableEntry i) = content s (TableEntry i) /\
            tbits T' i = tbits T i).
  { intros i Hi Hu. assert (i <> ff) by (by intros ->). unfold content. simpl. rewrite HT.
    destruct (Hsame i) as [Hb Ho]; [lia|done|]. fold (tbits T' i) (tbits T i).
    rewrite Hb, Ho, (Hreq i Hi Hu). done. }
  split.
  - intros (r & Hd & Hc). destruct Hd as [i Hi Hu Hn|p Hin].
    + simpl in *. rewrite Hs in Hi. rewrite alloc_slot_used in Hu by done. destruct Hu as [->|Hu].
      * left. rewrite alloc_slot_makeb in Hn. rewrite Hcontent in Hc. done.
      * right. destruct (Hold i Hi Hu) as [Hcont Hb]. exists (TableEntry i).
        split; [|by rewrite <- Hcont]. constructor; rewrite ?HT, ?Hs; try done. by rewrite <- Hb.
    + right. exists (TreeEntry p). split; [by constructor|done].
  - intros [[-> ->]|(r & Hd & Hc)].
    + exists (TableEntry ff). split; [|done]. constructor; simpl.
      * by rewrite Hs.
      * apply alloc_slot_used; [done|]. by left.
      * by rewrite alloc_slot_makeb.
    + destruct Hd as [i Hi Hu Hn|p Hin].
      * rewrite HT, Hs in *. destruct (Hold i Hi Hu) as [Hcont Hb]. exists (TableEntry i).
        split; [|by rewrite Hcont]. constructor; simpl; rewrite ?Hs, ?Hb; try done.
        apply alloc_slot_used; [done|]. by right.
      * exists (TreeEntry p). split; [by constructor|done].
Qed.
End alloc_slot.

(** What an allocation in the table does to the space. *)
Definition allocated (s s' : ipc_space) (name : Z) (r : entry_ref) : Prop :=
  space_inv (Some name) s' /\ denotes (Some name) s' name r /\
  (forall r', ~ denotes None s name r') /\
  forall name' c, means (Some name) s' name' c <->
    (name' = name /\ c = (0, IO_NULL, 0)) \/ means None s name' c.

Lemma alloc_slot_spec s T' ff gen :
  space_inv None s -> 0 < ff < is_table_size s -> ~ used None (is_table s) ff -> gen_ok gen ->
  (forall j, 0 <= j < is_table_size s -> exists next, tget T' j =
     if ff =? j then set_request 0 (set_bits gen (tget (is_table s) j))
     else if bool_decide (used None (is_table s) j) then tget (is_table s) j
     else set_next next (tget (is_table s) j)) ->
  tlen T' = tlen (is_table s) ->
  (exists fl, chain T' 0 fl /\ NoDup fl /\
     forall i, i ∈ fl <-> (0 < i < is_table_size s /\ ~ used None (is_table s) i) /\ i <> ff) ->
  allocated s (with_table T' s) (MACH_PORT_MAKE ff gen) (TableEntry ff).
Proof.
  intros [Hok I] Hff Hfree Hgen Hget Hlen Hchain. set (T := is_table s) in *.
  assert (Hsame : forall j, 0 <= j < is_table_size s -> j <> ff ->
    tbits T' j = tbits T j /\ ie_object (tget T' j) = ie_object (tget T j)).
  { intros j Hj Hne. unfold tbits. destruct (Hget j Hj) as [next ->].
    rewrite (proj2 (Z.eqb_neq ff j)) by done. by case_bool_decide. }
  destruct (Hget ff ltac:(lia)) as [next Hgetff]. rewrite Z.eqb_refl in Hgetff.
  assert (Hbits : tbits T' ff = gen) by (unfold tbits; by rewrite Hgetff).
  assert (Hobj : ie_object (tget T' ff) = ie_object (tget T ff)) by (by rewrite Hgetff).
  split_and!.
  - split; [done|]. simpl. by apply (alloc_slot_inv T T').
  - constructor; simpl; [done| |by rewrite (alloc_slot_makeb T' ff gen)].
    eapply (alloc_slot_used T T'); eauto.
  - intros r. eapply (alloc_slot_fresh T T'); eauto.
  - eapply (alloc_slot_means T T'); eauto; [|by rewrite Hgetff].
    intros j Hj Hu. destruct (Hget j ltac:(lia)) as [next' ->].
    destruct (Z.eqb_spec ff j) as [<-|]; [done|]. by rewrite bool_decide_true.
Qed.

(** ** ipc_entry_get *)

Lemma MACH_PORT_VALID_index name :
  u32_range name -> 0 < MACH_PORT_INDEX name < index_limit -> MACH_PORT_VALID name = true.
Proof.
  intros Hn Hi. unfold MACH_PORT_VALID. unfold index_limit in Hi.
  destruct (Z.eqb_spec name MACH_PORT_NULL) as [->|]; [destruct Hi as [Hi _]; revert Hi; rewrite INDEX_arith; by destruct PORT_GENERATIONS|].
  destruct (Z.eqb_spec name MACH_PORT_DEAD) as [->|]; [lia|done].
Qed.

(** The free list starts at the first free slot, if there is one. *)
Lemma free_list_empty hole T size next L ites total small :
  inv hole T size next L ites total small -> ie_next (tget T 0) = 0 ->
  forall i, 0 < i < size -> used hole T i.
Proof.
  intros I Hz i Hi. destruct (i_free _ _ _ _ _ _ _ _ I) as (fl & Hc & Hnd & Hin).
  destruct (decide (used hole T i)) as [|Hu]; [done|].
  destruct fl as [|j fl].
  - exfalso. by eapply not_elem_of_nil, (Hin i).
  - destruct Hc as [Hj _]. rewrite Hz in Hj. subst j.
    destruct (proj1 (Hin 0)) as [? _]; [apply elem_of_cons; by left|lia].
Qed.

Lemma entry_get_spec s :
  space_inv None s ->
  match ipc_entry_get s with
  | (s', None) => s' = s /\ forall i, 0 < i < is_table_size s -> used None (is_table s) i
  | (s', Some (name, r)) => allocated s s' name r /\ MACH_PORT_VALID name = true
  end.
Proof.
  intros Hinv. pose proof Hinv as [Hok I]. unfold ipc_entry_get.
  set (T := is_table s) in *. set (ff := ie_next (tget T 0)).
  pose proof (inv_size _ _ _ _ _ _ _ _ I) as Hsize. pose proof (i_len _ _ _ _ _ _ _ _ I) as Hlen.
  destruct (Z.eqb_spec ff 0) as [Hz|Hnz].
  { split; [done|]. by eapply free_list_empty. }
  destruct (i_free _ _ _ _ _ _ _ _ I) as (fl & Hc & Hnd & Hin).
  destruct fl as [|j fl]; [done|]. destruct Hc as [Hj Hc]. fold ff in Hj. subst j.
  assert (Hff : 0 < ff < is_table_size s /\ ~ used None T ff) by (apply Hin; apply elem_of_cons; by left).
  destruct Hff as [Hff Hfree]. apply NoDup_cons in Hnd as [Hnin Hnd].
  set (gen := u32 (ie_bits (tget T ff) + IE_BITS_GEN_ONE)).
  assert (Hgen : gen_ok gen) by (apply gen_ok_next; by apply (i_clean _ _ _ _ _ _ _ _ I)).
  set (T' := tset (tset T 0 _) ff _).
  assert (Hget : forall j, 0 <= j < is_table_size s ->
    tget T' j = if ff =? j then set_request 0 (set_bits gen (tget T j))
                else if 0 =? j then set_next (ie_next (tget T ff)) (tget T 0) else tget T j).
  { intros j Hj. unfold T'. rewrite !tget_tset by (rewrite ?tlen_tset; lia).
    destruct (Z.eqb_spec ff j) as [<-|].
    - by rewrite (proj2 (Z.eqb_neq 0 ff)) by lia.
    - by destruct (Z.eqb_spec 0 j) as [<-|]. }
  split.
  - apply alloc_slot_spec; try done.
    + intros j Hj. rewrite Hget by done. destruct (ff =? j); [by exists 0|].
      destruct (Z.eqb_spec 0 j) as [<-|].
      * rewrite bool_decide_false; [by eexists|]. intros [Hu|Hu]; [|done].
        exact (Hu (i_zero _ _ _ _ _ _ _ _ I)).
      * exists (ie_next (tget T j)). fold T. case_bool_decide; [done|]. by destruct (tget T j).
    + unfold T'. by rewrite !tlen_tset.
    + exists fl. split_and!; [|done|].
      * assert (Hn0 : ie_next (tget T' 0) = ie_next (tget T ff)).
        { rewrite Hget by lia. by rewrite (proj2 (Z.eqb_neq ff 0)). }
        assert (Hnext : forall j, j ∈ fl -> ie_next (tget T' j) = ie_next (tget T j)).
        { intros j Hj. destruct (proj1 (Hin j)) as [Hjr _]; [apply elem_of_cons; by right|].
          rewrite Hget by lia. destruct (Z.eqb_spec ff j) as [<-|]; [done|].
          by rewrite (proj2 (Z.eqb_neq 0 j)) by lia. }
        destruct fl as [|k fl]; simpl in *; rewrite Hn0; [done|]. destruct Hc as [Hk Hc].
        split; [done|]. apply (chain_ext T); [|done].
        intros j [->|Hj]; apply Hnext; apply elem_of_cons; auto.
      * intros i. fold T. rewrite <- Hin, elem_of_cons. split; [|naive_solver].
        intros Hi. split; [by right|]. by intros ->.
  - pose proof (alloc_slot_name _ _ _ _ _ _ _ ff gen I Hff Hgen) as (Hi & _ & Hr).
    apply MACH_PORT_VALID_index; [done|]. rewrite Hi. lia.
Qed.
End inv.
