(* ===== verification/Alloc.v ===== *)
(** * Allocating entries with chosen names (ipc/ipc_entry.c)

    [ipc_entry_alloc_name]: the free list surgery, the search for the entry,
    and the insertion of a splay tree entry.  Also the new space of
    [ipc_space_create], and writes through entry pointers. *)

From S2P Require Import Prelude Names Splay Table Space Hash Entry EntryInv.

(** ** Taking an entry out of the middle of the free list *)

Lemma unlink_chain fuel T index start fl :
  chain T start fl -> NoDup (start :: fl) -> index ∈ fl -> (length fl <= fuel)%nat ->
  (forall j, j = start \/ j ∈ fl -> 0 <= j < tlen T) ->
  let p := free_predecessor fuel T index start in
  (p = start \/ p ∈ fl) /\ p <> index /\ ie_next (tget T p) = index /\
  exists fl', chain (tset T p (set_next (ie_next (tget T index)))) start fl' /\ NoDup fl' /\
    forall i, i ∈ fl' <-> i ∈ fl /\ i <> index.
Proof.
  revert start fl. induction fuel as [|fuel IH]; intros start fl Hc Hnd Hin Hlen Hr.
  { destruct fl; [by apply elem_of_nil in Hin|simpl in Hlen; lia]. }
  destruct fl as [|i fl]; [by apply elem_of_nil in Hin|].
  destruct Hc as [Hi Hc]. simpl. rewrite Hi. apply NoDup_cons in Hnd as [Hs Hnd].
  pose proof (Hr start (or_introl eq_refl)) as Hrs.
  destruct (Z.eqb_spec i index) as [->|Hne].
  - apply NoDup_cons in Hnd as [Hnin Hnd].
    assert (Hs' : start <> index /\ start ∉ fl) by (by apply not_elem_of_cons in Hs).
    split_and!; [by left|by destruct Hs'|done|]. exists fl. split_and!; [|done|].
    + assert (Hext : forall j, j ∈ fl -> ie_next (tget (tset T start (set_next (ie_next (tget T index)))) j)
                       = ie_next (tget T j)).
      { intros j Hj. assert (0 <= j < tlen T) by (apply Hr; right; apply elem_of_cons; auto).
        rewrite tget_tset_ne; [done|lia..|]. by intros ->; destruct Hs'. }
      destruct fl as [|k fl]; simpl in *; rewrite tget_tset_eq by done; [done|].
      destruct Hc as [Hk Hc]. split; [done|]. apply (chain_ext T); [|done].
      intros j [->|Hj]; apply Hext; apply elem_of_cons; auto.
    + intros j. rewrite elem_of_cons. split; [|naive_solver]. intros Hj. split; [by right|]. by intros ->.
  - apply elem_of_cons in Hin as [?|Hin]; [done|].
    destruct (IH i fl Hc Hnd Hin) as (Hp & Hpi & Hpn & fl' & Hc' & Hnd' & Hin').
    { simpl in Hlen. lia. } { intros j Hj. apply Hr. right. apply elem_of_cons. by destruct Hj; auto. }
    set (p := free_predecessor fuel T index i) in *.
    assert (Hps : p <> start).
    { intros ->. apply Hs, elem_of_cons. by destruct Hp; auto. }
    split_and!; [right; apply elem_of_cons; by destruct Hp; auto|done|done|].
    exists (i :: fl'). split_and!.
    + simpl. rewrite tget_tset_ne; [done| |lia|done].
      apply Hr. right. apply elem_of_cons. by destruct Hp; auto.
    + apply NoDup_cons. split; [|done]. rewrite Hin'. intros [? _].
      by apply NoDup_cons in Hnd as [? _].
    + intros j. rewrite !elem_of_cons, Hin'. split; [|naive_solver].
      intros [->|[? ?]]; auto.
Qed.

Section alloc.
Context `{PortConfig} `{!EntrySizes}.

Lemma unlink_free_spec hole T size next L ites total small index :
  inv hole T size next L ites total small -> 0 < index < size -> ~ used hole T index ->
  let T' := unlink_free T index in
  tlen T' = tlen T /\
  (forall j, 0 <= j < size -> tget T' j = tget T j \/
     j <> index /\ (j = 0 \/ ~ used hole T j) /\ exists n, tget T' j = set_next n (tget T j)) /\
  exists fl, chain T' 0 fl /\ NoDup fl /\
    forall i, i ∈ fl <-> (0 < i < size /\ ~ used hole T i) /\ i <> index.
Proof.
  intros I Hi Hfree. destruct (i_free _ _ _ _ _ _ _ _ I) as (fl & Hc & Hnd & Hin).
  pose proof (i_len _ _ _ _ _ _ _ _ I) as Hlen.
  destruct (unlink_chain (length T) T index 0 fl Hc) as (Hp & Hpi & Hpn & fl' & Hc' & Hnd' & Hin').
  - apply NoDup_cons. split; [|done]. rewrite Hin. lia.
  - by apply Hin.
  - apply range_length; [done|]. intros i. rewrite Hin. unfold tlen in Hlen. lia.
  - intros j [->|Hj]; [lia|]. apply Hin in Hj. lia.
  - unfold unlink_free. rewrite Hpn. set (p := free_predecessor _ _ _ _) in *. simpl.
    split_and!; [by rewrite tlen_tset| |].
    + intros j Hj. assert (0 <= p < tlen T) by (destruct Hp as [->|Hp]; [lia|apply Hin in Hp; lia]).
      rewrite tget_tset by lia. destruct (Z.eqb_spec p j) as [<-|]; [|by left]. right.
      split_and!; [done| |by eexists]. destruct Hp as [?|Hp]; [by left|right]. by apply Hin.
    + exists fl'. split_and!; try done. intros i. by rewrite Hin', Hin.
Qed.

(** ** The search of ipc_entry_alloc_name *)

(** The splay tree may be rearranged; nothing else changes. *)
Definition resplayed (s s' : ipc_space) : Prop :=
  exists tree, s' = with_tree tree s /\ splay_ok tree /\ to_list tree = to_list (is_tree s).

Lemma resplayed_refl s : splay_ok (is_tree s) -> resplayed s s.
Proof. intros. exists (is_tree s). split_and!; try done. by destruct s. Qed.

Lemma resplayed_inv hole s s' : space_inv hole s -> resplayed s s' -> space_inv hole s'.
Proof. intros Hs (tree & -> & Hok & Hl). by apply with_tree_inv. Qed.

Lemma resplayed_denotes hole s s' name r :
  resplayed s s' -> denotes hole s' name r <-> denotes hole s name r.
Proof.
  intros (tree & -> & Hok & Hl). split; destruct 1; constructor; simpl in *; by rewrite ?Hl in *.
Qed.

Lemma resplayed_read s s' r : resplayed s s' -> read_entry s' r = read_entry s r.
Proof. by intros (tree & -> & _). Qed.

Lemma resplayed_means hole s s' name c : resplayed s s' -> means hole s' name c <-> means hole s name c.
Proof.
  intros Hr. unfold means, content. setoid_rewrite (resplayed_denotes hole s s' name _ Hr).
  by setoid_rewrite (resplayed_read s s' _ Hr).
Qed.

Lemma table_denotes_index hole s name i :
  space_inv hole s -> denotes hole s name (TableEntry i) ->
  i = MACH_PORT_INDEX name /\ 0 < i < is_table_size s /\ used hole (is_table s) i /\
  IE_BITS_GEN (tbits (is_table s) i) = MACH_PORT_GEN name.
Proof.
  intros [_ I] Hd. inversion Hd as [? Hi Hu Hn|]; subst i0.
  pose proof (inv_size _ _ _ _ _ _ _ _ I).
  pose proof (i_bits _ _ _ _ _ _ _ _ I i ltac:(lia)).
  rewrite Hn, MAKEB_index, MAKEB_gen by (done || lia). done.
Qed.

Lemma denotes_TableEntry hole s name i :
  denotes hole s name (TableEntry i) <->
  0 < i < is_table_size s /\ used hole (is_table s) i /\
  name = MACH_PORT_MAKEB i (tbits (is_table s) i).
Proof. split; [by inversion 1|]. intros (? & ? & ?). by constructor. Qed.

Lemma denotes_TreeEntry hole s name p :
  denotes hole s name (TreeEntry p) <-> (name, p) ∈ to_list (is_tree s).
Proof. split; [by inversion 1|by constructor]. Qed.

(** An entry has one name. *)
Lemma denotes_name hole s name name' r :
  space_inv hole s -> denotes hole s name r -> denotes hole s name' r -> name = name'.
Proof.
  intros [_ I]. destruct 1 as [i Hi Hu ->|p Hin]; inversion 1 as [|? Hin']; subst; [done|].
  pose proof (i_ptrs _ _ _ _ _ _ _ _ I) as Hnd.
  apply list_elem_of_lookup in Hin as [n1 Hn1]. apply list_elem_of_lookup in Hin' as [n2 Hn2].
  assert (n1 = n2) as ->; [|congruence].
  eapply (NoDup_lookup (map snd (to_list (is_tree s)))); [done|..]; rewrite list_lookup_fmap.
  - by rewrite Hn1.
  - by rewrite Hn2.
Qed.

(** Where a name with no entry could not be put into the table. *)
Definition table_blocked (s : ipc_space) (name : Z) : Prop :=
  0 < MACH_PORT_INDEX name < is_table_size s ->
  used None (is_table s) (MACH_PORT_INDEX name) /\
  IE_BITS_GEN (tbits (is_table s) (MACH_PORT_INDEX name)) <> MACH_PORT_GEN name.

Definition find_result (s : ipc_space) (name : Z) (found : alloc_found) : Prop :=
  match found with
  | Found r s' => (denotes None s name r /\ resplayed s s') \/ allocated s s' name r
  | Grow s' =>
    resplayed s s' /\ (forall r, ~ denotes None s name r) /\
    is_table_size s <= MACH_PORT_INDEX name < its_size (is_table_next s)
  | NeedTree s' => resplayed s s' /\ (forall r, ~ denotes None s name r) /\ table_blocked s name
  end.

Lemma alloc_name_find_slot s name :
  space_inv None s -> u32_range name -> 0 < MACH_PORT_INDEX name < is_table_size s ->
  ~ used None (is_table s) (MACH_PORT_INDEX name) ->
  allocated s
    (with_table (tset (unlink_free (is_table s) (MACH_PORT_INDEX name)) (MACH_PORT_INDEX name)
       (fun e => set_request 0 (set_bits (MACH_PORT_GEN name) e))) s)
    name (TableEntry (MACH_PORT_INDEX name)).
Proof.
  intros Hinv Hname Hi Hfree. pose proof Hinv as [_ I].
  destruct (unlink_free_spec _ _ _ _ _ _ _ _ _ I Hi Hfree) as (Hlen & Hget & fl & Hc & Hnd & Hin).
  pose proof (i_len _ _ _ _ _ _ _ _ I) as Hl. set (U := unlink_free _ _) in *.
  set (index := MACH_PORT_INDEX name) in *.
  assert (Hgetindex : tget U index = tget (is_table s) index).
  { destruct (Hget index ltac:(lia)) as [?|[? _]]; done. }
  set (T' := tset _ _ _). pose proof (alloc_slot_spec s T' index (MACH_PORT_GEN name)) as Hslot.
  assert (Hmake : MACH_PORT_MAKE index (MACH_PORT_GEN name) = name) by (by apply MAKE_INDEX_GEN).
  rewrite Hmake in Hslot. unfold T' in *.
  apply Hslot; try done; [apply gen_ok_GEN| |by rewrite tlen_tset|].
  - intros j Hj. rewrite tget_tset by lia. destruct (Z.eqb_spec index j) as [<-|Hne].
    { exists 0. by rewrite Hgetindex. }
    destruct (Hget j Hj) as [->|(_ & Hu & n & ->)].
    + exists (ie_next (tget (is_table s) j)). case_bool_decide; [done|]. by destruct (tget _ j).
    + exists n. rewrite bool_decide_false; [done|]. destruct Hu as [->|Hu]; [|done].
      intros [Hz|Hz]; [|done]. exact (Hz (i_zero _ _ _ _ _ _ _ _ I)).
  - exists fl. split_and!; [|done|done]. apply (chain_ext U); [|done].
    intros j Hj. assert (0 <= j < is_table_size s /\ j <> index).
    { destruct Hj as [->|Hj]; [lia|]. apply Hin in Hj. lia. }
    rewrite tget_tset_ne; [done|lia..].
Qed.

(** The part of the search that looks in the tree. *)
Definition find_in_tree (s : ipc_space) (name : Z) : ipc_space * option entry_ref :=
  if 0 <? is_tree_total s then tree_lookup s name else (s, None).

Lemma find_in_tree_spec s name :
  space_inv None s ->
  resplayed s (find_in_tree s name).1 /\
  forall r, (find_in_tree s name).2 = Some r <->
            exists p, r = TreeEntry p /\ (name, p) ∈ to_list (is_tree s).
Proof.
  intros [Hok I]. unfold find_in_tree. destruct (Z.ltb_spec 0 (is_tree_total s)) as [Ht|Ht].
  - destruct (tree_lookup_spec s name Hok) as (tree & Heq & Hok' & Hl & Hr).
    split; [|done]. by exists tree.
  - split; [by apply resplayed_refl|]. intros r. split; [done|]. intros (p & _ & Hin).
    rewrite (i_total _ _ _ _ _ _ _ _ I) in Ht.
    destruct (to_list (is_tree s)); [by apply elem_of_nil in Hin|simpl in Ht; lia].
Qed.

Lemma alloc_name_find_tree s name :
  space_inv None s -> table_blocked s name ->
  find_result s name
    (let '(s, r) := find_in_tree s name in
     match r with
     | Some entry => Found entry s
     | None =>
       let size := is_table_size s in
       let nsize := its_size (is_table_next s) in
       if (size <=? MACH_PORT_INDEX name) && (MACH_PORT_INDEX name <? nsize) &&
          (u32 ((nsize - size) * sizeof_ipc_entry) <?
           u32 ((is_tree_small s + 1) * sizeof_ipc_tree_entry))
       then Grow s else NeedTree s
     end).
Proof.
  intros Hinv Hb. destruct (find_in_tree_spec s name Hinv) as [Hrs Hr].
  destruct (find_in_tree s name) as [s' [r|]]; simpl in *.
  { left. split; [|done]. destruct (proj1 (Hr r) eq_refl) as (p & -> & Hin). by constructor. }
  assert (Hno : forall r, ~ denotes None s name r).
  { intros [i|p] Hd.
    - destruct (table_denotes_index _ _ _ _ Hinv Hd) as (-> & Hi & _ & Hg). by destruct (Hb Hi).
    - inversion Hd; subst. assert (None = Some (TreeEntry p)) by (apply Hr; eauto). done. }
  assert (Hsame : is_table_size s' = is_table_size s /\ is_table_next s' = is_table_next s)
    by (by destruct Hrs as (tree & -> & _)). destruct Hsame as [-> ->].
  destruct (Z.leb_spec (is_table_size s) (MACH_PORT_INDEX name)); simpl; [|done].
  destruct (Z.ltb_spec (MACH_PORT_INDEX name) (its_size (is_table_next s))); simpl; [|done].
  by destruct (_ <? _).
Qed.

Lemma alloc_name_find_spec s name :
  space_inv None s -> u32_range name -> find_result s name (alloc_name_find s name).
Proof.
  intros Hinv Hname. pose proof Hinv as [Hok I]. unfold alloc_name_find.
  set (index := MACH_PORT_INDEX name). fold (tbits (is_table s) index).
  fold (find_in_tree s name).
  destruct (Z.ltb_spec 0 index); simpl; cycle 1.
  { apply alloc_name_find_tree; [done|]. intros ?. unfold index in *. lia. }
  destruct (Z.ltb_spec index (is_table_size s)); simpl; cycle 1.
  { apply alloc_name_find_tree; [done|]. intros ?. unfold index in *. lia. }
  destruct (Z.eqb_spec (IE_BITS_TYPE (tbits (is_table s) index)) 0) as [Ht|Ht]; simpl.
  - right. apply alloc_name_find_slot; try done. intros [?|?]; done.
  - destruct (Z.eqb_spec (IE_BITS_GEN (tbits (is_table s) index)) (MACH_PORT_GEN name)) as [Hg|Hg]; simpl.
    + left. split; [|by apply resplayed_refl]. constructor; [done|by left|].
      symmetry. by apply MAKEB_name.
    + apply alloc_name_find_tree; [done|]. intros _. split; [by left|done].
Qed.

(** ** Changing the splay tree *)

Lemma elem_of_small_set lo hi L i :
  i ∈ small_set lo hi L <-> lo <= i < hi /\ exists x, x ∈ keys L /\ MACH_PORT_INDEX x = i.
Proof.
  unfold small_set. rewrite elem_of_list_to_set, list_elem_of_filter, list_elem_of_fmap. naive_solver.
Qed.

Lemma small_set_perm lo hi L L' : L ≡ₚ L' -> small_set lo hi L = small_set lo hi L'.
Proof.
  intros Hp. apply set_eq. intros i. rewrite !elem_of_small_set.
  assert (Hk : keys L ≡ₚ keys L') by (by apply Permutation_map). by setoid_rewrite Hk.
Qed.

Definition collides (name : Z) (L : list (Z * ite_ptr)) : Prop :=
  exists x, x ∈ keys L /\ MACH_PORT_INDEX x = MACH_PORT_INDEX name.

Lemma small_set_cons_size lo hi name p L :
  base.size (small_set lo hi ((name, p) :: L)) =
  ((if ((lo <=? MACH_PORT_INDEX name) && (MACH_PORT_INDEX name <? hi))%Z &&
       negb (bool_decide (MACH_PORT_INDEX name ∈ map MACH_PORT_INDEX (keys L)))
    then 1 else 0) + base.size (small_set lo hi L))%nat.
Proof.
  set (i := MACH_PORT_INDEX name).
  assert (Hin : i ∈ map MACH_PORT_INDEX (keys L) <-> exists x, x ∈ keys L /\ MACH_PORT_INDEX x = i).
  { rewrite list_elem_of_fmap. naive_solver. }
  destruct (Z.leb_spec lo i), (Z.ltb_spec i hi); simpl; try (f_equal; apply set_eq; intros j;
    rewrite !elem_of_small_set; simpl; setoid_rewrite elem_of_cons; fold i;
    split; [intros (? & x & [->|?] & ?); [lia|eauto]|naive_solver]).
  case_bool_decide as Hc; simpl.
  - f_equal. apply set_eq. intros j. rewrite !elem_of_small_set. simpl. setoid_rewrite elem_of_cons.
    rewrite Hin in Hc. split; [|naive_solver].
    intros (? & x & [->|?] & Hx); [|eauto]. fold i in Hx. subst j. eauto.
  - assert (Heq : small_set lo hi ((name, p) :: L) = {[i]} ∪ small_set lo hi L).
    { apply set_eq. intros j. rewrite elem_of_union, elem_of_singleton, !elem_of_small_set. simpl.
      setoid_rewrite elem_of_cons. split.
      - intros (? & x & [->|?] & Hx); [by left|right; eauto].
      - intros [->|(? & x & ? & ?)]; [|naive_solver]. split; [done|]. exists name. auto. }
    rewrite Heq, size_union, size_singleton; [done|].
    apply disjoint_singleton_l. rewrite elem_of_small_set, <- Hin. naive_solver.
Qed.

Lemma tree_collision_spec s name :
  splay_ok (is_tree s) -> u32_range name -> MACH_PORT_VALID name = true ->
  resplayed s (ipc_entry_tree_collision s name).1 /\
  ((ipc_entry_tree_collision s name).2 = true <-> collides name (to_list (is_tree s))).
Proof.
  intros Hok Hname Hvalid. unfold ipc_entry_tree_collision.
  pose proof (bounds_spec (is_tree s) name Hok) as Hb.
  destruct (ipc_splay_tree_bounds (is_tree s) name) as [[tree lower] upper].
  destruct Hb as (Hok' & Hl & Hlower & Hupper); [done|]. simpl. split; [by exists tree|].
  assert (Hv : name <> 0 /\ name <> MACH_PORT_LARGEST).
  { unfold MACH_PORT_VALID in Hvalid. apply andb_true_iff in Hvalid as [H1 H2].
    apply negb_true_iff, Z.eqb_neq in H1, H2. done. }
  unfold u32_range, MACH_PORT_LARGEST, MACH_PORT_SMALLEST in *.
  rewrite orb_true_iff, !andb_true_iff, !negb_true_iff, !Z.eqb_neq, !Z.eqb_eq. split.
  - intros [[Hne Hi]|[Hne Hi]].
    + destruct Hlower as [(Hin & _)|(? & _)]; [|done]. by exists lower.
    + destruct Hupper as [(Hin & _)|(? & _)]; [|done]. by exists upper.
  - intros (x & Hx & Hi). destruct (Z.le_ge_cases x name) as [Hle|Hge].
    + left. destruct Hlower as [(Hin & Hle' & Hmax)|(_ & Hmin)]; [|apply Hmin in Hx; lia].
      split; [lia|]. apply Z.le_antisymm; [by apply INDEX_mono|].
      rewrite <- Hi. apply INDEX_mono. by apply Hmax.
    + right. destruct Hupper as [(Hin & Hge' & Hmin)|(_ & Hmax)]; [|apply Hmax in Hx; lia].
      split; [lia|]. apply Z.le_antisymm; [|by apply INDEX_mono].
      rewrite <- Hi. apply INDEX_mono. by apply Hmin.
Qed.

(** Tables that differ only in collision bits. *)
Definition same_but_collision (T T' : list ipc_entry) : Prop :=
  tlen T' = tlen T /\
  forall i, 0 <= i < tlen T ->
    ie_object (tget T' i) = ie_object (tget T i) /\ ie_request (tget T' i) = ie_request (tget T i) /\
    IE_BITS_TYPE (tbits T' i) = IE_BITS_TYPE (tbits T i) /\
    IE_BITS_GEN (tbits T' i) = IE_BITS_GEN (tbits T i) /\
    Z.land (tbits T' i) IE_BITS_RIGHT_MASK = Z.land (tbits T i) IE_BITS_RIGHT_MASK /\
    (u32_range (tbits T i) -> u32_range (tbits T' i)).

Lemma same_but_collision_refl T : same_but_collision T T.
Proof. split; [done|]. intros i Hi. split_and!; done. Qed.

Lemma same_but_collision_set T index (b : bool) :
  0 <= index < tlen T ->
  same_but_collision T (tset T index (fun e => set_bits
    (if b then Z.lor (ie_bits e) IE_BITS_COLLISION else clear (ie_bits e) IE_BITS_COLLISION) e)).
Proof.
  intros Hi. split; [by rewrite tlen_tset|]. intros i Hi'. unfold tbits.
  rewrite tget_tset by lia. destruct (Z.eqb_spec index i) as [<-|]; [|done]. simpl.
  destruct b; simpl; rewrite ?TYPE_lor_COLLISION, ?GEN_lor_COLLISION, ?RIGHT_lor_COLLISION,
    ?TYPE_clear_COLLISION, ?GEN_clear_COLLISION, ?RIGHT_clear_COLLISION; split_and!; try done.
  - intros ?. by apply lor_range, COLLISION_range.
  - apply clear_range.
Qed.

Lemma same_but_collision_used hole T T' i :
  same_but_collision T T' -> 0 <= i < tlen T -> used hole T' i <-> used hole T i.
Proof.
  intros [_ Hs] Hi. destruct (Hs i Hi) as (_ & _ & Ht & Hg & _). unfold used, MACH_PORT_MAKEB.
  by rewrite Ht, Hg.
Qed.

Lemma same_but_collision_content s s' i :
  same_but_collision (is_table s) (is_table s') -> 0 <= i < tlen (is_table s) ->
  content s' (TableEntry i) = content s (TableEntry i).
Proof.
  intros [_ Hs] Hi. destruct (Hs i Hi) as (Ho & Hr & _ & _ & Hb & _). unfold content. simpl.
  unfold tbits in Hb. by rewrite Hb, Ho, Hr.
Qed.

(** What has to be shown when only the tree and collision bits change. *)
Lemma tree_change_inv hole hole' T T' size next L L' ites ites' total total' small small' :
  inv hole T size next L ites total small ->
  same_but_collision T T' ->
  (forall i, 0 < i < size -> used hole' T i <-> used hole T i) ->
  (forall i, 0 < i < size -> ~ used hole T i -> tbits T' i = tbits T i) ->
  (forall x, x ∈ keys L' -> u32_range x) -> (forall x, x ∈ keys L' -> MACH_PORT_VALID x = true) ->
  ksorted L' -> NoDup (map snd L') ->
  (forall x p, (x, p) ∈ L' -> exists it, ites' !! p = Some it /\
     tree_bits (ite_bits it) /\ (IE_BITS_TYPE (ite_bits it) <> 0 \/ hole' = Some x)) ->
  (forall x, x ∈ keys L' -> MACH_PORT_INDEX x < size ->
     (MACH_PORT_INDEX x = 0 \/ used hole T (MACH_PORT_INDEX x)) /\
     IE_BITS_GEN (tbits T (MACH_PORT_INDEX x)) <> MACH_PORT_GEN x) ->
  (forall i, 0 <= i < size -> has (tbits T' i) IE_BITS_COLLISION = true <->
     exists x, x ∈ keys L' /\ MACH_PORT_INDEX x = i) ->
  total' = Z.of_nat (length L') ->
  small' = Z.of_nat (base.size (small_set size (its_size next) L')) ->
  inv hole' T' size next L' ites' total' small'.
Proof.
  intros I Hsame Hhole Hfree Hnames Hvalid Hsorted Hptrs Hites Hblock Hcoll Htotal Hsmall.
  pose proof Hsame as [Hlen Hs]. pose proof (i_len _ _ _ _ _ _ _ _ I) as Hlen'.
  pose proof (inv_size _ _ _ _ _ _ _ _ I) as Hsize.
  assert (Hused : forall i, 0 < i < size -> used hole' T' i <-> used hole T i).
  { intros i Hi. rewrite <- Hhole by done. apply same_but_collision_used; [done|lia]. }
  split; try done; try (by apply I).
  - by rewrite Hlen.
  - intros i Hi. apply Hs; [lia|]. by apply (i_bits _ _ _ _ _ _ _ _ I).
  - destruct (i_free _ _ _ _ _ _ _ _ I) as (fl & Hc & Hnd & Hin). exists fl. split_and!; [|done|].
    + apply (chain_ext T); [|done]. intros j Hj. assert (0 <= j < tlen T).
      { destruct Hj as [->|Hj]; [lia|]. apply Hin in Hj. lia. }
      unfold ie_next. by destruct (Hs j) as (_ & -> & _).
    + intros i. rewrite Hin. split; intros [Hi Hu]; (split; [done|]); by rewrite Hused in *.
  - intros i Hi Hu. rewrite Hused in Hu by done. rewrite Hfree by done.
    destruct (Hs i) as (-> & _); [lia|]. by apply (i_clean _ _ _ _ _ _ _ _ I).
  - destruct (Hs 0) as (_ & _ & -> & _); [lia|]. apply I.
  - destruct (Hs 0) as (_ & _ & _ & -> & _); [lia|]. apply I.
  - intros x Hx Hlt. pose proof (INDEX_range _ (Hnames x Hx)).
    destruct (Hblock x Hx Hlt) as [Hu Hg].
    destruct (Hs (MACH_PORT_INDEX x)) as (_ & _ & _ & -> & _); [lia|]. split_and!; [|..|done].
    + apply Hcoll; [lia|eauto].
    + destruct (Z.eq_dec (MACH_PORT_INDEX x) 0); [by left|right]. apply Hused; [lia|]. by destruct Hu.
  - intros i Hi. by apply Hcoll.
Qed.

Lemma tree_change_table hole hole' s s' name i :
  tlen (is_table s) = is_table_size s -> is_table_size s' = is_table_size s ->
  same_but_collision (is_table s) (is_table s') ->
  (forall i, 0 < i < is_table_size s -> used hole' (is_table s) i <-> used hole (is_table s) i) ->
  denotes hole' s' name (TableEntry i) <-> denotes hole s name (TableEntry i).
Proof.
  intros Hlen Hsize Hsame Hhole. pose proof Hsame as [_ Hs].
  split; inversion 1 as [? Hi Hu Hn|]; subst; constructor; try lia;
    destruct (Hs i) as (_ & _ & _ & Hg & _); try lia.
  - apply Hhole; [lia|]. apply (same_but_collision_used _ _ _ _ Hsame); [lia|done].
  - unfold MACH_PORT_MAKEB. by rewrite Hg.
  - apply (same_but_collision_used _ _ _ _ Hsame); [lia|]. by apply Hhole.
  - unfold MACH_PORT_MAKEB. by rewrite Hg.
Qed.

(** The meaning of names when only the tree and collision bits change. *)
Lemma tree_change_means hole hole' s s' name c :
  tlen (is_table s) = is_table_size s -> is_table_size s' = is_table_size s ->
  same_but_collision (is_table s) (is_table s') ->
  (forall i, 0 < i < is_table_size s -> used hole' (is_table s) i <-> used hole (is_table s) i) ->
  means hole' s' name c <->
  (exists i, denotes hole s name (TableEntry i) /\ content s (TableEntry i) = c) \/
  (exists p, (name, p) ∈ to_list (is_tree s') /\ content s' (TreeEntry p) = c).
Proof.
  intros Hlen Hsize Hsame Hhole.
  assert (Hcontent : forall i, denotes hole s name (TableEntry i) ->
            content s' (TableEntry i) = content s (TableEntry i)).
  { intros i. inversion 1; subst. apply same_but_collision_content; [done|lia]. }
  assert (Ht := fun i => tree_change_table hole hole' s s' name i Hlen Hsize Hsame Hhole). split.
  - intros ([i|p] & Hd & Hc).
    + apply Ht in Hd. left. exists i. split; [done|]. by rewrite <- Hcontent.
    + right. inversion Hd; subst. eauto.
  - intros [(i & Hd & Hc)|(p & Hin & Hc)].
    + exists (TableEntry i). split; [by apply Ht|]. by rewrite Hcontent.
    + exists (TreeEntry p). split; [by constructor|done].
Qed.

Lemma means_cases hole s name c :
  means hole s name c <->
  (exists i, denotes hole s name (TableEntry i) /\ content s (TableEntry i) = c) \/
  (exists p, (name, p) ∈ to_list (is_tree s) /\ content s (TreeEntry p) = c).
Proof.
  split.
  - intros ([i|p] & Hd & Hc); [eauto|]. inversion Hd; subst. eauto.
  - intros [(i & Hd & Hc)|(p & Hin & Hc)]; [by eexists|]. exists (TreeEntry p). split; [by constructor|done].
Qed.

Lemma small_le_total lo hi L : (base.size (small_set lo hi L) <= length L)%nat.
Proof.
  induction L as [|[name p] L IH]; [done|]. rewrite small_set_cons_size. simpl.
  destruct (_ && negb _); lia.
Qed.

(** There are at most as many tree entries as names. *)
Lemma total_bound hole T size next L ites total small :
  inv hole T size next L ites total small -> total <= u32_max + 1.
Proof.
  intros I. rewrite (i_total _ _ _ _ _ _ _ _ I). rewrite <- (length_map fst).
  enough (length (map fst L) <= Z.to_nat (u32_max + 1))%nat as Hle by (unfold u32_max in *; lia).
  apply range_length; [by apply ksorted_NoDup, (i_sorted _ _ _ _ _ _ _ _ I)|].
  intros x Hx. pose proof (i_names _ _ _ _ _ _ _ _ I x Hx) as Hr. unfold u32_range, u32_max in *. lia.
Qed.

Lemma fresh_total hole T size next L ites total small name :
  inv hole T size next L ites total small -> u32_range name -> MACH_PORT_VALID name = true ->
  name ∉ keys L -> total < u32_max.
Proof.
  intros I Hn Hv Hnk. rewrite (i_total _ _ _ _ _ _ _ _ I).
  assert (Hr : forall x, x ∈ name :: keys L -> 1 <= x <= u32_max).
  { intros x Hx. assert (u32_range x /\ MACH_PORT_VALID x = true) as [Hx1 Hx2].
    { apply elem_of_cons in Hx as [->|Hx]; [done|]. split; [by apply (i_names _ _ _ _ _ _ _ _ I)|].
      by apply (i_valid _ _ _ _ _ _ _ _ I). }
    unfold MACH_PORT_VALID, u32_range, MACH_PORT_NULL in *. destruct (Z.eqb_spec x 0); [done|]. lia. }
  assert (Hle : (length (map Z.pred (name :: keys L)) <= Z.to_nat u32_max)%nat).
  { apply range_length.
    - apply NoDup_fmap; [intros x y; lia|]. apply NoDup_cons. split; [done|].
      apply ksorted_NoDup, (i_sorted _ _ _ _ _ _ _ _ I).
    - intros i (x & -> & Hx)%list_elem_of_fmap. apply Hr in Hx. unfold u32_max in *. lia. }
  rewrite length_map in Hle. simpl in Hle. unfold keys in Hle. rewrite length_map in Hle.
  unfold u32_max in *. lia.
Qed.

Lemma collides_decide name L :
  collides name L <-> MACH_PORT_INDEX name ∈ map MACH_PORT_INDEX (keys L).
Proof. unfold collides. rewrite list_elem_of_fmap. naive_solver. Qed.

(** The bookkeeping before the tree insertion: the collision bit of a table
    entry with the same index, or the count of small tree entries. *)
Lemma insert_bookkeeping s name p :
  space_inv None s -> u32_range name -> MACH_PORT_VALID name = true ->
  is_tree_total s < u32_max ->
  exists T' tree, splay_ok tree /\ to_list tree = to_list (is_tree s) /\
  insert_tree_entry s name p =
    mk_space (is_active s) (is_growing s) T' (is_table_size s) (is_table_next s)
      (ipc_splay_tree_insert tree name p) (<[p := mk_ite 0 IO_NULL 0]> (is_ites s))
      (is_tree_total s + 1)
      (Z.of_nat (base.size (small_set (is_table_size s) (its_size (is_table_next s))
                   ((name, p) :: to_list (is_tree s)))))
      (is_tree_hash s) /\
  T' = if MACH_PORT_INDEX name <? is_table_size s
       then tset (is_table s) (MACH_PORT_INDEX name)
              (fun e => set_bits (Z.lor (ie_bits e) IE_BITS_COLLISION) e)
       else is_table s.
Proof.
  intros [Hok I] Hname Hvalid Htotal. unfold insert_tree_entry.
  set (index := MACH_PORT_INDEX name). set (L := to_list (is_tree s)) in *.
  assert (Ht : u32 (is_tree_total s + 1) = is_tree_total s + 1).
  { apply u32_id. pose proof (i_total _ _ _ _ _ _ _ _ I). unfold u32_range. lia. }
  pose proof (i_small _ _ _ _ _ _ _ _ I) as Hsmall. rewrite small_set_cons_size. fold index L.
  fold L in Hsmall. cbn zeta. change (is_table_size (with_total _ s)) with (is_table_size s).
  change (is_table_next (with_total _ s)) with (is_table_next s).
  destruct (Z.ltb_spec index (is_table_size s)) as [Hlt|Hge].
  { eexists _, (is_tree s). split_and!; [done..| |reflexivity]. simpl. rewrite Ht.
    rewrite (proj2 (Z.leb_gt _ _) Hlt). simpl. by rewrite <- Hsmall. }
  rewrite (proj2 (Z.leb_le _ _) Hge). simpl.
  destruct (Z.ltb_spec index (its_size (is_table_next s))) as [Hn|Hn]; simpl; cycle 1.
  { exists (is_table s), (is_tree s). split_and!; [done..| |reflexivity]. by rewrite Ht, <- Hsmall. }
  set (s1 := with_total _ _).
  destruct (tree_collision_spec s1 name Hok Hname Hvalid) as [(tree & Heq & Hok' & Hl) Hc].
  destruct (ipc_entry_tree_collision s1 name) as [s2 c]. simpl in *. subst s2.
  exists (is_table s), tree. split_and!; [done..| |reflexivity]. fold L in Hc.
  rewrite collides_decide in Hc. fold index in Hc.
  assert (Hsr : u32_range (is_tree_small s + 1)).
  { pose proof (i_total _ _ _ _ _ _ _ _ I) as Htl. rewrite Hsmall. fold L in Htl.
    pose proof (small_le_total (is_table_size s) (its_size (is_table_next s)) L).
    unfold u32_range. lia. }
  destruct c; simpl.
  - rewrite bool_decide_true by (by apply Hc). simpl. subst s1. by rewrite Ht, <- Hsmall.
  - rewrite bool_decide_false by (by intros ?%Hc). simpl. subst s1. simpl. rewrite Ht, u32_id by done.
    
    unfold with_ites, with_tree, with_small, with_total. simpl. f_equal. rewrite Hsmall. lia.
Qed.

(** The space after the insertion, [T'] and [tree] being the table and the tree
    after the bookkeeping. *)
Section insertion.
Context (s : ipc_space) (name : Z) (p : ite_ptr).
Context (T' : list ipc_entry) (tree : ipc_splay_tree (E := ite_ptr)).
Local Abbreviation L := (to_list (is_tree s)).
Local Abbreviation L' := (to_list (ipc_splay_tree_insert tree name p)).
Local Abbreviation ites' := (<[p := mk_ite 0 IO_NULL 0]> (is_ites s) : gmap ite_ptr ipc_tree_entry).

Definition inserted : ipc_space :=
  mk_space (is_active s) (is_growing s) T' (is_table_size s) (is_table_next s)
    (ipc_splay_tree_insert tree name p) ites' (is_tree_total s + 1)
    (Z.of_nat (base.size (small_set (is_table_size s) (its_size (is_table_next s)) ((name, p) :: L))))
    (is_tree_hash s).

Hypothesis Hinv : space_inv None s.
Hypothesis Hname : u32_range name.
Hypothesis Hvalid : MACH_PORT_VALID name = true.
Hypothesis Hfresh : forall r, ~ denotes None s name r.
Hypothesis Hblocked : table_blocked s name.
Hypothesis Hp : forall x, (x, p) ∉ L.
Hypothesis Hzero : MACH_PORT_INDEX name = 0 -> IE_BITS_GEN (tbits (is_table s) 0) <> MACH_PORT_GEN name.
Hypothesis Htree : splay_ok tree.
Hypothesis Hlist : to_list tree = L.
Hypothesis HT' : T' = if MACH_PORT_INDEX name <? is_table_size s
       then tset (is_table s) (MACH_PORT_INDEX name)
              (fun e => set_bits (Z.lor (ie_bits e) IE_BITS_COLLISION) e)
       else is_table s.

Lemma fresh_key : name ∉ keys L.
Proof. intros (q & Hq)%elem_of_keys. apply (Hfresh (TreeEntry q)). by constructor. Qed.

Lemma inserted_tree : splay_ok (ipc_splay_tree_insert tree name p) /\ L' ≡ₚ (name, p) :: L.
Proof.
  destruct (insert_spec tree name p Htree Hname) as [Hok Hl]; [rewrite Hlist; apply fresh_key|].
  split; [done|]. rewrite Hl, Hlist. destruct Hinv as [_ I]. apply insert_perm; [apply I|apply fresh_key].
Qed.

Lemma inserted_keys x : x ∈ keys L' <-> x = name \/ x ∈ keys L.
Proof.
  destruct inserted_tree as [_ Hperm]. unfold keys. rewrite (Permutation_map fst Hperm). simpl. by rewrite elem_of_cons.
Qed.

Lemma inserted_same : same_but_collision (is_table s) T'.
Proof.
  rewrite HT'. destruct (_ <? _) eqn:Hlt; [|apply same_but_collision_refl].
  apply (same_but_collision_set _ _ true). apply Z.ltb_lt in Hlt. pose proof (INDEX_range name Hname).
  destruct Hinv as [_ I]. pose proof (i_len _ _ _ _ _ _ _ _ I). lia.
Qed.

Lemma inserted_used i : 0 < i < is_table_size s -> used (Some name) (is_table s) i <-> used None (is_table s) i.
Proof.
  intros Hi. destruct Hinv as [_ I]. pose proof (inv_size _ _ _ _ _ _ _ _ I) as Hsize.
  unfold used. split; intros [Hu|Hu]; try (by left). exfalso.
  pose proof (i_bits _ _ _ _ _ _ _ _ I i ltac:(lia)). injection Hu as Hu.
  assert (Hii : MACH_PORT_INDEX name = i) by (rewrite Hu; apply MAKEB_index; [lia|done]).
  unfold table_blocked in Hblocked. rewrite Hii in Hblocked. apply (Hblocked Hi).
  rewrite Hu. symmetry. apply MAKEB_gen; [lia|done].
Qed.

Lemma inserted_collisions i : 0 <= i < is_table_size s ->
  has (tbits T' i) IE_BITS_COLLISION = true <-> exists x, x ∈ keys L' /\ MACH_PORT_INDEX x = i.
Proof.
  intros Hi. destruct Hinv as [_ I]. setoid_rewrite inserted_keys. pose proof (INDEX_range name Hname).
  pose proof (i_len _ _ _ _ _ _ _ _ I) as Hlen.
  transitivity (i = MACH_PORT_INDEX name \/ exists x, x ∈ keys L /\ MACH_PORT_INDEX x = i); [|naive_solver].
  assert (Hold : has (tbits (is_table s) i) IE_BITS_COLLISION = true <->
            exists x, x ∈ keys L /\ MACH_PORT_INDEX x = i).
  { split; [by apply (i_coll' _ _ _ _ _ _ _ _ I)|]. intros (x & Hx & <-).
    apply (i_coll _ _ _ _ _ _ _ _ I); [done|lia]. }
  rewrite HT'. destruct (Z.ltb_spec (MACH_PORT_INDEX name) (is_table_size s)).
  - rewrite tbits_tset by lia. destruct (Z.eqb_spec (MACH_PORT_INDEX name) i) as [<-|]; simpl.
    + rewrite COLLISION_lor. tauto.
    + rewrite Hold. naive_solver.
  - rewrite Hold. split; [by right|]. intros [->|?]; [lia|done].
Qed.

(** The names in the tree, among them the new one, do not clash with the table. *)
Lemma inserted_blocked x : x ∈ keys L' -> MACH_PORT_INDEX x < is_table_size s ->
  (MACH_PORT_INDEX x = 0 \/ used None (is_table s) (MACH_PORT_INDEX x)) /\
  IE_BITS_GEN (tbits (is_table s) (MACH_PORT_INDEX x)) <> MACH_PORT_GEN x.
Proof.
  destruct Hinv as [_ I]. pose proof (INDEX_range name Hname). intros [->|Hx]%inserted_keys Hlt.
  - destruct (Z.eq_dec (MACH_PORT_INDEX name) 0) as [Hz|]; [rewrite Hz; auto|].
    destruct Hblocked; [lia|]. auto.
  - apply (i_coll _ _ _ _ _ _ _ _ I) in Hx; [|done]. tauto.
Qed.

Lemma inserted_ites x q : (x, q) ∈ L' -> exists it, ites' !! q = Some it /\
  tree_bits (ite_bits it) /\ (IE_BITS_TYPE (ite_bits it) <> 0 \/ Some name = Some x).
Proof.
  destruct inserted_tree as [_ Hperm]. destruct Hinv as [_ I]. rewrite Hperm, elem_of_cons. intros [[= -> ->]|Hin].
  - rewrite lookup_insert_eq. eexists. split_and!; [done| |by right]. unfold tree_bits. simpl. lia.
  - rewrite lookup_insert_ne by (intros <-; by apply (Hp x)).
    destruct (i_ites _ _ _ _ _ _ _ _ I x q Hin) as (it & ? & ? & [?|?]); eauto 10.
Qed.

Lemma inserted_inv : space_inv (Some name) inserted.
Proof.
  destruct inserted_tree as [Hok Hperm]. pose proof Hinv as [_ I]. pose proof (i_len _ _ _ _ _ _ _ _ I) as Hlen.
  pose proof (INDEX_range name Hname). split; [done|]. simpl. eapply tree_change_inv;
    [exact I|apply inserted_same|apply inserted_used| | | | | |apply inserted_ites|apply inserted_blocked|
     apply inserted_collisions| |].
  - intros i Hi Hu. rewrite HT'. destruct (Z.ltb_spec (MACH_PORT_INDEX name) (is_table_size s)); [|done].
    rewrite tbits_tset by lia. destruct (Z.eqb_spec (MACH_PORT_INDEX name) i) as [<-|]; [|done].
    by destruct (Hblocked Hi).
  - intros x [->|Hx]%inserted_keys; [done|]. by apply (i_names _ _ _ _ _ _ _ _ I).
  - intros x [->|Hx]%inserted_keys; [done|]. by apply (i_valid _ _ _ _ _ _ _ _ I).
  - by apply splay_ok_sorted.
  - rewrite (Permutation_map snd Hperm). simpl. apply NoDup_cons. split; [|apply I].
    intros ([x q] & -> & Hx)%list_elem_of_fmap. by apply (Hp x).
  - rewrite Hperm. simpl. rewrite (i_total _ _ _ _ _ _ _ _ I). lia.
  - by rewrite (small_set_perm _ _ _ _ Hperm).
Qed.

Lemma inserted_means name' c :
  means (Some name) inserted name' c <-> (name' = name /\ c = (0, IO_NULL, 0)) \/ means None s name' c.
Proof.
  destruct inserted_tree as [_ Hperm]. pose proof Hinv as [_ I].
  rewrite (tree_change_means None);
    [|exact (i_len _ _ _ _ _ _ _ _ I)|done|apply inserted_same|apply inserted_used].
  rewrite means_cases. simpl. setoid_rewrite Hperm. setoid_rewrite elem_of_cons. unfold content. simpl.
  assert (Hites : forall q, (name', q) ∈ L -> ites' !! q = is_ites s !! q).
  { intros q Hq. apply lookup_insert_ne. intros <-. by apply (Hp name'). }
  split.
  - intros [?|(q & [[= -> ->]|Hq] & Hc)]; [by auto|left|right; right].
    + rewrite lookup_insert_eq in Hc. done.
    + exists q. by rewrite Hites in Hc.
  - intros [[-> ->]|[?|(q & Hq & Hc)]]; [right|by auto|right].
    + exists p. split; [by left|]. by rewrite lookup_insert_eq.
    + exists q. split; [by right|]. by rewrite Hites.
Qed.
End insertion.

Lemma insert_tree_entry_spec s name p :
  space_inv None s -> u32_range name -> MACH_PORT_VALID name = true ->
  (forall r, ~ denotes None s name r) -> table_blocked s name ->
  (forall x, (x, p) ∉ to_list (is_tree s)) ->
  (MACH_PORT_INDEX name = 0 -> IE_BITS_GEN (tbits (is_table s) 0) <> MACH_PORT_GEN name) ->
  allocated s (insert_tree_entry s name p) name (TreeEntry p).
Proof.
  intros Hinv Hname Hvalid Hfresh Hblocked Hp Hzero.
  assert (Htotal : is_tree_total s < u32_max).
  { pose proof Hinv as [_ I]. eapply fresh_total; [done..|]. by apply fresh_key. }
  destruct (insert_bookkeeping s name p Hinv Hname Hvalid Htotal) as (T' & tree & Hok & Hl & -> & HT').
  fold (inserted s name p T' tree). split_and!; [by apply inserted_inv| |done|].
  - constructor. simpl. destruct (inserted_tree s name p tree) as [_ ->]; try done. apply elem_of_cons. by left.
  - intros name' c. by apply inserted_means.
Qed.

(** ** Writing through an entry pointer *)

(** The hole after the right in [name]'s entry has become [bits]. *)
Definition hole_after (name bits : Z) : option Z :=
  if IE_BITS_TYPE bits =? 0 then Some name else None.

(** No other table entry has the name of an entry. *)
Lemma table_other hole s name i j :
  space_inv hole s -> denotes hole s name (TableEntry i) -> 0 < j < is_table_size s -> j <> i ->
  MACH_PORT_MAKEB j (tbits (is_table s) j) <> name.
Proof.
  intros Hinv Hd Hj Hne Hn. pose proof Hinv as [_ I].
  destruct (table_denotes_index _ _ _ _ Hinv Hd) as (-> & _).
  pose proof (inv_size _ _ _ _ _ _ _ _ I).
  rewrite <- Hn, MAKEB_index in Hne; [done|lia|]. apply (i_bits _ _ _ _ _ _ _ _ I). lia.
Qed.

Lemma tree_other hole s name p j :
  space_inv hole s -> denotes hole s name (TreeEntry p) -> 0 < j < is_table_size s ->
  MACH_PORT_MAKEB j (tbits (is_table s) j) <> name.
Proof.
  intros [_ I] Hd Hj Hn. apply denotes_TreeEntry, elem_of_keys_pair in Hd. subst name.
  pose proof (inv_size _ _ _ _ _ _ _ _ I). pose proof (i_bits _ _ _ _ _ _ _ _ I j ltac:(lia)).
  destruct (i_coll _ _ _ _ _ _ _ _ I _ Hd) as (_ & _ & Hg); rewrite MAKEB_index in * by (done || lia).
  - lia.
  - by rewrite MAKEB_gen in Hg by (done || lia).
Qed.

Section write.
Context (hole : option Z) (s : ipc_space) (name bits object request : Z) (r : entry_ref).
Context (Hinv : space_inv hole s) (Hd : denotes hole s name r).
Context (Hhole : hole = None \/ hole = Some name).
Context (Hframe : same_frame (ie_bits (read_entry s r)) bits) (Hbits : 0 <= bits).

#[local] Abbreviation hole' := (hole_after name bits).
#[local] Abbreviation s' := (write_entry s r bits object request).

Lemma hole_after_cases : IE_BITS_TYPE bits <> 0 \/ hole' = Some name.
Proof. unfold hole_after. destruct (Z.eqb_spec (IE_BITS_TYPE bits) 0); auto. Qed.

Lemma hole_after_only x : hole' = Some x -> x = name.
Proof. unfold hole_after. destruct (_ =? _); by intros [=]. Qed.

Lemma hole_only x : hole = Some x -> x = name.
Proof. destruct Hhole as [->| ->]; by intros [=]. Qed.

(** Other entries do not notice which of the two holes there is. *)
Lemma used_other T j : MACH_PORT_MAKEB j (tbits T j) <> name -> used hole' T j <-> used hole T j.
Proof.
  intros Hne. unfold used. split; (intros [Hu|Hu]; [by left|]);
    [apply hole_after_only in Hu|apply hole_only in Hu]; done.
Qed.

Lemma write_table_inv i : r = TableEntry i -> space_inv hole' s'.
Proof.
  intros Hr. pose proof Hinv as [Hok I]. pose proof (fun j => table_other hole s name i j Hinv) as Hother.
  pose proof used_other as Huo. pose proof hole_only as Hho. pose proof hole_after_cases as Hha.
  clear Hhole. subst r.
  destruct (table_denotes_index _ _ _ _ Hinv Hd) as (Hin & Hi & Hu & Hg).
  pose proof (i_len _ _ _ _ _ _ _ _ I) as Hlen. simpl in *.
  assert (Hname : MACH_PORT_MAKEB i bits = name).
  { unfold MACH_PORT_MAKEB. rewrite (same_frame_GEN _ _ Hframe), Hin.
    unfold tbits in Hg. rewrite <- Hin, Hg, Hin. apply MAKE_INDEX_GEN. by eapply denotes_range. }
  set (T' := tset _ _ _).
  assert (Hget : forall j, 0 <= j -> j <> i -> tget T' j = tget (is_table s) j).
  { intros j ? ?. apply tget_tset_ne; lia. }
  assert (Hgeti : tbits T' i = bits) by (unfold tbits, T'; rewrite tget_tset_eq by lia; done).
  assert (Hused : forall j, 0 < j < is_table_size s -> used hole' T' j <-> used hole (is_table s) j).
  { intros j Hj. destruct (Z.eq_dec j i) as [->|Hne].
    - split; [done|]. intros _. unfold used. rewrite Hgeti, Hname. apply Hha.
    - rewrite <- Huo by (by apply Hother). apply used_ext. unfold tbits. by rewrite Hget by lia. }
  split; [done|]. simpl. split; try (by apply I).
  - unfold T'. by rewrite tlen_tset.
  - intros j Hj. destruct (Z.eq_dec j i) as [->|].
    + rewrite Hgeti. eapply same_frame_range; [done..|]. by apply (i_bits _ _ _ _ _ _ _ _ I).
    + unfold tbits. rewrite Hget by lia. by apply (i_bits _ _ _ _ _ _ _ _ I).
  - destruct (i_free _ _ _ _ _ _ _ _ I) as (fl & Hc & Hnd & Hfl). exists fl. split_and!; [|done|].
    + apply (chain_ext (is_table s)); [|done]. intros j Hj.
      destruct Hj as [->|Hj]; [rewrite Hget by lia; done|]. apply Hfl in Hj as [Hj Hnu].
      rewrite Hget; [done|lia|]. by intros ->.
    + intros j. rewrite Hfl. split; intros [Hj Hnu]; (split; [done|]); by rewrite Hused in *.
  - intros j Hj Hnu. rewrite Hused in Hnu by done. unfold tbits.
    rewrite Hget by (lia || by intros ->). by apply (i_clean _ _ _ _ _ _ _ _ I).
  - unfold tbits. rewrite Hget by lia. apply I.
  - unfold tbits. rewrite Hget by lia. apply I.
  - intros x p Hx. destruct (i_ites _ _ _ _ _ _ _ _ I x p Hx) as (it & ? & ? & [?|Hh]); [eauto 10|].
    apply Hho in Hh as ->. exfalso. by eapply denotes_exclusive.
  - intros x Hx Hlt. destruct (i_coll _ _ _ _ _ _ _ _ I x Hx Hlt) as (Hc & Hxu & Hxg).
    pose proof (INDEX_range _ (i_names _ _ _ _ _ _ _ _ I x Hx)).
    assert (Hb : has (tbits T' (MACH_PORT_INDEX x)) IE_BITS_COLLISION = true /\
                 IE_BITS_GEN (tbits T' (MACH_PORT_INDEX x)) <> MACH_PORT_GEN x).
    { destruct (Z.eq_dec (MACH_PORT_INDEX x) i) as [Heq|].
      - rewrite Heq in *. rewrite Hgeti, (same_frame_GEN _ _ Hframe), (same_frame_COLLISION _ _ Hframe). done.
      - unfold tbits. by rewrite Hget by lia. }
    split_and!; [apply Hb| |apply Hb]. destruct (Z.eq_dec (MACH_PORT_INDEX x) 0); [by left|right].
    apply Hused; [lia|]. by destruct Hxu.
  - intros j Hj Hc. apply (i_coll' _ _ _ _ _ _ _ _ I j Hj). destruct (Z.eq_dec j i) as [->|].
    + by rewrite Hgeti, (same_frame_COLLISION _ _ Hframe) in Hc.
    + unfold tbits in *. by rewrite Hget in Hc by lia.
Qed.

Lemma write_tree_inv p : r = TreeEntry p -> space_inv hole' s'.
Proof.
  intros Hr. pose proof Hinv as [Hok I]. pose proof (fun j => tree_other hole s name p j Hinv) as Hother.
  pose proof used_other as Huo. pose proof hole_only as Hho. pose proof hole_after_cases as Hha.
  clear Hhole. subst r.
  inversion Hd as [|? Hin]; subst. simpl in *.
  destruct (i_ites _ _ _ _ _ _ _ _ I _ _ Hin) as (it & Hit & Htb & _). rewrite Hit in Hframe.
  split; [done|]. simpl. eapply (tree_change_inv hole hole'); try done; try (by apply I).
  - intros j Hj. apply Huo. by apply Hother.
  - intros x q Hx. destruct (decide (q = p)) as [->|Hne].
    + rewrite lookup_insert_eq. eexists. split_and!; [done|by eapply same_frame_tree_bits|].
      assert (x = name) as ->; [|apply Hha].
      eapply denotes_name; [exact Hinv|by constructor|done].
    + rewrite lookup_insert_ne by done.
      destruct (i_ites _ _ _ _ _ _ _ _ I x q Hx) as (it' & ? & ? & [?|Hh]); [eauto 10|].
      apply Hho in Hh as ->. exfalso. apply Hne. eapply ksorted_unique; [|done..]. apply I.
  - intros i Hi. split; [by apply (i_coll' _ _ _ _ _ _ _ _ I)|].
    intros (x & Hx & <-). apply (i_coll _ _ _ _ _ _ _ _ I); [done|lia].
Qed.

Lemma write_inv : space_inv hole' s'.
Proof.
  assert (Hr : (exists i, r = TableEntry i) \/ exists p, r = TreeEntry p) by (clear; destruct r; eauto).
  destruct Hr as [[i Hr]|[p Hr]]; [by eapply write_table_inv|by eapply write_tree_inv].
Qed.

Lemma write_denotes name' r' : denotes hole' s' name' r' <-> denotes hole s name' r'.
Proof.
  pose proof used_other as Huo.
  pose proof hole_after_cases as Hha. pose proof Hinv as [_ I].
  pose proof (i_len _ _ _ _ _ _ _ _ I) as Hlen. clear Hhole.
  destruct r as [i|p], r' as [j|q]; simpl in *.
  - destruct (table_denotes_index _ _ _ _ Hinv Hd) as (Hin & Hi & Hu & Hg).
    set (T' := tset _ _ _).
    assert (Hgeti : tbits T' i = bits) by (unfold tbits, T'; rewrite tget_tset_eq by lia; done).
    assert (Hgenb : MACH_PORT_MAKEB i bits = MACH_PORT_MAKEB i (tbits (is_table s) i)).
    { unfold MACH_PORT_MAKEB. by rewrite (same_frame_GEN _ _ Hframe). }
    assert (Hname : name = MACH_PORT_MAKEB i bits) by (rewrite Hgenb; by inversion Hd).
    assert (Hgetj : 0 < j < is_table_size s -> j <> i -> tbits T' j = tbits (is_table s) j).
    { intros ? ?. unfold tbits, T'. by rewrite tget_tset_ne by lia. }
    rewrite !denotes_TableEntry. simpl. fold T'. destruct (Z.eq_dec j i) as [->|Hne].
    + rewrite Hgeti, Hgenb. unfold used at 1. rewrite Hgeti, <- Hname. tauto.
    + split; intros (Hj & Hju & Hjn); rewrite Hgetj in * by done; split_and!; try lia; try done.
      * apply Huo; [by apply (table_other _ _ _ i _ Hinv)|]. apply (used_ext _ _ T'); [by rewrite Hgetj|done].
      * apply (used_ext _ _ (is_table s)); [by rewrite Hgetj|]. by apply Huo; [apply (table_other _ _ _ i _ Hinv)|].
  - by rewrite !denotes_TreeEntry.
  - rewrite !denotes_TableEntry. simpl. split; intros (Hj & Hju & Hjn); split_and!; try lia; try done;
      apply (Huo (is_table s)); try done; by apply (tree_other _ _ _ p _ Hinv).
  - by rewrite !denotes_TreeEntry.
Qed.

Lemma write_means name' c :
  means hole' s' name' c <->
  (name' = name /\ c = (Z.land bits IE_BITS_RIGHT_MASK, object, request)) \/
  (name' <> name /\ means hole s name' c).
Proof.
  pose proof Hinv as [_ I]. pose proof (i_len _ _ _ _ _ _ _ _ I) as Hlen.
  assert (Hself : content s' r = (Z.land bits IE_BITS_RIGHT_MASK, object, request)).
  { unfold content. destruct r as [i|p]; simpl.
    - destruct (table_denotes_index _ _ _ _ Hinv Hd) as (_ & Hi & _). by rewrite tget_tset_eq by lia.
    - by rewrite lookup_insert_eq. }
  assert (Hother : forall n r', denotes hole s n r' -> r' <> r -> content s' r' = content s r').
  { intros n r' Hd' Hne. unfold content. destruct r as [i|p], r' as [j|q]; simpl; try done.
    - destruct (table_denotes_index _ _ _ _ Hinv Hd) as (_ & Hi & _).
      destruct (table_denotes_index _ _ _ _ Hinv Hd') as (_ & Hj & _).
      rewrite tget_tset_ne; [done|lia..|congruence].
    - by rewrite lookup_insert_ne by congruence. }
  assert (Hinj : forall n, denotes hole s n r -> n = name).
  { intros n Hd'. by eapply denotes_name. }
  unfold means. setoid_rewrite write_denotes. split.
  - intros (r' & Hd' & Hc). destruct (decide (r' = r)) as [->|Hne].
    + left. split; [by apply Hinj|]. by rewrite <- Hc, Hself.
    + right. split; [|exists r'; split; [done|by rewrite <- (Hother name')]].
      intros ->. apply Hne. by eapply denotes_unique.
  - intros [[-> ->]|[Hne (r' & Hd' & Hc)]]; [by exists r|].
    exists r'. split; [done|]. rewrite (Hother name'); [done..|]. intros ->. by apply Hne, Hinj.
Qed.
End write.

(** ** A new space *)

Lemma new_table_get n i :
  0 <= i < Z.of_nat n ->
  tget (new_table n) i =
    mk_entry IE_BITS_GEN_MASK IO_NULL (if i + 1 =? Z.of_nat n then 0 else i + 1) 0.
Proof.
  intros Hi. unfold tget, new_table. rewrite nth_lookup, list_lookup_fmap, lookup_seq_lt by lia.
  cbn -[Nat.eqb Z.of_nat Z.eqb]. destruct (Nat.eqb_spec (S (Z.to_nat i)) n), (Z.eqb_spec (i + 1) (Z.of_nat n));
    f_equal; lia.
Qed.

Lemma new_table_chain n k start :
  (start + k + 1 = n)%nat ->
  chain (new_table n) (Z.of_nat start) (map Z.of_nat (seq (S start) k)).
Proof.
  revert start. induction k as [|k IH]; intros start Hn; simpl; unfold ie_next;
    rewrite new_table_get by lia; simpl.
  - by rewrite (proj2 (Z.eqb_eq _ _)) by lia.
  - rewrite (proj2 (Z.eqb_neq _ _)) by lia. split; [lia|]. apply IH. lia.
Qed.

Lemma create_inv initial :
  (initial < its_last)%nat ->
  space_inv None (new_space initial) /\
  forall name r, ~ denotes None (new_space initial) name r.
Proof.
  intros Hi. set (size := its_size initial).
  assert (Hsize : 0 < size) by (apply its_size_bounds; lia).
  assert (Hbits : forall i, 0 <= i < size ->
            tbits (new_table (Z.to_nat size)) i = IE_BITS_GEN_MASK).
  { intros i ?. unfold tbits. by rewrite new_table_get by lia. }
  assert (Hused : forall i, 0 <= i < size -> ~ used None (new_table (Z.to_nat size)) i).
  { intros i ?. unfold used. rewrite Hbits, TYPE_gen by (done || apply gen_ok_MASK). naive_solver. }
  split.
  - split; [by apply splay_ok_null|]. simpl. fold size. split; try done; simpl.
    + unfold tlen, new_table. rewrite length_map, length_seq. lia.
    + lia.
    + intros i ?. rewrite Hbits by done. apply gen_ok_MASK.
    + exists (map Z.of_nat (seq 1 (Z.to_nat size - 1))). split_and!.
      * apply (new_table_chain _ _ 0). lia.
      * apply NoDup_fmap; [apply _|]. apply NoDup_seq.
      * intros i. rewrite list_elem_of_fmap. setoid_rewrite elem_of_seq. split.
        -- intros (k & -> & ?). split; [lia|]. apply Hused. lia.
        -- intros [? _]. exists (Z.to_nat i). lia.
    + intros i ? _. rewrite Hbits by lia. split; [apply gen_ok_MASK|].
      by rewrite new_table_get by lia.
    + rewrite Hbits, TYPE_gen by (lia || apply gen_ok_MASK). done.
    + rewrite Hbits by lia. apply gen_ok_MASK.
    + by intros x ?%elem_of_nil.
    + by intros x ?%elem_of_nil.
    + constructor.
    + constructor.
    + by intros x q ?%elem_of_nil.
    + by intros x ?%elem_of_nil.
    + intros i ? Hc. rewrite Hbits, COLLISION_gen in Hc by (done || apply gen_ok_MASK). done.
  - intros name [i|p]; rewrite ?denotes_TableEntry, ?denotes_TreeEntry; simpl.
    + fold size. intros (? & Hu & _). by apply (Hused i); [lia|].
    + by intros ?%elem_of_nil.
Qed.
End alloc.
