(* ===== verification/Dealloc.v ===== *)
(** * Deallocating entries (ipc/ipc_entry.c, ipc_entry_dealloc)

    An entry whose right is gone leaves the space.  If it is in the table and
    other names with its index are in the splay tree, one of them moves into
    the table; if it is in the tree, the collision bit or the count of small
    tree entries is brought up to date.  [dealloc_spec]: exactly the
    deallocated name loses its meaning. *)

From S2P Require Import Prelude Names Splay Table Space Hash Entry EntryInv Alloc.

Section dealloc.
Context `{PortConfig} `{!EntrySizes}.
Context (addr : Z).

(** What the deallocation of [name] has to establish. *)
Definition deallocated (hole : option Z) (s s' : ipc_space) (name : Z) : Prop :=
  space_inv None s' /\
  forall name' c, means None s' name' c <-> name' <> name /\ means hole s name' c.

(** Every entry but the hole has a type. *)
Lemma used_not_hole hole s name j :
  space_inv hole s -> hole = None \/ hole = Some name -> 0 < j < is_table_size s ->
  j <> MACH_PORT_INDEX name -> used hole (is_table s) j -> used None (is_table s) j.
Proof.
  intros [_ I] Hhole Hj Hne [Hu|Hu]; [by left|]. destruct Hhole as [->| ->]; [done|].
  injection Hu as ->. pose proof (inv_size _ _ _ _ _ _ _ _ I).
  rewrite MAKEB_index in Hne; [done|lia|]. apply (i_bits _ _ _ _ _ _ _ _ I). lia.
Qed.

Lemma used_weaken hole T j : used None T j -> used hole T j.
Proof. intros [?|?]; [by left|done]. Qed.

(** ** A table entry with no collision *)

Lemma dealloc_free_slot hole s g name i :
  space_inv hole s -> hole = None \/ hole = Some name ->
  denotes hole s name (TableEntry i) -> ie_object (tget (is_table s) i) = IO_NULL ->
  has (tbits (is_table s) i) IE_BITS_COLLISION = false ->
  deallocated hole s (ipc_entry_dealloc addr s g name (TableEntry i)).1 name.
Proof.
  intros Hinv Hhole Hd Hobj Hc. pose proof Hinv as [Hok I].
  destruct (table_denotes_index _ _ _ _ Hinv Hd) as (Hin & Hi & Hu & Hg).
  pose proof (i_len _ _ _ _ _ _ _ _ I) as Hlen.
  unfold ipc_entry_dealloc. rewrite <- Hin, (proj2 (Z.ltb_lt _ _)) by lia.
  rewrite bool_decide_true by done. fold (tbits (is_table s) i). rewrite Hc. simpl.
  set (T := is_table s) in *. set (T' := tset (tset T i _) 0 _).
  assert (Hgeti : tget T' i = set_next (ie_next (tget T 0))
                    (set_bits (IE_BITS_GEN (tbits T i)) (tget T i))).
  { unfold T'. rewrite tget_tset_ne, tget_tset_eq, land_GEN_MASK by lia. done. }
  assert (Hget0 : tget T' 0 = set_next i (tget T 0)).
  { unfold T'. rewrite tget_tset_eq, tget_tset_ne by (rewrite ?tlen_tset; lia). done. }
  assert (Hget : forall j, 0 < j -> j <> i -> tget T' j = tget T j).
  { intros j ? ?. unfold T'. by rewrite !tget_tset_ne by lia. }
  assert (Hbits : forall j, 0 <= j < is_table_size s -> tbits T' j = if j =? i then IE_BITS_GEN (tbits T j) else tbits T j).
  { intros j Hj. unfold tbits. destruct (Z.eqb_spec j i) as [->|]; [by rewrite Hgeti|].
    destruct (Z.eq_dec j 0) as [->|]; [by rewrite Hget0|]. by rewrite Hget by lia. }
  pose proof (i_bits _ _ _ _ _ _ _ _ I) as Hbr.
  assert (Hgok : gen_ok (IE_BITS_GEN (tbits T i))) by (apply gen_ok_IE_BITS_GEN, Hbr; lia).
  assert (Hused : forall j, 0 < j < is_table_size s -> used None T' j <-> used hole T j /\ j <> i).
  { intros j Hj. split.
    - intros [Hju|Hju]; [|done]. rewrite Hbits in Hju by lia. destruct (Z.eqb_spec j i) as [->|].
      + by rewrite TYPE_gen in Hju.
      + split; [by left|done].
    - intros [Hju Hne]. apply (used_not_hole _ _ name) in Hju; [|done..|congruence].
      apply (used_ext _ T); [|done]. by rewrite Hbits, (proj2 (Z.eqb_neq _ _)) by (done || lia). }
  split.
  - split; [done|]. simpl. split; try (by apply I).
    + unfold T'. by rewrite !tlen_tset.
    + intros j Hj. rewrite Hbits by done. destruct (Z.eqb_spec j i) as [->|]; [apply Hgok|by apply Hbr].
    + destruct (i_free _ _ _ _ _ _ _ _ I) as (fl & Hch & Hnd & Hfl).
      assert (Hifl : i ∉ fl) by (rewrite Hfl; by intros [_ ?]).
      exists (i :: fl). split_and!.
      * split; [by rewrite Hget0|].
        assert (Hnext : forall j, j ∈ fl -> ie_next (tget T' j) = ie_next (tget T j)).
        { intros j Hj. pose proof Hj as Hj'. apply Hfl in Hj'. rewrite Hget; [done|lia|]. by intros ->. }
        destruct fl as [|k fl]; simpl in *; rewrite Hgeti; [done|]. destruct Hch as [Hk Hch].
        split; [done|]. apply (chain_ext T); [|done].
        intros j [->|Hj]; apply Hnext, elem_of_cons; auto.
      * by apply NoDup_cons.
      * intros j. rewrite elem_of_cons, Hfl. split.
        -- intros [->|[Hj Hnu]]; (split; [done|]); rewrite Hused by done; tauto.
        -- intros [Hj Hnu]. rewrite Hused in Hnu by done. destruct (Z.eq_dec j i); [by left|]. tauto.
    + intros j Hj Hnu. rewrite Hused in Hnu by done. rewrite Hbits by lia.
      destruct (Z.eqb_spec j i) as [->|Hne]; [by rewrite Hgeti|].
      rewrite Hget by lia. apply (i_clean _ _ _ _ _ _ _ _ I); [done|]. tauto.
    + rewrite Hbits by lia. rewrite (proj2 (Z.eqb_neq _ _)) by lia. apply I.
    + rewrite Hbits by lia. rewrite (proj2 (Z.eqb_neq _ _)) by lia. apply I.
    + intros x p Hx. destruct (i_ites _ _ _ _ _ _ _ _ I x p Hx) as (it & ? & ? & [?|Hh]); [eauto 10|].
      destruct Hhole as [->| ->]; [done|]. injection Hh as <-. exfalso. by eapply denotes_exclusive.
    + intros x Hx Hlt. destruct (i_coll _ _ _ _ _ _ _ _ I x Hx Hlt) as (Hxc & Hxu & Hxg).
      pose proof (INDEX_range _ (i_names _ _ _ _ _ _ _ _ I x Hx)).
      assert (Hne : MACH_PORT_INDEX x <> i) by (intros Heq; rewrite Heq in Hxc; congruence).
      rewrite Hbits, (proj2 (Z.eqb_neq _ _)) by (done || lia). split_and!; [done| |done].
      destruct (Z.eq_dec (MACH_PORT_INDEX x) 0); [by left|right]. apply Hused; [lia|]. by destruct Hxu.
    + intros j Hj. rewrite Hbits by done. destruct (Z.eqb_spec j i) as [->|].
      * by rewrite COLLISION_gen.
      * by apply (i_coll' _ _ _ _ _ _ _ _ I).
  - intros name' c. rewrite !means_cases. simpl. unfold content. simpl.
    setoid_rewrite denotes_TableEntry. simpl. fold T. split.
    + intros [(j & (Hj & Hju & Hn) & Hcont)|(p & Hp & Hcont)].
      * rewrite Hused in Hju by done. destruct Hju as [Hju Hne].
        rewrite Hbits, (proj2 (Z.eqb_neq _ _)) in Hn by (done || lia). rewrite Hget in Hcont by lia.
        split; [|left; eauto]. intros ->. apply Hne.
        assert (Heq : TableEntry j = TableEntry i); [|congruence].
        eapply denotes_unique; [done| |done]. by constructor.
      * split; [|right; eauto]. intros ->. by eapply denotes_exclusive.
    + intros [Hne [(j & (Hj & Hju & Hn) & Hcont)|(p & Hp & Hcont)]]; [left|right; eauto].
      assert (j <> i) by (intros ->; apply Hne; by inversion Hd; subst).
      exists j. rewrite Hget, Hused, Hbits, (proj2 (Z.eqb_neq _ _)) by (done || lia). done.
Qed.

(** ** A tree entry *)

(** The tree, the collision bit and the counter after a tree entry has left. *)
Lemma dealloc_tree_shape hole s g name p :
  space_inv hole s -> u32_range name -> MACH_PORT_VALID name = true ->
  (name, p) ∈ to_list (is_tree s) ->
  let L' := below name (to_list (is_tree s)) ++ above name (to_list (is_tree s)) in
  exists tree, splay_ok tree /\ to_list tree = L' /\
  (ipc_entry_dealloc addr s g name (TreeEntry p)).1 =
    mk_space (is_active s) (is_growing s)
      (if (MACH_PORT_INDEX name <? is_table_size s) &&
          negb (bool_decide (MACH_PORT_INDEX name ∈ map MACH_PORT_INDEX (keys L')))
       then tset (is_table s) (MACH_PORT_INDEX name)
              (fun e => set_bits (clear (ie_bits e) IE_BITS_COLLISION) e)
       else is_table s)
      (is_table_size s) (is_table_next s) tree (delete p (is_ites s)) (is_tree_total s - 1)
      (Z.of_nat (base.size (small_set (is_table_size s) (its_size (is_table_next s)) L')))
      (is_tree_hash s).
Proof.
  intros [Hok I] Hname Hvalid Hin L'. set (index := MACH_PORT_INDEX name).
  pose proof (i_sorted _ _ _ _ _ _ _ _ I) as Hs.
  destruct (delete_spec (is_tree s) name Hok) as [Hok' Hl']; [by eapply elem_of_keys_pair|].
  pose proof (remove_perm name p _ Hs Hin) as Hperm. fold L' in Hperm, Hl'.
  pose proof (i_total _ _ _ _ _ _ _ _ I) as Ht. rewrite Hperm in Ht. simpl in Ht.
  pose proof (i_small _ _ _ _ _ _ _ _ I) as Hsm.
  rewrite (small_set_perm _ _ _ _ Hperm), small_set_cons_size in Hsm. fold index in Hsm.
  pose proof (small_le_total (is_table_size s) (its_size (is_table_next s)) L') as Hle.
  pose proof (total_bound _ _ _ _ _ _ _ _ I) as Htr.
  unfold ipc_entry_dealloc. rewrite andb_false_r. fold index.
  rewrite (u32_id (is_tree_total _ - 1)) by (simpl; unfold u32_range; lia). simpl.
  set (s1 := with_total _ _).
  destruct (tree_collision_spec s1 name Hok' Hname Hvalid) as [(tree & Heq & Hok'' & Hl'') Hc].
  simpl in Hl'', Hc. rewrite Hl' in Hl'', Hc. rewrite collides_decide in Hc. fold index in Hc.
  destruct (Z.ltb_spec index (is_table_size s)) as [Hlt|Hge]; simpl.
  { rewrite (proj2 (Z.leb_gt _ _)) in Hsm by done. simpl in Hsm. rewrite <- Hsm.
    destruct (ipc_entry_tree_collision s1 name) as [s2 c]. simpl in *. subst s2.
    exists tree. split_and!; [done..|]. destruct c; simpl.
    - by rewrite bool_decide_true by (by apply Hc).
    - by rewrite bool_decide_false by (by intros ?%Hc). }
  rewrite (proj2 (Z.leb_le _ _)) in Hsm by done. simpl in Hsm.
  destruct (Z.ltb_spec index (its_size (is_table_next s))) as [Hn|Hn]; simpl in *; cycle 1.
  { eexists. split_and!; [..|by rewrite <- Hsm]; done. }
  destruct (ipc_entry_tree_collision s1 name) as [s2 c]. simpl in *. subst s2.
  exists tree. split_and!; [done..|]. destruct c; simpl in *.
  - rewrite bool_decide_true in Hsm by (by apply Hc). simpl in Hsm. by rewrite <- Hsm.
  - rewrite bool_decide_false in Hsm by (by intros ?%Hc). simpl in Hsm.
    rewrite u32_id by (unfold u32_range; lia).
    unfold with_small, with_tree, s1, with_total. simpl. f_equal. lia.
Qed.

Lemma dealloc_tree hole s g name p :
  space_inv hole s -> hole = None \/ hole = Some name ->
  denotes hole s name (TreeEntry p) ->
  deallocated hole s (ipc_entry_dealloc addr s g name (TreeEntry p)).1 name.
Proof.
  intros Hinv Hhole Hd. pose proof Hinv as [Hok I].
  pose proof (denotes_range _ _ _ _ Hinv Hd) as Hname. pose proof Hd as Hin.
  rewrite denotes_TreeEntry in Hin.
  pose proof (i_valid _ _ _ _ _ _ _ _ I name (elem_of_keys_pair _ _ _ Hin)) as Hvalid. pose proof (INDEX_range _ Hname) as Hir.
  destruct (dealloc_tree_shape hole s g name p Hinv Hname Hvalid Hin) as (tree & Hok' & Hl' & ->).
  set (L' := below name _ ++ above name _) in *. set (index := MACH_PORT_INDEX name) in *.
  pose proof (i_sorted _ _ _ _ _ _ _ _ I) as Hs. pose proof (i_len _ _ _ _ _ _ _ _ I) as Hlen.
  pose proof (remove_perm name p _ Hs Hin) as Hperm. fold L' in Hperm.
  assert (Hkeys : forall x, x ∈ keys (to_list (is_tree s)) <-> x = name \/ x ∈ keys L').
  { intros x. unfold keys. rewrite (Permutation_map fst Hperm). simpl. by rewrite elem_of_cons. }
  assert (Hnk : name ∉ keys L').
  { unfold L'. rewrite keys_app, elem_of_app, elem_of_keys_below, elem_of_keys_above. lia. }
  assert (Hptr : forall x q, (x, q) ∈ L' -> q <> p).
  { intros x q Hq ->. apply Hnk. replace name with x; [by eapply elem_of_keys_pair|].
    eapply (denotes_name hole s x name (TreeEntry p)); [done| |done]. constructor.
    rewrite Hperm. apply elem_of_cons. by right. }
  set (T' := if (index <? is_table_size s) && _ then tset _ _ _ else is_table s).
  assert (Hsame : same_but_collision (is_table s) T').
  { unfold T'. destruct (Z.ltb_spec index (is_table_size s)); simpl; [|apply same_but_collision_refl].
    case_bool_decide; simpl; [apply same_but_collision_refl|].
    apply (same_but_collision_set _ _ false). lia. }
  assert (Hused : forall i, 0 < i < is_table_size s -> used None (is_table s) i <-> used hole (is_table s) i).
  { intros i Hi. split; [apply used_weaken|]. intros [Hu|Hu]; [by left|].
    destruct Hhole as [->| ->]; [done|]. injection Hu as Hu.
    exfalso. by apply (tree_other _ _ _ _ _ Hinv Hd Hi). }
  assert (Hcoll : forall i, 0 <= i < is_table_size s ->
    has (tbits T' i) IE_BITS_COLLISION = true <-> exists x, x ∈ keys L' /\ MACH_PORT_INDEX x = i).
  { intros i Hi. assert (Hold : has (tbits (is_table s) i) IE_BITS_COLLISION = true <->
              exists x, (x = name \/ x ∈ keys L') /\ MACH_PORT_INDEX x = i).
    { setoid_rewrite <- Hkeys. split; [by apply (i_coll' _ _ _ _ _ _ _ _ I)|]. intros (x & Hx & <-).
      apply (i_coll _ _ _ _ _ _ _ _ I); [done|lia]. }
    unfold T'. case_bool_decide as Hb; simpl.
    - rewrite andb_false_r, Hold. apply collides_decide in Hb. destruct Hb as (y & Hy & Hyi).
      fold index in Hyi. split; [|naive_solver]. intros (x & [->|Hx] & Hxi); [|by eauto].
      exists y. split; [done|]. by rewrite Hyi.
    - rewrite andb_true_r. unfold index in Hb. rewrite <- collides_decide in Hb. unfold collides in Hb. fold index in Hb.
      destruct (Z.ltb_spec index (is_table_size s)).
      + rewrite tbits_tset by lia. destruct (Z.eqb_spec index i) as [<-|Hne]; simpl.
        * rewrite COLLISION_clear. naive_solver.
        * rewrite Hold. naive_solver.
      + rewrite Hold. split; [|naive_solver]. intros (x & [->|Hx] & Hxi); [|by eauto]. fold index in Hxi. lia. }
  split.
  - split; [done|]. simpl. rewrite Hl'. eapply tree_change_inv; try done.
    + intros i Hi Hu. unfold T'. destruct (Z.ltb_spec index (is_table_size s)); simpl; [|done].
      destruct (negb _); [|done]. rewrite tbits_tset by lia.
      destruct (Z.eqb_spec index i) as [<-|]; [|done].
      destruct (i_coll _ _ _ _ _ _ _ _ I name) as (_ & [?|?] & _);
        [apply Hkeys; by left|done|unfold index in *; lia|done].
    + intros x Hx. apply (i_names _ _ _ _ _ _ _ _ I), Hkeys. by right.
    + intros x Hx. apply (i_valid _ _ _ _ _ _ _ _ I), Hkeys. by right.
    + rewrite <- Hl'. by apply splay_ok_sorted.
    + pose proof (i_ptrs _ _ _ _ _ _ _ _ I) as Hnd. rewrite (Permutation_map snd Hperm) in Hnd.
      by apply NoDup_cons in Hnd as [_ ?].
    + intros x q Hx. rewrite lookup_delete_ne by (intros <-; by eapply Hptr).
      destruct (i_ites _ _ _ _ _ _ _ _ I x q) as (it & ? & ? & Hor);
        [rewrite Hperm; apply elem_of_cons; by right|].
      exists it. split_and!; [done..|]. left. destruct Hor as [?|Hh]; [done|]. exfalso. apply Hnk.
      destruct Hhole as [->| ->]; [done|]. injection Hh as ->. by eapply elem_of_keys_pair.
    + intros x Hx Hlt. apply (i_coll _ _ _ _ _ _ _ _ I) in Hlt as (_ & ? & ?); [done|].
      apply Hkeys. by right.
    + pose proof (i_total _ _ _ _ _ _ _ _ I) as Ht. rewrite Hperm in Ht. simpl in Ht. lia.
  - intros name' c. rewrite (tree_change_means hole None s); [|done..]. rewrite means_cases. simpl.
    rewrite Hl'. unfold content. simpl. split.
    + intros [(i & Hi & Hc)|(q & Hq & Hc)].
      * split; [|by eauto]. intros ->. by eapply denotes_exclusive.
      * split; [intros ->; by eapply Hnk, elem_of_keys_pair|]. right. exists q.
        rewrite lookup_delete_ne in Hc by (intros <-; by eapply Hptr). split; [|done].
        rewrite Hperm. apply elem_of_cons. by right.
    + intros [Hne [?|(q & Hq & Hc)]]; [by left|right]. exists q.
      rewrite Hperm in Hq. apply elem_of_cons in Hq as [[= ? ?]|Hq]; [done|].
      by rewrite lookup_delete_ne by (intros <-; by eapply Hptr).
Qed.

(** ** A table entry with collisions *)

(** The tree cut at the names of one index. *)
Lemma split_at_index (L : list (Z * ite_ptr)) index :
  ksorted L -> (forall x, x ∈ keys L -> u32_range x) -> 0 <= index < index_limit ->
  let lo := below (MACH_PORT_MAKE (index + 1) 0) L in
  let tree := from (MACH_PORT_MAKE (index + 1) 0) L in
  let collisions := from (MACH_PORT_MAKE index 0) lo in
  let small := below (MACH_PORT_MAKE index 0) lo in
  L = (small ++ collisions) ++ tree /\
  (forall x, x ∈ keys small <-> x ∈ keys L /\ MACH_PORT_INDEX x < index) /\
  (forall x, x ∈ keys collisions <-> x ∈ keys L /\ MACH_PORT_INDEX x = index) /\
  (forall x, x ∈ keys tree <-> x ∈ keys L /\ index < MACH_PORT_INDEX x).
Proof.
  intros Hs Hr Hi lo tree collisions small.
  assert (Hlo : forall x, x ∈ keys L -> x < MACH_PORT_MAKE index 0 <-> MACH_PORT_INDEX x < index).
  { intros x Hx. apply name_lt_MAKE; [by apply Hr|lia]. }
  assert (Hhi : forall x, x ∈ keys L -> x < MACH_PORT_MAKE (index + 1) 0 <-> MACH_PORT_INDEX x < index + 1).
  { intros x Hx. apply name_lt_MAKE; [by apply Hr|lia]. }
  split_and!.
  - unfold small, collisions, tree. rewrite (below_from (MACH_PORT_MAKE index 0) lo) by (by apply ksorted_filter).
    unfold lo. by rewrite below_from.
  - intros x. unfold small, lo. rewrite !elem_of_keys_below. split.
    + intros [[Hx _] Hlt]. split; [done|]. by apply Hlo.
    + intros [Hx Hlt]. pose proof (Hlo x Hx). pose proof (Hhi x Hx). split_and!; try done; lia.
  - intros x. unfold collisions, lo. rewrite elem_of_keys_from, elem_of_keys_below. split.
    + intros [[Hx H1] H2]. pose proof (Hlo x Hx). pose proof (Hhi x Hx). split; [done|lia].
    + intros [Hx Heq]. pose proof (Hlo x Hx). pose proof (Hhi x Hx). split_and!; try done; lia.
  - intros x. unfold tree. rewrite elem_of_keys_from. split.
    + intros [Hx H1]. pose proof (Hhi x Hx). split; [done|lia].
    + intros [Hx H1]. pose proof (Hhi x Hx). split; [done|lia].
Qed.

(** Joining the three parts again, less the entry that was picked. *)
Lemma rejoin_spec (tree collisions small : ipc_splay_tree (E := ite_ptr)) tname tp :
  splay_ok tree -> splay_ok collisions -> splay_ok small ->
  (tname, tp) ∈ to_list collisions ->
  ksorted ((to_list small ++ to_list collisions) ++ to_list tree) ->
  let collisions' := ipc_splay_tree_delete collisions tname in
  let tree' := match ipc_splay_tree_pick collisions' with
               | Some _ => (ipc_splay_tree_join tree collisions').1
               | None => tree
               end in
  let r := (ipc_splay_tree_join tree' small).1 in
  splay_ok r /\
  (to_list small ++ to_list collisions) ++ to_list tree ≡ₚ (tname, tp) :: to_list r /\
  (ipc_splay_tree_pick collisions' <> None <->
   exists x, x ∈ keys (to_list collisions) /\ x <> tname).
Proof.
  intros Htree Hcoll Hsmall Hin Hs collisions' tree' r.
  apply ksorted_app in Hs as (Hs1 & Hst & Hlt1). apply ksorted_app in Hs1 as (Hss & Hsc & Hlt2).
  destruct (delete_spec collisions tname Hcoll) as [Hok Hl]; [by eapply elem_of_keys_pair|].
  fold collisions' in Hok, Hl.
  pose proof (remove_perm tname tp _ Hsc Hin) as Hperm. rewrite <- Hl in Hperm.
  assert (Hkeys : forall x, x ∈ keys (to_list collisions') <-> x ∈ keys (to_list collisions) /\ x <> tname).
  { intros x. rewrite Hl, keys_app, elem_of_app, elem_of_keys_below, elem_of_keys_above.
    assert (x <> tname <-> x < tname \/ tname < x) as -> by lia. tauto. }
  assert (Htree' : splay_ok tree' /\ to_list tree' = to_list collisions' ++ to_list tree).
  { unfold tree'. pose proof (pick_spec collisions' Hok) as Hp.
    destruct (ipc_splay_tree_pick collisions') as [[n e]|]; [|by rewrite Hp].
    pose proof (join_spec tree collisions' Htree Hok) as Hj.
    destruct (ipc_splay_tree_join tree collisions') as [t1 t2]. destruct Hj as (? & _ & ?); [|done].
    intros x y Hx Hy. apply Hkeys in Hx as [Hx _]. apply Hlt1; [|done]. rewrite keys_app. apply elem_of_app. by right. }
  destruct Htree' as [Hok' Hl']. unfold r. pose proof (join_spec tree' small Hok' Hsmall) as Hj.
  destruct (ipc_splay_tree_join tree' small) as [t1 t2]. destruct Hj as (Hokr & _ & Hlr).
  { intros x y Hx. rewrite Hl', keys_app, elem_of_app. intros [Hy|Hy].
    - apply Hkeys in Hy as [Hy _]. by apply Hlt2.
    - apply Hlt1; [|done]. rewrite keys_app. apply elem_of_app. by left. }
  simpl. split_and!; [done| |].
  - rewrite Hlr, Hl', Hperm, <- app_assoc. simpl. by rewrite <- Permutation_middle.
  - setoid_rewrite <- Hkeys. pose proof (pick_spec collisions' Hok) as Hp.
    destruct (ipc_splay_tree_pick collisions') as [[n e]|].
    + split; [|done]. intros _. exists n. by eapply elem_of_keys_pair.
    + rewrite Hp. split; [done|]. by intros (x & ?%elem_of_nil).
Qed.

(** The slot [i] of a table rewritten with the tree entry [it], up to the
    reverse hash table. *)
Lemma moved_slot T T2 i bits object request (c : bool) :
  0 <= i < tlen T ->
  (forall j, Local.rights_of (tget T2 j) =
     Local.rights_of (tget (tset T i (fun e => mk_entry bits object request (ie_index e))) j)) ->
  tlen T2 = tlen T ->
  let T' := if c then tset T2 i (fun e => set_bits (Z.lor (ie_bits e) IE_BITS_COLLISION) e) else T2 in
  tlen T' = tlen T /\
  (forall j, 0 <= j -> j <> i -> Local.rights_of (tget T' j) = Local.rights_of (tget T j)) /\
  Local.rights_of (tget T' i) = (if c then Z.lor bits IE_BITS_COLLISION else bits, object, request).
Proof.
  intros Hi HT2 Hlen T'. pose proof (HT2 i) as HT2i. rewrite tget_tset_eq in HT2i by done.
  unfold Local.rights_of in HT2i. simpl in HT2i. injection HT2i as Hb Ho Hr.
  unfold T'. destruct c; split_and!; rewrite ?tlen_tset; try done.
  - intros j ? ?. rewrite tget_tset_ne, HT2, tget_tset_ne by lia. done.
  - rewrite tget_tset_eq by lia. unfold Local.rights_of. simpl. by rewrite Hb, Ho, Hr.
  - intros j ? ?. rewrite HT2, tget_tset_ne by lia. done.
  - unfold Local.rights_of. by rewrite Hb, Ho, Hr.
Qed.

(** The entry that moves into the table, and the space after it has. *)
Lemma dealloc_collision_shape hole s g name i :
  space_inv hole s -> denotes hole s name (TableEntry i) ->
  has (tbits (is_table s) i) IE_BITS_COLLISION = true ->
  exists tname tp it tree T' h (c : bool),
    (tname, tp) ∈ to_list (is_tree s) /\ MACH_PORT_INDEX tname = i /\ is_ites s !! tp = Some it /\
    splay_ok tree /\ to_list (is_tree s) ≡ₚ (tname, tp) :: to_list tree /\
    (ipc_entry_dealloc addr s g name (TableEntry i)).1 =
      mk_space (is_active s) (is_growing s) T' (is_table_size s) (is_table_next s) tree
        (delete tp (is_ites s)) (is_tree_total s - 1) (is_tree_small s) h /\
    tlen T' = tlen (is_table s) /\
    (forall j, 0 <= j -> j <> i -> Local.rights_of (tget T' j) = Local.rights_of (tget (is_table s) j)) /\
    Local.rights_of (tget T' i) =
      (let b := Z.lor (ite_bits it) (MACH_PORT_GEN tname) in if c then Z.lor b IE_BITS_COLLISION else b,
       ite_object it, ite_request it) /\
    (c = true <-> exists x, x ∈ keys (to_list tree) /\ MACH_PORT_INDEX x = i).
Proof.
  intros Hinv Hd Hc. pose proof Hinv as [Hok I].
  destruct (table_denotes_index _ _ _ _ Hinv Hd) as (Hin & Hi & Hu & Hg).
  pose proof (i_len _ _ _ _ _ _ _ _ I) as Hlen. pose proof (inv_size _ _ _ _ _ _ _ _ I) as Hsize.
  pose proof (i_sorted _ _ _ _ _ _ _ _ I) as Hs. pose proof (i_names _ _ _ _ _ _ _ _ I) as Hnames.
  unfold ipc_entry_dealloc. rewrite <- Hin, (proj2 (Z.ltb_lt _ _)) by lia.
  rewrite bool_decide_true by done. fold (tbits (is_table s) i). rewrite Hc.
  cbn [andb].
  destruct (split_at_index (to_list (is_tree s)) i Hs Hnames ltac:(lia)) as (Hsplit & Hks & Hkc & Hkt).
  pose proof (split_spec (is_tree s) (MACH_PORT_MAKE (i + 1) 0) empty_tree Hok) as Hsp.
  destruct (ipc_splay_tree_split (is_tree s) _ _) as [tree coll0].
  destruct Hsp as (Hokt & Hok0 & Hlt & Hl0); [apply MAKE_range; [lia|apply gen_ok_0]|].
  pose proof (split_spec coll0 (MACH_PORT_MAKE i 0) empty_tree Hok0) as Hsp.
  destruct (ipc_splay_tree_split coll0 _ _) as [collisions small].
  destruct Hsp as (Hokc & Hoks & Hlc & Hls); [apply MAKE_range; [lia|apply gen_ok_0]|].
  rewrite <- Hl0, <- Hls, <- Hlc, <- Hlt in Hsplit. rewrite <- Hl0, <- Hlc in Hkc.
  rewrite Hl0 in *. pose proof (pick_spec collisions Hokc) as Hp.
  destruct (ipc_splay_tree_pick collisions) as [[tname tp]|]; cycle 1.
  { exfalso. destruct (i_coll' _ _ _ _ _ _ _ _ I i ltac:(lia) Hc) as (x & Hx & Hxi).
    assert (Hbad : x ∈ keys (to_list collisions)) by (by apply Hkc). rewrite Hp in Hbad.
    by apply elem_of_nil in Hbad. }
  assert (Hpi : MACH_PORT_INDEX tname = i) by (apply elem_of_keys_pair, Hkc in Hp; by destruct Hp).
  assert (Hpl : (tname, tp) ∈ to_list (is_tree s)).
  { rewrite Hsplit. apply elem_of_app. left. apply elem_of_app. by right. }
  destruct (i_ites _ _ _ _ _ _ _ _ I tname tp Hpl) as (it & Hit & Htb & _).
  destruct (rejoin_spec tree collisions small tname tp Hokt Hokc Hoks Hp) as (Hokr & Hperm & Hpick);
    [by rewrite <- Hsplit|].
  rewrite <- Hsplit in Hperm.
  pose proof (i_total _ _ _ _ _ _ _ _ I) as Ht. rewrite Hperm in Ht. simpl in Ht.
  pose proof (total_bound _ _ _ _ _ _ _ _ I) as Htb'.
  assert (Htot : u32 (is_tree_total s - 1) = is_tree_total s - 1) by (apply u32_id; unfold u32_range; lia).
  set (tree' := (ipc_splay_tree_join _ small).1) in Hokr, Hperm.
  assert (Hcoll : ipc_splay_tree_pick (ipc_splay_tree_delete collisions tname) <> None <->
                  exists x, x ∈ keys (to_list tree') /\ MACH_PORT_INDEX x = i).
  { rewrite Hpick. assert (Hnd : NoDup (keys (to_list (is_tree s)))) by (by apply ksorted_NoDup).
    assert (Hkp : keys (to_list (is_tree s)) ≡ₚ tname :: keys (to_list tree'))
      by (exact (Permutation_map fst Hperm)).
    rewrite Hkp in Hnd. apply NoDup_cons in Hnd as [Hnin _].
    setoid_rewrite Hkc. setoid_rewrite Hkp. setoid_rewrite elem_of_cons. split.
    - intros (x & [[?|Hx] ?] & ?); [done|eauto].
    - intros (x & Hx & ?). exists x. split; [auto|]. by intros ->. }
  cbn [read_entry]. rewrite Hit. cbn [ie_bits ie_object ie_request].
  set (T1 := tset (is_table s) i _).
  pose proof (Local.local_insert_frame T1 (is_table_size s) (ite_object it) i) as Hf.
  assert (Hslot := fun T2 => moved_slot (is_table s) T2 i
    (Z.lor (ite_bits it) (MACH_PORT_GEN tname)) (ite_object it) (ite_request it)). fold T1 in Hslot.
  assert (HT1 : tlen T1 = tlen (is_table s)) by (unfold T1; by rewrite tlen_tset).
  exists tname, tp, it, tree'.
  set (T2 := if IE_BITS_TYPE (ite_bits it) =? MACH_PORT_TYPE_SEND
             then Local.ipc_hash_local_insert T1 (is_table_size s) (ite_object it) i else T1).
  set (c := match ipc_splay_tree_pick (ipc_splay_tree_delete collisions tname) with
            | Some _ => true | None => false end).
  destruct (Hslot T2 c) as (Hlen' & Hother & Hself); [lia|..].
  { intros j. unfold T2. destruct (_ =? _); [|done]. apply Hf. }
  { unfold T2. destruct (_ =? _); [|done]. rewrite <- HT1. apply (Hf 0). }
  exists (if c then tset T2 i (fun e => set_bits (Z.lor (ie_bits e) IE_BITS_COLLISION) e) else T2),
    (if IE_BITS_TYPE (ite_bits it) =? MACH_PORT_TYPE_SEND then u32 (is_tree_hash s - 1) else is_tree_hash s), c.
  split_and!; [done..| |exact Hlen'|exact Hother|exact Hself|].
  - rewrite <- Htot. unfold c, T2, tree'.
    by destruct (_ =? _), (ipc_splay_tree_pick (ipc_splay_tree_delete _ _)).
  - rewrite <- Hcoll. unfold c. by destruct (ipc_splay_tree_pick (ipc_splay_tree_delete _ _)).
Qed.

Lemma moved_bits b gen (c : bool) :
  tree_bits b -> gen_ok gen ->
  let b' := if c then Z.lor (Z.lor b gen) IE_BITS_COLLISION else Z.lor b gen in
  IE_BITS_TYPE b' = IE_BITS_TYPE b /\ IE_BITS_GEN b' = gen /\ u32_range b' /\
  has b' IE_BITS_COLLISION = c /\ Z.land b' IE_BITS_RIGHT_MASK = Z.land b IE_BITS_RIGHT_MASK.
Proof.
  intros Hb Hg. pose proof (tree_bits_lor_range _ _ Hb Hg). destruct c; simpl;
    rewrite ?TYPE_lor_COLLISION, ?GEN_lor_COLLISION, ?RIGHT_lor_COLLISION, ?COLLISION_lor,
      ?TYPE_tree_gen, ?GEN_tree_gen, ?RIGHT_tree_gen, ?COLLISION_tree_gen by done; split_and!; try done.
  by apply lor_range, COLLISION_range.
Qed.

Section collision.
Context (hole : option Z) (s s' : ipc_space) (name i tname : Z) (tp : ite_ptr) (it : ipc_tree_entry)
  (tree : ipc_splay_tree (E := ite_ptr)) (T' : list ipc_entry) (h : Z) (c : bool).
Context (Hinv : space_inv hole s) (Hhole : hole = None \/ hole = Some name)
  (Hd : denotes hole s name (TableEntry i)).
Context (Hin : (tname, tp) ∈ to_list (is_tree s)) (Hti : MACH_PORT_INDEX tname = i)
  (Hit : is_ites s !! tp = Some it) (Hok : splay_ok tree)
  (Hperm : to_list (is_tree s) ≡ₚ (tname, tp) :: to_list tree)
  (Hs' : s' = mk_space (is_active s) (is_growing s) T' (is_table_size s) (is_table_next s) tree
     (delete tp (is_ites s)) (is_tree_total s - 1) (is_tree_small s) h)
  (Hlen : tlen T' = tlen (is_table s))
  (Hother : forall j, 0 <= j -> j <> i ->
     Local.rights_of (tget T' j) = Local.rights_of (tget (is_table s) j))
  (Hself : Local.rights_of (tget T' i) =
     (let b := Z.lor (ite_bits it) (MACH_PORT_GEN tname) in if c then Z.lor b IE_BITS_COLLISION else b,
      ite_object it, ite_request it))
  (Hc : c = true <-> exists x, x ∈ keys (to_list tree) /\ MACH_PORT_INDEX x = i).

Lemma collision_other j : 0 <= j -> j <> i ->
  tbits T' j = tbits (is_table s) j /\ ie_object (tget T' j) = ie_object (tget (is_table s) j) /\
  ie_request (tget T' j) = ie_request (tget (is_table s) j).
Proof. intros Hj Hne. pose proof (Hother j Hj Hne) as Heq. unfold Local.rights_of in Heq. by injection Heq. Qed.

Lemma collision_self :
  IE_BITS_TYPE (tbits T' i) = IE_BITS_TYPE (ite_bits it) /\ IE_BITS_TYPE (ite_bits it) <> 0 /\
  IE_BITS_GEN (tbits T' i) = MACH_PORT_GEN tname /\ u32_range (tbits T' i) /\
  has (tbits T' i) IE_BITS_COLLISION = c /\
  content s' (TableEntry i) = content s (TreeEntry tp) /\ MACH_PORT_MAKEB i (tbits T' i) = tname.
Proof.
  pose proof Hinv as [_ I].
  destruct (i_ites _ _ _ _ _ _ _ _ I tname tp Hin) as (it' & Hit' & Htb & Hor).
  rewrite Hit in Hit'. injection Hit' as <-.
  unfold Local.rights_of in Hself. injection Hself as Hb Ho Hr. fold (tbits T' i) in Hb.
  destruct (moved_bits (ite_bits it) (MACH_PORT_GEN tname) c Htb (gen_ok_GEN _))
    as (Hty & Hge & Hra & Hco & Hri). rewrite <- Hb in *.
  split_and!; try done.
  - destruct Hor as [?|Hh]; [done|]. destruct Hhole as [->| ->]; [done|]. injection Hh as ->.
    exfalso. by eapply denotes_exclusive.
  - unfold content. rewrite Hs'. simpl. fold (tbits T' i). by rewrite Hit, Hri, Ho, Hr.
  - unfold MACH_PORT_MAKEB. rewrite Hge, <- Hti. apply MAKE_INDEX_GEN.
    eapply i_names; [done|]. by eapply elem_of_keys_pair.
Qed.

Lemma collision_used j : 0 < j < is_table_size s -> used None T' j <-> used hole (is_table s) j.
Proof.
  intros Hj. destruct (table_denotes_index _ _ _ _ Hinv Hd) as (Hni & Hi & Hu & _).
  destruct (Z.eq_dec j i) as [->|Hne].
  - split; [done|]. intros _. left. destruct collision_self as (-> & ? & _). done.
  - destruct (collision_other j) as [Hb _]; [lia|done|]. rewrite (used_ext None (is_table s)) by done.
    split; [apply used_weaken|]. apply (used_not_hole _ _ name); [done..|congruence].
Qed.

Lemma collision_keys x : x ∈ keys (to_list (is_tree s)) <-> x = tname \/ x ∈ keys (to_list tree).
Proof. unfold keys. rewrite (Permutation_map fst Hperm). simpl. by rewrite elem_of_cons. Qed.

Lemma collision_fresh : (tname ∉ keys (to_list tree)) /\ (forall x q, (x, q) ∈ to_list tree -> q <> tp).
Proof.
  pose proof Hinv as [_ I]. split.
  - pose proof (ksorted_NoDup _ (i_sorted _ _ _ _ _ _ _ _ I)) as Hnd.
    unfold keys in Hnd. rewrite (Permutation_map fst Hperm) in Hnd. by apply NoDup_cons in Hnd as [? _].
  - intros x q Hq ->. pose proof (i_ptrs _ _ _ _ _ _ _ _ I) as Hnd.
    rewrite (Permutation_map snd Hperm) in Hnd. apply NoDup_cons in Hnd as [Hnd _]. apply Hnd.
    apply list_elem_of_fmap. by exists (x, tp).
Qed.

Lemma collision_inv : space_inv None s'.
Proof.
  pose proof Hinv as [_ I]. destruct (table_denotes_index _ _ _ _ Hinv Hd) as (Hni & Hi & Hu & _).
  destruct collision_self as (Hty & Htn & Hge & Hra & Hco & _ & _).
  destruct collision_fresh as [Hfresh Hptr].
  pose proof (i_bits _ _ _ _ _ _ _ _ I) as Hbr. pose proof (i_names _ _ _ _ _ _ _ _ I) as Hnames.
  rewrite Hs'. split; [done|]. simpl. split; try (by apply I).
  - by rewrite Hlen, (i_len _ _ _ _ _ _ _ _ I).
  - intros j Hj. destruct (Z.eq_dec j i) as [->|]; [done|].
    destruct (collision_other j) as [-> _]; [lia|done|]. by apply Hbr.
  - destruct (i_free _ _ _ _ _ _ _ _ I) as (fl & Hch & Hnd & Hfl). exists fl. split_and!; [|done|].
    + apply (chain_ext (is_table s)); [|done]. intros j Hj. unfold ie_next.
      apply collision_other; destruct Hj as [->|Hj]; try lia; apply Hfl in Hj as [? Hnu]; [lia|by intros ->].
    + intros j. rewrite Hfl. split; intros [Hj Hnu]; (split; [done|]); by rewrite collision_used in *.
  - intros j Hj Hnu. rewrite collision_used in Hnu by done.
    destruct (collision_other j) as (-> & -> & _); [lia|by intros ->|]. by apply (i_clean _ _ _ _ _ _ _ _ I).
  - destruct (collision_other 0) as (-> & _); [lia..|]. apply I.
  - destruct (collision_other 0) as (-> & _); [lia..|]. apply I.
  - intros x Hx. apply Hnames, collision_keys. by right.
  - intros x Hx. apply (i_valid _ _ _ _ _ _ _ _ I), collision_keys. by right.
  - by apply splay_ok_sorted.
  - pose proof (i_ptrs _ _ _ _ _ _ _ _ I) as Hnd. rewrite (Permutation_map snd Hperm) in Hnd.
    by apply NoDup_cons in Hnd as [_ ?].
  - intros x q Hx. rewrite lookup_delete_ne by (intros <-; by eapply Hptr).
    assert (Hx' : (x, q) ∈ to_list (is_tree s)) by (rewrite Hperm; apply elem_of_cons; by right).
    destruct (i_ites _ _ _ _ _ _ _ _ I x q Hx') as (it' & ? & ? & Hor). exists it'. split_and!; [done..|].
    left. destruct Hor as [?|Hh]; [done|]. destruct Hhole as [->| ->]; [done|]. injection Hh as ->.
    exfalso. by eapply denotes_exclusive.
  - intros x Hx Hlt. assert (Hx' : x ∈ keys (to_list (is_tree s))) by (apply collision_keys; by right).
    destruct (i_coll _ _ _ _ _ _ _ _ I x Hx' Hlt) as (Hxc & Hxu & Hxg).
    pose proof (INDEX_range _ (Hnames x Hx')) as Hxr.
    destruct (Z.eq_dec (MACH_PORT_INDEX x) i) as [Heq|Hne].
    + rewrite Heq in *. rewrite Hco, Hge. split_and!; [by apply Hc; eauto| |].
      * right. by apply collision_used.
      * intros Hg. apply Hfresh. replace tname with x; [done|].
        apply name_eq; [by apply Hnames|..|congruence|done]. apply Hnames, collision_keys. by left.
    + destruct (collision_other (MACH_PORT_INDEX x)) as [-> _]; [lia|done|]. split_and!; [done| |done].
      destruct (Z.eq_dec (MACH_PORT_INDEX x) 0); [by left|right]. apply collision_used; [lia|]. by destruct Hxu.
  - intros j Hj Hjc. destruct (Z.eq_dec j i) as [->|Hne].
    + rewrite Hco in Hjc. by apply Hc.
    + destruct (collision_other j) as [Hjb _]; [lia|done|]. rewrite Hjb in Hjc.
      destruct (i_coll' _ _ _ _ _ _ _ _ I j Hj Hjc) as (x & Hx & Hxj). exists x. split; [|done].
      apply collision_keys in Hx as [->|Hx]; [congruence|done].
  - rewrite (i_total _ _ _ _ _ _ _ _ I), Hperm. simpl. lia.
  - rewrite (i_small _ _ _ _ _ _ _ _ I), (small_set_perm _ _ _ _ Hperm), small_set_cons_size.
    rewrite Hti, (proj2 (Z.leb_gt _ _)) by lia. done.
Qed.

Lemma collision_means name' e : means None s' name' e <-> name' <> name /\ means hole s name' e.
Proof.
  pose proof Hinv as [_ I]. destruct (table_denotes_index _ _ _ _ Hinv Hd) as (Hni & Hi & Hu & _).
  destruct collision_self as (_ & _ & _ & _ & _ & Hcont & Hmk).
  destruct collision_fresh as [Hfresh Hptr]. rewrite !means_cases.
  assert (Hct : forall q, (name', q) ∈ to_list tree -> content s' (TreeEntry q) = content s (TreeEntry q)).
  { intros q Hq. unfold content. rewrite Hs'. simpl. by rewrite lookup_delete_ne by (intros <-; by eapply Hptr). }
  assert (Hcj : forall j, 0 <= j -> j <> i -> content s' (TableEntry j) = content s (TableEntry j) /\
                  tbits T' j = tbits (is_table s) j).
  { intros j Hj Hne. destruct (collision_other j Hj Hne) as (Hb & Ho & Hr). split; [|done].
    unfold content. rewrite Hs'. simpl. unfold tbits in Hb. by rewrite Hb, Ho, Hr. }
  setoid_rewrite denotes_TableEntry.
  assert (Hproj : is_table s' = T' /\ is_table_size s' = is_table_size s /\ is_tree s' = tree)
    by (by rewrite Hs'). destruct Hproj as (-> & -> & ->). split.
  - intros [(j & (Hj & Hju & Hn) & Hce)|(q & Hq & Hce)].
    + rewrite collision_used in Hju by done. destruct (Z.eq_dec j i) as [->|Hne].
      * rewrite Hn, Hmk in *. split; [|right; exists tp; by rewrite <- Hcont].
        intros ->. by eapply denotes_exclusive.
      * destruct (Hcj j) as [Hcj1 Hcj2]; [lia|done|]. rewrite Hcj1 in Hce. rewrite Hcj2 in Hn.
        split; [|by left; exists j]. rewrite Hn. eapply table_other; done.
    + split; [|right; exists q; rewrite <- Hct by done; split; [|done]; rewrite Hperm; apply elem_of_cons; by right].
      intros ->. eapply denotes_exclusive; [done|done|]. rewrite Hperm. apply elem_of_cons. by right.
  - intros [Hne [(j & (Hj & Hju & Hn) & Hce)|(q & Hq & Hce)]].
    + assert (Hji : j <> i) by (intros ->; apply Hne; rewrite Hn; by inversion Hd).
      destruct (Hcj j) as [Hcj1 Hcj2]; [lia|done|]. left. exists j.
      rewrite Hcj1, Hcj2, collision_used by done. done.
    + rewrite Hperm in Hq. apply elem_of_cons in Hq as [[= -> ->]|Hq].
      * left. exists i. rewrite Hcont, Hmk, collision_used by done. done.
      * right. exists q. by rewrite Hct.
Qed.
End collision.

Lemma dealloc_spec hole s g name r :
  space_inv hole s -> hole = None \/ hole = Some name ->
  denotes hole s name r -> ie_object (read_entry s r) = IO_NULL ->
  deallocated hole s (ipc_entry_dealloc addr s g name r).1 name.
Proof.
  intros Hinv Hhole Hd Hobj. destruct r as [i|p]; [|by apply dealloc_tree].
  destruct (has (tbits (is_table s) i) IE_BITS_COLLISION) eqn:Hc; [|by apply dealloc_free_slot].
  destruct (dealloc_collision_shape hole s g name i Hinv Hd Hc)
    as (tname & tp & it & tree & T' & h & c & ? & ? & ? & ? & ? & ? & ? & ? & ? & ?).
  split; [by eapply collision_inv|]. intros. by eapply collision_means.
Qed.
End dealloc.
