(* ===== verification/Grow.v ===== *)
(** * Growing the table of a space (ipc/ipc_entry.c, ipc_entry_grow_table)

    The larger table takes over the entries of the old one, entries of the
    splay tree whose index now fits move into it, and the rest of the new part
    joins the free list.  [grow_install_spec]: the invariant holds for the new
    size, and every name means what it meant before.

    While the tree entries are moved the invariant of the space does not hold;
    [ginv] is what holds instead: the names in [todo] are still in the tree
    although their index fits. *)

From S2P Require Import Prelude Names Splay Table Space Hash Entry EntryInv Alloc Dealloc.

Section grow.
Context `{PortConfig} `{!EntrySizes}.
Context (addr : Z) (env : environment).

Definition capability (bits object request : Z) : Z * Z * Z :=
  (Z.land bits IE_BITS_RIGHT_MASK, object, request).

(** The meaning of names given by a table and a list of tree entries. *)
Definition vmeans (T : list ipc_entry) (size : Z) (L : list (Z * ite_ptr))
    (ites : gmap ite_ptr ipc_tree_entry) (name : Z) (c : Z * Z * Z) : Prop :=
  (exists i, 0 < i < size /\ used None T i /\ name = MACH_PORT_MAKEB i (tbits T i) /\
     capability (tbits T i) (ie_object (tget T i)) (ie_request (tget T i)) = c) \/
  (exists p it, (name, p) ∈ L /\ ites !! p = Some it /\
     capability (ite_bits it) (ite_object it) (ite_request it) = c).

Lemma means_vmeans s name c :
  space_inv None s ->
  means None s name c <->
  vmeans (is_table s) (is_table_size s) (to_list (is_tree s)) (is_ites s) name c.
Proof.
  intros [_ I]. rewrite means_cases. unfold vmeans. setoid_rewrite denotes_TableEntry. split.
  - intros [(i & (? & ? & ?) & ?)|(p & Hp & Hc)]; [left; eauto 10|right].
    destruct (i_ites _ _ _ _ _ _ _ _ I _ _ Hp) as (it & Hit & _). exists p, it.
    unfold content in Hc. simpl in Hc. rewrite Hit in Hc. done.
  - intros [(i & ? & ? & ? & ?)|(p & it & Hp & Hit & Hc)]; [left; eauto 10|right].
    exists p. split; [done|]. unfold content. simpl. by rewrite Hit.
Qed.

Record ginv (osize : Z) (T : list ipc_entry) (size : Z) (L todo : list (Z * ite_ptr))
    (ites : gmap ite_ptr ipc_tree_entry) (total : Z) : Prop := {
  g_len : tlen T = size;
  g_size : 0 < osize <= size /\ size <= index_limit;
  g_bits : forall i, 0 <= i < size -> u32_range (tbits T i);
  g_free : exists fl, chain T 0 fl /\ NoDup fl /\
    forall i, i ∈ fl <-> 0 < i < osize /\ ~ used None T i;
  g_clean : forall i, 0 < i < osize -> ~ used None T i ->
    gen_ok (tbits T i) /\ ie_object (tget T i) = IO_NULL;
  g_new : forall i, osize <= i < size -> ~ used None T i ->
    Local.rights_of (tget T i) = (0, IO_NULL, 0);
  g_zero : IE_BITS_TYPE (tbits T 0) = 0;
  g_zero_gen : IE_BITS_GEN (tbits T 0) = IE_BITS_GEN_MASK;
  g_names : forall x, x ∈ keys L -> u32_range x;
  g_valid : forall x, x ∈ keys L -> MACH_PORT_VALID x = true;
  g_nodup : NoDup (keys L);
  g_ptrs : NoDup (map snd L);
  g_ites : forall x p, (x, p) ∈ L -> exists it, ites !! p = Some it /\
    tree_bits (ite_bits it) /\ IE_BITS_TYPE (ite_bits it) <> 0;
  g_coll : forall x, x ∈ keys L -> MACH_PORT_INDEX x < size -> x ∉ keys todo ->
    has (tbits T (MACH_PORT_INDEX x)) IE_BITS_COLLISION = true /\
    (MACH_PORT_INDEX x = 0 \/ used None T (MACH_PORT_INDEX x));
  g_gen : forall x, x ∈ keys L -> MACH_PORT_INDEX x < size ->
    MACH_PORT_INDEX x < osize \/ used None T (MACH_PORT_INDEX x) ->
    IE_BITS_GEN (tbits T (MACH_PORT_INDEX x)) <> MACH_PORT_GEN x;
  g_coll' : forall i, 0 <= i < size -> has (tbits T i) IE_BITS_COLLISION = true ->
    exists x, x ∈ keys L /\ MACH_PORT_INDEX x = i;
  g_todo : forall x, x ∈ keys todo -> x ∈ keys L /\ osize <= MACH_PORT_INDEX x < size;
  g_total : total = Z.of_nat (length L)
}.

Lemma ginv_perm osize T size L L' todo ites total :
  L ≡ₚ L' -> ginv osize T size L todo ites total -> ginv osize T size L' todo ites total.
Proof.
  intros Hp G. assert (Hk : keys L ≡ₚ keys L') by (exact (Permutation_map fst Hp)).
  split; try (by apply G).
  - intros x. rewrite <- Hk. apply G.
  - intros x. rewrite <- Hk. apply G.
  - rewrite <- Hk. apply G.
  - rewrite <- (Permutation_map snd Hp). apply G.
  - intros x p. rewrite <- Hp. apply G.
  - intros x. rewrite <- Hk. apply G.
  - intros x. rewrite <- Hk. apply G.
  - intros i Hi Hc. destruct (g_coll' _ _ _ _ _ _ _ G i Hi Hc) as (x & Hx). exists x. by rewrite <- Hk.
  - intros x. rewrite <- Hk. apply G.
  - rewrite <- Hp. apply G.
Qed.

Lemma vmeans_perm T size L L' ites name c :
  L ≡ₚ L' -> vmeans T size L ites name c <-> vmeans T size L' ites name c.
Proof. intros Hp. unfold vmeans. by setoid_rewrite Hp. Qed.

(** The reverse hash table is not part of the meaning. *)
Definition same_rights (T T' : list ipc_entry) : Prop :=
  tlen T' = tlen T /\ forall i, Local.rights_of (tget T' i) = Local.rights_of (tget T i).

Lemma same_rights_get T T' i :
  same_rights T T' ->
  tbits T' i = tbits T i /\ ie_object (tget T' i) = ie_object (tget T i) /\
  ie_request (tget T' i) = ie_request (tget T i).
Proof. intros [_ Hs]. specialize (Hs i). unfold Local.rights_of in Hs. by injection Hs. Qed.

Lemma same_rights_trans T T' T'' : same_rights T T' -> same_rights T' T'' -> same_rights T T''.
Proof. intros [H1 H2] [H3 H4]. split; [congruence|]. intros i. by rewrite H4. Qed.

Lemma same_rights_ginv osize T T' size L todo ites total :
  same_rights T T' -> ginv osize T size L todo ites total -> ginv osize T' size L todo ites total.
Proof.
  intros Hs G. assert (Hb : forall i, tbits T' i = tbits T i) by (intros; by apply same_rights_get).
  assert (Ho : forall i, ie_object (tget T' i) = ie_object (tget T i)) by (intros; by apply same_rights_get).
  assert (Hr : forall i, ie_request (tget T' i) = ie_request (tget T i)) by (intros; by apply same_rights_get).
  assert (Hu : forall i, used None T' i <-> used None T i) by (intros; by apply used_ext).
  split; try (by apply G).
  - rewrite (proj1 Hs). apply G.
  - intros i. rewrite Hb. apply G.
  - destruct (g_free _ _ _ _ _ _ _ G) as (fl & Hc & Hnd & Hfl). exists fl. split_and!; [|done|].
    + apply (chain_ext T); [|done]. intros j _. apply Hr.
    + intros i. by rewrite Hfl, Hu.
  - intros i. rewrite Hb, Ho, Hu. apply G.
  - intros i. rewrite (proj2 Hs), Hu. apply G.
  - rewrite Hb. apply G.
  - rewrite Hb. apply G.
  - intros x. rewrite Hb, Hu. apply G.
  - intros x. rewrite Hb, Hu. apply G.
  - intros i. rewrite Hb. apply G.
Qed.

Lemma same_rights_vmeans T T' size L ites name c :
  same_rights T T' -> vmeans T' size L ites name c <-> vmeans T size L ites name c.
Proof.
  intros Hs. unfold vmeans. setoid_rewrite (fun i => used_ext None T T' i (proj1 (same_rights_get T T' i Hs))).
  setoid_rewrite (fun i => proj1 (same_rights_get T T' i Hs)).
  setoid_rewrite (fun i => proj1 (proj2 (same_rights_get T T' i Hs))).
  by setoid_rewrite (fun i => proj2 (proj2 (same_rights_get T T' i Hs))).
Qed.

(** ** One tree entry *)

(** The slot is taken: the entry stays in the tree, the slot gets the
    collision bit. *)
Lemma keep_step osize T size L x p todo ites total :
  ginv osize T size L ((x, p) :: todo) ites total ->
  used None T (MACH_PORT_INDEX x) ->
  x ∉ keys todo ->
  let T' := tset T (MACH_PORT_INDEX x) (set_bits (Z.lor (tbits T (MACH_PORT_INDEX x)) IE_BITS_COLLISION)) in
  ginv osize T' size L todo ites total /\
  forall name c, vmeans T' size L ites name c <-> vmeans T size L ites name c.
Proof.
  intros G Hu Hnd T'. set (index := MACH_PORT_INDEX x) in *.
  destruct (g_todo _ _ _ _ _ _ _ G x) as [HxL Hxi]; [simpl; apply elem_of_cons; by left|].
  fold index in Hxi. destruct (g_size _ _ _ _ _ _ _ G) as [Hos Hsz].
  pose proof (g_len _ _ _ _ _ _ _ G) as Hlen.
  assert (Heq : T' = tset T index (fun e => set_bits (Z.lor (ie_bits e) IE_BITS_COLLISION) e)).
  { apply table_ext; unfold T'; rewrite !tlen_tset; [done|]. intros i Hi.
    rewrite !tget_tset by lia. destruct (Z.eqb_spec index i) as [<-|]; done. }
  assert (Hsame : same_but_collision T T').
  { rewrite Heq. apply (same_but_collision_set _ _ true). lia. }
  assert (Hget : forall i, 0 <= i -> i <> index -> tget T' i = tget T i).
  { intros i ? ?. unfold T'. by rewrite tget_tset_ne by lia. }
  assert (Hused : forall i, 0 <= i < size -> used None T' i <-> used None T i).
  { intros i Hi. apply same_but_collision_used; [done|lia]. }
  pose proof Hsame as [Hlen' Hs]. pose proof (g_names _ _ _ _ _ _ _ G) as Hnames.
  assert (Hcoll : forall i, 0 <= i < size -> has (tbits T' i) IE_BITS_COLLISION =
            if index =? i then true else has (tbits T i) IE_BITS_COLLISION).
  { intros i Hi. rewrite Heq, tbits_tset by lia. destruct (Z.eqb_spec index i) as [<-|]; [|done].
    simpl. apply COLLISION_lor. }
  split.
  - split; try (by apply G).
    + by rewrite Hlen'.
    + intros i Hi. apply Hs; [lia|]. by apply (g_bits _ _ _ _ _ _ _ G).
    + destruct (g_free _ _ _ _ _ _ _ G) as (fl & Hc & Hndf & Hfl). exists fl. split_and!; [|done|].
      * apply (chain_ext T); [|done]. intros j Hj. unfold ie_next. apply Hs.
        destruct Hj as [->|Hj]; [lia|]. apply Hfl in Hj. lia.
      * intros i. rewrite Hfl. split; intros [Hi Hnu]; (split; [done|]); by rewrite Hused in * by lia.
    + intros i Hi Hnu. rewrite Hused in Hnu by lia. unfold tbits.
      rewrite Hget by lia. by apply (g_clean _ _ _ _ _ _ _ G).
    + intros i Hi Hnu. rewrite Hused in Hnu by lia. rewrite Hget; [|lia|by intros ->].
      by apply (g_new _ _ _ _ _ _ _ G).
    + destruct (Hs 0) as (_ & _ & -> & _); [lia|]. apply G.
    + destruct (Hs 0) as (_ & _ & _ & -> & _); [lia|]. apply G.
    + intros y Hy Hlt Hny. pose proof (INDEX_range _ (Hnames y Hy)). rewrite Hcoll, Hused by lia.
      destruct (Z.eqb_spec index (MACH_PORT_INDEX y)) as [Hiy|]; [rewrite <- Hiy; auto|].
      apply (g_coll _ _ _ _ _ _ _ G); [done..|]. simpl. apply not_elem_of_cons. split; [|done].
      intros ->. done.
    + intros y Hy Hlt. pose proof (INDEX_range _ (Hnames y Hy)). rewrite Hused by lia.
      destruct (Hs (MACH_PORT_INDEX y)) as (_ & _ & _ & -> & _); [lia|]. by apply (g_gen _ _ _ _ _ _ _ G).
    + intros i Hi. rewrite Hcoll by done. destruct (Z.eqb_spec index i) as [<-|]; [by eauto|].
      by apply (g_coll' _ _ _ _ _ _ _ G).
    + intros y Hy. apply (g_todo _ _ _ _ _ _ _ G). simpl. apply elem_of_cons. by right.
  - intros name c. unfold vmeans, capability. f_equiv. f_equiv. intros i. split;
      intros (Hi & Hiu & Hn & Hc); destruct (Hs i) as (Ho & Hr & _ & Hg & Hrm & _); try lia;
      rewrite Hused in * by lia; unfold MACH_PORT_MAKEB in *; rewrite Ho, Hr, Hg, Hrm in *; done.
Qed.

(** The slot is free: the entry moves into the table. *)
Section move.
Context (osize : Z) (T : list ipc_entry) (size : Z) (L : list (Z * ite_ptr)) (x : Z) (p : ite_ptr)
  (it : ipc_tree_entry) (todo : list (Z * ite_ptr)) (ites : gmap ite_ptr ipc_tree_entry) (total : Z).
Context (G : ginv osize T size ((x, p) :: L) ((x, p) :: todo) ites total).
Context (Hfree : ~ used None T (MACH_PORT_INDEX x)) (Hit : ites !! p = Some it) (Hnd : x ∉ keys todo).

#[local] Abbreviation index := (MACH_PORT_INDEX x).
#[local] Abbreviation T' := (tset T (MACH_PORT_INDEX x) (fun e =>
  mk_entry (Z.lor (ite_bits it) (MACH_PORT_GEN x)) (ite_object it) (ite_request it) (ie_index e))).

Lemma move_index : osize <= index < size /\ 0 < osize /\ tlen T = size.
Proof.
  destruct (g_todo _ _ _ _ _ _ _ G x) as [_ ?]; [simpl; apply elem_of_cons; by left|].
  pose proof (g_size _ _ _ _ _ _ _ G). split_and!; [lia..|]. apply G.
Qed.

Lemma move_other i : 0 <= i -> i <> index -> tget T' i = tget T i.
Proof. pose proof move_index. intros ? ?. by rewrite tget_tset_ne by lia. Qed.

Lemma move_self :
  tget T' index = mk_entry (Z.lor (ite_bits it) (MACH_PORT_GEN x)) (ite_object it) (ite_request it)
                    (ie_index (tget T index)) /\
  IE_BITS_TYPE (tbits T' index) <> 0 /\ IE_BITS_GEN (tbits T' index) = MACH_PORT_GEN x /\
  u32_range (tbits T' index) /\ has (tbits T' index) IE_BITS_COLLISION = false /\
  Z.land (tbits T' index) IE_BITS_RIGHT_MASK = Z.land (ite_bits it) IE_BITS_RIGHT_MASK /\
  MACH_PORT_MAKEB index (tbits T' index) = x.
Proof.
  pose proof move_index. unfold tbits, MACH_PORT_MAKEB. rewrite tget_tset_eq by lia. simpl.
  destruct (g_ites _ _ _ _ _ _ _ G x p) as (it' & Hit' & Htb & Hty); [apply elem_of_cons; by left|].
  rewrite Hit in Hit'. injection Hit' as <-. pose proof (gen_ok_GEN x) as Hg.
  destruct (moved_bits (ite_bits it) (MACH_PORT_GEN x) false Htb Hg) as (Ht & Hge & Hr & Hc & Hri).
  rewrite Ht, Hge, Hc, Hri. split_and!; try done. apply MAKE_INDEX_GEN.
  apply (g_names _ _ _ _ _ _ _ G). simpl. apply elem_of_cons. by left.
Qed.

Lemma move_used i : 0 <= i < size -> used None T' i <-> i = index \/ used None T i.
Proof.
  intros Hi. destruct (Z.eq_dec i index) as [->|Hne].
  - split; [by left|]. intros _. left. apply move_self.
  - assert (Hb : tbits T' i = tbits T i) by (unfold tbits; by rewrite move_other by lia).
    rewrite (used_ext None T T' i Hb). naive_solver.
Qed.

Lemma move_fresh : (x ∉ keys L) /\ (forall y q, (y, q) ∈ L -> q <> p).
Proof.
  pose proof (g_nodup _ _ _ _ _ _ _ G) as H1. pose proof (g_ptrs _ _ _ _ _ _ _ G) as H2.
  simpl in H1, H2. apply NoDup_cons in H1 as [H1 _], H2 as [H2 _]. split; [done|].
  intros y q Hq ->. apply H2. apply list_elem_of_fmap. by exists (y, p).
Qed.

Lemma move_ginv : ginv osize T' size L todo (delete p ites) (total - 1).
Proof.
  destruct move_index as (Hxi & Hos & Hlen). destruct move_fresh as [Hfx Hfp].
  destruct move_self as (Hself & Hty & Hge & Hra & Hco & _ & Hmk).
  assert (HL : forall y, y ∈ keys L -> y ∈ keys ((x, p) :: L)) by (intros; simpl; apply elem_of_cons; by right).
  pose proof (g_names _ _ _ _ _ _ _ G) as Hnames.
  assert (Hbi : forall i, 0 <= i -> i <> index -> tbits T' i = tbits T i)
    by (intros; unfold tbits; by rewrite move_other).
  split; try (by apply G).
  - by rewrite tlen_tset.
  - intros i Hi. destruct (Z.eq_dec i index) as [->|]; [done|]. rewrite Hbi by lia.
    by apply (g_bits _ _ _ _ _ _ _ G).
  - destruct (g_free _ _ _ _ _ _ _ G) as (fl & Hc & Hndf & Hfl). exists fl. split_and!; [|done|].
    + apply (chain_ext T); [|done]. intros j Hj. rewrite move_other; [done|..];
        (destruct Hj as [->|Hj]; [lia|apply Hfl in Hj; lia]).
    + intros i. rewrite Hfl. split; intros [Hi Hnu]; (split; [done|]); rewrite move_used in * by lia;
        [|tauto]. intros [->|?]; [lia|done].
  - intros i Hi Hnu. rewrite move_used in Hnu by lia. rewrite Hbi, move_other by lia.
    apply (g_clean _ _ _ _ _ _ _ G); tauto.
  - intros i Hi Hnu. rewrite move_used in Hnu by lia. rewrite move_other by (lia || tauto).
    apply (g_new _ _ _ _ _ _ _ G); tauto.
  - rewrite Hbi by lia. apply G.
  - rewrite Hbi by lia. apply G.
  - intros y Hy. by apply Hnames, HL.
  - intros y Hy. by apply (g_valid _ _ _ _ _ _ _ G), HL.
  - pose proof (g_nodup _ _ _ _ _ _ _ G) as H1. simpl in H1. by apply NoDup_cons in H1 as [_ ?].
  - pose proof (g_ptrs _ _ _ _ _ _ _ G) as H1. simpl in H1. by apply NoDup_cons in H1 as [_ ?].
  - intros y q Hq. rewrite lookup_delete_ne by (intros <-; by eapply Hfp).
    apply (g_ites _ _ _ _ _ _ _ G y). apply elem_of_cons. by right.
  - intros y Hy Hlt Hny. pose proof (INDEX_range _ (Hnames y (HL y Hy))).
    destruct (g_coll _ _ _ _ _ _ _ G y (HL y Hy) Hlt) as [Hyc Hyu].
    { simpl. apply not_elem_of_cons. split; [|done]. by intros ->. }
    destruct (Z.eq_dec (MACH_PORT_INDEX y) index) as [Heq|Hne].
    { exfalso. rewrite Heq in Hyu. destruct Hyu; [lia|done]. }
    rewrite Hbi, move_used by lia. tauto.
  - intros y Hy Hlt Hor. pose proof (INDEX_range _ (Hnames y (HL y Hy))).
    destruct (Z.eq_dec (MACH_PORT_INDEX y) index) as [Heq|Hne].
    + rewrite Heq, Hge. intros Hg. apply Hfx. replace x with y; [done|]. apply name_eq; [..|done|done].
      * by apply Hnames, HL.
      * apply Hnames. simpl. apply elem_of_cons. by left.
    + rewrite Hbi by lia. rewrite move_used in Hor by lia.
      apply (g_gen _ _ _ _ _ _ _ G y (HL y Hy) Hlt). tauto.
  - intros i Hi Hc. destruct (Z.eq_dec i index) as [->|Hne]; [congruence|]. rewrite Hbi in Hc by lia.
    destruct (g_coll' _ _ _ _ _ _ _ G i Hi Hc) as (y & Hy & Hyi). exists y. split; [|done].
    simpl in Hy. apply elem_of_cons in Hy as [->|Hy]; [congruence|done].
  - intros y Hy. destruct (g_todo _ _ _ _ _ _ _ G y) as [HyL Hyi]; [simpl; apply elem_of_cons; by right|].
    split; [|done]. simpl in HyL. apply elem_of_cons in HyL as [->|?]; done.
  - rewrite (g_total _ _ _ _ _ _ _ G). simpl. lia.
Qed.

Lemma move_vmeans name c :
  vmeans T' size L (delete p ites) name c <-> vmeans T size ((x, p) :: L) ites name c.
Proof.
  destruct move_index as (Hxi & Hos & Hlen). destruct move_fresh as [Hfx Hfp].
  destruct move_self as (Hself & Hty & Hge & Hra & Hco & Hri & Hmk). unfold vmeans. split.
  - intros [(i & Hi & Hu & Hn & Hc)|(q & jt & Hq & Hjt & Hc)].
    + rewrite move_used in Hu by lia. destruct (Z.eq_dec i index) as [->|Hne].
      * right. exists p, it. rewrite Hmk in Hn. subst name. split; [apply elem_of_cons; by left|].
        split; [done|]. rewrite <- Hc. unfold capability. rewrite Hri, Hself. done.
      * left. exists i. unfold tbits in *. rewrite move_other in * by lia. naive_solver.
    + right. exists q, jt. rewrite lookup_delete_ne in Hjt by (intros <-; by eapply Hfp).
      split; [apply elem_of_cons; by right|done].
  - intros [(i & Hi & Hu & Hn & Hc)|(q & jt & Hq & Hjt & Hc)].
    + left. exists i. rewrite move_used by lia. assert (i <> index) by (intros ->; done).
      unfold tbits in *. rewrite move_other by lia. auto.
    + apply elem_of_cons in Hq as [[= -> ->]|Hq].
      * left. exists index. rewrite move_used, Hmk by lia. rewrite Hit in Hjt. injection Hjt as <-.
        split; [lia|]. split; [by left|]. split; [done|]. rewrite <- Hc. unfold capability.
        rewrite Hri, Hself. done.
      * right. exists q, jt. by rewrite lookup_delete_ne by (intros <-; by eapply Hfp).
Qed.
End move.

(** ** All the entries that move *)

Definition same_frame_fields (s s' : ipc_space) : Prop :=
  is_active s' = is_active s /\ is_growing s' = is_growing s /\ is_table_size s' = is_table_size s /\
  is_table_next s' = is_table_next s /\ is_tree s' = is_tree s /\ is_tree_small s' = is_tree_small s.

Lemma ginv_total_bound osize T size L todo ites total :
  ginv osize T size L todo ites total -> total <= u32_max + 1.
Proof.
  intros G. rewrite (g_total _ _ _ _ _ _ _ G). rewrite <- (length_map fst).
  enough (length (map fst L) <= Z.to_nat (u32_max + 1))%nat as Hle by (unfold u32_max in *; lia).
  apply range_length; [apply (g_nodup _ _ _ _ _ _ _ G)|].
  intros x Hx. pose proof (g_names _ _ _ _ _ _ _ G x Hx) as Hr. unfold u32_range, u32_max in *. lia.
Qed.

Lemma move_entry_spec osize size s g x p todo L :
  ginv osize (is_table s) size ((x, p) :: L) ((x, p) :: todo) (is_ites s) (is_tree_total s) ->
  x ∉ keys todo ->
  let '((s', g'), delete) := move_entry addr size (s, g) (x, p) in
  let L' := if delete then L else (x, p) :: L in
  ginv osize (is_table s') size L' todo (is_ites s') (is_tree_total s') /\ same_frame_fields s s' /\
  forall name c, vmeans (is_table s') size L' (is_ites s') name c <->
                 vmeans (is_table s) size ((x, p) :: L) (is_ites s) name c.
Proof.
  intros G Hnd. unfold move_entry. set (index := MACH_PORT_INDEX x).
  destruct (g_todo _ _ _ _ _ _ _ G x) as [_ Hxi]; [simpl; apply elem_of_cons; by left|].
  fold index in Hxi. fold (tbits (is_table s) index).
  destruct (g_ites _ _ _ _ _ _ _ G x p) as (it & Hit & Htb & Hty); [apply elem_of_cons; by left|].
  destruct (Z.eqb_spec (tbits (is_table s) index) 0) as [Hz|Hz]; cbn [negb]; cycle 1.
  - assert (Hu : used None (is_table s) index).
    { destruct (decide (used None (is_table s) index)) as [|Hnu]; [done|].
      pose proof (g_new _ _ _ _ _ _ _ G index Hxi Hnu) as Hr. unfold Local.rights_of in Hr.
      injection Hr as Hr _ _. done. }
    simpl. destruct (keep_step _ _ _ _ _ _ _ _ _ G Hu Hnd) as [G' Hm]. split_and!; done.
  - assert (Hnu : ~ used None (is_table s) index).
    { intros [Hu|Hu]; [|done]. rewrite Hz in Hu. done. }
    cbn [read_entry]. rewrite Hit. cbn [ie_bits ie_object ie_request].
    pose proof (move_ginv _ _ _ _ _ _ _ _ _ _ G Hnu Hit Hnd) as G'.
    pose proof (move_vmeans _ _ _ _ _ _ _ _ _ _ G Hnu Hit) as Hm.
    set (T1 := tset _ _ _) in *.
    assert (Htot : u32 (is_tree_total s - 1) = is_tree_total s - 1).
    { apply u32_id. pose proof (ginv_total_bound _ _ _ _ _ _ _ G).
      pose proof (g_total _ _ _ _ _ _ _ G) as Ht. simpl in Ht. unfold u32_range. lia. }
    destruct (IE_BITS_TYPE (ite_bits it) =? MACH_PORT_TYPE_SEND); simpl; fold T1; rewrite Htot.
    + assert (Hsame : same_rights T1 (Local.ipc_hash_local_insert T1 size (ite_object it) index)).
      { split; [apply (Local.local_insert_frame T1 size (ite_object it) index 0)|].
        intros i. apply (Local.local_insert_frame T1 size (ite_object it) index i). }
      split_and!; [by apply (same_rights_ginv _ T1)|done|].
      intros name c. by rewrite (same_rights_vmeans T1).
    + split_and!; done.
Qed.

Lemma visit_moves osize size todo : forall s g rest,
  ginv osize (is_table s) size (todo ++ rest) todo (is_ites s) (is_tree_total s) ->
  let '((s', g'), kept) := visit_all (move_entry addr size) (s, g) todo in
  ginv osize (is_table s') size (kept ++ rest) [] (is_ites s') (is_tree_total s') /\
  same_frame_fields s s' /\
  forall name c, vmeans (is_table s') size (kept ++ rest) (is_ites s') name c <->
                 vmeans (is_table s) size (todo ++ rest) (is_ites s) name c.
Proof.
  induction todo as [|[x p] todo IH]; intros s g rest G; [by split_and!|].
  cbn [visit_all].
  pose proof (g_nodup _ _ _ _ _ _ _ G) as Hnd. simpl in Hnd. apply NoDup_cons in Hnd as [Hnin _].
  pose proof (move_entry_spec osize size s g x p todo (todo ++ rest) G) as Hstep.
  destruct (move_entry addr size (s, g) (x, p)) as [[s1 g1] del]. destruct Hstep as (G1 & Hf1 & Hm1).
  { intros Hx. apply Hnin. rewrite keys_app. apply elem_of_app. by left. }
  pose proof (IH s1 g1 (if del then rest else (x, p) :: rest)) as IH1.
  assert (Hperm : (if del then todo ++ rest else (x, p) :: todo ++ rest) ≡ₚ
                  todo ++ (if del then rest else (x, p) :: rest)).
  { destruct del; [done|]. by rewrite Permutation_middle. }
  destruct (visit_all (move_entry addr size) (s1, g1) todo) as [[s2 g2] kept].
  destruct IH1 as (G2 & Hf2 & Hm2); [by apply (ginv_perm _ _ _ _ _ _ _ _ Hperm)|].
  assert (Hperm' : kept ++ (if del then rest else (x, p) :: rest) ≡ₚ
                   (if del then kept else (x, p) :: kept) ++ rest).
  { destruct del; [done|]. simpl. by rewrite Permutation_middle. }
  simpl. split_and!.
  - by apply (ginv_perm _ _ _ _ _ _ _ _ Hperm').
  - destruct Hf1 as (? & ? & ? & ? & ? & ?), Hf2 as (? & ? & ? & ? & ? & ?). split_and!; congruence.
  - intros name c. rewrite <- (vmeans_perm _ _ _ _ _ _ _ Hperm'), Hm2,
      <- (vmeans_perm _ _ _ _ _ _ _ Hperm). apply Hm1.
Qed.

(** ** Counting the small entries *)

Definition index_set (l : list (Z * ite_ptr)) : gset Z := list_to_set (map MACH_PORT_INDEX (keys l)).

Lemma elem_of_index_set l i : i ∈ index_set l <-> exists x, x ∈ keys l /\ MACH_PORT_INDEX x = i.
Proof. unfold index_set. rewrite elem_of_list_to_set, list_elem_of_fmap. naive_solver. Qed.

Lemma u32_add_l a b : u32 (u32 a + b) = u32 (a + b).
Proof. unfold u32. by rewrite Zplus_mod_idemp_l. Qed.

Lemma count_small_spec l : forall n idx,
  ksorted l -> (forall x, x ∈ keys l -> idx <= MACH_PORT_INDEX x) ->
  (visit_all count_small (n, idx) l).2 = l /\
  (visit_all count_small (n, idx) l).1.1 =
    if bool_decide (index_set l ∖ {[idx]} = ∅) then n
    else u32 (n + Z.of_nat (base.size (index_set l ∖ {[idx]}))).
Proof.
  induction l as [|[x p] l IH]; intros n idx Hs Hge.
  { simpl. split; [done|]. rewrite bool_decide_true; [done|]. set_solver. }
  apply ksorted_cons in Hs as [Hs Hlt]. cbn [visit_all count_small fst].
  pose proof (Hge x ltac:(simpl; apply elem_of_cons; by left)) as Hxi.
  assert (Hmono : forall y, y ∈ keys l -> MACH_PORT_INDEX x <= MACH_PORT_INDEX y).
  { intros y Hy. apply INDEX_mono. apply Hlt in Hy. lia. }
  assert (Hset : index_set ((x, p) :: l) = {[MACH_PORT_INDEX x]} ∪ index_set l).
  { unfold index_set. simpl. done. }
  rewrite Hset. destruct (Z.eqb_spec (MACH_PORT_INDEX x) idx) as [<-|Hne]; simpl.
  - destruct (IH n (MACH_PORT_INDEX x) Hs Hmono) as [H1 H2].
    destruct (visit_all count_small (n, MACH_PORT_INDEX x) l) as [[n' idx'] kept]. simpl in *. subst kept.
    split; [done|]. replace (({[MACH_PORT_INDEX x]} ∪ index_set l) ∖ {[MACH_PORT_INDEX x]})
      with (index_set l ∖ {[MACH_PORT_INDEX x]}) by set_solver. done.
  - destruct (IH (u32 (n + 1)) (MACH_PORT_INDEX x) Hs Hmono) as [H1 H2].
    destruct (visit_all count_small (u32 (n + 1), MACH_PORT_INDEX x) l) as [[n' idx'] kept].
    simpl in *. subst kept. split; [done|].
    assert (Heq : ({[MACH_PORT_INDEX x]} ∪ index_set l) ∖ {[idx]} =
                  {[MACH_PORT_INDEX x]} ∪ (index_set l ∖ {[MACH_PORT_INDEX x]})).
    { apply set_eq. intros i. rewrite elem_of_difference, !elem_of_union, !elem_of_singleton,
        elem_of_difference, elem_of_singleton, elem_of_index_set. split.
      - intros [[->|(y & Hy & <-)] Hni]; [by left|].
        destruct (Z.eq_dec (MACH_PORT_INDEX y) (MACH_PORT_INDEX x)); [by left|right; eauto].
      - intros [->|[(y & Hy & <-) Hni]]; [auto|]. split; [eauto|]. apply Hmono in Hy. lia. }
    rewrite Heq. rewrite (bool_decide_false (_ ∪ _ = ∅)) by set_solver.
    rewrite size_union by set_solver. rewrite size_singleton. rewrite H2. case_bool_decide as He.
    + by rewrite He, size_empty.
    + rewrite u32_add_l. f_equal. lia.
Qed.

Lemma small_set_bound lo hi L : 0 <= lo -> Z.of_nat (base.size (small_set lo hi L)) <= Z.max 0 hi.
Proof.
  intros Hlo. assert (Hl : (length (elements (small_set lo hi L)) <= Z.to_nat hi)%nat).
  { apply range_length; [apply NoDup_elements|]. intros i. rewrite elem_of_elements, elem_of_small_set. lia. }
  unfold base.size, set_size. simpl. lia.
Qed.

(** The traversal of the small part gives the new [is_tree_small]. *)
Lemma count_small_total lo hi L l :
  0 < lo -> hi <= u32_max -> ksorted l ->
  (forall x, x ∈ keys l <-> x ∈ keys L /\ lo <= MACH_PORT_INDEX x < hi) ->
  (visit_all count_small (0, 0) l).1.1 = Z.of_nat (base.size (small_set lo hi L)) /\
  (visit_all count_small (0, 0) l).2 = l.
Proof.
  intros Hlo Hhi Hs Hl. destruct (count_small_spec l 0 0 Hs) as [-> ->].
  { intros x Hx. apply Hl in Hx. lia. }
  assert (Heq : index_set l ∖ {[0]} = small_set lo hi L).
  { apply set_eq. intros i. rewrite elem_of_difference, elem_of_singleton, elem_of_index_set, elem_of_small_set.
    setoid_rewrite Hl. split; [naive_solver|]. intros (Hi & x & Hx & Hxi). split; [|lia].
    exists x. rewrite Hxi. auto. }
  rewrite Heq. split; [|done]. case_bool_decide as He; [by rewrite He, size_empty|].
  apply u32_id. pose proof (small_set_bound lo hi L ltac:(lia)). unfold u32_range, u32_max in *. lia.
Qed.

(** ** Transferring the tree *)

(** Splitting a tree at the first name of an index. *)
Lemma split_index s a small :
  splay_ok s -> 0 <= a <= index_limit ->
  let '(hi, lo) := ipc_splay_tree_split (E := ite_ptr) s (MACH_PORT_MAKE a 0) small in
  splay_ok hi /\ splay_ok lo /\ to_list s = to_list lo ++ to_list hi /\
  (forall x, x ∈ keys (to_list hi) <-> x ∈ keys (to_list s) /\ a <= MACH_PORT_INDEX x) /\
  (forall x, x ∈ keys (to_list lo) <-> x ∈ keys (to_list s) /\ MACH_PORT_INDEX x < a).
Proof.
  intros Hok Ha. pose proof (split_spec s (MACH_PORT_MAKE a 0) small Hok) as Hsp.
  destruct (ipc_splay_tree_split s _ _) as [hi lo].
  destruct Hsp as (Hok1 & Hok2 & H1 & H2); [apply MAKE_range; [done|apply gen_ok_0]|].
  rewrite H1, H2. split_and!; [done|done| | |].
  - symmetry. by apply below_from, splay_ok_sorted.
  - intros x. rewrite elem_of_keys_from. split; intros [Hx Hlt]; (split; [done|]);
      pose proof (name_lt_MAKE x a (splay_ok_range s x Hok Hx) Ha); lia.
  - intros x. rewrite elem_of_keys_below. split; intros [Hx Hlt]; (split; [done|]);
      pose proof (name_lt_MAKE x a (splay_ok_range s x Hok Hx) Ha); lia.
Qed.

(** Joining a tree whose indices are all smaller. *)
Lemma join_index s small a :
  splay_ok s -> splay_ok small ->
  (forall x, x ∈ keys (to_list s) -> a <= MACH_PORT_INDEX x) ->
  (forall x, x ∈ keys (to_list small) -> MACH_PORT_INDEX x < a) ->
  splay_ok (ipc_splay_tree_join (E := ite_ptr) s small).1 /\
  to_list (ipc_splay_tree_join s small).1 = to_list small ++ to_list s.
Proof.
  intros Hok1 Hok2 H1 H2. pose proof (join_spec s small Hok1 Hok2) as Hj.
  destruct (ipc_splay_tree_join s small) as [r e]. destruct Hj as (? & _ & ?); [|done].
  intros x y Hx Hy. apply H2 in Hx. apply H1 in Hy. destruct (Z_lt_le_dec x y) as [|Hle]; [done|].
  apply INDEX_mono in Hle. lia.
Qed.

Definition moving (osize size : Z) (L : list (Z * ite_ptr)) : list (Z * ite_ptr) :=
  filter (fun e => osize <= MACH_PORT_INDEX e.1 < size) L.

Lemma elem_of_moving osize size L x :
  x ∈ keys (moving osize size L) <-> x ∈ keys L /\ osize <= MACH_PORT_INDEX x < size.
Proof. unfold moving. rewrite !elem_of_keys. setoid_rewrite list_elem_of_filter. naive_solver. Qed.

Lemma ginv_todo osize T size L todo todo' ites total :
  (forall x, x ∈ keys todo <-> x ∈ keys todo') ->
  ginv osize T size L todo ites total -> ginv osize T size L todo' ites total.
Proof.
  intros Hk G. split; try (by apply G).
  - intros x Hx Hlt Hn. apply (g_coll _ _ _ _ _ _ _ G); [done..|]. by rewrite Hk.
  - intros x Hx. apply (g_todo _ _ _ _ _ _ _ G). by rewrite Hk.
Qed.

Lemma transfer_tree_spec osize size nsize s g :
  splay_ok (is_tree s) -> 0 < osize -> osize <= size <= nsize -> nsize <= index_limit ->
  (to_list (is_tree s) = [] -> is_tree_small s = 0) ->
  ginv osize (is_table s) size (to_list (is_tree s)) (moving osize size (to_list (is_tree s)))
    (is_ites s) (is_tree_total s) ->
  let s' := (transfer_tree addr osize size nsize s g).1 in
  ginv osize (is_table s') size (to_list (is_tree s')) [] (is_ites s') (is_tree_total s') /\
  splay_ok (is_tree s') /\ is_active s' = is_active s /\ is_growing s' = is_growing s /\
  is_table_size s' = is_table_size s /\ is_table_next s' = is_table_next s /\
  is_tree_small s' = Z.of_nat (base.size (small_set size nsize (to_list (is_tree s')))) /\
  forall name c, vmeans (is_table s') size (to_list (is_tree s')) (is_ites s') name c <->
                 vmeans (is_table s) size (to_list (is_tree s)) (is_ites s) name c.
Proof.
  intros Hok Hos Hsz Hlim Hempty G. unfold transfer_tree.
  destruct (Z.ltb_spec 0 (is_tree_total s)) as [Ht|Ht]; cycle 1.
  { assert (HL : to_list (is_tree s) = []).
    { rewrite (g_total _ _ _ _ _ _ _ G) in Ht. destruct (to_list (is_tree s)); [done|simpl in Ht; lia]. }
    simpl. rewrite HL in *. split_and!; try done. by rewrite Hempty. }
  set (L := to_list (is_tree s)) in *.
  pose proof (split_index (is_tree s) nsize empty_tree Hok ltac:(lia)) as H1.
  destruct (ipc_splay_tree_split (is_tree s) _ _) as [tree rest1].
  destruct H1 as (Hokt & Hok1 & Hl1 & Hkt & Hk1).
  pose proof (split_index rest1 size empty_tree Hok1 ltac:(lia)) as H2.
  destruct (ipc_splay_tree_split rest1 _ _) as [small rest2].
  destruct H2 as (Hoks & Hok2 & Hl2 & Hks & Hk2).
  pose proof (split_index rest2 osize empty_tree Hok2 ltac:(lia)) as H3.
  destruct (ipc_splay_tree_split rest2 _ _) as [move ignore].
  destruct H3 as (Hokm & Hoki & Hl3 & Hkm & Hki).
  setoid_rewrite Hk2 in Hkm. setoid_rewrite Hk2 in Hki. setoid_rewrite Hk1 in Hks.
  setoid_rewrite Hk1 in Hkm. setoid_rewrite Hk1 in Hki.
  assert (HL : L ≡ₚ to_list move ++ (to_list ignore ++ to_list small ++ to_list tree)).
  { unfold L. rewrite Hl1, Hl2, Hl3. rewrite <- !app_assoc. apply Permutation_app_swap_app. }
  pose proof (visit_moves osize size (to_list move) s g (to_list ignore ++ to_list small ++ to_list tree)) as Hv.
  destruct (traverse_splay_spec (move_entry addr size) (s, g) move Hokm) as (Htm1 & Htm2 & Htm3).
  pose proof (visit_all_kept (move_entry addr size) (s, g) (to_list move)) as [_ Hkept].
  destruct (traverse_splay (move_entry addr size) (s, g) move) as [[s1 g1] move'].
  destruct (visit_all (move_entry addr size) (s, g) (to_list move)) as [[s1' g1'] kept].
  simpl in Htm1, Htm2, Htm3, Hkept. injection Htm1 as <- <-. destruct Hv as (G1 & Hf & Hm).
  { apply (ginv_perm _ _ _ _ _ _ _ _ HL). apply (ginv_todo _ _ _ _ (moving osize size L)); [|done].
    intros x. rewrite elem_of_moving, Hkm. unfold L. intuition lia. }
  destruct (traverse_splay_spec count_small (0, 0) small Hoks) as (Hts1 & Hts2 & Hts3).
  destruct (traverse_splay count_small (0, 0) small) as [[nosmall i'] small'].
  simpl in Hts1, Hts2, Hts3.
  assert (Hkept' : forall x, x ∈ keys (to_list move') -> osize <= MACH_PORT_INDEX x < size).
  { intros x Hx. rewrite Htm3 in Hx. apply Hkept, Hkm in Hx. lia. }
  set (L' := to_list ignore ++ to_list move' ++ to_list small ++ to_list tree).
  assert (HL' : kept ++ (to_list ignore ++ to_list small ++ to_list tree) ≡ₚ L').
  { unfold L'. rewrite Htm3. apply Permutation_app_swap_app. }
  destruct (count_small_total size nsize L' (to_list small)) as [Hcount Hsame]; [lia| | |..].
  { rewrite index_limit_val in Hlim. unfold u32_max. destruct PORT_GENERATIONS; lia. }
  { by apply splay_ok_sorted. }
  { intros x. unfold L'. rewrite !keys_app, !elem_of_app. split.
    - intros Hx. split; [by auto|]. apply Hks in Hx. lia.
    - intros [[Hx|[Hx|[Hx|Hx]]] Hr]; [apply Hki in Hx; lia|apply Hkept' in Hx; lia|done|apply Hkt in Hx; lia]. }
  rewrite <- Hts1 in Hcount. rewrite Hsame in Hts3. simpl in Hcount. rewrite Hcount.
  destruct (join_index tree small' nsize) as [Hok4 Hl4]; [done|done| | |].
  { intros x Hx. apply Hkt in Hx. tauto. }
  { intros x Hx. rewrite Hts3 in Hx. apply Hks in Hx. lia. }
  set (t1 := (ipc_splay_tree_join tree small').1) in *.
  destruct (join_index t1 move' size) as [Hok5 Hl5]; [done|done| | |].
  { intros x. rewrite Hl4, Hts3, keys_app, elem_of_app. intros [Hx|Hx]; [apply Hks in Hx|apply Hkt in Hx]; lia. }
  { intros x Hx. apply Hkept' in Hx. lia. }
  set (t2 := (ipc_splay_tree_join t1 move').1) in *.
  destruct (join_index t2 ignore osize) as [Hok6 Hl6]; [done|done| | |].
  { intros x. rewrite Hl5, Hl4, Hts3, !keys_app, !elem_of_app.
    intros [Hx|[Hx|Hx]]; [apply Hkept' in Hx|apply Hks in Hx|apply Hkt in Hx]; lia. }
  { intros x Hx. apply Hki in Hx. lia. }
  rewrite Hl5, Hl4, Hts3 in Hl6. fold L' in Hl6. destruct Hf as (? & ? & ? & ? & ? & ?).
  simpl. rewrite Hl6. split_and!; try done.
  - by apply (ginv_perm _ _ _ _ _ _ _ _ HL').
  - intros name c. rewrite <- (vmeans_perm _ _ _ _ _ _ _ HL'), Hm. symmetry. by apply vmeans_perm.
Qed.

(** ** The free list of the new part *)

Lemma add_free_fold l : forall T f fl,
  linked_from (fun i => ie_next (tget T i)) f fl -> NoDup fl -> NoDup l -> (forall i, i ∈ l -> 0 < i < tlen T) ->
  (forall i, i ∈ l -> i ∉ fl) -> (forall i, i ∈ fl -> 0 <= i) ->
  let '(T', f') := fold_left add_free l (T, f) in
  tlen T' = tlen T /\
  (forall j, 0 <= j -> tget T' j = tget T j \/
     j ∈ l /\ tbits T j = 0 /\ tbits T' j = IE_BITS_GEN_MASK /\
     ie_object (tget T' j) = ie_object (tget T j)) /\
  (forall j, j ∈ l -> tbits T j = 0 -> tbits T' j = IE_BITS_GEN_MASK) /\
  exists fl', linked_from (fun i => ie_next (tget T' i)) f' fl' /\ NoDup fl' /\
    forall i, i ∈ fl' <-> i ∈ fl \/ (i ∈ l /\ tbits T i = 0).
Proof.
  induction l as [|k l IH]; intros T f fl Hc Hnd Hndl Hr Hdis Hpos.
  { simpl. split_and!; [done|by left|by intros j ?%elem_of_nil|]. exists fl. split_and!; [done..|].
    intros i. rewrite elem_of_nil. tauto. }
  apply NoDup_cons in Hndl as [Hkl Hndl]. cbn [fold_left].
  assert (Hk : 0 < k < tlen T) by (apply Hr, elem_of_cons; by left).
  assert (Hkfl : k ∉ fl) by (apply Hdis, elem_of_cons; by left).
  assert (Hpos' : forall i, i ∈ l -> 0 < i < tlen T) by (intros; apply Hr, elem_of_cons; by right).
  unfold add_free at 2. fold (tbits T k). destruct (Z.eqb_spec (tbits T k) 0) as [Hz|Hz].
  - set (T1 := tset T k _).
    assert (Hother : forall j, 0 <= j -> j <> k -> tget T1 j = tget T j).
    { intros j ? ?. unfold T1. by rewrite tget_tset_ne by lia. }
    assert (Hself : tget T1 k = set_next f (set_bits IE_BITS_GEN_MASK (tget T k))).
    { unfold T1. by rewrite tget_tset_eq by lia. }
    assert (Hlen1 : tlen T1 = tlen T) by (unfold T1; by rewrite tlen_tset).
    specialize (IH T1 k (k :: fl)). destruct (fold_left add_free l (T1, k)) as [T' f'].
    destruct IH as (Hlen & Hget & Hnew & fl' & Hc' & Hnd' & Hin').
    { split; [done|]. rewrite linked_from_start, Hself. simpl. apply (linked_from_ext (fun i => ie_next (tget T i))); [|done].
      intros j Hj. rewrite Hother; [done|by apply Hpos|]. by intros ->. }
    { by apply NoDup_cons. } { done. } { by rewrite Hlen1. }
    { intros i Hi. apply not_elem_of_cons. split; [by intros ->|]. apply Hdis, elem_of_cons. by right. }
    { intros i [->|Hi]%elem_of_cons; [lia|by apply Hpos]. }
    assert (Hb : forall j, 0 <= j -> j <> k -> tbits T1 j = tbits T j).
    { intros. unfold tbits. by rewrite Hother. }
    assert (Hlk : forall j, j ∈ l -> 0 <= j /\ j <> k).
    { intros j Hj. split; [apply Hpos' in Hj; lia|]. by intros ->. }
    split_and!; [congruence| | |].
    + intros j Hj. destruct (Z.eq_dec j k) as [->|Hne].
      * right. destruct (Hget k ltac:(lia)) as [Heq|[? _]]; [|done].
        unfold tbits. rewrite Heq, Hself. split_and!; [apply elem_of_cons; by left|done..].
      * rewrite <- (Hother j), <- (Hb j) by done. destruct (Hget j Hj) as [?|(? & ?)]; [by left|right].
        split; [apply elem_of_cons; by right|done].
    + intros j [->|Hj]%elem_of_cons Hjz.
      * destruct (Hget k ltac:(lia)) as [Heq|[? _]]; [|done]. unfold tbits. by rewrite Heq, Hself.
      * apply Hnew; [done|]. rewrite Hb; [done|by apply Hlk..].
    + exists fl'. split_and!; [done..|]. intros i. rewrite Hin', !elem_of_cons. split.
      * intros [[->|?]|[Hi Hiz]]; [right; auto|by left|right]. rewrite Hb in Hiz by (by apply Hlk). auto.
      * intros [?|[[->|Hi] Hiz]]; [auto|auto|right]. rewrite Hb by (by apply Hlk). auto.
  - specialize (IH T f fl). destruct (fold_left add_free l (T, f)) as [T' f'].
    destruct IH as (Hlen & Hget & Hnew & fl' & Hc' & Hnd' & Hin'); try done.
    { intros i Hi. apply Hdis, elem_of_cons. by right. }
    split_and!; [done| | |].
    + intros j Hj. destruct (Hget j Hj) as [?|(? & ?)]; [by left|right].
      split; [apply elem_of_cons; by right|done].
    + intros j [->|Hj]%elem_of_cons Hjz; [done|]. by apply Hnew.
    + exists fl'. split_and!; [done..|]. intros i. rewrite Hin', elem_of_cons. naive_solver.
Qed.

Lemma elem_of_indices lo hi i : i ∈ indices lo hi <-> lo <= i < hi.
Proof.
  unfold indices. rewrite list_elem_of_fmap. setoid_rewrite elem_of_seq. split.
  - intros (k & -> & ?). lia.
  - intros ?. exists (Z.to_nat (i - lo)). lia.
Qed.

Lemma NoDup_indices lo hi : NoDup (indices lo hi).
Proof. unfold indices. apply NoDup_fmap; [intros x y; lia|]. apply NoDup_seq. Qed.

(** Linking the free entries of the new part completes the invariant. *)
Lemma free_new_part osize T size next L ites total small :
  ginv osize T size L [] ites total -> ksorted L ->
  size = its_size (pred next) -> (1 <= next <= its_last)%nat ->
  small = Z.of_nat (base.size (small_set size (its_size next) L)) ->
  let '(T1, f) := fold_left add_free (rev (indices osize size)) (T, ie_next (tget T 0)) in
  let T' := tset T1 0 (set_next f) in
  inv None T' size next L ites total small /\
  forall name c, vmeans T' size L ites name c <-> vmeans T size L ites name c.
Proof.
  intros G Hs Hsize Hnext Hsmall. destruct (g_size _ _ _ _ _ _ _ G) as [Hos Hlim].
  pose proof (g_len _ _ _ _ _ _ _ G) as Hlen.
  destruct (g_free _ _ _ _ _ _ _ G) as (fl & Hc & Hnd & Hfl).
  assert (Hl : forall i, i ∈ rev (indices osize size) <-> osize <= i < size).
  { intros i. rewrite <- (Permutation_rev (indices osize size)). apply elem_of_indices. }
  pose proof (add_free_fold (rev (indices osize size)) T (ie_next (tget T 0)) fl) as Hfold.
  destruct (fold_left add_free _ _) as [T1 f].
  destruct Hfold as (Hlen1 & Hget & Hnew & fl' & Hc' & Hnd' & Hin').
  { by apply (linked_from_start (fun i => ie_next (tget T i)) 0). } { done. }
  { rewrite <- (Permutation_rev (indices osize size)). apply NoDup_indices. }
  { intros i. rewrite Hl. lia. } { intros i. rewrite Hl, Hfl. lia. } { intros i. rewrite Hfl. lia. }
  set (T' := tset T1 0 (set_next f)).
  assert (Hzero_bits : forall i, osize <= i < size -> tbits T i = 0 <-> ~ used None T i).
  { intros i Hi. split; [intros Hz [Hu|Hu]; [by rewrite Hz in Hu|done]|].
    intros Hnu. pose proof (g_new _ _ _ _ _ _ _ G i Hi Hnu) as Hr. unfold Local.rights_of in Hr. by injection Hr. }
  assert (Hkeep : forall j, 0 < j < size -> j < osize \/ used None T j -> tget T' j = tget T j).
  { intros j Hj Hor. unfold T'. rewrite tget_tset_ne by lia.
    destruct (Hget j ltac:(lia)) as [?|(Hj' & Hz & _)]; [done|]. apply Hl in Hj'.
    destruct Hor as [?|Hu]; [lia|]. by apply Hzero_bits in Hz. }
  assert (Hfresh : forall j, osize <= j < size -> ~ used None T j ->
            tbits T' j = IE_BITS_GEN_MASK /\ ie_object (tget T' j) = IO_NULL).
  { intros j Hj Hnu. unfold T', tbits. rewrite tget_tset_ne by lia.
    split; [apply Hnew; [by apply Hl|by apply Hzero_bits]|].
    pose proof (g_new _ _ _ _ _ _ _ G j Hj Hnu) as Hr. unfold Local.rights_of in Hr. injection Hr as _ Hr _.
    destruct (Hget j ltac:(lia)) as [->|(_ & _ & _ & ->)]; done. }
  assert (Hb0 : tbits T' 0 = tbits T 0).
  { unfold T', tbits. rewrite tget_tset_eq by lia. simpl. fold (tbits T1 0) (tbits T 0).
    destruct (Hget 0 ltac:(lia)) as [Heq|(Hj & _)]; [by unfold tbits; rewrite Heq|]. apply Hl in Hj. lia. }
  assert (Hused : forall j, 0 < j < size -> used None T' j <-> used None T j).
  { intros j Hj. destruct (Z_lt_le_dec j osize) as [Hlt|Hge].
    - apply used_ext. unfold tbits. by rewrite Hkeep by auto.
    - destruct (decide (used None T j)) as [Hu|Hnu].
      + apply used_ext. unfold tbits. by rewrite Hkeep by auto.
      + split; [|done]. intros [Hu|Hu]; [|done]. destruct (Hfresh j) as [Hb _]; [lia|done|].
        rewrite Hb, TYPE_gen in Hu by apply gen_ok_MASK. done. }
  split.
  - split; try done; try (by apply G).
    + unfold T'. rewrite tlen_tset. congruence.
    + intros i Hi. destruct (Z.eq_dec i 0) as [->|]; [rewrite Hb0; by apply (g_bits _ _ _ _ _ _ _ G)|].
      destruct (decide (i < osize \/ used None T i)) as [Hd|Hd].
      * unfold tbits. rewrite Hkeep by (lia || done). by apply (g_bits _ _ _ _ _ _ _ G).
      * destruct (Hfresh i) as [-> _]; [lia|tauto|]. apply gen_ok_MASK.
    + exists fl'. split_and!; [|done|].
      * assert (Hfl' : forall j, j ∈ fl' -> 0 < j < size).
        { intros j. rewrite Hin', Hl, Hfl. lia. }
        rewrite linked_from_start. unfold T' at 2. rewrite tget_tset_eq by lia. simpl.
        apply (linked_from_ext (fun i => ie_next (tget T1 i))); [|done]. intros j Hj. apply Hfl' in Hj. unfold T'.
        by rewrite tget_tset_ne by lia.
      * intros i. rewrite Hin', Hl, Hfl. split.
        -- intros [[Hi Hnu]|[Hi Hz]].
           ++ split; [lia|]. by rewrite Hused by lia.
           ++ split; [lia|]. rewrite Hused by lia. by apply Hzero_bits.
        -- intros [Hi Hnu]. rewrite Hused in Hnu by done. destruct (Z_lt_le_dec i osize); [left; split; [lia|done]|right].
           split; [lia|]. apply Hzero_bits; [lia|done].
    + intros i Hi Hnu. rewrite Hused in Hnu by done. destruct (Z_lt_le_dec i osize).
      * unfold tbits. rewrite Hkeep by auto. apply (g_clean _ _ _ _ _ _ _ G); [lia|done].
      * destruct (Hfresh i) as [-> ->]; [lia|done|]. split; [apply gen_ok_MASK|done].
    + rewrite Hb0. apply G.
    + rewrite Hb0. apply G.
    + intros x p Hx. destruct (g_ites _ _ _ _ _ _ _ G x p Hx) as (it & ? & ? & ?). eauto 10.
    + intros x Hx Hlt. pose proof (INDEX_range _ (g_names _ _ _ _ _ _ _ G x Hx)).
      destruct (g_coll _ _ _ _ _ _ _ G x Hx Hlt) as [Hxc Hxu]; [by apply not_elem_of_nil|].
      assert (Hg : IE_BITS_GEN (tbits T (MACH_PORT_INDEX x)) <> MACH_PORT_GEN x).
      { apply (g_gen _ _ _ _ _ _ _ G x Hx Hlt). destruct Hxu as [->|?]; [left; lia|by right]. }
      destruct (Z.eq_dec (MACH_PORT_INDEX x) 0) as [Hz|Hnz].
      * rewrite Hz in *. rewrite Hb0. auto.
      * destruct Hxu as [?|Hxu]; [done|]. rewrite Hused by lia. unfold tbits.
        rewrite Hkeep by (lia || auto). auto.
    + intros i Hi Hic. apply (g_coll' _ _ _ _ _ _ _ G i Hi). destruct (Z.eq_dec i 0) as [->|]; [congruence|].
      destruct (decide (i < osize \/ used None T i)) as [Hd|Hd].
      * unfold tbits in *. by rewrite Hkeep in Hic by (lia || done).
      * destruct (Hfresh i) as [Hb _]; [lia|tauto|]. rewrite Hb, COLLISION_gen in Hic by apply gen_ok_MASK. done.
  - intros name c. unfold vmeans. f_equiv. f_equiv. intros i. split; intros (Hi & Hu & Hn & Hcap);
      rewrite Hused in * by done; unfold tbits in *; rewrite Hkeep in * by auto; auto.
Qed.

(** ** Installing the new table *)

Lemma rehash_same_rights size l T : same_rights T (fold_left (rehash_one size) l T).
Proof.
  revert T. induction l as [|i l IH]; intros T; [done|]. simpl.
  eapply same_rights_trans; [|apply IH]. unfold rehash_one. destruct (_ =? _); [|done].
  unfold local_insert_at. split; [apply (Local.local_insert_frame _ _ _ _ 0)|].
  intros j. apply Local.local_insert_frame.
Qed.

(** The enlarged table before anything has moved. *)
Lemma enlarged_get T osize size i :
  tlen T = osize -> osize <= size -> 0 <= i < size ->
  let T1 := map (set_index 0) T ++ replicate (Z.to_nat (size - osize)) zero_entry in
  tlen T1 = size /\
  Local.rights_of (tget T1 i) = if i <? osize then Local.rights_of (tget T i) else (0, IO_NULL, 0).
Proof.
  intros Hlen Hle Hi T1. assert (Hm : tlen (map (set_index 0) T) = osize) by (unfold tlen; by rewrite length_map).
  split.
  { unfold tlen, T1 in *. rewrite length_app, length_replicate. lia. }
  unfold T1. destruct (Z.ltb_spec i osize).
  - rewrite tget_app_l by lia. pose proof (tget_lookup T i ltac:(lia)) as Hl. unfold tget in *.
    rewrite !nth_lookup, list_lookup_fmap, Hl. done.
  - rewrite tget_app_r, tget_replicate by lia. done.
Qed.

Lemma enlarged_ginv s size nits T1 :
  space_inv None s -> is_table_size s < size -> size <= index_limit ->
  same_rights (map (set_index 0) (is_table s) ++
    replicate (Z.to_nat (size - is_table_size s)) zero_entry) T1 ->
  let s1 := with_new_table T1 size nits s in
  ginv (is_table_size s) T1 size (to_list (is_tree s))
    (moving (is_table_size s) size (to_list (is_tree s))) (is_ites s) (is_tree_total s) /\
  forall name c, vmeans T1 size (to_list (is_tree s)) (is_ites s) name c <-> means None s name c.
Proof.
  intros Hinv Hlt Hlim Hsame s1. pose proof Hinv as [Hok I]. set (osize := is_table_size s) in *.
  pose proof (inv_size _ _ _ _ _ _ _ _ I) as Hsz. pose proof (i_len _ _ _ _ _ _ _ _ I) as Hlen.
  fold osize in Hsz, Hlen. set (T0 := map _ _ ++ _) in *.
  assert (Hr : forall i, 0 <= i < size -> Local.rights_of (tget T1 i) =
            if i <? osize then Local.rights_of (tget (is_table s) i) else (0, IO_NULL, 0)).
  { intros i Hi. rewrite (proj2 Hsame). apply (enlarged_get (is_table s) osize size i Hlen); lia. }
  assert (Hlen1 : tlen T1 = size).
  { rewrite (proj1 Hsame). apply (enlarged_get (is_table s) osize size 0 Hlen); lia. }
  assert (Hold : forall i, 0 <= i < osize -> tbits T1 i = tbits (is_table s) i /\
     ie_object (tget T1 i) = ie_object (tget (is_table s) i) /\
     ie_request (tget T1 i) = ie_request (tget (is_table s) i)).
  { intros i Hi. pose proof (Hr i ltac:(lia)) as Hi'. rewrite (proj2 (Z.ltb_lt _ _)) in Hi' by lia.
    unfold Local.rights_of in Hi'. by injection Hi'. }
  assert (Hnew : forall i, osize <= i < size -> Local.rights_of (tget T1 i) = (0, IO_NULL, 0) /\
            tbits T1 i = 0 /\ ~ used None T1 i).
  { intros i Hi. pose proof (Hr i ltac:(lia)) as Hi'. rewrite (proj2 (Z.ltb_ge _ _)) in Hi' by lia.
    assert (Hb : tbits T1 i = 0) by (unfold Local.rights_of in Hi'; by injection Hi').
    split_and!; [done|done|]. intros [Hu|Hu]; [by rewrite Hb in Hu|done]. }
  assert (Hused : forall i, 0 <= i < osize -> used None T1 i <-> used None (is_table s) i).
  { intros i Hi. apply used_ext. by apply Hold. }
  pose proof (i_names _ _ _ _ _ _ _ _ I) as Hnames.
  split.
  - split; try done; try (by apply I).
    + lia.
    + intros i Hi. destruct (Z_lt_le_dec i osize).
      * destruct (Hold i) as [-> _]; [lia|]. apply (i_bits _ _ _ _ _ _ _ _ I). lia.
      * destruct (Hnew i) as (_ & -> & _); [lia|]. unfold u32_range, u32_max. lia.
    + destruct (i_free _ _ _ _ _ _ _ _ I) as (fl & Hc & Hnd & Hfl). fold osize in Hfl.
      exists fl. split_and!; [|done|].
      * apply (chain_ext (is_table s)); [|done]. intros j Hj. apply Hold.
        destruct Hj as [->|Hj]; [lia|]. apply Hfl in Hj. lia.
      * intros i. rewrite Hfl. split; intros [Hi Hnu]; (split; [done|]); by rewrite Hused in * by lia.
    + intros i Hi Hnu. rewrite Hused in Hnu by lia. destruct (Hold i) as (-> & -> & _); [lia|].
      by apply (i_clean _ _ _ _ _ _ _ _ I).
    + intros i Hi _. by apply Hnew.
    + destruct (Hold 0) as [-> _]; [lia|]. apply I.
    + destruct (Hold 0) as [-> _]; [lia|]. apply I.
    + apply ksorted_NoDup, I.
    + intros x p Hx. destruct (i_ites _ _ _ _ _ _ _ _ I x p Hx) as (it & ? & ? & [?|?]); [eauto|done].
    + intros x Hx Hlt' Hn. rewrite elem_of_moving in Hn. pose proof (INDEX_range _ (Hnames x Hx)).
      assert (Hio : MACH_PORT_INDEX x < osize) by (destruct (Z_lt_le_dec (MACH_PORT_INDEX x) osize); [done|tauto]).
      destruct (i_coll _ _ _ _ _ _ _ _ I x Hx Hio) as (Hc & Hu & _).
      destruct (Hold (MACH_PORT_INDEX x)) as [-> _]; [lia|]. rewrite Hused by lia. done.
    + intros x Hx Hlt' Hor. pose proof (INDEX_range _ (Hnames x Hx)).
      destruct (Z_lt_le_dec (MACH_PORT_INDEX x) osize) as [Hio|Hio].
      * destruct (Hold (MACH_PORT_INDEX x)) as [-> _]; [lia|]. by apply (i_coll _ _ _ _ _ _ _ _ I).
      * destruct Hor as [?|Hu]; [lia|]. by apply Hnew in Hu.
    + intros i Hi Hc. destruct (Z_lt_le_dec i osize).
      * destruct (Hold i) as [Hb _]; [lia|]. rewrite Hb in Hc. apply (i_coll' _ _ _ _ _ _ _ _ I); [lia|done].
      * destruct (Hnew i) as (_ & Hb & _); [lia|]. rewrite Hb in Hc. done.
    + intros x Hx. by apply elem_of_moving.
  - intros name c. rewrite (means_vmeans s name c Hinv). unfold vmeans. f_equiv. f_equiv. intros i.
    fold osize. split.
    + intros (Hi & Hu & Hn & Hc). destruct (Z_lt_le_dec i osize); [|exfalso; apply (Hnew i); [lia|done]].
      rewrite Hused in Hu by lia. destruct (Hold i) as (Hb & Ho & Hq); [lia|]. rewrite Hb, Ho, Hq in *.
      split_and!; try done; lia.
    + intros (Hi & Hu & Hn & Hc). rewrite Hused by lia. destruct (Hold i) as (Hb & Ho & Hq); [lia|].
      rewrite Hb, Ho, Hq. split_and!; try done; lia.
Qed.

Lemma grow_install_spec s g :
  space_inv None s -> (is_table_next s < its_last)%nat ->
  let nits := S (is_table_next s) in
  let s' := (grow_install addr (is_table_size s) (its_size (is_table_next s)) (its_size nits) nits s g).1 in
  space_inv None s' /\ is_table_size s' = its_size (is_table_next s) /\ is_table_next s' = nits /\
  is_active s' = is_active s /\ is_growing s' = is_growing s /\
  forall name c, means None s' name c <-> means None s name c.
Proof.
  intros Hinv Hlast nits s'. pose proof Hinv as [Hok I].
  pose proof (i_next _ _ _ _ _ _ _ _ I) as Hn. pose proof (i_size _ _ _ _ _ _ _ _ I) as Hos.
  set (size := its_size (is_table_next s)) in *. set (nsize := its_size nits) in *.
  assert (Hlt : is_table_size s < size).
  { rewrite Hos. unfold size. destruct (is_table_next s) as [|k]; [lia|]. apply its_increasing. lia. }
  assert (Hle : size <= nsize).
  { unfold nsize, nits, size. destruct (decide (S (is_table_next s) = its_last)) as [Heq|].
    - rewrite Heq, its_last_eq, <- Heq. done.
    - apply Z.lt_le_incl, its_increasing. lia. }
  assert (Hlim : nsize <= index_limit) by (apply its_limit; unfold nits; lia).
  pose proof (inv_size _ _ _ _ _ _ _ _ I) as Hsz.
  unfold grow_install in s'. set (T0 := map _ _ ++ _) in *. set (T1 := fold_left _ _ T0) in *.
  destruct (enlarged_ginv s size nits T1 Hinv Hlt ltac:(lia)) as [G Hm]; [apply rehash_same_rights|].
  pose proof (transfer_tree_spec (is_table_size s) size nsize (with_new_table T1 size nits s) g) as Ht.
  destruct (transfer_tree addr _ _ _ (with_new_table T1 size nits s) g) as [s2 g2]. cbn [fst] in Ht.
  destruct Ht as (G2 & Hok2 & Hact & Hgro & Hsize2 & Hnext2 & Hsmall & Hm2); try done; try lia.
  { intros HL. simpl in *. rewrite (i_small _ _ _ _ _ _ _ _ I), HL. done. }
  simpl in Hsize2, Hnext2.
  pose proof (free_new_part _ _ _ nits _ _ _ (is_tree_small s2) G2 (splay_ok_sorted _ Hok2) eq_refl
    ltac:(unfold nits; lia) Hsmall) as Hf.
  unfold s'. destruct (fold_left add_free _ _) as [T3 f]. destruct Hf as [I3 Hm3].
  assert (Hinv3 : space_inv None (with_table (tset T3 0 (set_next f)) s2)).
  { split; [done|]. simpl. by rewrite Hsize2, Hnext2. }
  cbn [fst]. split_and!; try done.
  intros name c. rewrite (means_vmeans _ _ _ Hinv3). simpl. rewrite Hsize2, Hm3, Hm2. apply Hm.
Qed.

(** Growing allocates no tree entries. *)
Lemma move_entry_ites size st cur p :
  is_ites st.1 !! p = None -> is_ites (move_entry addr size st cur).1.1 !! p = None.
Proof.
  destruct st as [s g], cur as [x q]. simpl. intros Hp. unfold move_entry.
  destruct (negb _); [done|]. destruct (_ =? _); simpl; by rewrite lookup_delete_None; right.
Qed.

Lemma grow_install_ites osize size nsize nits s g p :
  splay_ok (is_tree s) -> 0 <= osize <= index_limit -> 0 <= size <= index_limit ->
  0 <= nsize <= index_limit -> is_ites s !! p = None ->
  is_ites (grow_install addr osize size nsize nits s g).1 !! p = None.
Proof.
  intros Hok Ho Hs Hn Hp. unfold grow_install, transfer_tree. set (s1 := with_new_table _ _ _ s).
  assert (Hv : forall l st, is_ites st.1 !! p = None ->
            is_ites (visit_all (move_entry addr size) st l).1.1 !! p = None).
  { induction l as [|cur l IH]; intros st Hst; [done|]. cbn [visit_all].
    pose proof (move_entry_ites size st cur p Hst) as H1.
    destruct (move_entry addr size st cur) as [st1 del]. specialize (IH st1 H1).
    by destruct (visit_all (move_entry addr size) st1 l). }
  destruct (0 <? is_tree_total s1); [|by destruct (fold_left add_free _ _)].
  pose proof (split_index (is_tree s1) nsize empty_tree Hok Hn) as H1.
  destruct (ipc_splay_tree_split (is_tree s1) _ _) as [tree rest1]. destruct H1 as (_ & Hok1 & _).
  pose proof (split_index rest1 size empty_tree Hok1 Hs) as H2.
  destruct (ipc_splay_tree_split rest1 _ _) as [small rest2]. destruct H2 as (_ & Hok2 & _).
  pose proof (split_index rest2 osize empty_tree Hok2 Ho) as H3.
  destruct (ipc_splay_tree_split rest2 _ _) as [move ignore]. destruct H3 as (Hokm & _).
  destruct (traverse_splay_spec (move_entry addr size) (s1, g) move Hokm) as (Ht & _).
  specialize (Hv (to_list move) (s1, g) Hp). rewrite <- Ht in Hv.
  destruct (traverse_splay (move_entry addr size) (s1, g) move) as [[s2 g2] move'].
  destruct (traverse_splay count_small (0, 0) small) as [[nosmall i'] small'].
  by destruct (fold_left add_free _ _).
Qed.
End grow.
