(* ===== verification/Retry.v ===== *)
(** * Growing and allocating while other threads run (ipc/ipc_entry.c)

    [ipc_entry_grow_table], [ipc_entry_alloc] and [ipc_entry_alloc_name] drop
    the lock of the space to allocate memory or to wait, and look at it afresh
    afterwards.  What other threads may do meanwhile is the record
    [well_behaved]: they keep the invariant of an active space, they leave the
    size of a table alone while [is_growing] is set, and they do not use a
    tree entry that [ite_alloc] gave to this thread.  [R] relates the space
    before and after their steps; with [R] the equality of meanings, the
    theorems describe a thread that runs alone. *)

From S2P Require Import Prelude Names Splay Table Space Hash Entry EntryInv Alloc Dealloc Grow.

Section retry.
Context `{PortConfig} `{!EntrySizes}.
Context (addr : Z) (env : environment).

(** The contents of a dead space do not matter. *)
Definition good (s : ipc_space) : Prop := is_active s = true -> space_inv None s.

Definition same_means (s s' : ipc_space) : Prop :=
  forall name c, means None s' name c <-> means None s name c.

Record well_behaved (R : ipc_space -> ipc_space -> Prop) : Prop := {
  wb_preorder : PreOrder R;
  wb_means : forall s s', same_means s s' -> R s s';
  wb_step : forall s g, good s -> R s (other_threads env (s, g)).1;
  wb_good : forall s g, good s -> good (other_threads env (s, g)).1;
  wb_growing : forall s g, is_growing s = true -> is_active (other_threads env (s, g)).1 = true ->
    is_table_next (other_threads env (s, g)).1 = is_table_next s;
  wb_alloc : forall m p, ite_alloc env m = Some p -> m !! p = None;
  wb_private : forall m p s g, ite_alloc env m = Some p ->
    is_ites s !! p = None -> is_ites (other_threads env (s, g)).1 !! p = None
}.

(** Tree entries this thread was given and has not used stay out of the space. *)
Definition keeps_private (s s' : ipc_space) : Prop :=
  forall m p, ite_alloc env m = Some p -> is_ites s !! p = None -> is_ites s' !! p = None.

Context (R : ipc_space -> ipc_space -> Prop) (WB : well_behaved R).

#[local] Instance R_preorder : PreOrder R.
Proof. apply WB. Qed.

Lemma good_growing b s : good s -> good (with_growing b s).
Proof. intros Hg. exact Hg. Qed.

Lemma R_growing b s : R s (with_growing b s).
Proof.
  apply (wb_means _ WB). intros name c. rewrite !means_cases.
  by setoid_rewrite denotes_TableEntry.
Qed.

(** ** ipc_entry_grow_table *)

Lemma sizes_differ next :
  (1 <= next <= its_last)%nat -> its_size (pred next) <> its_size next <-> (next < its_last)%nat.
Proof.
  intros Hn. split.
  - intros Hne. destruct (decide (next = its_last)) as [->|]; [|lia]. by rewrite its_last_eq in Hne.
  - intros Hlt. destruct next as [|k]; [lia|]. pose proof (its_increasing k ltac:(lia)). simpl. lia.
Qed.

Definition grow_outcome (s : ipc_space) (res : grow_result) : Prop :=
  match res with
  | Return KERN_NO_SPACE s' _ => s' = s /\ is_table_next s = its_last
  | Return kr s' _ =>
    kr ∈ [KERN_SUCCESS; KERN_RESOURCE_SHORTAGE] /\ good s' /\ R s s' /\ keeps_private s s'
  | Again s' _ =>
    is_active s' = true /\ space_inv None s' /\ R s s' /\ keeps_private s s' /\
    (is_table_next s' = S (is_table_next s) /\ is_table_next s' < its_last)%nat
  end.

(** The table is grown again only if tree entries would fit into a larger one. *)
Lemma small_room s :
  space_inv None s -> 0 < is_tree_small s -> (is_table_next s < its_last)%nat.
Proof.
  intros [_ I] Hs. rewrite (i_small _ _ _ _ _ _ _ _ I), (i_size _ _ _ _ _ _ _ _ I) in Hs.
  pose proof (i_next _ _ _ _ _ _ _ _ I) as Hn. apply (sizes_differ _ Hn). intros Heq.
  rewrite Heq in Hs. replace (small_set _ _ _) with (∅ : gset Z) in Hs; [by rewrite size_empty in Hs|].
  symmetry. apply set_eq. intros i. rewrite elem_of_small_set. set_solver by lia.
Qed.

Lemma grow_step_spec s g :
  is_active s = true -> space_inv None s -> grow_outcome s (grow_step addr env s g).
Proof.
  intros Hact Hinv. pose proof Hinv as [_ I]. pose proof (i_next _ _ _ _ _ _ _ _ I) as Hn.
  assert (Hgood : good s) by (by intros _). unfold grow_step. destruct (is_growing s).
  { pose proof (wb_good _ WB s g Hgood) as Hg. pose proof (wb_step _ WB s g Hgood) as HR.
    pose proof (fun m p => wb_private _ WB m p s g) as HP.
    destruct (other_threads env (s, g)) as [s1 g1]. split_and!; [set_solver|done|done|done]. }
  set (next := is_table_next s) in *.
  destruct (Z.eqb_spec (its_size (pred next)) (its_size next)) as [Heq|Hne].
  { split; [done|]. destruct (decide (next = its_last)); [done|].
    destruct (proj2 (sizes_differ next Hn)); [lia|done]. }
  apply (sizes_differ next Hn) in Hne.
  pose proof (wb_good _ WB (with_growing true s) g (good_growing true s Hgood)) as Hg1.
  pose proof (wb_step _ WB (with_growing true s) g (good_growing true s Hgood)) as HR1.
  pose proof (wb_growing _ WB (with_growing true s) g eq_refl) as Hnext1.
  assert (HP1 : keeps_private s (other_threads env (with_growing true s, g)).1).
  { intros m p Hp Hs. by apply (wb_private _ WB m). }
  destruct (other_threads env (with_growing true s, g)) as [s1 g1]. cbn [fst] in *.
  assert (HR : R s (with_growing false s1)).
  { etrans; [apply (R_growing true)|]. etrans; [exact HR1|]. apply R_growing. }
  destruct (negb (it_entries_alloc env (its_size next))); [split_and!; [set_solver|done|done|done]|].
  destruct (is_active (with_growing false s1)) eqn:Hact1; cbn [negb]; cycle 1.
  { pose proof (wb_good _ WB (with_growing false s1) g1 Hg1) as Hg2.
    pose proof (wb_step _ WB (with_growing false s1) g1 Hg1) as HR2.
    assert (HP2 : keeps_private s (other_threads env (with_growing false s1, g1)).1).
    { intros m p Hp Hs. apply (wb_private _ WB m); [done|]. by apply (HP1 m). }
    destruct (other_threads env (with_growing false s1, g1)) as [s2 g2].
    split_and!; [set_solver|done|by etrans|done]. }
  assert (Hinv1 : space_inv None (with_growing false s1)) by (by apply Hg1).
  specialize (Hnext1 Hact1). simpl in Hnext1. fold next in Hnext1.
  set (s1' := with_growing false s1) in *.
  pose proof (grow_install_spec addr s1' g1 Hinv1) as Hgrow. cbn zeta in Hgrow.
  assert (Hos : is_table_size s1' = its_size (pred next)).
  { destruct Hinv1 as [_ I1]. rewrite (i_size _ _ _ _ _ _ _ _ I1). by rewrite <- Hnext1. }
  rewrite Hos in Hgrow. change (is_table_next s1') with (is_table_next s1) in Hgrow. rewrite Hnext1 in Hgrow.
  assert (HP2 : keeps_private s (grow_install addr (its_size (pred next)) (its_size next)
                  (its_size (S next)) (S next) s1' g1).1).
  { intros m p Hp Hs. pose proof (fun k Hk => its_size_bounds k Hk) as Hb.
    apply grow_install_ites; [apply Hinv1|pose proof (Hb (pred next) ltac:(lia)); lia
      |pose proof (Hb next ltac:(lia)); lia|pose proof (Hb (S next) ltac:(lia)); lia|]. by apply (HP1 m). }
  destruct (grow_install addr _ _ _ _ s1' g1) as [s2 g2]. cbn [fst] in Hgrow, HP2.
  destruct (Hgrow Hne) as (Hinv2 & _ & Hnext2 & Hact2 & _ & Hm2). clear Hgrow.
  assert (Hg2 : good s2) by (by intros _). assert (HR2 : R s s2) by (etrans; [exact HR|by apply WB]).
  pose proof (wb_good _ WB s2 g2 Hg2) as Hg3. pose proof (wb_step _ WB s2 g2 Hg2) as HR3.
  assert (HP3 : keeps_private s (other_threads env (s2, g2)).1).
  { intros m p Hp Hs. apply (wb_private _ WB m); [done|]. by apply (HP2 m). }
  destruct (other_threads env (s2, g2)) as [s3 g3]. cbn [fst] in *.
  assert (HR' : R s s3) by (by etrans).
  destruct (is_active s3) eqn:Hact3; cbn [negb orb]; [|split_and!; [set_solver|done|done|done]].
  destruct (Nat.eqb_spec (is_table_next s3) (S next)) as [Hn3|]; cbn [negb]; [|split_and!; [set_solver|done|done|done]].
  destruct (Z.ltb_spec 0 (is_tree_small s3)); cbn [andb]; [|split_and!; [set_solver|done|done|done]].
  destruct (_ <? _); [|split_and!; [set_solver|done|done|done]].
  pose proof (Hg3 Hact3) as Hinv3. split_and!; [done..| |by apply small_room]. done.
Qed.

(** What a call of [ipc_entry_grow_table] returns. *)
Definition grow_returns (s : ipc_space) (res : kern_return * ipc_space * Global.ghash) : Prop :=
  let '(kr, s', _) := res in
  kr ∈ [KERN_SUCCESS; KERN_NO_SPACE; KERN_RESOURCE_SHORTAGE] /\ good s' /\ R s s' /\ keeps_private s s' /\
  (kr = KERN_NO_SPACE -> is_active s' = true /\ is_table_next s' = its_last).

Lemma grow_loop_spec fuel : forall s g,
  is_active s = true -> space_inv None s -> (its_last - is_table_next s < fuel)%nat ->
  exists res, grow_loop addr env fuel s g = Some res /\ grow_returns s res.
Proof.
  induction fuel as [|fuel IH]; intros s g Hact Hinv Hf; [lia|]. cbn [grow_loop].
  pose proof (grow_step_spec s g Hact Hinv) as Hstep. destruct (grow_step addr env s g) as [kr s' g'|s' g'].
  - exists (kr, s', g'). split; [done|].
    destruct kr; simpl in Hstep; try (by destruct Hstep as (Hin & _); set_solver).
    + destruct Hstep as (_ & Hg & HR & HP). split_and!; [set_solver|done..].
    + destruct Hstep as [-> Hlast]. split_and!; [set_solver|by intros _|done|by intros m p|done].
    + destruct Hstep as (_ & Hg & HR & HP). split_and!; [set_solver|done..].
  - destruct Hstep as (Hact' & Hinv' & HR & HP & Hn & Hl).
    destruct (IH s' g' Hact' Hinv') as ([[kr s''] g''] & Heq & Hin & Hg & HR' & HP' & Hno); [lia|].
    exists (kr, s'', g''). split; [done|]. split_and!; [done|done|by etrans| |done].
    intros m p Hp Hs. apply (HP' m); [done|]. by apply (HP m).
Qed.

Lemma grow_table_spec s g :
  is_active s = true -> space_inv None s ->
  exists res, ipc_entry_grow_table addr env s g = Some res /\ grow_returns s res.
Proof. intros Hact Hinv. apply grow_loop_spec; [done..|]. lia. Qed.

(** ** ipc_entry_alloc *)

Definition alloc_returns (s : ipc_space)
    (res : kern_return * option (Z * entry_ref) * ipc_space * Global.ghash) : Prop :=
  let '(kr, r, s', _) := res in
  match kr, r with
  | KERN_SUCCESS, Some (name, entry) =>
    MACH_PORT_VALID name = true /\
    is_active s' = true /\
    exists s0, R s s0 /\ space_inv None s0 /\ is_active s0 = true /\ allocated s0 s' name entry
  | KERN_INVALID_TASK, None => is_active s' = false /\ R s s'
  | KERN_NO_SPACE, None => is_table_next s' = its_last /\ good s' /\ R s s'
  | KERN_RESOURCE_SHORTAGE, None => good s' /\ R s s'
  | _, _ => False
  end.

Lemma alloc_returns_R s s' res : R s s' -> alloc_returns s' res -> alloc_returns s res.
Proof.
  intros HR. destruct res as [[[kr [[name r]|]] s''] g'']; destruct kr; simpl; try done.
  - intros (? & ? & s0 & ? & ? & ? & ?). do 2 (split; [done|]). exists s0. split_and!; [by etrans|done..].
  - intros (? & ? & ?). split_and!; [done|done|by etrans].
  - intros (? & ?). split; [done|by etrans].
  - intros (? & ?). split; [done|by etrans].
Qed.

Lemma entry_get_active s : is_active (ipc_entry_get s).1 = is_active s.
Proof. unfold ipc_entry_get. by destruct (_ =? 0). Qed.

Lemma entry_alloc_spec fuel : forall s g res,
  good s -> ipc_entry_alloc addr env fuel s g = Some res -> alloc_returns s res.
Proof.
  induction fuel as [|fuel IH]; intros s g res Hg Heq; [done|]. cbn [ipc_entry_alloc] in Heq.
  destruct (is_active s) eqn:Hact; cbn [negb] in Heq; cycle 1.
  { injection Heq as <-. split; [done|reflexivity]. }
  pose proof (Hg Hact) as Hinv. pose proof (entry_get_spec s Hinv) as Hget.
  pose proof (entry_get_active s) as Hact1. destruct (ipc_entry_get s) as [s1 [[name r]|]].
  { injection Heq as <-. destruct Hget as [Ha Hv]. simpl in Hact1. split; [done|]. split; [congruence|].
    exists s. by split_and!. }
  destruct Hget as [-> _].
  destruct (grow_table_spec s g Hact Hinv) as ([[kr s2] g2] & Hgrow & Hin & Hg2 & HR & HP & Hno).
  rewrite Hgrow in Heq. apply (alloc_returns_R s s2); [done|].
  destruct kr; try (exfalso; clear -Hin; by set_solver); try (injection Heq as <-).
  - exact (IH s2 g2 _ Hg2 Heq).
  - split_and!; [by apply Hno|done|reflexivity].
  - split; [done|reflexivity].
Qed.

(** ** ipc_entry_alloc_name *)

(** Names that [ipc_entry_lookup] cannot find even when they have an entry:
    index 0 and the generation that [ipc_space_create] gives the table. *)
Definition shadowed (name : Z) : Prop :=
  MACH_PORT_INDEX name = 0 /\ MACH_PORT_GEN name = IE_BITS_GEN_MASK.

Definition alloc_name_returns (s : ipc_space) (name : Z)
    (res : kern_return * option entry_ref * ipc_space * Global.ghash) : Prop :=
  let '(kr, r, s', _) := res in
  match kr, r with
  | KERN_SUCCESS, Some entry =>
    is_active s' = true /\
    exists s0, R s s0 /\ space_inv None s0 /\ is_active s0 = true /\
      ((denotes None s0 name entry /\ resplayed s0 s') \/ allocated s0 s' name entry)
  | KERN_INVALID_TASK, None => is_active s' = false /\ R s s'
  | KERN_NO_SPACE, None => is_table_next s' = its_last /\ good s' /\ R s s'
  | KERN_RESOURCE_SHORTAGE, None => good s' /\ R s s'
  | _, _ => False
  end.

Lemma alloc_name_returns_R s s' name res :
  R s s' -> alloc_name_returns s' name res -> alloc_name_returns s name res.
Proof.
  intros HR. destruct res as [[[kr [r|]] s''] g'']; destruct kr; simpl; try done.
  - intros (? & s0 & ? & ? & ? & ?). split; [done|]. exists s0. split_and!; [by etrans|done..].
  - intros (? & ? & ?). split_and!; [done|done|by etrans].
  - intros (? & ?). split; [done|by etrans].
  - intros (? & ?). split; [done|by etrans].
Qed.

Lemma resplayed_R s s' : resplayed s s' -> R s s'.
Proof. intros Hr. apply (wb_means _ WB). intros name c. by apply resplayed_means. Qed.

Lemma resplayed_fields s s' : resplayed s s' ->
  is_active s' = is_active s /\ is_ites s' = is_ites s /\ to_list (is_tree s') = to_list (is_tree s) /\
  is_table s' = is_table s /\ is_table_size s' = is_table_size s.
Proof. by intros (tree & -> & _ & Hl). Qed.

(** A pointer to no tree entry of the space. *)
Lemma fresh_ptr s p x : space_inv None s -> is_ites s !! p = None -> (x, p) ∉ to_list (is_tree s).
Proof.
  intros [_ I] Hp Hin. destruct (i_ites _ _ _ _ _ _ _ _ I x p Hin) as (it & ? & _). congruence.
Qed.

Lemma find_active s name :
  match alloc_name_find s name with Found _ s' | Grow s' | NeedTree s' => is_active s' = is_active s end.
Proof.
  unfold alloc_name_find. destruct (_ && _ && _); [done|]. destruct (_ && _ && _); [done|].
  destruct (0 <? _); [|by destruct (_ && _ && _)]. unfold tree_lookup.
  destruct (ipc_splay_tree_lookup _ _) as [tree [e|]]; [done|]. by destruct (_ && _ && _).
Qed.

Lemma insert_active s name p : is_active (insert_tree_entry s name p) = is_active s.
Proof.
  unfold insert_tree_entry. simpl. destruct (_ <? _); [done|]. destruct (_ <? _); [|done].
  unfold ipc_entry_tree_collision. simpl. destruct (ipc_splay_tree_bounds _ _) as [[? ?] ?]. by destruct (negb _).
Qed.

Lemma entry_alloc_name_spec fuel name : u32_range name -> MACH_PORT_VALID name = true -> ~ shadowed name ->
  forall s g te res,
  good s -> (forall p, te = Some p -> is_ites s !! p = None /\ exists m, ite_alloc env m = Some p) ->
  ipc_entry_alloc_name addr env fuel s g name te = Some res -> alloc_name_returns s name res.
Proof.
  intros Hname Hvalid Hns.
  induction fuel as [|fuel IH]; intros s g te res Hg Hte Heq; [done|]. cbn [ipc_entry_alloc_name] in Heq.
  destruct (is_active s) eqn:Hact; cbn [negb] in Heq; cycle 1.
  { injection Heq as <-. split; [done|reflexivity]. }
  pose proof (Hg Hact) as Hinv. pose proof (alloc_name_find_spec s name Hinv Hname) as Hfind.
  pose proof (find_active s name) as Hact1. destruct (alloc_name_find s name) as [r s1|s1|s1]; simpl in Hfind.
  { injection Heq as <-. split; [congruence|]. exists s. by split_and!. }
  - destruct Hfind as (Hrs & _). pose proof (resplayed_inv _ _ _ Hinv Hrs) as Hinv1.
    destruct (resplayed_fields _ _ Hrs) as (_ & Hites1 & _).
    apply (alloc_name_returns_R s s1); [by apply resplayed_R|]. rewrite <- Hact1 in Hact.
    destruct (grow_table_spec s1 g Hact Hinv1) as ([[kr s2] g2] & Hgrow & Hin & Hg2 & HR & HP & Hno).
    rewrite Hgrow in Heq. apply (alloc_name_returns_R s1 s2); [done|].
    destruct kr; try (exfalso; clear -Hin; by set_solver); try (injection Heq as <-).
    + apply (IH s2 g2 te); [done| |done].
      intros p Hp. destruct (Hte p Hp) as [Hs [m Hm]]. split; [|by eauto].
      apply (HP m); [done|]. by rewrite Hites1.
    + split_and!; [by apply Hno|done|reflexivity].
    + split; [done|reflexivity].
  - destruct Hfind as (Hrs & Hno & Hblock). pose proof (resplayed_inv _ _ _ Hinv Hrs) as Hinv1.
    destruct (resplayed_fields _ _ Hrs) as (_ & Hites1 & Hl1 & Ht1 & Hsz1).
    apply (alloc_name_returns_R s s1); [by apply resplayed_R|].
    destruct te as [p|].
    + injection Heq as <-. split; [rewrite insert_active; congruence|].
      exists s1. split_and!; [reflexivity|done|congruence|]. right.
      destruct (Hte p eq_refl) as [Hp _]. apply insert_tree_entry_spec; try done.
      * intros r. rewrite (resplayed_denotes _ _ _ _ _ Hrs). apply Hno.
      * unfold table_blocked. by rewrite Ht1, Hsz1.
      * intros x. apply fresh_ptr; [done|congruence].
      * intros Hz Hgen. apply Hns. split; [done|]. destruct Hinv1 as [_ I1].
        by rewrite <- Hgen, (i_zero_gen _ _ _ _ _ _ _ _ I1).
    + destruct (ite_alloc env (is_ites s1)) as [p|] eqn:Hp; cycle 1.
      { injection Heq as <-. split; [by intros _|reflexivity]. }
      assert (Hg1 : good s1) by (by intros _).
      pose proof (wb_good _ WB s1 g Hg1) as Hg2. pose proof (wb_step _ WB s1 g Hg1) as HR2.
      pose proof (wb_private _ WB _ p s1 g Hp (wb_alloc _ WB _ _ Hp)) as Hpriv.
      destruct (other_threads env (s1, g)) as [s2 g2]. cbn [fst] in *.
      apply (alloc_name_returns_R s1 s2); [done|]. apply (IH s2 g2 (Some p)); [done| |done].
      intros q [= <-]. eauto.
Qed.
End retry.

(** ** A thread that runs alone *)

Section alone.
Context `{PortConfig} `{!EntrySizes}.
Context (addr : Z) (env : environment).
Context (Halone : forall st, other_threads env st = st).
Context (Hite : forall m p, ite_alloc env m = Some p -> m !! p = None).

Lemma alone_well_behaved : well_behaved env same_means.
Proof.
  split.
  - split; [by intros s name c|]. intros s1 s2 s3 H1 H2 name c. by rewrite (H2 name c), (H1 name c).
  - done.
  - intros s g _ name c. by rewrite Halone.
  - intros s g Hg. by rewrite Halone.
  - intros s g _ _. by rewrite Halone.
  - exact Hite.
  - intros m p s g _ Hp. by rewrite Halone.
Qed.

(** Each successful call of [ipc_entry_grow_table] grows the table. *)
Lemma alone_grow_step s g :
  is_active s = true -> is_growing s = false -> space_inv None s ->
  match grow_step addr env s g with
  | Return KERN_SUCCESS s' _ | Again s' _ =>
    is_active s' = true /\ is_growing s' = false /\ space_inv None s' /\
    is_table_next s' = S (is_table_next s)
  | _ => True
  end.
Proof.
  intros Hact Hgro Hinv. pose proof Hinv as [_ I]. pose proof (i_next _ _ _ _ _ _ _ _ I) as Hn.
  unfold grow_step. rewrite Hgro, !Halone.
  destruct (Z.eqb_spec (its_size (pred (is_table_next s))) (its_size (is_table_next s))) as [|Hne]; [done|].
  apply (sizes_differ _ Hn) in Hne. destruct (negb (it_entries_alloc env _)); [done|].
  change (is_active (with_growing false (with_growing true s))) with (is_active s). rewrite Hact. cbn [negb].
  set (s1 := with_growing false (with_growing true s)).
  pose proof (grow_install_spec addr s1 g Hinv Hne) as Hgrow. cbn zeta in Hgrow.
  change (is_table_next s1) with (is_table_next s) in Hgrow.
  change (is_table_size s1) with (is_table_size s) in Hgrow. rewrite (i_size _ _ _ _ _ _ _ _ I) in Hgrow.
  destruct (grow_install addr _ _ _ _ s1 g) as [s2 g2]. cbn [fst] in Hgrow. rewrite Halone.
  destruct Hgrow as (Hinv2 & _ & Hnext2 & Hact2 & Hgro2 & _).
  change (is_active s1) with (is_active s) in Hact2. rewrite Hact in Hact2.
  change (is_growing s1) with false in Hgro2.
  destruct (negb (is_active s2) || _); [done|]. destruct (_ && _); done.
Qed.

Lemma alone_grow_loop fuel : forall s g s' g',
  is_active s = true -> is_growing s = false -> space_inv None s ->
  grow_loop addr env fuel s g = Some (KERN_SUCCESS, s', g') ->
  is_active s' = true /\ is_growing s' = false /\ space_inv None s' /\
  (is_table_next s < is_table_next s')%nat.
Proof.
  induction fuel as [|fuel IH]; intros s g s' g' Hact Hgro Hinv Heq; [done|]. cbn [grow_loop] in Heq.
  pose proof (alone_grow_step s g Hact Hgro Hinv) as Hstep.
  destruct (grow_step addr env s g) as [kr s1 g1|s1 g1].
  - injection Heq as -> -> ->. destruct Hstep as (? & ? & ? & ?). split_and!; try done. lia.
  - destruct Hstep as (? & ? & ? & ?). destruct (IH s1 g1 s' g') as (? & ? & ? & ?); [done..|].
    split_and!; try done. lia.
Qed.

(** The retry loops end: the table cannot grow for ever. *)
Lemma alone_alloc_returns fuel : forall s g,
  is_active s = true -> is_growing s = false -> space_inv None s ->
  (its_last - is_table_next s < fuel)%nat -> is_Some (ipc_entry_alloc addr env fuel s g).
Proof.
  induction fuel as [|fuel IH]; intros s g Hact Hgro Hinv Hf; [lia|]. cbn [ipc_entry_alloc].
  rewrite Hact. cbn [negb]. pose proof (entry_get_spec s Hinv) as Hget.
  destruct (ipc_entry_get s) as [s1 [r|]]; [by eexists|]. destruct Hget as [-> _].
  destruct (grow_table_spec addr env same_means alone_well_behaved s g Hact Hinv)
    as ([[kr s2] g2] & Hgrow & Hin & _). rewrite Hgrow.
  destruct kr; try (by eexists). unfold ipc_entry_grow_table in Hgrow.
  destruct (alone_grow_loop _ _ _ _ _ Hact Hgro Hinv Hgrow) as (? & ? & Hinv2 & ?).
  apply IH; try done. pose proof Hinv2 as [_ I2]. pose proof (i_next _ _ _ _ _ _ _ _ I2). lia.
Qed.

Lemma alone_alloc_name_returns name (Hname : u32_range name) fuel : forall s g te,
  is_active s = true -> is_growing s = false -> space_inv None s ->
  (its_last - is_table_next s + (if te is Some _ then 1 else 2) <= fuel)%nat ->
  is_Some (ipc_entry_alloc_name addr env fuel s g name te).
Proof.
  induction fuel as [|fuel IH]; intros s g te Hact Hgro Hinv Hf; [destruct te; lia|].
  cbn [ipc_entry_alloc_name]. rewrite Hact. cbn [negb].
  pose proof (alloc_name_find_spec s name Hinv Hname) as Hfind.
  destruct (alloc_name_find s name) as [r s1|s1|s1]; [by eexists|..]; simpl in Hfind.
  - destruct Hfind as [Hrs _]. pose proof (resplayed_inv _ _ _ Hinv Hrs) as Hinv1.
    assert (Hfields : is_active s1 = true /\ is_growing s1 = false /\ is_table_next s1 = is_table_next s)
      by (destruct Hrs as (tree & -> & _); done).
    destruct Hfields as (Hact1 & Hgro1 & Hn1).
    destruct (grow_table_spec addr env same_means alone_well_behaved s1 g Hact1 Hinv1)
      as ([[kr s2] g2] & Hgrow & _). rewrite Hgrow.
    destruct kr; try (by eexists). unfold ipc_entry_grow_table in Hgrow.
    destruct (alone_grow_loop _ _ _ _ _ Hact1 Hgro1 Hinv1 Hgrow) as (? & ? & Hinv2 & ?).
    apply IH; try done. pose proof Hinv2 as [_ I2]. pose proof (i_next _ _ _ _ _ _ _ _ I2).
    destruct te; lia.
  - destruct te as [p|]; [by eexists|]. destruct Hfind as [Hrs _].
    destruct (ite_alloc env (is_ites s1)) as [p|]; [|by eexists]. rewrite Halone.
    pose proof (resplayed_inv _ _ _ Hinv Hrs) as Hinv1.
    assert (Hfields : is_active s1 = true /\ is_growing s1 = false /\ is_table_next s1 = is_table_next s)
      by (destruct Hrs as (tree & -> & _); done).
    destruct Hfields as (Hact1 & Hgro1 & Hn1). apply IH; try done. rewrite Hn1. lia.
Qed.
End alone.
