(* ===== verification/World.v ===== *)
(** * Kernel memory for IPC objects (ipc/ipc_object.h, ipc_port.h, ipc_pset.h, ipc_mqueue.h)

    Ports, port sets, messages and waiting threads live in kernel memory and
    are reached by address; [world] is that memory, with the output the IPC
    code produces (notifications sent, threads made runnable) as a list of
    [event]s, oldest first.

    Code that runs on the memory is written in the monad [M]: it threads the
    world, and [None] stands for an access to memory that is not there (a
    freed object, an element beyond a table) or a [panic].  Locks are not
    modelled here: a function runs as a whole; where the code drops a lock and
    takes it again, the model applies the steps of other threads. *)

From S2P Require Import Prelude Names Splay Table Space.

(** ** The monad *)

Definition M (St A : Type) : Type := St -> option (A * St).

#[export] Instance M_ret St : MRet (M St) := fun A x s => Some (x, s).
#[export] Instance M_bind St : MBind (M St) := fun A B f m s =>
  match m s with
  | Some (x, s) => f x s
  | None => None
  end.

Lemma run_bind {St A B} (m : M St A) (f : A -> M St B) s :
  (m ≫= f) s = match m s with Some (x, s) => f x s | None => None end.
Proof. done. Qed.

Definition crash {St A} : M St A := fun _ => None.
Definition gets {St A} (f : St -> A) : M St A := fun s => Some (f s, s).
Definition modify {St} (f : St -> St) : M St unit := fun s => Some (tt, f s).
Definition when {St} (b : bool) (m : M St unit) : M St unit := if b then m else mret tt.

(** ** Running to the end *)

Definition mwp {S A} (m : M S A) (Q : A -> S -> Prop) (st : S) : Prop :=
  exists x st', m st = Some (x, st') /\ Q x st'.

Lemma mwp_bind {S A B} (m : M S A) (f : A -> M S B) Q st :
  mwp m (fun x st' => mwp (f x) Q st') st -> mwp (m ≫= f) Q st.
Proof.
  intros (x & st' & Hm & y & st'' & Hf & HQ). exists y, st''. split; [|done].
  unfold mbind, M_bind. by rewrite Hm.
Qed.

Lemma mwp_ret {S A} (x : A) (Q : A -> S -> Prop) st : Q x st -> mwp (mret x) Q st.
Proof. intros HQ. by exists x, st. Qed.

Lemma mwp_mono {S A} (m : M S A) (Q Q' : A -> S -> Prop) st :
  mwp m Q st -> (forall x st', Q x st' -> Q' x st') -> mwp m Q' st.
Proof. intros (x & st' & Hm & HQ) Hi. exists x, st'. eauto. Qed.

Lemma mwp_gets {S A} (f : S -> A) (Q : A -> S -> Prop) st : Q (f st) st -> mwp (gets f) Q st.
Proof. intros HQ. by exists (f st), st. Qed.

Lemma mwp_modify {S} (f : S -> S) (Q : unit -> S -> Prop) st : Q tt (f st) -> mwp (modify f) Q st.
Proof. intros HQ. by exists tt, (f st). Qed.

Lemma mwp_when {S} (b : bool) (m : M S unit) Q (s : S) :
  (if b then mwp m Q s else Q tt s) -> mwp (when b m) Q s.
Proof. destruct b; [done|]. by apply mwp_ret. Qed.

(** ** Objects *)

Definition IO_DEAD : Z := u32_max.
Definition IP_NULL : Z := IO_NULL.
Definition IP_DEAD : Z := IO_DEAD.
Definition IPS_NULL : Z := IO_NULL.
Definition IS_NULL : Z := 0.

Definition IO_VALID (io : Z) : bool := negb (io =? IO_NULL) && negb (io =? IO_DEAD).
Definition IP_VALID (port : Z) : bool := IO_VALID port.

Definition IO_BITS_KOTYPE : Z := 0x0000ffff.
Definition IO_BITS_OTYPE : Z := 0x7fff0000.
Definition IO_BITS_ACTIVE : Z := 0x80000000.

(** [(int) io_bits < 0]. *)
Definition io_active (bits : Z) : bool := Z.testbit bits 31.
Definition io_kotype (bits : Z) : Z := Z.land bits IO_BITS_KOTYPE.
Definition io_makebits (active : bool) (otype kotype : Z) : Z :=
  Z.lor (Z.lor (if active then IO_BITS_ACTIVE else 0) (Z.shiftl otype 16)) kotype.

Definition IOT_PORT : Z := 0.
Definition IOT_PORT_SET : Z := 1.
Definition IKOT_NONE : Z := 0.

(** Message queues: the messages waiting for a receiver, and the receivers
    waiting for a message, first in line first. *)
Record ipc_mqueue := mk_mqueue {
  imq_messages : list Z;
  imq_threads : list Z
}.

Definition ipc_mqueue_init : ipc_mqueue := mk_mqueue [] [].

(** One dead-name request; [ipr_notify] is the union of [ipr_soright] and
    [ipr_next], [ipr_name] is [MACH_PORT_NULL] in a free one. *)
Record ipc_port_request := mk_ipr {
  ipr_notify : Z;
  ipr_name : Z
}.

(** The table of dead-name requests of a port.  In the code element 0 holds
    the head of the free list and, in the place of the name, the size. *)
Record ipc_port_requests := mk_requests {
  ipr_addr : Z;                      (* where the table is *)
  ipr_size : nat;                    (* an index into [ipc_table_dnrequests] *)
  ipr_table : list ipc_port_request
}.

(** [ip_data] is the union of [ip_receiver], [ip_destination] and
    [ip_timestamp]; [ip_cur_target] is the object whose target it is. *)
Record ipc_port := mk_port {
  ip_references : Z;
  ip_bits : Z;
  ip_receiver_name : Z;
  ip_data : Z;
  ip_mscount : Z;
  ip_srights : Z;
  ip_sorights : Z;
  ip_nsrequest : Z;
  ip_pdrequest : Z;
  ip_dnrequests : option ipc_port_requests;
  ip_pset : Z;
  ip_cur_target : Z;
  ip_seqno : Z;
  ip_msgcount : Z;
  ip_qlimit : Z;
  ip_blocked : list Z;
  ip_messages : ipc_mqueue
}.

Definition set_ip_references (v : Z) (p : ipc_port) : ipc_port :=
  mk_port v (ip_bits p) (ip_receiver_name p) (ip_data p) (ip_mscount p) (ip_srights p) (ip_sorights p) (ip_nsrequest p) (ip_pdrequest p) (ip_dnrequests p) (ip_pset p) (ip_cur_target p) (ip_seqno p) (ip_msgcount p) (ip_qlimit p) (ip_blocked p) (ip_messages p).
Definition set_ip_bits (v : Z) (p : ipc_port) : ipc_port :=
  mk_port (ip_references p) v (ip_receiver_name p) (ip_data p) (ip_mscount p) (ip_srights p) (ip_sorights p) (ip_nsrequest p) (ip_pdrequest p) (ip_dnrequests p) (ip_pset p) (ip_cur_target p) (ip_seqno p) (ip_msgcount p) (ip_qlimit p) (ip_blocked p) (ip_messages p).
Definition set_ip_receiver_name (v : Z) (p : ipc_port) : ipc_port :=
  mk_port (ip_references p) (ip_bits p) v (ip_data p) (ip_mscount p) (ip_srights p) (ip_sorights p) (ip_nsrequest p) (ip_pdrequest p) (ip_dnrequests p) (ip_pset p) (ip_cur_target p) (ip_seqno p) (ip_msgcount p) (ip_qlimit p) (ip_blocked p) (ip_messages p).
Definition set_ip_data (v : Z) (p : ipc_port) : ipc_port :=
  mk_port (ip_references p) (ip_bits p) (ip_receiver_name p) v (ip_mscount p) (ip_srights p) (ip_sorights p) (ip_nsrequest p) (ip_pdrequest p) (ip_dnrequests p) (ip_pset p) (ip_cur_target p) (ip_seqno p) (ip_msgcount p) (ip_qlimit p) (ip_blocked p) (ip_messages p).
Definition set_ip_mscount (v : Z) (p : ipc_port) : ipc_port :=
  mk_port (ip_references p) (ip_bits p) (ip_receiver_name p) (ip_data p) v (ip_srights p) (ip_sorights p) (ip_nsrequest p) (ip_pdrequest p) (ip_dnrequests p) (ip_pset p) (ip_cur_target p) (ip_seqno p) (ip_msgcount p) (ip_qlimit p) (ip_blocked p) (ip_messages p).
Definition set_ip_srights (v : Z) (p : ipc_port) : ipc_port :=
  mk_port (ip_references p) (ip_bits p) (ip_receiver_name p) (ip_data p) (ip_mscount p) v (ip_sorights p) (ip_nsrequest p) (ip_pdrequest p) (ip_dnrequests p) (ip_pset p) (ip_cur_target p) (ip_seqno p) (ip_msgcount p) (ip_qlimit p) (ip_blocked p) (ip_messages p).
Definition set_ip_sorights (v : Z) (p : ipc_port) : ipc_port :=
  mk_port (ip_references p) (ip_bits p) (ip_receiver_name p) (ip_data p) (ip_mscount p) (ip_srights p) v (ip_nsrequest p) (ip_pdrequest p) (ip_dnrequests p) (ip_pset p) (ip_cur_target p) (ip_seqno p) (ip_msgcount p) (ip_qlimit p) (ip_blocked p) (ip_messages p).
Definition set_ip_nsrequest (v : Z) (p : ipc_port) : ipc_port :=
  mk_port (ip_references p) (ip_bits p) (ip_receiver_name p) (ip_data p) (ip_mscount p) (ip_srights p) (ip_sorights p) v (ip_pdrequest p) (ip_dnrequests p) (ip_pset p) (ip_cur_target p) (ip_seqno p) (ip_msgcount p) (ip_qlimit p) (ip_blocked p) (ip_messages p).
Definition set_ip_pdrequest (v : Z) (p : ipc_port) : ipc_port :=
  mk_port (ip_references p) (ip_bits p) (ip_receiver_name p) (ip_data p) (ip_mscount p) (ip_srights p) (ip_sorights p) (ip_nsrequest p) v (ip_dnrequests p) (ip_pset p) (ip_cur_target p) (ip_seqno p) (ip_msgcount p) (ip_qlimit p) (ip_blocked p) (ip_messages p).
Definition set_ip_dnrequests (v : option ipc_port_requests) (p : ipc_port) : ipc_port :=
  mk_port (ip_references p) (ip_bits p) (ip_receiver_name p) (ip_data p) (ip_mscount p) (ip_srights p) (ip_sorights p) (ip_nsrequest p) (ip_pdrequest p) v (ip_pset p) (ip_cur_target p) (ip_seqno p) (ip_msgcount p) (ip_qlimit p) (ip_blocked p) (ip_messages p).
Definition set_ip_pset (v : Z) (p : ipc_port) : ipc_port :=
  mk_port (ip_references p) (ip_bits p) (ip_receiver_name p) (ip_data p) (ip_mscount p) (ip_srights p) (ip_sorights p) (ip_nsrequest p) (ip_pdrequest p) (ip_dnrequests p) v (ip_cur_target p) (ip_seqno p) (ip_msgcount p) (ip_qlimit p) (ip_blocked p) (ip_messages p).
Definition set_ip_cur_target (v : Z) (p : ipc_port) : ipc_port :=
  mk_port (ip_references p) (ip_bits p) (ip_receiver_name p) (ip_data p) (ip_mscount p) (ip_srights p) (ip_sorights p) (ip_nsrequest p) (ip_pdrequest p) (ip_dnrequests p) (ip_pset p) v (ip_seqno p) (ip_msgcount p) (ip_qlimit p) (ip_blocked p) (ip_messages p).
Definition set_ip_seqno (v : Z) (p : ipc_port) : ipc_port :=
  mk_port (ip_references p) (ip_bits p) (ip_receiver_name p) (ip_data p) (ip_mscount p) (ip_srights p) (ip_sorights p) (ip_nsrequest p) (ip_pdrequest p) (ip_dnrequests p) (ip_pset p) (ip_cur_target p) v (ip_msgcount p) (ip_qlimit p) (ip_blocked p) (ip_messages p).
Definition set_ip_msgcount (v : Z) (p : ipc_port) : ipc_port :=
  mk_port (ip_references p) (ip_bits p) (ip_receiver_name p) (ip_data p) (ip_mscount p) (ip_srights p) (ip_sorights p) (ip_nsrequest p) (ip_pdrequest p) (ip_dnrequests p) (ip_pset p) (ip_cur_target p) (ip_seqno p) v (ip_qlimit p) (ip_blocked p) (ip_messages p).
Definition set_ip_qlimit (v : Z) (p : ipc_port) : ipc_port :=
  mk_port (ip_references p) (ip_bits p) (ip_receiver_name p) (ip_data p) (ip_mscount p) (ip_srights p) (ip_sorights p) (ip_nsrequest p) (ip_pdrequest p) (ip_dnrequests p) (ip_pset p) (ip_cur_target p) (ip_seqno p) (ip_msgcount p) v (ip_blocked p) (ip_messages p).
Definition set_ip_blocked (v : list Z) (p : ipc_port) : ipc_port :=
  mk_port (ip_references p) (ip_bits p) (ip_receiver_name p) (ip_data p) (ip_mscount p) (ip_srights p) (ip_sorights p) (ip_nsrequest p) (ip_pdrequest p) (ip_dnrequests p) (ip_pset p) (ip_cur_target p) (ip_seqno p) (ip_msgcount p) (ip_qlimit p) v (ip_messages p).
Definition set_ip_messages (v : ipc_mqueue) (p : ipc_port) : ipc_port :=
  mk_port (ip_references p) (ip_bits p) (ip_receiver_name p) (ip_data p) (ip_mscount p) (ip_srights p) (ip_sorights p) (ip_nsrequest p) (ip_pdrequest p) (ip_dnrequests p) (ip_pset p) (ip_cur_target p) (ip_seqno p) (ip_msgcount p) (ip_qlimit p) (ip_blocked p) v.

Definition ip_receiver (p : ipc_port) : Z := ip_data p.
Definition ip_destination (p : ipc_port) : Z := ip_data p.
Definition ip_timestamp (p : ipc_port) : Z := ip_data p.
Definition ip_active (p : ipc_port) : bool := io_active (ip_bits p).

Record ipc_pset := mk_pset {
  ips_references : Z;
  ips_bits : Z;
  ips_local_name : Z;
  ips_messages : ipc_mqueue
}.

Definition ips_active (p : ipc_pset) : bool := io_active (ips_bits p).
Definition set_ips_references (v : Z) (p : ipc_pset) : ipc_pset :=
  mk_pset v (ips_bits p) (ips_local_name p) (ips_messages p).
Definition set_ips_bits (v : Z) (p : ipc_pset) : ipc_pset :=
  mk_pset (ips_references p) v (ips_local_name p) (ips_messages p).
Definition set_ips_local_name (v : Z) (p : ipc_pset) : ipc_pset :=
  mk_pset (ips_references p) (ips_bits p) v (ips_messages p).
Definition set_ips_messages (v : ipc_mqueue) (p : ipc_pset) : ipc_pset :=
  mk_pset (ips_references p) (ips_bits p) (ips_local_name p) v.

(** The part of a thread that waits in a queue. *)
Record ipc_thread := mk_thread {
  ith_state : Z;
  ith_kmsg : Z;
  ith_seqno : Z;
  ith_msize : Z
}.

(** The header of a message and its message-accepted request. *)
Record ipc_kmsg := mk_kmsg {
  ikm_marequest : Z;
  msgh_bits : Z;
  msgh_size : Z;
  msgh_remote_port : Z;
  msgh_local_port : Z
}.

Definition set_marequest (v : Z) (k : ipc_kmsg) : ipc_kmsg :=
  mk_kmsg v (msgh_bits k) (msgh_size k) (msgh_remote_port k) (msgh_local_port k).
Definition set_remote_port (v : Z) (k : ipc_kmsg) : ipc_kmsg :=
  mk_kmsg (ikm_marequest k) (msgh_bits k) (msgh_size k) v (msgh_local_port k).

Definition IMAR_NULL : Z := 0.
Definition MACH_MSG_SUCCESS : Z := 0.
Definition MACH_RCV_TOO_LARGE : Z := 0x10004004.
Definition MACH_RCV_PORT_CHANGED : Z := 0x10004006.
Definition MACH_RCV_PORT_DIED : Z := 0x10004009.

(** ** Output *)

Inductive event :=
| ThreadGo (th : Z)
| NotifyNoSenders (notify mscount : Z)
| NotifySendOnce (notify : Z)
| NotifyDeadName (notify name : Z)
| NotifyPortDeleted (notify name : Z)
| NotifyPortDeletedCompat (notify name : Z)
| NotifyPortDestroyed (notify port : Z)
| NotifyPortDestroyedCompat (notify port : Z)
| KmsgDestroy (kmsg : Z)
| KobjectDestroy (port : Z)
| DeleteCompat (port space name : Z)
| MarequestCancel (name : Z)
| MarequestRename (oname nname : Z)
| MarequestDestroy (marequest : Z)
| NotifyMsgAccepted (notify name : Z)
| NotifyMsgAcceptedCompat (notify name : Z)
| SpaceReference
| SpaceRelease
| ObjectFree (object : Z).

Record world := mk_world {
  w_ports : gmap Z ipc_port;
  w_psets : gmap Z ipc_pset;
  w_threads : gmap Z ipc_thread;
  w_kmsgs : gmap Z ipc_kmsg;
  w_timestamp : Z;
  w_events : list event
}.

Definition with_ports (v : gmap Z ipc_port) (w : world) : world :=
  mk_world v (w_psets w) (w_threads w) (w_kmsgs w) (w_timestamp w) (w_events w).
Definition with_psets (v : gmap Z ipc_pset) (w : world) : world :=
  mk_world (w_ports w) v (w_threads w) (w_kmsgs w) (w_timestamp w) (w_events w).
Definition with_threads (v : gmap Z ipc_thread) (w : world) : world :=
  mk_world (w_ports w) (w_psets w) v (w_kmsgs w) (w_timestamp w) (w_events w).
Definition with_kmsgs (v : gmap Z ipc_kmsg) (w : world) : world :=
  mk_world (w_ports w) (w_psets w) (w_threads w) v (w_timestamp w) (w_events w).
Definition with_timestamp (v : Z) (w : world) : world :=
  mk_world (w_ports w) (w_psets w) (w_threads w) (w_kmsgs w) v (w_events w).
Definition with_events (v : list event) (w : world) : world :=
  mk_world (w_ports w) (w_psets w) (w_threads w) (w_kmsgs w) (w_timestamp w) v.

Definition emit (e : event) : M world unit := modify (fun w => with_events (w_events w ++ [e]) w).

Definition port_at (p : Z) : M world ipc_port := fun w =>
  match w_ports w !! p with Some x => Some (x, w) | None => None end.
Definition set_port (p : Z) (x : ipc_port) : M world unit :=
  modify (fun w => with_ports (<[p := x]> (w_ports w)) w).
Definition update_port (p : Z) (f : ipc_port -> ipc_port) : M world unit :=
  x ← port_at p; set_port p (f x).

Definition pset_at (p : Z) : M world ipc_pset := fun w =>
  match w_psets w !! p with Some x => Some (x, w) | None => None end.
Definition update_pset (p : Z) (f : ipc_pset -> ipc_pset) : M world unit :=
  x ← pset_at p; modify (fun w => with_psets (<[p := f x]> (w_psets w)) w).

Definition thread_at (p : Z) : M world ipc_thread := fun w =>
  match w_threads w !! p with Some x => Some (x, w) | None => None end.
Definition update_thread (p : Z) (f : ipc_thread -> ipc_thread) : M world unit :=
  x ← thread_at p; modify (fun w => with_threads (<[p := f x]> (w_threads w)) w).

Definition kmsg_at (p : Z) : M world ipc_kmsg := fun w =>
  match w_kmsgs w !! p with Some x => Some (x, w) | None => None end.
Definition update_kmsg (p : Z) (f : ipc_kmsg -> ipc_kmsg) : M world unit :=
  x ← kmsg_at p; modify (fun w => with_kmsgs (<[p := f x]> (w_kmsgs w)) w).

(** ** References *)

Definition ip_reference (port : Z) : M world unit :=
  update_port port (fun p => set_ip_references (u32 (ip_references p + 1)) p).

Definition ip_release (port : Z) : M world unit :=
  update_port port (fun p => set_ip_references (u32 (ip_references p - 1)) p).

(** [io_check_unlock]: free the object if nothing refers to it. *)
Definition ip_check_unlock (port : Z) : M world unit :=
  p ← port_at port;
  when (ip_references p =? 0)
    (modify (fun w => with_ports (delete port (w_ports w)) w);; emit (ObjectFree port)).

Definition ipc_port_release (port : Z) : M world unit :=
  ip_release port;; ip_check_unlock port.

Definition ips_reference (pset : Z) : M world unit :=
  update_pset pset (fun p => set_ips_references (u32 (ips_references p + 1)) p).

Definition ips_release (pset : Z) : M world unit :=
  update_pset pset (fun p => set_ips_references (u32 (ips_references p - 1)) p).

Definition ips_check_unlock (pset : Z) : M world unit :=
  p ← pset_at pset;
  when (ips_references p =? 0)
    (modify (fun w => with_psets (delete pset (w_psets w)) w);; emit (ObjectFree pset)).
