(* ===== verification/Queue.v ===== *)
(** * Circular queues of threads and messages (ipc/ipc_thread.h, ipc_thread.c, ipc_kmsg.h, ipc_kmsg.c)

    Waiting threads and queued messages are linked into circles: a queue is
    one word, [ithq_base] or [ikmq_base], that points to the first element, and
    every element points to the next and the previous one.  The two kinds of
    queue differ in what an element outside of all queues looks like: the links
    of a thread point to the thread itself, those of a message are bogus.

    [rings] is the memory of such queues, [lists] the abstract state: a finite
    map from queues to the list of their elements, first in line first.
    [represents] relates them, and every routine is shown to implement the
    operation on lists; the other components use lists. *)

From S2P Require Import Prelude World.

(** ** Memory *)

Record links := mk_links { l_next : Z; l_prev : Z }.

Record rings := mk_rings {
  r_base : gmap Z Z;        (* by the address of the queue *)
  r_links : gmap Z links    (* by the address of the thread or message *)
}.

Definition Q_NULL : Z := 0.
Definition IKM_BOGUS : Z := 0xffffff10.

Definition base_at (queue : Z) : M rings Z := fun r =>
  match r_base r !! queue with Some b => Some (b, r) | None => None end.
Definition set_base (queue b : Z) : M rings unit := fun r =>
  match r_base r !! queue with
  | Some _ => Some (tt, mk_rings (<[queue := b]> (r_base r)) (r_links r))
  | None => None
  end.
Definition links_at (x : Z) : M rings links := fun r =>
  match r_links r !! x with Some l => Some (l, r) | None => None end.
Definition set_links (x : Z) (f : links -> links) : M rings unit := fun r =>
  match r_links r !! x with
  | Some l => Some (tt, mk_rings (r_base r) (<[x := f l]> (r_links r)))
  | None => None
  end.

Definition set_next (x next : Z) : M rings unit := set_links x (fun l => mk_links next (l_prev l)).
Definition set_prev (x prev : Z) : M rings unit := set_links x (fun l => mk_links (l_next l) prev).

(** ** Queues of threads *)

Definition ipc_thread_links_init (thread : Z) : M rings unit :=
  set_next thread thread;; set_prev thread thread.

Definition ipc_thread_queue_init (queue : Z) : M rings unit := set_base queue Q_NULL.

Definition ipc_thread_queue_empty (queue : Z) : M rings bool :=
  b ← base_at queue; mret (b =? Q_NULL).

Definition ipc_thread_queue_first (queue : Z) : M rings Z := base_at queue.

Definition ipc_thread_enqueue (queue thread : Z) : M rings unit :=
  first ← base_at queue;
  if first =? Q_NULL then set_base queue thread
  else
    f ← links_at first;
    let last := l_prev f in
    set_next thread first;;
    set_prev thread last;;
    set_prev first thread;;
    set_next last thread.

Definition ipc_thread_rmqueue_first_macro (queue thread : Z) : M rings unit :=
  t ← links_at thread;
  let next := l_next t in
  if next =? thread then set_base queue Q_NULL
  else
    let prev := l_prev t in
    set_base queue next;;
    set_prev next prev;;
    set_next prev next;;
    ipc_thread_links_init thread.

Definition ipc_thread_dequeue (queue : Z) : M rings Z :=
  first ← ipc_thread_queue_first queue;
  when (negb (first =? Q_NULL)) (ipc_thread_rmqueue_first_macro queue first);;
  mret first.

Definition ipc_thread_rmqueue (queue thread : Z) : M rings unit :=
  t ← links_at thread;
  let next := l_next t in
  let prev := l_prev t in
  if next =? thread then set_base queue Q_NULL
  else
    b ← base_at queue;
    when (b =? thread) (set_base queue next);;
    set_prev next prev;;
    set_next prev next;;
    ipc_thread_links_init thread.

(** ** Queues of messages *)

Definition ipc_kmsg_queue_init (queue : Z) : M rings unit := set_base queue Q_NULL.

Definition ipc_kmsg_queue_empty (queue : Z) : M rings bool :=
  b ← base_at queue; mret (b =? Q_NULL).

Definition ipc_kmsg_queue_first (queue : Z) : M rings Z := base_at queue.

Definition ipc_kmsg_enqueue (queue kmsg : Z) : M rings unit :=
  first ← base_at queue;
  if first =? Q_NULL then
    set_base queue kmsg;;
    set_next kmsg kmsg;;
    set_prev kmsg kmsg
  else
    f ← links_at first;
    let last := l_prev f in
    set_next kmsg first;;
    set_prev kmsg last;;
    set_prev first kmsg;;
    set_next last kmsg.

Definition ipc_kmsg_rmqueue_first_macro (queue kmsg : Z) : M rings unit :=
  k ← links_at kmsg;
  let next := l_next k in
  (if next =? kmsg then set_base queue Q_NULL
   else
     let prev := l_prev k in
     set_base queue next;;
     set_prev next prev;;
     set_next prev next);;
  set_next kmsg IKM_BOGUS;;
  set_prev kmsg IKM_BOGUS.

Definition ipc_kmsg_dequeue (queue : Z) : M rings Z :=
  first ← ipc_kmsg_queue_first queue;
  when (negb (first =? Q_NULL)) (ipc_kmsg_rmqueue_first_macro queue first);;
  mret first.

Definition ipc_kmsg_rmqueue (queue kmsg : Z) : M rings unit :=
  k ← links_at kmsg;
  let next := l_next k in
  let prev := l_prev k in
  (if next =? kmsg then set_base queue Q_NULL
   else
     b ← base_at queue;
     when (b =? kmsg) (set_base queue next);;
     set_prev next prev;;
     set_next prev next);;
  set_next kmsg IKM_BOGUS;;
  set_prev kmsg IKM_BOGUS.

Definition ipc_kmsg_queue_next (queue kmsg : Z) : M rings Z :=
  k ← links_at kmsg;
  b ← base_at queue;
  mret (if b =? l_next k then Q_NULL else l_next k).

(** ** Circles

    [chain m p l n]: the elements of [l] are linked in this order, the first
    one has the predecessor [p] and the last one the successor [n]. *)

Fixpoint chain (m : gmap Z links) (p : Z) (l : list Z) (n : Z) : Prop :=
  match l with
  | [] => True
  | x :: k => m !! x = Some (mk_links (List.hd n k) p) /\ chain m x k n
  end.

Definition ring (m : gmap Z links) (l : list Z) : Prop :=
  chain m (List.last l Q_NULL) l (List.hd Q_NULL l).

Definition put_next (x next : Z) : gmap Z links -> gmap Z links :=
  alter (fun l => mk_links next (l_prev l)) x.
Definition put_prev (x prev : Z) : gmap Z links -> gmap Z links :=
  alter (fun l => mk_links (l_next l) prev) x.

Lemma last_snoc (l : list Z) x d : List.last (l ++ [x]) d = x.
Proof. apply List.last_last. Qed.

Lemma last_cons_default (l : list Z) x d : List.last (x :: l) d = List.last l x.
Proof.
  revert x d. induction l as [|y l IH]; intros x d; [done|].
  transitivity (List.last (y :: l) d); [done|]. by rewrite (IH y d), (IH y x).
Qed.

Lemma last_app_default (l1 l2 : list Z) d : List.last (l1 ++ l2) d = List.last l2 (List.last l1 d).
Proof.
  induction l2 as [|x l2 IH] using rev_ind; [by rewrite app_nil_r|].
  by rewrite app_assoc, !last_snoc.
Qed.

Lemma hd_app (l1 l2 : list Z) d : List.hd d (l1 ++ l2) = List.hd (List.hd d l2) l1.
Proof. by destruct l1. Qed.

Lemma hd_any (l : list Z) d d' : l <> [] -> List.hd d l = List.hd d' l.
Proof. by destruct l. Qed.

Lemma last_any (l : list Z) d d' : l <> [] -> List.last l d = List.last l d'.
Proof. destruct l as [|x l]; [done|]. intros _. by rewrite !last_cons_default. Qed.

Lemma last_elem (l : list Z) d : l <> [] -> List.last l d ∈ l.
Proof.
  destruct l as [|x l _] using rev_ind; [done|]. intros _. rewrite last_snoc.
  apply elem_of_app. right. by apply list_elem_of_singleton.
Qed.

Lemma hd_elem (l : list Z) d : l <> [] -> List.hd d l ∈ l.
Proof. destruct l; [done|]. intros _. by left. Qed.

Lemma chain_app m p l1 l2 n :
  chain m p (l1 ++ l2) n <-> chain m p l1 (List.hd n l2) /\ chain m (List.last l1 p) l2 n.
Proof.
  revert p. induction l1 as [|x l1 IH]; intros p; [simpl; tauto|].
  cbn [chain app]. rewrite IH, hd_app, last_cons_default. tauto.
Qed.

Lemma chain_frame m m' p l n :
  (forall x, x ∈ l -> m' !! x = m !! x) -> chain m p l n -> chain m' p l n.
Proof.
  revert p. induction l as [|x l IH]; intros p Heq; [done|]. simpl. intros [Hx Hl].
  rewrite Heq by (by left). split; [done|]. apply IH; [|done]. intros y Hy. apply Heq. by right.
Qed.

Lemma chain_is_Some m p l n x : chain m p l n -> x ∈ l -> is_Some (m !! x).
Proof.
  revert p. induction l as [|y l IH]; intros p; [set_solver|]. simpl. intros [Hy Hl] Hx.
  apply elem_of_cons in Hx as [->|Hx]; [eauto|by eapply IH].
Qed.

Lemma chain_put_prev m p p' x l n :
  NoDup (x :: l) -> chain m p (x :: l) n -> chain (put_prev x p' m) p' (x :: l) n.
Proof.
  intros [Hx _]%NoDup_cons [Hl Hc]. unfold put_prev. split.
  - by rewrite lookup_alter_eq, Hl.
  - apply (chain_frame m); [|done]. intros y Hy. apply lookup_alter_ne. set_solver.
Qed.

Lemma chain_put_next m p x l n n' :
  NoDup (l ++ [x]) -> chain m p (l ++ [x]) n -> chain (put_next x n' m) p (l ++ [x]) n'.
Proof.
  intros (_ & Hx & _)%NoDup_app [Hl [Hc _]]%chain_app. unfold put_next. apply chain_app. split.
  - apply (chain_frame m); [|done]. intros y Hy. apply lookup_alter_ne. set_solver.
  - simpl in *. by rewrite lookup_alter_eq, Hc.
Qed.

Lemma ring_frame m m' l : (forall x, x ∈ l -> m' !! x = m !! x) -> ring m l -> ring m' l.
Proof. apply chain_frame. Qed.

Lemma ring_is_Some m l x : ring m l -> x ∈ l -> is_Some (m !! x).
Proof. apply chain_is_Some. Qed.

(** A circle can be entered anywhere. *)
Lemma ring_rotate m l1 l2 : ring m (l1 ++ l2) -> ring m (l2 ++ l1).
Proof.
  destruct l1 as [|x1 l1]; [by rewrite app_nil_r|]. destruct l2 as [|x2 l2]; [by rewrite app_nil_r|].
  unfold ring. rewrite !chain_app, !last_app_default, !last_cons_default. cbn [List.hd app]. tauto.
Qed.

(** Closing a circle: the ends of a chain are linked to each other. *)
Lemma chain_close m p l n :
  l <> [] -> NoDup l -> chain m p l n ->
  ring (put_next (List.last l Q_NULL) (List.hd Q_NULL l) (put_prev (List.hd Q_NULL l) (List.last l Q_NULL) m)) l.
Proof.
  intros Hne Hnd Hc. unfold ring. set (z := List.last l Q_NULL). set (f := List.hd Q_NULL l).
  assert (Hc' : chain (put_prev f z m) z l n).
  { destruct l as [|x k]; [done|]. by apply (chain_put_prev _ p). }
  clearbody f. subst z. destruct l as [|x k _] using rev_ind; [done|].
  rewrite last_snoc in *. by apply (chain_put_next _ _ _ _ n).
Qed.

(** Taking an element out of a circle, and adding one at the end. *)
Lemma ring_remove m x k :
  k <> [] -> NoDup (x :: k) -> ring m (x :: k) ->
  ring (put_next (List.last k Q_NULL) (List.hd Q_NULL k) (put_prev (List.hd Q_NULL k) (List.last k Q_NULL) m)) k.
Proof.
  intros Hne [_ Hnd]%NoDup_cons [_ Hc]. by apply (chain_close _ x _ x).
Qed.

Lemma ring_add m x k :
  k <> [] -> NoDup (k ++ [x]) -> ring m k -> m !! x = Some (mk_links (List.hd Q_NULL k) (List.last k Q_NULL)) ->
  ring (put_next (List.last k Q_NULL) x (put_prev (List.hd Q_NULL k) x m)) (k ++ [x]).
Proof.
  intros Hne Hnd Hr Hx. pose proof Hnd as (Hnk & Hxk & _)%NoDup_app.
  assert (Hkx : forall y, y ∈ k -> y <> x) by set_solver.
  unfold ring. rewrite last_snoc, hd_app. cbn [List.hd]. rewrite (hd_any k x Q_NULL) by done.
  apply chain_app. cbn [List.hd chain]. split.
  - assert (Hc' : chain (put_prev (List.hd Q_NULL k) x m) x k (List.hd Q_NULL k)).
    { destruct k as [|y k]; [done|]. by apply (chain_put_prev _ (List.last (y :: k) Q_NULL)). }
    revert Hc'. generalize (List.hd Q_NULL k) at 2. intros n Hc'.
    generalize dependent (put_prev (List.hd Q_NULL k) x m). intros m' Hc'.
    destruct k as [|z k _] using rev_ind; [done|]. rewrite last_snoc.
    by apply (chain_put_next _ _ _ _ n).
  - split; [|done]. unfold put_next, put_prev.
    rewrite !lookup_alter_ne by (apply Hkx; (apply last_elem || apply hd_elem); done).
    by rewrite Hx, (last_any k x Q_NULL).
Qed.

(** ** The abstract state *)

Record lists := mk_lists {
  q_lists : gmap Z (list Z);
  q_known : gset Z             (* the threads or messages that exist *)
}.

Definition set_list (q : Z) (l : list Z) (Q : lists) : lists :=
  mk_lists (<[q := l]> (q_lists Q)) (q_known Q).

(** [x] is in no queue. *)
Definition idle (Q : lists) (x : Z) : Prop := map_Forall (fun _ l => x ∉ l) (q_lists Q).
#[export] Instance idle_decision Q x : Decision (idle Q x).
Proof. unfold idle. apply _. Defined.

(** [outside x k]: what the links of an element look like that is in no queue. *)
Record represents (outside : Z -> links -> Prop) (r : rings) (Q : lists) : Prop := {
  rep_base q : r_base r !! q = List.hd Q_NULL <$> (q_lists Q !! q);
  rep_known x : is_Some (r_links r !! x) <-> x ∈ q_known Q;
  rep_list q l : q_lists Q !! q = Some l -> NoDup l /\ (Q_NULL ∉ l) /\ ring (r_links r) l;
  rep_apart q q' l l' x : q_lists Q !! q = Some l -> q_lists Q !! q' = Some l' -> x ∈ l -> x ∈ l' -> q = q';
  rep_outside x k : r_links r !! x = Some k -> idle Q x -> outside x k
}.

Definition thread_outside (x : Z) (k : links) : Prop := k = mk_links x x.
Definition kmsg_outside (x : Z) (k : links) : Prop := True.

Section represents.
Context (outside : Z -> links -> Prop).
Implicit Types (r : rings) (Q : lists) (m : gmap Z links) (l : list Z).

(** One queue changes from [l] to [l']; memory changes only at their elements. *)
Lemma represents_update r Q q l l' m' :
  represents outside r Q -> q_lists Q !! q = Some l ->
  NoDup l' -> Q_NULL ∉ l' -> ring m' l' ->
  (forall x, x ∈ l' -> x ∈ l \/ idle Q x) ->
  (forall x, is_Some (m' !! x) <-> is_Some (r_links r !! x)) ->
  (forall x, x ∉ l -> x ∉ l' -> m' !! x = r_links r !! x) ->
  (forall x k, x ∈ l -> x ∉ l' -> m' !! x = Some k -> outside x k) ->
  represents outside (mk_rings (<[q := List.hd Q_NULL l']> (r_base r)) m') (set_list q l' Q).
Proof.
  intros R Hq Hnd H0 Hring Hnew Hdom Hframe Hout.
  assert (Hother : forall q2 l2 x, q2 <> q -> q_lists Q !! q2 = Some l2 -> x ∈ l2 -> (x ∉ l) /\ (x ∉ l')).
  { intros q2 l2 x Hne Hl2 Hx.
    assert (x ∉ l) by (intros Hxl; apply Hne; by apply (rep_apart _ _ _ R q2 q l2 l x)).
    split; [done|]. intros [?|Hx']%Hnew; [done|]. by apply (Hx' q2 l2). }
  split; simpl.
  - intros q2. destruct (decide (q2 = q)) as [->|Hne]; [by rewrite !lookup_insert_eq|].
    rewrite !lookup_insert_ne by done. apply (rep_base _ _ _ R).
  - intros x. rewrite Hdom. apply (rep_known _ _ _ R).
  - intros q2 l2. destruct (decide (q2 = q)) as [->|Hne].
    + rewrite lookup_insert_eq. by intros [= <-].
    + rewrite lookup_insert_ne by done. intros Hl2.
      destruct (rep_list _ _ _ R _ _ Hl2) as (? & ? & Hr). split_and!; [done..|].
      apply (ring_frame (r_links r)); [|done]. intros x Hx. by apply Hframe; apply (Hother q2 l2).
  - intros q1 q2 l1 l2 x. rewrite !lookup_insert_Some.
    intros [[<- <-]|[Hn1 H1]] [[<- <-]|[Hn2 H2]] Hx1 Hx2; [done| | |].
    + by destruct (Hother q2 l2 x).
    + by destruct (Hother q1 l1 x).
    + by apply (rep_apart _ _ _ R q1 q2 l1 l2 x).
  - intros x k Hk Hx.
    assert (Hxl' : x ∉ l').
    { apply (Hx q). simpl. by rewrite lookup_insert_eq. }
    destruct (decide (x ∈ l)) as [Hin|Hin]; [by apply Hout|].
    rewrite Hframe in Hk by done. apply (rep_outside _ _ _ R _ _ Hk). intros q2 l2 Hl2.
    destruct (decide (q2 = q)) as [->|Hne]; [by simplify_eq|].
    apply (Hx q2). simpl. by rewrite lookup_insert_ne.
Qed.

Lemma base_of r Q q l : represents outside r Q -> q_lists Q !! q = Some l -> r_base r !! q = Some (List.hd Q_NULL l).
Proof. intros R Hq. by rewrite (rep_base _ _ _ R), Hq. Qed.

End represents.

(** Running the accesses. *)
Lemma run_base_at r q b : r_base r !! q = Some b -> base_at q r = Some (b, r).
Proof. unfold base_at. intros Hb. by rewrite Hb. Qed.

Lemma run_set_base b m q v : is_Some (b !! q) -> set_base q v (mk_rings b m) = Some (tt, mk_rings (<[q := v]> b) m).
Proof. unfold set_base. intros [? Hb]. simpl. by rewrite Hb. Qed.

Lemma run_links_at r x k : r_links r !! x = Some k -> links_at x r = Some (k, r).
Proof. unfold links_at. intros Hx. by rewrite Hx. Qed.

Lemma run_set_next b m x v : is_Some (m !! x) -> set_next x v (mk_rings b m) = Some (tt, mk_rings b (put_next x v m)).
Proof.
  unfold set_next, set_links, put_next. intros [k Hk]. simpl. rewrite Hk. do 3 f_equal.
  apply map_eq. intros y. destruct (decide (y = x)) as [->|?].
  - by rewrite lookup_insert_eq, lookup_alter_eq, Hk.
  - by rewrite lookup_insert_ne, lookup_alter_ne.
Qed.

Lemma run_set_prev b m x v : is_Some (m !! x) -> set_prev x v (mk_rings b m) = Some (tt, mk_rings b (put_prev x v m)).
Proof.
  unfold set_prev, set_links, put_prev. intros [k Hk]. simpl. rewrite Hk. do 3 f_equal.
  apply map_eq. intros y. destruct (decide (y = x)) as [->|?].
  - by rewrite lookup_insert_eq, lookup_alter_eq, Hk.
  - by rewrite lookup_insert_ne, lookup_alter_ne.
Qed.

Lemma put_next_is_Some x v m y : is_Some (put_next x v m !! y) <-> is_Some (m !! y).
Proof. apply lookup_alter_is_Some. Qed.
Lemma put_prev_is_Some x v m y : is_Some (put_prev x v m !! y) <-> is_Some (m !! y).
Proof. apply lookup_alter_is_Some. Qed.

Lemma put_next_ne x v m y : y <> x -> put_next x v m !! y = m !! y.
Proof. intros. by apply lookup_alter_ne. Qed.
Lemma put_prev_ne x v m y : y <> x -> put_prev x v m !! y = m !! y.
Proof. intros. by apply lookup_alter_ne. Qed.

Lemma put_both x n p m : is_Some (m !! x) -> put_prev x p (put_next x n m) !! x = Some (mk_links n p).
Proof. intros [k Hk]. unfold put_prev, put_next. by rewrite !lookup_alter_eq, Hk. Qed.

Create Rewrite HintDb rings.
#[export] Hint Rewrite put_next_is_Some put_prev_is_Some : rings.

(** ** The routines implement the operations on lists *)

(** Adding at the end of a queue that is not empty: the same code for threads
    and messages. *)
Lemma link_last b m l x :
  l <> [] -> NoDup (l ++ [x]) -> ring m l -> is_Some (m !! x) ->
  let first := List.hd Q_NULL l in
  let last := List.last l Q_NULL in
  exists m',
    (set_next x first;; set_prev x last;; set_prev first x;; set_next last x) (mk_rings b m)
      = Some (tt, mk_rings b m') /\
    ring m' (l ++ [x]) /\
    (forall y, is_Some (m' !! y) <-> is_Some (m !! y)) /\
    (forall y, y ∉ l ++ [x] -> m' !! y = m !! y).
Proof.
  intros Hne Hnd Hr Hx first last. pose proof Hnd as (_ & Hxl & _)%NoDup_app.
  assert (Hf : first ∈ l) by (by apply hd_elem). assert (Hl : last ∈ l) by (by apply last_elem).
  pose proof (ring_is_Some _ _ _ Hr Hf). pose proof (ring_is_Some _ _ _ Hr Hl).
  eexists. split_and!.
  - unfold mbind, M_bind. rewrite run_set_next by done.
    rewrite run_set_prev by (by autorewrite with rings).
    rewrite run_set_prev by (by autorewrite with rings).
    by rewrite run_set_next by (by autorewrite with rings).
  - apply ring_add; [done..| |by apply put_both].
    apply (ring_frame m); [|done]. intros y Hy.
    by rewrite put_prev_ne, put_next_ne by (intros ->; set_solver).
  - intros y. by autorewrite with rings.
  - intros y Hy. rewrite !put_next_ne, !put_prev_ne; [|intros ->; set_solver..].
    rewrite put_next_ne; [done|intros ->; set_solver].
Qed.

(** What the links of an element of a queue say. *)
Lemma ring_links m l1 x l2 :
  ring m (l1 ++ x :: l2) ->
  let k := l2 ++ l1 in
  m !! x = Some (mk_links (List.hd x k) (List.last k x)).
Proof.
  intros Hr%ring_rotate. change ((x :: l2) ++ l1) with (x :: (l2 ++ l1)) in Hr.
  destruct Hr as [Hx _]. by rewrite last_cons_default in Hx.
Qed.

(** Unlinking an element that is not alone: the same code everywhere. *)
Lemma unlink b m l1 x l2 :
  let k := l2 ++ l1 in
  let next := List.hd x k in
  let prev := List.last k x in
  k <> [] -> NoDup (l1 ++ x :: l2) -> ring m (l1 ++ x :: l2) ->
  exists m',
    (set_prev next prev;; set_next prev next) (mk_rings b m) = Some (tt, mk_rings b m') /\
    ring m' (l1 ++ l2) /\
    (forall y, is_Some (m' !! y) <-> is_Some (m !! y)) /\
    (forall y, y ∉ l1 ++ l2 -> m' !! y = m !! y).
Proof.
  intros k next prev Hne Hnd Hr. apply ring_rotate in Hr. change ((x :: l2) ++ l1) with (x :: k) in Hr.
  assert (Hnk : NoDup (x :: k)) by (unfold k; by rewrite Permutation_app_comm in Hnd).
  assert (Hk : forall y, y ∈ k <-> y ∈ l1 ++ l2) by (intros y; unfold k; rewrite !elem_of_app; tauto).
  assert (Hn : next ∈ k) by (by apply hd_elem). assert (Hp : prev ∈ k) by (by apply last_elem).
  assert (Hin : forall y, y ∈ k -> is_Some (m !! y)).
  { intros y Hy. apply (ring_is_Some _ _ _ Hr). by right. }
  eexists. split_and!.
  - unfold mbind, M_bind. rewrite run_set_prev by auto. by rewrite run_set_next by (autorewrite with rings; auto).
  - apply ring_rotate. fold k. subst next prev. rewrite (hd_any k x Q_NULL), (last_any k x Q_NULL) by done.
    by apply (ring_remove _ x).
  - intros y. by autorewrite with rings.
  - intros y Hy. rewrite <- Hk in Hy. rewrite put_next_ne, put_prev_ne; [done|intros ->; set_solver..].
Qed.

Definition without (x : Z) (l : list Z) : list Z := filter (fun y => y <> x) l.

Lemma without_notin x l : x ∉ l -> without x l = l.
Proof.
  unfold without. induction l as [|y l IH]; [done|]. rewrite not_elem_of_cons. intros [Hy Hl].
  rewrite filter_cons_True by done. by rewrite IH.
Qed.

Lemma without_middle x l1 l2 : NoDup (l1 ++ x :: l2) -> without x (l1 ++ x :: l2) = l1 ++ l2.
Proof.
  intros (_ & H1 & [H2 _]%NoDup_cons)%NoDup_app. unfold without.
  rewrite filter_app, filter_cons_False by (intros Hf; by apply Hf). fold (without x l1) (without x l2).
  rewrite !without_notin; [done|done|]. intros Hx. apply (H1 x Hx). by left.
Qed.

(** The three routines that change a queue, and what other code relies on. *)
Class QueueOps := {
  qo_outside : Z -> links -> Prop;
  qo_enqueue : Z -> Z -> M rings unit;
  qo_rmqueue : Z -> Z -> M rings unit;
  qo_dequeue : Z -> M rings Z
}.

Class QueueLaws (O : QueueOps) : Prop := {
  enqueue_law r Q q l x :
    represents qo_outside r Q -> q_lists Q !! q = Some l -> x ∈ q_known Q -> x <> Q_NULL -> idle Q x ->
    exists r', qo_enqueue q x r = Some (tt, r') /\ represents qo_outside r' (set_list q (l ++ [x]) Q);
  rmqueue_law r Q q l x :
    represents qo_outside r Q -> q_lists Q !! q = Some l -> x ∈ l ->
    exists r', qo_rmqueue q x r = Some (tt, r') /\ represents qo_outside r' (set_list q (without x l) Q);
  dequeue_empty_law r Q q :
    represents qo_outside r Q -> q_lists Q !! q = Some [] -> qo_dequeue q r = Some (Q_NULL, r);
  dequeue_law r Q q x l :
    represents qo_outside r Q -> q_lists Q !! q = Some (x :: l) ->
    exists r', qo_dequeue q r = Some (x, r') /\ represents qo_outside r' (set_list q l Q)
}.

Definition thread_queues : QueueOps := {|
  qo_outside := thread_outside;
  qo_enqueue := ipc_thread_enqueue;
  qo_rmqueue := ipc_thread_rmqueue;
  qo_dequeue := ipc_thread_dequeue
|}.

Definition kmsg_queues : QueueOps := {|
  qo_outside := kmsg_outside;
  qo_enqueue := ipc_kmsg_enqueue;
  qo_rmqueue := ipc_kmsg_rmqueue;
  qo_dequeue := ipc_kmsg_dequeue
|}.

Section enqueue.
Context (outside : Z -> links -> Prop) (r : rings) (Q : lists) (q x : Z) (l : list Z).
Context (R : represents outside r Q) (Hq : q_lists Q !! q = Some l).
Context (Hx : x ∈ q_known Q) (Hx0 : x <> Q_NULL) (Hidle : idle Q x).

Lemma enqueue_fresh : NoDup (l ++ [x]) /\ Q_NULL ∉ l ++ [x].
Proof.
  destruct (rep_list _ _ _ R _ _ Hq) as (Hnd & H0 & _). pose proof (Hidle _ _ Hq). split.
  - apply NoDup_app. split_and!; [done|set_solver|apply NoDup_singleton].
  - set_solver.
Qed.

(** The memory after an enqueue, up to the links. *)
Lemma enqueue_represents m' :
  ring m' (l ++ [x]) ->
  (forall y, is_Some (m' !! y) <-> is_Some (r_links r !! y)) ->
  (forall y, y ∉ l ++ [x] -> m' !! y = r_links r !! y) ->
  represents outside (mk_rings (<[q := List.hd x l]> (r_base r)) m') (set_list q (l ++ [x]) Q).
Proof.
  intros Hr Hdom Hframe. destruct enqueue_fresh as [Hnd H0].
  replace (List.hd x l) with (List.hd Q_NULL (l ++ [x])) by (by rewrite hd_app).
  apply (represents_update _ _ _ _ l); [done..| | | |].
  - intros y [?|Hy]%elem_of_app; [by left|]. apply list_elem_of_singleton in Hy as ->. by right.
  - done.
  - intros y Hy1 Hy2. by apply Hframe.
  - intros y k Hy1 Hy2. set_solver.
Qed.

(** The queue was not empty. *)
Lemma enqueue_more f :
  l <> [] -> r_links r !! List.hd Q_NULL l = Some f ->
  exists r',
    (set_next x (List.hd Q_NULL l);; set_prev x (l_prev f);; set_prev (List.hd Q_NULL l) x;;
     set_next (l_prev f) x) r = Some (tt, r') /\
    represents outside r' (set_list q (l ++ [x]) Q).
Proof.
  intros Hne Hf. destruct enqueue_fresh as [Hnd _]. pose proof enqueue_represents as Hrep.
  destruct (rep_list _ _ _ R _ _ Hq) as (_ & _ & Hr).
  assert (l_prev f = List.last l Q_NULL) as ->.
  { destruct l as [|y k]; [done|]. destruct Hr as [Hy _]. simpl in Hf. by simplify_eq. }
  destruct r as [b m]. simpl in *.
  destruct (link_last b m l x) as (m' & Hrun & Hr' & Hdom & Hframe); [done..| |].
  { by apply (rep_known _ _ _ R). }
  exists (mk_rings b m'). split; [done|]. pose proof (Hrep m' Hr' Hdom Hframe) as R'.
  rewrite insert_id in R'; [done|]. simpl. by rewrite (rep_base _ _ _ R), Hq, (hd_any l x Q_NULL).
Qed.
End enqueue.

Section removal.
Context (outside : Z -> links -> Prop) (r : rings) (Q : lists) (q x : Z) (l1 l2 : list Z).
Context (R : represents outside r Q) (Hq : q_lists Q !! q = Some (l1 ++ x :: l2)).

Lemma removal_facts :
  NoDup (l1 ++ x :: l2) /\ NoDup (l1 ++ l2) /\ (Q_NULL ∉ l1 ++ l2) /\ (x ∉ l1 ++ l2) /\ x <> Q_NULL /\
  r_links r !! x = Some (mk_links (List.hd x (l2 ++ l1)) (List.last (l2 ++ l1) x)) /\
  (List.hd Q_NULL (l1 ++ x :: l2) = x <-> l1 = []).
Proof.
  destruct (rep_list _ _ _ R _ _ Hq) as (Hnd & H0 & Hr).
  pose proof Hnd as Hnd'. rewrite <- Permutation_middle in Hnd'. apply NoDup_cons in Hnd' as [Hx Hnd'].
  split_and!; [done|done|set_solver|done|set_solver|by apply ring_links|].
  destruct l1 as [|y k]; [done|]. simpl. split; [|done]. intros ->. set_solver.
Qed.

(** The memory after a removal, up to the links of [x]. *)
Lemma removal_represents m' :
  ring m' (l1 ++ l2) ->
  (forall y, is_Some (m' !! y) <-> is_Some (r_links r !! y)) ->
  (forall y, y ∉ l1 ++ x :: l2 -> m' !! y = r_links r !! y) ->
  (forall k, m' !! x = Some k -> outside x k) ->
  represents outside (mk_rings (<[q := List.hd Q_NULL (l1 ++ l2)]> (r_base r)) m') (set_list q (l1 ++ l2) Q).
Proof.
  intros Hr Hdom Hframe Hout. destruct removal_facts as (Hnd & Hnd' & H0 & Hx & _).
  apply (represents_update _ _ _ _ (l1 ++ x :: l2)); [done..| | | |].
  - intros y Hy. left. rewrite elem_of_app, elem_of_cons in *. tauto.
  - done.
  - intros y Hy1 Hy2. by apply Hframe.
  - intros y k Hy1 Hy2. rewrite elem_of_app, elem_of_cons in Hy1. rewrite elem_of_app in Hy2.
    assert (y = x) as -> by tauto. by apply Hout.
Qed.

(** [x] was alone. *)
Lemma next_self : List.hd x (l2 ++ l1) = x <-> l1 ++ l2 = [].
Proof.
  destruct removal_facts as (_ & _ & _ & Hx & _). rewrite elem_of_app in Hx.
  destruct l2 as [|y k]; simpl.
  - rewrite app_nil_r. destruct l1 as [|y k]; simpl; [done|]. split; [|done]. intros ->. set_solver.
  - split; [intros ->; set_solver|]. intros H%app_nil. naive_solver.
Qed.

(** Common to all removals: unlink and move the base if it pointed to [x]. *)
Lemma removal_unlinks :
  l1 ++ l2 <> [] ->
  let k := l2 ++ l1 in
  let base := <[q := List.hd Q_NULL (l1 ++ l2)]> (r_base r) in
  exists m',
    (set_prev (List.hd x k) (List.last k x);; set_next (List.last k x) (List.hd x k))
      (mk_rings base (r_links r)) = Some (tt, mk_rings base m') /\
    ring m' (l1 ++ l2) /\
    (forall y, is_Some (m' !! y) <-> is_Some (r_links r !! y)) /\
    (forall y, y ∉ l1 ++ l2 -> m' !! y = r_links r !! y).
Proof.
  intros Hne k base. destruct (rep_list _ _ _ R _ _ Hq) as (Hnd & _ & Hr).
  apply (unlink base (r_links r) l1 x l2); [|done..].
  intros [-> ->]%app_nil. by apply Hne.
Qed.

(** The base after the test whether it pointed to [x]. *)
Lemma removal_base :
  l1 ++ l2 <> [] ->
  (b ← base_at q; when (b =? x) (set_base q (List.hd x (l2 ++ l1)))) r =
  Some (tt, mk_rings (<[q := List.hd Q_NULL (l1 ++ l2)]> (r_base r)) (r_links r)).
Proof.
  intros Hne. pose proof (base_of _ _ _ _ _ R Hq) as Hb. destruct removal_facts as (_ & _ & _ & _ & _ & _ & Hhd).
  unfold mbind, M_bind. rewrite (run_base_at _ _ _ Hb).
  destruct (Z.eqb_spec (List.hd Q_NULL (l1 ++ x :: l2)) x) as [He|He].
  - apply Hhd in He. destruct r as [b m]. simpl in *. rewrite run_set_base by eauto.
    rewrite He, app_nil_r in *. simpl in *. by rewrite (hd_any l2 x Q_NULL).
  - assert (l1 <> []) by (intros Hl; by apply He, Hhd). unfold when, mret, M_ret. do 2 f_equal.
    destruct r as [b m]. simpl in *. rewrite insert_id; [done|].
    rewrite Hb, !hd_app. f_equal. by apply hd_any.
Qed.
End removal.

(** After unlinking, the links of the element itself are written. *)
Lemma write_own_links b m x n p :
  is_Some (m !! x) ->
  (set_next x n;; set_prev x p) (mk_rings b m) = Some (tt, mk_rings b (put_prev x p (put_next x n m))).
Proof.
  intros Hx. unfold mbind, M_bind. rewrite run_set_next by done. by rewrite run_set_prev by (by autorewrite with rings).
Qed.

Lemma own_links_frame m x n p y : y <> x -> put_prev x p (put_next x n m) !! y = m !! y.
Proof. intros. by rewrite put_prev_ne, put_next_ne. Qed.

Section removal_end.
Context (outside : Z -> links -> Prop) (r : rings) (Q : lists) (q x : Z) (l1 l2 : list Z).
Context (R : represents outside r Q) (Hq : q_lists Q !! q = Some (l1 ++ x :: l2)).
Context (n p : Z) (Hout : outside x (mk_links n p)).

(** [m] is the memory after unlinking; then the links of [x] become [n] and [p]. *)
Lemma removal_done m :
  ring m (l1 ++ l2) ->
  (forall y, is_Some (m !! y) <-> is_Some (r_links r !! y)) ->
  (forall y, y ∉ l1 ++ l2 -> m !! y = r_links r !! y) ->
  let base := <[q := List.hd Q_NULL (l1 ++ l2)]> (r_base r) in
  exists r', (set_next x n;; set_prev x p) (mk_rings base m) = Some (tt, r') /\
    represents outside r' (set_list q (l1 ++ l2) Q).
Proof.
  intros Hr Hdom Hframe base. destruct (removal_facts _ _ _ _ _ _ _ R Hq) as (_ & _ & _ & Hx & _ & Hlx & _).
  assert (Hsome : is_Some (m !! x)) by (rewrite Hdom, Hlx; eauto).
  eexists. split; [by apply write_own_links|]. apply (removal_represents _ _ _ _ x); [done|done|..].
  - apply (ring_frame m); [|done]. intros y Hy. apply own_links_frame. intros ->. done.
  - intros y. autorewrite with rings. apply Hdom.
  - intros y Hy. rewrite elem_of_app, elem_of_cons in Hy. rewrite own_links_frame by tauto.
    apply Hframe. rewrite elem_of_app. tauto.
  - intros k. rewrite put_both by done. by intros [= <-].
Qed.
End removal_end.

(** [run_ring] runs the accesses at the head of the code. *)
Ltac run_ring :=
  unfold mbind, M_bind;
  repeat first
    [ erewrite run_base_at by eassumption | erewrite run_links_at by eassumption
    | rewrite run_set_base by eauto | progress simpl ].

Lemma thread_enqueue_law r Q q l x :
  represents thread_outside r Q -> q_lists Q !! q = Some l -> x ∈ q_known Q -> x <> Q_NULL -> idle Q x ->
  exists r', ipc_thread_enqueue q x r = Some (tt, r') /\ represents thread_outside r' (set_list q (l ++ [x]) Q).
Proof.
  intros R Hq Hx Hx0 Hidle. pose proof (base_of _ _ _ _ _ R Hq) as Hb.
  destruct (rep_list _ _ _ R _ _ Hq) as (Hnd & H0 & Hr).
  unfold ipc_thread_enqueue. destruct l as [|y l].
  - apply (rep_known _ _ _ R) in Hx as Hs. destruct Hs as [k Hk].
    pose proof (rep_outside _ _ _ R _ _ Hk Hidle) as ->. destruct r as [b m]. simpl in *.
    run_ring. eexists. split; [done|].
    apply (enqueue_represents _ _ _ _ _ [] R Hq Hx Hx0 Hidle m); [by split|done|done].
  - destruct (ring_is_Some _ _ y Hr) as [f Hf]; [by left|].
    run_ring. destruct (Z.eqb_spec y Q_NULL) as [->|Hy]; [set_solver|]. run_ring.
    by apply (enqueue_more _ _ _ _ _ (y :: l) R Hq Hx Hx0 Hidle f).
Qed.

Lemma kmsg_enqueue_law r Q q l x :
  represents kmsg_outside r Q -> q_lists Q !! q = Some l -> x ∈ q_known Q -> x <> Q_NULL -> idle Q x ->
  exists r', ipc_kmsg_enqueue q x r = Some (tt, r') /\ represents kmsg_outside r' (set_list q (l ++ [x]) Q).
Proof.
  intros R Hq Hx Hx0 Hidle. pose proof (base_of _ _ _ _ _ R Hq) as Hb.
  destruct (rep_list _ _ _ R _ _ Hq) as (Hnd & H0 & Hr).
  unfold ipc_kmsg_enqueue. destruct l as [|y l].
  - apply (rep_known _ _ _ R) in Hx as Hs. pose proof (enqueue_represents _ _ _ _ _ [] R Hq Hx Hx0 Hidle) as Hrep.
    destruct r as [b m]. simpl in *. run_ring. pose proof (write_own_links (<[q := x]> b) m x x x Hs) as Hrun.
    unfold mbind, M_bind in Hrun. rewrite Hrun. eexists. split; [done|].
    apply Hrep; [split; [by apply put_both|done]|intros; by autorewrite with rings|].
    intros y Hy. apply own_links_frame. set_solver.
  - destruct (ring_is_Some _ _ y Hr) as [f Hf]; [by left|].
    run_ring. destruct (Z.eqb_spec y Q_NULL) as [->|Hy]; [set_solver|]. run_ring.
    by apply (enqueue_more _ _ _ _ _ (y :: l) R Hq Hx Hx0 Hidle f).
Qed.

Section remove_laws.
Context (r : rings) (Q : lists) (q x : Z) (l1 l2 : list Z).
Context (Hq : q_lists Q !! q = Some (l1 ++ x :: l2)).

(** The element was alone: only the base changes. *)
Lemma remove_alone outside :
  represents outside r Q -> l1 ++ l2 = [] -> (forall k, r_links r !! x = Some k -> outside x k) ->
  represents outside (mk_rings (<[q := Q_NULL]> (r_base r)) (r_links r)) (set_list q (l1 ++ l2) Q).
Proof.
  intros R Hnil Hout. pose proof (removal_represents _ _ _ _ _ _ _ R Hq (r_links r)) as Hrep.
  rewrite Hnil in *. by apply Hrep.
Qed.

Lemma thread_rmqueue_split :
  represents thread_outside r Q ->
  exists r', ipc_thread_rmqueue q x r = Some (tt, r') /\ represents thread_outside r' (set_list q (l1 ++ l2) Q).
Proof.
  intros R. pose proof (removal_facts _ _ _ _ _ _ _ R Hq) as (_ & _ & _ & _ & _ & Hlx & _).
  pose proof (next_self _ _ _ _ _ _ _ R Hq) as Hself. pose proof (base_of _ _ _ _ _ R Hq) as Hb.
  unfold ipc_thread_rmqueue. run_ring. destruct (Z.eqb_spec (List.hd x (l2 ++ l1)) x) as [He|He].
  - apply Hself in He. pose proof (remove_alone _ R He) as Halone. destruct r as [b m]. run_ring.
    eexists. split; [done|]. apply Halone. intros k. rewrite Hlx. intros [= <-].
    apply app_nil in He as [-> ->]. done.
  - assert (Hne : l1 ++ l2 <> []) by (intros H; by apply He, Hself).
    pose proof (removal_base _ _ _ _ _ _ _ R Hq Hne) as Hbase. unfold mbind, M_bind in Hbase.
    rewrite (run_base_at _ _ _ Hb) in Hbase |- *. rewrite Hbase.
    destruct (removal_unlinks _ _ _ _ _ _ _ R Hq Hne) as (m' & Hrun & Hr & Hdom & Hframe).
    unfold mbind, M_bind in Hrun. destruct (set_prev _ _ _) as [[[] r1]|]; [|done]. rewrite Hrun.
    by apply (removal_done thread_outside _ _ _ _ _ _ R Hq).
Qed.

Lemma kmsg_rmqueue_split :
  represents kmsg_outside r Q ->
  exists r', ipc_kmsg_rmqueue q x r = Some (tt, r') /\ represents kmsg_outside r' (set_list q (l1 ++ l2) Q).
Proof.
  intros R. pose proof (removal_facts _ _ _ _ _ _ _ R Hq) as (_ & _ & _ & _ & _ & Hlx & _).
  pose proof (next_self _ _ _ _ _ _ _ R Hq) as Hself. pose proof (base_of _ _ _ _ _ R Hq) as Hb.
  pose proof (removal_done kmsg_outside _ _ _ _ _ _ R Hq IKM_BOGUS IKM_BOGUS I) as Hdone.
  unfold ipc_kmsg_rmqueue. run_ring. destruct (Z.eqb_spec (List.hd x (l2 ++ l1)) x) as [He|He].
  - apply Hself in He. specialize (Hdone (r_links r)). rewrite He in *. destruct r as [b m]. run_ring.
    by apply Hdone.
  - assert (Hne : l1 ++ l2 <> []) by (intros H; by apply He, Hself).
    pose proof (removal_base _ _ _ _ _ _ _ R Hq Hne) as Hbase. unfold mbind, M_bind in Hbase.
    rewrite (run_base_at _ _ _ Hb) in Hbase |- *. rewrite Hbase.
    destruct (removal_unlinks _ _ _ _ _ _ _ R Hq Hne) as (m' & Hrun & Hr & Hdom & Hframe).
    unfold mbind, M_bind in Hrun. destruct (set_prev _ _ _) as [[[] r1]|]; [|done]. rewrite Hrun.
    by apply Hdone.
Qed.
End remove_laws.

(** Taking the first element out is removing it: the base is known to point
    to it. *)
Lemma thread_rmqueue_first q x r :
  r_base r !! q = Some x -> ipc_thread_rmqueue_first_macro q x r = ipc_thread_rmqueue q x r.
Proof.
  intros Hb. unfold ipc_thread_rmqueue_first_macro, ipc_thread_rmqueue, mbind, M_bind.
  destruct (links_at x r) as [[t r0]|] eqn:Ht; [|done].
  assert (r0 = r) as -> by (unfold links_at in Ht; destruct (r_links r !! x); by simplify_eq).
  destruct (_ =? _); [done|]. by rewrite (run_base_at _ _ _ Hb), Z.eqb_refl.
Qed.

Lemma kmsg_rmqueue_first q x r :
  r_base r !! q = Some x -> ipc_kmsg_rmqueue_first_macro q x r = ipc_kmsg_rmqueue q x r.
Proof.
  intros Hb. unfold ipc_kmsg_rmqueue_first_macro, ipc_kmsg_rmqueue, mbind, M_bind.
  destruct (links_at x r) as [[t r0]|] eqn:Ht; [|done].
  assert (r0 = r) as -> by (unfold links_at in Ht; destruct (r_links r !! x); by simplify_eq).
  destruct (_ =? _); [done|]. by rewrite (run_base_at _ _ _ Hb), Z.eqb_refl.
Qed.

#[export] Instance thread_queues_laws : QueueLaws thread_queues.
Proof.
  split; simpl.
  - apply thread_enqueue_law.
  - intros r Q q l x R Hq Hx. apply list_elem_of_split in Hx as (l1 & l2 & ->).
    destruct (rep_list _ _ _ R _ _ Hq) as [Hnd _]. rewrite without_middle by done. by apply thread_rmqueue_split.
  - intros r Q q R Hq. pose proof (base_of _ _ _ _ _ R Hq) as Hb.
    unfold ipc_thread_dequeue, ipc_thread_queue_first. by run_ring.
  - intros r Q q x l R Hq. pose proof (base_of _ _ _ _ _ R Hq) as Hb. simpl in Hb.
    destruct (removal_facts _ _ _ _ _ [] l R Hq) as (_ & _ & _ & _ & Hx0 & _).
    destruct (thread_rmqueue_split r Q q x [] l Hq R) as (r' & Hrun & R').
    unfold ipc_thread_dequeue, ipc_thread_queue_first. run_ring.
    apply Z.eqb_neq in Hx0 as ->. simpl. rewrite thread_rmqueue_first, Hrun by done. by exists r'.
Qed.

#[export] Instance kmsg_queues_laws : QueueLaws kmsg_queues.
Proof.
  split; simpl.
  - apply kmsg_enqueue_law.
  - intros r Q q l x R Hq Hx. apply list_elem_of_split in Hx as (l1 & l2 & ->).
    destruct (rep_list _ _ _ R _ _ Hq) as [Hnd _]. rewrite without_middle by done. by apply kmsg_rmqueue_split.
  - intros r Q q R Hq. pose proof (base_of _ _ _ _ _ R Hq) as Hb.
    unfold ipc_kmsg_dequeue, ipc_kmsg_queue_first. by run_ring.
  - intros r Q q x l R Hq. pose proof (base_of _ _ _ _ _ R Hq) as Hb. simpl in Hb.
    destruct (removal_facts _ _ _ _ _ [] l R Hq) as (_ & _ & _ & _ & Hx0 & _).
    destruct (kmsg_rmqueue_split r Q q x [] l Hq R) as (r' & Hrun & R').
    unfold ipc_kmsg_dequeue, ipc_kmsg_queue_first. run_ring.
    apply Z.eqb_neq in Hx0 as ->. simpl. rewrite kmsg_rmqueue_first, Hrun by done. by exists r'.
Qed.

(** ** Sequences of operations *)

Inductive queue_op :=
| Enqueue (q x : Z)
| Remove (q x : Z)
| Dequeue (q : Z).

Definition perform (O : QueueOps) (op : queue_op) : M rings Z :=
  match op with
  | Enqueue q x => qo_enqueue q x;; mret Q_NULL
  | Remove q x => qo_rmqueue q x;; mret Q_NULL
  | Dequeue q => qo_dequeue q
  end.

(** The same on lists; [None] where the code must not be called: to queue
    what is queued already, to remove from another queue. *)
Definition perform_list (op : queue_op) : M lists Z := fun Q =>
  match op with
  | Enqueue q x =>
    match q_lists Q !! q with
    | Some l =>
      if decide (x ∈ q_known Q /\ x <> Q_NULL /\ idle Q x) then Some (Q_NULL, set_list q (l ++ [x]) Q) else None
    | None => None
    end
  | Remove q x =>
    match q_lists Q !! q with
    | Some l => if decide (x ∈ l) then Some (Q_NULL, set_list q (without x l) Q) else None
    | None => None
    end
  | Dequeue q =>
    match q_lists Q !! q with
    | Some [] => Some (Q_NULL, Q)
    | Some (x :: l) => Some (x, set_list q l Q)
    | None => None
    end
  end.

Lemma perform_refines {O : QueueOps} {L : QueueLaws O} op r Q x Q' :
  represents qo_outside r Q -> perform_list op Q = Some (x, Q') ->
  exists r', perform O op r = Some (x, r') /\ represents qo_outside r' Q'.
Proof.
  intros R. destruct op as [q y|q y|q]; simpl; unfold mbind, M_bind;
    destruct (q_lists Q !! q) as [l|] eqn:Hq; try done.
  - case_decide as Hy; [|done]. destruct Hy as (Hy & Hy0 & Hidle). intros [= <- <-].
    destruct (enqueue_law r Q q l y) as (r' & -> & R'); eauto.
  - case_decide; [|done]. intros [= <- <-].
    destruct (rmqueue_law r Q q l y) as (r' & -> & R'); eauto.
  - destruct l as [|z l]; intros [= <- <-].
    + exists r. split; [by eapply dequeue_empty_law|done].
    + by eapply dequeue_law.
Qed.

Lemma performs_refine {O : QueueOps} {L : QueueLaws O} ops r Q xs Q' :
  represents qo_outside r Q -> mapM perform_list ops Q = Some (xs, Q') ->
  exists r', mapM (perform O) ops r = Some (xs, r') /\ represents qo_outside r' Q'.
Proof.
  revert r Q xs. induction ops as [|op ops IH]; intros r Q xs R; cbn [mapM].
  - intros [= <- <-]. by exists r.
  - rewrite !run_bind. destruct (perform_list op Q) as [[x Q1]|] eqn:Hop; [|done].
    destruct (perform_refines _ _ _ _ _ R Hop) as (r1 & -> & R1). rewrite !run_bind.
    destruct (mapM perform_list ops Q1) as [[ys Q2]|] eqn:Hops; [|done]. intros [= <- <-].
    destruct (IH r1 Q1 ys R1) as (r' & -> & R'); [done|]. by exists r'.
Qed.

(** Walking a queue of messages: from the first message with
    [ipc_kmsg_queue_next] to the end. *)
Lemma kmsg_queue_next_spec r Q q l1 x l2 :
  represents kmsg_outside r Q -> q_lists Q !! q = Some (l1 ++ x :: l2) ->
  ipc_kmsg_queue_next q x r = Some (List.hd Q_NULL l2, r).
Proof.
  intros R Hq. pose proof (base_of _ _ _ _ _ R Hq) as Hb.
  destruct (removal_facts _ _ _ _ _ _ _ R Hq) as (Hnd & _ & _ & _ & _ & Hlx & _).
  unfold ipc_kmsg_queue_next. run_ring. unfold mret, M_ret. do 2 f_equal.
  destruct l2 as [|y l2]; simpl.
  - destruct l1 as [|z l1]; simpl; by rewrite Z.eqb_refl.
  - destruct (Z.eqb_spec (List.hd Q_NULL (l1 ++ x :: y :: l2)) y) as [He|]; [|done]. exfalso.
    destruct l1 as [|z l1]; simpl in *; subst; apply NoDup_cons in Hnd as [Hz _]; apply Hz; set_solver.
Qed.
