(* ===== verification/Port.v ===== *)
(** * Ports and port sets (ipc/ipc_port.c, ipc_pset.c, ipc_mqueue.c)

    The operations on ports: dead-name, port-destroyed and no-senders
    requests, the queue limit, send and send-once rights without a name, the
    check that keeps receive rights in transit from forming circles, and the
    destruction of a port; the membership of ports in port sets, and the
    message queues both use. *)

From S2P Require Import Prelude Names Splay Table Space Entry World.

Definition MACH_PORT_QLIMIT_DEFAULT : Z := 5.

(** ** Message queues *)

Definition thread_go (th : Z) : M world unit := emit (ThreadGo th).

Definition set_state (state : Z) (t : ipc_thread) : ipc_thread :=
  mk_thread state (ith_kmsg t) (ith_seqno t) (ith_msize t).

(** [ipc_mqueue_changed]: wake up the receivers of a queue; they are gone
    from it afterwards. *)
Fixpoint wake_all (mr : Z) (threads : list Z) : M world unit :=
  match threads with
  | [] => mret tt
  | th :: threads => update_thread th (set_state mr);; thread_go th;; wake_all mr threads
  end.

Definition ipc_mqueue_changed (mr : Z) (mqueue : ipc_mqueue) : M world ipc_mqueue :=
  wake_all mr (imq_threads mqueue);; mret (mk_mqueue (imq_messages mqueue) []).

(** Look for a blocked receiver that can take the message; the ones whose
    buffer is too small are woken and told so. *)
Fixpoint offer (port kmsg size : Z) (blocked : list Z) : M world (bool * list Z) :=
  match blocked with
  | [] => mret (false, [])
  | th :: blocked =>
    thread_go th;;
    t ← thread_at th;
    if size <=? ith_msize t then
      p ← port_at port;
      update_thread th (fun t => mk_thread MACH_MSG_SUCCESS kmsg (ip_seqno p) (ith_msize t));;
      set_port port (set_ip_seqno (u32 (ip_seqno p + 1)) p);;
      mret (true, blocked)
    else
      update_thread th (fun t => mk_thread MACH_RCV_TOO_LARGE (ith_kmsg t) (ith_seqno t) size);;
      offer port kmsg size blocked
  end.

(** The loop of [ipc_mqueue_move] over the messages of the source queue:
    the messages that stay there, the messages of the destination queue and
    its receivers. *)
Fixpoint move_messages (port : Z) (oldq newq blocked : list Z) : M world (list Z * list Z * list Z) :=
  match oldq with
  | [] => mret ([], newq, blocked)
  | kmsg :: oldq =>
    k ← kmsg_at kmsg;
    if negb (msgh_remote_port k =? port) then
      '(stay, newq, blocked) ← move_messages port oldq newq blocked;
      mret (kmsg :: stay, newq, blocked)
    else
      '(found, blocked) ← offer port kmsg (msgh_size k) blocked;
      move_messages port oldq (if (found : bool) then newq else newq ++ [kmsg]) blocked
  end.

(** Returns the destination and the source queue. *)
Definition ipc_mqueue_move (dest source : ipc_mqueue) (port : Z) : M world (ipc_mqueue * ipc_mqueue) :=
  '(stay, newq, blocked) ←
    move_messages port (imq_messages source) (imq_messages dest) (imq_threads dest);
  mret (mk_mqueue newq blocked, mk_mqueue stay (imq_threads source)).

(** ** Port sets *)

Definition ipc_pset_add (pset port : Z) : M world unit :=
  update_port port (fun p => set_ip_cur_target pset (set_ip_pset pset p));;
  ips_reference pset;;
  p ← port_at port;
  s ← pset_at pset;
  '(dest, source) ← ipc_mqueue_move (ips_messages s) (ip_messages p) port;
  update_pset pset (set_ips_messages dest);;
  source ← ipc_mqueue_changed MACH_RCV_PORT_CHANGED source;
  update_port port (set_ip_messages source).

Definition ipc_pset_remove (pset port : Z) : M world unit :=
  update_port port (fun p => set_ip_cur_target port (set_ip_pset IPS_NULL p));;
  ips_release pset;;
  p ← port_at port;
  s ← pset_at pset;
  '(dest, source) ← ipc_mqueue_move (ip_messages p) (ips_messages s) port;
  update_pset pset (set_ips_messages source);;
  update_port port (set_ip_messages dest).

(** [true] is KERN_SUCCESS, [false] KERN_NOT_IN_SET. *)
Definition ipc_pset_move (port nset : Z) : M world bool :=
  p ← port_at port;
  let oset := ip_pset p in
  oset ←
    (if oset =? nset then mret oset
     else if oset =? IPS_NULL then ipc_pset_add nset port;; mret oset
     else if nset =? IPS_NULL then
       ipc_pset_remove oset port;;
       s ← pset_at oset;
       if ips_active s then mret oset
       else ips_check_unlock oset;; mret IPS_NULL
     else
       ipc_pset_remove oset port;;
       ipc_pset_add nset port;;
       ips_check_unlock oset;; mret oset);
  mret (negb ((nset =? IPS_NULL) && (oset =? IPS_NULL))).

Definition ipc_pset_destroy (pset : Z) : M world unit :=
  update_pset pset (fun s => set_ips_bits (Z.ldiff (ips_bits s) IO_BITS_ACTIVE) s);;
  s ← pset_at pset;
  q ← ipc_mqueue_changed MACH_RCV_PORT_DIED (ips_messages s);
  update_pset pset (set_ips_messages q);;
  ips_release pset;;
  ips_check_unlock pset.

(** ** Dead-name requests *)

Definition ipc_port_timestamp : M world Z :=
  t ← gets w_timestamp;
  modify (with_timestamp (u32 (t + 1)));; mret t.

(** [IP_TIMESTAMP_ORDER(one, two)]: [(int) (one - two) < 0]. *)
Definition IP_TIMESTAMP_ORDER (one two : Z) : bool := Z.testbit (u32 (one - two)) 31.

Definition request_at (t : ipc_port_requests) (index : Z) : M world ipc_port_request :=
  match ipr_table t !! Z.to_nat index with Some r => mret r | None => crash end.

Definition set_request_at (t : ipc_port_requests) (index : Z) (r : ipc_port_request) : ipc_port_requests :=
  mk_requests (ipr_addr t) (ipr_size t) (<[Z.to_nat index := r]> (ipr_table t)).

Definition set_next_at0 (t : ipc_port_requests) (h : ipc_port_request) (next : Z) : ipc_port_requests :=
  set_request_at t 0 (mk_ipr next (ipr_name h)).

(** [None] is KERN_NO_SPACE. *)
Definition ipc_port_dnrequest (port name soright : Z) : M world (option Z) :=
  p ← port_at port;
  match ip_dnrequests p with
  | None => mret None
  | Some t =>
    h ← request_at t 0;
    let index := ipr_notify h in
    if index =? 0 then mret None
    else
      ipr ← request_at t index;
      let t := set_next_at0 t h (ipr_notify ipr) in
      let t := set_request_at t index (mk_ipr soright name) in
      set_port port (set_ip_dnrequests (Some t) p);;
      mret (Some index)
  end.

Definition ipc_port_dncancel (port name index : Z) : M world Z :=
  p ← port_at port;
  match ip_dnrequests p with
  | None => crash
  | Some t =>
    ipr ← request_at t index;
    h ← request_at t 0;
    let t := set_request_at t index (mk_ipr (ipr_notify h) MACH_PORT_NULL) in
    let t := set_next_at0 t h index in
    set_port port (set_ip_dnrequests (Some t) p);;
    mret (ipr_notify ipr)
  end.

Definition ipc_port_dnrename (port index nname : Z) : M world unit :=
  p ← port_at port;
  match ip_dnrequests p with
  | None => crash
  | Some t =>
    ipr ← request_at t index;
    set_port port (set_ip_dnrequests (Some (set_request_at t index (mk_ipr (ipr_notify ipr) nname))) p)
  end.

Definition dn_size (its : nat) : Z := nth its ipc_table_dnrequests 0.

(** The loop that puts the elements [i] to [nsize - 1] on the free list. *)
Fixpoint thread_free (n : nat) (ntable : list ipc_port_request) (i free : Z)
    : list ipc_port_request * Z :=
  match n with
  | O => (ntable, free)
  | S n => thread_free n (<[Z.to_nat i := mk_ipr free MACH_PORT_NULL]> ntable) (i + 1) i
  end.

(** The new table built from the old one in the memory [mem] at [addr]. *)
Definition grown_table (otable : option ipc_port_requests) (its : nat) (addr : Z)
    (mem : list ipc_port_request) : ipc_port_requests :=
  let '(osize, free, ntable) :=
    match otable with
    | Some t =>
      let osize := dn_size (ipr_size t) in
      (osize, match ipr_table t with h :: _ => ipr_notify h | [] => 0 end,
       take 1 mem ++ take (Z.to_nat (osize - 1)) (drop 1 (ipr_table t)) ++ drop (Z.to_nat osize) mem)
    | None => (1, 0, mem)
    end in
  let nsize := dn_size its in
  let '(ntable, free) := thread_free (Z.to_nat (nsize - osize)) ntable osize free in
  mk_requests addr its
    (match ntable with h :: l => mk_ipr free (ipr_name h) :: l | [] => [] end).

(** [alloc] is the memory the allocator gives for the new table, if any, and
    [other] what other threads do to the unlocked port meanwhile. *)
Definition ipc_port_dngrow (port : Z) (alloc : nat -> option (Z * list ipc_port_request))
    (other : world -> world) : M world kern_return :=
  p ← port_at port;
  let otable := ip_dnrequests p in
  let its := match otable with None => O | Some t => S (ipr_size t) end in
  ip_reference port;;
  modify other;;
  match (if dn_size its =? 0 then None else alloc its) with
  | None => ipc_port_release port;; mret KERN_RESOURCE_SHORTAGE
  | Some (addr, mem) =>
    ip_release port;;
    p ← port_at port;
    let same :=
      match otable, ip_dnrequests p with
      | None, None => true
      | Some t, Some t' => (ipr_addr t =? ipr_addr t') && (S (ipr_size t') =? its)%nat
      | _, _ => false
      end in
    if ip_active p && same then
      set_port port (set_ip_dnrequests (Some (grown_table (ip_dnrequests p) its addr mem)) p);;
      mret KERN_SUCCESS
    else
      ip_check_unlock port;; mret KERN_SUCCESS
  end.

(** ** Port-destroyed and no-senders requests *)

Definition ipc_port_pdrequest (port notify : Z) : M world Z :=
  p ← port_at port;
  set_port port (set_ip_pdrequest notify p);;
  mret (ip_pdrequest p).

Definition ipc_port_nsrequest (port sync notify : Z) : M world Z :=
  p ← port_at port;
  let previous := ip_nsrequest p in
  let mscount := ip_mscount p in
  (if (ip_srights p =? 0) && (sync <=? mscount) && negb (notify =? IP_NULL) then
     set_port port (set_ip_nsrequest IP_NULL p);;
     emit (NotifyNoSenders notify mscount)
   else set_port port (set_ip_nsrequest notify p));;
  mret previous.

(** ** The queue limit *)

(** Wake up at most [wakeup] of the blocked senders; the ones left. *)
Fixpoint wake_senders (blocked : list Z) (wakeup : Z) : M world (list Z) :=
  match blocked with
  | [] => mret []
  | th :: rest =>
    if 0 <? wakeup then
      update_thread th (set_state MACH_MSG_SUCCESS);;
      thread_go th;;
      wake_senders rest (wakeup - 1)
    else mret blocked
  end.

Definition ipc_port_set_qlimit (port qlimit : Z) : M world unit :=
  p ← port_at port;
  blocked ←
    (if ip_qlimit p <? qlimit
     then wake_senders (ip_blocked p) (u32 (qlimit - ip_qlimit p))
     else mret (ip_blocked p));
  update_port port (fun p => set_ip_qlimit qlimit (set_ip_blocked blocked p)).

(** ** Queues and receivers *)

(** Which message queue the port uses: that of its port set, or its own. *)
Definition ipc_port_lock_mqueue (port : Z) : M world Z :=
  p ← port_at port;
  if negb (ip_pset p =? IPS_NULL) then
    s ← pset_at (ip_pset p);
    if ips_active s then mret (ip_pset p)
    else ipc_pset_remove (ip_pset p) port;; ips_check_unlock (ip_pset p);; mret port
  else mret port.

Definition ipc_port_set_seqno (port seqno : Z) : M world unit :=
  ipc_port_lock_mqueue port;; update_port port (set_ip_seqno seqno).

Definition ipc_port_clear_receiver (port : Z) : M world unit :=
  p ← port_at port;
  (if negb (ip_pset p =? IPS_NULL) then
     ipc_pset_remove (ip_pset p) port;; ips_check_unlock (ip_pset p)
   else
     q ← ipc_mqueue_changed MACH_RCV_PORT_DIED (ip_messages p);
     update_port port (set_ip_messages q));;
  update_port port (fun p => set_ip_seqno 0 (set_ip_mscount 0 p)).

(** Everything but the [ip_object] fields; [port] is its address. *)
Definition ipc_port_init (port space name : Z) (p : ipc_port) : ipc_port :=
  mk_port (ip_references p) (ip_bits p) name space 0 0 0 IP_NULL IP_NULL None IPS_NULL port 0 0
    MACH_PORT_QLIMIT_DEFAULT [] ipc_mqueue_init.

(** ** Circles of receive rights *)

Definition in_transit (p : ipc_port) : bool :=
  ip_active p && (ip_receiver_name p =? MACH_PORT_NULL) && negb (ip_destination p =? IP_NULL).

(** The port at the end of the chain of destinations; no chain is longer than
    the number of ports. *)
Fixpoint chain_end (fuel : nat) (base : Z) : M world Z :=
  match fuel with
  | O => crash
  | S fuel =>
    b ← port_at base;
    if in_transit b then chain_end fuel (ip_destination b) else mret base
  end.

(** [trylock] says whether [ip_lock_try(dest)] succeeds. *)
Definition ipc_port_check_circularity (trylock : bool) (port dest : Z) : M world bool :=
  if port =? dest then mret true
  else
    d ← port_at dest;
    let not_circular := ip_reference dest;; update_port port (set_ip_data dest);; mret false in
    if trylock && negb (in_transit d) then not_circular
    else
      n ← gets (fun w => size (w_ports w));
      base ← chain_end (S n) dest;
      if port =? base then mret true else not_circular.

(** ** Rights without a name *)

Definition ipc_port_make_send (port : Z) : M world Z :=
  update_port port (fun p => set_ip_srights (u32 (ip_srights p + 1))
                              (set_ip_mscount (u32 (ip_mscount p + 1)) p));;
  ip_reference port;; mret port.

Definition ipc_port_copy_send (port : Z) : M world Z :=
  if negb (IP_VALID port) then mret port
  else
    p ← port_at port;
    if ip_active p then
      ip_reference port;;
      update_port port (fun p => set_ip_srights (u32 (ip_srights p + 1)) p);;
      mret port
    else mret IP_DEAD.

(** [--port->ip_srights == 0]: one send right less; the no-senders request and
    the make-send count, if a notification is due. *)
Definition drop_send_right (port : Z) : M world (Z * Z) :=
  update_port port (fun p => set_ip_srights (u32 (ip_srights p - 1)) p);;
  p ← port_at port;
  if ip_srights p =? 0 then
    if negb (ip_nsrequest p =? IP_NULL) then
      set_port port (set_ip_nsrequest IP_NULL p);;
      mret (ip_nsrequest p, ip_mscount p)
    else mret (IP_NULL, 0)
  else mret (IP_NULL, 0).

Definition notify_no_senders (ns : Z * Z) : M world unit :=
  when (negb (ns.1 =? IP_NULL)) (emit (NotifyNoSenders ns.1 ns.2)).

Definition ipc_port_release_send (port : Z) : M world unit :=
  ip_release port;;
  p ← port_at port;
  if negb (ip_active p) then ip_check_unlock port
  else
    ns ← drop_send_right port;
    notify_no_senders ns.

Definition ipc_port_make_sonce (port : Z) : M world Z :=
  update_port port (fun p => set_ip_sorights (u32 (ip_sorights p + 1)) p);;
  ip_reference port;; mret port.

Definition ipc_port_release_sonce (port : Z) : M world unit :=
  update_port port (fun p => set_ip_sorights (u32 (ip_sorights p - 1)) p);;
  ip_release port;;
  p ← port_at port;
  when (negb (ip_active p)) (ip_check_unlock port).

(** ** Destruction *)

Definition ip_pdsendp (soright : Z) : bool := Z.odd soright.
Definition ip_pdsend (soright : Z) : Z := Z.ldiff soright 1.
Definition ipr_spacep (soright : Z) : bool := Z.odd soright.
Definition ipr_space (soright : Z) : Z := Z.ldiff soright 1.
Definition ipr_spacem (space : Z) : Z := Z.lor space 1.

(** The notifications for the dead-name requests of a table. *)
Fixpoint dead_names (port : Z) (requests : list ipc_port_request) : M world unit :=
  match requests with
  | [] => mret tt
  | r :: requests =>
    (if ipr_name r =? MACH_PORT_NULL then mret tt
     else if ipr_spacep (ipr_notify r)
     then emit (DeleteCompat port (ipr_space (ipr_notify r)) (ipr_name r))
     else emit (NotifyDeadName (ipr_notify r) (ipr_name r)));;
    dead_names port requests
  end.

Fixpoint destroy_messages (port : Z) (messages : list Z) : M world unit :=
  match messages with
  | [] => mret tt
  | kmsg :: messages =>
    ipc_port_release port;;
    update_kmsg kmsg (set_remote_port MACH_PORT_NULL);;
    emit (KmsgDestroy kmsg);;
    destroy_messages port messages
  end.

(** The part of [ipc_port_destroy] after the check for a backup port. *)
Definition destroy_dead (port : Z) : M world unit :=
  p ← port_at port;
  wake_all MACH_MSG_SUCCESS (ip_blocked p);;
  t ← ipc_port_timestamp;
  update_port port (fun p => set_ip_data t (set_ip_blocked []
    (set_ip_bits (Z.ldiff (ip_bits p) IO_BITS_ACTIVE) p)));;
  p ← port_at port;
  when (negb (ip_nsrequest p =? IP_NULL)) (emit (NotifySendOnce (ip_nsrequest p)));;
  set_port port (set_ip_messages (mk_mqueue [] (imq_threads (ip_messages p))) p);;
  destroy_messages port (imq_messages (ip_messages p));;
  match ip_dnrequests p with
  | None => mret tt
  | Some d => dead_names port (take (Z.to_nat (dn_size (ipr_size d)) - 1) (drop 1 (ipr_table d)))
  end;;
  when (negb (io_kotype (ip_bits p) =? IKOT_NONE)) (emit (KobjectDestroy port));;
  ipc_port_release port.

Definition ipc_port_destroy (trylock : bool) (port : Z) : M world unit :=
  p ← port_at port;
  let pdrequest := ip_pdrequest p in
  if negb (pdrequest =? IP_NULL) then
    set_port port (set_ip_data IP_NULL (set_ip_receiver_name MACH_PORT_NULL (set_ip_pdrequest IP_NULL p)));;
    if ip_pdsendp pdrequest then
      let sright := ip_pdsend pdrequest in
      circular ← ipc_port_check_circularity trylock port sright;
      if (circular : bool) then ipc_port_release_send sright;; destroy_dead port
      else emit (NotifyPortDestroyedCompat sright port)
    else
      circular ← ipc_port_check_circularity trylock port pdrequest;
      if (circular : bool) then ipc_port_release_sonce pdrequest;; destroy_dead port
      else emit (NotifyPortDestroyed pdrequest port)
  else destroy_dead port.

Definition ipc_port_release_receive (trylock : bool) (port : Z) : M world unit :=
  p ← port_at port;
  ipc_port_destroy trylock port;;
  when (negb (ip_destination p =? IP_NULL)) (ipc_port_release (ip_destination p)).

(** [alloc] is the address [io_alloc] returns, [IP_NULL] if it fails. *)
Definition ipc_port_alloc_special (alloc space : Z) : M world Z :=
  if alloc =? IP_NULL then mret IP_NULL
  else
    set_port alloc (ipc_port_init alloc space alloc
      (mk_port 1 (io_makebits true IOT_PORT 0) 0 0 0 0 0 0 0 None 0 0 0 0 0 [] ipc_mqueue_init));;
    mret alloc.

Definition ipc_port_dealloc_special (trylock : bool) (port : Z) : M world unit :=
  update_port port (fun p => set_ip_data IS_NULL (set_ip_receiver_name MACH_PORT_NULL p));;
  ipc_port_clear_receiver port;;
  ipc_port_destroy trylock port.
