(* ===== verification/PortInv.v ===== *)
(** * Properties of ports

    The lemmas behind the theorems on ports: the table of dead-name requests
    is a finite map from indices to requests, with a free list threaded
    through its unused elements; chains of destinations end. *)

From S2P Require Import Prelude Names Splay Table Space Entry World Port.

(** ** Running the monad *)

Lemma bind_run {St A B} (m : M St A) (f : A -> M St B) s x s' :
  m s = Some (x, s') -> (m ≫= f) s = f x s'.
Proof. intros Hm. unfold mbind, M_bind. by rewrite Hm. Qed.

Lemma bind_inv {St A B} (m : M St A) (f : A -> M St B) s r :
  (m ≫= f) s = Some r -> exists x s', m s = Some (x, s') /\ f x s' = Some r.
Proof. unfold mbind, M_bind. destruct (m s) as [[x s']|]; [eauto|done]. Qed.

Lemma port_at_run w p x : w_ports w !! p = Some x -> port_at p w = Some (x, w).
Proof. intros Hp. unfold port_at. by rewrite Hp. Qed.

Definition put_port (p : Z) (x : ipc_port) (w : world) : world := with_ports (<[p := x]> (w_ports w)) w.

Lemma update_port_run w p x f :
  w_ports w !! p = Some x -> update_port p f w = Some (tt, put_port p (f x) w).
Proof. intros Hp. unfold update_port. by rewrite (bind_run _ _ _ _ _ (port_at_run _ _ _ Hp)). Qed.

Lemma put_port_lookup w p x : w_ports (put_port p x w) !! p = Some x.
Proof. simpl. by rewrite lookup_insert_eq. Qed.

Lemma put_port_other w p q x : p <> q -> w_ports (put_port p x w) !! q = w_ports w !! q.
Proof. intros. simpl. by rewrite lookup_insert_ne. Qed.

Lemma put_port_put w p x y : put_port p y (put_port p x w) = put_port p y w.
Proof. unfold put_port, with_ports. simpl. by rewrite insert_insert_eq. Qed.

Lemma put_port_id w p x : w_ports w !! p = Some x -> put_port p x w = w.
Proof. intros Hp. unfold put_port, with_ports. rewrite insert_id by done. by destruct w. Qed.

(** Run the accesses to ports whose contents are known. *)
Ltac run_ports :=
  repeat first
    [ erewrite bind_run; [|apply update_port_run; first [eassumption|apply put_port_lookup]]; cbn beta
    | erewrite bind_run; [|apply port_at_run; first [eassumption|apply put_port_lookup]]; cbn beta
    | erewrite update_port_run; [|first [eassumption|apply put_port_lookup]] ];
  rewrite ?put_port_put.

(** ** The table of dead-name requests *)

Definition rget (t : ipc_port_requests) (i : Z) : ipc_port_request :=
  nth (Z.to_nat i) (ipr_table t) (mk_ipr 0 0).

Definition rlen (t : ipc_port_requests) : Z := Z.of_nat (length (ipr_table t)).

Record dn_ok (t : ipc_port_requests) : Prop := {
  d_len : rlen t = dn_size (ipr_size t);
  d_pos : 0 < rlen t;
  d_free : exists fl, linked_list (fun i => ipr_notify (rget t i)) 0 fl /\ NoDup fl /\
    forall i, i ∈ fl <-> 0 < i < rlen t /\ ipr_name (rget t i) = MACH_PORT_NULL
}.

(** The request registered at an index: the name and the send-once right. *)
Definition registered (t : ipc_port_requests) (i : Z) : option (Z * Z) :=
  if (0 <? i) && (i <? rlen t) && negb (ipr_name (rget t i) =? MACH_PORT_NULL)
  then Some (ipr_name (rget t i), ipr_notify (rget t i)) else None.

Lemma request_at_run w t i : 0 <= i < rlen t -> request_at t i w = Some (rget t i, w).
Proof.
  unfold rlen, rget, request_at. intros Hi.
  destruct (lookup_lt_is_Some_2 (ipr_table t) (Z.to_nat i)) as [r Hr]; [lia|].
  rewrite Hr. by rewrite (nth_lookup_Some _ _ _ _ Hr).
Qed.

Lemma rget_set t i j r :
  0 <= i < rlen t -> 0 <= j -> rget (set_request_at t i r) j = if i =? j then r else rget t j.
Proof.
  unfold rget, rlen. intros Hi Hj. simpl. rewrite !nth_lookup.
  destruct (Z.eqb_spec i j) as [<-|Hne].
  - by rewrite list_lookup_insert_eq by lia.
  - by rewrite list_lookup_insert_ne by lia.
Qed.

Lemma rlen_set t i r : rlen (set_request_at t i r) = rlen t.
Proof. unfold rlen. simpl. by rewrite length_insert. Qed.

Lemma registered_name t i x : registered t i = Some x <->
  0 < i < rlen t /\ ipr_name (rget t i) <> MACH_PORT_NULL /\ x = (ipr_name (rget t i), ipr_notify (rget t i)).
Proof.
  unfold registered. destruct (Z.ltb_spec 0 i), (Z.ltb_spec i (rlen t)); simpl; try (split; [done|lia]).
  destruct (Z.eqb_spec (ipr_name (rget t i)) MACH_PORT_NULL); simpl; naive_solver.
Qed.

(** What a request registered at [i] does to the table. *)
Lemma registered_ext t t' i :
  rlen t' = rlen t ->
  (0 < i < rlen t -> ipr_name (rget t' i) = ipr_name (rget t i) /\
     (ipr_name (rget t i) <> MACH_PORT_NULL -> ipr_notify (rget t' i) = ipr_notify (rget t i))) ->
  registered t' i = registered t i.
Proof.
  intros Hlen Hi. unfold registered. rewrite Hlen.
  destruct (Z.ltb_spec 0 i), (Z.ltb_spec i (rlen t)); simpl; try done.
  destruct Hi as [-> Hn]; [lia|]. destruct (Z.eqb_spec (ipr_name (rget t i)) MACH_PORT_NULL); simpl; [done|].
  by rewrite Hn.
Qed.

Lemma dnrequest_spec w port p t name soright :
  w_ports w !! port = Some p -> ip_dnrequests p = Some t -> dn_ok t -> name <> MACH_PORT_NULL ->
  exists r w', ipc_port_dnrequest port name soright w = Some (r, w') /\
  match r with
  | None => w' = w /\ forall i, 0 < i < rlen t -> registered t i <> None
  | Some index => exists t',
      w' = put_port port (set_ip_dnrequests (Some t') p) w /\ dn_ok t' /\
      registered t index = None /\ 0 < index < rlen t /\ rlen t' = rlen t /\ ipr_addr t' = ipr_addr t /\
      forall i, registered t' i = if i =? index then Some (name, soright) else registered t i
  end.
Proof.
  intros Hp Ht [Hlen Hpos (fl & Hc & Hnd & Hfl)] Hname. unfold ipc_port_dnrequest. run_ports. rewrite Ht.
  rewrite (bind_run _ _ _ _ _ (request_at_run w t 0 ltac:(lia))).
  destruct (Z.eqb_spec (ipr_notify (rget t 0)) 0) as [Hz|Hnz].
  { eexists _, _. split; [done|]. split; [done|]. intros i Hi Hn.
    destruct fl as [|j fl]; [|destruct Hc as [Hj _]; rewrite Hz in Hj; subst j;
      destruct (proj1 (Hfl 0)); [apply elem_of_cons; by left|lia]].
    apply (not_elem_of_nil i), Hfl. split; [done|]. unfold registered in Hn.
    rewrite (proj2 (Z.ltb_lt 0 i)), (proj2 (Z.ltb_lt i (rlen t))) in Hn by lia. simpl in Hn.
    destruct (Z.eqb_spec (ipr_name (rget t i)) MACH_PORT_NULL); [done|by simpl in Hn]. }
  destruct fl as [|index fl]; [done|]. destruct Hc as [Hi Hc]. rewrite Hi in *.
  destruct (proj1 (Hfl index)) as [Hir Hin]; [apply elem_of_cons; by left|].
  rewrite (bind_run _ _ _ _ _ (request_at_run w t index ltac:(lia))).
  set (t' := set_request_at _ index _).
  eexists _, _. split; [reflexivity|]. exists t'.
  assert (Hlen' : rlen t' = rlen t) by (unfold t', set_next_at0; by rewrite !rlen_set).
  assert (Hget : forall j, 0 <= j -> rget t' j = if index =? j then mk_ipr soright name
            else if 0 =? j then mk_ipr (ipr_notify (rget t index)) (ipr_name (rget t 0)) else rget t j).
  { intros j Hj. unfold t', set_next_at0. by rewrite !rget_set by (rewrite ?rlen_set; lia). }
  assert (Hother : forall j, 0 < j -> j <> index -> rget t' j = rget t j).
  { intros j ? ?. rewrite Hget, (proj2 (Z.eqb_neq _ _)), (proj2 (Z.eqb_neq 0 j)) by lia. done. }
  pose proof Hnd as Hnd'. apply NoDup_cons in Hnd' as [Hnin Hnd''].
  split_and!; try done; try lia.
  - split; [by rewrite Hlen'|lia|]. exists fl. split_and!; [|done|].
    + apply (linked_list_pop (fun i => ipr_notify (rget t i)) _ 0 index fl); [done|done| | |].
      * intros H0. destruct (proj1 (Hfl 0)); [apply elem_of_cons; by right|lia].
      * rewrite Hget, (proj2 (Z.eqb_neq _ _)) by lia. done.
      * intros j Hj. rewrite Hother; [done| |by intros ->].
        destruct (proj1 (Hfl j)); [apply elem_of_cons; by right|lia].
    + intros i. rewrite Hlen'. transitivity (i ∈ index :: fl /\ i <> index).
      { rewrite elem_of_cons. split; [|naive_solver]. intros ?. split; [by right|]. by intros ->. }
      rewrite Hfl. destruct (Z.eq_dec i index) as [->|Hne].
      * rewrite Hget, Z.eqb_refl by lia. naive_solver.
      * split; [intros [[? ?] _]|intros [? ?]]; rewrite Hother in * by lia; naive_solver.
  - unfold registered. rewrite Hin. by rewrite andb_false_r.
  - intros i. destruct (Z.eqb_spec i index) as [->|Hne].
    + apply registered_name. rewrite Hlen', Hget, Z.eqb_refl by lia. done.
    + apply registered_ext; [done|]. intros Hi'. by rewrite Hother by lia.
Qed.

Lemma dncancel_spec w port p t name index soright :
  w_ports w !! port = Some p -> ip_dnrequests p = Some t -> dn_ok t ->
  registered t index = Some (name, soright) ->
  exists t', ipc_port_dncancel port name index w =
    Some (soright, put_port port (set_ip_dnrequests (Some t') p) w) /\
  dn_ok t' /\ rlen t' = rlen t /\ ipr_addr t' = ipr_addr t /\
  forall i, registered t' i = if i =? index then None else registered t i.
Proof.
  intros Hp Ht [Hlen Hpos (fl & Hc & Hnd & Hfl)] Hreg.
  apply registered_name in Hreg as (Hi & Hn & [= -> ->]).
  unfold ipc_port_dncancel. run_ports. rewrite Ht.
  rewrite (bind_run _ _ _ _ _ (request_at_run w t index ltac:(lia))).
  rewrite (bind_run _ _ _ _ _ (request_at_run w t 0 ltac:(lia))).
  set (t' := set_next_at0 _ _ _). exists t'.
  assert (Hlen' : rlen t' = rlen t) by (unfold t', set_next_at0; by rewrite !rlen_set).
  assert (Hget : forall j, 0 <= j -> rget t' j = if 0 =? j then mk_ipr index (ipr_name (rget t 0))
            else if index =? j then mk_ipr (ipr_notify (rget t 0)) MACH_PORT_NULL else rget t j).
  { intros j Hj. unfold t', set_next_at0. by rewrite !rget_set by (rewrite ?rlen_set; lia). }
  assert (Hother : forall j, 0 < j -> j <> index -> rget t' j = rget t j).
  { intros j ? ?. rewrite Hget, (proj2 (Z.eqb_neq 0 j)), (proj2 (Z.eqb_neq index j)) by lia. done. }
  assert (Hself : rget t' index = mk_ipr (ipr_notify (rget t 0)) MACH_PORT_NULL).
  { rewrite Hget, (proj2 (Z.eqb_neq 0 index)), Z.eqb_refl by lia. done. }
  assert (Hnin : index ∉ fl) by (rewrite Hfl; naive_solver).
  split_and!; try done.
  - split; [by rewrite Hlen'|lia|]. exists (index :: fl). split_and!.
    + apply (linked_list_push (fun i => ipr_notify (rget t i))); [done|by rewrite Hget by lia|by rewrite Hself|].
      intros j Hj. rewrite Hother; [done| |by intros ->]. apply Hfl in Hj. lia.
    + by apply NoDup_cons.
    + intros i. rewrite elem_of_cons, Hfl, Hlen'. destruct (Z.eq_dec i index) as [->|Hne].
      * rewrite Hself. naive_solver.
      * split; [intros [?|[? ?]]|intros [? ?]]; [done|rewrite Hother by lia|rewrite Hother in * by lia]; auto.
  - intros i. destruct (Z.eqb_spec i index) as [->|Hne].
    + unfold registered. rewrite Hself. simpl. by rewrite andb_false_r.
    + apply registered_ext; [done|]. intros ?. by rewrite Hother by lia.
Qed.

(** ** Growing the table *)

Lemma dn_sizes_computed :
  forallb (fun k => (dn_size (S k) =? 0) || ((0 <? dn_size k) && (dn_size k <? dn_size (S k)))) (seq 0 64) = true /\
  dn_size 0 = 2 /\ forallb (fun k => dn_size k <? 100000) (seq 0 64) = true.
Proof. by vm_compute. Qed.

Lemma dn_size_beyond k : (64 <= k)%nat -> dn_size k = 0.
Proof. intros Hk. unfold dn_size. apply nth_overflow. exact Hk. Qed.

Lemma dn_size_increasing k : dn_size (S k) <> 0 -> 0 < dn_size k < dn_size (S k).
Proof.
  intros Hk. destruct (decide (k < 64)%nat) as [Hlt|Hge]; [|by rewrite dn_size_beyond in Hk by lia].
  destruct dn_sizes_computed as (Hall & _). rewrite forallb_forall in Hall.
  specialize (Hall k). rewrite in_seq in Hall. specialize (Hall ltac:(lia)).
  apply orb_prop in Hall as [?%Z.eqb_eq|[?%Z.ltb_lt ?%Z.ltb_lt]%andb_prop]; [done|lia].
Qed.

Lemma thread_free_spec n : forall (nt : list ipc_port_request) i free fl,
  0 < i -> i + Z.of_nat n <= Z.of_nat (length nt) ->
  let rd l j := nth (Z.to_nat j) l (mk_ipr 0 0) in
  linked_from (fun j => ipr_notify (rd nt j)) free fl -> NoDup fl -> (forall j, j ∈ fl -> 0 < j < i) ->
  let '(nt', free') := thread_free n nt i free in
  length nt' = length nt /\
  (forall j, 0 <= j -> ~ i <= j < i + Z.of_nat n -> rd nt' j = rd nt j) /\
  (forall j, i <= j < i + Z.of_nat n -> ipr_name (rd nt' j) = MACH_PORT_NULL) /\
  exists fl', linked_from (fun j => ipr_notify (rd nt' j)) free' fl' /\ NoDup fl' /\
    forall j, j ∈ fl' <-> j ∈ fl \/ i <= j < i + Z.of_nat n.
Proof.
  induction n as [|n IH]; intros nt i free fl Hi Hlen rd Hc Hnd Hfl.
  { simpl. split_and!; [done..|lia|]. exists fl. split_and!; [done..|]. intros j. split; [by left|]. intros [?|?]; [done|lia]. }
  cbn [thread_free]. set (nt1 := <[Z.to_nat i := _]> nt).
  assert (Hrd : forall j, 0 <= j -> rd nt1 j = if i =? j then mk_ipr free MACH_PORT_NULL else rd nt j).
  { intros j Hj. unfold rd, nt1. rewrite !nth_lookup. destruct (Z.eqb_spec i j) as [<-|Hne].
    - by rewrite list_lookup_insert_eq by lia.
    - by rewrite list_lookup_insert_ne by lia. }
  assert (Hlen1 : length nt1 = length nt) by (unfold nt1; by rewrite length_insert).
  specialize (IH nt1 (i + 1) i (i :: fl)). cbn zeta in IH.
  destruct (thread_free n nt1 (i + 1) i) as [nt' free'].
  destruct IH as (Hl & Hout & Hname & fl' & Hc' & Hnd' & Hin'); [lia|lia| | | |].
  - apply (linked_from_push (fun j => ipr_notify (rd nt j)) _ free); [done| |].
    + fold (rd nt1 i). rewrite Hrd, Z.eqb_refl by lia. done.
    + intros j Hj. apply Hfl in Hj. fold (rd nt1 j). rewrite Hrd, (proj2 (Z.eqb_neq i j)) by lia. done.
  - apply NoDup_cons. split; [|done]. intros Hj%Hfl. lia.
  - intros j [->|Hj]%elem_of_cons; [lia|]. apply Hfl in Hj. lia.
  - fold rd in Hout, Hname, Hc'. split_and!; [congruence| | |].
    + intros j Hj Hn. unfold rd in Hout |- *. rewrite Hout by lia. fold (rd nt1 j) (rd nt j).
      by rewrite Hrd, (proj2 (Z.eqb_neq i j)) by lia.
    + intros j Hj. destruct (Z.eq_dec j i) as [->|]; [|apply Hname; lia].
      unfold rd in Hout |- *. rewrite Hout by lia. fold (rd nt1 i). by rewrite Hrd, Z.eqb_refl by lia.
    + exists fl'. split_and!; [done..|]. intros j. rewrite Hin', elem_of_cons. split.
      * intros [[->|?]|?]; [right; lia|by left|right; lia].
      * intros [?|?]; [auto|]. destruct (Z.eq_dec j i); [auto|right; lia].
Qed.

(** The parts of [grown_table]: the size and the free list of the old table,
    and the new table after the copy. *)
Definition old_size (ot : option ipc_port_requests) : Z :=
  match ot with Some t => dn_size (ipr_size t) | None => 1 end.
Definition old_free (ot : option ipc_port_requests) : Z :=
  match ot with Some t => ipr_notify (rget t 0) | None => 0 end.
Definition old_copied (ot : option ipc_port_requests) (mem : list ipc_port_request) : list ipc_port_request :=
  match ot with
  | Some t =>
    take 1 mem ++ take (Z.to_nat (old_size ot - 1)) (drop 1 (ipr_table t)) ++ drop (Z.to_nat (old_size ot)) mem
  | None => mem
  end.
Definition rread (l : list ipc_port_request) (j : Z) : ipc_port_request := nth (Z.to_nat j) l (mk_ipr 0 0).

Lemma grown_table_eq ot its addr mem :
  grown_table ot its addr mem =
    let '(ntable, free) :=
      thread_free (Z.to_nat (dn_size its - old_size ot)) (old_copied ot mem) (old_size ot) (old_free ot) in
    mk_requests addr its (match ntable with h :: l => mk_ipr free (ipr_name h) :: l | [] => [] end).
Proof. unfold grown_table, old_size, old_free, old_copied. destruct ot as [t|]; [|done]. unfold rget. by destruct (ipr_table t). Qed.

Section grown.
Context (ot : option ipc_port_requests) (its : nat) (addr : Z) (mem : list ipc_port_request).
Hypothesis Hits : its = match ot with None => O | Some t => S (ipr_size t) end.
Hypothesis Hsz : dn_size its <> 0.
Hypothesis Hmem : Z.of_nat (length mem) = dn_size its.
Hypothesis Hok : forall t, ot = Some t -> dn_ok t.

Lemma old_size_bound : 0 < old_size ot < dn_size its.
Proof.
  unfold old_size. destruct ot as [t|]; subst its; [by apply dn_size_increasing|].
  destruct dn_sizes_computed as (_ & -> & _). lia.
Qed.

Lemma old_rlen t : ot = Some t -> rlen t = old_size ot.
Proof. intros Hot. destruct (Hok t Hot) as [-> _ _]. unfold old_size. by rewrite Hot. Qed.

Lemma old_copied_length : length (old_copied ot mem) = length mem.
Proof.
  pose proof old_size_bound. pose proof old_rlen as Hl. unfold rlen in Hl. unfold old_copied.
  destruct ot as [t|]; [|done]. specialize (Hl t eq_refl).
  rewrite !length_app, !length_take, !length_drop. lia.
Qed.

Lemma old_copied_get j : 0 < j < old_size ot -> exists t, ot = Some t /\ rread (old_copied ot mem) j = rget t j.
Proof.
  intros Hj. pose proof old_size_bound. pose proof old_rlen as Hl. unfold rlen in Hl.
  destruct ot as [t|]; [|unfold old_size in Hj; lia]. specialize (Hl t eq_refl). exists t. split; [done|]. unfold rread, rget, old_copied.
  rewrite app_nth2 by (rewrite length_take; lia). rewrite length_take, Nat.min_l by lia.
  rewrite app_nth1 by (rewrite length_take, length_drop; lia).
  rewrite nth_lookup, lookup_take_lt by lia. rewrite lookup_drop, nth_lookup. do 2 f_equal. lia.
Qed.

Lemma old_copied_free : exists fl, linked_from (fun j => ipr_notify (rread (old_copied ot mem) j)) (old_free ot) fl /\
  NoDup fl /\ forall j, j ∈ fl <-> 0 < j < old_size ot /\ ipr_name (rread (old_copied ot mem) j) = MACH_PORT_NULL.
Proof.
  pose proof old_copied_get as Hold. pose proof old_rlen as Hrl. destruct ot as [t|].
  - destruct (Hok t eq_refl) as [_ _ (fl & Hc & Hnd & Hfl)]. exists fl. rewrite (Hrl t eq_refl) in Hfl.
    split_and!; [|done|].
    + apply (linked_from_start (fun i => ipr_notify (rget t i)) 0) in Hc.
      apply (linked_from_ext (fun i => ipr_notify (rget t i))); [|done].
      intros j Hj. apply Hfl in Hj as [Hj _]. destruct (Hold j Hj) as (t' & [= <-] & ->). done.
    + intros j. rewrite Hfl. split; intros [Hj Hn]; (split; [done|]);
        destruct (Hold j Hj) as (t' & [= <-] & Heq); congruence.
  - exists []. split_and!; [done|constructor|]. intros j. rewrite elem_of_nil. simpl. split; [done|lia].
Qed.

(** The new table and its free list after the new part has been threaded. *)
Context (h : ipc_port_request) (l : list ipc_port_request) (free' : Z) (fl' : list Z).
Hypothesis Hlen : Z.of_nat (length (h :: l)) = dn_size its.
Hypothesis Hout : forall j, 0 <= j < old_size ot -> rread (h :: l) j = rread (old_copied ot mem) j.
Hypothesis Hname : forall j, old_size ot <= j < dn_size its -> ipr_name (rread (h :: l) j) = MACH_PORT_NULL.
Hypothesis Hc' : linked_from (fun j => ipr_notify (rread (h :: l) j)) free' fl'.
Hypothesis Hnd' : NoDup fl'.
Hypothesis Hin' : forall j, j ∈ fl' <->
  (0 < j < old_size ot /\ ipr_name (rread (old_copied ot mem) j) = MACH_PORT_NULL) \/ old_size ot <= j < dn_size its.

Let t' := mk_requests addr its (mk_ipr free' (ipr_name h) :: l).

Lemma grown_get j : 0 < j -> rget t' j = rread (h :: l) j.
Proof. intros Hj. unfold rget, rread, t'. simpl ipr_table. destruct (Z.to_nat j) eqn:Hz; [lia|done]. Qed.

Lemma grown_rlen : rlen t' = dn_size its.
Proof. unfold rlen, t'. simpl in *. lia. Qed.

Lemma grown_dn_ok : dn_ok t'.
Proof.
  pose proof old_size_bound. pose proof grown_rlen as Hrl. split; [done|lia|]. exists fl'. split_and!; [|done|].
  - apply linked_from_start. change (ipr_notify (rget t' 0)) with free'.
    apply (linked_from_ext (fun j => ipr_notify (rread (h :: l) j))); [|done].
    intros j Hj. rewrite grown_get; [done|]. apply Hin' in Hj as [[Hj _]|Hj]; lia.
  - intros j. rewrite Hin', Hrl. split.
    + intros [[Hj Hn]|Hj]; (split; [lia|]); rewrite grown_get by lia; [by rewrite Hout by lia|by apply Hname].
    + intros [Hj Hn]. rewrite grown_get in Hn by lia. destruct (Z_lt_le_dec j (old_size ot)); [left|right; lia].
      split; [lia|]. by rewrite Hout in Hn by lia.
Qed.

Lemma grown_registered i : registered t' i = match ot with Some t => registered t i | None => None end.
Proof.
  pose proof old_size_bound. pose proof grown_rlen as Hrl. destruct (decide (0 < i < old_size ot)) as [Hi|Hi].
  - destruct (old_copied_get i Hi) as (t & Hot & Heq). pose proof (old_rlen t Hot) as Hrt. rewrite Hot.
    unfold registered. rewrite grown_get, Hout, Heq, Hrl, Hrt by lia.
    by rewrite (proj2 (Z.ltb_lt 0 i)), !(proj2 (Z.ltb_lt i _)) by lia.
  - assert (registered t' i = None) as ->.
    { destruct (registered t' i) as [x|] eqn:Hx; [|done]. apply registered_name in Hx as (Hx & Hn & _).
      exfalso. apply Hn. rewrite grown_get by lia. apply Hname. lia. }
    pose proof old_rlen as Hrt. destruct ot as [t|]; [|done]. destruct (registered t i) as [x|] eqn:Hx; [|done].
    apply registered_name in Hx as (Hx & _). rewrite (Hrt t eq_refl) in Hx. lia.
Qed.
End grown.

(** Requests keep their indices when the table grows, and there is room. *)
Lemma grown_table_spec ot its addr mem :
  its = match ot with None => O | Some t => S (ipr_size t) end ->
  dn_size its <> 0 -> Z.of_nat (length mem) = dn_size its ->
  (forall t, ot = Some t -> dn_ok t) ->
  let t' := grown_table ot its addr mem in
  dn_ok t' /\ ipr_addr t' = addr /\ ipr_size t' = its /\
  (forall i, registered t' i = match ot with Some t => registered t i | None => None end) /\
  exists i, 0 < i < rlen t' /\ registered t' i = None.
Proof.
  intros Hits Hsz Hmem Hok. rewrite grown_table_eq. cbn zeta.
  pose proof (old_size_bound ot its mem Hits Hsz Hmem Hok) as Hos. pose proof (old_copied_length ot its mem Hits Hsz Hmem Hok) as Hl.
  destruct (old_copied_free ot its mem Hits Hsz Hmem Hok) as (fl & Hc & Hnd & Hfl).
  pose proof (thread_free_spec (Z.to_nat (dn_size its - old_size ot)) (old_copied ot mem) (old_size ot) (old_free ot) fl)
    as Hth. cbn zeta in Hth. rewrite Z2Nat.id in Hth by lia.
  replace (old_size ot + (dn_size its - old_size ot)) with (dn_size its) in Hth by lia.
  destruct (thread_free _ _ _ _) as [nt' free'].
  destruct Hth as (Hl' & Hout & Hname & fl' & Hc' & Hnd' & Hin');
    [lia|lia|done|done|intros j Hj; apply Hfl in Hj; lia|].
  destruct nt' as [|h l]; [simpl in Hl'; lia|].
  assert (Hlen : Z.of_nat (length (h :: l)) = dn_size its) by lia.
  assert (Hout' : forall j, 0 <= j < old_size ot -> rread (h :: l) j = rread (old_copied ot mem) j)
    by (intros j Hj; apply Hout; lia).
  assert (Hfull : forall j, j ∈ fl' <-> (0 < j < old_size ot /\ ipr_name (rread (old_copied ot mem) j) = MACH_PORT_NULL) \/
    old_size ot <= j < dn_size its) by (intros j; rewrite Hin', Hfl; done).
  assert (Hreg : forall i, registered (mk_requests addr its (mk_ipr free' (ipr_name h) :: l)) i =
    match ot with Some t => registered t i | None => None end) by (by eapply (grown_registered ot its addr mem)).
  split_and!; [by eapply (grown_dn_ok ot its addr mem)|done|done|exact Hreg|].
  exists (old_size ot). split; [unfold rlen; simpl ipr_table; simpl length in *; lia|]. rewrite Hreg.
  pose proof (old_rlen ot Hok) as Hrt. destruct ot as [t|]; [|done].
  destruct (registered t (old_size (Some t))) as [x|] eqn:Hx; [|done].
  apply registered_name in Hx as (Hx & _). rewrite (Hrt t eq_refl) in Hx. lia.
Qed.

Lemma u32_incr_decr r : u32_range r -> u32 (u32 (r + 1) - 1) = r.
Proof.
  intros Hr. unfold u32. rewrite Zminus_mod_idemp_l. replace (r + 1 - 1) with r by lia.
  apply Z.mod_small. unfold u32_range, u32_max in Hr. lia.
Qed.

Lemma u32_decr_incr r : u32_range r -> u32 (u32 (r - 1) + 1) = r.
Proof.
  intros Hr. unfold u32. rewrite Zplus_mod_idemp_l. replace (r - 1 + 1) with r by lia.
  apply Z.mod_small. unfold u32_range, u32_max in Hr. lia.
Qed.

(** A port that nobody else touches while the table grows. *)
Lemma dngrow_alone w port p alloc its addr mem :
  w_ports w !! port = Some p -> ip_active p = true -> u32_range (ip_references p) ->
  its = match ip_dnrequests p with None => O | Some t => S (ipr_size t) end ->
  dn_size its <> 0 -> alloc its = Some (addr, mem) ->
  ipc_port_dngrow port alloc id w =
    Some (KERN_SUCCESS, put_port port (set_ip_dnrequests
            (Some (grown_table (ip_dnrequests p) its addr mem)) p) w).
Proof.
  intros Hp Hact Hrefs Hits Hsz Halloc. unfold ipc_port_dngrow, ip_reference, ip_release. run_ports.
  rewrite <- Hits. unfold modify at 1. erewrite bind_run; [|reflexivity]. cbn beta.
  rewrite (proj2 (Z.eqb_neq _ _)) by done. rewrite Halloc. unfold id. run_ports.
  set (p' := set_ip_references _ (set_ip_references _ p)).
  assert (Hp' : p' = p).
  { unfold p'. destruct p. unfold set_ip_references. simpl in *. by rewrite u32_incr_decr. }
  rewrite Hp', Hact. replace (match ip_dnrequests p with Some t => _ | None => _ end) with true.
  - simpl. unfold set_port. unfold mbind, M_bind, modify, mret, M_ret. fold (put_port port
      (set_ip_dnrequests (Some (grown_table (ip_dnrequests p) its addr mem)) p) (put_port port p w)).
    by rewrite put_port_put.
  - destruct (ip_dnrequests p) as [t|]; [|done]. by rewrite Z.eqb_refl, Hits, Nat.eqb_refl.
Qed.

(** ** Chains of destinations *)

Inductive leads (w : world) : Z -> list Z -> Z -> Prop :=
| leads_end p x : w_ports w !! p = Some x -> in_transit x = false -> leads w p [] p
| leads_step p x l e : w_ports w !! p = Some x -> in_transit x = true ->
    leads w (ip_destination x) l e -> leads w p (p :: l) e.

(** Every chain ends, so there is no circle. *)
Definition no_circles (w : world) : Prop :=
  forall p x, w_ports w !! p = Some x -> exists l e, leads w p l e.

Lemma leads_fun w p l1 e1 l2 e2 : leads w p l1 e1 -> leads w p l2 e2 -> l1 = l2 /\ e1 = e2.
Proof.
  intros H1. revert l2 e2. induction H1 as [p x Hx Ht|p x l e Hx Ht H1 IH]; intros l2 e2 H2.
  - inversion H2; simplify_eq; [done|congruence].
  - inversion H2 as [|? x' l' ? Hx' Ht' H']; simplify_eq; [congruence|].
    destruct (IH _ _ H') as [-> ->]. done.
Qed.

Lemma leads_suffix w p l e q : leads w p l e -> q ∈ l ->
  exists l', leads w q (q :: l') e /\ (length (q :: l') <= length l)%nat.
Proof.
  induction 1 as [p x Hx Ht|p x l e Hx Ht Hl IH]; intros Hq; [by apply elem_of_nil in Hq|].
  apply elem_of_cons in Hq as [->|Hq].
  - exists l. split; [by eapply leads_step|done].
  - destruct (IH Hq) as (l' & Hl' & Hlen). exists l'. split; [done|]. simpl in *. lia.
Qed.

Lemma leads_NoDup w p l e : leads w p l e -> NoDup l.
Proof.
  induction 1 as [p x Hx Ht|p x l e Hx Ht Hl IH]; constructor; [|done].
  intros Hp. destruct (leads_suffix _ _ _ _ _ Hl Hp) as (l' & Hl' & Hlen).
  destruct (leads_fun w p (p :: l) e (p :: l') e) as [[= ->] _]; [by eapply leads_step|done|].
  simpl in Hlen. lia.
Qed.

Lemma leads_ports w p l e q : leads w p l e -> q ∈ l ->
  exists x, w_ports w !! q = Some x /\ in_transit x = true.
Proof.
  intros Hl Hq. destruct (leads_suffix _ _ _ _ _ Hl Hq) as (l' & Hl' & _).
  inversion Hl'; subst. eauto.
Qed.

Lemma leads_length w p l e : leads w p l e -> (length l <= base.size (w_ports w))%nat.
Proof.
  intros Hl. rewrite <- size_dom, <- (size_list_to_set (C := gset Z) l (leads_NoDup _ _ _ _ Hl)).
  apply subseteq_size. intros q Hq. apply elem_of_list_to_set in Hq.
  destruct (leads_ports _ _ _ _ _ Hl Hq) as (x & Hx & _). apply elem_of_dom. eauto.
Qed.

Lemma leads_last w p l e : leads w p l e -> exists x, w_ports w !! e = Some x /\ in_transit x = false.
Proof. induction 1; eauto. Qed.

Lemma chain_end_spec w p l e fuel :
  leads w p l e -> (length l < fuel)%nat -> chain_end fuel p w = Some (e, w).
Proof.
  intros Hl. revert fuel. induction Hl as [p x Hx Ht|p x l e Hx Ht Hl IH]; intros fuel Hf;
    (destruct fuel as [|fuel]; [simpl in Hf; lia|]); cbn [chain_end]; run_ports; rewrite Ht; [done|].
  apply IH. simpl in Hf. lia.
Qed.

(** [port] is queued for [dest]. *)
Definition queued (port dest : Z) (p d : ipc_port) (w : world) : world :=
  put_port port (set_ip_data dest p)
    (put_port dest (set_ip_references (u32 (ip_references d + 1)) d) w).

Lemma not_circular_run w port dest p d :
  w_ports w !! port = Some p -> w_ports w !! dest = Some d -> port <> dest ->
  (ip_reference dest;; update_port port (set_ip_data dest);; mret false) w =
    Some (false, queued port dest p d w).
Proof.
  intros Hp Hd Hne. unfold ip_reference. run_ports. erewrite bind_run.
  2: { apply update_port_run. rewrite put_port_other by done. exact Hp. }
  done.
Qed.

Section queue.
Context (w : world) (port dest : Z) (p d : ipc_port).
Context (Hp : w_ports w !! port = Some p) (Hd : w_ports w !! dest = Some d) (Hne : port <> dest).
Context (Hact : ip_active p = true) (Hrn : ip_receiver_name p = MACH_PORT_NULL)
  (Hlimbo : ip_destination p = IP_NULL) (Hdest : dest <> IP_NULL).

Lemma queued_port : w_ports (queued port dest p d w) !! port = Some (set_ip_data dest p).
Proof. apply put_port_lookup. Qed.

Lemma queued_in_transit : in_transit (set_ip_data dest p) = true.
Proof.
  unfold in_transit, ip_active, ip_destination in *. simpl. rewrite Hact, Hrn, Z.eqb_refl. simpl.
  by apply negb_true_iff, Z.eqb_neq.
Qed.

Lemma queued_other q x : q <> port -> w_ports w !! q = Some x ->
  exists x', w_ports (queued port dest p d w) !! q = Some x' /\
    in_transit x' = in_transit x /\ ip_destination x' = ip_destination x.
Proof.
  intros Hq Hx. unfold queued. rewrite put_port_other by done.
  destruct (Z.eq_dec q dest) as [->|Hqd].
  - rewrite put_port_lookup. rewrite Hd in Hx. injection Hx as <-. by eexists.
  - rewrite put_port_other by done. by exists x.
Qed.

Lemma limbo_not_transit : in_transit p = false.
Proof.
  unfold in_transit. unfold ip_destination in *. rewrite Hlimbo. by rewrite Z.eqb_refl, andb_false_r.
Qed.

(** Chains that do not end at [port] are unchanged. *)
Lemma queued_leads q l e : leads w q l e -> e <> port -> leads (queued port dest p d w) q l e.
Proof.
  induction 1 as [q x Hx Ht|q x l e Hx Ht Hl IH]; intros He.
  - destruct (queued_other q x) as (x' & Hx' & Ht' & _); [done|done|]. by eapply leads_end; [|rewrite Ht'].
  - assert (Hq : q <> port).
    { intros ->. rewrite Hp in Hx. injection Hx as <-. by rewrite limbo_not_transit in Ht. }
    destruct (queued_other q x) as (x' & Hx' & Ht' & Hd'); [done|done|].
    eapply leads_step; [done|by rewrite Ht'|]. rewrite Hd'. by apply IH.
Qed.

(** Chains that ended at [port] continue to where [dest] leads. *)
Lemma queued_leads_port q l e ld ed :
  leads w q l e -> e = port -> leads w dest ld ed -> ed <> port ->
  leads (queued port dest p d w) q (l ++ port :: ld) ed.
Proof.
  intros Hl He Hld Hed. induction Hl as [q x Hx Ht|q x l e Hx Ht Hl IH]; simpl.
  - rewrite He. eapply leads_step; [apply queued_port|apply queued_in_transit|]. by apply queued_leads.
  - assert (Hq : q <> port).
    { intros ->. rewrite Hp in Hx. injection Hx as <-. by rewrite limbo_not_transit in Ht. }
    destruct (queued_other q x) as (x' & Hx' & Ht' & Hd'); [done|done|].
    eapply leads_step; [done|by rewrite Ht'|]. rewrite Hd'. by apply IH.
Qed.

Lemma queued_no_circles :
  no_circles w -> (forall l, ~ leads w dest l port) -> no_circles (queued port dest p d w).
Proof.
  intros Hnc Hnl q x Hx. destruct (Hnc dest d Hd) as (ld & ed & Hld).
  assert (Hed : ed <> port) by (intros ->; by eapply Hnl).
  assert (Hq : exists x0, w_ports w !! q = Some x0).
  { unfold queued in Hx. destruct (Z.eq_dec port q) as [<-|]; [by eauto|].
    rewrite put_port_other in Hx by done. destruct (Z.eq_dec dest q) as [<-|]; [by eauto|].
    rewrite put_port_other in Hx by done. eauto. }
  destruct Hq as (x0 & Hx0). destruct (Hnc q x0 Hx0) as (l & e & Hl).
  destruct (Z.eq_dec e port) as [->|He].
  - exists (l ++ port :: ld), ed. by eapply queued_leads_port.
  - exists l, e. by apply queued_leads.
Qed.
End queue.

Lemma check_circularity_spec w trylock port dest p d :
  no_circles w -> w_ports w !! port = Some p -> w_ports w !! dest = Some d ->
  ip_active p = true -> ip_receiver_name p = MACH_PORT_NULL -> ip_destination p = IP_NULL ->
  dest <> IP_NULL ->
  exists circular w', ipc_port_check_circularity trylock port dest w = Some (circular, w') /\
  (circular = true <-> exists l, leads w dest l port) /\
  (circular = true -> w' = w) /\
  (circular = false -> w' = queued port dest p d w /\ no_circles w').
Proof.
  intros Hnc Hp Hd Hact Hrn Hlimbo Hdest. unfold ipc_port_check_circularity.
  assert (Hnt : in_transit p = false) by (by apply limbo_not_transit).
  destruct (Z.eqb_spec port dest) as [<-|Hne].
  { exists true, w. split_and!; [done|split; [|done]|done|done]. intros _. exists []. exact (leads_end w port p Hp Hnt). }
  run_ports. cbn zeta. destruct (Hnc dest d Hd) as (l & e & Hl).
  assert (Hend : chain_end (S (base.size (w_ports w))) dest w = Some (e, w)).
  { eapply chain_end_spec; [done|]. pose proof (leads_length _ _ _ _ Hl). lia. }
  assert (Hfin : forall c : bool, (c = true <-> e = port) ->
    (c = true <-> exists l', leads w dest l' port) /\
    (c = false -> queued port dest p d w = queued port dest p d w /\ no_circles (queued port dest p d w))).
  { intros c Hc. split.
    - rewrite Hc. split; [intros ->; eauto|]. intros (l' & Hl'). by destruct (leads_fun _ _ _ _ _ _ Hl Hl').
    - intros ->. split; [done|]. apply queued_no_circles; try done. intros l' Hl'.
      destruct (leads_fun _ _ _ _ _ _ Hl Hl') as [_ He]. by apply Hc in He. }
  destruct (trylock && negb (in_transit d)) eqn:Hq.
  - apply andb_prop in Hq as [_ Hq]. apply negb_true_iff in Hq.
    assert (e = dest) as ->.
    { assert (Hl0 : leads w dest [] dest) by (by eapply leads_end). by destruct (leads_fun _ _ _ _ _ _ Hl Hl0). }
    rewrite (not_circular_run w port dest p d Hp Hd Hne).
    destruct (Hfin false) as [H1 H2]; [split; [done|congruence]|].
    exists false, (queued port dest p d w). split_and!; [done|done|done|by intros; apply H2].
  - unfold gets. erewrite bind_run; [|reflexivity]. cbn beta. rewrite (bind_run _ _ _ _ _ Hend).
    destruct (Z.eqb_spec port e) as [<-|Hpe].
    + destruct (Hfin true) as [H1 H2]; [done|]. exists true, w. split_and!; done.
    + rewrite (not_circular_run w port dest p d Hp Hd Hne).
      destruct (Hfin false) as [H1 H2]; [split; [done|congruence]|].
      exists false, (queued port dest p d w). split_and!; [done|done|done|by intros; apply H2].
Qed.

(** ** Send rights without a name *)

Definition emitted (e : list event) (w : world) : world := with_events (w_events w ++ e) w.

Lemma emitted_nil w : emitted [] w = w.
Proof. unfold emitted, with_events. rewrite app_nil_r. by destruct w. Qed.

Lemma emitted_emitted e1 e2 w : emitted e2 (emitted e1 w) = emitted (e1 ++ e2) w.
Proof. unfold emitted, with_events. simpl. by rewrite app_assoc. Qed.

Lemma emit_run e w : emit e w = Some (tt, emitted [e] w).
Proof. done. Qed.

Lemma put_port_emitted p x e w : put_port p x (emitted e w) = emitted e (put_port p x w).
Proof. done. Qed.

(** The no-senders notification that is due when [p] has lost a send right. *)
Definition no_senders_due (p : ipc_port) : bool :=
  (ip_srights p =? 0) && negb (ip_nsrequest p =? IP_NULL).

Definition no_senders_events (p : ipc_port) : list event :=
  if no_senders_due p then [NotifyNoSenders (ip_nsrequest p) (ip_mscount p)] else [].

Definition without_send (p : ipc_port) : ipc_port :=
  let p := set_ip_srights (u32 (ip_srights p - 1)) p in
  if no_senders_due p then set_ip_nsrequest IP_NULL p else p.

Lemma drop_send_right_run w port p :
  w_ports w !! port = Some p ->
  let p' := set_ip_srights (u32 (ip_srights p - 1)) p in
  drop_send_right port w =
    Some (if no_senders_due p' then (ip_nsrequest p, ip_mscount p) else (IP_NULL, 0),
          put_port port (without_send p) w).
Proof.
  intros Hp p'. unfold drop_send_right. run_ports. fold p'. unfold without_send. fold p'.
  unfold no_senders_due. destruct (ip_srights p' =? 0); simpl; [|done].
  change (ip_nsrequest p') with (ip_nsrequest p).
  destruct (negb (ip_nsrequest p =? IP_NULL)); [|done].
  unfold set_port, modify, mbind, M_bind. cbn. unfold put_port, with_ports. simpl.
  by rewrite insert_insert_eq.
Qed.

(** Dropping the right and sending the notification. *)
Lemma drop_and_notify_run w port p :
  w_ports w !! port = Some p ->
  (ns ← drop_send_right port; notify_no_senders ns) w =
    Some (tt, emitted (no_senders_events (set_ip_srights (u32 (ip_srights p - 1)) p))
                (put_port port (without_send p) w)).
Proof.
  intros Hp. rewrite (bind_run _ _ _ _ _ (drop_send_right_run w port p Hp)).
  unfold notify_no_senders, no_senders_events, when.
  destruct (no_senders_due _) eqn:Hdue; simpl; [|by rewrite emitted_nil].
  unfold no_senders_due in Hdue. apply andb_prop in Hdue as [_ Hdue]. simpl in Hdue. by rewrite Hdue.
Qed.

Lemma release_send_active w port p :
  w_ports w !! port = Some p -> ip_active p = true ->
  let p1 := set_ip_references (u32 (ip_references p - 1)) p in
  ipc_port_release_send port w =
    Some (tt, emitted (no_senders_events (set_ip_srights (u32 (ip_srights p - 1)) p))
                (put_port port (without_send p1) w)).
Proof.
  intros Hp Hact p1. unfold ipc_port_release_send, ip_release. run_ports. fold p1.
  change (ip_active p1) with (ip_active p). rewrite Hact. cbn [negb].
  rewrite (drop_and_notify_run _ port p1) by apply put_port_lookup. by rewrite put_port_put.
Qed.

Lemma copy_send_spec w port :
  (port = IP_NULL \/ port = IP_DEAD -> ipc_port_copy_send port w = Some (port, w)) /\
  (forall p, IP_VALID port = true -> w_ports w !! port = Some p ->
     ipc_port_copy_send port w =
       if ip_active p then
         Some (port, put_port port (set_ip_srights (u32 (ip_srights p + 1))
                       (set_ip_references (u32 (ip_references p + 1)) p)) w)
       else Some (IP_DEAD, w)).
Proof.
  split.
  - intros Hport. unfold ipc_port_copy_send, IP_VALID, IO_VALID.
    by destruct Hport as [->| ->].
  - intros p Hv Hp. unfold ipc_port_copy_send. rewrite Hv. cbn [negb]. run_ports.
    destruct (ip_active p); [|done]. unfold ip_reference. by run_ports.
Qed.

Lemma make_send_run w port p :
  w_ports w !! port = Some p ->
  ipc_port_make_send port w =
    Some (port, put_port port (set_ip_references (u32 (ip_references p + 1))
      (set_ip_srights (u32 (ip_srights p + 1)) (set_ip_mscount (u32 (ip_mscount p + 1)) p))) w).
Proof. intros Hp. unfold ipc_port_make_send, ip_reference. by run_ports. Qed.

(** ** Waking threads *)

Definition waken (state : Z) (ths : list Z) (m : gmap Z ipc_thread) : gmap Z ipc_thread :=
  fold_left (fun m th => alter (set_state state) th m) ths m.

Lemma update_thread_run w th f :
  is_Some (w_threads w !! th) -> update_thread th f w = Some (tt, with_threads (alter f th (w_threads w)) w).
Proof.
  intros [t Ht]. unfold update_thread, thread_at, mbind, M_bind. rewrite Ht. unfold modify. do 3 f_equal.
  apply map_eq. intros i. destruct (decide (i = th)) as [->|].
  - by rewrite lookup_insert_eq, lookup_alter_eq, Ht.
  - by rewrite lookup_insert_ne, lookup_alter_ne by done.
Qed.

Lemma wake_all_run state ths : forall w,
  (forall th, th ∈ ths -> is_Some (w_threads w !! th)) ->
  wake_all state ths w =
    Some (tt, emitted (map ThreadGo ths) (with_threads (waken state ths (w_threads w)) w)).
Proof.
  induction ths as [|th ths IH]; intros w Hth; cbn [wake_all].
  { simpl. rewrite emitted_nil. by destruct w. }
  erewrite bind_run; [|apply update_thread_run, Hth, elem_of_cons; by left]. cbn beta.
  unfold thread_go. erewrite bind_run; [|apply emit_run]. cbn beta. rewrite IH.
  - simpl. unfold emitted, with_events, with_threads. simpl. by rewrite <- app_assoc.
  - intros th' Hth'. simpl. destruct (decide (th = th')) as [<-|].
    + rewrite lookup_alter_eq. destruct (Hth th) as [t ->]; [apply elem_of_cons; by left|]. by eexists.
    + rewrite lookup_alter_ne by done. apply Hth, elem_of_cons. by right.
Qed.

Lemma wake_senders_run n : forall blocked w,
  (forall th, th ∈ blocked -> is_Some (w_threads w !! th)) -> 0 <= n ->
  let woken := take (Z.to_nat n) blocked in
  wake_senders blocked n w =
    Some (drop (Z.to_nat n) blocked,
          emitted (map ThreadGo woken) (with_threads (waken MACH_MSG_SUCCESS woken (w_threads w)) w)).
Proof.
  intros blocked. revert n. induction blocked as [|th blocked IH]; intros n w Hth Hn; cbn [wake_senders].
  { rewrite take_nil, drop_nil. simpl. rewrite emitted_nil. by destruct w. }
  destruct (Z.ltb_spec 0 n) as [Hpos|Hz]; cycle 1.
  { replace n with 0 by lia. simpl. rewrite emitted_nil. by destruct w. }
  replace (Z.to_nat n) with (S (Z.to_nat (n - 1))) by lia.
  erewrite bind_run; [|apply update_thread_run, Hth, elem_of_cons; by left]. cbn beta.
  unfold thread_go. erewrite bind_run; [|apply emit_run]. cbn beta. rewrite IH; [| |lia].
  - simpl. unfold emitted, with_events, with_threads. simpl. by rewrite <- app_assoc.
  - intros th' Hth'. simpl. destruct (decide (th = th')) as [<-|].
    + rewrite lookup_alter_eq. destruct (Hth th) as [t ->]; [apply elem_of_cons; by left|]. by eexists.
    + rewrite lookup_alter_ne by done. apply Hth, elem_of_cons. by right.
Qed.
