(* ===== verification/PortQueue.v ===== *)
(** * Message queues and port sets: properties

    Moving the messages of a port between its own queue and that of its port
    set keeps them in order, hands them to the receivers that wait at the
    destination, first come first served, and touches nothing else of the
    port but the sequence number. *)

From S2P Require Import Prelude Names Splay Table Space Entry World Port PortInv.

(** The fields of a port that the queue operations leave alone. *)
Definition rest_of (p : ipc_port) :=
  (ip_references p, ip_bits p, ip_receiver_name p, ip_data p, ip_srights p, ip_sorights p,
   (ip_nsrequest p, ip_pdrequest p, ip_dnrequests p, ip_msgcount p, ip_qlimit p, ip_blocked p)).

(** What a queue operation of [port] may change: threads and the sequence
    number of the port. *)
Record queue_step (port : Z) (w w' : world) (p : ipc_port) (n : Z) : Prop := {
  qs_ports : w_ports w' = <[port := set_ip_seqno n p]> (w_ports w);
  qs_psets : w_psets w' = w_psets w;
  qs_kmsgs : w_kmsgs w' = w_kmsgs w;
  qs_threads : forall th, is_Some (w_threads w' !! th) <-> is_Some (w_threads w !! th)
}.

Lemma set_seqno_twice n m p : set_ip_seqno n (set_ip_seqno m p) = set_ip_seqno n p.
Proof. done. Qed.

Lemma set_seqno_id p : set_ip_seqno (ip_seqno p) p = p.
Proof. by destruct p. Qed.

Lemma queue_step_refl port w p : w_ports w !! port = Some p -> queue_step port w w p (ip_seqno p).
Proof. intros Hp. split; [|done..]. by rewrite set_seqno_id, insert_id. Qed.

Lemma queue_step_trans port w w' w'' p n m :
  queue_step port w w' p n -> queue_step port w' w'' (set_ip_seqno n p) m -> queue_step port w w'' p m.
Proof.
  intros [H1 H2 H3 H4] [K1 K2 K3 K4]. split; [|congruence..|].
  - by rewrite K1, H1, insert_insert_eq.
  - intros th. by rewrite K4.
Qed.

Lemma queue_step_port port w w' p n :
  queue_step port w w' p n -> w_ports w' !! port = Some (set_ip_seqno n p).
Proof. intros [-> _ _ _]. by rewrite lookup_insert_eq. Qed.

Definition msize_of (w : world) (th : Z) : Z :=
  match w_threads w !! th with Some t => ith_msize t | None => 0 end.

(** The receiver got the message with the sequence number. *)
Definition received (w : world) (th kmsg seqno : Z) : Prop :=
  exists t, w_threads w !! th = Some t /\
    ith_state t = MACH_MSG_SUCCESS /\ ith_kmsg t = kmsg /\ ith_seqno t = seqno.

Definition told_too_large (w : world) (th size : Z) : Prop :=
  exists t, w_threads w !! th = Some t /\ ith_state t = MACH_RCV_TOO_LARGE /\ ith_msize t = size.

(** Threads that are not in the list are as they were. *)
Definition threads_same (l : list Z) (w w' : world) : Prop :=
  forall th, th ∉ l -> w_threads w' !! th = w_threads w !! th.

Lemma thread_step port w p th f n t :
  w_ports w !! port = Some p -> w_threads w !! th = Some t ->
  let w' := put_port port (set_ip_seqno n p) (with_threads (<[th := f]> (w_threads w)) w) in
  queue_step port w w' p n /\ threads_same [th] w w' /\ w_threads w' !! th = Some f.
Proof.
  intros Hp Ht w'. split_and!.
  - split; try done. intros th'. simpl. destruct (decide (th = th')) as [<-|].
    + rewrite lookup_insert_eq, Ht. split; eauto.
    + by rewrite lookup_insert_ne.
  - intros th' Hne. simpl. rewrite lookup_insert_ne; [done|]. intros ->. by apply Hne, list_elem_of_singleton.
  - simpl. by rewrite lookup_insert_eq.
Qed.

Lemma alter_known (f : ipc_thread -> ipc_thread) th t (m : gmap Z ipc_thread) :
  m !! th = Some t -> alter f th m = <[th := f t]> m.
Proof.
  intros Ht. apply map_eq. intros i. destruct (decide (i = th)) as [->|].
  - by rewrite lookup_alter_eq, lookup_insert_eq, Ht.
  - by rewrite lookup_alter_ne, lookup_insert_ne by done.
Qed.

(** What [offer] does: the receivers [small] were told the size, the first one
    whose buffer is large enough, if any, took the message. *)
Record offered (port kmsg size : Z) (blocked : list Z) (w : world) (p : ipc_port)
    (found : bool) (rest small taker : list Z) (w' : world) (n : Z) : Prop := {
  of_blocked : blocked = small ++ taker ++ rest;
  of_step : queue_step port w w' p n;
  of_small : forall th, th ∈ small -> msize_of w th < size /\ told_too_large w' th size;
  of_taker : if found then exists th, taker = [th] /\ size <= msize_of w th /\
                 received w' th kmsg (ip_seqno p) /\ n = u32 (ip_seqno p + 1)
             else taker = [] /\ rest = [] /\ n = ip_seqno p;
  of_threads : threads_same (small ++ taker) w w'
}.

Lemma threads_same_trans l1 l2 w1 w2 w3 :
  threads_same l1 w1 w2 -> threads_same l2 w2 w3 -> threads_same (l1 ++ l2) w1 w3.
Proof. intros H1 H2 th Hth. rewrite H2, H1; [done|..]; set_solver. Qed.

Lemma msize_same l w w' th : threads_same l w w' -> th ∉ l -> msize_of w' th = msize_of w th.
Proof. intros Hs Hth. unfold msize_of. by rewrite Hs. Qed.

(** One receiver answered: its fields, and the sequence number of the port. *)
Lemma thread_answered port w p th t f n :
  w_ports w !! port = Some p -> w_threads w !! th = Some t ->
  let w' := put_port port (set_ip_seqno n p)
    (with_threads (alter f th (w_threads w)) (emitted [ThreadGo th] w)) in
  queue_step port w w' p n /\ threads_same [th] w w' /\ w_threads w' !! th = Some (f t).
Proof.
  intros Hp Ht w'. destruct (thread_step port w p th (f t) n t Hp Ht) as ([H1 H2 H3 H4] & Hs & Hl).
  unfold w'. simpl. rewrite (alter_known f th t _ Ht). by split_and!.
Qed.

Lemma offer_takes port kmsg size th blocked w p :
  w_ports w !! port = Some p -> is_Some (w_threads w !! th) -> size <= msize_of w th ->
  exists w' n, offer port kmsg size (th :: blocked) w = Some ((true, blocked), w') /\
    offered port kmsg size (th :: blocked) w p true blocked [] [th] w' n.
Proof.
  intros Hp [t Ht] Hle. cbn [offer]. unfold thread_go. erewrite bind_run; [|apply emit_run]. cbn beta.
  unfold thread_at at 1, mbind at 1, M_bind at 1. simpl. rewrite Ht.
  assert (Hm : msize_of w th = ith_msize t) by (unfold msize_of; by rewrite Ht).
  rewrite (proj2 (Z.leb_le _ _)) by lia.
  unfold port_at at 1, mbind at 1, M_bind at 1. simpl. rewrite Hp.
  erewrite bind_run; [|apply update_thread_run; by eexists]. cbn beta.
  set (f := fun t : ipc_thread => mk_thread MACH_MSG_SUCCESS kmsg (ip_seqno p) (ith_msize t)).
  destruct (thread_answered port w p th t f (u32 (ip_seqno p + 1)) Hp Ht) as (Hq & Hs & Hl).
  eexists _, (u32 (ip_seqno p + 1)). split; [reflexivity|]. split; try done.
  - by intros ? ?%elem_of_nil.
  - exists th. split_and!; [done|done| |done]. eexists. by split; [exact Hl|].
Qed.

(** A receiver with a small buffer is told so; the search goes on. *)
Lemma offered_skip port kmsg size th t blocked w w1 p found rest small taker w' n :
  th ∉ blocked -> msize_of w th < size ->
  queue_step port w w1 p (ip_seqno p) -> threads_same [th] w w1 ->
  w_threads w1 !! th = Some t -> ith_state t = MACH_RCV_TOO_LARGE -> ith_msize t = size ->
  offered port kmsg size blocked w1 p found rest small taker w' n ->
  offered port kmsg size (th :: blocked) w p found rest (th :: small) taker w' n.
Proof.
  intros Hnin Hlt Hq1 Hs1 Ht Hstate Hsize [-> Hq Hsmall Htaker Hs].
  assert (Hm : forall th', th' ∈ small ++ taker ++ rest -> msize_of w1 th' = msize_of w th').
  { intros th' Hth'. apply (msize_same [th]); [done|]. by intros ->%list_elem_of_singleton. }
  split.
  - done.
  - eapply queue_step_trans; [exact Hq1|]. by rewrite set_seqno_id.
  - intros th' [->|Hth']%elem_of_cons.
    + split; [done|]. exists t. split; [|done]. rewrite Hs; [done|set_solver].
    + destruct (Hsmall th' Hth') as [? ?]. split; [|done]. rewrite <- Hm; [done|set_solver].
  - destruct found; [|done]. destruct Htaker as (x & -> & Hle & Hrec & Hn). exists x.
    split_and!; try done. rewrite <- Hm; [done|set_solver].
  - exact (threads_same_trans [th] (small ++ taker) w w1 w' Hs1 Hs).
Qed.

Lemma offer_skips port kmsg size th blocked w p :
  w_ports w !! port = Some p -> is_Some (w_threads w !! th) -> msize_of w th < size ->
  exists w1 t, offer port kmsg size (th :: blocked) w = offer port kmsg size blocked w1 /\
    queue_step port w w1 p (ip_seqno p) /\ threads_same [th] w w1 /\
    w_threads w1 !! th = Some t /\ ith_state t = MACH_RCV_TOO_LARGE /\ ith_msize t = size.
Proof.
  intros Hp [t Ht] Hlt. cbn [offer]. unfold thread_go. erewrite bind_run; [|apply emit_run]. cbn beta.
  unfold thread_at at 1, mbind at 1, M_bind at 1. simpl. rewrite Ht.
  assert (Hm : msize_of w th = ith_msize t) by (unfold msize_of; by rewrite Ht).
  rewrite (proj2 (Z.leb_gt _ _)) by lia.
  erewrite bind_run; [|apply update_thread_run; by eexists]. cbn beta.
  set (f := fun t : ipc_thread => mk_thread MACH_RCV_TOO_LARGE (ith_kmsg t) (ith_seqno t) size).
  destruct (thread_answered port w p th t f (ip_seqno p) Hp Ht) as ([Q1 Q2 Q3 Q4] & Hs & Hl).
  eexists _, (f t). split; [reflexivity|]. split_and!; try done.
  split; try done. simpl. by rewrite set_seqno_id, insert_id.
Qed.

(** The first receiver whose buffer is large enough takes the message; the
    ones before it are told the size. *)
Lemma offer_spec port kmsg size blocked : forall w p,
  w_ports w !! port = Some p -> NoDup blocked ->
  (forall th, th ∈ blocked -> is_Some (w_threads w !! th)) ->
  exists found rest small taker w' n, offer port kmsg size blocked w = Some ((found, rest), w') /\
    offered port kmsg size blocked w p found rest small taker w' n.
Proof.
  induction blocked as [|th blocked IH]; intros w p Hp Hnd Hth.
  { exists false, [], [], [], w, (ip_seqno p). split; [done|]. split; try done.
    - by apply queue_step_refl.
    - by intros th ?%elem_of_nil. }
  apply NoDup_cons in Hnd as [Hnin Hnd].
  assert (Ht : is_Some (w_threads w !! th)) by (apply Hth, elem_of_cons; by left).
  destruct (Z_lt_le_dec (msize_of w th) size) as [Hlt|Hle].
  - destruct (offer_skips port kmsg size th blocked w p Hp Ht Hlt) as (w1 & t & -> & Hq1 & Hs1 & Ht1 & Hst & Hsz).
    destruct (IH w1 p) as (found & rest & small & taker & w' & n & Hrun & Hoff).
    + rewrite (queue_step_port _ _ _ _ _ Hq1). by rewrite set_seqno_id.
    + done.
    + intros th' Hth'. apply (qs_threads _ _ _ _ _ Hq1). apply Hth, elem_of_cons. by right.
    + exists found, rest, (th :: small), taker, w', n. split; [done|]. by eapply offered_skip.
  - destruct (offer_takes port kmsg size th blocked w p Hp Ht Hle) as (w' & n & Hrun & Hoff).
    by exists true, blocked, [], [th], w', n.
Qed.

(** ** Moving messages *)

Definition remote_of (w : world) (kmsg : Z) : Z :=
  match w_kmsgs w !! kmsg with Some k => msgh_remote_port k | None => 0 end.

Definition size_of (w : world) (kmsg : Z) : Z :=
  match w_kmsgs w !! kmsg with Some k => msgh_size k | None => 0 end.

(** The messages of [port] in a queue, and the others. *)
Definition mine (w : world) (port : Z) (q : list Z) : list Z := filter (fun k => remote_of w k = port) q.
Definition others (w : world) (port : Z) (q : list Z) : list Z := filter (fun k => remote_of w k <> port) q.

(** The messages [msgs] have been handed to [takers], in order. *)
Definition delivered (w : world) (takers msgs : list Z) (seqno : Z) : Prop :=
  forall j th kmsg, takers !! j = Some th -> msgs !! j = Some kmsg ->
    received w th kmsg (u32 (seqno + Z.of_nat j)).

Lemma received_same l w w' th kmsg seqno :
  threads_same l w w' -> th ∉ l -> received w th kmsg seqno -> received w' th kmsg seqno.
Proof. intros Hs Hn (t & Ht & Hr). exists t. by rewrite Hs. Qed.

Lemma u32_add_u32 a b : u32 (u32 a + b) = u32 (a + b).
Proof. unfold u32. by rewrite Zplus_mod_idemp_l. Qed.

Lemma delivered_cons w th kmsg takers msgs seqno :
  received w th kmsg (u32 seqno) -> delivered w takers msgs (u32 (seqno + 1)) ->
  delivered w (th :: takers) (kmsg :: msgs) seqno.
Proof.
  intros Hr Hd [|j] th' kmsg'; simpl.
  - intros [= <-] [= <-]. by rewrite Z.add_0_r.
  - intros Ht Hk. specialize (Hd j th' kmsg' Ht Hk). rewrite u32_add_u32 in Hd.
    by replace (seqno + Z.of_nat (S j)) with (seqno + 1 + Z.of_nat j) by lia.
Qed.

Record moved (port : Z) (oldq newq blocked : list Z) (w : world) (p : ipc_port)
    (stay newq' blocked' : list Z) (w' : world) (woken takers : list Z) (n : Z) : Prop := {
  m_step : queue_step port w w' p n;
  m_stay : stay = others w port oldq;
  m_woken : blocked = woken ++ blocked';
  m_takers : sublist takers woken;
  m_length : (length takers <= length (mine w port oldq))%nat;
  m_newq : newq' = newq ++ drop (length takers) (mine w port oldq);
  m_waiting : (length takers < length (mine w port oldq))%nat -> blocked' = [];
  m_delivered : delivered w' takers (mine w port oldq) (ip_seqno p);
  m_seqno : n = u32 (ip_seqno p + Z.of_nat (length takers));
  m_threads : threads_same woken w w'
}.

Lemma mine_cons w port kmsg q :
  remote_of w kmsg = port ->
  mine w port (kmsg :: q) = kmsg :: mine w port q /\ others w port (kmsg :: q) = others w port q.
Proof.
  intros Hr. unfold mine, others. rewrite filter_cons_True by done. rewrite filter_cons_False; [done|].
  intros Hc. by apply Hc.
Qed.

Lemma others_cons w port kmsg q :
  remote_of w kmsg <> port ->
  mine w port (kmsg :: q) = mine w port q /\ others w port (kmsg :: q) = kmsg :: others w port q.
Proof. intros Hr. unfold mine, others. by rewrite filter_cons_False, filter_cons_True. Qed.

Lemma mine_same w w' port q :
  w_kmsgs w' = w_kmsgs w -> mine w' port q = mine w port q /\ others w' port q = others w port q.
Proof. intros Hk. unfold mine, others, remote_of. by rewrite Hk. Qed.

Lemma moved_nil port newq blocked w p :
  w_ports w !! port = Some p -> u32_range (ip_seqno p) ->
  moved port [] newq blocked w p [] newq blocked w [] [] (ip_seqno p).
Proof.
  intros Hp Hsq. split; try done.
  - by apply queue_step_refl.
  - simpl. by rewrite app_nil_r.
  - simpl. lia.
  - simpl. rewrite Z.add_0_r. symmetry. by apply u32_id.
Qed.

(** The message was taken by a receiver. *)
Lemma moved_deliver port kmsg size oldq newq blocked w p rest small taker w1 n1 stay newq' blocked' w' woken takers n :
  remote_of w kmsg = port -> NoDup blocked -> u32_range (ip_seqno p) ->
  offered port kmsg size blocked w p true rest small taker w1 n1 ->
  moved port oldq newq rest w1 (set_ip_seqno n1 p) stay newq' blocked' w' woken takers n ->
  moved port (kmsg :: oldq) newq blocked w p stay newq' blocked' w' (small ++ taker ++ woken) (taker ++ takers) n.
Proof.
  intros Hr Hnd Hsq [-> Hq _ (th & -> & _ & Hrec & Hn1) Hs] [M1 M2 M3 M4 M5 M6 M7 M8 M9 M10].
  destruct (mine_cons w port kmsg oldq Hr) as [Hmk Hok].
  destruct (mine_same w w1 port oldq (qs_kmsgs _ _ _ _ _ Hq)) as [Hm1 Ho1]. rewrite Hm1 in *. rewrite Ho1 in *.
  assert (Hnin : th ∉ rest) by (apply NoDup_app in Hnd as (_ & _ & [? _]%NoDup_cons); done).
  simpl in M8, M9. rewrite Hn1 in M8, M9. split; rewrite ?Hmk, ?Hok; try done.
  - by eapply queue_step_trans.
  - by rewrite M3, <- !app_assoc.
  - apply sublist_inserts_l. simpl. by constructor.
  - simpl. lia.
  - simpl. intros ?. apply M7. lia.
  - apply delivered_cons; [|done]. rewrite u32_id by done. eapply received_same; [done| |done]. set_solver.
  - simpl. rewrite M9, u32_add_u32. f_equal. lia.
  - rewrite app_assoc. exact (threads_same_trans _ _ _ _ _ Hs M10).
Qed.

(** No receiver took the message, and none is left. *)
Lemma moved_enqueue port kmsg size oldq newq blocked w p rest small taker w1 n1 stay newq' blocked' w' woken takers n :
  remote_of w kmsg = port ->
  offered port kmsg size blocked w p false rest small taker w1 n1 ->
  moved port oldq (newq ++ [kmsg]) rest w1 p stay newq' blocked' w' woken takers n ->
  moved port (kmsg :: oldq) newq blocked w p stay newq' blocked' w' small takers n.
Proof.
  intros Hr [-> Hq _ (-> & -> & ->) Hs] [M1 M2 M3 M4 M5 M6 M7 M8 M9 M10].
  destruct (mine_cons w port kmsg oldq Hr) as [Hmk Hok].
  destruct (mine_same w w1 port oldq (qs_kmsgs _ _ _ _ _ Hq)) as [Hm1 Ho1]. rewrite Hm1 in *. rewrite Ho1 in *.
  symmetry in M3. apply app_nil in M3 as [-> ->]. apply sublist_nil_r in M4 as ->. simpl in *.
  split; rewrite ?Hmk, ?Hok; simpl; try done.
  - eapply queue_step_trans; [exact Hq|]. by rewrite set_seqno_id.
  - apply sublist_nil_l.
  - lia.
  - by rewrite M6, drop_0, <- app_assoc.
  - pose proof (threads_same_trans _ _ _ _ _ Hs M10) as Ht. by rewrite !app_nil_r in Ht.
Qed.

Lemma moved_skip port kmsg oldq newq blocked w p stay newq' blocked' w' woken takers n :
  remote_of w kmsg <> port ->
  moved port oldq newq blocked w p stay newq' blocked' w' woken takers n ->
  moved port (kmsg :: oldq) newq blocked w p (kmsg :: stay) newq' blocked' w' woken takers n.
Proof.
  intros Hr [M1 M2 M3 M4 M5 M6 M7 M8 M9 M10]. destruct (others_cons w port kmsg oldq Hr) as [Hmk Hok].
  split; rewrite ?Hmk, ?Hok; try done. by rewrite M2.
Qed.

Lemma move_messages_spec port oldq : forall newq blocked w p,
  w_ports w !! port = Some p -> u32_range (ip_seqno p) -> NoDup blocked ->
  (forall th, th ∈ blocked -> is_Some (w_threads w !! th)) ->
  (forall k, k ∈ oldq -> is_Some (w_kmsgs w !! k)) ->
  exists stay newq' blocked' w' woken takers n,
    move_messages port oldq newq blocked w = Some ((stay, newq', blocked'), w') /\
    moved port oldq newq blocked w p stay newq' blocked' w' woken takers n.
Proof.
  induction oldq as [|kmsg oldq IH]; intros newq blocked w p Hp Hsq Hnd Hth Hk; cbn [move_messages].
  { eexists _, _, _, _, _, _, _. split; [done|by apply moved_nil]. }
  destruct (Hk kmsg) as [k Hkm]; [apply elem_of_cons; by left|].
  unfold kmsg_at at 1, mbind at 1, M_bind at 1. rewrite Hkm.
  assert (Hrem : remote_of w kmsg = msgh_remote_port k) by (unfold remote_of; by rewrite Hkm).
  assert (Hk' : forall k, k ∈ oldq -> is_Some (w_kmsgs w !! k)) by (intros; apply Hk, elem_of_cons; by right).
  destruct (Z.eqb_spec (msgh_remote_port k) port) as [Hr|Hr]; simpl.
  - destruct (offer_spec port kmsg (msgh_size k) blocked w p Hp Hnd Hth)
      as (found & rest & small & taker & w1 & n1 & Hrun & Hoff).
    erewrite bind_run; [|exact Hrun]. cbn beta iota. pose proof (of_step _ _ _ _ _ _ _ _ _ _ _ _ Hoff) as Hq.
    assert (Hsub : forall th, th ∈ rest -> is_Some (w_threads w1 !! th)).
    { intros th Hin. apply (qs_threads _ _ _ _ _ Hq), Hth. rewrite (of_blocked _ _ _ _ _ _ _ _ _ _ _ _ Hoff). set_solver. }
    assert (Hndr : NoDup rest).
    { rewrite (of_blocked _ _ _ _ _ _ _ _ _ _ _ _ Hoff), app_assoc in Hnd. by apply NoDup_app in Hnd as (_ & _ & ?). }
    assert (Hn1 : u32_range n1).
    { pose proof (of_taker _ _ _ _ _ _ _ _ _ _ _ _ Hoff) as Ht. destruct found.
      - destruct Ht as (_ & _ & _ & _ & ->). apply u32_in_range.
      - by destruct Ht as (_ & _ & ->). }
    destruct (IH (if found then newq else newq ++ [kmsg]) rest w1 (set_ip_seqno n1 p))
      as (stay & newq' & blocked' & w' & woken & takers & n & Hrun' & Hmv); [by eapply queue_step_port|done..|
      by rewrite (qs_kmsgs _ _ _ _ _ Hq)|].
    exists stay, newq', blocked', w'. destruct found.
    + eexists _, _, n. split; [done|]. eapply moved_deliver; [by rewrite Hrem|done..].
    + exists small, takers, n. split; [done|]. eapply moved_enqueue; [by rewrite Hrem|done|].
      destruct (of_taker _ _ _ _ _ _ _ _ _ _ _ _ Hoff) as (_ & _ & ->). by rewrite set_seqno_id in Hmv.
  - destruct (IH newq blocked w p Hp Hsq Hnd Hth Hk')
      as (stay & newq' & blocked' & w' & woken & takers & n & Hrun' & Hmv).
    erewrite bind_run; [|exact Hrun']. cbn beta iota.
    exists (kmsg :: stay), newq', blocked', w', woken, takers, n. split; [done|].
    apply moved_skip; [by rewrite Hrem|done].
Qed.

(** ** Leaving a port set *)

Definition put_pset (s : Z) (x : ipc_pset) (w : world) : world := with_psets (<[s := x]> (w_psets w)) w.

Lemma update_pset_run w s x f : w_psets w !! s = Some x -> update_pset s f w = Some (tt, put_pset s (f x) w).
Proof. intros Hs. unfold update_pset, pset_at, mbind, M_bind. by rewrite Hs. Qed.

Lemma pset_at_run w s x : w_psets w !! s = Some x -> pset_at s w = Some (x, w).
Proof. intros Hs. unfold pset_at. by rewrite Hs. Qed.

(** The queue is one the code can work on: its threads and messages exist. *)
Record queue_ok (w : world) (q : ipc_mqueue) : Prop := {
  q_nodup : NoDup (imq_threads q);
  q_threads : forall th, th ∈ imq_threads q -> is_Some (w_threads w !! th);
  q_messages : forall k, k ∈ imq_messages q -> is_Some (w_kmsgs w !! k)
}.

Lemma mqueue_move_spec dest source port w p :
  w_ports w !! port = Some p -> u32_range (ip_seqno p) -> queue_ok w dest -> queue_ok w source ->
  exists dest' source' w' woken takers n,
    ipc_mqueue_move dest source port w = Some ((dest', source'), w') /\
    imq_threads source' = imq_threads source /\
    moved port (imq_messages source) (imq_messages dest) (imq_threads dest) w p
      (imq_messages source') (imq_messages dest') (imq_threads dest') w' woken takers n.
Proof.
  intros Hp Hsq Hd Hs. destruct (move_messages_spec port (imq_messages source) (imq_messages dest)
    (imq_threads dest) w p Hp Hsq) as (stay & newq & blocked & w' & woken & takers & n & Hrun & Hm);
    [apply Hd..|apply Hs|].
  unfold ipc_mqueue_move. erewrite bind_run; [|exact Hrun]. cbn beta iota.
  by eexists _, _, w', woken, takers, n.
Qed.

(** After leaving the set the port has its own messages back, and the set
    keeps the others; the set has lost a reference. *)
Lemma pset_remove_spec w pset port p s :
  w_ports w !! port = Some p -> w_psets w !! pset = Some s -> u32_range (ip_seqno p) ->
  queue_ok w (ip_messages p) -> queue_ok w (ips_messages s) ->
  exists w' p' s', ipc_pset_remove pset port w = Some (tt, w') /\
    w_ports w' = <[port := p']> (w_ports w) /\ w_psets w' = <[pset := s']> (w_psets w) /\
    w_kmsgs w' = w_kmsgs w /\
    rest_of p' = rest_of p /\ ip_mscount p' = ip_mscount p /\
    ip_pset p' = IPS_NULL /\ ip_cur_target p' = port /\
    ips_references s' = u32 (ips_references s - 1) /\ ips_bits s' = ips_bits s /\
    imq_messages (ips_messages s') = others w port (imq_messages (ips_messages s)) /\
    imq_threads (ips_messages s') = imq_threads (ips_messages s) /\
    (imq_threads (ip_messages p) = [] ->
       imq_messages (ip_messages p') =
         imq_messages (ip_messages p) ++ mine w port (imq_messages (ips_messages s)) /\
       ip_seqno p' = ip_seqno p).
Proof.
  intros Hp Hs Hsq Hqp Hqs. unfold ipc_pset_remove.
  set (p1 := set_ip_cur_target port (set_ip_pset IPS_NULL p)).
  set (s1 := set_ips_references (u32 (ips_references s - 1)) s).
  erewrite bind_run; [|by apply update_port_run]. cbn beta. fold p1.
  erewrite bind_run; [|unfold ips_release; by apply update_pset_run]. cbn beta. fold s1.
  set (w1 := put_pset pset s1 (put_port port p1 w)).
  assert (Hp1 : w_ports w1 !! port = Some p1) by (simpl; by rewrite lookup_insert_eq).
  assert (Hs1 : w_psets w1 !! pset = Some s1) by (simpl; by rewrite lookup_insert_eq).
  erewrite bind_run; [|by apply port_at_run]. cbn beta.
  erewrite bind_run; [|by apply pset_at_run]. cbn beta.
  destruct (mqueue_move_spec (ip_messages p1) (ips_messages s1) port w1 p1 Hp1 Hsq)
    as (dest & source & w2 & woken & takers & n & Hrun & Hsrc & Hm).
  { destruct Hqp; by split. }
  { destruct Hqs; by split. }
  erewrite bind_run; [|exact Hrun]. cbn beta iota.
  pose proof (m_step _ _ _ _ _ _ _ _ _ _ _ _ _ Hm) as Hstep.
  erewrite bind_run; [|apply update_pset_run; rewrite (qs_psets _ _ _ _ _ Hstep); done]. cbn beta.
  erewrite update_port_run; [|simpl; by eapply queue_step_port].
  eexists _, (set_ip_messages dest (set_ip_seqno n p1)), (set_ips_messages source s1).
  split; [reflexivity|]. simpl. split_and!; try done.
  - rewrite (qs_ports _ _ _ _ _ Hstep). simpl. by rewrite !insert_insert_eq.
  - rewrite (qs_psets _ _ _ _ _ Hstep). simpl. by rewrite insert_insert_eq.
  - by rewrite (qs_kmsgs _ _ _ _ _ Hstep).
  - exact (m_stay _ _ _ _ _ _ _ _ _ _ _ _ _ Hm).
  - intros Hno. destruct Hm as [_ _ M3 M4 _ M6 _ _ M9 _]. simpl in M3, M6, M9. rewrite Hno in M3.
    symmetry in M3. apply app_nil in M3 as [-> _]. apply sublist_nil_r in M4 as ->.
    split; [by rewrite M6, drop_0|]. rewrite M9. simpl. rewrite Z.add_0_r. by apply u32_id.
Qed.

(** What [ipc_port_clear_receiver] needs: the queue the port uses is in order. *)
Definition receivable (w : world) (p : ipc_port) : Prop :=
  u32_range (ip_seqno p) /\ queue_ok w (ip_messages p) /\
  (ip_pset p <> IPS_NULL -> exists s, w_psets w !! ip_pset p = Some s /\ queue_ok w (ips_messages s)).

Lemma clear_receiver_spec w port p :
  w_ports w !! port = Some p -> receivable w p ->
  exists w' p', ipc_port_clear_receiver port w = Some (tt, w') /\
    w_ports w' = <[port := p']> (w_ports w) /\ w_kmsgs w' = w_kmsgs w /\
    rest_of p' = rest_of p /\ ip_mscount p' = 0 /\ ip_seqno p' = 0 /\ ip_pset p' = IPS_NULL.
Proof.
  intros Hp (Hsq & Hq & Hset). unfold ipc_port_clear_receiver.
  erewrite bind_run; [|by apply port_at_run]. cbn beta.
  destruct (Z.eqb_spec (ip_pset p) IPS_NULL) as [He|Hne]; simpl.
  - unfold ipc_mqueue_changed.
    erewrite bind_run; cycle 1.
    { erewrite bind_run; cycle 1.
      - erewrite bind_run; [|apply wake_all_run; apply Hq]. cbn beta. reflexivity.
      - cbn beta. by apply update_port_run. }
    cbn beta. erewrite update_port_run; [|apply put_port_lookup]. rewrite put_port_put.
    eexists _, _. split; [reflexivity|]. simpl. done.
  - destruct (Hset Hne) as (s & Hs & Hqs).
    destruct (pset_remove_spec w (ip_pset p) port p s Hp Hs Hsq Hq Hqs)
      as (w1 & p1 & s1 & Hrun & Hports & Hpsets & Hk & Hrest & _ & Hps & _).
    assert (Hchk : exists w2, ips_check_unlock (ip_pset p) w1 = Some (tt, w2) /\
              w_ports w2 = w_ports w1 /\ w_kmsgs w2 = w_kmsgs w1).
    { unfold ips_check_unlock. erewrite bind_run; [|apply pset_at_run; by rewrite Hpsets, lookup_insert_eq].
      cbn beta. destruct (ips_references s1 =? 0); simpl; by eexists. }
    destruct Hchk as (w2 & Hrun2 & Hports2 & Hk2).
    erewrite bind_run; cycle 1. { erewrite bind_run; [|exact Hrun]. cbn beta. exact Hrun2. }
    cbn beta. erewrite update_port_run; [|by rewrite Hports2, Hports, lookup_insert_eq].
    eexists _, _. split; [reflexivity|]. simpl. rewrite Hports2, Hports, insert_insert_eq, Hk2. done.
Qed.
