(* ===== verification/PortDestroy.v ===== *)
(** * The queue limit and the destruction of a port: properties

    Who is woken and who is notified, in which order, and when the port is
    freed. *)

From S2P Require Import Prelude Names Splay Table Space Entry World Port PortInv.

(** ** The queue limit *)

(** Raising the limit by [n] wakes the first [n] blocked senders. *)
Lemma set_qlimit_spec w port p qlimit :
  w_ports w !! port = Some p -> (forall th, th ∈ ip_blocked p -> is_Some (w_threads w !! th)) ->
  u32_range qlimit -> u32_range (ip_qlimit p) ->
  let n := Z.to_nat (qlimit - ip_qlimit p) in
  let woken := take n (ip_blocked p) in
  ipc_port_set_qlimit port qlimit w =
    Some (tt, put_port port (set_ip_qlimit qlimit (set_ip_blocked (drop n (ip_blocked p)) p))
      (emitted (map ThreadGo woken) (with_threads (waken MACH_MSG_SUCCESS woken (w_threads w)) w))).
Proof.
  intros Hp Hth Hq Hp0 n woken. unfold ipc_port_set_qlimit. run_ports.
  unfold u32_range, u32_max in *. destruct (Z.ltb_spec (ip_qlimit p) qlimit) as [Hlt|Hge].
  - rewrite u32_id by (unfold u32_range, u32_max; lia).
    erewrite bind_run; [|apply wake_senders_run; [done|lia]]. cbn beta. by rewrite (update_port_run _ _ p).
  - assert (n = O) as Hn by (unfold n; lia). unfold woken. rewrite Hn. rewrite take_0, drop_0. simpl.
    erewrite bind_run; [|reflexivity]. cbn beta. rewrite (update_port_run _ _ p) by done.
    rewrite emitted_nil. by destruct w.
Qed.

(** ** Messages and dead-name requests of a dying port *)

Definition dead_name_event (port : Z) (r : ipc_port_request) : option event :=
  if ipr_name r =? MACH_PORT_NULL then None
  else Some (if ipr_spacep (ipr_notify r) then DeleteCompat port (ipr_space (ipr_notify r)) (ipr_name r)
             else NotifyDeadName (ipr_notify r) (ipr_name r)).

Lemma dead_names_run port rs : forall w,
  dead_names port rs w = Some (tt, emitted (omap (dead_name_event port) rs) w).
Proof.
  induction rs as [|r rs IH]; intros w; cbn [dead_names].
  { simpl. by rewrite emitted_nil. }
  unfold dead_name_event at 1. simpl. destruct (ipr_name r =? MACH_PORT_NULL).
  - erewrite bind_run; [|reflexivity]. cbn beta. by rewrite IH.
  - destruct (ipr_spacep (ipr_notify r)); (erewrite bind_run; [|apply emit_run]; cbn beta);
      by rewrite IH, emitted_emitted.
Qed.

(** The requests a table holds, and the events they cause. *)
Definition dead_name_events (port : Z) (t : ipc_port_requests) : list event :=
  omap (dead_name_event port) (take (Z.to_nat (dn_size (ipr_size t)) - 1) (drop 1 (ipr_table t))).

(** Each registered request causes one event, and nothing else does. *)
Lemma dead_name_events_spec port t e :
  dn_ok t ->
  e ∈ dead_name_events port t <-> exists i name soright, registered t i = Some (name, soright) /\
    e = if ipr_spacep soright then DeleteCompat port (ipr_space soright) name
        else NotifyDeadName soright name.
Proof.
  intros [Hlen Hpos _]. unfold dead_name_events, rlen in *.
  rewrite take_ge by (rewrite length_drop; lia). rewrite list_elem_of_omap. split.
  - intros (r & Hin & Hr). apply list_elem_of_lookup in Hin as [k Hk]. rewrite lookup_drop in Hk.
    pose proof (lookup_lt_Some _ _ _ Hk) as Hlt. exists (Z.of_nat (1 + k)).
    assert (Hg : rget t (Z.of_nat (1 + k)) = r) by (unfold rget; rewrite Nat2Z.id; by apply nth_lookup_Some).
    unfold dead_name_event in Hr. destruct (Z.eqb_spec (ipr_name r) MACH_PORT_NULL); [done|].
    exists (ipr_name r), (ipr_notify r). split; [|by injection Hr as <-].
    apply registered_name. rewrite Hg. unfold rlen. split_and!; [lia|lia|done|done].
  - intros (i & name & so & Hr & ->). apply registered_name in Hr as (Hi & Hn & [= -> ->]). unfold rlen in Hi.
    exists (rget t i). split.
    + apply list_elem_of_lookup. exists (Z.to_nat i - 1)%nat. rewrite lookup_drop.
      replace (1 + (Z.to_nat i - 1))%nat with (Z.to_nat i) by lia. unfold rget.
      destruct (lookup_lt_is_Some_2 (ipr_table t) (Z.to_nat i)) as [r Hr]; [lia|].
      rewrite Hr. f_equal. symmetry. by apply nth_lookup_Some.
    + unfold dead_name_event. by rewrite (proj2 (Z.eqb_neq _ _)).
Qed.

Definition clear_remote (m : gmap Z ipc_kmsg) (k : Z) : gmap Z ipc_kmsg :=
  alter (set_remote_port MACH_PORT_NULL) k m.

Lemma update_kmsg_run w k f :
  is_Some (w_kmsgs w !! k) -> update_kmsg k f w = Some (tt, with_kmsgs (alter f k (w_kmsgs w)) w).
Proof.
  intros [x Hx]. unfold update_kmsg, kmsg_at, mbind, M_bind. rewrite Hx. unfold modify. do 3 f_equal.
  apply map_eq. intros i. destruct (decide (i = k)) as [->|].
  - by rewrite lookup_insert_eq, lookup_alter_eq, Hx.
  - by rewrite lookup_insert_ne, lookup_alter_ne by done.
Qed.

Lemma destroy_messages_run port ms : forall w p,
  w_ports w !! port = Some p -> (forall k, k ∈ ms -> is_Some (w_kmsgs w !! k)) ->
  Z.of_nat (length ms) < ip_references p -> u32_range (ip_references p) ->
  destroy_messages port ms w =
    Some (tt, emitted (map KmsgDestroy ms)
      (put_port port (set_ip_references (ip_references p - Z.of_nat (length ms)) p)
        (with_kmsgs (fold_left clear_remote ms (w_kmsgs w)) w))).
Proof.
  induction ms as [|k ms IH]; intros w p Hp Hk Hr Hu; cbn [destroy_messages].
  { simpl. rewrite emitted_nil, Z.sub_0_r. unfold put_port, with_ports, with_kmsgs. simpl.
    replace (set_ip_references (ip_references p) p) with p by (by destruct p).
    rewrite insert_id by done. by destruct w. }
  cbn [length] in *. unfold u32_range, u32_max in *.
  assert (Hu1 : u32 (ip_references p - 1) = ip_references p - 1) by (apply u32_id; unfold u32_range, u32_max; lia).
  unfold ipc_port_release at 1, ip_release, ip_check_unlock.
  set (p1 := set_ip_references (ip_references p - 1) p).
  erewrite bind_run; cycle 1.
  { erewrite bind_run; [|by apply update_port_run]. cbn beta. rewrite Hu1. fold p1.
    erewrite bind_run; [|apply port_at_run, put_port_lookup]. cbn beta.
    change (ip_references p1) with (ip_references p - 1). rewrite (proj2 (Z.eqb_neq _ _)) by lia. reflexivity. }
  cbn beta. erewrite bind_run; [|apply update_kmsg_run; apply (Hk k), elem_of_cons; by left]. cbn beta.
  erewrite bind_run; [|apply emit_run]. cbn beta. rewrite (IH _ p1).
  - simpl. unfold emitted, put_port, with_events, with_ports, with_kmsgs. simpl.
    rewrite <- app_assoc, insert_insert_eq. simpl. do 3 f_equal. f_equal. unfold p1, set_ip_references. simpl.
    f_equal. lia.
  - simpl. by rewrite lookup_insert_eq.
  - intros k' Hk'. simpl. destruct (decide (k = k')) as [<-|].
    + rewrite lookup_alter_eq. destruct (Hk k) as [x ->]; [apply elem_of_cons; by left|]. by eexists.
    + rewrite lookup_alter_ne by done. apply Hk, elem_of_cons. by right.
  - simpl. lia.
  - simpl. unfold u32_range, u32_max. lia.
Qed.

(** ** A port that dies *)

(** The port once it is dead; [t] is the time of its death. *)
Definition dead_port (t : Z) (p : ipc_port) : ipc_port :=
  set_ip_messages (mk_mqueue [] (imq_threads (ip_messages p)))
    (set_ip_data t (set_ip_blocked [] (set_ip_bits (Z.ldiff (ip_bits p) IO_BITS_ACTIVE) p))).

Lemma dead_port_inactive t p : ip_active (dead_port t p) = false.
Proof.
  change (Z.testbit (Z.ldiff (ip_bits p) IO_BITS_ACTIVE) 31 = false).
  by rewrite Z.ldiff_spec, andb_false_r.
Qed.

(** Who is told, in order: the blocked senders, the holder of the no-senders
    request, the messages' resources, the dead-name requesters, the kernel
    object. *)
Definition death_events (port : Z) (p : ipc_port) : list event :=
  map ThreadGo (ip_blocked p) ++
  (if ip_nsrequest p =? IP_NULL then [] else [NotifySendOnce (ip_nsrequest p)]) ++
  map KmsgDestroy (imq_messages (ip_messages p)) ++
  match ip_dnrequests p with None => [] | Some t => dead_name_events port t end ++
  (if io_kotype (Z.ldiff (ip_bits p) IO_BITS_ACTIVE) =? IKOT_NONE then [] else [KobjectDestroy port]).

Lemma when_emit_run b e w : when b (emit e) w = Some (tt, emitted (if b then [e] else []) w).
Proof. destruct b; simpl; [done|]. by rewrite emitted_nil. Qed.

Lemma emitted_ports e w : w_ports (emitted e w) = w_ports w.
Proof. done. Qed.

(** What the code relies on when [port] dies: its threads and messages exist,
    and every message holds a reference, beside the caller's and [n] more. *)
Record doomed (n : Z) (w : world) (p : ipc_port) : Prop := {
  do_threads : forall th, th ∈ ip_blocked p -> is_Some (w_threads w !! th);
  do_kmsgs : forall k, k ∈ imq_messages (ip_messages p) -> is_Some (w_kmsgs w !! k);
  do_references : n + Z.of_nat (length (imq_messages (ip_messages p))) < ip_references p;
  do_range : u32_range (ip_references p)
}.

(** The references that are left are those of names that are now dead. *)
Definition left_references (p : ipc_port) : Z :=
  ip_references p - Z.of_nat (length (imq_messages (ip_messages p))) - 1.

Record died (port : Z) (p : ipc_port) (w w' : world) : Prop := {
  di_events : w_events w' = w_events w ++ death_events port p ++
    (if left_references p =? 0 then [ObjectFree port] else []);
  di_ports : w_ports w' =
    (if left_references p =? 0 then delete port (w_ports w)
     else <[port := set_ip_references (left_references p) (dead_port (w_timestamp w) p)]> (w_ports w));
  di_threads : w_threads w' = waken MACH_MSG_SUCCESS (ip_blocked p) (w_threads w);
  di_psets : w_psets w' = w_psets w;
  di_timestamp : w_timestamp w' = u32 (w_timestamp w + 1)
}.

Lemma destroy_dead_spec w port p :
  w_ports w !! port = Some p -> doomed 0 w p ->
  exists w', destroy_dead port w = Some (tt, w') /\ died port p w w'.
Proof.
  intros Hp [Hth Hk Hr Hu]. rewrite Z.add_0_l in Hr. set (left := left_references p).
  set (ms := imq_messages (ip_messages p)) in *.
  unfold destroy_dead. erewrite bind_run; [|by apply port_at_run]. cbn beta.
  erewrite bind_run; [|by apply wake_all_run]. cbn beta.
  set (w1 := emitted _ _). unfold ipc_port_timestamp.
  erewrite bind_run; [|reflexivity]. cbn beta. change (w_timestamp w1) with (w_timestamp w).
  set (w2 := with_timestamp _ w1).
  erewrite bind_run; [|apply update_port_run; exact Hp]. cbn beta.
  set (p1 := set_ip_data _ _). erewrite bind_run; [|apply port_at_run, put_port_lookup]. cbn beta.
  change (ip_nsrequest p1) with (ip_nsrequest p).
  erewrite bind_run; [|apply when_emit_run]. cbn beta.
  unfold set_port at 1. erewrite bind_run; [|reflexivity]. cbn beta.
  change (ip_messages p1) with (ip_messages p). fold ms.
  set (p2 := set_ip_messages _ p1). fold (put_port port p2 (emitted
    (if negb (ip_nsrequest p =? IP_NULL) then [NotifySendOnce (ip_nsrequest p)] else []) (put_port port p1 w2))).
  erewrite bind_run; [|apply (destroy_messages_run port ms _ p2); [apply put_port_lookup|done..]]. cbn beta.
  change (ip_references p2) with (ip_references p). change (ip_dnrequests p1) with (ip_dnrequests p).
  erewrite (bind_run (match ip_dnrequests p with Some d => _ | None => _ end)); cycle 1.
  { instantiate (2 := tt). instantiate (1 := emitted
      (match ip_dnrequests p with None => [] | Some t => dead_name_events port t end) _).
    destruct (ip_dnrequests p) as [d|]; [apply dead_names_run|]. by rewrite emitted_nil. }
  cbn beta. erewrite bind_run; [|apply when_emit_run]. cbn beta.
  unfold ipc_port_release, ip_release, ip_check_unlock.
  erewrite bind_run; [|apply update_port_run; simpl; by rewrite lookup_insert_eq]. cbn beta.
  erewrite bind_run; [|apply port_at_run, put_port_lookup]. cbn beta.
  change (io_kotype (ip_bits p1)) with (io_kotype (Z.ldiff (ip_bits p) IO_BITS_ACTIVE)).
  unfold u32_range, u32_max in Hu. simpl.
  rewrite u32_id by (unfold u32_range, u32_max; lia). change (_ - 1) with left.
  destruct (left =? 0) eqn:Hleft; simpl; (eexists; split; [reflexivity|]); split; fold left; rewrite ?Hleft; simpl; try done;
    rewrite ?delete_insert_eq, ?insert_insert_eq; try done.
  all: unfold death_events; fold ms; rewrite <- !app_assoc;
    by destruct (ip_nsrequest p =? IP_NULL), (io_kotype _ =? IKOT_NONE).
Qed.

(** ** A port with a backup port *)

(** The port as [ipc_port_destroy] leaves it before it looks for a circle. *)
Definition limbo (p : ipc_port) : ipc_port :=
  set_ip_data IP_NULL (set_ip_receiver_name MACH_PORT_NULL (set_ip_pdrequest IP_NULL p)).

(** Taking a port out of its chain leaves no circle. *)
Lemma cut_leads w port p' q l e :
  in_transit p' = false -> leads w q l e -> exists l' e', leads (put_port port p' w) q l' e'.
Proof.
  intros Hnt. induction 1 as [q x Hx Ht|q x l e Hx Ht Hl (l' & e' & IH)].
  - destruct (Z.eq_dec q port) as [->|Hne].
    + exists [], port. eapply leads_end; [apply put_port_lookup|done].
    + exists [], q. eapply leads_end; [by rewrite put_port_other|done].
  - destruct (Z.eq_dec q port) as [->|Hne].
    + exists [], port. eapply leads_end; [apply put_port_lookup|done].
    + exists (q :: l'), e'. eapply leads_step; [by rewrite put_port_other|done|done].
Qed.

Lemma cut_no_circles w port p p' :
  w_ports w !! port = Some p -> in_transit p' = false -> no_circles w -> no_circles (put_port port p' w).
Proof.
  intros Hp Hnt Hnc q x Hx.
  assert (Hq : exists x0, w_ports w !! q = Some x0).
  { destruct (Z.eq_dec port q) as [<-|]; [by eauto|]. rewrite put_port_other in Hx by done. eauto. }
  destruct Hq as (x0 & Hx0). destruct (Hnc q x0 Hx0) as (l & e & Hl). by eapply cut_leads.
Qed.

Lemma emitted_no_circles es w : no_circles w -> no_circles (emitted es w).
Proof.
  intros Hnc q x Hx. destruct (Hnc q x Hx) as (l & e & Hl). exists l, e. clear Hx.
  induction Hl; [by eapply leads_end|by eapply leads_step].
Qed.

Lemma limbo_in_transit p : in_transit (limbo p) = false.
Proof. unfold in_transit. simpl. by rewrite andb_false_r. Qed.

(** A send-once right of a live port given up. *)
Definition without_sonce (p : ipc_port) : ipc_port :=
  set_ip_references (u32 (ip_references p - 1)) (set_ip_sorights (u32 (ip_sorights p - 1)) p).

Lemma release_sonce_active w port p :
  w_ports w !! port = Some p -> ip_active p = true ->
  ipc_port_release_sonce port w = Some (tt, put_port port (without_sonce p) w).
Proof.
  intros Hp Hact. unfold ipc_port_release_sonce, ip_release. run_ports.
  change (ip_active _) with (ip_active p). by rewrite Hact.
Qed.

(** The last port of a chain that ends at a live port is live, and so is
    every port before it. *)
Lemma leads_active w q l e x y :
  leads w q l e -> w_ports w !! e = Some x -> ip_active x = true -> w_ports w !! q = Some y -> ip_active y = true.
Proof.
  intros Hl Hx Hact Hy. inversion Hl as [? z Hz|? z l' ? Hz Ht]; simplify_eq; [done|].
  unfold in_transit in Ht. by apply andb_prop in Ht as [[? _]%andb_prop _].
Qed.

(** The port that dies after the backup has been given up. *)
Definition dying (port backup : Z) (p : ipc_port) : ipc_port :=
  if backup =? port then without_sonce (limbo p) else limbo p.

Lemma doomed_dying w port backup p :
  doomed (if backup =? port then 1 else 0) w p -> doomed 0 w (dying port backup p).
Proof.
  intros [H1 H2 H3 H4]. unfold dying. destruct (backup =? port); [|by split].
  unfold u32_range, u32_max in *.
  assert (Hu : u32 (ip_references p - 1) = ip_references p - 1) by (apply u32_id; unfold u32_range, u32_max; lia).
  split; simpl; try done; rewrite Hu; [lia|]. unfold u32_range, u32_max. lia.
Qed.

(** A send-once right for the backup port in [ip_pdrequest]: the port goes
    there, unless it would complete a circle; then it dies. *)
Lemma destroy_backup_spec w trylock port p backup d :
  no_circles w -> w_ports w !! port = Some p -> w_ports w !! backup = Some d ->
  ip_active p = true -> ip_pdrequest p = backup -> backup <> IP_NULL -> ip_pdsendp backup = false ->
  doomed (if backup =? port then 1 else 0) w p ->
  let w0 := put_port port (limbo p) w in
  let d0 := if backup =? port then limbo p else d in
  exists w', ipc_port_destroy trylock port w = Some (tt, w') /\
    ((forall l, ~ leads w0 backup l port) ->
       w' = emitted [NotifyPortDestroyed backup port] (queued port backup (limbo p) d w0) /\ no_circles w') /\
    ((exists l, leads w0 backup l port) ->
       died port (dying port backup p) (put_port backup (without_sonce d0) w0) w').
Proof.
  intros Hnc Hp Hd Hact Hpd Hb Hodd Hdoom w0 d0. unfold ipc_port_destroy. run_ports. rewrite Hpd.
  rewrite (proj2 (Z.eqb_neq _ _)) by done. cbn [negb]. rewrite Hodd.
  fold (limbo p). unfold set_port at 1. erewrite bind_run; [|reflexivity]. cbn beta.
  fold (put_port port (limbo p) w). fold w0.
  assert (Hp0 : w_ports w0 !! port = Some (limbo p)) by apply put_port_lookup.
  assert (Hd0 : w_ports w0 !! backup = Some d0).
  { unfold d0, w0. destruct (Z.eqb_spec backup port) as [->|]; [apply put_port_lookup|by rewrite put_port_other]. }
  assert (Hnc0 : no_circles w0) by (eapply cut_no_circles; [done|apply limbo_in_transit|done]).
  destruct (check_circularity_spec w0 trylock port backup (limbo p) d0) as (circ & w1 & Hrun & Hiff & Ht & Hf); try done.
  erewrite bind_run; [|exact Hrun]. cbn beta. destruct circ.
  - destruct (proj1 Hiff eq_refl) as [l Hl]. rewrite (Ht eq_refl).
    erewrite bind_run; [|apply release_sonce_active; [done|by eapply leads_active]]. cbn beta.
    destruct (destroy_dead_spec (put_port backup (without_sonce d0) w0) port (dying port backup p)) as (w' & Hw' & Hdied).
    + unfold dying, d0. destruct (Z.eqb_spec backup port) as [->|]; [apply put_port_lookup|by rewrite put_port_other].
    + destruct (doomed_dying w port backup p Hdoom). by split.
    + exists w'. split; [done|]. split; [|done]. intros Hn. by destruct (Hn l).
  - destruct (Hf eq_refl) as [-> Hnc1].
    assert (Hno : ~ exists l, leads w0 backup l port) by (intros Hl; by apply Hiff in Hl).
    assert (Hne : backup <> port).
    { intros ->. apply Hno. exists []. exact (leads_end w0 port (limbo p) Hp0 (limbo_in_transit p)). }
    rewrite emit_run. eexists. split; [reflexivity|]. split; [|by intros Hl].
    unfold d0. rewrite (proj2 (Z.eqb_neq _ _)) by done. intros _.
    split; [done|]. unfold d0 in Hnc1. rewrite (proj2 (Z.eqb_neq _ _)) in Hnc1 by done. by apply emitted_no_circles.
Qed.
