(* ===== verification/Mqueue.v ===== *)
(** * Sending and receiving (ipc/ipc_mqueue.c)

    [ipc_mqueue_send] and [ipc_mqueue_receive] block: a sender waits in
    [ip_blocked] of a port whose queue is full, a receiver in [imq_threads] of
    an empty queue.  Each routine is modelled by what it does between two
    points where other threads can run: [send_pc] and [recv_pc] are these
    points, [send_step] and [recv_step] run a thread from one to the next.
    [step] interleaves any number of threads that send and receive, with
    timeouts, interruptions and changes of queue limits. *)

From S2P Require Import Prelude Names Splay Table Space Entry World Port.

Definition MACH_SEND_TIMEOUT : Z := 0x10.
Definition MACH_RCV_TIMEOUT : Z := 0x100.
Definition MACH_SEND_ALWAYS : Z := 0x10000.

Definition MACH_MSGH_BITS_REMOTE_MASK : Z := 0xff.
Definition MACH_MSGH_BITS_CIRCULAR : Z := 0x40000000.
Definition MACH_MSGH_BITS_REMOTE (bits : Z) : Z := Z.land bits MACH_MSGH_BITS_REMOTE_MASK.

(** The type of a send-once right in a message header; the same number as
    [MACH_MSG_TYPE_MOVE_SEND_ONCE]. *)
Definition TYPE_PORT_SEND_ONCE : Z := 18.

Definition MACH_SEND_IN_PROGRESS : Z := 0x10000001.
Definition MACH_SEND_TIMED_OUT : Z := 0x10000004.
Definition MACH_SEND_INTERRUPTED : Z := 0x10000007.
Definition MACH_RCV_IN_PROGRESS : Z := 0x10004001.
Definition MACH_RCV_INVALID_NAME : Z := 0x10004002.
Definition MACH_RCV_TIMED_OUT : Z := 0x10004003.
Definition MACH_RCV_INTERRUPTED : Z := 0x10004005.
Definition MACH_RCV_IN_SET : Z := 0x1000400a.

Definition IKM_NULL : Z := 0.

(** [ith_wait_result]: why a thread was resumed (kern/sched_prim.h). *)
Inductive wait_result := THREAD_AWAKENED | THREAD_TIMED_OUT | THREAD_INTERRUPTED | THREAD_RESTART.

(** ** Message queues by the object they belong to *)

Inductive mq_ref :=
| PortQueue (port : Z)
| PsetQueue (pset : Z).

#[export] Instance mq_ref_eq_dec : EqDecision mq_ref.
Proof. solve_decision. Defined.

Definition mqueue_at (q : mq_ref) : M world ipc_mqueue :=
  match q with
  | PortQueue port => p ← port_at port; mret (ip_messages p)
  | PsetQueue pset => s ← pset_at pset; mret (ips_messages s)
  end.

Definition set_mqueue (q : mq_ref) (mq : ipc_mqueue) : M world unit :=
  match q with
  | PortQueue port => update_port port (set_ip_messages mq)
  | PsetQueue pset => update_pset pset (set_ips_messages mq)
  end.

(** The queue a port uses. *)
Definition queue_of (port : Z) (p : ipc_port) : mq_ref :=
  if ip_pset p =? IPS_NULL then PortQueue port else PsetQueue (ip_pset p).

Definition enqueue_message (kmsg : Z) (mq : ipc_mqueue) : ipc_mqueue :=
  mk_mqueue (imq_messages mq ++ [kmsg]) (imq_threads mq).
Definition set_receivers (ths : list Z) (mq : ipc_mqueue) : ipc_mqueue :=
  mk_mqueue (imq_messages mq) ths.

(** ** Sending *)

Inductive send_pc :=
| SendTry (port kmsg option time_out : Z)     (* at the head of the loop *)
| SendWait (port kmsg option time_out : Z)    (* in thread_block *)
| SendReturn (mr : Z).

Definition too_large (size : Z) (t : ipc_thread) : ipc_thread :=
  mk_thread MACH_RCV_TOO_LARGE (ith_kmsg t) (ith_seqno t) size.
Definition handed (kmsg seqno : Z) (t : ipc_thread) : ipc_thread :=
  mk_thread MACH_MSG_SUCCESS kmsg seqno (ith_msize t).

(** Give the message to the first receiver whose buffer is large enough; the
    ones before it are told the size.  Returns whether there was one, and the
    receivers left. *)
Fixpoint hand_over (port kmsg size : Z) (receivers : list Z) : M world (bool * list Z) :=
  match receivers with
  | [] => mret (false, [])
  | receiver :: receivers =>
    t ← thread_at receiver;
    if size <=? ith_msize t then
      p ← port_at port;
      update_thread receiver (handed kmsg (ip_seqno p));;
      set_port port (set_ip_seqno (u32 (ip_seqno p + 1)) p);;
      thread_go receiver;;
      mret (true, receivers)
    else
      update_thread receiver (too_large size);;
      thread_go receiver;;
      hand_over port kmsg size receivers
  end.

(** The end of [ipc_mqueue_send]: the message is queued or given away. *)
Definition send_deliver (port kmsg : Z) : M world unit :=
  update_port port (fun p => set_ip_msgcount (u32 (ip_msgcount p + 1)) p);;
  p ← port_at port;
  let q := queue_of port p in
  mq ← mqueue_at q;
  k ← kmsg_at kmsg;
  '(found, receivers) ← hand_over port kmsg (msgh_size k) (imq_threads mq);
  mq ← mqueue_at q;
  set_mqueue q (let mq := set_receivers receivers mq in
                if (found : bool) then mq else enqueue_message kmsg mq).

(** Whether the sender does not have to wait. *)
Definition may_send (option : Z) (p : ipc_port) (k : ipc_kmsg) : bool :=
  (ip_msgcount p <? ip_qlimit p) || has option MACH_SEND_ALWAYS ||
  (MACH_MSGH_BITS_REMOTE (msgh_bits k) =? TYPE_PORT_SEND_ONCE).

(** From the head of the loop until the thread blocks or returns. *)
Definition send_try (self port kmsg option time_out : Z) : M world send_pc :=
  p ← port_at port;
  if negb (ip_active p) then
    ip_release port;;
    ip_check_unlock port;;
    update_kmsg kmsg (set_remote_port MACH_PORT_NULL);;
    emit (KmsgDestroy kmsg);;
    mret (SendReturn MACH_MSG_SUCCESS)
  else
    k ← kmsg_at kmsg;
    if may_send option p k then
      (if has (msgh_bits k) MACH_MSGH_BITS_CIRCULAR then emit (KmsgDestroy kmsg)
       else send_deliver port kmsg);;
      mret (SendReturn MACH_MSG_SUCCESS)
    else if has option MACH_SEND_TIMEOUT && (time_out =? 0) then mret (SendReturn MACH_SEND_TIMED_OUT)
    else
      update_port port (fun p => set_ip_blocked (ip_blocked p ++ [self]) p);;
      update_thread self (set_state MACH_SEND_IN_PROGRESS);;
      mret (SendWait port kmsg option time_out).

(** After [thread_block]; removing a thread from a queue it is in keeps the
    others in order. *)
Definition remove_thread (th : Z) (l : list Z) : list Z := filter (fun x => x <> th) l.

Definition send_wake (self : Z) (why : wait_result) (port kmsg option time_out : Z) : M world send_pc :=
  t ← thread_at self;
  if ith_state t =? MACH_MSG_SUCCESS then mret (SendTry port kmsg option time_out)
  else
    update_port port (fun p => set_ip_blocked (remove_thread self (ip_blocked p)) p);;
    match why with
    | THREAD_INTERRUPTED => mret (SendReturn MACH_SEND_INTERRUPTED)
    | THREAD_TIMED_OUT => mret (SendTry port kmsg option 0)
    | _ => crash
    end.

Definition send_step (self : Z) (why : wait_result) (c : send_pc) : M world send_pc :=
  match c with
  | SendTry port kmsg option time_out => send_try self port kmsg option time_out
  | SendWait port kmsg option time_out => send_wake self why port kmsg option time_out
  | SendReturn mr => mret (SendReturn mr)
  end.

(** The beginning of [ipc_mqueue_send].  A message to a port of the kernel is
    handled at once and its reply is sent with [MACH_SEND_ALWAYS], by the same
    routine, whose result is then ignored (it is [MACH_MSG_SUCCESS]).
    [server] is the dispatch to the generated interface code. *)
Fixpoint send_start (fuel : nat) (ipc_space_kernel : Z) (server : Z -> M world Z)
    (kmsg option time_out : Z) : M world send_pc :=
  match fuel with
  | O => crash
  | S fuel =>
    k ← kmsg_at kmsg;
    let port := msgh_remote_port k in
    p ← port_at port;
    if ip_receiver p =? ipc_space_kernel then
      reply ← server kmsg;
      if reply =? IKM_NULL then mret (SendReturn MACH_MSG_SUCCESS)
      else send_start fuel ipc_space_kernel server reply MACH_SEND_ALWAYS 0
    else mret (SendTry port kmsg option time_out)
  end.

(** ** Receiving *)

Inductive recv_pc :=
| RecvTry (q : mq_ref) (option max_size time_out : Z)
| RecvWait (q : mq_ref) (option max_size time_out : Z)
| RecvHave (port kmsg seqno : Z)              (* queue unlocked, port not yet locked *)
| RecvReturn (mr kmsg seqno : Z).             (* or the size of a message that is too large *)

Definition waiting (max_size : Z) (t : ipc_thread) : ipc_thread :=
  mk_thread MACH_RCV_IN_PROGRESS (ith_kmsg t) (ith_seqno t) max_size.

Definition recv_try (self : Z) (q : mq_ref) (option max_size time_out : Z) : M world recv_pc :=
  mq ← mqueue_at q;
  match imq_messages mq with
  | kmsg :: kmsgs =>
    k ← kmsg_at kmsg;
    if max_size <? msgh_size k then mret (RecvReturn MACH_RCV_TOO_LARGE (msgh_size k) 0)
    else
      set_mqueue q (mk_mqueue kmsgs (imq_threads mq));;
      let port := msgh_remote_port k in
      p ← port_at port;
      set_port port (set_ip_seqno (u32 (ip_seqno p + 1)) p);;
      mret (RecvHave port kmsg (ip_seqno p))
  | [] =>
    if has option MACH_RCV_TIMEOUT && (time_out =? 0) then mret (RecvReturn MACH_RCV_TIMED_OUT IKM_NULL 0)
    else
      set_mqueue q (set_receivers (imq_threads mq ++ [self]) mq);;
      update_thread self (waiting max_size);;
      mret (RecvWait q option max_size time_out)
  end.

Definition recv_wake (self : Z) (why : wait_result) (q : mq_ref) (option max_size time_out : Z)
    : M world recv_pc :=
  t ← thread_at self;
  if ith_state t =? MACH_MSG_SUCCESS then
    k ← kmsg_at (ith_kmsg t);
    mret (RecvHave (msgh_remote_port k) (ith_kmsg t) (ith_seqno t))
  else if ith_state t =? MACH_RCV_TOO_LARGE then mret (RecvReturn MACH_RCV_TOO_LARGE (ith_msize t) 0)
  else if (ith_state t =? MACH_RCV_PORT_DIED) || (ith_state t =? MACH_RCV_PORT_CHANGED)
  then mret (RecvReturn (ith_state t) IKM_NULL 0)
  else if ith_state t =? MACH_RCV_IN_PROGRESS then
    mq ← mqueue_at q;
    set_mqueue q (set_receivers (remove_thread self (imq_threads mq)) mq);;
    match why with
    | THREAD_INTERRUPTED => mret (RecvReturn MACH_RCV_INTERRUPTED IKM_NULL 0)
    | THREAD_TIMED_OUT => mret (RecvTry q option max_size 0)
    | _ => crash
    end
  else crash.

(** The end of [ipc_mqueue_receive]: there is room in the queue again. *)
Definition recv_finish (port kmsg seqno : Z) : M world recv_pc :=
  k ← kmsg_at kmsg;
  when (negb (ikm_marequest k =? IMAR_NULL))
    (emit (MarequestDestroy (ikm_marequest k));; update_kmsg kmsg (set_marequest IMAR_NULL));;
  p ← port_at port;
  (if ip_active p then
     let msgcount := u32 (ip_msgcount p - 1) in
     set_port port (set_ip_msgcount msgcount p);;
     match ip_blocked p with
     | sender :: senders =>
       when (msgcount <? ip_qlimit p)
         (update_port port (set_ip_blocked senders);;
          update_thread sender (set_state MACH_MSG_SUCCESS);;
          thread_go sender)
     | [] => mret tt
     end
   else mret tt);;
  mret (RecvReturn MACH_MSG_SUCCESS kmsg seqno).

Definition recv_step (self : Z) (why : wait_result) (c : recv_pc) : M world recv_pc :=
  match c with
  | RecvTry q option max_size time_out => recv_try self q option max_size time_out
  | RecvWait q option max_size time_out => recv_wake self why q option max_size time_out
  | RecvHave port kmsg seqno => recv_finish port kmsg seqno
  | RecvReturn mr kmsg seqno => mret (RecvReturn mr kmsg seqno)
  end.

(** ** All threads together *)

Inductive pc :=
| Sending (c : send_pc)
| Receiving (c : recv_pc).

(** Kernel memory, and where the threads are that send or receive. *)
Record config := mk_config {
  cf_world : world;
  cf_pcs : gmap Z pc
}.

Definition returned (c : pc) : bool :=
  match c with Sending (SendReturn _) | Receiving (RecvReturn _ _ _) => true | _ => false end.

(** The message a thread has in its hands: it is about to send it, or it was
    given it. *)
Definition holds (w : world) (th : Z) (c : pc) (kmsg : Z) : Prop :=
  match c with
  | Sending (SendTry _ k _ _) | Sending (SendWait _ k _ _) | Receiving (RecvHave _ k _) => k = kmsg
  | Receiving (RecvWait _ _ _ _) =>
    exists t, w_threads w !! th = Some t /\ ith_state t = MACH_MSG_SUCCESS /\ ith_kmsg t = kmsg
  | _ => False
  end.

Definition in_queue (w : world) (kmsg : Z) : Prop :=
  (exists port p, w_ports w !! port = Some p /\ kmsg ∈ imq_messages (ip_messages p)) \/
  (exists pset s, w_psets w !! pset = Some s /\ kmsg ∈ imq_messages (ips_messages s)).

(** Nobody uses the message: it was just made, or its sender got it back. *)
Definition unused (c : config) (kmsg : Z) : Prop :=
  (forall th d, cf_pcs c !! th = Some d -> ~ holds (cf_world c) th d kmsg) /\ ~ in_queue (cf_world c) kmsg.

(** [step]: one thread calls, runs until it blocks or gives up a lock, or
    returns; or the limit of a queue is changed.  A thread that waits can be
    resumed for any reason [why]; where the code panics there is no step. *)
Inductive step (ipc_space_kernel : Z) (server : Z -> M world Z) : config -> config -> Prop :=
| step_call_send w pcs th kmsg option time_out port :
    pcs !! th = None -> is_Some (w_threads w !! th) -> unused (mk_config w pcs) kmsg ->
    send_start 1 ipc_space_kernel server kmsg option time_out w = Some (SendTry port kmsg option time_out, w) ->
    step ipc_space_kernel server (mk_config w pcs)
      (mk_config w (<[th := Sending (SendTry port kmsg option time_out)]> pcs))
| step_call_receive w pcs th q option max_size time_out mq :
    pcs !! th = None -> is_Some (w_threads w !! th) -> mqueue_at q w = Some (mq, w) ->
    step ipc_space_kernel server (mk_config w pcs)
      (mk_config w (<[th := Receiving (RecvTry q option max_size time_out)]> pcs))
| step_send w pcs th why c c' w' :
    pcs !! th = Some (Sending c) -> send_step th why c w = Some (c', w') ->
    step ipc_space_kernel server (mk_config w pcs) (mk_config w' (<[th := Sending c']> pcs))
| step_receive w pcs th why c c' w' :
    pcs !! th = Some (Receiving c) -> recv_step th why c w = Some (c', w') ->
    step ipc_space_kernel server (mk_config w pcs) (mk_config w' (<[th := Receiving c']> pcs))
| step_return w pcs th c :
    pcs !! th = Some c -> returned c = true ->
    step ipc_space_kernel server (mk_config w pcs) (mk_config w (delete th pcs))
| step_set_qlimit w pcs port qlimit w' :
    u32_range qlimit -> ipc_port_set_qlimit port qlimit w = Some (tt, w') ->
    step ipc_space_kernel server (mk_config w pcs) (mk_config w' pcs).

Definition reachable (ipc_space_kernel : Z) (server : Z -> M world Z) : config -> config -> Prop :=
  rtc (step ipc_space_kernel server).
