(* ===== verification/MqueueSpec.v ===== *)
(** * What senders and receivers do to each other

    An abstract machine for message passing: what each thread is up to, which
    threads wait at which port or queue, which messages are in which queue.
    [astep] has a rule for every way in which a thread that sends or receives
    can affect the others; [ainv] is the invariant it keeps.  [Mqueue] runs the
    code on kernel memory, and [MqueueInv] shows that it follows these rules. *)

From S2P Require Import Prelude World Mqueue.

(** What a thread is up to.  A sender that was woken tries again, as if it had
    just called. *)
Inductive activity :=
| Trying (port kmsg : Z)        (* sends, and can run *)
| Blocked (port kmsg : Z)       (* waits until there is room in the port *)
| Waiting (q : mq_ref)          (* waits for a message *)
| Holding (port kmsg : Z)       (* has a message that still counts in the port *)
| Elsewhere.

(** The message a thread has in its hands. *)
Definition carries (a : activity) : option (Z * Z) :=
  match a with
  | Trying port kmsg | Blocked port kmsg | Holding port kmsg => Some (port, kmsg)
  | Waiting _ | Elsewhere => None
  end.

Record astate := mk_astate {
  a_act : Z -> activity;
  a_blocked : Z -> list Z;       (* by port *)
  a_count : Z -> Z;
  a_limit : Z -> Z;
  a_msgs : mq_ref -> list Z;
  a_rcvs : mq_ref -> list Z
}.

Definition upds {V} (l : list Z) (g : Z -> V) (f : Z -> V) : Z -> V :=
  fun y => if decide (y ∈ l) then g y else f y.

Lemma upds_in {V} l (g f : Z -> V) y : y ∈ l -> upds l g f y = g y.
Proof. intros. unfold upds. by rewrite decide_True. Qed.
Lemma upds_out {V} l (g f : Z -> V) y : y ∉ l -> upds l g f y = f y.
Proof. intros. unfold upds. by rewrite decide_False. Qed.

(** A blocked sender becomes one that tries. *)
Definition woken_up (a : activity) : activity :=
  match a with Blocked port kmsg => Trying port kmsg | a => a end.

Lemma woken_up_carries c : carries (woken_up c) = carries c.
Proof. by destruct c. Qed.

(** What waking up threads does to the activities. *)
Definition wake_acts (woken : list Z) (f : Z -> activity) : Z -> activity :=
  upds woken (fun x => woken_up (f x)) f.

Lemma wake_blocked woken f x port kmsg :
  wake_acts woken f x = Blocked port kmsg <-> f x = Blocked port kmsg /\ x ∉ woken.
Proof. unfold wake_acts, upds. case_decide; destruct (f x); naive_solver. Qed.
Lemma wake_waiting woken f x q : wake_acts woken f x = Waiting q <-> f x = Waiting q.
Proof. unfold wake_acts, upds. case_decide; destruct (f x); naive_solver. Qed.
Lemma wake_holding woken f x port kmsg : wake_acts woken f x = Holding port kmsg <-> f x = Holding port kmsg.
Proof. unfold wake_acts, upds. case_decide; destruct (f x); naive_solver. Qed.
Lemma wake_carries woken f x : carries (wake_acts woken f x) = carries (f x).
Proof. unfold wake_acts, upds. case_decide; [apply woken_up_carries|done]. Qed.
Lemma wake_trying woken f x port kmsg :
  wake_acts woken f x = Trying port kmsg <-> f x = Trying port kmsg \/ (x ∈ woken /\ f x = Blocked port kmsg).
Proof. unfold wake_acts, upds. case_decide; destruct (f x); naive_solver. Qed.

Section machine.
(** What does not change: the destination of a message, the queue of a port and
    which messages there are. *)
Context (dest : Z -> Z) (qof : Z -> mq_ref) (known : Z -> Prop).
Implicit Types (a : astate) (th port kmsg : Z) (q : mq_ref).

Definition placed a kmsg : Prop :=
  (exists th port, carries (a_act a th) = Some (port, kmsg)) \/ (exists q, kmsg ∈ a_msgs a q).

Inductive astep a : astate -> Prop :=
| a_skip : astep a a
| a_call th port kmsg :
    a_act a th = Elsewhere -> dest kmsg = port -> known kmsg -> ~ placed a kmsg ->
    astep a (mk_astate (upd th (Trying port kmsg) (a_act a)) (a_blocked a) (a_count a) (a_limit a) (a_msgs a) (a_rcvs a))
| a_queue th port kmsg :
    a_act a th = Trying port kmsg ->
    let q := qof port in
    astep a (mk_astate (upd th Elsewhere (upds (a_rcvs a q) (fun _ => Elsewhere) (a_act a)))
               (a_blocked a) (upd port (a_count a port + 1) (a_count a)) (a_limit a)
               (upd q (a_msgs a q ++ [kmsg]) (a_msgs a)) (upd q [] (a_rcvs a)))
| a_hand th port kmsg small taker rest :
    a_act a th = Trying port kmsg ->
    let q := qof port in
    a_rcvs a q = small ++ taker :: rest ->
    astep a (mk_astate (upd taker (Holding port kmsg) (upd th Elsewhere (upds small (fun _ => Elsewhere) (a_act a))))
               (a_blocked a) (upd port (a_count a port + 1) (a_count a)) (a_limit a)
               (a_msgs a) (upd q rest (a_rcvs a)))
| a_block th port kmsg :
    a_act a th = Trying port kmsg -> a_limit a port <= a_count a port ->
    astep a (mk_astate (upd th (Blocked port kmsg) (a_act a)) (upd port (a_blocked a port ++ [th]) (a_blocked a))
               (a_count a) (a_limit a) (a_msgs a) (a_rcvs a))
| a_give_up th port kmsg :
    a_act a th = Trying port kmsg -> a_limit a port <= a_count a port ->
    astep a (mk_astate (upd th Elsewhere (a_act a)) (a_blocked a) (a_count a) (a_limit a) (a_msgs a) (a_rcvs a))
| a_unblock th port kmsg c :
    a_act a th = Blocked port kmsg -> c = Elsewhere \/ c = Trying port kmsg ->
    astep a (mk_astate (upd th c (a_act a)) (upd port (remove_thread th (a_blocked a port)) (a_blocked a))
               (a_count a) (a_limit a) (a_msgs a) (a_rcvs a))
| a_take th kmsg kmsgs q :
    a_act a th = Elsewhere -> a_msgs a q = kmsg :: kmsgs ->
    astep a (mk_astate (upd th (Holding (dest kmsg) kmsg) (a_act a)) (a_blocked a) (a_count a) (a_limit a)
               (upd q kmsgs (a_msgs a)) (a_rcvs a))
| a_wait th q :
    a_act a th = Elsewhere -> a_msgs a q = [] ->
    astep a (mk_astate (upd th (Waiting q) (a_act a)) (a_blocked a) (a_count a) (a_limit a)
               (a_msgs a) (upd q (a_rcvs a q ++ [th]) (a_rcvs a)))
| a_unwait th q :
    a_act a th = Waiting q ->
    astep a (mk_astate (upd th Elsewhere (a_act a)) (a_blocked a) (a_count a) (a_limit a)
               (a_msgs a) (upd q (remove_thread th (a_rcvs a q)) (a_rcvs a)))
| a_finish th port kmsg woken rest :
    a_act a th = Holding port kmsg ->
    a_blocked a port = woken ++ rest ->
    (woken = [] -> rest = [] \/ a_limit a port <= a_count a port - 1) ->
    astep a (mk_astate (upd th Elsewhere (wake_acts woken (a_act a)))
               (upd port rest (a_blocked a)) (upd port (a_count a port - 1) (a_count a)) (a_limit a)
               (a_msgs a) (a_rcvs a))
| a_set_limit port limit woken rest :
    u32_range limit ->
    a_blocked a port = woken ++ rest ->
    (rest = [] \/ limit - a_limit a port <= Z.of_nat (length woken)) ->
    astep a (mk_astate (wake_acts woken (a_act a))
               (upd port rest (a_blocked a)) (a_count a) (upd port limit (a_limit a))
               (a_msgs a) (a_rcvs a)).

(** The messages that count in a port: queued there, or taken and not yet
    accounted for. *)
Definition outstanding a port kmsg : Prop :=
  dest kmsg = port /\ (kmsg ∈ a_msgs a (qof port) \/ exists th, a_act a th = Holding port kmsg).

Record ainv a : Prop := {
  ai_blocked port : NoDup (a_blocked a port) /\
    forall th, th ∈ a_blocked a port <-> exists kmsg, a_act a th = Blocked port kmsg;
  ai_rcvs q : NoDup (a_rcvs a q) /\ forall th, th ∈ a_rcvs a q <-> a_act a th = Waiting q;
  ai_exclusive q : a_rcvs a q <> [] -> a_msgs a q = [];
  ai_queue q : NoDup (a_msgs a q) /\ forall kmsg, kmsg ∈ a_msgs a q -> q = qof (dest kmsg);
  ai_carries th port kmsg : carries (a_act a th) = Some (port, kmsg) ->
    dest kmsg = port /\ (forall q, kmsg ∉ a_msgs a q) /\
    forall th' port', carries (a_act a th') = Some (port', kmsg) -> th' = th;
  ai_known kmsg : placed a kmsg -> known kmsg;
  ai_count port : exists X : gset Z,
    (forall kmsg, kmsg ∈ X <-> outstanding a port kmsg) /\ a_count a port = Z.of_nat (size X);
  ai_limit port : u32_range (a_limit a port);
  (* whoever waits for room does not wait in vain *)
  ai_room port : a_blocked a port <> [] ->
    exists T : gset Z, (forall th, th ∈ T -> exists kmsg, a_act a th = Trying port kmsg) /\
      a_limit a port <= a_count a port + Z.of_nat (size T)
}.

(** ** The invariant is kept

    Part by part; a step is analysed only in so far as the part needs it. *)

Lemma ex_and {A} (P : A -> Prop) (Q : Prop) : (exists x, P x /\ Q) <-> (exists x, P x) /\ Q.
Proof. split; [intros (x & Hx & HQ)|intros [[x Hx] HQ]]; eauto. Qed.

Ltac destruct_ex := repeat match goal with H : exists _, _ |- _ => destruct H end.

Lemma elem_of_remove th x l : x ∈ remove_thread th l <-> x ∈ l /\ x <> th.
Proof. unfold remove_thread. rewrite list_elem_of_filter. tauto. Qed.

Lemma NoDup_remove th l : NoDup l -> NoDup (remove_thread th l).
Proof. apply NoDup_filter. Qed.

Lemma not_blocked a port th :
  ainv a -> (forall kmsg, a_act a th <> Blocked port kmsg) -> th ∉ a_blocked a port.
Proof. intros I Hth Hin. apply (ai_blocked a I port) in Hin as [k Hk]. by apply (Hth k). Qed.

Lemma not_waiting a q th : ainv a -> a_act a th <> Waiting q -> th ∉ a_rcvs a q.
Proof. intros I Hth Hin. by apply Hth, (ai_rcvs a I q). Qed.

Section preservation.
Context (a : astate) (I : ainv a).

Lemma waiting_act q th : th ∈ a_rcvs a q -> a_act a th = Waiting q.
Proof. apply (ai_rcvs a I q). Qed.

Lemma waiting_part q l1 l2 th : a_rcvs a q = l1 ++ l2 -> th ∈ l1 \/ th ∈ l2 -> a_act a th = Waiting q.
Proof. intros Hq Hth. apply waiting_act. rewrite Hq. by apply elem_of_app. Qed.

Lemma blocked_act port th : th ∈ a_blocked a port -> exists kmsg, a_act a th = Blocked port kmsg.
Proof. apply (ai_blocked a I port). Qed.

Lemma blocked_part port l1 l2 th :
  a_blocked a port = l1 ++ l2 -> th ∈ l1 \/ th ∈ l2 -> exists kmsg, a_act a th = Blocked port kmsg.
Proof. intros Hq Hth. apply blocked_act. rewrite Hq. by apply elem_of_app. Qed.

Lemma blocked_split port l1 l2 th : a_blocked a port = l1 ++ l2 -> th ∈ l1 -> th ∉ l2.
Proof.
  intros Hb Hth. destruct (ai_blocked a I port) as [Hnd _]. rewrite Hb in Hnd.
  apply NoDup_app in Hnd as (_ & Hd & _). by apply Hd.
Qed.

(** Splits on every update in the goal and recalls what is known of the
    threads it is about. *)
Ltac updates :=
  unfold upd, upds; repeat case_decide; subst; cbn [woken_up] in *;
  repeat match goal with
  | H : a_rcvs a ?q = _ ++ ?t :: _ |- _ =>
    lazymatch goal with K : a_act a t = _ |- _ => fail | _ => idtac end;
    pose proof (waiting_part _ _ _ t H (or_intror (list_elem_of_here _ _)))
  | H : a_rcvs a ?q = ?l ++ _, K : ?x ∈ ?l |- _ => pose proof (waiting_part _ _ _ _ H (or_introl K)); clear K
  | K : ?x ∈ a_rcvs a _ |- _ => apply waiting_act in K
  | H : a_blocked a ?q = ?l ++ _, K : ?x ∈ ?l |- _ =>
    let E := fresh "E" in
    lazymatch goal with K : a_act a x = _ |- _ => fail | _ => idtac end;
    destruct (blocked_part _ _ _ _ H (or_introl K)) as [? E]; rewrite ?E in *; cbn [woken_up] in *
  end.

(** A thread cannot be in two states. *)
Ltac absurd_act := split; intros; destruct_and?; destruct_ex; destruct_and?; congruence.

(** Closes goals that say that the same threads are in a state as before. *)
Ltac same := intros; updates; try done; split; intros; destruct_and?; destruct_ex; try congruence; eauto.

Ltac astep_cases Hs :=
  destruct Hs as [|th P k Hth Hd Hkn Hnp|th P k Hth q|th P k small taker rest Hth q Hq|th P k Hth Hle|th P k Hth Hle
    |th P k c Hth Hc|th k ks q Hth Hq|th q Hth Hq|th q Hth|th P k woken rest Hth Hb Hw|P limit woken rest Hlm Hb Hw]; simpl.

Lemma blocked_rest port woken rest x :
  a_blocked a port = woken ++ rest ->
  x ∈ rest <-> (exists kmsg, a_act a x = Blocked port kmsg) /\ x ∉ woken.
Proof.
  intros Hb. destruct (ai_blocked a I port) as [_ HB]. rewrite <- HB, Hb, elem_of_app.
  pose proof (blocked_split port woken rest x Hb). tauto.
Qed.

(** A thread woken at one port is not blocked at another. *)
Lemma woken_elsewhere P woken rest port x kmsg :
  port <> P -> a_blocked a P = woken ++ rest -> a_act a x = Blocked port kmsg -> x ∉ woken.
Proof. intros Hne Hb Hx Hin. destruct (blocked_part _ _ _ _ Hb (or_introl Hin)) as [k Hk]. congruence. Qed.

Lemma blocked_rest_NoDup port woken rest : a_blocked a port = woken ++ rest -> NoDup rest.
Proof.
  intros Hb. destruct (ai_blocked a I port) as [HN _]. rewrite Hb in HN.
  by apply NoDup_app in HN as (_ & _ & ?).
Qed.

Lemma keeps_blocked a' port :
  astep a a' -> NoDup (a_blocked a' port) /\
    forall th, th ∈ a_blocked a' port <-> exists kmsg, a_act a' th = Blocked port kmsg.
Proof.
  pose proof (ai_blocked a I port) as [HN HB].
  intros Hs. astep_cases Hs.
  all: try (split; [done|]; intros x; rewrite HB; by same).
  - (* a_block *) pose proof (not_blocked a port th I) as Hn.
    destruct (decide (port = P)) as [->|Hne]; [rewrite upd_eq|rewrite upd_ne by done].
    + split.
      * apply NoDup_app. split_and!; [done| |apply NoDup_singleton].
        intros y Hy ->%list_elem_of_singleton. revert Hy. apply Hn. congruence.
      * intros x. rewrite elem_of_app, list_elem_of_singleton, HB. updates; naive_solver.
    + split; [done|]. intros x. rewrite HB. by same.
  - (* a_unblock *) destruct (decide (port = P)) as [->|Hne]; [rewrite upd_eq|rewrite upd_ne by done].
    + split; [by apply NoDup_remove|]. intros x. rewrite elem_of_remove, HB. destruct Hc; updates; naive_solver.
    + split; [done|]. intros x. rewrite HB. destruct Hc; by same.
  - (* a_finish *) destruct (decide (port = P)) as [->|Hne]; [rewrite upd_eq|rewrite upd_ne by done].
    + split; [by apply (blocked_rest_NoDup _ _ _ Hb)|]. intros x. rewrite (blocked_rest _ _ _ x Hb).
      unfold upd. case_decide; [subst; by absurd_act|]. setoid_rewrite wake_blocked. by rewrite ex_and.
    + split; [done|]. intros x. rewrite HB. unfold upd. case_decide; [subst; by absurd_act|].
      setoid_rewrite wake_blocked. split; [|intros (kk & Hk & _); by exists kk].
      intros [kk Hk]. exists kk. split; [done|]. by apply (woken_elsewhere P woken rest port x kk).
  - (* a_set_limit *) destruct (decide (port = P)) as [->|Hne]; [rewrite upd_eq|rewrite upd_ne by done].
    + split; [by apply (blocked_rest_NoDup _ _ _ Hb)|]. intros x. rewrite (blocked_rest _ _ _ x Hb).
      setoid_rewrite wake_blocked. by rewrite ex_and.
    + split; [done|]. intros x. rewrite HB.
      setoid_rewrite wake_blocked. split; [|intros (kk & Hk & _); by exists kk].
      intros [kk Hk]. exists kk. split; [done|]. by apply (woken_elsewhere P woken rest port x kk).
Qed.

Lemma keeps_rcvs a' q' :
  astep a a' -> NoDup (a_rcvs a' q') /\ forall th, th ∈ a_rcvs a' q' <-> a_act a' th = Waiting q'.
Proof.
  pose proof (ai_rcvs a I q') as [HN HB].
  intros Hs. astep_cases Hs.
  all: try (split; [done|]; intros x; rewrite HB; by same).
  - (* a_queue *) destruct (decide (q' = q)) as [->|Hne]; [rewrite upd_eq|rewrite upd_ne by done].
    + split; [apply NoDup_nil_2|]. intros x. rewrite elem_of_nil. updates; [done..|]. by rewrite <- HB.
    + split; [done|]. intros x. rewrite HB. by same.
  - (* a_hand *) destruct (decide (q' = q)) as [->|Hne]; [rewrite upd_eq|rewrite upd_ne by done].
    + rewrite Hq in HN. apply NoDup_app in HN as (_ & Hdis & [Htk HN]%NoDup_cons). split; [done|]. intros x.
      unfold upd, upds. specialize (HB x). rewrite Hq, elem_of_app, elem_of_cons in HB.
      repeat case_decide; subst.
      * by split.
      * split; [|done]. intros Hx. assert (a_act a th = Waiting q) by (apply HB; tauto). congruence.
      * split; [|done]. intros Hx. exfalso. apply (Hdis x); [done|]. by right.
      * rewrite <- HB. tauto.
    + split; [done|]. intros x. rewrite HB. by same.
  - (* a_unblock *) split; [done|]. intros x. rewrite HB. destruct Hc; by same.
  - (* a_wait *) destruct (decide (q' = q)) as [->|Hne]; [rewrite upd_eq|rewrite upd_ne by done].
    + split.
      * apply NoDup_app. split_and!; [done| |apply NoDup_singleton].
        intros y Hy ->%list_elem_of_singleton. apply HB in Hy. congruence.
      * intros x. rewrite elem_of_app, list_elem_of_singleton, HB. updates; tauto.
    + split; [done|]. intros x. rewrite HB. by same.
  - (* a_unwait *) destruct (decide (q' = q)) as [->|Hne]; [rewrite upd_eq|rewrite upd_ne by done].
    + split; [by apply NoDup_remove|]. intros x. rewrite elem_of_remove, HB. updates; [|tauto].
      split; [tauto|done].
    + split; [done|]. intros x. rewrite HB. by same.
  - (* a_finish *) split; [done|]. intros x. rewrite HB. unfold upd. case_decide; [subst; by absurd_act|].
    by rewrite wake_waiting.
  - (* a_set_limit *) split; [done|]. intros x. by rewrite HB, wake_waiting.
Qed.

Lemma keeps_exclusive a' q' : astep a a' -> a_rcvs a' q' <> [] -> a_msgs a' q' = [].
Proof.
  pose proof (ai_exclusive a I) as HX. intros Hs. astep_cases Hs; try apply HX.
  - (* a_queue *) unfold upd. case_decide; [done|]. apply HX.
  - (* a_hand *) unfold upd. case_decide; [subst|apply HX]. intros _. apply HX. rewrite Hq. by destruct small.
  - (* a_take *) unfold upd. case_decide; [subst|apply HX]. intros Hne%HX. by rewrite Hne in Hq.
  - (* a_wait *) unfold upd. case_decide; [by subst|apply HX].
  - (* a_unwait *) unfold upd. case_decide; [subst|apply HX]. intros Hne. apply HX. intros He. by rewrite He in Hne.
Qed.

(** Messages: queued once, in the queue of their destination. *)
Lemma trying_not_queued th port kmsg q : a_act a th = Trying port kmsg -> dest kmsg = port /\ kmsg ∉ a_msgs a q.
Proof.
  intros Hth. destruct (ai_carries a I th port kmsg) as (? & Hq & _); [by rewrite Hth|]. by split.
Qed.

Lemma keeps_queue a' q' :
  astep a a' -> NoDup (a_msgs a' q') /\ forall kmsg, kmsg ∈ a_msgs a' q' -> q' = qof (dest kmsg).
Proof.
  pose proof (ai_queue a I q') as [HN HQ]. intros Hs. astep_cases Hs; try done.
  - (* a_queue *) destruct (trying_not_queued _ _ _ q Hth) as [Hd Hk]. unfold upd. case_decide; [subst q'|done].
    split.
    + apply NoDup_app. split_and!; [done| |apply NoDup_singleton]. by intros y Hy ->%list_elem_of_singleton.
    + intros x [Hx| ->%list_elem_of_singleton]%elem_of_app; [by apply HQ|]. by subst.
  - (* a_take *) unfold upd. case_decide; [subst q'|done]. rewrite Hq in HN, HQ.
    apply NoDup_cons in HN as [_ HN]. split; [done|]. intros x Hx. apply HQ. by right.
Qed.

(** Hands: a message is in one hand or in one queue. *)
Definition in_one_place a : Prop :=
  forall th port kmsg, carries (a_act a th) = Some (port, kmsg) ->
    dest kmsg = port /\ (forall q, kmsg ∉ a_msgs a q) /\
    forall th' port', carries (a_act a th') = Some (port', kmsg) -> th' = th.

Lemma fewer_places a' :
  (forall th c, carries (a_act a' th) = Some c -> carries (a_act a th) = Some c) ->
  (forall q kmsg, kmsg ∈ a_msgs a' q -> kmsg ∈ a_msgs a q) -> in_one_place a'.
Proof.
  intros Hc Hm th port k Hk%Hc. destruct (ai_carries a I _ _ _ Hk) as (Hd & Hq & Hu).
  split_and!; [done| |].
  - intros q Hin%Hm. by apply (Hq q).
  - intros th' port' Hk'%Hc. by apply (Hu th' port').
Qed.

Lemma carries_act th c : a_act a th = c -> carries (a_act a th) = carries c.
Proof. by intros ->. Qed.

Lemma keeps_place_hand th P k small taker rest :
  a_act a th = Trying P k -> a_rcvs a (qof P) = small ++ taker :: rest ->
  in_one_place (mk_astate (upd taker (Holding P k) (upd th Elsewhere (upds small (fun _ => Elsewhere) (a_act a))))
    (a_blocked a) (a_count a) (a_limit a) (a_msgs a) (a_rcvs a)).
Proof.
  intros Hth Hq x port k'. destruct (ai_carries a I th P k) as (Hd & Hnq & Hu); [by rewrite Hth|].
  assert (Hold : forall y p, y <> taker -> y <> th ->
    carries (upds small (fun _ => Elsewhere) (a_act a) y) = Some (p, k') -> carries (a_act a y) = Some (p, k')).
  { intros y p _ _. unfold upds. by case_decide. }
  simpl. intros Hx.
  assert (Hx' : (x = taker /\ port = P /\ k' = k) \/ (x <> taker /\ x <> th /\ carries (a_act a x) = Some (port, k'))).
  { revert Hx. unfold upd. repeat case_decide; simpl; [intros [= <- <-]; by left|done|]. intros Hx. right.
    by eauto. }
  destruct Hx' as [(-> & -> & ->)|(Hxt & Hxth & Hxc)].
  - split_and!; [done|done|]. intros y p. unfold upd. case_decide; [done|]. case_decide; [done|].
    intros Hy%Hold; [|done..]. by apply Hu in Hy.
  - destruct (ai_carries a I x port k') as (Hd' & Hnq' & Hu'); [done|]. split_and!; [done|done|].
    intros y p. unfold upd. case_decide; simpl.
    + intros [= <- <-]. by apply Hu in Hxc.
    + case_decide; [done|]. intros Hy%Hold; [|done..]. by apply Hu' in Hy.
Qed.

Lemma keeps_places a' : astep a a' -> in_one_place a'.
Proof.
  pose proof (ai_carries a I) as HC. intros Hs. astep_cases Hs; try done.
  all: try (apply fewer_places; simpl; [|done]; intros x c; by updates).
  - (* a_call *) intros x port k'. simpl. unfold upd. case_decide; simpl.
    + intros [= <- <-]. split_and!; [done| |].
      * intros q Hin. apply Hnp. right. by exists q.
      * intros y p. case_decide; [by subst|]. intros Hy. destruct Hnp. left. by exists y, p.
    + intros Hx. destruct (HC _ _ _ Hx) as (Hd' & Hnq & Hu). split_and!; [done|done|].
      intros y p. case_decide; simpl; [|apply Hu]. intros [= <- <-]. destruct Hnp. left. by exists x, port.
  - (* a_queue *) destruct (HC th P k) as (Hd & Hnq & Hu); [by rewrite Hth|].
    intros x port k'. simpl. intros Hx.
    assert (x <> th /\ carries (a_act a x) = Some (port, k')) as [Hxth Hxc].
    { revert Hx. unfold upd, upds. by repeat case_decide. }
    destruct (HC _ _ _ Hxc) as (Hd' & Hnq' & Hu'). split_and!; [done| |].
    + intros q'. unfold upd. case_decide; [|done]. intros [?| ->%list_elem_of_singleton]%elem_of_app; [by apply (Hnq' q)|].
      by apply Hxth, (Hu x port).
    + intros y p. unfold upd, upds. repeat case_decide; try done. apply Hu'.
  - (* a_hand *) exact (keeps_place_hand th P k small taker rest Hth Hq).
  - (* a_block *) apply fewer_places; simpl; [|done]. intros x c. unfold upd. case_decide; [|done]. subst. by rewrite Hth.
  - (* a_unblock *) apply fewer_places; simpl; [|done]. intros x c'. unfold upd. case_decide; [|done]. subst.
    rewrite Hth. by destruct Hc as [-> | ->].
  - (* a_take *) destruct (ai_queue a I q) as [HN HQ]. rewrite Hq in HN. apply NoDup_cons in HN as [Hk _].
    assert (Hfree : forall x p, carries (a_act a x) <> Some (p, k)).
    { intros x p Hx. destruct (HC _ _ _ Hx) as (_ & Hnq & _). apply (Hnq q). rewrite Hq. by left. }
    intros x port k'. simpl. intros Hx.
    assert (Hm : forall q' y, y ∈ upd q ks (a_msgs a) q' -> y ∈ a_msgs a q').
    { intros q' y. unfold upd. case_decide; [|done]. subst. rewrite Hq. by right. }
    revert Hx. unfold upd at 1. case_decide; simpl.
    + intros [= <- <-]. split_and!; [done| |].
      * intros q'. unfold upd. case_decide; [done|]. intros Hin. destruct (ai_queue a I q') as [_ HQ'].
        assert (q = qof (dest k)) by (apply HQ; rewrite Hq; by left). apply HQ' in Hin. congruence.
      * intros y p. unfold upd. case_decide; [by subst|]. intros Hy. by apply Hfree in Hy.
    + intros Hx. destruct (HC _ _ _ Hx) as (Hd' & Hnq & Hu). split_and!; [done| |].
      * intros q' Hin%Hm. by apply (Hnq q').
      * intros y p. unfold upd. case_decide; simpl; [|apply Hu]. intros [= <- <-]. by apply Hfree in Hx.
  - (* a_finish *) apply fewer_places; simpl; [|done]. intros x c. unfold upd. case_decide; [done|]. by rewrite wake_carries.
  - (* a_set_limit *) apply fewer_places; simpl; [|done]. intros x c. by rewrite wake_carries.
Qed.

Lemma keeps_known a' kmsg : astep a a' -> placed a' kmsg -> known kmsg.
Proof.
  pose proof (ai_known a I) as HK.
  assert (HC : forall x p k, carries (a_act a x) = Some (p, k) -> known k) by (intros; apply HK; left; eauto).
  assert (HM : forall q k, k ∈ a_msgs a q -> known k) by (intros; apply HK; right; eauto).
  intros Hs [(x & p & Hx)|[q' Hq']]; [revert Hx|revert Hq']; astep_cases Hs; try apply HC; try apply HM.
  all: rewrite ?wake_carries; unfold upd, upds; repeat case_decide; subst; simpl; rewrite ?wake_carries;
    try done; try apply HC; try apply HM.
  all: try (destruct Hc as [-> | ->]; simpl; try done).
  all: try (intros [= <- <-]; try done; by eapply HC; rewrite Hth).
  - (* a_take *) intros [= <- <-]. apply (HM q). rewrite Hq. by left.
  - (* a_queue *) intros [Hin| ->%list_elem_of_singleton]%elem_of_app; [by eapply HM|]. by eapply HC; rewrite Hth.
  - (* a_take *) intros Hin. apply (HM q). rewrite Hq. by right.
Qed.

(** Counts. *)
Definition counted a port (n : Z) : Prop :=
  exists X : gset Z, (forall kmsg, kmsg ∈ X <-> outstanding a port kmsg) /\ n = Z.of_nat (size X).

Lemma counted_same a' port n :
  (forall kmsg, outstanding a' port kmsg <-> outstanding a port kmsg) -> counted a port n -> counted a' port n.
Proof. intros He (X & HX & ->). exists X. split; [|done]. intros k. by rewrite HX, He. Qed.

Lemma counted_more a' port n kmsg :
  ~ outstanding a port kmsg -> (forall k, outstanding a' port k <-> outstanding a port k \/ k = kmsg) ->
  counted a port n -> counted a' port (n + 1).
Proof.
  intros Hnew He (X & HX & ->). exists ({[kmsg]} ∪ X). split.
  - intros k. rewrite He, <- HX. set_solver.
  - rewrite size_union, size_singleton; [lia|]. intros y Hy%elem_of_singleton Hin. subst. by apply Hnew, HX.
Qed.

Lemma counted_less a' port n kmsg :
  outstanding a port kmsg -> (forall k, outstanding a' port k <-> outstanding a port k /\ k <> kmsg) ->
  counted a port n -> counted a' port (n - 1).
Proof.
  intros Hold He (X & HX & ->). apply HX in Hold. exists (X ∖ {[kmsg]}). split.
  - intros k. rewrite He, <- HX. set_solver.
  - rewrite size_difference, size_singleton; [|set_solver].
    assert (size X <> 0)%nat; [|lia]. intros Hz%size_empty_inv. set_solver.
Qed.

Lemma outstanding_same a' port :
  (forall x k, a_act a' x = Holding port k <-> a_act a x = Holding port k) ->
  (forall k, dest k = port -> k ∈ a_msgs a' (qof port) <-> k ∈ a_msgs a (qof port)) ->
  forall kmsg, outstanding a' port kmsg <-> outstanding a port kmsg.
Proof.
  intros Ha Hm k. unfold outstanding. split; intros [Hd Ho]; (split; [done|]);
    rewrite (Hm k Hd) in *; destruct Ho as [?|[x Hx]]; auto; right; exists x; by apply Ha.
Qed.

Lemma carried_not_outstanding th port kmsg :
  a_act a th = Trying port kmsg -> ~ outstanding a port kmsg.
Proof.
  intros Hth [_ Ho]. destruct (ai_carries a I th port kmsg) as (_ & Hnq & Hu); [by rewrite Hth|].
  destruct Ho as [Hin|[x Hx]]; [by apply (Hnq (qof port))|].
  assert (x = th) as -> by (apply (Hu x port); by rewrite Hx). congruence.
Qed.

Lemma count_queue th P k port :
  a_act a th = Trying P k ->
  let q := qof P in
  let a' := mk_astate (upd th Elsewhere (upds (a_rcvs a q) (fun _ => Elsewhere) (a_act a)))
    (a_blocked a) (a_count a) (a_limit a) (upd q (a_msgs a q ++ [k]) (a_msgs a)) (a_rcvs a) in
  (forall kmsg, outstanding a' port kmsg <-> outstanding a port kmsg \/ (port = P /\ kmsg = k)).
Proof.
  intros Hth q a' x. destruct (ai_carries a I th P k) as (Hd & Hnq & Hu); [by rewrite Hth|].
  assert (Hh : forall y, a_act a' y = Holding port x <-> a_act a y = Holding port x) by (simpl; same).
  unfold outstanding. setoid_rewrite Hh. simpl. unfold upd. case_decide as Hqq.
  - rewrite Hqq, elem_of_app, list_elem_of_singleton. split; [|naive_solver].
    intros [Hx [[?| ->]|?]]; [tauto| |tauto]. right. by split; congruence.
  - split; [tauto|]. intros [?|[-> ->]]; [tauto|]. by destruct Hqq.
Qed.

Lemma count_hand th P k small taker rest port :
  a_act a th = Trying P k -> a_rcvs a (qof P) = small ++ taker :: rest ->
  let a' := mk_astate (upd taker (Holding P k) (upd th Elsewhere (upds small (fun _ => Elsewhere) (a_act a))))
    (a_blocked a) (a_count a) (a_limit a) (a_msgs a) (a_rcvs a) in
  (forall kmsg, outstanding a' port kmsg <-> outstanding a port kmsg \/ (port = P /\ kmsg = k)).
Proof.
  intros Hth Hq a' x. destruct (ai_carries a I th P k) as (Hd & Hnq & Hu); [by rewrite Hth|].
  assert (Hh : forall y, a_act a' y = Holding port x <-> a_act a y = Holding port x \/ (y = taker /\ port = P /\ x = k)).
  { intros y. simpl. updates; split; try naive_solver; intros; destruct_or?; destruct_and?; congruence. }
  unfold outstanding. setoid_rewrite Hh. simpl. split.
  - intros (Hx & [?|[y [?|(-> & -> & ->)]]]); [tauto| |tauto]. left. eauto.
  - intros [(Hx & [?|[y Hy]])|[-> ->]]; [tauto| |]; (split; [done|]); right; eauto.
Qed.

(** One message more counts in [P]. *)
Lemma count_one_more a' th P k port :
  a_act a th = Trying P k ->
  (forall kmsg, outstanding a' port kmsg <-> outstanding a port kmsg \/ (port = P /\ kmsg = k)) ->
  counted a' port (upd P (a_count a P + 1) (a_count a) port).
Proof.
  intros Hth He. pose proof (ai_count a I port) as HC. unfold upd. case_decide; [subst P|].
  - apply (counted_more a' port _ k); [by apply (carried_not_outstanding th)| |done]. intros x. rewrite He. tauto.
  - apply counted_same; [|done]. intros x. rewrite He. tauto.
Qed.

Lemma keeps_count_take th k ks q port :
  a_act a th = Elsewhere -> a_msgs a q = k :: ks ->
  forall kmsg, outstanding (mk_astate (upd th (Holding (dest k) k) (a_act a)) (a_blocked a) (a_count a) (a_limit a)
    (upd q ks (a_msgs a)) (a_rcvs a)) port kmsg <-> outstanding a port kmsg.
Proof.
  intros Hth Hq x. destruct (ai_queue a I q) as [_ HQ]. rewrite Hq in HQ. 
  assert (Hqk : q = qof (dest k)) by (apply HQ; by left).
  assert (Hh : forall y, upd th (Holding (dest k) k) (a_act a) y = Holding port x <->
    a_act a y = Holding port x \/ (y = th /\ dest k = port /\ k = x)).
  { intros y. unfold upd. case_decide; [subst y|tauto].
    split; [intros [= <- <-]; auto|intros [?|(_ & <- & <-)]; congruence]. }
  unfold outstanding. simpl. setoid_rewrite Hh. unfold upd. case_decide as Hqq.
  - rewrite Hqq, Hq, elem_of_cons. split.
    + intros (Hd & [?|[y [?|(-> & _ & ->)]]]); eauto.
    + intros (Hd & [[->|?]|[y ?]]); eauto 10.
  - split; [|naive_solver]. intros (Hd & [?|[y [?|(-> & Hk & ->)]]]); [tauto|eauto|congruence].
Qed.

Lemma keeps_count_finish th P k woken port :
  a_act a th = Holding P k ->
  forall kmsg, outstanding (mk_astate (upd th Elsewhere (wake_acts woken (a_act a))) (a_blocked a) (a_count a) (a_limit a)
    (a_msgs a) (a_rcvs a)) port kmsg <-> outstanding a port kmsg /\ ~ (port = P /\ kmsg = k).
Proof.
  intros Hth x. destruct (ai_carries a I th P k) as (Hd & Hnq & Hu); [by rewrite Hth|].
  assert (Hh : forall y, upd th Elsewhere (wake_acts woken (a_act a)) y = Holding port x <->
    a_act a y = Holding port x /\ y <> th).
  { intros y. unfold upd. case_decide; [subst y; split; [done|tauto]|]. rewrite wake_holding. tauto. }
  unfold outstanding. simpl. setoid_rewrite Hh. split.
  - intros (Hx & [Hin|(y & Hy & Hyt)]); (split; [split; [done|]|]); try by eauto.
    + intros [-> ->]. by apply (Hnq (qof P)).
    + intros [-> ->]. apply Hyt, (Hu y P). by rewrite Hy.
  - intros ((Hx & [Hin|(y & Hy)]) & Hne); (split; [done|]); [by left|]. right. exists y. split; [done|].
    intros ->. apply Hne. split; congruence.
Qed.

Lemma keeps_count a' port : astep a a' -> counted a' port (a_count a' port).
Proof.
  pose proof (ai_count a I port) as HC. intros Hs. astep_cases Hs; try done.
  - (* a_call *) apply counted_same; [|done]. apply outstanding_same; [|done]. simpl. same.
  - (* a_queue *) apply (count_one_more _ th P k port Hth). exact (count_queue th P k port Hth).
  - (* a_hand *) apply (count_one_more _ th P k port Hth). exact (count_hand th P k small taker rest port Hth Hq).
  - (* a_block *) apply counted_same; [|done]. apply outstanding_same; [|done]. simpl. same.
  - (* a_give_up *) apply counted_same; [|done]. apply outstanding_same; [|done]. simpl. same.
  - (* a_unblock *) apply counted_same; [|done]. apply outstanding_same; [|done]. simpl. destruct Hc; same.
  - (* a_take *) apply counted_same; [|done]. exact (keeps_count_take th k ks q port Hth Hq).
  - (* a_wait *) apply counted_same; [|done]. apply outstanding_same; [|done]. simpl. same.
  - (* a_unwait *) apply counted_same; [|done]. apply outstanding_same; [|done]. simpl. same.
  - (* a_finish *) pose proof (keeps_count_finish th P k woken port Hth) as He.
    destruct (decide (port = P)) as [->|Hne]; [rewrite upd_eq|rewrite upd_ne by done].
    + apply (counted_less _ _ _ k); [|intros x; etransitivity; [apply He|tauto]|done].
      destruct (ai_carries a I th P k) as (Hd & _); [by rewrite Hth|]. split; [done|]. right. by exists th.
    + apply counted_same; [|done]. intros x. etransitivity; [apply He|tauto].
  - (* a_set_limit *) apply counted_same; [|done]. apply outstanding_same; [|done]. simpl. intros x k.
    apply wake_holding.
Qed.

(** Room. *)
Definition roomy a port : Prop :=
  exists T : gset Z, (forall th, th ∈ T -> exists kmsg, a_act a th = Trying port kmsg) /\
    a_limit a port <= a_count a port + Z.of_nat (size T).

Lemma roomy_full a' port : a_limit a' port <= a_count a' port -> roomy a' port.
Proof. intros. exists ∅. split; [set_solver|]. rewrite size_empty. lia. Qed.

Lemma roomy_same a' port :
  a_limit a' port = a_limit a port -> a_count a' port = a_count a port ->
  (forall x k, a_act a x = Trying port k -> exists k', a_act a' x = Trying port k') ->
  roomy a port -> roomy a' port.
Proof.
  intros Hl Hc Ht (T & HT & Hle). exists T. rewrite Hl, Hc. split; [|done].
  intros x [k Hk]%HT. by apply (Ht x k).
Qed.

(** A sender that tries is done: its message counts. *)
Lemma roomy_sent a' port th :
  a_limit a' port = a_limit a port -> a_count a' port = a_count a port + 1 ->
  (forall x k, x <> th -> a_act a x = Trying port k -> a_act a' x = Trying port k) ->
  roomy a port -> roomy a' port.
Proof.
  intros Hl Hc Ht (T & HT & Hle). exists (T ∖ {[th]}). rewrite Hl, Hc. split.
  - intros x [Hx Hne]%elem_of_difference. destruct (HT x Hx) as [k Hk]. exists k. apply Ht; [set_solver|done].
  - assert (Hsize : (size T <= size ((T ∖ {[th]}) ∪ {[th]}))%nat).
    { apply subseteq_size. intros x Hx. destruct (decide (x = th)); set_solver. }
    pose proof (size_union_alt (T ∖ {[th]}) ({[th]} : gset Z)) as Hu.
    assert (size ({[th]} ∖ (T ∖ {[th]}) : gset Z) <= size ({[th]} : gset Z))%nat by (apply subseteq_size; set_solver).
    rewrite size_singleton in *. lia.
Qed.

(** Blocked senders are woken. *)
Lemma roomy_woken a' port woken rest :
  a_blocked a port = woken ++ rest ->
  (forall x k, a_act a x = Trying port k \/ (x ∈ woken /\ a_act a x = Blocked port k) -> a_act a' x = Trying port k) ->
  a_limit a' port - a_limit a port <= a_count a' port - a_count a port + Z.of_nat (length woken) ->
  roomy a port -> roomy a' port.
Proof.
  intros Hb Ht Hle (T & HT & HleT). exists (T ∪ list_to_set woken).
  assert (Hbw : forall x, x ∈ woken -> exists k, a_act a x = Blocked port k).
  { intros x Hx. apply (blocked_part _ _ _ _ Hb). by left. }
  split.
  - intros x [Hx|Hx%elem_of_list_to_set]%elem_of_union.
    + destruct (HT x Hx) as [k Hk]. exists k. apply Ht. by left.
    + destruct (Hbw x Hx) as [k Hk]. exists k. apply Ht. by right.
  - rewrite size_union.
    + rewrite size_list_to_set; [lia|]. destruct (ai_blocked a I port) as [HN _]. rewrite Hb in HN.
      by apply NoDup_app in HN as (? & _ & _).
    + intros x Hx Hw%elem_of_list_to_set. destruct (HT x Hx) as [k Hk], (Hbw x Hw) as [k' Hk']. congruence.
Qed.

Lemma keeps_room a' port : astep a a' -> a_blocked a' port <> [] -> roomy a' port.
Proof.
  pose proof (ai_room a I port) as HR. intros Hs. astep_cases Hs; try done.
  - (* a_call *) intros Hb%HR. apply (roomy_same _ port); [done..| |done]. simpl. intros x k'. updates; [congruence|eauto].
  - (* a_queue *) intros Hb%HR. destruct (decide (port = P)) as [->|Hne].
    + apply (roomy_sent _ P th); [done|simpl; by rewrite upd_eq| |done]. simpl. intros x k' Hx. updates; congruence.
    + apply (roomy_same _ port); [done|simpl; by rewrite upd_ne| |done]. simpl. intros x k'.
      updates; [congruence|congruence|eauto].
  - (* a_hand *) intros Hb%HR. destruct (decide (port = P)) as [->|Hne].
    + apply (roomy_sent _ P th); [done|simpl; by rewrite upd_eq| |done]. simpl. intros x k' Hx. updates; congruence.
    + apply (roomy_same _ port); [done|simpl; by rewrite upd_ne| |done]. simpl. intros x k'.
      updates; [congruence..|eauto].
  - (* a_block *) intros Hb. destruct (decide (port = P)) as [->|Hne]; [by apply roomy_full|].
    rewrite upd_ne in Hb by done. apply HR in Hb. apply (roomy_same _ port); [done..| |done]. simpl. intros x k'.
    updates; [congruence|eauto].
  - (* a_give_up *) intros Hb%HR. destruct (decide (port = P)) as [->|Hne]; [by apply roomy_full|].
    apply (roomy_same _ port); [done..| |done]. simpl. intros x k'. updates; [congruence|eauto].
  - (* a_unblock *) intros Hb. assert (Hb' : a_blocked a port <> []).
    { intros He. apply Hb. unfold upd. case_decide; [subst|done]. by rewrite He. }
    apply HR in Hb'. apply (roomy_same _ port); [done..| |done]. simpl. intros x k'. updates; [congruence|eauto].
  - (* a_take *) intros Hb%HR. apply (roomy_same _ port); [done..| |done]. simpl. intros x k'. updates; [congruence|eauto].
  - (* a_wait *) intros Hb%HR. apply (roomy_same _ port); [done..| |done]. simpl. intros x k'. updates; [congruence|eauto].
  - (* a_unwait *) intros Hb%HR. apply (roomy_same _ port); [done..| |done]. simpl. intros x k'. updates; [congruence|eauto].
  - (* a_finish *) destruct (decide (port = P)) as [->|Hne].
    + rewrite upd_eq. intros Hrest. destruct woken as [|s woken].
      * apply roomy_full. simpl. rewrite upd_eq. destruct Hw; [done|done|lia].
      * apply (roomy_woken _ P (s :: woken) rest); [done| |simpl; rewrite upd_eq; lia|].
        -- simpl. intros x k' Hx. unfold upd. case_decide; [subst; destruct Hx as [?|[_ ?]]; congruence|].
           by apply wake_trying.
        -- apply HR. by rewrite Hb.
    + rewrite upd_ne by done. intros Hb'%HR. apply (roomy_same _ port); [done|simpl; by rewrite upd_ne| |done].
      simpl. intros x k' Hx. exists k'. unfold upd. case_decide; [congruence|]. apply wake_trying. by left.
  - (* a_set_limit *) destruct (decide (port = P)) as [->|Hne].
    + rewrite upd_eq. intros Hrest. apply (roomy_woken _ P woken rest); [done| |simpl; rewrite upd_eq|].
      * intros x k' Hx. by apply wake_trying.
      * destruct Hw; [done|lia].
      * apply HR. rewrite Hb. by destruct woken.
    + rewrite upd_ne by done. intros Hb'%HR. apply (roomy_same _ port); [simpl; by rewrite upd_ne|done| |done].
      simpl. intros x k' Hx. exists k'. apply wake_trying. by left.
Qed.

Lemma keeps_limit a' port : astep a a' -> u32_range (a_limit a' port).
Proof.
  pose proof (ai_limit a I port) as HL. intros Hs. astep_cases Hs; try done. unfold upd. by case_decide.
Qed.

Lemma astep_keeps_inv a' : astep a a' -> ainv a'.
Proof.
  intros Hs. split.
  - intros. by apply keeps_blocked.
  - intros. by apply keeps_rcvs.
  - intros. by apply keeps_exclusive.
  - intros. by apply keeps_queue.
  - by apply keeps_places.
  - intros kmsg. by apply keeps_known.
  - intros. by apply keeps_count.
  - intros. by apply keeps_limit.
  - intros. by apply keeps_room.
Qed.

(** A sender waits only if there is a message to receive, a receiver that has
    not accounted for one yet, or a sender that is about to try. *)
Lemma blocked_not_alone port :
  a_blocked a port <> [] -> 0 < a_limit a port ->
  (exists kmsg, kmsg ∈ a_msgs a (qof port)) \/
  (exists th kmsg, a_act a th = Holding port kmsg) \/ (exists th kmsg, a_act a th = Trying port kmsg).
Proof.
  intros Hb Hl. destruct (ai_room a I port Hb) as (T & HT & Hle), (ai_count a I port) as (X & HX & Hc).
  destruct (set_choose_or_empty T) as [[th Hth]|HTe].
  - right; right. destruct (HT th Hth) as [k Hk]. by exists th, k.
  - destruct (set_choose_or_empty X) as [[k Hk]|HXe].
    + apply HX in Hk as [_ [Hin|[th Hth]]]; [left; by exists k|right; left; by exists th, k].
    + exfalso. apply size_empty_iff in HTe, HXe. lia.
Qed.
End preservation.
End machine.
