(* ===== verification/MqueueInv.v ===== *)
(** * Sending and receiving: the code follows the abstract machine

    [alpha] reads the abstract state of [MqueueSpec] off kernel memory and the
    positions of the threads.  Every [step] of the code is a step of the
    abstract machine, so its invariant holds in every reachable state, and a
    blocked sender is never forgotten. *)

From S2P Require Import Prelude Names Splay Table Space Entry World Port PortInv PortQueue.
From S2P Require Import Mqueue MqueueSpec.

(** ** Views of the memory *)

Definition v_blocked (w : world) (port : Z) : list Z := from_option ip_blocked [] (w_ports w !! port).
Definition v_count (w : world) (port : Z) : Z := from_option ip_msgcount 0 (w_ports w !! port).
Definition v_limit (w : world) (port : Z) : Z := from_option ip_qlimit 0 (w_ports w !! port).
Definition v_mq (w : world) (q : mq_ref) : option ipc_mqueue :=
  match q with
  | PortQueue port => ip_messages <$> (w_ports w !! port)
  | PsetQueue pset => ips_messages <$> (w_psets w !! pset)
  end.
Definition v_msgs (w : world) (q : mq_ref) : list Z := from_option imq_messages [] (v_mq w q).
Definition v_rcvs (w : world) (q : mq_ref) : list Z := from_option imq_threads [] (v_mq w q).

Definition act_of (w : world) (th : Z) (c : option pc) : activity :=
  match c with
  | Some (Sending (SendTry port kmsg _ _)) => Trying port kmsg
  | Some (Sending (SendWait port kmsg _ _)) =>
    match w_threads w !! th with
    | Some t => if ith_state t =? MACH_MSG_SUCCESS then Trying port kmsg else Blocked port kmsg
    | None => Elsewhere
    end
  | Some (Receiving (RecvWait q _ _ _)) =>
    match w_threads w !! th with
    | Some t =>
      if ith_state t =? MACH_MSG_SUCCESS then Holding (remote_of w (ith_kmsg t)) (ith_kmsg t)
      else if ith_state t =? MACH_RCV_IN_PROGRESS then Waiting q
      else Elsewhere
    | None => Elsewhere
    end
  | Some (Receiving (RecvHave port kmsg _)) => Holding port kmsg
  | _ => Elsewhere
  end.

Definition alpha (c : config) : astate :=
  let w := cf_world c in
  mk_astate (fun th => act_of w th (cf_pcs c !! th)) (v_blocked w) (v_count w) (v_limit w) (v_msgs w) (v_rcvs w).

(** Abstract states are equal if they are equal at every point. *)
Record aeq (a b : astate) : Prop := {
  ae_act th : a_act a th = a_act b th;
  ae_blocked port : a_blocked a port = a_blocked b port;
  ae_count port : a_count a port = a_count b port;
  ae_limit port : a_limit a port = a_limit b port;
  ae_msgs q : a_msgs a q = a_msgs b q;
  ae_rcvs q : a_rcvs a q = a_rcvs b q
}.

Lemma outstanding_aeq dest qof a b port kmsg :
  aeq a b -> outstanding dest qof a port kmsg <-> outstanding dest qof b port kmsg.
Proof. intros [Ha _ _ _ Hm _]. unfold outstanding. setoid_rewrite Ha. by rewrite Hm. Qed.

Lemma placed_aeq a b kmsg : aeq a b -> placed a kmsg <-> placed b kmsg.
Proof. intros [Ha _ _ _ Hm _]. unfold placed. setoid_rewrite Ha. by setoid_rewrite Hm. Qed.

Lemma ainv_aeq dest qof known a b : aeq a b -> ainv dest qof known a -> ainv dest qof known b.
Proof.
  intros E [H1 H2 H3 H4 H5 HK H6 HL H7]. pose proof (fun k => placed_aeq a b k E) as Hp. pose proof (fun port k => outstanding_aeq dest qof a b port k E) as Ho.
  destruct E as [Ea Eb Ec El Em Er].
  split; intros; rewrite <- ?Eb, <- ?Ec, <- ?El, <- ?Em, <- ?Er in *; auto.
  - setoid_rewrite <- Ea. apply H1.
  - setoid_rewrite <- Ea. apply H2.
  - rewrite <- Ea in *. setoid_rewrite <- Ea. setoid_rewrite <- Em. by apply H5.
  - rewrite <- Hp in *. by apply HK.
  - setoid_rewrite <- Ho. apply H6.
  - setoid_rewrite <- Ea. by apply H7.
Qed.

#[export] Instance aeq_equivalence : Equivalence aeq.
Proof.
  split.
  - by split.
  - by intros a b [? ? ? ? ? ?].
  - intros a b c [? ? ? ? ? ?] [? ? ? ? ? ?]. split; intros; etransitivity; eauto.
Qed.

#[export] Instance ainv_proper dest qof known : Proper (aeq ==> iff) (ainv dest qof known).
Proof. intros a b E. split; apply ainv_aeq; [done|by symmetry]. Qed.

(** ** Running the accesses

    Both directions: what an access that succeeded has done ([*_inv]), and
    that it succeeds ([*_run]). *)

Definition put_thread (th : Z) (t : ipc_thread) (w : world) : world :=
  with_threads (<[th := t]> (w_threads w)) w.
Definition put_kmsg (kmsg : Z) (k : ipc_kmsg) (w : world) : world :=
  with_kmsgs (<[kmsg := k]> (w_kmsgs w)) w.
Definition put_mq (q : mq_ref) (mq : ipc_mqueue) (w : world) : world :=
  match q with
  | PortQueue port => with_ports (alter (set_ip_messages mq) port (w_ports w)) w
  | PsetQueue pset => with_psets (alter (set_ips_messages mq) pset (w_psets w)) w
  end.

Lemma port_at_inv p w x w' : port_at p w = Some (x, w') -> w_ports w !! p = Some x /\ w' = w.
Proof. unfold port_at. destruct (w_ports w !! p); naive_solver. Qed.
Lemma update_port_inv p f w u w' :
  update_port p f w = Some (u, w') -> exists x, w_ports w !! p = Some x /\ w' = put_port p (f x) w.
Proof. intros (x & w1 & [Hx ->]%port_at_inv & [= <- <-])%bind_inv. by exists x. Qed.
Lemma thread_at_inv th w x w' : thread_at th w = Some (x, w') -> w_threads w !! th = Some x /\ w' = w.
Proof. unfold thread_at. destruct (w_threads w !! th); naive_solver. Qed.
Lemma update_thread_inv th f w u w' :
  update_thread th f w = Some (u, w') -> exists t, w_threads w !! th = Some t /\ w' = put_thread th (f t) w.
Proof. intros (x & w1 & [Hx ->]%thread_at_inv & [= <- <-])%bind_inv. by exists x. Qed.
Lemma kmsg_at_inv k w x w' : kmsg_at k w = Some (x, w') -> w_kmsgs w !! k = Some x /\ w' = w.
Proof. unfold kmsg_at. destruct (w_kmsgs w !! k); naive_solver. Qed.
Lemma update_kmsg_inv k f w u w' :
  update_kmsg k f w = Some (u, w') -> exists x, w_kmsgs w !! k = Some x /\ w' = put_kmsg k (f x) w.
Proof. intros (x & w1 & [Hx ->]%kmsg_at_inv & [= <- <-])%bind_inv. by exists x. Qed.
Lemma pset_at_inv s w x w' : pset_at s w = Some (x, w') -> w_psets w !! s = Some x /\ w' = w.
Proof. unfold pset_at. destruct (w_psets w !! s); naive_solver. Qed.

Lemma mqueue_at_inv q w mq w' : mqueue_at q w = Some (mq, w') -> v_mq w q = Some mq /\ w' = w.
Proof.
  destruct q as [port|pset]; simpl.
  - intros (x & w1 & [-> ->]%port_at_inv & [= <- <-])%bind_inv. done.
  - intros (x & w1 & [-> ->]%pset_at_inv & [= <- <-])%bind_inv. done.
Qed.

Lemma alter_insert_known {V} (f : V -> V) k v (m : gmap Z V) : m !! k = Some v -> <[k := f v]> m = alter f k m.
Proof.
  intros Hk. apply map_eq. intros i. destruct (decide (i = k)) as [->|].
  - by rewrite lookup_alter_eq, lookup_insert_eq, Hk.
  - by rewrite lookup_alter_ne, lookup_insert_ne.
Qed.

Lemma set_mqueue_inv q mq w u w' :
  set_mqueue q mq w = Some (u, w') -> is_Some (v_mq w q) /\ w' = put_mq q mq w.
Proof.
  destruct q as [port|pset]; simpl.
  - intros (x & Hx & ->)%update_port_inv. rewrite Hx. split; [by eexists|]. unfold put_port. f_equal.
    by apply alter_insert_known.
  - intros (x & w1 & [Hx ->]%pset_at_inv & [= <- <-])%bind_inv. rewrite Hx. split; [by eexists|]. f_equal.
    by apply alter_insert_known.
Qed.

Lemma kmsg_at_run k w x : w_kmsgs w !! k = Some x -> kmsg_at k w = Some (x, w).
Proof. intros Hk. unfold kmsg_at. by rewrite Hk. Qed.
Lemma thread_at_run th w t : w_threads w !! th = Some t -> thread_at th w = Some (t, w).
Proof. intros Ht. unfold thread_at. by rewrite Ht. Qed.
Lemma mqueue_at_run q w mq : v_mq w q = Some mq -> mqueue_at q w = Some (mq, w).
Proof.
  destruct q as [port|pset]; simpl; unfold mbind, M_bind, port_at, pset_at;
    destruct (_ !! _); simpl; intros; by simplify_eq.
Qed.
Lemma set_mqueue_run q mq w : is_Some (v_mq w q) -> set_mqueue q mq w = Some (tt, put_mq q mq w).
Proof.
  intros Hq. destruct (set_mqueue q mq w) as [[[] w']|] eqn:Hs; [by apply set_mqueue_inv in Hs as [_ ->]|].
  exfalso. destruct Hq as [mq0 Hq]. destruct q as [port|pset]; simpl in *.
  - destruct (w_ports w !! port) as [p|] eqn:Hp; [|done]. by rewrite (update_port_run _ _ _ _ Hp) in Hs.
  - destruct (w_psets w !! pset) as [p|] eqn:Hp; [|done].
    unfold update_pset, pset_at, mbind, M_bind in Hs. by rewrite Hp in Hs.
Qed.

(** ** The views after an update *)

Section views.
Implicit Types (w : world).

Lemma lookup_upd {V} (m : gmap Z V) k v x : <[k := v]> m !! x = upd k (Some v) (fun y => m !! y) x.
Proof.
  unfold upd. case_decide; [subst; by rewrite lookup_insert_eq|by rewrite lookup_insert_ne].
Qed.

Lemma put_port_blocked P p w x : v_blocked (put_port P p w) x = upd P (ip_blocked p) (v_blocked w) x.
Proof. unfold v_blocked. simpl. rewrite lookup_upd. unfold upd. by case_decide. Qed.
Lemma put_port_count P p w x : v_count (put_port P p w) x = upd P (ip_msgcount p) (v_count w) x.
Proof. unfold v_count. simpl. rewrite lookup_upd. unfold upd. by case_decide. Qed.
Lemma put_port_limit P p w x : v_limit (put_port P p w) x = upd P (ip_qlimit p) (v_limit w) x.
Proof. unfold v_limit. simpl. rewrite lookup_upd. unfold upd. by case_decide. Qed.
Lemma put_port_mq P p w q : v_mq (put_port P p w) q = upd (PortQueue P) (Some (ip_messages p)) (v_mq w) q.
Proof.
  destruct q as [port|pset]; simpl; [|by rewrite upd_ne]. rewrite lookup_upd. unfold upd.
  repeat case_decide; naive_solver.
Qed.

(** A field of the port that was not changed. *)
Lemma put_port_blocked_same P p p' w x :
  w_ports w !! P = Some p -> ip_blocked p' = ip_blocked p -> v_blocked (put_port P p' w) x = v_blocked w x.
Proof. intros Hp He. rewrite put_port_blocked. unfold upd, v_blocked. case_decide; [subst; by rewrite Hp|done]. Qed.
Lemma put_port_count_same P p p' w x :
  w_ports w !! P = Some p -> ip_msgcount p' = ip_msgcount p -> v_count (put_port P p' w) x = v_count w x.
Proof. intros Hp He. rewrite put_port_count. unfold upd, v_count. case_decide; [subst; by rewrite Hp|done]. Qed.
Lemma put_port_limit_same P p p' w x :
  w_ports w !! P = Some p -> ip_qlimit p' = ip_qlimit p -> v_limit (put_port P p' w) x = v_limit w x.
Proof. intros Hp He. rewrite put_port_limit. unfold upd, v_limit. case_decide; [subst; by rewrite Hp|done]. Qed.
Lemma put_port_mq_same P p p' w q :
  w_ports w !! P = Some p -> ip_messages p' = ip_messages p -> v_mq (put_port P p' w) q = v_mq w q.
Proof. intros Hp He. rewrite put_port_mq. unfold upd. case_decide; [subst; simpl; by rewrite Hp, He|done]. Qed.

Lemma put_port_msgs_same P p p' w q :
  w_ports w !! P = Some p -> ip_messages p' = ip_messages p -> v_msgs (put_port P p' w) q = v_msgs w q.
Proof. intros Hp He. unfold v_msgs. by rewrite (put_port_mq_same P p). Qed.
Lemma put_port_rcvs_same P p p' w q :
  w_ports w !! P = Some p -> ip_messages p' = ip_messages p -> v_rcvs (put_port P p' w) q = v_rcvs w q.
Proof. intros Hp He. unfold v_rcvs. by rewrite (put_port_mq_same P p). Qed.

Lemma put_mq_ports q mq w port :
  w_ports (put_mq q mq w) !! port =
  match q with
  | PortQueue P => if decide (port = P) then set_ip_messages mq <$> (w_ports w !! port) else w_ports w !! port
  | PsetQueue _ => w_ports w !! port
  end.
Proof.
  destruct q as [P|]; simpl; [|done]. case_decide; [subst; by rewrite lookup_alter_eq|by rewrite lookup_alter_ne].
Qed.

Lemma put_mq_port_view {A} (f : option ipc_port -> A) q mq w port :
  (forall p, f (Some (set_ip_messages mq p)) = f (Some p)) ->
  f (w_ports (put_mq q mq w) !! port) = f (w_ports w !! port).
Proof.
  intros Hf. rewrite put_mq_ports. destruct q as [P|]; [|done]. case_decide; [|done].
  destruct (w_ports w !! port); simpl; [apply Hf|done].
Qed.

Lemma put_mq_blocked q mq w x : v_blocked (put_mq q mq w) x = v_blocked w x.
Proof. by apply (put_mq_port_view (from_option ip_blocked [])). Qed.
Lemma put_mq_count q mq w x : v_count (put_mq q mq w) x = v_count w x.
Proof. by apply (put_mq_port_view (from_option ip_msgcount 0)). Qed.
Lemma put_mq_limit q mq w x : v_limit (put_mq q mq w) x = v_limit w x.
Proof. by apply (put_mq_port_view (from_option ip_qlimit 0)). Qed.
Lemma put_mq_mq q mq w q' : is_Some (v_mq w q) -> v_mq (put_mq q mq w) q' = upd q (Some mq) (v_mq w) q'.
Proof.
  intros [mq0 Hq]. destruct q as [P|S], q' as [P'|S']; simpl in *; unfold upd.
  - destruct (decide (P' = P)) as [->|Hne].
    + rewrite decide_True by done. rewrite lookup_alter_eq. by destruct (w_ports w !! P).
    + rewrite decide_False by congruence. by rewrite lookup_alter_ne.
  - by rewrite decide_False.
  - by rewrite decide_False.
  - destruct (decide (S' = S)) as [->|Hne].
    + rewrite decide_True by done. rewrite lookup_alter_eq. by destruct (w_psets w !! S).
    + rewrite decide_False by congruence. by rewrite lookup_alter_ne.
Qed.
End views.

(** ** What no step changes *)

Definition pskel (p : ipc_port) : bool * Z := (ip_active p, ip_pset p).
Definition kskel (k : ipc_kmsg) : Z * Z * Z := (msgh_remote_port k, msgh_bits k, msgh_size k).

Record skeleton (w w' : world) : Prop := {
  sk_ports x : pskel <$> (w_ports w' !! x) = pskel <$> (w_ports w !! x);
  sk_psets x : is_Some (w_psets w' !! x) <-> is_Some (w_psets w !! x);
  sk_threads x : is_Some (w_threads w' !! x) <-> is_Some (w_threads w !! x);
  sk_kmsgs x : kskel <$> (w_kmsgs w' !! x) = kskel <$> (w_kmsgs w !! x)
}.

Lemma skeleton_refl w : skeleton w w.
Proof. by split. Qed.
Lemma skeleton_trans w1 w2 w3 : skeleton w1 w2 -> skeleton w2 w3 -> skeleton w1 w3.
Proof. intros [? H2 H3 ?] [? K2 K3 ?]. split; intros; [congruence|by rewrite K2|by rewrite K3|congruence]. Qed.

Lemma skeleton_put_port w P p p' :
  w_ports w !! P = Some p -> pskel p' = pskel p -> skeleton w (put_port P p' w).
Proof.
  intros Hp He. split; try done. intros x. simpl. rewrite lookup_upd. unfold upd. case_decide; [|done]. subst.
  rewrite Hp. simpl. by rewrite He.
Qed.
Lemma skeleton_put_thread w th t t' : w_threads w !! th = Some t -> skeleton w (put_thread th t' w).
Proof.
  intros Ht. split; try done. intros x. simpl. rewrite lookup_upd. unfold upd. case_decide; [|done]. subst.
  rewrite Ht. split; eauto.
Qed.
Lemma skeleton_put_kmsg w k x x' :
  w_kmsgs w !! k = Some x -> kskel x' = kskel x -> skeleton w (put_kmsg k x' w).
Proof.
  intros Hp He. split; try done. intros y. simpl. rewrite lookup_upd. unfold upd. case_decide; [|done]. subst.
  rewrite Hp. simpl. by rewrite He.
Qed.
Lemma skeleton_put_mq w q mq : skeleton w (put_mq q mq w).
Proof.
  destruct q as [P|S].
  - split; try done. intros x. by apply (put_mq_port_view (fun o => pskel <$> o) (PortQueue P)).
  - split; try done. intros x. simpl. by rewrite lookup_alter_is_Some.
Qed.
Lemma skeleton_emitted w e : skeleton w (emitted e w).
Proof. by split. Qed.

Create HintDb skel.
#[export] Hint Resolve skeleton_refl skeleton_put_port skeleton_put_thread skeleton_put_kmsg skeleton_put_mq
  skeleton_emitted : skel.

Lemma skeleton_remote w w' k : skeleton w w' -> remote_of w' k = remote_of w k.
Proof.
  intros [_ _ _ Hk]. specialize (Hk k). unfold remote_of.
  destruct (w_kmsgs w !! k), (w_kmsgs w' !! k); simpl in *; try done. by injection Hk.
Qed.

Lemma skeleton_size w w' : skeleton w w' -> size (w_kmsgs w') = size (w_kmsgs w).
Proof.
  intros [_ _ _ Hk]. rewrite <- !size_dom. f_equal. apply set_eq. intros k. rewrite !elem_of_dom.
  specialize (Hk k). destruct (w_kmsgs w !! k), (w_kmsgs w' !! k); simpl in *; try done; split; intros []; eauto; done.
Qed.

Lemma skeleton_mq w w' q : skeleton w w' -> is_Some (v_mq w' q) <-> is_Some (v_mq w q).
Proof.
  intros [Hp Hs _ _]. destruct q as [P|S]; simpl; rewrite !fmap_is_Some.
  - rewrite <- (fmap_is_Some pskel), Hp, fmap_is_Some. done.
  - apply Hs.
Qed.

(** ** The invariant of the configurations *)

Section config.
Context (dest : Z -> Z) (qof : Z -> mq_ref) (known : Z -> Prop).

(** The part that depends on the skeleton of the memory only. *)
Record static (w : world) : Prop := {
  st_dest k : is_Some (w_kmsgs w !! k) -> remote_of w k = dest k;
  st_qof port p : w_ports w !! port = Some p -> queue_of port p = qof port /\ ip_active p = true;
  st_queue port : is_Some (w_ports w !! port) -> is_Some (v_mq w (qof port));
  st_known k : known k <-> is_Some (w_kmsgs w !! k) /\ is_Some (w_ports w !! dest k);
  st_size : Z.of_nat (size (w_kmsgs w)) <= u32_max;
  st_plain k x : w_kmsgs w !! k = Some x -> has (msgh_bits x) MACH_MSGH_BITS_CIRCULAR = false
}.

Lemma static_skeleton w w' : skeleton w w' -> static w -> static w'.
Proof.
  intros Hsk [H1 H2 H3 HK H4 H5]. pose proof Hsk as [Kp Ks Kt Kk].
  assert (Hports : forall x, is_Some (w_ports w' !! x) <-> is_Some (w_ports w !! x)).
  { intros x. by rewrite <- (fmap_is_Some pskel), Kp, fmap_is_Some. }
  assert (Hkmsgs : forall x, is_Some (w_kmsgs w' !! x) <-> is_Some (w_kmsgs w !! x)).
  { intros x. by rewrite <- (fmap_is_Some kskel), Kk, fmap_is_Some. }
  split.
  - intros k Hk. rewrite (skeleton_remote w w' k Hsk). by apply H1, Hkmsgs.
  - intros port p Hp. specialize (Kp port). rewrite Hp in Kp. destruct (w_ports w !! port) as [p0|] eqn:Hp0; [|done].
    injection Kp as Ka Kset. destruct (H2 _ _ Hp0) as [Hq Ha]. unfold queue_of in *. by rewrite Kset, Ka.
  - intros port Hp. apply (skeleton_mq w w'); [done|]. by apply H3, Hports.
  - intros k. by rewrite HK, Hkmsgs, Hports.
  - by rewrite (skeleton_size w w').
  - intros k x Hx. specialize (Kk k). rewrite Hx in Kk. destruct (w_kmsgs w !! k) as [x0|] eqn:Hk; [|done].
    injection Kk as Kr Kb Kz. rewrite Kb. by apply (H5 k x0).
Qed.

Record cinv (c : config) : Prop := {
  ci_abs : ainv dest qof known (alpha c);
  ci_static : static (cf_world c);
  ci_threads th : is_Some (cf_pcs c !! th) -> is_Some (w_threads (cf_world c) !! th)
}.

Lemma act_of_same w w' th c :
  skeleton w w' -> w_threads w' !! th = w_threads w !! th -> act_of w' th c = act_of w th c.
Proof.
  intros Hsk Ht. unfold act_of. destruct c as [[[]|[]]|]; try done; rewrite Ht; try done.
  destruct (w_threads w !! th) as [t|]; [|done]. by rewrite (skeleton_remote w w').
Qed.

(** The abstract state after a step of one thread. *)
Lemma alpha_step w' pcs th c f bl ct lm ms rc :
  (forall x, x <> th -> act_of w' x (pcs !! x) = f x) ->
  (forall x, v_blocked w' x = bl x) -> (forall x, v_count w' x = ct x) -> (forall x, v_limit w' x = lm x) ->
  (forall q, v_msgs w' q = ms q) -> (forall q, v_rcvs w' q = rc q) ->
  aeq (alpha (mk_config w' (<[th := c]> pcs))) (mk_astate (upd th (act_of w' th (Some c)) f) bl ct lm ms rc).
Proof.
  intros Hf Hbl Hct Hlm Hms Hrc. split; simpl; try done.
  intros x. rewrite lookup_upd. unfold upd. case_decide; [by subst|by apply Hf].
Qed.

Lemma alpha_step_at w' pcs th c a0 f bl ct lm ms rc :
  act_of w' th (Some c) = a0 ->
  (forall x, x <> th -> act_of w' x (pcs !! x) = f x) ->
  (forall x, v_blocked w' x = bl x) -> (forall x, v_count w' x = ct x) -> (forall x, v_limit w' x = lm x) ->
  (forall q, v_msgs w' q = ms q) -> (forall q, v_rcvs w' q = rc q) ->
  aeq (alpha (mk_config w' (<[th := c]> pcs))) (mk_astate (upd th a0 f) bl ct lm ms rc).
Proof. intros <-. apply alpha_step. Qed.

(** A step of the code and the step of the abstract machine it is. *)
Definition simulated (c c' : config) : Prop :=
  skeleton (cf_world c) (cf_world c') /\
  exists a', astep dest qof known (alpha c) a' /\ aeq (alpha c') a'.

Section thread.
Context (w : world) (pcs : gmap Z pc) (th : Z).
Context (I : cinv (mk_config w pcs)).

(** Only the position of the thread changes, and not what it is up to. *)
Lemma sim_skip c :
  act_of w th (Some c) = act_of w th (pcs !! th) -> simulated (mk_config w pcs) (mk_config w (<[th := c]> pcs)).
Proof.
  intros Hc. split; [apply skeleton_refl|]. eexists. split; [apply a_skip|]. split; simpl; try done.
  intros x. rewrite lookup_upd. unfold upd. by case_decide; [subst|].
Qed.

Lemma blocked_view port p : w_ports w !! port = Some p -> v_blocked w port = ip_blocked p.
Proof. intros Hp. unfold v_blocked. by rewrite Hp. Qed.
Lemma count_view port p : w_ports w !! port = Some p -> v_count w port = ip_msgcount p.
Proof. intros Hp. unfold v_count. by rewrite Hp. Qed.
Lemma limit_view port p : w_ports w !! port = Some p -> v_limit w port = ip_qlimit p.
Proof. intros Hp. unfold v_limit. by rewrite Hp. Qed.
Lemma msgs_view q mq : v_mq w q = Some mq -> v_msgs w q = imq_messages mq.
Proof. intros Hq. unfold v_msgs. by rewrite Hq. Qed.
Lemma rcvs_view q mq : v_mq w q = Some mq -> v_rcvs w q = imq_threads mq.
Proof. intros Hq. unfold v_rcvs. by rewrite Hq. Qed.

Lemma port_active port p : w_ports w !! port = Some p -> ip_active p = true.
Proof. intros Hp. by apply (st_qof _ (ci_static _ I) port). Qed.

(** A sender whose queue is full and who will not wait. *)
Lemma sim_give_up port kmsg option time_out p mr :
  pcs !! th = Some (Sending (SendTry port kmsg option time_out)) ->
  w_ports w !! port = Some p -> ip_qlimit p <= ip_msgcount p ->
  simulated (mk_config w pcs) (mk_config w (<[th := Sending (SendReturn mr)]> pcs)).
Proof.
  intros Hpc Hp Hle. split; [apply skeleton_refl|]. eexists. split.
  - apply (a_give_up _ _ _ _ th port kmsg); simpl; [by rewrite Hpc|].
    by rewrite (limit_view _ _ Hp), (count_view _ _ Hp).
  - by apply alpha_step.
Qed.

(** A sender that starts to wait. *)
Lemma sim_block port kmsg option time_out p t :
  pcs !! th = Some (Sending (SendTry port kmsg option time_out)) ->
  w_ports w !! port = Some p -> ip_qlimit p <= ip_msgcount p -> w_threads w !! th = Some t ->
  simulated (mk_config w pcs)
    (mk_config (put_thread th (set_state MACH_SEND_IN_PROGRESS t) (put_port port (set_ip_blocked (ip_blocked p ++ [th]) p) w))
       (<[th := Sending (SendWait port kmsg option time_out)]> pcs)).
Proof.
  intros Hpc Hp Hle Ht.
  set (w1 := put_port port (set_ip_blocked (ip_blocked p ++ [th]) p) w).
  set (w2 := put_thread th (set_state MACH_SEND_IN_PROGRESS t) w1).
  assert (Hsk : skeleton w w2).
  { apply (skeleton_trans _ w1); [by apply (skeleton_put_port _ _ p)|]. by apply (skeleton_put_thread _ _ t). }
  split; [done|]. eexists. split.
  - apply (a_block _ _ _ _ th port kmsg); simpl; [by rewrite Hpc|].
    by rewrite (limit_view _ _ Hp), (count_view _ _ Hp).
  - assert (Hact : act_of w2 th (Some (Sending (SendWait port kmsg option time_out))) = Blocked port kmsg).
    { simpl. by rewrite lookup_insert_eq. }
    rewrite <- Hact. apply alpha_step; simpl; try done.
    + intros x Hx. apply act_of_same; [done|]. simpl. by rewrite lookup_insert_ne.
    + intros x. etransitivity; [apply put_port_blocked|]. simpl. by rewrite (blocked_view _ _ Hp).
    + intros x. by apply (put_port_count_same _ p).
    + intros x. by apply (put_port_limit_same _ p).
    + intros q. by apply (put_port_msgs_same _ p).
    + intros q. by apply (put_port_rcvs_same _ p).
Qed.

(** A sender that stops waiting before it is woken. *)
Lemma sim_unblock port kmsg option time_out p t c :
  pcs !! th = Some (Sending (SendWait port kmsg option time_out)) ->
  w_ports w !! port = Some p -> w_threads w !! th = Some t -> ith_state t <> MACH_MSG_SUCCESS ->
  act_of w th (Some c) = Elsewhere \/ act_of w th (Some c) = Trying port kmsg -> (forall w', act_of w' th (Some c) = act_of w th (Some c)) ->
  simulated (mk_config w pcs)
    (mk_config (put_port port (set_ip_blocked (remove_thread th (ip_blocked p)) p) w) (<[th := c]> pcs)).
Proof.
  intros Hpc Hp Ht Hst Hc Hany. set (w' := put_port _ _ _).
  assert (Hsk : skeleton w w') by (by apply (skeleton_put_port _ _ p)).
  split; [done|]. eexists. split.
  - apply (a_unblock _ _ _ _ th port kmsg (act_of w th (Some c))); simpl; [|done].
    rewrite Hpc. simpl. rewrite Ht. by apply Z.eqb_neq in Hst as ->.
  - rewrite <- (Hany w'). apply alpha_step; try done.
    + intros x. etransitivity; [apply put_port_blocked|]. simpl. by rewrite (blocked_view _ _ Hp).
    + intros x. by apply (put_port_count_same _ p).
    + intros x. by apply (put_port_limit_same _ p).
    + intros q. by apply (put_port_msgs_same _ p).
    + intros q. by apply (put_port_rcvs_same _ p).
Qed.

Lemma mq_views_put q mq w0 : is_Some (v_mq w0 q) ->
  (forall q', v_msgs (put_mq q mq w0) q' = upd q (imq_messages mq) (v_msgs w0) q') /\
  (forall q', v_rcvs (put_mq q mq w0) q' = upd q (imq_threads mq) (v_rcvs w0) q').
Proof.
  intros Hq. unfold v_msgs, v_rcvs. split; intros q'; rewrite put_mq_mq by done; unfold upd; by case_decide.
Qed.

(** A receiver that starts to wait. *)
Lemma sim_wait q option max_size time_out mq t :
  pcs !! th = Some (Receiving (RecvTry q option max_size time_out)) ->
  v_mq w q = Some mq -> imq_messages mq = [] -> w_threads w !! th = Some t ->
  simulated (mk_config w pcs)
    (mk_config (put_thread th (waiting max_size t) (put_mq q (set_receivers (imq_threads mq ++ [th]) mq) w))
       (<[th := Receiving (RecvWait q option max_size time_out)]> pcs)).
Proof.
  intros Hpc Hq Hnil Ht. set (w1 := put_mq _ _ _). set (w2 := put_thread _ _ _).
  assert (Hsk : skeleton w w2).
  { apply (skeleton_trans _ w1); [apply skeleton_put_mq|]. apply (skeleton_put_thread _ _ t). by destruct q. }
  destruct (mq_views_put q (set_receivers (imq_threads mq ++ [th]) mq) w) as [Hms Hrc]; [by eexists|].
  split; [done|]. eexists. split.
  - apply (a_wait _ _ _ _ th q); simpl; [by rewrite Hpc|]. by rewrite (msgs_view _ _ Hq).
  - assert (Hact : act_of w2 th (Some (Receiving (RecvWait q option max_size time_out))) = Waiting q).
    { simpl. by rewrite lookup_insert_eq. }
    rewrite <- Hact. apply alpha_step; simpl; try done.
    + intros x Hx. apply act_of_same; [done|]. simpl. rewrite lookup_insert_ne by done. by destruct q.
    + intros x. apply put_mq_blocked.
    + intros x. apply put_mq_count.
    + intros x. apply put_mq_limit.
    + intros q'. etransitivity; [apply Hms|]. simpl. unfold upd. case_decide; [|done]. subst. symmetry. by apply msgs_view.
    + intros q'. etransitivity; [apply Hrc|]. simpl. by rewrite (rcvs_view _ _ Hq).
Qed.

(** A receiver that stops waiting without a message. *)
Lemma sim_unwait q option max_size time_out mq t c :
  pcs !! th = Some (Receiving (RecvWait q option max_size time_out)) ->
  v_mq w q = Some mq -> w_threads w !! th = Some t -> ith_state t = MACH_RCV_IN_PROGRESS ->
  (forall w', act_of w' th (Some c) = Elsewhere) ->
  simulated (mk_config w pcs)
    (mk_config (put_mq q (set_receivers (remove_thread th (imq_threads mq)) mq) w) (<[th := c]> pcs)).
Proof.
  intros Hpc Hq Ht Hst Hany. set (w' := put_mq _ _ _).
  assert (Hsk : skeleton w w') by apply skeleton_put_mq.
  destruct (mq_views_put q (set_receivers (remove_thread th (imq_threads mq)) mq) w) as [Hms Hrc]; [by eexists|].
  split; [done|]. eexists. split.
  - apply (a_unwait _ _ _ _ th q). simpl. rewrite Hpc. simpl. by rewrite Ht, Hst.
  - rewrite <- (Hany w'). apply alpha_step; try done.
    + intros x Hx. apply act_of_same; [done|]. by destruct q.
    + intros x. apply put_mq_blocked.
    + intros x. apply put_mq_count.
    + intros x. apply put_mq_limit.
    + intros q'. etransitivity; [apply Hms|]. simpl. unfold upd. case_decide; [|done]. subst. symmetry. by apply msgs_view.
    + intros q'. etransitivity; [apply Hrc|]. simpl. by rewrite (rcvs_view _ _ Hq).
Qed.

(** A receiver that takes the first message of the queue. *)
Lemma sim_take q option max_size time_out mq kmsg kmsgs k p n :
  pcs !! th = Some (Receiving (RecvTry q option max_size time_out)) ->
  v_mq w q = Some mq -> imq_messages mq = kmsg :: kmsgs -> w_kmsgs w !! kmsg = Some k ->
  w_ports (put_mq q (mk_mqueue kmsgs (imq_threads mq)) w) !! msgh_remote_port k = Some p ->
  simulated (mk_config w pcs)
    (mk_config (put_port (msgh_remote_port k) (set_ip_seqno n p) (put_mq q (mk_mqueue kmsgs (imq_threads mq)) w))
       (<[th := Receiving (RecvHave (msgh_remote_port k) kmsg (ip_seqno p))]> pcs)).
Proof.
  intros Hpc Hq Hms Hk Hp. set (w1 := put_mq _ _ _) in *. set (w2 := put_port _ _ _).
  assert (Hsk : skeleton w w2).
  { apply (skeleton_trans _ w1); [apply skeleton_put_mq|]. by apply (skeleton_put_port _ _ p). }
  destruct (mq_views_put q (mk_mqueue kmsgs (imq_threads mq)) w) as [Hv Hrc]; [by eexists|].
  assert (Hdest : dest kmsg = msgh_remote_port k).
  { rewrite <- (st_dest _ (ci_static _ I)); simpl; [unfold remote_of|]; by rewrite Hk. }
  split; [done|]. eexists. split.
  - apply (a_take _ _ _ _ th kmsg kmsgs q); simpl; [by rewrite Hpc|]. by rewrite (msgs_view _ _ Hq).
  - rewrite Hdest. change (Holding (msgh_remote_port k) kmsg) with
      (act_of w2 th (Some (Receiving (RecvHave (msgh_remote_port k) kmsg (ip_seqno p))))).
    apply alpha_step; try done.
    + intros x Hx. apply act_of_same; [done|]. by destruct q.
    + intros x. etransitivity; [by apply (put_port_blocked_same _ p)|]. apply put_mq_blocked.
    + intros x. etransitivity; [by apply (put_port_count_same _ p)|]. apply put_mq_count.
    + intros x. etransitivity; [by apply (put_port_limit_same _ p)|]. apply put_mq_limit.
    + intros q'. etransitivity; [by apply (put_port_msgs_same _ p)|apply Hv].
    + intros q'. etransitivity; [by apply (put_port_rcvs_same _ p)|].
      etransitivity; [apply Hrc|]. simpl. unfold upd. case_decide; [|done]. subst. symmetry. by apply rcvs_view.
Qed.

(** ** Counts and threads of the abstract state *)

Lemma act_blocked_inv w0 x c port kmsg :
  act_of w0 x c = Blocked port kmsg ->
  exists option time_out t, c = Some (Sending (SendWait port kmsg option time_out)) /\
    w_threads w0 !! x = Some t /\ ith_state t <> MACH_MSG_SUCCESS.
Proof.
  unfold act_of. destruct c as [[[]|[]]|]; try done; destruct (w_threads w0 !! x) as [t|] eqn:Ht; try done.
  - destruct (Z.eqb_spec (ith_state t) MACH_MSG_SUCCESS); [done|]. intros [= <- <-]. naive_solver.
  - destruct (_ =? _); [done|]. by destruct (_ =? _).
Qed.

Lemma act_waiting_inv w0 x c q :
  act_of w0 x c = Waiting q ->
  exists option max_size time_out, c = Some (Receiving (RecvWait q option max_size time_out)).
Proof.
  unfold act_of. destruct c as [[[]|[]]|]; try done; destruct (w_threads w0 !! x) as [t|] eqn:Ht; try done.
  - by destruct (_ =? _).
  - destruct (_ =? _); [done|]. destruct (_ =? _); [|done]. intros [= <-]. naive_solver.
Qed.

(** The messages that count in a port are messages in memory. *)
Lemma count_range port :
  exists X : gset Z, (forall k, k ∈ X <-> outstanding dest qof (alpha (mk_config w pcs)) port k) /\
    v_count w port = Z.of_nat (size X) /\ X ⊆ dom (w_kmsgs w) /\ 0 <= v_count w port <= u32_max.
Proof.
  destruct (ai_count _ _ _ _ (ci_abs _ I) port) as (X & HX & Hc). simpl in Hc.
  assert (Hsub : X ⊆ dom (w_kmsgs w)).
  { intros k Hk%HX. apply elem_of_dom. apply (st_known _ (ci_static _ I) k). apply (ai_known _ _ _ _ (ci_abs _ I)).
    destruct Hk as [Hd [Hin|[x Hx]]]; [right; by eexists|]. left. exists x, port. by rewrite Hx. }
  exists X. split_and!; [done|done|done|lia|].
  apply subseteq_size in Hsub. rewrite size_dom in Hsub. pose proof (st_size _ (ci_static _ I)). simpl in *. lia.
Qed.

Lemma count_holding port kmsg x :
  act_of w x (pcs !! x) = Holding port kmsg -> u32 (v_count w port - 1) = v_count w port - 1.
Proof.
  intros Hx. destruct (count_range port) as (X & HX & Hc & _ & Hr).
  destruct (ai_carries _ _ _ _ (ci_abs _ I) x port kmsg) as (Hd & _); [simpl; by rewrite Hx|].
  assert (kmsg ∈ X) by (apply HX; split; [done|]; right; by exists x).
  assert (size X <> 0)%nat by (intros Hz%size_empty_inv; set_solver).
  apply u32_id. unfold u32_range. lia.
Qed.

Lemma count_trying port kmsg x :
  act_of w x (pcs !! x) = Trying port kmsg -> u32 (v_count w port + 1) = v_count w port + 1.
Proof.
  intros Hx. destruct (count_range port) as (X & HX & Hc & Hsub & Hr).
  assert (HkX : kmsg ∉ X).
  { rewrite HX. by apply (carried_not_outstanding _ _ _ _ (ci_abs _ I) x). }
  assert (Hk : kmsg ∈ dom (w_kmsgs w)).
  { apply elem_of_dom. apply (st_known _ (ci_static _ I) kmsg). apply (ai_known _ _ _ _ (ci_abs _ I)).
    left. exists x, port. simpl. by rewrite Hx. }
  assert (Hs : ({[kmsg]} ∪ X) ⊆ dom (w_kmsgs w)) by set_solver.
  apply subseteq_size in Hs. rewrite size_union, size_singleton, size_dom in Hs by set_solver.
  pose proof (st_size _ (ci_static _ I)). simpl in *. apply u32_id. unfold u32_range. lia.
Qed.

(** Worlds that differ only in messages and output. *)
Record alike (w0 w1 : world) : Prop := {
  al_skeleton : skeleton w0 w1;
  al_ports : w_ports w1 = w_ports w0;
  al_psets : w_psets w1 = w_psets w0;
  al_threads : w_threads w1 = w_threads w0
}.

Lemma alike_views w0 w1 :
  alike w0 w1 ->
  (forall x, v_blocked w1 x = v_blocked w0 x) /\ (forall x, v_count w1 x = v_count w0 x) /\
  (forall x, v_limit w1 x = v_limit w0 x) /\ (forall q, v_mq w1 q = v_mq w0 q).
Proof.
  intros [_ Hp Hs _]. unfold v_blocked, v_count, v_limit. rewrite Hp. split_and!; try done.
  intros [P|S]; simpl; by rewrite ?Hp, ?Hs.
Qed.

Lemma finish_marequest kmsg k w' :
  w_kmsgs w !! kmsg = Some k ->
  when (negb (ikm_marequest k =? IMAR_NULL))
    (emit (MarequestDestroy (ikm_marequest k));; update_kmsg kmsg (set_marequest IMAR_NULL)) w = Some (tt, w') ->
  alike w w'.
Proof.
  intros Hk. unfold when. destruct (negb _).
  - intros H. apply bind_inv in H as ([] & w1 & [= <-] & (x1 & H & ->)%update_kmsg_inv). split; try done.
    apply (skeleton_trans _ (emitted [MarequestDestroy (ikm_marequest k)] w)); [apply skeleton_emitted|].
    by eapply skeleton_put_kmsg.
  - intros [= <-]. split; try done.
Qed.

(** The end of a receive: the count goes down and perhaps a sender is woken. *)
Definition finished (port : Z) (p : ipc_port) (w0 w' : world) (woken : list Z) : Prop :=
  (woken = [] /\ w' = put_port port (set_ip_msgcount (u32 (ip_msgcount p - 1)) p) w0 /\
   (ip_blocked p = [] \/ ip_qlimit p <= u32 (ip_msgcount p - 1))) \/
  (exists s senders t, woken = [s] /\ ip_blocked p = s :: senders /\ w_threads w0 !! s = Some t /\
   w' = emitted [ThreadGo s] (put_thread s (set_state MACH_MSG_SUCCESS t)
          (put_port port (set_ip_blocked senders (set_ip_msgcount (u32 (ip_msgcount p - 1)) p)) w0))).

Lemma recv_finish_inv port kmsg seqno c' w' :
  recv_finish port kmsg seqno w = Some (c', w') ->
  exists w1 p woken, alike w w1 /\ w_ports w !! port = Some p /\ finished port p w1 w' woken /\
    c' = RecvReturn MACH_MSG_SUCCESS kmsg seqno.
Proof.
  unfold recv_finish. intros H.
  apply bind_inv in H as (k & w0 & [Hk ->]%kmsg_at_inv & H).
  apply bind_inv in H as ([] & w1 & Hm & H). apply (finish_marequest _ _ _ Hk) in Hm.
  apply bind_inv in H as (p & w0 & [Hp ->]%port_at_inv & H). rewrite (al_ports _ _ Hm) in Hp.
  rewrite (port_active _ _ Hp) in H. apply bind_inv in H as ([] & w2 & Hf & [= <- <-]).
  apply bind_inv in Hf as ([] & w3 & [= <-] & Hf).
  exists w1, p. destruct (ip_blocked p) as [|s senders] eqn:Hb.
  { injection Hf as <-. exists []. split_and!; try done. left. split_and!; try done. by left. }
  unfold when in Hf. destruct (Z.ltb_spec (u32 (ip_msgcount p - 1)) (ip_qlimit p)) as [Hlt|Hge].
  - apply bind_inv in Hf as ([] & w4 & (p4 & Hp4 & ->)%update_port_inv & Hf). simpl in Hp4.
    rewrite lookup_insert_eq in Hp4. injection Hp4 as <-.
    apply bind_inv in Hf as ([] & w5 & (t & Ht & ->)%update_thread_inv & [= <-]).
    exists [s]. split_and!; try done. right. exists s, senders, t. split_and!; try done.
    change (with_ports (<[port := ?x]> (w_ports w1)) w1) with (put_port port x w1). by rewrite put_port_put.
  - injection Hf as <-. exists []. split_and!; try done. left. split_and!; try done. right. lia.
Qed.

(** What [finished] means for the views. *)
Lemma finished_views port p w1 w' woken :
  alike w w1 -> w_ports w !! port = Some p -> finished port p w1 w' woken ->
  exists rest, ip_blocked p = woken ++ rest /\
    skeleton w w' /\
    (forall x, v_blocked w' x = upd port rest (v_blocked w) x) /\
    (forall x, v_count w' x = upd port (u32 (ip_msgcount p - 1)) (v_count w) x) /\
    (forall x, v_limit w' x = v_limit w x) /\
    (forall q, v_mq w' q = v_mq w q) /\
    (forall x, x ∉ woken -> w_threads w' !! x = w_threads w !! x) /\
    (forall x, x ∈ woken -> exists t, w_threads w' !! x = Some (set_state MACH_MSG_SUCCESS t)).
Proof.
  intros Ha Hp Hf. pose proof Ha as [Hsk Hpo Hps Hth]. destruct (alike_views _ _ Ha) as (Vb & Vc & Vl & Vm).
  assert (Hp1 : w_ports w1 !! port = Some p) by (by rewrite Hpo).
  destruct Hf as [(-> & -> & _)|(s & senders & t & -> & Hb & Ht & ->)].
  - exists (ip_blocked p). split_and!; try done.
    + apply (skeleton_trans _ w1); [done|]. by apply (skeleton_put_port _ _ p).
    + intros x. rewrite (put_port_blocked_same _ p), Vb by done. unfold upd. case_decide; [|done]. subst.
      by apply blocked_view.
    + intros x. rewrite put_port_count. unfold upd. by case_decide.
    + intros x. by rewrite (put_port_limit_same _ p).
    + intros q. by rewrite (put_port_mq_same _ p).
    + intros x _. simpl. by rewrite Hth.
    + set_solver.
  - exists senders. split_and!; try done.
    + apply (skeleton_trans _ w1); [done|].
      eapply skeleton_trans; [by apply (skeleton_put_port w1 port p (set_ip_blocked senders (set_ip_msgcount (u32 (ip_msgcount p - 1)) p)))|].
      eapply skeleton_trans; [by apply (skeleton_put_thread (put_port port _ w1) s t)|]. apply skeleton_emitted.
    + intros x. etransitivity; [apply put_port_blocked|]. unfold upd. case_decide; [done|]. apply Vb.
    + intros x. etransitivity; [apply put_port_count|]. unfold upd. case_decide; [done|]. apply Vc.
    + intros x. etransitivity; [by apply (put_port_limit_same _ p)|]. apply Vl.
    + intros q. etransitivity; [by apply (put_port_mq_same _ p)|]. apply Vm.
    + intros x Hx. simpl. rewrite lookup_insert_ne by set_solver. by rewrite Hth.
    + intros x ->%list_elem_of_singleton. exists t. simpl. by rewrite lookup_insert_eq.
Qed.

(** Threads taken from the queue of blocked senders are woken. *)
Lemma act_woken w' port woken rest x :
  v_blocked w port = woken ++ rest -> skeleton w w' ->
  (x ∉ woken -> w_threads w' !! x = w_threads w !! x) ->
  (x ∈ woken -> exists t, w_threads w' !! x = Some (set_state MACH_MSG_SUCCESS t)) ->
  act_of w' x (pcs !! x) = wake_acts woken (fun y => act_of w y (pcs !! y)) x.
Proof.
  intros Hb Hsk Hout Hin. unfold wake_acts, upds. case_decide as Hx.
  - destruct (blocked_part _ _ _ _ (ci_abs _ I) port woken rest x Hb (or_introl Hx)) as [k Hk]. simpl in Hk.
    rewrite Hk. destruct (act_blocked_inv _ _ _ _ _ Hk) as (o & tm & t & Hpc & _).
    destruct (Hin Hx) as [t' Ht']. rewrite Hpc. simpl. by rewrite Ht'.
  - apply act_of_same; auto.
Qed.

Lemma sim_finish port kmsg seqno c' w' :
  pcs !! th = Some (Receiving (RecvHave port kmsg seqno)) ->
  recv_finish port kmsg seqno w = Some (c', w') ->
  simulated (mk_config w pcs) (mk_config w' (<[th := Receiving c']> pcs)).
Proof.
  intros Hpc (w1 & p & woken & Ha & Hp & Hf & ->)%recv_finish_inv.
  destruct (finished_views _ _ _ _ _ Ha Hp Hf) as (rest & Hb & Hsk & Vb & Vc & Vl & Vm & Hout & Hin).
  assert (Hu : u32 (ip_msgcount p - 1) = v_count w port - 1).
  { rewrite <- (count_view _ _ Hp). apply (count_holding port kmsg th). by rewrite Hpc. }
  split; [done|]. eexists. split.
  - apply (a_finish _ _ _ _ th port kmsg woken rest); simpl; [by rewrite Hpc|by rewrite (blocked_view _ _ Hp)|].
    rewrite <- Hu, (limit_view _ _ Hp). intros ->.
    destruct Hf as [(_ & _ & [Hn|Hle])|(s & ? & ? & ? & _)]; [left|by right|done]. simpl in Hb. congruence.
  - change Elsewhere with (act_of w' th (Some (Receiving (RecvReturn MACH_MSG_SUCCESS kmsg seqno)))).
    apply alpha_step; try done; simpl.
    + intros x _. apply (act_woken w' port woken rest); [by rewrite (blocked_view _ _ Hp)|done|apply Hout|apply Hin].
    + intros x. rewrite Vc, Hu. done.
    + intros q. unfold v_msgs. by rewrite Vm.
    + intros q. unfold v_rcvs. by rewrite Vm.
Qed.

(** ** Changing the limit *)

Lemma wake_senders_spec blocked : forall wakeup w0 rest w',
  wake_senders blocked wakeup w0 = Some (rest, w') ->
  exists woken, blocked = woken ++ rest /\ (rest = [] \/ wakeup <= Z.of_nat (length woken)) /\
    skeleton w0 w' /\ w_ports w' = w_ports w0 /\ w_psets w' = w_psets w0 /\
    (forall x, x ∉ woken -> w_threads w' !! x = w_threads w0 !! x) /\
    (forall x, x ∈ woken -> exists t, w_threads w' !! x = Some (set_state MACH_MSG_SUCCESS t)).
Proof.
  induction blocked as [|s blocked IH]; intros wakeup w0 rest w'; simpl.
  { intros [= <- <-]. exists []. split_and!; [done|by left|apply skeleton_refl|done|done|done|set_solver]. }
  destruct (Z.ltb_spec 0 wakeup) as [Hlt|Hge].
  - intros H. apply bind_inv in H as ([] & w1 & (t & Ht & ->)%update_thread_inv & H).
    apply bind_inv in H as ([] & w2 & [= <-] & H).
    apply IH in H as (woken & -> & Hr & Hsk & Hp & Hs & Hout & Hin). exists (s :: woken).
    split_and!; try done.
    + destruct Hr as [->|Hle]; [by left|]. right. simpl. lia.
    + apply (skeleton_trans _ (put_thread s (set_state MACH_MSG_SUCCESS t) w0)); [by eapply skeleton_put_thread|].
      exact (skeleton_trans _ _ _ (skeleton_emitted _ _) Hsk).
    + intros x [Hx Hx']%not_elem_of_cons. rewrite Hout by done. simpl. by rewrite lookup_insert_ne.
    + intros x Hx. destruct (decide (x ∈ woken)) as [Hw|Hw]; [by apply Hin|].
      apply elem_of_cons in Hx as [->|Hx]; [|done]. exists t. rewrite Hout by done. simpl. by rewrite lookup_insert_eq.
  - intros [= <- <-]. exists []. split_and!; [done|right; simpl; lia|apply skeleton_refl|done|done|done|set_solver].
Qed.

Lemma set_qlimit_inv port qlimit w' :
  u32_range qlimit -> ipc_port_set_qlimit port qlimit w = Some (tt, w') ->
  exists p woken rest,
    w_ports w !! port = Some p /\ ip_blocked p = woken ++ rest /\
    (rest = [] \/ qlimit - ip_qlimit p <= Z.of_nat (length woken)) /\ skeleton w w' /\
    w_ports w' = <[port := set_ip_qlimit qlimit (set_ip_blocked rest p)]> (w_ports w) /\ w_psets w' = w_psets w /\
    (forall x, x ∉ woken -> w_threads w' !! x = w_threads w !! x) /\
    (forall x, x ∈ woken -> exists t, w_threads w' !! x = Some (set_state MACH_MSG_SUCCESS t)).
Proof.
  intros Hql H. unfold ipc_port_set_qlimit in H. apply bind_inv in H as (p & w0 & [Hp ->]%port_at_inv & H).
  apply bind_inv in H as (rest & w1 & Hw & H). apply update_port_inv in H as (p1 & Hp1 & ->).
  pose proof (ai_limit _ _ _ _ (ci_abs _ I) port) as Hpl. simpl in Hpl. rewrite (limit_view _ _ Hp) in Hpl. unfold u32_range in *.
  assert (Hspec : exists woken, ip_blocked p = woken ++ rest /\
    (rest = [] \/ qlimit - ip_qlimit p <= Z.of_nat (length woken)) /\ skeleton w w1 /\ w_ports w1 = w_ports w /\ w_psets w1 = w_psets w /\
    (forall x, x ∉ woken -> w_threads w1 !! x = w_threads w !! x) /\
    (forall x, x ∈ woken -> exists t, w_threads w1 !! x = Some (set_state MACH_MSG_SUCCESS t))).
  { destruct (Z.ltb_spec (ip_qlimit p) qlimit) as [Hlt|Hge].
    - apply wake_senders_spec in Hw. by rewrite u32_id in Hw by (unfold u32_range; lia).
    - injection Hw as <- <-. exists []. split_and!; [done|right; simpl; lia|apply skeleton_refl|done|done|done|set_solver]. }
  destruct Hspec as (woken & Hb & Hr & Hsk & Hpo & Hps & Hout & Hin). rewrite Hpo, Hp in Hp1. injection Hp1 as <-.
  exists p, woken, rest. split_and!; try done.
  - apply (skeleton_trans _ w1); [done|]. apply (skeleton_put_port _ _ p); [by rewrite Hpo|done].
  - simpl. by rewrite Hpo.
Qed.

Lemma sim_set_qlimit port qlimit w' :
  u32_range qlimit -> ipc_port_set_qlimit port qlimit w = Some (tt, w') ->
  simulated (mk_config w pcs) (mk_config w' pcs).
Proof.
  intros Hql (p & woken & rest & Hp & Hb & Hr & Hsk & Hpo & Hps & Hout & Hin)%set_qlimit_inv; [|done].
  assert (Hview : forall A (f : option ipc_port -> A) x, f (w_ports w' !! x) =
    upd port (f (Some (set_ip_qlimit qlimit (set_ip_blocked rest p)))) (fun y => f (w_ports w !! y)) x).
  { intros A f x. rewrite Hpo, lookup_upd. unfold upd. by case_decide. }
  assert (Hmq : forall q, v_mq w' q = v_mq w q).
  { intros [P|S]; simpl; [|by rewrite Hps]. etransitivity; [apply (Hview _ (fmap ip_messages))|].
    unfold upd. case_decide; [|done]. subst. simpl. by rewrite Hp. }
  split; [done|]. eexists. split.
  - apply (a_set_limit _ _ _ _ port qlimit woken rest); simpl; [done|by rewrite (blocked_view _ _ Hp)|].
    by rewrite (limit_view _ _ Hp).
  - split; simpl.
    + intros x. apply (act_woken w' port woken rest); [by rewrite (blocked_view _ _ Hp)|done|apply Hout|apply Hin].
    + intros x. apply (Hview _ (from_option ip_blocked [])).
    + intros x. etransitivity; [apply (Hview _ (from_option ip_msgcount 0))|]. unfold upd. case_decide; [|done]. subst.
      simpl. symmetry. by rewrite (count_view _ _ Hp).
    + intros x. apply (Hview _ (from_option ip_qlimit 0)).
    + intros q. unfold v_msgs. by rewrite Hmq.
    + intros q. unfold v_rcvs. by rewrite Hmq.
Qed.

(** ** Delivering a message *)

(** Moving the wake-up before the answer makes no difference. *)
Lemma hand_over_offer port kmsg size receivers : forall w0,
  hand_over port kmsg size receivers w0 = offer port kmsg size receivers w0.
Proof.
  induction receivers as [|r receivers IH]; intros w0; [done|]. cbn [hand_over offer].
  unfold thread_go, emit, update_thread, thread_at, port_at, set_port, modify, mret, M_ret, mbind, M_bind. simpl.
  destruct (w_threads w0 !! r) as [t|] eqn:Ht; simpl; [|done]. destruct (size <=? ith_msize t).
  - destruct (w_ports w0 !! port) as [p|] eqn:Hp; simpl; rewrite ?Hp; [|done]. simpl. by rewrite Ht.
  - simpl. rewrite Ht. apply IH.
Qed.

(** Receivers in the queue wait there. *)
Lemma receiver_waits q mq x :
  v_mq w q = Some mq -> x ∈ imq_threads mq ->
  act_of w x (pcs !! x) = Waiting q /\
  exists option max_size time_out, pcs !! x = Some (Receiving (RecvWait q option max_size time_out)).
Proof.
  intros Hq Hx. assert (Ha : act_of w x (pcs !! x) = Waiting q).
  { apply (ai_rcvs _ _ _ _ (ci_abs _ I) q). simpl. by rewrite (rcvs_view _ _ Hq). }
  split; [done|]. by apply act_waiting_inv in Ha.
Qed.

Lemma receivers_exist q mq x : v_mq w q = Some mq -> x ∈ imq_threads mq -> is_Some (w_threads w !! x).
Proof.
  intros Hq Hx. destruct (receiver_waits _ _ _ Hq Hx) as (_ & o & m & t & Hpc). apply (ci_threads _ I). simpl. by rewrite Hpc.
Qed.

Lemma receivers_NoDup q mq : v_mq w q = Some mq -> NoDup (imq_threads mq).
Proof. intros Hq. pose proof (ai_rcvs _ _ _ _ (ci_abs _ I) q) as [Hn _]. simpl in Hn. by rewrite (rcvs_view _ _ Hq) in Hn. Qed.

(** [delivered_to w' small taker rest]: where the message went. *)
Record delivery (port kmsg : Z) (p : ipc_port) (q : mq_ref) (mq : ipc_mqueue)
    (small taker rest : list Z) (w' : world) : Prop := {
  dl_rcvs : imq_threads mq = small ++ taker ++ rest;
  dl_taker : taker = [] /\ rest = [] \/ exists r, taker = [r];
  dl_skeleton : skeleton w w';
  dl_blocked x : v_blocked w' x = v_blocked w x;
  dl_count x : v_count w' x = upd port (u32 (ip_msgcount p + 1)) (v_count w) x;
  dl_limit x : v_limit w' x = v_limit w x;
  dl_msgs q' : v_msgs w' q' = (if taker is [] then upd q (imq_messages mq ++ [kmsg]) (v_msgs w) else v_msgs w) q';
  dl_rest q' : v_rcvs w' q' = upd q rest (v_rcvs w) q';
  dl_small x : x ∈ small -> exists t, w_threads w' !! x = Some t /\ ith_state t = MACH_RCV_TOO_LARGE;
  dl_handed x : x ∈ taker -> exists t, w_threads w' !! x = Some t /\ ith_state t = MACH_MSG_SUCCESS /\ ith_kmsg t = kmsg;
  dl_same x : x ∉ small ++ taker -> w_threads w' !! x = w_threads w !! x
}.

Lemma skeleton_queue_step w0 w' port p n : w_ports w0 !! port = Some p -> queue_step port w0 w' p n -> skeleton w0 w'.
Proof.
  intros Hp [Hpo Hps Hk Hth]. split; [|by rewrite Hps|done|by rewrite Hk].
  intros x. rewrite Hpo, lookup_upd. unfold upd. case_decide; [|done]. subst. by rewrite Hp.
Qed.

Lemma queue_step_mq w0 w' port p n q :
  w_ports w0 !! port = Some p -> queue_step port w0 w' p n -> v_mq w' q = v_mq w0 q.
Proof.
  intros Hp [Hpo Hps _ _]. destruct q as [P|S]; simpl; [|by rewrite Hps].
  rewrite Hpo, lookup_upd. unfold upd. case_decide; [|done]. subst. by rewrite Hp.
Qed.

Lemma queue_step_port_view {A} (f : option ipc_port -> A) w0 w' port p n x :
  w_ports w0 !! port = Some p -> queue_step port w0 w' p n ->
  (forall p', f (Some (set_ip_seqno n p')) = f (Some p')) -> f (w_ports w' !! x) = f (w_ports w0 !! x).
Proof.
  intros Hp [Hpo _ _ _] Hf. rewrite Hpo, lookup_upd. unfold upd. case_decide; [|done]. subst. by rewrite Hp, Hf.
Qed.

Lemma send_deliver_run port kmsg p k :
  w_ports w !! port = Some p -> w_kmsgs w !! kmsg = Some k ->
  exists mq small taker rest w', v_mq w (qof port) = Some mq /\
    send_deliver port kmsg w = Some (tt, w') /\ delivery port kmsg p (qof port) mq small taker rest w'.
Proof.
  intros Hp Hk. destruct (st_qof _ (ci_static _ I) port p Hp) as [Hqo _].
  destruct (st_queue _ (ci_static _ I) port) as [mq Hmq]; [by eexists|]. simpl in Hmq.
  set (q := qof port) in *. set (p1 := set_ip_msgcount (u32 (ip_msgcount p + 1)) p). set (w1 := put_port port p1 w).
  assert (Hp1 : w_ports w1 !! port = Some p1) by apply put_port_lookup.
  assert (Hsk1 : skeleton w w1) by (by apply (skeleton_put_port _ _ p)).
  assert (Hmq1 : v_mq w1 q = Some mq) by (unfold w1; by rewrite (put_port_mq_same _ p)).
  destruct (offer_spec port kmsg (msgh_size k) (imq_threads mq) w1 p1 Hp1) as (found & rest & small & taker & w2 & n & Hrun & Hoff).
  { by apply (receivers_NoDup q). } { intros x Hx. by apply (receivers_exist q mq). }
  destruct Hoff as [Hrc Hqs Hsmall Htaker Hsame].
  assert (Hmq2 : v_mq w2 q = Some mq) by (by rewrite (queue_step_mq _ _ _ _ _ q Hp1 Hqs)).
  set (mq' := let m := set_receivers rest mq in if found then m else enqueue_message kmsg m).
  exists mq, small, taker, rest, (put_mq q mq' w2). split; [done|]. split.
  - unfold send_deliver. erewrite bind_run; [|by apply update_port_run]. fold p1 w1.
    erewrite bind_run; [|by apply port_at_run]. change (queue_of port p1) with (queue_of port p). rewrite Hqo. fold q.
    erewrite bind_run; [|by apply mqueue_at_run].
    erewrite bind_run; [|by apply (kmsg_at_run kmsg w1 k)].
    rewrite run_bind, hand_over_offer, Hrun. cbn beta iota.
    erewrite bind_run; [|by apply mqueue_at_run]. apply set_mqueue_run. by eexists.
  - destruct (mq_views_put q mq' w2) as [Hv Hr]; [by eexists|].
    assert (Hmqs : forall q', v_mq w2 q' = v_mq w q').
    { intros q'. rewrite (queue_step_mq _ _ _ _ _ q' Hp1 Hqs). by apply (put_port_mq_same _ p). }
    assert (Hvw : forall q', v_msgs w2 q' = v_msgs w q' /\ v_rcvs w2 q' = v_rcvs w q').
    { intros q'. unfold v_msgs, v_rcvs. by rewrite Hmqs. }
    split; try done.
    + destruct found; [destruct Htaker as (r & -> & _); right; by exists r|]. destruct Htaker as (-> & -> & _). by left.
    + apply (skeleton_trans _ w1); [done|]. eapply skeleton_trans; [by eapply skeleton_queue_step|]. apply skeleton_put_mq.
    + intros x. rewrite put_mq_blocked. etransitivity; [by eapply (queue_step_port_view (from_option ip_blocked []))|].
      by apply (put_port_blocked_same _ p).
    + intros x. rewrite put_mq_count. etransitivity; [by eapply (queue_step_port_view (from_option ip_msgcount 0))|].
      apply put_port_count.
    + intros x. rewrite put_mq_limit. etransitivity; [by eapply (queue_step_port_view (from_option ip_qlimit 0))|].
      by apply (put_port_limit_same _ p).
    + intros q'. rewrite Hv. unfold mq'. destruct found.
      * destruct Htaker as (r & -> & _). simpl. unfold upd. case_decide; [|apply Hvw]. subst.
        symmetry. by apply msgs_view.
      * destruct Htaker as (-> & _ & _). simpl. unfold upd. case_decide; [done|apply Hvw].
    + intros q'. rewrite Hr. unfold mq', upd. case_decide; [by destruct found|]. apply Hvw.
    + intros x Hx. destruct (Hsmall x Hx) as [_ (t & Ht & Hst & _)]. exists t. split; [|done]. by destruct q.
    + intros x Hx. destruct found; [|destruct Htaker as (-> & _); set_solver].
      destruct Htaker as (r & -> & _ & (t & Ht & Hst & Hkm & _) & _). apply list_elem_of_singleton in Hx as ->.
      exists t. split; [|done]. by destruct q.
    + intros x Hx. transitivity (w_threads w2 !! x); [by destruct q|]. by apply Hsame.
Qed.

Section deliver.
Context (port kmsg : Z) (p : ipc_port) (mq : ipc_mqueue) (small taker rest : list Z) (w' : world).
Context (Hth : act_of w th (pcs !! th) = Trying port kmsg).
Context (Hp : w_ports w !! port = Some p) (Hmq : v_mq w (qof port) = Some mq).
Context (D : delivery port kmsg p (qof port) mq small taker rest w').

Lemma deliver_count : u32 (ip_msgcount p + 1) = v_count w port + 1.
Proof. rewrite <- (count_view _ _ Hp). by apply (count_trying port kmsg th). Qed.

Lemma deliver_waiting x : x ∈ small ++ taker -> act_of w x (pcs !! x) = Waiting (qof port) /\
  exists option max_size time_out, pcs !! x = Some (Receiving (RecvWait (qof port) option max_size time_out)).
Proof.
  intros Hx. apply (receiver_waits _ mq); [done|]. rewrite (dl_rcvs _ _ _ _ _ _ _ _ _ D), app_assoc. by apply elem_of_app; left.
Qed.

Lemma deliver_act x :
  act_of w' x (pcs !! x) =
  if decide (x ∈ taker) then Holding port kmsg else if decide (x ∈ small) then Elsewhere else act_of w x (pcs !! x).
Proof.
  case_decide as Ht; [|case_decide as Hs].
  - destruct (deliver_waiting x) as (_ & o & m & t0 & ->); [set_solver|].
    destruct (dl_handed _ _ _ _ _ _ _ _ _ D x Ht) as (t & Hx & Hst & Hk). simpl. rewrite Hx, Hst, Hk. simpl.
    rewrite (skeleton_remote w w' kmsg (dl_skeleton _ _ _ _ _ _ _ _ _ D)).
    pose proof (ai_carries _ _ _ _ (ci_abs _ I) th port kmsg) as (Hd & _ & _); [simpl; by rewrite Hth|].
    assert (Hkn : known kmsg) by (apply (ai_known _ _ _ _ (ci_abs _ I)); left; exists th, port; simpl; by rewrite Hth).
    apply (st_known _ (ci_static _ I)) in Hkn as [Hkn _]. pose proof (st_dest _ (ci_static _ I) kmsg Hkn) as Hr.
    simpl in Hr. by rewrite Hr, Hd.
  - destruct (deliver_waiting x) as (_ & o & m & t0 & ->); [set_solver|].
    destruct (dl_small _ _ _ _ _ _ _ _ _ D x Hs) as (t & Hx & Hst). simpl. by rewrite Hx, Hst.
  - apply act_of_same; [apply (dl_skeleton _ _ _ _ _ _ _ _ _ D)|]. apply (dl_same _ _ _ _ _ _ _ _ _ D). set_solver.
Qed.

Lemma sim_deliver c :
  (forall w0, act_of w0 th (Some c) = Elsewhere) ->
  simulated (mk_config w pcs) (mk_config w' (<[th := c]> pcs)).
Proof.
  intros Hc. split; [apply (dl_skeleton _ _ _ _ _ _ _ _ _ D)|].
  pose proof D as [Hrc Htk _ Hbl Hct Hlm Hms Hrest _ _ _]. rewrite deliver_count in Hct.
  pose proof deliver_act as Hda. pose proof deliver_waiting as Hwt.
  destruct Htk as [[Ht0 Hr0]|[r Hr]]; rewrite ?Ht0, ?Hr0, ?Hr in *.
  - eexists. split; [by apply (a_queue _ _ _ _ th port kmsg)|].
    apply alpha_step_at; [apply Hc|..]; simpl; try done.
    + intros x Hx. rewrite Hda, (rcvs_view _ _ Hmq), Hrc. simpl. rewrite app_nil_r. unfold upds.
      by destruct (decide (x ∈ [])) as [Hn|]; [apply elem_of_nil in Hn|].
    + intros q'. rewrite Hms. by rewrite (msgs_view _ _ Hmq).
  - assert (Hrth : r <> th).
    { intros ->. destruct (Hwt th) as [Hw _]; [apply elem_of_app; right; by left|]. congruence. }
    eexists. split; [apply (a_hand _ _ _ _ th port kmsg small r rest); [done|simpl; by rewrite (rcvs_view _ _ Hmq)]|].
    split; simpl; try done. intros x. rewrite lookup_upd. unfold upd. case_decide.
    + subst x. by rewrite decide_False, Hc by done.
    + rewrite Hda. unfold upds. destruct (decide (x = r)) as [->|Hx].
      * by rewrite decide_True by (by apply list_elem_of_singleton).
      * by rewrite decide_False by (by rewrite list_elem_of_singleton).
Qed.
End deliver.

(** ** Every step of the code is a step of the machine *)

Lemma sim_send why c c' w' :
  pcs !! th = Some (Sending c) -> send_step th why c w = Some (c', w') ->
  simulated (mk_config w pcs) (mk_config w' (<[th := Sending c']> pcs)).
Proof.
  intros Hpc. destruct c as [port kmsg o tm|port kmsg o tm|mr]; simpl.
  - unfold send_try. intros H. apply bind_inv in H as (p & w0 & [Hp ->]%port_at_inv & H).
    rewrite (port_active _ _ Hp) in H. simpl in H. apply bind_inv in H as (k & w0 & [Hk ->]%kmsg_at_inv & H).
    destruct (may_send o p k) eqn:Hmay.
    + apply bind_inv in H as ([] & w1 & H & [= <- <-]). rewrite (st_plain _ (ci_static _ I) _ _ Hk) in H.
      destruct (send_deliver_run port kmsg p k Hp Hk) as (mq & small & taker & rest & w2 & Hmq & Hrun & D).
      rewrite Hrun in H. injection H as <-. eapply sim_deliver; try done. by rewrite Hpc.
    + assert (Hle : ip_qlimit p <= ip_msgcount p).
      { unfold may_send in Hmay. destruct (Z.ltb_spec (ip_msgcount p) (ip_qlimit p)); [done|lia]. }
      destruct (_ && _).
      * injection H as <- <-. by eapply sim_give_up.
      * apply bind_inv in H as ([] & w1 & (p' & Hp' & ->)%update_port_inv & H). simplify_eq.
        apply bind_inv in H as ([] & w1 & (t & Ht & ->)%update_thread_inv & [= <- <-]). by eapply sim_block.
  - unfold send_wake. intros H. apply bind_inv in H as (t & w0 & [Ht ->]%thread_at_inv & H).
    destruct (Z.eqb_spec (ith_state t) MACH_MSG_SUCCESS) as [Hs|Hs].
    + injection H as <- <-. apply sim_skip. rewrite Hpc. simpl. by rewrite Ht, Hs.
    + apply bind_inv in H as ([] & w1 & (p & Hp & ->)%update_port_inv & H).
      destruct why; try done; injection H as <- <-; eapply sim_unblock; try done; auto.
  - intros [= <- <-]. apply sim_skip. by rewrite Hpc.
Qed.

Lemma sim_receive why c c' w' :
  pcs !! th = Some (Receiving c) -> recv_step th why c w = Some (c', w') ->
  simulated (mk_config w pcs) (mk_config w' (<[th := Receiving c']> pcs)).
Proof.
  intros Hpc. destruct c as [q o m tm|q o m tm|port kmsg seqno|mr kmsg seqno]; simpl.
  - unfold recv_try. intros H. apply bind_inv in H as (mq & w0 & [Hmq ->]%mqueue_at_inv & H).
    destruct (imq_messages mq) as [|kmsg kmsgs] eqn:Hms.
    + destruct (_ && _); [injection H as <- <-; apply sim_skip; by rewrite Hpc|].
      apply bind_inv in H as ([] & w1 & [_ ->]%set_mqueue_inv & H).
      apply bind_inv in H as ([] & w1 & (t & Ht & ->)%update_thread_inv & [= <- <-]).
      eapply sim_wait; try done. by destruct q.
    + apply bind_inv in H as (k & w0 & [Hk ->]%kmsg_at_inv & H).
      destruct (_ <? _); [injection H as <- <-; apply sim_skip; by rewrite Hpc|].
      apply bind_inv in H as ([] & w1 & [_ ->]%set_mqueue_inv & H).
      apply bind_inv in H as (p & w1 & [Hp ->]%port_at_inv & [= <- <-]). by eapply sim_take.
  - unfold recv_wake. intros H. apply bind_inv in H as (t & w0 & [Ht ->]%thread_at_inv & H).
    destruct (Z.eqb_spec (ith_state t) MACH_MSG_SUCCESS) as [Hs|Hs].
    { apply bind_inv in H as (k & w0 & [Hk ->]%kmsg_at_inv & [= <- <-]). apply sim_skip. rewrite Hpc. simpl.
      rewrite Ht, Hs. simpl. unfold remote_of. by rewrite Hk. }
    destruct (Z.eqb_spec (ith_state t) MACH_RCV_TOO_LARGE) as [Hl|Hl].
    { injection H as <- <-. apply sim_skip. rewrite Hpc. simpl. by rewrite Ht, Hl. }
    destruct (_ || _) eqn:Hdied.
    { injection H as <- <-. apply sim_skip. rewrite Hpc. simpl. rewrite Ht.
      apply orb_true_iff in Hdied as [He%Z.eqb_eq|He%Z.eqb_eq]; by rewrite He. }
    destruct (Z.eqb_spec (ith_state t) MACH_RCV_IN_PROGRESS) as [Hi|Hi]; [|done].
    apply bind_inv in H as (mq & w0 & [Hmq ->]%mqueue_at_inv & H).
    apply bind_inv in H as ([] & w1 & [_ ->]%set_mqueue_inv & H).
    destruct why; try done; injection H as <- <-; by eapply sim_unwait.
  - by apply sim_finish.
  - intros [= <- <-]. apply sim_skip. by rewrite Hpc.
Qed.

Lemma carries_holds x d port k : carries (act_of w x (Some d)) = Some (port, k) -> holds w x d k.
Proof.
  unfold act_of. destruct d as [[]|[]]; simpl; try done; try (by intros [= <- <-]).
  - destruct (w_threads w !! x) as [t|]; [|done]. by destruct (_ =? _); intros [= <- <-].
  - destruct (w_threads w !! x) as [t|]; [|done]. destruct (Z.eqb_spec (ith_state t) MACH_MSG_SUCCESS).
    + intros [= <- <-]. eauto.
    + by destruct (_ =? _).
Qed.

Lemma unused_not_placed kmsg : unused (mk_config w pcs) kmsg -> ~ placed (alpha (mk_config w pcs)) kmsg.
Proof.
  intros [Hh Hq] [(x & port & Hx)|[q Hin]]; simpl in *.
  - destruct (pcs !! x) as [d|] eqn:Hd; [|done]. apply (Hh x d Hd). by eapply carries_holds.
  - apply Hq. unfold v_msgs in Hin. destruct q as [P|S]; simpl in Hin; [left|right].
    + destruct (w_ports w !! P) as [p|] eqn:Hp; [|by apply elem_of_nil in Hin]. by exists P, p.
    + destruct (w_psets w !! S) as [p|] eqn:Hp; [|by apply elem_of_nil in Hin]. by exists S, p.
Qed.

Lemma sim_call kern server kmsg option time_out port :
  pcs !! th = None -> unused (mk_config w pcs) kmsg ->
  send_start 1 kern server kmsg option time_out w = Some (SendTry port kmsg option time_out, w) ->
  simulated (mk_config w pcs) (mk_config w (<[th := Sending (SendTry port kmsg option time_out)]> pcs)).
Proof.
  intros Hpc Hun H. cbn [send_start] in H.
  apply bind_inv in H as (k & w0 & [Hk ->]%kmsg_at_inv & H). apply bind_inv in H as (p & w0 & [Hp ->]%port_at_inv & H).
  assert (Hport : msgh_remote_port k = port).
  { destruct (_ =? _); [|by injection H]. apply bind_inv in H as (r & w1 & _ & H). by destruct (_ =? _). }
  assert (Hd : dest kmsg = port).
  { rewrite <- Hport, <- (st_dest _ (ci_static _ I) kmsg); simpl; [unfold remote_of|]; by rewrite Hk. }
  split; [apply skeleton_refl|]. eexists. split.
  - apply (a_call _ _ _ _ th port kmsg); [simpl; by rewrite Hpc|done| |by apply unused_not_placed].
    apply (st_known _ (ci_static _ I)). simpl. split; [by eexists|]. rewrite Hd, <- Hport. by eexists.
  - by apply alpha_step.
Qed.
End thread.

(** ** The invariant holds in every reachable configuration *)

Lemma step_simulated kern server c c' : cinv c -> step kern server c c' -> simulated c c'.
Proof.
  intros I Hs. destruct Hs.
  - by eapply sim_call.
  - apply sim_skip. by rewrite H.
  - by eapply sim_send.
  - by eapply sim_receive.
  - split; [apply skeleton_refl|]. eexists. split; [apply a_skip|]. split; simpl; try done. intros x.
    destruct (decide (x = th)) as [->|]; [|by rewrite lookup_delete_ne].
    rewrite lookup_delete_eq, H. by destruct c as [[]|[]].
  - by eapply sim_set_qlimit.
Qed.

Lemma step_cinv kern server c c' : cinv c -> step kern server c c' -> cinv c'.
Proof.
  intros I Hs. destruct (step_simulated _ _ _ _ I Hs) as (Hsk & a' & Ha & Haeq). split.
  - rewrite Haeq. by eapply astep_keeps_inv; [apply (ci_abs _ I)|].
  - by apply (static_skeleton _ _ Hsk), (ci_static _ I).
  - intros x Hx. apply (sk_threads _ _ Hsk). pose proof (ci_threads _ I) as Ht.
    destruct Hs; simpl in *; try (by apply Ht); try (destruct (decide (x = th)) as [->|]; [by eauto|];
      apply Ht; by rewrite ?lookup_insert_ne, ?lookup_delete_ne in Hx).
Qed.

Lemma reachable_cinv kern server c c' : cinv c -> reachable kern server c c' -> cinv c'.
Proof. intros I Hr. induction Hr as [|c1 c2 c3 Hs _ IH]; [done|]. apply IH. by eapply step_cinv. Qed.

(** ** Threads that can go on *)

(** The thread can run without being timed out or interrupted. *)
Definition runs (w : world) (th : Z) (d : pc) : Prop :=
  match d with
  | Sending c => exists c' w', send_step th THREAD_AWAKENED c w = Some (c', w')
  | Receiving c => exists c' w', recv_step th THREAD_AWAKENED c w = Some (c', w')
  end.

Section progress.
Context (w : world) (pcs : gmap Z pc) (I : cinv (mk_config w pcs)).

Lemma carried_known th port kmsg :
  carries (act_of w th (pcs !! th)) = Some (port, kmsg) ->
  is_Some (w_kmsgs w !! kmsg) /\ is_Some (w_ports w !! port) /\ remote_of w kmsg = port.
Proof.
  intros Hc. destruct (ai_carries _ _ _ _ (ci_abs _ I) th port kmsg Hc) as (Hd & _ & _).
  assert (Hk : known kmsg) by (apply (ai_known _ _ _ _ (ci_abs _ I)); left; by exists th, port).
  apply (st_known _ (ci_static _ I)) in Hk as [Hk Hp]. pose proof (st_dest _ (ci_static _ I) kmsg Hk).
  simpl in *. subst. split_and!; [done|done|congruence].
Qed.

Lemma wake_sender_run port p : (forall s, s ∈ ip_blocked p -> is_Some (w_threads w !! s)) ->
  forall w1, alike w w1 -> w_ports w1 !! port = Some p -> exists w',
  match ip_blocked p with
  | sender :: senders =>
    when (u32 (ip_msgcount p - 1) <? ip_qlimit p)
      (update_port port (set_ip_blocked senders);; update_thread sender (set_state MACH_MSG_SUCCESS);; thread_go sender)
  | [] => mret tt
  end (put_port port (set_ip_msgcount (u32 (ip_msgcount p - 1)) p) w1) = Some (tt, w').
Proof.
  intros Hs w1 Ha Hp. destruct (ip_blocked p) as [|s senders]; [by eexists|]. unfold when.
  destruct (_ <? _); [|by eexists]. destruct (Hs s) as [t Ht]; [by left|]. rewrite <- (al_threads _ _ Ha) in Ht.
  erewrite bind_run; [|apply update_port_run, put_port_lookup]. unfold update_thread.
  rewrite !run_bind. unfold thread_at. simpl. rewrite Ht. simpl. by eexists.
Qed.

Lemma recv_finish_run th port kmsg seqno :
  pcs !! th = Some (Receiving (RecvHave port kmsg seqno)) -> exists c' w', recv_finish port kmsg seqno w = Some (c', w').
Proof.
  intros Hpc. destruct (carried_known th port kmsg) as ([k Hk] & [p Hp] & _); [by rewrite Hpc|].
  unfold recv_finish. erewrite bind_run; [|by apply kmsg_at_run].
  assert (exists w1, when (negb (ikm_marequest k =? IMAR_NULL))
    (emit (MarequestDestroy (ikm_marequest k));; update_kmsg kmsg (set_marequest IMAR_NULL)) w = Some (tt, w1)) as [w1 Hw1].
  { unfold when. destruct (negb _); [|by eexists]. rewrite run_bind. unfold emit, modify. cbn beta iota.
    unfold update_kmsg. erewrite bind_run; [by eexists|]. by apply kmsg_at_run. }
  erewrite bind_run; [|exact Hw1]. apply (finish_marequest _ _ _ _ Hk) in Hw1 as Ha.
  assert (Hp1 : w_ports w1 !! port = Some p) by (by rewrite (al_ports _ _ Ha)).
  erewrite bind_run; [|by apply port_at_run]. rewrite (port_active _ _ I _ _ Hp).
  destruct (wake_sender_run port p) with (w1 := w1) as [w' Hw']; [|done|done|].
  { intros s Hs. rewrite <- (blocked_view _ _ _ Hp) in Hs.
    apply (ai_blocked _ _ _ _ (ci_abs _ I) port) in Hs as [k' Hk']. simpl in Hk'.
    by destruct (act_blocked_inv _ _ _ _ _ Hk') as (? & ? & ? & _ & -> & _). }
  rewrite run_bind. rewrite run_bind. unfold set_port at 1, modify at 1.
  change (with_ports (<[port := ?x]> (w_ports w1)) w1) with (put_port port x w1). rewrite Hw'. by eexists _, _.
Qed.

Lemma send_try_run th port kmsg option time_out :
  pcs !! th = Some (Sending (SendTry port kmsg option time_out)) ->
  exists c' w', send_try th port kmsg option time_out w = Some (c', w').
Proof.
  intros Hpc. destruct (carried_known th port kmsg) as ([k Hk] & [p Hp] & _); [by rewrite Hpc|].
  destruct (ci_threads _ I th) as [t Ht]; [simpl; by rewrite Hpc|]. simpl in Ht.
  unfold send_try. erewrite bind_run; [|by apply port_at_run]. rewrite (port_active _ _ I _ _ Hp). simpl.
  erewrite bind_run; [|by apply kmsg_at_run]. destruct (may_send option p k).
  - rewrite (st_plain _ (ci_static _ I) _ _ Hk).
    destruct (send_deliver_run _ _ I port kmsg p k Hp Hk) as (? & ? & ? & ? & w' & _ & Hrun & _).
    rewrite run_bind, Hrun. by eexists _, _.
  - destruct (_ && _); [by eexists _, _|]. erewrite bind_run; [|by apply update_port_run].
    unfold update_thread. rewrite !run_bind. unfold thread_at. simpl. rewrite Ht. by eexists _, _.
Qed.

(** A thread that tries to send or holds a message can run. *)
Lemma active_runs th port kmsg :
  act_of w th (pcs !! th) = Trying port kmsg \/ act_of w th (pcs !! th) = Holding port kmsg ->
  exists d, pcs !! th = Some d /\ holds w th d kmsg /\ runs w th d.
Proof.
  intros Ha. assert (Hc : carries (act_of w th (pcs !! th)) = Some (port, kmsg)) by (by destruct Ha as [-> | ->]).
  destruct (pcs !! th) as [d|] eqn:Hpc; [|by destruct Ha]. exists d. split; [done|].
  split; [by eapply carries_holds|].
  pose proof (send_try_run th) as Hs. pose proof (recv_finish_run th) as Hr. rewrite Hpc in Hs, Hr.
  destruct d as [[P k o m|P k o m|mr]|[q o m tm|q o m tm|P k n|mr k n]]; simpl in *; try (by destruct Ha); eauto.
  - destruct (w_threads w !! th) as [t|] eqn:Ht; [|by destruct Ha]. unfold send_wake.
    rewrite run_bind, (thread_at_run _ _ _ Ht). destruct (_ =? _); [by eexists _, _|by destruct Ha].
  - destruct (w_threads w !! th) as [t|] eqn:Ht; [|by destruct Ha]. unfold recv_wake.
    rewrite run_bind, (thread_at_run _ _ _ Ht). destruct (ith_state t =? MACH_MSG_SUCCESS) eqn:Hst.
    + destruct (carried_known th port kmsg) as ([k Hk] & _); [by rewrite Hpc; simpl; rewrite Ht, Hst|].
      simpl in Hc. injection Hc as _ Hc. rewrite <- Hc in Hk.
      rewrite run_bind, (kmsg_at_run _ _ _ Hk). by eexists _, _.
    + destruct (_ =? MACH_RCV_IN_PROGRESS); by destruct Ha.
Qed.

Lemma holds_carries th d kmsg :
  pcs !! th = Some d -> holds w th d kmsg -> exists port, carries (act_of w th (pcs !! th)) = Some (port, kmsg).
Proof.
  intros Hpc Hh. destruct (ci_threads _ I th) as [t Ht]; [by eexists|]. simpl in Ht. rewrite Hpc.
  destruct d as [[P k o m|P k o m|mr]|[q o m tm|q o m tm|P k n|mr k n]]; simpl in *; try done; subst; rewrite ?Ht; eauto.
  - destruct (_ =? _); eauto.
  - destruct Hh as (t' & Ht' & Hst & Hk). simplify_eq. rewrite Hst. simpl. eauto.
Qed.

(** Only receivers hold messages that count. *)
Lemma holding_receives th port kmsg :
  act_of w th (pcs !! th) = Holding port kmsg <->
  exists d, pcs !! th = Some (Receiving d) /\ holds w th (Receiving d) kmsg /\ remote_of w kmsg = port.
Proof.
  split.
  - intros Hx. destruct (carried_known th port kmsg) as (_ & _ & Hr); [by rewrite Hx|].
    destruct (pcs !! th) as [[[]|d]|] eqn:Hpc; simpl in Hx; try done.
    + destruct (w_threads w !! th) as [t|]; [|done]. by destruct (_ =? _).
    + exists d. split; [done|]. split; [|done]. apply (carries_holds w th (Receiving d) port). simpl. by rewrite Hx.
  - intros (d & Hpc & Hh & Hr). destruct (holds_carries _ _ _ Hpc Hh) as [port' Hc].
    destruct (carried_known th port' kmsg Hc) as (_ & _ & Hr'). assert (port' = port) as -> by congruence.
    rewrite Hpc in *. destruct d as [q o m tm|q o m tm|P k n|mr k n]; simpl in *; try done.
    + destruct (w_threads w !! th) as [t|]; [|done]. destruct (_ =? _); [by injection Hc as -> ->|]. by destruct (_ =? _).
    + by injection Hc as -> ->.
Qed.

(** Whoever receives with a large enough buffer gets the first message. *)
Lemma recv_try_run self q option max_size time_out kmsg kmsgs :
  v_msgs w q = kmsg :: kmsgs -> size_of w kmsg <= max_size ->
  exists seqno w', recv_try self q option max_size time_out w = Some (RecvHave (remote_of w kmsg) kmsg seqno, w').
Proof.
  intros Hms Hsize.
  assert (Hkn : known kmsg) by (apply (ai_known _ _ _ _ (ci_abs _ I)); right; exists q; simpl; rewrite Hms; by left).
  apply (st_known _ (ci_static _ I)) in Hkn as [[k Hk] [p Hp]]. simpl in Hk, Hp.
  pose proof (st_dest _ (ci_static _ I) kmsg) as Hd. simpl in Hd. rewrite <- Hd in Hp by (by eexists).
  unfold v_msgs in Hms. destruct (v_mq w q) as [mq|] eqn:Hmq; [|done]. simpl in Hms.
  unfold recv_try. erewrite bind_run; [|by apply mqueue_at_run]. rewrite Hms.
  erewrite bind_run; [|by apply kmsg_at_run].
  assert (Hz : size_of w kmsg = msgh_size k) by (unfold size_of; by rewrite Hk).
  assert (Hr : remote_of w kmsg = msgh_remote_port k) by (unfold remote_of; by rewrite Hk).
  destruct (Z.ltb_spec max_size (msgh_size k)); [lia|].
  erewrite bind_run; [|apply set_mqueue_run; by eexists]. rewrite Hr in *.
  assert (Hp' : is_Some (w_ports (put_mq q (mk_mqueue kmsgs (imq_threads mq)) w) !! msgh_remote_port k)).
  { pose proof (sk_ports _ _ (skeleton_put_mq w q (mk_mqueue kmsgs (imq_threads mq))) (msgh_remote_port k)) as Hsk.
    rewrite Hp in Hsk. by destruct (w_ports (put_mq _ _ _) !! _); [eexists|]. }
  destruct Hp' as [p' Hp']. erewrite bind_run; [|by apply port_at_run]. by eexists _, _.
Qed.
End progress.
End config.

(** ** Where it starts

    Nobody sends or receives and no message is queued; ports may be members of
    port sets. *)

Record fresh_world (w : world) : Prop := {
  fw_port port p : w_ports w !! port = Some p ->
    ip_active p = true /\ ip_blocked p = [] /\ ip_msgcount p = 0 /\ u32_range (ip_qlimit p) /\
    ip_messages p = ipc_mqueue_init /\ (ip_pset p <> IPS_NULL -> is_Some (w_psets w !! ip_pset p));
  fw_pset pset s : w_psets w !! pset = Some s -> ips_messages s = ipc_mqueue_init;
  fw_size : Z.of_nat (size (w_kmsgs w)) <= u32_max
}.

(** No message would make a circle of receive rights. *)
Definition no_circular (w : world) : Prop :=
  forall kmsg k, w_kmsgs w !! kmsg = Some k -> has (msgh_bits k) MACH_MSGH_BITS_CIRCULAR = false.

Definition dest_in (w : world) : Z -> Z := remote_of w.
Definition qof_in (w : world) (port : Z) : mq_ref :=
  match w_ports w !! port with Some p => queue_of port p | None => PortQueue port end.
Definition known_in (w : world) (kmsg : Z) : Prop :=
  is_Some (w_kmsgs w !! kmsg) /\ is_Some (w_ports w !! remote_of w kmsg).

Lemma fresh_views w :
  fresh_world w -> (forall port, v_blocked w port = [] /\ v_count w port = 0 /\ u32_range (v_limit w port)) /\
  (forall q, v_msgs w q = [] /\ v_rcvs w q = []).
Proof.
  intros [Fp Fs _]. split.
  - intros port. unfold v_blocked, v_count, v_limit. destruct (w_ports w !! port) as [p|] eqn:Hp; simpl.
    + destruct (Fp _ _ Hp) as (_ & ? & ? & ? & _). done.
    + split_and!; try done.
  - unfold v_msgs, v_rcvs. intros [P|S]; simpl.
    + destruct (w_ports w !! P) as [p|] eqn:Hp; simpl; [|done]. by destruct (Fp _ _ Hp) as (_ & _ & _ & _ & -> & _).
    + destruct (w_psets w !! S) as [p|] eqn:Hp; simpl; [|done]. by rewrite (Fs _ _ Hp).
Qed.

Lemma fresh_cinv w :
  fresh_world w -> no_circular w -> cinv (dest_in w) (qof_in w) (known_in w) (mk_config w ∅).
Proof.
  intros F Hnc. destruct (fresh_views w F) as [Vp Vq]. destruct F as [Fp Fs Fz]. split.
  - split; simpl.
    + intros port. destruct (Vp port) as [-> _]. split; [apply NoDup_nil_2|]. intros th. rewrite lookup_empty. simpl.
      split; [by intros ?%elem_of_nil|]. by intros [].
    + intros q. destruct (Vq q) as [_ ->]. split; [apply NoDup_nil_2|]. intros th. rewrite lookup_empty. simpl.
      split; [by intros ?%elem_of_nil|done].
    + intros q _. apply Vq.
    + intros q. destruct (Vq q) as [-> _]. split; [apply NoDup_nil_2|]. by intros k ?%elem_of_nil.
    + intros th port k. by rewrite lookup_empty.
    + intros k [(th & port & Hc)|[q Hq]]; simpl in *; [by rewrite lookup_empty in Hc|].
      destruct (Vq q) as [Hn _]. rewrite Hn in Hq. by apply elem_of_nil in Hq.
    + intros port. exists ∅. destruct (Vp port) as (_ & -> & _). split; [|by rewrite size_empty].
      intros k. split; [set_solver|]. intros [_ [Hin|[th Hth]]]; simpl in *; [|by rewrite lookup_empty in Hth].
      destruct (Vq (qof_in w port)) as [Hn _]. rewrite Hn in Hin. by apply elem_of_nil in Hin.
    + intros port. apply Vp.
    + intros port. by destruct (Vp port) as [-> _].
  - split; simpl; try done.
    + intros port p Hp. unfold qof_in. rewrite Hp. destruct (Fp _ _ Hp). done.
    + intros port [p Hp]. unfold qof_in. rewrite Hp. unfold queue_of.
      destruct (Z.eqb_spec (ip_pset p) IPS_NULL) as [|Hn]; simpl; [by rewrite Hp|].
      destruct (Fp _ _ Hp) as (_ & _ & _ & _ & _ & Hs). destruct (Hs Hn) as [s ->]. by eexists.
  - intros th [d Hd]. simpl in Hd. by rewrite lookup_empty in Hd.
Qed.
