(* ===== verification/Right.v ===== *)
(** * Rights (ipc/ipc_right.c)

    The operations on the rights a space holds: what happens to the entry, to
    the port and to its counts of send and send-once rights when a right is
    copied in from a space, copied out to it, deallocated, renamed, or found
    to be dead.

    The code reaches the space only through the entry and reverse-hash
    routines; [NameSpace] is that interface, and every function here is
    written against it.  The space lock and the port locks are held
    throughout, but for [ipc_right_dnrequest], which drops them to allocate
    memory.  The calls to the message-accepted requests and to the
    notification routines are events. *)

From S2P Require Import Prelude Names Splay Table Space Hash Entry World Port.

Definition MACH_MSG_TYPE_MOVE_RECEIVE : Z := 16.
Definition MACH_MSG_TYPE_MOVE_SEND : Z := 17.
Definition MACH_MSG_TYPE_MOVE_SEND_ONCE : Z := 18.
Definition MACH_MSG_TYPE_COPY_SEND : Z := 19.
Definition MACH_MSG_TYPE_MAKE_SEND : Z := 20.
Definition MACH_MSG_TYPE_MAKE_SEND_ONCE : Z := 21.
Definition MACH_MSG_TYPE_PORT_RECEIVE : Z := MACH_MSG_TYPE_MOVE_RECEIVE.
Definition MACH_MSG_TYPE_PORT_SEND : Z := MACH_MSG_TYPE_MOVE_SEND.
Definition MACH_MSG_TYPE_PORT_SEND_ONCE : Z := MACH_MSG_TYPE_MOVE_SEND_ONCE.
Definition MSG_TYPE_PORT_ALL : Z := 5.
Definition MSG_TYPE_PORT : Z := 6.

(** ** The interface to a space *)

Class NameSpace (Sp : Type) := {
  ns_active : Sp -> bool;
  ns_lookup : Sp -> Z -> Sp * option entry_ref;
  ns_read : Sp -> entry_ref -> ipc_entry;
  ns_write : Sp -> entry_ref -> Z -> Z -> Z -> Sp;          (* bits, object, request *)
  ns_dealloc : Sp -> Z -> entry_ref -> Sp;
  ns_hash_lookup : Sp -> Z -> Sp * option (Z * entry_ref);
  ns_hash_insert : Sp -> Z -> Z -> entry_ref -> Sp;         (* object, name *)
  ns_hash_delete : Sp -> Z -> Z -> entry_ref -> Sp
}.

(** What the rest of the system does while [ipc_right_dnrequest] has dropped
    its locks, and whether [ip_lock_try] succeeds. *)
Record right_env (Sp : Type) := mk_right_env {
  re_alloc : nat -> option (Z * list ipc_port_request);
  re_other : world -> world;
  re_between : Sp * world -> Sp * world;
  re_trylock : bool
}.
Arguments mk_right_env {Sp}. Arguments re_alloc {Sp}. Arguments re_other {Sp}.
Arguments re_between {Sp}. Arguments re_trylock {Sp}.

Section right.
Context {Sp : Type} `{NameSpace Sp}.
(** The address of the space, its notify port, and the environment. *)
Context (addr is_notify : Z) (env : right_env Sp).

Abbreviation sys := (Sp * world)%type.

Definition on_world {A} (m : M world A) : M sys A := fun st =>
  match m st.2 with Some (x, w) => Some (x, (st.1, w)) | None => None end.
Definition on_space (f : Sp -> Sp) : M sys unit := modify (fun st => (f st.1, st.2)).
Definition of_space {A} (f : Sp -> Sp * A) : M sys A := fun st =>
  let '(s, x) := f st.1 in Some (x, (s, st.2)).

Definition ie_read (r : entry_ref) : M sys ipc_entry := gets (fun st => ns_read st.1 r).
Definition ie_write (r : entry_ref) (f : ipc_entry -> ipc_entry) : M sys unit :=
  e ← ie_read r;
  on_space (fun s => ns_write s r (ie_bits (f e)) (ie_object (f e)) (ie_request (f e))).

Definition entry_dealloc (name : Z) (r : entry_ref) : M sys unit :=
  on_space (fun s => ns_dealloc s name r).
Definition hash_insert (object name : Z) (r : entry_ref) : M sys unit :=
  on_space (fun s => ns_hash_insert s object name r).
Definition hash_delete (object name : Z) (r : entry_ref) : M sys unit :=
  on_space (fun s => ns_hash_delete s object name r).

Definition marequest_cancel (bits name : Z) : M sys unit :=
  when (has bits IE_BITS_MAREQUEST) (on_world (emit (MarequestCancel name))).
Definition notify_port_deleted (dnrequest name : Z) : M sys unit :=
  when (negb (dnrequest =? IP_NULL)) (on_world (emit (NotifyPortDeleted dnrequest name))).

(** ** Finding entries *)

Definition ipc_right_lookup_write (name : Z) : M sys (kern_return * option entry_ref) :=
  active ← gets (fun st => ns_active st.1);
  if negb active then mret (KERN_INVALID_TASK, None)
  else
    r ← of_space (fun s => ns_lookup s name);
    mret (match r with None => (KERN_INVALID_NAME, None) | Some r => (KERN_SUCCESS, Some r) end).

(** [None] is FALSE. *)
Definition ipc_right_reverse (port : Z) : M sys (option (Z * entry_ref)) :=
  p ← on_world (port_at port);
  if negb (ip_active p) then mret None
  else if ip_receiver p =? addr then
    r ← of_space (fun s => ns_lookup s (ip_receiver_name p));
    match r with Some r => mret (Some (ip_receiver_name p, r)) | None => crash end
  else of_space (fun s => ns_hash_lookup s port).

(** ** Dead names *)

Definition ipc_right_dncancel (port name : Z) (entry : entry_ref) : M sys Z :=
  e ← ie_read entry;
  dnrequest ← on_world (ipc_port_dncancel port name (ie_request e));
  ie_write entry (set_request 0);;
  if has (ie_bits e) IE_BITS_COMPAT then on_world (emit SpaceRelease);; mret IP_NULL
  else mret dnrequest.

Definition ipc_right_dncancel_macro (port name : Z) (entry : entry_ref) : M sys Z :=
  e ← ie_read entry;
  if ie_request e =? 0 then mret IP_NULL else ipc_right_dncancel port name entry.

(** The entry of a compat right that died is as good as new. *)
Definition ipc_right_inuse (name : Z) (entry : entry_ref) : M sys bool :=
  e ← ie_read entry;
  let bits := ie_bits e in
  let type := IE_BITS_TYPE bits in
  if negb (type =? MACH_PORT_TYPE_NONE) then
    if has bits IE_BITS_COMPAT &&
       ((type =? MACH_PORT_TYPE_SEND) || (type =? MACH_PORT_TYPE_SEND_ONCE)) then
      let port := ie_object e in
      p ← on_world (port_at port);
      if negb (ip_active p) then
        when (type =? MACH_PORT_TYPE_SEND)
          (marequest_cancel bits name;; hash_delete port name entry);;
        on_world (ipc_port_release port);;
        ie_write entry (set_request 0);;
        ie_write entry (set_object IO_NULL);;
        ie_write entry (fun e => set_bits (clear (ie_bits e) IE_BITS_RIGHT_MASK) e);;
        mret false
      else mret true
    else mret true
  else mret false.

Definition ipc_right_check (port name : Z) (entry : entry_ref) : M sys bool :=
  p ← on_world (port_at port);
  if ip_active p then mret false
  else
    e ← ie_read entry;
    let bits := ie_bits e in
    bits ←
      (if has bits MACH_PORT_TYPE_SEND then
         marequest_cancel bits name;;
         hash_delete port name entry;;
         mret (if has bits IE_BITS_MAREQUEST then clear bits IE_BITS_MAREQUEST else bits)
       else mret bits);
    on_world (ipc_port_release port);;
    if has bits IE_BITS_COMPAT then
      ie_write entry (set_request 0);;
      ie_write entry (set_object IO_NULL);;
      entry_dealloc name entry;;
      mret true
    else
      let bits := Z.lor (clear bits IE_BITS_TYPE_MASK) MACH_PORT_TYPE_DEAD_NAME in
      e ← ie_read entry;
      bits ←
        (if negb (ie_request e =? 0) then ie_write entry (set_request 0);; mret (u32 (bits + 1))
         else mret bits);
      ie_write entry (set_bits bits);;
      ie_write entry (set_object IO_NULL);;
      mret true.

(** The loop goes round after growing the port's table of requests. *)
Fixpoint ipc_right_dnrequest (fuel : nat) (name : Z) (immediate : bool) (notify : Z)
    : M sys (kern_return * Z) :=
  match fuel with
  | O => crash
  | S fuel =>
    r ← ipc_right_lookup_write name;
    match r with
    | (kr, None) => mret (kr, IP_NULL)
    | (_, Some entry) =>
      e ← ie_read entry;
      let bits := ie_bits e in
      let port := ie_object e in
      let not_alive (bits : Z) : M sys (kern_return * Z) :=
        if has bits MACH_PORT_TYPE_DEAD_NAME && immediate && negb (notify =? IP_NULL) then
          if MACH_PORT_UREFS_OVERFLOW (IE_BITS_UREFS bits) 1 then mret (KERN_UREFS_OVERFLOW, IP_NULL)
          else
            ie_write entry (set_bits (u32 (bits + 1)));;
            on_world (emit (NotifyDeadName notify name));;
            mret (KERN_SUCCESS, IP_NULL)
        else if has bits MACH_PORT_TYPE_PORT_OR_DEAD then mret (KERN_INVALID_ARGUMENT, IP_NULL)
        else mret (KERN_INVALID_RIGHT, IP_NULL) in
      if has bits MACH_PORT_TYPE_PORT_RIGHTS then
        dead ← ipc_right_check port name entry;
        if negb dead then
          if notify =? IP_NULL then
            previous ← (if has bits IE_BITS_COMPAT then mret IP_NULL
                        else ipc_right_dncancel_macro port name entry);
            mret (KERN_SUCCESS, previous)
          else
            previous ← ipc_right_dncancel_macro port name entry;
            request ← on_world (ipc_port_dnrequest port name notify);
            match request with
            | None =>
              kr ← on_world (ipc_port_dngrow port (re_alloc env) (re_other env));
              match kr with
              | KERN_SUCCESS =>
                modify (re_between env);; ipc_right_dnrequest fuel name immediate notify
              | kr => mret (kr, IP_NULL)
              end
            | Some request =>
              ie_write entry (set_request request);;
              ie_write entry (set_bits (clear bits IE_BITS_COMPAT));;
              mret (KERN_SUCCESS, previous)
            end
        else if has bits IE_BITS_COMPAT then mret (KERN_INVALID_NAME, IP_NULL)
        else e ← ie_read entry; not_alive (ie_bits e)
      else not_alive bits
    end
  end.

(** ** Destroying rights *)

(** What happens to the port when an entry of type [type] goes away. *)
Definition release_rights (type port : Z) : M sys (Z * Z) :=
  ns ← (if has type MACH_PORT_TYPE_SEND then on_world (drop_send_right port) else mret (IP_NULL, 0));
  (if has type MACH_PORT_TYPE_RECEIVE then
     on_world (ipc_port_clear_receiver port);;
     on_world (ipc_port_destroy (re_trylock env) port)
   else if has type MACH_PORT_TYPE_SEND_ONCE then on_world (emit (NotifySendOnce port))
   else on_world (ip_release port));;
  mret ns.

Definition is_port_type (type : Z) : bool :=
  (type =? MACH_PORT_TYPE_SEND) || (type =? MACH_PORT_TYPE_RECEIVE) ||
  (type =? MACH_PORT_TYPE_SEND_RECEIVE) || (type =? MACH_PORT_TYPE_SEND_ONCE).

Definition ipc_right_clean (name : Z) (entry : entry_ref) : M sys unit :=
  e ← ie_read entry;
  let type := IE_BITS_TYPE (ie_bits e) in
  if type =? MACH_PORT_TYPE_DEAD_NAME then mret tt
  else if type =? MACH_PORT_TYPE_PORT_SET then on_world (ipc_pset_destroy (ie_object e))
  else if is_port_type type then
    let port := ie_object e in
    p ← on_world (port_at port);
    if negb (ip_active p) then on_world (ipc_port_release port)
    else
      dnrequest ← ipc_right_dncancel_macro port name entry;
      ns ← release_rights type port;
      on_world (notify_no_senders ns);;
      notify_port_deleted dnrequest name
  else crash.

Definition ipc_right_destroy (name : Z) (entry : entry_ref) : M sys kern_return :=
  e ← ie_read entry;
  let bits := ie_bits e in
  let type := IE_BITS_TYPE bits in
  if type =? MACH_PORT_TYPE_DEAD_NAME then entry_dealloc name entry;; mret KERN_SUCCESS
  else if type =? MACH_PORT_TYPE_PORT_SET then
    ie_write entry (set_object IO_NULL);;
    entry_dealloc name entry;;
    on_world (ipc_pset_destroy (ie_object e));;
    mret KERN_SUCCESS
  else if is_port_type type then
    let port := ie_object e in
    marequest_cancel bits name;;
    when (type =? MACH_PORT_TYPE_SEND) (hash_delete port name entry);;
    p ← on_world (port_at port);
    if negb (ip_active p) then
      on_world (ipc_port_release port);;
      ie_write entry (set_request 0);;
      ie_write entry (set_object IO_NULL);;
      entry_dealloc name entry;;
      mret (if has bits IE_BITS_COMPAT then KERN_INVALID_NAME else KERN_SUCCESS)
    else
      dnrequest ← ipc_right_dncancel_macro port name entry;
      ie_write entry (set_object IO_NULL);;
      entry_dealloc name entry;;
      ns ← release_rights type port;
      on_world (notify_no_senders ns);;
      notify_port_deleted dnrequest name;;
      mret KERN_SUCCESS
  else crash.

(** ** User references *)

(** [dead_name:] in [ipc_right_dealloc]. *)
Definition dealloc_dead_name (name bits : Z) (entry : entry_ref) : M sys kern_return :=
  (if IE_BITS_UREFS bits =? 1 then entry_dealloc name entry
   else ie_write entry (set_bits (u32 (bits - 1))));;
  mret KERN_SUCCESS.

(** The last user reference to a pure send right: the right leaves the space. *)
Definition dealloc_last_send (port name bits : Z) (entry : entry_ref) : M sys Z :=
  dnrequest ← ipc_right_dncancel_macro port name entry;
  hash_delete port name entry;;
  marequest_cancel bits name;;
  on_world (ip_release port);;
  ie_write entry (set_object IO_NULL);;
  entry_dealloc name entry;;
  mret dnrequest.

(** A send-once right leaves the space and is used up by a notification. *)
Definition dealloc_send_once (port name : Z) (entry : entry_ref) : M sys kern_return :=
  dnrequest ← ipc_right_dncancel_macro port name entry;
  ie_write entry (set_object IO_NULL);;
  entry_dealloc name entry;;
  on_world (emit (NotifySendOnce port));;
  notify_port_deleted dnrequest name;;
  mret KERN_SUCCESS.

Definition ipc_right_dealloc (name : Z) (entry : entry_ref) : M sys kern_return :=
  e ← ie_read entry;
  let bits := ie_bits e in
  let type := IE_BITS_TYPE bits in
  let port := ie_object e in
  if type =? MACH_PORT_TYPE_DEAD_NAME then dealloc_dead_name name bits entry
  else if (type =? MACH_PORT_TYPE_SEND_ONCE) || (type =? MACH_PORT_TYPE_SEND) then
    dead ← ipc_right_check port name entry;
    if (dead : bool) then
      if has bits IE_BITS_COMPAT then mret KERN_INVALID_NAME
      else e ← ie_read entry; dealloc_dead_name name (ie_bits e) entry
    else if type =? MACH_PORT_TYPE_SEND_ONCE then dealloc_send_once port name entry
    else if IE_BITS_UREFS bits =? 1 then
      ns ← on_world (drop_send_right port);
      dnrequest ← dealloc_last_send port name bits entry;
      on_world (notify_no_senders ns);;
      notify_port_deleted dnrequest name;;
      mret KERN_SUCCESS
    else ie_write entry (set_bits (u32 (bits - 1)));; mret KERN_SUCCESS
  else if type =? MACH_PORT_TYPE_SEND_RECEIVE then
    on_world (port_at port);;
    if IE_BITS_UREFS bits =? 1 then
      ns ← on_world (drop_send_right port);
      ie_write entry (set_bits (clear bits (Z.lor IE_BITS_UREFS_MASK MACH_PORT_TYPE_SEND)));;
      on_world (notify_no_senders ns);;
      mret KERN_SUCCESS
    else ie_write entry (set_bits (u32 (bits - 1)));; mret KERN_SUCCESS
  else mret KERN_INVALID_RIGHT.

Definition delta_port_set (name delta : Z) (entry : entry_ref) (e : ipc_entry) : M sys kern_return :=
  if negb (has (ie_bits e) MACH_PORT_TYPE_PORT_SET) then mret KERN_INVALID_RIGHT
  else if delta =? 0 then mret KERN_SUCCESS
  else if negb (delta =? -1) then mret KERN_INVALID_VALUE
  else
    ie_write entry (set_object IO_NULL);;
    entry_dealloc name entry;;
    on_world (ipc_pset_destroy (ie_object e));;
    mret KERN_SUCCESS.

(** Destroying the receive right turns a send right held beside it into a
    dead name. *)
Definition delta_receive (name delta : Z) (entry : entry_ref) (e : ipc_entry) : M sys kern_return :=
  let bits := ie_bits e in
  if negb (has bits MACH_PORT_TYPE_RECEIVE) then mret KERN_INVALID_RIGHT
  else if delta =? 0 then mret KERN_SUCCESS
  else if negb (delta =? -1) then mret KERN_INVALID_VALUE
  else
    marequest_cancel bits name;;
    let bits := if has bits IE_BITS_MAREQUEST then clear bits IE_BITS_MAREQUEST else bits in
    let port := ie_object e in
    dnrequest ←
      (if has bits IE_BITS_COMPAT then
         dnrequest ← ipc_right_dncancel port name entry;
         ie_write entry (set_object IO_NULL);;
         entry_dealloc name entry;;
         mret dnrequest
       else if has bits MACH_PORT_TYPE_SEND then
         let bits := Z.lor (clear bits IE_BITS_TYPE_MASK) MACH_PORT_TYPE_DEAD_NAME in
         bits ←
           (if negb (ie_request e =? 0) then ie_write entry (set_request 0);; mret (u32 (bits + 1))
            else mret bits);
         ie_write entry (set_bits bits);;
         ie_write entry (set_object IO_NULL);;
         mret IP_NULL
       else
         dnrequest ← ipc_right_dncancel_macro port name entry;
         ie_write entry (set_object IO_NULL);;
         entry_dealloc name entry;;
         mret dnrequest);
    on_world (ipc_port_clear_receiver port);;
    on_world (ipc_port_destroy (re_trylock env) port);;
    notify_port_deleted dnrequest name;;
    mret KERN_SUCCESS.

Definition delta_send_once (name delta : Z) (entry : entry_ref) (e : ipc_entry) : M sys kern_return :=
  let bits := ie_bits e in
  let port := ie_object e in
  if negb (has bits MACH_PORT_TYPE_SEND_ONCE) then mret KERN_INVALID_RIGHT
  else if (0 <? delta) || (delta <? -1) then mret KERN_INVALID_VALUE
  else
    dead ← ipc_right_check port name entry;
    if (dead : bool) then
      if has bits IE_BITS_COMPAT then mret KERN_INVALID_NAME else mret KERN_INVALID_RIGHT
    else if delta =? 0 then mret KERN_SUCCESS
    else dealloc_send_once port name entry.

Definition delta_dead_urefs (name delta bits : Z) (entry : entry_ref) : M sys kern_return :=
  let urefs := IE_BITS_UREFS bits in
  if MACH_PORT_UREFS_UNDERFLOW urefs delta then mret KERN_INVALID_VALUE
  else if MACH_PORT_UREFS_OVERFLOW urefs delta then mret KERN_UREFS_OVERFLOW
  else
    (if u32 (urefs + delta) =? 0 then entry_dealloc name entry
     else ie_write entry (set_bits (u32 (bits + delta))));;
    mret KERN_SUCCESS.

Definition delta_dead_name (name delta : Z) (entry : entry_ref) (e : ipc_entry) : M sys kern_return :=
  let bits := ie_bits e in
  if has bits MACH_PORT_TYPE_SEND_RIGHTS then
    dead ← ipc_right_check (ie_object e) name entry;
    if negb dead then mret KERN_INVALID_RIGHT
    else if has bits IE_BITS_COMPAT then mret KERN_INVALID_NAME
    else e ← ie_read entry; delta_dead_urefs name delta (ie_bits e) entry
  else if negb (has bits MACH_PORT_TYPE_DEAD_NAME) then mret KERN_INVALID_RIGHT
  else delta_dead_urefs name delta bits entry.

(** A send right has at most [MACH_PORT_UREFS_MAX - 1] user references. *)
Definition delta_send (name delta : Z) (entry : entry_ref) (e : ipc_entry) : M sys kern_return :=
  let bits := ie_bits e in
  let port := ie_object e in
  if negb (has bits MACH_PORT_TYPE_SEND) then mret KERN_INVALID_RIGHT
  else
    let urefs := IE_BITS_UREFS bits in
    if MACH_PORT_UREFS_UNDERFLOW urefs delta then mret KERN_INVALID_VALUE
    else if MACH_PORT_UREFS_OVERFLOW (urefs + 1) delta then mret KERN_UREFS_OVERFLOW
    else
      dead ← ipc_right_check port name entry;
      if (dead : bool) then
        if has bits IE_BITS_COMPAT then mret KERN_INVALID_NAME else mret KERN_INVALID_RIGHT
      else if u32 (urefs + delta) =? 0 then
        ns ← on_world (drop_send_right port);
        dnrequest ←
          (if has bits MACH_PORT_TYPE_RECEIVE then
             ie_write entry (set_bits (clear bits (Z.lor IE_BITS_UREFS_MASK MACH_PORT_TYPE_SEND)));;
             mret IP_NULL
           else dealloc_last_send port name bits entry);
        on_world (notify_no_senders ns);;
        notify_port_deleted dnrequest name;;
        mret KERN_SUCCESS
      else ie_write entry (set_bits (u32 (bits + delta)));; mret KERN_SUCCESS.

Definition ipc_right_delta (name : Z) (entry : entry_ref) (right delta : Z) : M sys kern_return :=
  e ← ie_read entry;
  if right =? MACH_PORT_RIGHT_PORT_SET then delta_port_set name delta entry e
  else if right =? MACH_PORT_RIGHT_RECEIVE then delta_receive name delta entry e
  else if right =? MACH_PORT_RIGHT_SEND_ONCE then delta_send_once name delta entry e
  else if right =? MACH_PORT_RIGHT_DEAD_NAME then delta_dead_name name delta entry e
  else if right =? MACH_PORT_RIGHT_SEND then delta_send name delta entry e
  else crash.

(** [(kr, type, urefs)]. *)
Definition ipc_right_info (name : Z) (entry : entry_ref) : M sys (kern_return * Z * Z) :=
  e ← ie_read entry;
  let bits := ie_bits e in
  let info (bits : Z) : M sys (kern_return * Z * Z) :=
    e ← ie_read entry;
    let type := IE_BITS_TYPE bits in
    let type :=
      if has bits IE_BITS_COMPAT then Z.lor type MACH_PORT_TYPE_COMPAT
      else if negb (ie_request e =? 0) then Z.lor type MACH_PORT_TYPE_DNREQUEST else type in
    let type := if has bits IE_BITS_MAREQUEST then Z.lor type MACH_PORT_TYPE_MAREQUEST else type in
    mret (KERN_SUCCESS, type, IE_BITS_UREFS bits) in
  if has bits MACH_PORT_TYPE_SEND_RIGHTS then
    dead ← ipc_right_check (ie_object e) name entry;
    if (dead : bool) then
      if has bits IE_BITS_COMPAT then mret (KERN_INVALID_NAME, 0, 0)
      else e ← ie_read entry; info (ie_bits e)
    else info bits
  else info bits.

(** ** Copyin: taking a right out of a space *)

Definition takes_receive (msgt_name : Z) : bool :=
  (msgt_name =? MACH_MSG_TYPE_MAKE_SEND) || (msgt_name =? MACH_MSG_TYPE_MAKE_SEND_ONCE) ||
  (msgt_name =? MACH_MSG_TYPE_MOVE_RECEIVE).

Definition takes_send (msgt_name : Z) : bool :=
  (msgt_name =? MACH_MSG_TYPE_COPY_SEND) || (msgt_name =? MACH_MSG_TYPE_MOVE_SEND) ||
  (msgt_name =? MACH_MSG_TYPE_MOVE_SEND_ONCE).

Definition ipc_right_copyin_check (name : Z) (entry : entry_ref) (msgt_name : Z) : M sys bool :=
  e ← ie_read entry;
  let bits := ie_bits e in
  if takes_receive msgt_name then mret (has bits MACH_PORT_TYPE_RECEIVE)
  else if takes_send msgt_name then
    if has bits MACH_PORT_TYPE_DEAD_NAME then mret true
    else if negb (has bits MACH_PORT_TYPE_SEND_RIGHTS) then mret false
    else
      p ← on_world (port_at (ie_object e));
      if negb (ip_active p) then mret (negb (has bits IE_BITS_COMPAT))
      else if msgt_name =? MACH_MSG_TYPE_MOVE_SEND_ONCE then mret (has bits MACH_PORT_TYPE_SEND_ONCE)
      else mret (has bits MACH_PORT_TYPE_SEND)
  else crash.

(** The result of a copyin: the object and the send-once right to notify with. *)
Definition copied : Type := kern_return * Z * Z.
Definition copyin_fails (kr : kern_return) : M sys copied := mret (kr, IO_NULL, IP_NULL).

Definition copy_dead (deadok : bool) : M sys copied :=
  if negb deadok then copyin_fails KERN_INVALID_RIGHT else mret (KERN_SUCCESS, IO_DEAD, IP_NULL).

Definition move_dead (deadok : bool) (bits : Z) (entry : entry_ref) : M sys copied :=
  if negb deadok then copyin_fails KERN_INVALID_RIGHT
  else
    (if IE_BITS_UREFS bits =? 1 then ie_write entry (set_bits (clear bits MACH_PORT_TYPE_DEAD_NAME))
     else ie_write entry (set_bits (u32 (bits - 1))));;
    mret (KERN_SUCCESS, IO_DEAD, IP_NULL).

Definition copyin_make_send (entry : entry_ref) (e : ipc_entry) : M sys copied :=
  let port := ie_object e in
  if negb (has (ie_bits e) MACH_PORT_TYPE_RECEIVE) then copyin_fails KERN_INVALID_RIGHT
  else
    on_world (update_port port (fun p => set_ip_srights (u32 (ip_srights p + 1))
                                           (set_ip_mscount (u32 (ip_mscount p + 1)) p)));;
    on_world (ip_reference port);;
    mret (KERN_SUCCESS, port, IP_NULL).

Definition copyin_make_send_once (entry : entry_ref) (e : ipc_entry) : M sys copied :=
  let port := ie_object e in
  if negb (has (ie_bits e) MACH_PORT_TYPE_RECEIVE) then copyin_fails KERN_INVALID_RIGHT
  else
    on_world (update_port port (fun p => set_ip_sorights (u32 (ip_sorights p + 1)) p));;
    on_world (ip_reference port);;
    mret (KERN_SUCCESS, port, IP_NULL).

(** The receive right is in no space: [ip_receiver_name] and
    [ip_destination] say so. *)
Definition no_receiver (p : ipc_port) : ipc_port :=
  set_ip_data IP_NULL (set_ip_receiver_name MACH_PORT_NULL p).

Definition copyin_move_receive (name : Z) (entry : entry_ref) (e : ipc_entry) : M sys copied :=
  let bits := ie_bits e in
  let port := ie_object e in
  if negb (has bits MACH_PORT_TYPE_RECEIVE) then copyin_fails KERN_INVALID_RIGHT
  else
    on_world (port_at port);;
    dnrequest ←
      (if has bits MACH_PORT_TYPE_SEND then
         hash_insert port name entry;;
         on_world (ip_reference port);;
         mret IP_NULL
       else
         dnrequest ← ipc_right_dncancel_macro port name entry;
         marequest_cancel bits name;;
         ie_write entry (set_object IO_NULL);;
         mret dnrequest);
    ie_write entry (set_bits (clear bits MACH_PORT_TYPE_RECEIVE));;
    on_world (ipc_port_clear_receiver port);;
    on_world (update_port port no_receiver);;
    mret (KERN_SUCCESS, port, dnrequest).

Definition copyin_copy_send (name : Z) (deadok : bool) (entry : entry_ref) (e : ipc_entry)
    : M sys copied :=
  let bits := ie_bits e in
  let port := ie_object e in
  if has bits MACH_PORT_TYPE_DEAD_NAME then copy_dead deadok
  else if negb (has bits MACH_PORT_TYPE_SEND_RIGHTS) then copyin_fails KERN_INVALID_RIGHT
  else
    dead ← ipc_right_check port name entry;
    if (dead : bool) then
      if has bits IE_BITS_COMPAT then copyin_fails KERN_INVALID_NAME else copy_dead deadok
    else if negb (has bits MACH_PORT_TYPE_SEND) then copyin_fails KERN_INVALID_RIGHT
    else
      on_world (update_port port (fun p => set_ip_srights (u32 (ip_srights p + 1)) p));;
      on_world (ip_reference port);;
      mret (KERN_SUCCESS, port, IP_NULL).

Definition copyin_move_send (name : Z) (deadok : bool) (entry : entry_ref) (e : ipc_entry)
    : M sys copied :=
  let bits := ie_bits e in
  let port := ie_object e in
  if has bits MACH_PORT_TYPE_DEAD_NAME then move_dead deadok bits entry
  else if negb (has bits MACH_PORT_TYPE_SEND_RIGHTS) then copyin_fails KERN_INVALID_RIGHT
  else
    dead ← ipc_right_check port name entry;
    if (dead : bool) then
      if has bits IE_BITS_COMPAT then copyin_fails KERN_INVALID_NAME
      else e ← ie_read entry; move_dead deadok (ie_bits e) entry
    else if negb (has bits MACH_PORT_TYPE_SEND) then copyin_fails KERN_INVALID_RIGHT
    else if IE_BITS_UREFS bits =? 1 then
      dnrequest ←
        (if has bits MACH_PORT_TYPE_RECEIVE then on_world (ip_reference port);; mret IP_NULL
         else
           dnrequest ← ipc_right_dncancel_macro port name entry;
           hash_delete port name entry;;
           marequest_cancel bits name;;
           ie_write entry (set_object IO_NULL);;
           mret dnrequest);
      ie_write entry (set_bits (clear bits (Z.lor IE_BITS_UREFS_MASK MACH_PORT_TYPE_SEND)));;
      mret (KERN_SUCCESS, port, dnrequest)
    else
      on_world (update_port port (fun p => set_ip_srights (u32 (ip_srights p + 1)) p));;
      on_world (ip_reference port);;
      ie_write entry (set_bits (u32 (bits - 1)));;
      mret (KERN_SUCCESS, port, IP_NULL).

Definition copyin_move_send_once (name : Z) (deadok : bool) (entry : entry_ref) (e : ipc_entry)
    : M sys copied :=
  let bits := ie_bits e in
  let port := ie_object e in
  if has bits MACH_PORT_TYPE_DEAD_NAME then move_dead deadok bits entry
  else if negb (has bits MACH_PORT_TYPE_SEND_RIGHTS) then copyin_fails KERN_INVALID_RIGHT
  else
    dead ← ipc_right_check port name entry;
    if (dead : bool) then
      if has bits IE_BITS_COMPAT then copyin_fails KERN_INVALID_NAME
      else e ← ie_read entry; move_dead deadok (ie_bits e) entry
    else if negb (has bits MACH_PORT_TYPE_SEND_ONCE) then copyin_fails KERN_INVALID_RIGHT
    else
      dnrequest ← ipc_right_dncancel_macro port name entry;
      ie_write entry (set_object IO_NULL);;
      ie_write entry (set_bits (clear bits MACH_PORT_TYPE_SEND_ONCE));;
      mret (KERN_SUCCESS, port, dnrequest).

Definition ipc_right_copyin (name : Z) (entry : entry_ref) (msgt_name : Z) (deadok : bool)
    : M sys copied :=
  e ← ie_read entry;
  if msgt_name =? MACH_MSG_TYPE_MAKE_SEND then copyin_make_send entry e
  else if msgt_name =? MACH_MSG_TYPE_MAKE_SEND_ONCE then copyin_make_send_once entry e
  else if msgt_name =? MACH_MSG_TYPE_MOVE_RECEIVE then copyin_move_receive name entry e
  else if msgt_name =? MACH_MSG_TYPE_COPY_SEND then copyin_copy_send name deadok entry e
  else if msgt_name =? MACH_MSG_TYPE_MOVE_SEND then copyin_move_send name deadok entry e
  else if msgt_name =? MACH_MSG_TYPE_MOVE_SEND_ONCE then copyin_move_send_once name deadok entry e
  else crash.

(** [object] is [IO_DEAD] or a dead port. *)
Definition ipc_right_copyin_undo (name : Z) (entry : entry_ref) (msgt_name object soright : Z)
    : M sys unit :=
  e ← ie_read entry;
  let bits := ie_bits e in
  let dead urefs := Z.lor (Z.lor (clear bits IE_BITS_RIGHT_MASK) MACH_PORT_TYPE_DEAD_NAME) urefs in
  let incr : M sys unit :=
    when (negb (msgt_name =? MACH_MSG_TYPE_COPY_SEND)) (ie_write entry (set_bits (u32 (bits + 1)))) in
  (if negb (soright =? IP_NULL) then ie_write entry (set_bits (dead 2))
   else if IE_BITS_TYPE bits =? MACH_PORT_TYPE_NONE then ie_write entry (set_bits (dead 1))
   else if IE_BITS_TYPE bits =? MACH_PORT_TYPE_DEAD_NAME then incr
   else incr;; ipc_right_check object name entry;; mret tt);;
  when (negb (object =? IO_DEAD)) (on_world (ipc_port_release object)).

Definition ipc_right_copyin_two (name : Z) (entry : entry_ref) : M sys copied :=
  e ← ie_read entry;
  let bits := ie_bits e in
  let port := ie_object e in
  let urefs := IE_BITS_UREFS bits in
  if negb (has bits MACH_PORT_TYPE_SEND) then copyin_fails KERN_INVALID_RIGHT
  else if urefs <? 2 then copyin_fails KERN_INVALID_RIGHT
  else
    dead ← ipc_right_check port name entry;
    if (dead : bool) then
      if has bits IE_BITS_COMPAT then copyin_fails KERN_INVALID_NAME
      else copyin_fails KERN_INVALID_RIGHT
    else if urefs =? 2 then
      dnrequest ←
        (if has bits MACH_PORT_TYPE_RECEIVE then
           on_world (update_port port (fun p => set_ip_srights (u32 (ip_srights p + 1)) p));;
           on_world (ip_reference port);;
           on_world (ip_reference port);;
           mret IP_NULL
         else
           dnrequest ← ipc_right_dncancel_macro port name entry;
           hash_delete port name entry;;
           marequest_cancel bits name;;
           on_world (update_port port (fun p => set_ip_srights (u32 (ip_srights p + 1)) p));;
           on_world (ip_reference port);;
           ie_write entry (set_object IO_NULL);;
           mret dnrequest);
      ie_write entry (set_bits (clear bits (Z.lor IE_BITS_UREFS_MASK MACH_PORT_TYPE_SEND)));;
      mret (KERN_SUCCESS, port, dnrequest)
    else
      on_world (update_port port (fun p => set_ip_srights (u32 (ip_srights p + 2)) p));;
      on_world (ip_reference port);;
      on_world (ip_reference port);;
      ie_write entry (set_bits (u32 (bits - 2)));;
      mret (KERN_SUCCESS, port, IP_NULL).

(** ** Copyout: putting a right into a space *)

Definition copyout_send (name : Z) (entry : entry_ref) (overflow : bool) (port bits : Z)
    : M sys kern_return :=
  let add := ie_write entry (set_bits (u32 (Z.lor bits MACH_PORT_TYPE_SEND + 1)));; mret KERN_SUCCESS in
  let drop := on_world (update_port port (fun p => set_ip_srights (u32 (ip_srights p - 1)) p));;
              on_world (ip_release port) in
  if has bits MACH_PORT_TYPE_SEND then
    if IE_BITS_UREFS bits + 1 =? MACH_PORT_UREFS_MAX then
      if overflow then drop;; mret KERN_SUCCESS else mret KERN_UREFS_OVERFLOW
    else drop;; add
  else if has bits MACH_PORT_TYPE_RECEIVE then on_world (ip_release port);; add
  else hash_insert port name entry;; add.

Definition copyout_receive (name : Z) (entry : entry_ref) (port bits : Z) : M sys kern_return :=
  p ← on_world (port_at port);
  let dest := ip_destination p in
  on_world (update_port port (fun p => set_ip_data addr (set_ip_receiver_name name p)));;
  when (has bits MACH_PORT_TYPE_SEND)
    (on_world (ip_release port);; hash_delete port name entry);;
  ie_write entry (set_bits (Z.lor bits MACH_PORT_TYPE_RECEIVE));;
  when (negb (dest =? IP_NULL)) (on_world (ipc_port_release dest));;
  mret KERN_SUCCESS.

Definition ipc_right_copyout (name : Z) (entry : entry_ref) (msgt_name : Z) (overflow : bool)
    (port : Z) : M sys kern_return :=
  e ← ie_read entry;
  let bits := ie_bits e in
  if msgt_name =? MACH_MSG_TYPE_PORT_SEND_ONCE then
    ie_write entry (set_bits (Z.lor bits (Z.lor MACH_PORT_TYPE_SEND_ONCE 1)));; mret KERN_SUCCESS
  else if msgt_name =? MACH_MSG_TYPE_PORT_SEND then copyout_send name entry overflow port bits
  else if msgt_name =? MACH_MSG_TYPE_PORT_RECEIVE then copyout_receive name entry port bits
  else crash.

(** ** Renaming *)

Definition ipc_right_rename (oname : Z) (oentry : entry_ref) (nname : Z) (nentry : entry_ref)
    : M sys kern_return :=
  e ← ie_read oentry;
  let move (bits request object : Z) : M sys kern_return :=
    when (has bits IE_BITS_MAREQUEST) (on_world (emit (MarequestRename oname nname)));;
    ie_write nentry (fun n =>
      set_object object (set_request request
        (set_bits (Z.lor (ie_bits n) (Z.land bits IE_BITS_RIGHT_MASK)) n)));;
    let type := IE_BITS_TYPE bits in
    (if type =? MACH_PORT_TYPE_SEND then
       hash_delete object oname oentry;; hash_insert object nname nentry
     else if (type =? MACH_PORT_TYPE_RECEIVE) || (type =? MACH_PORT_TYPE_SEND_RECEIVE) then
       on_world (update_port object (set_ip_receiver_name nname))
     else if type =? MACH_PORT_TYPE_PORT_SET then
       on_world (update_pset object (set_ips_local_name nname))
     else if (type =? MACH_PORT_TYPE_SEND_ONCE) || (type =? MACH_PORT_TYPE_DEAD_NAME) then mret tt
     else crash);;
    ie_write oentry (set_object IO_NULL);;
    entry_dealloc oname oentry;;
    mret KERN_SUCCESS in
  let bits := ie_bits e in
  if negb (ie_request e =? 0) then
    dead ← ipc_right_check (ie_object e) oname oentry;
    if (dead : bool) then
      if has bits IE_BITS_COMPAT then entry_dealloc nname nentry;; mret KERN_INVALID_NAME
      else e ← ie_read oentry; move (ie_bits e) 0 IO_NULL
    else
      on_world (ipc_port_dnrename (ie_object e) (ie_request e) nname);;
      ie_write oentry (set_request 0);;
      move bits (ie_request e) (ie_object e)
  else move bits 0 (ie_object e).

(** ** Copyin for old message types (MACH_IPC_COMPAT) *)

Definition compat_fails (bits : Z) : M sys (kern_return * Z) :=
  mret (if has bits IE_BITS_COMPAT then KERN_INVALID_NAME else KERN_INVALID_RIGHT, IO_NULL).

(** MSG_TYPE_PORT with [dealloc]: pull a send right out of the space, leaving
    the space with no rights. *)
Definition compat_port_dealloc (name : Z) (entry : entry_ref) (e : ipc_entry)
    : M sys (kern_return * Z) :=
  let bits := ie_bits e in
  let port := ie_object e in
  if negb (IE_BITS_TYPE bits =? MACH_PORT_TYPE_SEND) then mret (KERN_INVALID_RIGHT, IO_NULL)
  else
    dead ← ipc_right_check port name entry;
    if (dead : bool) then compat_fails bits
    else
      dnrequest ← ipc_right_dncancel_macro port name entry;
      marequest_cancel bits name;;
      ie_write entry (set_object IO_NULL);;
      entry_dealloc name entry;;
      notify_port_deleted dnrequest name;;
      mret (KERN_SUCCESS, port).

Definition compat_port (name : Z) (entry : entry_ref) (e : ipc_entry) : M sys (kern_return * Z) :=
  let bits := ie_bits e in
  let port := ie_object e in
  if negb (has bits MACH_PORT_TYPE_SEND_RECEIVE) then mret (KERN_INVALID_RIGHT, IO_NULL)
  else
    dead ← ipc_right_check port name entry;
    if (dead : bool) then compat_fails bits
    else
      when (negb (has bits MACH_PORT_TYPE_SEND))
        (on_world (update_port port (fun p => set_ip_mscount (u32 (ip_mscount p + 1)) p)));;
      on_world (update_port port (fun p => set_ip_srights (u32 (ip_srights p + 1)) p));;
      on_world (ip_reference port);;
      mret (KERN_SUCCESS, port).

(** MSG_TYPE_PORT_ALL with [dealloc]: the space is left without rights. *)
Definition compat_all_dealloc (name : Z) (entry : entry_ref) (e : ipc_entry)
    : M sys (kern_return * Z) :=
  let bits := ie_bits e in
  let port := ie_object e in
  if negb (has bits MACH_PORT_TYPE_RECEIVE) then mret (KERN_INVALID_RIGHT, IO_NULL)
  else
    on_world (port_at port);;
    dnrequest ← ipc_right_dncancel_macro port name entry;
    marequest_cancel bits name;;
    ie_write entry (set_object IO_NULL);;
    entry_dealloc name entry;;
    ns ← (if has bits MACH_PORT_TYPE_SEND then on_world (drop_send_right port) else mret (IP_NULL, 0));
    on_world (ipc_port_clear_receiver port);;
    on_world (update_port port no_receiver);;
    on_world (notify_no_senders ns);;
    notify_port_deleted dnrequest name;;
    mret (KERN_SUCCESS, port).

(** MSG_TYPE_PORT_ALL: the space is left with a send right. *)
Definition compat_all (name : Z) (entry : entry_ref) (e : ipc_entry) : M sys (kern_return * Z) :=
  let bits := ie_bits e in
  let port := ie_object e in
  if negb (has bits MACH_PORT_TYPE_RECEIVE) then mret (KERN_INVALID_RIGHT, IO_NULL)
  else
    on_world (port_at port);;
    bits ←
      (if negb (has bits MACH_PORT_TYPE_SEND) then
         on_world (update_port port (fun p => set_ip_srights (u32 (ip_srights p + 1)) p));;
         mret (Z.lor bits (Z.lor MACH_PORT_TYPE_SEND 1))
       else mret bits);
    hash_insert port name entry;;
    ie_write entry (set_bits (clear bits MACH_PORT_TYPE_RECEIVE));;
    on_world (ipc_port_clear_receiver port);;
    on_world (update_port port no_receiver);;
    on_world (ip_reference port);;
    mret (KERN_SUCCESS, port).

Definition ipc_right_copyin_compat (name : Z) (entry : entry_ref) (msgt_name : Z) (dealloc : bool)
    : M sys (kern_return * Z) :=
  e ← ie_read entry;
  if msgt_name =? MSG_TYPE_PORT then
    if dealloc then compat_port_dealloc name entry e else compat_port name entry e
  else if msgt_name =? MSG_TYPE_PORT_ALL then
    if dealloc then compat_all_dealloc name entry e else compat_all name entry e
  else crash.

(** [(kr, object, msgt_name)]. *)
Definition ipc_right_copyin_header (name : Z) (entry : entry_ref) : M sys (kern_return * Z * Z) :=
  e ← ie_read entry;
  let bits := ie_bits e in
  let type := IE_BITS_TYPE bits in
  let port := ie_object e in
  let fails (kr : kern_return) : M sys (kern_return * Z * Z) := mret (kr, IO_NULL, 0) in
  let died := fails (if has bits IE_BITS_COMPAT then KERN_INVALID_NAME else KERN_INVALID_RIGHT) in
  if (type =? MACH_PORT_TYPE_PORT_SET) || (type =? MACH_PORT_TYPE_DEAD_NAME) then
    fails KERN_INVALID_RIGHT
  else if type =? MACH_PORT_TYPE_RECEIVE then
    on_world (update_port port (fun p => set_ip_srights (u32 (ip_srights p + 1))
                                           (set_ip_mscount (u32 (ip_mscount p + 1)) p)));;
    on_world (ip_reference port);;
    mret (KERN_SUCCESS, port, MACH_MSG_TYPE_PORT_SEND)
  else if (type =? MACH_PORT_TYPE_SEND) || (type =? MACH_PORT_TYPE_SEND_RECEIVE) then
    dead ← ipc_right_check port name entry;
    if (dead : bool) then died
    else
      on_world (update_port port (fun p => set_ip_srights (u32 (ip_srights p + 1)) p));;
      on_world (ip_reference port);;
      mret (KERN_SUCCESS, port, MACH_MSG_TYPE_PORT_SEND)
  else if type =? MACH_PORT_TYPE_SEND_ONCE then
    dead ← ipc_right_check port name entry;
    if (dead : bool) then died
    else
      dnrequest ← ipc_right_dncancel_macro port name entry;
      ie_write entry (set_object IO_NULL);;
      entry_dealloc name entry;;
      notify ← on_world (ipc_port_copy_send is_notify);
      notify_port_deleted dnrequest name;;
      when (IP_VALID notify) (on_world (emit (NotifyPortDeletedCompat notify name)));;
      mret (KERN_SUCCESS, port, MACH_MSG_TYPE_PORT_SEND_ONCE)
  else crash.
End right.

(** ** Spaces as name spaces *)

Definition space_names `{PortConfig} `{!EntrySizes} (addr : Z)
    : NameSpace (ipc_space * Global.ghash) := {|
  ns_active := fun st => is_active st.1;
  ns_lookup := fun st name => let '(s, r) := ipc_entry_lookup st.1 name in ((s, st.2), r);
  ns_read := fun st r => read_entry st.1 r;
  ns_write := fun st r bits object request => (write_entry st.1 r bits object request, st.2);
  ns_dealloc := fun st name r => ipc_entry_dealloc addr st.1 st.2 name r;
  ns_hash_lookup := fun st object =>
    let '(g, r) := ipc_hash_lookup addr st.1 st.2 object in ((st.1, g), r);
  ns_hash_insert := fun st object name r => ipc_hash_insert addr st.1 st.2 object name r;
  ns_hash_delete := fun st object name r => ipc_hash_delete addr st.1 st.2 object name r
|}.
