(* ===== verification/RightBits.v ===== *)
(** * The bits of a right

    The bits of an entry pack the type of the right, the user references and
    two flags.  [described] unpacks them, and the lemmas say what the bit
    operations of ipc_right.c do to each part.  An operation that stays
    within [IE_BITS_RIGHT_MASK] keeps the frame, the bits that belong to the
    entry and not to the right. *)

From S2P Require Import Prelude Names.

(** [type], user references, message-accepted flag, compat flag. *)
Record described (b type urefs : Z) (ma compat : bool) : Prop := {
  b_range : u32_range b;
  b_type : IE_BITS_TYPE b = type;
  b_urefs : IE_BITS_UREFS b = urefs;
  b_ma : has b IE_BITS_MAREQUEST = ma;
  b_compat : has b IE_BITS_COMPAT = compat
}.

(** The part of an entry's bits that describes the right, put together. *)
Definition packed (type urefs : Z) (ma compat : bool) : Z :=
  type + urefs + (if ma then IE_BITS_MAREQUEST else 0) + (if compat then IE_BITS_COMPAT else 0).

(** A change of [b] into a right described by the other arguments. *)
Definition becomes (b b' type urefs : Z) (ma compat : bool) : Prop :=
  described b' type urefs ma compat /\ same_frame b b'.

Section rbits.
Context `{PortConfig}.

Lemma has_type b m : Z.land m IE_BITS_TYPE_MASK = m -> has b m = has (IE_BITS_TYPE b) m.
Proof. intros Hm. unfold has, IE_BITS_TYPE. by rewrite <- Hm, <- Z.land_assoc, (Z.land_comm IE_BITS_TYPE_MASK), <- Z.land_assoc, Z.land_diag. Qed.

Lemma urefs_range b : 0 <= IE_BITS_UREFS b <= 65535.
Proof. unfold IE_BITS_UREFS. change IE_BITS_UREFS_MASK with (Z.ones 16). rewrite Z.land_ones by lia. pose proof (Z.mod_pos_bound b (2 ^ 16)). lia. Qed.

Lemma urefs_mod b : IE_BITS_UREFS b = b mod 65536.
Proof. unfold IE_BITS_UREFS. change IE_BITS_UREFS_MASK with (Z.ones 16). by rewrite Z.land_ones by lia. Qed.

(** Masks above the user references only see [b / 65536]. *)
Lemma land_high b b' m : b / 65536 = b' / 65536 -> m mod 65536 = 0 -> Z.land b m = Z.land b' m.
Proof.
  intros Hb Hm. apply Z.bits_inj'. intros i Hi. rewrite !Z.land_spec.
  destruct (Z_lt_le_dec i 16) as [Hlt|Hge].
  - rewrite <- (Z.mod_pow2_bits_low m 16 i Hlt). change (2 ^ 16) with 65536. by rewrite Hm, Z.bits_0, !andb_false_r.
  - f_equal. replace i with (i - 16 + 16) by lia.
    rewrite <- !Z.div_pow2_bits by lia. change (2 ^ 16) with 65536. by rewrite Hb.
Qed.

Lemma has_high b b' m : b / 65536 = b' / 65536 -> m mod 65536 = 0 -> has b m = has b' m.
Proof. intros. unfold has. by rewrite (land_high b b' m). Qed.

Lemma add_urefs b d type urefs ma compat :
  described b type urefs ma compat -> 0 <= urefs + d <= 65535 ->
  becomes b (u32 (b + d)) type (urefs + d) ma compat.
Proof.
  intros [Hr Ht Hu Hm Hc] Hd. rewrite urefs_mod in Hu.
  pose proof (Z.div_mod b 65536 ltac:(lia)) as Hdm.
  unfold u32_range, u32_max in Hr.
  assert (Hdiv : (b + d) / 65536 = b / 65536).
  { replace (b + d) with (urefs + d + b / 65536 * 65536) by lia.
    rewrite Z.div_add by lia. rewrite (Z.div_small (urefs + d)) by lia. lia. }
  assert (Hmod : (b + d) mod 65536 = urefs + d).
  { replace (b + d) with (urefs + d + b / 65536 * 65536) by lia.
    rewrite Z.mod_add by lia. apply Z.mod_small. lia. }
  assert (Hsum : 0 <= b + d < 4294967296).
  { pose proof (Z.div_pos b 65536 ltac:(lia) ltac:(lia)).
    pose proof (Z.div_lt_upper_bound b 65536 65536 ltac:(lia) ltac:(lia)). lia. }
  rewrite u32_id by (unfold u32_range, u32_max; lia). split; [split|].
  - unfold u32_range, u32_max. lia.
  - rewrite <- Ht. by apply land_high.
  - by rewrite urefs_mod.
  - rewrite <- Hm. by apply has_high.
  - rewrite <- Hc. by apply has_high.
  - unfold same_frame, clear. apply Z.bits_inj'. intros i Hi. rewrite !Z.ldiff_spec.
    destruct (mask_bits i Hi) as (_ & _ & _ & _ & _ & -> & _).
    destruct (Z.leb_spec 0 i), (Z.ltb_spec i 23); simpl; rewrite ?andb_false_r; try done; try lia.
    f_equal. replace i with (i - 16 + 16) by lia. rewrite <- !Z.div_pow2_bits by lia.
    change (2 ^ 16) with 65536. by rewrite Hdiv.
Qed.

(** ** Clearing and setting bits *)

Lemma land_ldiff b m m' : Z.land (Z.ldiff b m) m' = Z.ldiff (Z.land b m') m.
Proof.
  apply Z.bits_inj'. intros i Hi. rewrite !Z.land_spec, !Z.ldiff_spec, !Z.land_spec.
  by destruct (Z.testbit b i), (Z.testbit m i), (Z.testbit m' i).
Qed.

Lemma land_lor b m m' : Z.land (Z.lor b m) m' = Z.lor (Z.land b m') (Z.land m m').
Proof. apply Z.land_lor_distr_l. Qed.

Lemma has_pow2 x k : 0 <= k -> has x (2 ^ k) = Z.testbit x k.
Proof.
  intros Hk. unfold has. destruct (Z.testbit x k) eqn:Hx.
  - apply negb_true_iff, Z.eqb_neq. intros Hz.
    assert (Hb : Z.testbit (Z.land x (2 ^ k)) k = true) by (rewrite Z.land_spec, Hx, Z.pow2_bits_true; done).
    by rewrite Hz, Z.bits_0 in Hb.
  - apply negb_false_iff, Z.eqb_eq. apply Z.bits_inj'. intros i Hi. rewrite Z.land_spec, Z.bits_0.
    destruct (Z.eq_dec i k) as [->|]; [by rewrite Hx|]. by rewrite Z.pow2_bits_false, andb_false_r.
Qed.

Lemma flag_clear b k m : 0 <= k -> has (clear b m) (2 ^ k) = has b (2 ^ k) && negb (Z.testbit m k).
Proof. intros Hk. rewrite !has_pow2 by done. unfold clear. by rewrite Z.ldiff_spec. Qed.

Lemma flag_lor b k m : 0 <= k -> has (Z.lor b m) (2 ^ k) = has b (2 ^ k) || Z.testbit m k.
Proof. intros Hk. rewrite !has_pow2 by done. by rewrite Z.lor_spec. Qed.

Lemma flag_value b k : 0 <= k -> (if has b (2 ^ k) then 2 ^ k else 0) = Z.land b (2 ^ k).
Proof.
  intros Hk. rewrite has_pow2 by done. apply Z.bits_inj'. intros i Hi. rewrite Z.land_spec.
  destruct (Z.testbit b k) eqn:Hb; destruct (Z.eq_dec i k) as [->|];
    rewrite ?Z.pow2_bits_true, ?Z.bits_0, ?Hb by done; try done;
    rewrite Z.pow2_bits_false by done; by rewrite andb_false_r.
Qed.

(** [m] only has bits that describe the right. *)
Definition right_mask (m : Z) : Prop := Z.land m IE_BITS_RIGHT_MASK = m.

Lemma right_mask_bit m i : right_mask m -> 23 <= i -> Z.testbit m i = false.
Proof.
  intros Hm Hi. rewrite <- Hm, Z.land_spec. destruct (mask_bits i ltac:(lia)) as (_ & _ & _ & _ & _ & -> & _).
  destruct (Z.ltb_spec i 23); [lia|]. by rewrite !andb_false_r.
Qed.

Lemma frame_of_bits b b' : (forall i, 23 <= i -> Z.testbit b' i = Z.testbit b i) -> same_frame b b'.
Proof.
  intros Hb. apply Z.bits_inj'. intros i Hi. unfold clear. rewrite !Z.ldiff_spec.
  destruct (mask_bits i Hi) as (_ & _ & _ & _ & _ & -> & _).
  destruct (Z.leb_spec 0 i), (Z.ltb_spec i 23); simpl; rewrite ?andb_false_r; try lia; try done.
  by rewrite Hb.
Qed.

Lemma clear_bits b m type urefs ma compat :
  described b type urefs ma compat -> right_mask m ->
  becomes b (clear b m) (Z.ldiff type m) (Z.ldiff urefs m)
    (ma && negb (Z.testbit m 21)) (compat && negb (Z.testbit m 22)).
Proof.
  intros [Hr Ht Hu Hm Hc] Hmask. split; [split|].
  - by apply clear_range.
  - rewrite <- Ht. unfold IE_BITS_TYPE, clear. apply land_ldiff.
  - rewrite <- Hu. unfold IE_BITS_UREFS, clear. apply land_ldiff.
  - rewrite <- Hm. by apply (flag_clear b 21).
  - rewrite <- Hc. by apply (flag_clear b 22).
  - apply frame_of_bits. intros i Hi. unfold clear. rewrite Z.ldiff_spec, (right_mask_bit m i) by done.
    by rewrite andb_true_r.
Qed.

Lemma right_mask_range m : right_mask m -> u32_range m.
Proof.
  intros <-. apply u32_range_bits.
  - apply Z.land_nonneg. right. done.
  - intros i Hi. rewrite Z.land_spec. destruct (mask_bits i ltac:(lia)) as (_ & _ & _ & _ & _ & -> & _).
    destruct (Z.ltb_spec i 23); [lia|]. by rewrite !andb_false_r.
Qed.

Lemma lor_bits b m type urefs ma compat :
  described b type urefs ma compat -> right_mask m ->
  becomes b (Z.lor b m) (Z.lor type (IE_BITS_TYPE m)) (Z.lor urefs (IE_BITS_UREFS m))
    (ma || Z.testbit m 21) (compat || Z.testbit m 22).
Proof.
  intros [Hr Ht Hu Hm Hc] Hmask. split; [split|].
  - apply lor_range; [done|]. by apply right_mask_range.
  - rewrite <- Ht. apply land_lor.
  - rewrite <- Hu. apply land_lor.
  - rewrite <- Hm. by apply (flag_lor b 21).
  - rewrite <- Hc. by apply (flag_lor b 22).
  - apply frame_of_bits. intros i Hi. rewrite Z.lor_spec, (right_mask_bit m i) by done. by rewrite orb_false_r.
Qed.

Lemma becomes_trans b b' b'' t u m c t' u' m' c' :
  becomes b b' t u m c -> becomes b' b'' t' u' m' c' -> becomes b b'' t' u' m' c'.
Proof. intros [_ Hf] [Hd Hf']. split; [done|]. unfold same_frame in *. congruence. Qed.

(** The user references are below the other bits. *)
Lemma ldiff_high b m : m mod 65536 = 0 -> Z.ldiff (IE_BITS_UREFS b) m = IE_BITS_UREFS b.
Proof.
  intros Hm. apply Z.bits_inj'. intros i Hi. unfold IE_BITS_UREFS. rewrite Z.ldiff_spec, Z.land_spec.
  destruct (mask_bits i Hi) as (-> & _). destruct (Z.leb_spec 0 i), (Z.ltb_spec i 16); simpl; rewrite ?andb_false_r; try done.
  rewrite <- (Z.mod_pow2_bits_low m 16 i) by lia. change (2 ^ 16) with 65536. rewrite Hm, Z.bits_0. by rewrite !andb_true_r.
Qed.

Lemma ldiff_urefs b m : Z.ldiff (IE_BITS_UREFS b) (Z.lor IE_BITS_UREFS_MASK m) = 0.
Proof.
  apply Z.bits_inj'. intros i Hi. unfold IE_BITS_UREFS. rewrite Z.ldiff_spec, Z.land_spec, Z.lor_spec, Z.bits_0.
  by destruct (Z.testbit b i), (Z.testbit IE_BITS_UREFS_MASK i), (Z.testbit m i).
Qed.

(** The right as [means] records it. *)
Lemma packed_right b type urefs ma compat :
  described b type urefs ma compat -> Z.land b IE_BITS_RIGHT_MASK = packed type urefs ma compat.
Proof.
  intros [Hr <- <- <- <-]. unfold packed.
  change IE_BITS_MAREQUEST with (2 ^ 21). change IE_BITS_COMPAT with (2 ^ 22). rewrite !flag_value by lia.
  unfold IE_BITS_TYPE, IE_BITS_UREFS.
  assert (Hadd : forall x y, Z.land x y = 0 -> Z.land b x + Z.land b y = Z.land b (Z.lor x y)).
  { intros x y Hxy. rewrite Z.land_lor_distr_r. rewrite Z.add_nocarry_lxor, Z.lxor_lor; [done|..];
      apply Z.bits_inj'; intros i Hi; rewrite !Z.land_spec, Z.bits_0;
      (assert (Hb : Z.testbit (Z.land x y) i = false) by (by rewrite Hxy, Z.bits_0));
      rewrite Z.land_spec in Hb; by destruct (Z.testbit b i), (Z.testbit x i), (Z.testbit y i). }
  rewrite Hadd by done. rewrite Hadd by done. rewrite Hadd by done. done.
Qed.
End rbits.
