(* ===== verification/RightLaws.v ===== *)
(** * What ipc_right.c relies on from a space

    [NameSpaceLaws] states what the entry and reverse-hash routines promise:
    a space is a partial map from names to rights, reached through entry
    pointers.  The theorems on rights are proved against the laws;
    [space_names_laws] discharges them for the translated code of
    ipc_entry.c and ipc_hash.c. *)

From S2P Require Import Prelude Names Splay Table Space Hash Entry EntryInv Alloc Dealloc Grow.
From S2P Require Import World Port Right.

Definition fields (e : ipc_entry) : Z * Z * Z := (ie_bits e, ie_object e, ie_request e).

Definition right_fields (e : ipc_entry) : Z * Z * Z :=
  (Z.land (ie_bits e) IE_BITS_RIGHT_MASK, ie_object e, ie_request e).

Class NameSpaceLaws (Sp : Type) `{NameSpace Sp} := {
  (** The invariant, with the name of the one entry without a type, and which
      entry a name denotes. *)
  ns_ok : option Z -> Sp -> Prop;
  ns_denotes : option Z -> Sp -> Z -> entry_ref -> Prop;
  ns_means h s name c := exists r, ns_denotes h s name r /\ right_fields (ns_read s r) = c;
  ns_preserved h s s' :=
    ns_ok h s' /\ ns_active s' = ns_active s /\
    (forall n r, ns_denotes h s' n r <-> ns_denotes h s n r) /\
    (forall n r, ns_denotes h s n r -> fields (ns_read s' r) = fields (ns_read s r));
  ns_unique : forall h s name r1 r2,
    ns_ok h s -> ns_denotes h s name r1 -> ns_denotes h s name r2 -> r1 = r2;
  ns_separate : forall h s n1 n2 r,
    ns_ok h s -> ns_denotes h s n1 r -> ns_denotes h s n2 r -> n1 = n2;
  ns_bits : forall h s name r,
    ns_ok h s -> ns_denotes h s name r -> u32_range (ie_bits (ns_read s r));
  ns_typed : forall h s name r,
    ns_ok h s -> ns_denotes h s name r -> h <> Some name -> IE_BITS_TYPE (ie_bits (ns_read s r)) <> 0;
  ns_lookup_law : forall s name, ns_ok None s -> u32_range name ->
    ns_preserved None s (ns_lookup s name).1 /\
    forall r, (ns_lookup s name).2 = Some r <-> ns_denotes None s name r;
  ns_write_law : forall h s name r bits object request,
    ns_ok h s -> ns_denotes h s name r -> h = None \/ h = Some name ->
    same_frame (ie_bits (ns_read s r)) bits -> 0 <= bits ->
    let h' := hole_after name bits in
    let s' := ns_write s r bits object request in
    ns_ok h' s' /\ ns_active s' = ns_active s /\
    (forall n r', ns_denotes h' s' n r' <-> ns_denotes h s n r') /\
    fields (ns_read s' r) = (bits, object, request) /\
    (forall n r', ns_denotes h s n r' -> r' <> r -> fields (ns_read s' r') = fields (ns_read s r'));
  ns_dealloc_law : forall h s name r,
    ns_ok h s -> ns_denotes h s name r -> h = None \/ h = Some name ->
    ie_object (ns_read s r) = IO_NULL ->
    let s' := ns_dealloc s name r in
    ns_ok None s' /\ forall n c, ns_means None s' n c <-> n <> name /\ ns_means h s n c;
  ns_hash_insert_law : forall h s object name r,
    ns_ok h s -> ns_denotes h s name r -> ns_preserved h s (ns_hash_insert s object name r);
  ns_hash_delete_law : forall h s object name r,
    ns_ok h s -> ns_denotes h s name r -> ns_preserved h s (ns_hash_delete s object name r);
  ns_hash_lookup_law : forall h s object, ns_ok h s -> ns_preserved h s (ns_hash_lookup s object).1
}.

(** ** The entries of a space satisfy the laws *)

Section instance.
Context `{PortConfig} `{!EntrySizes} (addr : Z).
#[local] Instance names : NameSpace (ipc_space * Global.ghash) := space_names addr.

(** Rewriting hash indices is not seen by the entries. *)
Lemma same_rights_space h s T' n :
  space_inv h s -> same_rights (is_table s) T' ->
  let s' := with_tree_hash n (with_table T' s) in
  space_inv h s' /\
  (forall name r, denotes h s' name r <-> denotes h s name r) /\
  (forall r, fields (read_entry s' r) = fields (read_entry s r)).
Proof.
  intros [Hok I] Hs. assert (Hb : forall i, tbits T' i = tbits (is_table s) i) by (intros; by apply same_rights_get).
  assert (Ho : forall i, ie_object (tget T' i) = ie_object (tget (is_table s) i)) by (intros; by apply same_rights_get).
  assert (Hr : forall i, ie_request (tget T' i) = ie_request (tget (is_table s) i)) by (intros; by apply same_rights_get).
  assert (Hu : forall i, used h T' i <-> used h (is_table s) i) by (intros; by apply used_ext).
  split_and!.
  - split; [done|]. simpl. split; try (by apply I).
    + rewrite (proj1 Hs). apply I.
    + intros i. rewrite Hb. apply I.
    + destruct (i_free _ _ _ _ _ _ _ _ I) as (fl & Hc & Hnd & Hfl). exists fl. split_and!; [|done|].
      * apply (chain_ext (is_table s)); [|done]. intros j _. apply Hr.
      * intros i. by rewrite Hfl, Hu.
    + intros i. rewrite Hb, Ho, Hu. apply I.
    + rewrite Hb. apply I.
    + rewrite Hb. apply I.
    + intros x. rewrite Hb, Hu. apply I.
    + intros i. rewrite Hb. apply I.
  - intros name [i|p]; [|by rewrite !denotes_TreeEntry].
    rewrite !denotes_TableEntry. simpl. by rewrite Hu, Hb.
  - intros [i|p]; [|done]. unfold fields. simpl. specialize (Hb i). unfold tbits in Hb. by rewrite Hb, Ho, Hr.
Qed.

Lemma tree_hash_self s : with_tree_hash (is_tree_hash s) s = s.
Proof. by destruct s. Qed.

Lemma table_self s : with_table (is_table s) s = s.
Proof. by destruct s. Qed.

Lemma hash_insert_frame s g object name r :
  exists T n, (ipc_hash_insert addr s g object name r).1 = with_tree_hash n (with_table T s) /\
    same_rights (is_table s) T.
Proof.
  unfold ipc_hash_insert. destruct (in_table _ _ _).
  - eexists _, (is_tree_hash s). split; [reflexivity|]. split; [by apply (Local.local_insert_frame _ _ _ _ 0)|].
    intros i. by apply Local.local_insert_frame.
  - destruct r as [i|p].
    + exists (is_table s), (is_tree_hash s). by rewrite table_self, tree_hash_self.
    + exists (is_table s). eexists. by rewrite table_self.
Qed.

Lemma hash_delete_frame s g object name r :
  exists T n, (ipc_hash_delete addr s g object name r).1 = with_tree_hash n (with_table T s) /\
    same_rights (is_table s) T.
Proof.
  unfold ipc_hash_delete. destruct (in_table _ _ _).
  - eexists _, (is_tree_hash s). split; [reflexivity|]. split; [by apply (Local.local_delete_frame _ _ _ _ 0)|].
    intros i. by apply Local.local_delete_frame.
  - destruct r as [i|p].
    + exists (is_table s), (is_tree_hash s). by rewrite table_self, tree_hash_self.
    + exists (is_table s). eexists. by rewrite table_self.
Qed.

Lemma write_reads h s name r bits object request :
  space_inv h s -> denotes h s name r ->
  fields (read_entry (write_entry s r bits object request) r) = (bits, object, request) /\
  (forall n r', denotes h s n r' -> r' <> r ->
     fields (read_entry (write_entry s r bits object request) r') = fields (read_entry s r')).
Proof.
  intros Hinv Hd. pose proof Hinv as [_ I]. pose proof (i_len _ _ _ _ _ _ _ _ I) as Hlen. split.
  - destruct r as [i|p]; simpl.
    + destruct (table_denotes_index _ _ _ _ Hinv Hd) as (_ & Hi & _). by rewrite tget_tset_eq by lia.
    + by rewrite lookup_insert_eq.
  - intros n r' Hd' Hne. destruct r as [i|p], r' as [j|q]; simpl; try done.
    + destruct (table_denotes_index _ _ _ _ Hinv Hd) as (_ & Hi & _).
      destruct (table_denotes_index _ _ _ _ Hinv Hd') as (_ & Hj & _).
      rewrite tget_tset_ne; [done|lia..|congruence].
    + by rewrite lookup_insert_ne by congruence.
Qed.

Lemma denotes_bits h s name r :
  space_inv h s -> denotes h s name r ->
  u32_range (ie_bits (read_entry s r)) /\ (h <> Some name -> IE_BITS_TYPE (ie_bits (read_entry s r)) <> 0).
Proof.
  intros Hinv Hd. pose proof Hinv as [_ I]. destruct r as [i|p].
  - destruct (table_denotes_index _ _ _ _ Hinv Hd) as (_ & Hi & Hu & _). split.
    + apply (i_bits _ _ _ _ _ _ _ _ I). lia.
    + intros Hne. destruct Hu as [Hu|Hu]; [done|]. inversion Hd; subst. done.
  - rewrite denotes_TreeEntry in Hd. destruct (i_ites _ _ _ _ _ _ _ _ I _ _ Hd) as (it & Hit & Htb & Hu).
    simpl. rewrite Hit. simpl. split; [by apply tree_bits_u32|]. by intros; destruct Hu.
Qed.

#[export, refine] Instance space_names_laws : NameSpaceLaws (ipc_space * Global.ghash) := {|
  ns_ok := fun h st => space_inv h st.1;
  ns_denotes := fun h st name r => denotes h st.1 name r
|}.
Proof.
  - intros h [s g] name r1 r2. apply denotes_unique.
  - intros h [s g] n1 n2 r. apply denotes_name.
  - intros h [s g] name r ? ?. by eapply denotes_bits.
  - intros h [s g] name r ? ? ?. by eapply denotes_bits.
  - intros [s g] name Hinv Hname. simpl in *.
    destruct (entry_lookup_spec s name Hinv Hname) as (tree & Heq & Hok & Hl & Hr).
    destruct (with_tree_inv None s tree Hinv Hok Hl) as (Hinv' & Hden & Hread).
    destruct (ipc_entry_lookup s name) as [s' r]. simpl in *. subst s'. by split_and!.
  - intros h [s g] name r bits object request Hinv Hd Hhole Hframe Hbits. simpl in *.
    destruct (write_reads h s name r bits object request Hinv Hd) as [Hr1 Hr2]. split_and!.
    + by apply (write_inv h).
    + by destruct r.
    + intros n r'. by apply (write_denotes h).
    + done.
    + done.
  - intros h [s g] name r Hinv Hd Hhole Hobj. simpl in *.
    destruct (dealloc_spec addr h s g name r Hinv Hhole Hd Hobj) as [Hinv' Hm]. split; [done|]. apply Hm.
  - intros h [s g] object name r Hinv _. simpl in *.
    destruct (hash_insert_frame s g object name r) as (T & n & Heq & Hs).
    destruct (same_rights_space h s T n Hinv Hs) as (Hinv' & Hden & Hread).
    unfold ns_hash_insert, names, space_names. simpl. rewrite Heq. by split_and!.
  - intros h [s g] object name r Hinv _. simpl in *.
    destruct (hash_delete_frame s g object name r) as (T & n & Heq & Hs).
    destruct (same_rights_space h s T n Hinv Hs) as (Hinv' & Hden & Hread).
    unfold ns_hash_delete, names, space_names. simpl. rewrite Heq. by split_and!.
  - intros h [s g] object Hinv. simpl in *. by destruct (ipc_hash_lookup addr s g object).
Defined.
End instance.
