(* ===== verification/RightWp.v ===== *)
(** * Reasoning about ipc_right.c

    [wp m Q st]: [m], started in the state [st], returns (it does not touch
    memory that is not there, and does not panic) and its result and final
    state satisfy [Q].  The state of the entry a function works on is
    described by [held], of the other entries nothing changes; the rules
    below step through the accesses to the space and to ports. *)

From S2P Require Import Prelude Names Splay Table Space Hash Entry EntryInv Alloc World Port.
From S2P Require Import PortInv Right RightBits RightLaws.

(** The fields of a changed entry. *)
Ltac entry_eq :=
  intros; cbv [set_request set_bits set_object ie_bits ie_object ie_request ie_index]; reflexivity.

(** The hole when the entry of [name] has type [t]. *)
Definition hole_of (name t : Z) : option Z := if t =? 0 then Some name else None.

(** ** Effects on ports *)

Definition released (port : Z) (p : ipc_port) (w : world) : world :=
  let n := u32 (ip_references p - 1) in
  if n =? 0 then emitted [ObjectFree port] (with_ports (delete port (w_ports w)) w)
  else put_port port (set_ip_references n p) w.

Lemma port_release_run w port p :
  w_ports w !! port = Some p -> ipc_port_release port w = Some (tt, released port p w).
Proof.
  intros Hp. unfold ipc_port_release, ip_release, ip_check_unlock, released. run_ports. simpl.
  destruct (u32 (ip_references p - 1) =? 0); simpl; [|done].
  unfold mbind, M_bind, modify, emit, emitted, put_port, with_ports. simpl.
  by rewrite delete_insert_eq.
Qed.

(** The request [q] of an entry named [name] is registered with the port. *)
Definition dn_known (p : ipc_port) (name q : Z) : Prop :=
  q = 0 \/ exists d soright, ip_dnrequests p = Some d /\ dn_ok d /\ registered d q = Some (name, soright).

(** Cancelling the request [q] of an entry of [p]: the send-once right to
    return, the port without the request, and the events. *)
Definition cancels (p : ipc_port) (name q : Z) (co : bool) (p' : ipc_port) (dnrequest : Z)
    (ev : list event) : Prop :=
  if q =? 0 then p' = p /\ dnrequest = IP_NULL /\ ev = []
  else exists d d' soright,
    ip_dnrequests p = Some d /\ registered d q = Some (name, soright) /\
    p' = set_ip_dnrequests (Some d') p /\ dn_ok d' /\ rlen d' = rlen d /\
    (forall i, registered d' i = if i =? q then None else registered d i) /\
    dnrequest = (if co then IP_NULL else soright) /\ ev = (if co then [SpaceRelease] else []).

(** The counts of rights and references of a port. *)
Definition counts (p : ipc_port) : Z * Z * Z := (ip_references p, ip_srights p, ip_sorights p).

Lemma cancels_counts p name q co p' dn ev :
  cancels p name q co p' dn ev -> counts p' = counts p /\ ip_active p' = ip_active p /\
    ip_nsrequest p' = ip_nsrequest p /\ ip_mscount p' = ip_mscount p.
Proof.
  unfold cancels. destruct (q =? 0); [by intros (-> & _)|]. by intros (d & d' & so & _ & _ & -> & _).
Qed.

Section wp.
Context {Sp : Type} `{!NameSpace Sp, !NameSpaceLaws Sp} `{PortConfig}.

Abbreviation sys := (Sp * world)%type.

Definition wp {A} (m : M sys A) (Q : A -> sys -> Prop) (st : sys) : Prop :=
  match m st with Some (x, st') => Q x st' | None => False end.

Lemma wp_bind {A B} (m : M sys A) (k : A -> M sys B) Q st :
  wp m (fun x st' => wp (k x) Q st') st -> wp (m ≫= k) Q st.
Proof. unfold wp, mbind, M_bind. by destruct (m st) as [[x st']|]. Qed.

Lemma wp_ret {A} (x : A) Q st : Q x st -> wp (mret x) Q st.
Proof. done. Qed.

Lemma wp_mono {A} (m : M sys A) (Q Q' : A -> sys -> Prop) st :
  wp m Q st -> (forall x st', Q x st' -> Q' x st') -> wp m Q' st.
Proof. unfold wp. destruct (m st) as [[x st']|]; [|done]. eauto. Qed.

Lemma wp_returns {A} (m : M sys A) Q st :
  wp m Q st -> exists x st', m st = Some (x, st') /\ Q x st'.
Proof. unfold wp. destruct (m st) as [[x st']|]; [eauto|done]. Qed.

Lemma wp_world {A} (m : M world A) Q s w x w' :
  m w = Some (x, w') -> Q x (s, w') -> wp (on_world m) Q (s, w).
Proof. intros Hm HQ. unfold wp, on_world. simpl. by rewrite Hm. Qed.

(** ** The entry *)

Lemma fields_entry e b o q : fields e = (b, o, q) -> e = mk_entry b o q (ie_index e).
Proof. destruct e. unfold fields. simpl. by intros [= -> -> ->]. Qed.

Record held (h0 : option Z) (s0 : Sp) (name : Z) (r : entry_ref) (s : Sp)
    (b o q t u : Z) (ma co : bool) : Prop := {
  h_ok : ns_ok (hole_of name t) s;
  h_den : ns_denotes (hole_of name t) s name r;
  h_read : exists i, ns_read s r = mk_entry b o q i;
  h_desc : described b t u ma co;
  h_active : ns_active s = ns_active s0;
  h_others : forall n c, n <> name -> ns_means (hole_of name t) s n c <-> ns_means h0 s0 n c
}.

(** The entry has been deallocated. *)
Definition gone (h0 : option Z) (s0 : Sp) (name : Z) (s : Sp) : Prop :=
  ns_ok None s /\ forall n c, ns_means None s n c <-> n <> name /\ ns_means h0 s0 n c.

Lemma hole_cases name t : hole_of name t = None \/ hole_of name t = Some name.
Proof. unfold hole_of. destruct (t =? 0); auto. Qed.

Lemma means_held h0 s0 name r s b o q t u ma co c :
  held h0 s0 name r s b o q t u ma co ->
  ns_means (hole_of name t) s name c <-> c = (packed t u ma co, o, q).
Proof.
  intros Hh. destruct (h_read _ _ _ _ _ _ _ _ _ _ _ _ Hh) as [i Hi].
  assert (Hf : right_fields (ns_read s r) = (packed t u ma co, o, q)).
  { unfold right_fields. rewrite Hi. simpl. by rewrite (packed_right b t u ma co) by apply Hh. }
  split.
  - intros (r' & Hd & <-). rewrite <- Hf. f_equal. f_equal.
    symmetry. eapply ns_unique; [apply Hh|apply Hh|done].
  - intros ->. exists r. split; [apply Hh|done].
Qed.

Lemma wp_read h0 s0 name r s w b o q t u ma co (Q : ipc_entry -> sys -> Prop) :
  held h0 s0 name r s b o q t u ma co ->
  (forall i, Q (mk_entry b o q i) (s, w)) -> wp (ie_read r) Q (s, w).
Proof. intros Hh HQ. destruct (h_read _ _ _ _ _ _ _ _ _ _ _ _ Hh) as [i Hi]. unfold wp, ie_read, gets. simpl. by rewrite Hi. Qed.

Lemma means_fields h s n c r : ns_denotes h s n r -> right_fields (ns_read s r) = c -> ns_means h s n c.
Proof. intros. by exists r. Qed.

Lemma right_fields_eq e e' : fields e = fields e' -> right_fields e = right_fields e'.
Proof. unfold fields, right_fields. by intros [= -> -> ->]. Qed.

Lemma held_write h0 s0 name r s b o q t u ma co b' o' q' t' u' ma' co' :
  held h0 s0 name r s b o q t u ma co -> becomes b b' t' u' ma' co' ->
  held h0 s0 name r (ns_write s r b' o' q') b' o' q' t' u' ma' co'.
Proof.
  intros Hh [Hd Hf]. destruct (h_read _ _ _ _ _ _ _ _ _ _ _ _ Hh) as [i Hi].
  assert (Hhole : hole_after name b' = hole_of name t') by (unfold hole_after; by rewrite (b_type _ _ _ _ _ Hd)).
  destruct (ns_write_law (hole_of name t) s name r b' o' q') as (Hok & Hact & Hden & Hr & Ho);
    [apply Hh|apply Hh|apply hole_cases|by rewrite Hi|apply Hd|]. rewrite Hhole in *. split; try done.
  - apply Hden, Hh.
  - eexists. by apply fields_entry.
  - rewrite Hact. apply Hh.
  - intros n c Hn. rewrite <- (h_others _ _ _ _ _ _ _ _ _ _ _ _ Hh) by done.
    assert (Hne : forall r', ns_denotes (hole_of name t) s n r' -> r' <> r).
    { intros r' Hd' ->. apply Hn. eapply ns_separate; [apply Hh|done|apply Hh]. }
    split; intros (r' & Hd' & <-); exists r'; rewrite Hden in *; (split; [done|]);
      apply right_fields_eq; [symmetry|]; eauto.
Qed.

Lemma wp_write h0 s0 name r s w b o q t u ma co f b' o' q' t' u' ma' co' (Q : unit -> sys -> Prop) :
  held h0 s0 name r s b o q t u ma co ->
  (forall i, f (mk_entry b o q i) = mk_entry b' o' q' i) -> becomes b b' t' u' ma' co' ->
  (forall s', held h0 s0 name r s' b' o' q' t' u' ma' co' -> Q tt (s', w)) ->
  wp (ie_write r f) Q (s, w).
Proof.
  intros Hh Hf Hb HQ. unfold ie_write. apply wp_bind. eapply wp_read; [done|]. intros i.
  rewrite Hf. unfold wp, on_space, modify. simpl. apply HQ. by eapply held_write.
Qed.

Lemma becomes_same b t u ma co : described b t u ma co -> becomes b b t u ma co.
Proof. done. Qed.

Lemma preserved_held h0 s0 name r s s' b o q t u ma co :
  held h0 s0 name r s b o q t u ma co -> ns_preserved (hole_of name t) s s' ->
  held h0 s0 name r s' b o q t u ma co.
Proof.
  intros Hh (Hok & Hact & Hden & Hread). destruct (h_read _ _ _ _ _ _ _ _ _ _ _ _ Hh) as [i Hi].
  split; try done; try apply Hh.
  - apply Hden, Hh.
  - eexists. apply fields_entry. rewrite (Hread name r) by apply Hh. by rewrite Hi.
  - rewrite Hact. apply Hh.
  - intros n c Hn. rewrite <- (h_others _ _ _ _ _ _ _ _ _ _ _ _ Hh) by done.
    split; intros (r' & Hd' & <-); exists r'; rewrite Hden in *; (split; [done|]);
      apply right_fields_eq; [symmetry|]; eauto.
Qed.

Lemma wp_hash_insert h0 s0 name r s w b o q t u ma co object (Q : unit -> sys -> Prop) :
  held h0 s0 name r s b o q t u ma co ->
  (forall s', held h0 s0 name r s' b o q t u ma co -> Q tt (s', w)) ->
  wp (hash_insert object name r) Q (s, w).
Proof. intros Hh HQ. apply HQ. eapply preserved_held; [done|]. apply ns_hash_insert_law; apply Hh. Qed.

Lemma wp_hash_delete h0 s0 name r s w b o q t u ma co object (Q : unit -> sys -> Prop) :
  held h0 s0 name r s b o q t u ma co ->
  (forall s', held h0 s0 name r s' b o q t u ma co -> Q tt (s', w)) ->
  wp (hash_delete object name r) Q (s, w).
Proof. intros Hh HQ. apply HQ. eapply preserved_held; [done|]. apply ns_hash_delete_law; apply Hh. Qed.

Lemma wp_dealloc h0 s0 name r s w b q t u ma co (Q : unit -> sys -> Prop) :
  held h0 s0 name r s b IO_NULL q t u ma co ->
  (forall s', gone h0 s0 name s' -> Q tt (s', w)) ->
  wp (entry_dealloc name r) Q (s, w).
Proof.
  intros Hh HQ. apply HQ. destruct (h_read _ _ _ _ _ _ _ _ _ _ _ _ Hh) as [i Hi].
  destruct (ns_dealloc_law (hole_of name t) s name r) as [Hok Hm];
    [apply Hh|apply Hh|apply hole_cases|by rewrite Hi|]. split; [done|].
  intros n c. rewrite Hm. split; intros [Hn Hc]; (split; [done|]); by apply (h_others _ _ _ _ _ _ _ _ _ _ _ _ Hh).
Qed.

(** ** Events *)

Lemma wp_emit e s w (Q : unit -> sys -> Prop) : Q tt (s, emitted [e] w) -> wp (on_world (emit e)) Q (s, w).
Proof. intros HQ. by eapply wp_world; [apply emit_run|]. Qed.

Definition ma_events (ma : bool) (name : Z) : list event := if ma then [MarequestCancel name] else [].

Lemma wp_marequest b name ma s w (Q : unit -> sys -> Prop) :
  has b IE_BITS_MAREQUEST = ma -> Q tt (s, emitted (ma_events ma name) w) ->
  wp (marequest_cancel b name) Q (s, w).
Proof.
  intros Hma HQ. unfold marequest_cancel, when. rewrite Hma. destruct ma.
  - by apply wp_emit.
  - apply wp_ret. by rewrite emitted_nil in HQ.
Qed.

Definition deleted_events (dn name : Z) : list event :=
  if dn =? IP_NULL then [] else [NotifyPortDeleted dn name].

Lemma wp_port_deleted dn name s w (Q : unit -> sys -> Prop) :
  Q tt (s, emitted (deleted_events dn name) w) -> wp (notify_port_deleted dn name) Q (s, w).
Proof.
  intros HQ. unfold notify_port_deleted, when, deleted_events in *. destruct (dn =? IP_NULL); simpl.
  - apply wp_ret. by rewrite emitted_nil in HQ.
  - by apply wp_emit.
Qed.

(** ** Cancelling a dead-name request *)

Lemma wp_dncancel h0 s0 name r s w port p b o q t u ma co (Q : Z -> sys -> Prop) :
  held h0 s0 name r s b o q t u ma co -> w_ports w !! port = Some p -> dn_known p name q ->
  (forall s' p' dn ev, held h0 s0 name r s' b o 0 t u ma co -> cancels p name q co p' dn ev ->
     Q dn (s', emitted ev (put_port port p' w))) ->
  wp (ipc_right_dncancel_macro port name r) Q (s, w).
Proof.
  intros Hh Hp Hdn HQ. unfold ipc_right_dncancel_macro. apply wp_bind. eapply wp_read; [done|]. intros i. simpl.
  pose proof (h_desc _ _ _ _ _ _ _ _ _ _ _ _ Hh) as Hdesc. destruct (Z.eqb_spec q 0) as [->|Hq].
  { apply wp_ret. specialize (HQ s p IP_NULL []). rewrite put_port_id, emitted_nil in HQ by done.
    by apply HQ. }
  destruct Hdn as [?|(d & so & Hd & Hok & Hreg)]; [done|].
  destruct (dncancel_spec w port p d name q so Hp Hd Hok Hreg) as (d' & Hrun & Hok' & Hlen & _ & Hreg').
  unfold ipc_right_dncancel. apply wp_bind. eapply wp_read; [done|]. clear i. intros i. simpl.
  apply wp_bind. eapply wp_world; [exact Hrun|]. apply wp_bind.
  eapply wp_write; [done|entry_eq|by apply becomes_same|]. intros s' Hh'.
  rewrite (b_compat _ _ _ _ _ Hdesc).
  assert (Hc : cancels p name q co (set_ip_dnrequests (Some d') p) (if co then IP_NULL else so)
                 (if co then [SpaceRelease] else [])).
  { unfold cancels. rewrite (proj2 (Z.eqb_neq _ _)) by done. by exists d, d', so. }
  specialize (HQ s' _ _ _ Hh' Hc). destruct co.
  - apply wp_bind, wp_emit, wp_ret. done.
  - apply wp_ret. by rewrite emitted_nil in HQ.
Qed.
End wp.
