(* ===== verification/RightInv.v ===== *)
(** * What the operations on rights do: dead rights, copyin and copyout

    [wf_right] is what the assertions of ipc_right.c say of an entry; the
    operations keep it.  [balanced] relates the counts of send rights,
    send-once rights and references in a port before and after an operation
    with the right the entry holds before and after, and what the caller was
    given: no operation creates or loses a right. *)

From S2P Require Import Prelude Names Splay Table Space Hash Entry EntryInv Alloc World Port.
From S2P Require Import PortInv PortQueue Right RightBits RightLaws RightWp.

(** ** Well-formed rights *)

(** [type], user references, flags, object, request. *)
Inductive wf_right : Z -> Z -> bool -> bool -> Z -> Z -> Prop :=
| wf_send u ma co o q :
    0 < u < MACH_PORT_UREFS_MAX -> o <> IO_NULL -> (co = true -> q <> 0) ->
    wf_right MACH_PORT_TYPE_SEND u ma co o q
| wf_receive ma co o q :
    o <> IO_NULL -> (co = true -> q <> 0) -> wf_right MACH_PORT_TYPE_RECEIVE 0 ma co o q
| wf_send_receive u ma co o q :
    0 < u < MACH_PORT_UREFS_MAX -> o <> IO_NULL -> (co = true -> q <> 0) ->
    wf_right MACH_PORT_TYPE_SEND_RECEIVE u ma co o q
| wf_send_once co o q :
    o <> IO_NULL -> (co = true -> q <> 0) -> wf_right MACH_PORT_TYPE_SEND_ONCE 1 false co o q
| wf_port_set o : o <> IO_NULL -> wf_right MACH_PORT_TYPE_PORT_SET 0 false false o 0
| wf_dead_name u : 0 < u <= MACH_PORT_UREFS_MAX -> wf_right MACH_PORT_TYPE_DEAD_NAME u false false IO_NULL 0.

Lemma wf_urefs t u ma co o q :
  wf_right t u ma co o q -> 0 <= u <= 65535 /\ (t <> MACH_PORT_TYPE_DEAD_NAME -> u < 65535).
Proof. destruct 1; unfold MACH_PORT_UREFS_MAX in *; split; intros; try done; lia. Qed.

(** Pure send rights and send-once rights are the ones that can die. *)
Definition mortal (t : Z) : Prop := t = MACH_PORT_TYPE_SEND \/ t = MACH_PORT_TYPE_SEND_ONCE.

Lemma wf_mortal_urefs t u ma co o q : wf_right t u ma co o q -> mortal t -> 0 < u < MACH_PORT_UREFS_MAX.
Proof. destruct 1; unfold mortal, MACH_PORT_UREFS_MAX in *; try lia; intros [?|?]; done. Qed.

(** Find the port in a changed world. *)
Ltac port_known :=
  simpl; rewrite ?lookup_insert_eq; first [reflexivity | eassumption].

(** ** Bits of the entries *)

(** Decide the conditions on an entry described by a hypothesis. *)
Ltac decide_bits :=
  repeat match goal with
  | Hd : described ?b _ _ _ _ |- context [has ?b IE_BITS_MAREQUEST] => rewrite (b_ma _ _ _ _ _ Hd)
  | Hd : described ?b _ _ _ _ |- context [has ?b IE_BITS_COMPAT] => rewrite (b_compat _ _ _ _ _ Hd)
  | Hd : described ?b _ _ _ _ |- context [has ?b ?m] =>
    rewrite (has_type b m) by reflexivity; rewrite (b_type _ _ _ _ _ Hd)
  | Hd : described ?b _ _ _ _ |- context [IE_BITS_TYPE ?b] => rewrite (b_type _ _ _ _ _ Hd)
  | Hd : described ?b _ _ _ _ |- context [IE_BITS_UREFS ?b] => rewrite (b_urefs _ _ _ _ _ Hd)
  end.

(** Evaluate the conditions on known types. *)
Ltac eval_types :=
  repeat match goal with
  | |- context [has ?t ?m] =>
    first [is_const t | is_constructor t];
    let v := eval vm_compute in (has t m) in
    match v with true => change (has t m) with true | false => change (has t m) with false end
  | |- context [?t =? ?u] =>
    first [is_const t | is_constructor t]; first [is_const u | is_constructor u];
    let v := eval vm_compute in (t =? u) in
    match v with true => change (t =? u) with true | false => change (t =? u) with false end
  end; cbn [negb andb orb].

Section bits.
Context `{PortConfig}.

Lemma clear_type b m t u ma co :
  described b t u ma co -> Z.land m IE_BITS_TYPE_MASK = m -> right_mask m ->
  becomes b (clear b m) (Z.ldiff t m) u ma co.
Proof.
  intros Hd Hm Hr. destruct (clear_bits b m t u ma co Hd Hr) as [Hd' Hf]. split; [|done].
  assert (Hbit : forall i, 0 <= i -> i < 16 \/ 21 <= i -> Z.testbit m i = false).
  { intros i Hi Hc. rewrite <- Hm, Z.land_spec. destruct (mask_bits i Hi) as (_ & -> & _).
    destruct (Z.leb_spec 16 i), (Z.ltb_spec i 21); try lia; by rewrite andb_false_r. }
  rewrite !Hbit, !andb_true_r in Hd' by lia. rewrite <- (b_urefs _ _ _ _ _ Hd) in Hd'.
  rewrite ldiff_high in Hd'; [by rewrite (b_urefs _ _ _ _ _ Hd) in Hd'|].
  apply Z.bits_inj'. intros i Hi. rewrite Z.bits_0. change 65536 with (2 ^ 16).
  destruct (Z_lt_le_dec i 16); [rewrite Z.mod_pow2_bits_low by lia; apply Hbit; lia|].
  by apply Z.mod_pow2_bits_high.
Qed.

Lemma to_dead_name b t u ma co :
  described b t u ma co -> Z.ldiff t IE_BITS_TYPE_MASK = 0 ->
  becomes b (Z.lor (clear b IE_BITS_TYPE_MASK) MACH_PORT_TYPE_DEAD_NAME) MACH_PORT_TYPE_DEAD_NAME u ma co.
Proof.
  intros Hd Ht. destruct (clear_type b IE_BITS_TYPE_MASK t u ma co Hd) as [Hd1 Hf1]; [done..|].
  rewrite Ht in Hd1. eapply becomes_trans; [by split|].
  destruct (lor_bits _ MACH_PORT_TYPE_DEAD_NAME _ _ _ _ Hd1 ltac:(done)) as [Hd2 Hf2].
  split; [|done]. simpl in Hd2. by rewrite Z.lor_0_r, !orb_false_r in Hd2.
Qed.

(** Flags above the type do not disturb it. *)
Lemma clear_flag b k t u ma co :
  described b t u ma co -> k = 21 \/ k = 22 ->
  becomes b (clear b (2 ^ k)) t u (ma && negb (k =? 21)) (co && negb (k =? 22)).
Proof.
  intros Hd Hk. destruct (clear_bits b (2 ^ k) t u ma co Hd) as [Hd' Hf]; [by destruct Hk as [-> | ->]|].
  split; [|done]. rewrite !Z.pow2_bits_eqb in Hd' by lia. rewrite <- (b_urefs _ _ _ _ _ Hd), ldiff_high in Hd'
    by (by destruct Hk as [-> | ->]). rewrite (b_urefs _ _ _ _ _ Hd), <- (b_type _ _ _ _ _ Hd) in Hd'.
  replace (Z.ldiff (IE_BITS_TYPE b) (2 ^ k)) with (IE_BITS_TYPE b) in Hd'; [by rewrite (b_type _ _ _ _ _ Hd) in Hd'|].
  unfold IE_BITS_TYPE. apply Z.bits_inj'. intros i Hi. rewrite Z.ldiff_spec, Z.land_spec, Z.pow2_bits_eqb by lia.
  destruct (mask_bits i Hi) as (_ & -> & _).
  destruct (Z.leb_spec 16 i), (Z.ltb_spec i 21), (Z.eqb_spec k i); simpl; rewrite ?andb_false_r, ?andb_true_r; try done; lia.
Qed.

Lemma drop_ma b t u ma co :
  described b t u ma co ->
  becomes b (if has b IE_BITS_MAREQUEST then clear b IE_BITS_MAREQUEST else b) t u false co.
Proof.
  intros Hd. destruct (has b IE_BITS_MAREQUEST) eqn:Hmab.
  - pose proof (clear_flag b 21 t u ma co Hd ltac:(by left)) as Hc. by rewrite andb_false_r, andb_true_r in Hc.
  - split; [|done]. destruct Hd. split; done.
Qed.

Lemma drop_compat b t u ma co : described b t u ma co -> becomes b (clear b IE_BITS_COMPAT) t u ma false.
Proof.
  intros Hd. pose proof (clear_flag b 22 t u ma co Hd ltac:(by right)) as Hc. by rewrite andb_false_r, andb_true_r in Hc.
Qed.

Lemma clear_send b t u ma co :
  described b t u ma co ->
  becomes b (clear b (Z.lor IE_BITS_UREFS_MASK MACH_PORT_TYPE_SEND)) (Z.ldiff t MACH_PORT_TYPE_SEND) 0 ma co.
Proof.
  intros Hd. destruct (clear_bits b (Z.lor IE_BITS_UREFS_MASK MACH_PORT_TYPE_SEND) t u ma co Hd) as [Hd' Hf]; [done|].
  split; [|done]. rewrite !andb_true_r in Hd'. rewrite <- (b_urefs _ _ _ _ _ Hd), ldiff_urefs in Hd'.
  replace (Z.ldiff t (Z.lor IE_BITS_UREFS_MASK MACH_PORT_TYPE_SEND)) with (Z.ldiff t MACH_PORT_TYPE_SEND) in Hd'; [done|].
  rewrite <- (b_type _ _ _ _ _ Hd). unfold IE_BITS_TYPE. apply Z.bits_inj'. intros i Hi.
  rewrite !Z.ldiff_spec, !Z.land_spec, Z.lor_spec. destruct (mask_bits i Hi) as (-> & -> & _).
  destruct (Z.leb_spec 16 i), (Z.ltb_spec i 21), (Z.leb_spec 0 i), (Z.ltb_spec i 16); simpl;
    rewrite ?andb_false_r, ?orb_false_l; try done; lia.
Qed.
End bits.

Section check.
Context {Sp : Type} `{!NameSpace Sp, !NameSpaceLaws Sp} `{PortConfig}.

(** ** Dead rights *)

(** The user references of the dead name: the pending dead-name notification
    adds one. *)
Definition dead_urefs (u q : Z) : Z := if q =? 0 then u else u + 1.

Definition check_events (t : Z) (ma : bool) (name : Z) : list event :=
  ma_events ((t =? MACH_PORT_TYPE_SEND) && ma) name.

Lemma wp_check h0 s0 name r s w port p b q t u ma co (Q : bool -> Sp * world -> Prop) :
  held h0 s0 name r s b port q t u ma co -> w_ports w !! port = Some p ->
  wf_right t u ma co port q -> (ip_active p = false -> mortal t) ->
  (ip_active p = true -> Q false (s, w)) ->
  (ip_active p = false -> co = true -> forall s', gone h0 s0 name s' ->
     Q true (s', released port p (emitted (check_events t ma name) w))) ->
  (ip_active p = false -> co = false -> forall s' b',
     held h0 s0 name r s' b' IO_NULL 0 MACH_PORT_TYPE_DEAD_NAME (dead_urefs u q) false false ->
     Q true (s', released port p (emitted (check_events t ma name) w))) ->
  wp (ipc_right_check port name r) Q (s, w).
Proof.
  intros Hh Hp Hwf Hmort Hlive Hcompat Hdead. unfold ipc_right_check.
  apply wp_bind. eapply wp_world; [by apply port_at_run|].
  destruct (ip_active p) eqn:Hact; [by apply wp_ret, Hlive|].
  specialize (Hmort eq_refl). specialize (Hcompat eq_refl). specialize (Hdead eq_refl).
  pose proof (wf_mortal_urefs _ _ _ _ _ _ Hwf Hmort) as Hu. unfold MACH_PORT_UREFS_MAX in Hu.
  pose proof (h_desc _ _ _ _ _ _ _ _ _ _ _ _ Hh) as Hd.
  apply wp_bind. eapply wp_read; [done|]. intros i. cbn [ie_bits].
  apply wp_bind.
  assert (Hpart : wp (if has b MACH_PORT_TYPE_SEND then
      marequest_cancel b name;; hash_delete port name r;;
      mret (if has b IE_BITS_MAREQUEST then clear b IE_BITS_MAREQUEST else b)
    else mret b) (fun b1 st => st.2 = emitted (check_events t ma name) w /\ becomes b b1 t u false co /\
      held h0 s0 name r st.1 b port q t u ma co) (s, w)).
  { rewrite (has_type b) by done. rewrite (b_type _ _ _ _ _ Hd). destruct Hmort as [-> | ->]; simpl.
    - apply wp_bind, (wp_marequest _ _ ma); [apply Hd|]. apply wp_bind.
      eapply wp_hash_delete; [done|]. intros s1 Hh1. apply wp_ret. split_and!; [done|by apply (drop_ma b _ _ ma)|done].
    - apply wp_ret. inversion Hwf; subst. simpl. by rewrite emitted_nil. }
  apply (wp_mono _ _ _ _ Hpart). clear Hpart. intros b1 [s1 w1] (Hw1 & Hb1 & Hh1). simpl in Hw1, Hh1. subst w1.
  apply wp_bind. eapply wp_world; [by apply port_release_run|].
  rewrite (b_compat b1 t u false co) by apply Hb1. destruct co.
  - specialize (Hcompat eq_refl).
    apply wp_bind. eapply wp_write; [exact Hh1|entry_eq|by apply becomes_same|]. intros s2 Hh2.
    apply wp_bind. eapply wp_write; [exact Hh2|entry_eq|by apply becomes_same|]. intros s3 Hh3.
    apply wp_bind. eapply wp_dealloc; [exact Hh3|]. intros s4 Hg. by apply wp_ret, Hcompat.
  - specialize (Hdead eq_refl).
    assert (Hb2 : becomes b (Z.lor (clear b1 IE_BITS_TYPE_MASK) MACH_PORT_TYPE_DEAD_NAME)
                    MACH_PORT_TYPE_DEAD_NAME u false false).
    { eapply becomes_trans; [exact Hb1|]. apply (to_dead_name _ t); [apply Hb1|]. by destruct Hmort as [-> | ->]. }
    apply wp_bind. eapply wp_read; [exact Hh1|]. clear i. intros i. cbn [ie_request]. apply wp_bind.
    unfold dead_urefs in Hdead. destruct (Z.eqb_spec q 0) as [->|Hq]; simpl.
    + apply wp_ret. apply wp_bind. eapply wp_write; [exact Hh1|entry_eq|exact Hb2|]. intros s2 Hh2.
      apply wp_bind. eapply wp_write; [exact Hh2|entry_eq|by apply becomes_same, Hb2|]. intros s3 Hh3.
      eapply wp_ret, Hdead. exact Hh3.
    + apply wp_bind. eapply wp_write; [exact Hh1|entry_eq|by apply becomes_same|]. intros s2 Hh2.
      apply wp_ret. apply wp_bind.
      assert (Hb3 : becomes b (u32 (Z.lor (clear b1 IE_BITS_TYPE_MASK) MACH_PORT_TYPE_DEAD_NAME + 1))
                      MACH_PORT_TYPE_DEAD_NAME (u + 1) false false).
      { eapply becomes_trans; [exact Hb2|]. apply add_urefs; [apply Hb2|lia]. }
      eapply wp_write; [exact Hh2|entry_eq|exact Hb3|]. intros s3 Hh3.
      apply wp_bind. eapply wp_write; [exact Hh3|entry_eq|by apply becomes_same, Hb3|]. intros s4 Hh4.
      eapply wp_ret, Hdead. exact Hh4.
Qed.
End check.

(** ** Conservation of rights *)

Definition count (b : bool) : Z := if b then 1 else 0.
Definition holds_send (t : Z) : Z := count (has t MACH_PORT_TYPE_SEND).
Definition holds_sonce (t : Z) : Z := count (has t MACH_PORT_TYPE_SEND_ONCE).
Definition holds_ref (t : Z) : Z := count (has t MACH_PORT_TYPE_PORT_RIGHTS).

(** From [p] to [p'], with an entry that had type [t] and has type [t'], and
    [ds] send rights, [dso] send-once rights and [dr] references handed out. *)
Record balanced (p p' : ipc_port) (t t' ds dso dr : Z) : Prop := {
  bal_send : ip_srights p' = u32 (ip_srights p + holds_send t' - holds_send t + ds);
  bal_sonce : ip_sorights p' = u32 (ip_sorights p + holds_sonce t' - holds_sonce t + dso);
  bal_refs : ip_references p' = u32 (ip_references p + holds_ref t' - holds_ref t + dr)
}.

Definition counts_ok (p : ipc_port) : Prop :=
  u32_range (ip_references p) /\ u32_range (ip_srights p) /\ u32_range (ip_sorights p).

Lemma balanced_ext p p1 p2 t t' ds dso dr :
  counts p2 = counts p1 -> balanced p p1 t t' ds dso dr -> balanced p p2 t t' ds dso dr.
Proof. unfold counts. intros [= E1 E2 E3] []. split; congruence. Qed.

(** An entry of another space takes what was handed out. *)
Lemma balanced_trans p p1 p2 t t1 t2 ds dso dr :
  balanced p p1 t t1 ds dso dr -> balanced p1 p2 0 t2 (- ds) (- dso) (- dr) ->
  ds = holds_send t2 -> dso = holds_sonce t2 -> dr = holds_ref t2 ->
  balanced p p2 t t1 (holds_send t2) (holds_sonce t2) (holds_ref t2).
Proof.
  assert (Hu : forall x a b c, u32 (u32 x + a - b + c) = u32 (x + (a - b + c))).
  { intros x a b c. rewrite <- (u32_add_u32 x). f_equal. lia. }
  intros [E1 E2 E3] [F1 F2 F3] -> -> ->.
  change (holds_send 0) with 0 in F1. change (holds_sonce 0) with 0 in F2. change (holds_ref 0) with 0 in F3.
  rewrite E1, Hu in F1. rewrite E2, Hu in F2. rewrite E3, Hu in F3.
  split; [rewrite F1|rewrite F2|rewrite F3]; f_equal; lia.
Qed.

(** Prove the three equations when the types are known. *)
Ltac balance :=
  match goal with Hc : counts_ok ?p |- _ => destruct Hc as (? & ? & ?) end;
  split; unfold holds_send, holds_sonce, holds_ref; simpl; rewrite ?u32_add_u32;
  first [done | f_equal; lia
        | match goal with |- ?x = u32 ?y => replace y with x by lia; symmetry; by apply u32_id end].

(** ** Copyin from an entry whose port is alive *)

Definition gives_send (m : Z) : bool :=
  (m =? MACH_MSG_TYPE_MAKE_SEND) || (m =? MACH_MSG_TYPE_COPY_SEND) || (m =? MACH_MSG_TYPE_MOVE_SEND).
Definition gives_sonce (m : Z) : bool :=
  (m =? MACH_MSG_TYPE_MAKE_SEND_ONCE) || (m =? MACH_MSG_TYPE_MOVE_SEND_ONCE).

(** The rights that allow a copyin. *)
Definition permits (m t : Z) : bool :=
  if takes_receive m then has t MACH_PORT_TYPE_RECEIVE
  else if m =? MACH_MSG_TYPE_MOVE_SEND_ONCE then has t MACH_PORT_TYPE_SEND_ONCE
  else has t MACH_PORT_TYPE_SEND.

Section copyin.
Context {Sp : Type} `{!NameSpace Sp, !NameSpaceLaws Sp} `{PortConfig}.

(** The state after a right has been taken out of the entry. *)
Definition taken (h0 : option Z) (s0 : Sp) (name : Z) (r : entry_ref) (m port : Z) (p : ipc_port)
    (t q : Z) (co : bool) (w : world) (dn : Z) (s' : Sp) (w' : world) : Prop :=
  exists p' b' o' q' t' u' ma',
    held h0 s0 name r s' b' o' q' t' u' ma' co /\
    (if t' =? 0 then o' = IO_NULL /\ q' = 0 else wf_right t' u' ma' co o' q' /\ o' = port) /\
    w_ports w' = <[port := p']> (w_ports w) /\ ip_active p' = true /\
    balanced p p' t t' (count (gives_send m)) (count (gives_sonce m)) 1 /\
    (dn <> IP_NULL -> t' = 0 /\ exists d, ip_dnrequests p = Some d /\ registered d q = Some (name, dn)).

(** The entry and the port a copyin works on. *)
Record alive (h0 : option Z) (s0 : Sp) (name : Z) (r : entry_ref) (s : Sp) (w : world)
    (port : Z) (p : ipc_port) (b t u q : Z) (ma co : bool) : Prop := {
  a_held : held h0 s0 name r s b port q t u ma co;
  a_wf : wf_right t u ma co port q;
  a_right : has t MACH_PORT_TYPE_PORT_RIGHTS = true;
  a_port : w_ports w !! port = Some p;
  a_active : ip_active p = true;
  a_counts : counts_ok p;
  a_dn : dn_known p name q
}.

Lemma copyin_make_send_spec h0 s0 name r s w port p b t u q ma co i :
  alive h0 s0 name r s w port p b t u q ma co -> has t MACH_PORT_TYPE_RECEIVE = true ->
  wp (copyin_make_send r (mk_entry b port q i)) (fun res st =>
    res = (KERN_SUCCESS, port, IP_NULL) /\
    taken h0 s0 name r MACH_MSG_TYPE_MAKE_SEND port p t q co w IP_NULL st.1 st.2) (s, w).
Proof.
  intros [Hh Hwf Hpr Hp Hact Hc Hdn] Ht. pose proof (h_desc _ _ _ _ _ _ _ _ _ _ _ _ Hh) as Hd.
  unfold copyin_make_send. cbn [ie_bits ie_object]. decide_bits. rewrite Ht. simpl.
  apply wp_bind. eapply wp_world; [eapply update_port_run; port_known|].
  apply wp_bind. eapply wp_world; [unfold ip_reference; eapply update_port_run; port_known|].
  apply wp_ret. split; [done|]. rewrite put_port_put. eexists _, b, port, q, t, u, ma. split_and!; [done| |done|done| |done].
  - destruct (Z.eqb_spec t 0) as [->|]; [done|]. done.
  - balance.
Qed.

Lemma receivable_ext w w' p p' :
  w_threads w' = w_threads w -> w_kmsgs w' = w_kmsgs w -> w_psets w' = w_psets w ->
  ip_seqno p' = ip_seqno p -> ip_messages p' = ip_messages p -> ip_pset p' = ip_pset p ->
  receivable w p -> receivable w' p'.
Proof.
  intros Ht Hk Hs E1 E2 E3 (H1 & H2 & H3). unfold receivable. rewrite E1, E2, E3, Hs.
  assert (Hq : forall q, queue_ok w q -> queue_ok w' q) by (intros q []; split; by rewrite ?Ht, ?Hk).
  split_and!; [done|by apply Hq|]. intros Hne. destruct (H3 Hne) as (x & ? & ?). eauto.
Qed.

Lemma cancels_queue p name q co p' dn ev :
  cancels p name q co p' dn ev ->
  ip_seqno p' = ip_seqno p /\ ip_messages p' = ip_messages p /\ ip_pset p' = ip_pset p.
Proof.
  unfold cancels. destruct (q =? 0); [by intros (-> & _)|]. by intros (d & d' & so & _ & _ & -> & _).
Qed.

Lemma cancels_dn p name q co p' dn ev :
  cancels p name q co p' dn ev -> dn <> IP_NULL ->
  exists d, ip_dnrequests p = Some d /\ registered d q = Some (name, dn).
Proof.
  unfold cancels. destruct (q =? 0); [by intros (_ & -> & _)|].
  intros (d & d' & so & Hd & Hr & _ & _ & _ & _ & -> & _) Hne. destruct co; [done|]. eauto.
Qed.

Lemma copyin_make_send_once_spec h0 s0 name r s w port p b t u q ma co i :
  alive h0 s0 name r s w port p b t u q ma co -> has t MACH_PORT_TYPE_RECEIVE = true ->
  wp (copyin_make_send_once r (mk_entry b port q i)) (fun res st =>
    res = (KERN_SUCCESS, port, IP_NULL) /\
    taken h0 s0 name r MACH_MSG_TYPE_MAKE_SEND_ONCE port p t q co w IP_NULL st.1 st.2) (s, w).
Proof.
  intros [Hh Hwf Hpr Hp Hact Hc Hdn] Ht. pose proof (h_desc _ _ _ _ _ _ _ _ _ _ _ _ Hh) as Hd.
  unfold copyin_make_send_once. cbn [ie_bits ie_object]. decide_bits. rewrite Ht. simpl.
  apply wp_bind. eapply wp_world; [eapply update_port_run; port_known|].
  apply wp_bind. eapply wp_world; [unfold ip_reference; eapply update_port_run; port_known|].
  apply wp_ret. split; [done|]. rewrite put_port_put. eexists _, b, port, q, t, u, ma. split_and!; [done| |done|done| |done].
  - destruct (Z.eqb_spec t 0) as [->|]; [done|]. done.
  - balance.
Qed.

Lemma copyin_copy_send_spec h0 s0 name r s w port p b t u q ma co deadok i :
  alive h0 s0 name r s w port p b t u q ma co -> has t MACH_PORT_TYPE_SEND = true ->
  wp (copyin_copy_send name deadok r (mk_entry b port q i)) (fun res st =>
    res = (KERN_SUCCESS, port, IP_NULL) /\
    taken h0 s0 name r MACH_MSG_TYPE_COPY_SEND port p t q co w IP_NULL st.1 st.2) (s, w).
Proof.
  intros [Hh Hwf Hpr Hp Hact Hc Hdn] Ht. pose proof (h_desc _ _ _ _ _ _ _ _ _ _ _ _ Hh) as Hd.
  unfold copyin_copy_send. cbn [ie_bits ie_object]. decide_bits.
  assert (Ht' : has t MACH_PORT_TYPE_DEAD_NAME = false /\ has t MACH_PORT_TYPE_SEND_RIGHTS = true)
    by (by destruct Hwf). destruct Ht' as [-> ->]. simpl.
  apply wp_bind. eapply wp_check; [done|done|done|congruence| |congruence..]. intros _.
  rewrite Ht. simpl.
  apply wp_bind. eapply wp_world; [eapply update_port_run; port_known|].
  apply wp_bind. eapply wp_world; [unfold ip_reference; eapply update_port_run; port_known|].
  apply wp_ret. split; [done|]. rewrite put_port_put. eexists _, b, port, q, t, u, ma. split_and!; [done| |done|done| |done].
  - destruct (Z.eqb_spec t 0) as [->|]; [done|]. done.
  - balance.
Qed.

Lemma copyin_move_send_once_spec h0 s0 name r s w port p b t u q ma co deadok i :
  alive h0 s0 name r s w port p b t u q ma co -> has t MACH_PORT_TYPE_SEND_ONCE = true ->
  wp (copyin_move_send_once name deadok r (mk_entry b port q i)) (fun res st =>
    exists dn, res = (KERN_SUCCESS, port, dn) /\
    taken h0 s0 name r MACH_MSG_TYPE_MOVE_SEND_ONCE port p t q co w dn st.1 st.2) (s, w).
Proof.
  intros [Hh Hwf Hpr Hp Hact Hc Hdn] Ht. inversion Hwf; subst; try done. clear Ht.
  pose proof (h_desc _ _ _ _ _ _ _ _ _ _ _ _ Hh) as Hd.
  unfold copyin_move_send_once. cbn [ie_bits ie_object]. decide_bits. eval_types.
  apply wp_bind. eapply wp_check; [done|done|done|congruence| |congruence..]. intros _. simpl.
  apply wp_bind. eapply wp_dncancel; [done|done|done|]. intros s1 p1 dn ev Hh1 Hcan.
  apply wp_bind. eapply wp_write; [exact Hh1|entry_eq|by apply becomes_same|]. intros s2 Hh2.
  apply wp_bind. eapply wp_write; [exact Hh2|entry_eq|by apply clear_type|]. intros s3 Hh3.
  apply wp_ret. exists dn. split; [done|]. destruct (cancels_counts _ _ _ _ _ _ _ Hcan) as (Hcn & Hact1 & _).
  eexists p1, _, _, _, _, _, _. split_and!; [exact Hh3|done|done|congruence| |].
  - apply (balanced_ext _ p); [done|]. balance.
  - intros Hne. split; [done|]. by eapply cancels_dn.
Qed.

(** Live send rights of a well-formed entry. *)
Lemma wf_has_send t u ma co o q :
  wf_right t u ma co o q -> has t MACH_PORT_TYPE_SEND = true ->
  0 < u < MACH_PORT_UREFS_MAX /\ has t MACH_PORT_TYPE_DEAD_NAME = false /\
  has t MACH_PORT_TYPE_SEND_RIGHTS = true /\ (t =? 0) = false /\
  (t = MACH_PORT_TYPE_SEND \/ t = MACH_PORT_TYPE_SEND_RECEIVE).
Proof. destruct 1; try done; intros _; unfold MACH_PORT_UREFS_MAX in *; split_and!; auto; lia. Qed.

Lemma wf_fewer_urefs t u u' ma co o q :
  wf_right t u ma co o q -> has t MACH_PORT_TYPE_SEND = true -> 0 < u' < MACH_PORT_UREFS_MAX ->
  wf_right t u' ma co o q.
Proof. destruct 1; try done; by constructor. Qed.

Lemma copyin_move_send_spec h0 s0 name r s w port p b t u q ma co deadok i :
  alive h0 s0 name r s w port p b t u q ma co -> has t MACH_PORT_TYPE_SEND = true ->
  wp (copyin_move_send name deadok r (mk_entry b port q i)) (fun res st =>
    exists dn, res = (KERN_SUCCESS, port, dn) /\
    taken h0 s0 name r MACH_MSG_TYPE_MOVE_SEND port p t q co w dn st.1 st.2) (s, w).
Proof.
  intros [Hh Hwf Hpr Hp Hact Hc Hdn] Ht. pose proof (h_desc _ _ _ _ _ _ _ _ _ _ _ _ Hh) as Hd.
  destruct (wf_has_send _ _ _ _ _ _ Hwf Ht) as (Hu & Hnd & Hsr & Hnz & Hty).
  unfold copyin_move_send. cbn [ie_bits ie_object]. decide_bits. rewrite Hnd, Hsr. cbn [negb].
  apply wp_bind. eapply wp_check; [done|done|done|congruence| |congruence..]. intros _. rewrite Ht. cbn [negb].
  destruct (Z.eqb_spec u 1) as [->|Hne].
  - destruct Hty as [-> | ->]; eval_types; apply wp_bind.
    + apply wp_bind. eapply wp_dncancel; [done|done|done|]. intros s1 p1 dn ev Hh1 Hcan.
      apply wp_bind. eapply wp_hash_delete; [exact Hh1|]. intros s2 Hh2.
      apply wp_bind, (wp_marequest _ _ ma); [apply Hd|].
      apply wp_bind. eapply wp_write; [exact Hh2|entry_eq|by apply becomes_same|]. intros s3 Hh3.
      apply wp_ret. apply wp_bind. eapply wp_write; [exact Hh3|entry_eq|by eapply clear_send|]. intros s4 Hh4.
      apply wp_ret. exists dn. split; [done|]. destruct (cancels_counts _ _ _ _ _ _ _ Hcan) as (Hcn & Hact1 & _).
      eexists p1, _, _, _, _, _, _. split_and!; [exact Hh4|done|done|congruence| |].
      * apply (balanced_ext _ p); [done|]. balance.
      * intros Hdne. split; [done|]. by eapply cancels_dn.
    + apply wp_bind. eapply wp_world; [unfold ip_reference; eapply update_port_run; port_known|].
      apply wp_ret. apply wp_bind. eapply wp_write; [exact Hh|entry_eq|by eapply clear_send|]. intros s4 Hh4.
      apply wp_ret. exists IP_NULL. split; [done|].
      eexists _, _, _, _, _, _, _. split_and!; [exact Hh4| |done|done|balance|done].
      simpl. split; [|done]. inversion Hwf; subst; by constructor.
  - unfold MACH_PORT_UREFS_MAX in Hu.
    apply wp_bind. eapply wp_world; [eapply update_port_run; port_known|].
    apply wp_bind. eapply wp_world; [unfold ip_reference; eapply update_port_run; port_known|].
    apply wp_bind. eapply wp_write; [exact Hh|entry_eq|apply (add_urefs b (-1)); [done|lia]|]. intros s4 Hh4.
    apply wp_ret. exists IP_NULL. split; [done|]. rewrite put_port_put.
    eexists _, _, _, _, _, _, _. split_and!; [exact Hh4| |done|done|balance|done].
    rewrite Hnz. split; [|done]. eapply wf_fewer_urefs; [done|done|]. unfold MACH_PORT_UREFS_MAX. lia.
Qed.

(** The receive right in transit has no receiver. *)
Lemma clear_receiver_wp s w port p (Q : unit -> Sp * world -> Prop) :
  w_ports w !! port = Some p -> receivable w p ->
  (forall w' p', w_ports w' = <[port := p']> (w_ports w) -> rest_of p' = rest_of p ->
     ip_mscount p' = 0 -> ip_pset p' = IPS_NULL -> Q tt (s, w')) ->
  wp (on_world (ipc_port_clear_receiver port)) Q (s, w).
Proof.
  intros Hp Hr HQ. destruct (clear_receiver_spec w port p Hp Hr) as (w' & p' & Hrun & Hports & _ & Hrest & Hms & _ & Hps).
  eapply wp_world; [exact Hrun|]. eauto.
Qed.

Lemma rest_counts p p' : rest_of p' = rest_of p -> counts p' = counts p /\ ip_active p' = ip_active p.
Proof. unfold rest_of, counts, ip_active. by intros [= -> -> _ _ -> -> _]. Qed.

Lemma copyin_move_receive_spec h0 s0 name r s w port p b t u q ma co i :
  alive h0 s0 name r s w port p b t u q ma co -> has t MACH_PORT_TYPE_RECEIVE = true -> receivable w p ->
  wp (copyin_move_receive name r (mk_entry b port q i)) (fun res st =>
    exists dn, res = (KERN_SUCCESS, port, dn) /\
    taken h0 s0 name r MACH_MSG_TYPE_MOVE_RECEIVE port p t q co w dn st.1 st.2 /\
    exists p', w_ports st.2 !! port = Some p' /\ ip_receiver_name p' = MACH_PORT_NULL /\
      ip_destination p' = IP_NULL /\ ip_mscount p' = 0 /\ ip_pset p' = IPS_NULL) (s, w).
Proof.
  intros [Hh Hwf Hpr Hp Hact Hc Hdn] Ht Hrv. pose proof (h_desc _ _ _ _ _ _ _ _ _ _ _ _ Hh) as Hd.
  unfold copyin_move_receive. cbn [ie_bits ie_object]. decide_bits. rewrite Ht. cbn [negb].
  apply wp_bind. eapply wp_world; [by apply port_at_run|].
  inversion Hwf; subst; try done; eval_types; apply wp_bind.
  - apply wp_bind. eapply wp_dncancel; [done|done|done|]. intros s1 p1 dn ev Hh1 Hcan.
    apply wp_bind, (wp_marequest _ _ ma); [apply Hd|].
    apply wp_bind. eapply wp_write; [exact Hh1|entry_eq|by apply becomes_same|]. intros s3 Hh3.
    apply wp_ret. apply wp_bind. eapply wp_write; [exact Hh3|entry_eq|by apply clear_type|]. intros s4 Hh4.
    destruct (cancels_counts _ _ _ _ _ _ _ Hcan) as (Hcn & Hact1 & _).
    destruct (cancels_queue _ _ _ _ _ _ _ Hcan) as (Hq1 & Hq2 & Hq3).
    apply wp_bind. eapply (clear_receiver_wp _ _ _ p1); [port_known|by eapply (receivable_ext w _ p)|].
    intros w' p' Hports Hrest Hms Hps. destruct (rest_counts _ _ Hrest) as [Hcn' Hact'].
    apply wp_bind. eapply wp_world; [eapply update_port_run; rewrite Hports, lookup_insert_eq; reflexivity|].
    apply wp_ret. exists dn. split_and!; [done| |].
    + eexists (no_receiver p'), _, _, _, _, _, _. split_and!; [exact Hh4|done| | | |].
      * simpl. rewrite Hports. simpl. by rewrite !insert_insert_eq.
      * change (ip_active p' = true). congruence.
      * apply (balanced_ext _ p); [change (counts p' = counts p); congruence|]. balance.
      * intros Hdne. split; [done|]. by eapply cancels_dn.
    + exists (no_receiver p'). simpl. by rewrite lookup_insert_eq.
  - apply wp_bind. eapply wp_hash_insert; [done|]. intros s1 Hh1.
    apply wp_bind. eapply wp_world; [unfold ip_reference; eapply update_port_run; port_known|].
    apply wp_ret. apply wp_bind. eapply wp_write; [exact Hh1|entry_eq|by apply clear_type|]. intros s4 Hh4.
    set (p1 := set_ip_references _ p).
    apply wp_bind. eapply (clear_receiver_wp _ _ _ p1); [port_known|by eapply (receivable_ext w _ p)|].
    intros w' p' Hports Hrest Hms Hps. destruct (rest_counts _ _ Hrest) as [Hcn' Hact'].
    apply wp_bind. eapply wp_world; [eapply update_port_run; rewrite Hports, lookup_insert_eq; reflexivity|].
    apply wp_ret. exists IP_NULL. split_and!; [done| |].
    + eexists (no_receiver p'), _, _, _, _, _, _. split_and!; [exact Hh4| | | | |done].
      * simpl. split; [|done]. by constructor.
      * simpl. rewrite Hports. simpl. by rewrite !insert_insert_eq.
      * change (ip_active p' = true). rewrite Hact'. exact Hact.
      * apply (balanced_ext _ p1); [exact Hcn'|]. unfold p1. balance.
    + exists (no_receiver p'). simpl. by rewrite lookup_insert_eq.
Qed.

(** The message types a copyin knows. *)
Definition copyin_type (m : Z) : bool := takes_receive m || takes_send m.

Lemma copyin_type_cases m : copyin_type m = true ->
  m = MACH_MSG_TYPE_MAKE_SEND \/ m = MACH_MSG_TYPE_MAKE_SEND_ONCE \/ m = MACH_MSG_TYPE_MOVE_RECEIVE \/
  m = MACH_MSG_TYPE_COPY_SEND \/ m = MACH_MSG_TYPE_MOVE_SEND \/ m = MACH_MSG_TYPE_MOVE_SEND_ONCE.
Proof. unfold copyin_type, takes_receive, takes_send. rewrite !orb_true_iff, !Z.eqb_eq. tauto. Qed.

(** A copyin that is not permitted changes nothing. *)
Lemma copyin_refused h0 s0 name r s w port p b t u q ma co m deadok :
  alive h0 s0 name r s w port p b t u q ma co -> copyin_type m = true -> permits m t = false ->
  wp (ipc_right_copyin name r m deadok) (fun res st =>
    res = (KERN_INVALID_RIGHT, IO_NULL, IP_NULL) /\ st = (s, w)) (s, w).
Proof.
  intros [Hh Hwf Hpr Hp Hact Hc Hdn] Hm Hperm. pose proof (h_desc _ _ _ _ _ _ _ _ _ _ _ _ Hh) as Hd.
  unfold ipc_right_copyin. apply wp_bind. eapply wp_read; [done|]. intros i.
  assert (Hdead : has t MACH_PORT_TYPE_DEAD_NAME = false) by (destruct Hwf; done).
  destruct (copyin_type_cases m Hm) as [-> |[-> |[-> |[-> |[-> | ->]]]]]; eval_types;
    unfold permits in Hperm; simpl in Hperm.
  - unfold copyin_make_send. cbn [ie_bits]. decide_bits. rewrite Hperm. by apply wp_ret.
  - unfold copyin_make_send_once. cbn [ie_bits]. decide_bits. rewrite Hperm. by apply wp_ret.
  - unfold copyin_move_receive. cbn [ie_bits]. decide_bits. rewrite Hperm. by apply wp_ret.
  - unfold copyin_copy_send. cbn [ie_bits ie_object]. decide_bits. rewrite Hdead.
    destruct (has t MACH_PORT_TYPE_SEND_RIGHTS); cbn [negb]; [|by apply wp_ret].
    apply wp_bind. eapply wp_check; [done|done|done|congruence| |congruence..]. intros _.
    rewrite Hperm. by apply wp_ret.
  - unfold copyin_move_send. cbn [ie_bits ie_object]. decide_bits. rewrite Hdead.
    destruct (has t MACH_PORT_TYPE_SEND_RIGHTS); cbn [negb]; [|by apply wp_ret].
    apply wp_bind. eapply wp_check; [done|done|done|congruence| |congruence..]. intros _.
    rewrite Hperm. by apply wp_ret.
  - unfold copyin_move_send_once. cbn [ie_bits ie_object]. decide_bits. rewrite Hdead.
    destruct (has t MACH_PORT_TYPE_SEND_RIGHTS); cbn [negb]; [|by apply wp_ret].
    apply wp_bind. eapply wp_check; [done|done|done|congruence| |congruence..]. intros _.
    rewrite Hperm. by apply wp_ret.
Qed.

Lemma copyin_spec h0 s0 name r s w port p b t u q ma co m deadok :
  alive h0 s0 name r s w port p b t u q ma co -> copyin_type m = true -> permits m t = true ->
  (m = MACH_MSG_TYPE_MOVE_RECEIVE -> receivable w p) ->
  wp (ipc_right_copyin name r m deadok) (fun res st =>
    exists dn, res = (KERN_SUCCESS, port, dn) /\
      taken h0 s0 name r m port p t q co w dn st.1 st.2) (s, w).
Proof.
  intros Ha Hm Hperm Hrv. unfold ipc_right_copyin. apply wp_bind. eapply wp_read; [apply Ha|]. intros i.
  destruct (copyin_type_cases m Hm) as [-> |[-> |[-> |[-> |[-> | ->]]]]]; eval_types;
    unfold permits in Hperm; simpl in Hperm.
  - eapply wp_mono; [by eapply copyin_make_send_spec|]. intros res st [? ?]. eauto.
  - eapply wp_mono; [by eapply copyin_make_send_once_spec|]. intros res st [? ?]. eauto.
  - eapply wp_mono; [eapply copyin_move_receive_spec; eauto|]. intros res st (dn & ? & ? & _). eauto.
  - eapply wp_mono; [by eapply copyin_copy_send_spec|]. intros res st [? ?]. eauto.
  - by eapply copyin_move_send_spec.
  - by eapply copyin_move_send_once_spec.
Qed.

(** ** Copyin from an entry whose port has died *)

Definition urefs_taken (m : Z) : Z := if m =? MACH_MSG_TYPE_COPY_SEND then 0 else 1.

(** A dead name the entry has become, or was: with [deadok] the dead object is
    copied in and a user reference goes; without, nothing happens. *)
Definition dead_taken (h0 : option Z) (s0 : Sp) (name : Z) (r : entry_ref) (m u : Z) (deadok : bool)
    (res : copied) (s' : Sp) : Prop :=
  if deadok then
    res = (KERN_SUCCESS, IO_DEAD, IP_NULL) /\
    exists b' t', held h0 s0 name r s' b' IO_NULL 0 t' (if t' =? 0 then u else u - urefs_taken m) false false /\
      (t' = 0 /\ u = urefs_taken m \/ t' = MACH_PORT_TYPE_DEAD_NAME /\ 0 < u - urefs_taken m)
  else
    res = (KERN_INVALID_RIGHT, IO_NULL, IP_NULL) /\
    exists b', held h0 s0 name r s' b' IO_NULL 0 MACH_PORT_TYPE_DEAD_NAME u false false.

Lemma copy_dead_spec h0 s0 name r s w b u deadok :
  held h0 s0 name r s b IO_NULL 0 MACH_PORT_TYPE_DEAD_NAME u false false -> 0 < u <= MACH_PORT_UREFS_MAX ->
  wp (copy_dead deadok) (fun res st =>
    dead_taken h0 s0 name r MACH_MSG_TYPE_COPY_SEND u deadok res st.1 /\ st.2 = w) (s, w).
Proof.
  intros Hh Hu. unfold copy_dead, dead_taken. destruct deadok; apply wp_ret; (split; [|done]); (split; [done|]).
  - exists b, MACH_PORT_TYPE_DEAD_NAME. unfold urefs_taken. simpl. rewrite Z.sub_0_r. split; [done|]. right. lia.
  - by exists b.
Qed.

Lemma move_dead_spec h0 s0 name r s w b u m deadok :
  held h0 s0 name r s b IO_NULL 0 MACH_PORT_TYPE_DEAD_NAME u false false -> 0 < u <= MACH_PORT_UREFS_MAX ->
  m <> MACH_MSG_TYPE_COPY_SEND ->
  wp (move_dead deadok b r) (fun res st => dead_taken h0 s0 name r m u deadok res st.1 /\ st.2 = w) (s, w).
Proof.
  intros Hh Hu Hm. pose proof (h_desc _ _ _ _ _ _ _ _ _ _ _ _ Hh) as Hd. unfold MACH_PORT_UREFS_MAX in Hu.
  assert (Hone : urefs_taken m = 1) by (unfold urefs_taken; by rewrite (proj2 (Z.eqb_neq _ _))).
  unfold move_dead, dead_taken. destruct deadok; [|by apply wp_ret; split_and!; eauto]. cbn [negb]. decide_bits.
  apply wp_bind. rewrite Hone. destruct (Z.eqb_spec u 1) as [->|].
  - eapply wp_write; [done|entry_eq|by apply clear_type|]. intros s' Hh'. apply wp_ret.
    split_and!; [done| |done]. eexists _, 0. split; [exact Hh'|]. by left.
  - eapply wp_write; [done|entry_eq|apply (add_urefs b (-1)); [done|lia]|]. intros s' Hh'. apply wp_ret.
    split_and!; [done| |done]. eexists _, _. split; [exact Hh'|]. right. split; [done|lia].
Qed.

Lemma dead_urefs_bound t u ma co o q :
  wf_right t u ma co o q -> mortal t -> 0 < dead_urefs u q <= MACH_PORT_UREFS_MAX.
Proof.
  intros Hwf Hm. pose proof (wf_mortal_urefs _ _ _ _ _ _ Hwf Hm). unfold dead_urefs, MACH_PORT_UREFS_MAX in *.
  destruct (q =? 0); lia.
Qed.

Lemma copyin_dead_spec h0 s0 name r s w port p b t u q ma co m deadok :
  held h0 s0 name r s b port q t u ma co -> wf_right t u ma co port q -> mortal t ->
  w_ports w !! port = Some p -> ip_active p = false -> takes_send m = true ->
  wp (ipc_right_copyin name r m deadok) (fun res st =>
    st.2 = released port p (emitted (check_events t ma name) w) /\
    if co then res = (KERN_INVALID_NAME, IO_NULL, IP_NULL) /\ gone h0 s0 name st.1
    else dead_taken h0 s0 name r m (dead_urefs u q) deadok res st.1) (s, w).
Proof.
  intros Hh Hwf Hmo Hp Hact Hm. pose proof (h_desc _ _ _ _ _ _ _ _ _ _ _ _ Hh) as Hd.
  pose proof (dead_urefs_bound _ _ _ _ _ _ Hwf Hmo) as Hu.
  assert (Ht : has t MACH_PORT_TYPE_DEAD_NAME = false /\ has t MACH_PORT_TYPE_SEND_RIGHTS = true)
    by (by destruct Hmo as [-> | ->]). destruct Ht as [Ht1 Ht2].
  unfold ipc_right_copyin. apply wp_bind. eapply wp_read; [done|]. intros i.
  unfold takes_send in Hm. rewrite !orb_true_iff, !Z.eqb_eq in Hm.
  destruct Hm as [[-> | ->]| ->]; eval_types.
  - unfold copyin_copy_send. cbn [ie_bits ie_object]. decide_bits. rewrite Ht1, Ht2. cbn [negb].
    apply wp_bind. eapply wp_check; [done|done|done|done|congruence|..]; intros _ ->.
    + intros s' Hg. by apply wp_ret.
    + intros s' b' Hh'. eapply wp_mono; [by eapply copy_dead_spec|]. by intros res [? ?] [? ?].
  - unfold copyin_move_send. cbn [ie_bits ie_object]. decide_bits. rewrite Ht1, Ht2. cbn [negb].
    apply wp_bind. eapply wp_check; [done|done|done|done|congruence|..]; intros _ ->.
    + intros s' Hg. by apply wp_ret.
    + intros s' b' Hh'. apply wp_bind. eapply wp_read; [exact Hh'|]. intros ?. cbn [ie_bits].
      eapply wp_mono; [by eapply (move_dead_spec _ _ _ _ _ _ _ _ MACH_MSG_TYPE_MOVE_SEND)|]. by intros res [? ?] [? ?].
  - unfold copyin_move_send_once. cbn [ie_bits ie_object]. decide_bits. rewrite Ht1, Ht2. cbn [negb].
    apply wp_bind. eapply wp_check; [done|done|done|done|congruence|..]; intros _ ->.
    + intros s' Hg. by apply wp_ret.
    + intros s' b' Hh'. apply wp_bind. eapply wp_read; [exact Hh'|]. intros ?. cbn [ie_bits].
      eapply wp_mono; [by eapply (move_dead_spec _ _ _ _ _ _ _ _ MACH_MSG_TYPE_MOVE_SEND_ONCE)|]. by intros res [? ?] [? ?].
Qed.
End copyin.
