(* ===== verification/RightOps.v ===== *)
(** * What the operations on rights do: copyout, user references, destruction

    The entry and its port are described as in RightInv.v: [alive] for an
    entry with a live port, [held] for the entry afterwards, [gone] when it
    has been deallocated. *)

From S2P Require Import Prelude Names Splay Table Space Hash Entry EntryInv Alloc World Port.
From S2P Require Import PortInv PortQueue Right RightBits RightLaws RightWp RightInv.

Section ops.
Context {Sp : Type} `{!NameSpace Sp, !NameSpaceLaws Sp} `{PortConfig}.

(** ** ipc_right_copyin_check *)

Lemma copyin_check_spec h0 s0 name r s w port p b t u q ma co m :
  alive h0 s0 name r s w port p b t u q ma co -> copyin_type m = true ->
  ipc_right_copyin_check name r m (s, w) = Some (permits m t, (s, w)).
Proof.
  intros [Hh Hwf Hpr Hp Hact Hc Hdn] Hm. pose proof (h_desc _ _ _ _ _ _ _ _ _ _ _ _ Hh) as Hd.
  enough (wp (ipc_right_copyin_check name r m) (fun x st => x = permits m t /\ st = (s, w)) (s, w)) as Hwp.
  { apply wp_returns in Hwp as (x & st & -> & -> & ->). done. }
  unfold ipc_right_copyin_check. apply wp_bind. eapply wp_read; [done|]. intros i. cbn [ie_bits ie_object].
  unfold copyin_type in Hm. unfold permits. destruct (takes_receive m) eqn:Htr; simpl in Hm.
  { decide_bits. by apply wp_ret. }
  rewrite Hm. decide_bits. assert (Hdead : has t MACH_PORT_TYPE_DEAD_NAME = false) by (by destruct Hwf).
  rewrite Hdead. destruct (has t MACH_PORT_TYPE_SEND_RIGHTS) eqn:Hsr; cbn [negb].
  - apply wp_bind. eapply wp_world; [by apply port_at_run|]. rewrite Hact. cbn [negb].
    destruct (m =? MACH_MSG_TYPE_MOVE_SEND_ONCE); by apply wp_ret.
  - apply wp_ret. split; [|done]. destruct (m =? MACH_MSG_TYPE_MOVE_SEND_ONCE); by destruct Hwf.
Qed.

Lemma copyin_check_dead_spec h0 s0 name r s w port p b t u q ma co m :
  held h0 s0 name r s b port q t u ma co -> wf_right t u ma co port q -> mortal t ->
  w_ports w !! port = Some p -> ip_active p = false -> takes_send m = true ->
  ipc_right_copyin_check name r m (s, w) = Some (negb co, (s, w)).
Proof.
  intros Hh Hwf Hmo Hp Hact Hm. pose proof (h_desc _ _ _ _ _ _ _ _ _ _ _ _ Hh) as Hd.
  enough (wp (ipc_right_copyin_check name r m) (fun x st => x = negb co /\ st = (s, w)) (s, w)) as Hwp.
  { apply wp_returns in Hwp as (x & st & -> & -> & ->). done. }
  unfold ipc_right_copyin_check. apply wp_bind. eapply wp_read; [done|]. intros i. cbn [ie_bits ie_object].
  assert (Htr : takes_receive m = false).
  { unfold takes_send in Hm. rewrite !orb_true_iff, !Z.eqb_eq in Hm. by destruct Hm as [[-> | ->]| ->]. }
  rewrite Htr, Hm. decide_bits.
  assert (Ht : has t MACH_PORT_TYPE_DEAD_NAME = false /\ has t MACH_PORT_TYPE_SEND_RIGHTS = true)
    by (by destruct Hmo as [-> | ->]). destruct Ht as [-> ->]. cbn [negb].
  apply wp_bind. eapply wp_world; [by apply port_at_run|]. rewrite Hact. by apply wp_ret.
Qed.

(** ** Copyout *)

(** The entry a right is copied out to: a new one that already names the
    port, or one with a right to the port. *)
Definition receptacle (t u : Z) (ma co : bool) (port q : Z) : Prop :=
  (t = 0 /\ u = 0 /\ ma = false /\ co = false /\ q = 0 /\ port <> IO_NULL) \/ wf_right t u ma co port q.

(** Which rights the entry can take. *)
Definition accepts (m t : Z) : Prop :=
  (m = MACH_MSG_TYPE_PORT_SEND_ONCE /\ t = 0) \/
  (m = MACH_MSG_TYPE_PORT_SEND /\
   (t = 0 \/ t = MACH_PORT_TYPE_SEND \/ t = MACH_PORT_TYPE_RECEIVE \/ t = MACH_PORT_TYPE_SEND_RECEIVE)) \/
  (m = MACH_MSG_TYPE_PORT_RECEIVE /\ (t = 0 \/ t = MACH_PORT_TYPE_SEND)).

Definition added_type (m : Z) : Z :=
  if m =? MACH_MSG_TYPE_PORT_SEND_ONCE then MACH_PORT_TYPE_SEND_ONCE
  else if m =? MACH_MSG_TYPE_PORT_SEND then MACH_PORT_TYPE_SEND else MACH_PORT_TYPE_RECEIVE.

Definition added_urefs (m : Z) : Z := if m =? MACH_MSG_TYPE_PORT_RECEIVE then 0 else 1.

(** The right is in the entry, and the port has one right less outside. *)
Definition given (h0 : option Z) (s0 : Sp) (name : Z) (r : entry_ref) (m port : Z) (p : ipc_port)
    (t u q : Z) (ma co : bool) (s' : Sp) (w' : world) (t' u' : Z) : Prop :=
  exists p' b', held h0 s0 name r s' b' port q t' u' ma co /\ wf_right t' u' ma co port q /\
    w_ports w' !! port = Some p' /\ ip_active p' = ip_active p /\
    balanced p p' t t' (- count (m =? MACH_MSG_TYPE_PORT_SEND)) (- count (m =? MACH_MSG_TYPE_PORT_SEND_ONCE)) (-1).

Lemma add_type b m t u ma co :
  described b t u ma co -> Z.land m IE_BITS_TYPE_MASK = m -> right_mask m ->
  becomes b (Z.lor b m) (Z.lor t m) u ma co.
Proof.
  intros Hd Hm Hr. destruct (lor_bits b m t u ma co Hd Hr) as [Hd' Hf]. split; [|done].
  assert (Hbit : forall i, 0 <= i -> i < 16 \/ 21 <= i -> Z.testbit m i = false).
  { intros i Hi Hc. rewrite <- Hm, Z.land_spec. destruct (mask_bits i Hi) as (_ & -> & _).
    destruct (Z.leb_spec 16 i), (Z.ltb_spec i 21); try lia; by rewrite andb_false_r. }
  rewrite !Hbit, !orb_false_r in Hd' by lia. unfold IE_BITS_TYPE in Hd' at 1. rewrite Hm in Hd'.
  replace (IE_BITS_UREFS m) with 0 in Hd'; [by rewrite Z.lor_0_r in Hd'|].
  symmetry. apply Z.bits_inj'. intros i Hi. unfold IE_BITS_UREFS. rewrite Z.land_spec, Z.bits_0.
  destruct (mask_bits i Hi) as (-> & _). destruct (Z.leb_spec 0 i), (Z.ltb_spec i 16); simpl; try lia; rewrite ?andb_false_r; try done.
  by rewrite Hbit by lia.
Qed.

Lemma copyout_send_once_spec addr h0 s0 name r s w port p b ov :
  held h0 s0 name r s b port 0 0 0 false false -> port <> IO_NULL ->
  w_ports w !! port = Some p -> counts_ok p ->
  wp (ipc_right_copyout addr name r MACH_MSG_TYPE_PORT_SEND_ONCE ov port) (fun kr st =>
    kr = KERN_SUCCESS /\ st.2 = w /\
    given h0 s0 name r MACH_MSG_TYPE_PORT_SEND_ONCE port p 0 0 0 false false st.1 st.2
      MACH_PORT_TYPE_SEND_ONCE 1) (s, w).
Proof.
  intros Hh Hport Hp Hc. pose proof (h_desc _ _ _ _ _ _ _ _ _ _ _ _ Hh) as Hd.
  unfold ipc_right_copyout. apply wp_bind. eapply wp_read; [done|]. intros i. cbn [ie_bits]. eval_types.
  apply wp_bind. eapply wp_write; [done|entry_eq| |].
  - by apply (lor_bits b (Z.lor MACH_PORT_TYPE_SEND_ONCE 1) 0 0 false false).
  - intros s' Hh'. apply wp_ret. split_and!; [done|done|]. exists p. eexists.
    split_and!; [exact Hh'|by constructor|done|done|]. balance.
Qed.

(** A send right is copied out: the entry gets a user reference, unless it
    would have too many. *)
Lemma copyout_send_spec addr h0 s0 name r s w port p b t u q ma co ov :
  held h0 s0 name r s b port q t u ma co -> receptacle t u ma co port q -> port <> IO_NULL ->
  accepts MACH_MSG_TYPE_PORT_SEND t -> w_ports w !! port = Some p -> counts_ok p ->
  wp (ipc_right_copyout addr name r MACH_MSG_TYPE_PORT_SEND ov port) (fun kr st =>
    if has t MACH_PORT_TYPE_SEND && (u + 1 =? MACH_PORT_UREFS_MAX) && negb ov
    then kr = KERN_UREFS_OVERFLOW /\ st = (s, w)
    else kr = KERN_SUCCESS /\
      given h0 s0 name r MACH_MSG_TYPE_PORT_SEND port p t u q ma co st.1 st.2
        (Z.lor t MACH_PORT_TYPE_SEND)
        (if has t MACH_PORT_TYPE_SEND && (u + 1 =? MACH_PORT_UREFS_MAX) then u else u + 1)) (s, w).
Proof.
  intros Hh Hrec Hport Hacc Hp Hc. pose proof (h_desc _ _ _ _ _ _ _ _ _ _ _ _ Hh) as Hd.
  unfold ipc_right_copyout. apply wp_bind. eapply wp_read; [done|]. intros i. cbn [ie_bits]. eval_types.
  destruct Hacc as [[? _]|[[_ Hacc]|[? _]]]; [done| |done].
  assert (Hu : 0 <= u < 65535).
  { destruct Hrec as [(-> & -> & _)|Hwf]; [lia|]. apply wf_urefs in Hwf as [? Hlt].
    specialize (Hlt ltac:(by destruct Hacc as [-> |[-> |[-> | ->]]])). lia. }
  assert (Hadd : becomes b (u32 (Z.lor b MACH_PORT_TYPE_SEND + 1)) (Z.lor t MACH_PORT_TYPE_SEND) (u + 1) ma co).
  { destruct (add_type b MACH_PORT_TYPE_SEND t u ma co Hd) as [Hd1 Hf1]; [done..|].
    eapply becomes_trans; [split; done|]. apply add_urefs; [done|lia]. }
  assert (Hsame : has t MACH_PORT_TYPE_SEND = true -> Z.lor t MACH_PORT_TYPE_SEND = t).
  { by destruct Hacc as [-> |[-> |[-> | ->]]]. }
  unfold copyout_send. decide_bits. destruct (has t MACH_PORT_TYPE_SEND) eqn:Hs.
  - destruct Hrec as [(-> & _)|Hwf]; [done|].
    destruct (Z.eqb_spec (u + 1) MACH_PORT_UREFS_MAX) as [Hmax|Hmax]; [destruct ov|]; cbn [negb andb].
    + apply wp_bind, wp_bind. eapply wp_world; [eapply update_port_run; port_known|].
      eapply wp_world; [unfold ip_release; eapply update_port_run; port_known|]. apply wp_ret. split; [done|].
      rewrite put_port_put. eexists _, b. rewrite Hsame by done.
      split_and!; [done|done|apply put_port_lookup|done|balance].
    + by apply wp_ret.
    + apply wp_bind, wp_bind. eapply wp_world; [eapply update_port_run; port_known|].
      eapply wp_world; [unfold ip_release; eapply update_port_run; port_known|]. rewrite put_port_put.
      apply wp_bind. eapply wp_write; [exact Hh|entry_eq|exact Hadd|]. intros s' Hh'. apply wp_ret. split; [done|].
      eexists _, _. rewrite Hsame in * by done. split_and!; [exact Hh'| |apply put_port_lookup|done|balance].
      eapply (wf_fewer_urefs _ u); [done|done|]. unfold MACH_PORT_UREFS_MAX in *. lia.
  - cbn [andb]. destruct Hacc as [-> |[-> |[-> | ->]]]; try done; eval_types.
    + destruct Hrec as [(_ & -> & -> & -> & -> & _)|Hwf]; [|by inversion Hwf].
      apply wp_bind. eapply wp_hash_insert; [done|]. intros s1 Hh1.
      apply wp_bind. eapply wp_write; [exact Hh1|entry_eq|exact Hadd|]. intros s' Hh'. apply wp_ret. split; [done|].
      exists p. eexists. split_and!; [exact Hh'| |done|done|balance]. constructor; [unfold MACH_PORT_UREFS_MAX; lia|done..].
    + destruct Hrec as [(? & _)|Hwf]; [done|]. inversion Hwf; subst.
      apply wp_bind. eapply wp_world; [unfold ip_release; eapply update_port_run; port_known|].
      apply wp_bind. eapply wp_write; [exact Hh|entry_eq|exact Hadd|]. intros s' Hh'. apply wp_ret. split; [done|].
      eexists _, _. split_and!; [exact Hh'| |apply put_port_lookup|done|balance].
      constructor; [unfold MACH_PORT_UREFS_MAX; lia|done..].
Qed.

Lemma released_other port q p w : q <> port -> w_ports (released port p w) !! q = w_ports w !! q.
Proof. intros Hne. unfold released. destruct (_ =? 0); simpl; by rewrite ?lookup_delete_ne, ?lookup_insert_ne. Qed.

(** The receive right is copied out: the space is the receiver, and the port
    the right was travelling to loses a reference. *)
Lemma copyout_receive_spec addr h0 s0 name r s w port p b t u q ma co ov :
  held h0 s0 name r s b port q t u ma co -> receptacle t u ma co port q -> port <> IO_NULL ->
  accepts MACH_MSG_TYPE_PORT_RECEIVE t -> w_ports w !! port = Some p -> counts_ok p ->
  (ip_destination p = IP_NULL \/
   ip_destination p <> port /\ is_Some (w_ports w !! ip_destination p)) ->
  wp (ipc_right_copyout addr name r MACH_MSG_TYPE_PORT_RECEIVE ov port) (fun kr st =>
    kr = KERN_SUCCESS /\
    given h0 s0 name r MACH_MSG_TYPE_PORT_RECEIVE port p t u q ma co st.1 st.2
      (Z.lor t MACH_PORT_TYPE_RECEIVE) u /\
    exists p', w_ports st.2 !! port = Some p' /\ ip_receiver p' = addr /\ ip_receiver_name p' = name) (s, w).
Proof.
  intros Hh Hrec Hport Hacc Hp Hc Hdest. pose proof (h_desc _ _ _ _ _ _ _ _ _ _ _ _ Hh) as Hd.
  unfold ipc_right_copyout. apply wp_bind. eapply wp_read; [done|]. intros i. cbn [ie_bits]. eval_types.
  destruct Hacc as [[? _]|[[? _]|[_ Hacc]]]; [done|done|].
  pose proof (add_type b MACH_PORT_TYPE_RECEIVE t u ma co Hd ltac:(done) ltac:(done)) as Hadd.
  assert (Hend : forall s1 w1 p1, held h0 s0 name r s1 b port q t u ma co ->
    w_ports w1 !! port = Some p1 -> (forall x, x <> port -> w_ports w1 !! x = w_ports w !! x) ->
    ip_receiver p1 = addr -> ip_receiver_name p1 = name -> ip_active p1 = ip_active p ->
    balanced p p1 t (Z.lor t MACH_PORT_TYPE_RECEIVE) 0 0 (-1) ->
    wp (ie_write r (set_bits (Z.lor b MACH_PORT_TYPE_RECEIVE));;
        when (negb (ip_destination p =? IP_NULL)) (on_world (ipc_port_release (ip_destination p)));;
        mret KERN_SUCCESS) (fun kr st => kr = KERN_SUCCESS /\
          given h0 s0 name r MACH_MSG_TYPE_PORT_RECEIVE port p t u q ma co st.1 st.2
            (Z.lor t MACH_PORT_TYPE_RECEIVE) u /\
          exists p', w_ports st.2 !! port = Some p' /\ ip_receiver p' = addr /\ ip_receiver_name p' = name) (s1, w1)).
  { intros s1 w1 p1 Hh1 Hp1 Hoth Hr1 Hr2 Hact Hbal.
    apply wp_bind. eapply wp_write; [exact Hh1|entry_eq|exact Hadd|]. intros s' Hh'.
    assert (Hwf' : wf_right (Z.lor t MACH_PORT_TYPE_RECEIVE) u ma co port q).
    { destruct Hacc as [-> | ->], Hrec as [(? & -> & -> & -> & -> & _)|Hwf]; try done; try (by inversion Hwf).
      - by constructor.
      - inversion Hwf; subst. by constructor. }
    apply wp_bind. destruct Hdest as [-> |[Hne [pd Hpd]]]; cbn [negb].
    - apply wp_ret. apply wp_ret. split_and!; [done| |by exists p1].
      eexists p1, _. by split_and!; [exact Hh'|..].
    - assert (Hrel : w_ports (released (ip_destination p) pd w1) !! port = Some p1) by (by rewrite released_other).
      destruct (Z.eqb_spec (ip_destination p) IP_NULL); cbn [negb when].
      + apply wp_ret. apply wp_ret. split_and!; [done| |by exists p1].
        eexists p1, _. by split_and!; [exact Hh'|..].
      + eapply wp_world; [apply port_release_run; by rewrite Hoth|]. apply wp_ret.
        split_and!; [done| |by exists p1]. eexists p1, _. by split_and!; [exact Hh'|..]. }
  unfold copyout_receive. apply wp_bind. eapply wp_world; [by apply port_at_run|].
  apply wp_bind. eapply wp_world; [by apply update_port_run|]. decide_bits.
  apply wp_bind. destruct Hacc as [-> | ->]; eval_types; cbn [when].
  - apply wp_ret. eapply Hend; [done|port_known| |done..|balance]. intros x Hx. simpl. by rewrite lookup_insert_ne.
  - apply wp_bind. eapply wp_world; [unfold ip_release; eapply update_port_run; port_known|].
    eapply wp_hash_delete; [done|]. intros s1 Hh1. rewrite put_port_put.
    eapply Hend; [done|port_known| |done..|balance]. intros x Hx. simpl. by rewrite lookup_insert_ne.
Qed.

(** ** Releasing user references *)

(** The entry after an operation that may deallocate it: [t'] is 0 when the
    entry is gone. *)
Definition entry_after (h0 : option Z) (s0 : Sp) (name : Z) (r : entry_ref) (port q : Z) (co : bool)
    (t' u' : Z) (ma' : bool) (s' : Sp) : Prop :=
  if t' =? 0 then gone h0 s0 name s'
  else exists b', held h0 s0 name r s' b' port q t' u' ma' co /\ wf_right t' u' ma' co port q.

(** A send right without the port's user: the count is lower and the
    no-senders notification is sent if it was the last. *)
Lemma wp_drop_send s w port p (Q : Z * Z -> Sp * world -> Prop) :
  w_ports w !! port = Some p ->
  Q (if no_senders_due (set_ip_srights (u32 (ip_srights p - 1)) p) then (ip_nsrequest p, ip_mscount p)
     else (IP_NULL, 0)) (s, put_port port (without_send p) w) ->
  wp (on_world (drop_send_right port)) Q (s, w).
Proof. intros Hp HQ. eapply wp_world; [by apply drop_send_right_run|]. done. Qed.

Lemma wp_notify_ns s w p (Q : unit -> Sp * world -> Prop) :
  Q tt (s, emitted (no_senders_events p) w) ->
  wp (on_world (notify_no_senders (if no_senders_due p then (ip_nsrequest p, ip_mscount p) else (IP_NULL, 0))))
    Q (s, w).
Proof.
  intros HQ. unfold notify_no_senders, no_senders_events, when in *. destruct (no_senders_due p) eqn:Hdue; simpl.
  - unfold no_senders_due in Hdue. apply andb_prop in Hdue as [_ ->]. by apply wp_emit.
  - rewrite emitted_nil in HQ. by eapply wp_world; [reflexivity|].
Qed.

Lemma without_send_fields p :
  ip_srights (without_send p) = u32 (ip_srights p - 1) /\ ip_sorights (without_send p) = ip_sorights p /\
  ip_references (without_send p) = ip_references p /\ ip_active (without_send p) = ip_active p /\
  ip_dnrequests (without_send p) = ip_dnrequests p.
Proof. unfold without_send. by destruct (no_senders_due _). Qed.

Lemma dn_known_ext p p' name q : ip_dnrequests p' = ip_dnrequests p -> dn_known p name q -> dn_known p' name q.
Proof. unfold dn_known. by intros ->. Qed.

(** A pure send right has left the space: the port has a send right and a
    reference less, and the notifications that are due have been sent. *)
Definition send_gone (h0 : option Z) (s0 : Sp) (name port : Z) (p : ipc_port) (q : Z) (ma co : bool)
    (w : world) (s' : Sp) (w' : world) : Prop :=
  gone h0 s0 name s' /\
  exists p1 p' dn ev,
    cancels (without_send p) name q co p1 dn ev /\
    p' = set_ip_references (u32 (ip_references p1 - 1)) p1 /\
    w_ports w' = <[port := p']> (w_ports w) /\ balanced p p' MACH_PORT_TYPE_SEND 0 0 0 0 /\
    w_events w' = w_events w ++ ev ++ ma_events ma name ++
      no_senders_events (set_ip_srights (u32 (ip_srights p - 1)) p) ++ deleted_events dn name.

Lemma last_send_spec h0 s0 name r s w port p b u q ma co (Q : kern_return -> Sp * world -> Prop) :
  alive h0 s0 name r s w port p b MACH_PORT_TYPE_SEND u q ma co ->
  (forall s' w', send_gone h0 s0 name port p q ma co w s' w' -> Q KERN_SUCCESS (s', w')) ->
  let p1 := set_ip_srights (u32 (ip_srights p - 1)) p in
  wp (dn ← dealloc_last_send port name b r;
      on_world (notify_no_senders
        (if no_senders_due p1 then (ip_nsrequest p1, ip_mscount p1) else (IP_NULL, 0)));;
      notify_port_deleted dn name;; mret KERN_SUCCESS) Q (s, put_port port (without_send p) w).
Proof.
  intros [Hh Hwf Hpr Hp Hact Hc Hdn] HQ p1. pose proof (h_desc _ _ _ _ _ _ _ _ _ _ _ _ Hh) as Hd.
  destruct (without_send_fields p) as (Hs & Hso & Hr & Ha & Hdnr).
  apply wp_bind. unfold dealloc_last_send. apply wp_bind.
  eapply (wp_dncancel _ _ _ _ _ _ _ (without_send p)); [done|apply put_port_lookup|by eapply dn_known_ext|].
  intros s1 p2 dn ev Hh1 Hcan. rewrite put_port_put.
  apply wp_bind. eapply wp_hash_delete; [exact Hh1|]. intros s2 Hh2.
  apply wp_bind, (wp_marequest _ _ ma); [apply Hd|].
  apply wp_bind. eapply wp_world; [unfold ip_release; eapply update_port_run; port_known|].
  apply wp_bind. eapply wp_write; [exact Hh2|entry_eq|by apply becomes_same|]. intros s3 Hh3.
  apply wp_bind. eapply wp_dealloc; [exact Hh3|]. intros s4 Hg. apply wp_ret.
  apply wp_bind, wp_notify_ns. apply wp_bind, wp_port_deleted, wp_ret. apply HQ. split; [done|].
  eexists p2, _, dn, ev. split_and!; [done|done|..].
  - simpl. by rewrite insert_insert_eq.
  - destruct (cancels_counts _ _ _ _ _ _ _ Hcan) as ([= E1 E2 E3] & _).
    destruct Hc as (? & ? & ?). split; simpl; unfold holds_send, holds_sonce, holds_ref; simpl.
    + rewrite E2, Hs. f_equal. lia.
    + rewrite E3, Hso. symmetry. replace (_ + _ - _ + _) with (ip_sorights p) by lia. by apply u32_id.
    + rewrite E1, Hr. f_equal. lia.
  - simpl. by rewrite <- !app_assoc.
Qed.

(** The send part of a send/receive entry goes; the receive right stays. *)
Definition send_dropped (h0 : option Z) (s0 : Sp) (name : Z) (r : entry_ref) (port : Z) (p : ipc_port)
    (q : Z) (ma co : bool) (w : world) (s' : Sp) (w' : world) : Prop :=
  (exists b', held h0 s0 name r s' b' port q MACH_PORT_TYPE_RECEIVE 0 ma co) /\
  w_ports w' = <[port := without_send p]> (w_ports w) /\
  balanced p (without_send p) MACH_PORT_TYPE_SEND_RECEIVE MACH_PORT_TYPE_RECEIVE 0 0 0 /\
  w_events w' = w_events w ++ no_senders_events (set_ip_srights (u32 (ip_srights p - 1)) p).

Lemma send_dropped_balance p :
  counts_ok p -> balanced p (without_send p) MACH_PORT_TYPE_SEND_RECEIVE MACH_PORT_TYPE_RECEIVE 0 0 0.
Proof.
  intros (H1 & H2 & H3). destruct (without_send_fields p) as (Hs & Hso & Hr & _).
  split; unfold holds_send, holds_sonce, holds_ref; simpl.
  - rewrite Hs. f_equal. lia.
  - rewrite Hso. symmetry. replace (_ + _ - _ + _) with (ip_sorights p) by lia. by apply u32_id.
  - rewrite Hr. symmetry. replace (_ + _ - _ + _) with (ip_references p) by lia. by apply u32_id.
Qed.

(** What releasing one user reference of a live right does. *)
Definition deallocates (h0 : option Z) (s0 : Sp) (name : Z) (r : entry_ref) (port : Z) (p : ipc_port)
    (t u q : Z) (ma co : bool) (s : Sp) (w : world) (kr : kern_return) (s' : Sp) (w' : world) : Prop :=
  if has t MACH_PORT_TYPE_SEND then
    kr = KERN_SUCCESS /\
    if u =? 1 then
      if has t MACH_PORT_TYPE_RECEIVE then send_dropped h0 s0 name r port p q ma co w s' w'
      else send_gone h0 s0 name port p q ma co w s' w'
    else w' = w /\ exists b', held h0 s0 name r s' b' port q t (u - 1) ma co /\ wf_right t (u - 1) ma co port q
  else if has t MACH_PORT_TYPE_SEND_ONCE then
    kr = KERN_SUCCESS /\ gone h0 s0 name s' /\
    exists p' dn ev, cancels p name q co p' dn ev /\ w_ports w' = <[port := p']> (w_ports w) /\
      w_events w' = w_events w ++ ev ++ [NotifySendOnce port] ++ deleted_events dn name
  else kr = KERN_INVALID_RIGHT /\ s' = s /\ w' = w.

Lemma dealloc_live_spec h0 s0 name r s w port p b t u q ma co :
  alive h0 s0 name r s w port p b t u q ma co ->
  wp (ipc_right_dealloc name r) (fun kr st =>
    deallocates h0 s0 name r port p t u q ma co s w kr st.1 st.2) (s, w).
Proof.
  intros Ha. pose proof Ha as [Hh Hwf Hpr Hp Hact Hc Hdn]. pose proof (h_desc _ _ _ _ _ _ _ _ _ _ _ _ Hh) as Hd.
  unfold ipc_right_dealloc. apply wp_bind. eapply wp_read; [done|]. intros i. cbn [ie_bits ie_object]. decide_bits.
  unfold deallocates. inversion Hwf; subst; try done; eval_types.
  - unfold MACH_PORT_UREFS_MAX in *. apply wp_bind. eapply wp_check; [done|done|done|congruence| |congruence..]. intros _.
    destruct (Z.eqb_spec u 1) as [->|].
    + apply wp_bind, (wp_drop_send _ _ _ p); [done|].
      eapply (last_send_spec _ _ _ _ _ _ _ p); [done|]. intros s' w' Hg. done.
    + apply wp_bind. eapply wp_write; [done|entry_eq|apply (add_urefs b (-1)); [done|lia]|].
      intros s' Hh'. apply wp_ret. split_and!; [done|done|]. eexists. split; [exact Hh'|].
      eapply wf_fewer_urefs; [done|done|unfold MACH_PORT_UREFS_MAX; lia].
  - unfold MACH_PORT_UREFS_MAX in *. apply wp_bind. eapply wp_world; [by apply port_at_run|].
    destruct (Z.eqb_spec u 1) as [->|].
    + apply wp_bind, (wp_drop_send _ _ _ p); [done|].
      apply wp_bind. eapply wp_write; [done|entry_eq|by eapply clear_send|]. intros s' Hh'.
      apply wp_bind, (wp_notify_ns _ _ (set_ip_srights (u32 (ip_srights p - 1)) p)). apply wp_ret.
      split; [done|]. split_and!; [by eexists|done|by apply send_dropped_balance|done].
    + apply wp_bind. eapply wp_write; [done|entry_eq|apply (add_urefs b (-1)); [done|lia]|].
      intros s' Hh'. apply wp_ret. split_and!; [done|done|]. eexists. split; [exact Hh'|].
      eapply wf_fewer_urefs; [done|done|unfold MACH_PORT_UREFS_MAX; lia].
  - apply wp_bind. eapply wp_check; [done|done|done|congruence| |congruence..]. intros _.
    unfold dealloc_send_once. apply wp_bind. eapply wp_dncancel; [done|done|done|]. intros s1 p1 dn ev Hh1 Hcan.
    apply wp_bind. eapply wp_write; [exact Hh1|entry_eq|by apply becomes_same|]. intros s2 Hh2.
    apply wp_bind. eapply wp_dealloc; [exact Hh2|]. intros s3 Hg.
    apply wp_bind, wp_emit, wp_bind, wp_port_deleted, wp_ret.
    split_and!; [done|done|]. exists p1, dn, ev. split_and!; [done|done|]. simpl. by rewrite <- !app_assoc.
Qed.

(** ** Changing the user references *)

(** [delta] is a C int. *)
Definition i32_range (x : Z) : Prop := -2147483648 <= x <= 2147483647.

Lemma underflow_spec u d : 0 <= u <= 65536 -> i32_range d -> MACH_PORT_UREFS_UNDERFLOW u d = (u + d <? 0).
Proof.
  unfold i32_range, MACH_PORT_UREFS_UNDERFLOW. intros Hu Hd.
  destruct (Z.ltb_spec d 0) as [Hneg|]; simpl; [|by destruct (Z.ltb_spec (u + d) 0); [lia|]].
  rewrite u32_id by (unfold u32_range, u32_max; lia). by destruct (Z.ltb_spec u (- d)), (Z.ltb_spec (u + d) 0); try lia.
Qed.

Lemma overflow_spec u d :
  0 <= u <= 65536 -> i32_range d ->
  MACH_PORT_UREFS_OVERFLOW u d = (0 <? d) && (MACH_PORT_UREFS_MAX <? u + d).
Proof.
  unfold i32_range, MACH_PORT_UREFS_OVERFLOW, MACH_PORT_UREFS_MAX. intros Hu Hd.
  destruct (Z.ltb_spec 0 d) as [Hpos|]; simpl; [|done].
  rewrite u32_id by (unfold u32_range, u32_max; lia).
  by destruct (Z.leb_spec (u + d) u), (Z.ltb_spec 65535 (u + d)); try lia.
Qed.

(** What a change of the user references of a live send right does. *)
Definition delta_send_result (h0 : option Z) (s0 : Sp) (name : Z) (r : entry_ref) (port : Z) (p : ipc_port)
    (t u q : Z) (ma co : bool) (delta : Z) (s : Sp) (w : world) (kr : kern_return) (s' : Sp) (w' : world)
    : Prop :=
  if negb (has t MACH_PORT_TYPE_SEND) then kr = KERN_INVALID_RIGHT /\ s' = s /\ w' = w
  else if u + delta <? 0 then kr = KERN_INVALID_VALUE /\ s' = s /\ w' = w
  else if (0 <? delta) && (MACH_PORT_UREFS_MAX <=? u + delta) then
    kr = KERN_UREFS_OVERFLOW /\ s' = s /\ w' = w
  else
    kr = KERN_SUCCESS /\
    if u + delta =? 0 then
      if has t MACH_PORT_TYPE_RECEIVE then send_dropped h0 s0 name r port p q ma co w s' w'
      else send_gone h0 s0 name port p q ma co w s' w'
    else w' = w /\ exists b', held h0 s0 name r s' b' port q t (u + delta) ma co /\
           wf_right t (u + delta) ma co port q.

Lemma delta_send_spec env h0 s0 name r s w port p b t u q ma co delta :
  alive h0 s0 name r s w port p b t u q ma co -> i32_range delta ->
  wp (ipc_right_delta env name r MACH_PORT_RIGHT_SEND delta) (fun kr st =>
    delta_send_result h0 s0 name r port p t u q ma co delta s w kr st.1 st.2) (s, w).
Proof.
  intros Ha Hdelta. pose proof Ha as [Hh Hwf Hpr Hp Hact Hc Hdn].
  pose proof (h_desc _ _ _ _ _ _ _ _ _ _ _ _ Hh) as Hd. unfold ipc_right_delta, delta_send_result.
  apply wp_bind. eapply wp_read; [done|]. intros i. eval_types. unfold delta_send. cbn [ie_bits ie_object]. decide_bits.
  destruct (has t MACH_PORT_TYPE_SEND) eqn:Hs; cbn [negb]; [|by apply wp_ret].
  destruct (wf_has_send _ _ _ _ _ _ Hwf Hs) as (Hu & _ & _ & Hnz & Hty). unfold MACH_PORT_UREFS_MAX in Hu.
  rewrite underflow_spec, overflow_spec by (done || lia). unfold MACH_PORT_UREFS_MAX, i32_range in *.
  destruct (Z.ltb_spec (u + delta) 0) as [|Hge]; [by apply wp_ret|].
  replace (65535 <? u + 1 + delta) with (65535 <=? u + delta)
    by (destruct (Z.leb_spec 65535 (u + delta)), (Z.ltb_spec 65535 (u + 1 + delta)); lia).
  destruct ((0 <? delta) && (65535 <=? u + delta)) eqn:Hov; [by apply wp_ret|].
  assert (Hlt : u + delta < 65535).
  { apply andb_false_iff in Hov as [Hov|Hov]; [apply Z.ltb_ge in Hov|apply Z.leb_gt in Hov]; lia. }
  apply wp_bind. eapply wp_check; [done|done|done|congruence| |congruence..]. intros _.
  rewrite u32_id by (unfold u32_range, u32_max; lia).
  destruct (Z.eqb_spec (u + delta) 0) as [Hz|Hz].
  - apply wp_bind, (wp_drop_send _ _ _ p); [done|]. destruct Hty as [-> | ->]; eval_types.
    + eapply (last_send_spec _ _ _ _ _ _ _ p); [done|]. intros s' w' Hg. done.
    + apply wp_bind, wp_bind. eapply wp_write; [done|entry_eq|by eapply clear_send|]. intros s' Hh'. apply wp_ret.
      apply wp_bind, (wp_notify_ns _ _ (set_ip_srights (u32 (ip_srights p - 1)) p)).
      apply wp_bind, wp_port_deleted, wp_ret. rewrite emitted_emitted, app_nil_r.
      split; [done|]. split_and!; [by eexists|done|by apply send_dropped_balance|done].
  - apply wp_bind. eapply wp_write; [done|entry_eq|apply (add_urefs b delta); [done|lia]|].
    intros s' Hh'. apply wp_ret. split_and!; [done|done|]. eexists. split; [exact Hh'|].
    eapply wf_fewer_urefs; [done|done|unfold MACH_PORT_UREFS_MAX; lia].
Qed.

(** Dead names: the user references stay between 1 and the maximum, and the
    entry goes with the last one. *)
Lemma delta_dead_spec env h0 s0 name r s w b u delta :
  held h0 s0 name r s b IO_NULL 0 MACH_PORT_TYPE_DEAD_NAME u false false ->
  0 < u <= MACH_PORT_UREFS_MAX -> i32_range delta ->
  wp (ipc_right_delta env name r MACH_PORT_RIGHT_DEAD_NAME delta) (fun kr st =>
    st.2 = w /\
    if u + delta <? 0 then kr = KERN_INVALID_VALUE /\ st.1 = s
    else if (0 <? delta) && (MACH_PORT_UREFS_MAX <? u + delta) then kr = KERN_UREFS_OVERFLOW /\ st.1 = s
    else kr = KERN_SUCCESS /\
      if u + delta =? 0 then gone h0 s0 name st.1
      else exists b', held h0 s0 name r st.1 b' IO_NULL 0 MACH_PORT_TYPE_DEAD_NAME (u + delta) false false /\
             wf_right MACH_PORT_TYPE_DEAD_NAME (u + delta) false false IO_NULL 0) (s, w).
Proof.
  intros Hh Hu Hdelta. pose proof (h_desc _ _ _ _ _ _ _ _ _ _ _ _ Hh) as Hd. unfold ipc_right_delta.
  apply wp_bind. eapply wp_read; [done|]. intros i. eval_types. unfold delta_dead_name. cbn [ie_bits ie_object].
  decide_bits. eval_types. unfold delta_dead_urefs. decide_bits. unfold MACH_PORT_UREFS_MAX in *.
  rewrite underflow_spec, overflow_spec by (done || lia). unfold i32_range, MACH_PORT_UREFS_MAX in *.
  destruct (Z.ltb_spec (u + delta) 0) as [|Hge]; [by apply wp_ret|].
  destruct ((0 <? delta) && (65535 <? u + delta)) eqn:Hov; [by apply wp_ret|].
  assert (Hlt : u + delta <= 65535).
  { apply andb_false_iff in Hov as [Hov|Hov]; [apply Z.ltb_ge in Hov|apply Z.ltb_ge in Hov]; lia. }
  rewrite u32_id by (unfold u32_range, u32_max; lia). apply wp_bind.
  destruct (Z.eqb_spec (u + delta) 0) as [Hz|Hz].
  - eapply wp_dealloc; [done|]. intros s' Hg. by apply wp_ret.
  - eapply wp_write; [done|entry_eq|apply (add_urefs b delta); [done|lia]|].
    intros s' Hh'. apply wp_ret. split_and!; [done|done|]. eexists. split; [exact Hh'|].
    constructor. unfold MACH_PORT_UREFS_MAX. lia.
Qed.
End ops.
