(* ===== verification/RightNotify.v ===== *)
(** * Dead-name requests on a live right: properties

    [ipc_right_dnrequest] registers the request with the port and records it
    in the entry; alone, it goes round its loop at most twice. *)

From S2P Require Import Prelude Names Splay Table Space Hash Entry EntryInv Alloc World Port.
From S2P Require Import PortInv PortQueue Right RightBits RightLaws RightWp RightInv.

Section notify.
Context {Sp : Type} `{!NameSpace Sp, !NameSpaceLaws Sp} `{PortConfig}.

(** The requests registered with a port. *)
Definition requests (p : ipc_port) (i : Z) : option (Z * Z) :=
  match ip_dnrequests p with Some d => registered d i | None => None end.

(** The request has been made: the entry has an index at which the port has
    the name and the send-once right, and the old request is gone. *)
Definition requested (h0 : option Z) (s0 : Sp) (name : Z) (r : entry_ref) (port : Z) (p : ipc_port)
    (t u q : Z) (ma co : bool) (notify : Z) (w : world) (previous : Z) (s' : Sp) (w' : world) : Prop :=
  exists b' index p' d',
    held h0 s0 name r s' b' port index t u ma false /\
    w_ports w' = <[port := p']> (w_ports w) /\ p' = set_ip_dnrequests (Some d') p /\ dn_ok d' /\ 0 < index /\
    (forall i, registered d' i = if i =? index then Some (name, notify)
                                 else if i =? q then None else requests p i) /\
    previous = (if co then IP_NULL else match requests p q with Some (_, so) => so | None => IP_NULL end).

(** The table has room, possibly after the old request is cancelled. *)
Definition has_room (p : ipc_port) (q : Z) : Prop :=
  exists d, ip_dnrequests p = Some d /\ dn_ok d /\
    (q <> 0 \/ exists i, 0 < i < rlen d /\ registered d i = None).

Lemma registered_zero d : registered d 0 = None.
Proof. done. Qed.

Lemma wf_compat t u ma co o q : wf_right t u ma co o q -> co = true -> q <> 0.
Proof. destruct 1; auto; done. Qed.

Lemma lookup_write_spec h0 s0 name r s w b o q t u ma co (Q : kern_return * option entry_ref -> Sp * world -> Prop) :
  held h0 s0 name r s b o q t u ma co -> t <> 0 -> ns_active s = true -> u32_range name ->
  (forall s', held h0 s0 name r s' b o q t u ma co -> ns_active s' = true -> Q (KERN_SUCCESS, Some r) (s', w)) ->
  wp (ipc_right_lookup_write name) Q (s, w).
Proof.
  intros Hh Ht Hact Hname HQ. unfold ipc_right_lookup_write. apply wp_bind. unfold wp at 1, gets. simpl. rewrite Hact. simpl.
  assert (Hhole : hole_of name t = None) by (unfold hole_of; by rewrite (proj2 (Z.eqb_neq _ _))).
  pose proof (h_ok _ _ _ _ _ _ _ _ _ _ _ _ Hh) as Hok. pose proof (h_den _ _ _ _ _ _ _ _ _ _ _ _ Hh) as Hden.
  rewrite Hhole in *. destruct (ns_lookup_law s name Hok Hname) as [Hpres Hfind].
  apply wp_bind. unfold wp at 1, of_space. destruct (ns_lookup s name) as [s' res] eqn:Hl. simpl in *. rewrite Hl.
  apply Hfind in Hden as ->. apply HQ.
  - eapply preserved_held; [done|]. by rewrite Hhole.
  - destruct Hpres as (_ & -> & _). done.
Qed.

(** A round with room in the table registers the request. *)
Lemma dnrequest_round env n h0 s0 name r s w port p b t u q ma co imm notify :
  alive h0 s0 name r s w port p b t u q ma co -> ns_active s = true -> u32_range name ->
  name <> MACH_PORT_NULL -> notify <> IP_NULL -> has_room p q ->
  wp (ipc_right_dnrequest env (S n) name imm notify) (fun res st =>
    exists previous, res = (KERN_SUCCESS, previous) /\
      requested h0 s0 name r port p t u q ma co notify w previous st.1 st.2) (s, w).
Proof.
  intros [Hh Hwf Hpr Hp Hact Hc Hdn] Hsp Hname Hnn Hnot (d & Hd & Hok & Hroom).
  pose proof (h_desc _ _ _ _ _ _ _ _ _ _ _ _ Hh) as Hdesc. cbn [ipc_right_dnrequest].
  assert (Ht0 : t <> 0) by (intros ->; done).
  apply wp_bind. eapply lookup_write_spec; [done|done|done|done|]. intros s1 Hh1 _.
  apply wp_bind. eapply wp_read; [exact Hh1|]. intros i. cbn [ie_bits ie_object]. decide_bits. rewrite Hpr.
  apply wp_bind. eapply wp_check; [done|done|done|congruence| |congruence..]. intros _. cbn [negb].
  rewrite (proj2 (Z.eqb_neq notify IP_NULL)) by done.
  apply wp_bind. eapply wp_dncancel; [exact Hh1|done|done|]. intros s2 p1 prev ev Hh2 Hcan.
  assert (Hd1 : exists d1, p1 = set_ip_dnrequests (Some d1) p /\ dn_ok d1 /\ rlen d1 = rlen d /\
            (exists i, 0 < i < rlen d /\ registered d1 i = None) /\
            (forall i, registered d1 i = if i =? q then None else registered d i) /\
            prev = (if co then IP_NULL else match registered d q with Some (_, so) => so | None => IP_NULL end)).
  { unfold cancels in Hcan. destruct (Z.eqb_spec q 0) as [->|Hq].
    - destruct Hcan as (-> & -> & ->). exists d. destruct Hroom as [?|Hroom]; [done|]. split_and!; try done.
      + destruct p; simpl in *. by subst.
      + intros j. by destruct (Z.eqb_spec j 0) as [->|].
      + by destruct co.
    - destruct Hcan as (d0 & d1 & so & Hd0 & Hreg & -> & Hok1 & Hlen & Hreg1 & -> & _).
      rewrite Hd in Hd0. injection Hd0 as <-. exists d1. split_and!; try done.
      + exists q. apply registered_name in Hreg as (Hr & _). split; [done|]. by rewrite Hreg1, Z.eqb_refl.
      + by rewrite Hreg. }
  destruct Hd1 as (d1 & -> & Hok1 & Hlen & (j & Hj & Hfree) & Hreg1 & ->).
  set (w1 := emitted ev _).
  destruct (dnrequest_spec w1 port (set_ip_dnrequests (Some d1) p) d1 name notify)
    as (res & w2 & Hrun & Hres); [port_known|done|done|done|].
  apply wp_bind. eapply wp_world; [exact Hrun|]. destruct res as [index|]; cycle 1.
  { destruct Hres as [_ Hfull]. exfalso. apply (Hfull j); [by rewrite Hlen|done]. }
  destruct Hres as (d2 & -> & Hok2 & _ & Hidx & _ & _ & Hreg2).
  apply wp_bind. eapply wp_write; [exact Hh2|entry_eq|by apply becomes_same|]. intros s3 Hh3.
  apply wp_bind. eapply wp_write; [exact Hh3|entry_eq|by eapply drop_compat|]. intros s4 Hh4.
  apply wp_ret. eexists. split; [done|]. unfold requested, requests. rewrite Hd.
  eexists _, index, _, d2. split_and!; [exact Hh4| |done|done|lia| |done].
  - simpl. by rewrite insert_insert_eq.
  - intros k. by rewrite Hreg2, Hreg1.
Qed.

(** Nobody else is running, and memory is there when the table must grow. *)
Definition quiet (env : right_env Sp) (p : ipc_port) : Prop :=
  re_other env = id /\ re_between env = id /\
  let its := match ip_dnrequests p with None => O | Some d => S (ipr_size d) end in
  dn_size its <> 0 /\ exists addr mem, re_alloc env its = Some (addr, mem) /\ Z.of_nat (length mem) = dn_size its.

(** A round without room grows the table and goes round again. *)
Lemma dnrequest_grows env n h0 s0 name r s w port p b t u ma imm notify Q :
  alive h0 s0 name r s w port p b t u 0 ma false -> ns_active s = true -> u32_range name ->
  notify <> IP_NULL -> quiet env p -> (forall d, ip_dnrequests p = Some d -> dn_ok d) ->
  ipc_port_dnrequest port name notify w = Some (None, w) ->
  (forall s' d', let p' := set_ip_dnrequests (Some d') p in
     alive h0 s0 name r s' (put_port port p' w) port p' b t u 0 ma false -> ns_active s' = true ->
     dn_ok d' -> (forall i, registered d' i = requests p i) ->
     (exists i, 0 < i < rlen d' /\ registered d' i = None) ->
     wp (ipc_right_dnrequest env n name imm notify) Q (s', put_port port p' w)) ->
  wp (ipc_right_dnrequest env (S n) name imm notify) Q (s, w).
Proof.
  intros [Hh Hwf Hpr Hp Hact Hc Hdn] Hsp Hname Hnot (Hother & Hbetween & Hsz & addr & mem & Halloc & Hmem) Hdok Hfull HQ.
  pose proof (h_desc _ _ _ _ _ _ _ _ _ _ _ _ Hh) as Hdesc. cbn [ipc_right_dnrequest].
  assert (Ht0 : t <> 0) by (intros ->; done).
  apply wp_bind. eapply lookup_write_spec; [done|done|done|done|]. intros s1 Hh1 Hact1.
  apply wp_bind. eapply wp_read; [exact Hh1|]. intros i. cbn [ie_bits ie_object]. decide_bits. rewrite Hpr.
  apply wp_bind. eapply wp_check; [done|done|done|congruence| |congruence..]. intros _. cbn [negb].
  rewrite (proj2 (Z.eqb_neq notify IP_NULL)) by done.
  apply wp_bind. unfold ipc_right_dncancel_macro. apply wp_bind. eapply wp_read; [exact Hh1|]. intros i'.
  cbn [ie_request]. eval_types. apply wp_ret. apply wp_bind. eapply wp_world; [exact Hfull|].
  apply wp_bind. rewrite Hother. eapply wp_world; [eapply dngrow_alone; [done|done|apply Hc|done|done|done]|].
  apply wp_bind. rewrite Hbetween. unfold wp at 1, modify, id.
  set (its := match ip_dnrequests p with Some d => S (ipr_size d) | None => O end) in *.
  destruct (grown_table_spec (ip_dnrequests p) its addr mem) as (Hok' & _ & _ & Hreg & Hfree); [done|done|done|done|].
  apply HQ; [split; try done; first [apply put_port_lookup|by left]|done|done|exact Hreg|exact Hfree].
Qed.

(** Alone, the request is made in at most two rounds. *)
Lemma dnrequest_alone env h0 s0 name r s w port p b t u q ma co imm notify :
  alive h0 s0 name r s w port p b t u q ma co -> ns_active s = true -> u32_range name ->
  name <> MACH_PORT_NULL -> notify <> IP_NULL -> quiet env p ->
  (forall d, ip_dnrequests p = Some d -> dn_ok d) ->
  wp (ipc_right_dnrequest env 2 name imm notify) (fun res st =>
    exists previous, res = (KERN_SUCCESS, previous) /\
      requested h0 s0 name r port p t u q ma co notify w previous st.1 st.2) (s, w).
Proof.
  intros Ha Hsp Hname Hnn Hnot Hquiet Hdok. destruct (Z.eq_dec q 0) as [->|Hq]; cycle 1.
  { eapply dnrequest_round; try done. destruct (a_dn _ _ _ _ _ _ _ _ _ _ _ _ _ _ Ha) as [?|(d & so & Hd & Hok & _)]; [done|].
    exists d. by split_and!; [..|left]. }
  assert (Hco : co = false).
  { destruct co; [|done]. exfalso. eapply (wf_compat _ _ _ true); [apply Ha|done|done]. } subst co.
  assert (Hcase : ipc_port_dnrequest port name notify w = Some (None, w) \/ has_room p 0).
  { destruct (ip_dnrequests p) as [d|] eqn:Hd.
    - destruct (dnrequest_spec w port p d name notify) as (res & w' & Hrun & Hres); [apply Ha|done|by apply Hdok|done|].
      destruct res as [i|]; [right|left; destruct Hres as [-> _]; done].
      destruct Hres as (t' & _ & _ & Hfree & Hi & _). exists d. split_and!; [done|by apply Hdok|right; eauto].
    - left. unfold ipc_port_dnrequest. erewrite bind_run; [|apply port_at_run, Ha]. cbn beta. by rewrite Hd. }
  destruct Hcase as [Hfull|Hroom]; [|by eapply dnrequest_round].
  eapply dnrequest_grows; try done. intros s' d' p' Ha' Hact' Hok' Hreg Hfree.
  assert (Hrp : forall i, requests p' i = requests p i) by exact Hreg.
  eapply wp_mono.
  - eapply dnrequest_round; try done. exists d'. split_and!; [done|done|by right].
  - intros res st (prev & -> & b' & idx & p2 & d2 & Hh2 & Hw2 & Hp2 & Hok2 & Hi2 & Hreg2 & Hprev).
    exists prev. split; [done|]. exists b', idx, p2, d2. split_and!; try done.
    + simpl in Hw2. by rewrite insert_insert_eq in Hw2.
    + intros i. by rewrite Hreg2, Hrp.
    + by rewrite Hprev, Hrp.
Qed.
End notify.
