(* ===== verification/Object.v ===== *)
(** * Capabilities (ipc/ipc_object.c)

    The routines the rest of the kernel calls to allocate names and objects,
    and to move rights between spaces, messages and the kernel.  They compose
    the allocation of entries (ipc_entry.c) with the rights (ipc_right.c).

    As in Right.v the space is reached through an interface: [NameAlloc] is
    what these routines call to allocate entries.  The locks are held from the
    allocation of the entry to the end; what other threads do before, and
    while a table grows, is part of the allocation. *)

From S2P Require Import Prelude Names Splay Table Space Hash Entry World Port Right.

Class NameAlloc (Sp : Type) := {
  na_alloc : M (Sp * world) (kern_return * option (Z * entry_ref));
  na_alloc_name : Z -> M (Sp * world) (kern_return * option entry_ref);
  na_get : Sp -> Sp * option (Z * entry_ref);
  na_grow : M (Sp * world) kern_return
}.

(** An [ipc_port] and an [ipc_pset] filled with zeroes. *)
Definition zero_port : ipc_port := mk_port 0 0 0 0 0 0 0 0 0 None 0 0 0 0 0 [] ipc_mqueue_init.
Definition zero_pset : ipc_pset := mk_pset 0 0 0 ipc_mqueue_init.

Definition ipc_object_reference (port : Z) : M world unit := ip_reference port.
Definition ipc_object_release (port : Z) : M world unit := ip_release port;; ip_check_unlock port.

(** ** Rights in the kernel *)

Definition ipc_object_copyin_type (msgt_name : Z) : option Z :=
  if msgt_name =? 0 then Some 0
  else if msgt_name =? MACH_MSG_TYPE_MOVE_RECEIVE then Some MACH_MSG_TYPE_PORT_RECEIVE
  else if (msgt_name =? MACH_MSG_TYPE_MOVE_SEND_ONCE) || (msgt_name =? MACH_MSG_TYPE_MAKE_SEND_ONCE)
  then Some MACH_MSG_TYPE_PORT_SEND_ONCE
  else if (msgt_name =? MACH_MSG_TYPE_MOVE_SEND) || (msgt_name =? MACH_MSG_TYPE_MAKE_SEND) ||
          (msgt_name =? MACH_MSG_TYPE_COPY_SEND)
  then Some MACH_MSG_TYPE_PORT_SEND
  else if msgt_name =? MSG_TYPE_PORT then Some MACH_MSG_TYPE_PORT_SEND
  else if msgt_name =? MSG_TYPE_PORT_ALL then Some MACH_MSG_TYPE_PORT_RECEIVE
  else None.

Definition ipc_object_copyout_type_compat (msgt_name : Z) : option Z :=
  if (msgt_name =? MACH_MSG_TYPE_PORT_SEND) || (msgt_name =? MACH_MSG_TYPE_PORT_SEND_ONCE)
  then Some MSG_TYPE_PORT
  else if msgt_name =? MACH_MSG_TYPE_PORT_RECEIVE then Some MSG_TYPE_PORT_ALL
  else None.

Definition ipc_object_copyin_from_kernel (port msgt_name : Z) : M world unit :=
  if msgt_name =? MACH_MSG_TYPE_MOVE_RECEIVE then
    update_port port (fun p => set_ip_data IP_NULL (set_ip_receiver_name MACH_PORT_NULL (set_ip_mscount 0 p)))
  else if msgt_name =? MACH_MSG_TYPE_COPY_SEND then
    p ← port_at port;
    when (ip_active p) (update_port port (fun p => set_ip_srights (u32 (ip_srights p + 1)) p));;
    ip_reference port
  else if msgt_name =? MACH_MSG_TYPE_MAKE_SEND then
    ip_reference port;;
    update_port port (fun p => set_ip_srights (u32 (ip_srights p + 1))
                                 (set_ip_mscount (u32 (ip_mscount p + 1)) p))
  else if msgt_name =? MACH_MSG_TYPE_MOVE_SEND then mret tt
  else if msgt_name =? MACH_MSG_TYPE_MAKE_SEND_ONCE then
    ip_reference port;;
    update_port port (fun p => set_ip_sorights (u32 (ip_sorights p + 1)) p)
  else if msgt_name =? MACH_MSG_TYPE_MOVE_SEND_ONCE then mret tt
  else crash.

(** [trylock] as in [ipc_port_destroy]. *)
Definition ipc_object_destroy (trylock : bool) (port msgt_name : Z) : M world unit :=
  if msgt_name =? MACH_MSG_TYPE_PORT_SEND then ipc_port_release_send port
  else if msgt_name =? MACH_MSG_TYPE_PORT_SEND_ONCE then emit (NotifySendOnce port)
  else if msgt_name =? MACH_MSG_TYPE_PORT_RECEIVE then ipc_port_release_receive trylock port
  else crash.

(** The right a message was sent with; [space] is the receiver's. *)
Definition ipc_object_copyout_dest (space port msgt_name : Z) : M world Z :=
  ip_release port;;
  if msgt_name =? MACH_MSG_TYPE_PORT_SEND then
    ns ← drop_send_right port;
    p ← port_at port;
    let name := if ip_receiver p =? space then ip_receiver_name p else MACH_PORT_NULL in
    notify_no_senders ns;;
    mret name
  else if msgt_name =? MACH_MSG_TYPE_PORT_SEND_ONCE then
    p ← port_at port;
    if ip_receiver p =? space then
      update_port port (fun p => set_ip_sorights (u32 (ip_sorights p - 1)) p);;
      mret (ip_receiver_name p)
    else
      ip_reference port;;
      emit (NotifySendOnce port);;
      mret MACH_PORT_NULL
  else crash.

(** ** Rights in a space *)

Section object.
Context {Sp : Type} `{NameSpace Sp} `{!NameAlloc Sp}.
(** The space and its notify port, what the rest of the system does while
    [ipc_port_dngrow] has dropped the locks, and the zones of objects. *)
Context (addr is_notify : Z) (env : right_env Sp) (io_alloc : Z -> world -> option Z).

Abbreviation sys := (Sp * world)%type.

Definition ipc_right_lookup_read (name : Z) : M sys (kern_return * option entry_ref) :=
  ipc_right_lookup_write name.

(** The result of looking up an entry for [f]. *)
Definition with_entry {A} (fail : kern_return -> A) (name : Z) (f : entry_ref -> M sys A) : M sys A :=
  r ← ipc_right_lookup_write name;
  match r with
  | (KERN_SUCCESS, Some entry) => f entry
  | (kr, _) => mret (fail kr)
  end.

Definition ipc_object_translate (name right : Z) : M sys (kern_return * Z) :=
  r ← ipc_right_lookup_read name;
  match r with
  | (KERN_SUCCESS, Some entry) =>
    e ← ie_read entry;
    if negb (has (ie_bits e) (MACH_PORT_TYPE right)) then mret (KERN_INVALID_RIGHT, IO_NULL)
    else mret (KERN_SUCCESS, ie_object e)
  | (kr, _) => mret (kr, IO_NULL)
  end.

(** *** Allocation *)

Definition ipc_object_alloc_dead : M sys (kern_return * Z) :=
  r ← na_alloc;
  match r with
  | (KERN_SUCCESS, Some (name, entry)) =>
    ie_write entry (fun e => set_bits (Z.lor (ie_bits e) (Z.lor MACH_PORT_TYPE_DEAD_NAME 1)) e);;
    mret (KERN_SUCCESS, name)
  | (kr, _) => mret (kr, MACH_PORT_NULL)
  end.

Definition ipc_object_alloc_dead_name (name : Z) : M sys kern_return :=
  r ← na_alloc_name name;
  match r with
  | (KERN_SUCCESS, Some entry) =>
    inuse ← ipc_right_inuse name entry;
    if (inuse : bool) then mret KERN_NAME_EXISTS
    else
      ie_write entry (fun e => set_bits (Z.lor (ie_bits e) (Z.lor MACH_PORT_TYPE_DEAD_NAME 1)) e);;
      mret KERN_SUCCESS
  | (kr, _) => mret kr
  end.

(** [io_alloc] and [bzero]. *)
Definition new_object (otype : Z) : M sys (option Z) :=
  object ← gets (fun st => io_alloc otype st.2);
  match object with
  | None => mret None
  | Some object =>
    on_world (modify (fun w =>
      if otype =? IOT_PORT then with_ports (<[object := zero_port]> (w_ports w)) w
      else with_psets (<[object := zero_pset]> (w_psets w)) w));;
    mret (Some object)
  end.

Definition io_free (otype object : Z) : M sys unit :=
  on_world (modify (fun w =>
    if otype =? IOT_PORT then with_ports (delete object (w_ports w)) w
    else with_psets (delete object (w_psets w)) w));;
  on_world (emit (ObjectFree object)).

(** The entry and the header of a new object. *)
Definition enter_object (otype type urefs object : Z) (entry : entry_ref) : M sys unit :=
  ie_write entry (fun e => set_object object (set_bits (Z.lor (ie_bits e) (Z.lor type urefs)) e));;
  on_world
    (if otype =? IOT_PORT
     then update_port object (fun p => set_ip_bits (io_makebits true otype 0) (set_ip_references 1 p))
     else update_pset object (fun p => set_ips_bits (io_makebits true otype 0) (set_ips_references 1 p))).

Definition ipc_object_alloc (otype type urefs : Z) : M sys (kern_return * Z * Z) :=
  object ← new_object otype;
  match object with
  | None => mret (KERN_RESOURCE_SHORTAGE, MACH_PORT_NULL, IO_NULL)
  | Some object =>
    r ← na_alloc;
    match r with
    | (KERN_SUCCESS, Some (name, entry)) =>
      enter_object otype type urefs object entry;;
      mret (KERN_SUCCESS, name, object)
    | (kr, _) => io_free otype object;; mret (kr, MACH_PORT_NULL, IO_NULL)
    end
  end.

Definition ipc_object_alloc_name (otype type urefs name : Z) : M sys (kern_return * Z) :=
  object ← new_object otype;
  match object with
  | None => mret (KERN_RESOURCE_SHORTAGE, IO_NULL)
  | Some object =>
    r ← na_alloc_name name;
    match r with
    | (KERN_SUCCESS, Some entry) =>
      inuse ← ipc_right_inuse name entry;
      if (inuse : bool) then io_free otype object;; mret (KERN_NAME_EXISTS, IO_NULL)
      else
        enter_object otype type urefs object entry;;
        mret (KERN_SUCCESS, object)
    | (kr, _) => io_free otype object;; mret (kr, IO_NULL)
    end
  end.

(** *** Copyin *)

(** [(kr, object)]. *)
Definition ipc_object_copyin (name msgt_name : Z) : M sys (kern_return * Z) :=
  with_entry (fun kr => (kr, IO_NULL)) name (fun entry =>
    r ← ipc_right_copyin name entry msgt_name true;
    let '(kr, object, soright) := r in
    e ← ie_read entry;
    when (IE_BITS_TYPE (ie_bits e) =? MACH_PORT_TYPE_NONE) (entry_dealloc name entry);;
    when (bool_decide (kr = KERN_SUCCESS)) (notify_port_deleted soright name);;
    mret (kr, object)).

Definition ipc_object_copyin_compat (name msgt_name : Z) (dealloc : bool) : M sys (kern_return * Z) :=
  with_entry (fun kr => (kr, IO_NULL)) name (fun entry =>
    ipc_right_copyin_compat name entry msgt_name dealloc).

Definition ipc_object_copyin_header (name : Z) : M sys (kern_return * Z * Z) :=
  with_entry (fun kr => (kr, IO_NULL, 0)) name (fun entry =>
    ipc_right_copyin_header is_notify name entry).

(** *** Copyout *)

(** An entry for the object: the one the space has for it already, or a new
    one; [inr] when the call returns.  The loop goes round when the table has
    grown. *)
Fixpoint copyout_entry (fuel : nat) (object msgt_name : Z) : M sys (Z * entry_ref + kern_return) :=
  match fuel with
  | O => crash
  | S fuel =>
    active ← gets (fun st => ns_active st.1);
    if negb active then mret (inr KERN_INVALID_TASK)
    else
      reverse ← (if negb (msgt_name =? MACH_MSG_TYPE_PORT_SEND_ONCE)
                 then ipc_right_reverse addr object else mret None);
      match reverse with
      | Some (name, entry) => mret (inl (name, entry))
      | None =>
        r ← of_space na_get;
        match r with
        | None =>
          kr ← na_grow;
          match kr with
          | KERN_SUCCESS => copyout_entry fuel object msgt_name
          | kr => mret (inr kr)
          end
        | Some (name, entry) =>
          p ← on_world (port_at object);
          if negb (ip_active p) then entry_dealloc name entry;; mret (inr KERN_INVALID_CAPABILITY)
          else ie_write entry (set_object object);; mret (inl (name, entry))
        end
      end
  end.

Definition ipc_object_copyout (fuel : nat) (object msgt_name : Z) (overflow : bool)
    : M sys (kern_return * Z) :=
  r ← copyout_entry fuel object msgt_name;
  match r with
  | inr kr => mret (kr, MACH_PORT_NULL)
  | inl (name, entry) =>
    kr ← ipc_right_copyout addr name entry msgt_name overflow object;
    mret (kr, if bool_decide (kr = KERN_SUCCESS) then name else MACH_PORT_NULL)
  end.

(** The same for a given name; [None] when the name can be used. *)
Definition copyout_name_check (object msgt_name name : Z) (entry : entry_ref)
    : M sys (option kern_return) :=
  reverse ← (if negb (msgt_name =? MACH_MSG_TYPE_PORT_SEND_ONCE)
             then ipc_right_reverse addr object else mret None);
  match reverse with
  | Some (oname, oentry) =>
    if negb (name =? oname) then
      e ← ie_read entry;
      when (IE_BITS_TYPE (ie_bits e) =? MACH_PORT_TYPE_NONE) (entry_dealloc name entry);;
      mret (Some KERN_RIGHT_EXISTS)
    else mret None
  | None =>
    inuse ← ipc_right_inuse name entry;
    if (inuse : bool) then mret (Some KERN_NAME_EXISTS)
    else
      p ← on_world (port_at object);
      if negb (ip_active p) then entry_dealloc name entry;; mret (Some KERN_INVALID_CAPABILITY)
      else ie_write entry (set_object object);; mret None
  end.

Definition ipc_object_copyout_name (object msgt_name : Z) (overflow : bool) (name : Z)
    : M sys kern_return :=
  r ← na_alloc_name name;
  match r with
  | (KERN_SUCCESS, Some entry) =>
    refused ← copyout_name_check object msgt_name name entry;
    match refused with
    | Some kr => mret kr
    | None => ipc_right_copyout addr name entry msgt_name overflow object
    end
  | (kr, _) => mret kr
  end.

Definition ipc_object_rename (oname nname : Z) : M sys kern_return :=
  r ← na_alloc_name nname;
  match r with
  | (KERN_SUCCESS, Some nentry) =>
    inuse ← ipc_right_inuse nname nentry;
    if (inuse : bool) then mret KERN_NAME_EXISTS
    else
      oentry ← (if oname =? nname then mret None else of_space (fun s => ns_lookup s oname));
      match oentry with
      | None => entry_dealloc nname nentry;; mret KERN_INVALID_NAME
      | Some oentry => ipc_right_rename oname oentry nname nentry
      end
  | (kr, _) => mret kr
  end.

(** *** Copyout for old message types (MACH_IPC_COMPAT) *)

(** Mark the new entry; [false] when the port's table of requests is full. *)
Definition enter_compat (port name : Z) (entry : entry_ref) : M sys bool :=
  request ← on_world (ipc_port_dnrequest port name (ipr_spacem addr));
  match request with
  | None => entry_dealloc name entry;; mret false
  | Some request =>
    on_world (emit SpaceReference);;
    ie_write entry (fun e =>
      set_bits (Z.lor (ie_bits e) IE_BITS_COMPAT) (set_request request (set_object port e)));;
    mret true
  end.

Fixpoint copyout_compat_entry (fuel : nat) (port msgt_name : Z) : M sys (Z * entry_ref + kern_return) :=
  match fuel with
  | O => crash
  | S fuel =>
    active ← gets (fun st => ns_active st.1);
    if negb active then mret (inr KERN_INVALID_TASK)
    else
      reverse ← (if negb (msgt_name =? MACH_MSG_TYPE_PORT_SEND_ONCE)
                 then ipc_right_reverse addr port else mret None);
      match reverse with
      | Some (name, entry) => mret (inl (name, entry))
      | None =>
        r ← of_space na_get;
        match r with
        | None =>
          kr ← na_grow;
          match kr with
          | KERN_SUCCESS => copyout_compat_entry fuel port msgt_name
          | kr => mret (inr kr)
          end
        | Some (name, entry) =>
          p ← on_world (port_at port);
          if negb (ip_active p) then entry_dealloc name entry;; mret (inr KERN_INVALID_CAPABILITY)
          else
            entered ← enter_compat port name entry;
            if (entered : bool) then mret (inl (name, entry))
            else
              kr ← on_world (ipc_port_dngrow port (re_alloc env) (re_other env));
              match kr with
              | KERN_SUCCESS => modify (re_between env);; copyout_compat_entry fuel port msgt_name
              | kr => mret (inr kr)
              end
        end
      end
  end.

Definition ipc_object_copyout_compat (fuel : nat) (port msgt_name : Z) : M sys (kern_return * Z) :=
  r ← copyout_compat_entry fuel port msgt_name;
  match r with
  | inr kr => mret (kr, MACH_PORT_NULL)
  | inl (name, entry) =>
    kr ← ipc_right_copyout addr name entry msgt_name true port;
    mret (kr, if bool_decide (kr = KERN_SUCCESS) then name else MACH_PORT_NULL)
  end.

Fixpoint ipc_object_copyout_name_compat (fuel : nat) (port msgt_name name : Z) : M sys kern_return :=
  match fuel with
  | O => crash
  | S fuel =>
    r ← na_alloc_name name;
    match r with
    | (KERN_SUCCESS, Some entry) =>
      inuse ← ipc_right_inuse name entry;
      if (inuse : bool) then mret KERN_NAME_EXISTS
      else
        reverse ← (if negb (msgt_name =? MACH_MSG_TYPE_PORT_SEND_ONCE)
                   then ipc_right_reverse addr port else mret None);
        match reverse with
        | Some _ => entry_dealloc name entry;; mret KERN_RIGHT_EXISTS
        | None =>
          p ← on_world (port_at port);
          if negb (ip_active p) then entry_dealloc name entry;; mret KERN_INVALID_CAPABILITY
          else
            entered ← enter_compat port name entry;
            if (entered : bool) then ipc_right_copyout addr name entry msgt_name true port
            else
              kr ← on_world (ipc_port_dngrow port (re_alloc env) (re_other env));
              match kr with
              | KERN_SUCCESS =>
                modify (re_between env);; ipc_object_copyout_name_compat fuel port msgt_name name
              | kr => mret kr
              end
        end
    | (kr, _) => mret kr
    end
  end.
End object.

(** ** Spaces allocate names *)

(** [others] is what other threads do to ports and messages before the space
    is locked for the last time. *)
Definition space_alloc `{PortConfig} `{!EntrySizes} (addr : Z) (env : environment) (fuel : nat)
    (others : world -> world) : NameAlloc (ipc_space * Global.ghash) := {|
  na_alloc := fun st =>
    match ipc_entry_alloc addr env fuel st.1.1 st.1.2 with
    | Some (kr, r, s, g) => Some ((kr, r), ((s, g), others st.2))
    | None => None
    end;
  na_alloc_name := fun name st =>
    match ipc_entry_alloc_name addr env fuel st.1.1 st.1.2 name None with
    | Some (kr, r, s, g) => Some ((kr, r), ((s, g), others st.2))
    | None => None
    end;
  na_get := fun st => let '(s, r) := ipc_entry_get st.1 in ((s, st.2), r);
  na_grow := fun st =>
    match ipc_entry_grow_table addr env st.1.1 st.1.2 with
    | Some (kr, s, g) => Some (kr, ((s, g), others st.2))
    | None => None
    end
|}.
