(* ===== verification/ObjectInv.v ===== *)
(** * What the routines of ipc_object.c do to a space

    A space is a finite map from names to rights: [updated s s' name v] says
    that an operation has changed the value at one name, and that the
    invariant of the space holds again, with no entry left half made.
    [NameAllocLaws] states what the allocation of entries promises; the
    theorems on objects are proved against it and [space_alloc_laws]
    discharges it for the translated code of ipc_entry.c. *)

From S2P Require Import Prelude Names Splay Table Space Hash Entry EntryInv Alloc Dealloc Grow Retry.
From S2P Require Import World Port PortInv PortQueue Right RightBits RightLaws RightWp RightInv RightOps.
From S2P Require Import RightNotify Object.

(** ** Spaces as maps *)

(** [packed] determines its arguments. *)
Lemma type_multiple `{PortConfig} b : exists k, IE_BITS_TYPE b = 65536 * k /\ 0 <= k < 32.
Proof.
  exists (Z.land (Z.shiftr b 16) 31). unfold IE_BITS_TYPE.
  change IE_BITS_TYPE_MASK with (Z.shiftl 31 16). split.
  - rewrite <- (Z.mul_comm _ 65536). change 65536 with (2 ^ 16). rewrite <- Z.shiftl_mul_pow2 by lia.
    apply Z.bits_inj'. intros i Hi. rewrite Z.land_spec, !Z.shiftl_spec by lia. rewrite Z.land_spec.
    destruct (Z_lt_le_dec i 16).
    + rewrite (Z.testbit_neg_r 31) by lia. by rewrite !andb_false_r.
    + rewrite Z.shiftr_spec by lia. by replace (i - 16 + 16) with i by lia.
  - change 31 with (Z.ones 5). rewrite Z.land_ones by lia. apply Z.mod_pos_bound. lia.
Qed.

Lemma described_packed `{PortConfig} b t u ma co :
  u32_range b -> Z.land b IE_BITS_RIGHT_MASK = packed t u ma co -> IE_BITS_TYPE t = t -> 0 <= u < 65536 ->
  described b t u ma co.
Proof.
  intros Hb Heq Ht Hu.
  assert (Hd : described b (IE_BITS_TYPE b) (IE_BITS_UREFS b) (has b IE_BITS_MAREQUEST) (has b IE_BITS_COMPAT)) by done.
  rewrite (packed_right _ _ _ _ _ Hd) in Heq. unfold packed in Heq.
  destruct (type_multiple b) as (k & Hk & ?). destruct (type_multiple t) as (k' & Hk' & ?).
  rewrite Ht in Hk'. pose proof (urefs_range b).
  change IE_BITS_MAREQUEST with 2097152 in *. change IE_BITS_COMPAT with 4194304 in *. rewrite Hk, Hk' in Heq.
  destruct (has b 2097152) eqn:E1, (has b 4194304) eqn:E2, ma, co;
    (try (exfalso; lia)); split; try done; lia.
Qed.

Lemma wf_type t u ma co o q : wf_right t u ma co o q -> IE_BITS_TYPE t = t /\ t <> 0.
Proof. by destruct 1. Qed.

Section maps.
Context {Sp : Type} `{!NameSpace Sp, !NameSpaceLaws Sp} `{PortConfig}.

(** [name] denotes a well-formed right. *)
Definition named (s : Sp) (name t u : Z) (ma co : bool) (o q : Z) : Prop :=
  ns_means None s name (packed t u ma co, o, q) /\ wf_right t u ma co o q.

Definition unnamed (s : Sp) (name : Z) : Prop := forall c, ~ ns_means None s name c.

Definition updated (s s' : Sp) (name : Z) (v : option (Z * Z * Z)) : Prop :=
  ns_ok None s' /\
  forall n c, ns_means None s' n c <-> if decide (n = name) then v = Some c else ns_means None s n c.

(** Nothing that can be seen has changed. *)
Definition unchanged (s s' : Sp) : Prop :=
  ns_ok None s' /\ forall n c, ns_means None s' n c <-> ns_means None s n c.

Lemma named_held s name t u ma co o q :
  ns_ok None s -> named s name t u ma co o q -> exists r b, held None s name r s b o q t u ma co.
Proof.
  intros Hok [(r & Hden & Hf) Hwf]. destruct (wf_type _ _ _ _ _ _ Hwf) as [Ht Ht0].
  assert (Hhole : hole_of name t = None) by (unfold hole_of; by rewrite (proj2 (Z.eqb_neq _ _))).
  exists r, (ie_bits (ns_read s r)). injection Hf as Hb Ho Hq. destruct (wf_urefs _ _ _ _ _ _ Hwf) as [Hu _].
  split; rewrite ?Hhole; try done.
  - exists (ie_index (ns_read s r)). destruct (ns_read s r). simpl in *. by subst.
  - apply described_packed; [by eapply ns_bits|done..|lia].
Qed.

Lemma held_updated h0 s0 name r s b o q t u ma co :
  held h0 s0 name r s b o q t u ma co -> t <> 0 -> h0 = None ->
  updated s0 s name (Some (packed t u ma co, o, q)).
Proof.
  intros Hh Ht ->. pose proof Hh as [Hok _ _ _ _ Hothers].
  pose proof (fun c => means_held _ _ _ _ _ _ _ _ _ _ _ _ c Hh) as Hm.
  assert (Hhole : hole_of name t = None) by (unfold hole_of; by rewrite (proj2 (Z.eqb_neq _ _))).
  rewrite Hhole in *. split; [done|]. intros n c. destruct (decide (n = name)) as [->|Hn]; [|by apply Hothers].
  rewrite Hm. split; [by intros ->|by intros [= <-]].
Qed.

Lemma gone_updated s0 name s : gone None s0 name s -> updated s0 s name None.
Proof.
  intros [Hok Hm]. split; [done|]. intros n c. rewrite Hm.
  destruct (decide (n = name)) as [->|Hn]; [|tauto]. split; [by intros []|done].
Qed.

Lemma held_unchanged s0 name r s b o q t u ma co :
  held None s0 name r s b o q t u ma co -> t <> 0 -> ns_means None s0 name (packed t u ma co, o, q) ->
  ns_ok None s0 -> unchanged s0 s.
Proof.
  intros Hh Ht Hm Hok. destruct (held_updated _ _ _ _ _ _ _ _ _ _ _ _ Hh Ht eq_refl) as [Hok' Hu]. split; [done|].
  intros n c. rewrite Hu. destruct (decide (n = name)) as [->|]; [|done]. split; [by intros [= <-]|].
  intros (r1 & Hd1 & <-). destruct Hm as (r2 & Hd2 & <-). by rewrite (ns_unique _ _ _ _ _ Hok Hd1 Hd2).
Qed.

Lemma preserved_unchanged s s' : ns_preserved None s s' -> unchanged s s'.
Proof.
  intros (Hok & _ & Hden & Hread). split; [done|]. intros n c. split; intros (r & Hd & <-); exists r;
    rewrite Hden in *; (split; [done|]); apply right_fields_eq; [symmetry|]; eauto.
Qed.
End maps.

(** ** Looking names up *)

Section lookups.
Context {Sp : Type} `{!NameSpace Sp, !NameSpaceLaws Sp} `{PortConfig}.
Implicit Types (s : Sp) (w : world).

Lemma lookup_dead_space s w name :
  ns_active s = false -> ipc_right_lookup_write name (s, w) = Some ((KERN_INVALID_TASK, None), (s, w)).
Proof. intros Hact. unfold ipc_right_lookup_write, mbind, M_bind, gets. simpl. by rewrite Hact. Qed.

Lemma lookup_unnamed s w name :
  ns_active s = true -> ns_ok None s -> u32_range name -> unnamed s name ->
  exists s', ipc_right_lookup_write name (s, w) = Some ((KERN_INVALID_NAME, None), (s', w)) /\ unchanged s s'.
Proof.
  intros Hact Hok Hname Hun. unfold ipc_right_lookup_write, mbind, M_bind, gets, of_space. simpl. rewrite Hact. simpl.
  destruct (ns_lookup_law s name Hok Hname) as [Hp Hr]. destruct (ns_lookup s name) as [s' [r|]]; simpl in *.
  - exfalso. destruct (Hr r) as [Hd _]. eapply Hun. exists r. split; [by apply Hd|reflexivity].
  - exists s'. split; [done|]. by apply preserved_unchanged.
Qed.

(** A call that starts with looking up the entry of a right. *)
Lemma wp_with_entry {A} (fail : kern_return -> A) s w name r b o q t u ma co (f : entry_ref -> M (Sp * world) A) Q :
  held None s name r s b o q t u ma co -> t <> 0 -> ns_active s = true -> u32_range name ->
  (forall s', held None s name r s' b o q t u ma co -> wp (f r) Q (s', w)) ->
  wp (with_entry fail name f) Q (s, w).
Proof.
  intros Hh Ht Hact Hname HQ. unfold with_entry. apply wp_bind.
  eapply lookup_write_spec; [done..|]. intros s' Hh' _. by apply HQ.
Qed.

(** [ipc_object_translate] finds the object of a right and changes nothing. *)
Lemma translate_spec s w name right t u ma co o q :
  ns_ok None s -> ns_active s = true -> u32_range name -> named s name t u ma co o q ->
  0 <= right <= 4 ->
  exists s', ipc_object_translate name right (s, w) =
    Some (if has t (MACH_PORT_TYPE right) then (KERN_SUCCESS, o) else (KERN_INVALID_RIGHT, IO_NULL), (s', w)) /\
    unchanged s s'.
Proof.
  intros Hok Hact Hname Hn Hr. destruct (named_held _ _ _ _ _ _ _ _ Hok Hn) as (r & b & Hh).
  destruct Hn as [Hm Hwf]. destruct (wf_type _ _ _ _ _ _ Hwf) as [Htt Ht].
  enough (Hwp : wp (ipc_object_translate name right) (fun res st =>
    res = (if has t (MACH_PORT_TYPE right) then (KERN_SUCCESS, o) else (KERN_INVALID_RIGHT, IO_NULL)) /\
    unchanged s st.1 /\ st.2 = w) (s, w)).
  { destruct (wp_returns _ _ _ Hwp) as (res & [s' w'] & Hrun & -> & Hu & Hw). simpl in Hw. subst w'. eauto. }
  unfold ipc_object_translate, ipc_right_lookup_read. apply wp_bind. eapply lookup_write_spec; [done..|].
  intros s' Hh' _. apply wp_bind. eapply wp_read; [done|]. intros i. cbn [ie_bits ie_object].
  rewrite (has_type b), (b_type _ _ _ _ _ (h_desc _ _ _ _ _ _ _ _ _ _ _ _ Hh')).
  - by destruct (has t (MACH_PORT_TYPE right)); simpl; apply wp_ret; (split; [done|]);
      (split; [|done]); eapply held_unchanged.
  - assert (Hc : right = 0 \/ right = 1 \/ right = 2 \/ right = 3 \/ right = 4) by lia.
    by destruct Hc as [->|[->|[->|[->| ->]]]].
Qed.
End lookups.

(** ** Copyin *)

Section copyin.
Context {Sp : Type} `{!NameSpace Sp, !NameSpaceLaws Sp} `{PortConfig}.
Implicit Types (s : Sp) (w : world).

(** The end of [ipc_object_copyin]: an entry without a type is deallocated. *)
Lemma wp_copyin_end s0 name r s w b o q t u ma co (res : kern_return * Z) dn
    (Q : kern_return * Z -> Sp * world -> Prop) :
  held None s0 name r s b o q t u ma co -> (t = 0 -> o = IO_NULL) ->
  (forall s', (if t =? 0 then updated s0 s' name None else s' = s) ->
     Q res (s', if bool_decide (res.1 = KERN_SUCCESS) then emitted (deleted_events dn name) w else w)) ->
  wp (e ← ie_read r;
      when (IE_BITS_TYPE (ie_bits e) =? MACH_PORT_TYPE_NONE) (entry_dealloc name r);;
      when (bool_decide (res.1 = KERN_SUCCESS)) (notify_port_deleted dn name);; mret res) Q (s, w).
Proof.
  intros Hh Ho HQ. apply wp_bind. eapply wp_read; [done|]. intros i. cbn [ie_bits].
  rewrite (b_type _ _ _ _ _ (h_desc _ _ _ _ _ _ _ _ _ _ _ _ Hh)). change MACH_PORT_TYPE_NONE with 0.
  assert (Hend : forall s', (if t =? 0 then updated s0 s' name None else s' = s) ->
    wp (when (bool_decide (res.1 = KERN_SUCCESS)) (notify_port_deleted dn name);; mret res) Q (s', w)).
  { intros s' Hs'. specialize (HQ s' Hs'). apply wp_bind. unfold when. destruct (bool_decide _).
    - by apply wp_port_deleted, wp_ret.
    - by apply wp_ret, wp_ret. }
  apply wp_bind. unfold when at 1. destruct (Z.eqb_spec t 0) as [->|].
  - rewrite Ho in Hh by done. eapply wp_dealloc; [done|]. intros s' Hg. by apply Hend, gone_updated.
  - by apply wp_ret, Hend.
Qed.

(** The right in the space after a copyin. *)
Definition copied_from (s s' : Sp) (name port t' u' : Z) (ma' co : bool) (q' : Z) : Prop :=
  if t' =? 0 then updated s s' name None
  else updated s s' name (Some (packed t' u' ma' co, port, q')) /\ wf_right t' u' ma' co port q'.

(** A live port a name denotes a right for. *)
Record live_right (s : Sp) (w : world) (name port : Z) (p : ipc_port) (t u q : Z) (ma co : bool) : Prop := {
  lr_ok : ns_ok None s;
  lr_active : ns_active s = true;
  lr_name : u32_range name;
  lr_right : named s name t u ma co port q;
  lr_type : has t MACH_PORT_TYPE_PORT_RIGHTS = true;
  lr_port : w_ports w !! port = Some p;
  lr_alive : ip_active p = true;
  lr_counts : counts_ok p;
  lr_dn : dn_known p name q
}.

Lemma object_copyin_spec s w name port p t u q ma co m :
  live_right s w name port p t u q ma co -> copyin_type m = true -> permits m t = true ->
  (m = MACH_MSG_TYPE_MOVE_RECEIVE -> receivable w p) ->
  wp (ipc_object_copyin name m) (fun res st =>
    res = (KERN_SUCCESS, port) /\
    exists p' t' u' ma' q' dn ev,
      copied_from s st.1 name port t' u' ma' co q' /\
      w_ports st.2 = <[port := p']> (w_ports w) /\ ip_active p' = true /\
      balanced p p' t t' (count (gives_send m)) (count (gives_sonce m)) 1 /\
      w_events st.2 = ev ++ deleted_events dn name /\
      (dn <> IP_NULL -> t' = 0 /\ exists d, ip_dnrequests p = Some d /\ registered d q = Some (name, dn))) (s, w).
Proof.
  intros [Hok Hact Hname Hn Hpr Hp Halive Hc Hdn] Hm Hperm Hrv.
  destruct (named_held _ _ _ _ _ _ _ _ Hok Hn) as (r & b & Hh). destruct Hn as [_ Hwf].
  unfold ipc_object_copyin. eapply wp_with_entry; [done|by eapply wf_type|done..|]. intros s1 Hh1.
  assert (Ha : alive None s name r s1 w port p b t u q ma co) by done.
  apply wp_bind. eapply wp_mono; [by apply (copyin_spec _ _ _ _ _ _ _ _ _ _ _ _ _ _ m true Ha)|].
  intros res [s2 w2] (dn & -> & p' & b' & o' & q' & t' & u' & ma' & Hh2 & Hwf2 & Hports & Hact2 & Hbal & Hd).
  simpl in *. eapply (wp_copyin_end s name r s2 w2 _ _ _ _ _ _ _ (KERN_SUCCESS, port)); [done| |].
  { intros ->. by destruct Hwf2. }
  intros s3 Hs3. split; [done|]. exists p', t', u', ma', q', dn, (w_events w2). split_and!; try done.
  unfold copied_from. destruct (Z.eqb_spec t' 0); [done|]. destruct Hwf2 as [Hwf2 ->]. subst s3.
  split; [by eapply held_updated|done].
Qed.

Lemma object_copyin_refused s w name port p t u q ma co m :
  live_right s w name port p t u q ma co -> copyin_type m = true -> permits m t = false ->
  wp (ipc_object_copyin name m) (fun res st =>
    res = (KERN_INVALID_RIGHT, IO_NULL) /\ unchanged s st.1 /\ st.2 = w) (s, w).
Proof.
  intros [Hok Hact Hname Hn Hpr Hp Halive Hc Hdn] Hm Hperm.
  destruct (named_held _ _ _ _ _ _ _ _ Hok Hn) as (r & b & Hh). destruct Hn as [Hme Hwf].
  destruct (wf_type _ _ _ _ _ _ Hwf) as [_ Ht].
  unfold ipc_object_copyin. eapply wp_with_entry; [done..|]. intros s1 Hh1.
  assert (Ha : alive None s name r s1 w port p b t u q ma co) by done.
  apply wp_bind. eapply wp_mono; [by apply (copyin_refused _ _ _ _ _ _ _ _ _ _ _ _ _ _ m true Ha)|].
  intros res [s2 w2] (-> & [= -> ->]).
  eapply (wp_copyin_end s name r s1 w _ _ _ _ _ _ _ (KERN_INVALID_RIGHT, IO_NULL)); [done|done|].
  intros s3. rewrite (proj2 (Z.eqb_neq _ _)) by done. intros ->. simpl. split_and!; try done.
  by eapply held_unchanged.
Qed.

(** A dead right that is not a compat right is copied in as IO_DEAD. *)
Lemma object_copyin_dead s w name port p t u q ma m :
  ns_ok None s -> ns_active s = true -> u32_range name -> named s name t u ma false port q -> mortal t ->
  w_ports w !! port = Some p -> ip_active p = false -> takes_send m = true ->
  wp (ipc_object_copyin name m) (fun res st =>
    res = (KERN_SUCCESS, IO_DEAD) /\
    st.2 = released port p (emitted (check_events t ma name) w) /\
    updated s st.1 name
      (if dead_urefs u q =? urefs_taken m then None
       else Some (packed MACH_PORT_TYPE_DEAD_NAME (dead_urefs u q - urefs_taken m) false false, IO_NULL, 0))) (s, w).
Proof.
  intros Hok Hact Hname Hn Hmo Hp Hdead Hm.
  destruct (named_held _ _ _ _ _ _ _ _ Hok Hn) as (r & b & Hh). destruct Hn as [Hme Hwf].
  unfold ipc_object_copyin. eapply wp_with_entry; [done|by eapply wf_type|done..|]. intros s1 Hh1.
  apply wp_bind. eapply wp_mono; [by apply (copyin_dead_spec _ _ _ _ _ _ _ p _ _ _ _ _ _ m true Hh1)|].
  intros res [s2 w2] (Hw & -> & b' & t' & Hh2 & Ht'). simpl in Hw, Hh2. subst w2.
  eapply (wp_copyin_end s name r s2 _ _ _ _ _ _ _ _ (KERN_SUCCESS, IO_DEAD)); [done|done|].
  intros s3 Hs3. simpl. split; [done|]. unfold deleted_events. simpl. rewrite emitted_nil. split; [done|].
  destruct Ht' as [[-> Hu]|[-> Hu]]; simpl in *.
  - by rewrite (proj2 (Z.eqb_eq _ _)).
  - rewrite (proj2 (Z.eqb_neq _ _)) by lia. subst s3. by eapply held_updated.
Qed.
End copyin.

(** ** What the allocation of entries promises *)

(** Objects under construction, which nobody else can reach, stay as they
    are. *)
Definition keeps_new (w w' : world) : Prop :=
  (forall x, w_ports w !! x = Some zero_port -> w_ports w' !! x = Some zero_port) /\
  (forall x, w_psets w !! x = Some zero_pset -> w_psets w' !! x = Some zero_pset).

Section laws.
Context {Sp : Type} `{!NameSpace Sp, !NameSpaceLaws Sp} `{PortConfig}.

(** An active space satisfies the invariant. *)
Definition ns_good (s : Sp) : Prop := ns_active s = true -> ns_ok None s.

(** A new name, whose entry is empty. *)
Definition ns_allocated (s s' : Sp) (name : Z) (r : entry_ref) : Prop :=
  ns_ok (Some name) s' /\ ns_denotes (Some name) s' name r /\ unnamed s name /\
  ns_active s = true /\ ns_active s' = true /\
  forall n c, ns_means (Some name) s' n c <-> (n = name /\ c = (0, IO_NULL, 0)) \/ ns_means None s n c.

(** The errors of allocation. *)
Definition alloc_fails (kr : kern_return) (s : Sp) : Prop :=
  kr = KERN_INVALID_TASK /\ ns_active s = false \/ kr = KERN_NO_SPACE \/ kr = KERN_RESOURCE_SHORTAGE.

Class NameAllocLaws `{!NameAlloc Sp} := {
  (** What other threads may do while the space is not locked, and when the
      calls return. *)
  na_meanwhile : Sp * world -> Sp * world -> Prop;
  na_returns : Sp -> Prop;
  na_keeps_new : forall st st', na_meanwhile st st' -> keeps_new st.2 st'.2;
  na_get_law : forall s, ns_ok None s -> ns_active s = true ->
    match na_get s with
    | (s', None) => s' = s
    | (s', Some (name, r)) => MACH_PORT_VALID name = true /\ ns_allocated s s' name r
    end;
  na_alloc_law : forall st, ns_good st.1 -> na_returns st.1 ->
    exists kr r st', na_alloc st = Some ((kr, r), st') /\
    match r with
    | Some (name, entry) =>
      kr = KERN_SUCCESS /\ MACH_PORT_VALID name = true /\
      exists s0, na_meanwhile st (s0, st'.2) /\ ns_ok None s0 /\ ns_allocated s0 st'.1 name entry
    | None => alloc_fails kr st'.1 /\ na_meanwhile st st' /\ ns_good st'.1
    end;
  na_alloc_name_law : forall name st,
    u32_range name -> MACH_PORT_VALID name = true -> ~ shadowed name -> ns_good st.1 -> na_returns st.1 ->
    exists kr r st', na_alloc_name name st = Some ((kr, r), st') /\
    match r with
    | Some entry =>
      kr = KERN_SUCCESS /\
      exists s0, na_meanwhile st (s0, st'.2) /\ ns_ok None s0 /\ ns_active s0 = true /\
        (ns_denotes None s0 name entry /\ ns_preserved None s0 st'.1 \/ ns_allocated s0 st'.1 name entry)
    | None => alloc_fails kr st'.1 /\ na_meanwhile st st' /\ ns_good st'.1
    end;
  na_grow_law : forall st kr st', ns_ok None st.1 -> ns_active st.1 = true -> na_grow st = Some (kr, st') ->
    na_meanwhile st st' /\ ns_good st'.1
}.
End laws.
Arguments NameAllocLaws Sp {_ _ _ _}.

(** ** The entries of a space satisfy the laws *)

Section instance.
Context `{PortConfig} `{!EntrySizes} (addr : Z) (env : environment) (fuel : nat) (others : world -> world).
Context (R : ipc_space -> ipc_space -> Prop) (WB : well_behaved env R).
Context (W : world -> world -> Prop) (HW : forall w, W w (others w)).
Context (HWnew : forall w w', W w w' -> keeps_new w w').
#[local] Instance onames : NameSpace (ipc_space * Global.ghash) := space_names addr.
#[local] Instance olaws : NameSpaceLaws (ipc_space * Global.ghash) := space_names_laws addr.
#[local] Instance oalloc : NameAlloc (ipc_space * Global.ghash) := space_alloc addr env fuel others.

Lemma allocated_names s s' g g' name r :
  allocated s s' name r -> is_active s = true -> is_active s' = true ->
  ns_allocated (s, g) (s', g') name r.
Proof.
  intros (Hinv & Hden & Hno & Hm) H1 H2. split_and!; try done. intros c (r' & Hd & _). by apply (Hno r').
Qed.

Lemma resplayed_names s s' g : space_inv None s -> resplayed s s' -> ns_preserved None (s, g) (s', g).
Proof.
  intros Hinv (tree & -> & Hok & Hl). destruct (with_tree_inv None s tree Hinv Hok Hl) as (Hinv' & Hden & Hread).
  by split_and!.
Qed.

Definition alloc_terminates (st : ipc_space * Global.ghash) : Prop :=
  is_Some (ipc_entry_alloc addr env fuel st.1 st.2) /\
  forall name, u32_range name -> is_Some (ipc_entry_alloc_name addr env fuel st.1 st.2 name None).

#[export, refine] Instance space_alloc_laws : NameAllocLaws (ipc_space * Global.ghash) := {|
  na_meanwhile := fun st st' => R st.1.1 st'.1.1 /\ W st.2 st'.2;
  na_returns := alloc_terminates
|}.
Proof.
  - intros st st' [_ ?]. by apply HWnew.
  - intros [s g] Hinv Hact. simpl in *. pose proof (entry_get_spec s Hinv) as Hget.
    pose proof (entry_get_active s) as Hact'. destruct (ipc_entry_get s) as [s' [[name r]|]]; simpl in *.
    + destruct Hget as [Ha Hv]. split; [done|]. apply allocated_names; [done..|congruence].
    + by destruct Hget as [-> _].
  - intros [[s g] w] Hgood [[res Hres] _]. simpl in *. rewrite Hres.
    pose proof (entry_alloc_spec addr env R WB fuel s g res Hgood Hres) as Hspec.
    destruct res as [[[kr r] s'] g']. exists kr, r, ((s', g'), others w). split; [done|].
    destruct r as [[name r]|], kr; simpl in Hspec; try done.
    + destruct Hspec as (Hv & Hact' & s0 & HR & Hinv & Hact & Ha). split; [done|]. split; [done|].
      exists (s0, g). split_and!; try done. by apply allocated_names.
    + destruct Hspec as (_ & Hg & HR). split_and!; try done. by right; left.
    + destruct Hspec as (Hg & HR). split_and!; try done. by right; right.
    + destruct Hspec as (Hd & HR). split_and!; try done; [by left|]. intros Ht. simpl in Ht. congruence.
  - intros name [[s g] w] Hname Hv Hns Hgood [_ Hterm]. simpl in *. destruct (Hterm name Hname) as [res Hres].
    rewrite Hres. pose proof (entry_alloc_name_spec addr env R WB fuel name Hname Hv Hns s g None res Hgood
      ltac:(done) Hres) as Hspec.
    destruct res as [[[kr r] s'] g']. exists kr, r, ((s', g'), others w). split; [done|].
    destruct r as [r|], kr; simpl in Hspec; try done.
    + destruct Hspec as (Hact' & s0 & HR & Hinv & Hact & Ha). split; [done|].
      exists (s0, g'). split_and!; try done. destruct Ha as [[Hd Hr]|Ha].
      * left. split; [done|]. by apply resplayed_names.
      * right. by apply allocated_names.
    + destruct Hspec as (_ & Hg & HR). split_and!; try done. by right; left.
    + destruct Hspec as (Hg & HR). split_and!; try done. by right; right.
    + destruct Hspec as (Hd & HR). split_and!; try done; [by left|]. intros Ht. simpl in Ht. congruence.
  - intros [[s g] w] kr st' Hinv Hact Hrun. simpl in *.
    destruct (grow_table_spec addr env R WB s g Hact Hinv) as ([[kr' s'] g'] & Hgrow & _ & Hg & HR & _).
    rewrite Hgrow in Hrun. injection Hrun as <- <-. by split_and!.
Defined.
End instance.

(** ** Allocation *)

Section alloc.
Context {Sp : Type} `{!NameSpace Sp, !NameSpaceLaws Sp} `{PortConfig} `{!NameAlloc Sp, !NameAllocLaws Sp}.
Context (io_alloc : Z -> world -> option Z).
Implicit Types (s : Sp) (w : world).

Lemma allocated_held s s' name r :
  ns_allocated s s' name r -> exists b, held None s name r s' b IO_NULL 0 0 0 false false.
Proof.
  intros (Hok & Hden & Hun & Hact & Hact' & Hm). exists (ie_bits (ns_read s' r)).
  assert (Hf : right_fields (ns_read s' r) = (0, IO_NULL, 0)).
  { assert (Hme : ns_means (Some name) s' name (right_fields (ns_read s' r))) by (by exists r).
    apply Hm in Hme as [[_ ?]|Hme]; [done|]. by apply Hun in Hme. }
  injection Hf as Hb Ho Hq. split; try done.
  - exists (ie_index (ns_read s' r)). destruct (ns_read s' r). simpl in *. by subst.
  - apply described_packed; [by eapply ns_bits|done|done|lia].
  - congruence.
  - intros n c Hn. rewrite Hm. split; [by intros [[? _]|?]|by right].
Qed.

(** The type and user references of a new right. *)
Definition plain (t u : Z) : Prop :=
  right_mask (Z.lor t u) /\ IE_BITS_TYPE (Z.lor t u) = t /\ IE_BITS_UREFS (Z.lor t u) = u /\
  Z.testbit (Z.lor t u) 21 = false /\ Z.testbit (Z.lor t u) 22 = false.

Lemma enter_becomes b t u : described b 0 0 false false -> plain t u ->
  becomes b (Z.lor b (Z.lor t u)) t u false false.
Proof.
  intros Hd (Hm & Ht & Hu & H1 & H2). pose proof (lor_bits b (Z.lor t u) 0 0 false false Hd Hm) as Hb.
  by rewrite Ht, Hu, H1, H2 in Hb.
Qed.

(** The kernel memory with a new object, with the object in use, and with the
    object freed again. *)
Definition created (otype object : Z) (w : world) : world :=
  if otype =? IOT_PORT then with_ports (<[object := zero_port]> (w_ports w)) w
  else with_psets (<[object := zero_pset]> (w_psets w)) w.

Definition new_port : ipc_port := set_ip_bits (io_makebits true IOT_PORT 0) (set_ip_references 1 zero_port).
Definition new_pset : ipc_pset := set_ips_bits (io_makebits true IOT_PORT_SET 0) (set_ips_references 1 zero_pset).

Definition born (otype object : Z) (w : world) : world :=
  if otype =? IOT_PORT then put_port object new_port w else put_pset object new_pset w.

Definition discarded (otype object : Z) (w : world) : world :=
  emitted [ObjectFree object]
    (if otype =? IOT_PORT then with_ports (delete object (w_ports w)) w
     else with_psets (delete object (w_psets w)) w).

Lemma wp_new_object otype s w (Q : option Z -> Sp * world -> Prop) :
  (io_alloc otype w = None -> Q None (s, w)) ->
  (forall object, io_alloc otype w = Some object -> Q (Some object) (s, created otype object w)) ->
  wp (new_object io_alloc otype) Q (s, w).
Proof.
  intros Hn Hs. unfold new_object. apply wp_bind. unfold wp, gets. simpl.
  destruct (io_alloc otype w) as [object|]; [by apply (Hs object)|by apply Hn].
Qed.

Lemma wp_io_free otype object s w (Q : unit -> Sp * world -> Prop) :
  Q tt (s, discarded otype object w) -> wp (io_free otype object) Q (s, w).
Proof. done. Qed.

Definition kind_ok (otype : Z) : Prop := otype = IOT_PORT \/ otype = IOT_PORT_SET.

(** The object is there, under construction. *)
Definition is_new (otype object : Z) (w : world) : Prop :=
  if otype =? IOT_PORT then w_ports w !! object = Some zero_port else w_psets w !! object = Some zero_pset.

Lemma created_is_new otype object w w' : keeps_new (created otype object w) w' -> is_new otype object w'.
Proof.
  intros [H1 H2]. unfold created, is_new in *. destruct (otype =? IOT_PORT); [apply H1|apply H2]; simpl;
    by rewrite lookup_insert_eq.
Qed.

Lemma wp_enter_object h0 s0 name r s w b otype object t u (Q : unit -> Sp * world -> Prop) :
  held h0 s0 name r s b IO_NULL 0 0 0 false false -> plain t u -> kind_ok otype ->
  is_new otype object w ->
  (forall s' b', held h0 s0 name r s' b' object 0 t u false false -> Q tt (s', born otype object w)) ->
  wp (enter_object otype t u object r) Q (s, w).
Proof.
  intros Hh Hp Hk Hn HQ. unfold enter_object. apply wp_bind.
  eapply wp_write; [done|entry_eq|by apply enter_becomes; [apply Hh|]|]. intros s' Hh'.
  specialize (HQ s' _ Hh'). unfold is_new, born in *. destruct Hk as [-> | ->]; simpl in *; (eapply wp_world; [|exact HQ]).
  - unfold update_port, mbind, M_bind, port_at. by rewrite Hn.
  - unfold update_pset, mbind, M_bind, pset_at. by rewrite Hn.
Qed.

(** The object is in the space under a name that was free before. *)
Definition entered (otype t u object name : Z) (s0 : Sp) (w0 : world) (s' : Sp) (w' : world) : Prop :=
  unnamed s0 name /\ updated s0 s' name (Some (packed t u false false, object, 0)) /\
  w' = born otype object w0.

Lemma object_alloc_spec s w otype t u :
  ns_good s -> na_returns s -> plain t u -> t <> 0 -> kind_ok otype ->
  wp (ipc_object_alloc io_alloc otype t u) (fun res st =>
    match io_alloc otype w with
    | None => res = (KERN_RESOURCE_SHORTAGE, MACH_PORT_NULL, IO_NULL) /\ st = (s, w)
    | Some object => exists s0 w0, na_meanwhile (s, created otype object w) (s0, w0) /\
      ((exists name, res = (KERN_SUCCESS, name, object) /\ MACH_PORT_VALID name = true /\
          entered otype t u object name s0 w0 st.1 st.2) \/
       (exists kr, alloc_fails kr s0 /\ res = (kr, MACH_PORT_NULL, IO_NULL) /\ ns_good s0 /\
          st = (s0, discarded otype object w0)))
    end) (s, w).
Proof.
  intros Hg Hr Hp Ht Hk. unfold ipc_object_alloc. apply wp_bind. apply wp_new_object.
  { intros ->. by apply wp_ret. }
  intros object Hobj. rewrite Hobj. apply wp_bind.
  destruct (na_alloc_law (s, created otype object w) Hg Hr) as (kr & r & [s1 w1] & Hrun & Hspec).
  unfold wp at 1. rewrite Hrun. destruct r as [[name r]|].
  - destruct Hspec as (-> & Hv & s0 & Hmw & Hok & Ha). destruct (allocated_held _ _ _ _ Ha) as [b Hh].
    apply wp_bind. eapply wp_enter_object; [done..|by eapply created_is_new, (na_keeps_new _ _ Hmw)|].
    intros s2 b2 Hh2. apply wp_ret. exists s0, w1. split; [done|]. left. exists name. split_and!; try done.
    split_and!; [apply Ha|by eapply held_updated|done].
  - destruct Hspec as (Hkr & Hmw & Hg1). by destruct Hkr as [[-> Hkr]|[-> | ->]];
      (apply wp_bind, wp_io_free, wp_ret; exists s1, w1; split; [done|]; right; eexists; split_and!; try done;
       unfold alloc_fails; auto).
Qed.

(** *** Under a given name *)

(** Every name denotes a well-formed right, for a port that is there, and only
    send and send-once rights can outlive their port. *)
Definition rights_ok (s : Sp) (w : world) : Prop :=
  forall name c, ns_means None s name c -> exists t u ma co o q,
    c = (packed t u ma co, o, q) /\ wf_right t u ma co o q /\
    (has t MACH_PORT_TYPE_PORT_RIGHTS = true -> exists p, w_ports w !! o = Some p /\
       0 < ip_references p /\ (ip_active p = false -> mortal t)).

(** A compat right whose port has died counts as no right. *)
Definition stale (s : Sp) (w : world) (name : Z) (w' : world) : Prop :=
  exists t u ma o q p, named s name t u ma true o q /\ mortal t /\
    w_ports w !! o = Some p /\ 0 < ip_references p /\ ip_active p = false /\
    w' = released o p (emitted (check_events t ma name) w).

Definition available (s : Sp) (w : world) (name : Z) (w' : world) : Prop :=
  (unnamed s name /\ w' = w) \/ stale s w name w'.

Lemma clear_right b t u ma co :
  described b t u ma co -> becomes b (clear b IE_BITS_RIGHT_MASK) 0 0 false false.
Proof.
  intros Hd. pose proof (clear_bits b IE_BITS_RIGHT_MASK t u ma co Hd ltac:(done)) as Hb.
  rewrite !andb_false_r in Hb. destruct Hd as [_ Ht Hu _ _].
  replace (Z.ldiff t IE_BITS_RIGHT_MASK) with 0 in Hb; cycle 1.
  { rewrite <- Ht. unfold IE_BITS_TYPE. symmetry. apply Z.bits_inj'. intros i Hi.
    rewrite Z.ldiff_spec, Z.land_spec, Z.bits_0. destruct (mask_bits i Hi) as (_ & -> & _ & _ & _ & -> & _).
    destruct (Z.leb_spec 16 i), (Z.ltb_spec i 21), (Z.leb_spec 0 i), (Z.ltb_spec i 23); simpl;
      rewrite ?andb_false_r; try done; lia. }
  replace (Z.ldiff u IE_BITS_RIGHT_MASK) with 0 in Hb; [done|].
  rewrite <- Hu. change IE_BITS_RIGHT_MASK with (Z.lor IE_BITS_UREFS_MASK 0x7f0000). by rewrite ldiff_urefs.
Qed.

Lemma wp_inuse_new h0 s0 name r s w b (Q : bool -> Sp * world -> Prop) :
  held h0 s0 name r s b IO_NULL 0 0 0 false false -> Q false (s, w) -> wp (ipc_right_inuse name r) Q (s, w).
Proof.
  intros Hh HQ. unfold ipc_right_inuse. apply wp_bind. eapply wp_read; [done|]. intros i. cbn [ie_bits].
  rewrite (b_type _ _ _ _ _ (h_desc _ _ _ _ _ _ _ _ _ _ _ _ Hh)). by apply wp_ret.
Qed.

Lemma wp_inuse s0 name r s w b o q t u ma co (Q : bool -> Sp * world -> Prop) :
  held None s0 name r s b o q t u ma co -> wf_right t u ma co o q ->
  (has t MACH_PORT_TYPE_PORT_RIGHTS = true -> exists p, w_ports w !! o = Some p /\
     0 < ip_references p /\ (ip_active p = false -> mortal t)) ->
  Q true (s, w) ->
  (forall p s' b', co = true -> mortal t -> w_ports w !! o = Some p -> 0 < ip_references p -> ip_active p = false ->
     held None s0 name r s' b' IO_NULL 0 0 0 false false ->
     Q false (s', released o p (emitted (check_events t ma name) w))) ->
  wp (ipc_right_inuse name r) Q (s, w).
Proof.
  intros Hh Hwf Hport HQt HQf. pose proof (h_desc _ _ _ _ _ _ _ _ _ _ _ _ Hh) as Hd.
  unfold ipc_right_inuse. apply wp_bind. eapply wp_read; [done|]. intros i. cbn [ie_bits ie_object].
  rewrite (b_type _ _ _ _ _ Hd), (b_compat _ _ _ _ _ Hd).
  destruct (wf_type _ _ _ _ _ _ Hwf) as [_ Ht]. change MACH_PORT_TYPE_NONE with 0.
  rewrite (proj2 (Z.eqb_neq _ _)) by done. cbn [negb].
  destruct co; cbn [andb]; [|by apply wp_ret].
  destruct ((t =? MACH_PORT_TYPE_SEND) || (t =? MACH_PORT_TYPE_SEND_ONCE)) eqn:Hmo; [|by apply wp_ret].
  assert (Hm : mortal t) by (apply orb_true_iff in Hmo; by rewrite !Z.eqb_eq in Hmo).
  destruct Hport as (p & Hp & Href & _); [by destruct Hm as [-> | ->]|].
  apply wp_bind. eapply wp_world; [unfold port_at; by rewrite Hp|].
  destruct (ip_active p) eqn:Hact; cbn [negb]; [by apply wp_ret|].
  apply wp_bind.
  assert (Hrest : forall s1, held None s0 name r s1 b o q t u ma true ->
    wp (on_world (ipc_port_release o);; ie_write r (set_request 0);; ie_write r (set_object IO_NULL);;
        ie_write r (fun e => set_bits (clear (ie_bits e) IE_BITS_RIGHT_MASK) e);; mret false) Q
      (s1, emitted (check_events t ma name) w)).
  { intros s1 Hh1. apply wp_bind. eapply wp_world; [by apply port_release_run|].
    apply wp_bind. eapply wp_write; [done|entry_eq|by apply becomes_same|]. intros s2 Hh2.
    apply wp_bind. eapply wp_write; [done|entry_eq|by apply becomes_same|]. intros s3 Hh3.
    apply wp_bind. eapply wp_write; [done|entry_eq|by eapply clear_right|]. intros s4 Hh4.
    apply wp_ret. by eapply HQf. }
  unfold check_events in *. destruct (Z.eqb_spec t MACH_PORT_TYPE_SEND) as [->|]; cbn [andb when] in *.
  - apply wp_bind. eapply wp_marequest; [by eapply b_ma|]. eapply wp_hash_delete; [done|]. intros s1 Hh1. by apply Hrest.
  - simpl in Hrest. rewrite emitted_nil in Hrest. by apply wp_ret, Hrest.
Qed.

(** A call that allocates a given name, and gives up when it is in use. *)
Lemma wp_fresh_name {A} name s w (X : M (Sp * world) A) (K : entry_ref -> M (Sp * world) A)
    (Y : kern_return -> M (Sp * world) A) (Q : A -> Sp * world -> Prop) :
  u32_range name -> MACH_PORT_VALID name = true -> ~ shadowed name -> ns_good s -> na_returns s ->
  (forall s0 w0, na_meanwhile (s, w) (s0, w0) -> ns_ok None s0 -> rights_ok s0 w0) ->
  (forall s0 w0 s1 w1 r b, na_meanwhile (s, w) (s0, w0) -> ns_ok None s0 -> available s0 w0 name w1 ->
     held None s0 name r s1 b IO_NULL 0 0 0 false false -> wp (K r) Q (s1, w1)) ->
  (forall s0 w0 s1 t u ma co o q, na_meanwhile (s, w) (s0, w0) -> named s0 name t u ma co o q ->
     unchanged s0 s1 -> wp X Q (s1, w0)) ->
  (forall kr s0 w0, alloc_fails kr s0 -> na_meanwhile (s, w) (s0, w0) -> ns_good s0 -> wp (Y kr) Q (s0, w0)) ->
  wp (r ← na_alloc_name name;
      match r with
      | (KERN_SUCCESS, Some entry) =>
        inuse ← ipc_right_inuse name entry;
        if (inuse : bool) then X else K entry
      | (kr, _) => Y kr
      end) Q (s, w).
Proof.
  intros Hname Hv Hns Hg Hr Hrely HK HX HY. apply wp_bind.
  destruct (na_alloc_name_law name (s, w) Hname Hv Hns Hg Hr) as (kr & r & [s1 w1] & Hrun & Hspec).
  unfold wp at 1. rewrite Hrun. destruct r as [r|].
  - destruct Hspec as (-> & s0 & Hmw & Hok & Hact & [[Hden Hpres]|Ha]); simpl in *; apply wp_bind.
    + assert (Hme : ns_means None s0 name (right_fields (ns_read s0 r))) by (by exists r).
      destruct (Hrely _ _ Hmw Hok _ _ Hme) as (t & u & ma & co & o & q & Hc & Hwf & Hport). rewrite Hc in Hme.
      destruct (named_held s0 name t u ma co o q Hok (conj Hme Hwf)) as (r' & b & Hh).
      destruct (wf_type _ _ _ _ _ _ Hwf) as [_ Ht].
      assert (Hhole : hole_of name t = None) by (unfold hole_of; by rewrite (proj2 (Z.eqb_neq _ _))).
      pose proof (h_den _ _ _ _ _ _ _ _ _ _ _ _ Hh) as Hden'. rewrite Hhole in Hden'.
      rewrite (ns_unique _ _ _ _ _ Hok Hden' Hden) in Hh.
      assert (Hh1 : held None s0 name r s1 b o q t u ma co) by (eapply preserved_held; [done|by rewrite Hhole]).
      eapply wp_inuse; [done..| |].
      * eapply HX; [done|by split|]. by apply preserved_unchanged.
      * intros p s2 b2 -> Hm Hp Href Hdead Hh2. eapply HK; [done|done| |done]. right. by eexists t, u, ma, o, q, p.
    + destruct (allocated_held _ _ _ _ Ha) as [b Hh]. eapply wp_inuse_new; [done|].
      eapply HK; [done|done| |done]. left. split; [apply Ha|done].
  - destruct Hspec as (Hkr & Hmw & Hg1). specialize (HY kr s1 w1 Hkr Hmw Hg1).
    by destruct Hkr as [[-> _]|[-> | ->]].
Qed.

(** The outcomes of the calls that put a new right under a given name. *)
Definition name_outcome (s : Sp) (w : world) (name t u object : Z) (kr : kern_return)
    (undo finish : world -> world) (st : Sp * world) : Prop :=
  exists s0 w0, na_meanwhile (s, w) (s0, w0) /\
    match kr with
    | KERN_SUCCESS => exists w1, available s0 w0 name w1 /\
        updated s0 st.1 name (Some (packed t u false false, object, 0)) /\ st.2 = finish w1
    | KERN_NAME_EXISTS => (exists t' u' ma' co' o' q', named s0 name t' u' ma' co' o' q') /\
        unchanged s0 st.1 /\ st.2 = undo w0
    | _ => alloc_fails kr s0 /\ st = (s0, undo w0)
    end.

Lemma object_alloc_dead_name_spec s w name :
  u32_range name -> MACH_PORT_VALID name = true -> ~ shadowed name -> ns_good s -> na_returns s ->
  (forall s0 w0, na_meanwhile (s, w) (s0, w0) -> ns_ok None s0 -> rights_ok s0 w0) ->
  wp (ipc_object_alloc_dead_name name) (fun kr st =>
    name_outcome s w name MACH_PORT_TYPE_DEAD_NAME 1 IO_NULL kr id id st) (s, w).
Proof.
  intros Hname Hv Hns Hg Hr Hrely. apply wp_fresh_name; try done.
  - intros s0 w0 s1 w1 r b Hmw Hok Hav Hh. apply wp_bind.
    eapply wp_write; [done|entry_eq|by apply enter_becomes; [apply Hh|]|]. intros s2 Hh2. apply wp_ret.
    exists s0, w0. split; [done|]. exists w1. split_and!; [done|by eapply held_updated|done].
  - intros s0 w0 s1 t u ma co o q Hmw Hn Hu. apply wp_ret. exists s0, w0. split; [done|]. split_and!; try done. eauto 10.
  - intros kr s0 w0 Hkr Hmw Hg0. apply wp_ret. exists s0, w0. split; [done|]. pose proof Hkr as Hfail.
    by destruct Hkr as [[-> _]|[-> | ->]].
Qed.

Lemma available_is_new s w name w' otype object :
  kind_ok otype -> is_new otype object w -> available s w name w' -> is_new otype object w'.
Proof.
  intros Hk Hn [[_ ->]|(t & u & ma & o & q & p & _ & _ & Hp & Href & _ & ->)]; [done|].
  unfold is_new in *. destruct Hk as [-> | ->]; simpl in *.
  - rewrite released_other; [done|]. intros ->. rewrite Hn in Hp. injection Hp as <-. simpl in Href. lia.
  - unfold released. by destruct (_ =? 0).
Qed.

Lemma object_alloc_name_spec s w name otype t u :
  u32_range name -> MACH_PORT_VALID name = true -> ~ shadowed name -> ns_good s -> na_returns s ->
  plain t u -> t <> 0 -> kind_ok otype ->
  (forall object s0 w0, io_alloc otype w = Some object -> na_meanwhile (s, created otype object w) (s0, w0) ->
     ns_ok None s0 -> rights_ok s0 w0) ->
  wp (ipc_object_alloc_name io_alloc otype t u name) (fun res st =>
    match io_alloc otype w with
    | None => res = (KERN_RESOURCE_SHORTAGE, IO_NULL) /\ st = (s, w)
    | Some object =>
      res.2 = (if bool_decide (res.1 = KERN_SUCCESS) then object else IO_NULL) /\
      name_outcome s (created otype object w) name t u object res.1 (discarded otype object) (born otype object) st
    end) (s, w).
Proof.
  intros Hname Hv Hns Hg Hr Hp Ht Hk Hrely. unfold ipc_object_alloc_name. apply wp_bind, wp_new_object.
  { intros ->. by apply wp_ret. }
  intros object Hobj. rewrite Hobj. apply wp_fresh_name; try done; [by intros s0 w0; apply Hrely|..].
  - intros s0 w0 s1 w1 r b Hmw Hok Hav Hh. apply wp_bind.
    eapply wp_enter_object; [done..|by eapply available_is_new, Hav; [|eapply created_is_new, (na_keeps_new _ _ Hmw)]|].
    intros s2 b2 Hh2. apply wp_ret. split; [done|].
    exists s0, w0. split; [done|]. exists w1. split_and!; [done|by eapply held_updated|done].
  - intros s0 w0 s1 t' u' ma co o q Hmw Hn Hu. apply wp_bind, wp_io_free, wp_ret. split; [done|].
    exists s0, w0. split; [done|]. split_and!; try done. eauto 10.
  - intros kr s0 w0 Hkr Hmw Hg0. apply wp_bind, wp_io_free, wp_ret. pose proof Hkr as Hfail.
    by destruct Hkr as [[-> _]|[-> | ->]]; (split; [done|]); exists s0, w0.
Qed.
End alloc.

(** ** Copyout *)

Section copyout.
Context {Sp : Type} `{!NameSpace Sp, !NameSpaceLaws Sp} `{PortConfig} `{!NameAlloc Sp, !NameAllocLaws Sp}.
Context (addr : Z).
Implicit Types (s : Sp) (w : world).

(** A right on its way into a space. *)
Record carried (w : world) (port m : Z) (p : ipc_port) : Prop := {
  ca_type : m = MACH_MSG_TYPE_PORT_SEND \/ m = MACH_MSG_TYPE_PORT_SEND_ONCE \/ m = MACH_MSG_TYPE_PORT_RECEIVE;
  ca_object : port <> IO_NULL;
  ca_port : w_ports w !! port = Some p;
  ca_active : ip_active p = true;
  ca_counts : counts_ok p;
  ca_dest : m = MACH_MSG_TYPE_PORT_RECEIVE ->
    ip_destination p = IP_NULL \/ ip_destination p <> port /\ is_Some (w_ports w !! ip_destination p)
}.

(** A receive right makes the space the receiver, under [name]. *)
Definition receiver_is (m port name : Z) (w : world) : Prop :=
  m = MACH_MSG_TYPE_PORT_RECEIVE ->
  exists p, w_ports w !! port = Some p /\ ip_receiver p = addr /\ ip_receiver_name p = name.

(** The three kinds of copyout into an entry. *)
Lemma wp_copyout h0 s0 name r s w port p b t u q ma co m ov :
  held h0 s0 name r s b port q t u ma co -> receptacle t u ma co port q -> carried w port m p -> accepts m t ->
  wp (ipc_right_copyout addr name r m ov port) (fun kr st =>
    if (m =? MACH_MSG_TYPE_PORT_SEND) && has t MACH_PORT_TYPE_SEND && (u + 1 =? MACH_PORT_UREFS_MAX) && negb ov
    then kr = KERN_UREFS_OVERFLOW /\ st = (s, w)
    else kr = KERN_SUCCESS /\
      given h0 s0 name r m port p t u q ma co st.1 st.2 (Z.lor t (added_type m))
        (if has t MACH_PORT_TYPE_SEND && (u + 1 =? MACH_PORT_UREFS_MAX) then u else u + added_urefs m) /\
      receiver_is m port name st.2) (s, w).
Proof.
  intros Hh Hrec [Hm Ho Hp Hact Hc Hdest] Hacc. destruct Hm as [->|[->| ->]].
  - eapply wp_mono; [by eapply copyout_send_spec|]. intros kr st. rewrite Z.eqb_refl. cbn [andb].
    destruct (_ && _ && _); [done|]. intros [-> Hg]. by split_and!.
  - assert (Ht : t = 0) by (by destruct Hacc as [[_ ?]|[[? _]|[? _]]]). subst t.
    destruct Hrec as [(_ & -> & -> & -> & -> & _)|Hwf]; [|by inversion Hwf].
    eapply wp_mono; [by eapply copyout_send_once_spec|]. intros kr st (-> & _ & Hg). by split_and!.
  - eapply wp_mono; [by eapply copyout_receive_spec; auto|]. intros kr st (-> & Hg & Hrcv). simpl. split; [done|]. split; [|by intros _].
    assert (Ht : t = 0 \/ t = MACH_PORT_TYPE_SEND) by (by destruct Hacc as [[? _]|[[? _]|[_ ?]]]).
    replace (if _ && _ then u else u + added_urefs _) with u; [done|]. unfold added_urefs. simpl.
    rewrite Z.add_0_r. by destruct (_ && _).
Qed.

(** The space has no name for the port yet. *)
Definition not_known (s : Sp) (port m : Z) (p : ipc_port) : Prop :=
  m = MACH_MSG_TYPE_PORT_SEND_ONCE \/ ip_receiver p <> addr /\ (ns_hash_lookup s port).2 = None.

Definition after_reverse (s : Sp) (port m : Z) : Sp :=
  if m =? MACH_MSG_TYPE_PORT_SEND_ONCE then s else (ns_hash_lookup s port).1.

Lemma wp_not_known s w port m p (Q : option (Z * entry_ref) -> Sp * world -> Prop) :
  w_ports w !! port = Some p -> ip_active p = true -> not_known s port m p ->
  Q None (after_reverse s port m, w) ->
  wp (if negb (m =? MACH_MSG_TYPE_PORT_SEND_ONCE) then ipc_right_reverse addr port else mret None) Q (s, w).
Proof.
  unfold after_reverse. intros Hp Hact Hnk HQ. destruct (Z.eqb_spec m MACH_MSG_TYPE_PORT_SEND_ONCE); simpl; [by apply wp_ret|].
  destruct Hnk as [?|[Hr Hl]]; [done|]. unfold ipc_right_reverse. apply wp_bind.
  eapply wp_world; [unfold port_at; by rewrite Hp|]. rewrite Hact. cbn [negb].
  rewrite (proj2 (Z.eqb_neq _ _)) by done. unfold wp, of_space. simpl.
  destruct (ns_hash_lookup s port) as [s1 r]. simpl in *. by subst r.
Qed.

(** The entry of a port the space knows. *)
Definition known_as (s : Sp) (port m : Z) (p : ipc_port) (name : Z) (r : entry_ref) (s1 : Sp) : Prop :=
  m <> MACH_MSG_TYPE_PORT_SEND_ONCE /\
  (ip_receiver p = addr /\ ip_receiver_name p = name /\ ns_lookup s name = (s1, Some r) \/
   ip_receiver p <> addr /\ ns_hash_lookup s port = (s1, Some (name, r))).

Lemma wp_known_as s w port m p name r s1 (Q : option (Z * entry_ref) -> Sp * world -> Prop) :
  w_ports w !! port = Some p -> ip_active p = true -> known_as s port m p name r s1 ->
  Q (Some (name, r)) (s1, w) ->
  wp (if negb (m =? MACH_MSG_TYPE_PORT_SEND_ONCE) then ipc_right_reverse addr port else mret None) Q (s, w).
Proof.
  intros Hp Hact [Hm Hk] HQ. rewrite (proj2 (Z.eqb_neq _ _)) by done. cbn [negb].
  unfold ipc_right_reverse. apply wp_bind. eapply wp_world; [unfold port_at; by rewrite Hp|]. rewrite Hact. cbn [negb].
  destruct Hk as [(-> & -> & Hl)|[Hne Hl]].
  - rewrite Z.eqb_refl. apply wp_bind. unfold wp at 1, of_space. simpl. rewrite Hl. by apply wp_ret.
  - rewrite (proj2 (Z.eqb_neq _ _)) by done. unfold wp, of_space. simpl. by rewrite Hl.
Qed.

(** The space [s0] has got the right under [name]; the counts of the port
    follow. *)
Definition gets_right (s0 : Sp) (name m port : Z) (p : ipc_port) (t u q : Z) (ma co : bool)
    (u' : Z) (st : Sp * world) : Prop :=
  updated s0 st.1 name (Some (packed (Z.lor t (added_type m)) u' ma co, port, q)) /\
  wf_right (Z.lor t (added_type m)) u' ma co port q /\
  exists p', w_ports st.2 !! port = Some p' /\ ip_active p' = true /\
    balanced p p' t (Z.lor t (added_type m)) (- count (m =? MACH_MSG_TYPE_PORT_SEND))
      (- count (m =? MACH_MSG_TYPE_PORT_SEND_ONCE)) (-1) /\
    receiver_is m port name st.2.

Lemma given_gets s0 name r m port p t u q ma co st u' :
  given None s0 name r m port p t u q ma co st.1 st.2 (Z.lor t (added_type m)) u' -> ip_active p = true ->
  receiver_is m port name st.2 -> gets_right s0 name m port p t u q ma co u' st.
Proof.
  intros (p' & b' & Hh & Hwf & Hp' & Hact & Hbal) Ha Hrcv. split; [|split; [done|]].
  - eapply held_updated; [done|by eapply wf_type|done].
  - exists p'. split_and!; [done|by rewrite Hact|done|done].
Qed.

Lemma accepts_new m : m = MACH_MSG_TYPE_PORT_SEND \/ m = MACH_MSG_TYPE_PORT_SEND_ONCE \/ m = MACH_MSG_TYPE_PORT_RECEIVE ->
  accepts m 0.
Proof. unfold accepts. tauto. Qed.

(** Into a fresh entry. *)
Lemma copyout_fresh_spec n s w port p m ov :
  ns_ok None s -> ns_active s = true -> carried w port m p -> not_known s port m p ->
  is_Some (na_get (after_reverse s port m)).2 ->
  wp (ipc_object_copyout addr (S n) port m ov) (fun res st =>
    exists name, res = (KERN_SUCCESS, name) /\ MACH_PORT_VALID name = true /\ unnamed s name /\
      gets_right s name m port p 0 0 0 false false (added_urefs m) st) (s, w).
Proof.
  intros Hok Hact Hc Hnk [[name r] Hget]. unfold ipc_object_copyout. apply wp_bind.
  cbn [copyout_entry]. apply wp_bind. unfold wp at 1, gets. simpl. rewrite Hact. cbn [negb].
  apply wp_bind. eapply wp_not_known; [apply Hc|apply Hc|done|].
  assert (Hpres : unchanged s (after_reverse s port m) /\ ns_active (after_reverse s port m) = true).
  { unfold after_reverse. destruct (_ =? _); [done|]. pose proof (ns_hash_lookup_law None s port Hok) as Hp.
    split; [by apply preserved_unchanged|]. destruct Hp as (_ & -> & _). done. }
  destruct Hpres as [[Hok1 Hm1] Hact1]. set (s1 := after_reverse s port m) in *.
  apply wp_bind. unfold wp at 1, of_space. simpl. pose proof (na_get_law s1 Hok1 Hact1) as Hlaw.
  destruct (na_get s1) as [s2 r2]. simpl in Hget. subst r2. destruct Hlaw as [Hv Ha].
  destruct (allocated_held _ _ _ _ Ha) as [b Hh].
  apply wp_bind. eapply wp_world; [unfold port_at; by rewrite (ca_port _ _ _ _ Hc)|].
  rewrite (ca_active _ _ _ _ Hc). cbn [negb]. apply wp_bind.
  eapply wp_write; [done|entry_eq|apply becomes_same, Hh|]. intros s3 Hh3. apply wp_ret.
  apply wp_bind. eapply wp_mono.
  { eapply (wp_copyout _ _ _ _ _ _ _ _ _ 0 0 0); [done| |done|by apply accepts_new, Hc].
    left. split_and!; try done. apply Hc. }
  intros kr st. rewrite !andb_false_r. simpl. intros (-> & Hg & Hrcv). apply wp_ret. simpl. exists name. split_and!; try done.
  - intros c Hc'. apply Hm1 in Hc'. by apply Ha in Hc'.
  - apply given_gets in Hg; [|apply Hc|done].
    destruct Hg as ([Hok' Hu] & Hwf & Hp'). split; [|by split]. split; [done|].
    intros n' c. rewrite Hu. destruct (decide (n' = name)); [done|]. apply Hm1.
Qed.

(** Into the entry the space has for the port. *)
Lemma copyout_known_spec n s w port p m ov name r s1 t u q ma co :
  ns_ok None s -> ns_active s = true -> u32_range name -> carried w port m p -> known_as s port m p name r s1 ->
  ns_denotes None s name r -> named s name t u ma co port q -> accepts m t ->
  wp (ipc_object_copyout addr (S n) port m ov) (fun res st =>
    if (m =? MACH_MSG_TYPE_PORT_SEND) && has t MACH_PORT_TYPE_SEND && (u + 1 =? MACH_PORT_UREFS_MAX) && negb ov
    then res = (KERN_UREFS_OVERFLOW, MACH_PORT_NULL) /\ unchanged s st.1 /\ st.2 = w
    else res = (KERN_SUCCESS, name) /\
      gets_right s name m port p t u q ma co
        (if has t MACH_PORT_TYPE_SEND && (u + 1 =? MACH_PORT_UREFS_MAX) then u else u + added_urefs m) st) (s, w).
Proof.
  intros Hok Hact Hname Hc Hk Hden Hn Hacc. destruct (named_held _ _ _ _ _ _ _ _ Hok Hn) as (r' & b & Hh).
  destruct Hn as [Hme Hwf]. destruct (wf_type _ _ _ _ _ _ Hwf) as [_ Ht].
  assert (Hhole : hole_of name t = None) by (unfold hole_of; by rewrite (proj2 (Z.eqb_neq _ _))).
  pose proof (h_den _ _ _ _ _ _ _ _ _ _ _ _ Hh) as Hden'. rewrite Hhole in Hden'.
  rewrite (ns_unique _ _ _ _ _ Hok Hden' Hden) in Hh. clear Hden' r'.
  assert (Hh1 : held None s name r s1 b port q t u ma co).
  { eapply preserved_held; [done|]. rewrite Hhole. destruct Hk as [_ [(_ & _ & Hl)|[_ Hl]]].
    - pose proof (ns_lookup_law s name Hok Hname) as [Hp _]. by rewrite Hl in Hp.
    - pose proof (ns_hash_lookup_law None s port Hok) as Hp. by rewrite Hl in Hp. }
  unfold ipc_object_copyout. apply wp_bind.
  cbn [copyout_entry]. apply wp_bind. unfold wp at 1, gets. simpl. rewrite Hact. cbn [negb].
  apply wp_bind. eapply wp_known_as; [apply Hc|apply Hc|done|]. apply wp_ret. apply wp_bind.
  eapply wp_mono; [by eapply wp_copyout; [done|right|..]|]. intros kr st.
  destruct (_ && _ && _ && _); simpl.
  - intros [-> ->]. apply wp_ret. split_and!; try done. by eapply held_unchanged.
  - intros (-> & Hg & Hrcv). apply wp_ret. split; [done|]. apply given_gets with (r := r); [done|apply Hc|done].
Qed.
End copyout.
