(* ===== verification/PortSpace.v ===== *)
(** * Ports and port sets in a space (ipc/ipc_port.c, ipc_pset.c, ipc_space.c)

    The routines of ipc_port.c and ipc_pset.c that need a space: allocation
    under a new or a given name, the notify ports, copying rights out for the
    kernel and finding the queue to receive from; and [ipc_space_destroy]. *)

From S2P Require Import Prelude Names Splay Table Space Hash Entry World Port Mqueue Right Object.

Section portspace.
Context {Sp : Type} `{NameSpace Sp} `{!NameAlloc Sp}.
Context (addr is_notify : Z) (env : right_env Sp) (io_alloc : Z -> world -> option Z).

Abbreviation sys := (Sp * world)%type.

(** ** Allocation *)

Definition ipc_port_alloc : M sys (kern_return * Z * Z) :=
  r ← ipc_object_alloc io_alloc IOT_PORT MACH_PORT_TYPE_RECEIVE 0;
  match r with
  | (KERN_SUCCESS, name, port) =>
    on_world (update_port port (ipc_port_init port addr name));;
    mret (KERN_SUCCESS, name, port)
  | (kr, _, _) => mret (kr, MACH_PORT_NULL, IP_NULL)
  end.

Definition ipc_port_alloc_name (name : Z) : M sys (kern_return * Z) :=
  r ← ipc_object_alloc_name io_alloc IOT_PORT MACH_PORT_TYPE_RECEIVE 0 name;
  match r with
  | (KERN_SUCCESS, port) =>
    on_world (update_port port (ipc_port_init port addr name));;
    mret (KERN_SUCCESS, port)
  | (kr, _) => mret (kr, IP_NULL)
  end.

(** [ipc_target_init]. *)
Definition ipc_pset_init (name : Z) (s : ipc_pset) : ipc_pset :=
  set_ips_messages ipc_mqueue_init (set_ips_local_name name s).

Definition ipc_pset_alloc : M sys (kern_return * Z * Z) :=
  r ← ipc_object_alloc io_alloc IOT_PORT_SET MACH_PORT_TYPE_PORT_SET 0;
  match r with
  | (KERN_SUCCESS, name, pset) =>
    on_world (update_pset pset (ipc_pset_init name));;
    mret (KERN_SUCCESS, name, pset)
  | (kr, _, _) => mret (kr, MACH_PORT_NULL, IPS_NULL)
  end.

Definition ipc_pset_alloc_name (name : Z) : M sys (kern_return * Z) :=
  r ← ipc_object_alloc_name io_alloc IOT_PORT_SET MACH_PORT_TYPE_PORT_SET 0 name;
  match r with
  | (KERN_SUCCESS, pset) =>
    on_world (update_pset pset (ipc_pset_init name));;
    mret (KERN_SUCCESS, pset)
  | (kr, _) => mret (kr, IPS_NULL)
  end.

(** The table of dead-name requests of a compat port: element 1 is the entry's
    request, the rest is free. *)
Definition compat_table (addr_table name : Z) (mem : list ipc_port_request) : ipc_port_requests :=
  let '(mem, free) := thread_free (Z.to_nat (dn_size 0 - 2)) mem 2 0 in
  let t := mk_requests addr_table 0 mem in
  let t := set_request_at t 0 (mk_ipr free (ipr_name (nth 0 mem (mk_ipr 0 0)))) in
  set_request_at t 1 (mk_ipr (ipr_spacem addr) name).

Definition ipc_port_alloc_compat (it_dnrequests_alloc : nat -> option (Z * list ipc_port_request))
    : M sys (kern_return * Z * Z) :=
  let fails (kr : kern_return) : M sys (kern_return * Z * Z) := mret (kr, MACH_PORT_NULL, IP_NULL) in
  object ← gets (fun st => io_alloc IOT_PORT st.2);
  match object with
  | None => fails KERN_RESOURCE_SHORTAGE
  | Some port =>
    match it_dnrequests_alloc 0%nat with
    | None => on_world (emit (ObjectFree port));; fails KERN_RESOURCE_SHORTAGE
    | Some (table, mem) =>
      r ← na_alloc;
      match r with
      | (KERN_SUCCESS, Some (name, entry)) =>
        ie_write entry (fun e =>
          set_bits (Z.lor (ie_bits e) (Z.lor IE_BITS_COMPAT MACH_PORT_TYPE_RECEIVE))
            (set_request 1 (set_object port e)));;
        let p := set_ip_bits (io_makebits true IOT_PORT 0) (set_ip_references 1 zero_port) in
        on_world (set_port port
          (set_ip_dnrequests (Some (compat_table table name mem)) (ipc_port_init port addr name p)));;
        on_world (emit SpaceReference);;
        mret (KERN_SUCCESS, name, port)
      | (kr, _) => on_world (emit (ObjectFree port));; fails kr
      end
    end
  end.

(** ** Notify ports *)

Definition ipc_port_lookup_notify (name : Z) : M sys Z :=
  r ← of_space (fun s => ns_lookup s name);
  match r with
  | None => mret IP_NULL
  | Some entry =>
    e ← ie_read entry;
    if negb (has (ie_bits e) MACH_PORT_TYPE_RECEIVE) then mret IP_NULL
    else
      on_world (ip_reference (ie_object e));;
      on_world (update_port (ie_object e) (fun p => set_ip_sorights (u32 (ip_sorights p + 1)) p));;
      mret (ie_object e)
  end.

(** What the event [DeleteCompat] does in the space it names. *)
Definition ipc_port_delete_compat (port name : Z) : M sys unit :=
  r ← ipc_right_lookup_write name;
  match r with
  | (KERN_SUCCESS, Some entry) =>
    e ← ie_read entry;
    sright ←
      (if ie_object e =? port then
         sright ← on_world (ipc_port_copy_send is_notify);
         ipc_right_destroy env name entry;;
         mret sright
       else mret IP_NULL);
    when (IP_VALID sright) (on_world (emit (NotifyPortDeletedCompat sright name)))
  | _ => mret tt
  end;;
  on_world (emit SpaceRelease).

(** ** Copyout for the kernel *)

Definition ipc_port_copyout_send (fuel : nat) (sright : Z) : M sys Z :=
  if IP_VALID sright then
    r ← ipc_object_copyout addr fuel sright MACH_MSG_TYPE_PORT_SEND true;
    match r with
    | (KERN_SUCCESS, name) => mret name
    | (kr, _) =>
      on_world (ipc_port_release_send sright);;
      mret (if bool_decide (kr = KERN_INVALID_CAPABILITY) then MACH_PORT_DEAD else MACH_PORT_NULL)
    end
  else mret sright.

Definition ipc_port_copyout_send_compat (fuel : nat) (sright : Z) : M sys Z :=
  if IP_VALID sright then
    r ← ipc_object_copyout_compat addr env fuel sright MACH_MSG_TYPE_PORT_SEND;
    match r with
    | (KERN_SUCCESS, name) => mret name
    | (_, _) => on_world (ipc_port_release_send sright);; mret MACH_PORT_NULL
    end
  else mret sright.

Definition ipc_port_copyout_receiver (port : Z) : M world Z :=
  if negb (IP_VALID port) then mret MACH_PORT_NULL
  else
    p ← port_at port;
    let name := if ip_receiver p =? addr then ip_receiver_name p else MACH_PORT_NULL in
    ip_release port;;
    ip_check_unlock port;;
    mret name.

(** ** Finding a queue *)

(** [(mr, mqueue, object)]. *)
Definition ipc_mqueue_copyin (name : Z) : M sys (Z * option (mq_ref * Z)) :=
  active ← gets (fun st => ns_active st.1);
  if negb active then mret (MACH_RCV_INVALID_NAME, None)
  else
    r ← of_space (fun s => ns_lookup s name);
    match r with
    | None => mret (MACH_RCV_INVALID_NAME, None)
    | Some entry =>
      e ← ie_read entry;
      let object := ie_object e in
      if has (ie_bits e) MACH_PORT_TYPE_RECEIVE then
        p ← on_world (port_at object);
        let pset := ip_pset p in
        in_set ← (if negb (pset =? IPS_NULL) then
                    s ← on_world (pset_at pset);
                    if ips_active s then mret true
                    else on_world (ipc_pset_remove pset object);; on_world (ips_check_unlock pset);; mret false
                  else mret false);
        if (in_set : bool) then mret (MACH_RCV_IN_SET, None)
        else on_world (ip_reference object);; mret (MACH_MSG_SUCCESS, Some (PortQueue object, object))
      else if has (ie_bits e) MACH_PORT_TYPE_PORT_SET then
        on_world (ips_reference object);; mret (MACH_MSG_SUCCESS, Some (PsetQueue object, object))
      else mret (MACH_RCV_INVALID_NAME, None)
    end.
End portspace.

(** ** Destroying a space *)

Section destroy.
Context `{PortConfig} `{!EntrySizes}.
Context (addr is_notify : Z) (env : right_env (ipc_space * Global.ghash)).
#[local] Instance destroyed_names : NameSpace (ipc_space * Global.ghash) := space_names addr.

Abbreviation sys := ((ipc_space * Global.ghash) * world)%type.

Definition with_active (b : bool) (s : ipc_space) : ipc_space :=
  mk_space b (is_growing s) (is_table s) (is_table_size s) (is_table_next s) (is_tree s) (is_ites s)
    (is_tree_total s) (is_tree_small s) (is_tree_hash s).

(** The entries of the table from [index] on. *)
Fixpoint clean_table (n : nat) (index : Z) : M sys unit :=
  match n with
  | O => mret tt
  | S n =>
    e ← ie_read (TableEntry index);
    when (negb (IE_BITS_TYPE (ie_bits e) =? MACH_PORT_TYPE_NONE))
      (ipc_right_clean env (MACH_PORT_MAKEB index (ie_bits e)) (TableEntry index));;
    clean_table n (index + 1)
  end.

(** The body of the loop over the tree; the entry is freed after it. *)
Definition clean_tree_entry (name : Z) (tentry : ite_ptr) : M sys unit :=
  e ← ie_read (TreeEntry tentry);
  when (IE_BITS_TYPE (ie_bits e) =? MACH_PORT_TYPE_SEND)
    (on_space (fun st => (st.1, Global.ipc_hash_global_delete st.2 addr (ie_object e) name tentry)));;
  ipc_right_clean env name (TreeEntry tentry);;
  on_space (fun st => (with_ites (delete tentry (is_ites st.1)) st.1, st.2)).

Definition clean_tree : M sys unit := fun st =>
  let '(res, tree) :=
    traverse_splay (fun (acc : option sys) (cur : Z * ite_ptr) =>
      (match acc with
       | None => None
       | Some st => match clean_tree_entry cur.1 cur.2 st with Some (_, st) => Some st | None => None end
       end, true)) (Some st) (is_tree st.1.1) in
  match res with
  | Some ((s, g), w) => Some (tt, ((with_tree tree s, g), w))
  | None => None
  end.

(** [re_between] is what other threads do while the call waits for the growing
    of the table to end. *)
Definition ipc_space_destroy : M sys unit :=
  active ← gets (fun st => is_active st.1.1);
  on_space (fun st => (with_active false st.1, st.2));;
  if negb active then mret tt
  else
    growing ← gets (fun st => is_growing st.1.1);
    when growing (modify (re_between env));;
    size ← gets (fun st => is_table_size st.1.1);
    clean_table (Z.to_nat size) 0;;
    on_space (fun st => (with_table [] st.1, st.2));;
    clean_tree;;
    when (IP_VALID is_notify) (on_world (ipc_port_release_send is_notify));;
    on_world (emit SpaceRelease).
End destroy.
