(* ===== verification/MachPort.v ===== *)
(** * System calls on ports (ipc/mach_port.c)

    The kernel calls with which a task manages the names of its space: each
    checks its arguments, finds the entry, and calls the routines on objects,
    rights and ports.  The calls of the old interface (MACH_IPC_COMPAT) are at
    the end.

    [space] is the address of the space, [IS_NULL] when the task port given in
    the call was not one. *)

From S2P Require Import Prelude Names Splay Table Space Hash Entry World Port Right Object PortSpace.

Definition MACH_PORT_RIGHT_NUMBER : Z := 5.
Definition MACH_PORT_QLIMIT_MAX : Z := 16.
Definition PORT_BACKLOG_MAX : Z := 16.
Definition MACH_NOTIFY_PORT_DESTROYED : Z := 69.
Definition MACH_NOTIFY_NO_SENDERS : Z := 70.
Definition MACH_NOTIFY_DEAD_NAME : Z := 72.

Definition MACH_MSG_TYPE_PORT_ANY (x : Z) : bool :=
  (MACH_MSG_TYPE_MOVE_RECEIVE <=? x) && (x <=? MACH_MSG_TYPE_MAKE_SEND_ONCE).
Definition MACH_MSG_TYPE_PORT_ANY_RIGHT (x : Z) : bool :=
  (MACH_MSG_TYPE_MOVE_RECEIVE <=? x) && (x <=? MACH_MSG_TYPE_MOVE_SEND_ONCE).

Record mach_port_status := mk_status {
  mps_pset : Z;
  mps_seqno : Z;
  mps_mscount : Z;
  mps_qlimit : Z;
  mps_msgcount : Z;
  mps_sorights : Z;
  mps_srights : bool;
  mps_pdrequest : bool;
  mps_nsrequest : bool
}.

Section calls.
Context {Sp : Type} `{NameSpace Sp} `{!NameAlloc Sp} `{PortConfig}.
Context (space is_notify : Z) (env : right_env Sp) (io_alloc : Z -> world -> option Z).

Abbreviation sys := (Sp * world)%type.

Definition mach_port_type (name : Z) : M sys (kern_return * Z) :=
  if space =? IS_NULL then mret (KERN_INVALID_TASK, 0)
  else
    with_entry (fun kr => (kr, 0)) name (fun entry =>
      r ← ipc_right_info name entry;
      let '(kr, type, _) := r in mret (kr, type)).

Definition mach_port_rename (oname nname : Z) : M sys kern_return :=
  if space =? IS_NULL then mret KERN_INVALID_TASK
  else if negb (MACH_PORT_VALID nname) then mret KERN_INVALID_VALUE
  else ipc_object_rename oname nname.

Definition mach_port_allocate_name (right name : Z) : M sys kern_return :=
  if space =? IS_NULL then mret KERN_INVALID_TASK
  else if negb (MACH_PORT_VALID name) then mret KERN_INVALID_VALUE
  else if right =? MACH_PORT_RIGHT_RECEIVE then
    r ← ipc_port_alloc_name space io_alloc name; mret r.1
  else if right =? MACH_PORT_RIGHT_PORT_SET then
    r ← ipc_pset_alloc_name io_alloc name; mret r.1
  else if right =? MACH_PORT_RIGHT_DEAD_NAME then ipc_object_alloc_dead_name name
  else mret KERN_INVALID_VALUE.

Definition mach_port_allocate (right : Z) : M sys (kern_return * Z) :=
  if space =? IS_NULL then mret (KERN_INVALID_TASK, MACH_PORT_NULL)
  else if right =? MACH_PORT_RIGHT_RECEIVE then
    r ← ipc_port_alloc space io_alloc; let '(kr, name, _) := r in mret (kr, name)
  else if right =? MACH_PORT_RIGHT_PORT_SET then
    r ← ipc_pset_alloc io_alloc; let '(kr, name, _) := r in mret (kr, name)
  else if right =? MACH_PORT_RIGHT_DEAD_NAME then ipc_object_alloc_dead
  else mret (KERN_INVALID_VALUE, MACH_PORT_NULL).

Definition mach_port_destroy (name : Z) : M sys kern_return :=
  if space =? IS_NULL then mret KERN_INVALID_TASK
  else with_entry id name (fun entry => ipc_right_destroy env name entry).

Definition mach_port_deallocate (name : Z) : M sys kern_return :=
  if space =? IS_NULL then mret KERN_INVALID_TASK
  else with_entry id name (fun entry => ipc_right_dealloc name entry).

Definition mach_port_get_refs (name right : Z) : M sys (kern_return * Z) :=
  if space =? IS_NULL then mret (KERN_INVALID_TASK, 0)
  else if MACH_PORT_RIGHT_NUMBER <=? right then mret (KERN_INVALID_VALUE, 0)
  else
    with_entry (fun kr => (kr, 0)) name (fun entry =>
      r ← ipc_right_info name entry;
      let '(kr, type, urefs) := r in
      match kr with
      | KERN_SUCCESS =>
        if has type (MACH_PORT_TYPE right) then
          if (right =? MACH_PORT_RIGHT_SEND_ONCE) || (right =? MACH_PORT_RIGHT_PORT_SET) ||
             (right =? MACH_PORT_RIGHT_RECEIVE) then mret (KERN_SUCCESS, 1)
          else if (right =? MACH_PORT_RIGHT_DEAD_NAME) || (right =? MACH_PORT_RIGHT_SEND) then
            mret (KERN_SUCCESS, urefs)
          else crash
        else mret (KERN_SUCCESS, 0)
      | kr => mret (kr, 0)
      end).

Definition mach_port_mod_refs (name right delta : Z) : M sys kern_return :=
  if space =? IS_NULL then mret KERN_INVALID_TASK
  else if MACH_PORT_RIGHT_NUMBER <=? right then mret KERN_INVALID_VALUE
  else with_entry id name (fun entry => ipc_right_delta env name entry right delta).

(** A call on the port of a receive right. *)
Definition ipc_port_translate_receive (name : Z) : M sys (kern_return * Z) :=
  ipc_object_translate name MACH_PORT_RIGHT_RECEIVE.

Definition mach_port_set_qlimit (name qlimit : Z) : M sys kern_return :=
  if space =? IS_NULL then mret KERN_INVALID_TASK
  else if MACH_PORT_QLIMIT_MAX <? qlimit then mret KERN_INVALID_VALUE
  else
    r ← ipc_port_translate_receive name;
    match r with
    | (KERN_SUCCESS, port) => on_world (ipc_port_set_qlimit port qlimit);; mret KERN_SUCCESS
    | (kr, _) => mret kr
    end.

Definition mach_port_set_mscount (name mscount : Z) : M sys kern_return :=
  if space =? IS_NULL then mret KERN_INVALID_TASK
  else
    r ← ipc_port_translate_receive name;
    match r with
    | (KERN_SUCCESS, port) => on_world (update_port port (set_ip_mscount mscount));; mret KERN_SUCCESS
    | (kr, _) => mret kr
    end.

Definition mach_port_set_seqno (name seqno : Z) : M sys kern_return :=
  if space =? IS_NULL then mret KERN_INVALID_TASK
  else
    r ← ipc_port_translate_receive name;
    match r with
    | (KERN_SUCCESS, port) => on_world (ipc_port_set_seqno port seqno);; mret KERN_SUCCESS
    | (kr, _) => mret kr
    end.

(** The name of the port set a port is in; a dead set is left. *)
Definition current_set (port : Z) : M world Z :=
  p ← port_at port;
  if negb (ip_pset p =? IPS_NULL) then
    s ← pset_at (ip_pset p);
    if negb (ips_active s) then
      ipc_pset_remove (ip_pset p) port;; ips_check_unlock (ip_pset p);; mret MACH_PORT_NULL
    else mret (ips_local_name s)
  else mret MACH_PORT_NULL.

Definition mach_port_get_receive_status (name : Z) : M sys (kern_return * option mach_port_status) :=
  if space =? IS_NULL then mret (KERN_INVALID_TASK, None)
  else
    r ← ipc_port_translate_receive name;
    match r with
    | (KERN_SUCCESS, port) =>
      pset ← on_world (current_set port);
      p ← on_world (port_at port);
      mret (KERN_SUCCESS, Some (mk_status pset (ip_seqno p) (ip_mscount p) (ip_qlimit p) (ip_msgcount p)
        (ip_sorights p) (0 <? ip_srights p) (negb (ip_pdrequest p =? IP_NULL))
        (negb (ip_nsrequest p =? IP_NULL))))
    | (kr, _) => mret (kr, None)
    end.

Definition pset_move (port nset : Z) : M sys kern_return :=
  moved ← on_world (ipc_pset_move port nset);
  mret (if (moved : bool) then KERN_SUCCESS else KERN_NOT_IN_SET).

Definition mach_port_move_member (member after : Z) : M sys kern_return :=
  if space =? IS_NULL then mret KERN_INVALID_TASK
  else
    with_entry id member (fun entry =>
      e ← ie_read entry;
      if negb (has (ie_bits e) MACH_PORT_TYPE_RECEIVE) then mret KERN_INVALID_RIGHT
      else if after =? MACH_PORT_NULL then pset_move (ie_object e) IPS_NULL
      else
        r ← of_space (fun s => ns_lookup s after);
        match r with
        | None => mret KERN_INVALID_NAME
        | Some sentry =>
          se ← ie_read sentry;
          if negb (has (ie_bits se) MACH_PORT_TYPE_PORT_SET) then mret KERN_INVALID_RIGHT
          else pset_move (ie_object e) (ie_object se)
        end).

(** [(kr, previous)]. *)
Definition mach_port_request_notification (fuel : nat) (name id sync notify : Z) : M sys (kern_return * Z) :=
  if space =? IS_NULL then mret (KERN_INVALID_TASK, IP_NULL)
  else if notify =? IP_DEAD then mret (KERN_INVALID_CAPABILITY, IP_NULL)
  else if id =? MACH_NOTIFY_PORT_DESTROYED then
    if negb (sync =? 0) then mret (KERN_INVALID_VALUE, IP_NULL)
    else
      r ← ipc_port_translate_receive name;
      match r with
      | (KERN_SUCCESS, port) =>
        previous ← on_world (ipc_port_pdrequest port notify);
        if negb (previous =? IP_NULL) && ip_pdsendp previous then
          on_world (ipc_port_release_send (ip_pdsend previous));; mret (KERN_SUCCESS, IP_NULL)
        else mret (KERN_SUCCESS, previous)
      | (kr, _) => mret (kr, IP_NULL)
      end
  else if id =? MACH_NOTIFY_NO_SENDERS then
    r ← ipc_port_translate_receive name;
    match r with
    | (KERN_SUCCESS, port) =>
      previous ← on_world (ipc_port_nsrequest port sync notify);
      mret (KERN_SUCCESS, previous)
    | (kr, _) => mret (kr, IP_NULL)
    end
  else if id =? MACH_NOTIFY_DEAD_NAME then
    ipc_right_dnrequest env fuel name (negb (sync =? 0)) notify
  else mret (KERN_INVALID_VALUE, IP_NULL).

Definition mach_port_insert_right (name poly polyPoly : Z) : M sys kern_return :=
  if space =? IS_NULL then mret KERN_INVALID_TASK
  else if negb (MACH_PORT_VALID name) || negb (MACH_MSG_TYPE_PORT_ANY_RIGHT polyPoly) then
    mret KERN_INVALID_VALUE
  else if negb (IO_VALID poly) then mret KERN_INVALID_CAPABILITY
  else ipc_object_copyout_name space poly polyPoly false name.

(** [(kr, poly, polyPoly)]. *)
Definition mach_port_extract_right (name msgt_name : Z) : M sys (kern_return * Z * Z) :=
  if space =? IS_NULL then mret (KERN_INVALID_TASK, IO_NULL, 0)
  else if negb (MACH_MSG_TYPE_PORT_ANY msgt_name) then mret (KERN_INVALID_VALUE, IO_NULL, 0)
  else
    r ← ipc_object_copyin name msgt_name;
    match r with
    | (KERN_SUCCESS, poly) =>
      match ipc_object_copyin_type msgt_name with
      | Some type => mret (KERN_SUCCESS, poly, type)
      | None => crash
      end
    | (kr, poly) => mret (kr, poly, 0)
    end.

(** ** The old interface *)

Definition PORT_TYPE_SEND : Z := 1.
Definition PORT_TYPE_RECEIVE_OWN : Z := 7.
Definition PORT_TYPE_SET : Z := 9.

(** Looking up the entry and its type, as most of the old calls do. *)
Definition with_info {A} (fail : kern_return -> A) (name : Z) (f : entry_ref -> Z -> M sys A) : M sys A :=
  with_entry (fun _ => fail KERN_INVALID_ARGUMENT) name (fun entry =>
    r ← ipc_right_info name entry;
    let '(kr, type, _) := r in
    match kr with
    | KERN_SUCCESS => f entry type
    | _ => mret (fail KERN_INVALID_ARGUMENT)
    end).

(** The call needs a receive right. *)
Definition not_receiver (type : Z) : kern_return :=
  if has type MACH_PORT_TYPE_PORT_OR_DEAD then KERN_NOT_RECEIVER else KERN_INVALID_ARGUMENT.

Definition port_translate_compat (name : Z) : M sys (kern_return * Z) :=
  with_info (fun kr => (kr, IP_NULL)) name (fun entry type =>
    if negb (has type MACH_PORT_TYPE_RECEIVE) then mret (not_receiver type, IP_NULL)
    else e ← ie_read entry; mret (KERN_SUCCESS, ie_object e)).

Definition MACH_PORT_TYPE_ALL_RIGHTS : Z := Z.lor MACH_PORT_TYPE_PORT_OR_DEAD MACH_PORT_TYPE_PORT_SET.

Definition convert_port_type (type : Z) : option Z :=
  let rights := Z.land type MACH_PORT_TYPE_ALL_RIGHTS in
  if (rights =? MACH_PORT_TYPE_SEND) || (rights =? MACH_PORT_TYPE_SEND_ONCE) ||
     (rights =? MACH_PORT_TYPE_DEAD_NAME) then Some PORT_TYPE_SEND
  else if (rights =? MACH_PORT_TYPE_RECEIVE) || (rights =? MACH_PORT_TYPE_SEND_RECEIVE)
  then Some PORT_TYPE_RECEIVE_OWN
  else if rights =? MACH_PORT_TYPE_PORT_SET then Some PORT_TYPE_SET
  else None.

Definition port_type (name : Z) : M sys (kern_return * Z) :=
  r ← mach_port_type name;
  match r with
  | (KERN_SUCCESS, type) =>
    match convert_port_type type with
    | Some type => mret (KERN_SUCCESS, type)
    | None => crash
    end
  | _ => mret (KERN_INVALID_ARGUMENT, 0)
  end.

Definition port_rename (old_name new_name : Z) : M sys kern_return :=
  kr ← mach_port_rename old_name new_name;
  mret (match kr with KERN_SUCCESS | KERN_NAME_EXISTS => kr | _ => KERN_INVALID_ARGUMENT end).

Definition port_allocate (it_dnrequests_alloc : nat -> option (Z * list ipc_port_request))
    : M sys (kern_return * Z) :=
  if space =? IS_NULL then mret (KERN_INVALID_ARGUMENT, MACH_PORT_NULL)
  else
    r ← ipc_port_alloc_compat space io_alloc it_dnrequests_alloc;
    let '(kr, name, _) := r in
    mret (match kr with
          | KERN_SUCCESS | KERN_RESOURCE_SHORTAGE => (kr, name)
          | _ => (KERN_INVALID_ARGUMENT, name)
          end).

Definition port_deallocate (name : Z) : M sys kern_return :=
  if space =? IS_NULL then mret KERN_INVALID_ARGUMENT
  else
    with_info id name (fun entry type =>
      if negb (has type MACH_PORT_TYPE_PORT_OR_DEAD) then mret KERN_INVALID_ARGUMENT
      else ipc_right_destroy env name entry;; mret KERN_SUCCESS).

Definition port_set_backlog (name backlog : Z) : M sys kern_return :=
  if (space =? IS_NULL) || (backlog <=? 0) || (PORT_BACKLOG_MAX <? backlog) then mret KERN_INVALID_ARGUMENT
  else
    r ← port_translate_compat name;
    match r with
    | (KERN_SUCCESS, port) => on_world (ipc_port_set_qlimit port backlog);; mret KERN_SUCCESS
    | (kr, _) => mret kr
    end.

(** [ip_pdsendm]: the mark of a send right in a port-destroyed request. *)
Definition ip_pdsendm (sright : Z) : Z := Z.lor sright 1.

Definition port_set_backup (name backup : Z) : M sys (kern_return * Z) :=
  if space =? IS_NULL then mret (KERN_INVALID_ARGUMENT, IP_NULL)
  else
    let backup :=
      if backup =? IP_DEAD then IP_NULL
      else if negb (backup =? IP_NULL) then ip_pdsendm backup else backup in
    r ← port_translate_compat name;
    match r with
    | (KERN_SUCCESS, port) =>
      previous ← on_world (ipc_port_pdrequest port backup);
      if negb (previous =? IP_NULL) then
        if ip_pdsendp previous then mret (KERN_SUCCESS, ip_pdsend previous)
        else on_world (emit (NotifySendOnce previous));; mret (KERN_SUCCESS, IP_NULL)
      else mret (KERN_SUCCESS, previous)
    | (kr, _) => mret (kr, IP_NULL)
    end.

(** [(enabled, num_msgs, backlog, ownership, receive_rights)]. *)
Definition port_status (name : Z) : M sys (kern_return * option (Z * Z * Z * bool * bool)) :=
  if space =? IS_NULL then mret (KERN_INVALID_ARGUMENT, None)
  else
    with_info (fun kr => (kr, None)) name (fun entry type =>
      if negb (has type MACH_PORT_TYPE_PORT_OR_DEAD) then mret (KERN_INVALID_ARGUMENT, None)
      else if has type MACH_PORT_TYPE_RECEIVE then
        e ← ie_read entry;
        enabled ← on_world (current_set (ie_object e));
        p ← on_world (port_at (ie_object e));
        mret (KERN_SUCCESS, Some (enabled, ip_msgcount p, ip_qlimit p, true, true))
      else mret (KERN_SUCCESS, Some (MACH_PORT_NULL, -1, 0, false, false))).

Definition port_set_allocate : M sys (kern_return * Z) :=
  if space =? IS_NULL then mret (KERN_INVALID_ARGUMENT, MACH_PORT_NULL)
  else
    r ← ipc_pset_alloc io_alloc;
    let '(kr, name, _) := r in
    mret (match kr with
          | KERN_SUCCESS | KERN_RESOURCE_SHORTAGE => (kr, name)
          | _ => (KERN_INVALID_ARGUMENT, name)
          end).

Definition port_set_deallocate (name : Z) : M sys kern_return :=
  if space =? IS_NULL then mret KERN_INVALID_ARGUMENT
  else
    with_entry id name (fun entry =>
      e ← ie_read entry;
      if negb (has (ie_bits e) MACH_PORT_TYPE_PORT_SET) then mret KERN_INVALID_ARGUMENT
      else ipc_right_destroy env name entry).

Definition port_set_add (set_name port_name : Z) : M sys kern_return :=
  if space =? IS_NULL then mret KERN_INVALID_ARGUMENT
  else
    with_info id port_name (fun entry type =>
      if negb (has type MACH_PORT_TYPE_RECEIVE) then mret (not_receiver type)
      else
        e ← ie_read entry;
        r ← of_space (fun s => ns_lookup s set_name);
        match r with
        | None => mret KERN_INVALID_ARGUMENT
        | Some sentry =>
          se ← ie_read sentry;
          if negb (has (ie_bits se) MACH_PORT_TYPE_PORT_SET) then mret KERN_INVALID_ARGUMENT
          else pset_move (ie_object e) (ie_object se)
        end).

Definition port_set_remove (name : Z) : M sys kern_return :=
  if space =? IS_NULL then mret KERN_INVALID_ARGUMENT
  else
    with_info id name (fun entry type =>
      if negb (has type MACH_PORT_TYPE_RECEIVE) then mret (not_receiver type)
      else e ← ie_read entry; pset_move (ie_object e) IPS_NULL).

Definition insert_result (kr : kern_return) : kern_return :=
  match kr with
  | KERN_SUCCESS | KERN_NAME_EXISTS | KERN_RESOURCE_SHORTAGE => kr
  | KERN_RIGHT_EXISTS => KERN_FAILURE
  | _ => KERN_INVALID_ARGUMENT
  end.

Definition port_insert_send (fuel : nat) (port name : Z) : M sys kern_return :=
  if (space =? IS_NULL) || negb (MACH_PORT_VALID name) || negb (IP_VALID port) then
    mret KERN_INVALID_ARGUMENT
  else
    kr ← ipc_object_copyout_name_compat space env fuel port MACH_MSG_TYPE_PORT_SEND name;
    mret (insert_result kr).

Definition port_insert_receive (fuel : nat) (port name : Z) : M sys kern_return :=
  if (space =? IS_NULL) || negb (MACH_PORT_VALID name) || negb (IP_VALID port) then
    mret KERN_INVALID_ARGUMENT
  else
    kr ← ipc_object_copyout_name_compat space env fuel port MACH_MSG_TYPE_PORT_RECEIVE name;
    mret (insert_result kr).

Definition port_extract_send (name : Z) : M sys (kern_return * Z) :=
  if space =? IS_NULL then mret (KERN_INVALID_ARGUMENT, IP_NULL)
  else
    r ← ipc_object_copyin_compat name MSG_TYPE_PORT true;
    mret (match r.1 with KERN_SUCCESS => r | _ => (KERN_INVALID_ARGUMENT, r.2) end).

Definition port_extract_receive (name : Z) : M sys (kern_return * Z) :=
  if space =? IS_NULL then mret (KERN_INVALID_ARGUMENT, IP_NULL)
  else
    r ← ipc_object_copyin_compat name MSG_TYPE_PORT_ALL true;
    mret (match r.1 with KERN_SUCCESS => r | _ => (KERN_INVALID_ARGUMENT, r.2) end).
End calls.

(** ** Listing a space *)

Section lists.
Context `{PortConfig} `{!EntrySizes} (space : Z).
(** Whether the kernel can allocate memory for the result, and what other
    threads do meanwhile. *)
Context (vm_allocate : Z -> bool) (vm_map_copyout : bool).
Context (others : (ipc_space * Global.ghash) * world -> (ipc_space * Global.ghash) * world).

Abbreviation sys := ((ipc_space * Global.ghash) * world)%type.

Definition round_page (x : Z) : Z := u32 (Z.ldiff (x + (PAGE_SIZE - 1)) (PAGE_SIZE - 1)).
Definition sizeof_mach_port : Z := 4.

(** [None] when the entry is not listed. *)
Definition mach_port_names_helper (timestamp : Z) (e : ipc_entry) (name : Z) : M world (option (Z * Z)) :=
  let listed (bits request : Z) : option (Z * Z) :=
    let type := IE_BITS_TYPE bits in
    let type :=
      if has bits IE_BITS_COMPAT then Z.lor type MACH_PORT_TYPE_COMPAT
      else if negb (request =? 0) then Z.lor type MACH_PORT_TYPE_DNREQUEST else type in
    Some (name, if has bits IE_BITS_MAREQUEST then Z.lor type MACH_PORT_TYPE_MAREQUEST else type) in
  let bits := ie_bits e in
  if has bits MACH_PORT_TYPE_SEND_RIGHTS then
    p ← port_at (ie_object e);
    if negb (ip_active p) && IP_TIMESTAMP_ORDER (ip_timestamp p) timestamp then
      if has bits IE_BITS_COMPAT then mret None
      else
        let bits := Z.lor (clear bits (Z.lor IE_BITS_TYPE_MASK IE_BITS_MAREQUEST)) MACH_PORT_TYPE_DEAD_NAME in
        let bits := if negb (ie_request e =? 0) then u32 (bits + 1) else bits in
        mret (listed bits 0)
    else mret (listed bits (ie_request e))
  else mret (listed bits (ie_request e)).

(** Going over the table, and over the tree. *)
Fixpoint table_loop {A} (f : Z -> ipc_entry -> A -> M world A) (n : nat) (table : list ipc_entry) (index : Z) (acc : A)
    : M world A :=
  match n with
  | O => mret acc
  | S n =>
    acc ← f index (tget table index) acc;
    table_loop f n table (index + 1) acc
  end.

Definition tree_loop {A} (f : Z -> ipc_entry -> A -> M world A) (acc : A) : M sys A := fun st =>
  let '(res, tree) :=
    traverse_splay (fun (r : option (A * world)) (cur : Z * ite_ptr) =>
      (match r with
       | None => None
       | Some (acc, w) => f cur.1 (read_entry st.1.1 (TreeEntry cur.2)) acc w
       end, false)) (Some (acc, st.2)) (is_tree st.1.1) in
  match res with
  | Some (acc, w) => Some (acc, ((with_tree tree st.1.1, st.1.2), w))
  | None => None
  end.

Definition names_table (timestamp index : Z) (e : ipc_entry) (acc : list (Z * Z)) : M world (list (Z * Z)) :=
  if IE_BITS_TYPE (ie_bits e) =? MACH_PORT_TYPE_NONE then mret acc
  else
    r ← mach_port_names_helper timestamp e (MACH_PORT_MAKEB index (ie_bits e));
    mret (match r with Some x => acc ++ [x] | None => acc end).

Definition names_tree (timestamp name : Z) (e : ipc_entry) (acc : list (Z * Z)) : M world (list (Z * Z)) :=
  r ← mach_port_names_helper timestamp e name;
  mret (match r with Some x => acc ++ [x] | None => acc end).

(** The memory needed for the names of a space. *)
Definition names_bound (s : ipc_space) : Z := u32 (is_table_size s + is_tree_total s).
Definition names_needed (s : ipc_space) : Z := round_page (u32 (names_bound s * sizeof_mach_port)).

(** The loop that allocates memory; [inr] when the call returns. *)
Fixpoint names_memory (fuel : nat) (size : Z) : M sys (Z + kern_return) :=
  match fuel with
  | O => crash
  | S fuel =>
    s ← gets (fun st => st.1.1);
    if negb (is_active s) then mret (inr KERN_INVALID_TASK)
    else if names_needed s <=? size then mret (inl size)
    else if negb (vm_allocate (names_needed s)) then mret (inr KERN_RESOURCE_SHORTAGE)
    else modify others;; names_memory fuel (names_needed s)
  end.

(** The names and types of a locked space. *)
Definition names_snapshot : M sys (list (Z * Z)) :=
  timestamp ← on_world ipc_port_timestamp;
  s ← gets (fun st => st.1.1);
  acc ← on_world (table_loop (names_table timestamp) (Z.to_nat (is_table_size s)) (is_table s) 0 []);
  tree_loop (names_tree timestamp) acc.

Definition mach_port_names (fuel : nat) : M sys (kern_return * list (Z * Z)) :=
  if space =? IS_NULL then mret (KERN_INVALID_TASK, [])
  else
    r ← names_memory fuel 0;
    match r with
    | inr kr => mret (kr, [])
    | inl _ => names ← names_snapshot; mret (KERN_SUCCESS, names)
    end.

(** The members found so far, and their number; only [maxnames] fit. *)
Definition mach_port_gst_helper (pset port maxnames : Z) (st : list Z * Z) : M world (list Z * Z) :=
  p ← port_at port;
  let '(names, actual) := st in
  mret (if pset =? ip_pset p then
          (if actual <? maxnames then names ++ [ip_receiver_name p] else names, u32 (actual + 1))
        else st).

Definition gst_entry (pset maxnames : Z) (_ : Z) (e : ipc_entry) (acc : list Z * Z) : M world (list Z * Z) :=
  if has (ie_bits e) MACH_PORT_TYPE_RECEIVE then mach_port_gst_helper pset (ie_object e) maxnames acc
  else mret acc.

(** The members in a locked space. *)
Definition members_snapshot (pset maxnames : Z) : M sys (list Z * Z) :=
  s ← gets (fun st => st.1.1);
  acc ← on_world (table_loop (gst_entry pset maxnames) (Z.to_nat (is_table_size s)) (is_table s) 0 ([], 0));
  tree_loop (gst_entry pset maxnames) acc.

#[local] Instance list_names : NameSpace (ipc_space * Global.ghash) := space_names space.

Fixpoint set_status_loop (fuel : nat) (name size : Z) : M sys (kern_return * list Z) :=
  match fuel with
  | O => crash
  | S fuel =>
    if negb (vm_allocate size) then mret (KERN_RESOURCE_SHORTAGE, [])
    else
      modify others;;
      with_entry (fun kr => (kr, [])) name (fun entry =>
        e ← ie_read entry;
        if negb (IE_BITS_TYPE (ie_bits e) =? MACH_PORT_TYPE_PORT_SET) then mret (KERN_INVALID_RIGHT, [])
        else
          let maxnames := size / sizeof_mach_port in
          r ← members_snapshot (ie_object e) maxnames;
          let '(names, actual) := r in
          if actual <=? maxnames then mret (KERN_SUCCESS, names)
          else set_status_loop fuel name (u32 (round_page (u32 (actual * sizeof_mach_port)) + PAGE_SIZE)))
  end.

Definition mach_port_get_set_status (fuel : nat) (name : Z) : M sys (kern_return * list Z) :=
  if space =? IS_NULL then mret (KERN_INVALID_TASK, [])
  else set_status_loop fuel name PAGE_SIZE.

Definition port_names (fuel : nat) : M sys (kern_return * list (Z * Z)) :=
  r ← mach_port_names fuel;
  match r with
  | (KERN_SUCCESS, names) =>
    if negb vm_map_copyout then mret (KERN_RESOURCE_SHORTAGE, []) else
    match mapM (fun x => t ← convert_port_type x.2; Some (x.1, t)) names with
    | Some names => mret (KERN_SUCCESS, names)
    | None => crash
    end
  | (KERN_RESOURCE_SHORTAGE, _) => mret (KERN_RESOURCE_SHORTAGE, [])
  | _ => mret (KERN_INVALID_ARGUMENT, [])
  end.

Definition port_set_status (fuel : nat) (name : Z) : M sys (kern_return * list Z) :=
  r ← mach_port_get_set_status fuel name;
  mret (match r.1 with KERN_SUCCESS | KERN_RESOURCE_SHORTAGE => r | _ => (KERN_INVALID_ARGUMENT, r.2) end).
End lists.
