(* ===== verification/ListInv.v ===== *)
(** * What the calls that list a space return

    [all_names s] are the names of the space [s] with their entries, in the
    order in which the loops over the table and the tree come to them.  The
    loops of mach_port_names and mach_port_get_set_status are folds over this
    list. *)

From S2P Require Import Prelude Names Splay Table Space Hash Entry EntryInv Alloc Grow World Port Right Object PortSpace.
From S2P Require Import MachPort.

(** ** Folds that collect *)

Lemma fold_collect {A B} (h : A -> option B) (l : list A) (acc : list B) :
  fold_left (fun acc x => match h x with Some y => acc ++ [y] | None => acc end) l acc = acc ++ omap h l.
Proof.
  revert acc. induction l as [|x l IH]; intros acc; simpl; [by rewrite app_nil_r|].
  rewrite IH. destruct (h x); [|done]. by rewrite <- app_assoc.
Qed.

(** Collecting the first [n] and counting all. *)
Lemma fold_count {A B} (h : A -> option B) (n : Z) (l : list A) (pre : list B) :
  Z.of_nat (length pre) + Z.of_nat (length l) <= u32_max ->
  fold_left (fun (acc : list B * Z) x =>
    match h x with
    | Some y => (if acc.2 <? n then acc.1 ++ [y] else acc.1, u32 (acc.2 + 1))
    | None => acc
    end) l (take (Z.to_nat n) pre, Z.of_nat (length pre)) =
  (take (Z.to_nat n) (pre ++ omap h l), Z.of_nat (length (pre ++ omap h l))).
Proof.
  revert pre. induction l as [|x l IH]; intros pre Hlen; simpl; [by rewrite app_nil_r|].
  simpl in Hlen. destruct (h x) as [y|]; [|by apply IH; lia].
  cbn [fst snd]. replace (if _ <? n then _ else _) with (take (Z.to_nat n) (pre ++ [y])); cycle 1.
  { destruct (Z.ltb_spec (Z.of_nat (length pre)) n).
    - rewrite !take_ge; [done|lia|]. rewrite length_app. simpl. lia.
    - by rewrite take_app_le by lia. }
  rewrite u32_id by (unfold u32_range; lia).
  replace (Z.of_nat (length pre) + 1) with (Z.of_nat (length (pre ++ [y]))) by (rewrite length_app; simpl; lia).
  rewrite IH by (rewrite length_app; simpl; lia). by rewrite <- app_assoc.
Qed.

Lemma indices_cons lo hi : lo < hi -> indices lo hi = lo :: indices (lo + 1) hi.
Proof.
  intros Hlt. unfold indices. replace (Z.to_nat (hi - lo)) with (S (Z.to_nat (hi - (lo + 1)))) by lia.
  simpl. f_equal; [lia|]. rewrite <- seq_shift, map_map. apply map_ext. intros k. lia.
Qed.

Section lists.
Context `{PortConfig} `{!EntrySizes}.

(** ** The loops are folds *)

Section loops.
Context {A : Type} (f : Z -> ipc_entry -> A -> M world A) (g : Z -> ipc_entry -> A -> A) (w : world).

Lemma table_loop_run n T : forall i acc,
  (forall j acc, i <= j < i + Z.of_nat n -> f j (tget T j) acc w = Some (g j (tget T j) acc, w)) ->
  table_loop f n T i acc w =
    Some (fold_left (fun acc j => g j (tget T j) acc) (indices i (i + Z.of_nat n)) acc, w).
Proof.
  induction n as [|n IH]; intros i acc Hf.
  { unfold indices. by replace (Z.to_nat _) with 0%nat by lia. }
  cbn [table_loop]. rewrite run_bind, Hf by lia. rewrite IH by (intros; apply Hf; lia).
  rewrite (indices_cons i) by lia. simpl. by replace (i + 1 + Z.of_nat n) with (i + Z.of_nat (S n)) by lia.
Qed.

Lemma visit_all_run (read : ite_ptr -> ipc_entry) l : forall acc,
  (forall x p acc, (x, p) ∈ l -> f x (read p) acc w = Some (g x (read p) acc, w)) ->
  visit_all (fun (r : option (A * world)) (cur : Z * ite_ptr) =>
    (match r with None => None | Some (acc, w) => f cur.1 (read cur.2) acc w end, false)) (Some (acc, w)) l =
  (Some (fold_left (fun acc cur => g cur.1 (read cur.2) acc) l acc, w), l).
Proof.
  induction l as [|[x p] l IH]; intros acc Hf; simpl; [done|].
  rewrite Hf by apply elem_of_cons, or_introl, eq_refl. rewrite IH; [done|].
  intros x' p' acc' Hin. apply Hf. by right.
Qed.

Lemma tree_loop_run s gh acc :
  splay_ok (is_tree s) ->
  (forall x p acc, (x, p) ∈ to_list (is_tree s) ->
     f x (read_entry s (TreeEntry p)) acc w = Some (g x (read_entry s (TreeEntry p)) acc, w)) ->
  exists s', resplayed s s' /\
    tree_loop f acc ((s, gh), w) =
      Some (fold_left (fun acc cur => g cur.1 (read_entry s (TreeEntry cur.2)) acc) (to_list (is_tree s)) acc,
            ((s', gh), w)).
Proof.
  intros Hok Hf. unfold tree_loop. cbn [fst snd].
  pose proof (traverse_splay_spec (fun (r : option (A * world)) (cur : Z * ite_ptr) =>
    (match r with None => None | Some (acc, w) => f cur.1 (read_entry s (TreeEntry cur.2)) acc w end, false))
    (Some (acc, w)) (is_tree s) Hok) as Hspec.
  rewrite (visit_all_run (fun p => read_entry s (TreeEntry p))) in Hspec by done.
  destruct (traverse_splay _ _ _) as [res tree]. simpl in Hspec. destruct Hspec as (-> & Hok' & Hl).
  exists (with_tree tree s). split; [by exists tree|done].
Qed.
End loops.

(** ** The names of a space *)

Definition table_name (s : ipc_space) (index : Z) : option (Z * entry_ref) :=
  if IE_BITS_TYPE (tbits (is_table s) index) =? MACH_PORT_TYPE_NONE then None
  else Some (MACH_PORT_MAKEB index (tbits (is_table s) index), TableEntry index).

Definition all_names (s : ipc_space) : list (Z * entry_ref) :=
  omap (table_name s) (indices 0 (is_table_size s)) ++
  map (fun x => (x.1, TreeEntry x.2)) (to_list (is_tree s)).

Lemma all_names_spec s name r :
  space_inv None s -> (name, r) ∈ all_names s <-> denotes None s name r.
Proof.
  intros Hinv. pose proof Hinv as [_ I]. unfold all_names. rewrite elem_of_app, list_elem_of_omap, list_elem_of_In, in_map_iff.
  setoid_rewrite elem_of_indices. unfold table_name. split.
  - intros [(i & Hi & Heq)|([x p] & Heq & Hin)].
    + destruct (Z.eqb_spec (IE_BITS_TYPE (tbits (is_table s) i)) MACH_PORT_TYPE_NONE) as [|Hne]; [done|].
      injection Heq as <- <-. constructor; [|by left|done]. split; [|lia].
      destruct (Z.eq_dec i 0) as [->|]; [|lia]. by rewrite (i_zero _ _ _ _ _ _ _ _ I) in Hne.
    + injection Heq as <- <-. constructor. by apply list_elem_of_In.
  - intros [i Hi Hu ->|p Hin].
    + left. exists i. split; [lia|]. destruct Hu as [Hu|[=]].
      destruct (Z.eqb_spec (IE_BITS_TYPE (tbits (is_table s) i)) MACH_PORT_TYPE_NONE); done.
    + right. exists (name, p). split; [done|]. by apply list_elem_of_In.
Qed.

Lemma length_omap {A B} (h : A -> option B) l : (length (omap h l) <= length l)%nat.
Proof. induction l as [|x l IH]; csimpl; [lia|]. destruct (h x); csimpl; lia. Qed.

Lemma nodup_omap_keys {A B K} (h : A -> option B) (f : A -> K) (k : B -> K) (l : list A) :
  (forall x y, h x = Some y -> k y = f x) -> NoDup (map f l) -> NoDup (map k (omap h l)).
Proof.
  intros Hh. induction l as [|x l IH]; intros Hnd; [constructor|].
  apply NoDup_cons in Hnd as [Hx Hnd]. unfold omap, list_omap. destruct (h x) as [y|] eqn:Hy; [|by apply IH].
  apply NoDup_cons. split; [|by apply IH]. rewrite (Hh x y Hy).
  intros (y' & Heq & (x' & Hin & Hy')%list_elem_of_omap)%list_elem_of_fmap.
  apply Hx. rewrite Heq, (Hh x' y' Hy'). by apply list_elem_of_fmap_2.
Qed.

Lemma all_names_nodup s : space_inv None s -> NoDup (map fst (all_names s)).
Proof.
  intros Hinv. pose proof Hinv as [_ I]. assert (Hnd : NoDup (all_names s)).
  { unfold all_names. apply NoDup_app. split_and!.
    - pose proof (NoDup_indices 0 (is_table_size s)) as Hi. induction Hi as [|i l Hni Hl IH]; simpl; [constructor|].
      destruct (table_name s i) as [x|] eqn:Hx; [|done]. constructor; [|done].
      intros (j & Hj & Heq)%list_elem_of_omap. unfold table_name in *.
      destruct (_ =? _); [done|]. destruct (_ =? _); [done|]. simplify_eq. done.
    - intros x (i & _ & Hx)%list_elem_of_omap. unfold table_name in Hx. destruct (_ =? _); [done|].
      injection Hx as <-. by intros (y & ? & _)%list_elem_of_In%in_map_iff.
    - apply (NoDup_fmap_2_strong (fun x : Z * ite_ptr => (x.1, TreeEntry x.2)));
        [|by eapply NoDup_fmap_1, (i_ptrs _ _ _ _ _ _ _ _ I)].
      intros [x1 p1] [x2 p2] _ _ [= -> ->]. done. }
  apply (NoDup_fmap_2_strong fst); [|done]. intros [n1 r1] [n2 r2] H1 H2. simpl. intros ->. f_equal.
  apply all_names_spec in H1, H2; [|done..]. by eapply denotes_unique.
Qed.

Lemma all_names_length s :
  space_inv None s -> Z.of_nat (length (all_names s)) <= is_table_size s + is_tree_total s.
Proof.
  intros [_ I]. unfold all_names. rewrite length_app, length_map.
  pose proof (length_omap (table_name s) (indices 0 (is_table_size s))) as Hl.
  unfold indices in Hl. rewrite length_map, length_seq in Hl.
  rewrite (i_total _ _ _ _ _ _ _ _ I). pose proof (inv_size _ _ _ _ _ _ _ _ I). unfold indices. lia.
Qed.

(** ** mach_port_names *)

(** How an entry is listed. *)
Definition listed_as (w : world) (timestamp : Z) (e : ipc_entry) (name : Z) : option (Z * Z) :=
  match mach_port_names_helper timestamp e name w with Some (r, _) => r | None => None end.

(** The ports of the send rights of the space are there. *)
Definition ports_there (s : ipc_space) (w : world) : Prop :=
  forall name r, denotes None s name r -> has (ie_bits (read_entry s r)) MACH_PORT_TYPE_PORT_RIGHTS = true ->
    is_Some (w_ports w !! ie_object (read_entry s r)).

Lemma has_mask b m m' : Z.land m m' = m -> has b m = true -> has b m' = true.
Proof.
  unfold has. intros Hm Hb. apply negb_true_iff, Z.eqb_neq. apply negb_true_iff, Z.eqb_neq in Hb.
  intros Hz. apply Hb. by rewrite <- Hm, (Z.land_comm m), Z.land_assoc, Hz.
Qed.

Lemma names_helper_run timestamp e name w :
  (has (ie_bits e) MACH_PORT_TYPE_PORT_RIGHTS = true -> is_Some (w_ports w !! ie_object e)) ->
  mach_port_names_helper timestamp e name w = Some (listed_as w timestamp e name, w).
Proof.
  intros Hp. unfold listed_as, mach_port_names_helper.
  destruct (has (ie_bits e) MACH_PORT_TYPE_SEND_RIGHTS) eqn:Hs; [|done].
  destruct Hp as [p Hp]; [by eapply has_mask; [|exact Hs]|].
  rewrite !run_bind. unfold port_at. rewrite Hp. destruct (_ && _); [|done]. by destruct (has _ IE_BITS_COMPAT).
Qed.

Lemma omap_map {A B C} (h : B -> option C) (k : A -> B) (l : list A) :
  omap h (map k l) = omap (fun x => h (k x)) l.
Proof. induction l as [|x l IH]; csimpl; [done|]. by rewrite IH. Qed.

Lemma listed_as_ext w w' timestamp e name :
  w_ports w' = w_ports w -> listed_as w' timestamp e name = listed_as w timestamp e name.
Proof.
  intros Hp. unfold listed_as, mach_port_names_helper. destruct (has _ MACH_PORT_TYPE_SEND_RIGHTS); [|done].
  rewrite !run_bind. unfold port_at. rewrite Hp. destruct (w_ports w !! _); [|done].
  destruct (_ && _); [|done]. by destruct (has _ IE_BITS_COMPAT).
Qed.

Lemma listed_as_name w timestamp e name n t :
  listed_as w timestamp e name = Some (n, t) -> n = name.
Proof.
  unfold listed_as, mach_port_names_helper. destruct (has _ MACH_PORT_TYPE_SEND_RIGHTS); [|by intros [= <- _]].
  rewrite run_bind. unfold port_at. destruct (w_ports w !! _); [|done].
  destruct (_ && _); [|by intros [= <- _]]. destruct (has _ IE_BITS_COMPAT); [done|]. by intros [= <- _].
Qed.

Lemma omap_omap {A B C} (h : B -> option C) (k : A -> option B) (l : list A) :
  omap h (omap k l) = omap (fun x => y ← k x; h y) l.
Proof. induction l as [|x l IH]; csimpl; [done|]. destruct (k x) as [y|]; csimpl; by rewrite <- IH. Qed.

(** The list of a locked space is its names, in order. *)
Lemma names_snapshot_run s g w :
  space_inv None s -> ports_there s w ->
  exists s', resplayed s s' /\
    names_snapshot ((s, g), w) =
      Some (omap (fun x => listed_as w (w_timestamp w) (read_entry s x.2) x.1) (all_names s),
            ((s', g), with_timestamp (u32 (w_timestamp w + 1)) w)).
Proof.
  intros Hinv Hports. pose proof Hinv as [Hok I]. set (w1 := with_timestamp (u32 (w_timestamp w + 1)) w).
  set (ts := w_timestamp w). pose proof (inv_size _ _ _ _ _ _ _ _ I) as Hsize.
  set (h := fun x : Z * entry_ref => listed_as w ts (read_entry s x.2) x.1).
  assert (Hrun : forall name r, denotes None s name r ->
    mach_port_names_helper ts (read_entry s r) name w1 = Some (h (name, r), w1)).
  { intros name r Hd. rewrite names_helper_run; [by rewrite (listed_as_ext w w1)|]. intros Ht. by apply (Hports name r Hd). }
  assert (Hden : forall j, 0 <= j < is_table_size s ->
    IE_BITS_TYPE (tbits (is_table s) j) <> 0 ->
    denotes None s (MACH_PORT_MAKEB j (tbits (is_table s) j)) (TableEntry j)).
  { intros j Hj Ht. apply all_names_spec; [done|]. unfold all_names. apply elem_of_app. left.
    apply list_elem_of_omap. exists j. split; [by apply elem_of_indices|]. unfold table_name.
    by rewrite (proj2 (Z.eqb_neq _ _)). }
  pose proof (table_loop_run (names_table ts)
    (fun j e acc => match (y ← table_name s j; h y) with Some y => acc ++ [y] | None => acc end) w1
    (Z.to_nat (is_table_size s)) (is_table s) 0 []) as Htab.
  destruct (tree_loop_run (names_tree ts)
    (fun name e acc => match listed_as w ts e name with Some y => acc ++ [y] | None => acc end) w1 s g
    (omap (fun j => y ← table_name s j; h y) (indices 0 (is_table_size s))) Hok) as (s' & Hrs & Htree).
  { intros x p acc Hin. unfold names_tree. rewrite run_bind, (Hrun x (TreeEntry p)) by (by constructor).
    unfold h. simpl. by destruct (listed_as _ _ _ _). }
  exists s'. split; [done|]. unfold names_snapshot. rewrite run_bind.
  assert (Hts : on_world ipc_port_timestamp ((s, g), w) = Some (ts, ((s, g), w1))) by done. rewrite Hts.
  rewrite run_bind. unfold gets. rewrite run_bind. unfold on_world at 1. cbn [snd fst].
  rewrite Htab; cycle 1.
  { intros j acc Hj. unfold names_table, table_name. change (ie_bits (tget (is_table s) j)) with (tbits (is_table s) j).
    change MACH_PORT_TYPE_NONE with 0. destruct (Z.eqb_spec (IE_BITS_TYPE (tbits (is_table s) j)) 0); [done|].
    rewrite run_bind. change (tget (is_table s) j) with (read_entry s (TableEntry j)) at 1.
    rewrite Hrun by (by apply Hden; [lia|]). simpl. by destruct (h _). }
  rewrite (fold_collect (fun j => y ← table_name s j; h y)), app_nil_l.
  replace (0 + Z.of_nat (Z.to_nat (is_table_size s))) with (is_table_size s) by lia. cbn [fst].
  rewrite Htree, (fold_collect (fun x => listed_as w ts (read_entry s (TreeEntry x.2)) x.1)). do 2 f_equal.
  unfold all_names. rewrite omap_app, omap_omap. f_equal.
  by rewrite omap_map.
Qed.

(** Enough memory is allocated for all the names there can be. *)
Lemma round_page_range x : 0 <= x -> x + 4095 <= u32_max -> x <= round_page x <= x + 4095.
Proof.
  intros H1 H2. unfold round_page, PAGE_SIZE. change (4096 - 1) with (Z.ones 12).
  rewrite Z.ldiff_ones_r, Z.shiftl_mul_pow2, Z.shiftr_div_pow2 by lia. change (Z.ones 12) with 4095. change (2 ^ 12) with 4096.
  pose proof (Z.div_mod (x + 4095) 4096 ltac:(lia)). pose proof (Z.mod_pos_bound (x + 4095) 4096 ltac:(lia)).
  rewrite u32_id by (unfold u32_range; lia). lia.
Qed.

Definition countable (s : ipc_space) : Prop := (is_table_size s + is_tree_total s) * 4 + 8191 <= u32_max.

Lemma names_needed_enough s :
  space_inv None s -> countable s -> Z.of_nat (length (all_names s)) * sizeof_mach_port <= names_needed s.
Proof.
  intros Hinv Hc. pose proof (all_names_length s Hinv) as Hl. pose proof Hinv as [_ I].
  pose proof (inv_size _ _ _ _ _ _ _ _ I) as Hs. pose proof (i_total _ _ _ _ _ _ _ _ I) as Ht.
  unfold countable in Hc. unfold names_needed, names_bound, sizeof_mach_port.
  rewrite (u32_id (is_table_size s + is_tree_total s)) by (unfold u32_range; lia).
  rewrite u32_id by (unfold u32_range; lia). pose proof (round_page_range ((is_table_size s + is_tree_total s) * 4) ltac:(lia) ltac:(lia)). lia.
Qed.

(** Nobody else runs and there is memory. *)
Lemma names_memory_alone vm_allocate s g w :
  is_active s = true -> vm_allocate (names_needed s) = true ->
  exists size, names_memory vm_allocate id 2 0 ((s, g), w) = Some (inl size, ((s, g), w)) /\ names_needed s <= size.
Proof.
  intros Hact Hvm. cbn [names_memory]. rewrite run_bind. unfold gets. cbn [fst]. rewrite Hact. cbn [negb].
  destruct (Z.leb_spec (names_needed s) 0); [by exists 0|]. rewrite Hvm. cbn [negb]. rewrite run_bind.
  unfold modify, id. rewrite run_bind. cbn [fst]. rewrite Hact, Z.leb_refl. by exists (names_needed s).
Qed.

Lemma mach_port_names_alone space vm_allocate s g w :
  space <> IS_NULL -> is_active s = true -> vm_allocate (names_needed s) = true ->
  space_inv None s -> ports_there s w ->
  exists s', resplayed s s' /\
    mach_port_names space vm_allocate id 2 ((s, g), w) =
      Some ((KERN_SUCCESS, omap (fun x => listed_as w (w_timestamp w) (read_entry s x.2) x.1) (all_names s)),
            ((s', g), with_timestamp (u32 (w_timestamp w + 1)) w)).
Proof.
  intros Hsp Hact Hvm Hinv Hports. destruct (names_snapshot_run s g w Hinv Hports) as (s' & Hrs & Hrun).
  exists s'. split; [done|]. unfold mach_port_names. rewrite (proj2 (Z.eqb_neq _ _)) by done.
  destruct (names_memory_alone vm_allocate s g w Hact Hvm) as (size & Hmem & _).
  by rewrite run_bind, Hmem, run_bind, Hrun.
Qed.

(** ** mach_port_get_set_status *)

(** The name of the port of a receive right in the set. *)
Definition member_of (w : world) (pset : Z) (e : ipc_entry) : option Z :=
  if has (ie_bits e) MACH_PORT_TYPE_RECEIVE then
    p ← w_ports w !! ie_object e;
    if pset =? ip_pset p then Some (ip_receiver_name p) else None
  else None.

Definition members (s : ipc_space) (w : world) (pset : Z) : list Z :=
  omap (fun x => member_of w pset (read_entry s x.2)) (all_names s).

Definition add_member (w : world) (pset maxnames : Z) (e : ipc_entry) (acc : list Z * Z) : list Z * Z :=
  match member_of w pset e with
  | Some y => (if acc.2 <? maxnames then acc.1 ++ [y] else acc.1, u32 (acc.2 + 1))
  | None => acc
  end.

Lemma gst_entry_run w pset maxnames x e acc :
  (has (ie_bits e) MACH_PORT_TYPE_PORT_RIGHTS = true -> is_Some (w_ports w !! ie_object e)) ->
  gst_entry pset maxnames x e acc w = Some (add_member w pset maxnames e acc, w).
Proof.
  intros Hp. unfold gst_entry, add_member, member_of.
  destruct (has (ie_bits e) MACH_PORT_TYPE_RECEIVE) eqn:Hr; [|done].
  destruct Hp as [p Hp]; [by eapply has_mask; [|exact Hr]|].
  unfold mach_port_gst_helper. rewrite run_bind. unfold port_at. rewrite Hp. destruct acc as [names actual]. simpl.
  by destruct (pset =? ip_pset p).
Qed.

Lemma untyped_has b m : IE_BITS_TYPE b = 0 -> Z.land m IE_BITS_TYPE_MASK = m -> has b m = false.
Proof.
  unfold IE_BITS_TYPE, has. intros Hb Hm. rewrite <- Hm, (Z.land_comm m), Z.land_assoc, Hb. done.
Qed.

Lemma members_length s w pset :
  space_inv None s -> countable s -> Z.of_nat (length (members s w pset)) * 4 + 8191 <= u32_max.
Proof.
  intros Hinv Hc. pose proof (all_names_length s Hinv). unfold countable, members in *.
  pose proof (length_omap (fun x : Z * entry_ref => member_of w pset (read_entry s x.2)) (all_names s)). lia.
Qed.

Lemma table_members s w pset :
  omap (fun j => member_of w pset (tget (is_table s) j)) (indices 0 (is_table_size s)) =
  omap (fun x => member_of w pset (read_entry s x.2)) (omap (table_name s) (indices 0 (is_table_size s))).
Proof.
  rewrite omap_omap. generalize (indices 0 (is_table_size s)). intros l. induction l as [|j l IH]; csimpl; [done|].
  rewrite IH. unfold table_name. change MACH_PORT_TYPE_NONE with 0.
  destruct (Z.eqb_spec (IE_BITS_TYPE (tbits (is_table s) j)) 0) as [Ht|]; [|done]. simpl.
  unfold member_of. change (ie_bits (tget (is_table s) j)) with (tbits (is_table s) j).
  by rewrite (untyped_has _ MACH_PORT_TYPE_RECEIVE Ht).
Qed.

Lemma members_snapshot_run s g w pset maxnames :
  space_inv None s -> ports_there s w -> countable s -> 0 <= maxnames ->
  exists s', resplayed s s' /\
    members_snapshot pset maxnames ((s, g), w) =
      Some ((take (Z.to_nat maxnames) (members s w pset), Z.of_nat (length (members s w pset))), ((s', g), w)).
Proof.
  intros Hinv Hports Hc Hmax. pose proof Hinv as [Hok I]. pose proof (inv_size _ _ _ _ _ _ _ _ I) as Hsize.
  pose proof (members_length s w pset Hinv Hc) as Hlen. pose proof (all_names_length s Hinv) as Hall.
  set (L1 := omap (fun j => member_of w pset (tget (is_table s) j)) (indices 0 (is_table_size s))).
  set (L2 := omap (fun x => member_of w pset (read_entry s (TreeEntry x.2))) (to_list (is_tree s))).
  assert (Hmem : members s w pset = L1 ++ L2).
  { unfold members, all_names, L1, L2. by rewrite omap_app, omap_map, table_members. }
  destruct (tree_loop_run (gst_entry pset maxnames) (fun _ e acc => add_member w pset maxnames e acc) w s g
    (take (Z.to_nat maxnames) L1, Z.of_nat (length L1)) Hok) as (s' & Hrs & Htree).
  { intros x p acc Hin. apply gst_entry_run. intros Ht. by apply (Hports x (TreeEntry p) ltac:(by constructor)). }
  exists s'. split; [done|]. unfold members_snapshot. rewrite run_bind. unfold gets. rewrite run_bind.
  unfold on_world. cbn [fst snd].
  rewrite (table_loop_run _ (fun _ e acc => add_member w pset maxnames e acc)); cycle 1.
  { intros j acc Hj. apply gst_entry_run. intros Ht.
    destruct (Z.eqb_spec (IE_BITS_TYPE (tbits (is_table s) j)) 0) as [Hz|Hz].
    - change (ie_bits (tget (is_table s) j)) with (tbits (is_table s) j) in Ht.
      by rewrite (untyped_has _ MACH_PORT_TYPE_PORT_RIGHTS Hz) in Ht.
    - apply (Hports (MACH_PORT_MAKEB j (tbits (is_table s) j)) (TableEntry j)); [|done].
      apply all_names_spec; [done|]. unfold all_names. apply elem_of_app. left. apply list_elem_of_omap.
      exists j. split; [apply elem_of_indices; lia|]. unfold table_name. by rewrite (proj2 (Z.eqb_neq _ _)). }
  replace (0 + Z.of_nat (Z.to_nat (is_table_size s))) with (is_table_size s) by lia.
  unfold add_member. pose proof (fold_count (fun j => member_of w pset (tget (is_table s) j)) maxnames
    (indices 0 (is_table_size s)) []) as Hf1. rewrite take_nil, app_nil_l in Hf1.
  change (Z.of_nat (length [])) with 0 in Hf1. rewrite Hf1; cycle 1.
  { unfold indices. rewrite length_map, length_seq. unfold countable in Hc.
    pose proof (i_total _ _ _ _ _ _ _ _ I). lia. }
  fold L1. rewrite Htree. unfold add_member.
  rewrite (fold_count (fun x : Z * ite_ptr => member_of w pset (read_entry s (TreeEntry x.2)))), Hmem; [done|].
  unfold L1. pose proof (length_omap (fun j => member_of w pset (tget (is_table s) j)) (indices 0 (is_table_size s))) as Hl1.
  unfold indices in Hl1 at 2. rewrite length_map, length_seq in Hl1. unfold countable in Hc.
  pose proof (i_total _ _ _ _ _ _ _ _ I). lia.
Qed.

(** What a splay of the tree does not change. *)
Lemma resplayed_members s s' w pset : resplayed s s' -> members s' w pset = members s w pset.
Proof.
  intros Hr. unfold members. assert (Hn : all_names s' = all_names s).
  { destruct Hr as (tree & -> & _ & Hl). unfold all_names. simpl. by rewrite Hl. }
  rewrite Hn. apply list_omap_ext, Forall_Forall2_diag, Forall_forall.
  intros x _. by rewrite (resplayed_read _ _ _ Hr).
Qed.

Lemma resplayed_trans s1 s2 s3 : resplayed s1 s2 -> resplayed s2 s3 -> resplayed s1 s3.
Proof.
  intros (t1 & -> & Hok1 & Hl1) (t2 & -> & Hok2 & Hl2). exists t2. split_and!; [done|done|]. by rewrite Hl2.
Qed.

Record listable (s : ipc_space) (w : world) : Prop := {
  li_inv : space_inv None s;
  li_active : is_active s = true;
  li_ports : ports_there s w;
  li_count : countable s
}.

Lemma resplayed_listable s s' w : listable s w -> resplayed s s' -> listable s' w.
Proof.
  intros [Hinv Hact Hports Hc] Hr. split.
  - by eapply resplayed_inv.
  - by destruct Hr as (tree & -> & _).
  - intros name r Hd. rewrite (resplayed_read _ _ _ Hr). apply (Hports name r). by apply (resplayed_denotes _ _ _ _ _ Hr).
  - by destruct Hr as (tree & -> & _).
Qed.

Section status.
Context (space : Z) (vm_allocate : Z -> bool) (Hvm : forall size, vm_allocate size = true).
Context (g : Global.ghash) (w : world) (name : Z) (r : entry_ref) (Hname : u32_range name).

Lemma lookup_entry_run s : listable s w -> denotes None s name r ->
  exists s1, resplayed s s1 /\
    ipc_right_lookup_write (H := space_names space) name ((s, g), w) =
      Some ((KERN_SUCCESS, Some r), ((s1, g), w)).
Proof.
  intros Hli Hden. destruct (entry_lookup_spec s name (li_inv _ _ Hli) Hname) as (tree & Heq & Hok & Hl & Hr).
  apply Hr in Hden as Hfound. exists (with_tree tree s). split; [by exists tree|].
  unfold ipc_right_lookup_write, mbind, M_bind, gets, of_space. simpl. rewrite (li_active _ _ Hli). simpl.
  destruct (ipc_entry_lookup s name) as [s1 res]. simpl in Heq, Hfound. by subst s1 res.
Qed.

(** One round: the names fit, or the call tries again with more memory. *)
Lemma set_status_round n s size :
  listable s w -> denotes None s name r ->
  IE_BITS_TYPE (ie_bits (read_entry s r)) = MACH_PORT_TYPE_PORT_SET -> 0 <= size ->
  let l := members s w (ie_object (read_entry s r)) in
  exists s', resplayed s s' /\
    set_status_loop space vm_allocate id (S n) name size ((s, g), w) =
      if Z.of_nat (length l) <=? size / sizeof_mach_port then Some ((KERN_SUCCESS, l), ((s', g), w))
      else set_status_loop space vm_allocate id n name
             (u32 (round_page (u32 (Z.of_nat (length l) * sizeof_mach_port)) + PAGE_SIZE)) ((s', g), w).
Proof.
  intros Hli Hden Htype Hsize l. destruct (lookup_entry_run s Hli Hden) as (s1 & Hrs & Hlook).
  cbn [set_status_loop]. rewrite Hvm. cbn [negb]. rewrite run_bind. unfold modify, id. unfold with_entry.
  unfold list_names. rewrite run_bind, Hlook, run_bind. unfold ie_read, gets. cbn [fst].
  change (ns_read (s1, g) r) with (read_entry s1 r). rewrite (resplayed_read _ _ _ Hrs), Htype, Z.eqb_refl. cbn [negb].
  pose proof (resplayed_listable _ _ _ Hli Hrs) as Hli1.
  destruct (members_snapshot_run s1 g w (ie_object (read_entry s r)) (size / sizeof_mach_port)) as (s2 & Hrs2 & Hrun);
    [apply (li_inv _ _ Hli1)|apply (li_ports _ _ Hli1)|apply (li_count _ _ Hli1)
    |apply Z.div_pos; [done|by unfold sizeof_mach_port]|].
  rewrite run_bind, Hrun, (resplayed_members _ _ _ _ Hrs). fold l. exists s2.
  split; [by eapply resplayed_trans|]. destruct (Z.leb_spec (Z.of_nat (length l)) (size / sizeof_mach_port)); [|done].
  by rewrite take_ge by lia.
Qed.

(** Two rounds are enough. *)
Lemma set_status_alone s :
  space <> IS_NULL -> listable s w -> denotes None s name r ->
  IE_BITS_TYPE (ie_bits (read_entry s r)) = MACH_PORT_TYPE_PORT_SET ->
  exists s', resplayed s s' /\
    mach_port_get_set_status space vm_allocate id 2 name ((s, g), w) =
      Some ((KERN_SUCCESS, members s w (ie_object (read_entry s r))), ((s', g), w)).
Proof.
  intros Hsp Hli Hden Htype. unfold mach_port_get_set_status. rewrite (proj2 (Z.eqb_neq _ _)) by done.
  destruct (set_status_round 1 s PAGE_SIZE Hli Hden Htype ltac:(done)) as (s1 & Hrs1 & ->).
  set (l := members s w _). destruct (Z.leb_spec (Z.of_nat (length l)) (PAGE_SIZE / sizeof_mach_port)); [by exists s1|].
  pose proof (members_length s w (ie_object (read_entry s r)) (li_inv _ _ Hli) (li_count _ _ Hli)) as Hlen. fold l in Hlen.
  set (size := u32 _). unfold sizeof_mach_port in *.
  assert (Hsz : Z.of_nat (length l) <= size / 4 /\ 0 <= size).
  { unfold size. rewrite (u32_id (_ * 4)) by (unfold u32_range; lia).
    pose proof (round_page_range (Z.of_nat (length l) * 4) ltac:(lia) ltac:(lia)). unfold PAGE_SIZE in *.
    rewrite u32_id by (unfold u32_range; lia). split; [|lia]. apply Z.div_le_lower_bound; lia. }
  destruct (set_status_round 0 s1 size (resplayed_listable _ _ _ Hli Hrs1)) as (s2 & Hrs2 & ->).
  - by apply (resplayed_denotes _ _ _ _ _ Hrs1).
  - by rewrite (resplayed_read _ _ _ Hrs1).
  - apply Hsz.
  - rewrite (resplayed_read _ _ _ Hrs1), (resplayed_members _ _ _ _ Hrs1). fold l. unfold sizeof_mach_port.
    rewrite (proj2 (Z.leb_le _ _)) by apply Hsz. exists s2. split; [by eapply resplayed_trans|done].
Qed.
End status.
End lists.
