(* ===== verification/Marequest.v ===== *)
(** * Message-accepted requests (ipc/ipc_marequest.c)

    A sender that forces a message into a full queue is told when the message
    has been accepted.  The request is linked in a hash table under the space
    and the name of the send right until the message is received; the bit
    IE_BITS_MAREQUEST of the entry says that there is one.

    [imars] is the memory of the requests and of the buckets; the chains are
    followed and changed through [imar_next].  [table_ok] relates this memory
    to a finite map from spaces and names to requests.  The routines on spaces
    that call [ipc_marequest_cancel], [ipc_marequest_rename] and
    [ipc_marequest_destroy] record the call as an event; [serve_request] runs
    it. *)

From S2P Require Import Prelude Names Splay Table Space Hash Entry World Port Right Object PortSpace.

Definition MACH_SEND_NOTIFY_IN_PROGRESS : Z := 0x10000006.
Definition MACH_SEND_INVALID_NOTIFY : Z := 0x1000000b.
Definition MACH_SEND_NO_NOTIFY : Z := 0x1000000e.

Record ipc_marequest := mk_imar {
  imar_space : Z;
  imar_name : Z;
  imar_soright : Z;
  imar_next : Z
}.

Definition set_imar_name (v : Z) (r : ipc_marequest) : ipc_marequest :=
  mk_imar (imar_space r) v (imar_soright r) (imar_next r).
Definition set_imar_next (v : Z) (r : ipc_marequest) : ipc_marequest :=
  mk_imar (imar_space r) (imar_name r) (imar_soright r) v.

Record imars := mk_imars {
  ma_mask : Z;                     (* [ipc_marequest_mask] *)
  ma_heads : list Z;               (* [imarb_head] of the buckets *)
  ma_mem : gmap Z ipc_marequest    (* by address *)
}.

(** ** The table *)

Section table.
Context `{PortConfig}.

Definition MACH_PORT_NGEN (name : Z) : Z := MACH_PORT_MAKE 0 (MACH_PORT_GEN name).

Definition IMAR_HASH (t : imars) (space name : Z) : Z :=
  Z.land (u32 (Z.shiftr space 4 + MACH_PORT_INDEX name + MACH_PORT_NGEN name)) (ma_mask t).

(** A place that holds a pointer to a request: the head of a bucket, or the
    link of a request. *)
Inductive place := Head (bucket : Z) | Next (marequest : Z).

Definition request_at (x : Z) : M imars ipc_marequest := fun t =>
  match ma_mem t !! x with Some r => Some (r, t) | None => None end.
Definition update_request (x : Z) (f : ipc_marequest -> ipc_marequest) : M imars unit := fun t =>
  match ma_mem t !! x with
  | Some r => Some (tt, mk_imars (ma_mask t) (ma_heads t) (<[x := f r]> (ma_mem t)))
  | None => None
  end.

Definition load (l : place) : M imars Z :=
  match l with
  | Head b => fun t => match ma_heads t !! Z.to_nat b with Some x => Some (x, t) | None => None end
  | Next x => r ← request_at x; mret (imar_next r)
  end.

Definition store (l : place) (v : Z) : M imars unit :=
  match l with
  | Head b => fun t =>
    if bool_decide (Z.to_nat b < length (ma_heads t))%nat
    then Some (tt, mk_imars (ma_mask t) (<[Z.to_nat b := v]> (ma_heads t)) (ma_mem t)) else None
  | Next x => update_request x (set_imar_next v)
  end.

(** The loop that finds a request: where the pointer to it is, and the
    request, [IMAR_NULL] at the end of the chain. *)
Fixpoint find_request (fuel : nat) (space name : Z) (last : place) : M imars (place * Z) :=
  match fuel with
  | O => crash
  | S fuel =>
    marequest ← load last;
    if marequest =? IMAR_NULL then mret (last, marequest)
    else
      r ← request_at marequest;
      if (imar_space r =? space) && (imar_name r =? name) then mret (last, marequest)
      else find_request fuel space name (Next marequest)
  end.

(** A chain has no more requests than there are. *)
Definition unlink_request (space name : Z) : M imars Z :=
  t ← gets id;
  '(last, marequest) ← find_request (S (size (ma_mem t))) space name (Head (IMAR_HASH t space name));
  r ← request_at marequest;
  store last (imar_next r);;
  mret marequest.

Definition link_request (space name marequest : Z) : M imars unit :=
  t ← gets id;
  let bucket := Head (IMAR_HASH t space name) in
  head ← load bucket;
  update_request marequest (set_imar_next head);;
  store bucket marequest.

Definition ipc_marequest_cancel (space name : Z) : M imars unit :=
  marequest ← unlink_request space name;
  update_request marequest (set_imar_name MACH_PORT_NULL).

Definition ipc_marequest_rename (space old new : Z) : M imars unit :=
  marequest ← unlink_request space old;
  update_request marequest (set_imar_name new);;
  link_request space new marequest.

(** [ipc_marequest_init]; [configured] is the size given at build time, 0 if
    none. *)
Definition ipc_marequest_init (configured ipc_marequest_max : Z) : imars :=
  let size :=
    if configured =? 0 then
      let n := Z.shiftr ipc_marequest_max 8 in if n <? 16 then 16 else n
    else configured in
  let mask := u32 (size - 1) in
  let mask := if negb (Z.land size mask =? 0) then Global.round_up 32 mask 1 else mask in
  mk_imars mask (replicate (Z.to_nat (mask + 1)) IMAR_NULL) ∅.

(** ** Requests and spaces *)

Section spaces.
Context {Sp : Type} `{NameSpace Sp}.
Context (addr is_notify : Z) (imar_alloc : gmap Z ipc_marequest -> option Z).

Abbreviation sys := ((Sp * world) * imars)%type.

Definition on_sys {A} (m : M (Sp * world) A) : M sys A := fun st =>
  match m st.1 with Some (x, s) => Some (x, (s, st.2)) | None => None end.
Definition on_imars {A} (m : M imars A) : M sys A := fun st =>
  match m st.2 with Some (x, t) => Some (x, (st.1, t)) | None => None end.

Definition imar_free (marequest : Z) : M imars unit :=
  modify (fun t => mk_imars (ma_mask t) (ma_heads t) (delete marequest (ma_mem t))).

(** The send-once right for the notification; [None] when the call fails. *)
Definition notify_right (notify : Z) : M sys (option Z) :=
  if notify =? MACH_PORT_NULL then mret (Some IP_NULL)
  else
    soright ← on_sys (ipc_port_lookup_notify notify);
    mret (if soright =? IP_NULL then None else Some soright).

Definition new_request (marequest name soright : Z) : M sys unit :=
  on_sys (on_world (emit SpaceReference));;
  on_imars (modify (fun t =>
    mk_imars (ma_mask t) (ma_heads t) (<[marequest := mk_imar addr name soright IMAR_NULL]> (ma_mem t)))).

Definition ipc_marequest_create (port notify : Z) : M sys (Z * Z) :=
  mem ← gets (fun st => ma_mem st.2);
  match imar_alloc mem with
  | None => mret (MACH_SEND_NO_NOTIFY, IMAR_NULL)
  | Some marequest =>
    active ← gets (fun st => ns_active st.1.1);
    if negb active then mret (MACH_SEND_INVALID_NOTIFY, IMAR_NULL)
    else
      reverse ← on_sys (ipc_right_reverse addr port);
      match reverse with
      | Some (name, entry) =>
        e ← on_sys (ie_read entry);
        let bits := ie_bits e in
        if has bits IE_BITS_MAREQUEST then mret (MACH_SEND_NOTIFY_IN_PROGRESS, IMAR_NULL)
        else
          soright ← notify_right notify;
          match soright with
          | None => mret (MACH_SEND_INVALID_NOTIFY, IMAR_NULL)
          | Some soright =>
            on_sys (ie_write entry (set_bits (Z.lor bits IE_BITS_MAREQUEST)));;
            new_request marequest name soright;;
            on_imars (link_request addr name marequest);;
            mret (MACH_MSG_SUCCESS, marequest)
          end
      | None =>
        soright ← notify_right notify;
        match soright with
        | None => mret (MACH_SEND_INVALID_NOTIFY, IMAR_NULL)
        | Some soright =>
          new_request marequest MACH_PORT_NULL soright;;
          mret (MACH_MSG_SUCCESS, marequest)
        end
      end
  end.

(** The part of [ipc_marequest_destroy] for a request that is linked: the name
    for the notification, and the send right for an old-style one. *)
Definition accept_name (marequest name soright : Z) : M sys (Z * Z) :=
  this ← on_imars (unlink_request addr name);
  active ← gets (fun st => ns_active st.1.1);
  if (active : bool) then
    entry ← on_sys (of_space (fun s => ns_lookup s name));
    match entry with
    | None => crash
    | Some entry =>
      on_sys (ie_write entry (fun e => set_bits (clear (ie_bits e) IE_BITS_MAREQUEST) e));;
      if soright =? IP_NULL then
        sright ← on_sys (on_world (ipc_port_copy_send is_notify)); mret (name, sright)
      else mret (name, IP_NULL)
    end
  else mret (MACH_PORT_NULL, IP_NULL).

Definition ipc_marequest_destroy (marequest : Z) : M sys unit :=
  r ← on_imars (request_at marequest);
  let soright := imar_soright r in
  '(name, sright) ← (if imar_name r =? MACH_PORT_NULL then mret (MACH_PORT_NULL, IP_NULL)
                     else accept_name marequest (imar_name r) soright);
  on_sys (on_world (emit SpaceRelease));;
  on_imars (imar_free marequest);;
  if soright =? IP_NULL then
    when (IP_VALID sright) (on_sys (on_world (emit (NotifyMsgAcceptedCompat sright name))))
  else on_sys (on_world (emit (NotifyMsgAccepted soright name))).

(** The calls that other routines record as events. *)
Definition serve_request (e : event) : M sys unit :=
  match e with
  | MarequestCancel name => on_imars (ipc_marequest_cancel addr name)
  | MarequestRename oname nname => on_imars (ipc_marequest_rename addr oname nname)
  | MarequestDestroy marequest => ipc_marequest_destroy marequest
  | _ => mret tt
  end.
End spaces.
End table.
