(* ===== verification/MarequestInv.v ===== *)
(** * The table of message-accepted requests

    The chains of the buckets hold exactly the requests of a finite map from
    spaces and names to requests, and the routines of ipc_marequest.c change
    the map as they should. *)

From S2P Require Import Prelude Names Splay Table Space Hash Entry EntryInv Alloc World Port PortInv Right RightBits.
From S2P Require Import RightLaws RightWp RightInv RightOps Object ObjectInv PortSpace Marequest.

(** ** Chains *)

(** The requests that are reached from the pointer [p], in order. *)
Fixpoint linked_from (mem : gmap Z ipc_marequest) (p : Z) (l : list Z) : Prop :=
  match l with
  | [] => p = IMAR_NULL
  | x :: l => p = x /\ x <> IMAR_NULL /\ exists r, mem !! x = Some r /\ linked_from mem (imar_next r) l
  end.

(** What a request says, without its place in the chain. *)
Definition request_key (r : ipc_marequest) : Z * Z * Z := (imar_space r, imar_name r, imar_soright r).

Definition same_keys (mem mem' : gmap Z ipc_marequest) : Prop :=
  forall x, request_key <$> mem' !! x = request_key <$> mem !! x.

#[export] Instance same_keys_preorder : PreOrder same_keys.
Proof. split; [done|]. intros m1 m2 m3 H12 H23 x. by rewrite H23. Qed.

Lemma same_keys_lookup mem mem' x r :
  same_keys mem mem' -> mem !! x = Some r -> exists r', mem' !! x = Some r' /\ request_key r' = request_key r.
Proof.
  intros Hs Hx. specialize (Hs x). rewrite Hx in Hs. simpl in Hs. destruct (mem' !! x) as [r'|]; [|done].
  injection Hs as Hs. exists r'. split; [done|]. unfold request_key. congruence.
Qed.

Lemma same_keys_insert mem x r v :
  mem !! x = Some r -> same_keys mem (<[x := set_imar_next v r]> mem).
Proof.
  intros Hx y. destruct (decide (y = x)) as [->|]; [by rewrite lookup_insert_eq, Hx|by rewrite lookup_insert_ne].
Qed.

Lemma linked_frame mem mem' l : forall p,
  (forall x, x ∈ l -> mem' !! x = mem !! x) -> linked_from mem p l -> linked_from mem' p l.
Proof.
  induction l as [|x l IH]; intros p Hm; [done|]. intros (-> & Hx & r & Hr & Hl). split_and!; [done..|].
  exists r. rewrite Hm by (by left). split; [done|]. apply IH; [|done]. intros y Hy. apply Hm. by right.
Qed.

(** Redirecting the link of a request. *)
Lemma linked_redirect mem y ry v l' : forall l1 l2 p,
  linked_from mem p (l1 ++ y :: l2) -> mem !! y = Some ry -> (y ∉ l1) -> (y ∉ l') -> linked_from mem v l' ->
  linked_from (<[y := set_imar_next v ry]> mem) p (l1 ++ y :: l').
Proof.
  induction l1 as [|z l1 IH]; intros l2 p Hl Hy Hn1 Hn' Hv; simpl in *.
  - destruct Hl as (-> & Hy0 & _). split_and!; [done..|]. eexists. rewrite lookup_insert_eq. split; [done|].
    simpl. apply (linked_frame mem); [|done]. intros x Hx. apply lookup_insert_ne. by intros ->.
  - destruct Hl as (-> & Hz0 & r & Hr & Hl). split_and!; [done..|]. exists r.
    rewrite lookup_insert_ne by (intros ->; apply Hn1; by left). split; [done|].
    eapply IH; [done..| |done|done]. intros Hin. apply Hn1. by right.
Qed.

Lemma linked_tail mem l1 : forall p l2 y r,
  linked_from mem p (l1 ++ y :: l2) -> mem !! y = Some r -> linked_from mem (imar_next r) l2.
Proof.
  induction l1 as [|z l1 IH]; intros p l2 y r Hl Hy; simpl in Hl.
  - destruct Hl as (_ & _ & r' & Hr' & Hl). by simplify_eq.
  - destruct Hl as (_ & _ & r' & _ & Hl). by eapply IH.
Qed.

Lemma linked_in mem l : forall p x, linked_from mem p l -> x ∈ l -> x <> IMAR_NULL /\ is_Some (mem !! x).
Proof.
  induction l as [|y l IH]; intros p x Hl Hx; [by apply elem_of_nil in Hx|]. destruct Hl as (_ & Hy & r & Hr & Hl).
  apply elem_of_cons in Hx as [->|Hx]; [by eauto|by eapply IH].
Qed.

Lemma linked_length mem p l : linked_from mem p l -> NoDup l -> (length l <= size mem)%nat.
Proof.
  intros Hl Hnd. rewrite <- size_dom, <- (size_list_to_set (C := gset Z)) by done. apply subseteq_size.
  intros x Hx%elem_of_list_to_set. apply elem_of_dom. by eapply linked_in.
Qed.

Lemma land_upper a m : 0 <= m -> Z.land a m <= m.
Proof.
  intros Hm. assert (Hz : Z.ldiff (Z.land a m) m = 0).
  { apply Z.bits_inj'. intros i Hi. rewrite Z.ldiff_spec, Z.land_spec, Z.bits_0. by destruct (Z.testbit a i), (Z.testbit m i). }
  pose proof (Z.sub_nocarry_ldiff m (Z.land a m) Hz). pose proof (Z.ldiff_nonneg m (Z.land a m)). lia.
Qed.

(** ** The table *)

Section table.
Context `{PortConfig}.
Implicit Types (t : imars) (F : gmap (Z * Z) Z).

Record table_ok t F : Prop := {
  tk_mask : 0 <= ma_mask t /\ Z.of_nat (length (ma_heads t)) = ma_mask t + 1;
  tk_chain b h : ma_heads t !! b = Some h -> exists l, linked_from (ma_mem t) h l /\ NoDup l /\
    forall x, x ∈ l <-> exists s n, F !! (s, n) = Some x /\ Z.to_nat (IMAR_HASH t s n) = b;
  tk_key s n x : F !! (s, n) = Some x -> exists r, ma_mem t !! x = Some r /\ imar_space r = s /\ imar_name r = n
}.

Lemma hash_bucket t F s n : table_ok t F -> is_Some (ma_heads t !! Z.to_nat (IMAR_HASH t s n)).
Proof.
  intros [[Hm Hlen] _ _]. apply lookup_lt_is_Some. unfold IMAR_HASH.
  pose proof (Z.land_nonneg (u32 (Z.shiftr s 4 + MACH_PORT_INDEX n + MACH_PORT_NGEN n)) (ma_mask t)) as [_ Hp].
  pose proof (land_upper (u32 (Z.shiftr s 4 + MACH_PORT_INDEX n + MACH_PORT_NGEN n)) (ma_mask t)). lia.
Qed.

(** Where [find_request] ends. *)
Definition place_after (last : place) (l : list Z) : place :=
  match list.last l with Some y => Next y | None => last end.

Lemma find_request_run s n x l2 t : forall l1 fuel last p,
  load last t = Some (p, t) -> linked_from (ma_mem t) p (l1 ++ x :: l2) ->
  (forall y r, y ∈ l1 -> ma_mem t !! y = Some r -> ~ (imar_space r = s /\ imar_name r = n)) ->
  (exists r, ma_mem t !! x = Some r /\ imar_space r = s /\ imar_name r = n) -> (length l1 < fuel)%nat ->
  find_request fuel s n last t = Some ((place_after last l1, x), t).
Proof.
  induction l1 as [|y l1 IH]; intros fuel last p Hp Hl Hne Hx Hf; (destruct fuel as [|fuel]; [simpl in Hf; lia|]);
    cbn [find_request]; rewrite run_bind, Hp.
  - destruct Hl as (-> & Hx0 & _). destruct Hx as (r & Hr & <- & <-).
    rewrite (proj2 (Z.eqb_neq _ _)), run_bind by done. unfold request_at. by rewrite Hr, !Z.eqb_refl.
  - destruct Hl as (-> & Hy0 & r & Hr & Hl). rewrite (proj2 (Z.eqb_neq _ _)), run_bind by done.
    unfold request_at. rewrite Hr.
    assert (Hno : (imar_space r =? s) && (imar_name r =? n) = false).
    { apply andb_false_iff. destruct (Z.eqb_spec (imar_space r) s), (Z.eqb_spec (imar_name r) n); auto.
      exfalso. eapply Hne; [by left|done|done]. }
    rewrite Hno. rewrite (IH fuel (Next y) (imar_next r)); try done.
    + unfold place_after. rewrite last_cons. by destruct (list.last l1).
    + simpl. unfold request_at, mbind, M_bind. by rewrite Hr.
    + intros z rz Hz. apply Hne. by right.
    + simpl in Hf. lia.
Qed.

Lemma hash_mask t t' s n : ma_mask t' = ma_mask t -> IMAR_HASH t' s n = IMAR_HASH t s n.
Proof. unfold IMAR_HASH. by intros ->. Qed.

(** Memory outside of the chains does not matter. *)
Lemma table_frame t F mem' :
  table_ok t F -> (forall k x, F !! k = Some x -> mem' !! x = ma_mem t !! x) ->
  table_ok (mk_imars (ma_mask t) (ma_heads t) mem') F.
Proof.
  intros [Hm Hc Hk] Hmem. split; simpl; [done| |].
  - intros b h Hb. destruct (Hc b h Hb) as (l & Hl & Hnd & Hx). exists l. split_and!; [|done|done].
    apply (linked_frame (ma_mem t)); [|done]. intros x (s & n & Hf & _)%Hx. by eapply Hmem.
  - intros s n x Hf. destruct (Hk s n x Hf) as (r & Hr & ?). exists r. by rewrite (Hmem _ _ Hf).
Qed.

(** The chain of a key. *)
Lemma key_chain t F s n :
  table_ok t F -> exists h l, ma_heads t !! Z.to_nat (IMAR_HASH t s n) = Some h /\
    linked_from (ma_mem t) h l /\ NoDup l /\
    forall x, x ∈ l <-> exists s' n', F !! (s', n') = Some x /\
      Z.to_nat (IMAR_HASH t s' n') = Z.to_nat (IMAR_HASH t s n).
Proof.
  intros Hok. destruct (hash_bucket t F s n Hok) as [h Hh]. destruct (tk_chain _ _ Hok _ _ Hh) as (l & ?).
  by exists h, l.
Qed.

Lemma key_unique t F k k' x : table_ok t F -> F !! k = Some x -> F !! k' = Some x -> k = k'.
Proof.
  destruct k as [s n], k' as [s' n']. intros Hok H1 H2.
  destruct (tk_key _ _ Hok _ _ _ H1) as (r & Hr & <- & <-). destruct (tk_key _ _ Hok _ _ _ H2) as (r' & Hr' & <- & <-).
  by simplify_eq.
Qed.

(** One bucket changes: its chain loses or gains a request. *)
Lemma table_update t F heads' mem' F' s n :
  table_ok t F -> length heads' = length (ma_heads t) ->
  (forall b, b <> Z.to_nat (IMAR_HASH t s n) -> heads' !! b = ma_heads t !! b) ->
  (exists h l, heads' !! Z.to_nat (IMAR_HASH t s n) = Some h /\ linked_from mem' h l /\ NoDup l /\
     forall x, x ∈ l <-> exists s' n', F' !! (s', n') = Some x /\
       Z.to_nat (IMAR_HASH t s' n') = Z.to_nat (IMAR_HASH t s n)) ->
  (forall k, k <> (s, n) -> F' !! k = F !! k) ->
  (forall s' n' x, Z.to_nat (IMAR_HASH t s' n') <> Z.to_nat (IMAR_HASH t s n) -> F !! (s', n') = Some x ->
     mem' !! x = ma_mem t !! x) ->
  (forall s' n' x, F' !! (s', n') = Some x -> exists r, mem' !! x = Some r /\ imar_space r = s' /\ imar_name r = n') ->
  table_ok (mk_imars (ma_mask t) heads' mem') F'.
Proof.
  intros [Hm Hc Hk] Hlen Hb Hnew HF Hmem Hk'. split; simpl.
  - by rewrite Hlen.
  - intros b h Hh. destruct (decide (b = Z.to_nat (IMAR_HASH t s n))) as [->|Hne].
    + destruct Hnew as (h' & l & Hh' & Hrest). rewrite Hh in Hh'. injection Hh' as <-. by exists l.
    + rewrite Hb in Hh by done. destruct (Hc b h Hh) as (l & Hl & Hnd & Hx). exists l. split_and!; [|done|].
      * apply (linked_frame (ma_mem t)); [|done]. intros x (s' & n' & Hf & Hbk)%Hx. eapply Hmem; [by rewrite Hbk|done].
      * intros x. rewrite Hx. split; intros (s' & n' & Hf & Hbk); exists s', n'; (split; [|done]).
        -- rewrite HF; [done|]. intros [= -> ->]. by apply Hne.
        -- rewrite HF in Hf; [done|]. intros [= -> ->]. by apply Hne.
  - exact Hk'.
Qed.

(** The requests of the bucket of [(s, n)]. *)
Definition bucket_of t F (s n : Z) (l : list Z) : Prop :=
  forall x, x ∈ l <-> exists s' n', F !! (s', n') = Some x /\
    Z.to_nat (IMAR_HASH t s' n') = Z.to_nat (IMAR_HASH t s n).

Lemma bucket_without t F s n x l1 l2 :
  table_ok t F -> F !! (s, n) = Some x -> NoDup (l1 ++ x :: l2) -> bucket_of t F s n (l1 ++ x :: l2) ->
  NoDup (l1 ++ l2) /\ bucket_of t (delete (s, n) F) s n (l1 ++ l2).
Proof.
  intros Hok Hx (Hnd1 & Hdisj & (Hx2 & Hnd2)%NoDup_cons)%NoDup_app Hin.
  split; [apply NoDup_app; split_and!; [done|set_solver|done]|]. intros y. split.
  - intros Hy. assert (Hy' : y ∈ l1 ++ x :: l2) by set_solver. apply Hin in Hy' as (s' & n' & Hf & Hbk).
    exists s', n'. split; [|done]. rewrite lookup_delete_ne; [done|]. intros [= -> ->].
    rewrite Hf in Hx. injection Hx as ->. set_solver.
  - intros (s' & n' & [Hne Hf]%lookup_delete_Some & Hbk).
    assert (Hy : y ∈ l1 ++ x :: l2) by (apply Hin; by exists s', n').
    assert (y <> x) by (intros ->; apply Hne; by eapply key_unique). set_solver.
Qed.

Lemma find_in_bucket t F s n x h l1 l2 :
  table_ok t F -> F !! (s, n) = Some x -> ma_heads t !! Z.to_nat (IMAR_HASH t s n) = Some h ->
  linked_from (ma_mem t) h (l1 ++ x :: l2) -> NoDup (l1 ++ x :: l2) -> bucket_of t F s n (l1 ++ x :: l2) ->
  find_request (S (size (ma_mem t))) s n (Head (IMAR_HASH t s n)) t =
    Some ((place_after (Head (IMAR_HASH t s n)) l1, x), t).
Proof.
  intros Hok Hx Hh Hl Hnd Hin. eapply (find_request_run s n x l2 t l1 _ _ h); [by simpl; rewrite Hh|done| | |].
  - intros y r Hy Hr [<- <-]. assert (Hyl : y ∈ l1 ++ x :: l2) by (apply elem_of_app; by left).
    apply Hin in Hyl as (s' & n' & Hf & _). destruct (tk_key _ _ Hok _ _ _ Hf) as (r' & Hr' & <- & <-).
    rewrite Hr in Hr'. injection Hr' as <-. rewrite Hf in Hx. injection Hx as ->.
    apply NoDup_app in Hnd as (_ & Hd & _). apply (Hd x Hy). by left.
  - by apply (tk_key _ _ Hok).
  - pose proof (linked_length _ _ _ Hl Hnd) as Hlen. rewrite length_app in Hlen. simpl in Hlen. lia.
Qed.

(** Keys survive a change of links. *)
Lemma keys_same t F mem' s n x :
  table_ok t F -> same_keys (ma_mem t) mem' -> F !! (s, n) = Some x ->
  exists r, mem' !! x = Some r /\ imar_space r = s /\ imar_name r = n.
Proof.
  intros Hok Hs Hf. destruct (tk_key _ _ Hok _ _ _ Hf) as (r & Hr & Hk1 & Hk2).
  destruct (same_keys_lookup _ _ x r Hs Hr) as (r' & Hr' & Hkey). exists r'. by injection Hkey as -> -> _.
Qed.

Lemma elem_of_snoc_app (l0 l : list Z) y : y ∈ (l0 ++ [y]) ++ l.
Proof. apply elem_of_app. left. apply elem_of_app. right. by left. Qed.

(** Storing the link of the request after [l1] takes the request out. *)
Lemma store_after t F s n x rx h l1 l2 :
  table_ok t F -> F !! (s, n) = Some x -> ma_mem t !! x = Some rx ->
  ma_heads t !! Z.to_nat (IMAR_HASH t s n) = Some h ->
  linked_from (ma_mem t) h (l1 ++ x :: l2) -> NoDup (l1 ++ x :: l2) -> bucket_of t F s n (l1 ++ x :: l2) ->
  exists t', store (place_after (Head (IMAR_HASH t s n)) l1) (imar_next rx) t = Some (tt, t') /\
    table_ok t' (delete (s, n) F) /\ same_keys (ma_mem t) (ma_mem t') /\ ma_mask t' = ma_mask t.
Proof.
  intros Hok Hx Hrx Hh Hl Hnd Hin. destruct (bucket_without t F s n x l1 l2 Hok Hx Hnd Hin) as [Hnd' Hin'].
  pose proof (linked_tail _ l1 _ _ _ _ Hl Hrx) as Htail. pose proof (lookup_lt_Some _ _ _ Hh) as Hlt.
  assert (HF : forall k, k <> (s, n) -> delete (s, n) F !! k = F !! k) by (intros k Hk; by rewrite lookup_delete_ne).
  destruct (list.last l1) as [y|] eqn:Hlast.
  - apply last_Some in Hlast as [l0 ->]. unfold place_after. rewrite last_snoc. simpl. unfold update_request.
    destruct (linked_in _ _ _ y Hl (elem_of_snoc_app l0 (x :: l2) y)) as [_ [ry Hry]]. rewrite Hry.
    pose proof (same_keys_insert _ y ry (imar_next rx) Hry) as Hsame. eexists. split; [done|]. split_and!; [|done|done].
    eapply (table_update t F _ _ _ s n); [done..|exists h, ((l0 ++ [y]) ++ l2); split_and!; [done| |done|done]|done| |].
    + rewrite <- app_assoc in *. simpl in *. apply NoDup_app in Hnd as (_ & Hd & [Hy2 _]%NoDup_cons).
      eapply linked_redirect; [done|done| | |done].
      * intros Hy0. apply (Hd y Hy0). by left.
      * intros Hy0. apply Hy2. by right.
    + intros s' n' z Hbk Hf. apply lookup_insert_ne. intros ->.
      pose proof (elem_of_snoc_app l0 (x :: l2) z) as Hyl. apply Hin in Hyl as (s2 & n2 & Hf2 & Hb2).
      apply Hbk. rewrite <- Hb2. by injection (key_unique _ _ _ _ _ Hok Hf Hf2) as -> ->.
    + intros s' n' z [_ Hf]%lookup_delete_Some. by eapply keys_same.
  - apply last_None in Hlast as ->. simpl. rewrite bool_decide_eq_true_2 by done. eexists. split; [done|]. split_and!; [|done|done].
    eapply (table_update t F _ _ _ s n); [done|by rewrite length_insert| |exists (imar_next rx), l2|done|done|].
    + intros b Hb. by rewrite list_lookup_insert_ne.
    + by rewrite list_lookup_insert_eq.
    + intros s' n' z [_ Hf]%lookup_delete_Some. by apply (tk_key _ _ Hok).
Qed.

(** [unlink_request] takes the request of a key out of the table. *)
Lemma unlink_spec t F s n x :
  table_ok t F -> F !! (s, n) = Some x ->
  exists t', unlink_request s n t = Some (x, t') /\ table_ok t' (delete (s, n) F) /\
    same_keys (ma_mem t) (ma_mem t') /\ ma_mask t' = ma_mask t.
Proof.
  intros Hok Hx. destruct (key_chain t F s n Hok) as (h & l & Hh & Hl & Hnd & Hin).
  assert (Hxl : x ∈ l) by (apply Hin; by exists s, n). apply list_elem_of_split in Hxl as (l1 & l2 & ->).
  destruct (tk_key _ _ Hok _ _ _ Hx) as (rx & Hrx & _).
  destruct (store_after t F s n x rx h l1 l2) as (t' & Hst & Hrest); [done..|].
  exists t'. split; [|done]. unfold unlink_request. rewrite !run_bind. unfold gets, id.
  rewrite run_bind, (find_in_bucket t F s n x h l1 l2) by done. rewrite run_bind. unfold request_at. rewrite Hrx.
  by rewrite run_bind, Hst.
Qed.

(** [link_request] adds a request under its key. *)
Lemma link_spec t F s n x r :
  table_ok t F -> F !! (s, n) = None -> x <> IMAR_NULL -> ma_mem t !! x = Some r ->
  imar_space r = s -> imar_name r = n -> (forall k, F !! k <> Some x) ->
  exists t', link_request s n x t = Some (tt, t') /\ table_ok t' (<[(s, n) := x]> F) /\
    same_keys (ma_mem t) (ma_mem t') /\ ma_mask t' = ma_mask t.
Proof.
  intros Hok Hnone Hx0 Hr Hs Hn Hfresh. destruct (key_chain t F s n Hok) as (h & l & Hh & Hl & Hnd & Hin).
  pose proof (lookup_lt_Some _ _ _ Hh) as Hlt. pose proof (same_keys_insert _ x r h Hr) as Hsame.
  assert (Hxl : x ∉ l) by (intros (s' & n' & Hf & _)%Hin; by apply (Hfresh (s', n'))).
  exists (mk_imars (ma_mask t) (<[Z.to_nat (IMAR_HASH t s n) := x]> (ma_heads t)) (<[x := set_imar_next h r]> (ma_mem t))).
  split_and!; [|eapply (table_update t F _ _ _ s n); [done|by rewrite length_insert| |exists x, (x :: l)| | |]|done|done].
  - unfold link_request. rewrite run_bind. unfold gets, id. rewrite run_bind. simpl. rewrite Hh, run_bind.
    unfold update_request. rewrite Hr. simpl. by rewrite bool_decide_eq_true_2.
  - intros b Hb. by rewrite list_lookup_insert_ne.
  - rewrite list_lookup_insert_eq by done. split_and!; [done| |by constructor|].
    + simpl. split_and!; [done..|]. eexists. rewrite lookup_insert_eq. split; [done|].
      apply (linked_frame (ma_mem t)); [|done]. intros y Hy. apply lookup_insert_ne. by intros ->.
    + intros y. rewrite elem_of_cons, Hin. split.
      * intros [->|(s' & n' & Hf & Hbk)]; [exists s, n; by rewrite lookup_insert_eq|].
        exists s', n'. split; [|done]. rewrite lookup_insert_ne; [done|]. congruence.
      * intros (s' & n' & [[_ ->]|[_ Hf]]%lookup_insert_Some & Hbk); [by left|right; by exists s', n'].
  - intros k Hk. by rewrite lookup_insert_ne.
  - intros s' n' y _ Hf. apply lookup_insert_ne. intros ->. by apply (Hfresh (s', n')).
  - intros s' n' y [[[= <- <-] <-]|[_ Hf]]%lookup_insert_Some; [|by eapply keys_same].
    exists (set_imar_next h r). by rewrite lookup_insert_eq.
Qed.

(** The request [x] has a new name, the others say what they said. *)
Definition renamed (mem mem' : gmap Z ipc_marequest) (x name : Z) : Prop :=
  forall y, request_key <$> mem' !! y =
    (fun r => if y =? x then (imar_space r, name, imar_soright r) else request_key r) <$> mem !! y.

Lemma same_renamed mem mem' x r n :
  same_keys mem mem' -> mem' !! x = Some r -> renamed mem (<[x := set_imar_name n r]> mem') x n.
Proof.
  intros Hs Hx y. pose proof (Hs y) as Hy. destruct (Z.eqb_spec y x) as [->|Hne].
  - rewrite lookup_insert_eq. rewrite Hx in Hy. destruct (mem !! x) as [r0|]; simpl in *; [|done].
    injection Hy as H1 H2 H3. unfold request_key. simpl. by rewrite H1, H3.
  - by rewrite lookup_insert_ne.
Qed.

Lemma cancel_spec t F s n x :
  table_ok t F -> F !! (s, n) = Some x ->
  exists t', ipc_marequest_cancel s n t = Some (tt, t') /\ table_ok t' (delete (s, n) F) /\
    renamed (ma_mem t) (ma_mem t') x MACH_PORT_NULL /\ ma_mask t' = ma_mask t.
Proof.
  intros Hok Hx. destruct (unlink_spec t F s n x Hok Hx) as (t1 & Hrun & Hok1 & Hs & Hm).
  destruct (keys_same t F (ma_mem t1) s n x Hok Hs Hx) as (r & Hr & _).
  unfold ipc_marequest_cancel. rewrite run_bind, Hrun. unfold update_request. rewrite Hr. eexists. split; [done|].
  split_and!; [|by apply same_renamed|done]. apply table_frame; [done|].
  intros k y [Hne Hk]%lookup_delete_Some. apply lookup_insert_ne. intros ->. apply Hne. exact (key_unique _ _ _ _ _ Hok Hx Hk).
Qed.

Lemma renamed_same mem m1 m2 x n : renamed mem m1 x n -> same_keys m1 m2 -> renamed mem m2 x n.
Proof. intros Hr Hs y. by rewrite Hs. Qed.

Lemma rename_spec t F s old new x :
  table_ok t F -> F !! (s, old) = Some x -> F !! (s, new) = None -> x <> IMAR_NULL ->
  exists t', ipc_marequest_rename s old new t = Some (tt, t') /\
    table_ok t' (<[(s, new) := x]> (delete (s, old) F)) /\ renamed (ma_mem t) (ma_mem t') x new /\ ma_mask t' = ma_mask t.
Proof.
  intros Hok Hx Hnew Hx0. destruct (unlink_spec t F s old x Hok Hx) as (t1 & Hrun & Hok1 & Hs & Hm).
  destruct (keys_same t F (ma_mem t1) s old x Hok Hs Hx) as (r & Hr & Hrs & _).
  unfold ipc_marequest_rename. rewrite run_bind, Hrun, run_bind. unfold update_request. rewrite Hr.
  set (t2 := mk_imars (ma_mask t1) (ma_heads t1) (<[x := set_imar_name new r]> (ma_mem t1))).
  assert (Hfresh : forall k, delete (s, old) F !! k <> Some x).
  { intros k [Hne Hk]%lookup_delete_Some. apply Hne. exact (key_unique _ _ _ _ _ Hok Hx Hk). }
  destruct (link_spec t2 (delete (s, old) F) s new x (set_imar_name new r)) as (t3 & Hrun3 & Hok3 & Hs3 & Hm3); try done.
  - apply table_frame; [done|]. intros k y Hk. apply lookup_insert_ne. intros ->. by apply (Hfresh k).
  - apply lookup_delete_None. auto.
  - apply lookup_insert_eq.
  - exists t3. split_and!; [done|done| |by rewrite Hm3]. eapply renamed_same; [|done]. by apply same_renamed.
Qed.

(** An empty table. *)
Lemma no_requests_ok mask :
  0 <= mask -> table_ok (mk_imars mask (replicate (Z.to_nat (mask + 1)) IMAR_NULL) ∅) ∅.
Proof.
  intros Hm. split; simpl; [rewrite length_replicate; lia| |].
  - intros b h [-> _]%lookup_replicate. exists []. split_and!; [done|constructor|]. intros x. split; [by intros ?%elem_of_nil|].
    intros (s & n & Hf & _). by rewrite lookup_empty in Hf.
  - intros s n x Hf. by rewrite lookup_empty in Hf.
Qed.

Lemma round_up_nonneg fuel : forall mask bit, 0 <= mask -> 0 <= bit -> 0 <= Global.round_up fuel mask bit.
Proof.
  induction fuel as [|fuel IH]; intros mask bit Hm Hb; simpl; [done|].
  assert (0 <= Z.lor mask bit) by (by apply Z.lor_nonneg). destruct (_ =? 0); [done|].
  apply IH; [done|]. apply u32_in_range.
Qed.

Lemma init_spec configured max : table_ok (ipc_marequest_init configured max) ∅.
Proof.
  apply no_requests_ok. destruct (negb _); [apply round_up_nonneg|]; try (by apply u32_in_range); lia.
Qed.
End table.

(** ** Requests and entries *)

Lemma mark_request b t u co :
  described b t u false co -> becomes b (Z.lor b IE_BITS_MAREQUEST) t u true co.
Proof.
  intros Hd. pose proof (lor_bits b IE_BITS_MAREQUEST t u false co Hd ltac:(done)) as Hb.
  change (IE_BITS_TYPE IE_BITS_MAREQUEST) with 0 in Hb. change (IE_BITS_UREFS IE_BITS_MAREQUEST) with 0 in Hb.
  rewrite !Z.lor_0_r in Hb. by rewrite orb_false_r in Hb.
Qed.

Lemma unmark_request b t u ma co :
  described b t u ma co -> becomes b (clear b IE_BITS_MAREQUEST) t u false co.
Proof.
  intros Hd. pose proof (clear_bits b IE_BITS_MAREQUEST t u ma co Hd ltac:(done)) as Hb.
  destruct Hd as [_ Ht Hu _ _]. replace (Z.ldiff t IE_BITS_MAREQUEST) with t in Hb; cycle 1.
  { rewrite <- Ht. unfold IE_BITS_TYPE. rewrite <- land_ldiff. apply Z.bits_inj'. intros i Hi.
    rewrite !Z.land_spec, Z.ldiff_spec. destruct (Z.testbit b i); [|done]. simpl.
    change IE_BITS_MAREQUEST with (2 ^ 21). rewrite Z.pow2_bits_eqb by done.
    destruct (Z.eqb_spec 21 i) as [<-|]; [by vm_compute|done]. }
  rewrite <- Hu in Hb at 1. rewrite ldiff_high, Hu in Hb by done. by rewrite andb_false_r, andb_true_r in Hb.
Qed.

Section spaces.
Context {Sp : Type} `{!NameSpace Sp, !NameSpaceLaws Sp} `{PortConfig}.
Context (addr is_notify : Z) (imar_alloc : gmap Z ipc_marequest -> option Z).
Implicit Types (s : Sp) (w : world) (t : imars) (F : gmap (Z * Z) Z).

Lemma run_on_sys {A} (m : M (Sp * world) A) s w t x s' w' :
  m (s, w) = Some (x, (s', w')) -> on_sys m ((s, w), t) = Some (x, ((s', w'), t)).
Proof. intros Hm. unfold on_sys. simpl. by rewrite Hm. Qed.

Lemma run_on_imars {A} (m : M imars A) (sw : Sp * world) t x t' :
  m t = Some (x, t') -> on_imars m (sw, t) = Some (x, (sw, t')).
Proof. intros Hm. unfold on_imars. simpl. by rewrite Hm. Qed.

(** The send-once right of a new request. *)
Definition with_sonce (p : ipc_port) : ipc_port :=
  set_ip_sorights (u32 (ip_sorights p + 1)) (set_ip_references (u32 (ip_references p + 1)) p).

(** [notify] names a receive right, for which a send-once right is made. *)
Definition notify_named s w (notify soright : Z) w' : Prop :=
  notify <> MACH_PORT_NULL /\ u32_range notify /\ soright <> IP_NULL /\
  exists p ty u ma co q, named s notify ty u ma co soright q /\ has ty MACH_PORT_TYPE_RECEIVE = true /\
    w_ports w !! soright = Some p /\ w' = put_port soright (with_sonce p) w.

Lemma notify_right_run s w t notify soright w' :
  ns_ok None s -> notify_named s w notify soright w' ->
  exists s', notify_right notify ((s, w), t) = Some (Some soright, ((s', w'), t)) /\ ns_preserved None s s'.
Proof.
  intros Hok (Hn0 & Hn & Hso & p & ty & u & ma & co & q & Hnamed & Hrcv & Hp & ->).
  destruct (named_held _ _ _ _ _ _ _ _ Hok Hnamed) as (r & b & Hh). destruct Hnamed as [_ Hwf].
  destruct (wf_type _ _ _ _ _ _ Hwf) as [_ Ht0].
  assert (Hhole : hole_of notify ty = None) by (unfold hole_of; by rewrite (proj2 (Z.eqb_neq _ _))).
  destruct (ns_lookup_law s notify Hok Hn) as [Hpres Hfind].
  assert (Hr : (ns_lookup s notify).2 = Some r) by (apply Hfind; rewrite <- Hhole; apply Hh).
  pose proof (preserved_held _ _ _ _ _ (ns_lookup s notify).1 _ _ _ _ _ _ _ Hh ltac:(by rewrite Hhole)) as Hh'.
  exists (ns_lookup s notify).1. split; [|done]. unfold notify_right. rewrite (proj2 (Z.eqb_neq _ _)) by done.
  rewrite run_bind. erewrite run_on_sys; [by rewrite (proj2 (Z.eqb_neq soright IP_NULL))|].
  unfold ipc_port_lookup_notify. rewrite run_bind. unfold of_space. cbn [fst snd].
  destruct (ns_lookup s notify) as [s' res]. simpl in Hr, Hh'. subst res. rewrite run_bind.
  destruct (h_read _ _ _ _ _ _ _ _ _ _ _ _ Hh') as [i Hi]. unfold ie_read, gets. cbn [fst]. rewrite Hi. cbn [ie_bits ie_object].
  rewrite has_type, (b_type _ _ _ _ _ (h_desc _ _ _ _ _ _ _ _ _ _ _ _ Hh')), Hrcv by done. cbn [negb].
  rewrite run_bind. unfold on_world. cbn [fst snd]. unfold ip_reference.
  rewrite (update_port_run _ _ _ _ Hp). rewrite run_bind. cbn [fst snd].
  erewrite update_port_run by apply put_port_lookup. by rewrite put_port_put.
Qed.

Lemma reverse_run s w port p name r s1 :
  w_ports w !! port = Some p -> ip_active p = true -> known_as addr s port MACH_MSG_TYPE_PORT_SEND p name r s1 ->
  ipc_right_reverse addr port (s, w) = Some (Some (name, r), (s1, w)).
Proof.
  intros Hp Hact Hk.
  destruct (wp_returns _ _ _ (wp_known_as addr s w port MACH_MSG_TYPE_PORT_SEND p name r s1
    (fun x st => x = Some (name, r) /\ st = (s1, w)) Hp Hact Hk ltac:(done))) as (x & st & Hrun & -> & ->). done.
Qed.

Lemma known_preserved s port p name r s1 :
  ns_ok None s -> u32_range name -> known_as addr s port MACH_MSG_TYPE_PORT_SEND p name r s1 -> ns_preserved None s s1.
Proof.
  intros Hok Hname [_ [(_ & _ & Hl)|[_ Hl]]].
  - pose proof (ns_lookup_law s name Hok Hname) as [Hp _]. by rewrite Hl in Hp.
  - pose proof (ns_hash_lookup_law None s port Hok) as Hp. by rewrite Hl in Hp.
Qed.

(** The entry of a live right, seen in a space that looks the same. *)
Lemma live_held s w name port p ty u q ma co r :
  live_right s w name port p ty u q ma co -> ns_denotes None s name r ->
  exists b, held None s name r s b port q ty u ma co.
Proof.
  intros Hl Hd. pose proof (lr_ok _ _ _ _ _ _ _ _ _ _ Hl) as Hok.
  destruct (named_held _ _ _ _ _ _ _ _ Hok (lr_right _ _ _ _ _ _ _ _ _ _ Hl)) as (r' & b & Hh). exists b.
  destruct (wf_type _ _ _ _ _ _ (proj2 (lr_right _ _ _ _ _ _ _ _ _ _ Hl))) as [_ Ht].
  pose proof (h_den _ _ _ _ _ _ _ _ _ _ _ _ Hh) as Hd'. unfold hole_of in Hd'.
  rewrite (proj2 (Z.eqb_neq _ _)) in Hd' by done. by rewrite <- (ns_unique _ _ _ _ _ Hok Hd' Hd).
Qed.

Lemma typed_hole ty name : ty <> 0 -> hole_of name ty = None.
Proof. intros Ht. unfold hole_of. by rewrite (proj2 (Z.eqb_neq _ _)). Qed.

Lemma held_steps s name r s1 s2 b o q ty u ma co :
  held None s name r s1 b o q ty u ma co -> ty <> 0 -> ns_preserved None s1 s2 ->
  held None s name r s2 b o q ty u ma co.
Proof. intros Hh Ht Hp. eapply preserved_held; [done|]. by rewrite typed_hole. Qed.

Lemma notify_preserved s s1 w notify soright w' :
  ns_preserved None s s1 -> notify_named s w notify soright w' -> notify_named s1 w notify soright w'.
Proof.
  intros Hp (H1 & H2 & H3 & p & ty & u & ma & co & q & [Hm Hwf] & Hrest). split_and!; try done.
  exists p, ty, u, ma, co, q. split; [|done]. split; [|done]. by apply (preserved_unchanged _ _ Hp).
Qed.

Lemma mark_run s name r s1 w b o q ty u co :
  held None s name r s1 b o q ty u false co ->
  exists s', ie_write r (set_bits (Z.lor b IE_BITS_MAREQUEST)) (s1, w) = Some (tt, (s', w)) /\
    held None s name r s' (Z.lor b IE_BITS_MAREQUEST) o q ty u true co.
Proof.
  intros Hh. pose proof (mark_request _ _ _ _ (h_desc _ _ _ _ _ _ _ _ _ _ _ _ Hh)) as Hb.
  destruct (wp_returns _ _ _ (wp_write _ _ _ _ _ w _ _ _ _ _ _ _ (set_bits (Z.lor b IE_BITS_MAREQUEST))
    (Z.lor b IE_BITS_MAREQUEST) o q ty u true co (fun _ st => st.2 = w /\
      held None s name r st.1 (Z.lor b IE_BITS_MAREQUEST) o q ty u true co) Hh ltac:(entry_eq) Hb ltac:(done)))
    as ([] & [s' w'] & Hwr & Hw & Hh'). simpl in Hw. subst w'. eauto.
Qed.

(** The memory with the new request, not yet linked. *)
Definition with_request (x name soright : Z) (t : imars) : imars :=
  mk_imars (ma_mask t) (ma_heads t) (<[x := mk_imar addr name soright IMAR_NULL]> (ma_mem t)).

Lemma request_out t F x k : table_ok t F -> ma_mem t !! x = None -> F !! k <> Some x.
Proof.
  destruct k as [s n]. intros Hok Hfree Hf. destruct (tk_key _ _ Hok _ _ _ Hf) as (rq & Hrq & _). by rewrite Hfree in Hrq.
Qed.

Lemma link_new t F x name soright :
  table_ok t F -> F !! (addr, name) = None -> ma_mem t !! x = None -> x <> IMAR_NULL ->
  exists t' rq, link_request addr name x (with_request x name soright t) = Some (tt, t') /\
    table_ok t' (<[(addr, name) := x]> F) /\ ma_mem t' !! x = Some rq /\ request_key rq = (addr, name, soright).
Proof.
  intros Hok HF Hfree Hx0. assert (Hok1 : table_ok (with_request x name soright t) F).
  { apply table_frame; [done|]. intros k y Hf. apply lookup_insert_ne. intros ->. by apply (request_out t F y k). }
  destruct (link_spec _ F addr name x (mk_imar addr name soright IMAR_NULL) Hok1 HF Hx0 ltac:(apply lookup_insert_eq)
    eq_refl eq_refl) as (t2 & Hlink & Hok2 & Hs2 & _); [intros k; by apply (request_out t)|].
  destruct (same_keys_lookup _ _ x (mk_imar addr name soright IMAR_NULL) Hs2 ltac:(apply lookup_insert_eq))
    as (rq & Hrq & Hkey). by exists t2, rq.
Qed.

(** A request is made for the right under [name]. *)
Lemma create_run s w t F name port p ty u q co r s1 notify soright w1 x :
  live_right s w name port p ty u q false co -> ns_denotes None s name r ->
  known_as addr s port MACH_MSG_TYPE_PORT_SEND p name r s1 -> notify_named s w notify soright w1 ->
  table_ok t F -> F !! (addr, name) = None -> imar_alloc (ma_mem t) = Some x -> ma_mem t !! x = None -> x <> IMAR_NULL ->
  exists s' b t' rq, ipc_marequest_create addr imar_alloc port notify ((s, w), t) =
      Some ((MACH_MSG_SUCCESS, x), ((s', emitted [SpaceReference] w1), t')) /\
    held None s name r s' b port q ty u true co /\ table_ok t' (<[(addr, name) := x]> F) /\
    ma_mem t' !! x = Some rq /\ request_key rq = (addr, name, soright).
Proof.
  intros Hl Hd Hk Hn Hok HF Hal Hfree Hx0. destruct (live_held _ _ _ _ _ _ _ _ _ _ _ Hl Hd) as [b Hh].
  pose proof Hl as [Hso Hact Hname [_ Hwf] _ Hp Halive _ _]. destruct (wf_type _ _ _ _ _ _ Hwf) as [_ Ht].
  pose proof (known_preserved s port p name r s1 Hso Hname Hk) as Hpres.
  pose proof (held_steps _ _ _ _ _ _ _ _ _ _ _ _ Hh Ht Hpres) as Hh1.
  destruct (notify_right_run s1 w t notify soright w1 (proj1 Hpres) (notify_preserved _ _ _ _ _ _ Hpres Hn)) as (s2 & Hnr & Hpres2).
  pose proof (held_steps _ _ _ _ _ _ _ _ _ _ _ _ Hh1 Ht Hpres2) as Hh2.
  destruct (h_read _ _ _ _ _ _ _ _ _ _ _ _ Hh1) as [i Hi]. pose proof (h_desc _ _ _ _ _ _ _ _ _ _ _ _ Hh1) as Hdesc.
  destruct (mark_run s name r s2 w1 b port q ty u co Hh2) as (s3 & Hwr & Hh3).
  destruct (link_new t F x name soright Hok HF Hfree Hx0) as (t2 & rq & Hlink & Hok2 & Hrq & Hkey).
  exists s3, (Z.lor b IE_BITS_MAREQUEST), t2, rq. split_and!; try done.
  unfold ipc_marequest_create. rewrite run_bind. unfold gets. cbn [snd]. rewrite Hal, run_bind. cbn [fst]. rewrite Hact. cbn [negb].
  rewrite run_bind, (run_on_sys _ _ _ _ _ _ _ (reverse_run _ _ _ _ _ _ _ Hp Halive Hk)), run_bind.
  unfold on_sys at 1, ie_read, gets. cbn [fst snd]. rewrite Hi. cbn [ie_bits].
  rewrite (b_ma _ _ _ _ _ Hdesc), run_bind, Hnr, run_bind, (run_on_sys _ _ _ _ _ _ _ Hwr), run_bind.
  unfold new_request. rewrite run_bind. change (on_sys (on_world (emit SpaceReference)) (s3, w1, t)) with
    (Some (tt, ((s3, emitted [SpaceReference] w1), t))). cbn beta iota.
  change (on_imars _ (s3, emitted [SpaceReference] w1, t)) with (Some (tt, ((s3, emitted [SpaceReference] w1), with_request x name soright t))).
  cbn beta iota. by rewrite run_bind, (run_on_imars _ _ _ _ _ Hlink).
Qed.

(** A second request for the same right is refused. *)
Lemma create_refused s w t name port p r s1 s0 b q ty u co notify x :
  w_ports w !! port = Some p -> ip_active p = true -> ns_active s = true -> u32_range name ->
  held None s0 name r s b port q ty u true co -> ty <> 0 ->
  known_as addr s port MACH_MSG_TYPE_PORT_SEND p name r s1 -> imar_alloc (ma_mem t) = Some x ->
  ipc_marequest_create addr imar_alloc port notify ((s, w), t) =
    Some ((MACH_SEND_NOTIFY_IN_PROGRESS, IMAR_NULL), ((s1, w), t)).
Proof.
  intros Hp Halive Hact Hname Hh Ht Hk Hal. pose proof (h_ok _ _ _ _ _ _ _ _ _ _ _ _ Hh) as Hok.
  rewrite typed_hole in Hok by done.
  pose proof (held_steps _ _ _ _ _ _ _ _ _ _ _ _ Hh Ht (known_preserved s port p name r s1 Hok Hname Hk)) as Hh1.
  destruct (h_read _ _ _ _ _ _ _ _ _ _ _ _ Hh1) as [i Hi].
  unfold ipc_marequest_create. rewrite run_bind. unfold gets. cbn [snd]. rewrite Hal, run_bind. cbn [fst]. rewrite Hact. cbn [negb].
  rewrite run_bind, (run_on_sys _ _ _ _ _ _ _ (reverse_run _ _ _ _ _ _ _ Hp Halive Hk)), run_bind.
  unfold on_sys at 1, ie_read, gets. cbn [fst snd]. rewrite Hi. cbn [ie_bits].
  by rewrite (b_ma _ _ _ _ _ (h_desc _ _ _ _ _ _ _ _ _ _ _ _ Hh1)).
Qed.

(** Freeing a request that is not linked. *)
Lemma free_spec t F x :
  table_ok t F -> (forall k, F !! k <> Some x) ->
  exists t', imar_free x t = Some (tt, t') /\ table_ok t' F /\ ma_mem t' !! x = None.
Proof.
  intros Hok Hout. eexists. split; [done|]. split; [|apply lookup_delete_eq]. apply table_frame; [done|].
  intros k y Hf. apply lookup_delete_ne. intros ->. by apply (Hout k).
Qed.

(** The entry of a request that is accepted. *)
Lemma unmark_run s name r s1 w b o q ty u co :
  held None s name r s1 b o q ty u true co -> ty <> 0 -> u32_range name ->
  exists s' b', (entry ← of_space (fun s => ns_lookup s name);
      match entry with
      | None => crash
      | Some entry => ie_write entry (fun e => set_bits (clear (ie_bits e) IE_BITS_MAREQUEST) e)
      end) (s1, w) = Some (tt, (s', w)) /\ held None s name r s' b' o q ty u false co.
Proof.
  intros Hh Ht Hname. pose proof (h_ok _ _ _ _ _ _ _ _ _ _ _ _ Hh) as Hok.
  pose proof (h_den _ _ _ _ _ _ _ _ _ _ _ _ Hh) as Hden. rewrite typed_hole in Hok, Hden by done.
  destruct (ns_lookup_law s1 name Hok Hname) as [Hpres Hfind]. apply Hfind in Hden.
  pose proof (held_steps _ _ _ _ _ _ _ _ _ _ _ _ Hh Ht Hpres) as Hh1.
  pose proof (unmark_request _ _ _ _ _ (h_desc _ _ _ _ _ _ _ _ _ _ _ _ Hh1)) as Hb.
  destruct (wp_returns _ _ _ (wp_write _ _ _ _ _ w _ _ _ _ _ _ _ (fun e => set_bits (clear (ie_bits e) IE_BITS_MAREQUEST) e)
    (clear b IE_BITS_MAREQUEST) o q ty u false co (fun _ st => st.2 = w /\
      held None s name r st.1 (clear b IE_BITS_MAREQUEST) o q ty u false co) Hh1 ltac:(entry_eq) Hb ltac:(done)))
    as ([] & [s' w'] & Hwr & Hw & Hh'). simpl in Hw. subst w'.
  exists s', (clear b IE_BITS_MAREQUEST). split; [|done]. rewrite run_bind. unfold of_space. cbn [fst snd].
  destruct (ns_lookup s1 name) as [s2 res]. simpl in *. by subst res.
Qed.

(** The message of a linked request is received. *)
Lemma destroy_run s name r s1 w t F b o q ty u co x rq soright :
  held None s name r s1 b o q ty u true co -> ty <> 0 -> ns_active s1 = true -> u32_range name -> name <> MACH_PORT_NULL ->
  table_ok t F -> F !! (addr, name) = Some x -> ma_mem t !! x = Some rq -> request_key rq = (addr, name, soright) ->
  soright <> IP_NULL ->
  exists s' b' t', ipc_marequest_destroy addr is_notify x ((s1, w), t) =
      Some (tt, ((s', emitted [SpaceRelease; NotifyMsgAccepted soright name] w), t')) /\
    held None s name r s' b' o q ty u false co /\ table_ok t' (delete (addr, name) F) /\ ma_mem t' !! x = None.
Proof.
  intros Hh Ht Hact Hname Hn0 Hok HF Hrq Hkey Hso. injection Hkey as Hk1 Hk2 Hk3.
  destruct (unlink_spec t F addr name x Hok HF) as (t1 & Hun & Hok1 & _).
  destruct (free_spec t1 (delete (addr, name) F) x Hok1) as (t2 & Hfr & Hok2 & Hgone).
  { intros k [Hne Hk]%lookup_delete_Some. apply Hne. exact (key_unique _ _ _ _ _ Hok HF Hk). }
  destruct (unmark_run s name r s1 w b o q ty u co Hh Ht Hname) as (s2 & b2 & Hwr & Hh2).
  exists s2, b2, t2. split_and!; try done. unfold ipc_marequest_destroy.
  rewrite run_bind. unfold on_imars at 1, request_at. cbn [fst snd]. rewrite Hrq, Hk2, Hk3.
  rewrite run_bind, (proj2 (Z.eqb_neq name MACH_PORT_NULL)) by done. unfold accept_name.
  rewrite run_bind, (run_on_imars _ _ _ _ _ Hun), run_bind. unfold gets. cbn [fst]. rewrite Hact.
  rewrite run_bind in Hwr. rewrite run_bind. unfold on_sys at 1. cbn [fst snd].
  destruct (of_space _ (s1, w)) as [[[entry|] [s3 w3]]|]; try done.
  rewrite run_bind, (run_on_sys _ _ _ _ _ _ _ Hwr), (proj2 (Z.eqb_neq soright IP_NULL)) by done. cbn beta iota.
  change ((mret (name, IP_NULL) : M _ _) (s2, w, t1)) with (Some ((name, IP_NULL), ((s2, w), t1))). cbn beta iota.
  rewrite run_bind. change (on_sys (on_world (emit SpaceRelease)) (s2, w, t1)) with
    (Some (tt, ((s2, emitted [SpaceRelease] w), t1))). cbn beta iota.
  rewrite run_bind, (run_on_imars _ _ _ _ _ Hfr). unfold on_sys, on_world, emit, modify, emitted. simpl.
  by rewrite <- app_assoc.
Qed.

(** The message of a request that was cancelled is received. *)
Lemma destroy_cancelled sw t F x rq soright :
  table_ok t F -> (forall k, F !! k <> Some x) -> ma_mem t !! x = Some rq -> imar_name rq = MACH_PORT_NULL ->
  imar_soright rq = soright -> soright <> IP_NULL ->
  exists t', ipc_marequest_destroy addr is_notify x (sw, t) =
      Some (tt, ((sw.1, emitted [SpaceRelease; NotifyMsgAccepted soright MACH_PORT_NULL] sw.2), t')) /\
    table_ok t' F /\ ma_mem t' !! x = None.
Proof.
  intros Hok Hout Hrq Hname Hsor Hso. destruct (free_spec t F x Hok Hout) as (t2 & Hfr & Hok2 & Hgone).
  exists t2. split_and!; try done. unfold ipc_marequest_destroy.
  rewrite run_bind. unfold on_imars at 1, request_at. cbn [fst snd]. rewrite Hrq, Hname, Hsor, run_bind, Z.eqb_refl.
  change ((mret (MACH_PORT_NULL, IP_NULL) : M _ _) (sw, t)) with (Some ((MACH_PORT_NULL, IP_NULL), (sw, t))). cbn beta iota.
  rewrite run_bind, (proj2 (Z.eqb_neq soright IP_NULL)) by done. destruct sw as [s w].
  change (on_sys (on_world (emit SpaceRelease)) (s, w, t)) with (Some (tt, ((s, emitted [SpaceRelease] w), t))). cbn beta iota.
  rewrite run_bind, (run_on_imars _ _ _ _ _ Hfr). unfold on_sys, on_world, emit, modify, emitted. simpl.
  by rewrite <- app_assoc.
Qed.
End spaces.
