(* ===== verification/Kmsg.v ===== *)
(** * The headers of messages (ipc/ipc_kmsg.c)

    A message header carries two rights: the right the message is sent to and
    a right to reply with.  Copyin takes them out of the sender's space,
    copyout puts them into the receiver's.  Both are written twice in the
    code: a general case, and before it a [switch] with the most frequent
    combinations done by hand on the table of the space.

    The general case is written against the interfaces [NameSpace] and
    [NameAlloc].  The space is locked throughout a copyin, but the ports are
    locked one at a time and can die in between: [he_others n] is what other
    threads do to ports at the n-th of these points.  [he_lock_try] says
    whether [ip_lock_try] succeeds. *)

From S2P Require Import Prelude Names Splay Table Space Hash Entry World Port Mqueue Right Object.
From S2P Require Import PortSpace MachPort Marequest.

Definition MACH_MSGH_BITS_LOCAL_MASK : Z := 0xff00.
Definition MACH_MSGH_BITS_COMPLEX : Z := 0x80000000.
Definition MACH_MSGH_BITS_PORTS_MASK : Z := Z.lor MACH_MSGH_BITS_REMOTE_MASK MACH_MSGH_BITS_LOCAL_MASK.
Definition MACH_MSGH_BITS (remote local : Z) : Z := Z.lor remote (Z.shiftl local 8).
Definition MACH_MSGH_BITS_LOCAL (bits : Z) : Z := Z.shiftr (Z.land bits MACH_MSGH_BITS_LOCAL_MASK) 8.
Definition MACH_MSGH_BITS_PORTS (bits : Z) : Z := Z.land bits MACH_MSGH_BITS_PORTS_MASK.
Definition MACH_MSGH_BITS_OTHER (bits : Z) : Z := Z.ldiff bits MACH_MSGH_BITS_PORTS_MASK.

Definition MACH_MSG_TYPE_PORT_ANY_SEND (x : Z) : bool :=
  (MACH_MSG_TYPE_MOVE_SEND <=? x) && (x <=? MACH_MSG_TYPE_MAKE_SEND_ONCE).

Definition MACH_MSG_IPC_SPACE : Z := 0x2000.
Definition MACH_MSG_VM_SPACE : Z := 0x1000.
Definition MACH_MSG_IPC_KERNEL : Z := 0x800.
Definition MACH_MSG_VM_KERNEL : Z := 0x400.
Definition MACH_SEND_INVALID_DEST : Z := 0x10000003.
Definition MACH_SEND_MSG_TOO_SMALL : Z := 0x10000008.
Definition MACH_SEND_INVALID_REPLY : Z := 0x10000009.
Definition MACH_SEND_INVALID_RIGHT : Z := 0x1000000a.
Definition MACH_SEND_INVALID_MEMORY : Z := 0x1000000c.
Definition MACH_SEND_INVALID_TYPE : Z := 0x1000000f.
Definition MACH_SEND_INVALID_HEADER : Z := 0x10000010.
Definition MACH_RCV_INVALID_NOTIFY : Z := 0x10004007.
Definition MACH_RCV_HEADER_ERROR : Z := 0x1000400b.
Definition MACH_RCV_BODY_ERROR : Z := 0x1000400c.

(** The assignments to the three fields of a header. *)
Definition set_header (bits remote local : Z) (k : ipc_kmsg) : ipc_kmsg :=
  mk_kmsg (ikm_marequest k) bits (msgh_size k) remote local.

Record header_env (Sp : Type) := mk_header_env {
  he_right : right_env Sp;
  he_others : nat -> world -> world;
  he_lock_try : Z -> bool
}.
Arguments mk_header_env {Sp}. Arguments he_right {Sp}. Arguments he_others {Sp}. Arguments he_lock_try {Sp}.

Section general.
Context {Sp : Type} `{NameSpace Sp} `{!NameAlloc Sp}.
Context (addr : Z) (env : header_env Sp).

Abbreviation sys := (Sp * world)%type.

Definition ports_run (n : nat) : M sys unit := on_world (modify (he_others env n)).

(** ** Copyin *)

(** The rights taken: [dest_port], [reply_port], [dest_soright] and
    [reply_soright]; or the error to return. *)
Definition acquired : Type := (Z * Z * Z * Z) + Z.

(** [if (IE_BITS_TYPE(entry->ie_bits) == MACH_PORT_TYPE_NONE) ipc_entry_dealloc] *)
Definition dealloc_if_empty (name : Z) (entry : entry_ref) : M sys unit :=
  e ← ie_read entry;
  when (IE_BITS_TYPE (ie_bits e) =? MACH_PORT_TYPE_NONE) (entry_dealloc name entry).

Definition is_make (type : Z) : bool :=
  (type =? MACH_MSG_TYPE_MAKE_SEND) || (type =? MACH_MSG_TYPE_MAKE_SEND_ONCE).

(** The destination, when it cannot be copied in the call ends. *)
Definition copyin_dest (name : Z) (entry : entry_ref) (type : Z) (f : Z -> Z -> M sys acquired)
    : M sys acquired :=
  r ← ipc_right_copyin name entry type false;
  let '(kr, port, soright) := r in
  if bool_decide (kr = KERN_SUCCESS) then f port soright else mret (inr MACH_SEND_INVALID_DEST).

(** The combinations in which both rights have the same name. *)
Definition copyin_same_entry (name : Z) (entry : entry_ref) (dest_type reply_type : Z) : M sys acquired :=
  if (dest_type =? MACH_MSG_TYPE_MOVE_SEND_ONCE) || (reply_type =? MACH_MSG_TYPE_MOVE_SEND_ONCE)
  then mret (inr MACH_SEND_INVALID_DEST)
  else if is_make dest_type || is_make reply_type then
    copyin_dest name entry dest_type (fun dest_port dest_soright =>
      ports_run 1;;
      r ← ipc_right_copyin name entry reply_type true;
      let '(_, reply_port, reply_soright) := r in
      mret (inl (dest_port, reply_port, dest_soright, reply_soright)))
  else if (dest_type =? MACH_MSG_TYPE_COPY_SEND) && (reply_type =? MACH_MSG_TYPE_COPY_SEND) then
    copyin_dest name entry dest_type (fun dest_port dest_soright =>
      ports_run 1;;
      reply_port ← on_world (ipc_port_copy_send dest_port);
      mret (inl (dest_port, reply_port, dest_soright, IP_NULL)))
  else if (dest_type =? MACH_MSG_TYPE_MOVE_SEND) && (reply_type =? MACH_MSG_TYPE_MOVE_SEND) then
    r ← ipc_right_copyin_two name entry;
    let '(kr, dest_port, dest_soright) := r in
    if bool_decide (kr = KERN_SUCCESS) then
      dealloc_if_empty name entry;;
      mret (inl (dest_port, dest_port, dest_soright, IP_NULL))
    else mret (inr MACH_SEND_INVALID_DEST)
  else
    copyin_dest name entry MACH_MSG_TYPE_MOVE_SEND (fun dest_port soright =>
      dealloc_if_empty name entry;;
      ports_run 1;;
      reply_port ← on_world (ipc_port_copy_send dest_port);
      if dest_type =? MACH_MSG_TYPE_MOVE_SEND
      then mret (inl (dest_port, reply_port, soright, IP_NULL))
      else mret (inl (dest_port, reply_port, IP_NULL, soright))).

Definition copyin_same (name dest_type reply_type : Z) : M sys acquired :=
  r ← of_space (fun s => ns_lookup s name);
  match r with
  | None => mret (inr MACH_SEND_INVALID_DEST)
  | Some entry =>
    ok ← ipc_right_copyin_check name entry reply_type;
    if negb ok then mret (inr MACH_SEND_INVALID_REPLY)
    else ports_run 0;; copyin_same_entry name entry dest_type reply_type
  end.

(** There is no reply port. *)
Definition copyin_no_reply (dest_name reply_name dest_type : Z) : M sys acquired :=
  r ← of_space (fun s => ns_lookup s dest_name);
  match r with
  | None => mret (inr MACH_SEND_INVALID_DEST)
  | Some entry =>
    copyin_dest dest_name entry dest_type (fun dest_port dest_soright =>
      dealloc_if_empty dest_name entry;;
      mret (inl (dest_port, reply_name, dest_soright, IP_NULL)))
  end.

(** Did the destination die before the reply port, which is dead? *)
Definition must_undo (dest saved_reply : Z) : M world bool :=
  r ← port_at saved_reply;
  d ← port_at dest;
  mret (negb (ip_active d) && IP_TIMESTAMP_ORDER (ip_timestamp d) (ip_timestamp r)).

(** Give back what was copied in from two dead ports. *)
Definition undo_both (dest_name : Z) (dest_entry : entry_ref) (dest_type dest_port dest_soright : Z)
    (reply_name : Z) (reply_entry : entry_ref) (reply_type reply_port reply_soright saved_reply : Z)
    : M sys acquired :=
  ipc_right_copyin_undo dest_name dest_entry dest_type dest_port dest_soright;;
  ipc_right_copyin_undo reply_name reply_entry reply_type reply_port reply_soright;;
  when (negb (dest_soright =? IP_NULL)) (on_world (emit (NotifyDeadName dest_soright dest_name)));;
  on_world (ipc_port_release saved_reply);;
  mret (inr MACH_SEND_INVALID_DEST).

(** The destination has been copied in; the reply port is next. *)
Definition copyin_reply (dest_name : Z) (dest_entry : entry_ref) (dest_type dest_port dest_soright : Z)
    (reply_name : Z) (reply_entry : entry_ref) (reply_type : Z) : M sys acquired :=
  e ← ie_read reply_entry;
  let saved_reply := ie_object e in
  when (negb (saved_reply =? IP_NULL)) (on_world (ip_reference saved_reply));;
  ports_run 1;;
  r ← ipc_right_copyin reply_name reply_entry reply_type true;
  let '(kr, reply_port, reply_soright) := r in
  let finish (reply_port reply_soright : Z) : M sys acquired :=
    dealloc_if_empty dest_name dest_entry;;
    when (negb (saved_reply =? IP_NULL)) (on_world (ipc_port_release saved_reply));;
    mret (inl (dest_port, reply_port, dest_soright, reply_soright)) in
  if negb (bool_decide (kr = KERN_SUCCESS)) then finish IO_DEAD IP_NULL
  else
    ports_run 2;;
    undo ← (if negb (saved_reply =? IP_NULL) && (reply_port =? IO_DEAD)
            then on_world (must_undo dest_port saved_reply) else mret false);
    if (undo : bool) then
      undo_both dest_name dest_entry dest_type dest_port dest_soright
        reply_name reply_entry reply_type reply_port reply_soright saved_reply
    else
      dealloc_if_empty reply_name reply_entry;;
      finish reply_port reply_soright.

Definition copyin_both (dest_name reply_name dest_type reply_type : Z) : M sys acquired :=
  d ← of_space (fun s => ns_lookup s dest_name);
  match d with
  | None => mret (inr MACH_SEND_INVALID_DEST)
  | Some dest_entry =>
    r ← of_space (fun s => ns_lookup s reply_name);
    match r with
    | None => mret (inr MACH_SEND_INVALID_REPLY)
    | Some reply_entry =>
      ok ← ipc_right_copyin_check reply_name reply_entry reply_type;
      if negb ok then mret (inr MACH_SEND_INVALID_REPLY)
      else
        ports_run 0;;
        copyin_dest dest_name dest_entry dest_type (fun dest_port dest_soright =>
          copyin_reply dest_name dest_entry dest_type dest_port dest_soright
            reply_name reply_entry reply_type)
    end
  end.

(** The port of the receive right [notify], [IP_NULL] if there is to be none;
    [None] when [notify] is not the name of a receive right. *)
Definition header_notify (notify : Z) : M sys (option Z) :=
  if notify =? MACH_PORT_NULL then mret (Some IP_NULL)
  else
    r ← of_space (fun s => ns_lookup s notify);
    match r with
    | None => mret None
    | Some entry =>
      e ← ie_read entry;
      mret (if negb (has (ie_bits e) MACH_PORT_TYPE_RECEIVE) then None else Some (ie_object e))
    end.

(** MACH_SEND_CANCEL, the notifications, and the header. *)
Definition copyin_finish (kmsg mbits notify notify_port dest_name reply_name dest_type reply_type : Z)
    (got : Z * Z * Z * Z) : M sys Z :=
  let '(dest_port, reply_port, dest_soright, reply_soright) := got in
  dest_soright ←
    (if negb (notify =? MACH_PORT_NULL) && (dest_soright =? notify_port) then
       on_world (ipc_port_release_sonce dest_soright);; mret IP_NULL
     else mret dest_soright);
  notify_port_deleted dest_soright dest_name;;
  notify_port_deleted reply_soright reply_name;;
  match ipc_object_copyin_type dest_type, ipc_object_copyin_type reply_type with
  | Some dest_type, Some reply_type =>
    on_world (update_kmsg kmsg (set_header
      (Z.lor (MACH_MSGH_BITS_OTHER mbits) (MACH_MSGH_BITS dest_type reply_type)) dest_port reply_port));;
    mret MACH_MSG_SUCCESS
  | _, _ => crash
  end.

Definition copyin_header_general (kmsg notify : Z) : M sys Z :=
  k ← on_world (kmsg_at kmsg);
  let mbits := clear (msgh_bits k) MACH_MSGH_BITS_CIRCULAR in
  let dest_name := msgh_remote_port k in
  let reply_name := msgh_local_port k in
  let dest_type := MACH_MSGH_BITS_REMOTE mbits in
  let reply_type := MACH_MSGH_BITS_LOCAL mbits in
  if negb (MACH_MSG_TYPE_PORT_ANY_SEND dest_type) then mret MACH_SEND_INVALID_HEADER
  else if (if reply_type =? 0 then negb (reply_name =? MACH_PORT_NULL)
           else negb (MACH_MSG_TYPE_PORT_ANY_SEND reply_type)) then mret MACH_SEND_INVALID_HEADER
  else
    active ← gets (fun st => ns_active st.1);
    if negb active then mret MACH_SEND_INVALID_DEST
    else
      np ← header_notify notify;
      match np with
      | None => mret MACH_SEND_INVALID_NOTIFY
      | Some notify_port =>
        got ← (if dest_name =? reply_name then copyin_same dest_name dest_type reply_type
               else if negb (MACH_PORT_VALID reply_name) then copyin_no_reply dest_name reply_name dest_type
               else copyin_both dest_name reply_name dest_type reply_type);
        match got with
        | inr mr => mret mr
        | inl got => copyin_finish kmsg mbits notify notify_port dest_name reply_name dest_type reply_type got
        end
      end.

(** ** Copyout *)

(** What became of the reply port: a name and an entry for it, with the
    send-once right of the notify port if that is not needed; or it is dead;
    or the call returns. *)
Inductive reply_entry_result :=
| ReplyEntry (name : Z) (entry : entry_ref) (notify_port : Z)
| ReplyDead
| ReplyFails (mr : Z).

Definition release_notify (notify_port : Z) : M sys unit :=
  when (negb (notify_port =? IP_NULL)) (on_world (ipc_port_release_sonce notify_port)).

(** The loop goes round when the table of the space, or the table of requests
    of the reply port, has grown. *)
Fixpoint copyout_reply_entry (fuel : nat) (reply reply_type notify : Z) : M sys reply_entry_result :=
  match fuel with
  | O => crash
  | S fuel =>
    active ← gets (fun st => ns_active st.1);
    if negb active then mret (ReplyFails (Z.lor MACH_RCV_HEADER_ERROR MACH_MSG_IPC_SPACE))
    else
      notify_port ← (if negb (notify =? MACH_PORT_NULL) then ipc_port_lookup_notify notify else mret IP_NULL);
      if negb (notify =? MACH_PORT_NULL) && (notify_port =? IP_NULL)
      then mret (ReplyFails MACH_RCV_INVALID_NOTIFY)
      else
        reverse ← (if negb (reply_type =? MACH_MSG_TYPE_PORT_SEND_ONCE)
                   then ipc_right_reverse addr reply else mret None);
        match reverse with
        | Some (name, entry) => mret (ReplyEntry name entry notify_port)
        | None =>
          p ← on_world (port_at reply);
          if negb (ip_active p) then
            on_world (ip_release reply);;
            on_world (ip_check_unlock reply);;
            release_notify notify_port;;
            mret ReplyDead
          else
            got ← of_space na_get;
            match got with
            | None =>
              release_notify notify_port;;
              kr ← na_grow;
              match kr with
              | KERN_SUCCESS => copyout_reply_entry fuel reply reply_type notify
              | KERN_RESOURCE_SHORTAGE => mret (ReplyFails (Z.lor MACH_RCV_HEADER_ERROR MACH_MSG_IPC_KERNEL))
              | _ => mret (ReplyFails (Z.lor MACH_RCV_HEADER_ERROR MACH_MSG_IPC_SPACE))
              end
            | Some (name, entry) =>
              if notify_port =? IP_NULL then
                ie_write entry (set_object reply);;
                mret (ReplyEntry name entry IP_NULL)
              else
                request ← on_world (ipc_port_dnrequest reply name notify_port);
                match request with
                | None =>
                  on_world (ipc_port_release_sonce notify_port);;
                  entry_dealloc name entry;;
                  modify (re_between (he_right env));;
                  p ← on_world (port_at reply);
                  if negb (ip_active p) then copyout_reply_entry fuel reply reply_type notify
                  else
                    kr ← on_world (ipc_port_dngrow reply (re_alloc (he_right env)) (re_other (he_right env)));
                    match kr with
                    | KERN_SUCCESS =>
                      modify (re_between (he_right env));;
                      copyout_reply_entry fuel reply reply_type notify
                    | _ => mret (ReplyFails (Z.lor MACH_RCV_HEADER_ERROR MACH_MSG_IPC_KERNEL))
                    end
                | Some request =>
                  ie_write entry (fun e => set_request request (set_object reply e));;
                  mret (ReplyEntry name entry IP_NULL)
                end
            end
        end
  end.

(** [copyout_dest:] [reply] is [IP_DEAD] if the reply port was found dead. *)
Definition copyout_header_dest (dest dest_type reply : Z) : M world Z :=
  d ← port_at dest;
  dest_name ←
    (if ip_active d then ipc_object_copyout_dest addr dest dest_type
     else
       let timestamp := ip_timestamp d in
       ip_release dest;;
       ip_check_unlock dest;;
       if IP_VALID reply then
         modify (he_others env 1);;
         r ← port_at reply;
         mret (if ip_active r || IP_TIMESTAMP_ORDER timestamp (ip_timestamp r)
               then MACH_PORT_DEAD else MACH_PORT_NULL)
       else mret MACH_PORT_DEAD);
  when (IP_VALID reply) (ipc_port_release reply);;
  mret dest_name.

(** The header of a received message: the rights change sides. *)
Definition copyout_finish (kmsg mbits dest dest_type reply reply_name reply_type : Z) : M sys Z :=
  ports_run 0;;
  dest_name ← on_world (copyout_header_dest dest dest_type reply);
  on_world (update_kmsg kmsg (set_header
    (Z.lor (MACH_MSGH_BITS_OTHER mbits) (MACH_MSGH_BITS reply_type dest_type)) reply_name dest_name));;
  mret MACH_MSG_SUCCESS.

Definition copyout_header_general (fuel : nat) (kmsg notify : Z) : M sys Z :=
  k ← on_world (kmsg_at kmsg);
  let mbits := msgh_bits k in
  let dest := msgh_remote_port k in
  let reply := msgh_local_port k in
  let dest_type := MACH_MSGH_BITS_REMOTE mbits in
  let reply_type := MACH_MSGH_BITS_LOCAL mbits in
  if IP_VALID reply then
    r ← copyout_reply_entry fuel reply reply_type notify;
    match r with
    | ReplyFails mr => mret mr
    | ReplyDead => copyout_finish kmsg mbits dest dest_type IP_DEAD MACH_PORT_DEAD reply_type
    | ReplyEntry name entry notify_port =>
      on_world (ip_reference reply);;
      ipc_right_copyout addr name entry reply_type true reply;;
      release_notify notify_port;;
      copyout_finish kmsg mbits dest dest_type reply name reply_type
    end
  else
    active ← gets (fun st => ns_active st.1);
    if negb active then mret (Z.lor MACH_RCV_HEADER_ERROR MACH_MSG_IPC_SPACE)
    else
      np ← header_notify notify;
      match np with
      | None => mret MACH_RCV_INVALID_NOTIFY
      | Some _ => copyout_finish kmsg mbits dest dest_type reply reply reply_type
      end.

(** [slow_copyout:] in [ipc_kmsg_copyout_object]: [(mr, name)]. *)
Definition copyout_object_general (fuel : nat) (object msgt_name : Z) : M sys (Z * Z) :=
  r ← ipc_object_copyout addr fuel object msgt_name true;
  let '(kr, name) := r in
  if bool_decide (kr = KERN_SUCCESS) then mret (MACH_MSG_SUCCESS, name)
  else
    on_world (ipc_object_destroy (re_trylock (he_right env)) object msgt_name);;
    mret (match kr with
          | KERN_INVALID_CAPABILITY => (MACH_MSG_SUCCESS, MACH_PORT_DEAD)
          | KERN_RESOURCE_SHORTAGE => (MACH_MSG_IPC_KERNEL, MACH_PORT_NULL)
          | _ => (MACH_MSG_IPC_SPACE, MACH_PORT_NULL)
          end).
End general.

(** ** The common cases, on the table of a space *)

Section fast.
Context `{PortConfig} `{!EntrySizes}.
Context (addr : Z) (entries : environment) (alloc_fuel : nat) (others : world -> world).
Context (env : header_env (ipc_space * Global.ghash)).

#[local] Instance kmsg_names : NameSpace (ipc_space * Global.ghash) := space_names addr.
#[local] Instance kmsg_alloc : NameAlloc (ipc_space * Global.ghash) := space_alloc addr entries alloc_fuel others.

Abbreviation sys := ((ipc_space * Global.ghash) * world)%type.

(** A case of the [switch]: [None] when it gives up ([break]). *)
Abbreviation fast_case := (M sys (option Z)).

(** The optimized ipc_entry_lookup: the entry of the table, if its generation
    and the bits of [mask] are as wanted. *)
Definition fast_lookup (s : ipc_space) (name mask type : Z) : option (Z * ipc_entry) :=
  let index := MACH_PORT_INDEX name in
  let gen := MACH_PORT_GEN name in
  if is_table_size s <=? index then None
  else
    let entry := tget (is_table s) index in
    if Z.land (ie_bits entry) (Z.lor IE_BITS_GEN_MASK mask) =? Z.lor gen type
    then Some (index, entry) else None.

Definition of_table {A} (f : ipc_space -> A) : M sys A := gets (fun st => f st.1.1).
Definition set_table (f : list ipc_entry -> list ipc_entry) : M sys unit :=
  modify (fun st => ((with_table (f (is_table st.1.1)) st.1.1, st.1.2), st.2)).

Definition header_done (kmsg mbits remote_type local_type remote local : Z) : fast_case :=
  on_world (update_kmsg kmsg (set_header
    (Z.lor (MACH_MSGH_BITS_OTHER mbits) (MACH_MSGH_BITS remote_type local_type)) remote local));;
  mret (Some MACH_MSG_SUCCESS).

(** Sending an asynchronous message. *)
Definition copyin_async (kmsg mbits dest_name reply_name : Z) : fast_case :=
  if negb (reply_name =? MACH_PORT_NULL) then mret None
  else
    active ← of_table is_active;
    if negb active then mret None
    else
      found ← of_table (fun s => fast_lookup s dest_name MACH_PORT_TYPE_SEND MACH_PORT_TYPE_SEND);
      match found with
      | None => mret None
      | Some (_, entry) =>
        let dest_port := ie_object entry in
        d ← on_world (port_at dest_port);
        if negb (ip_active d) then mret None
        else
          on_world (update_port dest_port (fun p => set_ip_srights (u32 (ip_srights p + 1)) p));;
          on_world (ip_reference dest_port);;
          header_done kmsg mbits MACH_MSG_TYPE_PORT_SEND 0 dest_port reply_name
      end.

(** Sending a request. *)
Definition copyin_request (kmsg mbits dest_name reply_name : Z) : fast_case :=
  active ← of_table is_active;
  if negb active then mret None
  else
    found ← of_table (fun s => fast_lookup s dest_name MACH_PORT_TYPE_SEND MACH_PORT_TYPE_SEND);
    match found with
    | None => mret None
    | Some (_, dest_entry) =>
      found ← of_table (fun s => fast_lookup s reply_name MACH_PORT_TYPE_RECEIVE MACH_PORT_TYPE_RECEIVE);
      match found with
      | None => mret None
      | Some (_, reply_entry) =>
        let dest_port := ie_object dest_entry in
        let reply_port := ie_object reply_entry in
        d ← on_world (port_at dest_port);
        if negb (ip_active d) || negb (he_lock_try env reply_port) then mret None
        else
          on_world (update_port dest_port (fun p => set_ip_srights (u32 (ip_srights p + 1)) p));;
          on_world (ip_reference dest_port);;
          on_world (update_port reply_port (fun p => set_ip_sorights (u32 (ip_sorights p + 1)) p));;
          on_world (ip_reference reply_port);;
          header_done kmsg mbits MACH_MSG_TYPE_PORT_SEND MACH_MSG_TYPE_PORT_SEND_ONCE dest_port reply_port
      end
    end.

(** Sending a reply: the send-once right and its entry are used up. *)
Definition copyin_reply_message (kmsg mbits dest_name reply_name : Z) : fast_case :=
  if negb (reply_name =? MACH_PORT_NULL) then mret None
  else
    active ← of_table is_active;
    if negb active then mret None
    else
      found ← of_table (fun s => fast_lookup s dest_name
                 (Z.lor IE_BITS_COLLISION MACH_PORT_TYPE_SEND_ONCE) MACH_PORT_TYPE_SEND_ONCE);
      match found with
      | None => mret None
      | Some (index, entry) =>
        if negb (ie_request entry =? 0) then mret None
        else
          let dest_port := ie_object entry in
          d ← on_world (port_at dest_port);
          if negb (ip_active d) then mret None
          else
            set_table (fun table => tset table index (set_next (ie_next (tget table 0))));;
            set_table (fun table => tset table 0 (set_next index));;
            set_table (fun table => tset table index (set_bits (MACH_PORT_GEN dest_name)));;
            set_table (fun table => tset table index (set_object IO_NULL));;
            header_done kmsg mbits MACH_MSG_TYPE_PORT_SEND_ONCE 0 dest_port reply_name
      end.

(** The [switch] on the types of the two rights. *)
Definition copyin_common (kmsg notify : Z) : fast_case :=
  k ← on_world (kmsg_at kmsg);
  let mbits := clear (msgh_bits k) MACH_MSGH_BITS_CIRCULAR in
  let ports := MACH_MSGH_BITS_PORTS mbits in
  if negb (notify =? MACH_PORT_NULL) then mret None
  else if ports =? MACH_MSGH_BITS MACH_MSG_TYPE_COPY_SEND 0 then
    copyin_async kmsg mbits (msgh_remote_port k) (msgh_local_port k)
  else if ports =? MACH_MSGH_BITS MACH_MSG_TYPE_COPY_SEND MACH_MSG_TYPE_MAKE_SEND_ONCE then
    copyin_request kmsg mbits (msgh_remote_port k) (msgh_local_port k)
  else if ports =? MACH_MSGH_BITS MACH_MSG_TYPE_MOVE_SEND_ONCE 0 then
    copyin_reply_message kmsg mbits (msgh_remote_port k) (msgh_local_port k)
  else mret None.

Definition ipc_kmsg_copyin_header (kmsg notify : Z) : M sys Z :=
  r ← copyin_common kmsg notify;
  match r with
  | Some mr => mret mr
  | None => copyin_header_general env kmsg notify
  end.

(** The optimized ipc_object_copyout_dest of a send right. *)
Definition fast_copyout_send (dest : Z) : M world Z :=
  ip_release dest;;
  d ← port_at dest;
  let dest_name := if ip_receiver d =? addr then ip_receiver_name d else MACH_PORT_NULL in
  ns ← drop_send_right dest;
  notify_no_senders ns;;
  mret dest_name.

(** Receiving an asynchronous message. *)
Definition copyout_async (kmsg mbits dest : Z) : fast_case :=
  d ← on_world (port_at dest);
  if negb (ip_active d) then mret None
  else
    dest_name ← on_world (fast_copyout_send dest);
    header_done kmsg mbits 0 MACH_MSG_TYPE_PORT_SEND MACH_PORT_NULL dest_name.

(** Receiving a request: the reply port gets a new entry. *)
Definition copyout_request (kmsg mbits dest reply : Z) : fast_case :=
  if negb (IP_VALID reply) then mret None
  else
    active ← of_table is_active;
    index ← of_table (fun s => ie_next (tget (is_table s) 0));
    if negb active || (index =? 0) then mret None
    else
      d ← on_world (port_at dest);
      if negb (ip_active d) || negb (he_lock_try env reply) then mret None
      else
        r ← on_world (port_at reply);
        if negb (ip_active r) then mret None
        else
          set_table (fun table => tset table 0 (set_next (ie_next (tget table index))));;
          set_table (fun table => tset table index (set_request 0));;
          gen ← of_table (fun s => u32 (ie_bits (tget (is_table s) index) + IE_BITS_GEN_ONE));
          set_table (fun table => tset table index
            (set_bits (Z.lor gen (Z.lor MACH_PORT_TYPE_SEND_ONCE 1))));;
          set_table (fun table => tset table index (set_object reply));;
          dest_name ← on_world (fast_copyout_send dest);
          header_done kmsg mbits MACH_MSG_TYPE_PORT_SEND_ONCE MACH_MSG_TYPE_PORT_SEND
            (MACH_PORT_MAKE index gen) dest_name.

(** Receiving a reply. *)
Definition copyout_reply_message (kmsg mbits dest : Z) : fast_case :=
  d ← on_world (port_at dest);
  if negb (ip_active d) then mret None
  else
    dest_name ← on_world
      (if ip_receiver d =? addr then
         ip_release dest;;
         update_port dest (fun p => set_ip_sorights (u32 (ip_sorights p - 1)) p);;
         mret (ip_receiver_name d)
       else emit (NotifySendOnce dest);; mret MACH_PORT_NULL);
    header_done kmsg mbits 0 MACH_MSG_TYPE_PORT_SEND_ONCE MACH_PORT_NULL dest_name.

Definition copyout_common (kmsg notify : Z) : fast_case :=
  k ← on_world (kmsg_at kmsg);
  let mbits := msgh_bits k in
  let ports := MACH_MSGH_BITS_PORTS mbits in
  if negb (notify =? MACH_PORT_NULL) then mret None
  else if ports =? MACH_MSGH_BITS MACH_MSG_TYPE_PORT_SEND 0 then
    copyout_async kmsg mbits (msgh_remote_port k)
  else if ports =? MACH_MSGH_BITS MACH_MSG_TYPE_PORT_SEND MACH_MSG_TYPE_PORT_SEND_ONCE then
    copyout_request kmsg mbits (msgh_remote_port k) (msgh_local_port k)
  else if ports =? MACH_MSGH_BITS MACH_MSG_TYPE_PORT_SEND_ONCE 0 then
    copyout_reply_message kmsg mbits (msgh_remote_port k)
  else mret None.

Definition ipc_kmsg_copyout_header (fuel : nat) (kmsg notify : Z) : M sys Z :=
  r ← copyout_common kmsg notify;
  match r with
  | Some mr => mret mr
  | None => copyout_header_general addr env fuel kmsg notify
  end.

(** A send right for which the receiver has a name in its table already;
    [None] is [slow_copyout]. *)
Definition copyout_object_quick (port msgt_name : Z) : M sys (option Z) :=
  if negb (msgt_name =? MACH_MSG_TYPE_PORT_SEND) then mret None
  else
    active ← of_table is_active;
    if negb active then mret None
    else
      p ← on_world (port_at port);
      if negb (ip_active p) then mret None
      else
        found ← of_table (fun s => Local.ipc_hash_local_lookup (is_table s) (is_table_size s) port);
        match found with
        | None => mret None
        | Some (name, index) =>
          on_world (update_port port (fun p => set_ip_srights (u32 (ip_srights p - 1)) p));;
          on_world (ip_release port);;
          bits ← of_table (fun s => u32 (ie_bits (tget (is_table s) index) + 1));
          when (IE_BITS_UREFS bits <? MACH_PORT_UREFS_MAX)
            (set_table (fun table => tset table index (set_bits bits)));;
          mret (Some name)
        end.

Definition ipc_kmsg_copyout_object (fuel : nat) (object msgt_name : Z) : M sys (Z * Z) :=
  if negb (IO_VALID object) then mret (MACH_MSG_SUCCESS, object)
  else
    r ← copyout_object_quick object msgt_name;
    match r with
    | Some name => mret (MACH_MSG_SUCCESS, name)
    | None => copyout_object_general addr env fuel object msgt_name
    end.
End fast.
