(* ===== verification/KmsgInv.v ===== *)
(** * The common cases of a message header do what the general case does

    The cases that ipc_kmsg.c treats by hand are compared with the general
    case: from a well-formed space, when no other thread interferes, they lead
    to the same header, the same space and the same kernel memory. *)

From S2P Require Import Prelude Names Splay Table Space Hash Entry EntryInv Alloc World Port PortInv.
From S2P Require Import PortQueue Mqueue Right RightBits RightLaws RightWp RightInv Object ObjectInv PortSpace.
From S2P Require Import MachPort Kmsg.

(** No other thread runs between the steps of a copyin or copyout. *)
Definition undisturbed {Sp} (env : header_env Sp) : Prop := forall n w, he_others env n w = w.

Lemma on_world_run {Sp A} (m : M world A) (s : Sp) w x w' :
  m w = Some (x, w') -> on_world m (s, w) = Some (x, (s, w')).
Proof. intros Hm. unfold on_world. simpl. by rewrite Hm. Qed.

Lemma released_again port p w :
  0 < ip_references p -> ip_references p < u32_max ->
  released port (set_ip_references (u32 (ip_references p + 1)) p) w = put_port port p w.
Proof.
  intros H0 H1. unfold u32_max in H1. unfold released. simpl.
  rewrite (u32_id (ip_references p + 1)) by (unfold u32_range, u32_max; lia).
  replace (ip_references p + 1 - 1) with (ip_references p) by lia.
  rewrite u32_id by (unfold u32_range, u32_max; lia). rewrite (proj2 (Z.eqb_neq _ _)) by lia. by destruct p.
Qed.

(** Step through a program whose next call is known to return. *)
Ltac step_world H := erewrite bind_run; [|eapply on_world_run; H]; cbn beta.

Section equal.
Context `{PortConfig} `{!EntrySizes}.
Context (addr : Z) (entries : environment) (alloc_fuel : nat) (others : world -> world).
Context (env : header_env (ipc_space * Global.ghash)) (Halone : undisturbed env).

#[local] Instance eq_names : NameSpace (ipc_space * Global.ghash) := space_names addr.
#[local] Instance eq_alloc : NameAlloc (ipc_space * Global.ghash) := space_alloc addr entries alloc_fuel others.

Lemma ports_run_alone n st : ports_run env n st = Some (tt, st).
Proof. unfold ports_run, on_world, modify. rewrite Halone. by destruct st. Qed.

(** ** Looking up entries *)

Lemma lookup_bits bits gen coll type :
  gen_ok gen -> IE_BITS_TYPE type = type -> coll = 0 \/ coll = IE_BITS_COLLISION ->
  Z.land bits (Z.lor IE_BITS_GEN_MASK (Z.lor coll type)) = Z.lor gen type ->
  IE_BITS_GEN bits = gen /\ Z.land bits type = type /\ Z.land bits coll = 0.
Proof.
  intros Hg Ht Hcoll Heq. assert (Hbit : forall i, 0 <= i -> Z.testbit bits i && Z.testbit (Z.lor IE_BITS_GEN_MASK (Z.lor coll type)) i
    = Z.testbit gen i || Z.testbit type i) by (intros i _; by rewrite <- Z.land_spec, Heq, Z.lor_spec).
  assert (Htb : forall i, 0 <= i -> Z.testbit type i = Z.testbit type i && ((16 <=? i) && (i <? 21))).
  { intros i Hi. rewrite <- Ht at 1. unfold IE_BITS_TYPE. rewrite Z.land_spec. by destruct (mask_bits i Hi) as (_ & -> & _). }
  assert (Hcb : forall i, 0 <= i -> Z.testbit coll i = true -> i = 23).
  { intros i Hi. destruct Hcoll as [->| ->]; [by rewrite Z.bits_0|].
    destruct (mask_bits i Hi) as (_ & _ & _ & _ & -> & _). destruct (Z.leb_spec 23 i), (Z.ltb_spec i 24); try done; lia. }
  split_and!; apply Z.bits_inj'; intros i Hi; specialize (Hbit i Hi); rewrite !Z.lor_spec in Hbit.
  - unfold IE_BITS_GEN, IE_BITS_GEN_MASK in *. destruct PORT_GENERATIONS eqn:Hpg.
    + rewrite Z.land_spec. destruct (mask_bits i Hi) as (_ & _ & _ & _ & _ & _ & Hm). rewrite Hm in *.
      destruct (Z.leb_spec 24 i), (Z.ltb_spec i 32); simpl in *.
      * rewrite Htb in Hbit by done. destruct (Z.ltb_spec i 21); [lia|].
        by rewrite ?andb_false_r, ?orb_false_r in *.
      * rewrite andb_false_r. symmetry. apply gen_ok_testbit; [done|done|lia].
      * rewrite andb_false_r. symmetry. apply gen_ok_testbit; [done|done|lia].
      * lia.
    + symmetry. rewrite Z.bits_0. apply gen_ok_testbit; auto.
  - rewrite Z.land_spec. destruct (Z.testbit type i) eqn:Hti; [|by rewrite andb_false_r].
    rewrite !orb_true_r in Hbit. by rewrite andb_true_r in *.
  - rewrite Z.land_spec, Z.bits_0. destruct (Z.testbit coll i) eqn:Hci; [|by rewrite andb_false_r].
    pose proof (Hcb i Hi Hci) as ->. rewrite orb_true_r, !andb_true_r in Hbit. rewrite Htb in Hbit by done.
    change ((16 <=? 23) && (23 <? 21)) with false in Hbit.
    rewrite andb_false_r, orb_false_r in Hbit. rewrite andb_true_r, Hbit.
    apply gen_ok_testbit; [done|done|lia].
Qed.

(** What the optimized lookup finds is what ipc_entry_lookup finds. *)
Lemma fast_lookup_spec s name mask coll type index entry :
  space_inv None s -> u32_range name -> IE_BITS_TYPE type = type -> type <> 0 ->
  coll = 0 \/ coll = IE_BITS_COLLISION -> mask = Z.lor coll type ->
  fast_lookup s name mask type = Some (index, entry) ->
  ipc_entry_lookup s name = (s, Some (TableEntry index)) /\ denotes None s name (TableEntry index) /\
  entry = tget (is_table s) index /\ index = MACH_PORT_INDEX name /\
  IE_BITS_GEN (ie_bits entry) = MACH_PORT_GEN name /\ has (ie_bits entry) type = true /\
  Z.land (ie_bits entry) coll = 0.
Proof.
  intros Hinv Hn Ht Ht0 Hcoll -> Hf. unfold fast_lookup in Hf.
  destruct (Z.leb_spec (is_table_size s) (MACH_PORT_INDEX name)) as [|Hlt]; [done|].
  destruct (Z.eqb_spec (Z.land (ie_bits (tget (is_table s) (MACH_PORT_INDEX name))) (Z.lor IE_BITS_GEN_MASK (Z.lor coll type)))
    (Z.lor (MACH_PORT_GEN name) type)) as [Heq|]; [|done]. injection Hf as <- <-.
  destruct (lookup_bits _ _ _ _ (gen_ok_GEN name) Ht Hcoll Heq) as (Hg & Hb & Hc).
  set (entry := tget (is_table s) (MACH_PORT_INDEX name)) in *.
  assert (Hhas : has (ie_bits entry) type = true).
  { unfold has. rewrite Hb. by rewrite (proj2 (Z.eqb_neq _ _)). }
  assert (Htype : IE_BITS_TYPE (ie_bits entry) <> 0).
  { intros Hz. unfold IE_BITS_TYPE in Hz. apply Ht0. rewrite <- Hb, <- Ht. unfold IE_BITS_TYPE.
    by rewrite (Z.land_comm type), Z.land_assoc, Hz. }
  assert (Hlook : ipc_entry_lookup s name = (s, Some (TableEntry (MACH_PORT_INDEX name)))).
  { unfold ipc_entry_lookup. rewrite (proj2 (Z.ltb_lt _ _)) by done. fold entry. rewrite Hg, Z.eqb_refl. simpl.
    by rewrite (proj2 (Z.eqb_neq _ _)). }
  split_and!; try done.
  destruct (entry_lookup_spec s name Hinv Hn) as (tree & _ & _ & _ & Hd). apply Hd. by rewrite Hlook.
Qed.

(** The entries of a well-formed space. *)
Lemma entry_wf s g w name r :
  space_inv None s -> rights_ok (s, g) w -> denotes None s name r ->
  exists t u ma co, described (ie_bits (read_entry s r)) t u ma co /\
    wf_right t u ma co (ie_object (read_entry s r)) (ie_request (read_entry s r)) /\
    (has t MACH_PORT_TYPE_PORT_RIGHTS = true -> exists p,
       w_ports w !! ie_object (read_entry s r) = Some p /\ 0 < ip_references p /\ (ip_active p = false -> mortal t)).
Proof.
  intros Hinv Hr Hd. destruct (Hr name (right_fields (read_entry s r))) as (t & u & ma & co & o & q & Hc & Hwf & Hp).
  { by exists r. }
  unfold right_fields in Hc. injection Hc as Hb <- <-. exists t, u, ma, co. split_and!; [|done|done].
  destruct (wf_type _ _ _ _ _ _ Hwf) as [Ht _]. destruct (wf_urefs _ _ _ _ _ _ Hwf) as [Hu _].
  apply described_packed; [by eapply denotes_bits|done..|lia].
Qed.

Lemma wf_has t u ma co o q m :
  wf_right t u ma co o q -> has t m = true ->
  m = MACH_PORT_TYPE_SEND \/ m = MACH_PORT_TYPE_RECEIVE \/ m = MACH_PORT_TYPE_SEND_ONCE ->
  has t MACH_PORT_TYPE_PORT_RIGHTS = true /\ has t MACH_PORT_TYPE_DEAD_NAME = false /\ o <> IO_NULL /\
  (m = MACH_PORT_TYPE_SEND_ONCE -> t = MACH_PORT_TYPE_SEND_ONCE) /\
  (m = MACH_PORT_TYPE_SEND \/ m = MACH_PORT_TYPE_SEND_ONCE -> has t MACH_PORT_TYPE_SEND_RIGHTS = true).
Proof. intros Hwf Hh Hm. destruct Hwf; destruct Hm as [->|[->| ->]]; try done; split_and!; try done; by intros [?|?]. Qed.

(** An entry the common cases found, and its port. *)
Record found (s : ipc_space) (w : world) (name type index port : Z) (p : ipc_port) : Prop := {
  fo_lookup : ipc_entry_lookup s name = (s, Some (TableEntry index));
  fo_index : index = MACH_PORT_INDEX name;
  fo_range : 0 < index < is_table_size s;
  fo_object : ie_object (tget (is_table s) index) = port;
  fo_has : has (ie_bits (tget (is_table s) index)) type = true;
  fo_gen : IE_BITS_GEN (ie_bits (tget (is_table s) index)) = MACH_PORT_GEN name;
  fo_dead : has (ie_bits (tget (is_table s) index)) MACH_PORT_TYPE_DEAD_NAME = false;
  fo_send : type <> MACH_PORT_TYPE_RECEIVE ->
    has (ie_bits (tget (is_table s) index)) MACH_PORT_TYPE_SEND_RIGHTS = true;
  fo_sonce : type = MACH_PORT_TYPE_SEND_ONCE -> exists co,
    described (ie_bits (tget (is_table s) index)) MACH_PORT_TYPE_SEND_ONCE 1 false co;
  fo_null : port <> IO_NULL;
  fo_port : w_ports w !! port = Some p;
  fo_refs : 0 < ip_references p;
  fo_active : type = MACH_PORT_TYPE_RECEIVE -> ip_active p = true
}.

Lemma fast_lookup_found s g w name mask coll type index entry :
  space_inv None s -> rights_ok (s, g) w -> u32_range name ->
  type = MACH_PORT_TYPE_SEND \/ type = MACH_PORT_TYPE_RECEIVE \/ type = MACH_PORT_TYPE_SEND_ONCE ->
  coll = 0 \/ coll = IE_BITS_COLLISION -> mask = Z.lor coll type ->
  fast_lookup s name mask type = Some (index, entry) ->
  entry = tget (is_table s) index /\ Z.land (ie_bits entry) coll = 0 /\
  exists p, found s w name type index (ie_object entry) p.
Proof.
  intros Hinv Hro Hn Htype Hcoll Hmask Hf.
  destruct (fast_lookup_spec s name mask coll type index entry) as (Hl & Hd & -> & Hi & Hg & Hh & Hc);
    [done|done|by destruct Htype as [->|[->| ->]]..|done|done|done|]. split_and!; [done|done|].
  destruct (entry_wf s g w _ _ Hinv Hro Hd) as (t & u & ma & co & Hde & Hwf & Hp). simpl in Hde, Hwf, Hp.
  assert (Hht : forall m, Z.land m IE_BITS_TYPE_MASK = m -> has (ie_bits (tget (is_table s) index)) m = has t m).
  { intros m Hm. rewrite (has_type _ m Hm). by rewrite (b_type _ _ _ _ _ Hde). }
  assert (Hth : has t type = true) by (rewrite <- Hht; [done|by destruct Htype as [->|[->| ->]]]).
  destruct (wf_has _ _ _ _ _ _ _ Hwf Hth Htype) as (H1 & H2 & H3 & H4 & H5).
  destruct (Hp H1) as (p & Hp1 & Hp2 & Hp3). destruct (table_denotes_index _ _ _ _ Hinv Hd) as (_ & Hr & _).
  exists p. split; try done; try (rewrite Hht by done; done).
  - intros Hne. rewrite Hht by done. apply H5. destruct Htype as [->|[->| ->]]; auto. done.
  - intros ->. specialize (H4 eq_refl). subst t. inversion Hwf; subst. eauto.
  - intros ->. destruct (ip_active p); [done|]. destruct (Hp3 eq_refl) as [->| ->]; done.
Qed.

(** ** Copyin *)

Definition take_send (p : ipc_port) : ipc_port :=
  set_ip_references (u32 (ip_references p + 1)) (set_ip_srights (u32 (ip_srights p + 1)) p).
Definition take_sonce (p : ipc_port) : ipc_port :=
  set_ip_references (u32 (ip_references p + 1)) (set_ip_sorights (u32 (ip_sorights p + 1)) p).

Lemma take_run port p w f :
  w_ports w !! port = Some p ->
  (update_port port f;; ip_reference port) w
    = Some (tt, put_port port (set_ip_references (u32 (ip_references (f p) + 1)) (f p)) w).
Proof.
  intros Hp. erewrite bind_run; [|by apply update_port_run]. unfold ip_reference.
  rewrite (update_port_run _ _ (f p)) by apply put_port_lookup. by rewrite put_port_put.
Qed.

Lemma on_world_bind {Sp A B} (m : M world A) (f : A -> M world B) (st : Sp * world) :
  on_world (m ≫= f) st = (on_world m ≫= fun x => on_world (f x)) st.
Proof. unfold on_world, mbind, M_bind. by destruct (m st.2) as [[]|]. Qed.

(** Two steps on a port taken as one. *)
Lemma take_bind {Sp B} port f (k : unit -> M (Sp * world) B) s w p :
  w_ports w !! port = Some p ->
  (on_world (update_port port f);; on_world (ip_reference port) ≫= k) (s, w)
    = k tt (s, put_port port (set_ip_references (u32 (ip_references (f p) + 1)) (f p)) w).
Proof.
  intros Hp. pose proof (take_run port p w f Hp) as Hr. revert Hr. unfold on_world, mbind, M_bind. simpl.
  destruct (update_port port f w) as [[[] w1]|]; [|done]. simpl. by intros ->.
Qed.

Lemma check_alive st port name r p :
  w_ports st.2 !! port = Some p -> ip_active p = true -> ipc_right_check port name r st = Some (false, st).
Proof.
  intros Hp Ha. destruct st as [s w]. unfold ipc_right_check. step_world ltac:(by apply port_at_run). by rewrite Ha.
Qed.

Lemma copy_send_run s g w name index port p deadok :
  found s w name MACH_PORT_TYPE_SEND index port p -> ip_active p = true ->
  ipc_right_copyin name (TableEntry index) MACH_MSG_TYPE_COPY_SEND deadok ((s, g), w)
    = Some ((KERN_SUCCESS, port, IP_NULL), ((s, g), put_port port (take_send p) w)).
Proof.
  intros F Ha. unfold ipc_right_copyin, ie_read, gets. unfold mbind at 1, M_bind at 1. simpl.
  unfold copyin_copy_send. rewrite (fo_object _ _ _ _ _ _ _ F), (fo_dead _ _ _ _ _ _ _ F), (fo_send _ _ _ _ _ _ _ F) by done.
  simpl. erewrite bind_run; [|eapply check_alive; [apply F|done]].
  rewrite (fo_has _ _ _ _ _ _ _ F). simpl. by rewrite (take_bind _ _ _ _ _ p) by apply F.
Qed.

Lemma make_sonce_run s g w name index port p p' deadok :
  found s w name MACH_PORT_TYPE_RECEIVE index port p -> forall w', w_ports w' !! port = Some p' ->
  ipc_right_copyin name (TableEntry index) MACH_MSG_TYPE_MAKE_SEND_ONCE deadok ((s, g), w')
    = Some ((KERN_SUCCESS, port, IP_NULL), ((s, g), put_port port (take_sonce p') w')).
Proof.
  intros F w' Hp'. unfold ipc_right_copyin, ie_read, gets. unfold mbind at 1, M_bind at 1. simpl.
  unfold copyin_make_send_once. rewrite (fo_object _ _ _ _ _ _ _ F), (fo_has _ _ _ _ _ _ _ F). simpl.
  by rewrite (take_bind _ _ _ _ _ p').
Qed.

Lemma lookup_run s g w name type index port p :
  found s w name type index port p ->
  of_space (fun s => ns_lookup s name) ((s, g), w) = Some (Some (TableEntry index), ((s, g), w)).
Proof. intros F. unfold of_space. simpl. by rewrite (fo_lookup _ _ _ _ _ _ _ F). Qed.

Lemma dealloc_nonempty s g w name type index port p w' :
  found s w name type index port p -> IE_BITS_TYPE type = type ->
  dealloc_if_empty name (TableEntry index) ((s, g), w') = Some (tt, ((s, g), w')).
Proof.
  intros F Ht. unfold dealloc_if_empty, ie_read, gets, mbind, M_bind. simpl.
  rewrite (proj2 (Z.eqb_neq _ _)); [done|]. intros Hz. pose proof (fo_has _ _ _ _ _ _ _ F) as Hh.
  rewrite (has_type _ type) in Hh by done. by rewrite Hz in Hh.
Qed.

(** The header as the general case reads it. *)
Lemma header_types mbits r l :
  0 <= r < 256 -> 0 <= l < 256 -> MACH_MSGH_BITS_PORTS mbits = MACH_MSGH_BITS r l ->
  MACH_MSGH_BITS_REMOTE mbits = r /\ MACH_MSGH_BITS_LOCAL mbits = l.
Proof.
  intros Hr Hl Heq. unfold MACH_MSGH_BITS_REMOTE, MACH_MSGH_BITS_LOCAL.
  assert (H1 : forall m, Z.land MACH_MSGH_BITS_PORTS_MASK m = m -> Z.land mbits m = Z.land (MACH_MSGH_BITS r l) m).
  { intros m Hm. rewrite <- Heq. unfold MACH_MSGH_BITS_PORTS. by rewrite <- Z.land_assoc, Hm. }
  rewrite !H1 by done. unfold MACH_MSGH_BITS. rewrite !Z.land_lor_distr_l.
  change MACH_MSGH_BITS_REMOTE_MASK with (Z.ones 8). change MACH_MSGH_BITS_LOCAL_MASK with (Z.shiftl (Z.ones 8) 8).
  rewrite <- Z.shiftl_land, !Z.land_ones by lia. rewrite (Z.mod_small r), (Z.mod_small l) by lia.
  assert (Hz : Z.shiftl l 8 mod 2 ^ 8 = 0) by (rewrite Z.shiftl_mul_pow2 by lia; apply Z.mod_mul; lia).
  assert (Hz' : Z.land r (Z.shiftl (Z.ones 8) 8) = 0).
  { apply Z.bits_inj'. intros i Hi. rewrite Z.land_spec, Z.bits_0. destruct (Z_lt_le_dec i 8).
    - by rewrite (Z.shiftl_spec_low _ _ i) by lia; rewrite andb_false_r.
    - rewrite <- (Z.mod_small r (2 ^ 8)) by lia. by rewrite Z.mod_pow2_bits_high by lia. }
  rewrite Hz, Hz', Z.lor_0_r, Z.lor_0_l, Z.shiftr_shiftl_l by lia. by rewrite Z.shiftl_0_r.
Qed.

Abbreviation sys := ((ipc_space * Global.ghash) * world)%type.

(** A common case gives up, or returns what the general case returns. *)
Definition agrees (case : option (option Z * sys)) (general : option (Z * sys)) (st : sys) : Prop :=
  case = Some (None, st) \/
  exists st', case = Some (Some MACH_MSG_SUCCESS, st') /\ general = Some (MACH_MSG_SUCCESS, st').

(** What the equivalence of a copyin relies on. *)
Record ready (s : ipc_space) (g : Global.ghash) (w : world) (kmsg : Z) (k : ipc_kmsg) : Prop := {
  rd_inv : space_inv None s;
  rd_rights : rights_ok (s, g) w;
  rd_kmsg : w_kmsgs w !! kmsg = Some k;
  rd_remote : u32_range (msgh_remote_port k);
  rd_local : u32_range (msgh_local_port k);
  rd_refs : forall port p, w_ports w !! port = Some p -> ip_references p < u32_max - 2;
  rd_dead : w_ports w !! IO_DEAD = None
}.

Lemma header_at_run (w : world) kmsg k : w_kmsgs w !! kmsg = Some k -> kmsg_at kmsg w = Some (k, w).
Proof. intros Hk. unfold kmsg_at. by rewrite Hk. Qed.

(** The general case after the checks of the header. *)
Definition general_gets (dest_name reply_name dest_type reply_type : Z) : M sys acquired :=
  if dest_name =? reply_name then copyin_same env dest_name dest_type reply_type
  else if negb (MACH_PORT_VALID reply_name) then copyin_no_reply dest_name reply_name dest_type
  else copyin_both env dest_name reply_name dest_type reply_type.

Lemma general_run s g w kmsg k dest_type reply_type got st' :
  let mbits := clear (msgh_bits k) MACH_MSGH_BITS_CIRCULAR in
  w_kmsgs w !! kmsg = Some k -> is_active s = true ->
  MACH_MSGH_BITS_PORTS mbits = MACH_MSGH_BITS dest_type reply_type ->
  MACH_MSG_TYPE_PORT_ANY_SEND dest_type = true ->
  reply_type = 0 /\ msgh_local_port k = MACH_PORT_NULL \/ MACH_MSG_TYPE_PORT_ANY_SEND reply_type = true ->
  general_gets (msgh_remote_port k) (msgh_local_port k) dest_type reply_type ((s, g), w) = Some (inl got, st') ->
  copyin_header_general env kmsg MACH_PORT_NULL ((s, g), w)
    = copyin_finish kmsg mbits MACH_PORT_NULL IP_NULL (msgh_remote_port k) (msgh_local_port k) dest_type reply_type got st'.
Proof.
  intros mbits Hk Ha Hports Hdt Hrt Hgot. unfold copyin_header_general.
  step_world ltac:(by apply header_at_run). fold mbits.
  assert (Hb : forall x, MACH_MSG_TYPE_PORT_ANY_SEND x = true -> 0 <= x < 256).
  { unfold MACH_MSG_TYPE_PORT_ANY_SEND, MACH_MSG_TYPE_MOVE_SEND, MACH_MSG_TYPE_MAKE_SEND_ONCE. intros. lia. }
  assert (Hr : 0 <= reply_type < 256) by (destruct Hrt as [[-> _]|?]; [lia|auto]).
  destruct (header_types _ _ _ (Hb _ Hdt) Hr Hports) as [-> ->]. rewrite Hdt. cbn [negb].
  assert (Hok : (if reply_type =? 0 then negb (msgh_local_port k =? MACH_PORT_NULL)
                 else negb (MACH_MSG_TYPE_PORT_ANY_SEND reply_type)) = false).
  { destruct Hrt as [[-> ->]|Hrt]; [done|]. destruct (Z.eqb_spec reply_type 0) as [->|]; [done|]. by rewrite Hrt. }
  rewrite Hok. unfold gets at 1. unfold mbind at 1, M_bind at 1. simpl. rewrite Ha. cbn [negb].
  unfold mbind at 1, M_bind at 1. unfold header_notify. rewrite Z.eqb_refl. simpl.
  by erewrite bind_run; [|exact Hgot].
Qed.

Lemma finish_run kmsg mbits dest_name reply_name dest_type reply_type dest reply dt rt st :
  ipc_object_copyin_type dest_type = Some dt -> ipc_object_copyin_type reply_type = Some rt ->
  copyin_finish kmsg mbits MACH_PORT_NULL IP_NULL dest_name reply_name dest_type reply_type (dest, reply, IP_NULL, IP_NULL) st
    = (r ← header_done kmsg mbits dt rt dest reply; match r with Some mr => mret mr | None => crash end) st.
Proof.
  intros Hd Hr. unfold copyin_finish, header_done. rewrite Hd, Hr. simpl.
  unfold notify_port_deleted. simpl. unfold mbind, M_bind. simpl.
  by destruct (on_world _ st) as [[[] ?]|].
Qed.

Lemma header_done_agrees kmsg mbits dest_name reply_name dest_type reply_type dest reply dt rt (s : ipc_space * Global.ghash) w st k :
  ipc_object_copyin_type dest_type = Some dt -> ipc_object_copyin_type reply_type = Some rt ->
  w_kmsgs w !! kmsg = Some k ->
  agrees (header_done kmsg mbits dt rt dest reply (s, w))
    (copyin_finish kmsg mbits MACH_PORT_NULL IP_NULL dest_name reply_name dest_type reply_type
      (dest, reply, IP_NULL, IP_NULL) (s, w)) st.
Proof.
  intros Hd Hr Hk. rewrite (finish_run _ _ _ _ _ _ _ _ dt rt) by done. unfold header_done.
  unfold update_kmsg, on_world, mbind, M_bind. simpl. rewrite (header_at_run _ _ _ Hk). simpl. right. eauto.
Qed.

Lemma of_table_run {A B} (f : ipc_space -> A) (k : A -> M sys B) s g w :
  (of_table f ≫= k) ((s, g), w) = k (f s) ((s, g), w).
Proof. done. Qed.

Lemma lookup_fails s name mask type : fast_lookup s name mask type = None \/ exists x, fast_lookup s name mask type = Some x.
Proof. destruct (fast_lookup s name mask type); eauto. Qed.

(** A name the common cases found is not null. *)
Lemma found_not_null s w name type index port p : u32_range name -> found s w name type index port p -> name <> MACH_PORT_NULL.
Proof.
  intros Hn F ->. pose proof (fo_range _ _ _ _ _ _ _ F) as Hr. rewrite (fo_index _ _ _ _ _ _ _ F) in Hr.
  unfold MACH_PORT_INDEX in Hr. change (Z.shiftr MACH_PORT_NULL 8) with 0 in Hr.
  change MACH_PORT_NULL with 0 in Hr. destruct PORT_GENERATIONS; lia.
Qed.

Lemma async_agrees s g w kmsg k :
  let mbits := clear (msgh_bits k) MACH_MSGH_BITS_CIRCULAR in
  ready s g w kmsg k -> MACH_MSGH_BITS_PORTS mbits = MACH_MSGH_BITS MACH_MSG_TYPE_COPY_SEND 0 ->
  agrees (copyin_async kmsg mbits (msgh_remote_port k) (msgh_local_port k) ((s, g), w))
    (copyin_header_general env kmsg MACH_PORT_NULL ((s, g), w)) ((s, g), w).
Proof.
  intros mbits [Hinv Hro Hk Hrn Hln Hrefs Hdead] Hports. unfold copyin_async.
  destruct (Z.eqb_spec (msgh_local_port k) MACH_PORT_NULL) as [Hl|]; [|by left]. cbn [negb].
  rewrite of_table_run. destruct (is_active s) eqn:Ha; [|by left]. cbn [negb]. rewrite of_table_run.
  destruct (fast_lookup s (msgh_remote_port k) MACH_PORT_TYPE_SEND MACH_PORT_TYPE_SEND) as [[index entry]|] eqn:Hf; [|by left].
  destruct (fast_lookup_found s g w _ MACH_PORT_TYPE_SEND 0 MACH_PORT_TYPE_SEND _ _ Hinv Hro Hrn
    ltac:(auto) ltac:(auto) eq_refl Hf) as (-> & _ & p & F).
  step_world ltac:(apply port_at_run, F). destruct (ip_active p) eqn:Hp; [|by left]. cbn [negb].
  rewrite (take_bind _ _ _ _ _ p) by apply F.
  erewrite (general_run s g w kmsg k); [|done|done|exact Hports|done|by left|]; cycle 1.
  { unfold general_gets. rewrite Hl. rewrite (proj2 (Z.eqb_neq _ _)) by (by eapply found_not_null).
    unfold copyin_no_reply. simpl. erewrite bind_run; [|by eapply lookup_run]. cbn beta iota. unfold copyin_dest.
    erewrite bind_run; [|by eapply copy_send_run]. cbn beta iota. rewrite bool_decide_true by done.
    erewrite bind_run; [|by eapply dealloc_nonempty]. reflexivity. }
  rewrite Hl. by eapply header_done_agrees.
Qed.

(** The general case of a request takes a reference to the reply port while it
    works; in the end the counts are the same. *)
Lemma reply_reference port p w :
  0 < ip_references p -> ip_references p < u32_max - 1 ->
  released port (take_sonce (set_ip_references (u32 (ip_references p + 1)) p)) w = put_port port (take_sonce p) w.
Proof.
  intros Hp0 Hp1. unfold u32_max in Hp1. unfold released, take_sonce. simpl.
  rewrite (u32_id (ip_references p + 1)) by (unfold u32_range, u32_max; lia).
  rewrite (u32_id (ip_references p + 1 + 1)) by (unfold u32_range, u32_max; lia).
  replace (ip_references p + 1 + 1 - 1) with (ip_references p + 1) by lia.
  rewrite u32_id by (unfold u32_range, u32_max; lia). by rewrite (proj2 (Z.eqb_neq _ _)) by lia.
Qed.

Lemma check_make_sonce s g w name index port p w' :
  found s w name MACH_PORT_TYPE_RECEIVE index port p ->
  ipc_right_copyin_check name (TableEntry index) MACH_MSG_TYPE_MAKE_SEND_ONCE ((s, g), w') = Some (true, ((s, g), w')).
Proof.
  intros F. unfold ipc_right_copyin_check, ie_read, gets, mbind, M_bind. simpl. by rewrite (fo_has _ _ _ _ _ _ _ F).
Qed.

Lemma same_gets s g w name index port p r :
  found s w name MACH_PORT_TYPE_SEND index port p -> ip_active p = true ->
  found s w name MACH_PORT_TYPE_RECEIVE index port r ->
  copyin_same env name MACH_MSG_TYPE_COPY_SEND MACH_MSG_TYPE_MAKE_SEND_ONCE ((s, g), w)
    = Some (inl (port, port, IP_NULL, IP_NULL), ((s, g), put_port port (take_sonce (take_send p)) (put_port port (take_send p) w))).
Proof.
  intros F Ha G. unfold copyin_same. erewrite bind_run; [|by eapply lookup_run]. cbn beta iota.
  erewrite bind_run; [|by eapply check_make_sonce]. cbn [negb].
  erewrite bind_run; [|apply ports_run_alone]. unfold copyin_same_entry. simpl. unfold copyin_dest.
  erewrite bind_run; [|by eapply copy_send_run]. cbn beta iota. rewrite bool_decide_true by done.
  erewrite bind_run; [|apply ports_run_alone].
  by erewrite bind_run; [|eapply make_sonce_run; [done|apply put_port_lookup]].
Qed.

Lemma both_gets s g w dest_name dest_index dest p reply_name reply_index reply r r' :
  found s w dest_name MACH_PORT_TYPE_SEND dest_index dest p -> ip_active p = true ->
  found s w reply_name MACH_PORT_TYPE_RECEIVE reply_index reply r ->
  let w1 := put_port dest (take_send p) w in
  w_ports w1 !! reply = Some r' -> 0 < ip_references r' -> ip_references r' < u32_max - 1 -> reply <> IO_DEAD ->
  copyin_both env dest_name reply_name MACH_MSG_TYPE_COPY_SEND MACH_MSG_TYPE_MAKE_SEND_ONCE ((s, g), w)
    = Some (inl (dest, reply, IP_NULL, IP_NULL), ((s, g), put_port reply (take_sonce r') w1)).
Proof.
  intros F Ha G w1 Hr' Hr0 Hr1 Hnd. unfold copyin_both. erewrite bind_run; [|by eapply lookup_run]. cbn beta iota.
  erewrite bind_run; [|by eapply lookup_run]. cbn beta iota. erewrite bind_run; [|by eapply check_make_sonce]. cbn [negb].
  erewrite bind_run; [|apply ports_run_alone]. unfold copyin_dest. erewrite bind_run; [|by eapply copy_send_run]. cbn beta iota.
  rewrite bool_decide_true by done. fold w1. unfold copyin_reply, ie_read, gets. unfold mbind at 1, M_bind at 1. simpl.
  rewrite (fo_object _ _ _ _ _ _ _ G). pose proof (fo_null _ _ _ _ _ _ _ G) as Hnull.
  change IP_NULL with IO_NULL. rewrite !(proj2 (Z.eqb_neq reply IO_NULL)) by done. cbn [negb when].
  step_world ltac:(unfold ip_reference; by apply update_port_run). erewrite bind_run; [|apply ports_run_alone].
  erewrite bind_run; [|eapply make_sonce_run; [done|apply put_port_lookup]]. cbn beta iota.
  rewrite bool_decide_true by done. cbn [negb]. erewrite bind_run; [|apply ports_run_alone].
  rewrite (proj2 (Z.eqb_neq reply IO_DEAD)) by done. cbn [negb andb]. unfold mbind at 1, M_bind at 1. simpl.
  erewrite bind_run; [|by eapply dealloc_nonempty]. erewrite bind_run; [|by eapply dealloc_nonempty].
  step_world ltac:(apply port_release_run, put_port_lookup).
  rewrite reply_reference by done. by rewrite !put_port_put.
Qed.

Lemma found_valid s w name type index port p :
  space_inv None s -> u32_range name -> found s w name type index port p -> MACH_PORT_VALID name = true.
Proof.
  intros [_ I] Hn F. unfold MACH_PORT_VALID. rewrite (proj2 (Z.eqb_neq name MACH_PORT_NULL)) by (by eapply found_not_null).
  destruct (Z.eqb_spec name MACH_PORT_DEAD) as [->|]; [|done]. exfalso.
  pose proof (inv_size _ _ _ _ _ _ _ _ I) as Hs. pose proof (fo_range _ _ _ _ _ _ _ F) as Hr.
  rewrite (fo_index _ _ _ _ _ _ _ F), INDEX_arith in Hr. rewrite index_limit_val in Hs.
  unfold MACH_PORT_DEAD, u32_max in Hr. change (4294967295 / 256) with 16777215 in Hr. destruct PORT_GENERATIONS; lia.
Qed.

Lemma port_at_take s g w k (b : M sys (option Z)) port p :
  w_ports w !! port = Some p -> (p ← on_world (port_at port); if negb (ip_active p) || k then mret None else b) ((s, g), w)
    = (if negb (ip_active p) || k then mret None else b) ((s, g), w).
Proof. intros Hp. by step_world ltac:(by apply port_at_run). Qed.

Lemma request_agrees s g w kmsg k :
  let mbits := clear (msgh_bits k) MACH_MSGH_BITS_CIRCULAR in
  ready s g w kmsg k ->
  MACH_MSGH_BITS_PORTS mbits = MACH_MSGH_BITS MACH_MSG_TYPE_COPY_SEND MACH_MSG_TYPE_MAKE_SEND_ONCE ->
  agrees (copyin_request env kmsg mbits (msgh_remote_port k) (msgh_local_port k) ((s, g), w))
    (copyin_header_general env kmsg MACH_PORT_NULL ((s, g), w)) ((s, g), w).
Proof.
  intros mbits [Hinv Hro Hk Hrn Hln Hrefs Hdead] Hports. unfold copyin_request.
  rewrite of_table_run. destruct (is_active s) eqn:Ha; [|by left]. cbn [negb]. rewrite of_table_run.
  destruct (fast_lookup s (msgh_remote_port k) MACH_PORT_TYPE_SEND MACH_PORT_TYPE_SEND) as [[index entry]|] eqn:Hf; [|by left].
  destruct (fast_lookup_found s g w _ MACH_PORT_TYPE_SEND 0 MACH_PORT_TYPE_SEND _ _ Hinv Hro Hrn
    ltac:(auto) ltac:(auto) eq_refl Hf) as (-> & _ & p & F). rewrite of_table_run.
  destruct (fast_lookup s (msgh_local_port k) MACH_PORT_TYPE_RECEIVE MACH_PORT_TYPE_RECEIVE) as [[rindex rentry]|] eqn:Hg; [|by left].
  destruct (fast_lookup_found s g w _ MACH_PORT_TYPE_RECEIVE 0 MACH_PORT_TYPE_RECEIVE _ _ Hinv Hro Hln
    ltac:(auto) ltac:(auto) eq_refl Hg) as (-> & _ & r & G).
  cbv zeta. rewrite (port_at_take _ _ _ _ _ _ p) by apply F.
  set (dest := ie_object (tget (is_table s) index)) in *. set (reply := ie_object (tget (is_table s) rindex)) in *.
  destruct (ip_active p) eqn:Hp; [|by left]. destruct (he_lock_try env reply); [|by left]. cbn [negb orb].
  rewrite (take_bind _ _ _ _ _ p) by apply F. fold (take_send p). set (w1 := put_port dest (take_send p) w).
  assert (Hr' : exists r', w_ports w1 !! reply = Some r' /\ 0 < ip_references r' /\ ip_references r' < u32_max - 1).
  { unfold w1. destruct (decide (dest = reply)) as [<-|Hne].
    - rewrite put_port_lookup. eexists. split; [done|]. pose proof (Hrefs _ _ (fo_port _ _ _ _ _ _ _ F)).
      pose proof (fo_refs _ _ _ _ _ _ _ F). unfold take_send, u32_max in *. simpl.
      rewrite u32_id by (unfold u32_range, u32_max; lia). lia.
    - rewrite put_port_other by done. exists r. pose proof (Hrefs _ _ (fo_port _ _ _ _ _ _ _ G)).
      split; [apply G|]. split; [apply G|lia]. }
  destruct Hr' as (r' & Hr' & Hr0 & Hr1). rewrite (take_bind _ _ _ _ _ r') by done. fold (take_sonce r').
  assert (Hgot : general_gets (msgh_remote_port k) (msgh_local_port k) MACH_MSG_TYPE_COPY_SEND MACH_MSG_TYPE_MAKE_SEND_ONCE
    ((s, g), w) = Some (inl (dest, reply, IP_NULL, IP_NULL), ((s, g), put_port reply (take_sonce r') w1))).
  { unfold general_gets. destruct (Z.eqb_spec (msgh_remote_port k) (msgh_local_port k)) as [Heq|Hne].
    - assert (Hi : index = rindex) by (rewrite (fo_index _ _ _ _ _ _ _ F), (fo_index _ _ _ _ _ _ _ G); by rewrite Heq).
      subst rindex. fold dest in reply. subst reply. rewrite <- Heq in G.
      rewrite (same_gets s g w _ _ _ p r) by done. unfold w1 in Hr'. rewrite put_port_lookup in Hr'. by injection Hr' as <-.
    - rewrite (found_valid _ _ _ _ _ _ _ Hinv Hln G). cbn [negb]. eapply both_gets; try done.
      intros Hd. pose proof (fo_port _ _ _ _ _ _ _ G) as Hx. by rewrite Hd, Hdead in Hx. }
  erewrite (general_run s g w kmsg k); [|done|done|exact Hports|done|by right|exact Hgot].
  by eapply header_done_agrees.
Qed.

(** The entry of a send-once right, emptied and put on the free list. *)
Definition freed (table : list ipc_entry) (index gen : Z) : list ipc_entry :=
  tset (tset table index (fun e => mk_entry gen IO_NULL (ie_next (tget table 0)) (ie_index e))) 0 (set_next index).

Lemma set_table_run (f : list ipc_entry -> list ipc_entry) B (k : unit -> M sys B) s g w :
  (set_table f ≫= k) ((s, g), w) = k tt ((with_table (f (is_table s)) s, g), w).
Proof. done. Qed.

(** Prove that two ways to write to a table give the same table. *)
Ltac same_table :=
  apply table_ext; [by rewrite ?tlen_tset|];
  let j := fresh "j" in let Hj := fresh "Hj" in intros j Hj; rewrite ?tlen_tset in Hj;
  repeat (rewrite tget_tset by (rewrite ?tlen_tset; lia));
  repeat match goal with |- context [?x =? ?y] => destruct (Z.eqb_spec x y); subst; try lia; try done end.

Lemma reply_gets s g w name index port p :
  space_inv None s -> found s w name MACH_PORT_TYPE_SEND_ONCE index port p -> ip_active p = true ->
  ie_request (tget (is_table s) index) = 0 -> has (ie_bits (tget (is_table s) index)) IE_BITS_COLLISION = false ->
  name <> MACH_PORT_NULL ->
  general_gets name MACH_PORT_NULL MACH_MSG_TYPE_MOVE_SEND_ONCE 0 ((s, g), w)
    = Some (inl (port, MACH_PORT_NULL, IP_NULL, IP_NULL), ((with_table (freed (is_table s) index (MACH_PORT_GEN name)) s, g), w)).
Proof.
  intros [_ I] F Ha Hreq Hcoll Hn. unfold general_gets. rewrite (proj2 (Z.eqb_neq _ _)) by done. simpl.
  unfold copyin_no_reply. erewrite bind_run; [|by eapply lookup_run]. cbn beta iota. unfold copyin_dest.
  destruct (fo_sonce _ _ _ _ _ _ _ F eq_refl) as [co Hde]. pose proof (fo_range _ _ _ _ _ _ _ F) as Hr.
  pose proof (i_len _ _ _ _ _ _ _ _ I) as Hlen.
  pose proof (fo_object _ _ _ _ _ _ _ F) as Ho. pose proof (fo_dead _ _ _ _ _ _ _ F) as Hd1.
  pose proof (fo_send _ _ _ _ _ _ _ F ltac:(done)) as Hs1. pose proof (fo_has _ _ _ _ _ _ _ F) as Hh1.
  pose proof (fo_gen _ _ _ _ _ _ _ F) as Hgen.
  set (e := tget (is_table s) index) in *.
  set (s1 := write_entry s (TableEntry index) (ie_bits e) IO_NULL 0).
  assert (He1 : tget (is_table s1) index = mk_entry (ie_bits e) IO_NULL 0 (ie_index e))
    by (unfold s1; simpl; rewrite tget_tset_eq by lia; done).
  set (s2 := write_entry s1 (TableEntry index) (clear (ie_bits e) MACH_PORT_TYPE_SEND_ONCE) IO_NULL 0).
  assert (Hrun : ipc_right_copyin name (TableEntry index) MACH_MSG_TYPE_MOVE_SEND_ONCE false ((s, g), w)
            = Some ((KERN_SUCCESS, port, IP_NULL), ((s2, g), w))).
  { unfold ipc_right_copyin, ie_read, gets. unfold mbind at 1, M_bind at 1. simpl. fold e. unfold copyin_move_send_once.
    rewrite Ho, Hd1, Hs1. cbn [negb]. erewrite bind_run; [|eapply check_alive; [apply F|done]]. rewrite Hh1. cbn [negb].
    unfold ipc_right_dncancel_macro, ie_read, gets. unfold mbind at 1, M_bind at 1. unfold mbind at 1, M_bind at 1. simpl.
    fold e. rewrite Hreq. simpl. unfold ie_write, ie_read, gets, on_space, modify, mbind, M_bind. simpl. fold e.
    rewrite Hreq. fold s1. rewrite tget_tset_eq by lia. by simpl. }
  erewrite bind_run; [|exact Hrun]. cbn beta iota. rewrite bool_decide_true by done.
  destruct (clear_type _ MACH_PORT_TYPE_SEND_ONCE _ _ _ _ Hde ltac:(done) ltac:(done)) as [Hd2 Hfr].
  assert (He2 : tget (is_table s2) index = mk_entry (clear (ie_bits e) MACH_PORT_TYPE_SEND_ONCE) IO_NULL 0 (ie_index e)).
  { unfold s2. simpl. rewrite tget_tset_eq by (rewrite tlen_tset; lia). by rewrite tget_tset_eq by lia. }
  assert (Hdealloc : dealloc_if_empty name (TableEntry index) ((s2, g), w)
    = Some (tt, ((with_table (freed (is_table s) index (MACH_PORT_GEN name)) s, g), w))).
  { unfold dealloc_if_empty, ie_read, gets. unfold mbind, M_bind. cbn [ns_read eq_names space_names read_entry fst].
    rewrite He2. cbn [ie_bits]. rewrite (b_type _ _ _ _ _ Hd2).
    replace (Z.ldiff MACH_PORT_TYPE_SEND_ONCE MACH_PORT_TYPE_SEND_ONCE =? MACH_PORT_TYPE_NONE) with true by done.
    unfold when, entry_dealloc, on_space, modify. cbn [ns_dealloc eq_names space_names fst snd].
    do 3 f_equal. unfold ipc_entry_dealloc. rewrite <- (fo_index _ _ _ _ _ _ _ F).
    change (is_table_size s2) with (is_table_size s). rewrite (proj2 (Z.ltb_lt index (is_table_size s))) by lia.
    rewrite bool_decide_true by done. cbn [andb]. rewrite He2. cbn [ie_bits].
    rewrite (same_frame_COLLISION _ _ Hfr), Hcoll. f_equal. unfold with_table. simpl. f_equal. unfold freed.
    same_table.
    unfold set_next, set_request, set_bits. simpl. by rewrite land_GEN_MASK, (same_frame_GEN _ _ Hfr), Hgen. }
  erewrite bind_run; [|exact Hdealloc]. reflexivity.
Qed.

Lemma reply_agrees s g w kmsg k :
  let mbits := clear (msgh_bits k) MACH_MSGH_BITS_CIRCULAR in
  ready s g w kmsg k -> MACH_MSGH_BITS_PORTS mbits = MACH_MSGH_BITS MACH_MSG_TYPE_MOVE_SEND_ONCE 0 ->
  agrees (copyin_reply_message kmsg mbits (msgh_remote_port k) (msgh_local_port k) ((s, g), w))
    (copyin_header_general env kmsg MACH_PORT_NULL ((s, g), w)) ((s, g), w).
Proof.
  intros mbits [Hinv Hro Hk Hrn Hln Hrefs Hdead] Hports. unfold copyin_reply_message.
  destruct (Z.eqb_spec (msgh_local_port k) MACH_PORT_NULL) as [Hl|]; [|by left]. cbn [negb].
  rewrite of_table_run. destruct (is_active s) eqn:Ha; [|by left]. cbn [negb]. rewrite of_table_run.
  destruct (fast_lookup s _ _ _) as [[index entry]|] eqn:Hf; [|by left].
  destruct (fast_lookup_found s g w _ _ IE_BITS_COLLISION MACH_PORT_TYPE_SEND_ONCE _ _ Hinv Hro Hrn
    ltac:(auto) ltac:(auto) eq_refl Hf) as (-> & Hcoll & p & F).
  destruct (Z.eqb_spec (ie_request (tget (is_table s) index)) 0) as [Hreq|]; [|by left]. cbn [negb]. cbv zeta.
  step_world ltac:(apply port_at_run, F). destruct (ip_active p) eqn:Hp; [|by left]. cbn [negb].
  rewrite !set_table_run. pose proof (fo_range _ _ _ _ _ _ _ F) as Hr. pose proof (i_len _ _ _ _ _ _ _ _ (proj2 Hinv)) as Hlen.
  erewrite (general_run s g w kmsg k); [|done|done|exact Hports|done|by left|]; cycle 1.
  { rewrite Hl. eapply (reply_gets s g w _ index _ p); try done.
    - unfold has. by rewrite Hcoll.
    - by eapply found_not_null. }
  rewrite Hl. simpl is_table.
  match goal with |- agrees (header_done _ _ _ _ _ _ ((?s1, _), _)) (copyin_finish _ _ _ _ _ _ _ _ _ ((?s2, _), _)) _ =>
    replace s1 with s2; [by eapply header_done_agrees|] end.
  unfold with_table. simpl. f_equal. unfold freed. same_table.
Qed.

(** The common cases of copyin are the general case. *)
Lemma copyin_header_eq s g w kmsg k notify :
  ready s g w kmsg k ->
  ipc_kmsg_copyin_header addr env kmsg notify ((s, g), w) = copyin_header_general env kmsg notify ((s, g), w).
Proof.
  intros Hr. unfold ipc_kmsg_copyin_header.
  assert (Hcase : agrees (copyin_common env kmsg notify ((s, g), w))
                    (copyin_header_general env kmsg notify ((s, g), w)) ((s, g), w)).
  { unfold copyin_common. step_world ltac:(apply header_at_run, Hr). cbv zeta.
    destruct (Z.eqb_spec notify MACH_PORT_NULL) as [->|]; [|by left]. cbn [negb].
    repeat (case_bool_decide || (match goal with |- context [?x =? ?y] => destruct (Z.eqb_spec x y) end));
      [by apply async_agrees|by apply request_agrees|by apply reply_agrees|by left]. }
  destruct Hcase as [Hc|(st' & Hc & Hg)].
  - by rewrite (bind_run _ _ _ _ _ Hc).
  - rewrite (bind_run _ _ _ _ _ Hc). by rewrite Hg.
Qed.

(** ** Copyout *)

(** The name by which the receiver knows the destination. *)
Definition dest_name_of (d : ipc_port) : Z := if ip_receiver d =? addr then ip_receiver_name d else MACH_PORT_NULL.

(** A send right, and the reference that goes with it, used up. *)
Definition used_send (d : ipc_port) : ipc_port := without_send (set_ip_references (u32 (ip_references d - 1)) d).
Definition used_send_events (d : ipc_port) : list event :=
  no_senders_events (set_ip_srights (u32 (ip_srights d - 1)) d).

Lemma without_send_receiver d : ip_receiver (without_send d) = ip_receiver d /\ ip_receiver_name (without_send d) = ip_receiver_name d.
Proof. unfold without_send. by destruct (no_senders_due _). Qed.

Lemma fast_copyout_send_run w dest d :
  w_ports w !! dest = Some d ->
  fast_copyout_send addr dest w = Some (dest_name_of d, emitted (used_send_events d) (put_port dest (used_send d) w)).
Proof.
  intros Hd. unfold fast_copyout_send, ip_release. run_ports.
  set (d1 := set_ip_references (u32 (ip_references d - 1)) d).
  pose proof (drop_and_notify_run (put_port dest d1 w) dest d1 (put_port_lookup _ _ _)) as Hdrop.
  rewrite put_port_put in Hdrop. unfold mbind, M_bind in Hdrop |- *.
  destruct (drop_send_right dest (put_port dest d1 w)) as [[ns w1]|]; [|done]. by rewrite Hdrop.
Qed.

Lemma copyout_dest_send_run w dest d :
  w_ports w !! dest = Some d ->
  ipc_object_copyout_dest addr dest MACH_MSG_TYPE_PORT_SEND w
    = Some (dest_name_of d, emitted (used_send_events d) (put_port dest (used_send d) w)).
Proof.
  intros Hd. unfold ipc_object_copyout_dest, ip_release. run_ports. simpl.
  set (d1 := set_ip_references (u32 (ip_references d - 1)) d).
  pose proof (drop_and_notify_run (put_port dest d1 w) dest d1 (put_port_lookup _ _ _)) as Hdrop.
  pose proof (drop_send_right_run _ _ _ (put_port_lookup w dest d1)) as Hrun. cbv zeta in Hrun.
  rewrite (bind_run _ _ _ _ _ Hrun) in Hdrop. rewrite (bind_run _ _ _ _ _ Hrun).
  rewrite put_port_put in Hdrop |- *. erewrite bind_run; [|apply port_at_run, put_port_lookup]. cbn beta.
  destruct (without_send_receiver d1) as [-> ->]. by rewrite (bind_run _ _ _ _ _ Hdrop).
Qed.

(** What the equivalence of a copyout relies on. *)
Record arrived (s : ipc_space) (w : world) (kmsg : Z) (k : ipc_kmsg) : Prop := {
  ar_inv : space_inv None s;
  ar_active : is_active s = true;
  ar_kmsg : w_kmsgs w !! kmsg = Some k;
  ar_dest : is_Some (w_ports w !! msgh_remote_port k);
  ar_reply : IP_VALID (msgh_local_port k) = true -> is_Some (w_ports w !! msgh_local_port k);
  ar_none : MACH_MSGH_BITS_LOCAL (msgh_bits k) = 0 -> msgh_local_port k = MACH_PORT_NULL;
  ar_refs : forall port p, w_ports w !! port = Some p -> 0 < ip_references p < u32_max - 1;
  ar_two : forall p, msgh_remote_port k = msgh_local_port k -> w_ports w !! msgh_remote_port k = Some p -> 1 < ip_references p
}.

Lemma copyout_finish_run (s : ipc_space * Global.ghash) w kmsg k mbits dest dest_type reply reply_name reply_type dest_name w' :
  copyout_header_dest addr env dest dest_type reply w = Some (dest_name, w') -> w_kmsgs w' !! kmsg = Some k ->
  copyout_finish addr env kmsg mbits dest dest_type reply reply_name reply_type (s, w)
    = (r ← header_done kmsg mbits reply_type dest_type reply_name dest_name; match r with Some mr => mret mr | None => crash end) (s, w').
Proof.
  intros Hd Hk. unfold copyout_finish. erewrite bind_run; [|apply ports_run_alone].
  step_world ltac:(exact Hd). unfold header_done, mbind, M_bind. by destruct (on_world _ _) as [[[] ?]|].
Qed.

Lemma header_dest_active w dest d dest_type x w' :
  w_ports w !! dest = Some d -> ip_active d = true -> ipc_object_copyout_dest addr dest dest_type w = Some (x, w') ->
  copyout_header_dest addr env dest dest_type MACH_PORT_NULL w = Some (x, w').
Proof.
  intros Hd Ha Hrun. unfold copyout_header_dest. rewrite (bind_run _ _ _ _ _ (port_at_run _ _ _ Hd)), Ha.
  by rewrite (bind_run _ _ _ _ _ Hrun).
Qed.

Lemma copyout_none_run s g w kmsg k dest_type :
  arrived s w kmsg k -> MACH_MSGH_BITS_PORTS (msgh_bits k) = MACH_MSGH_BITS dest_type 0 -> 0 <= dest_type < 256 ->
  msgh_local_port k = MACH_PORT_NULL /\
  forall fuel, copyout_header_general addr env fuel kmsg MACH_PORT_NULL ((s, g), w)
    = copyout_finish addr env kmsg (msgh_bits k) (msgh_remote_port k) dest_type MACH_PORT_NULL MACH_PORT_NULL 0 ((s, g), w).
Proof.
  intros [Hinv Ha Hk Hdest Hreply Hnone Hrefs Htwo] Hports Hdt.
  destruct (header_types _ _ _ Hdt (conj (Z.le_refl 0) eq_refl) Hports) as [Hr Hl]. split; [by apply Hnone|]. intros fuel.
  unfold copyout_header_general. step_world ltac:(by apply header_at_run). rewrite Hr, Hl, (Hnone Hl). simpl.
  unfold gets. unfold mbind at 1, M_bind at 1. simpl. rewrite Ha. by simpl.
Qed.

(** A finished copyout, by hand and in general. *)
Lemma finish_agrees s g w w' kmsg k mbits dest dest_type reply reply_name reply_type dest_name st :
  copyout_header_dest addr env dest dest_type reply w = Some (dest_name, w') -> w_kmsgs w' !! kmsg = Some k ->
  agrees (header_done kmsg mbits reply_type dest_type reply_name dest_name ((s, g), w'))
    (copyout_finish addr env kmsg mbits dest dest_type reply reply_name reply_type ((s, g), w)) st.
Proof.
  intros Hd Hk. rewrite (copyout_finish_run _ _ _ k _ _ _ _ _ _ _ _ Hd Hk). unfold header_done, update_kmsg, on_world.
  unfold mbind, M_bind. simpl. rewrite (header_at_run _ _ _ Hk). simpl. right. eauto.
Qed.

Lemma async_out_agrees s g w kmsg k fuel :
  arrived s w kmsg k -> MACH_MSGH_BITS_PORTS (msgh_bits k) = MACH_MSGH_BITS MACH_MSG_TYPE_PORT_SEND 0 ->
  agrees (copyout_async addr kmsg (msgh_bits k) (msgh_remote_port k) ((s, g), w))
    (copyout_header_general addr env fuel kmsg MACH_PORT_NULL ((s, g), w)) ((s, g), w).
Proof.
  intros A Hports. destruct (copyout_none_run s g w kmsg k _ A Hports ltac:(done)) as [Hl ->].
  destruct (ar_dest _ _ _ _ A) as [d Hd]. unfold copyout_async. step_world ltac:(by apply port_at_run).
  destruct (ip_active d) eqn:Ha; [|by left]. cbn [negb].
  step_world ltac:(by apply fast_copyout_send_run). eapply finish_agrees.
  - eapply header_dest_active; [done..|]. by apply copyout_dest_send_run.
  - apply A.
Qed.

Lemma reply_out_agrees s g w kmsg k fuel :
  arrived s w kmsg k -> MACH_MSGH_BITS_PORTS (msgh_bits k) = MACH_MSGH_BITS MACH_MSG_TYPE_PORT_SEND_ONCE 0 ->
  agrees (copyout_reply_message addr kmsg (msgh_bits k) (msgh_remote_port k) ((s, g), w))
    (copyout_header_general addr env fuel kmsg MACH_PORT_NULL ((s, g), w)) ((s, g), w).
Proof.
  intros A Hports. destruct (copyout_none_run s g w kmsg k _ A Hports ltac:(done)) as [Hl ->].
  destruct (ar_dest _ _ _ _ A) as [d Hd]. unfold copyout_reply_message. step_world ltac:(by apply port_at_run).
  destruct (ip_active d) eqn:Ha; [|by left]. cbn [negb]. set (dest := msgh_remote_port k) in *.
  assert (Hrun : exists x w', (if ip_receiver d =? addr then
         ip_release dest;; update_port dest (fun p => set_ip_sorights (u32 (ip_sorights p - 1)) p);; mret (ip_receiver_name d)
       else emit (NotifySendOnce dest);; mret MACH_PORT_NULL) w = Some (x, w') /\
       ipc_object_copyout_dest addr dest MACH_MSG_TYPE_PORT_SEND_ONCE w = Some (x, w') /\ w_kmsgs w' = w_kmsgs w).
  { unfold ipc_object_copyout_dest, ip_release, ip_reference. pose proof (ar_refs _ _ _ _ A _ _ Hd) as Hrefs. unfold u32_max in Hrefs.
    destruct (ip_receiver d =? addr) eqn:Hrcv; eexists _, _; (split; [run_ports; reflexivity|]); (split; [|done]).
    - run_ports. simpl. run_ports. unfold ip_receiver in *. simpl. rewrite Hrcv. by run_ports.
    - run_ports. simpl. run_ports. unfold ip_receiver in *. simpl. rewrite Hrcv. run_ports. simpl.
      rewrite (u32_id (ip_references d - 1)) by (unfold u32_range, u32_max; lia).
      replace (ip_references d - 1 + 1) with (ip_references d) by lia. rewrite u32_id by (unfold u32_range, u32_max; lia).
      replace (set_ip_references (ip_references d) (set_ip_references (ip_references d - 1) d)) with d by (by destruct d).
      by rewrite put_port_id. }
  destruct Hrun as (x & w' & Hf & Hg & Hk). step_world ltac:(exact Hf). eapply finish_agrees.
  - by eapply header_dest_active.
  - rewrite Hk. apply A.
Qed.

Lemma put_port_comm p q x y w : p <> q -> put_port p x (put_port q y w) = put_port q y (put_port p x w).
Proof. intros Hne. unfold put_port, with_ports. simpl. by rewrite insert_insert_ne. Qed.

Lemma used_send_refs n d : used_send (set_ip_references n d) = set_ip_references (u32 (n - 1)) (without_send d).
Proof. unfold used_send, without_send, no_senders_due. simpl. by destruct (_ && _). Qed.

(** The destination of a request: the general case holds on to the reply port
    meanwhile. *)
Lemma header_dest_reply w dest d reply r :
  w_ports w !! dest = Some d -> ip_active d = true -> w_ports w !! reply = Some r ->
  0 < ip_references r < u32_max - 1 -> 0 < ip_references d < u32_max - 1 -> (dest = reply -> 1 < ip_references d) -> IP_VALID reply = true ->
  copyout_header_dest addr env dest MACH_MSG_TYPE_PORT_SEND reply
      (put_port reply (set_ip_references (u32 (ip_references r + 1)) r) w)
    = Some (dest_name_of d, emitted (used_send_events d) (put_port dest (used_send d) w)).
Proof.
  intros Hd Ha Hr Hr0 Hd0 Htwo Hv. set (r1 := set_ip_references (u32 (ip_references r + 1)) r).
  unfold copyout_header_dest. destruct (decide (dest = reply)) as [->|Hne].
  - rewrite Hr in Hd. injection Hd as ->. specialize (Htwo eq_refl). unfold u32_max in *.
    rewrite (bind_run _ _ _ _ _ (port_at_run _ _ _ (put_port_lookup _ _ _))).
    change (ip_active r1) with (ip_active d). rewrite Ha.
    rewrite (bind_run _ _ _ _ _ (copyout_dest_send_run _ _ _ (put_port_lookup _ _ _))). rewrite Hv. cbn [when].
    erewrite bind_run; [|apply port_release_run; simpl; apply lookup_insert_eq].
    unfold r1. rewrite used_send_refs, (u32_id (ip_references d + 1)) by (unfold u32_range, u32_max; lia).
    replace (ip_references d + 1 - 1) with (ip_references d) by lia.
    rewrite (u32_id (ip_references d)) by (unfold u32_range, u32_max; lia). unfold released. cbn [ip_references set_ip_references].
    rewrite (u32_id (ip_references d - 1)) by (unfold u32_range, u32_max; lia). rewrite (proj2 (Z.eqb_neq _ _)) by lia.
    unfold mret, M_ret. rewrite put_port_put, put_port_emitted, put_port_put. do 4 f_equal.
    unfold used_send, without_send, no_senders_due. simpl.
    rewrite (u32_id (ip_references d - 1)) by (unfold u32_range, u32_max; lia). by destruct (_ && _).
  - assert (Hd' : w_ports (put_port reply r1 w) !! dest = Some d) by (by rewrite put_port_other).
    rewrite (bind_run _ _ _ _ _ (port_at_run _ _ _ Hd')), Ha.
    rewrite (bind_run _ _ _ _ _ (copyout_dest_send_run _ _ _ Hd')). rewrite Hv. cbn [when].
    erewrite bind_run; [|apply (port_release_run _ _ r1); simpl; rewrite lookup_insert_ne by done; apply lookup_insert_eq].
    unfold r1 at 1. rewrite released_again by (unfold u32_max in *; lia). unfold mret, M_ret. do 2 f_equal.
    rewrite put_port_emitted. f_equal. rewrite put_port_comm, put_port_put by done. f_equal. by apply put_port_id.
Qed.

(** The entry a received send-once right gets. *)
Definition sonce_table (table : list ipc_entry) (index gen reply : Z) : list ipc_entry :=
  tset (tset table 0 (set_next (ie_next (tget table index)))) index
    (fun e => mk_entry (Z.lor gen (Z.lor MACH_PORT_TYPE_SEND_ONCE 1)) reply 0 (ie_index e)).

Lemma reply_entry_run s g w n reply r :
  space_inv None s -> is_active s = true -> w_ports w !! reply = Some r -> ip_active r = true ->
  let index := ie_next (tget (is_table s) 0) in
  index <> 0 ->
  let gen := u32 (ie_bits (tget (is_table s) index) + IE_BITS_GEN_ONE) in
  0 < index < is_table_size s /\
  exists s1, copyout_reply_entry addr env (S n) reply MACH_MSG_TYPE_PORT_SEND_ONCE MACH_PORT_NULL ((s, g), w)
    = Some (ReplyEntry (MACH_PORT_MAKE index gen) (TableEntry index) IP_NULL, ((s1, g), w)) /\
  forall w', ipc_right_copyout addr (MACH_PORT_MAKE index gen) (TableEntry index) MACH_MSG_TYPE_PORT_SEND_ONCE true reply ((s1, g), w')
    = Some (KERN_SUCCESS, ((with_table (sonce_table (is_table s) index gen reply) s, g), w')).
Proof.
  intros [_ I] Ha Hr Hra index Hi gen. pose proof (i_len _ _ _ _ _ _ _ _ I) as Hlen.
  assert (Hrange : 0 < index < is_table_size s).
  { destruct (i_free _ _ _ _ _ _ _ _ I) as ([|j fl] & Hc & _ & Hfl); [done|]. destruct Hc as [Hj _]. fold index in Hj. subst j.
    apply Hfl. by left. }
  split; [done|].
  set (T1 := tset (tset (is_table s) 0 (set_next (ie_next (tget (is_table s) index)))) index (fun e => set_request 0 (set_bits gen e))).
  set (s1 := with_table (tset T1 index (fun e => mk_entry gen reply 0 (ie_index e))) s).
  exists s1. split.
  - cbn [copyout_reply_entry]. unfold gets. unfold mbind at 1, M_bind at 1. simpl. rewrite Ha. simpl.
    unfold mbind at 1, M_bind at 1. simpl. unfold mbind at 1, M_bind at 1. simpl.
    step_world ltac:(by apply port_at_run). rewrite Hra. cbn [negb].
    unfold of_space, ie_write, ie_read, gets, on_space, modify, mbind, M_bind. simpl.
    unfold ipc_entry_get. fold index. rewrite (proj2 (Z.eqb_neq _ _)) by done. simpl. fold gen. fold T1.
    unfold T1 at 1 2 3. rewrite tget_tset_eq by (rewrite tlen_tset; lia). reflexivity.
  - intros w'. unfold ipc_right_copyout, ie_write, ie_read, gets, on_space, modify, mbind, M_bind. simpl.
    rewrite !tget_tset_eq by (unfold T1; rewrite !tlen_tset; lia). simpl.
    unfold mret, M_ret, with_table. simpl. do 5 f_equal. unfold sonce_table, T1. same_table.
Qed.

Lemma request_out_agrees s g w kmsg k n :
  arrived s w kmsg k ->
  MACH_MSGH_BITS_PORTS (msgh_bits k) = MACH_MSGH_BITS MACH_MSG_TYPE_PORT_SEND MACH_MSG_TYPE_PORT_SEND_ONCE ->
  agrees (copyout_request addr env kmsg (msgh_bits k) (msgh_remote_port k) (msgh_local_port k) ((s, g), w))
    (copyout_header_general addr env (S n) kmsg MACH_PORT_NULL ((s, g), w)) ((s, g), w).
Proof.
  intros [Hinv Ha Hk [d Hd] Hreply Hnone Hrefs Htwo] Hports. unfold copyout_request.
  destruct (IP_VALID (msgh_local_port k)) eqn:Hv; [|by left]. cbn [negb]. destruct (Hreply eq_refl) as [r Hr].
  rewrite of_table_run. rewrite of_table_run. rewrite Ha. cbn [negb orb].
  destruct (Z.eqb_spec (ie_next (tget (is_table s) 0)) 0) as [|Hi]; [by left|].
  set (index := ie_next (tget (is_table s) 0)) in *.
  rewrite (port_at_take _ _ _ _ _ _ d) by done. destruct (ip_active d) eqn:Hda; [|by left].
  destruct (he_lock_try env _); [|by left]. cbn [negb orb]. step_world ltac:(by apply port_at_run).
  destruct (ip_active r) eqn:Hra; [|by left]. cbn [negb].
  destruct (reply_entry_run s g w n _ r Hinv Ha Hr Hra Hi) as (Hrange & s1 & Hentry & Hcopyout). fold index in Hrange, Hentry, Hcopyout.
  pose proof (i_len _ _ _ _ _ _ _ _ (proj2 Hinv)) as Hlen.
  destruct (header_types _ MACH_MSG_TYPE_PORT_SEND MACH_MSG_TYPE_PORT_SEND_ONCE ltac:(done) ltac:(done) Hports) as [Hrt Hlt].
  assert (Hgen : copyout_header_general addr env (S n) kmsg MACH_PORT_NULL ((s, g), w)
    = copyout_finish addr env kmsg (msgh_bits k) (msgh_remote_port k) MACH_MSG_TYPE_PORT_SEND (msgh_local_port k)
        (MACH_PORT_MAKE index (u32 (ie_bits (tget (is_table s) index) + IE_BITS_GEN_ONE))) MACH_MSG_TYPE_PORT_SEND_ONCE
        ((with_table (sonce_table (is_table s) index (u32 (ie_bits (tget (is_table s) index) + IE_BITS_GEN_ONE)) (msgh_local_port k)) s, g),
         put_port (msgh_local_port k) (set_ip_references (u32 (ip_references r + 1)) r) w)).
  { unfold copyout_header_general. step_world ltac:(by apply header_at_run). rewrite Hrt, Hlt, Hv.
    erewrite bind_run; [|exact Hentry]. cbn beta iota. step_world ltac:(unfold ip_reference; by apply update_port_run).
    erewrite bind_run; [|apply Hcopyout]. reflexivity. }
  rewrite Hgen, !set_table_run. rewrite of_table_run. rewrite !set_table_run.
  step_world ltac:(by apply fast_copyout_send_run).
  match goal with |- agrees (header_done _ _ _ _ (MACH_PORT_MAKE _ ?g1) _ ((?s1, _), _))
      (copyout_finish _ _ _ _ _ _ _ (MACH_PORT_MAKE _ ?g2) _ ((?s2, _), _)) _ =>
    assert (Hg : g1 = g2); [|assert (Hs : s1 = s2); [|rewrite Hs, Hg]] end.
  { do 2 f_equal. simpl. rewrite tget_tset_eq by (rewrite tlen_tset; lia). by rewrite tget_tset_ne by lia. }
  { unfold with_table. simpl. f_equal. unfold sonce_table. same_table. }
  eapply finish_agrees; [|exact Hk]. eapply header_dest_reply; try done; eauto.
Qed.

(** The common cases of copyout are the general case. *)
Lemma copyout_header_eq s g w kmsg k notify n :
  arrived s w kmsg k ->
  ipc_kmsg_copyout_header addr entries alloc_fuel others env (S n) kmsg notify ((s, g), w)
    = copyout_header_general addr env (S n) kmsg notify ((s, g), w).
Proof.
  intros A. unfold ipc_kmsg_copyout_header.
  assert (Hcase : agrees (copyout_common addr env kmsg notify ((s, g), w))
                    (copyout_header_general addr env (S n) kmsg notify ((s, g), w)) ((s, g), w)).
  { unfold copyout_common. step_world ltac:(apply header_at_run, A). cbv zeta.
    destruct (Z.eqb_spec notify MACH_PORT_NULL) as [->|]; [|by left]. cbn [negb].
    repeat match goal with |- context [?x =? ?y] => destruct (Z.eqb_spec x y) end;
      [by apply async_out_agrees|by apply request_out_agrees|by apply reply_out_agrees|by left]. }
  destruct Hcase as [Hc|(st' & Hc & Hg)]; rewrite (bind_run _ _ _ _ _ Hc); [done|]. by rewrite Hg.
Qed.

(** ** Rights in the body *)

(** What the quick copyout of a send right relies on: an entry the local hash
    table has for the port is the space's name for it. *)
Definition hashed_send (s : ipc_space) (p : ipc_port) (port : Z) : Prop :=
  forall name index, Local.ipc_hash_local_lookup (is_table s) (is_table_size s) port = Some (name, index) ->
    ip_receiver p <> addr /\ 0 <= index < tlen (is_table s) /\
    exists u ma co, described (ie_bits (tget (is_table s) index)) MACH_PORT_TYPE_SEND u ma co /\
      0 < u < MACH_PORT_UREFS_MAX.

(** The send right joins the entry, unless its user references would overflow. *)
Definition joined (table : list ipc_entry) (index : Z) : list ipc_entry :=
  let bits := ie_bits (tget table index) in
  if IE_BITS_UREFS bits + 1 =? MACH_PORT_UREFS_MAX then table
  else tset table index (set_bits (u32 (bits + 1))).

Definition drop_send (p : ipc_port) : ipc_port :=
  set_ip_references (u32 (ip_references p - 1)) (set_ip_srights (u32 (ip_srights p - 1)) p).

Lemma drop_run {Sp} port (s : Sp) w p :
  w_ports w !! port = Some p ->
  (on_world (update_port port (fun p => set_ip_srights (u32 (ip_srights p - 1)) p));; on_world (ip_release port)) (s, w)
    = Some (tt, (s, put_port port (drop_send p) w)).
Proof.
  intros Hp. step_world ltac:(by apply update_port_run). unfold ip_release.
  erewrite on_world_run; [|apply update_port_run, put_port_lookup]. by rewrite put_port_put.
Qed.

Lemma drop_bind {Sp B} port (k : unit -> M (Sp * world) B) s w p :
  w_ports w !! port = Some p ->
  (on_world (update_port port (fun p => set_ip_srights (u32 (ip_srights p - 1)) p));; on_world (ip_release port) ≫= k) (s, w)
    = k tt (s, put_port port (drop_send p) w).
Proof.
  intros Hp. pose proof (drop_run port s w p Hp) as Hr. unfold mbind, M_bind in *.
  destruct (on_world _ (s, w)) as [[[] st]|]; [|done]. by rewrite Hr.
Qed.

Lemma joined_urefs s index u ma co :
  described (ie_bits (tget (is_table s) index)) MACH_PORT_TYPE_SEND u ma co -> 0 < u < MACH_PORT_UREFS_MAX ->
  (IE_BITS_UREFS (u32 (ie_bits (tget (is_table s) index) + 1)) <? MACH_PORT_UREFS_MAX)
    = negb (IE_BITS_UREFS (ie_bits (tget (is_table s) index)) + 1 =? MACH_PORT_UREFS_MAX).
Proof.
  intros Hd Hu. unfold MACH_PORT_UREFS_MAX in *. destruct (add_urefs _ 1 _ _ _ _ Hd ltac:(lia)) as [Hd' _].
  rewrite (b_urefs _ _ _ _ _ Hd'), (b_urefs _ _ _ _ _ Hd). destruct (Z.eqb_spec (u + 1) 65535); lia.
Qed.

Lemma quick_run s g w port p name index u ma co :
  is_active s = true -> w_ports w !! port = Some p -> ip_active p = true ->
  Local.ipc_hash_local_lookup (is_table s) (is_table_size s) port = Some (name, index) ->
  described (ie_bits (tget (is_table s) index)) MACH_PORT_TYPE_SEND u ma co -> 0 < u < MACH_PORT_UREFS_MAX ->
  copyout_object_quick port MACH_MSG_TYPE_PORT_SEND ((s, g), w)
    = Some (Some name, ((with_table (joined (is_table s) index) s, g), put_port port (drop_send p) w)).
Proof.
  intros Ha Hp Hpa Hl Hd Hu. unfold copyout_object_quick. cbn [Z.eqb negb MACH_MSG_TYPE_PORT_SEND]. rewrite Z.eqb_refl. cbn [negb].
  rewrite of_table_run, Ha. cbn [negb]. step_world ltac:(by apply port_at_run). rewrite Hpa. cbn [negb].
  rewrite of_table_run, Hl. rewrite (drop_bind _ _ _ _ p) by done. rewrite of_table_run.
  rewrite (joined_urefs s index u ma co) by done. unfold joined. destruct (_ =? _); cbn [negb when]; [|done].
  unfold mbind, M_bind, mret, M_ret. by destruct s.
Qed.

Lemma lor_same b t u ma co : described b t u ma co -> t = MACH_PORT_TYPE_SEND -> Z.lor b MACH_PORT_TYPE_SEND = b.
Proof.
  intros Hd ->. assert (Ht : Z.land b IE_BITS_TYPE_MASK = MACH_PORT_TYPE_SEND) by apply Hd.
  rewrite <- Ht. apply Z.bits_inj'. intros i _.
  rewrite Z.lor_spec, Z.land_spec. by destruct (Z.testbit b i), (Z.testbit _ i).
Qed.

Lemma slow_run s g w n port p name index u ma co :
  is_active s = true -> w_ports w !! port = Some p -> ip_active p = true -> ip_receiver p <> addr ->
  0 <= index < tlen (is_table s) ->
  Local.ipc_hash_local_lookup (is_table s) (is_table_size s) port = Some (name, index) ->
  described (ie_bits (tget (is_table s) index)) MACH_PORT_TYPE_SEND u ma co ->
  copyout_object_general addr env (S n) port MACH_MSG_TYPE_PORT_SEND ((s, g), w)
    = Some ((MACH_MSG_SUCCESS, name), ((with_table (joined (is_table s) index) s, g), put_port port (drop_send p) w)).
Proof.
  intros Ha Hp Hpa Hrcv Hi Hl Hd. unfold copyout_object_general.
  assert (Hobj : ipc_object_copyout addr (S n) port MACH_MSG_TYPE_PORT_SEND true ((s, g), w)
    = Some ((KERN_SUCCESS, name), ((with_table (joined (is_table s) index) s, g), put_port port (drop_send p) w))).
  { assert (Hrev : ipc_right_reverse addr port ((s, g), w) = Some (Some (name, TableEntry index), ((s, g), w))).
    { unfold ipc_right_reverse. step_world ltac:(by apply port_at_run). rewrite Hpa. cbn [negb].
      rewrite (proj2 (Z.eqb_neq _ _)) by done. unfold of_space. cbn [ns_hash_lookup eq_names space_names fst snd].
      unfold ipc_hash_lookup. by rewrite Hl. }
    assert (He : copyout_entry addr (S n) port MACH_MSG_TYPE_PORT_SEND ((s, g), w) = Some (inl (name, TableEntry index), ((s, g), w))).
    { cbn [copyout_entry]. unfold gets. unfold mbind at 1, M_bind at 1. cbn [ns_active eq_names space_names fst]. rewrite Ha. cbn [negb].
      change (MACH_MSG_TYPE_PORT_SEND =? MACH_MSG_TYPE_PORT_SEND_ONCE) with false. cbn [negb].
      by rewrite (bind_run _ _ _ _ _ Hrev). }
    assert (Hc : ipc_right_copyout addr name (TableEntry index) MACH_MSG_TYPE_PORT_SEND true port ((s, g), w)
      = Some (KERN_SUCCESS, ((with_table (joined (is_table s) index) s, g), put_port port (drop_send p) w))).
    { unfold ipc_right_copyout, ie_read, gets. unfold mbind at 1, M_bind at 1. simpl. unfold copyout_send.
      rewrite (has_type _ MACH_PORT_TYPE_SEND) by done. rewrite (b_type _ _ _ _ _ Hd). simpl. unfold joined.
      destruct (_ =? _); (erewrite bind_run; [|by apply drop_run]); [unfold mret, M_ret; by destruct s|].
      unfold ie_write, ie_read, gets, on_space, modify, mbind, M_bind. simpl. unfold mret, M_ret. do 5 f_equal.
      erewrite lor_same by done.
      apply table_ext; [by rewrite !tlen_tset|]. intros j Hj. rewrite tlen_tset in Hj.
      rewrite !tget_tset by lia. by destruct (Z.eqb_spec index j) as [<-|]. }
    unfold ipc_object_copyout. rewrite (bind_run _ _ _ _ _ He). cbn beta iota. by rewrite (bind_run _ _ _ _ _ Hc). }
  erewrite bind_run; [|exact Hobj]. reflexivity.
Qed.

(** The quick copyout of a send right is the general one. *)
Lemma copyout_object_eq s g w n port p msgt_name :
  w_ports w !! port = Some p -> IO_VALID port = true -> hashed_send s p port ->
  ipc_kmsg_copyout_object addr entries alloc_fuel others env (S n) port msgt_name ((s, g), w)
    = copyout_object_general addr env (S n) port msgt_name ((s, g), w).
Proof.
  intros Hp Hv Hh. unfold ipc_kmsg_copyout_object. rewrite Hv. cbn [negb].
  assert (Hcase : copyout_object_quick port msgt_name ((s, g), w) = Some (None, ((s, g), w)) \/
    exists name st', copyout_object_quick port msgt_name ((s, g), w) = Some (Some name, st') /\
      copyout_object_general addr env (S n) port msgt_name ((s, g), w) = Some ((MACH_MSG_SUCCESS, name), st')).
  { destruct (Z.eqb_spec msgt_name MACH_MSG_TYPE_PORT_SEND) as [->|Hne]; cycle 1.
    { left. unfold copyout_object_quick. by rewrite (proj2 (Z.eqb_neq _ _)). }
    destruct (is_active s) eqn:Ha; cycle 1.
    { left. unfold copyout_object_quick. rewrite Z.eqb_refl. cbn [negb]. by rewrite of_table_run, Ha. }
    destruct (ip_active p) eqn:Hpa, (Local.ipc_hash_local_lookup (is_table s) (is_table_size s) port) as [[name index]|] eqn:Hl.
    1: { destruct (Hh _ _ Hl) as (Hrcv & Hi & u & ma & co & Hd & Hu). right. eexists _, _. split; [by eapply quick_run|by eapply slow_run]. }
    all: left; unfold copyout_object_quick; rewrite Z.eqb_refl; cbn [negb]; rewrite of_table_run, Ha; cbn [negb];
      step_world ltac:(by apply port_at_run); rewrite Hpa; cbn [negb];
      first [done|by rewrite of_table_run, Hl]. }
  destruct Hcase as [Hc|(name & st' & Hc & Hg)]; rewrite (bind_run _ _ _ _ _ Hc); [done|]. by rewrite Hg.
Qed.
End equal.
