(* ===== verification/KmsgBody.v ===== *)
(** * The bodies of messages (ipc/ipc_kmsg.c)

    A body is a sequence of type descriptors, each followed by its data: the
    data itself, or a pointer to out-of-line data.  Copyin walks over the body
    the user supplied, checks it, and replaces port names by ports and user
    memory by kernel memory; copyout goes the other way, and the clean-up
    routines release what a message holds.

    Kernel memory is a map from the addresses of 32-bit words to their
    contents, [kb_words]: it has the message buffer and the arrays that were
    allocated for out-of-line ports, and an access to any other address is an
    error ([crash]).  Addresses and lengths are 32-bit and wrap around.
    [sizeof(natural_t)] is [sizeof(mach_msg_type_t)], so the code that aligns
    pointers is not there.

    [BodyOps] is what the loops call: the routines on rights, the allocator
    and the routines of the virtual memory system. *)

From S2P Require Import Prelude Names Splay Table Space Hash Entry World Port Mqueue Right Object.
From S2P Require Import MachPort Kmsg.

Definition PORT_T_SIZE_IN_BITS : Z := 32.
Definition sizeof_header : Z := 24.
Definition IKOT_PAGING_REQUEST : Z := 9.
Definition IKOT_DEVICE : Z := 10.
Definition ipc_kobject_vm_page_list (ikot : Z) : bool := (ikot =? IKOT_PAGING_REQUEST) || (ikot =? IKOT_DEVICE).
Definition ipc_kobject_vm_page_steal (ikot : Z) : bool := ikot =? IKOT_PAGING_REQUEST.

(** The old port types. *)
Definition MSG_TYPE_PORT_ANY (x : Z) : bool := (x =? MSG_TYPE_PORT) || (x =? MSG_TYPE_PORT_ALL).

(** ** Type descriptors *)

(** [mach_msg_type_t]: the fields of the first word. *)
Definition msgt_name (w : Z) : Z := Z.land w 0xff.
Definition msgt_size (w : Z) : Z := Z.land (Z.shiftr w 8) 0xff.
Definition msgt_number (w : Z) : Z := Z.land (Z.shiftr w 16) 0xfff.
Definition msgt_inline (w : Z) : bool := Z.testbit w 28.
Definition msgt_longform (w : Z) : bool := Z.testbit w 29.
Definition msgt_deallocate (w : Z) : bool := Z.testbit w 30.
Definition msgt_unused (w : Z) : bool := Z.testbit w 31.

(** [mach_msg_type_long_t]: the second word. *)
Definition msgtl_name (w : Z) : Z := Z.land w 0xffff.
Definition msgtl_size (w : Z) : Z := Z.land (Z.shiftr w 16) 0xffff.

(** A descriptor as the loops see it; [td_first] is its first word. *)
Record type_desc := mk_desc {
  td_first : Z;
  td_name : Z;
  td_size : Z;
  td_number : Z
}.

Definition td_inline (d : type_desc) : bool := msgt_inline (td_first d).
Definition td_longform (d : type_desc) : bool := msgt_longform (td_first d).
Definition td_dealloc (d : type_desc) : bool := msgt_deallocate (td_first d).
Definition td_port (d : type_desc) : bool := MACH_MSG_TYPE_PORT_ANY (td_name d).

(** [((number * size) + 7) >> 3] and [(length + 3) &~ 3] *)
Definition data_length (d : type_desc) : Z := Z.shiftr (u32 (u32 (td_number d * td_size d) + 7)) 3.
Definition inline_amount (d : type_desc) : Z := Z.ldiff (u32 (data_length d + 3)) 3.

(** ** The message buffer *)

Record kbuf := mk_kbuf {
  kb_header : ipc_kmsg;
  kb_words : gmap Z Z
}.

(** What the loops call, the rights first: [ipc_kmsg_copyin_header] and
    [ipc_kmsg_copyout_header] of the header of a message,
    [ipc_object_copyin], [ipc_object_copyin_compat],
    [ipc_object_copyin_header], [ipc_object_copyin_from_kernel],
    [ipc_port_check_circularity], [ipc_object_destroy],
    [ipc_kmsg_copyout_object], [ipc_object_copyout_dest] of a port that may be
    dead, [ipc_object_copyout_compat], [ip_kotype] and
    [ipc_marequest_destroy].  Then the memory: [kalloc]; [copyinmap],
    [vm_deallocate], the two kinds of [vm_map_copyin], [vm_map_copy_discard],
    [vm_allocate], [copyoutmap] and [vm_map_copyout].  The memory that
    [copyinmap] and [copyoutmap] move is given as words. *)
Class BodyOps (St : Type) := {
  bo_copyin_header : Z -> ipc_kmsg -> M St (Z * ipc_kmsg);
  bo_copyout_header : Z -> ipc_kmsg -> M St (Z * ipc_kmsg);
  bo_copyin : Z -> Z -> M St (kern_return * Z);
  bo_copyin_compat : Z -> Z -> bool -> M St (kern_return * Z);
  bo_object_header : Z -> M St (kern_return * Z * Z);
  bo_copyin_from_kernel : Z -> Z -> M St unit;
  bo_circular : Z -> Z -> M St bool;
  bo_destroy : Z -> Z -> M St unit;
  bo_copyout : Z -> Z -> M St (Z * Z);
  bo_copyout_dest : Z -> Z -> M St (option Z);
  bo_copyout_compat : Z -> Z -> M St (kern_return * Z);
  bo_kotype : Z -> M St Z;
  bo_marequest_destroy : Z -> M St unit;
  bo_kalloc : Z -> gmap Z Z -> option Z;
  bo_copyinmap : Z -> Z -> M St (option (list Z));
  bo_vm_deallocate : Z -> Z -> M St bool;
  bo_vm_copyin : bool -> bool -> Z -> Z -> bool -> M St (option Z);
  bo_discard : Z -> M St unit;
  bo_vm_allocate : Z -> M St (kern_return * Z);
  bo_copyoutmap : list Z -> Z -> M St unit;
  bo_vm_copyout : Z -> M St (kern_return * Z)
}.

Section body.
Context {St : Type} `{BodyOps St}.

Abbreviation ks := (kbuf * St)%type.

Definition lift {A} (m : M St A) : M ks A := fun st =>
  match m st.2 with Some (x, s) => Some (x, (st.1, s)) | None => None end.

Definition read_word (a : Z) : M ks Z := fun st =>
  match kb_words st.1 !! a with Some v => Some (v, st) | None => None end.

Definition write_word (a v : Z) : M ks unit := fun st =>
  match kb_words st.1 !! a with
  | Some _ => Some (tt, (mk_kbuf (kb_header st.1) (<[a := v]> (kb_words st.1)), st.2))
  | None => None
  end.

Definition header : M ks ipc_kmsg := gets (fun st => kb_header st.1).
Definition set_kb_header (f : ipc_kmsg -> ipc_kmsg) : M ks unit :=
  modify (fun st => (mk_kbuf (f (kb_header st.1)) (kb_words st.1), st.2)).
Definition set_msgh_bits (f : Z -> Z) : M ks unit :=
  set_kb_header (fun k => set_header (f (msgh_bits k)) (msgh_remote_port k) (msgh_local_port k) k).

(** The words of an array, and [kalloc] and [kfree] of [length] bytes. *)
Definition array_words (data : Z) (l : list Z) : gmap Z Z :=
  list_to_map (imap (fun i v => (data + 4 * Z.of_nat i, v)) l).

Definition store_array (data : Z) (l : list Z) : M ks unit :=
  modify (fun st => (mk_kbuf (kb_header st.1) (array_words data l ∪ kb_words st.1), st.2)).

Definition kfree (data length : Z) : M ks unit :=
  modify (fun st => (mk_kbuf (kb_header st.1)
    (filter (fun x => ~ (data <= x.1 < data + length)) (kb_words st.1)), st.2)).

(** The rest of a descriptor whose first word is [w]; [(descriptor, saddr)]. *)
Definition desc_at (saddr w : Z) : M ks (type_desc * Z) :=
  if msgt_longform w then
    w1 ← read_word (u32 (saddr + 4));
    w2 ← read_word (u32 (saddr + 8));
    mret (mk_desc w (msgtl_name w1) (msgtl_size w1) w2, u32 (saddr + 12))
  else mret (mk_desc w (msgt_name w) (msgt_size w) (msgt_number w), u32 (saddr + 4)).

(** The assignment to the name of the descriptor at [taddr]. *)
Definition set_name (taddr : Z) (longform : bool) (name : Z) : M ks unit :=
  if longform then
    w1 ← read_word (u32 (taddr + 4));
    write_word (u32 (taddr + 4)) (Z.lor (Z.ldiff w1 0xffff) name)
  else
    w ← read_word taddr;
    write_word taddr (Z.lor (Z.ldiff w 0xff) name).

(** ** Releasing what a message holds *)

(** [objects[i]], [objects[i + 1]], ...: [n] rights. *)
Fixpoint destroy_objects (n : nat) (objects name i : Z) : M ks unit :=
  match n with
  | O => mret tt
  | S n =>
    object ← read_word (u32 (objects + 4 * i));
    when (IO_VALID object) (lift (bo_destroy object name));;
    destroy_objects n objects name (i + 1)
  end.

(** [while (eaddr < (vm_offset_t)&objects[number]) number--;]  The fuel is one
    more than [number]; it runs out when [objects] is past [eaddr], where the
    unsigned [number] wraps around. *)
Fixpoint sane_number (fuel : nat) (eaddr objects number : Z) : option Z :=
  match fuel with
  | O => None
  | S fuel =>
    if eaddr <? u32 (objects + 4 * number) then sane_number fuel eaddr objects (number - 1) else Some number
  end.

(** The memory of an out-of-line item; [saddr] is where the pointer is. *)
Definition free_memory (d : type_desc) (data : Z) : M ks unit :=
  let length := data_length d in
  if length =? 0 then mret tt
  else if td_port d then kfree data length
  else lift (bo_discard data).

(** One item; the address of the next one. *)
Definition clean_item (saddr eaddr : Z) : M ks Z :=
  w ← read_word saddr;
  r ← desc_at saddr w;
  let '(d, saddr) := r in
  when (td_port d)
    (if td_inline d then
       match sane_number (S (Z.to_nat (td_number d))) eaddr saddr (td_number d) with
       | Some number => destroy_objects (Z.to_nat number) saddr (td_name d) 0
       | None => crash
       end
     else
       objects ← read_word saddr;
       destroy_objects (Z.to_nat (td_number d)) objects (td_name d) 0);;
  if td_inline d then mret (u32 (saddr + inline_amount d))
  else
    data ← read_word saddr;
    free_memory d data;;
    mret (u32 (saddr + 4)).

(** Each round moves on by a descriptor at least: the number of words is
    enough fuel, as long as the addresses do not wrap around. *)
Fixpoint ipc_kmsg_clean_body (fuel : nat) (saddr eaddr : Z) : M ks unit :=
  if saddr <? eaddr then
    match fuel with
    | O => crash
    | S fuel => saddr ← clean_item saddr eaddr; ipc_kmsg_clean_body fuel saddr eaddr
    end
  else mret tt.

Definition body_fuel (saddr eaddr : Z) : nat := Z.to_nat ((eaddr - saddr) / 4).

Definition destroy_valid (object name : Z) : M ks unit :=
  when (IO_VALID object) (lift (bo_destroy object name)).

(** [ikm] is the address of the header. *)
Definition body_start (ikm : Z) : Z := u32 (ikm + sizeof_header).
Definition body_end (ikm : Z) (k : ipc_kmsg) : Z := u32 (ikm + msgh_size k).

Definition clean_whole_body (ikm : Z) : M ks unit :=
  k ← header;
  ipc_kmsg_clean_body (body_fuel (body_start ikm) (body_end ikm k)) (body_start ikm) (body_end ikm k).

Definition ipc_kmsg_clean (ikm : Z) : M ks unit :=
  k ← header;
  let mbits := msgh_bits k in
  when (negb (ikm_marequest k =? IMAR_NULL)) (lift (bo_marequest_destroy (ikm_marequest k)));;
  destroy_valid (msgh_remote_port k) (MACH_MSGH_BITS_REMOTE mbits);;
  destroy_valid (msgh_local_port k) (MACH_MSGH_BITS_LOCAL mbits);;
  when (has mbits MACH_MSGH_BITS_COMPLEX) (clean_whole_body ikm).

(** [if (dolast)]: the item at [eaddr], [number] rights of it. *)
Definition clean_last (eaddr number : Z) : M ks unit :=
  w ← read_word eaddr;
  r ← desc_at eaddr w;
  let '(d, eaddr) := r in
  when (td_port d)
    (objects ← (if td_inline d then mret eaddr else read_word eaddr);
     destroy_objects (Z.to_nat number) objects (td_name d) 0);;
  when (negb (td_inline d))
    (data ← read_word eaddr; free_memory d data).

Definition ipc_kmsg_clean_partial (ikm eaddr : Z) (dolast : bool) (number : Z) : M ks unit :=
  k ← header;
  let mbits := msgh_bits k in
  lift (bo_destroy (msgh_remote_port k) (MACH_MSGH_BITS_REMOTE mbits));;
  destroy_valid (msgh_local_port k) (MACH_MSGH_BITS_LOCAL mbits);;
  let saddr := body_start ikm in
  ipc_kmsg_clean_body (body_fuel saddr eaddr) saddr eaddr;;
  when dolast (clean_last eaddr number).

(** ** Copyin *)

(** How the new and the old interface differ: the types that are port types,
    the descriptors that are refused, whether the unused fields are cleared,
    and the routine that copies a right in. *)
Record copyin_kind := mk_copyin_kind {
  ck_port : Z -> bool;
  ck_invalid : type_desc -> bool;
  ck_clear : bool;
  ck_copyin : Z -> Z -> bool -> M St (kern_return * Z)
}.

Definition invalid_header (d : type_desc) : bool :=
  (td_longform d && (negb (msgt_name (td_first d) =? 0) || negb (msgt_size (td_first d) =? 0) ||
                     negb (msgt_number (td_first d) =? 0))) ||
  msgt_unused (td_first d) || (td_dealloc d && td_inline d).

Definition new_kind : copyin_kind :=
  mk_copyin_kind MACH_MSG_TYPE_PORT_ANY invalid_header false (fun port name _ => bo_copyin port name).
Definition compat_kind : copyin_kind :=
  mk_copyin_kind MSG_TYPE_PORT_ANY (fun _ => false) true bo_copyin_compat.

(** [msgt_unused] and the short fields of a long descriptor become zero. *)
Definition clear_unused (taddr : Z) (longform : bool) : M ks unit :=
  w ← read_word taddr;
  write_word taddr (Z.ldiff w (if longform then 0x8fffffff else 0x80000000)).

(** The loop over the port names of an item: the index of the name that could
    not be copied in, if there is one. *)
Fixpoint copyin_objects (n : nat) (copyin : Z -> M St (kern_return * Z)) (dest newname objects i : Z)
    : M ks (option Z) :=
  match n with
  | O => mret None
  | S n =>
    port ← read_word (u32 (objects + 4 * i));
    if negb (MACH_PORT_VALID port) then copyin_objects n copyin dest newname objects (i + 1)
    else
      r ← lift (copyin port);
      let '(kr, object) := r in
      if negb (bool_decide (kr = KERN_SUCCESS)) then mret (Some i)
      else
        circular ← (if newname =? MACH_MSG_TYPE_PORT_RECEIVE then lift (bo_circular object dest)
                    else mret false);
        when circular (set_msgh_bits (fun bits => Z.lor bits MACH_MSGH_BITS_CIRCULAR));;
        write_word (u32 (objects + 4 * i)) object;;
        copyin_objects n copyin dest newname objects (i + 1)
  end.

(** The out-of-line data at [addr] of the user: the kernel's address of it,
    [None] for [invalid_memory]. *)
Definition grab_data (is_port page_lists steal dealloc : bool) (addr length : Z) : M ks (option Z) :=
  if length =? 0 then mret (Some 0)
  else if is_port then
    block ← gets (fun st => bo_kalloc length (kb_words st.1));
    match block with
    | None => mret None
    | Some data =>
      r ← lift (bo_copyinmap addr length);
      match r with
      | None => mret None
      | Some l =>
        store_array data l;;
        ok ← (if dealloc then lift (bo_vm_deallocate addr length) else mret true);
        if (ok : bool) then mret (Some data) else kfree data length;; mret None
      end
    end
  else
    lift (bo_vm_copyin page_lists steal addr length dealloc).

(** The next item and whether the message is complex, or the error. *)
Definition item_result : Type := (Z * bool) + Z.

Definition fail_partial (ikm taddr mr : Z) : M ks item_result :=
  ipc_kmsg_clean_partial ikm taddr false 0;; mret (inr mr).

(** The ports of an item, whose words begin at [data]. *)
Definition copyin_ports (kind : copyin_kind) (ikm dest taddr data next : Z) (d : type_desc) : M ks item_result :=
  match ipc_object_copyin_type (td_name d) with
  | None => crash
  | Some newname =>
    set_name taddr (td_longform d) newname;;
    r ← copyin_objects (Z.to_nat (td_number d)) (fun port => ck_copyin kind port (td_name d) (td_dealloc d))
          dest newname data 0;
    match r with
    | Some i => ipc_kmsg_clean_partial ikm taddr true i;; mret (inr MACH_SEND_INVALID_RIGHT)
    | None => mret (inl (next, true))
    end
  end.

(** The data of an item; [saddr] is the address after the descriptor. *)
Definition copyin_data (kind : copyin_kind) (page_lists steal : bool) (ikm dest taddr saddr eaddr : Z)
    (d : type_desc) (complex : bool) : M ks item_result :=
  let is_port := ck_port kind (td_name d) in
  if td_inline d then
    if u32 (eaddr - saddr) <? inline_amount d then fail_partial ikm taddr MACH_SEND_MSG_TOO_SMALL
    else if is_port then copyin_ports kind ikm dest taddr saddr (u32 (saddr + inline_amount d)) d
    else mret (inl (u32 (saddr + inline_amount d), complex))
  else if u32 (eaddr - saddr) <? 4 then fail_partial ikm taddr MACH_SEND_MSG_TOO_SMALL
  else
    addr ← read_word saddr;
    got ← grab_data is_port page_lists steal (td_dealloc d) addr (data_length d);
    match got with
    | None => fail_partial ikm taddr MACH_SEND_INVALID_MEMORY
    | Some data =>
      write_word saddr data;;
      if is_port then copyin_ports kind ikm dest taddr data (u32 (saddr + 4)) d
      else mret (inl (u32 (saddr + 4), true))
    end.

Definition copyin_item (kind : copyin_kind) (page_lists steal : bool) (ikm dest saddr eaddr : Z)
    (complex : bool) : M ks item_result :=
  if u32 (eaddr - saddr) <? 4 then fail_partial ikm saddr MACH_SEND_MSG_TOO_SMALL
  else
    w ← read_word saddr;
    if msgt_longform w && (u32 (eaddr - saddr) <? 12) then fail_partial ikm saddr MACH_SEND_MSG_TOO_SMALL
    else
      r ← desc_at saddr w;
      let '(d, next) := r in
      if (ck_port kind (td_name d) && negb (td_size d =? PORT_T_SIZE_IN_BITS)) || ck_invalid kind d
      then fail_partial ikm saddr MACH_SEND_INVALID_TYPE
      else
        when (ck_clear kind) (clear_unused saddr (td_longform d));;
        copyin_data kind page_lists steal ikm dest saddr next eaddr d complex.

(** The loop; the answer is [complex], or the error.  Each round moves on by
    a descriptor at least. *)
Fixpoint copyin_items (fuel : nat) (kind : copyin_kind) (page_lists steal : bool) (ikm dest saddr eaddr : Z)
    (complex : bool) : M ks (bool + Z) :=
  if saddr <? eaddr then
    match fuel with
    | O => crash
    | S fuel =>
      r ← copyin_item kind page_lists steal ikm dest saddr eaddr complex;
      match r with
      | inr mr => mret (inr mr)
      | inl (saddr, complex) => copyin_items fuel kind page_lists steal ikm dest saddr eaddr complex
      end
    end
  else mret (inl complex).

Definition copyin_whole_body (kind : copyin_kind) (ikm dest : Z) : M ks (bool + Z) :=
  kotype ← lift (bo_kotype dest);
  k ← header;
  let saddr := body_start ikm in
  let eaddr := body_end ikm k in
  copyin_items (body_fuel saddr eaddr) kind (ipc_kobject_vm_page_list kotype)
    (ipc_kobject_vm_page_steal kotype) ikm dest saddr eaddr false.

Definition ipc_kmsg_copyin_body (ikm : Z) : M ks Z :=
  k ← header;
  r ← copyin_whole_body new_kind ikm (msgh_remote_port k);
  match r with
  | inr mr => mret mr
  | inl complex =>
    when (negb complex) (set_msgh_bits (fun bits => clear bits MACH_MSGH_BITS_COMPLEX));;
    mret MACH_MSG_SUCCESS
  end.

(** A routine on the header, which is the part of the buffer it changes. *)
Definition on_header (f : ipc_kmsg -> M St (Z * ipc_kmsg)) : M ks Z :=
  k ← header;
  r ← lift (f k);
  let '(mr, k) := r in
  set_kb_header (fun _ => k);;
  mret mr.

Definition ipc_kmsg_copyin (ikm notify : Z) : M ks Z :=
  mr ← on_header (bo_copyin_header notify);
  if negb (mr =? MACH_MSG_SUCCESS) then mret mr
  else
    k ← header;
    if negb (has (msgh_bits k) MACH_MSGH_BITS_COMPLEX) then mret MACH_MSG_SUCCESS
    else ipc_kmsg_copyin_body ikm.

(** The old interface; [simple] is [msg_simple] of the header it has. *)
Definition ipc_kmsg_copyin_compat (ikm : Z) (simple : bool) : M ks Z :=
  k ← header;
  let dest_name := msgh_remote_port k in
  let reply_name := msgh_local_port k in
  r ← lift (bo_object_header dest_name);
  let '(kr, dest, dest_type) := r in
  if negb (bool_decide (kr = KERN_SUCCESS)) then mret MACH_SEND_INVALID_DEST
  else
    r ← (if reply_name =? MACH_PORT_NULL then mret (KERN_SUCCESS, IO_NULL, 0)
         else lift (bo_object_header reply_name));
    let '(kr, reply, reply_type) := r in
    if negb (bool_decide (kr = KERN_SUCCESS)) then
      lift (bo_destroy dest dest_type);; mret MACH_SEND_INVALID_REPLY
    else
      set_kb_header (set_header (MACH_MSGH_BITS dest_type reply_type) dest reply);;
      if simple then mret MACH_MSG_SUCCESS
      else
        r ← copyin_whole_body compat_kind ikm dest;
        match r with
        | inr mr => mret mr
        | inl complex =>
          when complex (set_msgh_bits (fun bits => Z.lor bits MACH_MSGH_BITS_COMPLEX));;
          mret MACH_MSG_SUCCESS
        end.

(** ** Messages sent by the kernel *)

(** The rights of an item are ports already. *)
Fixpoint from_kernel_objects (n : nat) (remote name newname objects i : Z) : M ks unit :=
  match n with
  | O => mret tt
  | S n =>
    object ← read_word (u32 (objects + 4 * i));
    when (IO_VALID object)
      (lift (bo_copyin_from_kernel object name);;
       circular ← (if newname =? MACH_MSG_TYPE_PORT_RECEIVE then lift (bo_circular object remote)
                   else mret false);
       when circular (set_msgh_bits (fun bits => Z.lor bits MACH_MSGH_BITS_CIRCULAR)));;
    from_kernel_objects n remote name newname objects (i + 1)
  end.

Definition from_kernel_item (remote saddr : Z) : M ks Z :=
  w ← read_word saddr;
  r ← desc_at saddr w;
  let '(d, next) := r in
  data ← (if td_inline d then mret next else read_word next);
  when (td_port d)
    match ipc_object_copyin_type (td_name d) with
    | None => crash
    | Some newname =>
      set_name saddr (td_longform d) newname;;
      from_kernel_objects (Z.to_nat (td_number d)) remote (td_name d) newname data 0
    end;;
  mret (u32 (next + (if td_inline d then inline_amount d else 4))).

Fixpoint from_kernel_items (fuel : nat) (remote saddr eaddr : Z) : M ks unit :=
  if saddr <? eaddr then
    match fuel with
    | O => crash
    | S fuel => saddr ← from_kernel_item remote saddr; from_kernel_items fuel remote saddr eaddr
    end
  else mret tt.

Definition ipc_kmsg_copyin_from_kernel (ikm : Z) : M ks unit :=
  k ← header;
  let bits := msgh_bits k in
  let rname := MACH_MSGH_BITS_REMOTE bits in
  let lname := MACH_MSGH_BITS_LOCAL bits in
  let remote := msgh_remote_port k in
  let local := msgh_local_port k in
  lift (bo_copyin_from_kernel remote rname);;
  when (IO_VALID local) (lift (bo_copyin_from_kernel local lname));;
  bits ←
    (if bits =? Z.lor MACH_MSGH_BITS_COMPLEX (MACH_MSGH_BITS MACH_MSG_TYPE_COPY_SEND 0) then
       mret (Z.lor MACH_MSGH_BITS_COMPLEX (MACH_MSGH_BITS MACH_MSG_TYPE_PORT_SEND 0))
     else
       match ipc_object_copyin_type rname, ipc_object_copyin_type lname with
       | Some rname, Some lname => mret (Z.lor (MACH_MSGH_BITS_OTHER bits) (MACH_MSGH_BITS rname lname))
       | _, _ => crash
       end);
  set_msgh_bits (fun _ => bits);;
  when (has bits MACH_MSGH_BITS_COMPLEX)
    (let saddr := body_start ikm in
     let eaddr := body_end ikm k in
     from_kernel_items (body_fuel saddr eaddr) remote saddr eaddr).

(** ** Copyout *)

(** What the two interfaces do with a right that is copied out, the type it
    gets, and whether [msgt_deallocate] and [msgt_size] are set.  The answer
    of [ok_right] is the error bits and the name. *)
Record copyout_kind := mk_copyout_kind {
  ok_right : Z -> Z -> M St (Z * Z);
  ok_type : option (Z -> option Z);
  ok_marks : bool
}.

Definition new_out : copyout_kind := mk_copyout_kind bo_copyout None true.

Definition copyout_right_compat (object name : Z) : M St (Z * Z) :=
  if negb (IO_VALID object) then mret (0, MACH_PORT_NULL)
  else
    r ← bo_copyout_compat object name;
    let '(kr, port) := r in
    if bool_decide (kr = KERN_SUCCESS) then mret (0, port)
    else bo_destroy object name;; mret (0, MACH_PORT_NULL).

Definition compat_out : copyout_kind :=
  mk_copyout_kind copyout_right_compat (Some ipc_object_copyout_type_compat) false.

(** The error bits are collected in [mr]. *)
Fixpoint copyout_objects (n : nat) (kind : copyout_kind) (name objects i mr : Z) : M ks Z :=
  match n with
  | O => mret mr
  | S n =>
    object ← read_word (u32 (objects + 4 * i));
    r ← lift (ok_right kind object name);
    let '(bits, port) := r in
    write_word (u32 (objects + 4 * i)) port;;
    copyout_objects n kind name objects (i + 1) (Z.lor mr bits)
  end.

Definition set_deallocate (taddr : Z) (v : bool) : M ks unit :=
  w ← read_word taddr;
  write_word taddr (if v then Z.setbit w 30 else Z.clearbit w 30).

Definition set_size_zero (taddr : Z) (longform : bool) : M ks unit :=
  if longform then
    w ← read_word (u32 (taddr + 4));
    write_word (u32 (taddr + 4)) (Z.land w 0xffff)
  else
    w ← read_word taddr;
    write_word taddr (Z.ldiff w 0xff00).

(** [vm_copyout_failure:] the error bits. *)
Definition copyout_failure (kind : copyout_kind) (taddr : Z) (longform : bool) (kr : kern_return) : M ks Z :=
  when (ok_marks kind) (set_size_zero taddr longform);;
  mret (if negb (ok_marks kind) then 0
        else if bool_decide (kr = KERN_RESOURCE_SHORTAGE) then MACH_MSG_VM_KERNEL else MACH_MSG_VM_SPACE).

(** The words of [length] bytes at [data]. *)
Fixpoint read_array (n : nat) (data i : Z) : M ks (list Z) :=
  match n with
  | O => mret []
  | S n =>
    v ← read_word (u32 (data + 4 * i));
    l ← read_array n data (i + 1);
    mret (v :: l)
  end.

(** The out-of-line memory of an item, to [addr] if it is an array of ports:
    the error bits and the address the user gets. *)
Definition copyout_memory (kind : copyout_kind) (taddr : Z) (d : type_desc) (data addr : Z) : M ks (Z * Z) :=
  let length := data_length d in
  if length =? 0 then mret (0, 0)
  else if td_port d then
    l ← read_array (Z.to_nat ((length + 3) / 4)) data 0;
    lift (bo_copyoutmap l addr);;
    kfree data length;;
    mret (0, addr)
  else
    r ← lift (bo_vm_copyout data);
    let '(kr, addr) := r in
    if bool_decide (kr = KERN_SUCCESS) then mret (0, addr)
    else
      lift (bo_discard data);;
      bits ← copyout_failure kind taddr (td_longform d) kr;
      mret (bits, 0).

(** The pointer of an out-of-line item, at [saddr]. *)
Definition finish_pointer (kind : copyout_kind) (taddr saddr bits addr : Z) : M ks (Z * Z) :=
  when (ok_marks kind) (set_deallocate taddr true);;
  write_word saddr addr;;
  mret (bits, u32 (saddr + 4)).

(** The old interface gives the type its old name. *)
Definition rename_item (kind : copyout_kind) (taddr : Z) (d : type_desc) : M ks unit :=
  match ok_type kind with
  | None => mret tt
  | Some f =>
    match f (td_name d) with
    | Some newname => set_name taddr (td_longform d) newname
    | None => crash
    end
  end.

(** An item: the error bits and the address of the next one. *)
Definition copyout_item (kind : copyout_kind) (taddr : Z) : M ks (Z * Z) :=
  w ← read_word taddr;
  r ← desc_at taddr w;
  let '(d, saddr) := r in
  alloc ← (if td_port d && negb (td_inline d) && negb (data_length d =? 0)
           then lift (bo_vm_allocate (data_length d)) else mret (KERN_SUCCESS, 0));
  let '(kr, addr) := alloc in
  if negb (bool_decide (kr = KERN_SUCCESS)) then
    ipc_kmsg_clean_body (body_fuel taddr saddr) taddr saddr;;
    bits ← copyout_failure kind taddr (td_longform d) kr;
    finish_pointer kind taddr saddr bits 0
  else
    bits ←
      (if td_port d then
         rename_item kind taddr d;;
         objects ← (if td_inline d then mret saddr else read_word saddr);
         copyout_objects (Z.to_nat (td_number d)) kind (td_name d) objects 0 0
       else mret 0);
    if td_inline d then
      when (ok_marks kind) (set_deallocate taddr false);;
      mret (bits, u32 (saddr + inline_amount d))
    else
      data ← read_word saddr;
      r ← copyout_memory kind taddr d data addr;
      let '(more, addr) := r in
      finish_pointer kind taddr saddr (Z.lor bits more) addr.

Fixpoint copyout_items (fuel : nat) (kind : copyout_kind) (saddr eaddr mr : Z) : M ks Z :=
  if saddr <? eaddr then
    match fuel with
    | O => crash
    | S fuel =>
      r ← copyout_item kind saddr;
      let '(bits, saddr) := r in
      copyout_items fuel kind saddr eaddr (Z.lor mr bits)
    end
  else mret mr.

Definition ipc_kmsg_copyout_body (saddr eaddr : Z) : M ks Z :=
  copyout_items (body_fuel saddr eaddr) new_out saddr eaddr MACH_MSG_SUCCESS.

Definition ipc_kmsg_copyout (ikm notify : Z) : M ks Z :=
  k ← header;
  let mbits := msgh_bits k in
  mr ← on_header (bo_copyout_header notify);
  if negb (mr =? MACH_MSG_SUCCESS) then mret mr
  else if has mbits MACH_MSGH_BITS_COMPLEX then
    k ← header;
    mr ← ipc_kmsg_copyout_body (body_start ikm) (body_end ikm k);
    mret (if negb (mr =? MACH_MSG_SUCCESS) then Z.lor mr MACH_RCV_BODY_ERROR else mr)
  else mret mr.

Definition ipc_kmsg_copyout_pseudo (ikm : Z) : M ks Z :=
  k ← header;
  let mbits := msgh_bits k in
  let dest := msgh_remote_port k in
  let reply := msgh_local_port k in
  let dest_type := MACH_MSGH_BITS_REMOTE mbits in
  let reply_type := MACH_MSGH_BITS_LOCAL mbits in
  r ← lift (bo_copyout dest dest_type);
  let '(mr1, dest_name) := r in
  r ← lift (bo_copyout reply reply_type);
  let '(mr2, reply_name) := r in
  let mr := Z.lor mr1 mr2 in
  set_kb_header (set_header (clear mbits MACH_MSGH_BITS_CIRCULAR) dest_name reply_name);;
  if has mbits MACH_MSGH_BITS_COMPLEX then
    bits ← ipc_kmsg_copyout_body (body_start ikm) (body_end ikm k);
    mret (Z.lor mr bits)
  else mret mr.

Definition ipc_kmsg_copyout_dest (ikm : Z) : M ks unit :=
  k ← header;
  let mbits := msgh_bits k in
  let dest := msgh_remote_port k in
  let reply := msgh_local_port k in
  let dest_type := MACH_MSGH_BITS_REMOTE mbits in
  let reply_type := MACH_MSGH_BITS_LOCAL mbits in
  name ← lift (bo_copyout_dest dest dest_type);
  let dest_name := default MACH_PORT_DEAD name in
  reply_name ← (if IO_VALID reply then lift (bo_destroy reply reply_type);; mret MACH_PORT_NULL else mret reply);
  set_kb_header (set_header
    (Z.lor (MACH_MSGH_BITS_OTHER mbits) (MACH_MSGH_BITS reply_type dest_type)) reply_name dest_name);;
  when (has mbits MACH_MSGH_BITS_COMPLEX) (clean_whole_body ikm).

(** The header of an old message has [msg_simple] in place of the bits; the
    bits are what is left of them here. *)
Definition ipc_kmsg_copyout_compat (ikm : Z) : M ks Z :=
  k ← header;
  let mbits := msgh_bits k in
  let dest := msgh_remote_port k in
  let reply := msgh_local_port k in
  let dest_type := MACH_MSGH_BITS_REMOTE mbits in
  let reply_type := MACH_MSGH_BITS_LOCAL mbits in
  name ← lift (bo_copyout_dest dest dest_type);
  let dest_name := default MACH_PORT_NULL name in
  r ← lift (copyout_right_compat reply reply_type);
  let '(_, reply_name) := r in
  set_kb_header (set_header (Z.land mbits MACH_MSGH_BITS_COMPLEX) reply_name dest_name);;
  when (has mbits MACH_MSGH_BITS_COMPLEX)
    (let saddr := body_start ikm in
     let eaddr := body_end ikm k in
     copyout_items (body_fuel saddr eaddr) compat_out saddr eaddr 0;; mret tt);;
  mret MACH_MSG_SUCCESS.
End body.
