(* ===== verification/KmsgOps.v ===== *)
(** * Messages of a space (ipc/ipc_kmsg.c)

    The loops of KmsgBody.v on the rights of a space: the routines they call
    are those of Kmsg.v, Object.v and Port.v.  The virtual memory system is
    reached through [UserMemory]: the memory of the task whose message it is,
    and the kernel's allocator. *)

From S2P Require Import Prelude Names Splay Table Space Hash Entry World Port Mqueue Right Object.
From S2P Require Import PortSpace MachPort Marequest Kmsg KmsgBody.

(** The routines of vm_map.c, vm_user.c and kalloc.c a message needs, in the
    order of [BodyOps]. *)
Class UserMemory (V : Type) := {
  um_kalloc : Z -> gmap Z Z -> option Z;
  um_copyinmap : Z -> Z -> M V (option (list Z));
  um_vm_deallocate : Z -> Z -> M V bool;
  um_vm_copyin : bool -> bool -> Z -> Z -> bool -> M V (option Z);
  um_discard : Z -> M V unit;
  um_vm_allocate : Z -> M V (kern_return * Z);
  um_copyoutmap : list Z -> Z -> M V unit;
  um_vm_copyout : Z -> M V (kern_return * Z)
}.

Section ops.
Context `{PortConfig} `{!EntrySizes} {V : Type} `{!UserMemory V}.
Context (addr is_notify : Z) (entries : environment) (alloc_fuel : nat) (others : world -> world).
Context (env : header_env (ipc_space * Global.ghash)) (fuel : nat).
(** The message. *)
Context (kmsg : Z).

#[local] Instance ops_names : NameSpace (ipc_space * Global.ghash) := space_names addr.
#[local] Instance ops_alloc : NameAlloc (ipc_space * Global.ghash) := space_alloc addr entries alloc_fuel others.

Abbreviation sys := ((ipc_space * Global.ghash) * world)%type.

Definition on_ipc {A} (m : M sys A) : M (sys * V) A := fun st =>
  match m st.1 with Some (x, s) => Some (x, (s, st.2)) | None => None end.
Definition on_memory {A} (m : M V A) : M (sys * V) A := fun st =>
  match m st.2 with Some (x, v) => Some (x, (st.1, v)) | None => None end.

(** The header of the message is in the buffer while the message is worked
    on; a routine on headers finds it under [kmsg]. *)
Definition with_header (f : M sys Z) (k : ipc_kmsg) : M sys (Z * ipc_kmsg) :=
  on_world (update_kmsg kmsg (fun _ => k));;
  mr ← f;
  k ← on_world (kmsg_at kmsg);
  mret (mr, k).

(** The destination of a message: [None] if the port is dead. *)
Definition copyout_dest_or_dead (dest dest_type : Z) : M world (option Z) :=
  d ← port_at dest;
  if ip_active d then name ← ipc_object_copyout_dest addr dest dest_type; mret (Some name)
  else ip_release dest;; ip_check_unlock dest;; mret None.

Definition port_kotype (port : Z) : M world Z :=
  p ← port_at port; mret (io_kotype (ip_bits p)).

#[global] Instance space_body : BodyOps (sys * V) := {
  bo_copyin_header := fun notify k =>
    on_ipc (with_header (ipc_kmsg_copyin_header addr env kmsg notify) k);
  bo_copyout_header := fun notify k =>
    on_ipc (with_header (ipc_kmsg_copyout_header addr entries alloc_fuel others env fuel kmsg notify) k);
  bo_copyin := fun port name => on_ipc (ipc_object_copyin port name);
  bo_copyin_compat := fun port name dealloc => on_ipc (ipc_object_copyin_compat port name dealloc);
  bo_object_header := fun port => on_ipc (ipc_object_copyin_header is_notify port);
  bo_copyin_from_kernel := fun object name => on_ipc (on_world (ipc_object_copyin_from_kernel object name));
  bo_circular := fun object dest =>
    on_ipc (on_world (ipc_port_check_circularity (re_trylock (he_right env)) object dest));
  bo_destroy := fun object name =>
    on_ipc (on_world (ipc_object_destroy (re_trylock (he_right env)) object name));
  bo_copyout := fun object name =>
    on_ipc (ipc_kmsg_copyout_object addr entries alloc_fuel others env fuel object name);
  bo_copyout_dest := fun dest name => on_ipc (on_world (copyout_dest_or_dead dest name));
  bo_copyout_compat := fun object name =>
    on_ipc (ipc_object_copyout_compat addr (he_right env) fuel object name);
  bo_kotype := fun port => on_ipc (on_world (port_kotype port));
  bo_marequest_destroy := fun marequest => on_ipc (on_world (emit (MarequestDestroy marequest)));
  bo_kalloc := um_kalloc;
  bo_copyinmap := fun a n => on_memory (um_copyinmap a n);
  bo_vm_deallocate := fun a n => on_memory (um_vm_deallocate a n);
  bo_vm_copyin := fun lists steal a n dealloc => on_memory (um_vm_copyin lists steal a n dealloc);
  bo_discard := fun copy => on_memory (um_discard copy);
  bo_vm_allocate := fun n => on_memory (um_vm_allocate n);
  bo_copyoutmap := fun l a => on_memory (um_copyoutmap l a);
  bo_vm_copyout := fun copy => on_memory (um_vm_copyout copy)
}.
End ops.
