(* ===== verification/KmsgBodyInv.v ===== *)
(** * What a message body holds

    [holds words saddr eaddr h]: between two addresses there are items that
    hold the rights, the copies of memory and the arrays of [h].  Copyin
    builds such a body item by item; the clean-up routines and copyout take it
    apart.

    The routines on rights and on memory are used through [BodyLaws]: a
    relation [bl_inv st rights copies], which says that the state is in order
    when the rights and copies listed are outside of spaces and tasks, and how
    each routine changes the lists. *)

From S2P Require Import Prelude Names Splay Table Space Hash Entry World Port Mqueue Right Object.
From S2P Require Import MachPort Kmsg KmsgBody.

(** ** Rights and holdings *)

(** A right that is there: [IO_NULL] and [IO_DEAD] are not rights. *)
Definition carries (object name : Z) : list (Z * Z) := if IO_VALID object then [(object, name)] else [].

Definition rights_of (objects : list Z) (name : Z) : list (Z * Z) :=
  objects ≫= fun object => carries object name.

Definition header_rights (k : ipc_kmsg) : list (Z * Z) :=
  (msgh_remote_port k, MACH_MSGH_BITS_REMOTE (msgh_bits k)) ::
  carries (msgh_local_port k) (MACH_MSGH_BITS_LOCAL (msgh_bits k)).

Record holding := mk_holding {
  h_rights : list (Z * Z);
  h_copies : list Z;
  h_arrays : list (Z * Z)
}.

Definition no_holding : holding := mk_holding [] [] [].
Definition add_holding (h h' : holding) : holding :=
  mk_holding (h_rights h ++ h_rights h') (h_copies h ++ h_copies h') (h_arrays h ++ h_arrays h').

Class BodyLaws (St : Type) `{BodyOps St} := {
  bl_inv : St -> list (Z * Z) -> list Z -> Prop;
  bl_perm st R R' C C' : R ≡ₚ R' -> C ≡ₚ C' -> bl_inv st R C -> bl_inv st R' C';
  bl_copyin_header st R C notify k :
    bl_inv st R C ->
    mwp (bo_copyin_header notify k) (fun r st' =>
      if r.1 =? MACH_MSG_SUCCESS
      then bl_inv st' (header_rights r.2 ++ R) C /\ IO_VALID (msgh_remote_port r.2) = true /\
           msgh_size r.2 = msgh_size k /\ ikm_marequest r.2 = ikm_marequest k
      else bl_inv st' R C) st;
  bl_copyout_header st R C notify k :
    bl_inv st (header_rights k ++ R) C ->
    mwp (bo_copyout_header notify k) (fun r st' =>
      msgh_size r.2 = msgh_size k /\
      if r.1 =? MACH_MSG_SUCCESS then bl_inv st' R C else r.2 = k /\ bl_inv st' (header_rights k ++ R) C) st;
  bl_copyin st R C port name newname :
    bl_inv st R C -> MACH_PORT_VALID port = true -> MACH_MSG_TYPE_PORT_ANY name = true ->
    ipc_object_copyin_type name = Some newname ->
    mwp (bo_copyin port name) (fun r st' =>
      if bool_decide (r.1 = KERN_SUCCESS)
      then bl_inv st' (carries r.2 newname ++ R) C /\
           (newname = MACH_MSG_TYPE_PORT_RECEIVE -> IO_VALID r.2 = true)
      else bl_inv st' R C) st;
  bl_copyin_compat st R C port name dealloc newname :
    bl_inv st R C -> MACH_PORT_VALID port = true -> MSG_TYPE_PORT_ANY name = true ->
    ipc_object_copyin_type name = Some newname ->
    mwp (bo_copyin_compat port name dealloc) (fun r st' =>
      if bool_decide (r.1 = KERN_SUCCESS)
      then bl_inv st' (carries r.2 newname ++ R) C /\
           (newname = MACH_MSG_TYPE_PORT_RECEIVE -> IO_VALID r.2 = true)
      else bl_inv st' R C) st;
  bl_circular st R C object dest name :
    bl_inv st R C -> (object, MACH_MSG_TYPE_PORT_RECEIVE) ∈ R -> (dest, name) ∈ R ->
    mwp (bo_circular object dest) (fun _ st' => bl_inv st' R C) st;
  bl_destroy st R C object name :
    bl_inv st ((object, name) :: R) C -> mwp (bo_destroy object name) (fun _ st' => bl_inv st' R C) st;
  bl_copyout st R C object name :
    bl_inv st (carries object name ++ R) C ->
    mwp (bo_copyout object name) (fun _ st' => bl_inv st' R C) st;
  bl_kotype st R C dest name :
    bl_inv st R C -> (dest, name) ∈ R -> mwp (bo_kotype dest) (fun _ st' => bl_inv st' R C) st;
  (* kalloc gives aligned memory that nobody else has; [copyinmap] fills it *)
  bl_kalloc length words data :
    bo_kalloc length words = Some data ->
    0 < data /\ data mod 4 = 0 /\ data + length < 4294967296 /\
    (forall a, data <= a < data + length -> words !! a = None);
  bl_copyinmap st R C addr length :
    bl_inv st R C -> 0 <= length ->
    mwp (bo_copyinmap addr length) (fun r st' => bl_inv st' R C /\
      (forall l, r = Some l -> Z.of_nat (List.length l) = (length + 3) / 4)) st;
  bl_vm_deallocate st R C addr length :
    bl_inv st R C -> mwp (bo_vm_deallocate addr length) (fun _ st' => bl_inv st' R C) st;
  bl_vm_copyin st R C lists steal addr length dealloc :
    bl_inv st R C ->
    mwp (bo_vm_copyin lists steal addr length dealloc) (fun r st' =>
      match r with Some copy => bl_inv st' R (copy :: C) | None => bl_inv st' R C end) st;
  bl_discard st R C copy :
    bl_inv st R (copy :: C) -> mwp (bo_discard copy) (fun _ st' => bl_inv st' R C) st;
  bl_vm_allocate st R C length :
    bl_inv st R C -> mwp (bo_vm_allocate length) (fun _ st' => bl_inv st' R C) st;
  bl_copyoutmap st R C l addr :
    bl_inv st R C -> mwp (bo_copyoutmap l addr) (fun _ st' => bl_inv st' R C) st;
  bl_vm_copyout st R C copy :
    bl_inv st R (copy :: C) ->
    mwp (bo_vm_copyout copy) (fun r st' =>
      if bool_decide (r.1 = KERN_SUCCESS) then bl_inv st' R C else bl_inv st' R (copy :: C)) st
}.

(** ** Reading a body *)

Definition desc_of (words : gmap Z Z) (a : Z) : option (type_desc * Z) :=
  match words !! a with
  | None => None
  | Some w =>
    if msgt_longform w then
      match words !! (a + 4), words !! (a + 8) with
      | Some w1, Some w2 => Some (mk_desc w (msgtl_name w1) (msgtl_size w1) w2, a + 12)
      | _, _ => None
      end
    else Some (mk_desc w (msgt_name w) (msgt_size w) (msgt_number w), a + 4)
  end.

Fixpoint objects_at (words : gmap Z Z) (n : nat) (data i : Z) : option (list Z) :=
  match n with
  | O => Some []
  | S n =>
    match words !! (data + 4 * i), objects_at words n data (i + 1) with
    | Some object, Some l => Some (object :: l)
    | _, _ => None
    end
  end.

(** The size of the ports of an item, as a number of bits, is a 32-bit number. *)
Definition port_fits (d : type_desc) : bool :=
  (td_size d =? PORT_T_SIZE_IN_BITS) && (0 <=? td_number d) && (td_number d <? 134217728).

Definition array_of (d : type_desc) (data : Z) : list (Z * Z) :=
  if data_length d =? 0 then [] else [(data, data_length d)].

(** What the item at [a] holds, and the address of the next item. *)
Definition item_holds (words : gmap Z Z) (a : Z) : option (holding * Z) :=
  match desc_of words a with
  | None => None
  | Some (d, next) =>
    if td_inline d then
      if td_port d then
        if port_fits d then
          match objects_at words (Z.to_nat (td_number d)) next 0 with
          | Some l => Some (mk_holding (rights_of l (td_name d)) [] [], next + inline_amount d)
          | None => None
          end
        else None
      else Some (no_holding, next + inline_amount d)
    else
      match words !! next with
      | None => None
      | Some data =>
        if td_port d then
          if port_fits d && (0 <=? data) && (data + data_length d <? 4294967296) && (data mod 4 =? 0) then
            match objects_at words (Z.to_nat (td_number d)) data 0 with
            | Some l => Some (mk_holding (rights_of l (td_name d)) [] (array_of d data), next + 4)
            | None => None
            end
          else None
        else Some (mk_holding [] (if data_length d =? 0 then [] else [data]) [], next + 4)
      end
  end.

Inductive holds (words : gmap Z Z) : Z -> Z -> holding -> Prop :=
| holds_nil a : holds words a a no_holding
| holds_cons a next eaddr h h' :
    item_holds words a = Some (h, next) -> next <= eaddr -> holds words next eaddr h' ->
    holds words a eaddr (add_holding h h').

(** ** Arithmetic of descriptors *)

Lemma port_length d :
  port_fits d = true -> data_length d = 4 * td_number d /\ inline_amount d = 4 * td_number d /\ 0 <= td_number d < 134217728.
Proof.
  unfold port_fits, inline_amount, data_length, PORT_T_SIZE_IN_BITS.
  rewrite !andb_true_iff, Z.eqb_eq, Z.leb_le, Z.ltb_lt. intros [[-> Hn] Hm].
  assert (Hl : Z.shiftr (u32 (u32 (td_number d * 32) + 7)) 3 = 4 * td_number d).
  { rewrite (u32_id (td_number d * 32)), u32_id by (unfold u32_range, u32_max; lia).
    rewrite Z.shiftr_div_pow2 by done. change (2 ^ 3) with 8.
    symmetry. apply (Z.div_unique_pos _ _ _ 7); lia. }
  rewrite Hl. split_and!; [done| |done|done].
  rewrite u32_id by (unfold u32_range, u32_max; lia).
  change 3 with (Z.ones 2). rewrite Z.ldiff_ones_r by done.
  rewrite Z.shiftl_mul_pow2, Z.shiftr_div_pow2 by done. change (2 ^ 2) with 4. change (Z.ones 2) with 3.
  replace ((4 * td_number d + 3) / 4) with (td_number d); [lia|].
  apply (Z.div_unique_pos _ _ _ 3); lia.
Qed.

Lemma inline_amount_pos d : 0 <= inline_amount d /\ inline_amount d mod 4 = 0.
Proof.
  unfold inline_amount. set (x := u32 _).
  assert (Hx : 0 <= x) by (pose proof (u32_in_range (data_length d + 3)) as [? _]; done).
  change 3 with (Z.ones 2). rewrite Z.ldiff_ones_r, Z.shiftl_mul_pow2, Z.shiftr_div_pow2 by done.
  change (2 ^ 2) with 4. split; [pose proof (Z.div_pos x 4); lia|]. apply Z.mod_mul. done.
Qed.

Lemma desc_of_next words a d next : desc_of words a = Some (d, next) -> next = a + (if td_longform d then 12 else 4).
Proof.
  unfold desc_of, td_longform. intros Hd. destruct (words !! a) as [w|]; [|done].
  destruct (msgt_longform w) eqn:Hw; [|by simplify_eq; simpl; rewrite Hw].
  destruct (words !! (a + 4)), (words !! (a + 8)); simplify_eq. simpl. by rewrite Hw.
Qed.

(** The length of the item whose descriptor is [d]. *)
Definition item_size (d : type_desc) : Z :=
  (if td_longform d then 12 else 4) + (if td_inline d then inline_amount d else 4).

Lemma item_size_pos d : 4 <= item_size d /\ item_size d mod 4 = 0.
Proof.
  unfold item_size. destruct (inline_amount_pos d) as [Hp Hm].
  destruct (td_longform d), (td_inline d); Z.to_euclidean_division_equations; lia.
Qed.

Lemma item_holds_next words a h next :
  item_holds words a = Some (h, next) ->
  exists d, desc_of words a = Some (d, a + (if td_longform d then 12 else 4)) /\ next = a + item_size d.
Proof.
  unfold item_holds, item_size. intros Hi. destruct (desc_of words a) as [[d s]|] eqn:Hd; [|done].
  pose proof (desc_of_next _ _ _ _ Hd) as ->. exists d. split; [done|].
  destruct (td_inline d), (td_port d); repeat case_match; simplify_eq; lia.
Qed.

Lemma holds_le words a e h : holds words a e h -> a <= e /\ (e - a) mod 4 = 0.
Proof.
  induction 1 as [a|a next e h h' Hi Hle _ IH]; [by rewrite Z.sub_diag|].
  apply item_holds_next in Hi as (d & _ & ->). pose proof (item_size_pos d).
  Z.to_euclidean_division_equations; lia.
Qed.

Lemma holds_snoc words a m h h' next :
  holds words a m h -> item_holds words m = Some (h', next) -> holds words a next (add_holding h h').
Proof.
  intros Hh Hi.
  assert (Hm : m <= next) by (apply item_holds_next in Hi as (d & _ & ->); pose proof (item_size_pos d); lia).
  induction Hh as [a|a n e h1 h2 H1 Hle Hh IH].
  - replace (add_holding no_holding h') with (add_holding h' no_holding)
      by (destruct h'; unfold add_holding; simpl; by rewrite !app_nil_r).
    eapply holds_cons; [done..|]. apply holds_nil.
  - replace (add_holding (add_holding h1 h2) h') with (add_holding h1 (add_holding h2 h'))
      by (destruct h1, h2, h'; unfold add_holding; simpl; by rewrite !app_assoc).
    eapply holds_cons; [done|lia|]. by apply IH.
Qed.

(** ** Frames *)

Definition in_array (a : Z) (array : Z * Z) : Prop := array.1 <= a < array.1 + array.2.
Definition in_arrays (a : Z) (arrays : list (Z * Z)) : Prop := exists array, array ∈ arrays /\ in_array a array.

#[global] Instance in_array_dec a array : Decision (in_array a array).
Proof. unfold in_array. apply _. Defined.

Definition agree (words words' : gmap Z Z) (lo hi : Z) : Prop :=
  forall a, lo <= a < hi -> words' !! a = words !! a.

Lemma agree_sub words words' lo hi lo' hi' :
  agree words words' lo hi -> lo <= lo' -> hi' <= hi -> agree words words' lo' hi'.
Proof. intros Ha ? ? a ?. apply Ha. lia. Qed.

Lemma objects_at_frame words words' n data i :
  agree words words' (data + 4 * i) (data + 4 * (i + Z.of_nat n)) ->
  objects_at words' n data i = objects_at words n data i.
Proof.
  revert i. induction n as [|n IH]; intros i Ha; [done|]. simpl.
  rewrite (Ha (data + 4 * i)) by lia. rewrite IH; [done|]. eapply agree_sub; [done|lia..].
Qed.

Lemma desc_of_frame words words' a d next :
  desc_of words a = Some (d, next) -> agree words words' a next -> desc_of words' a = Some (d, next).
Proof.
  intros Hd Ha. pose proof (desc_of_next _ _ _ _ Hd) as Hn. revert Hd. unfold desc_of.
  rewrite (Ha a) by (destruct (td_longform d); lia). destruct (words !! a) as [w|]; [|done].
  destruct (msgt_longform w) eqn:Hw; [|done].
  destruct (words !! (a + 4)) as [w1|] eqn:H1; [|done]. destruct (words !! (a + 8)) as [w2|] eqn:H2; [|done].
  intros [= <- <-]. by rewrite (Ha (a + 4)), (Ha (a + 8)), H1, H2 by lia.
Qed.

Lemma item_holds_frame words words' a h next :
  item_holds words a = Some (h, next) -> agree words words' a next ->
  (forall array, array ∈ h_arrays h -> agree words words' array.1 (array.1 + array.2)) ->
  item_holds words' a = Some (h, next).
Proof.
  intros Hi Ha Harr. destruct (item_holds_next _ _ _ _ Hi) as (d & Hd & Hn).
  revert Hi. unfold item_holds. rewrite Hd. unfold item_size in Hn.
  pose proof (inline_amount_pos d) as [Hpos _].
  assert (Hd' : desc_of words' a = Some (d, a + (if td_longform d then 12 else 4))).
  { eapply desc_of_frame; [done|]. eapply agree_sub; [done|lia|]. destruct (td_inline d); lia. }
  rewrite Hd'. destruct (td_inline d) eqn:Hin.
  - destruct (td_port d); [|done]. destruct (port_fits d) eqn:Hf; [|done].
    destruct (port_length d Hf) as (_ & Hl & Hb).
    rewrite (objects_at_frame words words'); [done|]. eapply agree_sub; [done|destruct (td_longform d); lia|].
    rewrite Z2Nat.id by lia. lia.
  - rewrite (Ha (a + _)) by (destruct (td_longform d); lia).
    destruct (words !! (a + _)) as [data|]; [|done]. destruct (td_port d); [|done].
    destruct (port_fits d) eqn:Hf; [|done]. destruct (port_length d Hf) as (Hl & _ & Hb).
    destruct (true && _ && _ && _); [|done].
    destruct (objects_at words _ data 0) as [l|] eqn:Ho; [|done]. intros [= <- <-].
    rewrite (objects_at_frame words words'), Ho; [done|]. simpl in Harr. unfold array_of in Harr.
    destruct (Z.eqb_spec (data_length d) 0) as [Hz|Hz].
    + replace (td_number d) with 0 by lia. intros x. simpl. lia.
    + eapply agree_sub; [apply (Harr (data, data_length d)); by apply list_elem_of_singleton|simpl; lia|].
      simpl. rewrite Z2Nat.id by lia. lia.
Qed.

Lemma holds_frame words words' a e h :
  holds words a e h -> agree words words' a e ->
  (forall array, array ∈ h_arrays h -> agree words words' array.1 (array.1 + array.2)) ->
  holds words' a e h.
Proof.
  induction 1 as [a|a next e h h' Hi Hle Hh IH]; intros Ha Harr; [apply holds_nil|].
  pose proof (item_holds_next _ _ _ _ Hi) as (d & _ & Hn). pose proof (item_size_pos d).
  eapply holds_cons; [|done|].
  - eapply item_holds_frame; [done|eapply agree_sub; [done|lia..]|].
    intros array Hin. apply Harr. simpl. apply elem_of_app. by left.
  - apply IH; [eapply agree_sub; [done|lia..]|]. intros array Hin. apply Harr. simpl. apply elem_of_app. by right.
Qed.

(** ** Freeing arrays *)

Definition free_array (array : Z * Z) (words : gmap Z Z) : gmap Z Z :=
  filter (fun x => ~ (array.1 <= x.1 < array.1 + array.2)) words.

Fixpoint free_arrays (arrays : list (Z * Z)) (words : gmap Z Z) : gmap Z Z :=
  match arrays with [] => words | array :: arrays => free_arrays arrays (free_array array words) end.

Lemma lookup_free_array array words a :
  free_array array words !! a = if bool_decide (in_array a array) then None else words !! a.
Proof.
  unfold free_array, in_array. rewrite map_lookup_filter.
  destruct (bool_decide_reflect (array.1 <= a < array.1 + array.2)) as [Hin|Hout].
  - destruct (words !! a); [|done]. simpl. rewrite option_guard_False by (simpl; tauto). done.
  - destruct (words !! a); [|done]. simpl. by rewrite option_guard_True.
Qed.

Lemma lookup_free_arrays arrays words a :
  (in_arrays a arrays -> free_arrays arrays words !! a = None) /\
  (~ in_arrays a arrays -> free_arrays arrays words !! a = words !! a).
Proof.
  revert words. induction arrays as [|x arrays IH]; intros words.
  { split; [intros (y & Hy & _); by apply elem_of_nil in Hy|done]. }
  destruct (IH (free_array x words)) as [IH1 IH2]. simpl. rewrite lookup_free_array in *.
  assert (Hcons : in_arrays a (x :: arrays) <-> in_array a x \/ in_arrays a arrays).
  { unfold in_arrays. setoid_rewrite elem_of_cons. naive_solver. }
  rewrite Hcons. destruct (bool_decide_reflect (in_array a x)).
  - split; [intros _|tauto]. destruct (decide (free_arrays arrays (free_array x words) !! a = None)); [done|].
    by apply IH2; intros ?%IH1.
  - split; [intros [?|?]; [done|by apply IH1]|]. intros Hn. apply IH2. tauto.
Qed.

Lemma free_arrays_app l1 l2 words : free_arrays (l1 ++ l2) words = free_arrays l2 (free_arrays l1 words).
Proof. revert words. induction l1 as [|x l1 IH]; intros words; [done|]. apply IH. Qed.

(** ** The clean-up routines *)

(** The state after a routine that returns nothing and leaves a known buffer. *)
Ltac after_unit st' Hst' :=
  let kb := fresh "kb" in let Hkb := fresh "Hkb" in
  intros [] [kb st'] [Hkb Hst']; cbn [fst snd] in Hkb, Hst'; subst kb.

Section clean.
Context {St : Type} `{!BodyOps St} `{!BodyLaws St}.
Implicit Types (k : ipc_kmsg) (words : gmap Z Z) (st : St) (R : list (Z * Z)) (C : list Z).

Abbreviation ks := (kbuf * St)%type.

Lemma mwp_lift {A} (m : M St A) (Q : A -> ks -> Prop) kb st :
  mwp m (fun x st' => Q x (kb, st')) st -> mwp (lift m) Q (kb, st).
Proof. intros (x & st' & Hm & HQ). exists x, (kb, st'). split; [|done]. unfold lift. simpl. by rewrite Hm. Qed.

Lemma mwp_read a v (Q : Z -> ks -> Prop) k words st :
  words !! a = Some v -> Q v (mk_kbuf k words, st) -> mwp (read_word a) Q (mk_kbuf k words, st).
Proof. intros Ha HQ. exists v, (mk_kbuf k words, st). split; [|done]. unfold read_word. simpl. by rewrite Ha. Qed.

Lemma mwp_write a v (Q : unit -> ks -> Prop) k words st :
  is_Some (words !! a) -> Q tt (mk_kbuf k (<[a := v]> words), st) -> mwp (write_word a v) Q (mk_kbuf k words, st).
Proof.
  intros [v0 Ha] HQ. exists tt, (mk_kbuf k (<[a := v]> words), st). split; [|done].
  unfold write_word. simpl. by rewrite Ha.
Qed.

Lemma mwp_header (Q : ipc_kmsg -> ks -> Prop) k words st :
  Q k (mk_kbuf k words, st) -> mwp header Q (mk_kbuf k words, st).
Proof. intros HQ. by apply mwp_gets. Qed.

(** A descriptor. *)
Lemma mwp_desc_at Q k words st a w d next :
  words !! a = Some w -> desc_of words a = Some (d, next) -> 0 <= a -> next < 4294967296 ->
  Q (d, next) (mk_kbuf k words, st) -> mwp (desc_at a w) Q (mk_kbuf k words, st).
Proof.
  unfold desc_of, desc_at. intros -> Hd Ha Hn Hf. destruct (msgt_longform w).
  - destruct (words !! (a + 4)) as [w1|] eqn:H1; [|done]. destruct (words !! (a + 8)) as [w2|] eqn:H2; [|done].
    simplify_eq. rewrite !u32_id by (unfold u32_range, u32_max; lia).
    apply mwp_bind. eapply mwp_read; [done|]. apply mwp_bind. eapply mwp_read; [done|]. by apply mwp_ret.
  - simplify_eq. rewrite u32_id by (unfold u32_range, u32_max; lia). by apply mwp_ret.
Qed.

Lemma mwp_desc {A} (f : type_desc * Z -> M ks A) Q k words st a d next :
  desc_of words a = Some (d, next) -> 0 <= a -> next < 4294967296 ->
  mwp (f (d, next)) Q (mk_kbuf k words, st) ->
  mwp (read_word a ≫= fun w => desc_at a w ≫= f) Q (mk_kbuf k words, st).
Proof.
  intros Hd Ha Hn Hf. destruct (words !! a) as [w|] eqn:Hw; [|unfold desc_of in Hd; by rewrite Hw in Hd].
  apply mwp_bind. eapply mwp_read; [done|]. apply mwp_bind. by eapply mwp_desc_at.
Qed.

Lemma destroy_objects_spec n data name i l k words st R C :
  objects_at words n data i = Some l -> 0 <= data + 4 * i -> data + 4 * (i + Z.of_nat n) <= 4294967296 ->
  bl_inv st (rights_of l name ++ R) C ->
  mwp (destroy_objects n data name i) (fun _ s => s.1 = mk_kbuf k words /\ bl_inv s.2 R C) (mk_kbuf k words, st).
Proof.
  revert i l st. induction n as [|n IH]; intros i l st Hl Hlo Hhi Hinv.
  { simpl in *. simplify_eq. apply mwp_ret. done. }
  simpl in Hl. destruct (words !! (data + 4 * i)) as [o|] eqn:Ho; [|done].
  destruct (objects_at words n data (i + 1)) as [l'|] eqn:Hl'; simplify_eq. simpl.
  apply mwp_bind. rewrite u32_id by (unfold u32_range, u32_max; lia). eapply mwp_read; [done|].
  simpl in Hinv. unfold carries in Hinv. apply mwp_bind, mwp_when.
  destruct (IO_VALID o).
  - apply mwp_lift. eapply mwp_mono; [apply bl_destroy, Hinv|]. intros [] st' Hst'. simpl.
    eapply IH; [done|lia..|done].
  - eapply IH; [done|lia..|done].
Qed.

Lemma sane_number_id fuel eaddr objects number :
  0 <= objects -> 0 <= number -> objects + 4 * number <= eaddr -> eaddr < 4294967296 ->
  sane_number (S fuel) eaddr objects number = Some number.
Proof.
  intros ? ? ? ?. simpl. rewrite u32_id by (unfold u32_range, u32_max; lia).
  by rewrite (proj2 (Z.ltb_ge _ _)).
Qed.

(** One item: its rights and its copy are released, its array is freed. *)
Lemma clean_item_spec a eaddr h next k words st R C :
  item_holds words a = Some (h, next) -> 0 <= a -> next < 4294967296 -> eaddr < 4294967296 ->
  (next <= eaddr \/ exists d s1, desc_of words a = Some (d, s1) /\ td_inline d = false) ->
  bl_inv st (h_rights h ++ R) (h_copies h ++ C) ->
  mwp (clean_item a eaddr) (fun r s => r = next /\ s.1 = mk_kbuf k (free_arrays (h_arrays h) words) /\ bl_inv s.2 R C)
    (mk_kbuf k words, st).
Proof.
  intros Hi Ha Hn He Hle Hinv. destruct (item_holds_next _ _ _ _ Hi) as (d & Hd & Hnext).
  revert Hi. unfold item_holds. rewrite Hd. pose proof (inline_amount_pos d) as [Hpos _].
  unfold item_size in Hnext. intros Hi.
  unfold clean_item. eapply mwp_desc; [done..| |]; [destruct (td_inline d); lia|].
  set (s1 := a + (if td_longform d then 12 else 4)) in *.
  assert (Hs1 : 0 <= s1) by (unfold s1; destruct (td_longform d); lia).
  destruct (td_inline d) eqn:Hin; cbv beta iota.
  - assert (next <= eaddr) by (destruct Hle as [|(d' & ? & ? & ?)]; [done|simplify_eq; congruence]).
    destruct (td_port d) eqn:Hp.
    + destruct (port_fits d) eqn:Hf; [|done]. destruct (port_length d Hf) as (_ & Hl & Hb).
      destruct (objects_at words _ s1 0) as [l|] eqn:Ho; [|done]. injection Hi as <- Hi2. cbn [h_rights h_copies h_arrays no_holding app free_arrays] in *.
      apply mwp_bind, mwp_when. rewrite sane_number_id by lia.
      eapply mwp_mono; [eapply destroy_objects_spec; [done|lia|rewrite Z2Nat.id by lia; lia|exact Hinv]|].
      after_unit st' Hst'. rewrite u32_id by (unfold u32_range, u32_max; lia). by apply mwp_ret.
    + injection Hi as <- Hi2. cbn [h_rights h_copies h_arrays no_holding app free_arrays] in *. apply mwp_bind, mwp_when. rewrite u32_id by (unfold u32_range, u32_max; lia).
      by apply mwp_ret.
  - destruct (words !! s1) as [data|] eqn:Hdata; [|done]. rewrite u32_id by (unfold u32_range, u32_max; lia).
    destruct (td_port d) eqn:Hp.
    + destruct (port_fits d) eqn:Hf; [|done]. destruct (port_length d Hf) as (Hl & _ & Hb).
      destruct (_ && _ && _ && _) eqn:Hg in Hi; [|done]. rewrite !andb_true_iff, Z.leb_le, Z.ltb_lt, Z.eqb_eq in Hg.
      destruct Hg as [[[_ Hd0] Hd1] _].
      destruct (objects_at words _ data 0) as [l|] eqn:Ho; [|done]. injection Hi as <- Hi2. cbn [h_rights h_copies h_arrays no_holding app free_arrays] in *.
      apply mwp_bind, mwp_when, mwp_bind. eapply mwp_read; [done|].
      eapply mwp_mono; [eapply destroy_objects_spec; [done|lia|rewrite Z2Nat.id by lia; lia|exact Hinv]|].
      after_unit st' Hst'. apply mwp_bind. eapply mwp_read; [done|]. apply mwp_bind.
      unfold free_memory, array_of. rewrite Hp. destruct (data_length d =? 0); [by do 2 apply mwp_ret|].
      apply mwp_modify. by apply mwp_ret.
    + injection Hi as <- Hi2. cbn [h_rights h_copies h_arrays no_holding app free_arrays] in *. apply mwp_bind, mwp_when. apply mwp_bind. eapply mwp_read; [done|].
      apply mwp_bind. unfold free_memory. rewrite Hp. destruct (data_length d =? 0); [by do 2 apply mwp_ret|].
      apply mwp_lift. eapply mwp_mono; [apply bl_discard, Hinv|]. intros [] st' Hst'. by apply mwp_ret.
Qed.

(** Arrays that do not overlap, and that are not between two addresses. *)
Definition apart (x y : Z * Z) : Prop := forall a, in_array a x -> ~ in_array a y.
Definition arrays_ok (lo hi : Z) (arrays : list (Z * Z)) : Prop :=
  StronglySorted apart arrays /\ (forall a, lo <= a < hi -> ~ in_arrays a arrays).

Lemma in_arrays_app a l1 l2 : in_arrays a (l1 ++ l2) <-> in_arrays a l1 \/ in_arrays a l2.
Proof. unfold in_arrays. setoid_rewrite elem_of_app. naive_solver. Qed.

Lemma apart_app l1 l2 :
  StronglySorted apart (l1 ++ l2) <->
  StronglySorted apart l1 /\ StronglySorted apart l2 /\
  (forall a, in_arrays a l1 -> ~ in_arrays a l2).
Proof.
  induction l1 as [|x l1 IH]; simpl.
  { split; [|tauto]. intros Hs. split_and!; [constructor|done|]. intros a (y & Hy & _). by apply elem_of_nil in Hy. }
  split.
  - intros [Hs Hx]%StronglySorted_inv. apply IH in Hs as (H1 & H2 & H3). rewrite Forall_app in Hx. destruct Hx as [Hx1 Hx2].
    split_and!; [by constructor|done|]. intros a (y & [->|Hy]%elem_of_cons & Ha); [|apply H3; by exists y].
    intros (z & Hz & Hb). rewrite Forall_forall in Hx2. by apply (Hx2 z Hz a).
  - intros ([Hs Hx]%StronglySorted_inv & H2 & H3). constructor.
    + apply IH. split_and!; [done..|]. intros a (y & Hy & Ha). apply H3. exists y. split; [by right|done].
    + rewrite Forall_app. split; [done|]. apply Forall_forall. intros y Hy a Ha Hb.
      apply (H3 a); [exists x; split; [by left|done]|by exists y].
Qed.

Lemma arrays_ok_app lo hi lo' hi' l1 l2 :
  arrays_ok lo hi (l1 ++ l2) -> lo <= lo' -> hi' <= hi -> arrays_ok lo' hi' l2.
Proof.
  intros [Hs Hb] ? ?. apply apart_app in Hs as (_ & Hs & _). split; [done|].
  intros a Ha Hin. apply (Hb a); [lia|]. apply in_arrays_app. by right.
Qed.

Lemma free_arrays_agree arrays words lo hi :
  (forall a, lo <= a < hi -> ~ in_arrays a arrays) -> agree words (free_arrays arrays words) lo hi.
Proof. intros Hb a Ha. apply lookup_free_arrays. by apply Hb. Qed.

(** Freeing the arrays of one part of a body leaves the other part. *)
Lemma free_arrays_holds words a e h arrays :
  holds words a e h -> arrays_ok a e (arrays ++ h_arrays h) -> holds (free_arrays arrays words) a e h.
Proof.
  intros Hh [Hs Hb]. apply apart_app in Hs as (_ & _ & Hap). eapply holds_frame; [done|..].
  - apply free_arrays_agree. intros x Hx Hin. apply (Hb x Hx), in_arrays_app. by left.
  - intros array Harr. apply free_arrays_agree. intros x Hx Hin. apply (Hap x Hin). by exists array.
Qed.

Lemma clean_body_spec fuel a eaddr h k words st R C :
  holds words a eaddr h -> 0 <= a -> eaddr < 4294967296 -> (body_fuel a eaddr <= fuel)%nat ->
  arrays_ok a eaddr (h_arrays h) -> bl_inv st (h_rights h ++ R) (h_copies h ++ C) ->
  mwp (ipc_kmsg_clean_body fuel a eaddr)
    (fun _ s => s.1 = mk_kbuf k (free_arrays (h_arrays h) words) /\ bl_inv s.2 R C) (mk_kbuf k words, st).
Proof.
  revert a h words st R C. induction fuel as [|fuel IH]; intros a h words st R C Hh Ha He Hf Hok Hinv;
    simpl; destruct Hh as [a|a next e h h' Hi Hle Hh].
  1, 3: rewrite Z.ltb_irrefl; by apply mwp_ret.
  all: pose proof (item_holds_next _ _ _ _ Hi) as (d & _ & Hn); pose proof (item_size_pos d) as [Hp _];
    destruct (holds_le _ _ _ _ Hh) as [Hle' _]; unfold body_fuel in *;
    rewrite (proj2 (Z.ltb_lt _ _)) by lia.
  { exfalso. Z.to_euclidean_division_equations; lia. }
  cbn [add_holding h_rights h_copies h_arrays] in *. rewrite <- !app_assoc in Hinv.
  apply mwp_bind. eapply mwp_mono; [eapply clean_item_spec; [done|done|lia|done|by left|exact Hinv]|].
  intros r [kb st'] (-> & Hkb & Hst'). cbn [fst snd] in *. subst kb. rewrite free_arrays_app.
  assert (Hok' : arrays_ok next e (h_arrays h ++ h_arrays h')).
  { split; [apply Hok|]. intros x Hx. apply Hok. lia. }
  apply IH; [by apply free_arrays_holds|lia|done| |by eapply arrays_ok_app|done].
  Z.to_euclidean_division_equations; lia.
Qed.
End clean.
