(* ===== verification/KmsgCopyin.v ===== *)
(** * Copying a message body in (ipc/ipc_kmsg.c)

    [copyin_items_spec]: the loop comes to its end without touching memory
    that is not the message's.  Either the whole body has become something
    that [holds] the rights and copies that were taken, or everything that was
    taken has been given back, the rights of the header included. *)

From S2P Require Import Prelude Names Splay Table Space Hash Entry World Port Mqueue Right Object.
From S2P Require Import MachPort Kmsg KmsgBody KmsgBodyInv.

(** ** Copying rights in *)

(** Memory of which only the words from [lo] to [hi] have changed. *)
Record changed (lo hi : Z) (words words' : gmap Z Z) : Prop := {
  ch_same a : ~ lo <= a < hi -> words' !! a = words !! a;
  ch_dom a : is_Some (words' !! a) <-> is_Some (words !! a)
}.

Lemma changed_refl lo hi words : changed lo hi words words.
Proof. done. Qed.

Lemma changed_trans lo hi w1 w2 w3 : changed lo hi w1 w2 -> changed lo hi w2 w3 -> changed lo hi w1 w3.
Proof.
  intros [Hs1 Hd1] [Hs2 Hd2]. split; intros a.
  - intros Ha. by rewrite Hs2, Hs1.
  - by rewrite Hd2.
Qed.

Lemma changed_sub lo hi lo' hi' w w' : changed lo hi w w' -> lo' <= lo -> hi <= hi' -> changed lo' hi' w w'.
Proof. intros [Hs Hd] ? ?. split; [|done]. intros a Ha. apply Hs. lia. Qed.

Lemma changed_insert lo hi words a v : is_Some (words !! a) -> lo <= a < hi -> changed lo hi words (<[a := v]> words).
Proof.
  intros Hv Ha. split; intros b.
  - intros Hb. apply lookup_insert_ne. lia.
  - destruct (decide (a = b)) as [<-|]; [by rewrite lookup_insert_eq|by rewrite lookup_insert_ne].
Qed.

(** Headers that differ in bits that are not about what the message holds. *)
Record same_header (k k' : ipc_kmsg) : Prop := {
  sh_remote : msgh_remote_port k' = msgh_remote_port k;
  sh_local : msgh_local_port k' = msgh_local_port k;
  sh_size : msgh_size k' = msgh_size k;
  sh_marequest : ikm_marequest k' = ikm_marequest k;
  sh_dest : MACH_MSGH_BITS_REMOTE (msgh_bits k') = MACH_MSGH_BITS_REMOTE (msgh_bits k);
  sh_reply : MACH_MSGH_BITS_LOCAL (msgh_bits k') = MACH_MSGH_BITS_LOCAL (msgh_bits k);
  sh_complex : has (msgh_bits k') MACH_MSGH_BITS_COMPLEX = has (msgh_bits k) MACH_MSGH_BITS_COMPLEX
}.

Lemma same_header_refl k : same_header k k.
Proof. done. Qed.

Lemma same_header_trans k1 k2 k3 : same_header k1 k2 -> same_header k2 k3 -> same_header k1 k3.
Proof. intros [] []. split; congruence. Qed.

Lemma same_header_rights k k' : same_header k k' -> header_rights k' = header_rights k.
Proof. intros [Hp Hl _ _ Hd Hr _]. unfold header_rights. by rewrite Hp, Hl, Hd, Hr. Qed.

Lemma land_lor_disjoint bits x m : Z.land x m = 0 -> Z.land (Z.lor bits x) m = Z.land bits m.
Proof. intros Hx. by rewrite Z.land_lor_distr_l, Hx, Z.lor_0_r. Qed.

Lemma same_header_lor k x :
  Z.land x MACH_MSGH_BITS_PORTS_MASK = 0 -> Z.land x MACH_MSGH_BITS_COMPLEX = 0 ->
  same_header k (set_header (Z.lor (msgh_bits k) x) (msgh_remote_port k) (msgh_local_port k) k).
Proof.
  intros Hx Hc. assert (Hm : forall m, Z.land MACH_MSGH_BITS_PORTS_MASK m = m -> Z.land x m = 0).
  { intros m Hm. by rewrite <- Hm, Z.land_assoc, Hx. }
  split; try done; simpl; unfold MACH_MSGH_BITS_REMOTE, MACH_MSGH_BITS_LOCAL, has;
    rewrite land_lor_disjoint; try done; by apply Hm.
Qed.

Section copyin.
Context {St : Type} `{!BodyOps St} `{!BodyLaws St}.
Implicit Types (k : ipc_kmsg) (words : gmap Z Z) (st : St) (R : list (Z * Z)) (C : list Z).

Abbreviation ks := (kbuf * St)%type.

(** A routine that copies a right of type [newname] in. *)
Definition gives_rights (copyin : Z -> M St (kern_return * Z)) (newname : Z) : Prop :=
  forall st R C port, bl_inv st R C -> MACH_PORT_VALID port = true ->
    mwp (copyin port) (fun r st' =>
      if bool_decide (r.1 = KERN_SUCCESS)
      then bl_inv st' (carries r.2 newname ++ R) C /\
           (newname = MACH_MSG_TYPE_PORT_RECEIVE -> IO_VALID r.2 = true)
      else bl_inv st' R C) st.

(** How far the loop came, and what it has left in the array. *)
Definition objects_result (n : nat) (newname data i : Z) k words R C (r : option Z) (s : ks) : Prop :=
  exists k' words' m objs,
    s.1 = mk_kbuf k' words' /\ same_header k k' /\
    changed (data + 4 * i) (data + 4 * (i + Z.of_nat n)) words words' /\
    objects_at words' m data i = Some objs /\ bl_inv s.2 (rights_of objs newname ++ R) C /\
    match r with None => m = n | Some j => j = i + Z.of_nat m /\ (m < n)%nat end.

Lemma objects_result_cons n newname data i k k1 words words1 R C r s o :
  same_header k k1 -> changed (data + 4 * i) (data + 4 * (i + 1)) words words1 ->
  words1 !! (data + 4 * i) = Some o ->
  objects_result n newname data (i + 1) k1 words1 (carries o newname ++ R) C r s ->
  objects_result (S n) newname data i k words R C r s.
Proof.
  intros Hk Hw Ho (k' & words' & m & objs & Hs & Hk' & Hch & Hobjs & Hinv & Hr).
  exists k', words', (S m), (o :: objs). split_and!; [done|by eapply same_header_trans| |..].
  - eapply changed_trans; eapply changed_sub; [done|lia|lia|done|lia|lia].
  - simpl. rewrite Hobjs, (ch_same _ _ _ _ Hch), Ho by lia. done.
  - eapply bl_perm; [|done|exact Hinv]. simpl. rewrite <- app_assoc. rewrite (Permutation_app_comm (rights_of objs newname)).
    rewrite <- app_assoc. apply Permutation_app_head, Permutation_app_comm.
  - destruct r; [|by f_equal]. destruct Hr. lia.
Qed.

Lemma copyin_objects_spec n copyin dest dest_type newname data i names k words st R C :
  gives_rights copyin newname ->
  objects_at words n data i = Some names -> 0 <= data + 4 * i -> data + 4 * (i + Z.of_nat n) <= 4294967296 ->
  bl_inv st R C -> (dest, dest_type) ∈ R ->
  mwp (copyin_objects n copyin dest newname data i) (objects_result n newname data i k words R C) (mk_kbuf k words, st).
Proof.
  intros Hgive. revert i names k words st R.
  induction n as [|n IH]; intros i names k words st R Hl Hlo Hhi Hinv Hdest.
  { apply mwp_ret. exists k, words, O, []. split_and!; done. }
  simpl in Hl. destruct (words !! (data + 4 * i)) as [port|] eqn:Hport; [|done].
  destruct (objects_at words n data (i + 1)) as [names'|] eqn:Hnames; [|done].
  simpl. rewrite u32_id by (unfold u32_range, u32_max; lia).
  apply mwp_bind. eapply mwp_read; [done|].
  destruct (MACH_PORT_VALID port) eqn:Hvalid; cbn [negb].
  2: { eapply mwp_mono; [eapply IH; [done|lia|lia|done|done]|]. intros r s Hr.
       eapply objects_result_cons; [apply same_header_refl|apply changed_refl|done|].
       unfold carries. change (IO_VALID port) with (MACH_PORT_VALID port). by rewrite Hvalid. }
  apply mwp_bind, mwp_lift. eapply mwp_mono; [by apply Hgive|]. intros [kr o] st1 Hst1. cbn [fst snd] in Hst1.
  destruct (bool_decide (kr = KERN_SUCCESS)) eqn:Hkr; cbn [negb].
  2: { apply mwp_ret. exists k, words, O, []. split_and!; try done; lia. }
  destruct Hst1 as [Hinv1 Hrecv]. apply mwp_bind.
  assert (Hcirc : mwp (if newname =? MACH_MSG_TYPE_PORT_RECEIVE then lift (bo_circular o dest) else mret false)
                    (fun _ s => s.1 = mk_kbuf k words /\ bl_inv s.2 (carries o newname ++ R) C) (mk_kbuf k words, st1)).
  { destruct (Z.eqb_spec newname MACH_MSG_TYPE_PORT_RECEIVE) as [Heq|]; [|by apply mwp_ret].
    apply mwp_lift. eapply mwp_mono; [eapply bl_circular; [exact Hinv1| |]|done].
    - unfold carries. rewrite Hrecv, Heq by done. by left.
    - apply elem_of_app. by right. }
  eapply mwp_mono; [exact Hcirc|]. intros b [kb st2] [Hkb Hinv2]. cbn [fst snd] in *. subst kb. apply mwp_bind.
  apply (mwp_mono _ (fun _ s => exists k1, same_header k k1 /\ s = (mk_kbuf k1 words, st2))).
  { apply mwp_when. destruct b; [|exists k; split; [apply same_header_refl|done]].
    apply mwp_modify. eexists. split; [|done]. by apply same_header_lor. }
  intros [] s (k1 & Hk1 & ->). apply mwp_bind. eapply mwp_write; [by eexists|].
  assert (Hch : changed (data + 4 * i) (data + 4 * (i + 1)) words (<[data + 4 * i := o]> words))
    by (apply changed_insert; [by eexists|lia]).
  eapply mwp_mono; [eapply IH; [|lia|lia|exact Hinv2|]|].
  - rewrite (objects_at_frame words); [exact Hnames|]. intros a Ha. apply (ch_same _ _ _ _ Hch). lia.
  - apply elem_of_app. by right.
  - intros r s Hr. eapply objects_result_cons; [exact Hk1|exact Hch|by rewrite lookup_insert_eq|exact Hr].
Qed.

(** *** The fields of a descriptor *)

Lemma set_field w n v :
  0 <= n -> 0 <= v < 2 ^ n ->
  Z.shiftr (Z.lor (Z.ldiff w (Z.ones n)) v) n = Z.shiftr w n /\
  Z.land (Z.lor (Z.ldiff w (Z.ones n)) v) (Z.ones n) = v.
Proof.
  intros Hn Hv. split.
  - rewrite Z.shiftr_lor, Z.ldiff_ones_r, Z.shiftr_shiftl_l, Z.sub_diag, Z.shiftl_0_r by done.
    rewrite (Z.shiftr_div_pow2 v), Z.div_small by done. apply Z.lor_0_r.
  - rewrite Z.land_lor_distr_l, (Z.land_ones v), Z.mod_small by done.
    replace (Z.land (Z.ldiff w (Z.ones n)) (Z.ones n)) with 0; [done|]. symmetry. apply Z.bits_inj'. intros i Hi.
    rewrite Z.land_spec, Z.ldiff_spec, Z.bits_0. destruct (Z.testbit (Z.ones n) i); by rewrite ?andb_false_r.
Qed.

(** The fields above bit 8 are those of [w] shifted. *)
Lemma upper_fields w w' :
  Z.shiftr w' 8 = Z.shiftr w 8 ->
  msgt_size w' = msgt_size w /\ msgt_number w' = msgt_number w /\
  (forall i, 8 <= i -> Z.testbit w' i = Z.testbit w i).
Proof.
  intros Hs. unfold msgt_size, msgt_number. rewrite Hs.
  assert (Ht : forall i, 8 <= i -> Z.testbit w' i = Z.testbit w i).
  { intros i Hi. replace i with (i - 8 + 8) by lia. rewrite <- !Z.shiftr_spec by lia. by rewrite Hs. }
  split_and!; [done| |done]. f_equal. change 16 with (8 + 8). rewrite <- !Z.shiftr_shiftr by done. by rewrite Hs.
Qed.

Record renamed (d d' : type_desc) (name : Z) : Prop := {
  rn_name : td_name d' = name;
  rn_size : td_size d' = td_size d;
  rn_number : td_number d' = td_number d;
  rn_inline : td_inline d' = td_inline d;
  rn_longform : td_longform d' = td_longform d
}.

Lemma renamed_length d d' name :
  renamed d d' name -> data_length d' = data_length d /\ inline_amount d' = inline_amount d /\
    port_fits d' = port_fits d /\ item_size d' = item_size d.
Proof.
  intros [_ Hs Hn Hi Hl]. unfold item_size, inline_amount, data_length, port_fits.
  by rewrite Hs, Hn, Hi, Hl.
Qed.

Lemma set_name_spec a next d name k words st :
  desc_of words a = Some (d, next) -> 0 <= a -> next < 4294967296 -> 0 <= name < 256 ->
  mwp (set_name a (td_longform d) name) (fun _ (s : ks) => exists words' d',
    s = (mk_kbuf k words', st) /\ changed a next words words' /\
    desc_of words' a = Some (d', next) /\ renamed d d' name) (mk_kbuf k words, st).
Proof.
  intros Hd Ha Hn Hname. pose proof (desc_of_next _ _ _ _ Hd) as Hnext. revert Hd. unfold desc_of, set_name, td_longform in *.
  destruct (words !! a) as [w|] eqn:Hw; [|done]. destruct (msgt_longform w) eqn:Hl.
  - destruct (words !! (a + 4)) as [w1|] eqn:H1; [|done]. destruct (words !! (a + 8)) as [w2|] eqn:H2; [|done].
    intros [= <- <-]. cbn [td_first]. rewrite Hl. rewrite u32_id by (unfold u32_range, u32_max; lia).
    destruct (set_field w1 16 name ltac:(lia) ltac:(lia)) as [Hs Hm].
    apply mwp_bind. eapply mwp_read; [done|]. eapply mwp_write; [by eexists|].
    eexists _, _. split; [done|]. split; [apply changed_insert; [by eexists|lia]|].
    rewrite lookup_insert_ne, Hw, Hl, lookup_insert_eq, lookup_insert_ne, H2 by lia. split; [done|].
    split; try done. cbn [td_size]. unfold msgtl_size. change 0xffff with (Z.ones 16). by rewrite Hs.
  - intros [= <- <-]. cbn [td_first]. rewrite Hl.
    destruct (set_field w 8 name ltac:(lia) ltac:(lia)) as [Hs Hm].
    destruct (upper_fields _ _ Hs) as (Hsize & Hnum & Hbits).
    apply mwp_bind. eapply mwp_read; [done|]. eapply mwp_write; [by eexists|].
    eexists _, _. split; [done|]. split; [apply changed_insert; [by eexists|lia]|].
    rewrite lookup_insert_eq. change 0xff with (Z.ones 8) in *.
    assert (Hlong : msgt_longform (Z.lor (Z.ldiff w (Z.ones 8)) name) = false) by (unfold msgt_longform in *; by rewrite Hbits).
    rewrite Hlong. split; [done|].
    split; cbn [td_name td_size td_number]; [exact Hm|exact Hsize|exact Hnum|..]; unfold td_inline, td_longform; cbn [td_first].
    + unfold msgt_inline. by apply Hbits.
    + by rewrite Hlong, Hl.
Qed.

Lemma clear_unused_spec a next d k words st :
  desc_of words a = Some (d, next) -> 0 <= a -> next < 4294967296 ->
  mwp (clear_unused a (td_longform d)) (fun _ (s : ks) => exists words' d',
    s = (mk_kbuf k words', st) /\ changed a next words words' /\
    desc_of words' a = Some (d', next) /\ renamed d d' (td_name d)) (mk_kbuf k words, st).
Proof.
  intros Hd Ha Hn. pose proof (desc_of_next _ _ _ _ Hd) as Hnext. revert Hd. unfold desc_of, clear_unused, td_longform in *.
  destruct (words !! a) as [w|] eqn:Hw; [|done]. destruct (msgt_longform w) eqn:Hl.
  - destruct (words !! (a + 4)) as [w1|] eqn:H1; [|done]. destruct (words !! (a + 8)) as [w2|] eqn:H2; [|done].
    intros [= <- <-]. cbn [td_first]. rewrite Hl.
    apply mwp_bind. eapply mwp_read; [done|]. eapply mwp_write; [by eexists|].
    eexists _, _. split; [done|]. split; [apply changed_insert; [by eexists|lia]|].
    rewrite lookup_insert_eq. unfold msgt_longform in *. rewrite Z.ldiff_spec, Hl.
    rewrite !lookup_insert_ne, H1, H2 by lia. split; [done|].
    split; try done; unfold td_inline, td_longform, msgt_inline, msgt_longform; cbn [td_first];
      rewrite Z.ldiff_spec; apply andb_true_r.
  - intros [= <- <-]. cbn [td_first]. rewrite Hl.
    apply mwp_bind. eapply mwp_read; [done|]. eapply mwp_write; [by eexists|].
    eexists _, _. split; [done|]. split; [apply changed_insert; [by eexists|lia]|].
    rewrite lookup_insert_eq. unfold msgt_longform in *. rewrite Z.ldiff_spec, Hl. cbn [andb]. split; [done|].
    assert (Hf : forall n m, 0 <= n -> Z.land (Z.shiftr 0x80000000 n) m = 0 ->
                 Z.land (Z.shiftr (Z.ldiff w 0x80000000) n) m = Z.land (Z.shiftr w n) m).
    { intros n m Hn0 Hz. apply Z.bits_inj'. intros i Hi.
      assert (Hb : Z.testbit (Z.land (Z.shiftr 0x80000000 n) m) i = false) by (by rewrite Hz, Z.bits_0).
      rewrite Z.land_spec, Z.shiftr_spec in Hb by done.
      rewrite !Z.land_spec, !Z.shiftr_spec, Z.ldiff_spec by done.
      destruct (Z.testbit m i); [|by rewrite !andb_false_r]. rewrite andb_true_r in Hb. by rewrite Hb, !andb_true_r. }
    split; cbn [td_name td_size td_number]; unfold td_inline, td_longform, msgt_inline, msgt_longform; cbn [td_first];
      rewrite ?Z.ldiff_spec, ?andb_true_r; try done.
    + by apply (Hf 0).
    + by apply (Hf 8).
    + by apply (Hf 16).
Qed.

(** *** The memory while a body is copied in *)

Section memory.
(** The memory before, and the body. *)
Context (words0 : gmap Z Z) (ikm start eaddr : Z).
Context (Hstart : start = ikm + 24) (Hikm : 0 <= ikm) (Hwrap : eaddr < 4294967296).
Context (Halign : start mod 4 = 0) (Hwords : eaddr mod 4 = 0) (Hstart_le : start <= eaddr).
Context (Hmapped : forall a, start <= a < eaddr -> a mod 4 = 0 -> is_Some (words0 !! a)).

(** [m] is where the part of the body begins that has not been touched;
    [arrays] have been allocated. *)
Record memory_ok (words : gmap Z Z) (m : Z) (arrays : list (Z * Z)) : Prop := {
  mo_dom a : is_Some (words !! a) <-> is_Some (words0 !! a) \/ (a mod 4 = 0 /\ in_arrays a arrays);
  mo_rest : agree words0 words m eaddr;
  mo_apart : StronglySorted apart arrays;
  mo_new a : in_arrays a arrays -> words0 !! a = None;
  mo_aligned array : array ∈ arrays -> array.1 mod 4 = 0 /\ array.2 mod 4 = 0
}.

Lemma body_not_in_arrays words m arrays a : memory_ok words m arrays -> start <= a < eaddr -> ~ in_arrays a arrays.
Proof.
  intros Hm Ha (x & Hx & Hin). destruct (mo_aligned _ _ _ Hm x Hx) as [Hx1 Hx2].
  assert (Hl : 4 * (a / 4) mod 4 = 0) by (rewrite Z.mul_comm; by apply Z.mod_mul).
  destruct (Hmapped (4 * (a / 4))) as [v Hv]; [Z.to_euclidean_division_equations; lia|done|].
  rewrite (mo_new _ _ _ Hm) in Hv; [done|]. exists x. split; [done|]. unfold in_array in *.
  Z.to_euclidean_division_equations; lia.
Qed.

Lemma memory_arrays_ok words m arrays hi : memory_ok words m arrays -> hi <= eaddr -> arrays_ok start hi arrays.
Proof. intros Hm Hhi. split; [apply Hm|]. intros a Ha. eapply body_not_in_arrays; [done|lia]. Qed.

(** Writing to the part that has been looked at, or to an array. *)
Lemma memory_changed words words' m arrays lo hi :
  memory_ok words m arrays -> changed lo hi words words' -> (forall a, lo <= a < hi -> ~ m <= a < eaddr) ->
  memory_ok words' m arrays.
Proof.
  intros [Hd Hr Ha Hn Hal] Hch Hout. split; [|..|done|done|done].
  - intros a. by rewrite (ch_dom _ _ _ _ Hch).
  - intros a Ham. rewrite (ch_same _ _ _ _ Hch); [by apply Hr|]. intros Hlo. by eapply Hout.
Qed.

Lemma memory_later words m m' arrays : memory_ok words m arrays -> m <= m' -> memory_ok words m' arrays.
Proof. intros [] Hm. split; try done. eapply agree_sub; [done|lia..]. Qed.

(** A part that is finished stays as it is. *)
Lemma holds_changed words words' m h m' extra lo hi :
  holds words start m h -> m <= eaddr -> memory_ok words m' (h_arrays h ++ extra) -> changed lo hi words words' ->
  (forall a, lo <= a < hi -> ~ start <= a < m /\ ~ in_arrays a (h_arrays h)) ->
  holds words' start m h.
Proof.
  intros Hh Hm Hmem Hch Hout. eapply holds_frame; [done|..].
  - intros a Ha. apply (ch_same _ _ _ _ Hch). intros Hlo. by destruct (Hout a Hlo) as [[] _].
  - intros array Harr a Ha. apply (ch_same _ _ _ _ Hch). intros Hlo. destruct (Hout a Hlo) as [_ []]. by exists array.
Qed.

(** *** A new array *)

Lemma array_words_cons data v l : array_words data (v :: l) = <[data := v]> (array_words (data + 4) l).
Proof.
  unfold array_words. simpl. rewrite Z.add_0_r. do 2 f_equal. apply imap_ext. intros i x _. simpl. f_equal. lia.
Qed.

Lemma array_words_dom data l a :
  data mod 4 = 0 ->
  is_Some (array_words data l !! a) <-> a mod 4 = 0 /\ data <= a < data + 4 * Z.of_nat (length l).
Proof.
  revert data. induction l as [|v l IH]; intros data Hd.
  { simpl. unfold array_words. simpl. rewrite lookup_empty. split; [by intros []|lia]. }
  rewrite array_words_cons. destruct (decide (a = data)) as [->|Hne].
  - rewrite lookup_insert_eq. simpl length. split; [intros _; split; [done|lia]|by eexists].
  - rewrite lookup_insert_ne by done. rewrite IH by (Z.to_euclidean_division_equations; lia).
    simpl length. Z.to_euclidean_division_equations; lia.
Qed.

Lemma array_words_objects data i l words :
  objects_at (array_words (data + 4 * i) l ∪ words) (length l) data i = Some l.
Proof.
  revert i. induction l as [|v l IH]; intros i; [done|]. simpl.
  rewrite array_words_cons, <- insert_union_l, lookup_insert_eq.
  rewrite (objects_at_frame (array_words (data + 4 * (i + 1)) l ∪ words)).
  - by rewrite IH.
  - replace (data + 4 * i + 4) with (data + 4 * (i + 1)) by lia. intros a Ha. apply lookup_insert_ne. lia.
Qed.

Lemma memory_new_array words m arrays data l :
  memory_ok words m arrays -> start <= m -> data mod 4 = 0 ->
  (forall a, data <= a < data + 4 * Z.of_nat (length l) -> words !! a = None) ->
  memory_ok (array_words data l ∪ words) m (arrays ++ [(data, 4 * Z.of_nat (length l))]) /\
  (forall a, ~ data <= a < data + 4 * Z.of_nat (length l) -> (array_words data l ∪ words) !! a = words !! a).
Proof.
  intros Hm Hsm Hd Hfresh.
  assert (Hother : forall a, ~ data <= a < data + 4 * Z.of_nat (length l) -> (array_words data l ∪ words) !! a = words !! a).
  { intros a Ha. rewrite lookup_union_r; [done|]. destruct (array_words data l !! a) eqn:Hl; [|done].
    exfalso. apply Ha. apply (array_words_dom data l a Hd). by eexists. }
  assert (Hin1 : forall a, in_arrays a [(data, 4 * Z.of_nat (length l))] <-> data <= a < data + 4 * Z.of_nat (length l)).
  { intros a. unfold in_arrays, in_array. setoid_rewrite list_elem_of_singleton. naive_solver. }
  assert (Hnew : forall a, data <= a < data + 4 * Z.of_nat (length l) -> words0 !! a = None).
  { intros a Ha. apply eq_None_not_Some. intros Hs. apply Hfresh in Ha.
    assert (is_Some (words !! a)) as [? Hv] by (apply (mo_dom _ _ _ Hm); by left). by rewrite Ha in Hv. }
  split; [|done]. split.
  - intros a. rewrite lookup_union_is_Some, array_words_dom, (mo_dom _ _ _ Hm), in_arrays_app, Hin1 by done. tauto.
  - intros a Ha. rewrite Hother; [by apply (mo_rest _ _ _ Hm)|].
    intros Hin. destruct (Hmapped (4 * (a / 4))) as [v Hv]; [Z.to_euclidean_division_equations; lia..|].
    rewrite Hnew in Hv; [done|]. Z.to_euclidean_division_equations; lia.
  - apply apart_app. split_and!; [apply Hm|repeat constructor|]. intros a (x & Hx & Hin) Hin'%Hin1.
    destruct (mo_aligned _ _ _ Hm x Hx) as [Hx1 Hx2].
    assert (is_Some (words !! (4 * (a / 4)))) as [v Hv].
    { apply (mo_dom _ _ _ Hm). right. split; [rewrite Z.mul_comm; by apply Z.mod_mul|].
      exists x. split; [done|]. unfold in_array in *. Z.to_euclidean_division_equations; lia. }
    rewrite Hfresh in Hv; [done|]. Z.to_euclidean_division_equations; lia.
  - intros a [Ha|Ha%Hin1]%in_arrays_app; [by apply (mo_new _ _ _ Hm)|by apply Hnew].
  - intros x [Hx| ->%list_elem_of_singleton]%elem_of_app; [by apply (mo_aligned _ _ _ Hm)|]. simpl.
    split; [done|]. rewrite Z.mul_comm. by apply Z.mod_mul.
Qed.

(** *** Giving everything back *)

Definition given_back R C (s : ks) : Prop :=
  (forall a, is_Some (kb_words s.1 !! a) <-> is_Some (words0 !! a)) /\ bl_inv s.2 R C.

Lemma free_all_dom words m arrays a :
  memory_ok words m arrays -> is_Some (free_arrays arrays words !! a) <-> is_Some (words0 !! a).
Proof.
  intros Hm. destruct (lookup_free_arrays arrays words a) as [Hin Hout].
  assert (Hdec : in_arrays a arrays \/ ~ in_arrays a arrays).
  { destruct (decide (Exists (in_array a) arrays)) as [He|He]; [left|right]; revert He; unfold in_arrays;
      rewrite Exists_exists; naive_solver. }
  destruct Hdec as [Hyes|Hno].
  - rewrite Hin, (mo_new _ _ _ Hm) by done. done.
  - rewrite Hout, (mo_dom _ _ _ Hm) by done. tauto.
Qed.

Lemma body_start_eq : body_start ikm = start.
Proof. unfold body_start, sizeof_header. rewrite Hstart. apply u32_id. unfold u32_range, u32_max. lia. Qed.

Lemma destroy_valid_spec object name kb st R C :
  bl_inv st (carries object name ++ R) C ->
  mwp (destroy_valid object name) (fun _ (s : ks) => s.1 = kb /\ bl_inv s.2 R C) (kb, st).
Proof.
  intros Hinv. apply mwp_when. unfold carries in Hinv. destruct (IO_VALID object); [|done].
  apply mwp_lift. eapply mwp_mono; [apply bl_destroy, Hinv|]. intros [] st' Hst'. done.
Qed.

(** The header and the items before [m]; then [clean_last]. *)
Lemma clean_partial_wp k words st m m' h extra R C dolast number Q :
  holds words start m h -> m <= eaddr -> memory_ok words m' (h_arrays h ++ extra) ->
  bl_inv st (h_rights h ++ header_rights k ++ R) (h_copies h ++ C) ->
  (forall st', bl_inv st' R C ->
     mwp (when dolast (clean_last m number)) Q (mk_kbuf k (free_arrays (h_arrays h) words), st')) ->
  mwp (ipc_kmsg_clean_partial ikm m dolast number) Q (mk_kbuf k words, st).
Proof.
  intros Hh Hm Hmem Hinv Hlast. unfold ipc_kmsg_clean_partial. apply mwp_bind, mwp_header.
  set (k1 := (msgh_remote_port k, MACH_MSGH_BITS_REMOTE (msgh_bits k))).
  assert (Hinv1 : bl_inv st (k1 :: carries (msgh_local_port k) (MACH_MSGH_BITS_LOCAL (msgh_bits k)) ++ h_rights h ++ R)
                    (h_copies h ++ C)).
  { eapply bl_perm; [|done|exact Hinv]. unfold header_rights. fold k1. rewrite !app_assoc.
    rewrite (Permutation_app_comm (h_rights h)). simpl. by rewrite <- !app_assoc. }
  apply mwp_bind, mwp_lift. eapply mwp_mono; [apply bl_destroy, Hinv1|]. intros [] st1 Hst1. cbn beta.
  apply mwp_bind. eapply mwp_mono; [by apply destroy_valid_spec|]. after_unit st2 Hst2.
  apply mwp_bind. rewrite body_start_eq.
  eapply mwp_mono; [eapply clean_body_spec; [done|lia|lia|done| |exact Hst2]|].
  - destruct (memory_arrays_ok _ _ _ m Hmem Hm) as [Hs Hb]. apply apart_app in Hs as (Hs & _ & _). split; [done|].
    intros a Ha Hin. apply (Hb a Ha), in_arrays_app. by left.
  - after_unit st3 Hst3. by apply Hlast.
Qed.

Lemma fail_partial_spec k words st m m' h R C mr :
  holds words start m h -> m <= eaddr -> memory_ok words m' (h_arrays h) ->
  bl_inv st (h_rights h ++ header_rights k ++ R) (h_copies h ++ C) ->
  mwp (fail_partial ikm m mr) (fun r s => r = inr mr /\ given_back R C s) (mk_kbuf k words, st).
Proof.
  intros Hh Hm Hmem Hinv. unfold fail_partial. apply mwp_bind.
  eapply (clean_partial_wp _ _ _ _ _ _ []); [done|done|by rewrite app_nil_r|done|]. intros st' Hst'. apply mwp_when.
  apply mwp_ret. split; [done|]. split; [|done]. intros a. by eapply free_all_dom.
Qed.

(** The item in which a name was wrong: [m] of its objects are rights. *)
Lemma clean_last_spec k words st a d s1 data n objs R C :
  desc_of words a = Some (d, s1) -> 0 <= a -> s1 < 4294967296 -> td_port d = true -> port_fits d = true ->
  (if td_inline d then data = s1 else words !! s1 = Some data) ->
  0 <= data -> data + 4 * Z.of_nat n <= 4294967296 -> objects_at words n data 0 = Some objs ->
  bl_inv st (rights_of objs (td_name d) ++ R) C ->
  mwp (clean_last a (Z.of_nat n)) (fun _ (s : ks) =>
    s.1 = mk_kbuf k (free_arrays (if td_inline d then [] else array_of d data) words) /\ bl_inv s.2 R C)
    (mk_kbuf k words, st).
Proof.
  intros Hd Ha Hs1 Hp Hf Hdata Hlo Hhi Ho Hinv. unfold clean_last. eapply mwp_desc; [done..|].
  cbv beta iota. apply mwp_bind, mwp_when. rewrite Hp. apply mwp_bind.
  apply (mwp_mono _ (fun r s => r = data /\ s = (mk_kbuf k words, st))).
  { destruct (td_inline d); [subst; by apply mwp_ret|by eapply mwp_read]. }
  intros r s [-> ->]. rewrite Nat2Z.id.
  eapply mwp_mono; [eapply destroy_objects_spec; [done|lia|lia|exact Hinv]|]. after_unit st' Hst'.
  apply mwp_when. destruct (td_inline d); cbn [negb]; [done|].
  apply mwp_bind. eapply mwp_read; [done|]. unfold free_memory, array_of. rewrite Hp.
  destruct (data_length d =? 0); [by apply mwp_ret|]. by apply mwp_modify.
Qed.

(** *** The ports of an item *)

(** What an item of the body leads to: the part of the body up to the next
    item is finished, or everything has been given back. *)
Definition empty_holding (h : holding) : Prop := h = no_holding.

Definition item_outcome (m nx : Z) (k : ipc_kmsg) R C (r : item_result) (s : ks) : Prop :=
  match r with
  | inr mr => mr <> MACH_MSG_SUCCESS /\ given_back R C s
  | inl (next, complex) =>
    next = nx /\ m < next <= eaddr /\ exists k' words' h',
      s.1 = mk_kbuf k' words' /\ same_header k k' /\
      holds words' start next h' /\ memory_ok words' next (h_arrays h') /\
      (complex = false -> empty_holding h') /\
      bl_inv s.2 (h_rights h' ++ header_rights k ++ R) (h_copies h' ++ C)
  end.

(** Where the ports of an item are: after the descriptor, or in an array. *)
Record ports_at (words : gmap Z Z) (d : type_desc) (s1 data next : Z) (extra : list (Z * Z)) : Prop := {
  pa_place : if td_inline d then data = s1 /\ extra = [] /\ next = s1 + inline_amount d
             else words !! s1 = Some data /\ extra = array_of d data /\ next = s1 + 4;
  pa_data : 0 <= data /\ data mod 4 = 0 /\ data + 4 * td_number d < 4294967296;
  pa_fits : port_fits d = true
}.

(** The addresses of these ports are nobody else's. *)
Lemma ports_region words d m s1 data next h extra a :
  ports_at words d s1 data next extra -> start <= m -> m < s1 -> next <= eaddr ->
  memory_ok words next (h_arrays h ++ extra) -> data <= a < data + 4 * td_number d ->
  ~ start <= a < m /\ ~ in_arrays a (h_arrays h) /\ ~ next <= a < eaddr /\ ~ m <= a < s1 /\
  (td_inline d = false -> ~ start <= a < eaddr).
Proof.
  intros [Hp Hd Hf] Hm Hs1 Hn Hmem Ha. destruct (port_length d Hf) as (Hl & Hi & _).
  destruct (td_inline d).
  - destruct Hp as (-> & -> & ->). rewrite app_nil_r in Hmem.
    split_and!; [lia| |lia|lia|done]. eapply body_not_in_arrays; [done|lia].
  - destruct Hp as (_ & -> & ->). unfold array_of in Hmem.
    destruct (Z.eqb_spec (data_length d) 0); [lia|].
    assert (Hin : in_arrays a [(data, data_length d)]).
    { exists (data, data_length d). split; [by apply list_elem_of_singleton|]. unfold in_array. simpl. lia. }
    assert (Hb : ~ start <= a < eaddr).
    { intros Hb. eapply body_not_in_arrays; [done..|]. apply in_arrays_app. by right. }
    split_and!; [lia| |lia|lia|done].
    pose proof (mo_apart _ _ _ Hmem) as Hap. apply apart_app in Hap as (_ & _ & Hap).
    intros Hold. by apply (Hap a Hold).
Qed.

Lemma ports_at_frame words words' d d' name s1 data next extra :
  ports_at words d s1 data next extra -> renamed d d' name -> words' !! s1 = words !! s1 \/ td_inline d = true ->
  ports_at words' d' s1 data next extra.
Proof.
  intros [Hp Hd Hf] Hr Hs. destruct (renamed_length _ _ _ Hr) as (Hl & Hi & Hpf & _).
  split; rewrite ?(rn_number _ _ _ Hr), ?Hpf; try done. rewrite (rn_inline _ _ _ Hr), Hi. unfold array_of. rewrite Hl.
  destruct (td_inline d); [done|]. destruct Hs as [->|?]; done.
Qed.

(** All the names were good: the item holds the rights. *)
Lemma ports_item_holds words d m s1 data next extra objs :
  desc_of words m = Some (d, s1) -> td_port d = true -> ports_at words d s1 data next extra ->
  objects_at words (Z.to_nat (td_number d)) data 0 = Some objs ->
  item_holds words m = Some (mk_holding (rights_of objs (td_name d)) [] extra, next).
Proof.
  intros Hd Hp [Hpl Hda Hf] Ho. destruct (port_length d Hf) as (Hl & _ & _).
  unfold item_holds. rewrite Hd, Hp, Hf. destruct (td_inline d).
  - destruct Hpl as (-> & -> & ->). by rewrite Ho.
  - destruct Hpl as (-> & -> & ->). rewrite Ho.
    rewrite (proj2 (Z.leb_le _ _)), (proj2 (Z.ltb_lt _ _)), (proj2 (Z.eqb_eq _ _)) by lia. done.
Qed.

Lemma port_type_cases name :
  MACH_MSG_TYPE_PORT_ANY name = true \/ MSG_TYPE_PORT_ANY name = true -> name ∈ [5; 6; 16; 17; 18; 19; 20; 21].
Proof.
  unfold MACH_MSG_TYPE_PORT_ANY, MSG_TYPE_PORT_ANY. intros Hn.
  change MACH_MSG_TYPE_MOVE_RECEIVE with 16 in Hn. change MACH_MSG_TYPE_MAKE_SEND_ONCE with 21 in Hn.
  change MSG_TYPE_PORT with 6 in Hn. change MSG_TYPE_PORT_ALL with 5 in Hn.
  rewrite andb_true_iff, orb_true_iff, !Z.leb_le, !Z.eqb_eq in Hn. rewrite !elem_of_cons. lia.
Qed.

(** The type of a right in transit. *)
Lemma copyin_type_ports name :
  MACH_MSG_TYPE_PORT_ANY name = true \/ MSG_TYPE_PORT_ANY name = true ->
  exists newname, ipc_object_copyin_type name = Some newname /\
    MACH_MSG_TYPE_PORT_ANY newname = true /\ 0 <= newname < 256.
Proof.
  intros Hcases%port_type_cases.
  repeat (apply elem_of_cons in Hcases as [->|Hcases]; [eexists; split; [vm_compute; reflexivity|split; [done|lia]]|]).
  by apply elem_of_nil in Hcases.
Qed.

Record lawful_kind (kind : copyin_kind) : Prop := {
  lk_port name : ck_port kind name = true ->
    MACH_MSG_TYPE_PORT_ANY name = true \/ MSG_TYPE_PORT_ANY name = true;
  lk_copyin name newname dealloc : ck_port kind name = true -> ipc_object_copyin_type name = Some newname ->
    gives_rights (fun port => ck_copyin kind port name dealloc) newname
}.

Lemma new_kind_lawful : lawful_kind new_kind.
Proof.
  split; [by left|]. intros name newname dealloc Hp Ht st R C port Hinv Hv. by apply bl_copyin.
Qed.

Lemma compat_kind_lawful : lawful_kind compat_kind.
Proof.
  split; [by right|]. intros name newname dealloc Hp Ht st R C port Hinv Hv. by apply bl_copyin_compat.
Qed.

(** The memory before and after the loop over the names. *)
Lemma ports_loop_memory words words' d m s1 data next h extra :
  holds words start m h -> m < s1 -> start <= m -> next <= eaddr -> ports_at words d s1 data next extra ->
  memory_ok words next (h_arrays h ++ extra) -> changed data (data + 4 * td_number d) words words' ->
  holds words' start m h /\ memory_ok words' next (h_arrays h ++ extra) /\
  agree words words' m s1 /\ (words' !! s1 = words !! s1 \/ td_inline d = true).
Proof.
  intros Hh Hs1 Hm Hn Hpa Hmem Hch.
  assert (Hregion := fun a => ports_region words d m s1 data next h extra a Hpa Hm Hs1 Hn Hmem).
  assert (Hs1e : s1 <= eaddr /\ (s1 < eaddr \/ td_inline d = true)).
  { destruct Hpa as [Hp _ _]. pose proof (inline_amount_pos d).
    destruct (td_inline d); destruct Hp as (_ & _ & ->); (split; [lia|]); [by right|left; lia]. }
  split_and!.
  - eapply holds_changed; [done| |exact Hmem|exact Hch|]; [lia|].
    intros a Ha. by destruct (Hregion a Ha) as (? & ? & _).
  - eapply memory_changed; [done..|]. intros a Ha. by destruct (Hregion a Ha) as (_ & _ & ? & _).
  - intros a Ha. apply (ch_same _ _ _ _ Hch). intros Hin. by destruct (Hregion a Hin) as (_ & _ & _ & ? & _).
  - destruct (td_inline d) eqn:Hin; [by right|left]. apply (ch_same _ _ _ _ Hch). intros Ha.
    destruct (Hregion s1 Ha) as (_ & _ & _ & _ & Hb). apply Hb; [done|]. destruct Hs1e as [_ [?|?]]; [lia|done].
Qed.

(** The name at [j] was wrong. *)
Lemma ports_failure k words st d m s1 data next h extra j objs R C :
  desc_of words m = Some (d, s1) -> td_port d = true -> ports_at words d s1 data next extra ->
  holds words start m h -> memory_ok words next (h_arrays h ++ extra) -> m < s1 -> start <= m -> next <= eaddr ->
  objects_at words j data 0 = Some objs -> Z.of_nat j <= td_number d ->
  bl_inv st (rights_of objs (td_name d) ++ h_rights h ++ header_rights k ++ R) (h_copies h ++ C) ->
  mwp (ipc_kmsg_clean_partial ikm m true (Z.of_nat j)) (fun _ s => given_back R C s) (mk_kbuf k words, st).
Proof.
  intros Hd Hp Hpa Hh Hmem Hs1 Hm Hn Ho Hj Hinv.
  assert (Hregion := fun a => ports_region words d m s1 data next h extra a Hpa Hm Hs1 Hn Hmem).
  assert (Hbody : forall a, start <= a < eaddr -> ~ in_arrays a (h_arrays h)).
  { intros a Ha Hin. eapply body_not_in_arrays; [exact Hmem|done|]. apply in_arrays_app. by left. }
  destruct Hpa as [Hpl (Hd0 & Hd1 & Hd2) Hf].
  assert (Hs1e : s1 <= eaddr /\ (td_inline d = false -> s1 < eaddr)).
  { destruct (port_length d Hf) as (_ & Hi & ?). destruct (td_inline d); destruct Hpl as (_ & _ & ->); lia. }
  eapply (clean_partial_wp k words st m next h extra (rights_of objs (td_name d) ++ R) C); [done|lia|done|..].
  { eapply bl_perm; [|done|exact Hinv]. rewrite !app_assoc. rewrite (Permutation_app_comm (rights_of objs (td_name d))).
    rewrite <- !app_assoc. apply Permutation_app_head. rewrite (app_assoc (rights_of _ _)).
    rewrite (Permutation_app_comm (rights_of objs (td_name d))). by rewrite <- app_assoc. }
  intros st' Hst'. apply mwp_when. eapply mwp_mono;
    [apply (clean_last_spec k _ st' m d s1 data j objs R C); [| |lia|exact Hp|exact Hf| |exact Hd0| | |exact Hst']|].
  - eapply desc_of_frame; [exact Hd|]. apply free_arrays_agree. intros a Ha. apply Hbody. lia.
  - lia.
  - destruct (td_inline d); [by destruct Hpl|]. destruct Hpl as [Hpl _].
    rewrite (proj2 (lookup_free_arrays _ _ _)); [exact Hpl|]. apply Hbody. lia.
  - lia.
  - rewrite (objects_at_frame words); [exact Ho|]. apply free_arrays_agree. intros a Ha.
    destruct (Hregion a) as (_ & ? & _); [lia|done].
  - intros [] [kb st2] [Hkb Hst2]. cbn [fst snd] in *. subst kb. split; [|done]. intros a. cbn [kb_words fst].
    rewrite <- free_arrays_app. replace (if td_inline d then [] else array_of d data) with extra; [by eapply free_all_dom|].
    destruct (td_inline d); by destruct Hpl as (_ & -> & _).
Qed.

(** [d0] is the descriptor that was read, [d] what is in the message now. *)
Lemma copyin_ports_spec kind k words st d0 d m s1 data next h extra names R C :
  lawful_kind kind -> ck_port kind (td_name d) = true -> renamed d0 d (td_name d0) ->
  desc_of words m = Some (d, s1) -> ports_at words d s1 data next extra ->
  holds words start m h -> memory_ok words next (h_arrays h ++ extra) -> start <= m -> next <= eaddr ->
  objects_at words (Z.to_nat (td_number d)) data 0 = Some names ->
  bl_inv st (h_rights h ++ header_rights k ++ R) (h_copies h ++ C) ->
  mwp (copyin_ports kind ikm (msgh_remote_port k) m data next d0) (item_outcome m next k R C) (mk_kbuf k words, st).
Proof.
  intros [Hport Hcopy] Hck Hd0 Hd Hpa Hh Hmem Hm Hn Ho Hinv. unfold copyin_ports.
  rewrite <- (rn_name _ _ _ Hd0), <- (rn_number _ _ _ Hd0), <- (rn_longform _ _ _ Hd0). clear Hd0.
  pose proof (desc_of_next _ _ _ _ Hd) as Hs1. assert (Hlt : m < s1) by (destruct (td_longform d); lia).
  destruct (port_length d (pa_fits _ _ _ _ _ _ Hpa)) as (_ & Hamount & Hnum).
  assert (Hnext : s1 <= next).
  { destruct Hpa as [Hp _ _]. destruct (td_inline d); destruct Hp as (_ & _ & ->); lia. }
  destruct (copyin_type_ports _ (Hport _ Hck)) as (newname & Hty & Hnew & Hrange). rewrite Hty.
  apply mwp_bind. eapply mwp_mono; [apply (set_name_spec m s1 d newname); [done|lia|lia|done]|].
  intros [] s (words1 & d' & -> & Hch1 & Hd' & Hren).
  assert (Hpa1 : ports_at words1 d' s1 data next extra).
  { eapply ports_at_frame; [done..|]. left. apply (ch_same _ _ _ _ Hch1). lia. }
  assert (Hbody : forall a, start <= a < eaddr -> ~ in_arrays a (h_arrays h)).
  { intros a Ha Hin. eapply body_not_in_arrays; [exact Hmem|done|]. apply in_arrays_app. by left. }
  assert (Hh1 : holds words1 start m h).
  { eapply holds_changed; [exact Hh| |exact Hmem|exact Hch1|]; [lia|]. intros a Ha. split; [lia|]. apply Hbody. lia. }
  assert (Hmem1 : memory_ok words1 next (h_arrays h ++ extra)).
  { eapply memory_changed; [exact Hmem|exact Hch1|]. intros a Ha. lia. }
  assert (Ho1 : objects_at words1 (Z.to_nat (td_number d)) data 0 = Some names).
  { rewrite (objects_at_frame words); [exact Ho|]. intros a Ha. apply (ch_same _ _ _ _ Hch1). intros Hin.
    destruct (ports_region words d m s1 data next h extra a Hpa Hm Hlt Hn Hmem) as (_ & _ & _ & ? & _); [lia|done]. }
  pose proof (pa_data _ _ _ _ _ _ Hpa) as (Hd0 & _ & Hd2).
  apply mwp_bind. eapply mwp_mono.
  { eapply (copyin_objects_spec _ _ _ (MACH_MSGH_BITS_REMOTE (msgh_bits k)));
      [by apply Hcopy|exact Ho1|lia|lia|exact Hinv|].
    apply elem_of_app. right. by left. }
  intros r [kb st2] (k2 & words2 & n & objs & Hkb & Hk2 & Hch2 & Hobjs & Hinv2 & Hr). cbn [fst snd] in *. subst kb.
  rewrite Z.mul_0_r, Z.add_0_r, Z.add_0_l, Z2Nat.id in Hch2 by lia. rewrite <- (rn_number _ _ _ Hren) in Hch2.
  destruct (ports_loop_memory _ _ _ _ _ _ _ _ _ Hh1 Hlt Hm Hn Hpa1 Hmem1 Hch2) as (Hh2 & Hmem2 & Hag & Hptr).
  assert (Hd2' : desc_of words2 m = Some (d', s1)) by (by eapply desc_of_frame).
  assert (Hpa2 : ports_at words2 d' s1 data next extra) by (eapply ports_at_frame; [done| |done]; by split).
  assert (Hp' : td_port d' = true) by (unfold td_port; by rewrite (rn_name _ _ _ Hren)).
  destruct r as [j|].
  - destruct Hr as [-> Hlt']. rewrite Z.add_0_l. apply mwp_bind. eapply mwp_mono.
    + apply (ports_failure k2 words2 st2 d' m s1 data next h extra n objs R C); try done.
      * rewrite (rn_number _ _ _ Hren). lia.
      * rewrite (rn_name _ _ _ Hren), (same_header_rights _ _ Hk2). done.
    + intros [] s Hs. apply mwp_ret. done.
  - subst n. apply mwp_ret. split; [done|]. split; [lia|]. exists k2, words2, (add_holding h (mk_holding (rights_of objs newname) [] extra)).
    split_and!; [done|done| |done|done|].
    + eapply holds_snoc; [done|]. rewrite <- (rn_name _ _ _ Hren). eapply ports_item_holds; [done..|].
      by rewrite (rn_number _ _ _ Hren).
    + eapply bl_perm; [| |exact Hinv2]; simpl.
      * rewrite app_assoc. apply Permutation_app_tail, Permutation_app_comm.
      * by rewrite app_nil_r.
Qed.

(** *** The data of an item *)

Lemma objects_mapped words n data i :
  (forall j, i <= j < i + Z.of_nat n -> is_Some (words !! (data + 4 * j))) ->
  exists names, objects_at words n data i = Some names.
Proof.
  revert i. induction n as [|n IH]; intros i Hj; [by exists []|]. simpl.
  destruct (Hj i) as [v ->]; [lia|]. destruct (IH (i + 1)) as [l ->]; [|by eexists]. intros j Hij. apply Hj. lia.
Qed.

Lemma memory_mapped words m arrays a :
  memory_ok words m arrays -> start <= a < eaddr -> a mod 4 = 0 -> is_Some (words !! a).
Proof. intros Hm Ha Hal. apply (mo_dom _ _ _ Hm). left. by apply Hmapped. Qed.

Lemma kfree_new words data l n :
  data mod 4 = 0 -> (forall a, data <= a < data + n -> words !! a = None) -> 4 * Z.of_nat (length l) = n ->
  free_array (data, n) (array_words data l ∪ words) = words.
Proof.
  intros Hd Hf <-. apply map_eq. intros a. rewrite lookup_free_array.
  destruct (bool_decide_reflect (in_array a (data, 4 * Z.of_nat (length l)))) as [Hin|Hin]; unfold in_array in Hin; simpl in Hin.
  - symmetry. by apply Hf.
  - apply lookup_union_r. destruct (array_words data l !! a) eqn:Ha; [|done]. exfalso. apply Hin.
    apply (array_words_dom data l a Hd). by eexists.
Qed.

(** The memory of an item has been taken. *)
Definition grabbed (is_port : bool) (d : type_desc) k words m' arrays R C (r : option Z) (s : ks) : Prop :=
  match r with
  | None => s.1 = mk_kbuf k words /\ bl_inv s.2 R C
  | Some data => exists words',
      s.1 = mk_kbuf k words' /\
      (forall a, start <= a < eaddr \/ in_arrays a arrays -> words' !! a = words !! a) /\
      if is_port then
        memory_ok words' m' (arrays ++ array_of d data) /\ bl_inv s.2 R C /\
        (0 <= data /\ data mod 4 = 0 /\ data + 4 * td_number d < 4294967296) /\
        exists names, objects_at words' (Z.to_nat (td_number d)) data 0 = Some names
      else words' = words /\ bl_inv s.2 R ((if data_length d =? 0 then [] else [data]) ++ C)
  end.

Lemma grab_data_spec (is_port lists steal dealloc : bool) addr d k words st m' arrays R C :
  memory_ok words m' arrays -> start <= m' -> bl_inv st R C -> (is_port = true -> port_fits d = true) ->
  mwp (grab_data is_port lists steal dealloc addr (data_length d)) (grabbed is_port d k words m' arrays R C)
    (mk_kbuf k words, st).
Proof.
  intros Hmem Hm Hinv Hfits. unfold grab_data. destruct (Z.eqb_spec (data_length d) 0) as [Hz|Hz].
  { apply mwp_ret. exists words. split_and!; [done|done|]. destruct is_port.
    - destruct (port_length d (Hfits eq_refl)) as (Hl & _ & Hn). unfold array_of. rewrite (proj2 (Z.eqb_eq _ _) Hz), app_nil_r.
      split_and!; try done; try lia. replace (td_number d) with 0 by lia. by exists [].
    - rewrite (proj2 (Z.eqb_eq _ _) Hz). done. }
  destruct is_port.
  2: { apply mwp_lift. eapply mwp_mono; [by eapply bl_vm_copyin|]. intros [copy|] st' Hst'; simpl; [|done].
       exists words. rewrite (proj2 (Z.eqb_neq _ _) Hz). done. }
  destruct (port_length d (Hfits eq_refl)) as (Hl & _ & Hn). apply mwp_bind, mwp_gets. cbn [kb_words fst].
  destruct (bo_kalloc (data_length d) words) as [data|] eqn:Hk; [|by apply mwp_ret].
  apply bl_kalloc in Hk as (Hd0 & Hd1 & Hd2 & Hfresh).
  apply mwp_bind, mwp_lift. eapply mwp_mono; [by apply bl_copyinmap; [|lia]|]. intros [l|] st1 [Hst1 Hlen]; [|by apply mwp_ret].
  specialize (Hlen l eq_refl). assert (Hll : 4 * Z.of_nat (length l) = data_length d).
  { rewrite Hlen, Hl. Z.to_euclidean_division_equations; lia. }
  assert (Hnat : Z.to_nat (td_number d) = length l) by lia.
  destruct (memory_new_array words m' arrays data l Hmem Hm Hd1) as [Hmem' Hother]; [intros a Ha; apply Hfresh; lia|].
  rewrite Hll in *.
  apply mwp_bind, mwp_modify. cbn [kb_header kb_words fst snd]. apply mwp_bind.
  apply (mwp_mono _ (fun _ s => s.1 = mk_kbuf k (array_words data l ∪ words) /\ bl_inv s.2 R C)).
  { destruct dealloc; [|by apply mwp_ret]. apply mwp_lift. eapply mwp_mono; [by apply bl_vm_deallocate|]. done. }
  intros ok [kb st2] [Hkb Hst2]. cbn [fst snd] in *. subst kb. destruct ok.
  - apply mwp_ret. exists (array_words data l ∪ words). split_and!; [done| |..].
    + intros a Ha. apply Hother. intros Hin. unfold in_arrays in *. destruct Ha as [Ha|Ha].
      * eapply body_not_in_arrays; [exact Hmem'|done|]. apply in_arrays_app. right.
        exists (data, data_length d). split; [by apply list_elem_of_singleton|done].
      * pose proof (mo_apart _ _ _ Hmem') as Hap. apply apart_app in Hap as (_ & _ & Hap). apply (Hap a Ha).
        exists (data, data_length d). split; [by apply list_elem_of_singleton|done].
    + unfold array_of. by rewrite (proj2 (Z.eqb_neq _ _) Hz).
    + done.
    + lia.
    + done.
    + lia.
    + exists l. rewrite Hnat. pose proof (array_words_objects data 0 l words) as Ho. by rewrite Z.mul_0_r, Z.add_0_r in Ho.
  - apply mwp_bind, mwp_modify. cbn [kb_header kb_words fst snd]. apply mwp_ret. split; [|done]. simpl. f_equal.
    by apply kfree_new.
Qed.

(** The descriptors for which the arithmetic of the loop does not overflow,
    and whose ports are the ports that the rest of the code sees. *)
Definition desc_fits (kind : copyin_kind (St := St)) (d : type_desc) : bool :=
  if ck_port kind (td_name d) then (0 <=? td_number d) && (td_number d <? 134217728) else negb (td_port d).

(** The item at [m] after its descriptor has been read and checked: [d0] is
    the descriptor that was read, [d] what is in the message now. *)
Record item_ready (kind : copyin_kind (St := St)) (d0 d : type_desc) k words st m s1 h complex R C : Prop := {
  ir_law : lawful_kind kind;
  ir_renamed : renamed d0 d (td_name d0);
  ir_desc : desc_of words m = Some (d, s1);
  ir_ports : ck_port kind (td_name d0) = true -> port_fits d = true;
  ir_noport : ck_port kind (td_name d0) = false -> td_port d = false;
  ir_holds : holds words start m h;
  ir_memory : memory_ok words s1 (h_arrays h);
  ir_range : start <= m < s1 /\ s1 <= eaddr /\ s1 mod 4 = 0;
  ir_complex : complex = false -> empty_holding h;
  ir_inv : bl_inv st (h_rights h ++ header_rights k ++ R) (h_copies h ++ C)
}.

Lemma item_fails kind d0 d k words st m s1 h complex R C nx mr :
  item_ready kind d0 d k words st m s1 h complex R C -> mr <> MACH_MSG_SUCCESS ->
  mwp (fail_partial ikm m mr) (item_outcome m nx k R C) (mk_kbuf k words, st).
Proof.
  intros [] Hmr. eapply mwp_mono; [by eapply fail_partial_spec; [|lia|..]|]. intros r s [-> Hs]. done.
Qed.

Lemma copyin_inline_spec kind d0 d k words st m s1 h complex R C :
  item_ready kind d0 d k words st m s1 h complex R C -> td_inline d = true ->
  mwp (if eaddr - s1 <? inline_amount d then fail_partial ikm m MACH_SEND_MSG_TOO_SMALL
       else if ck_port kind (td_name d0)
       then copyin_ports kind ikm (msgh_remote_port k) m s1 (u32 (s1 + inline_amount d)) d0
       else mret (inl (u32 (s1 + inline_amount d), complex))) (item_outcome m (m + item_size d) k R C) (mk_kbuf k words, st).
Proof.
  intros Hready Hin. pose proof Hready as [Hlaw Hren Hd Hports Hnoport Hh Hmem (Hm & Hs1 & Hal) Hcomplex Hinv].
  pose proof (inline_amount_pos d) as [Hpos _].
  assert (Hsize : m + item_size d = s1 + inline_amount d).
  { rewrite (desc_of_next _ _ _ _ Hd). unfold item_size. rewrite Hin. lia. }
  rewrite Hsize. destruct (Z.ltb_spec (eaddr - s1) (inline_amount d)); [by eapply item_fails|].
  rewrite u32_id by (unfold u32_range, u32_max; lia).
  destruct (ck_port kind (td_name d0)) eqn:Hck.
  + destruct (port_length d (Hports eq_refl)) as (Hl & Hi & Hn).
    destruct (objects_mapped words (Z.to_nat (td_number d)) s1 0) as [names Hnames].
    { intros j Hj. eapply memory_mapped; [exact Hmem|lia|]. Z.to_euclidean_division_equations; lia. }
    eapply (copyin_ports_spec kind k words st d0 d m s1 s1 _ h []); [done| |done|done| |done| |lia| |done|done].
    * by rewrite (rn_name _ _ _ Hren).
    * split; rewrite ?Hin; [done| |by apply Hports]. split_and!; lia.
    * rewrite app_nil_r. eapply memory_later; [done|lia].
    * lia.
  + apply mwp_ret. split; [done|]. split; [lia|]. exists k, words, h. split_and!; [done|apply same_header_refl| | |done|done].
    * replace h with (add_holding h no_holding) by (destruct h; unfold add_holding; simpl; by rewrite !app_nil_r).
      eapply holds_snoc; [done|]. unfold item_holds. by rewrite Hd, Hin, Hnoport.
    * eapply memory_later; [done|lia].
Qed.

Lemma copyin_pointer_spec kind (lists steal dealloc : bool) d0 d k words st m s1 h complex R C :
  item_ready kind d0 d k words st m s1 h complex R C -> td_inline d = false ->
  mwp (if eaddr - s1 <? 4 then fail_partial ikm m MACH_SEND_MSG_TOO_SMALL
       else
         addr ← read_word s1;
         got ← grab_data (ck_port kind (td_name d0)) lists steal dealloc addr (data_length d);
         match got with
         | None => fail_partial ikm m MACH_SEND_INVALID_MEMORY
         | Some data =>
           write_word s1 data;;
           if ck_port kind (td_name d0)
           then copyin_ports kind ikm (msgh_remote_port k) m data (u32 (s1 + 4)) d0
           else mret (inl (u32 (s1 + 4), true))
         end) (item_outcome m (m + item_size d) k R C) (mk_kbuf k words, st).
Proof.
  intros Hready Hin. pose proof Hready as [Hlaw Hren Hd Hports Hnoport Hh Hmem (Hm & Hs1 & Hal) Hcomplex Hinv].
  assert (Hsize : m + item_size d = s1 + 4).
  { rewrite (desc_of_next _ _ _ _ Hd). unfold item_size. rewrite Hin. lia. }
  rewrite Hsize. destruct (Z.ltb_spec (eaddr - s1) 4); [by eapply item_fails|].
  rewrite u32_id by (unfold u32_range, u32_max; lia).
  destruct (memory_mapped words s1 _ s1 Hmem) as [addr Haddr]; [lia|done|].
  apply mwp_bind. eapply mwp_read; [done|]. apply mwp_bind.
  eapply mwp_mono; [eapply grab_data_spec; [exact Hmem|lia|exact Hinv|exact Hports]|].
  intros [data|] [kb st1] Hgot; cbn [grabbed fst snd] in Hgot.
  2: { destruct Hgot as [-> Hst1]. eapply mwp_mono; [eapply fail_partial_spec; [exact Hh|lia|exact Hmem|exact Hst1]|].
       intros r s [-> Hs]. done. }
  destruct Hgot as (words1 & -> & Hsame & Hgot).
  assert (Hh1 : holds words1 start m h).
  { eapply holds_frame; [exact Hh|intros a Ha; apply Hsame; left; lia|].
    intros array Harr a Ha. apply Hsame. right. by exists array. }
  assert (Hs1' : is_Some (words1 !! s1)) by (rewrite Hsame by (left; lia); by eexists).
  apply mwp_bind. eapply mwp_write; [done|].
  pose proof (changed_insert s1 (s1 + 4) words1 s1 data Hs1' ltac:(lia)) as Hch.
  assert (Hd2 : desc_of (<[s1 := data]> words1) m = Some (d, s1)).
  { eapply desc_of_frame; [exact Hd|]. intros a Ha. rewrite lookup_insert_ne by lia. apply Hsame. left. lia. }
  destruct (ck_port kind (td_name d0)) eqn:Hck.
  + destruct Hgot as (Hmem1 & Hst1 & Hdata & names & Hnames).
    assert (Hbody : forall a, start <= a < eaddr -> ~ in_arrays a (h_arrays h ++ array_of d data)).
    { intros a Ha. by eapply body_not_in_arrays. }
    destruct (port_length d (Hports eq_refl)) as (Hl & Hi & Hn).
    eapply (copyin_ports_spec kind k _ st1 d0 d m s1 data (s1 + 4) h (array_of d data) names); [done| |done|done| | | |lia|lia| |done].
    * by rewrite (rn_name _ _ _ Hren).
    * split; rewrite ?Hin; [by rewrite lookup_insert_eq|done|by apply Hports].
    * eapply holds_changed; [exact Hh1|lia|exact Hmem1|exact Hch|]. intros a Ha. split; [lia|].
      intros Hin'. apply (Hbody a); [lia|]. apply in_arrays_app. by left.
    * eapply memory_changed; [eapply memory_later; [exact Hmem1|lia]|exact Hch|]. intros a Ha. lia.
    * rewrite (objects_at_frame words1); [exact Hnames|]. intros a Ha. apply lookup_insert_ne. intros <-.
      apply (Hbody s1); [lia|]. apply in_arrays_app. right. unfold array_of.
      destruct (Z.eqb_spec (data_length d) 0); [lia|]. exists (data, data_length d).
      split; [by apply list_elem_of_singleton|]. unfold in_array. simpl. lia.
  + destruct Hgot as [-> Hst1]. apply mwp_ret. split; [done|]. split; [lia|].
    exists k, (<[s1 := data]> words), (add_holding h (mk_holding [] (if data_length d =? 0 then [] else [data]) [])).
    split_and!; [done|apply same_header_refl| | |done|].
    * eapply holds_snoc.
      -- eapply (holds_changed _ _ _ _ s1 []); [exact Hh|lia|by rewrite app_nil_r|exact Hch|]. intros a Ha. split; [lia|].
         eapply body_not_in_arrays; [exact Hmem|lia].
      -- unfold item_holds. by rewrite Hd2, Hin, lookup_insert_eq, Hnoport.
    * simpl. rewrite app_nil_r. eapply memory_changed; [eapply memory_later; [exact Hmem|]|exact Hch|]; lia.
    * eapply bl_perm; [| |exact Hst1]; simpl; [by rewrite app_nil_r|]. rewrite app_assoc. apply Permutation_app_tail, Permutation_app_comm.
Qed.

Lemma copyin_data_spec kind lists steal d0 d k words st m s1 h complex R C :
  item_ready kind d0 d k words st m s1 h complex R C ->
  mwp (copyin_data kind lists steal ikm (msgh_remote_port k) m s1 eaddr d0 complex) (item_outcome m (m + item_size d) k R C)
    (mk_kbuf k words, st).
Proof.
  intros Hready. pose proof Hready as [_ Hren _ _ _ _ _ Hr _ _]. destruct (renamed_length _ _ _ Hren) as (Hlen & Ham & _).
  unfold copyin_data. rewrite <- (rn_inline _ _ _ Hren), <- Ham, <- Hlen, (u32_id (eaddr - s1)) by (unfold u32_range, u32_max; lia).
  destruct (td_inline d) eqn:Hin; [by eapply copyin_inline_spec|by eapply copyin_pointer_spec].
Qed.

(** *** The loop *)

(** The descriptor at an address of the body, if there is room for it. *)
Definition desc_in (words : gmap Z Z) (a : Z) : option type_desc :=
  match desc_of words a with
  | Some (d, next) => if next <=? eaddr then Some d else None
  | None => None
  end.

(** The descriptors of a body, as far as they can be read. *)
Fixpoint body_descs (fuel : nat) (words : gmap Z Z) (saddr : Z) : list type_desc :=
  match fuel with
  | O => []
  | S fuel =>
    if saddr <? eaddr then
      match desc_in words saddr with
      | Some d => d :: body_descs fuel words (saddr + item_size d)
      | None => []
      end
    else []
  end.

Lemma desc_in_frame words words' a d :
  agree words words' a eaddr -> desc_in words' a = Some d -> desc_in words a = Some d.
Proof.
  unfold desc_in. intros Hag Hd. destruct (desc_of words' a) as [[d' next]|] eqn:Hd'; [|done].
  destruct (Z.leb_spec next eaddr); [|done]. simplify_eq.
  rewrite (desc_of_frame words' words a d next); [by rewrite (proj2 (Z.leb_le _ _))|done|].
  intros x Hx. symmetry. apply Hag. lia.
Qed.

(** The part of the body from [m] on has not been touched. *)
Record at_item k words st m h (complex : bool) R C : Prop := {
  ai_holds : holds words start m h;
  ai_memory : memory_ok words m (h_arrays h);
  ai_range : start <= m <= eaddr;
  ai_complex : complex = false -> empty_holding h;
  ai_inv : bl_inv st (h_rights h ++ header_rights k ++ R) (h_copies h ++ C)
}.

Lemma copyin_item_spec kind lists steal k words st m h complex R C :
  lawful_kind kind -> at_item k words st m h complex R C -> m < eaddr ->
  (forall d, desc_in words0 m = Some d -> desc_fits kind d = true) ->
  mwp (copyin_item kind lists steal ikm (msgh_remote_port k) m eaddr complex) (fun r s =>
    exists nx, item_outcome m nx k R C r s /\
    forall x, r = inl x -> exists d, desc_in words0 m = Some d /\ nx = m + item_size d) (mk_kbuf k words, st).
Proof.
  intros Hlaw [Hh Hmem Hm Hcomplex Hinv] Hlt Hfit. unfold copyin_item.
  assert (Hfail : forall mr, mr <> MACH_MSG_SUCCESS ->
    mwp (fail_partial ikm m mr) (fun r s =>
      exists nx, item_outcome m nx k R C r s /\
      forall x, r = inl x -> exists d, desc_in words0 m = Some d /\ nx = m + item_size d) (mk_kbuf k words, st)).
  { intros mr Hmr. eapply mwp_mono; [by eapply fail_partial_spec; [|lia|..]|]. intros r s [-> Hs]. by exists 0. }
  assert (Hal : m mod 4 = 0) by (destruct (holds_le _ _ _ _ Hh); Z.to_euclidean_division_equations; lia).
  rewrite u32_id by (unfold u32_range, u32_max; lia).
  assert (Hroom : 4 <= eaddr - m) by (Z.to_euclidean_division_equations; lia).
  rewrite (proj2 (Z.ltb_ge (eaddr - m) 4)) by done.
  destruct (memory_mapped words m _ m Hmem) as [w Hw]; [lia|done|].
  apply mwp_bind. eapply mwp_read; [done|].
  destruct (msgt_longform w && (eaddr - m <? 12)) eqn:Hlong; [by apply Hfail|].
  assert (Hdesc : exists d s1, desc_of words m = Some (d, s1) /\ s1 <= eaddr).
  { unfold desc_of. rewrite Hw. destruct (msgt_longform w); [|eexists _, _; split; [done|lia]].
    simpl in Hlong. apply Z.ltb_ge in Hlong.
    destruct (memory_mapped words m _ (m + 4) Hmem) as [w1 ->]; [lia|Z.to_euclidean_division_equations; lia|].
    destruct (memory_mapped words m _ (m + 8) Hmem) as [w2 ->]; [lia|Z.to_euclidean_division_equations; lia|].
    eexists _, _. split; [done|lia]. }
  destruct Hdesc as (d & s1 & Hd & Hs1). pose proof (desc_of_next _ _ _ _ Hd) as Hs1m.
  assert (Hin : desc_in words0 m = Some d).
  { apply (desc_in_frame _ words); [apply Hmem|]. unfold desc_in. by rewrite Hd, (proj2 (Z.leb_le _ _)). }
  assert (Hs1r : start <= m < s1 /\ s1 mod 4 = 0) by (destruct (td_longform d); Z.to_euclidean_division_equations; lia).
  apply mwp_bind. eapply mwp_desc_at; [done|done|lia|lia|]. cbv beta iota.
  destruct (ck_port kind (td_name d) && negb (td_size d =? PORT_T_SIZE_IN_BITS) || ck_invalid kind d) eqn:Hbad;
    [by apply Hfail|].
  apply orb_false_iff in Hbad as [Hbad _]. specialize (Hfit d Hin). unfold desc_fits in Hfit.
  apply mwp_bind. apply (mwp_mono _ (fun _ s => exists words' d',
    s = (mk_kbuf k words', st) /\ changed m s1 words words' /\ desc_of words' m = Some (d', s1) /\ renamed d d' (td_name d))).
  { apply mwp_when. destruct (ck_clear kind); [by apply clear_unused_spec; [|lia|lia]|].
    exists words, d. split_and!; done. }
  intros [] s (words1 & d' & -> & Hch & Hd' & Hren). destruct (renamed_length _ _ _ Hren) as (_ & _ & Hpf & Hsize).
  eapply mwp_mono; [eapply (copyin_data_spec kind lists steal d d' k words1 st m s1 h)|].
  - split; try done.
    + intros Hc. rewrite Hc in *. simpl in Hbad. apply negb_false_iff in Hbad. rewrite Hpf. unfold port_fits. by rewrite Hbad.
    + intros Hc. rewrite Hc in Hfit. unfold td_port in *. rewrite (rn_name _ _ _ Hren). by apply negb_true_iff.
    + eapply (holds_changed _ _ _ _ m []); [exact Hh|lia|by rewrite app_nil_r|exact Hch|].
      intros a Ha. split; [lia|]. eapply body_not_in_arrays; [exact Hmem|lia].
    + eapply memory_changed; [eapply memory_later; [exact Hmem|lia]|exact Hch|]. intros a Ha. lia.
    + lia.
  - intros r s Hr. exists (m + item_size d'). split; [done|]. intros x _. exists d. by rewrite Hsize.
Qed.

(** What the loop leads to: the whole body [holds] what was taken, or
    everything has been given back. *)
Definition body_outcome (k : ipc_kmsg) R C (r : bool + Z) (s : ks) : Prop :=
  match r with
  | inr mr => mr <> MACH_MSG_SUCCESS /\ given_back R C s
  | inl complex => exists k' words' h',
      s.1 = mk_kbuf k' words' /\ same_header k k' /\
      holds words' start eaddr h' /\ memory_ok words' eaddr (h_arrays h') /\
      (complex = false -> empty_holding h') /\
      bl_inv s.2 (h_rights h' ++ header_rights k ++ R) (h_copies h' ++ C)
  end.

Lemma copyin_items_spec fuel kind lists steal k words st m h complex R C :
  lawful_kind kind -> at_item k words st m h complex R C -> (body_fuel m eaddr <= fuel)%nat ->
  Forall (fun d => desc_fits kind d = true) (body_descs fuel words0 m) ->
  mwp (copyin_items fuel kind lists steal ikm (msgh_remote_port k) m eaddr complex) (body_outcome k R C) (mk_kbuf k words, st).
Proof.
  intros Hlaw. revert k words st m h complex.
  induction fuel as [|fuel IH]; intros k words st m h complex Hat Hfuel Hfit; simpl.
  all: destruct (Z.ltb_spec m eaddr) as [Hlt|Hge].
  2, 4: apply mwp_ret; destruct Hat; assert (m = eaddr) as -> by lia; exists k, words, h; split_and!; done.
  { exfalso. destruct (holds_le _ _ _ _ (ai_holds _ _ _ _ _ _ _ _ Hat)). unfold body_fuel in Hfuel.
    Z.to_euclidean_division_equations; lia. }
  simpl in Hfit. rewrite (proj2 (Z.ltb_lt _ _) Hlt) in Hfit.
  apply mwp_bind. eapply mwp_mono; [eapply copyin_item_spec; [done|exact Hat|done|]|].
  { intros d Hd. rewrite Hd in Hfit. by inversion Hfit. }
  intros [[next c]|mr] s (nx & Hout & Hnext).
  2: { apply mwp_ret. exact Hout. }
  destruct (Hnext _ eq_refl) as (d & Hd & ->). destruct Hout as (-> & Hr & k' & words' & h' & Hs & Hk' & Hh' & Hmem' & Hc & Hinv).
  destruct s as [kb st']. cbn [fst snd] in *. subst kb.
  rewrite <- (sh_remote _ _ Hk'). rewrite Hd in Hfit. apply Forall_cons in Hfit as [_ Hfit].
  eapply mwp_mono; [eapply (IH k' words' st' _ h' c); [split; try done|..|exact Hfit]|].
  - destruct Hat. lia.
  - by rewrite (same_header_rights _ _ Hk').
  - unfold body_fuel in *. pose proof (item_size_pos d). Z.to_euclidean_division_equations; lia.
  - intros [c'|mr] s; [|done]. intros (k2 & words2 & h2 & Hs & Hk2 & Hrest). exists k2, words2, h2.
    rewrite (same_header_rights _ _ Hk') in Hrest. split; [done|]. split; [by eapply same_header_trans|done].
Qed.
End memory.
End copyin.
