(* ===== verification/KmsgCopyout.v ===== *)
(** * Copying a message body out (ipc/ipc_kmsg.c)

    [copyout_items_spec]: copyout of a body that [holds] rights and copies of
    memory hands all of them on or destroys them, whatever fails on the way,
    and frees the arrays. *)

From S2P Require Import Prelude Names Splay Table Space Hash Entry World Port Mqueue Right Object.
From S2P Require Import MachPort Kmsg KmsgBody KmsgBodyInv KmsgCopyin.

Section copyout.
Context {St : Type} `{!BodyOps St} `{!BodyLaws St}.
Implicit Types (k : ipc_kmsg) (words : gmap Z Z) (st : St) (R : list (Z * Z)) (C : list Z).

Abbreviation ks := (kbuf * St)%type.

Lemma copyout_objects_spec n name data i mr l k words st R C :
  objects_at words n data i = Some l -> 0 <= data + 4 * i -> data + 4 * (i + Z.of_nat n) <= 4294967296 ->
  bl_inv st (rights_of l name ++ R) C ->
  mwp (copyout_objects n new_out name data i mr) (fun _ (s : ks) => exists words',
    s.1 = mk_kbuf k words' /\ changed (data + 4 * i) (data + 4 * (i + Z.of_nat n)) words words' /\ bl_inv s.2 R C)
    (mk_kbuf k words, st).
Proof.
  revert i mr l words st. induction n as [|n IH]; intros i mr l words st Hl Hlo Hhi Hinv; simpl.
  { simpl in Hl. simplify_eq. apply mwp_ret. exists words. split_and!; done. }
  simpl in Hl. destruct (words !! (data + 4 * i)) as [o|] eqn:Ho; [|done].
  destruct (objects_at words n data (i + 1)) as [l'|] eqn:Hl'; simplify_eq.
  rewrite u32_id by (unfold u32_range, u32_max; lia). apply mwp_bind. eapply mwp_read; [done|].
  apply mwp_bind, mwp_lift. simpl in Hinv. rewrite <- app_assoc in Hinv.
  eapply mwp_mono; [apply bl_copyout, Hinv|]. intros [bits port] st1 Hst1. cbv beta iota.
  apply mwp_bind. eapply mwp_write; [by eexists|].
  pose proof (changed_insert (data + 4 * i) (data + 4 * (i + 1)) words _ port (ex_intro _ o Ho) ltac:(lia)) as Hch.
  eapply mwp_mono; [eapply IH; [|lia|lia|exact Hst1]|].
  - rewrite (objects_at_frame words); [exact Hl'|]. intros a Ha. apply lookup_insert_ne. lia.
  - intros r s (words' & Hs & Hch' & Hst'). exists words'. split_and!; [done| |done].
    eapply changed_trans; eapply changed_sub; [exact Hch|lia|lia|exact Hch'|lia|lia].
Qed.

Lemma read_array_spec n data i l k words st :
  objects_at words n data i = Some l -> 0 <= data + 4 * i -> data + 4 * (i + Z.of_nat n) <= 4294967296 ->
  mwp (read_array n data i) (fun r (s : ks) => s = (mk_kbuf k words, st)) (mk_kbuf k words, st).
Proof.
  revert i l. induction n as [|n IH]; intros i l Hl Hlo Hhi; simpl; [by apply mwp_ret|].
  simpl in Hl. destruct (words !! (data + 4 * i)) as [o|] eqn:Ho; [|done].
  destruct (objects_at words n data (i + 1)) as [l'|] eqn:Hl'; simplify_eq.
  rewrite u32_id by (unfold u32_range, u32_max; lia). apply mwp_bind. eapply mwp_read; [done|].
  apply mwp_bind. eapply mwp_mono; [by eapply IH; [|lia|lia]|]. intros r s ->. by apply mwp_ret.
Qed.

(** The assignments to the descriptor. *)
Lemma set_deallocate_spec a s1 v k words st :
  is_Some (words !! a) -> a < s1 ->
  mwp (set_deallocate a v) (fun _ (s : ks) => exists words', s = (mk_kbuf k words', st) /\ changed a s1 words words')
    (mk_kbuf k words, st).
Proof.
  intros [w Hw] Hlt. unfold set_deallocate. apply mwp_bind. eapply mwp_read; [done|].
  eapply mwp_write; [by eexists|]. eexists. split; [done|]. apply changed_insert; [by eexists|lia].
Qed.

Lemma set_size_zero_spec a s1 d k words st :
  desc_of words a = Some (d, s1) -> 0 <= a -> s1 < 4294967296 ->
  mwp (set_size_zero a (td_longform d)) (fun _ (s : ks) => exists words', s = (mk_kbuf k words', st) /\ changed a s1 words words')
    (mk_kbuf k words, st).
Proof.
  intros Hd Ha Hs1. pose proof (desc_of_next _ _ _ _ Hd) as Hn. revert Hd. unfold desc_of, set_size_zero.
  destruct (words !! a) as [w|] eqn:Hw; [|done]. intros Hd. destruct (td_longform d) eqn:Hl.
  - assert (is_Some (words !! (a + 4))) as [w1 Hw1].
    { unfold td_longform in Hl. destruct (msgt_longform w) eqn:Hlw; [|simplify_eq; simpl in Hl; congruence].
      destruct (words !! (a + 4)); [by eexists|done]. }
    rewrite u32_id by (unfold u32_range, u32_max; lia). apply mwp_bind. eapply mwp_read; [done|].
    eapply mwp_write; [by eexists|]. eexists. split; [done|]. apply changed_insert; [by eexists|lia].
  - apply mwp_bind. eapply mwp_read; [done|].
    eapply mwp_write; [by eexists|]. eexists. split; [done|]. apply changed_insert; [by eexists|lia].
Qed.

Lemma copyout_failure_spec a s1 d kr k words st :
  desc_of words a = Some (d, s1) -> 0 <= a -> s1 < 4294967296 ->
  mwp (copyout_failure new_out a (td_longform d) kr)
    (fun _ (s : ks) => exists words', s = (mk_kbuf k words', st) /\ changed a s1 words words') (mk_kbuf k words, st).
Proof.
  intros Hd Ha Hs1. unfold copyout_failure. apply mwp_bind, mwp_when. simpl.
  eapply mwp_mono; [by eapply set_size_zero_spec|]. intros [] s Hs. by apply mwp_ret.
Qed.

Lemma finish_pointer_spec a s1 bits addr k words st :
  is_Some (words !! a) -> is_Some (words !! s1) -> 0 <= a -> a < s1 -> s1 + 4 < 4294967296 ->
  mwp (finish_pointer new_out a s1 bits addr) (fun r (s : ks) => r.2 = s1 + 4 /\ exists words',
    s = (mk_kbuf k words', st) /\ changed a (s1 + 4) words words') (mk_kbuf k words, st).
Proof.
  intros Ha Hs Ha0 Hlt Hwrap. unfold finish_pointer. apply mwp_bind, mwp_when. simpl.
  eapply mwp_mono; [by apply (set_deallocate_spec a s1)|]. intros [] s (words1 & -> & Hch).
  apply mwp_bind. eapply mwp_write; [by apply (ch_dom _ _ _ _ Hch)|]. apply mwp_ret.
  rewrite u32_id by (unfold u32_range, u32_max; lia). split; [done|]. eexists. split; [done|].
  eapply changed_trans; [eapply changed_sub; [exact Hch|lia|lia]|]. apply changed_insert; [by apply (ch_dom _ _ _ _ Hch)|lia].
Qed.

(** The item from [a] to [next] has been dealt with and its arrays are free. *)
Record emptied (a next : Z) (arrays : list (Z * Z)) (words words' : gmap Z Z) : Prop := {
  em_same x : ~ a <= x < next -> ~ in_arrays x arrays -> words' !! x = words !! x;
  em_dom x : is_Some (words' !! x) <-> is_Some (words !! x) /\ ~ in_arrays x arrays
}.

Lemma emptied_free a next arrays words :
  emptied a next arrays words (free_arrays arrays words).
Proof.
  split; intros x; destruct (lookup_free_arrays arrays words x) as [Hin Hout].
  - intros _. apply Hout.
  - assert (Hdec : in_arrays x arrays \/ ~ in_arrays x arrays).
    { destruct (decide (Exists (in_array x) arrays)) as [He|He]; [left|right]; revert He; unfold in_arrays;
        rewrite Exists_exists; naive_solver. }
    destruct Hdec as [Hx|Hx]; [rewrite Hin by done; split; [by intros []|tauto]|]. rewrite Hout by done. tauto.
Qed.

Lemma emptied_before a next arrays lo hi words words1 words' :
  changed lo hi words words1 -> (forall x, lo <= x < hi -> a <= x < next \/ in_arrays x arrays) ->
  emptied a next arrays words1 words' -> emptied a next arrays words words'.
Proof.
  intros Hch Hr [Hs Hd]. split; intros x.
  - intros Hx Hn. rewrite Hs by done. apply (ch_same _ _ _ _ Hch). intros Hlo. by destruct (Hr x Hlo).
  - by rewrite Hd, (ch_dom _ _ _ _ Hch).
Qed.

Lemma emptied_after a next arrays lo hi words words1 words' :
  emptied a next arrays words words1 -> changed lo hi words1 words' -> a <= lo -> hi <= next ->
  emptied a next arrays words words'.
Proof.
  intros [Hs Hd] Hch Hlo Hhi. split; intros x.
  - intros Hx Hn. rewrite (ch_same _ _ _ _ Hch) by lia. by apply Hs.
  - by rewrite (ch_dom _ _ _ _ Hch), Hd.
Qed.

Lemma not_in_no_arrays x : ~ in_arrays x [].
Proof. intros (y & Hy & _). by apply elem_of_nil in Hy. Qed.

Lemma emptied_changed a next words words' : changed a next words words' -> emptied a next [] words words'.
Proof.
  intros Hch. split; intros x; [intros Hx _; by apply (ch_same _ _ _ _ Hch)|].
  rewrite (ch_dom _ _ _ _ Hch). pose proof (not_in_no_arrays x). tauto.
Qed.

Definition item_out (a next : Z) (arrays : list (Z * Z)) k words R C (r : Z * Z) (s : ks) : Prop :=
  r.2 = next /\ exists words', s.1 = mk_kbuf k words' /\ emptied a next arrays words words' /\ bl_inv s.2 R C.

Lemma is_Some_desc words a d s1 : desc_of words a = Some (d, s1) -> is_Some (words !! a).
Proof. unfold desc_of. destruct (words !! a); [by eexists|done]. Qed.

(** An inline item. *)
Lemma copyout_inline_spec a d s1 h next k words st R C :
  desc_of words a = Some (d, s1) -> td_inline d = true -> item_holds words a = Some (h, next) ->
  0 <= a -> next < 4294967296 -> bl_inv st (h_rights h ++ R) (h_copies h ++ C) ->
  mwp (copyout_item new_out a) (item_out a next (h_arrays h) k words R C) (mk_kbuf k words, st).
Proof.
  intros Hd Hin Hi Ha Hn Hinv. destruct (item_holds_next _ _ _ _ Hi) as (d' & Hd' & Hnext).
  rewrite Hd in Hd'. injection Hd' as <- Hs1.
  assert (Hs1a : a < s1) by (destruct (td_longform d); lia). pose proof (inline_amount_pos d) as [Hpos _]. unfold item_size in *.
  rewrite Hin in *. unfold item_holds in Hi. rewrite Hd, Hin in Hi.
  unfold copyout_item. eapply mwp_desc; [exact Hd|lia|lia|]. cbv beta iota. rewrite Hin, andb_false_r. cbn [andb].
  apply mwp_bind, mwp_ret. cbv beta iota. cbn [negb bool_decide]. rewrite bool_decide_true by done. cbn [negb].
  apply mwp_bind. apply (mwp_mono _ (fun _ s => exists words', s.1 = mk_kbuf k words' /\
    changed s1 (s1 + inline_amount d) words words' /\ h_arrays h = [] /\ bl_inv s.2 R C)).
  { destruct (td_port d) eqn:Hp.
    - destruct (port_fits d) eqn:Hf; [|done]. destruct (port_length d Hf) as (_ & Hl & Hb).
      destruct (objects_at words _ _ 0) as [l|] eqn:Ho in Hi; [|done]. injection Hi as <- _. simpl in Hinv.
      apply mwp_bind, mwp_ret, mwp_bind, mwp_ret.
      eapply mwp_mono; [eapply copyout_objects_spec; [exact Ho|lia|lia|exact Hinv]|].
      intros r s (words' & Hs & Hch & Hst). exists words'. split_and!; [done| |done|done].
      eapply changed_sub; [exact Hch|lia|lia].
    - injection Hi as <- _. apply mwp_ret. exists words. split_and!; done. }
  intros bits [kb st1] (words1 & Hkb & Hch & Harr & Hst1). cbn [fst snd] in *. subst kb. rewrite Harr.
  apply mwp_bind, mwp_when. simpl.
  eapply mwp_mono; [apply (set_deallocate_spec a s1); [apply (ch_dom _ _ _ _ Hch); by eapply is_Some_desc|lia]|].
  intros [] s (words2 & -> & Hch2). apply mwp_ret. rewrite u32_id by (unfold u32_range, u32_max; lia).
  split; [simpl; lia|]. exists words2. split_and!; [done| |done]. apply emptied_changed.
  eapply changed_trans; eapply changed_sub; [exact Hch|lia|lia|exact Hch2|lia|lia].
Qed.

(** What an out-of-line item has: a pointer, and an array or a copy. *)
Record pointer_item (a : Z) (d : type_desc) (s1 data : Z) (l : list Z) words h : Prop := {
  pi_desc : desc_of words a = Some (d, s1);
  pi_range : 0 <= a < s1 /\ s1 + 4 < 4294967296;
  pi_pointer : words !! s1 = Some data;
  pi_copies : h_copies h = (if td_port d || (data_length d =? 0) then [] else [data]);
  pi_arrays : h_arrays h = (if td_port d then array_of d data else []);
  pi_objects : td_port d = true ->
    port_fits d = true /\ 0 <= data /\ data + data_length d < 4294967296 /\
    objects_at words (Z.to_nat (td_number d)) data 0 = Some l;
  pi_apart x : a <= x < s1 + 4 -> ~ in_arrays x (h_arrays h)
}.

Lemma item_pointer words a d s1 h next :
  desc_of words a = Some (d, s1) -> td_inline d = false -> item_holds words a = Some (h, next) ->
  0 <= a -> next < 4294967296 -> (forall x, a <= x < next -> ~ in_arrays x (h_arrays h)) ->
  next = s1 + 4 /\ exists data l, pointer_item a d s1 data l words h /\
    h_rights h = (if td_port d then rights_of l (td_name d) else []).
Proof.
  intros Hd Hin Hi Ha Hn Hap. pose proof (desc_of_next _ _ _ _ Hd) as Hs1.
  assert (Hs1a : a < s1) by (destruct (td_longform d); lia).
  unfold item_holds in Hi. rewrite Hd, Hin in Hi. destruct (words !! s1) as [data|] eqn:Hdata; [|done].
  destruct (td_port d) eqn:Hp.
  - destruct (port_fits d) eqn:Hf; [|done]. destruct (true && _ && _ && _) eqn:Hg; [|done].
    rewrite !andb_true_iff, Z.leb_le, Z.ltb_lt, Z.eqb_eq in Hg. destruct Hg as [[[_ Hd0] Hd1] _].
    destruct (objects_at words _ data 0) as [l|] eqn:Ho; [|done]. injection Hi as <- <-. split; [done|].
    exists data, l. split; [split|]; rewrite ?Hp; try done; lia.
  - injection Hi as <- <-. split; [done|]. exists data, []. split; [split|]; rewrite ?Hp; try done; lia.
Qed.

(** The memory of such an item, to the address that was allocated for it. *)
Lemma copyout_memory_spec a d s1 data l addr k words st h R C :
  pointer_item a d s1 data l words h -> bl_inv st R (h_copies h ++ C) ->
  mwp (copyout_memory new_out a d data addr) (fun _ (s : ks) => exists words1 words',
    words1 = free_arrays (h_arrays h) words /\ s.1 = mk_kbuf k words' /\ changed a s1 words1 words' /\ bl_inv s.2 R C)
    (mk_kbuf k words, st).
Proof.
  intros [Hd Hr Hptr Hcop Harr Hobj Hap] Hinv. rewrite Hcop, Harr in *. unfold copyout_memory, array_of in *.
  destruct (Z.eqb_spec (data_length d) 0) as [Hz|Hz].
  { rewrite orb_true_r in Hinv. apply mwp_ret. exists words, words. split_and!; try done. by destruct (td_port d). }
  rewrite orb_false_r in Hinv. destruct (td_port d) eqn:Hp.
  - destruct (Hobj eq_refl) as (Hf & Hd0 & Hd1 & Ho). destruct (port_length d Hf) as (Hl & _ & Hn).
    replace ((data_length d + 3) / 4) with (td_number d) by (rewrite Hl; Z.to_euclidean_division_equations; lia).
    apply mwp_bind. eapply mwp_mono; [eapply read_array_spec; [exact Ho|lia|lia]|]. intros r s ->.
    apply mwp_bind, mwp_lift. eapply mwp_mono; [by apply bl_copyoutmap|]. intros [] st1 Hst1. cbv beta.
    apply mwp_bind, mwp_modify. apply mwp_ret. eexists _, _. split; [done|]. split; [done|]. split; [|done].
    apply changed_refl.
  - apply mwp_bind, mwp_lift. eapply mwp_mono; [apply bl_vm_copyout, Hinv|]. intros [kr addr'] st1 Hst1. cbn [fst] in Hst1.
    cbv beta iota. destruct (bool_decide (kr = KERN_SUCCESS)).
    { apply mwp_ret. exists words, words. split_and!; done. }
    apply mwp_bind, mwp_lift. eapply mwp_mono; [by apply bl_discard|]. intros [] st2 Hst2. cbv beta.
    apply mwp_bind. eapply mwp_mono; [eapply copyout_failure_spec; [exact Hd|lia|lia]|].
    intros bits s (words' & -> & Hch). apply mwp_ret. exists words, words'. split_and!; done.
Qed.

(** After the memory: the pointer is written. *)
Lemma copyout_pointer_end a d s1 data l addr bits k words words1 st h R C :
  pointer_item a d s1 data l words h -> emptied a (s1 + 4) (h_arrays h) words words1 -> bl_inv st R C ->
  mwp (finish_pointer new_out a s1 bits addr) (item_out a (s1 + 4) (h_arrays h) k words R C) (mk_kbuf k words1, st).
Proof.
  intros [Hd Hr Hptr Hcop Harr Hobj Hap] Hem Hinv.
  assert (Hmap : forall x, a <= x < s1 + 4 -> is_Some (words !! x) -> is_Some (words1 !! x)).
  { intros x Hx Hs. apply (em_dom _ _ _ _ _ Hem). split; [done|]. by apply Hap. }
  eapply mwp_mono; [apply (finish_pointer_spec a s1); [apply Hmap; [lia|by eapply is_Some_desc]|apply Hmap; [lia|by eexists]|lia|lia|lia]|].
  intros r s [Hr2 (words' & -> & Hch)]. split; [done|]. exists words'. split_and!; [done| |done].
  eapply emptied_after; [exact Hem|exact Hch|lia|lia].
Qed.

(** There is no room for the array. *)
Lemma copyout_no_room a d s1 data l kr k words st h R C :
  pointer_item a d s1 data l words h -> td_inline d = false -> item_holds words a = Some (h, s1 + 4) ->
  bl_inv st (h_rights h ++ R) (h_copies h ++ C) ->
  mwp (ipc_kmsg_clean_body (body_fuel a s1) a s1;;
       bits ← copyout_failure new_out a (td_longform d) kr;
       finish_pointer new_out a s1 bits 0) (item_out a (s1 + 4) (h_arrays h) k words R C) (mk_kbuf k words, st).
Proof.
  intros Hpi Hin Hi Hinv. pose proof Hpi as [Hd Hr Hptr _ _ _ Hap].
  assert (Hfuel : exists n, body_fuel a s1 = S n).
  { pose proof (desc_of_next _ _ _ _ Hd). unfold body_fuel. exists (Z.to_nat ((s1 - a) / 4 - 1)).
    destruct (td_longform d); Z.to_euclidean_division_equations; lia. }
  destruct Hfuel as [n ->]. apply mwp_bind. simpl. rewrite (proj2 (Z.ltb_lt _ _)) by lia. apply mwp_bind.
  eapply mwp_mono; [eapply (clean_item_spec a s1 h (s1 + 4)); [exact Hi|lia|lia|lia|right; eauto|exact Hinv]|].
  intros r [kb st1] (-> & Hkb & Hst1). cbn [fst snd] in *. subst kb.
  destruct n; simpl; rewrite (proj2 (Z.ltb_ge _ _)) by lia; apply mwp_ret.
  all: apply mwp_bind; eapply mwp_mono; [eapply (copyout_failure_spec a s1 d)|];
    [eapply desc_of_frame; [exact Hd|]; apply free_arrays_agree; intros x Hx; apply Hap; lia|lia|lia|].
  all: intros bits s (words' & -> & Hch); eapply copyout_pointer_end; [exact Hpi| |exact Hst1];
    eapply emptied_after; [apply emptied_free|exact Hch|lia|lia].
Qed.

(** The ports of an array are copied out. *)
Lemma copyout_array_spec a d s1 data l k words st h R C :
  pointer_item a d s1 data l words h -> td_port d = true -> bl_inv st (rights_of l (td_name d) ++ R) C ->
  mwp (objects ← read_word s1; copyout_objects (Z.to_nat (td_number d)) new_out (td_name d) objects 0 0)
    (fun _ (s : ks) => exists words1 l1, s.1 = mk_kbuf k words1 /\ pointer_item a d s1 data l1 words1 h /\
       changed data (data + data_length d) words words1 /\ bl_inv s.2 R C) (mk_kbuf k words, st).
Proof.
  intros [Hd Hr Hptr Hcop Harr Hobj Hap] Hp Hinv. destruct (Hobj Hp) as (Hf & Hd0 & Hd1 & Ho).
  destruct (port_length d Hf) as (Hl & _ & Hn). rewrite Hp in Harr.
  apply mwp_bind. eapply mwp_read; [done|].
  eapply mwp_mono; [eapply copyout_objects_spec; [exact Ho|lia|lia|exact Hinv]|].
  intros _ [kb st'] (words' & Hkb & Hch & Hst'). cbn [fst snd] in *. subst kb.
  rewrite Z.mul_0_r, Z.add_0_r, Z.add_0_l, Z2Nat.id, <- Hl in Hch by lia.
  assert (Hout : forall x, a <= x < s1 + 4 -> ~ data <= x < data + data_length d).
  { intros x Hx Hin. apply (Hap x Hx). rewrite Harr. unfold array_of. destruct (Z.eqb_spec (data_length d) 0); [lia|].
    exists (data, data_length d). split; [by apply list_elem_of_singleton|done]. }
  destruct (objects_mapped words' (Z.to_nat (td_number d)) data 0) as [l1 Hl1].
  { intros j Hj. apply (ch_dom _ _ _ _ Hch). clear - Ho Hj. revert Ho Hj. generalize (Z.to_nat (td_number d)) 0 l.
    intros n. induction n as [|n IH]; intros i l' Ho Hj; [lia|]. simpl in Ho.
    destruct (words !! (data + 4 * i)) eqn:Hi; [|done]. destruct (objects_at words n data (i + 1)) eqn:Ho'; [|done].
    destruct (decide (j = i)) as [->|]; [by eexists|]. eapply (IH (i + 1)); [exact Ho'|lia]. }
  exists words', l1. split_and!; [done| |done|done]. split; [|done|..|done]; rewrite ?Hp; try done.
  - eapply desc_of_frame; [exact Hd|]. intros x Hx. apply (ch_same _ _ _ _ Hch), Hout. lia.
  - rewrite (ch_same _ _ _ _ Hch); [exact Hptr|]. apply Hout. lia.
  - by rewrite Hp in Hcop.
Qed.

(** An out-of-line item. *)
Lemma copyout_pointer_spec a d s1 h next k words st R C :
  desc_of words a = Some (d, s1) -> td_inline d = false -> item_holds words a = Some (h, next) ->
  0 <= a -> next < 4294967296 -> (forall x, a <= x < next -> ~ in_arrays x (h_arrays h)) ->
  bl_inv st (h_rights h ++ R) (h_copies h ++ C) ->
  mwp (copyout_item new_out a) (item_out a next (h_arrays h) k words R C) (mk_kbuf k words, st).
Proof.
  intros Hd Hin Hi Ha Hn Hap Hinv. destruct (item_pointer _ _ _ _ _ _ Hd Hin Hi Ha Hn Hap) as (-> & data & l & Hpi & Hrights).
  unfold copyout_item. eapply mwp_desc; [exact Hd|lia|lia|]. cbv beta iota. rewrite Hin.
  apply mwp_bind. apply (mwp_mono _ (fun _ s => s.1 = mk_kbuf k words /\ bl_inv s.2 (h_rights h ++ R) (h_copies h ++ C))).
  { destruct (td_port d && _ && _); [|by apply mwp_ret].
    apply mwp_lift. eapply mwp_mono; [by apply bl_vm_allocate|]. done. }
  intros [kr addr] [kb st1] [Hkb Hst1]. cbn [fst snd] in *. subst kb.
  destruct (bool_decide (kr = KERN_SUCCESS)); cbn [negb]; [|by eapply copyout_no_room].
  apply mwp_bind. apply (mwp_mono _ (fun _ s => exists words1 l1, s.1 = mk_kbuf k words1 /\ pointer_item a d s1 data l1 words1 h /\
    (words1 = words \/ td_port d = true /\ changed data (data + data_length d) words words1) /\ bl_inv s.2 R (h_copies h ++ C))).
  { destruct (td_port d) eqn:Hp; [|apply mwp_ret; exists words, l; rewrite Hrights in Hst1; by split_and!; [..|left|]].
    apply mwp_bind, mwp_ret. rewrite Hrights in Hst1.
    eapply mwp_mono; [by eapply copyout_array_spec|]. intros bits s (w1 & l1 & Hs & Hp1 & Hch & Hst). exists w1, l1. split_and!; try done. by right. }
  intros bits [kb st2] (words1 & l1 & Hkb & Hpi1 & Hch & Hst2). cbn [fst snd] in *. subst kb.
  apply mwp_bind. eapply mwp_read; [apply Hpi1|]. apply mwp_bind.
  eapply mwp_mono; [by eapply copyout_memory_spec|]. intros [more addr'] [kb st3] (w & words2 & -> & Hkb & Hch2 & Hst3).
  cbn [fst snd] in *. subst kb. pose proof (pi_range _ _ _ _ _ _ _ Hpi) as Hr.
  eapply copyout_pointer_end; [exact Hpi| |exact Hst3].
  assert (Hem : emptied a (s1 + 4) (h_arrays h) words1 words2).
  { eapply emptied_after; [apply emptied_free|exact Hch2|lia|lia]. }
  destruct Hch as [->|[Hp Hch]]; [done|]. eapply emptied_before; [exact Hch| |exact Hem]. intros x Hx. right.
  rewrite (pi_arrays _ _ _ _ _ _ _ Hpi), Hp. unfold array_of. destruct (Z.eqb_spec (data_length d) 0); [lia|].
  exists (data, data_length d). split; [by apply list_elem_of_singleton|done].
Qed.

(** The loop. *)
Lemma copyout_items_spec fuel a eaddr mr h k words st R C :
  holds words a eaddr h -> 0 <= a -> eaddr < 4294967296 -> (body_fuel a eaddr <= fuel)%nat ->
  arrays_ok a eaddr (h_arrays h) -> bl_inv st (h_rights h ++ R) (h_copies h ++ C) ->
  mwp (copyout_items fuel new_out a eaddr mr) (fun _ (s : ks) => exists words',
    s.1 = mk_kbuf k words' /\ emptied a eaddr (h_arrays h) words words' /\ bl_inv s.2 R C) (mk_kbuf k words, st).
Proof.
  revert a mr h words st R C. induction fuel as [|fuel IH]; intros a mr h words st R C Hh Ha He Hf Hok Hinv;
    simpl; destruct Hh as [a|a next e h h' Hi Hle Hh].
  1, 3: rewrite Z.ltb_irrefl; apply mwp_ret; exists words; split_and!; [done|by apply emptied_changed|done].
  all: pose proof (item_holds_next _ _ _ _ Hi) as (d & Hd & Hn); pose proof (item_size_pos d) as [Hp _];
    destruct (holds_le _ _ _ _ Hh) as [Hle' _]; unfold body_fuel in *;
    rewrite (proj2 (Z.ltb_lt _ _)) by lia.
  { exfalso. Z.to_euclidean_division_equations; lia. }
  cbn [add_holding h_rights h_copies h_arrays] in *. rewrite <- !app_assoc in Hinv. destruct Hok as [Hap Hout].
  assert (Hitem : mwp (copyout_item new_out a) (item_out a next (h_arrays h) k words (h_rights h' ++ R) (h_copies h' ++ C))
                    (mk_kbuf k words, st)).
  { destruct (td_inline d) eqn:Hin; [eapply copyout_inline_spec|eapply copyout_pointer_spec]; try done; try lia.
    intros x Hx Hx'. apply (Hout x); [lia|]. apply in_arrays_app. by left. }
  apply mwp_bind. eapply mwp_mono; [exact Hitem|].
  intros [bits nx] [kb st1] (Hnx & words1 & Hkb & Hem & Hst1). cbn [fst snd] in *. subst nx kb.
  apply apart_app in Hap as (Hap1 & Hap2 & Hap12).
  eapply mwp_mono; [apply IH; [|lia|done| | |exact Hst1]|].
  - eapply holds_frame; [exact Hh|..].
    + intros x Hx. apply (em_same _ _ _ _ _ Hem); [lia|]. intros Hin. apply (Hout x); [lia|]. apply in_arrays_app. by left.
    + intros array Harr x Hx. assert (Hin : in_arrays x (h_arrays h')) by (by exists array).
      apply (em_same _ _ _ _ _ Hem); [intros Hr; apply (Hout x); [lia|]; apply in_arrays_app; by right|].
      intros Hin'. by apply (Hap12 x).
  - Z.to_euclidean_division_equations; lia.
  - split; [done|]. intros x Hx Hin. apply (Hout x); [lia|]. apply in_arrays_app. by right.
  - intros r [kb st2] (words2 & Hkb & Hem2 & Hst2). cbn [fst snd] in *. subst kb. exists words2. split_and!; [done| |done].
    split; intros x; rewrite in_arrays_app.
    + intros Hx Hin. rewrite (em_same _ _ _ _ _ Hem2), (em_same _ _ _ _ _ Hem) by (lia || tauto). done.
    + rewrite (em_dom _ _ _ _ _ Hem2), (em_dom _ _ _ _ _ Hem). tauto.
Qed.
End copyout.
