(* ===== verification/KmsgSamples.v ===== *)
(** * Sample messages

    A small implementation of the interface of KmsgBody.v: the state is the
    list of the rights and the list of the copies that are outside of spaces
    and tasks.  Releasing what is not there is an error.  The names from 1 to
    999 denote rights; one array can be allocated at a time. *)

From S2P Require Import Prelude Names Splay Table Space Hash Entry World Port Mqueue Right Object.
From S2P Require Import MachPort Kmsg KmsgBody KmsgBodyInv KmsgCopyin KmsgCopyout.

Fixpoint list_remove {A} `{EqDecision A} (x : A) (l : list A) : option (list A) :=
  match l with
  | [] => None
  | y :: l => if decide (x = y) then Some l else cons y <$> list_remove x l
  end.

Lemma list_remove_perm {A} `{EqDecision A} (x : A) l k :
  l ≡ₚ x :: k -> exists l', list_remove x l = Some l' /\ l' ≡ₚ k.
Proof.
  intros Hl. assert (Hin : x ∈ l) by (rewrite Hl; by left).
  enough (exists l', list_remove x l = Some l' /\ l ≡ₚ x :: l') as (l' & Hr & Hp).
  { exists l'. split; [done|]. rewrite Hp in Hl. by apply Permutation_cons_inv in Hl. }
  clear Hl. induction l as [|y l IH]; [by apply elem_of_nil in Hin|]. simpl.
  destruct (decide (x = y)) as [->|Hne]; [by exists l|].
  apply elem_of_cons in Hin as [?|Hin]; [done|]. destruct (IH Hin) as (l' & -> & Hp).
  exists (y :: l'). split; [done|]. rewrite Hp. constructor.
Qed.

Definition bag : Type := list (Z * Z) * list Z.

Definition add_right (object name : Z) : M bag unit := modify (fun b => ((object, name) :: b.1, b.2)).
Definition drop_right (object name : Z) : M bag unit := fun b =>
  match list_remove (object, name) b.1 with Some l => Some (tt, (l, b.2)) | None => None end.
Definition drop_valid (object name : Z) : M bag unit :=
  when (IO_VALID object) (drop_right object name).
Definition add_copy (copy : Z) : M bag unit := modify (fun b => (b.1, copy :: b.2)).
Definition drop_copy (copy : Z) : M bag unit := fun b =>
  match list_remove copy b.2 with Some l => Some (tt, (b.1, l)) | None => None end.

Definition bag_object (port : Z) : Z := port + 100000.
Definition bag_named (port : Z) : bool := (0 <? port) && (port <? 1000).

Definition bag_copyin (port name : Z) : M bag (kern_return * Z) :=
  if bag_named port then
    match ipc_object_copyin_type name with
    | Some newname => add_right (bag_object port) newname;; mret (KERN_SUCCESS, bag_object port)
    | None => crash
    end
  else mret (KERN_INVALID_NAME, 0).

Definition bag_header (k : ipc_kmsg) : ipc_kmsg :=
  set_header (Z.lor (Z.land (msgh_bits k) MACH_MSGH_BITS_COMPLEX) MACH_MSG_TYPE_PORT_SEND)
    (bag_object (msgh_remote_port k)) 0 k.

Definition bag_copyin_header (k : ipc_kmsg) : M bag (Z * ipc_kmsg) :=
  if bag_named (msgh_remote_port k) then
    add_right (bag_object (msgh_remote_port k)) MACH_MSG_TYPE_PORT_SEND;; mret (MACH_MSG_SUCCESS, bag_header k)
  else mret (MACH_SEND_INVALID_DEST, k).

Definition bag_copyout_header (k : ipc_kmsg) : M bag (Z * ipc_kmsg) :=
  drop_right (msgh_remote_port k) (MACH_MSGH_BITS_REMOTE (msgh_bits k));;
  drop_valid (msgh_local_port k) (MACH_MSGH_BITS_LOCAL (msgh_bits k));;
  mret (MACH_MSG_SUCCESS, k).

Definition bag_kalloc (length : Z) (words : gmap Z Z) : option Z :=
  if bool_decide (map_Forall (fun a _ => a < 1048576 \/ 1048576 + length <= a) words) && (length <? 1048576)
  then Some 1048576 else None.

#[export] Instance bag_ops : BodyOps bag := {
  bo_copyin_header := fun _ k => bag_copyin_header k;
  bo_copyout_header := fun _ k => bag_copyout_header k;
  bo_copyin := bag_copyin;
  bo_copyin_compat := fun port name _ => bag_copyin port name;
  bo_object_header := fun port =>
    if bag_named port then
      add_right (bag_object port) MACH_MSG_TYPE_PORT_SEND;; mret (KERN_SUCCESS, bag_object port, MACH_MSG_TYPE_PORT_SEND)
    else mret (KERN_INVALID_NAME, 0, 0);
  bo_copyin_from_kernel := fun object name =>
    match ipc_object_copyin_type name with Some newname => add_right object newname | None => crash end;
  bo_circular := fun _ _ => mret false;
  bo_destroy := drop_right;
  bo_copyout := fun object name => drop_valid object name;; mret (0, object - 100000);
  bo_copyout_dest := fun object name => drop_right object name;; mret (Some (object - 100000));
  bo_copyout_compat := fun object name => drop_right object name;; mret (KERN_SUCCESS, object - 100000);
  bo_kotype := fun _ => mret 0;
  bo_marequest_destroy := fun _ => mret tt;
  bo_kalloc := bag_kalloc;
  bo_copyinmap := fun _ length => mret (Some (replicate (Z.to_nat ((length + 3) / 4)) 7));
  bo_vm_deallocate := fun _ _ => mret true;
  bo_vm_copyin := fun _ _ addr _ _ => add_copy addr;; mret (Some addr);
  bo_discard := drop_copy;
  bo_vm_allocate := fun _ => mret (KERN_SUCCESS, 8192);
  bo_copyoutmap := fun _ _ => mret tt;
  bo_vm_copyout := fun copy => drop_copy copy;; mret (KERN_SUCCESS, 8192)
}.

Definition bag_inv (b : bag) (R : list (Z * Z)) (C : list Z) : Prop := b.1 ≡ₚ R /\ b.2 ≡ₚ C.

Lemma drop_right_spec b R C object name :
  bag_inv b ((object, name) :: R) C -> mwp (drop_right object name) (fun _ b' => bag_inv b' R C) b.
Proof.
  intros [Hr Hc]. destruct (list_remove_perm _ _ _ Hr) as (l & Hrem & Hl).
  exists tt, (l, b.2). unfold drop_right. rewrite Hrem. split; [done|]. by split.
Qed.

Lemma drop_valid_spec b R C object name :
  bag_inv b (carries object name ++ R) C -> mwp (drop_valid object name) (fun _ b' => bag_inv b' R C) b.
Proof.
  unfold drop_valid, carries. destruct (IO_VALID object); [apply drop_right_spec|]. intros Hb. by apply mwp_ret.
Qed.

Lemma drop_copy_spec b R C copy :
  bag_inv b R (copy :: C) -> mwp (drop_copy copy) (fun _ b' => bag_inv b' R C) b.
Proof.
  intros [Hr Hc]. destruct (list_remove_perm _ _ _ Hc) as (l & Hrem & Hl).
  exists tt, (b.1, l). unfold drop_copy. rewrite Hrem. split; [done|]. by split.
Qed.

Lemma bag_object_valid port : bag_named port = true -> IO_VALID (bag_object port) = true.
Proof.
  unfold bag_named, bag_object, IO_VALID. rewrite andb_true_iff, !Z.ltb_lt. intros Hp.
  unfold IO_NULL, IO_DEAD, u32_max. rewrite !(proj2 (Z.eqb_neq _ _)) by (simpl; lia). done.
Qed.

Lemma bag_copyin_spec b R C port name newname :
  bag_inv b R C -> ipc_object_copyin_type name = Some newname ->
  mwp (bag_copyin port name) (fun r b' =>
    if bool_decide (r.1 = KERN_SUCCESS)
    then bag_inv b' (carries r.2 newname ++ R) C /\ (newname = MACH_MSG_TYPE_PORT_RECEIVE -> IO_VALID r.2 = true)
    else bag_inv b' R C) b.
Proof.
  intros [Hr Hc] Ht. unfold bag_copyin. destruct (bag_named port) eqn:Hp; [|by apply mwp_ret].
  rewrite Ht. apply mwp_bind, mwp_modify, mwp_ret. unfold carries. simpl. rewrite bag_object_valid by done.
  split; [split; [by constructor|done]|done].
Qed.

#[export] Program Instance bag_laws : BodyLaws bag := {| bl_inv := bag_inv |}.
Next Obligation. intros b R R' C C' HR HC [? ?]. split; by etrans. Qed.
Next Obligation.
  intros b R C notify k [Hr Hc]. simpl. unfold bag_copyin_header.
  destruct (bag_named (msgh_remote_port k)) eqn:Hp; [|by apply mwp_ret].
  apply mwp_bind, mwp_modify, mwp_ret. cbn [fst snd]. rewrite Z.eqb_refl.
  assert (Hh : [(bag_object (msgh_remote_port k), MACH_MSG_TYPE_PORT_SEND)] = header_rights (bag_header k)).
  { unfold header_rights, bag_header. cbn. do 2 f_equal. symmetry. unfold MACH_MSGH_BITS_REMOTE.
    by rewrite Z.land_lor_distr_l, <- Z.land_assoc, Z.land_0_r. }
  split_and!; [|by apply bag_object_valid|done|done].
  change (bag_inv ([(bag_object (msgh_remote_port k), MACH_MSG_TYPE_PORT_SEND)] ++ b.1, b.2)
    (header_rights (bag_header k) ++ R) C). rewrite Hh. split; [by apply Permutation_app_head|done].
Qed.
Next Obligation.
  intros b R C notify k Hinv. simpl. unfold bag_copyout_header. apply mwp_bind.
  eapply mwp_mono; [exact (drop_right_spec _ _ _ _ _ Hinv)|]. intros [] b1 Hb1. apply mwp_bind.
  eapply mwp_mono; [exact (drop_valid_spec _ _ _ _ _ Hb1)|]. intros [] b2 Hb2. by apply mwp_ret.
Qed.
Next Obligation. intros. by apply bag_copyin_spec. Qed.
Next Obligation. intros. by apply bag_copyin_spec. Qed.
Next Obligation. intros. by apply mwp_ret. Qed.
Next Obligation. intros. by apply drop_right_spec. Qed.
Next Obligation.
  intros b R C object name Hinv. apply mwp_bind. eapply mwp_mono; [by apply drop_valid_spec|].
  intros [] b1 Hb1. by apply mwp_ret.
Qed.
Next Obligation. intros. by apply mwp_ret. Qed.
Next Obligation.
  intros length words data. simpl. unfold bag_kalloc. destruct (bool_decide_reflect
    (map_Forall (fun a _ => a < 1048576 \/ 1048576 + length <= a) words)) as [Hw|]; [|done]. simpl.
  destruct (Z.ltb_spec length 1048576); [|done]. intros [= <-]. split_and!; [done..|lia|].
  intros a Ha. destruct (words !! a) eqn:Hl; [|done]. apply Hw in Hl. lia.
Qed.
Next Obligation.
  intros b R C addr length Hinv Hl. apply mwp_ret. split; [done|]. intros l [= <-].
  rewrite length_replicate, Z2Nat.id; [done|]. apply Z.div_pos; lia.
Qed.
Next Obligation. intros. by apply mwp_ret. Qed.
Next Obligation.
  intros b R C lists steal addr length dealloc [Hr Hc]. apply mwp_bind, mwp_modify, mwp_ret.
  split; [done|]. by constructor.
Qed.
Next Obligation. intros. by apply drop_copy_spec. Qed.
Next Obligation. intros. by apply mwp_ret. Qed.
Next Obligation. intros. by apply mwp_ret. Qed.
Next Obligation.
  intros b R C copy Hinv. apply mwp_bind. eapply mwp_mono; [by apply drop_copy_spec|].
  intros [] b1 Hb1. by apply mwp_ret.
Qed.

(** ** Messages *)

(** A short descriptor. *)
Definition short_type (name size number : Z) (inline : bool) : Z :=
  name + 256 * size + 65536 * number + (if inline then 268435456 else 0).

Definition body_memory (ikm : Z) (body : list Z) : gmap Z Z := array_words (ikm + sizeof_header) body.
Definition body_header (bits dest : Z) (body : list Z) : ipc_kmsg :=
  mk_kmsg 0 bits (sizeof_header + 4 * Z.of_nat (length body)) dest 0.

Definition sample_ikm : Z := 4096.
Definition complex_bits (dest_type : Z) : Z := Z.lor MACH_MSGH_BITS_COMPLEX dest_type.

(** Two port names in the message, three in an array, and some data. *)
Definition sample_body : list Z :=
  [short_type MACH_MSG_TYPE_MAKE_SEND 32 2 true; 1; 2;
   short_type MACH_MSG_TYPE_MOVE_SEND 32 3 false; 777;
   short_type 8 8 100 false; 5000].

Definition sample_kmsg : ipc_kmsg := body_header (complex_bits MACH_MSG_TYPE_COPY_SEND) 5 sample_body.

(** The second name in the message is wrong. *)
Definition wrong_body : list Z :=
  [short_type 8 8 100 false; 5000; short_type MACH_MSG_TYPE_MAKE_SEND 32 2 true; 1; 2000].

(** A long descriptor: so many ports that their size in bits is 32 bits, when
    it is computed in 32 bits. *)
Definition overflow_body : list Z :=
  [805306368; MACH_MSG_TYPE_MAKE_SEND + 65536 * 32; 134217729; 1].
Definition overflow_kmsg : ipc_kmsg := body_header (complex_bits MACH_MSG_TYPE_PORT_SEND) 5 overflow_body.

(** Data that has the type of a send right, in an old message. *)
Definition forged_body : list Z :=
  [short_type 8 8 100 false; 5000; short_type MACH_MSG_TYPE_PORT_SEND 32 1 true; 123456].
Definition forged_kmsg : ipc_kmsg := body_header 0 5 forged_body.
