(* ===== verification/Vm.v ===== *)
(** * Address maps: data and memory (vm/vm_map.h)

    An address map is a ring of entries in kernel memory: a header and the
    entries, each with the addresses of its neighbours.  [vmem] is this memory.
    The header of a map or of a copy and every entry begin with a
    [vm_map_links]; an address is looked up there for the links and in
    [vm_entries], [vm_headers], [vm_maps] or [vm_copies] for the rest, so that
    an entry that was freed, or a header where an entry is expected, is an
    access to memory that is not there.  [vm_map_to_entry(map)], the address of
    the links in the header, is the address of the map.

    The calls that change the hardware's tables or the pages in memory are
    recorded as [vm_event]s.  The lock of a map is part of the state: a thread
    that asks for a lock it holds already waits for ever, which is [None]. *)

From S2P Require Import Prelude Names Splay Table Space Hash Entry World.

(** ** Protection and inheritance *)

Definition VM_PROT_NONE : Z := 0.
Definition VM_PROT_READ : Z := 1.
Definition VM_PROT_WRITE : Z := 2.
Definition VM_PROT_EXECUTE : Z := 4.
Definition VM_PROT_DEFAULT : Z := Z.lor VM_PROT_READ VM_PROT_WRITE.
Definition VM_PROT_ALL : Z := Z.lor (Z.lor VM_PROT_READ VM_PROT_WRITE) VM_PROT_EXECUTE.
Definition VM_PROT_NOTIFY : Z := 0x10.

Definition VM_INHERIT_SHARE : Z := 0.
Definition VM_INHERIT_COPY : Z := 1.
Definition VM_INHERIT_NONE : Z := 2.
Definition VM_INHERIT_DEFAULT : Z := VM_INHERIT_COPY.

Definition VM_MAP_NULL : Z := 0.
Definition VM_MAP_COPY_NULL : Z := 0.
Definition VM_OBJECT_NULL : Z := 0.

(** [unsigned short]: the counts of wirings. *)
Definition u16 (x : Z) : Z := x mod 65536.

(** The page size of the i386. *)
Definition page_size : Z := 4096.
Definition page_mask : Z := page_size - 1.
Definition vm_round_page (x : Z) : Z := Z.ldiff (u32 (x + page_mask)) page_mask.
Definition vm_trunc_page (x : Z) : Z := Z.ldiff x page_mask.

(** ** Entries, maps and copies *)

Record vm_map_links := mk_links {
  vme_prev : Z;
  vme_next : Z;
  vme_start : Z;
  vme_end : Z
}.

(** An entry without its links; [vme_object] is the object or the submap. *)
Record vm_map_entry := mk_map_entry {
  vme_object : Z;
  vme_offset : Z;
  is_shared : bool;
  is_sub_map : bool;
  in_transition : bool;
  needs_wakeup : bool;
  needs_copy : bool;
  protection : Z;
  max_protection : Z;
  inheritance : Z;
  wired_count : Z;
  user_wired_count : Z;
  projected_on : Z
}.

Record vm_map_header := mk_header {
  nentries : Z;
  entries_pageable : bool
}.

Inductive lock_state :=
| Unlocked
| ReadLocked (readers : nat)
| WriteLocked.

Record vm_map := mk_vm_map {
  vm_lock : lock_state;
  vm_pmap : Z;
  vm_size : Z;
  vm_ref_count : Z;
  vm_hint : Z;
  vm_first_free : Z;
  wait_for_space : bool;
  wiring_required : bool;
  timestamp : Z
}.

Inductive copy_type :=
| VM_MAP_COPY_ENTRY_LIST
| VM_MAP_COPY_OBJECT.

Record vm_map_copy := mk_copy {
  cpy_type : copy_type;
  cpy_offset : Z;
  cpy_size : Z;
  cpy_object : Z
}.

(** What the code has done outside of the maps. *)
Inductive vm_event :=
| PmapProtect (pmap start last prot : Z)
| PmapRemove (pmap start last : Z)
| PmapDestroy (pmap : Z)
| PmapEnter (map start last object offset prot : Z)
| PmapAttribute (pmap address size attribute : Z)
| ObjectPmapProtect (object offset size pmap start prot : Z)
| ObjectPmapRemove (object start last : Z)
| ObjectPageRemove (object start last : Z)
| FaultWire (map start last : Z)
| FaultUnwire (map start last : Z)
| MapWakeup (map : Z)
| EntryWakeup (map : Z).

Record vmem := mk_vmem {
  vm_links : gmap Z vm_map_links;
  vm_entries : gmap Z vm_map_entry;
  vm_headers : gmap Z vm_map_header;
  vm_maps : gmap Z vm_map;
  vm_copies : gmap Z vm_map_copy;
  vm_events : list vm_event
}.

(** ** Assignments to fields *)

Definition set_vme_prev x k := mk_links x (vme_next k) (vme_start k) (vme_end k).
Definition set_vme_next x k := mk_links (vme_prev k) x (vme_start k) (vme_end k).
Definition set_start x k := mk_links (vme_prev k) (vme_next k) x (vme_end k).
Definition set_end x k := mk_links (vme_prev k) (vme_next k) (vme_start k) x.

Definition set_vme_object x e := mk_map_entry x (vme_offset e) (is_shared e) (is_sub_map e) (in_transition e)
  (needs_wakeup e) (needs_copy e) (protection e) (max_protection e) (inheritance e) (wired_count e)
  (user_wired_count e) (projected_on e).
Definition set_vme_offset x e := mk_map_entry (vme_object e) x (is_shared e) (is_sub_map e) (in_transition e)
  (needs_wakeup e) (needs_copy e) (protection e) (max_protection e) (inheritance e) (wired_count e)
  (user_wired_count e) (projected_on e).
Definition set_shared x e := mk_map_entry (vme_object e) (vme_offset e) x (is_sub_map e) (in_transition e)
  (needs_wakeup e) (needs_copy e) (protection e) (max_protection e) (inheritance e) (wired_count e)
  (user_wired_count e) (projected_on e).
Definition set_sub_map x e := mk_map_entry (vme_object e) (vme_offset e) (is_shared e) x (in_transition e)
  (needs_wakeup e) (needs_copy e) (protection e) (max_protection e) (inheritance e) (wired_count e)
  (user_wired_count e) (projected_on e).
Definition set_needs_wakeup x e := mk_map_entry (vme_object e) (vme_offset e) (is_shared e) (is_sub_map e)
  (in_transition e) x (needs_copy e) (protection e) (max_protection e) (inheritance e) (wired_count e)
  (user_wired_count e) (projected_on e).
Definition set_needs_copy x e := mk_map_entry (vme_object e) (vme_offset e) (is_shared e) (is_sub_map e)
  (in_transition e) (needs_wakeup e) x (protection e) (max_protection e) (inheritance e) (wired_count e)
  (user_wired_count e) (projected_on e).
Definition set_protection x e := mk_map_entry (vme_object e) (vme_offset e) (is_shared e) (is_sub_map e)
  (in_transition e) (needs_wakeup e) (needs_copy e) x (max_protection e) (inheritance e) (wired_count e)
  (user_wired_count e) (projected_on e).
Definition set_max_protection x e := mk_map_entry (vme_object e) (vme_offset e) (is_shared e) (is_sub_map e)
  (in_transition e) (needs_wakeup e) (needs_copy e) (protection e) x (inheritance e) (wired_count e)
  (user_wired_count e) (projected_on e).
Definition set_inheritance x e := mk_map_entry (vme_object e) (vme_offset e) (is_shared e) (is_sub_map e)
  (in_transition e) (needs_wakeup e) (needs_copy e) (protection e) (max_protection e) x (wired_count e)
  (user_wired_count e) (projected_on e).
Definition set_wired x u e := mk_map_entry (vme_object e) (vme_offset e) (is_shared e) (is_sub_map e)
  (in_transition e) (needs_wakeup e) (needs_copy e) (protection e) (max_protection e) (inheritance e) x u
  (projected_on e).
Definition set_projected_on x e := mk_map_entry (vme_object e) (vme_offset e) (is_shared e) (is_sub_map e)
  (in_transition e) (needs_wakeup e) (needs_copy e) (protection e) (max_protection e) (inheritance e)
  (wired_count e) (user_wired_count e) x.

Definition set_lock x v := mk_vm_map x (vm_pmap v) (vm_size v) (vm_ref_count v) (vm_hint v) (vm_first_free v)
  (wait_for_space v) (wiring_required v) (timestamp v).
Definition set_size x v := mk_vm_map (vm_lock v) (vm_pmap v) x (vm_ref_count v) (vm_hint v) (vm_first_free v)
  (wait_for_space v) (wiring_required v) (timestamp v).
Definition set_ref_count x v := mk_vm_map (vm_lock v) (vm_pmap v) (vm_size v) x (vm_hint v) (vm_first_free v)
  (wait_for_space v) (wiring_required v) (timestamp v).
Definition set_hint x v := mk_vm_map (vm_lock v) (vm_pmap v) (vm_size v) (vm_ref_count v) x (vm_first_free v)
  (wait_for_space v) (wiring_required v) (timestamp v).
Definition set_first_free x v := mk_vm_map (vm_lock v) (vm_pmap v) (vm_size v) (vm_ref_count v) (vm_hint v) x
  (wait_for_space v) (wiring_required v) (timestamp v).
Definition set_timestamp x v := mk_vm_map (vm_lock v) (vm_pmap v) (vm_size v) (vm_ref_count v) (vm_hint v)
  (vm_first_free v) (wait_for_space v) (wiring_required v) x.

Definition with_links x m := mk_vmem x (vm_entries m) (vm_headers m) (vm_maps m) (vm_copies m) (vm_events m).
Definition with_entries x m := mk_vmem (vm_links m) x (vm_headers m) (vm_maps m) (vm_copies m) (vm_events m).
Definition with_headers x m := mk_vmem (vm_links m) (vm_entries m) x (vm_maps m) (vm_copies m) (vm_events m).
Definition with_maps x m := mk_vmem (vm_links m) (vm_entries m) (vm_headers m) x (vm_copies m) (vm_events m).
Definition with_copies x m := mk_vmem (vm_links m) (vm_entries m) (vm_headers m) (vm_maps m) x (vm_events m).
Definition with_vm_events x m := mk_vmem (vm_links m) (vm_entries m) (vm_headers m) (vm_maps m) (vm_copies m) x.

(** ** The memory objects behind a map

    What the maps call in vm_object.c: [vm_object_reference],
    [vm_object_deallocate], [vm_object_allocate], [vm_object_shadow] and
    [vm_object_coalesce] with a second object that is null, [vm_object_name];
    and what they read of an object: whether [vm_map_submap] may replace it,
    and its count of references.  [VmObject] implements them. *)
Class ObjectOps (St : Type) := {
  vo_reference : Z -> M St unit;
  vo_deallocate : Z -> M St unit;
  vo_allocate : Z -> M St Z;
  vo_shadow : Z -> Z -> Z -> M St (Z * Z);
  vo_coalesce : Z -> Z -> Z -> Z -> M St bool;
  vo_unused : Z -> M St bool;
  vo_refs : Z -> M St Z;
  vo_name : Z -> M St Z
}.

(** The machine and the other threads: where the zone allocator finds an
    entry; the maps, the physical map and the objects of the kernel; what
    other threads do while a thread waits, whether an upgrade of a read lock
    loses against another one, and how often a thread waits at most. *)
Record vm_env (St : Type) := mk_vm_env {
  zalloc : gmap Z vm_map_links -> Z;
  kernel_map : Z;
  kernel_pmap : Z;
  kernel_object : Z;
  vm_submap_object : Z;
  vm_others : vmem * St -> vmem * St;
  upgrade_lost : vmem -> bool;
  vm_patience : nat
}.
Arguments mk_vm_env {St}. Arguments zalloc {St}. Arguments kernel_map {St}. Arguments kernel_pmap {St}.
Arguments kernel_object {St}. Arguments vm_submap_object {St}. Arguments vm_others {St}.
Arguments upgrade_lost {St}. Arguments vm_patience {St}.

(** ** Access to memory *)

Section access.
Context {St : Type}.

Abbreviation vs := (vmem * St)%type.

Definition on_object {A} (m : M St A) : M vs A := fun st =>
  match m st.2 with Some (x, s) => Some (x, (st.1, s)) | None => None end.

Definition of_mem {A} (f : vmem -> option A) : M vs A := fun st =>
  match f st.1 with Some x => Some (x, st) | None => None end.
Definition change (f : vmem -> vmem) : M vs unit := modify (fun st => (f st.1, st.2)).

Definition log_event (e : vm_event) : M vs unit := change (fun m => with_vm_events (vm_events m ++ [e]) m).

Definition vme_links_at (a : Z) : M vs vm_map_links := of_mem (fun m => vm_links m !! a).
Definition next_of (a : Z) : M vs Z := k ← vme_links_at a; mret (vme_next k).
Definition prev_of (a : Z) : M vs Z := k ← vme_links_at a; mret (vme_prev k).
Definition start_of (a : Z) : M vs Z := k ← vme_links_at a; mret (vme_start k).
Definition end_of (a : Z) : M vs Z := k ← vme_links_at a; mret (vme_end k).
Definition update_links (a : Z) (f : vm_map_links -> vm_map_links) : M vs unit :=
  k ← vme_links_at a; change (fun m => with_links (<[a := f k]> (vm_links m)) m).

Definition entry_at (a : Z) : M vs vm_map_entry := of_mem (fun m => vm_entries m !! a).
Definition update_entry (a : Z) (f : vm_map_entry -> vm_map_entry) : M vs unit :=
  e ← entry_at a; change (fun m => with_entries (<[a := f e]> (vm_entries m)) m).

Definition header_at (a : Z) : M vs vm_map_header := of_mem (fun m => vm_headers m !! a).
Definition update_header (a : Z) (f : vm_map_header -> vm_map_header) : M vs unit :=
  h ← header_at a; change (fun m => with_headers (<[a := f h]> (vm_headers m)) m).

Definition map_at (a : Z) : M vs vm_map := of_mem (fun m => vm_maps m !! a).
Definition update_map (a : Z) (f : vm_map -> vm_map) : M vs unit :=
  v ← map_at a; change (fun m => with_maps (<[a := f v]> (vm_maps m)) m).

Definition copy_at (a : Z) : M vs vm_map_copy := of_mem (fun m => vm_copies m !! a).

(** More rounds than a walk along a ring can take. *)
Definition ring_fuel : M vs nat := gets (fun st => S (S (size (vm_links st.1)))).

End access.
