(* ===== verification/Lock.v ===== *)
(** * Sleep locks (kern/lock.c)

    Locks for readers and writers that can be upgraded, downgraded and, by a
    writer, taken again.  Address maps use them.

    A routine runs under the interlock of the lock, a spin lock; it gives the
    interlock up while it spins ([lock_wait_time] is 100 on a multiprocessor
    and 0 otherwise) and when it sleeps.  It is modelled by what it does
    between these points: [sys_threads] has the threads inside a routine and
    where they are, [lock_continue] runs such a thread on.  A loop that waits
    without giving up the interlock never ends, and is [None]. *)

From S2P Require Import Prelude Names Splay Table Space World Vm.

(** [(struct thread * )-1] *)
Definition NO_THREAD : Z := u32 (-1).

Definition u12 (x : Z) : Z := x mod 4096.

Record lock := mk_lock {
  lk_thread : Z;
  read_count : Z;           (* 16 bits *)
  want_upgrade : bool;
  want_write : bool;
  waiting : bool;
  can_sleep : bool;
  recursion_depth : Z       (* 12 bits *)
}.

Definition set_lk_thread x l := mk_lock x (read_count l) (want_upgrade l) (want_write l) (waiting l) (can_sleep l) (recursion_depth l).
Definition set_read_count x l := mk_lock (lk_thread l) (u16 x) (want_upgrade l) (want_write l) (waiting l) (can_sleep l) (recursion_depth l).
Definition set_want_upgrade b l := mk_lock (lk_thread l) (read_count l) b (want_write l) (waiting l) (can_sleep l) (recursion_depth l).
Definition set_want_write b l := mk_lock (lk_thread l) (read_count l) (want_upgrade l) b (waiting l) (can_sleep l) (recursion_depth l).
Definition set_waiting b l := mk_lock (lk_thread l) (read_count l) (want_upgrade l) (want_write l) b (can_sleep l) (recursion_depth l).
Definition set_can_sleep b l := mk_lock (lk_thread l) (read_count l) (want_upgrade l) (want_write l) (waiting l) b (recursion_depth l).
Definition set_depth x l := mk_lock (lk_thread l) (read_count l) (want_upgrade l) (want_write l) (waiting l) (can_sleep l) (u12 x).

(** The loops in which a routine waits: for the write bit, then for the readers
    and an upgrade to finish (lock_write); for the writer (lock_read); for the
    other readers (lock_read_to_write, lock_try_read_to_write). *)
Inductive wait := WantWrite | WaitReaders | WantRead | Upgrade | TryUpgrade.

Definition blocked (w : wait) (l : lock) : bool :=
  match w with
  | WantWrite => want_write l
  | WaitReaders => negb (read_count l =? 0) || want_upgrade l
  | WantRead => want_write l || want_upgrade l
  | Upgrade | TryUpgrade => negb (read_count l =? 0)
  end.

(** Where a thread is: at the head of its loop, behind the spinning, or asleep
    until the lock is the event of a wake-up. *)
Inductive lock_activity := Awake (w : wait) | Spun (w : wait) | Asleep (w : wait).

Record lock_system := mk_lock_system {
  sys_lock : lock;
  sys_threads : gmap Z lock_activity
}.

(** What a routine comes to: it returns a value, or waits. *)
Inductive progress := Returns (r : bool) | Waits.

Definition update_lock (f : lock -> lock) : M lock_system unit :=
  modify (fun s => mk_lock_system (f (sys_lock s)) (sys_threads s)).

Definition set_activity (self : Z) (a : lock_activity) : M lock_system unit :=
  modify (fun s => mk_lock_system (sys_lock s) (<[self := a]> (sys_threads s))).

Definition thread_sleep (self : Z) (w : wait) : M lock_system unit := set_activity self (Asleep w).

Definition wake (a : lock_activity) : lock_activity := match a with Asleep w => Awake w | a => a end.

Definition thread_wakeup : M lock_system unit :=
  modify (fun s => mk_lock_system (sys_lock s) (wake <$> sys_threads s)).

(** [if (l->waiting && ...) { l->waiting = FALSE; thread_wakeup(l); }] *)
Definition wake_waiting (cond : lock -> bool) : M lock_system unit :=
  l ← gets sys_lock;
  when (waiting l && cond l) (update_lock (set_waiting false);; thread_wakeup).

Definition lock_init (can_sleep : bool) : lock := mk_lock NO_THREAD 0 false false false can_sleep 0.

Definition lock_sleepable (can_sleep : bool) : M lock_system unit := update_lock (set_can_sleep can_sleep).

Section routines.
Context (lock_wait_time : Z).

(** ** Waiting *)

Definition spins (w : wait) : bool := match w with TryUpgrade => false | _ => 0 <? lock_wait_time end.
Definition sleeps (w : wait) (l : lock) : bool := match w with TryUpgrade => true | _ => can_sleep l end.

Definition sleep (self : Z) (w : wait) : M lock_system progress :=
  update_lock (set_waiting true);; thread_sleep self w;; mret Waits.

(** A loop from its head on, and what comes behind it. *)
Definition wait_loop (self : Z) (w : wait) (behind : M lock_system progress) : M lock_system progress :=
  l ← gets sys_lock;
  if negb (blocked w l) then behind
  else if spins w then set_activity self (Spun w);; mret Waits
  else if sleeps w l then sleep self w
  else crash.

Definition return_from (self : Z) (r : bool) : M lock_system progress :=
  modify (fun s => mk_lock_system (sys_lock s) (delete self (sys_threads s)));; mret (Returns r).

Definition resume (self : Z) (w : wait) : M lock_system progress :=
  match w with
  | WantWrite =>
    wait_loop self WantWrite
      (update_lock (set_want_write true);; wait_loop self WaitReaders (return_from self true))
  | WaitReaders => wait_loop self WaitReaders (return_from self true)
  | WantRead =>
    wait_loop self WantRead
      (update_lock (fun l => set_read_count (read_count l + 1) l);; return_from self true)
  | Upgrade => wait_loop self Upgrade (return_from self false)
  | TryUpgrade => wait_loop self TryUpgrade (return_from self true)
  end.

(** Behind the spinning the condition is tested again before sleeping. *)
Definition spun (self : Z) (w : wait) : M lock_system progress :=
  l ← gets sys_lock;
  if sleeps w l && blocked w l then sleep self w else resume self w.

Definition lock_continue (self : Z) : M lock_system progress :=
  a ← gets (fun s => sys_threads s !! self);
  match a with
  | Some (Awake w) => resume self w
  | Some (Spun w) => spun self w
  | _ => crash
  end.

(** ** The routines *)

Definition lock_write (self : Z) : M lock_system progress :=
  l ← gets sys_lock;
  if lk_thread l =? self then
    update_lock (fun l => set_depth (recursion_depth l + 1) l);; mret (Returns true)
  else resume self WantWrite.

Definition lock_done : M lock_system unit :=
  update_lock (fun l =>
    if negb (read_count l =? 0) then set_read_count (read_count l - 1) l
    else if negb (recursion_depth l =? 0) then set_depth (recursion_depth l - 1) l
    else if want_upgrade l then set_want_upgrade false l
    else set_want_write false l);;
  wake_waiting (fun l => read_count l =? 0).

Definition lock_read (self : Z) : M lock_system progress :=
  l ← gets sys_lock;
  if lk_thread l =? self then
    update_lock (fun l => set_read_count (read_count l + 1) l);; mret (Returns true)
  else resume self WantRead.

(** Answers [true] if the upgrade has failed. *)
Definition lock_read_to_write (self : Z) : M lock_system progress :=
  update_lock (fun l => set_read_count (read_count l - 1) l);;
  l ← gets sys_lock;
  if lk_thread l =? self then
    update_lock (fun l => set_depth (recursion_depth l + 1) l);; mret (Returns false)
  else if want_upgrade l then
    wake_waiting (fun l => read_count l =? 0);; mret (Returns true)
  else
    update_lock (set_want_upgrade true);;
    resume self Upgrade.

Definition lock_write_to_read : M lock_system unit :=
  update_lock (fun l => set_read_count (read_count l + 1) l);;
  update_lock (fun l =>
    if negb (recursion_depth l =? 0) then set_depth (recursion_depth l - 1) l
    else if want_upgrade l then set_want_upgrade false l
    else set_want_write false l);;
  wake_waiting (fun _ => true).

Definition lock_try_write (self : Z) : M lock_system progress :=
  l ← gets sys_lock;
  if lk_thread l =? self then
    update_lock (fun l => set_depth (recursion_depth l + 1) l);; mret (Returns true)
  else if want_write l || want_upgrade l || negb (read_count l =? 0) then mret (Returns false)
  else update_lock (set_want_write true);; mret (Returns true).

Definition lock_try_read (self : Z) : M lock_system progress :=
  l ← gets sys_lock;
  if lk_thread l =? self then
    update_lock (fun l => set_read_count (read_count l + 1) l);; mret (Returns true)
  else if want_write l || want_upgrade l then mret (Returns false)
  else update_lock (fun l => set_read_count (read_count l + 1) l);; mret (Returns true).

(** Answers [false] if the upgrade has failed. *)
Definition lock_try_read_to_write (self : Z) : M lock_system progress :=
  l ← gets sys_lock;
  if lk_thread l =? self then
    update_lock (fun l => set_read_count (read_count l - 1) l);;
    update_lock (fun l => set_depth (recursion_depth l + 1) l);; mret (Returns true)
  else if want_upgrade l then mret (Returns false)
  else
    update_lock (set_want_upgrade true);;
    update_lock (fun l => set_read_count (read_count l - 1) l);;
    resume self TryUpgrade.

Definition lock_set_recursive (self : Z) : M lock_system unit :=
  l ← gets sys_lock;
  if negb (want_write l) then crash else update_lock (set_lk_thread self).

Definition lock_clear_recursive (self : Z) : M lock_system unit :=
  l ← gets sys_lock;
  if negb (lk_thread l =? self) then crash
  else when (recursion_depth l =? 0) (update_lock (set_lk_thread NO_THREAD)).

(** ** Calls of the routines *)

Inductive lock_call :=
| CallWrite | CallRead | CallDone | CallReadToWrite | CallWriteToRead
| CallTryWrite | CallTryRead | CallTryReadToWrite | CallSetRecursive | CallClearRecursive | CallSleepable (b : bool).

Definition lock_perform (self : Z) (c : lock_call) : M lock_system progress :=
  match c with
  | CallWrite => lock_write self
  | CallRead => lock_read self
  | CallDone => lock_done;; mret (Returns true)
  | CallReadToWrite => lock_read_to_write self
  | CallWriteToRead => lock_write_to_read;; mret (Returns true)
  | CallTryWrite => lock_try_write self
  | CallTryRead => lock_try_read self
  | CallTryReadToWrite => lock_try_read_to_write self
  | CallSetRecursive => lock_set_recursive self;; mret (Returns true)
  | CallClearRecursive => lock_clear_recursive self;; mret (Returns true)
  | CallSleepable b => lock_sleepable b;; mret (Returns true)
  end.
End routines.
