(* ===== verification/LockInv.v ===== *)
(** * What threads hold of a lock

    [lock_step] interleaves the routines of any number of threads that use a
    lock as they should: whoever releases, upgrades or downgrades it holds it,
    a thread takes it again only if it is a writer that has said so, and none
    leaves it with its name in it.  The invariant relates the fields of the lock to what the
    threads hold. *)

From S2P Require Import Prelude Names Splay Table Space World Vm Lock.

Implicit Types (l : lock) (w : wait) (t u : Z).

(** ** Holders *)

(** By which bit a writer holds the lock. *)
Inductive mode := ByWrite | ByUpgrade.

#[export] Instance mode_eq_dec : EqDecision mode.
Proof. solve_decision. Defined.

Record hold := mk_hold {
  h_reads : nat;
  h_depth : nat;               (* write locks on top of the first *)
  h_write : option mode;
  h_recursive : bool
}.

#[export] Instance hold_eq_dec : EqDecision hold.
Proof. solve_decision. Defined.

Definition nothing : hold := mk_hold 0 0 None false.

Definition with_reads n h := mk_hold n (h_depth h) (h_write h) (h_recursive h).
Definition with_depth n h := mk_hold (h_reads h) n (h_write h) (h_recursive h).
Definition with_write m h := mk_hold (h_reads h) (h_depth h) m (h_recursive h).
Definition with_recursive b h := mk_hold (h_reads h) (h_depth h) (h_write h) b.

(** A write lock more or less, and what [lock_done] gives back. *)
Definition more_write (m : mode) (h : hold) : hold :=
  if h_recursive h then with_depth (S (h_depth h)) h else with_write (Some m) h.
Definition less_write (h : hold) : hold :=
  match h_depth h with O => with_write None h | S n => with_depth n h end.
Definition released (h : hold) : hold :=
  match h_reads h with O => less_write h | S n => with_reads n h end.

(** What a thread holds after a call that has returned [r] or waits. *)
Definition after_call (c : lock_call) (p : progress) (h : hold) : hold :=
  match c, p with
  | CallWrite, Returns _ | CallTryWrite, Returns true => more_write ByWrite h
  | CallRead, Returns _ | CallTryRead, Returns true => with_reads (S (h_reads h)) h
  | CallDone, _ => released h
  | CallReadToWrite, Returns false | CallTryReadToWrite, Returns true => more_write ByUpgrade (with_reads (pred (h_reads h)) h)
  | CallReadToWrite, _ | CallTryReadToWrite, Waits => with_reads (pred (h_reads h)) h
  | CallWriteToRead, _ => less_write (with_reads (S (h_reads h)) h)
  | CallSetRecursive, _ => with_recursive true h
  | CallClearRecursive, _ => if decide (h_depth h = O) then with_recursive false h else h
  | _, _ => h
  end.

Definition after_wait (w : wait) (p : progress) (h : hold) : hold :=
  match w, p with
  | _, Waits => h
  | (WantWrite | WaitReaders), _ => with_write (Some ByWrite) h
  | WantRead, _ => with_reads (S (h_reads h)) h
  | (Upgrade | TryUpgrade), _ => with_write (Some ByUpgrade) h
  end.

(** How threads use a lock; [nest] bounds the locks of one thread. *)
Definition allowed (nest : nat) (c : lock_call) (h : hold) : Prop :=
  match c with
  | CallWrite => h = nothing \/ (h_recursive h = true /\ h_write h <> None /\ (h_depth h < nest)%nat)
  | CallTryWrite => h_recursive h = false \/ (h_write h <> None /\ (h_depth h < nest)%nat)
  | CallRead => h = nothing \/ (h_recursive h = true /\ (h_reads h < nest)%nat)
  | CallTryRead => (h_reads h < nest)%nat
  | CallDone => h <> nothing /\ (h_recursive h = true -> released h <> with_recursive true nothing)
  | CallReadToWrite | CallTryReadToWrite =>
    h = with_reads 1 nothing \/ (h_recursive h = true /\ h_write h <> None /\ h_reads h <> O /\ (h_depth h < nest)%nat)
  | CallWriteToRead => h_write h <> None /\ (h_reads h < nest)%nat
  | CallSetRecursive => h_write h <> None
  | CallClearRecursive => h_recursive h = true
  | CallSleepable _ => True
  end.

Definition wait_of (a : lock_activity) : wait := match a with Awake w | Spun w | Asleep w => w end.

Section holders.
Context (lock_wait_time : Z) (ts : list Z) (nest : nat).

Inductive lock_step : lock_system * (Z -> hold) -> lock_system * (Z -> hold) -> Prop :=
| step_call s h t c p s' :
    t ∈ ts -> sys_threads s !! t = None -> allowed nest c (h t) ->
    lock_perform lock_wait_time t c s = Some (p, s') ->
    lock_step (s, h) (s', upd t (after_call c p (h t)) h)
| step_continue s h t a p s' :
    sys_threads s !! t = Some a -> lock_continue lock_wait_time t s = Some (p, s') ->
    lock_step (s, h) (s', upd t (after_wait (wait_of a) p (h t)) h).

Definition lock_fresh (b : bool) : lock_system * (Z -> hold) := (mk_lock_system (lock_init b) ∅, fun _ => nothing).

Definition lock_reachable (s : lock_system * (Z -> hold)) : Prop := exists b, rtc lock_step (lock_fresh b) s.

(** ** The invariant *)

(** The bit that a thread has set, for itself. *)
Definition claim (o : option wait) (h : hold) : option mode :=
  match h_write h with
  | Some m => Some m
  | None => match o with
            | Some WaitReaders => Some ByWrite
            | Some Upgrade | Some TryUpgrade => Some ByUpgrade
            | _ => None
            end
  end.

(** The bit [f] is set if and only if one thread has set it. *)
Definition claimed (m : mode) (f : bool) (c : Z -> option mode) : Prop :=
  if f then exists t, forall u, c u = Some m <-> u = t else forall u, c u <> Some m.

Definition total (f : hold -> nat) (h : Z -> hold) : Z := Z.of_nat (sum_list_with (fun u => f (h u)) ts).

Record hold_ok (h : hold) : Prop := mk_hold_ok {
  ho_reads : (h_reads h <= nest)%nat;
  ho_depth : (h_depth h <= nest)%nat;
  ho_writes : h_depth h <> O -> h_write h <> None;
  ho_holds : h_recursive h = true -> h_reads h <> O \/ h_write h <> None
}.

Record holds l (wt : Z -> option wait) (h : Z -> hold) : Prop := mk_holds {
  hs_out t : t ∉ ts -> h t = nothing /\ wt t = None;
  hs_reads : read_count l = total h_reads h;
  hs_depth : recursion_depth l = total h_depth h;
  hs_write : claimed ByWrite (want_write l) (fun t => claim (wt t) (h t));
  hs_upgrade : claimed ByUpgrade (want_upgrade l) (fun t => claim (wt t) (h t));
  hs_excl t u : h_write (h t) <> None -> u <> t -> h u = nothing;
  hs_order t : h_write (h t) = Some ByWrite -> want_upgrade l = false;
  hs_ok t : hold_ok (h t);
  hs_rec t : t <> NO_THREAD -> lk_thread l = t <-> h_recursive (h t) = true;
  hs_idle t : wt t <> None -> h t = nothing
}.

(** Nobody sleeps who could go on, or whom nobody will wake. *)
Definition attentive l (th : gmap Z lock_activity) : Prop :=
  forall t w, th !! t = Some (Asleep w) -> waiting l = true /\ blocked w l = true.

Definition waits (th : gmap Z lock_activity) (t : Z) : option wait := wait_of <$> th !! t.

Definition lock_inv (s : lock_system * (Z -> hold)) : Prop :=
  holds (sys_lock s.1) (waits (sys_threads s.1)) s.2 /\ attentive (sys_lock s.1) (sys_threads s.1).

Hypothesis Hnd : NoDup ts.
Hypothesis Hno : NO_THREAD ∉ ts.
Hypothesis Hnest : 0 < Z.of_nat nest < 4096.
Hypothesis Hmany : Z.of_nat (length ts) * Z.of_nat nest < 65536.

(** *** One thread changes *)

(** How a bit changes with the claim of one thread. *)
Definition flag_step (m : mode) (f f' : bool) (old new : option mode) : Prop :=
  (new = Some m /\ f' = true /\ (old = Some m \/ f = false)) \/
  (new <> Some m /\ f' = (if decide (old = Some m) then false else f)).

Lemma claimed_step m f f' c c' t :
  claimed m f c -> flag_step m f f' (c t) (c' t) -> (forall u, u <> t -> c' u = c u) -> claimed m f' c'.
Proof.
  intros Hc [(Hn & -> & Ho)|(Hn & ->)] Hu.
  - exists t. intros u. destruct (decide (u = t)) as [->|Hne]; [by split|]. rewrite Hu by done. split; [|done].
    destruct Ho as [Ho| ->]; [|intros H; by apply Hc in H]. destruct f; [|by apply Hc in Ho].
    destruct Hc as [v Hv]. intros H%Hv. apply Hv in Ho. congruence.
  - case_decide as Ho.
    + intros u. destruct (decide (u = t)) as [->|Hne]; [done|]. rewrite Hu by done. destruct f; [|by apply Hc in Ho].
      destruct Hc as [v Hv]. intros H%Hv. apply Hv in Ho. congruence.
    + destruct f.
      * destruct Hc as [v Hv]. exists v. intros u. destruct (decide (u = t)) as [->|Hne]; [|by rewrite Hu].
        split; [done|]. intros ->. destruct Ho. by apply Hv.
      * intros u. destruct (decide (u = t)) as [->|Hne]; [done|]. rewrite Hu by done. apply Hc.
Qed.

Lemma claimed_ext m f c c' : (forall u, c u = c' u) -> claimed m f c -> claimed m f c'.
Proof. intros He. destruct f; simpl; [intros [t Ht]; exists t|intros H]; intros u; by rewrite <- He. Qed.

Lemma holds_ext l wt wt' h h' :
  (forall t, wt t = wt' t) -> (forall t, h t = h' t) -> holds l wt h -> holds l wt' h'.
Proof.
  intros He Hh [Hout Hr Hd Hw Hup Hex Hord Hok Hrec Hidle].
  assert (Hsum : forall f, total f h' = total f h).
  { intros f. unfold total. f_equal. clear -Hh. induction ts as [|t l' IH]; [done|]. simpl. by rewrite Hh, IH. }
  split; try (intros *; rewrite <- ?Hh, <- ?He); try done; try (by rewrite Hsum); try (by apply Hout).
  - eapply claimed_ext; [|exact Hw]. intros u. simpl. by rewrite He, Hh.
  - eapply claimed_ext; [|exact Hup]. intros u. simpl. by rewrite He, Hh.
  - apply Hex.
  - apply Hord.
  - apply Hrec.
  - apply Hidle.
Qed.

Lemma holds_change l wt h t l' o h' :
  holds l wt h -> t ∈ ts ->
  read_count l' = read_count l + Z.of_nat (h_reads h') - Z.of_nat (h_reads (h t)) ->
  recursion_depth l' = recursion_depth l + Z.of_nat (h_depth h') - Z.of_nat (h_depth (h t)) ->
  flag_step ByWrite (want_write l) (want_write l') (claim (wt t) (h t)) (claim o h') ->
  flag_step ByUpgrade (want_upgrade l) (want_upgrade l') (claim (wt t) (h t)) (claim o h') ->
  (h_write h' <> None -> forall u, u <> t -> h u = nothing) ->
  (h' = nothing \/ h t <> nothing \/ forall u, u <> t -> h_write (h u) = None) ->
  (h_write h' = Some ByWrite -> want_upgrade l' = false) ->
  ((forall u, u <> t -> h_write (h u) <> Some ByWrite) \/ want_upgrade l' = want_upgrade l) ->
  hold_ok h' -> (lk_thread l' = t <-> h_recursive h' = true) ->
  (forall u, u <> t -> u <> NO_THREAD -> lk_thread l' = u <-> lk_thread l = u) ->
  (o <> None -> h' = nothing) ->
  holds l' (upd t o wt) (upd t h' h).
Proof.
  intros [Hout Hr Hd Hw Hup Hex Hord Hok Hrec Hidle] Ht Hr' Hd' Hw' Hu' Hx1 Hx2 Ho1 Ho2 Hok' Hrec1 Hrec2 Hidle'. split.
  - intros u Hu. assert (u <> t) by congruence. rewrite !upd_ne by done. by apply Hout.
  - pose proof (sum_upd h_reads ts t h' h Hnd Ht). unfold total in *. lia.
  - pose proof (sum_upd h_depth ts t h' h Hnd Ht). unfold total in *. lia.
  - eapply claimed_step; [exact Hw|rewrite !upd_eq; exact Hw'|]. intros u Hu. by rewrite !upd_ne.
  - eapply claimed_step; [exact Hup|rewrite !upd_eq; exact Hu'|]. intros u Hu. by rewrite !upd_ne.
  - intros u v Hu Hv. destruct (decide (u = t)) as [->|Hut].
    + rewrite upd_eq in Hu. rewrite upd_ne by done. by apply Hx1.
    + rewrite upd_ne in Hu by done. destruct (decide (v = t)) as [->|Hvt].
      * rewrite upd_eq. destruct Hx2 as [?|[[]|Hx2]]; [done|by eapply Hex|by rewrite Hx2 in Hu].
      * rewrite upd_ne by done. by eapply Hex.
  - intros u Hu. destruct (decide (u = t)) as [->|Hut]; [rewrite upd_eq in Hu; auto|]. rewrite upd_ne in Hu by done.
    destruct Ho2 as [Ho2| ->]; [by destruct (Ho2 u Hut)|by eapply Hord].
  - intros u. destruct (decide (u = t)) as [->|Hut]; [by rewrite upd_eq|by rewrite upd_ne].
  - intros u Hu. destruct (decide (u = t)) as [->|Hut]; [by rewrite upd_eq|]. rewrite upd_ne by done. rewrite Hrec2 by done. by apply Hrec.
  - intros u. destruct (decide (u = t)) as [->|Hut]; [by rewrite !upd_eq|]. rewrite !upd_ne by done. apply Hidle.
Qed.

(** *** What the fields say *)

Lemma total_zero f h t : total f h = 0 -> (forall u, u ∉ ts -> f (h u) = O) -> f (h t) = O.
Proof.
  intros H0 Hout. destruct (decide (t ∈ ts)) as [Ht|Ht]; [|by apply Hout]. pose proof (sum_member f ts t h Ht). unfold total in H0. lia.
Qed.

Lemma total_one f h t : t ∈ ts -> (forall u, u <> t -> f (h u) = O) -> total f h = Z.of_nat (f (h t)).
Proof.
  intros Ht Ho. unfold total. f_equal. revert Ht Hnd. clear -Ho. induction ts as [|u l IH]; intros Ht Hnd; [by apply elem_of_nil in Ht|].
  apply NoDup_cons in Hnd as [Hu Hnd]. simpl. apply elem_of_cons in Ht as [->|Ht].
  - assert (Hz : sum_list_with (fun v => f (h v)) l = O); [|lia]. clear IH Hnd.
    induction l as [|v l IH]; [done|]. apply not_elem_of_cons in Hu as [Hv Hu]. simpl. rewrite (Ho v) by congruence. auto.
  - rewrite (Ho u) by (intros ->; done). by apply IH.
Qed.

Section facts.
Context (l : lock) (wt : Z -> option wait) (h : Z -> hold) (t : Z).
Hypothesis Hh : holds l wt h.
Hypothesis Ht : t ∈ ts.

Lemma held_ne : t <> NO_THREAD.
Proof. intros ->. done. Qed.

Lemma held_recursive : (lk_thread l =? t) = h_recursive (h t).
Proof.
  pose proof (hs_rec _ _ _ Hh t held_ne) as Hr. destruct (h_recursive (h t)); [apply Z.eqb_eq; by apply Hr|].
  apply Z.eqb_neq. intros E. by apply Hr in E.
Qed.

Lemma held_more_reads : (h_reads (h t) < nest)%nat -> 0 < read_count l + 1 < 65536.
Proof.
  intros Hn. rewrite (hs_reads _ _ _ Hh). unfold total.
  pose proof (sum_upd h_reads ts t (with_reads (S (h_reads (h t))) (h t)) h Hnd Ht) as Hs. simpl in Hs.
  pose proof (sum_bound h_reads ts (upd t (with_reads (S (h_reads (h t))) (h t)) h) nest) as Hb.
  assert (Hle : forall u, (h_reads (upd t (with_reads (S (h_reads (h t))) (h t)) h u) <= nest)%nat).
  { intros u. destruct (decide (u = t)) as [->|]; [rewrite upd_eq; simpl; lia|]. rewrite upd_ne by done. apply (ho_reads _ (hs_ok _ _ _ Hh u)). }
  specialize (Hb Hle). lia.
Qed.

Lemma held_reads : Z.of_nat (h_reads (h t)) <= read_count l < 65536.
Proof.
  rewrite (hs_reads _ _ _ Hh). unfold total. pose proof (sum_member h_reads ts t h Ht).
  pose proof (sum_bound h_reads ts h nest (fun u => ho_reads _ (hs_ok _ _ _ Hh u))). lia.
Qed.

Lemma held_no_readers : read_count l = 0 -> forall u, h_reads (h u) = O.
Proof.
  intros H0 u. apply (total_zero h_reads h u); [by rewrite <- (hs_reads _ _ _ Hh)|].
  intros v Hv. by destruct (hs_out _ _ _ Hh v Hv) as [-> _].
Qed.

(** A writer is alone. *)
Lemma held_alone : h_write (h t) <> None -> read_count l = Z.of_nat (h_reads (h t)) /\ recursion_depth l = Z.of_nat (h_depth (h t)).
Proof.
  intros Hw. rewrite (hs_reads _ _ _ Hh), (hs_depth _ _ _ Hh).
  split; apply total_one; try done; intros u Hu; by rewrite (hs_excl _ _ _ Hh t u Hw Hu).
Qed.

Lemma held_depth : h_write (h t) = None -> (forall u, u <> t -> h_write (h u) = None) -> recursion_depth l = 0.
Proof.
  intros Hw Hu. rewrite (hs_depth _ _ _ Hh). rewrite (total_one h_depth h t Ht).
  - destruct (h_depth (h t)) eqn:E; [done|]. by destruct (ho_writes _ (hs_ok _ _ _ Hh t) ltac:(by rewrite E)).
  - intros u Hne. destruct (h_depth (h u)) eqn:E; [done|]. destruct (ho_writes _ (hs_ok _ _ _ Hh u) ltac:(by rewrite E)). by apply Hu.
Qed.

Lemma held_mode m : h_write (h t) = Some m -> claimed m true (fun u => claim (wt u) (h u)) ->
  forall u, u <> t -> claim (wt u) (h u) <> Some m.
Proof.
  intros Hw [v Hv] u Hu Hc. apply Hv in Hc. subst. destruct Hu. symmetry. apply Hv. unfold claim. by rewrite Hw.
Qed.

(** Who holds something keeps writers out. *)
Lemma held_no_writer : h t <> nothing -> forall u, u <> t -> h_write (h u) = None.
Proof.
  intros Hn u Hu. destruct (h_write (h u)) eqn:E; [|done]. destruct Hn. apply (hs_excl _ _ _ Hh u t); [by rewrite E|congruence].
Qed.
End facts.
(** *** The changes that the routines make *)

Lemma flag_keep m f (c : Z -> option mode) t x y : claimed m f c -> c t = y -> x = y -> flag_step m f f y x.
Proof.
  intros Hc <- ->. unfold flag_step. destruct (decide (c t = Some m)) as [E|E]; [left|by right]. split; [done|].
  destruct f; [by split; [|left]|by apply Hc in E].
Qed.

Lemma claimed_true m f (c : Z -> option mode) t : claimed m f c -> c t = Some m -> f = true.
Proof. destruct f; [done|]. intros Hc Ht. by apply Hc in Ht. Qed.

Lemma flag_off m f x : x <> Some m -> flag_step m f false (Some m) x.
Proof. intros Hx. right. split; [done|]. by rewrite decide_True. Qed.

Lemma flag_on m f (o : option mode) : f = false -> flag_step m f true o (Some m).
Proof. intros ->. left. by split_and!; [| |right]. Qed.

Lemma flag_other m f o x : o <> Some m -> x <> Some m -> flag_step m f f o x.
Proof. intros Ho Hx. right. split; [done|]. by rewrite decide_False. Qed.

Lemma free_no_writer l wt h : holds l wt h -> want_write l = false -> want_upgrade l = false -> forall u, h_write (h u) = None.
Proof.
  intros Hh Hw Hu u. destruct (h_write (h u)) as [m|] eqn:E; [|done]. exfalso.
  assert (Hc : claim (wt u) (h u) = Some m) by (unfold claim; by rewrite E).
  pose proof (hs_write _ _ _ Hh) as H1. pose proof (hs_upgrade _ _ _ Hh) as H2. rewrite Hw in H1. rewrite Hu in H2.
  destruct m; [by apply H1 in Hc|by apply H2 in Hc].
Qed.

Lemma recursive_holds h : hold_ok h -> h_recursive h = true -> h <> nothing.
Proof. intros [] Hr ->. done. Qed.

(** The claim of a thread that waits for no bit is what it holds. *)
Definition unclaimed (o : option wait) : Prop := o = None \/ o = Some WantWrite \/ o = Some WantRead.

Lemma claim_unclaimed o h : unclaimed o -> claim o h = h_write h.
Proof. intros [->|[->| ->]]; unfold claim; by destruct (h_write h). Qed.

Lemma claim_none h : claim None h = h_write h.
Proof. apply claim_unclaimed. by left. Qed.

(** Fields that do not matter. *)
Lemma holds_same l l' wt h : holds l wt h -> read_count l' = read_count l -> recursion_depth l' = recursion_depth l -> want_write l' = want_write l ->
  want_upgrade l' = want_upgrade l -> lk_thread l' = lk_thread l -> holds l' wt h.
Proof. intros [] E1 E2 E3 E4 E5. split; rewrite ?E1, ?E2, ?E3, ?E4, ?E5; done. Qed.

Section changes.
Context (l : lock) (wt : Z -> option wait) (h : Z -> hold) (t : Z).
Hypothesis Hh : holds l wt h.
Hypothesis Ht : t ∈ ts.

Let Hw := hs_write _ _ _ Hh.
Let Hu := hs_upgrade _ _ _ Hh.
Let Hrec := hs_rec _ _ _ Hh t (held_ne t Ht).
Let Hok := hs_ok _ _ _ Hh t.

(** The thread waits for something else, or no longer. *)
Lemma holds_wait o : claim o (h t) = claim (wt t) (h t) -> (o <> None -> h t = nothing) -> holds l (upd t o wt) h.
Proof.
  intros Ho Hi. eapply (holds_ext _ _ _ (upd t (h t) h)); [done| |].
  { intros u. destruct (decide (u = t)) as [->|]; [by rewrite upd_eq|by rewrite upd_ne]. }
  apply (holds_change l); try done; try lia.
  - by apply (flag_keep _ _ _ t _ _ Hw).
  - by apply (flag_keep _ _ _ t _ _ Hu).
  - intros ? u ?. by apply (hs_excl _ _ _ Hh t).
  - destruct (decide (h t = nothing)); [by left|by right; left].
  - apply (hs_order _ _ _ Hh).
  - by right.
Qed.

Lemma holds_more_read o l' : unclaimed (wt t) -> (h_reads (h t) < nest)%nat ->
  (want_write l = false /\ want_upgrade l = false) \/ h t <> nothing ->
  l' = set_read_count (read_count l + 1) l -> o = None ->
  holds l' (upd t o wt) (upd t (with_reads (S (h_reads (h t))) (h t)) h).
Proof.
  intros Ho Hn Hf -> ->. pose proof (held_more_reads _ _ _ _ Hh Ht Hn). destruct Hok as [H1 H2 H3 H4].
  apply (holds_change l); try done; cbn [read_count recursion_depth want_write want_upgrade lk_thread set_read_count with_reads h_reads h_depth h_write h_recursive]; try lia.
  - unfold u16. rewrite Z.mod_small; lia.
  - apply (flag_keep _ _ _ t _ _ Hw); [done|]. by rewrite (claim_unclaimed _ _ Ho), claim_none.
  - apply (flag_keep _ _ _ t _ _ Hu); [done|]. by rewrite (claim_unclaimed _ _ Ho), claim_none.
  - intros ? u ?. by apply (hs_excl _ _ _ Hh t).
  - right. destruct Hf as [[Hf1 Hf2]|Hf]; [right|by left]. intros u _. by eapply free_no_writer.
  - apply (hs_order _ _ _ Hh).
  - by right.
  - split; simpl; try done; by left.
Qed.

Lemma holds_less_read n l' : wt t = None -> h_reads (h t) = S n -> (h_recursive (h t) = true -> with_reads n (h t) <> with_recursive true nothing) ->
  l' = set_read_count (read_count l - 1) l ->
  holds l' wt (upd t (with_reads n (h t)) h).
Proof.
  intros Ho Hn Hr ->. pose proof (held_reads _ _ _ _ Hh Ht). destruct Hok as [H1 H2 H3 H4].
  eapply (holds_ext _ (upd t None wt)); [|done|].
  { intros u. destruct (decide (u = t)) as [->|]; [by rewrite upd_eq|by rewrite upd_ne]. }
  apply (holds_change l); try done; cbn [read_count recursion_depth want_write want_upgrade lk_thread set_read_count with_reads h_reads h_depth h_write h_recursive]; try lia.
  - unfold u16. rewrite Z.mod_small; lia.
  - apply (flag_keep _ _ _ t _ _ Hw); [done|]. by rewrite Ho, !claim_none.
  - apply (flag_keep _ _ _ t _ _ Hu); [done|]. by rewrite Ho, !claim_none.
  - intros ? u ?. by apply (hs_excl _ _ _ Hh t).
  - right. left. intros E. by rewrite E in Hn.
  - apply (hs_order _ _ _ Hh).
  - by right.
  - split; simpl; try done; [lia|]. intros Hx. destruct n; [|by left]. right. intros E. apply (Hr Hx).
    destruct (h_depth (h t)) eqn:Ed; [|by destruct H3]. unfold with_reads, with_recursive, nothing. simpl. by rewrite Ed, E, Hx.
Qed.

Lemma holds_deeper n l' : wt t = None -> h_recursive (h t) = true -> h_write (h t) <> None -> (h_depth (h t) < nest)%nat -> (n <= h_reads (h t))%nat ->
  l' = set_depth (recursion_depth l + 1) (set_read_count (read_count l + Z.of_nat n - Z.of_nat (h_reads (h t))) l) ->
  holds l' wt (upd t (with_depth (S (h_depth (h t))) (with_reads n (h t))) h).
Proof.
  intros Ho Hr Hwr Hd Hn ->. destruct (held_alone _ _ _ _ Hh Ht Hwr) as [E1 E2]. pose proof (held_reads _ _ _ _ Hh Ht). destruct Hok as [H1 H2 H3 H4].
  eapply (holds_ext _ (upd t None wt)); [|done|].
  { intros u. destruct (decide (u = t)) as [->|]; [by rewrite upd_eq|by rewrite upd_ne]. }
  apply (holds_change l); try done;
    cbn [read_count recursion_depth want_write want_upgrade lk_thread set_read_count set_depth with_depth with_reads h_reads h_depth h_write h_recursive].
  - unfold u16. rewrite Z.mod_small; lia.
  - unfold u12. rewrite Z.mod_small; lia.
  - apply (flag_keep _ _ _ t _ _ Hw); [done|]. by rewrite Ho, !claim_none.
  - apply (flag_keep _ _ _ t _ _ Hu); [done|]. by rewrite Ho, !claim_none.
  - intros ? u ?. by apply (hs_excl _ _ _ Hh t).
  - right. left. by intros E; rewrite E in Hwr.
  - apply (hs_order _ _ _ Hh).
  - by right.
  - split; simpl; try done; [lia..|]. by right.
Qed.

(** [lock_done] and [lock_write_to_read] of a writer. *)
Lemma holds_less_write n l' : wt t = None -> h_write (h t) <> None -> (n <= nest)%nat ->
  (h_recursive (h t) = true -> less_write (with_reads n (h t)) <> with_recursive true nothing) ->
  l' = (let l1 := set_read_count (Z.of_nat n) l in
        if negb (recursion_depth l =? 0) then set_depth (recursion_depth l - 1) l1
        else if want_upgrade l then set_want_upgrade false l1 else set_want_write false l1) ->
  holds l' wt (upd t (less_write (with_reads n (h t))) h).
Proof.
  intros Ho Hwr Hn Hr ->. destruct (held_alone _ _ _ _ Hh Ht Hwr) as [E1 E2]. destruct Hok as [H1 H2 H3 H4].
  assert (Hn16 : u16 (Z.of_nat n) = Z.of_nat n).
  { unfold u16. rewrite Z.mod_small; [done|]. lia. }
  assert (Hth : forall u, u <> t -> h u = nothing) by (intros u Hne; by apply (hs_excl _ _ _ Hh t)).
  eapply (holds_ext _ (upd t None wt)); [|done|].
  { intros u. destruct (decide (u = t)) as [->|]; [by rewrite upd_eq|by rewrite upd_ne]. }
  rewrite E2. unfold less_write in *. simpl in *. destruct (h_depth (h t)) as [|d] eqn:Ed; simpl.
  - destruct (h_write (h t)) as [m|] eqn:Em; [|done].
    assert (Hm : claim (wt t) (h t) = Some m) by (unfold claim; by rewrite Em).
    assert (Hok' : hold_ok (with_write None (with_reads n (h t)))).
    { split; simpl; [lia|lia|by rewrite Ed|]. intros Hx. destruct n; [|by left]. destruct (Hr Hx).
      unfold with_write, with_reads, with_recursive, nothing. simpl. by rewrite ?Ed, Hx. }
    destruct m.
    + rewrite (hs_order _ _ _ Hh t Em). apply (holds_change l); try done; simpl; try lia; try (by right); try (by rewrite Hm; apply flag_off).
      * rewrite Hm. apply flag_other; done.
      * right. left. by intros E; rewrite E in Em.
    + rewrite (claimed_true _ _ _ _ Hu Hm). apply (holds_change l); try done; simpl; try lia; try (by right); try (by rewrite Hm; apply flag_off).
      * rewrite Hm. apply flag_other; done.
      * right. left. by intros E; rewrite E in Em.
      * left. intros u Hne. by rewrite (Hth u Hne).
  - destruct (Z.eqb_spec (Z.of_nat (S d)) 0) as [|_]; [lia|]. simpl.
    apply (holds_change l); try done; simpl; try lia.
    + unfold u12. rewrite Z.mod_small; lia.
    + apply (flag_keep _ _ _ t _ _ Hw); [done|]. by rewrite Ho, !claim_none.
    + apply (flag_keep _ _ _ t _ _ Hu); [done|]. by rewrite Ho, !claim_none.
    + right. left. by intros E; rewrite E in Hwr.
    + apply (hs_order _ _ _ Hh).
    + by right.
    + split; simpl; try done; [lia|]. by right.
Qed.

(** The bits. *)
Lemma holds_bit : h t = nothing -> unclaimed (wt t) -> want_write l = false ->
  holds (set_want_write true l) (upd t (Some WaitReaders) wt) h.
Proof.
  intros Hn Ho Hf. assert (Hc : claim (wt t) (h t) = None) by (by rewrite claim_unclaimed, Hn).
  eapply (holds_ext _ _ _ (upd t nothing h)); [done| |].
  { intros u. destruct (decide (u = t)) as [->|]; [by rewrite upd_eq|by rewrite upd_ne]. }
  apply (holds_change l); try done; rewrite ?Hc, ?Hn; cbn; try lia; try done.
  - by apply flag_on.
  - by apply flag_other.
  - by left.
  - by right.
  - by rewrite <- Hn.
  - rewrite Hrec. by rewrite Hn.
Qed.

(** Nobody else holds anything. *)
Lemma nobody_left : h t = nothing -> read_count l = 0 -> (forall u, h_write (h u) = None) -> forall u, u <> t -> h u = nothing.
Proof.
  intros Hn H0 Hx u Hne. pose proof (held_no_readers _ _ _ Hh H0 u) as Hr. destruct (hs_ok _ _ _ Hh u) as [_ _ H3 H4].
  specialize (Hx u). destruct (h u) as [r d m b]. simpl in *. subst. destruct d; [|by destruct H3]. destruct b; [|done].
  by destruct (H4 eq_refl).
Qed.

Lemma holds_win_write : wt t = Some WaitReaders -> blocked WaitReaders l = false ->
  holds l (upd t None wt) (upd t (with_write (Some ByWrite) (h t)) h).
Proof.
  intros Ho Hb. cbn in Hb. apply orb_false_iff in Hb as [H0 Hup]. apply negb_false_iff, Z.eqb_eq in H0.
  pose proof (hs_idle _ _ _ Hh t ltac:(by rewrite Ho)) as Hn.
  assert (Hc : claim (wt t) (h t) = Some ByWrite) by (by rewrite Hn, Ho).
  assert (Hx : forall u, h_write (h u) = None).
  { intros u. destruct (h_write (h u)) as [m|] eqn:E; [|done]. exfalso.
    assert (Hcu : claim (wt u) (h u) = Some m) by (unfold claim; by rewrite E).
    destruct m; [|pose proof (claimed_true _ _ _ _ Hu Hcu); congruence].
    pose proof (claimed_true _ _ _ _ Hw Hc) as Hf. clear Hu. pose proof (hs_write _ _ _ Hh) as Hw'. rewrite Hf in Hw'. destruct Hw' as [v Hv].
    apply Hv in Hcu as ->. apply Hv in Hc. subst. by rewrite Hn in E. }
  pose proof (nobody_left Hn H0 Hx) as Hall. rewrite Hn.
  apply (holds_change l); try done; rewrite ?Hc, ?Hn; cbn; try lia; try done.
  - by left; split_and!; [|apply (claimed_true _ _ _ _ Hw Hc)|left].
  - by apply flag_other.
  - right. right. intros u _. apply Hx.
  - by right.
  - split; simpl; try done; lia.
  - rewrite Hrec. by rewrite Hn.
Qed.

Lemma holds_start_upgrade w l' : w = Upgrade \/ w = TryUpgrade -> wt t = None -> h t = with_reads 1 nothing -> want_upgrade l = false ->
  l' = set_want_upgrade true (set_read_count (read_count l - 1) l) ->
  holds l' (upd t (Some w) wt) (upd t nothing h).
Proof.
  intros Hw' Ho Hn Hf ->. pose proof (held_reads _ _ _ _ Hh Ht) as Hr. rewrite Hn in Hr. cbn in Hr.
  assert (Hc : claim (wt t) (h t) = None) by (by rewrite Ho, Hn).
  assert (Hm : claim (Some w) nothing = Some ByUpgrade) by (by destruct Hw' as [->| ->]).
  apply (holds_change l); try done; rewrite ?Hc, ?Hm, ?Hn; cbn; try lia; try done.
  - unfold u16. rewrite Z.mod_small; lia.
  - by apply flag_other.
  - by apply flag_on.
  - by left.
  - left. intros u Hne E. assert (Hnot : h t <> nothing) by (by rewrite Hn). pose proof (held_no_writer _ _ _ _ Hh Hnot u Hne). congruence.
  - split; simpl; try done; lia.
  - rewrite Hrec. by rewrite Hn.
Qed.

Lemma holds_win_upgrade w : w = Upgrade \/ w = TryUpgrade -> wt t = Some w -> read_count l = 0 ->
  holds l (upd t None wt) (upd t (with_write (Some ByUpgrade) (h t)) h).
Proof.
  intros Hw' Ho H0. pose proof (hs_idle _ _ _ Hh t ltac:(by rewrite Ho)) as Hn.
  assert (Hc : claim (wt t) (h t) = Some ByUpgrade) by (rewrite Hn, Ho; by destruct Hw' as [->| ->]).
  pose proof (claimed_true _ _ _ _ Hu Hc) as Hf.
  assert (Hx : forall u, h_write (h u) = None).
  { intros u. destruct (h_write (h u)) as [m|] eqn:E; [|done]. exfalso.
    assert (Hcu : claim (wt u) (h u) = Some m) by (unfold claim; by rewrite E).
    destruct m; [pose proof (hs_order _ _ _ Hh u E); congruence|].
    pose proof (hs_upgrade _ _ _ Hh) as Hup. rewrite Hf in Hup. destruct Hup as [v Hv].
    apply Hv in Hcu as ->. apply Hv in Hc. subst. by rewrite Hn in E. }
  pose proof (nobody_left Hn H0 Hx) as Hall. rewrite Hn.
  apply (holds_change l); try done; rewrite ?Hc, ?Hn; cbn; try lia; try done.
  - by apply flag_other.
  - by left; split_and!; [|exact Hf|left].
  - right. right. intros u _. apply Hx.
  - by right.
  - split; simpl; try done; lia.
  - rewrite Hrec. by rewrite Hn.
Qed.

(** Recursion. *)
Lemma holds_set_recursive : wt t = None -> h_write (h t) <> None -> holds (set_lk_thread t l) wt (upd t (with_recursive true (h t)) h).
Proof.
  intros Ho Hwr. destruct Hok as [H1 H2 H3 H4]. assert (Hth : forall u, u <> t -> h u = nothing) by (intros u Hne; by apply (hs_excl _ _ _ Hh t)).
  eapply (holds_ext _ (upd t None wt)); [|done|].
  { intros u. destruct (decide (u = t)) as [->|]; [by rewrite upd_eq|by rewrite upd_ne]. }
  apply (holds_change l); try done; cbn; try lia.
  - apply (flag_keep _ _ _ t _ _ Hw); [done|]. by rewrite Ho, !claim_none.
  - apply (flag_keep _ _ _ t _ _ Hu); [done|]. by rewrite Ho, !claim_none.
  - right. left. by intros E; rewrite E in Hwr.
  - apply (hs_order _ _ _ Hh).
  - by right.
  - split; simpl; try done; by right.
  - intros u Hne Hnt. split; [congruence|]. intros E. apply (hs_rec _ _ _ Hh u Hnt) in E. by rewrite (Hth u Hne) in E.
Qed.

Lemma holds_clear_recursive : wt t = None -> h_recursive (h t) = true -> holds (set_lk_thread NO_THREAD l) wt (upd t (with_recursive false (h t)) h).
Proof.
  intros Ho Hr. destruct Hok as [H1 H2 H3 H4]. pose proof (held_ne t Ht) as Hne.
  eapply (holds_ext _ (upd t None wt)); [|done|].
  { intros u. destruct (decide (u = t)) as [->|]; [by rewrite upd_eq|by rewrite upd_ne]. }
  apply (holds_change l); try done; cbn; try lia.
  - apply (flag_keep _ _ _ t _ _ Hw); [done|]. by rewrite Ho, !claim_none.
  - apply (flag_keep _ _ _ t _ _ Hu); [done|]. by rewrite Ho, !claim_none.
  - intros ? u ?. by apply (hs_excl _ _ _ Hh t).
  - right. left. by apply recursive_holds.
  - apply (hs_order _ _ _ Hh).
  - by right.
  - intros u Hn1 Hn2. split; [congruence|]. intros E. apply Hrec in Hr. congruence.
Qed.
End changes.

End holders.
