(* ===== verification/LockSteps.v ===== *)
(** * The steps of lock.c keep what the lock says true *)

From S2P Require Import Prelude Names Splay Table Space World Vm Lock LockInv.

Implicit Types (l : lock) (w : wait) (t u : Z).

(** ** Sleepers *)

Lemma attentive_mono l l' th :
  attentive l th -> waiting l' = waiting l -> (forall w, blocked w l = true -> blocked w l' = true) -> attentive l' th.
Proof. intros Ha Hw Hb t w Ht. destruct (Ha t w Ht). rewrite Hw. auto. Qed.

Lemma attentive_wake l th : attentive l (wake <$> th).
Proof. intros t w Ht. rewrite lookup_fmap in Ht. destruct (th !! t) as [[]|]; simpl in Ht; discriminate. Qed.

Lemma attentive_delete l th t : attentive l th -> attentive l (delete t th).
Proof. intros Ha u w Hu. apply lookup_delete_Some in Hu as [_ Hu]. by apply (Ha u). Qed.

Lemma attentive_insert l th t a :
  attentive l (delete t th) -> (forall w, a = Asleep w -> waiting l = true /\ blocked w l = true) -> attentive l (<[t := a]> th).
Proof.
  intros Ha Hs u w [[-> ->]|[Hne Hu]]%lookup_insert_Some; [by apply Hs|]. apply (Ha u). by rewrite lookup_delete_ne.
Qed.

Lemma attentive_quiet l l' th : attentive l th -> waiting l = false -> attentive l' th.
Proof. intros Ha Hw t w Ht. destruct (Ha t w Ht). congruence. Qed.

Lemma waits_insert th t a u : waits (<[t := a]> th) u = upd t (Some (wait_of a)) (waits th) u.
Proof. unfold waits, upd. case_decide; subst; [by rewrite lookup_insert_eq|by rewrite lookup_insert_ne]. Qed.

Lemma waits_delete th t u : waits (delete t th) u = upd t None (waits th) u.
Proof. unfold waits, upd. case_decide; subst; [by rewrite lookup_delete_eq|by rewrite lookup_delete_ne]. Qed.

Lemma waits_wake th u : waits (wake <$> th) u = waits th u.
Proof. unfold waits. rewrite lookup_fmap. by destruct (th !! u) as [[]|]. Qed.

Lemma upd_upd {K V} `{EqDecision K} (x : K) (v v' : V) f y : upd x v (upd x v' f) y = upd x v f y.
Proof. unfold upd. by case_decide. Qed.

Lemma upd_same {K V} `{EqDecision K} (x : K) (f : K -> V) y : upd x (f x) f y = f y.
Proof. unfold upd. by case_decide; subst. Qed.

Section steps.
Context (lock_wait_time : Z) (ts : list Z) (nest : nat).
Hypothesis Hnd : NoDup ts.
Hypothesis Hno : NO_THREAD ∉ ts.
Hypothesis Hnest : 0 < Z.of_nat nest < 4096.
Hypothesis Hmany : Z.of_nat (length ts) * Z.of_nat nest < 65536.

Abbreviation holds := (holds ts nest).
Abbreviation lock_inv := (lock_inv ts nest).

Lemma inv_intro l th wt h h' :
  holds l wt h -> (forall u, wt u = waits th u) -> (forall u, h u = h' u) -> attentive l th -> lock_inv (mk_lock_system l th, h').
Proof. intros Hh Hw He Ha. split; [|done]. by eapply holds_ext. Qed.

Lemma blocked_more_reads w l : 0 < read_count l + 1 < 65536 -> blocked w l = true -> blocked w (set_read_count (read_count l + 1) l) = true.
Proof.
  intros Hr. assert (Hz : (u16 (read_count l + 1) =? 0) = false) by (apply Z.eqb_neq; unfold u16; rewrite Z.mod_small; lia).
  destruct w; cbn; by rewrite ?Hz.
Qed.

(** ** Waiting *)

Lemma sleep_inv t w l th h :
  t ∈ ts -> holds l (upd t (Some w) (waits th)) h -> attentive l (delete t th) -> blocked w l = true ->
  lock_inv (mk_lock_system (set_waiting true l) (<[t := Asleep w]> th), upd t (h t) h).
Proof.
  intros Ht Hh Ha Hb. eapply (inv_intro (set_waiting true l)).
  - by apply (holds_same ts nest l _ (upd t (Some w) (waits th)) h).
  - intros u. by rewrite waits_insert.
  - intros u. by rewrite upd_same.
  - apply attentive_insert; [|intros ? [= <-]; split; [done|by destruct w]].
    intros u w' Hu. destruct (Ha u w' Hu). split; [done|by destruct w'].
Qed.

(** A thread in a loop waits on, or comes behind it. *)
Lemma wait_loop_inv t w l th h behind p s' (Q : Prop) :
  t ∈ ts -> holds l (upd t (Some w) (waits th)) h -> attentive l (delete t th) ->
  wait_loop lock_wait_time t w behind (mk_lock_system l th) = Some (p, s') ->
  (p = Waits -> lock_inv (s', upd t (h t) h) -> Q) ->
  (blocked w l = false -> behind (mk_lock_system l th) = Some (p, s') -> Q) -> Q.
Proof.
  intros Ht Hh Ha Hrun HW HB. unfold wait_loop in Hrun. rewrite run_bind in Hrun. cbn [gets sys_lock] in Hrun.
  destruct (blocked w l) eqn:Hb; cbn [negb] in Hrun; [|by apply HB].
  destruct (spins _ w); [|destruct (sleeps w l); [|done]]; injection Hrun as <- <-; apply HW; try done.
  - eapply inv_intro; [exact Hh|intros u; by rewrite waits_insert|intros u; by rewrite upd_same|]. by apply attentive_insert.
  - by apply sleep_inv.
Qed.

Lemma return_from_run t r l th : return_from t r (mk_lock_system l th) = Some (Returns r, mk_lock_system l (delete t th)).
Proof. done. Qed.

Lemma resume_inv t w l th h p s' :
  t ∈ ts -> holds l (upd t (Some w) (waits th)) h -> attentive l (delete t th) ->
  resume lock_wait_time t w (mk_lock_system l th) = Some (p, s') -> lock_inv (s', upd t (after_wait w p (h t)) h).
Proof.
  intros Ht Hh Ha. pose proof (hs_idle _ _ _ _ _ Hh t ltac:(by rewrite upd_eq)) as Hn.
  assert (Hreaders : forall l, holds l (upd t (Some WaitReaders) (waits th)) h -> attentive l (delete t th) ->
    wait_loop lock_wait_time t WaitReaders (return_from t true) (mk_lock_system l th) = Some (p, s') ->
    lock_inv (s', upd t (after_wait WaitReaders p (h t)) h)).
  { intros l1 Hh1 Ha1 Hrun. eapply wait_loop_inv; [exact Ht|exact Hh1|exact Ha1|exact Hrun|by intros ->|].
    intros Hb Hret. rewrite return_from_run in Hret. injection Hret as <- <-.
    eapply inv_intro; [eapply holds_win_write; [done..|exact Hh1|exact Ht|by rewrite upd_eq|exact Hb]| |done|done].
    intros u. by rewrite waits_delete, upd_upd. }
  destruct w; cbn [resume]; intros Hrun.
  - eapply wait_loop_inv; [exact Ht|exact Hh|exact Ha|exact Hrun|by intros ->|]. clear Hrun. intros Hb Hrun.
    cbn in Hb. rewrite run_bind in Hrun. cbn in Hrun.
    assert (Hgoal : lock_inv (s', upd t (after_wait WaitReaders p (h t)) h)).
    { apply (Hreaders (set_want_write true l)); [|by eapply attentive_mono; [exact Ha|done|intros [] HH; cbn in *; rewrite ?HH, ?orb_true_r]|exact Hrun].
      eapply holds_ext; [| |eapply holds_bit; [done..|exact Hh|exact Ht|exact Hn|rewrite upd_eq; by right; left|exact Hb]]; [|done].
      intros u. by rewrite upd_upd. }
    destruct p; exact Hgoal.
  - by apply (Hreaders l).
  - eapply wait_loop_inv; [exact Ht|exact Hh|exact Ha|exact Hrun|by intros ->|]. clear Hrun. intros Hb Hrun.
    cbn in Hb. apply orb_false_iff in Hb as [Hb1 Hb2]. rewrite run_bind in Hrun. cbn in Hrun. injection Hrun as <- <-.
    eapply inv_intro; [eapply holds_more_read; [done..|exact Hh|exact Ht|rewrite upd_eq; by right; right| |by left|reflexivity|reflexivity]| |done|].
    + rewrite Hn. simpl. lia.
    + intros u. by rewrite waits_delete, upd_upd.
    + eapply attentive_mono; [exact Ha|done|]. intros w Hw. apply blocked_more_reads; [|done]. eapply held_more_reads; [exact Hnd|exact Hmany|exact Hh|exact Ht|]. rewrite Hn. simpl. lia.
  - eapply wait_loop_inv; [exact Ht|exact Hh|exact Ha|exact Hrun|by intros ->|]. clear Hrun. intros Hb Hrun.
    cbn in Hb. apply negb_false_iff, Z.eqb_eq in Hb. injection Hrun as <- <-.
    eapply inv_intro; [eapply (holds_win_upgrade ts nest Hnd Hno Hnest _ _ _ _ Hh Ht Upgrade); [by left|by rewrite upd_eq|exact Hb]| |done|done].
    intros u. by rewrite waits_delete, upd_upd.
  - eapply wait_loop_inv; [exact Ht|exact Hh|exact Ha|exact Hrun|by intros ->|]. clear Hrun. intros Hb Hrun.
    cbn in Hb. apply negb_false_iff, Z.eqb_eq in Hb. injection Hrun as <- <-.
    eapply inv_intro; [eapply (holds_win_upgrade ts nest Hnd Hno Hnest _ _ _ _ Hh Ht TryUpgrade); [by right|by rewrite upd_eq|exact Hb]| |done|done].
    intros u. by rewrite waits_delete, upd_upd.
Qed.

Lemma continue_inv s h t a p s' :
  lock_inv (s, h) -> sys_threads s !! t = Some a -> lock_continue lock_wait_time t s = Some (p, s') ->
  lock_inv (s', upd t (after_wait (wait_of a) p (h t)) h).
Proof.
  destruct s as [l th]. intros [Hh Ha] Hta Hrun. cbn [sys_lock sys_threads fst snd] in *.
  assert (Ht : t ∈ ts).
  { destruct (decide (t ∈ ts)) as [|Hn]; [done|]. destruct (hs_out _ _ _ _ _ Hh t Hn) as [_ Hw]. unfold waits in Hw. by rewrite Hta in Hw. }
  assert (Hh' : holds l (upd t (Some (wait_of a)) (waits th)) h).
  { eapply holds_ext; [|done|exact Hh]. intros u. unfold upd. case_decide; [|done]. subst. unfold waits. by rewrite Hta. }
  unfold lock_continue in Hrun. rewrite run_bind in Hrun. cbn [gets sys_threads] in Hrun. rewrite Hta in Hrun.
  pose proof (attentive_delete _ _ t Ha) as Hd. destruct a as [w|w|w]; cbn [wait_of] in *; [by eapply resume_inv| |done].
  unfold spun in Hrun. rewrite run_bind in Hrun. cbn [gets sys_lock] in Hrun. destruct (sleeps w l && blocked w l) eqn:E; [|by eapply resume_inv].
  apply andb_true_iff in E as [_ Hb]. injection Hrun as <- <-. replace (after_wait w Waits (h t)) with (h t) by (by destruct w). by apply sleep_inv.
Qed.

(** ** Releasing *)

Lemma wake_run cond l th :
  wake_waiting cond (mk_lock_system l th) = Some (tt,
    if waiting l && cond l then mk_lock_system (set_waiting false l) (wake <$> th) else mk_lock_system l th).
Proof. unfold wake_waiting. rewrite run_bind. cbn [gets sys_lock]. by destruct (waiting l && cond l). Qed.

Lemma wake_inv cond l th h s' :
  holds l (waits th) h -> (waiting l = true -> cond l = false -> attentive l th) -> (waiting l = false -> attentive l th) ->
  wake_waiting cond (mk_lock_system l th) = Some (tt, s') -> lock_inv (s', h).
Proof.
  intros Hh H1 H2 Hrun. rewrite wake_run in Hrun. injection Hrun as <-. destruct (waiting l) eqn:Ew; cbn [andb].
  - destruct (cond l) eqn:Ec; [|by split; auto]. eapply inv_intro; [|intros u; by rewrite <- waits_wake|done|apply attentive_wake].
    by apply (holds_same ts nest l).
  - split; auto.
Qed.

Lemma attentive_reads l l' th :
  attentive l th -> waiting l' = waiting l -> want_write l' = want_write l -> want_upgrade l' = want_upgrade l ->
  (read_count l' =? 0) = false -> attentive l' th.
Proof.
  intros Ha Hw H1 H2 H3. eapply attentive_mono; [exact Ha|done|]. intros w Hb. destruct w; cbn in *; by rewrite ?H1, ?H2, ?H3.
Qed.

(** While there is a writer only the bits count. *)
Lemma attentive_writer l l' th h t :
  holds l (waits th) h -> h_write (h t) <> None -> attentive l th ->
  waiting l' = waiting l -> want_write l' = want_write l -> want_upgrade l' = want_upgrade l -> attentive l' th.
Proof.
  intros Hh Hwr Ha Hw H1 H2 u w Hu. destruct (Ha u w Hu) as [Hwait Hb]. split; [congruence|].
  assert (Hwu : waits th u = Some w) by (unfold waits; by rewrite Hu).
  assert (Hnu : h u = nothing) by (apply (hs_idle _ _ _ _ _ Hh); by rewrite Hwu).
  assert (Hne : u <> t) by (intros ->; by rewrite Hnu in Hwr).
  destruct (h_write (h t)) as [m|] eqn:Em; [|done].
  assert (Hct : claim (waits th t) (h t) = Some m) by (unfold claim; by rewrite Em).
  assert (Huniq : claim (waits th u) (h u) <> Some m).
  { intros Hcu. destruct m; [pose proof (hs_write _ _ _ _ _ Hh) as Hc|pose proof (hs_upgrade _ _ _ _ _ Hh) as Hc];
      rewrite (claimed_true _ _ _ _ Hc Hct) in Hc; destruct Hc as [v Hv]; apply Hv in Hcu, Hct; congruence. }
  rewrite Hwu, Hnu in Huniq. destruct w; cbn in *; rewrite ?H1, ?H2; try done.
  - destruct m; [done|]. rewrite (claimed_true _ _ _ _ (hs_upgrade _ _ _ _ _ Hh) Hct). by rewrite orb_true_r.
  - destruct m; [|done]. assert (Hcu : claim (waits th u) (h u) = Some ByUpgrade) by (by rewrite Hwu, Hnu).
    pose proof (claimed_true _ _ _ _ (hs_upgrade _ _ _ _ _ Hh) Hcu). pose proof (hs_order _ _ _ _ _ Hh t Em). congruence.
  - destruct m; [|done]. assert (Hcu : claim (waits th u) (h u) = Some ByUpgrade) by (by rewrite Hwu, Hnu).
    pose proof (claimed_true _ _ _ _ (hs_upgrade _ _ _ _ _ Hh) Hcu). pose proof (hs_order _ _ _ _ _ Hh t Em). congruence.
Qed.

Lemma set_read_count_id l n : read_count l = n -> 0 <= n < 65536 -> set_read_count n l = l.
Proof. intros <- Hr. destruct l. unfold set_read_count, u16. cbn in *. by rewrite Z.mod_small. Qed.

Lemma writer_of h : hold_ok nest h -> h <> nothing -> h_reads h = O -> h_write h <> None.
Proof.
  intros [_ _ H3 H4] Hn Hr Hw. destruct h as [r d m b]. cbn in *. subst. destruct d; [|by destruct H3]. destruct b; [|done].
  by destruct (H4 eq_refl).
Qed.

Section call.
Context (l : lock) (th : gmap Z lock_activity) (h : Z -> hold) (t : Z).
Hypothesis Hinv : lock_inv (mk_lock_system l th, h).
Hypothesis Ht : t ∈ ts.
Hypothesis Hout : th !! t = None.

Lemma call_holds : holds l (waits th) h.
Proof. apply Hinv. Qed.
Lemma call_attentive : attentive l th.
Proof. apply Hinv. Qed.
Lemma call_idle : waits th t = None.
Proof. unfold waits. by rewrite Hout. Qed.

Lemma unchanged_inv : lock_inv (mk_lock_system l th, upd t (h t) h).
Proof. eapply inv_intro; [apply call_holds|done|intros u; by rewrite upd_same|apply call_attentive]. Qed.

Lemma done_inv s' :
  allowed nest CallDone (h t) -> lock_done (mk_lock_system l th) = Some (tt, s') -> lock_inv (s', upd t (released (h t)) h).
Proof.
  intros [Hn Hr] Hrun. unfold lock_done in Hrun. rewrite run_bind in Hrun. cbn [update_lock modify sys_lock sys_threads] in Hrun.
  pose proof call_holds as Hh. pose proof call_attentive as Ha. pose proof (held_reads _ _ Hmany _ _ _ _ Hh Ht) as Hrd.
  destruct (h_reads (h t)) as [|n] eqn:En.
  - pose proof (writer_of _ (hs_ok _ _ _ _ _ Hh t) Hn En) as Hwr.
    destruct (held_alone _ _ Hnd _ _ _ _ Hh Ht Hwr) as [E1 E2]. rewrite En in E1. change (Z.of_nat 0) with 0 in E1. rewrite E1 in Hrun. cbn [Z.eqb negb] in Hrun.
    assert (Hh' : holds (if negb (recursion_depth l =? 0) then set_depth (recursion_depth l - 1) l
      else if want_upgrade l then set_want_upgrade false l else set_want_write false l) (waits th) (upd t (released (h t)) h)).
    { replace (released (h t)) with (less_write (with_reads 0 (h t))) by (unfold released; rewrite En; destruct (h t); cbn in *; by subst).
      eapply holds_less_write; [done..|exact Hh|exact Ht|exact call_idle|exact Hwr|lia| |].
      - intros Hx. specialize (Hr Hx). unfold released in Hr. rewrite En in Hr. destruct (h t). cbn in *. by subst.
      - cbn zeta. change (Z.of_nat 0) with 0. by rewrite (set_read_count_id l 0) by (done || lia). }
    eapply wake_inv; [exact Hh'| | |exact Hrun].
    + intros _ Hc. exfalso. apply Z.eqb_neq in Hc. apply Hc. by destruct (negb _); [|destruct (want_upgrade l)].
    + intros Hw. eapply attentive_quiet; [exact Ha|]. revert Hw. by destruct (negb _); [|destruct (want_upgrade l)].
  - rewrite (proj2 (Z.eqb_neq (read_count l) 0)) in Hrun by lia. cbn [negb] in Hrun.
    eapply wake_inv; [| | |exact Hrun].
    + unfold released. rewrite En. eapply holds_less_read; [done..|exact Hh|exact Ht|exact call_idle|exact En| |done].
      intros Hx. specialize (Hr Hx). unfold released in Hr. by rewrite En in Hr.
    + intros _ Hc. by apply (attentive_reads l).
    + intros Hw. by eapply attentive_quiet.
Qed.

Lemma write_to_read_inv s' :
  allowed nest CallWriteToRead (h t) -> lock_write_to_read (mk_lock_system l th) = Some (tt, s') ->
  lock_inv (s', upd t (less_write (with_reads (S (h_reads (h t))) (h t))) h).
Proof.
  intros [Hwr Hr] Hrun. unfold lock_write_to_read in Hrun. rewrite !run_bind in Hrun. cbn [update_lock modify sys_lock sys_threads] in Hrun.
  rewrite run_bind in Hrun. cbn [update_lock modify sys_lock sys_threads] in Hrun.
  pose proof call_holds as Hh. destruct (held_alone _ _ Hnd _ _ _ _ Hh Ht Hwr) as [E1 E2].
  eapply wake_inv; [| | |exact Hrun].
  - eapply holds_less_write; [done..|exact Hh|exact Ht|exact call_idle|exact Hwr|lia| |].
    + intros Hx. unfold less_write. cbn. by destruct (h_depth (h t)).
    + cbn zeta. replace (Z.of_nat (S (h_reads (h t)))) with (read_count l + 1) by lia. done.
  - done.
  - intros Hw. eapply attentive_quiet; [exact call_attentive|]. revert Hw. cbn. by destruct (negb _); [|destruct (want_upgrade l)].
Qed.

(** A writer that takes the lock again. *)
Lemma deeper_inv n l' :
  h_recursive (h t) = true -> h_write (h t) <> None -> (h_depth (h t) < nest)%nat -> (n <= h_reads (h t))%nat ->
  l' = set_depth (recursion_depth l + 1) (set_read_count (read_count l + Z.of_nat n - Z.of_nat (h_reads (h t))) l) ->
  lock_inv (mk_lock_system l' th, upd t (with_depth (S (h_depth (h t))) (with_reads n (h t))) h).
Proof.
  intros Hr Hwr Hd Hn ->. pose proof call_holds as Hh. split; cbn [fst snd sys_lock sys_threads].
  - eapply holds_deeper; first [exact Hh|exact Ht|exact call_idle|done].
  - eapply (attentive_writer l); first [exact Hh|exact Hwr|exact call_attentive|done].
Qed.

Lemma more_read_inv :
  (h_reads (h t) < nest)%nat -> (want_write l = false /\ want_upgrade l = false) \/ h t <> nothing ->
  lock_inv (mk_lock_system (set_read_count (read_count l + 1) l) th, upd t (with_reads (S (h_reads (h t))) (h t)) h).
Proof.
  intros Hn Hf. pose proof call_holds as Hh. eapply inv_intro; [eapply holds_more_read; [done..|exact Hh|exact Ht|left; exact call_idle|done|done|done|done]| |done|].
  - intros u. unfold upd. case_decide; [|done]. subst. by rewrite call_idle.
  - eapply attentive_mono; [exact call_attentive|done|]. intros w. apply blocked_more_reads. by eapply held_more_reads.
Qed.

Lemma read_of_recursive : h_recursive (h t) = true -> h t <> nothing.
Proof. apply recursive_holds with nest. apply (hs_ok _ _ _ _ _ call_holds). Qed.

Lemma same_counts : set_depth (recursion_depth l + 1) (set_read_count (read_count l + Z.of_nat (h_reads (h t)) - Z.of_nat (h_reads (h t))) l) =
  set_depth (recursion_depth l + 1) l.
Proof.
  pose proof (held_reads _ _ Hmany _ _ _ _ call_holds Ht). rewrite (set_read_count_id l); [done|lia|lia].
Qed.

Lemma with_reads_id (x : hold) : with_reads (h_reads x) x = x.
Proof. by destruct x. Qed.

(** The first wait of a call. *)
Lemma first_wait w p s' :
  h t = nothing -> w = WantWrite \/ w = WantRead -> resume lock_wait_time t w (mk_lock_system l th) = Some (p, s') ->
  lock_inv (s', upd t (after_wait w p (h t)) h).
Proof.
  intros Hn Hw Hrun. eapply resume_inv; [exact Ht| |apply attentive_delete, call_attentive|exact Hrun].
  eapply holds_wait; [done..|exact call_holds|exact Ht| |done]. rewrite Hn, call_idle. by destruct Hw as [->| ->].
Qed.

Lemma first_upgrade w p s' l' :
  w = Upgrade \/ w = TryUpgrade -> h t = with_reads 1 nothing -> want_upgrade l = false ->
  l' = set_want_upgrade true (set_read_count (read_count l - 1) l) ->
  resume lock_wait_time t w (mk_lock_system l' th) = Some (p, s') -> lock_inv (s', upd t (after_wait w p nothing) h).
Proof.
  intros Hw Hn Hf -> Hrun. pose proof call_holds as Hh.
  pose proof (holds_start_upgrade _ _ Hnd Hno Hnest Hmany _ _ _ _ Hh Ht w _ Hw call_idle Hn Hf eq_refl) as Hh'.
  pose proof (resume_inv t w _ _ _ p s' Ht Hh') as Hres. rewrite upd_eq in Hres.
  destruct Hres as [H1 H2]; [|exact Hrun|].
  - apply attentive_delete. intros u w' Hu. destruct (call_attentive u w' Hu) as [Hx Hb]. split; [done|].
    assert (Hwu : waits th u = Some w') by (unfold waits; by rewrite Hu).
    assert (Hnu : h u = nothing) by (apply (hs_idle _ _ _ _ _ Hh); by rewrite Hwu).
    assert (Hno' : claim (waits th u) (h u) <> Some ByUpgrade).
    { pose proof (hs_upgrade _ _ _ _ _ Hh) as Hc. rewrite Hf in Hc. apply Hc. }
    rewrite Hwu, Hnu in Hno'. destruct w'; cbn in *; rewrite ?orb_true_r; done.
  - split; [|done]. eapply holds_ext; [done| |exact H1]. intros u. cbn [snd]. by rewrite upd_upd.
Qed.

Lemma resume_value w p r s s' : w <> Upgrade -> resume lock_wait_time t w s = Some (p, s') -> p = Returns r -> r = true.
Proof.
  intros Hw Hrun ->. destruct s as [l0 th0]. destruct w; try done; cbn [resume] in Hrun; unfold wait_loop in Hrun; rewrite run_bind in Hrun; cbn [gets sys_lock] in Hrun.
  - destruct (negb _); [|destruct (spins _ _); [done|]; destruct (sleeps _ _); done]. rewrite run_bind in Hrun. cbn [update_lock modify sys_lock sys_threads] in Hrun.
    rewrite run_bind in Hrun. cbn [gets sys_lock] in Hrun. destruct (negb _); [|destruct (spins _ _); [done|]; destruct (sleeps _ _); done]. by injection Hrun as <- _.
  - destruct (negb _); [|destruct (spins _ _); [done|]; destruct (sleeps _ _); done]. by injection Hrun as <- _.
  - destruct (negb _); [|destruct (spins _ _); [done|]; destruct (sleeps _ _); done]. by injection Hrun as <- _.
  - destruct (negb _); [|destruct (spins _ _); [done|]; destruct (sleeps _ _); done]. by injection Hrun as <- _.
Qed.

Lemma resume_upgrade_value p r s s' : resume lock_wait_time t Upgrade s = Some (p, s') -> p = Returns r -> r = false.
Proof.
  intros Hrun ->. cbn [resume] in Hrun. unfold wait_loop in Hrun; rewrite run_bind in Hrun; cbn [gets sys_lock] in Hrun.
  destruct (negb _); [|destruct (spins _ _); [done|]; destruct (sleeps _ _); done]. by injection Hrun as <- _.
Qed.

Lemma lock_write_inv p s' :
  allowed nest CallWrite (h t) -> lock_write lock_wait_time t (mk_lock_system l th) = Some (p, s') ->
  lock_inv (s', upd t (after_call CallWrite p (h t)) h).
Proof.
  intros Hal Hrun. unfold lock_write in Hrun. rewrite run_bind in Hrun. cbn [gets sys_lock] in Hrun.
  rewrite (held_recursive _ _ Hno _ _ _ _ call_holds Ht) in Hrun. destruct (h_recursive (h t)) eqn:Hr.
  - destruct Hal as [Hn|(_ & Hwr & Hd)]; [by rewrite Hn in Hr|]. injection Hrun as <- <-. cbn. unfold more_write. rewrite Hr.
    pose proof (deeper_inv (h_reads (h t)) _ Hr Hwr Hd (le_n _) eq_refl) as Hi. by rewrite same_counts, with_reads_id in Hi.
  - destruct Hal as [Hn|(Hx & _)]; [|congruence]. pose proof (first_wait WantWrite p s' Hn ltac:(by left) Hrun) as Hi.
    destruct p; cbn in *; [|done]. unfold more_write. by rewrite Hr.
Qed.

Lemma lock_read_inv p s' :
  allowed nest CallRead (h t) -> lock_read lock_wait_time t (mk_lock_system l th) = Some (p, s') ->
  lock_inv (s', upd t (after_call CallRead p (h t)) h).
Proof.
  intros Hal Hrun. unfold lock_read in Hrun. rewrite run_bind in Hrun. cbn [gets sys_lock] in Hrun.
  rewrite (held_recursive _ _ Hno _ _ _ _ call_holds Ht) in Hrun. destruct (h_recursive (h t)) eqn:Hr.
  - destruct Hal as [Hn|(_ & Hd)]; [by rewrite Hn in Hr|]. injection Hrun as <- <-. apply more_read_inv; [done|]. right. by apply read_of_recursive.
  - destruct Hal as [Hn|(Hx & _)]; [|congruence]. pose proof (first_wait WantRead p s' Hn ltac:(by right) Hrun) as Hi. by destruct p.
Qed.

Lemma upgrade_deeper n : h_recursive (h t) = true -> h_write (h t) <> None -> h_reads (h t) = S n -> (h_depth (h t) < nest)%nat ->
  lock_inv (mk_lock_system (set_depth (recursion_depth l + 1) (set_read_count (read_count l - 1) l)) th,
    upd t (more_write ByUpgrade (with_reads n (h t))) h).
Proof.
  intros Hr Hwr Hn Hd. unfold more_write. cbn [h_recursive with_reads]. rewrite Hr. apply deeper_inv; try done; [lia|]. do 2 f_equal. lia.
Qed.

Lemma read_to_write_inv p s' :
  allowed nest CallReadToWrite (h t) -> lock_read_to_write lock_wait_time t (mk_lock_system l th) = Some (p, s') ->
  lock_inv (s', upd t (after_call CallReadToWrite p (h t)) h).
Proof.
  intros Hal Hrun. unfold lock_read_to_write in Hrun. rewrite run_bind in Hrun. cbn [update_lock modify sys_lock sys_threads] in Hrun.
  rewrite run_bind in Hrun. cbn [gets sys_lock lk_thread set_read_count] in Hrun. fold (set_read_count (read_count l - 1) l) in Hrun.
  rewrite (held_recursive _ _ Hno _ _ _ _ call_holds Ht) in Hrun. destruct (h_recursive (h t)) eqn:Hr.
  - destruct Hal as [Hn|(_ & Hwr & Hn & Hd)]; [by rewrite Hn in Hr|]. injection Hrun as <- <-. cbn [after_call].
    destruct (h_reads (h t)) as [|n] eqn:En; [done|]. by apply upgrade_deeper.
  - destruct Hal as [Hn|(Hx & _)]; [|congruence]. change (want_upgrade (set_read_count (read_count l - 1) l)) with (want_upgrade l) in Hrun. destruct (want_upgrade l) eqn:Hup.
    + rewrite run_bind, wake_run in Hrun. injection Hrun as <- <-. cbn [after_call]. rewrite Hn. cbn [h_reads with_reads pred].
      eapply (wake_inv (fun l => read_count l =? 0) (set_read_count (read_count l - 1) l) th); [| | |by rewrite wake_run].
      * replace (with_reads 0 (with_reads 1 nothing)) with (with_reads 0 (h t)) by (by rewrite Hn).
        eapply holds_less_read; first [exact call_holds|exact Ht|exact call_idle|done|by rewrite Hn].
      * intros _ Hc. by apply (attentive_reads l); [apply call_attentive|..].
      * intros Hw. by eapply attentive_quiet; [apply call_attentive|].
    + rewrite run_bind in Hrun. cbn [update_lock modify sys_lock sys_threads] in Hrun.
      pose proof (first_upgrade Upgrade p s' _ ltac:(by left) Hn Hup eq_refl Hrun) as Hi. rewrite Hn.
      destruct p as [r|]; [|exact Hi]. by rewrite (resume_upgrade_value _ _ _ _ Hrun eq_refl).
Qed.

Lemma try_write_inv p s' :
  allowed nest CallTryWrite (h t) -> lock_try_write t (mk_lock_system l th) = Some (p, s') ->
  lock_inv (s', upd t (after_call CallTryWrite p (h t)) h).
Proof.
  intros Hal Hrun. unfold lock_try_write in Hrun. rewrite run_bind in Hrun. cbn [gets sys_lock] in Hrun.
  rewrite (held_recursive _ _ Hno _ _ _ _ call_holds Ht) in Hrun. destruct (h_recursive (h t)) eqn:Hr.
  - destruct Hal as [Hn|(Hwr & Hd)]; [congruence|]. injection Hrun as <- <-. cbn. unfold more_write. rewrite Hr.
    pose proof (deeper_inv (h_reads (h t)) _ Hr Hwr Hd (le_n _) eq_refl) as Hi. by rewrite same_counts, with_reads_id in Hi.
  - destruct (want_write l || want_upgrade l || negb (read_count l =? 0)) eqn:Hf; injection Hrun as <- <-; [apply unchanged_inv|].
    apply orb_false_iff in Hf as [[Hw Hu]%orb_false_iff H0%negb_false_iff]. cbn. unfold more_write. rewrite Hr.
    pose proof call_holds as Hh. pose proof (proj1 (Z.eqb_eq _ _) H0) as Hz.
    assert (Hn : h t = nothing).
    { destruct (decide (h t = nothing)) as [|Hx]; [done|]. destruct (writer_of _ (hs_ok _ _ _ _ _ Hh t) Hx); [by eapply held_no_readers|by eapply free_no_writer]. }
    pose proof (holds_bit _ _ Hnd Hno _ _ _ _ Hh Ht Hn ltac:(left; exact call_idle) Hw) as Hb.
    eapply inv_intro; [eapply holds_win_write; [done..|exact Hb|exact Ht|by rewrite upd_eq|cbn; by rewrite H0, Hu]| |done|].
    + intros u. rewrite upd_upd. unfold upd. case_decide; [subst; by rewrite call_idle|done].
    + eapply attentive_mono; [apply call_attentive|done|]. intros [] HH; cbn in *; by rewrite ?HH, ?orb_true_r.
Qed.

Lemma try_read_inv p s' :
  allowed nest CallTryRead (h t) -> lock_try_read t (mk_lock_system l th) = Some (p, s') ->
  lock_inv (s', upd t (after_call CallTryRead p (h t)) h).
Proof.
  intros Hal Hrun. unfold lock_try_read in Hrun. rewrite run_bind in Hrun. cbn [gets sys_lock] in Hrun.
  rewrite (held_recursive _ _ Hno _ _ _ _ call_holds Ht) in Hrun. destruct (h_recursive (h t)) eqn:Hr.
  - injection Hrun as <- <-. apply more_read_inv; [done|]. right. by apply read_of_recursive.
  - destruct (want_write l || want_upgrade l) eqn:Hf; injection Hrun as <- <-; [apply unchanged_inv|].
    apply orb_false_iff in Hf as [Hw Hu]. apply more_read_inv; [done|]. by left.
Qed.

Lemma try_read_to_write_inv p s' :
  allowed nest CallTryReadToWrite (h t) -> lock_try_read_to_write lock_wait_time t (mk_lock_system l th) = Some (p, s') ->
  lock_inv (s', upd t (after_call CallTryReadToWrite p (h t)) h).
Proof.
  intros Hal Hrun. unfold lock_try_read_to_write in Hrun. rewrite run_bind in Hrun. cbn [gets sys_lock] in Hrun.
  rewrite (held_recursive _ _ Hno _ _ _ _ call_holds Ht) in Hrun. destruct (h_recursive (h t)) eqn:Hr.
  - destruct Hal as [Hn|(_ & Hwr & Hn & Hd)]; [by rewrite Hn in Hr|]. injection Hrun as <- <-. cbn [after_call].
    destruct (h_reads (h t)) as [|n] eqn:En; [done|]. by apply upgrade_deeper.
  - destruct Hal as [Hn|(Hx & _)]; [|congruence]. destruct (want_upgrade l) eqn:Hup; [injection Hrun as <- <-; apply unchanged_inv|].
    rewrite run_bind in Hrun. cbn [update_lock modify sys_lock sys_threads] in Hrun.
    rewrite run_bind in Hrun. cbn [update_lock modify sys_lock sys_threads] in Hrun.
    pose proof (first_upgrade TryUpgrade p s' _ ltac:(by right) Hn Hup eq_refl Hrun) as Hi. rewrite Hn.
    destruct p as [r|]; [|exact Hi]. by rewrite (resume_value TryUpgrade _ _ _ _ ltac:(done) Hrun eq_refl).
Qed.

Lemma set_recursive_inv s' :
  allowed nest CallSetRecursive (h t) -> lock_set_recursive t (mk_lock_system l th) = Some (tt, s') ->
  lock_inv (s', upd t (with_recursive true (h t)) h).
Proof.
  intros Hwr Hrun. unfold lock_set_recursive in Hrun. rewrite run_bind in Hrun. cbn [gets sys_lock] in Hrun.
  destruct (want_write l); [|done]. injection Hrun as <-. split; cbn [fst snd sys_lock sys_threads].
  - by apply holds_set_recursive; [..|apply call_holds| |apply call_idle|].
  - by eapply attentive_mono; [apply call_attentive|..].
Qed.

Lemma depth_own : h_recursive (h t) = true -> recursion_depth l = Z.of_nat (h_depth (h t)).
Proof.
  intros Hr. pose proof call_holds as Hh. destruct (h_write (h t)) as [m|] eqn:Em.
  - by apply (held_alone _ _ Hnd _ _ _ _ Hh Ht); rewrite Em.
  - rewrite (held_depth _ _ Hnd _ _ _ _ Hh Ht Em); [|by eapply held_no_writer, read_of_recursive].
    destruct (h_depth (h t)) eqn:Ed; [done|]. by destruct (ho_writes _ _ (hs_ok _ _ _ _ _ Hh t)); rewrite ?Ed.
Qed.

Lemma clear_recursive_inv s' :
  allowed nest CallClearRecursive (h t) -> lock_clear_recursive t (mk_lock_system l th) = Some (tt, s') ->
  lock_inv (s', upd t (if decide (h_depth (h t) = O) then with_recursive false (h t) else h t) h).
Proof.
  intros Hr Hrun. unfold lock_clear_recursive in Hrun. rewrite run_bind in Hrun. cbn [gets sys_lock] in Hrun.
  destruct (negb _); [done|]. rewrite (depth_own Hr) in Hrun.
  destruct (decide _) as [E|E]; [rewrite E in Hrun|rewrite (proj2 (Z.eqb_neq _ _)) in Hrun by lia]; injection Hrun as <-; [|apply unchanged_inv].
  split; cbn [fst snd sys_lock sys_threads].
  - by apply holds_clear_recursive; [..|apply call_holds| |apply call_idle|].
  - by eapply attentive_mono; [apply call_attentive|..].
Qed.

Lemma call_inv c p s' :
  allowed nest c (h t) -> lock_perform lock_wait_time t c (mk_lock_system l th) = Some (p, s') ->
  lock_inv (s', upd t (after_call c p (h t)) h).
Proof.
  intros Hal Hrun. destruct c; cbn [lock_perform] in Hrun.
  - by apply lock_write_inv.
  - by apply lock_read_inv.
  - rewrite run_bind in Hrun. destruct (lock_done _) as [[[] s1]|] eqn:E; [|done]. injection Hrun as <- <-. by apply done_inv.
  - by apply read_to_write_inv.
  - rewrite run_bind in Hrun. destruct (lock_write_to_read _) as [[[] s1]|] eqn:E; [|done]. injection Hrun as <- <-. by apply write_to_read_inv.
  - by apply try_write_inv.
  - by apply try_read_inv.
  - by apply try_read_to_write_inv.
  - rewrite run_bind in Hrun. destruct (lock_set_recursive _ _) as [[[] s1]|] eqn:E; [|done]. injection Hrun as <- <-. by apply set_recursive_inv.
  - rewrite run_bind in Hrun. destruct (lock_clear_recursive _ _) as [[[] s1]|] eqn:E; [|done]. injection Hrun as <- <-. by apply clear_recursive_inv.
  - injection Hrun as <- <-. cbn [after_call]. eapply (inv_intro _ _ (waits th) h); [|done|intros u; by rewrite upd_same|].
    + by apply (holds_same ts nest l); [apply call_holds|..].
    + by eapply attentive_mono; [apply call_attentive|..]; [|intros []].
Qed.
End call.

(** ** Reachable states *)

Lemma fresh_inv b : lock_inv (lock_fresh b).
Proof.
  assert (Hz : forall f, f nothing = O -> total ts f (fun _ => nothing) = 0).
  { intros f Hf. unfold total. rewrite Hf. clear. induction ts; simpl; [done|lia]. }
  split; [|intros t w; cbn; by rewrite lookup_empty]. split; cbn [fst snd lock_fresh sys_lock sys_threads lock_init]; try done.
  - by rewrite Hz.
  - by rewrite Hz.
  - intros t. split; cbn; try done; lia.
Qed.

Lemma step_inv s s' : lock_inv s -> lock_step lock_wait_time ts nest s s' -> lock_inv s'.
Proof.
  intros Hi Hs. destruct Hs as [[l th] h t c p s' Ht Hout Hal Hrun|s h t a p s' Hta Hrun]; [by apply (call_inv l th h t)|by eapply continue_inv].
Qed.

Lemma reachable_inv s : lock_reachable lock_wait_time ts nest s -> lock_inv s.
Proof. intros [b Hr]. pose proof (fresh_inv b) as Hi. induction Hr as [|x y z Hxy _ IH]; [done|]. apply IH. by eapply step_inv. Qed.
End steps.
