(* ===== verification/LockView.v ===== *)
(** * What a lock is for others, and who keeps them waiting *)

From S2P Require Import Prelude Names Splay Table Space World Vm Lock LockInv LockSteps.

(** ** What the lock is for others *)

Definition readers (n : nat) : lock_state := match n with O => Unlocked | S _ => ReadLocked n end.

Definition writing (h : hold) : bool := match h_write h with Some _ => true | None => false end.

(** The lock as address maps see it. *)
Definition lock_view (ts : list Z) (h : Z -> hold) : lock_state :=
  if existsb (fun t => writing (h t)) ts then WriteLocked else readers (sum_list_with (fun t => h_reads (h t)) ts).

(** The turns of such a lock. *)
Inductive lock_turn : lock_state -> lock_state -> Prop :=
| turn_none x : lock_turn x x
| turn_write : lock_turn Unlocked WriteLocked
| turn_read n : lock_turn (readers n) (readers (S n))
| turn_upgrade : lock_turn (ReadLocked 1) WriteLocked
| turn_read_done n : lock_turn (readers (S n)) (readers n)
| turn_write_done : lock_turn WriteLocked Unlocked
| turn_downgrade n : lock_turn WriteLocked (readers (S n)).

(** How what one thread holds changes. *)
Inductive hold_turn : hold -> hold -> Prop :=
| held_same x y : h_reads y = h_reads x -> h_write y = h_write x -> hold_turn x y
| held_write x y : h_reads x = O -> h_write x = None -> h_reads y = O -> h_write y <> None -> hold_turn x y
| held_upgrade x y : h_reads x = 1%nat -> h_write x = None -> h_reads y = O -> h_write y <> None -> hold_turn x y
| held_read x y : h_reads y = S (h_reads x) -> h_write y = h_write x -> hold_turn x y
| held_read_done x y : h_reads x = S (h_reads y) -> h_write y = h_write x -> hold_turn x y
| held_write_done x y : h_write x <> None -> h_write y = None -> h_reads y = O -> hold_turn x y
| held_downgrade x y n : h_write x <> None -> h_write y = None -> h_reads y = S n -> hold_turn x y.

Lemma less_write_turn x : h_reads x = O -> h_write x <> None -> hold_turn x (less_write x).
Proof. intros Hr Hw. unfold less_write. destruct (h_depth x); [by apply held_write_done|by apply held_same]. Qed.

Lemma wait_turn w p : hold_turn nothing (after_wait w p nothing).
Proof. destruct w, p; cbn; first [by apply held_same|by apply held_write|by apply held_read]. Qed.

Lemma released_turn nest x : hold_ok nest x -> x <> nothing -> hold_turn x (released x).
Proof.
  intros Hok Hn. unfold released. destruct (h_reads x) eqn:E; [apply less_write_turn; [done|by eapply writer_of]|by apply held_read_done].
Qed.

Lemma downgrade_turn x : h_write x <> None -> hold_turn x (less_write (with_reads (S (h_reads x)) x)).
Proof. intros Hw. unfold less_write. cbn. destruct (h_depth x); [by eapply held_downgrade|by apply held_read]. Qed.

Lemma write_turn x : h_recursive x = true \/ x = nothing -> hold_turn x (more_write ByWrite x).
Proof. intros [Hr| ->]; [unfold more_write; rewrite Hr; by apply held_same|by apply held_write]. Qed.

Lemma upgrade_turn nest x : allowed nest CallReadToWrite x ->
  hold_turn x (more_write ByUpgrade (with_reads (pred (h_reads x)) x)) /\ hold_turn x (with_reads (pred (h_reads x)) x).
Proof.
  intros [->|(Hr & Hw & Hn & _)]; [split; [by apply held_upgrade|by apply held_read_done]|]. unfold more_write. cbn. rewrite Hr.
  split; apply held_read_done; cbn; done || lia.
Qed.

Lemma call_turn nest c p x : hold_ok nest x -> allowed nest c x -> (c = CallTryWrite -> p = Returns true -> h_recursive x = true \/ x = nothing) ->
  hold_turn x (after_call c p x).
Proof.
  intros Hok Hal Htry.
  destruct c, p as [[]|]; cbn [after_call]; try (by apply held_same); try (by apply held_read); try (by apply (upgrade_turn nest));
    try (by eapply released_turn; [exact Hok|apply Hal]); try (by apply downgrade_turn, Hal); try (by case_decide; apply held_same);
    apply write_turn; try (by auto); destruct Hal as [?|[? _]]; auto.
Qed.

Section view.
Context (ts : list Z) (h : Z -> hold) (t : Z) (x : hold).
Hypothesis Hnd : NoDup ts.
Hypothesis Ht : t ∈ ts.

Definition alone (h : Z -> hold) : Prop := forall u v, h_write (h u) <> None -> v <> u -> h v = nothing.

Lemma view_writer (g : Z -> hold) u : u ∈ ts -> h_write (g u) <> None -> lock_view ts g = WriteLocked.
Proof.
  intros Hu Hw. unfold lock_view. rewrite (proj2 (existsb_exists _ _)); [done|]. exists u. split; [by apply list_elem_of_In|].
  unfold writing. by destruct (h_write (g u)).
Qed.

Lemma view_of (g : Z -> hold) : (forall u, u ∈ ts -> u <> t -> h_write (g u) = None) ->
  lock_view ts g = match h_write (g t) with Some _ => WriteLocked | None => readers (sum_list_with (fun u => h_reads (g u)) ts) end.
Proof.
  intros Hn. destruct (h_write (g t)) eqn:Et; [by apply (view_writer g t); rewrite ?Et|]. unfold lock_view. destruct (existsb _ ts) eqn:E; [|done].
  apply existsb_exists in E as (u & Hu%list_elem_of_In & Hw). unfold writing in Hw. destruct (decide (u = t)) as [->|Hne]; [by rewrite Et in Hw|by rewrite Hn in Hw].
Qed.

Lemma reads_alone (g : Z -> hold) : alone g -> h_write (g t) <> None -> forall y, sum_list_with (fun u => h_reads (upd t y g u)) ts = h_reads y.
Proof.
  intros Ha Hw y. pose proof (total_one ts Hnd h_reads (upd t y g) t Ht) as Hone. unfold total in Hone. rewrite upd_eq in Hone.
  apply Nat2Z.inj, Hone. intros u Hu. rewrite upd_ne by done. by rewrite (Ha t u).
Qed.

Lemma view_turn : alone h -> alone (upd t x h) -> hold_turn (h t) x -> lock_turn (lock_view ts h) (lock_view ts (upd t x h)).
Proof.
  intros Ha Ha' Hx. pose proof (sum_upd h_reads ts t x h Hnd Ht) as Hsum.
  destruct (existsb (fun u => bool_decide (u <> t) && writing (h u)) ts) eqn:Ew.
  { apply existsb_exists in Ew as (u & Hu%list_elem_of_In & [Hne%bool_decide_eq_true Hw]%andb_true_iff).
    assert (Hwu : h_write (h u) <> None) by (unfold writing in Hw; by destruct (h_write (h u))).
    rewrite (view_writer h u), (view_writer (upd t x h) u) by (rewrite ?upd_ne by done; done). apply turn_none. }
  assert (Hno : forall u, u ∈ ts -> u <> t -> h_write (h u) = None).
  { intros u Hu Hne. destruct (h_write (h u)) eqn:E; [|done]. assert (Hf : existsb (fun u => bool_decide (u <> t) && writing (h u)) ts = true); [|congruence].
    apply existsb_exists. exists u. split; [by apply list_elem_of_In|]. rewrite bool_decide_eq_true_2 by done. unfold writing. by rewrite E. }
  assert (Hend : forall y, sum_list_with (fun u => h_reads (upd t y (upd t x h) u)) ts = sum_list_with (fun u => h_reads (upd t y h u)) ts).
  { intros y. clear. induction ts as [|u l IH]; [done|]. simpl. by rewrite upd_upd, IH. }
  rewrite (view_of h Hno), (view_of (upd t x h)) by (intros u Hu Hne; rewrite upd_ne by done; by apply Hno). rewrite upd_eq.
  assert (Hwx : h_write x <> None -> sum_list_with (fun u => h_reads (h u)) ts = h_reads (h t)).
  { intros Hw. pose proof (reads_alone (upd t x h) Ha' ltac:(by rewrite upd_eq) x) as Hr. rewrite Hend in Hr. lia. }
  assert (Hwt : h_write (h t) <> None -> sum_list_with (fun u => h_reads (upd t x h u)) ts = h_reads x).
  { intros Hw. by apply (reads_alone h). }
  inversion Hx as [? ? E1 E2|? ? E1 E2 E3 E4|? ? E1 E2 E3 E4|? ? E1 E2|? ? E1 E2|? ? E1 E2 E3|? ? n E1 E2 E3]; subst.
  - rewrite E2. destruct (h_write (h t)); [apply turn_none|]. replace (sum_list_with _ ts) with (sum_list_with (fun u => h_reads (upd t x h u)) ts) by lia. apply turn_none.
  - rewrite E2, Hwx, E1 by done. destruct (h_write x); [apply turn_write|done].
  - rewrite E2, Hwx, E1 by done. destruct (h_write x); [apply turn_upgrade|done].
  - rewrite E2. destruct (h_write (h t)); [apply turn_none|].
    replace (sum_list_with (fun u => h_reads (upd t x h u)) ts) with (S (sum_list_with (fun u => h_reads (h u)) ts)) by lia. apply turn_read.
  - rewrite E2. destruct (h_write (h t)); [apply turn_none|].
    replace (sum_list_with (fun u => h_reads (h u)) ts) with (S (sum_list_with (fun u => h_reads (upd t x h u)) ts)) by lia. apply turn_read_done.
  - rewrite E2, Hwt, E3 by done. destruct (h_write (h t)); [apply turn_write_done|done].
  - rewrite E2, Hwt, E3 by done. destruct (h_write (h t)); [apply turn_downgrade|done].
Qed.
End view.

(** ** Who keeps others waiting *)

(** The thread is inside a routine and can run, or outside and holds the lock. *)
Definition busy (s : lock_system) (h : Z -> hold) (u : Z) : Prop :=
  (exists w, sys_threads s !! u = Some (Awake w) \/ sys_threads s !! u = Some (Spun w)) \/
  (sys_threads s !! u = None /\ h u <> nothing).

Section sleepers.
Context (ts : list Z) (nest : nat) (l : lock) (th : gmap Z lock_activity) (h : Z -> hold).
Hypothesis Hinv : lock_inv ts nest (mk_lock_system l th, h).

Abbreviation somebody := (exists u, busy (mk_lock_system l th) h u).

Lemma holder_busy u : h u <> nothing -> somebody.
Proof.
  destruct Hinv as [Hh _]. intros Hn. exists u. right. cbn in *. split; [|done]. destruct (th !! u) eqn:E; [|done].
  destruct Hn. apply (hs_idle _ _ _ _ _ Hh). unfold waits. by rewrite E.
Qed.

Lemma reader_busy : read_count l <> 0 -> somebody.
Proof.
  destruct Hinv as [Hh _]. cbn in *. intros Hr. rewrite (hs_reads _ _ _ _ _ Hh) in Hr. unfold total in Hr.
  destruct (existsb (fun u => negb (h_reads (h u) =? 0)%nat) ts) eqn:E.
  - apply existsb_exists in E as (u & _ & Hu%negb_true_iff%Nat.eqb_neq). apply (holder_busy u). intros E. by rewrite E in Hu.
  - destruct Hr. clear Hh Hinv. induction ts as [|u us IH]; [done|]. simpl in *. apply orb_false_iff in E as [E%negb_false_iff%Nat.eqb_eq E2].
    rewrite E. by apply IH.
Qed.

(** A thread inside a routine runs, or sleeps for a reason. *)
Lemma inside_busy u w : waits th u = Some w -> (blocked w l = true -> somebody) -> somebody.
Proof.
  destruct Hinv as [_ Ha]. unfold waits. intros Hw Hs. destruct (th !! u) as [a|] eqn:E; [|done]. injection Hw as <-.
  destruct a; cbn in *; [exists u; left; eauto..|]. apply Hs. by apply (Ha u).
Qed.

Lemma upgrade_busy : want_upgrade l = true -> somebody.
Proof.
  destruct Hinv as [Hh _]. cbn in *. intros Hu. pose proof (hs_upgrade _ _ _ _ _ Hh) as Hc. rewrite Hu in Hc. destruct Hc as [u Hc].
  specialize (proj2 (Hc u) eq_refl) as Hcu. unfold claim in Hcu. destruct (h_write (h u)) eqn:Ew; [apply (holder_busy u); by intros E; rewrite E in Ew|].
  destruct (waits th u) as [w|] eqn:E; [|done]. apply (inside_busy u w E). intros Hb.
  apply reader_busy. destruct w; try done; cbn in Hb; by apply negb_true_iff, Z.eqb_neq in Hb.
Qed.

Lemma write_busy : want_write l = true -> somebody.
Proof.
  destruct Hinv as [Hh _]. cbn in *. intros Hu. pose proof (hs_write _ _ _ _ _ Hh) as Hc. rewrite Hu in Hc. destruct Hc as [u Hc].
  specialize (proj2 (Hc u) eq_refl) as Hcu. unfold claim in Hcu. destruct (h_write (h u)) eqn:Ew; [apply (holder_busy u); by intros E; rewrite E in Ew|].
  destruct (waits th u) as [w|] eqn:E; [|done]. apply (inside_busy u w E). intros Hb. destruct w; try done; cbn in Hb.
  apply orb_true_iff in Hb as [Hb|Hb]; [apply reader_busy; by apply negb_true_iff, Z.eqb_neq in Hb|by apply upgrade_busy].
Qed.

Lemma blocked_busy w : blocked w l = true -> somebody.
Proof.
  destruct w; cbn; intros Hb.
  - by apply write_busy.
  - apply orb_true_iff in Hb as [Hb|Hb]; [apply reader_busy; by apply negb_true_iff, Z.eqb_neq in Hb|by apply upgrade_busy].
  - apply orb_true_iff in Hb as [Hb|Hb]; [by apply write_busy|by apply upgrade_busy].
  - apply reader_busy. by apply negb_true_iff, Z.eqb_neq in Hb.
  - apply reader_busy. by apply negb_true_iff, Z.eqb_neq in Hb.
Qed.

(** Nobody else is in the way of the last thread inside. *)
Lemma last_free t a : th !! t = Some a -> (forall u, u <> t -> th !! u = None /\ h u = nothing) ->
  (forall w, a <> Asleep w) /\ blocked (wait_of a) l = false /\
  (wait_of a = WantWrite -> blocked WaitReaders (set_want_write true l) = false).
Proof.
  intros Hta Ho. destruct Hinv as [Hh Ha]. cbn in *.
  assert (Hn : forall u, h u = nothing).
  { intros u. destruct (decide (u = t)) as [->|Hne]; [|by apply Ho]. apply (hs_idle _ _ _ _ _ Hh). unfold waits. by rewrite Hta. }
  assert (H0 : read_count l = 0).
  { rewrite (hs_reads _ _ _ _ _ Hh). unfold total. clear -Hn. induction ts as [|u us IH]; [done|]. simpl. rewrite Hn. simpl. exact IH. }
  assert (Hw : wait_of a <> WaitReaders -> want_write l = false).
  { intros Hx. destruct (want_write l) eqn:E; [|done]. pose proof (hs_write _ _ _ _ _ Hh) as Hc. rewrite E in Hc. destruct Hc as [u Hu].
    specialize (proj2 (Hu u) eq_refl) as Hcu. rewrite Hn in Hcu. destruct (decide (u = t)) as [->|Hne].
    - unfold waits in Hcu. rewrite Hta in Hcu. cbn in Hcu. by destruct (wait_of a).
    - destruct (Ho u Hne) as [Eu _]. unfold waits in Hcu. by rewrite Eu in Hcu. }
  assert (Hu : wait_of a <> Upgrade -> wait_of a <> TryUpgrade -> want_upgrade l = false).
  { intros Hx Hy. destruct (want_upgrade l) eqn:E; [|done]. pose proof (hs_upgrade _ _ _ _ _ Hh) as Hc. rewrite E in Hc. destruct Hc as [u Huu].
    specialize (proj2 (Huu u) eq_refl) as Hcu. rewrite Hn in Hcu. destruct (decide (u = t)) as [->|Hne].
    - unfold waits in Hcu. rewrite Hta in Hcu. cbn in Hcu. by destruct (wait_of a).
    - destruct (Ho u Hne) as [Eu _]. unfold waits in Hcu. by rewrite Eu in Hcu. }
  assert (Hb : blocked (wait_of a) l = false) by (destruct (wait_of a) eqn:E; cbn; rewrite ?H0, ?Hw, ?Hu by done; done).
  split_and!; [|done|].
  - intros w ->. cbn in Hb. destruct (Ha t w Hta). congruence.
  - intros E. rewrite E in Hu. cbn. by rewrite H0, Hu.
Qed.
End sleepers.

Lemma continue_returns lock_wait_time t a l th :
  th !! t = Some a -> (forall w, a <> Asleep w) -> blocked (wait_of a) l = false ->
  (wait_of a = WantWrite -> blocked WaitReaders (set_want_write true l) = false) ->
  exists r s', lock_continue lock_wait_time t (mk_lock_system l th) = Some (Returns r, s').
Proof.
  intros Hta Hs Hb H2.
  assert (Hres : exists r s', resume lock_wait_time t (wait_of a) (mk_lock_system l th) = Some (Returns r, s')).
  { destruct (wait_of a) eqn:E; cbn [resume]; unfold wait_loop; rewrite run_bind; cbn [gets sys_lock]; rewrite Hb; cbn [negb]; try (by do 2 eexists).
    rewrite run_bind. cbn [update_lock modify sys_lock sys_threads]. rewrite run_bind. cbn [gets sys_lock]. rewrite H2 by done. by do 2 eexists. }
  unfold lock_continue. rewrite run_bind. cbn [gets sys_threads]. rewrite Hta. destruct a as [w|w|w]; [exact Hres| |by destruct (Hs w)].
  unfold spun. rewrite run_bind. cbn [gets sys_lock wait_of] in *. by rewrite Hb, andb_false_r.
Qed.

(** [lock_try_write] succeeds for a thread that may lock recursively, or for one
    that holds nothing. *)
Lemma try_write_free ts nest l th h t s' :
  NO_THREAD ∉ ts -> t ∈ ts -> lock_inv ts nest (mk_lock_system l th, h) ->
  lock_try_write t (mk_lock_system l th) = Some (Returns true, s') -> h_recursive (h t) = true \/ h t = nothing.
Proof.
  intros Hno Ht [Hh _] Hrun. cbn [fst snd sys_lock sys_threads] in Hh. unfold lock_try_write in Hrun. rewrite run_bind in Hrun. cbn [gets sys_lock] in Hrun.
  rewrite (held_recursive _ _ Hno _ _ _ _ Hh Ht) in Hrun. destruct (h_recursive (h t)); [by left|]. right.
  destruct (want_write l || want_upgrade l || negb (read_count l =? 0)) eqn:Hf; [done|].
  apply orb_false_iff in Hf as [[Hw Hu]%orb_false_iff H0%negb_false_iff%Z.eqb_eq].
  destruct (decide (h t = nothing)) as [|Hx]; [done|]. destruct (writer_of _ _ (hs_ok _ _ _ _ _ Hh t) Hx); [by eapply held_no_readers|by eapply free_no_writer].
Qed.
