(* ===== verification/VmMap.v ===== *)
(** * Address maps: operations (vm/vm_map.c)

    The routines that look up, enter, change and remove the entries of a map,
    translated statement by statement; [map] is the address of a map, and the
    header of its ring has the same address. *)

From S2P Require Import Prelude Names Splay Table Space Hash Entry World Vm.

Definition no_links : vm_map_links := mk_links 0 0 0 0.
Definition no_entry : vm_map_entry := mk_map_entry 0 0 false false false false false 0 0 0 0 0 0.

(** [vm_map_entry_copy]: a copy of an entry is not shared, not in transition
    and not wired. *)
Definition vm_map_entry_copy (e : vm_map_entry) : vm_map_entry :=
  mk_map_entry (vme_object e) (vme_offset e) false (is_sub_map e) false false (needs_copy e) (protection e)
    (max_protection e) (inheritance e) 0 0 (projected_on e).

Definition vm_map_pmap_enter_enable : bool := false.

(** How the search for a hole in a map ends. *)
Inductive space_search :=
| Space (entry start last : Z)
| Wrapped
| NoSpace.

Section map.
Context {St : Type} `{ObjectOps St} (env : vm_env St).

Abbreviation vs := (vmem * St)%type.

(** ** Locks *)

Definition vm_map_lock (map : Z) : M vs unit :=
  v ← map_at map;
  match vm_lock v with
  | Unlocked => update_map map (fun v => set_timestamp (u32 (timestamp v + 1)) (set_lock WriteLocked v))
  | _ => crash
  end.

(** [lock_done], for readers and for a writer. *)
Definition vm_map_unlock (map : Z) : M vs unit :=
  v ← map_at map;
  match vm_lock v with
  | WriteLocked | ReadLocked 1 => update_map map (set_lock Unlocked)
  | ReadLocked (S n) => update_map map (set_lock (ReadLocked n))
  | _ => crash
  end.

Definition vm_map_lock_read (map : Z) : M vs unit :=
  v ← map_at map;
  match vm_lock v with
  | Unlocked => update_map map (set_lock (ReadLocked 1))
  | ReadLocked n => update_map map (set_lock (ReadLocked (S n)))
  | WriteLocked => crash
  end.

Definition vm_map_lock_write_to_read (map : Z) : M vs unit :=
  v ← map_at map;
  match vm_lock v with
  | WriteLocked => update_map map (set_lock (ReadLocked 1))
  | _ => crash
  end.

(** [TRUE]: another thread upgrades its lock, and this one has lost the read
    lock it had. *)
Definition vm_map_lock_read_to_write (map : Z) : M vs bool :=
  lost ← gets (fun st => upgrade_lost env st.1);
  if (lost : bool) then vm_map_unlock map;; modify (vm_others env);; mret true
  else
    v ← map_at map;
    match vm_lock v with
    | ReadLocked 1 =>
      update_map map (fun v => set_timestamp (u32 (timestamp v + 1)) (set_lock WriteLocked v));; mret false
    | _ => crash
    end.

(** The thread waits with the map unlocked. *)
Definition block_unlocked (map : Z) : M vs unit := vm_map_unlock map;; modify (vm_others env).

Definition vm_map_min (map : Z) : M vs Z := start_of map.
Definition vm_map_max (map : Z) : M vs Z := end_of map.

Definition SAVE_HINT (map value : Z) : M vs unit := update_map map (set_hint value).

(** ** Entries *)

Definition _vm_map_entry_create : M vs Z :=
  a ← gets (fun st => zalloc env (vm_links st.1));
  change (fun m => with_entries (<[a := no_entry]> (vm_entries m)) (with_links (<[a := no_links]> (vm_links m)) m));;
  mret a.

Definition _vm_map_entry_dispose (entry : Z) : M vs unit :=
  change (fun m => with_entries (delete entry (vm_entries m)) (with_links (delete entry (vm_links m)) m)).

(** [vm_map_entry_copy_full], the links included. *)
Definition vm_map_entry_copy_full (new old : Z) : M vs unit :=
  k ← vme_links_at old;
  e ← entry_at old;
  update_links new (fun _ => k);;
  update_entry new (fun _ => e).

Definition _vm_map_entry_link (hdr after_where entry : Z) : M vs unit :=
  update_header hdr (fun h => mk_header (nentries h + 1) (entries_pageable h));;
  update_links entry (set_vme_prev after_where);;
  next ← next_of after_where;
  update_links entry (set_vme_next next);;
  next ← next_of entry;
  update_links next (set_vme_prev entry);;
  prev ← prev_of entry;
  update_links prev (set_vme_next entry).

Definition _vm_map_entry_unlink (hdr entry : Z) : M vs unit :=
  update_header hdr (fun h => mk_header (nentries h - 1) (entries_pageable h));;
  next ← next_of entry;
  prev ← prev_of entry;
  update_links next (set_vme_prev prev);;
  prev ← prev_of entry;
  next ← next_of entry;
  update_links prev (set_vme_next next).

Definition vm_map_reference (map : Z) : M vs unit :=
  if map =? VM_MAP_NULL then mret tt
  else update_map map (fun v => set_ref_count (vm_ref_count v + 1) v).

(** ** Lookup *)

(** [while (cur != last)]: [inl cur] is the entry found, [inr cur] the place
    where the search ends. *)
Fixpoint entry_lookup_loop (fuel : nat) (cur last address : Z) : M vs (Z + Z) :=
  if cur =? last then mret (inr cur)
  else
    match fuel with
    | O => crash
    | S fuel =>
      vend ← end_of cur;
      if address <? vend then
        start ← start_of cur;
        if start <=? address then mret (inl cur) else mret (inr cur)
      else
        next ← next_of cur;
        entry_lookup_loop fuel next last address
    end.

Definition search_linearly (map cur last address : Z) : M vs (bool * Z) :=
  fuel ← ring_fuel;
  r ← entry_lookup_loop fuel cur last address;
  match r with
  | inl cur => SAVE_HINT map cur;; mret (true, cur)
  | inr cur => prev ← prev_of cur; SAVE_HINT map prev;; mret (false, prev)
  end.

Definition vm_map_lookup_entry (map address : Z) : M vs (bool * Z) :=
  v ← map_at map;
  cur ← (if vm_hint v =? map then next_of (vm_hint v) else mret (vm_hint v));
  start ← start_of cur;
  if start <=? address then
    vend ← end_of cur;
    if negb (cur =? map) && (address <? vend) then mret (true, cur)
    else search_linearly map cur map address
  else
    last ← next_of cur;
    first ← next_of map;
    search_linearly map first last address.

Definition invalid_user_access (map start last prot : Z) : M vs bool :=
  if (map =? VM_MAP_NULL) || (map =? kernel_map env) then mret true
  else
    r ← vm_map_lookup_entry map start;
    let '(found, entry) := r in
    if negb found then mret true
    else
      vend ← end_of entry;
      e ← entry_at entry;
      mret ((vend <? last) || negb (Z.ldiff prot (protection e) =? 0)).

(** ** Clipping *)

Definition reference_target (e : vm_map_entry) : M vs unit :=
  if is_sub_map e then vm_map_reference (vme_object e) else on_object (vo_reference (vme_object e)).

Definition _vm_map_clip_start (hdr entry start : Z) : M vs unit :=
  new_entry ← _vm_map_entry_create;
  vm_map_entry_copy_full new_entry entry;;
  update_links new_entry (set_end start);;
  vstart ← start_of entry;
  update_entry entry (fun e => set_vme_offset (u32 (vme_offset e + (start - vstart))) e);;
  update_links entry (set_start start);;
  prev ← prev_of entry;
  _vm_map_entry_link hdr prev new_entry;;
  e ← entry_at new_entry;
  reference_target e.

Definition vm_map_clip_start (map entry startaddr : Z) : M vs unit :=
  start ← start_of entry;
  when (start <? startaddr) (_vm_map_clip_start map entry startaddr).

Definition _vm_map_clip_end (hdr entry last : Z) : M vs unit :=
  new_entry ← _vm_map_entry_create;
  vm_map_entry_copy_full new_entry entry;;
  update_links entry (set_end last);;
  update_links new_entry (set_start last);;
  vstart ← start_of entry;
  update_entry new_entry (fun e => set_vme_offset (u32 (vme_offset e + (last - vstart))) e);;
  _vm_map_entry_link hdr entry new_entry;;
  e ← entry_at new_entry;
  reference_target e.

Definition vm_map_clip_end (map entry endaddr : Z) : M vs unit :=
  vend ← end_of entry;
  when (endaddr <? vend) (_vm_map_clip_end map entry endaddr).

(** [VM_MAP_RANGE_CHECK]: the range that is left. *)
Definition VM_MAP_RANGE_CHECK (map start last : Z) : M vs (Z * Z) :=
  lo ← vm_map_min map;
  hi ← vm_map_max map;
  let start := if start <? lo then lo else start in
  let last := if hi <? last then hi else last in
  let start := if last <? start then last else start in
  mret (start, last).

(** [if (vm_map_lookup_entry(...)) vm_map_clip_start(...) else entry =
    entry->vme_next]: the first entry of a range. *)
Definition first_in_range (map start : Z) : M vs Z :=
  r ← vm_map_lookup_entry map start;
  let '(found, entry) := r in
  if (found : bool) then vm_map_clip_start map entry start;; mret entry
  else next_of entry.

(** [(entry != vm_map_to_entry(map)) && (entry->vme_start < end)] *)
Definition before_end (map entry last : Z) : M vs bool :=
  if entry =? map then mret false
  else start ← start_of entry; mret (start <? last).

(** ** Entering *)

(** The loop that looks for a hole, from [start], which is behind [entry]. *)
Fixpoint find_space (fuel : nat) (map entry start size mask : Z) : M vs space_search :=
  let aligned := Z.ldiff (u32 (start + mask)) mask in
  if aligned <? start then mret Wrapped
  else
    let start := aligned in
    let last := u32 (start + size) in
    hi ← vm_map_max map;
    if (hi <? last) || (last <? start) then mret NoSpace
    else
      next ← next_of entry;
      if next =? map then mret (Space entry start last)
      else
        nstart ← start_of next;
        if last <=? nstart then mret (Space entry start last)
        else
          match fuel with
          | O => crash
          | S fuel => start ← end_of next; find_space fuel map next start size mask
          end.

(** An entry at [start] behind [after]. *)
Definition insert_entry (map after start last : Z) (e : vm_map_entry) : M vs Z :=
  new_entry ← _vm_map_entry_create;
  update_links new_entry (fun k => set_end last (set_start start k));;
  update_entry new_entry (fun _ => e);;
  _vm_map_entry_link map after new_entry;;
  mret new_entry.

Definition add_size (map size : Z) : M vs unit :=
  update_map map (fun v => set_size (u32 (vm_size v + size)) v).

(** The conditions under which [vm_map_find_entry] extends an entry. *)
Definition extends_object (object : Z) (e : vm_map_entry) : bool :=
  negb (is_shared e) && negb (is_sub_map e) && (vme_object e =? object) && negb (needs_copy e) &&
  (inheritance e =? VM_INHERIT_DEFAULT) && (protection e =? VM_PROT_DEFAULT) &&
  (max_protection e =? VM_PROT_ALL) && (wired_count e =? 1) && (user_wired_count e =? 0) &&
  (projected_on e =? 0).

(** The map must be locked; [inl (address, entry)], or [KERN_NO_SPACE]. *)
Definition vm_map_find_entry (map size mask object : Z) : M vs (option (Z * Z)) :=
  v ← map_at map;
  let entry := vm_first_free v in
  start ← (if entry =? map then vm_map_min map else end_of entry);
  fuel ← ring_fuel;
  r ← find_space fuel map entry start size mask;
  match r with
  | Wrapped | NoSpace => mret None
  | Space entry start last =>
    extend ← (if (object =? VM_OBJECT_NULL) || (entry =? map) then mret false
              else
                vend ← end_of entry;
                e ← entry_at entry;
                mret ((vend =? start) && extends_object object e));
    new_entry ←
      (if (extend : bool) then update_links entry (set_end last);; mret entry
       else insert_entry map entry start last
              (mk_map_entry VM_OBJECT_NULL 0 false false false false false VM_PROT_DEFAULT VM_PROT_ALL
                 VM_INHERIT_DEFAULT 1 0 0));
    add_size map size;;
    update_map map (set_first_free new_entry);;
    SAVE_HINT map new_entry;;
    mret (Some (start, new_entry))
  end.

(** The arguments of [vm_map_enter] that describe the new mapping. *)
Record mapping := mk_mapping {
  mp_object : Z;
  mp_offset : Z;
  mp_needs_copy : bool;
  mp_protection : Z;
  mp_max_protection : Z;
  mp_inheritance : Z
}.

Definition mapping_entry (p : mapping) : vm_map_entry :=
  mk_map_entry (mp_object p) (mp_offset p) false false false false (mp_needs_copy p) (mp_protection p)
    (mp_max_protection p) (mp_inheritance p) 0 0 0.

Definition extends_mapping (p : mapping) (e : vm_map_entry) : bool :=
  negb (is_shared e) && negb (is_sub_map e) && (inheritance e =? mp_inheritance p) &&
  (protection e =? mp_protection p) && (max_protection e =? mp_max_protection p) &&
  (wired_count e =? 0) && (projected_on e =? 0).

(** The part of [vm_map_enter] that begins when the place is known. *)
Definition enter_at (map : Z) (anywhere : bool) (entry start last size : Z) (p : mapping) : M vs unit :=
  coalesced ←
    (if negb (mp_object p =? VM_OBJECT_NULL) || (entry =? map) then mret false
     else
       k ← vme_links_at entry;
       e ← entry_at entry;
       if (vme_end k =? start) && extends_mapping p e then
         on_object (vo_coalesce (vme_object e) (vme_offset e) (u32 (vme_end k - vme_start k))
           (u32 (last - vme_end k)))
       else mret false);
  if (coalesced : bool) then
    vend ← end_of entry;
    add_size map (last - vend);;
    update_links entry (set_end last);;
    vm_map_unlock map
  else
    new_entry ← insert_entry map entry start last (mapping_entry p);
    add_size map size;;
    v ← map_at map;
    limit ← (if entry =? map then vm_map_min map else end_of entry);
    when ((vm_first_free v =? entry) && (start <=? limit)) (update_map map (set_first_free new_entry));;
    SAVE_HINT map new_entry;;
    vm_map_unlock map;;
    when (negb (mp_object p =? VM_OBJECT_NULL) && vm_map_pmap_enter_enable && negb anywhere &&
          negb (mp_needs_copy p) && (size <? 128 * 1024))
      (log_event (PmapEnter map start last (mp_object p) (mp_offset p) (mp_protection p))).

(** Where the search begins: the entry before it, and the address. *)
Definition enter_from (map start : Z) : M vs (Z * Z) :=
  lo ← vm_map_min map;
  if start =? lo then
    v ← map_at map;
    let entry := vm_first_free v in
    if entry =? map then mret (entry, start) else vend ← end_of entry; mret (entry, vend)
  else
    r ← vm_map_lookup_entry map start;
    let '(found, entry) := r in
    if (found : bool) then vend ← end_of entry; mret (entry, vend) else mret (entry, start).

(** [anywhere]: [None] when the thread has waited and has to start again. *)
Definition enter_anywhere (map start size mask : Z) (p : mapping) : M vs (option (kern_return * Z)) :=
  vm_map_lock map;;
  lo ← vm_map_min map;
  hi ← vm_map_max map;
  let address := start in
  let start := if start <? lo then lo else start in
  if hi <? start then vm_map_unlock map;; mret (Some (KERN_NO_SPACE, address))
  else
    from ← enter_from map start;
    let '(entry, start) := from in
    fuel ← ring_fuel;
    r ← find_space fuel map entry start size mask;
    match r with
    | Wrapped => mret (Some (KERN_NO_SPACE, address))
    | NoSpace =>
      v ← map_at map;
      if wait_for_space v && (size <=? u32 (hi - lo)) then block_unlocked map;; mret None
      else vm_map_unlock map;; mret (Some (KERN_NO_SPACE, address))
    | Space entry start last =>
      enter_at map true entry start last size p;; mret (Some (KERN_SUCCESS, start))
    end.

Definition enter_fixed (map start size mask : Z) (p : mapping) : M vs (kern_return * Z) :=
  if negb (Z.land start mask =? 0) then mret (KERN_NO_SPACE, start)
  else
    vm_map_lock map;;
    let last := u32 (start + size) in
    lo ← vm_map_min map;
    hi ← vm_map_max map;
    if (start <? lo) || (hi <? last) || (last <=? start) then
      vm_map_unlock map;; mret (KERN_INVALID_ADDRESS, start)
    else
      r ← vm_map_lookup_entry map start;
      let '(found, entry) := r in
      if (found : bool) then vm_map_unlock map;; mret (KERN_NO_SPACE, start)
      else
        next ← next_of entry;
        overlaps ← before_end map next last;
        if (overlaps : bool) then vm_map_unlock map;; mret (KERN_NO_SPACE, start)
        else enter_at map false entry start last size p;; mret (KERN_SUCCESS, start).

Fixpoint enter_retry (waits : nat) (map address size mask : Z) (p : mapping) : M vs (kern_return * Z) :=
  r ← enter_anywhere map address size mask p;
  match r with
  | Some r => mret r
  | None =>
    match waits with
    | O => crash
    | S waits => enter_retry waits map address size mask p
    end
  end.

(** The result and [*address]. *)
Definition vm_map_enter (map address size mask : Z) (anywhere : bool) (p : mapping) : M vs (kern_return * Z) :=
  if anywhere then enter_retry (vm_patience env) map address size mask p
  else enter_fixed map address size mask p.

(** ** Changing *)

Definition vm_map_submap (map start last submap : Z) : M vs kern_return :=
  vm_map_lock map;;
  range ← VM_MAP_RANGE_CHECK map start last;
  let '(start, last) := range in
  entry ← first_in_range map start;
  vm_map_clip_end map entry last;;
  k ← vme_links_at entry;
  unused ← (if (vme_start k =? start) && (vme_end k =? last) then
              e ← entry_at entry;
              if negb (is_sub_map e) && (vme_object e =? vm_submap_object env) then
                on_object (vo_unused (vme_object e))
              else mret false
            else mret false);
  if (unused : bool) then
    e ← entry_at entry;
    update_entry entry (set_vme_object VM_OBJECT_NULL);;
    on_object (vo_deallocate (vme_object e));;
    update_entry entry (set_sub_map true);;
    update_entry entry (set_vme_object submap);;
    vm_map_reference submap;;
    vm_map_unlock map;;
    mret KERN_SUCCESS
  else
    vm_map_unlock map;;
    mret KERN_INVALID_ARGUMENT.

(** The first pass of [vm_map_protect]: why the change is refused. *)
Fixpoint check_protection (fuel : nat) (map current last new_prot : Z) : M vs (option kern_return) :=
  more ← before_end map current last;
  if negb more then mret None
  else
    match fuel with
    | O => crash
    | S fuel =>
      e ← entry_at current;
      if is_sub_map e then mret (Some KERN_INVALID_ARGUMENT)
      else if negb (Z.land new_prot (Z.lor VM_PROT_NOTIFY (max_protection e)) =? new_prot) then
        mret (Some KERN_PROTECTION_FAILURE)
      else next ← next_of current; check_protection fuel map next last new_prot
    end.

Definition new_protection (new_prot : Z) (set_max : bool) (e : vm_map_entry) : vm_map_entry :=
  if set_max then set_protection (Z.land new_prot (protection e)) (set_max_protection new_prot e)
  else set_protection new_prot e.

(** The loop that [vm_map_protect], [vm_map_inherit] and the unwiring share:
    each entry of the range is clipped to its end and then treated by [body]. *)
Fixpoint range_loop (fuel : nat) (body : Z -> M vs unit) (map entry last : Z) : M vs unit :=
  more ← before_end map entry last;
  if negb more then mret tt
  else
    match fuel with
    | O => crash
    | S fuel =>
      vm_map_clip_end map entry last;;
      body entry;;
      next ← next_of entry;
      range_loop fuel body map next last
    end.

Definition fix_protection (map new_prot : Z) (set_max : bool) (current : Z) : M vs unit :=
  e ← entry_at current;
  let old_prot := protection e in
  update_entry current (new_protection new_prot set_max);;
  e ← entry_at current;
  k ← vme_links_at current;
  v ← map_at map;
  when (negb (protection e =? old_prot))
    (log_event (PmapProtect (vm_pmap v) (vme_start k) (vme_end k) (protection e))).

Definition vm_map_protect (map start last new_prot : Z) (set_max : bool) : M vs kern_return :=
  vm_map_lock map;;
  range ← VM_MAP_RANGE_CHECK map start last;
  let '(start, last) := range in
  entry ← first_in_range map start;
  fuel ← ring_fuel;
  refused ← check_protection fuel map entry last new_prot;
  match refused with
  | Some kr => vm_map_unlock map;; mret kr
  | None =>
    range_loop fuel (fix_protection map new_prot set_max) map entry last;;
    vm_map_unlock map;;
    mret KERN_SUCCESS
  end.

Definition vm_map_inherit (map start last new_inheritance : Z) : M vs kern_return :=
  vm_map_lock map;;
  range ← VM_MAP_RANGE_CHECK map start last;
  let '(start, last) := range in
  entry ← first_in_range map start;
  fuel ← ring_fuel;
  range_loop fuel (fun entry => update_entry entry (set_inheritance new_inheritance)) map entry last;;
  vm_map_unlock map;;
  mret KERN_SUCCESS.

(** ** Wiring *)

(** [(entry->vme_end < end) && ((entry->vme_next == vm_map_to_entry(map)) ||
    (entry->vme_next->vme_start > entry->vme_end))]: a hole behind the entry. *)
Definition hole_behind (map entry last : Z) : M vs bool :=
  k ← vme_links_at entry;
  if vme_end k <? last then
    if vme_next k =? map then mret true
    else start ← start_of (vme_next k); mret (vme_end k <? start)
  else mret false.

(** The counts go up and down as they are for the kernel and for users. *)
Definition wire_entry (user_wire : bool) (e : vm_map_entry) : vm_map_entry :=
  if user_wire then
    set_wired (if user_wired_count e =? 0 then u16 (wired_count e + 1) else wired_count e)
      (u16 (user_wired_count e + 1)) e
  else set_wired (u16 (wired_count e + 1)) (user_wired_count e) e.

Definition unwire_entry (user_wire : bool) (e : vm_map_entry) : vm_map_entry :=
  if user_wire then
    let user := u16 (user_wired_count e - 1) in
    set_wired (if user =? 0 then u16 (wired_count e - 1) else wired_count e) user e
  else set_wired (u16 (wired_count e - 1)) (user_wired_count e) e.

(** Is the range wired, without holes? *)
Fixpoint check_wired (fuel : nat) (map entry last : Z) (user_wire : bool) : M vs bool :=
  more ← before_end map entry last;
  if negb more then mret true
  else
    match fuel with
    | O => crash
    | S fuel =>
      e ← entry_at entry;
      hole ← hole_behind map entry last;
      if (wired_count e =? 0) || hole || (user_wire && (user_wired_count e =? 0)) then mret false
      else next ← next_of entry; check_wired fuel map next last user_wire
    end.

Definition vm_fault_unwire (map entry : Z) : M vs unit :=
  k ← vme_links_at entry; log_event (FaultUnwire map (vme_start k) (vme_end k)).
Definition vm_fault_wire (map entry : Z) : M vs unit :=
  k ← vme_links_at entry; log_event (FaultWire map (vme_start k) (vme_end k)).

Definition unwire_step (map : Z) (user_wire : bool) (entry : Z) : M vs unit :=
  update_entry entry (unwire_entry user_wire);;
  e ← entry_at entry;
  when (wired_count e =? 0) (vm_fault_unwire map entry).

(** The objects that a fault would need the map's write lock for. *)
Definition prepare_object (entry : Z) : M vs unit :=
  k ← vme_links_at entry;
  e ← entry_at entry;
  when (needs_copy e && negb (Z.land (protection e) VM_PROT_WRITE =? 0))
    (r ← on_object (vo_shadow (vme_object e) (vme_offset e) (u32 (vme_end k - vme_start k)));
     update_entry entry (fun e => set_needs_copy false (set_vme_offset r.2 (set_vme_object r.1 e))));;
  e ← entry_at entry;
  when (vme_object e =? VM_OBJECT_NULL)
    (object ← on_object (vo_allocate (u32 (vme_end k - vme_start k)));
     update_entry entry (fun e => set_vme_offset 0 (set_vme_object object e))).

(** The counts are restored, from [entry] backwards to [start]. *)
Fixpoint unwire_back (fuel : nat) (map entry start : Z) (user_wire : bool) : M vs unit :=
  if entry =? map then mret tt
  else
    vend ← end_of entry;
    if vend <=? start then mret tt
    else
      match fuel with
      | O => crash
      | S fuel =>
        update_entry entry (unwire_entry user_wire);;
        prev ← prev_of entry;
        unwire_back fuel map prev start user_wire
      end.

(** One entry of pass 1: its objects, its limits and its counts. *)
Definition wire_one (map entry start last : Z) (user_wire : bool) : M vs unit :=
  vm_map_clip_end map entry last;;
  e ← entry_at entry;
  when (wired_count e =? 0) (prepare_object entry);;
  vm_map_clip_start map entry start;;
  vm_map_clip_end map entry last;;
  update_entry entry (wire_entry user_wire).

(** Pass 1; [false] when there is a hole or a protection that does not allow
    the access. *)
Fixpoint wire_loop (fuel : nat) (map entry start last access_type : Z) (user_wire : bool) : M vs bool :=
  more ← before_end map entry last;
  if negb more then mret true
  else
    match fuel with
    | O => crash
    | S fuel =>
      wire_one map entry start last user_wire;;
      hole ← hole_behind map entry last;
      e ← entry_at entry;
      if hole || negb (Z.land (protection e) access_type =? access_type) then
        back ← ring_fuel;
        unwire_back back map entry start user_wire;; mret false
      else
        next ← next_of entry;
        wire_loop fuel map next start last access_type user_wire
    end.

(** Pass 2. *)
Fixpoint fault_loop (fuel : nat) (map entry last : Z) : M vs unit :=
  more ← before_end map entry last;
  if negb more then mret tt
  else
    match fuel with
    | O => crash
    | S fuel =>
      e ← entry_at entry;
      when ((wired_count e =? 1) && (user_wired_count e <=? 1)) (vm_fault_wire map entry);;
      next ← next_of entry;
      fault_loop fuel map next last
    end.

(** The two halves of [vm_map_pageable_common], from the entry of [start] on. *)
Definition unwire_range (map start_entry start last : Z) (user_wire : bool) : M vs kern_return :=
  vm_map_clip_start map start_entry start;;
  fuel ← ring_fuel;
  wired ← check_wired fuel map start_entry last user_wire;
  if negb wired then vm_map_unlock map;; mret KERN_INVALID_ARGUMENT
  else
    range_loop fuel (unwire_step map user_wire) map start_entry last;;
    vm_map_unlock map;;
    mret KERN_SUCCESS.

(** The faults of pass 2 block; in a map of the kernel, which is unlocked,
    other threads run in the meantime. *)
Definition wire_range (map start_entry start last access_type : Z) (user_wire : bool) : M vs kern_return :=
  fuel ← ring_fuel;
  done ← wire_loop fuel map start_entry start last access_type user_wire;
  if negb done then vm_map_unlock map;; mret KERN_FAILURE
  else
    v ← map_at map;
    (if vm_pmap v =? kernel_pmap env then block_unlocked map else vm_map_lock_write_to_read map);;
    fuel ← ring_fuel;
    fault_loop fuel map start_entry last;;
    when (vm_pmap v =? kernel_pmap env) (vm_map_lock map);;
    vm_map_unlock map;;
    mret KERN_SUCCESS.

Definition vm_map_pageable_common (map start last access_type : Z) (user_wire : bool) : M vs kern_return :=
  vm_map_lock map;;
  range ← VM_MAP_RANGE_CHECK map start last;
  let '(start, last) := range in
  r ← vm_map_lookup_entry map start;
  let '(found, start_entry) := r in
  if negb found then vm_map_unlock map;; mret KERN_FAILURE
  else if access_type =? VM_PROT_NONE then unwire_range map start_entry start last user_wire
  else wire_range map start_entry start last access_type user_wire.

(** ** Removing *)

(** What [vm_map_entry_delete] does before it takes the entry out: the
    pages of the object disappear from the physical maps. *)
Definition remove_pages (map entry : Z) : M vs unit :=
  k ← vme_links_at entry;
  e ← entry_at entry;
  if vme_object e =? VM_OBJECT_NULL then mret tt
  else
    when (negb (wired_count e =? 0))
      (vm_fault_unwire map entry;; update_entry entry (set_wired 0 0));;
    let size := u32 (vme_end k - vme_start k) in
    if vme_object e =? kernel_object env then
      log_event (ObjectPageRemove (vme_object e) (vme_offset e) (u32 (vme_offset e + size)))
    else if is_shared e then
      log_event (ObjectPmapRemove (vme_object e) (vme_offset e) (u32 (vme_offset e + size)))
    else
      v ← map_at map;
      log_event (PmapRemove (vm_pmap v) (vme_start k) (vme_end k)).

(** [map_deallocate] is [vm_map_deallocate], for submaps. *)
Definition vm_map_entry_delete (map_deallocate : Z -> M vs unit) (map entry : Z) : M vs unit :=
  k ← vme_links_at entry;
  e ← entry_at entry;
  keep ← (if negb (map =? kernel_map env) && negb (projected_on e =? 0) then
            kernel_entry ← entry_at (projected_on e);
            if projected_on kernel_entry =? 0 then
              update_entry entry (fun e => set_wired 0 (user_wired_count e) e);; mret false
            else mret true
          else mret false);
  if (keep : bool) then mret tt
  else
    remove_pages map entry;;
    e ← entry_at entry;
    (if is_sub_map e then map_deallocate (vme_object e) else on_object (vo_deallocate (vme_object e)));;
    _vm_map_entry_unlink map entry;;
    update_map map (fun v => set_size (u32 (vm_size v - (vme_end k - vme_start k))) v);;
    _vm_map_entry_dispose entry.

(** The loop of [vm_map_delete] waits for an entry in transition with the map
    unlocked, and then looks for [start] again. *)
Fixpoint delete_loop (fuel : nat) (map_deallocate : Z -> M vs unit) (map entry start last : Z) : M vs unit :=
  more ← before_end map entry last;
  if negb more then mret tt
  else
    match fuel with
    | O => crash
    | S fuel =>
      vm_map_clip_end map entry last;;
      e ← entry_at entry;
      if in_transition e then
        update_entry entry (set_needs_wakeup true);;
        block_unlocked map;;
        vm_map_lock map;;
        r ← vm_map_lookup_entry map start;
        let '(found, entry) := r in
        entry ← (if (found : bool) then mret entry else next_of entry);
        delete_loop fuel map_deallocate map entry start last
      else
        next ← next_of entry;
        vm_map_entry_delete map_deallocate map entry;;
        delete_loop fuel map_deallocate map next start last
    end.

Definition vm_map_delete (map_deallocate : Z -> M vs unit) (map start last : Z) : M vs kern_return :=
  r ← vm_map_lookup_entry map start;
  let '(found, first_entry) := r in
  entry ← (if (found : bool) then
             vm_map_clip_start map first_entry start;;
             prev ← prev_of first_entry;
             SAVE_HINT map prev;;
             mret first_entry
           else next_of first_entry);
  v ← map_at map;
  fstart ← start_of (vm_first_free v);
  prev ← prev_of entry;
  when (start <=? fstart) (update_map map (set_first_free prev));;
  fuel ← ring_fuel;
  delete_loop (fuel + vm_patience env) map_deallocate map entry start last;;
  v ← map_at map;
  when (wait_for_space v) (log_event (MapWakeup map));;
  mret KERN_SUCCESS.

(** ** Projected buffers (vm/vm_kern.c) *)

(** The calls of [_vm_map_clip_start] and [_vm_map_clip_end] pass the map where
    these expect the header inside it, so that they change other words of the
    map. *)
Definition projected_buffer_deallocate (map_deallocate : Z -> M vs unit) (map start last : Z) : M vs kern_return :=
  vm_map_lock map;;
  r ← (if map =? kernel_map env then mret (false, map) else vm_map_lookup_entry map start);
  let '(found, entry) := r in
  fits ← (if (found : bool) then vend ← end_of entry; mret (last <=? vend) else mret false);
  k_entry ← (if (fits : bool) then e ← entry_at entry; mret (projected_on e) else mret 0);
  if k_entry =? 0 then vm_map_unlock map;; mret KERN_INVALID_ARGUMENT
  else
    k ← vme_links_at entry;
    when (vme_start k <? start) crash;;
    when (last <? vme_end k) crash;;
    v ← map_at map;
    prev ← prev_of entry;
    when (vm_first_free v =? entry) (update_map map (set_first_free prev));;
    update_entry entry (fun e => set_wired 0 (user_wired_count e) (set_projected_on 0 e));;
    vm_map_entry_delete map_deallocate map entry;;
    vm_map_unlock map;;
    vm_map_lock (kernel_map env);;
    ke ← entry_at k_entry;
    only ← (if projected_on ke =? u32_max then
              refs ← on_object (vo_refs (vme_object ke)); mret (refs =? 1)
            else mret false);
    when only
      (v ← map_at (kernel_map env);
       prev ← prev_of k_entry;
       when (vm_first_free v =? k_entry) (update_map (kernel_map env) (set_first_free prev));;
       update_entry k_entry (set_projected_on 0);;
       vm_map_entry_delete map_deallocate (kernel_map env) k_entry);;
    vm_map_unlock (kernel_map env);;
    mret KERN_SUCCESS.

Fixpoint collect_loop (fuel : nat) (map_deallocate : Z -> M vs unit) (map entry : Z) : M vs unit :=
  if entry =? map then mret tt
  else
    match fuel with
    | O => crash
    | S fuel =>
      k ← vme_links_at entry;
      e ← entry_at entry;
      when (negb (projected_on e =? 0))
        (projected_buffer_deallocate map_deallocate map (vme_start k) (vme_end k);; mret tt);;
      collect_loop fuel map_deallocate map (vme_next k)
    end.

Definition projected_buffer_collect (map_deallocate : Z -> M vs unit) (map : Z) : M vs kern_return :=
  if (map =? VM_MAP_NULL) || (map =? kernel_map env) then mret KERN_INVALID_ARGUMENT
  else
    first ← next_of map;
    fuel ← ring_fuel;
    collect_loop fuel map_deallocate map first;;
    mret KERN_SUCCESS.

Fixpoint in_range_loop (fuel : nat) (map entry last : Z) : M vs bool :=
  if entry =? map then mret false
  else
    match fuel with
    | O => crash
    | S fuel =>
      k ← vme_links_at entry;
      e ← entry_at entry;
      if (projected_on e =? 0) && (vme_start k <=? last) then in_range_loop fuel map (vme_next k) last
      else mret (vme_start k <=? last)
    end.

Definition projected_buffer_in_range (map start last : Z) : M vs bool :=
  if (map =? VM_MAP_NULL) || (map =? kernel_map env) then mret false
  else
    r ← vm_map_lookup_entry map start;
    let '(found, entry) := r in
    entry ← (if (found : bool) then mret entry else next_of entry);
    fuel ← ring_fuel;
    in_range_loop fuel map entry last.

(** ** References to maps *)

(** [depth] bounds how deep submaps are nested. *)
Fixpoint vm_map_deallocate (depth : nat) (map : Z) : M vs unit :=
  match depth with
  | O => crash
  | S depth =>
    if map =? VM_MAP_NULL then mret tt
    else
      update_map map (fun v => set_ref_count (vm_ref_count v - 1) v);;
      v ← map_at map;
      if 0 <? vm_ref_count v then mret tt
      else
        projected_buffer_collect (vm_map_deallocate depth) map;;
        lo ← vm_map_min map;
        hi ← vm_map_max map;
        vm_map_delete (vm_map_deallocate depth) map lo hi;;
        log_event (PmapDestroy (vm_pmap v));;
        change (fun m => with_maps (delete map (vm_maps m)) (with_headers (delete map (vm_headers m))
          (with_links (delete map (vm_links m)) m)))
  end.

Definition map_depth : M vs nat := gets (fun st => S (size (vm_maps st.1))).

Definition vm_map_remove (map start last : Z) : M vs kern_return :=
  vm_map_lock map;;
  range ← VM_MAP_RANGE_CHECK map start last;
  let '(start, last) := range in
  depth ← map_depth;
  result ← vm_map_delete (vm_map_deallocate depth) map start last;
  vm_map_unlock map;;
  mret result.

(** ** Faults *)

(** What [vm_map_lookup] answers: the map and the object with the offset in
    it, the protection, whether the page is wired, and the version. *)
Record found_page := mk_found_page {
  fp_map : Z;
  fp_object : Z;
  fp_offset : Z;
  fp_prot : Z;
  fp_wired : bool;
  fp_version : Z
}.

(** One attempt: [None] is [goto RetryLookup], in the map given. *)
Definition lookup_entry_for (map vaddr : Z) : M vs (option Z) :=
  v ← map_at map;
  let entry := vm_hint v in
  hit ← (if entry =? map then mret false
         else k ← vme_links_at entry; mret ((vme_start k <=? vaddr) && (vaddr <? vme_end k)));
  if (hit : bool) then mret (Some entry)
  else
    r ← vm_map_lookup_entry map vaddr;
    let '(found, entry) := r in
    mret (if (found : bool) then Some entry else None).

Inductive lookup_result :=
| Retry (map : Z)
| LookupFailed (kr : kern_return)
| PageFound (page : found_page).

(** The end of [vm_map_lookup], with the object in place. *)
Definition lookup_done (map entry vaddr prot : Z) (wired : bool) : M vs lookup_result :=
  k ← vme_links_at entry;
  e ← entry_at entry;
  v ← map_at map;
  vm_map_unlock map;;
  mret (PageFound (mk_found_page map (vme_object e) (u32 ((vaddr - vme_start k) + vme_offset e)) prot wired
    (timestamp v))).

Definition lookup_object (map entry vaddr prot : Z) (wired : bool) : M vs lookup_result :=
  k ← vme_links_at entry;
  e ← entry_at entry;
  if vme_object e =? VM_OBJECT_NULL then
    lost ← vm_map_lock_read_to_write map;
    if (lost : bool) then mret (Retry map)
    else
      object ← on_object (vo_allocate (u32 (vme_end k - vme_start k)));
      update_entry entry (fun e => set_vme_offset 0 (set_vme_object object e));;
      vm_map_lock_write_to_read map;;
      lookup_done map entry vaddr prot wired
  else lookup_done map entry vaddr prot wired.

(** The protection allows the access. *)
Definition lookup_access (map entry vaddr fault_type : Z) : M vs lookup_result :=
  k ← vme_links_at entry;
  e ← entry_at entry;
  let prot := protection e in
  let wired := negb (wired_count e =? 0) in
  let fault_type := if wired then protection e else fault_type in
  if needs_copy e then
    if negb (Z.land fault_type VM_PROT_WRITE =? 0) then
      lost ← vm_map_lock_read_to_write map;
      if (lost : bool) then mret (Retry map)
      else
        update_map map (fun v => set_timestamp (u32 (timestamp v + 1)) v);;
        r ← on_object (vo_shadow (vme_object e) (vme_offset e) (u32 (vme_end k - vme_start k)));
        update_entry entry (fun e => set_needs_copy false (set_vme_offset r.2 (set_vme_object r.1 e)));;
        vm_map_lock_write_to_read map;;
        lookup_object map entry vaddr prot wired
    else lookup_object map entry vaddr (Z.ldiff prot VM_PROT_WRITE) wired
  else lookup_object map entry vaddr prot wired.

Definition lookup_try (map vaddr fault_type : Z) : M vs lookup_result :=
  vm_map_lock_read map;;
  r ← lookup_entry_for map vaddr;
  match r with
  | None => vm_map_unlock map;; mret (LookupFailed KERN_INVALID_ADDRESS)
  | Some entry =>
    e ← entry_at entry;
    if is_sub_map e then vm_map_unlock map;; mret (Retry (vme_object e))
    else
      let prot := protection e in
      if negb (Z.land fault_type prot =? fault_type) then
        vm_map_unlock map;;
        mret (LookupFailed (if negb (Z.land prot VM_PROT_NOTIFY =? 0) && negb (Z.land fault_type VM_PROT_WRITE =? 0)
                            then KERN_WRITE_PROTECTION_FAILURE else KERN_PROTECTION_FAILURE))
      else lookup_access map entry vaddr fault_type
  end.

(** [fuel]: submaps entered and upgrades lost. *)
Fixpoint vm_map_lookup (fuel : nat) (map vaddr fault_type : Z) : M vs (kern_return + found_page) :=
  r ← lookup_try map vaddr fault_type;
  match r with
  | LookupFailed kr => mret (inl kr)
  | PageFound page => mret (inr page)
  | Retry map =>
    match fuel with
    | O => crash
    | S fuel => vm_map_lookup fuel map vaddr fault_type
    end
  end.

(** [TRUE] leaves the map locked. *)
Definition vm_map_verify (map version : Z) : M vs bool :=
  vm_map_lock_read map;;
  v ← map_at map;
  if timestamp v =? version then mret true else vm_map_unlock map;; mret false.

(** ** Information, simplification, attributes *)

(** [(address, size, protection, max_protection, inheritance, is_shared,
    object_name, offset)] *)
Definition region_info : Type := Z * Z * Z * Z * Z * bool * Z * Z.

Definition vm_region (map address : Z) : M vs (kern_return + region_info) :=
  if map =? VM_MAP_NULL then mret (inl KERN_INVALID_ARGUMENT)
  else
    vm_map_lock_read map;;
    r ← vm_map_lookup_entry map address;
    let '(found, entry) := r in
    entry ← (if (found : bool) then mret entry else next_of entry);
    if entry =? map then vm_map_unlock map;; mret (inl KERN_NO_SPACE)
    else
      k ← vme_links_at entry;
      e ← entry_at entry;
      shared ← mret (if is_sub_map e then false else is_shared e);
      name ← (if is_sub_map e then mret IP_NULL else on_object (vo_name (vme_object e)));
      vm_map_unlock map;;
      mret (inr (vme_start k, u32 (vme_end k - vme_start k), protection e, max_protection e, inheritance e,
        shared, name, vme_offset e)).

Definition same_attributes (p t : vm_map_entry) : bool :=
  negb (is_shared p) && negb (is_sub_map p) && negb (is_shared t) && negb (is_sub_map t) &&
  (inheritance p =? inheritance t) && (protection p =? protection t) &&
  (max_protection p =? max_protection t) && (wired_count p =? wired_count t) &&
  (user_wired_count p =? user_wired_count t) && Bool.eqb (needs_copy p) (needs_copy t) &&
  (vme_object p =? vme_object t).

(** The entry disappears into the one before it. *)
Definition join_entries (map prev_entry this_entry : Z) : M vs unit :=
  v ← map_at map;
  when (vm_first_free v =? this_entry) (update_map map (set_first_free prev_entry));;
  SAVE_HINT map prev_entry;;
  _vm_map_entry_unlink map this_entry;;
  vend ← end_of this_entry;
  update_links prev_entry (set_end vend);;
  t ← entry_at this_entry;
  on_object (vo_deallocate (vme_object t));;
  _vm_map_entry_dispose this_entry.

Definition vm_map_simplify (map start : Z) : M vs unit :=
  vm_map_lock map;;
  r ← vm_map_lookup_entry map start;
  let '(found, this_entry) := r in
  prev_entry ← (if (found : bool) then prev_of this_entry else mret map);
  (if prev_entry =? map then mret tt
   else
     pk ← vme_links_at prev_entry;
     p ← entry_at prev_entry;
     t ← entry_at this_entry;
     when ((vme_end pk =? start) && same_attributes p t &&
           (u32 (vme_offset p + (vme_end pk - vme_start pk)) =? vme_offset t) &&
           (projected_on p =? 0) && (projected_on t =? 0))
       (join_entries map prev_entry this_entry));;
  vm_map_unlock map.

(** [pmap_attribute] answers [result]. *)
Definition vm_map_machine_attribute (result : kern_return) (map address size attribute : Z) : M vs kern_return :=
  lo ← vm_map_min map;
  hi ← vm_map_max map;
  if (address <? lo) || (hi <? u32 (address + size)) then mret KERN_INVALID_ARGUMENT
  else
    vm_map_lock map;;
    v ← map_at map;
    log_event (PmapAttribute (vm_pmap v) address size attribute);;
    vm_map_unlock map;;
    mret result.

(** [result] is the address that the zone of maps gives. *)
Definition vm_map_create (result pmap lo hi : Z) (pageable : bool) : M vs Z :=
  change (fun m =>
    with_maps (<[result := mk_vm_map Unlocked pmap 0 1 result result false false 0]> (vm_maps m))
      (with_headers (<[result := mk_header 0 pageable]> (vm_headers m))
        (with_links (<[result := mk_links result result lo hi]> (vm_links m)) m)));;
  mret result.

End map.
