(* ===== verification/VmRing.v ===== *)
(** * Rings of map entries as lists

    [vm_rep m rs]: the memory [m] holds the rings [rs].  A ring has the address
    of its header, the limits and the count in the header, and a list of
    [region]s, the entries in order.  The links, in both directions, are the
    matter of this file: every routine on maps is specified on the lists. *)

From S2P Require Import Prelude Names Splay Table Space Hash Entry World Vm VmMap.

Record region := mk_region {
  r_addr : Z;
  r_start : Z;
  r_end : Z;
  r_entry : vm_map_entry
}.

Record ring := mk_ring {
  rg_lo : Z;
  rg_hi : Z;
  rg_header : vm_map_header;
  rg_list : list region
}.

Definition addrs (l : list region) : list Z := map r_addr l.

(** The address behind [p] and the one before [q]. *)
Definition first_addr (l : list region) (q : Z) : Z := match l with [] => q | r :: _ => r_addr r end.
Definition last_addr (p : Z) (l : list region) : Z := match last l with None => p | Some r => r_addr r end.

(** [l] is linked between [p] and [q]. *)
Fixpoint seg (L : gmap Z vm_map_links) (p : Z) (l : list region) (q : Z) : Prop :=
  match l with
  | [] => True
  | r :: l => L !! r_addr r = Some (mk_links p (first_addr l q) (r_start r) (r_end r)) /\ seg L (r_addr r) l q
  end.

Definition nodes (hdr : Z) (R : ring) : list Z := hdr :: addrs (rg_list R).

Record ring_ok (m : vmem) (hdr : Z) (R : ring) : Prop := mk_ring_ok {
  ro_header : vm_headers m !! hdr = Some (rg_header R);
  ro_links : vm_links m !! hdr = Some (mk_links (last_addr hdr (rg_list R)) (first_addr (rg_list R) hdr) (rg_lo R) (rg_hi R));
  ro_seg : seg (vm_links m) hdr (rg_list R) hdr;
  ro_entries : forall r, r ∈ rg_list R -> vm_entries m !! r_addr r = Some (r_entry r);
  ro_nodup : NoDup (nodes hdr R)
}.

Record vm_rep (m : vmem) (rs : gmap Z ring) : Prop := mk_vm_rep {
  vr_rings : forall hdr R, rs !! hdr = Some R -> ring_ok m hdr R;
  vr_disjoint : forall h1 h2 R1 R2 a,
    rs !! h1 = Some R1 -> rs !! h2 = Some R2 -> a ∈ nodes h1 R1 -> a ∈ nodes h2 R2 -> h1 = h2
}.

Definition with_list (l : list region) (R : ring) : ring := mk_ring (rg_lo R) (rg_hi R) (rg_header R) l.
Definition with_ring_header (h : vm_map_header) (R : ring) : ring := mk_ring (rg_lo R) (rg_hi R) h (rg_list R).

(** ** Segments *)

Lemma last_addr_app p l1 r l2 : last_addr p (l1 ++ r :: l2) = last_addr (r_addr r) l2.
Proof.
  unfold last_addr. rewrite last_app_cons. destruct l2 as [|x l2]; [done|]. rewrite last_cons_cons.
  destruct (last (x :: l2)) eqn:E; [done|]. by apply last_None in E.
Qed.

Lemma last_addr_snoc p l r : last_addr p (l ++ [r]) = r_addr r.
Proof. unfold last_addr. by rewrite last_snoc. Qed.

Lemma first_addr_app l1 l2 q : first_addr (l1 ++ l2) q = first_addr l1 (first_addr l2 q).
Proof. by destruct l1. Qed.

Lemma last_addr_cons p r l : last_addr p (r :: l) = last_addr (r_addr r) l.
Proof. apply (last_addr_app p [] r l). Qed.

Lemma addrs_app l1 l2 : addrs (l1 ++ l2) = addrs l1 ++ addrs l2.
Proof. apply map_app. Qed.

Lemma elem_of_addrs r l : r ∈ l -> r_addr r ∈ addrs l.
Proof. intros Hr. apply list_elem_of_fmap. eauto. Qed.

Lemma last_addr_elem p l : last_addr p l = p \/ last_addr p l ∈ addrs l.
Proof.
  unfold last_addr. destruct (last l) as [r|] eqn:E; [|by left]. right. apply elem_of_addrs.
  apply last_Some in E as [l' ->]. set_solver.
Qed.

Lemma first_addr_elem l q : first_addr l q = q \/ first_addr l q ∈ addrs l.
Proof. destruct l as [|r l]; [by left|]. right. simpl. set_solver. Qed.

Lemma seg_app L p l1 l2 q :
  seg L p (l1 ++ l2) q <-> seg L p l1 (first_addr l2 q) /\ seg L (last_addr p l1) l2 q.
Proof.
  revert p. induction l1 as [|r l1 IH]; intros p; simpl; [tauto|].
  rewrite IH, first_addr_app, last_addr_cons. tauto.
Qed.

Lemma seg_lookup L p l1 r l2 q :
  seg L p (l1 ++ r :: l2) q ->
  L !! r_addr r = Some (mk_links (last_addr p l1) (first_addr l2 q) (r_start r) (r_end r)).
Proof. rewrite seg_app. simpl. tauto. Qed.

(** A segment depends on its own links only. *)
Lemma seg_frame L L' p l q : (forall a, a ∈ addrs l -> L' !! a = L !! a) -> seg L p l q -> seg L' p l q.
Proof.
  revert p. induction l as [|r l IH]; intros p Hf; simpl; [done|]. intros [H1 H2]. split.
  - rewrite Hf; [done|]. simpl. set_solver.
  - apply IH; [|done]. intros a Ha. apply Hf. simpl. set_solver.
Qed.

Lemma seg_insert_other L p l q a k : a ∉ addrs l -> seg L p l q -> seg (<[a := k]> L) p l q.
Proof. intros Ha. apply seg_frame. intros b Hb. apply lookup_insert_ne. set_solver. Qed.

(** ** What a ring knows *)

Section lookups.
Context (m : vmem) (rs : gmap Z ring) (hdr : Z) (R : ring).
Hypothesis Hrep : vm_rep m rs.
Hypothesis HR : rs !! hdr = Some R.

Lemma rep_links_header :
  vm_links m !! hdr = Some (mk_links (last_addr hdr (rg_list R)) (first_addr (rg_list R) hdr) (rg_lo R) (rg_hi R)).
Proof. by apply (vr_rings _ _ Hrep). Qed.

Lemma rep_links l1 r l2 : rg_list R = l1 ++ r :: l2 ->
  vm_links m !! r_addr r = Some (mk_links (last_addr hdr l1) (first_addr l2 hdr) (r_start r) (r_end r)).
Proof. intros E. pose proof (ro_seg _ _ _ (vr_rings _ _ Hrep _ _ HR)) as Hs. rewrite E in Hs. by apply seg_lookup in Hs. Qed.

Lemma rep_entry r : r ∈ rg_list R -> vm_entries m !! r_addr r = Some (r_entry r).
Proof. apply (ro_entries _ _ _ (vr_rings _ _ Hrep _ _ HR)). Qed.

Lemma rep_header : vm_headers m !! hdr = Some (rg_header R).
Proof. by apply (vr_rings _ _ Hrep). Qed.

Lemma rep_nodup : NoDup (nodes hdr R).
Proof. by apply (vr_rings _ _ Hrep). Qed.

Lemma rep_node a : a ∈ nodes hdr R -> is_Some (vm_links m !! a).
Proof.
  intros Ha. apply elem_of_cons in Ha as [->|Ha]; [rewrite rep_links_header; by eexists|].
  apply list_elem_of_fmap in Ha as (r & -> & Hr). apply list_elem_of_split in Hr as (l1 & l2 & E).
  rewrite (rep_links _ _ _ E). by eexists.
Qed.

Lemma rep_addr_ne r : r ∈ rg_list R -> r_addr r <> hdr.
Proof.
  intros Hr Heq. pose proof rep_nodup as Hn. apply NoDup_cons in Hn as [Hn _]. apply Hn. rewrite <- Heq.
  by apply elem_of_addrs.
Qed.

Lemma rep_nodup_split l1 r l2 : rg_list R = l1 ++ r :: l2 ->
  (r_addr r ∉ addrs l1) /\ (r_addr r ∉ addrs l2) /\ r_addr r <> hdr /\ (hdr ∉ addrs l1) /\ (hdr ∉ addrs l2).
Proof.
  intros E. pose proof rep_nodup as Hn. unfold nodes in Hn. rewrite E, addrs_app in Hn. simpl in Hn.
  apply NoDup_cons in Hn as [Hh Hn]. apply NoDup_app in Hn as (_ & Hd & Hn). apply NoDup_cons in Hn as [Hr _].
  rewrite elem_of_app, elem_of_cons in Hh. split_and!; [|done|..].
  - intros Ha. apply (Hd _ Ha). by left.
  - intros Ha. apply Hh. right. left. by symmetry.
  - intros Ha. apply Hh. by left.
  - intros Ha. apply Hh. by right; right.
Qed.

(** More links than entries: the fuel of the walks. *)
Lemma rep_size : (length (rg_list R) < size (vm_links m))%nat.
Proof.
  pose proof rep_nodup as Hn.
  assert (Hsub : list_to_set (nodes hdr R) ⊆ dom (vm_links m)).
  { intros a Ha. apply elem_of_list_to_set in Ha. by apply elem_of_dom, rep_node. }
  apply subseteq_size in Hsub. rewrite size_list_to_set in Hsub by done. rewrite size_dom in Hsub.
  unfold nodes, addrs in Hsub. simpl in Hsub. rewrite length_map in Hsub. lia.
Qed.
End lookups.

Lemma rep_fresh_node m rs a hdr R :
  vm_rep m rs -> vm_links m !! a = None -> rs !! hdr = Some R -> a ∉ nodes hdr R.
Proof. intros Hrep Ha HR Hin. destruct (rep_node _ _ _ _ Hrep HR a Hin) as [k Hk]. congruence. Qed.

(** ** Changing a ring *)

(** An address that no ring uses. *)
Definition detached (rs : gmap Z ring) (a : Z) : Prop := forall hdr R, rs !! hdr = Some R -> a ∉ nodes hdr R.

Definition agree_at (m m' : vmem) (a : Z) : Prop :=
  vm_links m' !! a = vm_links m !! a /\ vm_entries m' !! a = vm_entries m !! a /\
  vm_headers m' !! a = vm_headers m !! a.

Lemma ring_ok_agree m m' hdr R :
  ring_ok m hdr R -> (forall a, a ∈ nodes hdr R -> agree_at m m' a) -> ring_ok m' hdr R.
Proof.
  intros [H1 H2 H3 H4 H5] Ha. assert (Hh : hdr ∈ nodes hdr R) by (unfold nodes; set_solver). split.
  - by rewrite (proj2 (proj2 (Ha _ Hh))).
  - by rewrite (proj1 (Ha _ Hh)).
  - eapply seg_frame; [|done]. intros a Hin. apply Ha. unfold nodes. set_solver.
  - intros r Hr. assert (Hin : r_addr r ∈ nodes hdr R) by (apply elem_of_cons; right; by apply elem_of_addrs).
    rewrite (proj1 (proj2 (Ha _ Hin))). by apply H4.
  - done.
Qed.

(** A change of one ring that touches its own nodes, old and new, only. *)
Lemma vm_rep_change m m' rs hdr R R' :
  vm_rep m rs -> rs !! hdr = Some R -> ring_ok m' hdr R' ->
  (forall a, a ∈ nodes hdr R' -> a ∈ nodes hdr R \/ detached rs a) ->
  (forall a, a ∉ nodes hdr R -> a ∉ nodes hdr R' -> agree_at m m' a) ->
  vm_rep m' (<[hdr := R']> rs).
Proof.
  intros Hrep HR HR' Hin Hag.
  assert (Hother : forall h R0 a, h <> hdr -> rs !! h = Some R0 -> a ∈ nodes h R0 ->
    (a ∉ nodes hdr R) /\ (a ∉ nodes hdr R')).
  { intros h R0 a Hne HR0 Ha. assert (a ∉ nodes hdr R).
    { intros Ha'. apply Hne. by eapply (vr_disjoint _ _ Hrep). }
    split; [done|]. intros Ha'. destruct (Hin _ Ha') as [|Hd]; [done|]. by apply (Hd _ _ HR0). }
  split.
  - intros h R0 HR0. destruct (decide (h = hdr)) as [->|Hne].
    + rewrite lookup_insert_eq in HR0. by simplify_eq.
    + rewrite lookup_insert_ne in HR0 by done. eapply ring_ok_agree; [by apply (vr_rings _ _ Hrep)|].
      intros a Ha. destruct (Hother _ _ _ Hne HR0 Ha). by apply Hag.
  - intros h1 h2 R1 R2 a H1 H2 Ha1 Ha2.
    destruct (decide (h1 = hdr)) as [->|Hn1], (decide (h2 = hdr)) as [->|Hn2]; [done|..].
    + rewrite lookup_insert_eq in H1. rewrite lookup_insert_ne in H2 by done. simplify_eq.
      by destruct (Hother _ _ _ Hn2 H2 Ha2).
    + rewrite lookup_insert_eq in H2. rewrite lookup_insert_ne in H1 by done. simplify_eq.
      by destruct (Hother _ _ _ Hn1 H1 Ha1).
    + rewrite lookup_insert_ne in H1, H2 by done. by eapply (vr_disjoint _ _ Hrep).
Qed.

(** Memory outside of all rings, and what is not in rings at all. *)
Lemma vm_rep_agree m m' rs :
  vm_rep m rs -> (forall hdr R a, rs !! hdr = Some R -> a ∈ nodes hdr R -> agree_at m m' a) -> vm_rep m' rs.
Proof.
  intros Hrep Ha. split; [|by apply Hrep]. intros hdr R HR. eapply ring_ok_agree; [by apply (vr_rings _ _ Hrep)|].
  intros a Hin. by eapply Ha.
Qed.

Lemma nodes_with_region hdr R l1 r l2 r' :
  rg_list R = l1 ++ r :: l2 -> r_addr r' = r_addr r ->
  nodes hdr (with_list (l1 ++ r' :: l2) R) = nodes hdr R.
Proof. intros E Ha. unfold nodes. simpl. by rewrite E, !addrs_app; simpl; rewrite Ha. Qed.

(** One region changes in place. *)
Lemma vm_rep_region m rs hdr R l1 r l2 r' L E :
  vm_rep m rs -> rs !! hdr = Some R -> rg_list R = l1 ++ r :: l2 -> r_addr r' = r_addr r ->
  L = <[r_addr r := mk_links (last_addr hdr l1) (first_addr l2 hdr) (r_start r') (r_end r')]> (vm_links m) ->
  E = <[r_addr r := r_entry r']> (vm_entries m) ->
  vm_rep (with_entries E (with_links L m)) (<[hdr := with_list (l1 ++ r' :: l2) R]> rs).
Proof.
  intros Hrep HR El Ha -> ->. pose proof (vr_rings _ _ Hrep _ _ HR) as [H1 H2 H3 H4 H5].
  destruct (rep_nodup_split _ _ _ _ Hrep HR _ _ _ El) as (Hn1 & Hn2 & Hnh & _ & _).
  assert (Hnode : r_addr r ∈ nodes hdr R) by (unfold nodes; rewrite El, addrs_app; set_solver).
  eapply vm_rep_change; [done..| | |].
  - split; simpl.
    + done.
    + rewrite lookup_insert_ne by done. rewrite H2, El. f_equal. f_equal.
      * rewrite !last_addr_app. by rewrite Ha.
      * by rewrite !first_addr_app; simpl; rewrite Ha.
    + rewrite El in H3. apply seg_app in H3 as [Hs1 [_ Hs2]]. apply seg_app. simpl. rewrite Ha. split_and!.
      * by apply seg_insert_other.
      * by rewrite lookup_insert_eq.
      * by apply seg_insert_other.
    + intros x Hx. rewrite El in H4. destruct (decide (r_addr x = r_addr r)) as [Hx'|Hx'].
      * rewrite Hx', lookup_insert_eq. f_equal. apply elem_of_app in Hx as [Hx|Hx].
        { destruct Hn1. rewrite <- Hx'. by apply elem_of_addrs. }
        apply elem_of_cons in Hx as [->|Hx]; [done|]. destruct Hn2. rewrite <- Hx'. by apply elem_of_addrs.
      * rewrite lookup_insert_ne by done. apply H4. set_solver.
    + by rewrite (nodes_with_region _ _ _ _ _ _ El Ha).
  - intros a. rewrite (nodes_with_region _ _ _ _ _ _ El Ha). by left.
  - intros a Hna _. assert (a <> r_addr r) by set_solver. unfold agree_at. simpl.
    by rewrite !lookup_insert_ne by done.
Qed.

Lemma vm_rep_header m rs hdr R h :
  vm_rep m rs -> rs !! hdr = Some R ->
  vm_rep (with_headers (<[hdr := h]> (vm_headers m)) m) (<[hdr := with_ring_header h R]> rs).
Proof.
  intros Hrep HR. pose proof (vr_rings _ _ Hrep _ _ HR) as [H1 H2 H3 H4 H5].
  eapply vm_rep_change; [done..| | |].
  - split; simpl; [by rewrite lookup_insert_eq|done..].
  - intros a Ha. by left.
  - intros a Hna _. assert (a <> hdr) by (unfold nodes in Hna; set_solver). unfold agree_at. simpl.
    by rewrite lookup_insert_ne.
Qed.

(** ** Linking and unlinking *)

Lemma seg_alter_other L p l q a f : a ∉ addrs l -> seg L p l q -> seg (alter f a L) p l q.
Proof. intros Ha. apply seg_frame. intros b Hb. apply lookup_alter_ne. set_solver. Qed.

Lemma seg_set_prev L p p' l q :
  l <> [] -> NoDup (addrs l) -> seg L p l q -> seg (alter (set_vme_prev p') (first_addr l q) L) p' l q.
Proof.
  destruct l as [|r l]; [done|]. simpl. intros _ Hn [H1 H2]. apply NoDup_cons in Hn as [Hn _].
  rewrite lookup_alter_eq, H1. split; [done|]. by apply seg_alter_other.
Qed.

Lemma seg_set_next L p l q q' :
  l <> [] -> NoDup (addrs l) -> seg L p l q -> seg (alter (set_vme_next q') (last_addr p l) L) p l q'.
Proof.
  destruct l as [|r l _] using rev_ind; [done|]. intros _ Hn Hs. rewrite last_addr_snoc.
  rewrite addrs_app in Hn. apply NoDup_app in Hn as (_ & Hd & _). apply seg_app in Hs as [H1 [H2 _]].
  apply seg_app. simpl in *. rewrite lookup_alter_eq, H2. split_and!; [|done..].
  apply seg_alter_other; [|done]. intros Ha. apply (Hd _ Ha). set_solver.
Qed.

#[local] Ltac ring_cbn := cbn [first_addr last_addr last app seg addrs map] in *.

Lemma elem_ne (x y : Z) (l : list Z) : x ∈ l -> y ∉ l -> x <> y.
Proof. by intros ? ? ->. Qed.

(** The links of a ring. *)
Definition linked (L : gmap Z vm_map_links) (hdr lo hi : Z) (l : list region) : Prop :=
  L !! hdr = Some (mk_links (last_addr hdr l) (first_addr l hdr) lo hi) /\ seg L hdr l hdr.

Lemma first_last_cases hdr (l : list region) :
  (l = [] /\ first_addr l hdr = hdr /\ last_addr hdr l = hdr) \/
  (l <> [] /\ first_addr l hdr ∈ addrs l /\ last_addr hdr l ∈ addrs l).
Proof.
  destruct l as [|r l]; [by left|]. right. split_and!; [done|simpl; set_solver|].
  rewrite last_addr_cons. destruct (last_addr_elem (r_addr r) l) as [->|]; simpl; set_solver.
Qed.

Definition link_links (L : gmap Z vm_map_links) (after new start last next : Z) : gmap Z vm_map_links :=
  alter (set_vme_next new) after (alter (set_vme_prev new) next (<[new := mk_links after next start last]> L)).

Lemma last_addr_app_list p l1 l2 : last_addr p (l1 ++ l2) = last_addr (last_addr p l1) l2.
Proof. destruct l2 as [|r l2]; [by rewrite app_nil_r|]. by rewrite last_addr_app, last_addr_cons. Qed.

Lemma last_addr_ne p p' l : l <> [] -> last_addr p l = last_addr p' l.
Proof. destruct l; [done|]. by rewrite !last_addr_cons. Qed.

Lemma first_addr_ne q q' l : l <> [] -> first_addr l q = first_addr l q'.
Proof. by destruct l. Qed.

Lemma linked_link L hdr lo hi l1 l2 x :
  linked L hdr lo hi (l1 ++ l2) -> NoDup (hdr :: addrs (l1 ++ l2)) -> r_addr x ∉ hdr :: addrs (l1 ++ l2) ->
  linked (link_links L (last_addr hdr l1) (r_addr x) (r_start x) (r_end x) (first_addr l2 hdr)) hdr lo hi (l1 ++ x :: l2).
Proof.
  intros [Hh Hs] Hn Hx. rewrite addrs_app in Hn, Hx. rewrite NoDup_cons, NoDup_app in Hn.
  destruct Hn as (Hhn & Hn1 & Hd & Hn2). apply seg_app in Hs as [Hs1 Hs2].
  rewrite not_elem_of_cons, not_elem_of_app in Hx. destruct Hx as (Hxh & Hx1 & Hx2).
  rewrite not_elem_of_app in Hhn. destruct Hhn as [Hh1 Hh2].
  rewrite last_addr_app_list, first_addr_app in Hh.
  apply (seg_insert_other _ _ _ _ _ (mk_links (last_addr hdr l1) (first_addr l2 hdr) (r_start x) (r_end x)) Hx1) in Hs1.
  apply (seg_insert_other _ _ _ _ _ (mk_links (last_addr hdr l1) (first_addr l2 hdr) (r_start x) (r_end x)) Hx2) in Hs2.
  unfold link_links, linked. rewrite seg_app, last_addr_app, first_addr_app. cbn [seg first_addr].
  set (L1 := <[r_addr x := _]> L) in *.
  assert (HL1 : L1 !! hdr = L !! hdr) by (apply lookup_insert_ne; congruence).
  assert (HLx : L1 !! r_addr x = Some (mk_links (last_addr hdr l1) (first_addr l2 hdr) (r_start x) (r_end x)))
    by apply lookup_insert_eq.
  destruct (first_last_cases hdr l1) as [(-> & Hf1 & E1)|(Hne1 & Hf1 & Hla1)];
  destruct (first_last_cases hdr l2) as [(-> & E2 & Hla2)|(Hne2 & Hf2 & Hla2)].
  - ring_cbn. rewrite !lookup_alter_eq, HL1, Hh. rewrite !lookup_alter_ne by done. by rewrite HLx.
  - ring_cbn. assert (first_addr l2 hdr <> hdr) by (by eapply elem_ne). assert (first_addr l2 hdr <> r_addr x) by (by eapply elem_ne).
    rewrite lookup_alter_eq, !lookup_alter_ne, HL1, Hh, HLx by done. cbn [fmap option_fmap option_map set_vme_prev set_vme_next vme_prev vme_next vme_start vme_end].
    rewrite (last_addr_ne _ (r_addr x)) by done. split_and!; [done..|].
    apply seg_alter_other; [done|]. by eapply seg_set_prev.
  - ring_cbn. assert (last_addr hdr l1 <> hdr) by (by eapply elem_ne). assert (last_addr hdr l1 <> r_addr x) by (by eapply elem_ne).
    rewrite lookup_alter_ne, lookup_alter_eq, HL1, Hh by done. rewrite !lookup_alter_ne, HLx by done. cbn [fmap option_fmap option_map set_vme_prev set_vme_next vme_prev vme_next vme_start vme_end].
    rewrite (first_addr_ne _ (r_addr x)) by done. split_and!; [done| |done..].
    eapply seg_set_next; [done..|]. by apply seg_alter_other.
  - assert (first_addr l2 hdr <> hdr) by (by eapply elem_ne). assert (first_addr l2 hdr <> r_addr x) by (by eapply elem_ne).
    assert (last_addr hdr l1 <> hdr) by (by eapply elem_ne). assert (last_addr hdr l1 <> r_addr x) by (by eapply elem_ne).
    assert (last_addr hdr l1 ∉ addrs l2) by (intros Ha; by apply (Hd _ Hla1)).
    assert (first_addr l2 hdr ∉ addrs l1) by (intros Ha; by apply (Hd _ Ha)).
    rewrite !lookup_alter_ne, HL1, Hh, HLx by done.
    rewrite (last_addr_ne _ (r_addr x)), (first_addr_ne _ (r_addr x) l1) by done. split_and!; [done| |done|].
    + eapply seg_set_next; [done..|]. by apply seg_alter_other.
    + apply seg_alter_other; [done|]. by eapply seg_set_prev.
Qed.

Definition unlink_links (L : gmap Z vm_map_links) (prev next : Z) : gmap Z vm_map_links :=
  alter (set_vme_next next) prev (alter (set_vme_prev prev) next L).

Lemma linked_unlink L hdr lo hi l1 x l2 :
  linked L hdr lo hi (l1 ++ x :: l2) -> NoDup (hdr :: addrs (l1 ++ x :: l2)) ->
  linked (unlink_links L (last_addr hdr l1) (first_addr l2 hdr)) hdr lo hi (l1 ++ l2).
Proof.
  intros [Hh Hs] Hn. rewrite addrs_app in Hn. simpl in Hn. rewrite NoDup_cons, NoDup_app, NoDup_cons in Hn.
  destruct Hn as (Hhn & Hn1 & Hd & Hx2 & Hn2). apply seg_app in Hs as [Hs1 [_ Hs2]].
  rewrite not_elem_of_app, not_elem_of_cons in Hhn. destruct Hhn as (Hh1 & Hhx & Hh2).
  rewrite last_addr_app, first_addr_app in Hh. simpl in Hh, Hs1.
  unfold unlink_links, linked. rewrite seg_app, last_addr_app_list, first_addr_app.
  destruct (first_last_cases hdr l1) as [(-> & Hf1 & E1)|(Hne1 & Hf1 & Hla1)];
  destruct (first_last_cases hdr l2) as [(-> & E2 & Hla2)|(Hne2 & Hf2 & Hla2)].
  - ring_cbn. by rewrite !lookup_alter_eq, Hh.
  - ring_cbn. assert (first_addr l2 hdr <> hdr) by (by eapply elem_ne).
    rewrite lookup_alter_eq, !lookup_alter_ne, Hh by done. cbn [fmap option_fmap option_map set_vme_prev set_vme_next vme_prev vme_next vme_start vme_end].
    rewrite (last_addr_ne _ hdr) by done. split_and!; [done..|].
    apply seg_alter_other; [done|]. by eapply seg_set_prev.
  - ring_cbn. assert (last_addr hdr l1 <> hdr) by (by eapply elem_ne).
    rewrite lookup_alter_ne, lookup_alter_eq, Hh by done. cbn [fmap option_fmap option_map set_vme_prev set_vme_next vme_prev vme_next vme_start vme_end].
    rewrite (first_addr_ne _ hdr) by done. split_and!; [done| |done..].
    eapply seg_set_next; [done..|]. by apply seg_alter_other.
  - assert (first_addr l2 hdr <> hdr) by (by eapply elem_ne). assert (last_addr hdr l1 <> hdr) by (by eapply elem_ne).
    assert (last_addr hdr l1 ∉ addrs l2) by (intros Ha; apply (Hd _ Hla1); by apply elem_of_cons; right).
    assert (first_addr l2 hdr ∉ addrs l1) by (intros Ha; apply (Hd _ Ha); by apply elem_of_cons; right).
    rewrite !lookup_alter_ne, Hh by done.
    rewrite (last_addr_ne _ (last_addr hdr l1)), (first_addr_ne _ (first_addr l2 hdr) l1) by done.
    split_and!; [done| |].
    + eapply seg_set_next; [done..|]. by apply seg_alter_other.
    + apply seg_alter_other; [done|]. by eapply seg_set_prev.
Qed.
