(* ===== verification/VmOwn.v ===== *)
(** * Rules for the routines on one map

    [own D R v E G st]: in the state [st] the map at [map] has the ring [R] and
    the record [v], the entries [D] are outside of all rings, [E] has happened,
    the references in [G] to objects are held and some more can be made.  The rings and records of
    the other maps, [rs] and [maps], stay as they are.  Each rule says what a
    primitive step needs and what it leaves; the routines of [VmMap] are
    specified by following their code with these rules.

    [ObjectLaws] is what the maps rely on in vm_object.c: a reference that is
    held can be released once, and can be doubled.  The count of an object is
    a [short]: [ol_inv s k G] also says that [k] more references can be made,
    to whatever objects, before a count may overflow. *)

From S2P Require Import Prelude Names Splay Table Space Hash Entry World Vm VmMap VmRing.

Definition held (object : Z) : list Z := if object =? VM_OBJECT_NULL then [] else [object].

(** The references that are held, and how many more can be made. *)
Record refs := mk_refs { rf_room : nat; rf_held : list Z }.

Definition more (o : Z) (G : refs) : refs := mk_refs (pred (rf_room G)) (held o ++ rf_held G).

(** A range of an object that ends at least a page before the largest offset. *)
Definition in_object (offset size1 size2 : Z) : Prop :=
  0 <= offset /\ 0 <= size1 /\ 0 <= size2 /\ offset + size1 + size2 <= u32_max - page_mask.

Class ObjectLaws (St : Type) `{ObjectOps St} := {
  ol_inv : St -> nat -> list Z -> Prop;
  ol_perm s k G G' : G ≡ₚ G' -> ol_inv s k G -> ol_inv s k G';
  ol_weaken s k k' G : (k' <= k)%nat -> ol_inv s k G -> ol_inv s k' G;
  ol_reference s k G o :
    ol_inv s (S k) G -> o <> VM_OBJECT_NULL -> o ∈ G -> mwp (vo_reference o) (fun _ s' => ol_inv s' k (o :: G)) s;
  ol_reference_null s k G : ol_inv s k G -> mwp (vo_reference VM_OBJECT_NULL) (fun _ s' => ol_inv s' k G) s;
  ol_deallocate s k G o : ol_inv s k (held o ++ G) -> mwp (vo_deallocate o) (fun _ s' => ol_inv s' k G) s;
  ol_allocate s k G size :
    ol_inv s (S k) G -> mwp (vo_allocate size) (fun o s' => o <> VM_OBJECT_NULL /\ (o ∉ G) /\ ol_inv s' k (o :: G)) s;
  ol_shadow s k G o offset length :
    ol_inv s (S k) (held o ++ G) ->
    mwp (vo_shadow o offset length)
      (fun r s' => r.1 <> VM_OBJECT_NULL /\ (r.1 ∉ G) /\ r.2 = 0 /\ ol_inv s' k (r.1 :: G)) s;
  ol_coalesce s k G o offset size1 size2 :
    ol_inv s k G -> held o ⊆ G -> (o <> VM_OBJECT_NULL -> in_object offset size1 size2) ->
    mwp (vo_coalesce o offset size1 size2) (fun _ s' => ol_inv s' k G) s;
  ol_unused s k G o : ol_inv s k G -> o ∈ G -> mwp (vo_unused o) (fun _ s' => ol_inv s' k G) s;
  ol_name s k G o : ol_inv s k G -> held o ⊆ G -> mwp (vo_name o) (fun _ s' => ol_inv s' k G) s
}.

Lemma alter_links_insert (L : gmap Z vm_map_links) a k p n :
  L !! a = Some k -> <[a := mk_links p n (vme_start k) (vme_end k)]> L = alter (set_vme_next n) a (alter (set_vme_prev p) a L).
Proof.
  intros Hl. apply map_eq. intros i. destruct (decide (i = a)) as [->|Hne].
  - by rewrite !lookup_alter_eq, lookup_insert_eq, Hl.
  - by rewrite !lookup_alter_ne, lookup_insert_ne by done.
Qed.

Section own.
Context {St : Type} `{!ObjectOps St} `{!ObjectLaws St} (env : vm_env St).
Context (rs : gmap Z ring) (maps : gmap Z vm_map) (copies : gmap Z vm_map_copy) (map : Z).

Abbreviation vs := (vmem * St)%type.
Abbreviation loose := (gmap Z (vm_map_links * vm_map_entry)).

Record own (D : loose) (R : ring) (v : vm_map) (E : list vm_event) (G : refs) (st : vs) : Prop := mk_own {
  own_rep : vm_rep st.1 (<[map := R]> rs);
  own_maps : vm_maps st.1 = <[map := v]> maps;
  own_copies : vm_copies st.1 = copies;
  own_loose : forall a k e, D !! a = Some (k, e) ->
    vm_links st.1 !! a = Some k /\ vm_entries st.1 !! a = Some e /\ detached (<[map := R]> rs) a;
  own_events : vm_events st.1 = E;
  own_refs : ol_inv st.2 (rf_room G) (rf_held G)
}.

Lemma own_ring D R v E G st : own D R v E G st -> (<[map := R]> rs) !! map = Some R.
Proof. intros _. apply lookup_insert_eq. Qed.

Lemma own_perm D R v E G G' st :
  rf_room G = rf_room G' -> rf_held G ≡ₚ rf_held G' -> own D R v E G st -> own D R v E G' st.
Proof. intros Hk HG []. split; try done. rewrite <- Hk. by eapply ol_perm. Qed.

(** ** Reading *)

Lemma own_map_at D R v E G st Q : own D R v E G st -> Q v st -> mwp (map_at map) Q st.
Proof.
  intros Ho HQ. exists v, st. split; [|done]. unfold map_at, of_mem.
  by rewrite (own_maps _ _ _ _ _ _ Ho), lookup_insert_eq.
Qed.

Lemma own_links_map D R v E G st Q :
  own D R v E G st -> Q (mk_links (last_addr map (rg_list R)) (first_addr (rg_list R) map) (rg_lo R) (rg_hi R)) st ->
  mwp (vme_links_at map) Q st.
Proof.
  intros Ho HQ. eexists _, st. split; [|exact HQ]. unfold vme_links_at, of_mem.
  by rewrite (rep_links_header _ _ _ _ (own_rep _ _ _ _ _ _ Ho) (own_ring _ _ _ _ _ _ Ho)).
Qed.

Lemma own_links_at D R v E G st l1 r l2 Q :
  own D R v E G st -> rg_list R = l1 ++ r :: l2 ->
  Q (mk_links (last_addr map l1) (first_addr l2 map) (r_start r) (r_end r)) st -> mwp (vme_links_at (r_addr r)) Q st.
Proof.
  intros Ho El HQ. eexists _, st. split; [|exact HQ]. unfold vme_links_at, of_mem.
  by rewrite (rep_links _ _ _ _ (own_rep _ _ _ _ _ _ Ho) (own_ring _ _ _ _ _ _ Ho) _ _ _ El).
Qed.

Lemma own_entry_at D R v E G st r Q :
  own D R v E G st -> r ∈ rg_list R -> Q (r_entry r) st -> mwp (entry_at (r_addr r)) Q st.
Proof.
  intros Ho Hr HQ. eexists _, st. split; [|exact HQ]. unfold entry_at, of_mem.
  by rewrite (rep_entry _ _ _ _ (own_rep _ _ _ _ _ _ Ho) (own_ring _ _ _ _ _ _ Ho) _ Hr).
Qed.

Lemma own_loose_links D R v E G st a k e Q :
  own D R v E G st -> D !! a = Some (k, e) -> Q k st -> mwp (vme_links_at a) Q st.
Proof.
  intros Ho Ha HQ. eexists _, st. split; [|exact HQ]. unfold vme_links_at, of_mem.
  by rewrite (proj1 (own_loose _ _ _ _ _ _ Ho _ _ _ Ha)).
Qed.

Lemma own_loose_entry D R v E G st a k e Q :
  own D R v E G st -> D !! a = Some (k, e) -> Q e st -> mwp (entry_at a) Q st.
Proof.
  intros Ho Ha HQ. eexists _, st. split; [|exact HQ]. unfold entry_at, of_mem.
  by rewrite (proj1 (proj2 (own_loose _ _ _ _ _ _ Ho _ _ _ Ha))).
Qed.

Lemma own_fuel D R v E G st Q :
  own D R v E G st -> (forall n, (length (rg_list R) + 2 < n)%nat -> Q n st) -> mwp ring_fuel Q st.
Proof.
  intros Ho HQ. apply mwp_gets, HQ.
  pose proof (rep_size _ _ _ _ (own_rep _ _ _ _ _ _ Ho) (own_ring _ _ _ _ _ _ Ho)). lia.
Qed.

(** ** The record of the map, and events *)

Lemma own_update_map D R v E G st f Q :
  own D R v E G st -> (forall st', own D R (f v) E G st' -> Q tt st') -> mwp (update_map map f) Q st.
Proof.
  intros Ho HQ. apply mwp_bind. eapply own_map_at; [done|]. apply mwp_modify, HQ. destruct Ho as [H1 H2 H3 H4 H5 H6].
  split; try done.
  - eapply vm_rep_agree; [done|]. by intros.
  - simpl. by rewrite H2, insert_insert_eq.
Qed.

Lemma own_log_event D R v E G st e Q :
  own D R v E G st -> (forall st', own D R v (E ++ [e]) G st' -> Q tt st') -> mwp (log_event e) Q st.
Proof.
  intros [H1 H2 H3 H4 H5 H6] HQ. apply mwp_modify, HQ. split; try done.
  - eapply vm_rep_agree; [done|]. by intros.
  - simpl. by rewrite H5.
Qed.

Lemma own_object D R v E G st {A} (m : M St A) (P : A -> refs -> Prop) Q :
  own D R v E G st ->
  mwp m (fun x s' => exists G', P x G' /\ ol_inv s' (rf_room G') (rf_held G')) st.2 ->
  (forall x G' st', P x G' -> own D R v E G' st' -> Q x st') -> mwp (on_object m) Q st.
Proof.
  intros [H1 H2 H3 H4 H5 H6] (x & s' & Hm & G' & HP & HG) HQ. exists x, (st.1, s'). split.
  - unfold on_object. by rewrite Hm.
  - eapply HQ; [exact HP|]. by split.
Qed.

(** ** Entries *)

Lemma detached_ne R l1 r l2 a :
  detached (<[map := R]> rs) a -> rg_list R = l1 ++ r :: l2 -> a <> r_addr r.
Proof.
  intros Hd El ->. apply (Hd map R); [apply lookup_insert_eq|]. unfold nodes. rewrite El, addrs_app. simpl.
  rewrite elem_of_cons, elem_of_app, elem_of_cons. by right; right; left.
Qed.

Lemma detached_same R R' a :
  nodes map R' = nodes map R -> detached (<[map := R]> rs) a -> detached (<[map := R']> rs) a.
Proof.
  intros Hn Hd hdr R0. destruct (decide (hdr = map)) as [->|Hne].
  - rewrite lookup_insert_eq. intros [= <-]. rewrite Hn. apply Hd, lookup_insert_eq.
  - rewrite lookup_insert_ne by done. intros HR0. apply (Hd hdr). by rewrite lookup_insert_ne.
Qed.

(** A region changes in place. *)
Lemma own_change_region D R v E G st l1 r l2 r' L Es :
  own D R v E G st -> rg_list R = l1 ++ r :: l2 -> r_addr r' = r_addr r ->
  L = <[r_addr r := mk_links (last_addr map l1) (first_addr l2 map) (r_start r') (r_end r')]> (vm_links st.1) ->
  Es = <[r_addr r := r_entry r']> (vm_entries st.1) ->
  own D (with_list (l1 ++ r' :: l2) R) v E G (with_entries Es (with_links L st.1), st.2).
Proof.
  intros [H1 H2 H3 H4 H5 H6] El Ha HL HE. split; try done.
  - simpl. rewrite <- (insert_insert_eq rs map (with_list (l1 ++ r' :: l2) R) R). by eapply vm_rep_region; [done|apply lookup_insert_eq|..].
  - intros a k e Hak. destruct (H4 _ _ _ Hak) as (Hl & He & Hd). pose proof (detached_ne _ _ _ _ _ Hd El).
    simpl. rewrite HL, HE, !lookup_insert_ne by done. split_and!; [done..|].
    eapply detached_same; [|done]. by eapply nodes_with_region.
Qed.

Lemma own_update_entry D R v E G st l1 r l2 f Q :
  own D R v E G st -> rg_list R = l1 ++ r :: l2 ->
  (forall st', own D (with_list (l1 ++ mk_region (r_addr r) (r_start r) (r_end r) (f (r_entry r)) :: l2) R) v E G st' ->
     Q tt st') ->
  mwp (update_entry (r_addr r) f) Q st.
Proof.
  intros Ho El HQ. apply mwp_bind. eapply own_entry_at; [done|rewrite El; set_solver|]. apply mwp_modify, HQ.
  pose proof (rep_links _ _ _ _ (own_rep _ _ _ _ _ _ Ho) (own_ring _ _ _ _ _ _ Ho) _ _ _ El) as Hl.
  pose proof (own_change_region _ _ _ _ _ _ _ _ _ (mk_region (r_addr r) (r_start r) (r_end r) (f (r_entry r))) _ _
    Ho El eq_refl eq_refl eq_refl) as Ho'. simpl in Ho'. rewrite (insert_id (vm_links st.1)) in Ho' by done. destruct st as [[] ?]. exact Ho'.
Qed.

(** [f] leaves the links to the neighbours alone. *)
Lemma own_update_links D R v E G st l1 r l2 f s e Q :
  own D R v E G st -> rg_list R = l1 ++ r :: l2 ->
  (forall p n, f (mk_links p n (r_start r) (r_end r)) = mk_links p n s e) ->
  (forall st', own D (with_list (l1 ++ mk_region (r_addr r) s e (r_entry r) :: l2) R) v E G st' -> Q tt st') ->
  mwp (update_links (r_addr r) f) Q st.
Proof.
  intros Ho El Hf HQ. apply mwp_bind. eapply own_links_at; [done..|]. rewrite Hf. apply mwp_modify, HQ.
  pose proof (rep_entry _ _ _ _ (own_rep _ _ _ _ _ _ Ho) (own_ring _ _ _ _ _ _ Ho) r) as He.
  rewrite El in He. specialize (He ltac:(set_solver)).
  pose proof (own_change_region _ _ _ _ _ _ _ _ _ (mk_region (r_addr r) s e (r_entry r)) _ _
    Ho El eq_refl eq_refl eq_refl) as Ho'. simpl in Ho'.
  rewrite (insert_id (vm_entries st.1)) in Ho' by done. destruct st as [[] ?]. exact Ho'.
Qed.

(** An entry outside of the rings. *)
Lemma own_loose_update D R v E G st a k e k' e' :
  own D R v E G st -> D !! a = Some (k, e) ->
  own (<[a := (k', e')]> D) R v E G
    (with_entries (<[a := e']> (vm_entries st.1)) (with_links (<[a := k']> (vm_links st.1)) st.1), st.2).
Proof.
  intros [H1 H2 H3 H4 H5 H6] Ha. destruct (H4 _ _ _ Ha) as (Hl & He & Hd). split; try done.
  - eapply vm_rep_agree; [done|]. intros hdr R0 b HR0 Hb. assert (b <> a) by (intros ->; by eapply Hd).
    unfold agree_at. simpl. by rewrite !lookup_insert_ne.
  - intros b k0 e0. simpl. destruct (decide (b = a)) as [->|Hne].
    + rewrite !lookup_insert_eq. by intros [= <- <-].
    + rewrite !lookup_insert_ne by done. apply H4.
Qed.

Lemma own_loose_update_links D R v E G st a k e f Q :
  own D R v E G st -> D !! a = Some (k, e) ->
  (forall st', own (<[a := (f k, e)]> D) R v E G st' -> Q tt st') -> mwp (update_links a f) Q st.
Proof.
  intros Ho Ha HQ. apply mwp_bind. eapply own_loose_links; [done..|]. apply mwp_modify, HQ.
  pose proof (own_loose_update _ _ _ _ _ _ _ _ _ (f k) e Ho Ha) as Ho'.
  rewrite (insert_id (vm_entries st.1)) in Ho' by (by eapply own_loose). destruct st as [[] ?]. exact Ho'.
Qed.

Lemma own_loose_update_entry D R v E G st a k e f Q :
  own D R v E G st -> D !! a = Some (k, e) ->
  (forall st', own (<[a := (k, f e)]> D) R v E G st' -> Q tt st') -> mwp (update_entry a f) Q st.
Proof.
  intros Ho Ha HQ. apply mwp_bind. eapply own_loose_entry; [done..|]. apply mwp_modify, HQ.
  pose proof (own_loose_update _ _ _ _ _ _ _ _ _ k (f e) Ho Ha) as Ho'.
  rewrite (insert_id (vm_links st.1)) in Ho' by (by eapply own_loose). destruct st as [[] ?]. exact Ho'.
Qed.
(** ** Creating, linking, unlinking *)

Lemma mwp_update_links_raw (st : vs) a k f (Q : unit -> vs -> Prop) :
  vm_links st.1 !! a = Some k -> Q tt (with_links (alter f a (vm_links st.1)) st.1, st.2) -> mwp (update_links a f) Q st.
Proof.
  intros Ha HQ. apply mwp_bind. exists k, st. split; [unfold vme_links_at, of_mem; by rewrite Ha|]. apply mwp_modify.
  replace (<[a := f k]> (vm_links st.1)) with (alter f a (vm_links st.1)); [done|].
  apply map_eq. intros i. destruct (decide (i = a)) as [->|Hne].
  - by rewrite lookup_alter_eq, lookup_insert_eq, Ha.
  - by rewrite lookup_alter_ne, lookup_insert_ne.
Qed.

Lemma mwp_links_raw (st : vs) a k (Q : vm_map_links -> vs -> Prop) :
  vm_links st.1 !! a = Some k -> Q k st -> mwp (vme_links_at a) Q st.
Proof. intros Ha HQ. exists k, st. split; [|done]. unfold vme_links_at, of_mem. by rewrite Ha. Qed.

Definition linked_ring (n : Z) (l : list region) (R : ring) : ring :=
  mk_ring (rg_lo R) (rg_hi R) (mk_header (nentries (rg_header R) + n) (entries_pageable (rg_header R))) l.

Lemma detached_link R l1 l2 x a n :
  rg_list R = l1 ++ l2 -> a <> r_addr x -> detached (<[map := R]> rs) a ->
  detached (<[map := linked_ring n (l1 ++ x :: l2) R]> rs) a.
Proof.
  intros El Hne Hd hdr R0. destruct (decide (hdr = map)) as [->|Hneq].
  - rewrite lookup_insert_eq. intros [= <-]. specialize (Hd map R (lookup_insert_eq _ _ _)).
    unfold nodes in *. rewrite El, addrs_app in Hd. simpl. rewrite addrs_app. simpl.
    rewrite not_elem_of_cons, not_elem_of_app, ?not_elem_of_cons in *. tauto.
  - rewrite lookup_insert_ne by done. intros HR0. apply (Hd hdr). by rewrite lookup_insert_ne.
Qed.

Lemma detached_unlink R l1 x l2 a n :
  rg_list R = l1 ++ x :: l2 -> detached (<[map := R]> rs) a ->
  detached (<[map := linked_ring n (l1 ++ l2) R]> rs) a.
Proof.
  intros El Hd hdr R0. destruct (decide (hdr = map)) as [->|Hneq].
  - rewrite lookup_insert_eq. intros [= <-]. specialize (Hd map R (lookup_insert_eq _ _ _)).
    unfold nodes in *. rewrite El, addrs_app in Hd. simpl in *. rewrite addrs_app.
    rewrite not_elem_of_cons, not_elem_of_app, ?not_elem_of_cons in *. tauto.
  - rewrite lookup_insert_ne by done. intros HR0. apply (Hd hdr). by rewrite lookup_insert_ne.
Qed.

Lemma alter_lookup_is_Some {A} (f : A -> A) (L : gmap Z A) a b : is_Some (L !! b) -> is_Some (alter f a L !! b).
Proof.
  intros Hb. destruct (decide (a = b)) as [->|Hne]; [rewrite lookup_alter_eq|by rewrite lookup_alter_ne].
  destruct Hb as [x ->]. by eexists.
Qed.

(** The neighbours of a place in the ring. *)
Lemma own_neighbours D R v E G st l1 l2 :
  own D R v E G st -> rg_list R = l1 ++ l2 ->
  (exists k, vm_links st.1 !! last_addr map l1 = Some k /\ vme_next k = first_addr l2 map) /\
  (exists k, vm_links st.1 !! first_addr l2 map = Some k /\ vme_prev k = last_addr map l1) /\
  last_addr map l1 ∈ nodes map R /\ first_addr l2 map ∈ nodes map R.
Proof.
  intros Ho El. pose proof (own_rep _ _ _ _ _ _ Ho) as Hrep. pose proof (own_ring _ _ _ _ _ _ Ho) as HR.
  pose proof (rep_links_header _ _ _ _ Hrep HR) as Hh. split_and!.
  - destruct l1 as [|r l1 _] using rev_ind.
    + eexists. split; [exact Hh|]. by rewrite El.
    + rewrite last_addr_snoc. rewrite <- app_assoc in El. eexists. split; [by eapply rep_links|done].
  - destruct l2 as [|r l2].
    + eexists. split; [exact Hh|]. by rewrite El, app_nil_r.
    + eexists. split; [by eapply rep_links|done].
  - unfold nodes. rewrite El, addrs_app. destruct (last_addr_elem map l1) as [->|]; set_solver.
  - unfold nodes. rewrite El, addrs_app. destruct (first_addr_elem l2 map) as [->|]; set_solver.
Qed.
Lemma own_linked D R v E G st : own D R v E G st ->
  linked (vm_links st.1) map (rg_lo R) (rg_hi R) (rg_list R) /\ NoDup (nodes map R) /\
  vm_headers st.1 !! map = Some (rg_header R).
Proof.
  intros Ho. pose proof (vr_rings _ _ (own_rep _ _ _ _ _ _ Ho) _ _ (own_ring _ _ _ _ _ _ Ho)) as [H1 H2 H3 H4 H5].
  by split_and!.
Qed.

Lemma own_update_header D R v E G st f Q :
  own D R v E G st ->
  (forall st', st' = (with_headers (<[map := f (rg_header R)]> (vm_headers st.1)) st.1, st.2) -> Q tt st') ->
  mwp (update_header map f) Q st.
Proof.
  intros Ho HQ. apply mwp_bind. destruct (own_linked _ _ _ _ _ _ Ho) as (_ & _ & Hh).
  eexists _, st. split; [unfold header_at, of_mem; by rewrite Hh|]. by apply mwp_modify, HQ.
Qed.

(** The memory after the link. *)
Lemma own_link_memory D R v E G st l1 l2 x k0 m' :
  own D R v E G st -> rg_list R = l1 ++ l2 -> D !! r_addr x = Some (k0, r_entry x) ->
  vm_links m' = link_links (vm_links st.1) (last_addr map l1) (r_addr x) (r_start x) (r_end x) (first_addr l2 map) ->
  vm_entries m' = vm_entries st.1 ->
  vm_headers m' = <[map := mk_header (nentries (rg_header R) + 1) (entries_pageable (rg_header R))]> (vm_headers st.1) ->
  vm_maps m' = vm_maps st.1 -> vm_copies m' = vm_copies st.1 -> vm_events m' = vm_events st.1 ->
  own (delete (r_addr x) D) (linked_ring 1 (l1 ++ x :: l2) R) v E G (m', st.2).
Proof.
  intros Ho El HD HL HE HH Hm Hc Hev. destruct (own_linked _ _ _ _ _ _ Ho) as (Hlk & Hnd & Hh).
  destruct (own_loose _ _ _ _ _ _ Ho _ _ _ HD) as (Hl & He & Hd).
  destruct (own_neighbours _ _ _ _ _ _ _ _ Ho El) as (_ & _ & Hp & Hn).
  assert (Hx : r_addr x ∉ nodes map R) by (apply Hd, lookup_insert_eq).
  assert (Hother : forall a, a ∉ nodes map R -> a <> r_addr x -> vm_links m' !! a = vm_links st.1 !! a).
  { intros a Ha Hax. rewrite HL. unfold link_links.
    rewrite !lookup_alter_ne, lookup_insert_ne; [done|..]; intros Heq; first [by apply Hax|by apply Ha; rewrite <- Heq]. }
  assert (Hnodes : forall a, a ∈ nodes map (linked_ring 1 (l1 ++ x :: l2) R) <-> a = r_addr x \/ a ∈ nodes map R).
  { intros a. unfold nodes. simpl. rewrite El, !addrs_app. simpl.
    rewrite !elem_of_cons, !elem_of_app, elem_of_cons. tauto. }
  destruct Ho as [H1 H2 H3 H4 H5 H6]. split; simpl; try congruence; try done.
  - rewrite <- (insert_insert_eq rs map (linked_ring 1 (l1 ++ x :: l2) R) R).
    eapply vm_rep_change; [done|apply lookup_insert_eq|..].
    + rewrite El in Hlk. unfold nodes in Hx, Hnd. rewrite El in Hx, Hnd.
      destruct (linked_link _ _ _ _ _ _ _ Hlk Hnd Hx) as [Hk1 Hk2]. rewrite <- HL in Hk1, Hk2.
      split; simpl; [by rewrite HH, lookup_insert_eq|done|done|..].
      * intros r Hr. rewrite HE. apply elem_of_app in Hr. rewrite elem_of_cons in Hr.
        assert (Hc' : r = x \/ r ∈ rg_list R) by (rewrite El, elem_of_app; tauto). destruct Hc' as [->|Hr']; [done|].
        by eapply rep_entry; [|apply lookup_insert_eq|].
      * unfold nodes. simpl. rewrite addrs_app in *. simpl. rewrite NoDup_cons in *.
        rewrite not_elem_of_app, not_elem_of_cons, NoDup_app, NoDup_cons in *.
        rewrite ?not_elem_of_cons, ?not_elem_of_app in Hx. destruct Hnd as ([? ?] & ? & Hdd & ?).
        destruct Hx as (Hxh & Hx1 & Hx2). split_and!; try done. intros y Hy. rewrite not_elem_of_cons.
        split; [by intros ->|by apply Hdd].
    + intros a. rewrite Hnodes. intros [->|Ha]; [by right|by left].
    + intros a Ha. rewrite Hnodes. intros Ha'. unfold agree_at. rewrite HE, HH, lookup_insert_ne.
      * split_and!; [apply Hother; tauto|done..].
      * intros <-. apply Ha. unfold nodes. by left.
  - intros a k e Hak. apply lookup_delete_Some in Hak as [Hne Hak]. destruct (H4 _ _ _ Hak) as (Hla & Hea & Hda).
    rewrite HE, Hother by (done || (by apply Hda, lookup_insert_eq)). split_and!; [done..|].
    eapply detached_link; [done| |done]. done.
Qed.

Lemma own_link D R v E G st l1 l2 a k e Q :
  own D R v E G st -> rg_list R = l1 ++ l2 -> D !! a = Some (k, e) ->
  (forall st', own (delete a D) (linked_ring 1 (l1 ++ mk_region a (vme_start k) (vme_end k) e :: l2) R) v E G st' ->
     Q tt st') ->
  mwp (_vm_map_entry_link map (last_addr map l1) a) Q st.
Proof.
  intros Ho El HD HQ. destruct (own_loose _ _ _ _ _ _ Ho _ _ _ HD) as (Hl & He & Hd).
  assert (Hx : a ∉ nodes map R) by (apply Hd, lookup_insert_eq).
  destruct (own_neighbours _ _ _ _ _ _ _ _ Ho El) as ((kp & Hkp & Hkp') & (kn & Hkn & _) & Hp & Hn).
  assert (last_addr map l1 <> a) by (intros Heq; apply Hx; by rewrite <- Heq).
  assert (first_addr l2 map <> a) by (intros Heq; apply Hx; by rewrite <- Heq).
  apply mwp_bind. eapply own_update_header; [done|]. intros st' ->.
  apply mwp_bind. eapply mwp_update_links_raw; [exact Hl|]. simpl.
  apply mwp_bind, mwp_bind. eapply mwp_links_raw; [simpl; by rewrite lookup_alter_ne|]. apply mwp_ret. rewrite Hkp'.
  apply mwp_bind. eapply mwp_update_links_raw; [simpl; rewrite lookup_alter_eq, Hl; done|]. simpl.
  apply mwp_bind, mwp_bind. eapply mwp_links_raw; [simpl; rewrite !lookup_alter_eq, Hl; done|]. apply mwp_ret. simpl.
  apply mwp_bind. eapply mwp_update_links_raw; [simpl; rewrite !lookup_alter_ne by done; exact Hkn|]. simpl.
  apply mwp_bind, mwp_bind. eapply mwp_links_raw; [simpl; rewrite lookup_alter_ne, !lookup_alter_eq, Hl by done; done|].
  apply mwp_ret. simpl.
  assert (Hs : is_Some (alter (set_vme_prev a) (first_addr l2 map) (alter (set_vme_next (first_addr l2 map)) a
    (alter (set_vme_prev (last_addr map l1)) a (vm_links st.1))) !! last_addr map l1)).
  { do 3 apply alter_lookup_is_Some. by rewrite Hkp. }
  destruct Hs as [ks Hks]. eapply mwp_update_links_raw; [exact Hks|]. apply HQ.
  eapply (own_link_memory _ _ _ _ _ st _ _ (mk_region a (vme_start k) (vme_end k) e)); try done; simpl.
  unfold link_links. by rewrite (alter_links_insert _ _ k) by done.
Qed.
Lemma own_unlink_memory D R v E G st l1 x l2 m' :
  own D R v E G st -> rg_list R = l1 ++ x :: l2 ->
  vm_links m' = unlink_links (vm_links st.1) (last_addr map l1) (first_addr l2 map) ->
  vm_entries m' = vm_entries st.1 ->
  vm_headers m' = <[map := mk_header (nentries (rg_header R) + -1) (entries_pageable (rg_header R))]> (vm_headers st.1) ->
  vm_maps m' = vm_maps st.1 -> vm_copies m' = vm_copies st.1 -> vm_events m' = vm_events st.1 ->
  own (<[r_addr x := (mk_links (last_addr map l1) (first_addr l2 map) (r_start x) (r_end x), r_entry x)]> D)
    (linked_ring (-1) (l1 ++ l2) R) v E G (m', st.2).
Proof.
  intros Ho El HL HE HH Hm Hc Hev. destruct (own_linked _ _ _ _ _ _ Ho) as (Hlk & Hnd & Hh).
  destruct (rep_nodup_split _ _ _ _ (own_rep _ _ _ _ _ _ Ho) (own_ring _ _ _ _ _ _ Ho) _ _ _ El)
    as (Hx1 & Hx2 & Hxh & Hh1 & Hh2).
  pose proof (rep_links _ _ _ _ (own_rep _ _ _ _ _ _ Ho) (own_ring _ _ _ _ _ _ Ho) _ _ _ El) as Hlx.
  pose proof (rep_entry _ _ _ _ (own_rep _ _ _ _ _ _ Ho) (own_ring _ _ _ _ _ _ Ho) x
    ltac:(rewrite El; apply elem_of_app; right; by left)) as Hex.
  assert (Hnx : first_addr l2 map <> r_addr x).
  { destruct (first_addr_elem l2 map) as [->|Hin]; [done|]. by intros Heq; rewrite Heq in Hin. }
  assert (Hpx : last_addr map l1 <> r_addr x).
  { destruct (last_addr_elem map l1) as [->|Hin]; [done|]. by intros Heq; rewrite Heq in Hin. }
  assert (Hnodes : forall a, a ∈ nodes map R <-> a = r_addr x \/ a ∈ nodes map (linked_ring (-1) (l1 ++ l2) R)).
  { intros a. unfold nodes. simpl. rewrite El, !addrs_app. simpl.
    rewrite !elem_of_cons, !elem_of_app, elem_of_cons. tauto. }
  assert (Hother : forall a, (a ∉ nodes map R) \/ a = r_addr x -> vm_links m' !! a = vm_links st.1 !! a).
  { intros a Ha. rewrite HL. unfold unlink_links.
    rewrite !lookup_alter_ne; [done|..]; intros Heq; destruct Ha as [Ha| ->]; try congruence; apply Ha; rewrite <- Heq.
    - unfold nodes. rewrite El, addrs_app. simpl. rewrite elem_of_cons, elem_of_app, elem_of_cons.
      destruct (first_addr_elem l2 map) as [->|]; tauto.
    - unfold nodes. rewrite El, addrs_app. simpl. rewrite elem_of_cons, elem_of_app, elem_of_cons.
      destruct (last_addr_elem map l1) as [->|]; tauto. }
  assert (Hdx : detached (<[map := linked_ring (-1) (l1 ++ l2) R]> rs) (r_addr x)).
  { intros hdr R0. destruct (decide (hdr = map)) as [->|Hneq].
    - rewrite lookup_insert_eq. intros [= <-]. unfold nodes. simpl. rewrite addrs_app.
      rewrite not_elem_of_cons, not_elem_of_app. tauto.
    - rewrite lookup_insert_ne by done. intros HR0 Hin. apply Hneq.
      eapply (vr_disjoint _ _ (own_rep _ _ _ _ _ _ Ho)); [by rewrite lookup_insert_ne|apply lookup_insert_eq|done|].
      apply Hnodes. by left. }
  destruct Ho as [H1 H2 H3 H4 H5 H6]. split; simpl; try congruence; try done.
  - rewrite <- (insert_insert_eq rs map (linked_ring (-1) (l1 ++ l2) R) R).
    eapply vm_rep_change; [done|apply lookup_insert_eq|..].
    + rewrite El in Hlk. unfold nodes in Hnd. rewrite El in Hnd.
      destruct (linked_unlink _ _ _ _ _ _ _ Hlk Hnd) as [Hk1 Hk2]. rewrite <- HL in Hk1, Hk2.
      split; simpl; [by rewrite HH, lookup_insert_eq|done|done|..].
      * intros r Hr. rewrite HE. eapply rep_entry; [done|apply lookup_insert_eq|]. rewrite El.
        apply elem_of_app in Hr. rewrite elem_of_app, elem_of_cons. tauto.
      * unfold nodes. simpl. rewrite addrs_app in *. simpl in Hnd. rewrite NoDup_cons in *.
        rewrite not_elem_of_app, NoDup_app in *. rewrite not_elem_of_cons, NoDup_cons in Hnd.
        destruct Hnd as ([? [? ?]] & ? & Hdd & ?). split_and!; try tauto. intros y Hy Hy2.
        apply (Hdd y Hy). by right.
    + intros a Ha. left. apply Hnodes. by right.
    + intros a Ha Ha'. unfold agree_at. rewrite HE, HH, lookup_insert_ne.
      * split_and!; [apply Hother; tauto|done..].
      * intros <-. apply Ha. unfold nodes. by left.
  - intros a k e. destruct (decide (a = r_addr x)) as [->|Hne].
    + rewrite lookup_insert_eq. intros [= <- <-]. rewrite HE, Hother by tauto. done.
    + rewrite lookup_insert_ne by done. intros Hak. destruct (H4 _ _ _ Hak) as (Hla & Hea & Hda).
      rewrite HE, Hother by (left; by apply Hda, lookup_insert_eq). split_and!; [done..|].
      by eapply detached_unlink.
Qed.

Lemma own_unlink D R v E G st l1 x l2 Q :
  own D R v E G st -> rg_list R = l1 ++ x :: l2 ->
  (forall st', own (<[r_addr x := (mk_links (last_addr map l1) (first_addr l2 map) (r_start x) (r_end x), r_entry x)]> D)
     (linked_ring (-1) (l1 ++ l2) R) v E G st' -> Q tt st') ->
  mwp (_vm_map_entry_unlink map (r_addr x)) Q st.
Proof.
  intros Ho El HQ.
  destruct (rep_nodup_split _ _ _ _ (own_rep _ _ _ _ _ _ Ho) (own_ring _ _ _ _ _ _ Ho) _ _ _ El)
    as (Hx1 & Hx2 & Hxh & Hh1 & Hh2).
  pose proof (rep_links _ _ _ _ (own_rep _ _ _ _ _ _ Ho) (own_ring _ _ _ _ _ _ Ho) _ _ _ El) as Hlx.
  assert (Hnx : first_addr l2 map <> r_addr x).
  { destruct (first_addr_elem l2 map) as [->|Hin]; [done|]. by intros Heq; rewrite Heq in Hin. }
  destruct (own_neighbours _ _ _ _ _ _ _ _ Ho El) as ((kp & Hkp & _) & _ & _ & _).
  assert (El' : rg_list R = (l1 ++ [x]) ++ l2) by (by rewrite <- app_assoc).
  destruct (own_neighbours _ _ _ _ _ _ _ _ Ho El') as (_ & (kn & Hkn & _) & _ & _).
  apply mwp_bind. eapply own_update_header; [done|]. intros st' ->.
  do 2 (apply mwp_bind, mwp_bind; eapply mwp_links_raw; [exact Hlx|]; apply mwp_ret; simpl).
  apply mwp_bind. eapply mwp_update_links_raw; [exact Hkn|]. simpl.
  do 2 (apply mwp_bind, mwp_bind; eapply mwp_links_raw; [simpl; rewrite lookup_alter_ne by done; exact Hlx|];
    apply mwp_ret; simpl).
  destruct (alter_lookup_is_Some (set_vme_prev (last_addr map l1)) (vm_links st.1) (first_addr l2 map) (last_addr map l1))
    as [ks Hks]; [by rewrite Hkp|].
  eapply mwp_update_links_raw; [exact Hks|]. apply HQ. by eapply (own_unlink_memory _ _ _ _ _ st).
Qed.

Lemma own_dispose D R v E G st a k e Q :
  own D R v E G st -> D !! a = Some (k, e) ->
  (forall st', own (delete a D) R v E G st' -> Q tt st') -> mwp (_vm_map_entry_dispose a) Q st.
Proof.
  intros [H1 H2 H3 H4 H5 H6] Ha HQ. apply mwp_modify, HQ. destruct (H4 _ _ _ Ha) as (_ & _ & Hd).
  split; try done.
  - eapply vm_rep_agree; [done|]. intros hdr R0 b HR0 Hb. assert (b <> a) by (intros ->; by eapply Hd).
    unfold agree_at. simpl. by rewrite !lookup_delete_ne.
  - intros b k0 e0 Hb. apply lookup_delete_Some in Hb as [Hne Hb]. simpl. rewrite !lookup_delete_ne by done.
    by apply H4.
Qed.
Hypothesis Hzalloc : forall L, L !! zalloc env L = None.

Lemma own_create D R v E G st Q :
  own D R v E G st ->
  (forall a st', D !! a = None -> own (<[a := (no_links, no_entry)]> D) R v E G st' -> Q a st') ->
  mwp (_vm_map_entry_create env) Q st.
Proof.
  intros [H1 H2 H3 H4 H5 H6] HQ. apply mwp_bind, mwp_gets, mwp_bind, mwp_modify, mwp_ret.
  set (a := zalloc env (vm_links st.1)). assert (Ha : vm_links st.1 !! a = None) by apply Hzalloc.
  assert (HD : D !! a = None).
  { destruct (D !! a) as [[k e]|] eqn:E1; [|done]. destruct (H4 _ _ _ E1). congruence. }
  assert (Hd : detached (<[map := R]> rs) a) by (intros hdr R0 HR0; by eapply rep_fresh_node).
  apply HQ; [done|]. split; try done.
  - eapply vm_rep_agree; [done|]. intros hdr R0 b HR0 Hb. assert (b <> a) by (intros ->; by eapply Hd).
    unfold agree_at. simpl. by rewrite !lookup_insert_ne.
  - intros b k e. simpl. destruct (decide (b = a)) as [->|Hne].
    + rewrite !lookup_insert_eq. by intros [= <- <-].
    + rewrite !lookup_insert_ne by done. apply H4.
Qed.
End own.
