(* ===== verification/VmMapInv.v ===== *)
(** * Address maps: the invariant and lookup

    [mapped l a] is what a map means: the entry that holds for the address [a],
    with the offset of that address in the object.  [map_wf] is the invariant
    of a map: the entries are in order, do not overlap and lie between the
    limits of the map, and the counters and the two hints agree with them. *)

From S2P Require Import Prelude Names Splay Table Space Hash Entry World Vm VmMap VmRing VmOwn.

(** ** The meaning of a list of regions *)

Definition covers (r : region) (a : Z) : bool := (r_start r <=? a) && (a <? r_end r).

Definition entry_for (r : region) (a : Z) : vm_map_entry :=
  set_vme_offset (u32 (vme_offset (r_entry r) + (a - r_start r))) (r_entry r).

Fixpoint mapped (l : list region) (a : Z) : option vm_map_entry :=
  match l with
  | [] => None
  | r :: l => if covers r a then Some (entry_for r a) else mapped l a
  end.

(** The regions follow each other between [lo] and [hi]. *)
Fixpoint ordered (lo : Z) (l : list region) (hi : Z) : Prop :=
  match l with
  | [] => lo <= hi
  | r :: l => lo <= r_start r /\ r_start r < r_end r /\ ordered (r_end r) l hi
  end.

Definition limit (lo : Z) (l : list region) : Z := match last l with None => lo | Some r => r_end r end.

Fixpoint total (l : list region) : Z :=
  match l with [] => 0 | r :: l => (r_end r - r_start r) + total l end.

Definition refs_of (l : list region) : list Z := l ≫= fun r => held (vme_object (r_entry r)).

Definition plain (l : list region) : Prop := Forall (fun r => is_sub_map (r_entry r) = false) l.

Record map_wf (map : Z) (R : ring) (v : vm_map) : Prop := mk_map_wf {
  wf_ordered : ordered (rg_lo R) (rg_list R) (rg_hi R);
  wf_lo : 0 <= rg_lo R;
  wf_hi : rg_hi R <= u32_max;
  wf_count : nentries (rg_header R) = Z.of_nat (length (rg_list R));
  wf_size : vm_size v = total (rg_list R);
  wf_hint : vm_hint v ∈ nodes map R;
  wf_first_free : vm_first_free v ∈ nodes map R
}.

(** ** Lists of regions *)

Lemma limit_cons lo r l : limit lo (r :: l) = limit (r_end r) l.
Proof.
  unfold limit. destruct l as [|x l]; [done|]. rewrite last_cons_cons.
  destruct (last (x :: l)) eqn:E; [done|]. by apply last_None in E.
Qed.

Lemma limit_snoc lo l r : limit lo (l ++ [r]) = r_end r.
Proof. unfold limit. by rewrite last_snoc. Qed.

Lemma limit_app lo l1 l2 : limit lo (l1 ++ l2) = limit (limit lo l1) l2.
Proof. revert lo. induction l1 as [|r l1 IH]; intros lo; [done|]. simpl. by rewrite !limit_cons, IH. Qed.

Lemma ordered_le lo l hi : ordered lo l hi -> lo <= hi.
Proof. revert lo. induction l as [|r l IH]; intros lo; simpl; [done|]. intros (? & ? & H). apply IH in H. lia. Qed.

Lemma ordered_limit lo l hi : ordered lo l hi -> lo <= limit lo l <= hi.
Proof.
  revert lo. induction l as [|r l IH]; intros lo; [simpl; unfold limit; simpl; lia|]. rewrite limit_cons. simpl.
  intros (? & ? & H). apply IH in H. lia.
Qed.

Lemma ordered_app lo l1 l2 hi :
  ordered lo (l1 ++ l2) hi <-> ordered lo l1 (limit lo l1) /\ ordered (limit lo l1) l2 hi.
Proof.
  revert lo. induction l1 as [|r l1 IH]; intros lo; simpl.
  - unfold limit. simpl. split; [intros H; split; [lia|done]|tauto].
  - rewrite limit_cons, IH. tauto.
Qed.

Lemma ordered_weaken lo lo' l hi hi' : lo' <= lo -> hi <= hi' -> ordered lo l hi -> ordered lo' l hi'.
Proof.
  revert lo lo'. induction l as [|r l IH]; intros lo lo' H1 H2; simpl; [lia|]. intros (? & ? & H).
  split_and!; [lia|done|]. by eapply IH; [| |exact H].
Qed.

Lemma ordered_mem lo l hi r : ordered lo l hi -> r ∈ l -> lo <= r_start r /\ r_start r < r_end r /\ r_end r <= hi.
Proof.
  revert lo. induction l as [|x l IH]; intros lo H Hr; [by apply elem_of_nil in Hr|]. destruct H as (? & ? & H).
  apply elem_of_cons in Hr as [->|Hr].
  - apply ordered_le in H. lia.
  - destruct (IH _ H Hr). lia.
Qed.

Lemma ordered_split lo l1 r l2 hi :
  ordered lo (l1 ++ r :: l2) hi ->
  ordered lo l1 (r_start r) /\ r_start r < r_end r /\ ordered (r_end r) l2 hi.
Proof.
  intros H. apply ordered_app in H as [H1 (H2 & H3 & H4)]. split_and!; [|done..].
  by eapply ordered_weaken; [| |exact H1].
Qed.

Lemma ordered_join lo l1 mid l2 hi : ordered lo l1 mid -> ordered mid l2 hi -> ordered lo (l1 ++ l2) hi.
Proof.
  intros H1 H2. apply ordered_app. pose proof (ordered_limit _ _ _ H1). split.
  - revert lo H1 H. induction l1 as [|r l1 IH]; intros lo H1 H; [unfold limit; simpl; lia|].
    rewrite limit_cons. simpl in *. destruct H1 as (? & ? & H1). split_and!; [done..|].
    apply IH; [done|]. by apply ordered_limit.
  - eapply ordered_weaken; [| |exact H2]; lia.
Qed.

Lemma total_app l1 l2 : total (l1 ++ l2) = total l1 + total l2.
Proof. induction l1 as [|r l1 IH]; simpl; lia. Qed.

Lemma ordered_total lo l hi : ordered lo l hi -> 0 <= total l <= hi - lo.
Proof. revert lo. induction l as [|r l IH]; intros lo; simpl; [lia|]. intros (? & ? & H). apply IH in H. lia. Qed.

Lemma refs_of_app l1 l2 : refs_of (l1 ++ l2) = refs_of l1 ++ refs_of l2.
Proof. apply bind_app. Qed.

Lemma refs_of_mid l1 r l2 : refs_of (l1 ++ r :: l2) ≡ₚ held (vme_object (r_entry r)) ++ refs_of (l1 ++ l2).
Proof. rewrite !refs_of_app. cbn. by rewrite Permutation_app_swap_app. Qed.

(** ** What is mapped *)

Lemma mapped_app l1 l2 a : mapped (l1 ++ l2) a = match mapped l1 a with Some e => Some e | None => mapped l2 a end.
Proof. induction l1 as [|r l1 IH]; simpl; [done|]. by destruct (covers r a). Qed.

Lemma mapped_below lo l hi a : ordered lo l hi -> a < lo -> mapped l a = None.
Proof.
  revert lo. induction l as [|r l IH]; intros lo H Ha; [done|]. destruct H as (? & ? & H). simpl. unfold covers.
  destruct (Z.leb_spec (r_start r) a); [lia|]. simpl. apply (IH _ H). lia.
Qed.

Lemma mapped_above lo l hi a : ordered lo l hi -> hi <= a -> mapped l a = None.
Proof.
  revert lo. induction l as [|r l IH]; intros lo H Ha; [done|]. destruct H as (? & ? & H). simpl. unfold covers.
  pose proof (ordered_le _ _ _ H). destruct (Z.ltb_spec a (r_end r)); [lia|]. rewrite andb_false_r. by apply (IH _ H).
Qed.

Lemma mapped_at lo l1 r l2 hi a :
  ordered lo (l1 ++ r :: l2) hi -> r_start r <= a < r_end r -> mapped (l1 ++ r :: l2) a = Some (entry_for r a).
Proof.
  intros H Ha. apply ordered_split in H as (H1 & _ & _). rewrite mapped_app, (mapped_above _ _ _ _ H1) by lia.
  simpl. unfold covers. destruct (Z.leb_spec (r_start r) a), (Z.ltb_spec a (r_end r)); try lia. done.
Qed.

Lemma mapped_gap lo l1 l2 hi a :
  ordered lo l1 a -> ordered (a + 1) l2 hi -> mapped (l1 ++ l2) a = None.
Proof. intros H1 H2. rewrite mapped_app, (mapped_above _ _ _ _ H1) by lia. eapply mapped_below; [exact H2|lia]. Qed.

(** ** Lookup *)

Section lookup.
Context {St : Type} `{!ObjectOps St} `{!ObjectLaws St}.
Context (rs : gmap Z ring) (maps : gmap Z vm_map) (copies : gmap Z vm_map_copy) (map : Z).

Abbreviation vs := (vmem * St)%type.
Abbreviation own := (own rs maps copies map).

Lemma own_next D R v E G (st : vs) l1 l2 Q :
  own D R v E G st -> rg_list R = l1 ++ l2 -> Q (first_addr l2 map) st -> mwp (next_of (last_addr map l1)) Q st.
Proof.
  intros Ho El HQ. destruct (own_neighbours _ _ _ _ _ _ _ _ _ _ _ _ Ho El) as ((k & Hk & Hn) & _).
  apply mwp_bind. eapply mwp_links_raw; [exact Hk|]. apply mwp_ret. by rewrite Hn.
Qed.

Lemma own_prev D R v E G (st : vs) l1 l2 Q :
  own D R v E G st -> rg_list R = l1 ++ l2 -> Q (last_addr map l1) st -> mwp (prev_of (first_addr l2 map)) Q st.
Proof.
  intros Ho El HQ. destruct (own_neighbours _ _ _ _ _ _ _ _ _ _ _ _ Ho El) as (_ & (k & Hk & Hn) & _).
  apply mwp_bind. eapply mwp_links_raw; [exact Hk|]. apply mwp_ret. by rewrite Hn.
Qed.

Lemma own_next_region D R v E G (st : vs) l1 r l2 Q :
  own D R v E G st -> rg_list R = l1 ++ r :: l2 -> Q (first_addr l2 map) st -> mwp (next_of (r_addr r)) Q st.
Proof. intros Ho El HQ. apply mwp_bind. eapply own_links_at; [done..|]. by apply mwp_ret. Qed.

Lemma own_prev_region D R v E G (st : vs) l1 r l2 Q :
  own D R v E G st -> rg_list R = l1 ++ r :: l2 -> Q (last_addr map l1) st -> mwp (prev_of (r_addr r)) Q st.
Proof. intros Ho El HQ. apply mwp_bind. eapply own_links_at; [done..|]. by apply mwp_ret. Qed.

Lemma own_start_region D R v E G (st : vs) l1 r l2 Q :
  own D R v E G st -> rg_list R = l1 ++ r :: l2 -> Q (r_start r) st -> mwp (start_of (r_addr r)) Q st.
Proof. intros Ho El HQ. apply mwp_bind. eapply own_links_at; [done..|]. by apply mwp_ret. Qed.

Lemma own_end_region D R v E G (st : vs) l1 r l2 Q :
  own D R v E G st -> rg_list R = l1 ++ r :: l2 -> Q (r_end r) st -> mwp (end_of (r_addr r)) Q st.
Proof. intros Ho El HQ. apply mwp_bind. eapply own_links_at; [done..|]. by apply mwp_ret. Qed.

Lemma own_start_map D R v E G (st : vs) Q : own D R v E G st -> Q (rg_lo R) st -> mwp (start_of map) Q st.
Proof. intros Ho HQ. apply mwp_bind. eapply own_links_map; [done..|]. by apply mwp_ret. Qed.

Lemma own_end_map D R v E G (st : vs) Q : own D R v E G st -> Q (rg_hi R) st -> mwp (end_of map) Q st.
Proof. intros Ho HQ. apply mwp_bind. eapply own_links_map; [done..|]. by apply mwp_ret. Qed.

Lemma own_next_map D R v E G (st : vs) Q :
  own D R v E G st -> Q (first_addr (rg_list R) map) st -> mwp (next_of map) Q st.
Proof. intros Ho HQ. by eapply (own_next _ _ _ _ _ _ [] (rg_list R)). Qed.

Lemma own_addr_ne D R v E G (st : vs) r : own D R v E G st -> r ∈ rg_list R -> r_addr r <> map.
Proof. intros Ho Hr. by eapply (rep_addr_ne _ _ _ _ (own_rep _ _ _ _ _ _ _ _ _ _ Ho) (own_ring _ _ _ _ _ _ _ _ _ _ Ho)). Qed.

Lemma own_first_ne D R v E G (st : vs) l1 l2 l3 :
  own D R v E G st -> rg_list R = l1 ++ l2 ++ l3 -> l2 <> [] -> first_addr (l2 ++ l3) map <> first_addr l3 map.
Proof.
  intros Ho El Hne. destruct l2 as [|r l2]; [done|]. simpl.
  assert (El' : rg_list R = l1 ++ r :: (l2 ++ l3)) by (by rewrite El).
  destruct (rep_nodup_split _ _ _ _ (own_rep _ _ _ _ _ _ _ _ _ _ Ho) (own_ring _ _ _ _ _ _ _ _ _ _ Ho) _ _ _ El')
    as (_ & H2 & H3 & _). rewrite addrs_app, not_elem_of_app in H2.
  destruct (first_addr_elem l3 map) as [->|Hin]; [done|]. intros Heq. apply H2. by rewrite Heq.
Qed.

(** The answers of a lookup: the region of the address, or the place between
    two regions where it would be. *)
Definition found_at (R : ring) (address : Z) (r : Z + Z) : Prop :=
  match r with
  | inl a => exists l1 x l2, rg_list R = l1 ++ x :: l2 /\ a = r_addr x /\ r_start x <= address < r_end x
  | inr a => exists l1 l2, rg_list R = l1 ++ l2 /\ a = first_addr l2 map /\
      limit (rg_lo R) l1 <= Z.max address (rg_lo R) /\ Forall (fun x => address < r_start x) l2
  end.

Lemma ordered_all_above lo r l hi a : ordered lo (r :: l) hi -> a < r_start r -> Forall (fun x => a < r_start x) (r :: l).
Proof.
  revert lo r. induction l as [|x l IH]; intros lo r H Ha; constructor; try done.
  destruct H as (? & ? & H). eapply IH; [exact H|]. destruct H. lia.
Qed.

Lemma entry_lookup_loop_spec D R v E G (st : vs) address l2 l1 l3 fuel :
  own D R v E G st -> map_wf map R v -> rg_list R = l1 ++ l2 ++ l3 ->
  limit (rg_lo R) l1 <= Z.max address (rg_lo R) ->
  l3 = [] \/ Exists (fun x => address < r_start x) l2 -> (length l2 < fuel)%nat ->
  mwp (entry_lookup_loop fuel (first_addr (l2 ++ l3) map) (first_addr l3 map) address)
    (fun r st' => found_at R address r /\ st' = st) st.
Proof.
  intros Ho Hwf. revert l1 fuel. induction l2 as [|r l2 IH]; intros l1 fuel El Hl Hc Hfuel.
  - destruct fuel as [|fuel]; simpl; rewrite Z.eqb_refl; apply mwp_ret; (split; [|done]); exists l1, l3;
      (split_and!; [done..|]); destruct Hc as [->|Hc]; [done|by inversion Hc|done|by inversion Hc].
  - destruct fuel as [|fuel]; [simpl in Hfuel; lia|]. cbn [entry_lookup_loop].
    pose proof (own_first_ne _ _ _ _ _ _ _ _ _ Ho El ltac:(done)) as Hne.
    rewrite (proj2 (Z.eqb_neq _ _) Hne). cbn [app first_addr].
    assert (El' : rg_list R = l1 ++ r :: (l2 ++ l3)) by (by rewrite El).
    pose proof (wf_ordered _ _ _ Hwf) as Hord. rewrite El' in Hord.
    apply mwp_bind. eapply own_end_region; [done..|].
    destruct (Z.ltb_spec address (r_end r)) as [Hlt|Hge].
    + apply mwp_bind. eapply own_start_region; [done..|].
      destruct (Z.leb_spec (r_start r) address) as [Hle|Hgt]; apply mwp_ret; (split; [|done]).
      * exists l1, r, (l2 ++ l3). by split_and!.
      * exists l1, (r :: l2 ++ l3). split_and!; [done..|].
        apply ordered_app in Hord as [_ Hord]. by eapply ordered_all_above.
    + apply mwp_bind. eapply own_next_region; [done..|].
      apply (IH (l1 ++ [r])); [by rewrite El, <- app_assoc| | |simpl in Hfuel; lia].
      * rewrite limit_snoc. lia.
      * destruct Hc as [->|Hc]; [by left|right]. apply Exists_cons in Hc as [Hc|Hc]; [|done].
        apply ordered_split in Hord. lia.
Qed.

Definition lookup_answer (R : ring) (address : Z) (r : bool * Z) : Prop :=
  if r.1 then exists l1 x l2, rg_list R = l1 ++ x :: l2 /\ r.2 = r_addr x /\ r_start x <= address < r_end x
  else exists l1 l2, rg_list R = l1 ++ l2 /\ r.2 = last_addr map l1 /\
    limit (rg_lo R) l1 <= Z.max address (rg_lo R) /\ Forall (fun x => address < r_start x) l2.

Lemma nodes_region R l1 x l2 : rg_list R = l1 ++ x :: l2 -> r_addr x ∈ nodes map R.
Proof. intros El. apply elem_of_cons. right. rewrite El, addrs_app. simpl. apply elem_of_app. right. by left. Qed.

Lemma nodes_last R l1 l2 : rg_list R = l1 ++ l2 -> last_addr map l1 ∈ nodes map R.
Proof.
  intros El. apply elem_of_cons. rewrite El, addrs_app, elem_of_app.
  destruct (last_addr_elem map l1) as [->|]; tauto.
Qed.

Lemma search_linearly_spec D R v E G (st : vs) address l2 l1 l3 :
  own D R v E G st -> map_wf map R v -> rg_list R = l1 ++ l2 ++ l3 ->
  limit (rg_lo R) l1 <= Z.max address (rg_lo R) ->
  l3 = [] \/ Exists (fun x => address < r_start x) l2 ->
  mwp (search_linearly map (first_addr (l2 ++ l3) map) (first_addr l3 map) address)
    (fun r st' => lookup_answer R address r /\
       exists h, h ∈ nodes map R /\ own D R (set_hint h v) E G st' /\ (r.1 = false -> h = r.2)) st.
Proof.
  intros Ho Hwf El Hl Hc. apply mwp_bind. eapply own_fuel; [done|]. intros fuel Hfuel. apply mwp_bind.
  eapply mwp_mono; [eapply entry_lookup_loop_spec; [done..|]|].
  { rewrite El, !length_app in Hfuel. lia. }
  intros [a|a] st' [Hf ->]; simpl in Hf.
  - destruct Hf as (k1 & x & k2 & Ek & -> & Hx). apply mwp_bind. eapply own_update_map; [done|]. intros st1 Ho1.
    apply mwp_ret. split; [by exists k1, x, k2|]. exists (r_addr x). split; [by eapply nodes_region|by split].
  - destruct Hf as (k1 & k2 & Ek & -> & Hk & Hk2). apply mwp_bind. eapply own_prev; [done..|].
    apply mwp_bind. eapply own_update_map; [done|]. intros st1 Ho1.
    apply mwp_ret. split; [by exists k1, k2|]. exists (last_addr map k1). split; [by eapply nodes_last|by split].
Qed.

Lemma set_hint_same v : set_hint (vm_hint v) v = v.
Proof. by destruct v. Qed.

(** Lookup is right wherever the hint points. *)
Lemma lookup_entry_spec D R v E G (st : vs) address :
  own D R v E G st -> map_wf map R v ->
  mwp (vm_map_lookup_entry map address)
    (fun r st' => lookup_answer R address r /\
       exists h, h ∈ nodes map R /\ own D R (set_hint h v) E G st' /\ (r.1 = false -> h = r.2)) st.
Proof.
  intros Ho Hwf. pose proof (wf_ordered _ _ _ Hwf) as Hord. pose proof (wf_hint _ _ _ Hwf) as Hhint.
  unfold vm_map_lookup_entry. apply mwp_bind. eapply own_map_at; [done|].
  (* the place where the search begins *)
  assert (Hcur : mwp (if vm_hint v =? map then next_of (vm_hint v) else mret (vm_hint v)) (fun cur st' => st' = st /\
    ((rg_list R = [] /\ cur = map) \/ exists l1 r l2, rg_list R = l1 ++ r :: l2 /\ cur = r_addr r)) st).
  { destruct (Z.eqb_spec (vm_hint v) map) as [->|Hne].
    - eapply own_next_map; [done|]. split; [done|]. destruct (rg_list R) as [|r l]; [by left|]. right. by exists [], r, l.
    - apply mwp_ret. split; [done|]. right. apply elem_of_cons in Hhint as [|Hin]; [done|].
      apply list_elem_of_fmap in Hin as (r & Hr & Hin). apply list_elem_of_split in Hin as (l1 & l2 & El). eauto. }
  apply mwp_bind. eapply mwp_mono; [exact Hcur|]. intros cur st' [-> [[El ->]|(l1 & r & l2 & El & ->)]].
  - (* empty *)
    assert (Hs : mwp (search_linearly map map map address) (fun r st' => lookup_answer R address r /\
      exists h, h ∈ nodes map R /\ own D R (set_hint h v) E G st' /\ (r.1 = false -> h = r.2)) st).
    { apply (search_linearly_spec _ _ _ _ _ _ _ [] [] []); [done..| |by left]. unfold limit. simpl. lia. }
    apply mwp_bind. eapply own_start_map; [done|]. destruct (_ <=? _).
    + apply mwp_bind. eapply own_end_map; [done|]. by rewrite Z.eqb_refl.
    + do 2 (apply mwp_bind; eapply own_next_map; [done|]; rewrite El). exact Hs.
  - assert (Hne : r_addr r <> map) by (eapply own_addr_ne; [done|rewrite El; apply elem_of_app; right; by left]).
    apply mwp_bind. eapply own_start_region; [done..|]. destruct (Z.leb_spec (r_start r) address) as [Hle|Hgt].
    + apply mwp_bind. eapply own_end_region; [done..|]. rewrite (proj2 (Z.eqb_neq _ _) Hne). simpl.
      destruct (Z.ltb_spec address (r_end r)).
      * apply mwp_ret. split; [by exists l1, r, l2|]. exists (vm_hint v). rewrite set_hint_same. by split_and!.
      * pose proof (search_linearly_spec _ _ _ _ _ _ address (r :: l2) l1 [] Ho Hwf) as Hs.
        rewrite app_nil_r in Hs. apply Hs; [done| |by left].
        rewrite El in Hord. apply ordered_split in Hord as (Hord & _). apply ordered_limit in Hord. lia.
    + apply mwp_bind. eapply own_next_region; [done..|]. apply mwp_bind. eapply own_next_map; [done|].
      pose proof (search_linearly_spec _ _ _ _ _ _ address (l1 ++ [r]) [] l2 Ho Hwf) as Hs.
      rewrite <- app_assoc in Hs. simpl in Hs. rewrite <- El in Hs. apply Hs; [done|unfold limit; simpl; lia|].
      right. apply Exists_app. right. by constructor.
Qed.
End lookup.
