(* ===== verification/VmClip.v ===== *)
(** * Clipping and walking over a range

    Clipping splits an entry in two and changes nothing of what is mapped; the
    walk over a range changes the attributes of exactly its addresses. *)

From S2P Require Import Prelude Names Splay Table Space Hash Entry World Vm VmMap VmRing VmOwn VmMapInv.

Definition with_entry (e : vm_map_entry) (r : region) : region := mk_region (r_addr r) (r_start r) (r_end r) e.

(** [k] more references can be made. *)
Definition roomy (k : nat) (G : refs) : Prop := (k <= rf_room G)%nat.

Lemma roomy_more k o G : roomy (S k) G -> roomy k (more o G).
Proof. unfold roomy. simpl. lia. Qed.

(** The references of the map are held, those in [F] besides. *)
Definition accounts (G : refs) (l : list region) (F : list Z) : Prop := rf_held G ≡ₚ refs_of l ++ F.

Lemma entry_for_offset r a s : r_start r <= s ->
  entry_for (mk_region (r_addr r) s (r_end r) (set_vme_offset (u32 (vme_offset (r_entry r) + (s - r_start r))) (r_entry r))) a =
  entry_for r a.
Proof.
  intros Hs. unfold entry_for. simpl. unfold set_vme_offset. simpl. f_equal. unfold u32.
  rewrite Zplus_mod_idemp_l. f_equal. lia.
Qed.

Lemma covers_spec r a : covers r a = true <-> r_start r <= a < r_end r.
Proof. unfold covers. rewrite andb_true_iff, Z.leb_le, Z.ltb_lt. lia. Qed.

Lemma covers_false r a : covers r a = false <-> a < r_start r \/ r_end r <= a.
Proof. unfold covers. rewrite andb_false_iff, Z.leb_gt, Z.ltb_ge. lia. Qed.

(** The two halves of a region mean what the whole did. *)
Lemma mapped_halves lo l1 r l2 hi s x y a :
  ordered lo (l1 ++ r :: l2) hi -> r_start r < s < r_end r ->
  mapped (l1 ++ mk_region x (r_start r) s (r_entry r) ::
    mk_region y s (r_end r) (set_vme_offset (u32 (vme_offset (r_entry r) + (s - r_start r))) (r_entry r)) :: l2) a =
  mapped (l1 ++ r :: l2) a.
Proof.
  intros Ho Hs. rewrite !mapped_app. destruct (mapped l1 a); [done|]. simpl.
  destruct (covers r a) eqn:Hr.
  - apply covers_spec in Hr. destruct (covers (mk_region x (r_start r) s (r_entry r)) a) eqn:Hx; [done|].
    apply covers_false in Hx. simpl in Hx.
    rewrite (proj2 (covers_spec (mk_region y s _ _) a)) by (simpl; lia). f_equal.
    rewrite <- (entry_for_offset r a s) by lia. done.
  - apply covers_false in Hr. rewrite (proj2 (covers_false (mk_region x _ _ _) a)) by (simpl; lia).
    by rewrite (proj2 (covers_false (mk_region y _ _ _) a)) by (simpl; lia).
Qed.

Lemma accounts_halves G l1 r l2 F x s1 e1 y s2 e2 off :
  accounts G (l1 ++ r :: l2) F ->
  accounts (more (vme_object (r_entry r)) G)
    (l1 ++ mk_region x s1 e1 (r_entry r) :: mk_region y s2 e2 (set_vme_offset off (r_entry r)) :: l2) F.
Proof.
  unfold accounts. simpl. intros ->. rewrite !refs_of_app. cbn. rewrite <- !app_assoc.
  by rewrite (Permutation_app_swap_app (held _) (refs_of l1)).
Qed.

Section clip.
Context {St : Type} `{!ObjectOps St} `{!ObjectLaws St} (env : vm_env St).
Context (rs : gmap Z ring) (maps : gmap Z vm_map) (copies : gmap Z vm_map_copy) (map : Z).
Hypothesis Hzalloc : forall L, L !! zalloc env L = None.

Abbreviation vs := (vmem * St)%type.
Abbreviation own := (own rs maps copies map).

(** A reference more to an object that is held already. *)
Lemma own_reference D R v E G (st : vs) o k Q :
  own D R v E G st -> held o ⊆ rf_held G -> roomy (S k) G ->
  (forall st', own D R v E (more o G) st' -> Q tt st') -> mwp (on_object (vo_reference o)) Q st.
Proof.
  intros Ho Hin Hr HQ. pose proof (own_refs _ _ _ _ _ _ _ _ _ _ Ho) as HG.
  eapply (own_object _ _ _ _ _ _ _ _ _ _ _ (fun _ G' => G' = more o G)); [done| |by intros [] ? ? ->; apply HQ].
  unfold more, held, roomy in *. destruct (rf_room G) as [|m] eqn:Hm; [lia|]. simpl. destruct (Z.eqb_spec o VM_OBJECT_NULL) as [->|Hne].
  - eapply mwp_mono; [by apply ol_reference_null|]. intros ? s' Hs. eexists. split; [done|]. eapply ol_weaken; [|exact Hs]. simpl. lia.
  - eapply mwp_mono; [apply ol_reference; [exact HG|done|set_solver]|]. intros ? s' Hs. eauto.
Qed.

Lemma accounts_held G l1 r l2 F : accounts G (l1 ++ r :: l2) F -> held (vme_object (r_entry r)) ⊆ rf_held G.
Proof. intros HG x Hx. rewrite HG, refs_of_mid, !elem_of_app. by left; left. Qed.

Lemma own_reference_target D R v E G (st : vs) e k Q :
  own D R v E G st -> is_sub_map e = false -> held (vme_object e) ⊆ rf_held G -> roomy (S k) G ->
  (forall st', own D R v E (more (vme_object e) G) st' -> Q tt st') -> mwp (reference_target e) Q st.
Proof. intros Ho Hs. unfold reference_target. rewrite Hs. by eapply own_reference. Qed.

Lemma clip_start_split D R v E G (st : vs) l1 r l2 s k Q :
  own D R v E G st -> rg_list R = l1 ++ r :: l2 -> is_sub_map (r_entry r) = false ->
  held (vme_object (r_entry r)) ⊆ rf_held G -> roomy (S k) G ->
  (forall a st', own D (linked_ring 1 (l1 ++ mk_region a (r_start r) s (r_entry r) ::
      mk_region (r_addr r) s (r_end r) (set_vme_offset (u32 (vme_offset (r_entry r) + (s - r_start r))) (r_entry r)) :: l2) R)
      v E (more (vme_object (r_entry r)) G) st' -> Q tt st') ->
  mwp (_vm_map_clip_start env map (r_addr r) s) Q st.
Proof.
  intros Ho El Hsub Hheld Hroom HQ. unfold _vm_map_clip_start.
  apply mwp_bind. eapply own_create; [done..|]. intros a st1 HDa Ho1.
  apply mwp_bind. unfold vm_map_entry_copy_full. apply mwp_bind. eapply own_links_at; [done..|].
  apply mwp_bind. eapply own_entry_at; [done|rewrite El; apply elem_of_app; right; by left|].
  apply mwp_bind. eapply own_loose_update_links; [done|apply lookup_insert_eq|]. intros st2 Ho2.
  rewrite insert_insert_eq in Ho2.
  eapply own_loose_update_entry; [done|apply lookup_insert_eq|]. intros st3 Ho3. rewrite insert_insert_eq in Ho3.
  apply mwp_bind. eapply own_loose_update_links; [done|apply lookup_insert_eq|]. intros st4 Ho4.
  rewrite insert_insert_eq in Ho4. cbn [set_end vme_prev vme_next vme_start] in Ho4.
  apply mwp_bind. eapply own_start_region; [done..|].
  apply mwp_bind. eapply own_update_entry; [done..|]. intros st5 Ho5.
  set (e' := set_vme_offset _ _) in *.
  apply mwp_bind. eapply own_update_links with (r := mk_region (r_addr r) (r_start r) (r_end r) e') (s := s) (e := r_end r);
    [exact Ho5|done|done|].
  intros st6 Ho6. cbn [r_addr r_entry r_end] in Ho6.
  apply mwp_bind. eapply (own_prev_region _ _ _ _ _ _ _ _ _ _ _ (mk_region (r_addr r) s (r_end r) e')); [exact Ho6|done|].
  apply mwp_bind. eapply own_link; [exact Ho6|done|apply lookup_insert_eq|]. intros st7 Ho7.
  rewrite delete_insert_id in Ho7 by done. cbn [vme_start vme_end] in Ho7.
  apply mwp_bind. eapply (own_entry_at _ _ _ _ _ _ _ _ _ _ (mk_region a (r_start r) s (r_entry r)));
    [exact Ho7|cbn; apply elem_of_app; right; by left|].
  eapply own_reference_target; [exact Ho7|done..|]. intros st8 Ho8. eapply HQ. exact Ho8.
Qed.

Lemma clip_end_split D R v E G (st : vs) l1 r l2 s k Q :
  own D R v E G st -> rg_list R = l1 ++ r :: l2 -> is_sub_map (r_entry r) = false ->
  held (vme_object (r_entry r)) ⊆ rf_held G -> roomy (S k) G ->
  (forall a st', own D (linked_ring 1 (l1 ++ mk_region (r_addr r) (r_start r) s (r_entry r) ::
      mk_region a s (r_end r) (set_vme_offset (u32 (vme_offset (r_entry r) + (s - r_start r))) (r_entry r)) :: l2) R)
      v E (more (vme_object (r_entry r)) G) st' -> Q tt st') ->
  mwp (_vm_map_clip_end env map (r_addr r) s) Q st.
Proof.
  intros Ho El Hsub Hheld Hroom HQ. unfold _vm_map_clip_end.
  apply mwp_bind. eapply own_create; [done..|]. intros a st1 HDa Ho1.
  apply mwp_bind. unfold vm_map_entry_copy_full. apply mwp_bind. eapply own_links_at; [done..|].
  apply mwp_bind. eapply own_entry_at; [done|rewrite El; apply elem_of_app; right; by left|].
  apply mwp_bind. eapply own_loose_update_links; [done|apply lookup_insert_eq|]. intros st2 Ho2.
  rewrite insert_insert_eq in Ho2.
  eapply own_loose_update_entry; [done|apply lookup_insert_eq|]. intros st3 Ho3. rewrite insert_insert_eq in Ho3.
  apply mwp_bind. eapply own_update_links with (s := r_start r) (e := s); [exact Ho3|done|done|]. intros st4 Ho4.
  apply mwp_bind. eapply own_loose_update_links; [exact Ho4|apply lookup_insert_eq|]. intros st5 Ho5.
  rewrite insert_insert_eq in Ho5. cbn [set_start vme_prev vme_next vme_end] in Ho5.
  apply mwp_bind. eapply (own_start_region _ _ _ _ _ _ _ _ _ _ _ (mk_region (r_addr r) (r_start r) s (r_entry r)));
    [exact Ho5|done|]. cbn [r_start].
  apply mwp_bind. eapply own_loose_update_entry; [exact Ho5|apply lookup_insert_eq|]. intros st6 Ho6.
  rewrite insert_insert_eq in Ho6.
  apply mwp_bind. set (r' := mk_region (r_addr r) (r_start r) s (r_entry r)) in *.
  assert (El6 : rg_list (with_list (l1 ++ r' :: l2) R) = (l1 ++ [r']) ++ l2) by (simpl; by rewrite <- app_assoc).
  assert (Ea : r_addr r = last_addr map (l1 ++ [r'])) by (by rewrite last_addr_snoc).
  rewrite Ea. eapply own_link; [exact Ho6|exact El6|apply lookup_insert_eq|]. intros st7 Ho7.
  rewrite delete_insert_id in Ho7 by done. cbn [vme_start vme_end] in Ho7. rewrite <- app_assoc in Ho7.
  apply mwp_bind. set (e' := set_vme_offset _ _) in *.
  eapply (own_entry_at _ _ _ _ _ _ _ _ _ _ (mk_region a s (r_end r) e'));
    [exact Ho7|cbn; rewrite elem_of_app, !elem_of_cons; tauto|].
  eapply own_reference_target; [exact Ho7|done..|]. intros st8 Ho8. eapply HQ. exact Ho8.
Qed.
(** ** The invariant through clipping *)

Record good (k : nat) (R : ring) (v : vm_map) (G : refs) (F : list Z) : Prop := mk_good {
  gd_wf : map_wf map R v;
  gd_plain : plain (rg_list R);
  gd_accounts : accounts G (rg_list R) F;
  gd_room : roomy k G
}.

Definition rg_same (R R' : ring) : Prop :=
  rg_lo R' = rg_lo R /\ rg_hi R' = rg_hi R /\ entries_pageable (rg_header R') = entries_pageable (rg_header R).

Lemma rg_same_trans R1 R2 R3 : rg_same R1 R2 -> rg_same R2 R3 -> rg_same R1 R3.
Proof. unfold rg_same. intuition congruence. Qed.

Lemma good_weaken k k' R v G F : (k' <= k)%nat -> good k R v G F -> good k' R v G F.
Proof. intros Hk []. split; try done. unfold roomy in *; lia. Qed.

Lemma good_hint k R v G F h : h ∈ nodes map R -> good k R v G F -> good k R (set_hint h v) G F.
Proof. intros Hh [[] ? ? ?]. by split; [split|..]. Qed.

Lemma plain_mid l1 r l2 : plain (l1 ++ r :: l2) -> is_sub_map (r_entry r) = false.
Proof. unfold plain. rewrite Forall_app, Forall_cons. tauto. Qed.

Lemma good_halves k R v G F l1 r l2 s x y :
  good (S k) R v G F -> rg_list R = l1 ++ r :: l2 -> r_start r < s < r_end r -> x = r_addr r \/ y = r_addr r ->
  let l := l1 ++ mk_region x (r_start r) s (r_entry r) ::
    mk_region y s (r_end r) (set_vme_offset (u32 (vme_offset (r_entry r) + (s - r_start r))) (r_entry r)) :: l2 in
  good k (linked_ring 1 l R) v (more (vme_object (r_entry r)) G) F /\ (forall a, mapped l a = mapped (rg_list R) a).
Proof.
  intros [[H1 H2 H3 H4 H5 H6 H7] Hp Ha Hr] El Hs Hxy l. rewrite El in *. split.
  - assert (Hnodes : forall a, a ∈ nodes map R -> a ∈ nodes map (linked_ring 1 l R)).
    { intros a. unfold nodes, l. simpl. rewrite El, !addrs_app. simpl.
      rewrite !elem_of_cons, !elem_of_app, !elem_of_cons. destruct Hxy as [-> | ->]; tauto. }
    split; [split; simpl; try done; try (by apply Hnodes)|..].
    + unfold l. apply ordered_split in H1 as (? & ? & ?). eapply ordered_join; [done|]. simpl. split_and!; [lia..|done].
    + rewrite H4. unfold l. rewrite !length_app. simpl. lia.
    + rewrite H5. unfold l. rewrite !total_app. simpl. lia.
    + unfold plain in *. unfold l. simpl. rewrite Forall_app, Forall_cons in Hp. rewrite Forall_app, !Forall_cons.
      simpl. tauto.
    + unfold l. by apply accounts_halves.
    + by apply roomy_more.
  - intros a. by eapply mapped_halves.
Qed.

Lemma clip_end_good D R v E G F k (st : vs) l1 r l2 s Q :
  own D R v E G st -> good (S k) R v G F -> rg_list R = l1 ++ r :: l2 -> r_start r < s ->
  (forall R' G' r' l2' st', rg_list R' = l1 ++ r' :: l2' -> r_addr r' = r_addr r -> r_start r' = r_start r ->
     r_end r' = Z.min s (r_end r) -> r_entry r' = r_entry r ->
     (r_end r <= s /\ R' = R /\ r' = r /\ l2' = l2 /\ G' = G) \/ Forall (fun x => s <= r_start x) l2' ->
     (forall a, mapped (r' :: l2') a = mapped (r :: l2) a) -> rg_same R R' ->
     nodes map R ⊆ nodes map R' -> good k R' v G' F -> own D R' v E G' st' -> Q tt st') ->
  mwp (vm_map_clip_end env map (r_addr r) s) Q st.
Proof.
  intros Ho Hg El Hs HQ. unfold vm_map_clip_end. apply mwp_bind. eapply own_end_region; [done..|].
  apply mwp_when. destruct (Z.ltb_spec s (r_end r)) as [Hlt|Hge].
  - pose proof Hg as [Hwf Hp Ha Hr]. rewrite El in Hp, Ha.
    eapply clip_end_split; [done|done|by eapply plain_mid|by eapply accounts_held|done|]. intros a st' Ho'.
    destruct (good_halves _ _ _ _ _ _ _ _ s (r_addr r) a Hg El ltac:(lia) ltac:(by left)) as [Hg' Hm].
    eapply HQ; [| | | | | | | | |exact Hg'|exact Ho']; [reflexivity|done|done|simpl; lia|done|..].
    + right. pose proof (wf_ordered _ _ _ (gd_wf _ _ _ _ _ Hg')) as Hord. simpl in Hord.
      apply ordered_app in Hord as [_ (_ & _ & Hord)]. cbn [r_end] in Hord. apply Forall_forall. intros x Hx.
      by destruct (ordered_mem _ _ _ _ Hord Hx).
    + intros b. eapply (mapped_halves (r_start r) [] r l2); [|lia].
      pose proof (wf_ordered _ _ _ Hwf) as Hord. rewrite El in Hord. apply ordered_split in Hord as (_ & ? & ?).
      simpl. split_and!; [lia|done..].
    + done.
    + intros b. unfold nodes. simpl. rewrite El, !addrs_app. simpl. rewrite !elem_of_cons, !elem_of_app, !elem_of_cons. tauto.
  - eapply HQ; [exact El|done|done|lia|done|by left|done|done|done|by eapply good_weaken; [|exact Hg]; lia|done].
Qed.

Lemma clip_start_good D R v E G F k (st : vs) l1 r l2 s Q :
  own D R v E G st -> good (S k) R v G F -> rg_list R = l1 ++ r :: l2 -> s < r_end r ->
  (forall R' G' r' l1' st', rg_list R' = l1' ++ r' :: l2 -> r_addr r' = r_addr r -> r_start r' = Z.max s (r_start r) ->
     r_end r' = r_end r -> (exists x, r_entry r' = set_vme_offset x (r_entry r)) ->
     (forall a, mapped (rg_list R') a = mapped (rg_list R) a) -> rg_same R R' ->
     nodes map R ⊆ nodes map R' -> good k R' v G' F -> own D R' v E G' st' -> Q tt st') ->
  mwp (vm_map_clip_start env map (r_addr r) s) Q st.
Proof.
  intros Ho Hg El Hs HQ. unfold vm_map_clip_start. apply mwp_bind. eapply own_start_region; [done..|].
  apply mwp_when. destruct (Z.ltb_spec (r_start r) s) as [Hlt|Hge].
  - pose proof Hg as [Hwf Hp Ha Hr]. rewrite El in Hp, Ha.
    eapply clip_start_split; [done|done|by eapply plain_mid|by eapply accounts_held|done|]. intros a st' Ho'.
    destruct (good_halves _ _ _ _ _ _ _ _ s a (r_addr r) Hg El ltac:(lia) ltac:(by right)) as [Hg' Hm].
    set (x := mk_region a _ _ _) in *. set (y := mk_region (r_addr r) _ _ _) in *.
    eapply (HQ _ _ y (l1 ++ [x])); [| | | | | | | |exact Hg'|exact Ho'];
      [cbn; by rewrite <- app_assoc|done|cbn; lia|done|by eexists|exact Hm|done|].
    intros b. unfold nodes. cbn. rewrite El, !addrs_app. cbn. rewrite !elem_of_cons, !elem_of_app, !elem_of_cons. tauto.
  - eapply HQ; [exact El|done|lia|done| |done|done|done|by eapply good_weaken; [|exact Hg]; lia|done].
    exists (vme_offset (r_entry r)). by destruct (r_entry r).
Qed.

(** ** The first entry of a range *)

Lemma ordered_from lo r l hi s : ordered lo (r :: l) hi -> s <= r_start r -> Forall (fun x => s <= r_start x) (r :: l).
Proof.
  intros (? & ? & Hord) Hs. apply Forall_forall. intros x Hx. apply elem_of_cons in Hx as [->|Hx]; [done|].
  destruct (ordered_mem _ _ _ _ Hord Hx). lia.
Qed.

Lemma limit_ordered lo l hi m : ordered lo l hi -> limit lo l <= m -> ordered lo l m.
Proof.
  revert lo. induction l as [|r l IH]; intros lo; [unfold limit; simpl; lia|]. rewrite limit_cons. simpl.
  intros (? & ? & H) Hm. split_and!; [done..|]. by apply IH.
Qed.

Lemma first_in_range_good D R v E G F k (st : vs) start Q :
  own D R v E G st -> good (S k) R v G F ->
  (forall R' G' l1 l2 h st', rg_list R' = l1 ++ l2 -> ordered (rg_lo R) l1 (Z.max start (rg_lo R)) ->
     Forall (fun x => Z.max start (rg_lo R) <= r_start x) l2 ->
     (forall a, mapped (rg_list R') a = mapped (rg_list R) a) -> rg_same R R' ->
     nodes map R ⊆ nodes map R' -> h ∈ nodes map R -> good k R' (set_hint h v) G' F ->
     own D R' (set_hint h v) E G' st' -> Q (first_addr l2 map) st') ->
  mwp (first_in_range env map start) Q st.
Proof.
  intros Ho Hg HQ. pose proof (gd_wf _ _ _ _ _ Hg) as Hwf. unfold first_in_range. apply mwp_bind.
  eapply mwp_mono; [by eapply lookup_entry_spec|]. intros [found entry] st1 (Hans & h & Hh & Ho1 & _).
  apply (good_hint _ _ _ _ _ h Hh) in Hg. destruct found; unfold lookup_answer in Hans; cbn in Hans.
  - destruct Hans as (l1 & x & l2 & El & -> & Hx). apply mwp_bind.
    eapply clip_start_good; [exact Ho1|exact Hg|exact El|lia|].
    intros R' G' r' l1' st2 El' Ha Hs He _ Hm Hsame Hn Hg' Ho2. apply mwp_ret. rewrite <- Ha.
    change (r_addr r') with (first_addr (r' :: l2) map).
    pose proof (wf_ordered _ _ _ (gd_wf _ _ _ _ _ Hg')) as Hord. rewrite El' in Hord.
    assert (Hmax : r_start r' = start) by lia.
    eapply (HQ R' G' l1' (r' :: l2)); [exact El'| | |done..].
    + destruct Hsame as (<- & _). apply ordered_split in Hord as (Hord & _). eapply ordered_weaken; [| |exact Hord]; lia.
    + destruct Hsame as (Hlo & _). apply ordered_app in Hord as [Hord0 Hord]. apply ordered_le in Hord0.
      eapply ordered_from; [exact Hord|]. destruct Hord. lia.
  - destruct Hans as (l1 & l2 & El & -> & Hl & Hall). eapply own_next; [exact Ho1|exact El|].
    eapply (HQ R G l1 l2 h); [exact El| | |done|done|done|done|by eapply good_weaken; [|exact Hg]; lia|done].
    + pose proof (wf_ordered _ _ _ Hwf) as Hord. rewrite El in Hord. apply ordered_app in Hord as [Hord _].
      eapply limit_ordered; [exact Hord|]. lia.
    + rewrite Forall_forall in Hall |- *. intros x Hx. specialize (Hall x Hx).
      destruct (ordered_mem _ _ _ x (wf_ordered _ _ _ Hwf)); [rewrite El; apply elem_of_app; by right|lia].
Qed.
(** ** Walking over a range *)

Lemma before_end_spec D R v E G (st : vs) l1 l2 last Q :
  own D R v E G st -> rg_list R = l1 ++ l2 ->
  Q (match l2 with [] => false | r :: _ => r_start r <? last end) st -> mwp (before_end map (first_addr l2 map) last) Q st.
Proof.
  intros Ho El HQ. unfold before_end. destruct l2 as [|r l2]; cbn [first_addr].
  - rewrite Z.eqb_refl. by apply mwp_ret.
  - assert (Hne : r_addr r <> map) by (eapply own_addr_ne; [done|rewrite El; apply elem_of_app; right; by left]).
    rewrite (proj2 (Z.eqb_neq _ _) Hne). apply mwp_bind. eapply own_start_region; [done..|]. by apply mwp_ret.
Qed.

(** What a walk does to an entry: its attributes, not its object. *)
Record attribute_change (f : vm_map_entry -> vm_map_entry) : Prop := mk_attribute_change {
  ac_offset : forall x e, f (set_vme_offset x e) = set_vme_offset x (f e);
  ac_value : forall e, vme_offset (f e) = vme_offset e;
  ac_object : forall e, vme_object (f e) = vme_object e;
  ac_sub_map : forall e, is_sub_map (f e) = is_sub_map e
}.

Definition treated (f : vm_map_entry -> vm_map_entry) (r : region) : region := with_entry (f (r_entry r)) r.

Lemma mapped_treated f l a : attribute_change f -> mapped (treated f <$> l) a = f <$> mapped l a.
Proof.
  intros [H1 H2 H3 H4]. induction l as [|r l IH]; [done|]. simpl. unfold covers. simpl. destruct (_ && _); [|done].
  simpl. f_equal. unfold entry_for. simpl. by rewrite H1, H2.
Qed.

Lemma addrs_treated f l : addrs (treated f <$> l) = addrs l.
Proof. unfold addrs. rewrite <- list_fmap_compose. done. Qed.

Lemma nodes_treated R l1 l2 f : nodes map (with_list (l1 ++ (treated f <$> l2)) R) = map :: addrs (l1 ++ l2).
Proof. unfold nodes. simpl. by rewrite !addrs_app, addrs_treated. Qed.

Lemma good_treated k R v G F l1 r l2 f :
  attribute_change f -> good k R v G F -> rg_list R = l1 ++ r :: l2 ->
  good k (with_list (l1 ++ treated f r :: l2) R) v G F /\ nodes map (with_list (l1 ++ treated f r :: l2) R) = nodes map R.
Proof.
  intros [H1 H2 H3 H4] [[W1 W2 W3 W4 W5 W6 W7] Hp Ha Hr] El.
  assert (Hn : nodes map (with_list (l1 ++ treated f r :: l2) R) = nodes map R) by (by eapply nodes_with_region).
  split; [|done]. rewrite El in *. split; [split; simpl; try done; try (by rewrite Hn)|..]; simpl.
  - apply ordered_app in W1 as [W1 W1']. apply ordered_app. by split.
  - rewrite W4, !length_app. done.
  - rewrite W5, !total_app. done.
  - unfold plain in *. rewrite Forall_app, Forall_cons in *. simpl. rewrite H4. tauto.
  - unfold accounts in *. rewrite Ha, !refs_of_app. cbn. by rewrite H3.
  - done.
Qed.

Section walk.
Context (v : vm_map) (body : Z -> M vs unit) (f : vm_map_entry -> vm_map_entry) (g : region -> list vm_event).
Hypothesis Hf : attribute_change f.
Hypothesis Hbody : forall D R E G (st : vs) l1 r l2, own D R v E G st -> rg_list R = l1 ++ r :: l2 ->
  mwp (body (r_addr r)) (fun _ st' => own D (with_list (l1 ++ treated f r :: l2) R) v (E ++ g r) G st') st.

Lemma range_loop_stop fuel D R E G (st : vs) l1 l2 last Q :
  own D R v E G st -> rg_list R = l1 ++ l2 -> Forall (fun x => last <= r_start x) l2 -> Q tt st ->
  mwp (range_loop env fuel body map (first_addr l2 map) last) Q st.
Proof.
  intros Ho El Hall HQ.
  assert (Hb : match l2 with [] => false | r :: _ => r_start r <? last end = false).
  { destruct l2 as [|r l2]; [done|]. apply Z.ltb_ge. by inversion Hall. }
  destruct fuel; simpl; apply mwp_bind; (eapply before_end_spec; [done..|]); rewrite Hb; by apply mwp_ret.
Qed.

Lemma range_loop_spec fuel D R E G F k (st : vs) l1 l2 last Q :
  own D R v E G st -> good (S k) R v G F -> rg_list R = l1 ++ l2 -> (length l2 <= fuel)%nat ->
  (forall R' G' P S st', rg_list R' = l1 ++ (treated f <$> P) ++ S -> rg_same R R' -> nodes map R ⊆ nodes map R' ->
     Forall (fun x => r_end x <= last) P -> Forall (fun x => last <= r_start x) S ->
     (forall a, mapped (P ++ S) a = mapped l2 a) -> good k R' v G' F -> own D R' v (E ++ (P ≫= g)) G' st' -> Q tt st') ->
  mwp (range_loop env fuel body map (first_addr l2 map) last) Q st.
Proof.
  revert fuel R E G st l1 Q. induction l2 as [|r l2 IH]; intros fuel R E G st l1 Q Ho Hg El Hfuel HQ.
  - eapply range_loop_stop; [done|done|done|]. eapply (HQ R G [] []); [done..|by eapply good_weaken; [|exact Hg]; lia|].
    by rewrite app_nil_r.
  - pose proof (wf_ordered _ _ _ (gd_wf _ _ _ _ _ Hg)) as Hord. rewrite El in Hord.
    destruct (Z.ltb_spec (r_start r) last) as [Hlt|Hge].
    + destruct fuel as [|fuel]; [simpl in Hfuel; lia|]. cbn [range_loop]. apply mwp_bind.
      eapply before_end_spec; [done..|]. rewrite (proj2 (Z.ltb_lt _ _) Hlt). cbn [negb first_addr].
      apply mwp_bind. eapply clip_end_good; [exact Ho|exact Hg|exact El|done|].
      intros R1 G1 r' l2' st1 El1 Ha Hs He Hent Hcase Hm Hsame Hn Hg1 Ho1. rewrite <- Ha.
      apply mwp_bind. eapply mwp_mono; [by eapply Hbody|]. intros [] st2 Ho2.
      destruct (good_treated _ _ _ _ _ _ _ _ _ Hf Hg1 El1) as [Hg2 Hn2].
      set (R2 := with_list (l1 ++ treated f r' :: l2') R1) in *.
      assert (El2 : rg_list R2 = (l1 ++ [treated f r']) ++ l2') by (simpl; by rewrite <- app_assoc).
      apply mwp_bind. eapply (own_next_region _ _ _ _ _ _ _ _ _ _ _ (treated f r')); [exact Ho2|done|].
      destruct Hcase as [(Hend & -> & -> & -> & ->)|Hall].
      * eapply IH; [exact Ho2| |exact El2|simpl in Hfuel; lia|].
        { by destruct (good_treated _ _ _ _ _ _ _ _ _ Hf Hg El). }
        intros R' G' P S st' El' Hsame' Hn' HP HS Hm' Hg' Ho'. eapply (HQ R' G' (r :: P) S).
        -- rewrite El'. cbn. by rewrite <- app_assoc.
        -- done.
        -- by rewrite <- Hn2.
        -- by constructor.
        -- done.
        -- intros a. simpl. by rewrite Hm'.
        -- done.
        -- cbn. by rewrite app_assoc.
      * eapply range_loop_stop; [exact Ho2|exact El2|exact Hall|].
        eapply (HQ R2 G1 [r'] l2'); [done|done| | |done|done|done|].
        -- by rewrite Hn2.
        -- constructor; [lia|done].
        -- cbn. by rewrite app_nil_r.
    + apply ordered_app in Hord as [_ Hord]. pose proof (ordered_from _ _ _ _ _ Hord Hge) as Hall.
      eapply range_loop_stop; [exact Ho|exact El|exact Hall|].
      by eapply (HQ R G [] (r :: l2)); [..|eapply good_weaken; [|exact Hg]; lia|rewrite app_nil_r].
Qed.
End walk.
End clip.
