(* ===== verification/VmMapOps.v ===== *)
(** * Changing the attributes of a range

    [vm_map_protect], [vm_map_inherit] and the unwiring half of
    [vm_map_pageable_common]: all or nothing, and on exactly the addresses of
    the range. *)

From S2P Require Import Prelude Names Splay Table Space Hash Entry World Vm VmMap VmRing VmOwn VmMapInv VmClip.

(** What a range operation leaves: [f] on the addresses of the range. *)
Definition changed_in (start last : Z) (f : vm_map_entry -> vm_map_entry) (l l' : list region) : Prop :=
  forall a, mapped l' a = if (start <=? a) && (a <? last) then f <$> mapped l a else mapped l a.

Definition locked (v : vm_map) : vm_map := set_timestamp (u32 (timestamp v + 1)) (set_lock WriteLocked v).

Lemma attribute_inheritance x : attribute_change (set_inheritance x).
Proof. by split. Qed.

Lemma attribute_protection p set_max : attribute_change (new_protection p set_max).
Proof. unfold new_protection. by split; destruct set_max. Qed.

Lemma attribute_unwire user : attribute_change (unwire_entry user).
Proof. unfold unwire_entry. by split; destruct user. Qed.

Lemma attribute_wire user : attribute_change (wire_entry user).
Proof. unfold wire_entry. by split; destruct user. Qed.

Lemma mapped_from s l a : Forall (fun x => s <= r_start x) l -> a < s -> mapped l a = None.
Proof. intros Hl Ha. induction Hl as [|x l Hx _ IH]; [done|]. simpl. by rewrite (proj2 (covers_false x a)) by lia. Qed.

Lemma mapped_until s l a : Forall (fun x => r_end x <= s) l -> s <= a -> mapped l a = None.
Proof. intros Hl Ha. induction Hl as [|x l Hx _ IH]; [done|]. simpl. by rewrite (proj2 (covers_false x a)) by lia. Qed.

(** A walk that treats the part [P] of a list, which ends at [last]. *)
Lemma changed_walk lo l1 l2 start last f P S :
  attribute_change f -> ordered lo l1 start -> Forall (fun x => start <= r_start x) l2 ->
  Forall (fun x => r_end x <= last) P -> Forall (fun x => last <= r_start x) S ->
  (forall a, mapped (P ++ S) a = mapped l2 a) ->
  changed_in start last f (l1 ++ l2) (l1 ++ (treated f <$> P) ++ S).
Proof.
  intros Hf H1 H2 HP HS Hm a. rewrite !mapped_app. specialize (Hm a). rewrite mapped_app in Hm.
  rewrite mapped_treated by done. destruct (Z.leb_spec start a) as [Hsa|Hsa]; cbn [andb].
  - rewrite (mapped_above _ _ _ _ H1) by lia. destruct (Z.ltb_spec a last) as [Hal|Hal].
    + rewrite (mapped_from _ _ _ HS) in * by done. rewrite <- Hm. by destruct (mapped P a).
    + by rewrite (mapped_until _ _ _ HP) in * by done.
  - rewrite (mapped_from _ _ _ H2) in * by lia. destruct (mapped P a); [done|]. simpl. by rewrite Hm.
Qed.

Lemma changed_none start last l l' :
  (forall a, mapped l' a = mapped l a) -> last <= start -> forall f, changed_in start last f l l'.
Proof. intros H Hle f a. rewrite H. destruct (Z.leb_spec start a), (Z.ltb_spec a last); try done. lia. Qed.

(** A change of the clamped range is a change of the range. *)
Lemma changed_clamp lo hi start last f l l' :
  ordered lo l hi ->
  changed_in (Z.max (Z.min (Z.max start lo) (Z.min last hi)) lo) (Z.min last hi) f l l' -> changed_in start last f l l'.
Proof.
  intros Hl H a. specialize (H a). rewrite H.
  destruct (Z.leb_spec start a), (Z.ltb_spec a last), (Z.leb_spec (Z.max (Z.max start lo `min` (last `min` hi)) lo) a), (Z.ltb_spec a (last `min` hi));
    simpl; try done; try lia;
    (destruct (Z.lt_ge_cases a lo); [by rewrite (mapped_below _ _ _ _ Hl)|]);
    (destruct (Z.lt_ge_cases a hi); [lia|by rewrite (mapped_above _ _ _ _ Hl)]).
Qed.

Section ops.
Context {St : Type} `{!ObjectOps St} `{!ObjectLaws St} (env : vm_env St).
Context (rs : gmap Z ring) (maps : gmap Z vm_map) (copies : gmap Z vm_map_copy) (map : Z).
Hypothesis Hzalloc : forall L, L !! zalloc env L = None.

Abbreviation vs := (vmem * St)%type.
Abbreviation own := (own rs maps copies map).
Abbreviation good := (good map).

(** ** Locks and limits *)

Lemma good_map k R v v' G F :
  vm_size v' = vm_size v -> vm_hint v' = vm_hint v -> vm_first_free v' = vm_first_free v ->
  good k R v G F -> good k R v' G F.
Proof. intros H1 H2 H3 [[] ? ? ?]. by split; [split; rewrite ?H1, ?H2, ?H3|..]. Qed.

Lemma own_lock D R v E G (st : vs) Q :
  own D R v E G st -> vm_lock v = Unlocked -> (forall st', own D R (locked v) E G st' -> Q tt st') ->
  mwp (vm_map_lock map) Q st.
Proof.
  intros Ho Hl HQ. apply mwp_bind. eapply own_map_at; [done|]. rewrite Hl. by eapply own_update_map.
Qed.

Lemma own_unlock D R v E G (st : vs) Q :
  own D R v E G st -> vm_lock v = WriteLocked -> (forall st', own D R (set_lock Unlocked v) E G st' -> Q tt st') ->
  mwp (vm_map_unlock map) Q st.
Proof.
  intros Ho Hl HQ. apply mwp_bind. eapply own_map_at; [done|]. rewrite Hl. by eapply own_update_map.
Qed.

Lemma own_range_check D R v E G (st : vs) start last Q :
  own D R v E G st ->
  Q (Z.min (Z.max start (rg_lo R)) (Z.min last (rg_hi R)), Z.min last (rg_hi R)) st ->
  mwp (VM_MAP_RANGE_CHECK map start last) Q st.
Proof.
  intros Ho HQ. apply mwp_bind. eapply own_start_map; [done|]. apply mwp_bind. eapply own_end_map; [done|].
  apply mwp_ret.
  replace (if start <? rg_lo R then rg_lo R else start) with (Z.max start (rg_lo R)) by (destruct (Z.ltb_spec start (rg_lo R)); lia).
  replace (if rg_hi R <? last then rg_hi R else last) with (Z.min last (rg_hi R)) by (destruct (Z.ltb_spec (rg_hi R) last); lia).
  replace (if last `min` rg_hi R <? start `max` rg_lo R then last `min` rg_hi R else start `max` rg_lo R)
    with (Z.min (Z.max start (rg_lo R)) (Z.min last (rg_hi R)))
    by (destruct (Z.ltb_spec (last `min` rg_hi R) (start `max` rg_lo R)); lia). done.
Qed.

(** The end of every operation: the map is as it should be, and unlocked. *)
Record finished (k : nat) (D : gmap Z (vm_map_links * vm_map_entry)) (R R' : ring) (v v' : vm_map) (E' : list vm_event)
    (F : list Z) (G' : refs) (st' : vs) : Prop := mk_finished {
  fin_own : own D R' v' E' G' st';
  fin_good : good k R' v' G' F;
  fin_unlocked : vm_lock v' = Unlocked;
  fin_same : rg_same R R';
  fin_pmap : vm_pmap v' = vm_pmap v
}.

(** ** Inheritance *)

Lemma inherit_spec D R v E G F (st : vs) start last x :
  own D R v E G st -> good 2 R v G F -> vm_lock v = Unlocked ->
  mwp (vm_map_inherit env map start last x) (fun kr st' => kr = KERN_SUCCESS /\
    exists R' v' G', finished 0 D R R' v v' E F G' st' /\
      changed_in start last (set_inheritance x) (rg_list R) (rg_list R')) st.
Proof.
  intros Ho Hg Hl. unfold vm_map_inherit. pose proof (wf_ordered _ _ _ (gd_wf _ _ _ _ _ _ Hg)) as Hord.
  apply mwp_bind. eapply own_lock; [done..|]. intros st1 Ho1.
  apply mwp_bind. eapply own_range_check; [exact Ho1|].
  set (t := Z.min last (rg_hi R)). set (s := Z.min (Z.max start (rg_lo R)) t). cbn [fst snd].
  apply mwp_bind. eapply first_in_range_good; [done|exact Ho1|by eapply good_map; [..|exact Hg]|].
  intros R1 G1 l1 l2 h st2 El1 H1 H2 Hm1 Hs1 Hn1 Hh Hg1 Ho2.
  apply mwp_bind. eapply own_fuel; [exact Ho2|]. intros fuel Hfuel.
  apply mwp_bind. eapply (range_loop_spec env rs maps copies map Hzalloc _ _ (set_inheritance x) (fun _ => [])); [apply attribute_inheritance| |exact Ho2|exact Hg1|exact El1| |].
  { intros D0 R0 E0 G0 st0 k1 r k2 Ho0 E1. rewrite app_nil_r. by eapply own_update_entry. }
  { rewrite El1, length_app in Hfuel. lia. }
  intros R2 G2 P S st3 El2 Hs2 Hn2 HP HS Hm2 Hg2 Ho3.
  apply mwp_bind. eapply own_unlock; [exact Ho3|done|]. intros st4 Ho4. apply mwp_ret. split; [done|].
  assert (HE : (P ≫= fun _ : region => @nil vm_event) = []) by (clear; by induction P).
  rewrite HE, app_nil_r in Ho4. exists R2, (set_lock Unlocked (set_hint h (locked v))), G2. split.
  - split; [exact Ho4|by eapply good_map; [..|exact Hg2]|done|by eapply rg_same_trans|done].
  - rewrite El2. eapply changed_clamp; [exact Hord|]. intros a. rewrite <- Hm1, El1.
    by eapply changed_walk; [apply attribute_inheritance|..].
Qed.
(** ** Protection *)

(** The maximum protection allows the new one. *)
Definition allows (new_prot : Z) (e : vm_map_entry) : Prop :=
  Z.land new_prot (Z.lor VM_PROT_NOTIFY (max_protection e)) = new_prot.

Lemma check_protection_spec D R v E G F k (st : vs) fuel l1 l2 last p Q :
  own D R v E G st -> good k R v G F -> rg_list R = l1 ++ l2 -> (length l2 <= fuel)%nat ->
  (Forall (fun x => r_start x < last -> allows p (r_entry x)) l2 -> Q None st) ->
  (forall x, x ∈ l2 -> r_start x < last -> ~ allows p (r_entry x) -> Q (Some KERN_PROTECTION_FAILURE) st) ->
  mwp (check_protection fuel map (first_addr l2 map) last p) Q st.
Proof.
  intros Ho Hg. revert fuel l1 Q. induction l2 as [|r l2 IH]; intros fuel l1 Q El Hfuel HN HS.
  - destruct fuel; simpl; apply mwp_bind; (eapply (before_end_spec _ _ _ _ _ _ _ _ _ _ l1 []); [done..|]); apply mwp_ret; auto.
  - destruct fuel as [|fuel]; [simpl in Hfuel; lia|]. cbn [check_protection]. apply mwp_bind.
    eapply before_end_spec; [done..|]. destruct (Z.ltb_spec (r_start r) last) as [Hlt|Hge]; cbn [negb].
    + apply mwp_bind. cbn [first_addr]. eapply own_entry_at; [done|rewrite El; apply elem_of_app; right; by left|].
      pose proof (gd_plain _ _ _ _ _ _ Hg) as Hp. rewrite El in Hp. rewrite (plain_mid _ _ _ Hp).
      destruct (Z.eqb_spec (Z.land p (Z.lor VM_PROT_NOTIFY (max_protection (r_entry r)))) p) as [Hok|Hno]; cbn [negb].
      * apply mwp_bind. eapply own_next_region; [done..|].
        eapply (IH _ (l1 ++ [r])); [by rewrite <- app_assoc|simpl in Hfuel; lia| |].
        { intros Hall. apply HN. by constructor. }
        intros x Hx. apply (HS x). by right.
      * apply mwp_ret. apply (HS r); [by left|done..].
    + apply mwp_ret. apply HN. pose proof (wf_ordered _ _ _ (gd_wf _ _ _ _ _ _ Hg)) as Hord. rewrite El in Hord.
      apply ordered_app in Hord as [_ Hord]. eapply Forall_impl; [exact (ordered_from _ _ _ _ _ Hord Hge)|].
      simpl. intros. lia.
Qed.

(** The pages of a region whose protection has changed. *)
Definition protect_event (v : vm_map) (p : Z) (set_max : bool) (r : region) : list vm_event :=
  if protection (new_protection p set_max (r_entry r)) =? protection (r_entry r) then []
  else [PmapProtect (vm_pmap v) (r_start r) (r_end r) (protection (new_protection p set_max (r_entry r)))].

Lemma fix_protection_spec D R v E G (st : vs) p set_max l1 r l2 :
  own D R v E G st -> rg_list R = l1 ++ r :: l2 ->
  mwp (fix_protection map p set_max (r_addr r)) (fun _ st' =>
    own D (with_list (l1 ++ treated (new_protection p set_max) r :: l2) R) v (E ++ protect_event v p set_max r) G st') st.
Proof.
  intros Ho El. unfold fix_protection. apply mwp_bind.
  eapply own_entry_at; [done|rewrite El; apply elem_of_app; right; by left|].
  apply mwp_bind. eapply own_update_entry; [done..|]. intros st1 Ho1.
  set (r' := treated (new_protection p set_max) r) in *.
  apply mwp_bind. eapply (own_entry_at _ _ _ _ _ _ _ _ _ _ r'); [exact Ho1|simpl; apply elem_of_app; right; by left|].
  apply mwp_bind. eapply (own_links_at _ _ _ _ _ _ _ _ _ _ _ r'); [exact Ho1|done|].
  apply mwp_bind. eapply own_map_at; [exact Ho1|]. apply mwp_when. unfold protect_event.
  cbn [vme_start vme_end r_start r_end r_entry r' treated with_entry].
  destruct (protection (new_protection p set_max (r_entry r)) =? protection (r_entry r)); cbn [negb].
  - by rewrite app_nil_r.
  - by eapply own_log_event.
Qed.

Lemma mapped_elem l a e : mapped l a = Some e -> exists r, r ∈ l /\ r_start r <= a < r_end r /\ e = entry_for r a.
Proof.
  induction l as [|r l IH]; [done|]. simpl. destruct (covers r a) eqn:Hc.
  - intros [= <-]. exists r. rewrite covers_spec in Hc. by split; [left|].
  - intros H. destruct (IH H) as (x & ? & ?). exists x. split; [by right|done].
Qed.

Lemma allows_for p r a : allows p (entry_for r a) <-> allows p (r_entry r).
Proof. done. Qed.

Lemma protect_spec D R v E G F (st : vs) start last p set_max :
  own D R v E G st -> good 2 R v G F -> vm_lock v = Unlocked ->
  mwp (vm_map_protect env map start last p set_max) (fun kr st' =>
    exists R' v' E' G', finished 0 D R R' v v' E' F G' st' /\
      ((kr = KERN_SUCCESS /\
        changed_in start last (new_protection p set_max) (rg_list R) (rg_list R') /\
        (forall a e, start <= a < last -> mapped (rg_list R) a = Some e -> allows p e /\
          (protection (new_protection p set_max e) <> protection e -> exists s t,
             PmapProtect (vm_pmap v) s t (protection (new_protection p set_max e)) ∈ E' /\ s <= a < t))) \/
       (kr = KERN_PROTECTION_FAILURE /\ E' = E /\ (forall a, mapped (rg_list R') a = mapped (rg_list R) a) /\
        exists a e, start <= a < last /\ mapped (rg_list R) a = Some e /\ ~ allows p e))) st.
Proof.
  intros Ho Hg Hl. unfold vm_map_protect. pose proof (wf_ordered _ _ _ (gd_wf _ _ _ _ _ _ Hg)) as Hord.
  apply mwp_bind. eapply own_lock; [done..|]. intros st1 Ho1.
  apply mwp_bind. eapply own_range_check; [exact Ho1|].
  set (t := Z.min last (rg_hi R)). set (s := Z.min (Z.max start (rg_lo R)) t). cbn [fst snd].
  apply mwp_bind. eapply first_in_range_good; [done|exact Ho1|by eapply good_map; [..|exact Hg]|].
  intros R1 G1 l1 l2 h st2 El1 H1 H2 Hm1 Hs1 Hn1 Hh Hg1 Ho2.
  pose proof (wf_ordered _ _ _ (gd_wf _ _ _ _ _ _ Hg1)) as Hord1. rewrite El1 in Hord1.
  destruct Hs1 as (Hlo1 & Hhi1 & Hpg1).
  apply mwp_bind. eapply own_fuel; [exact Ho2|]. intros fuel Hfuel. rewrite El1, length_app in Hfuel.
  apply mwp_bind. eapply check_protection_spec; [exact Ho2|exact Hg1|exact El1|lia| |].
  - intros Hall. apply mwp_bind.
    eapply (range_loop_spec env rs maps copies map Hzalloc _ _ (new_protection p set_max));
      [apply attribute_protection| |exact Ho2|exact Hg1|exact El1|lia|].
    { intros D0 R0 E0 G0 st0 k1 r k2 Ho0 E1. by eapply fix_protection_spec. }
    intros R2 G2 P S st3 El2 Hs2 Hn2 HP HS Hm2 Hg2 Ho3.
    apply mwp_bind. eapply own_unlock; [exact Ho3|done|]. intros st4 Ho4. apply mwp_ret.
    eexists R2, (set_lock Unlocked (set_hint h (locked v))), _, G2. split.
    { split; [exact Ho4|by eapply good_map; [..|exact Hg2]|done|by eapply rg_same_trans; [|exact Hs2]|done]. }
    left. split_and!; [done|..].
    + rewrite El2. eapply changed_clamp; [exact Hord|]. intros a. rewrite <- Hm1, El1.
      by eapply changed_walk; [apply attribute_protection|..].
    + intros a e Ha He. destruct (mapped_elem _ _ _ He) as (r0 & Hr0 & Hr0a & _).
      destruct (ordered_mem _ _ _ _ Hord Hr0) as (? & ? & ?).
      assert (Hl2 : mapped l2 a = Some e).
      { rewrite <- Hm1, El1, mapped_app, (mapped_above _ _ _ _ H1) in He by lia. done. }
      destruct (mapped_elem _ _ _ Hl2) as (x & Hx & Hxa & ->). split.
      { apply allows_for. rewrite Forall_forall in Hall. apply Hall; [done|lia]. }
      intros Hneq. rewrite <- Hm2, mapped_app in Hl2.
      assert (HPa : mapped P a = Some (entry_for x a)).
      { destruct (mapped P a) eqn:HPa; [done|]. rewrite (mapped_from _ _ _ HS) in Hl2 by lia. done. }
      destruct (mapped_elem _ _ _ HPa) as (y & Hy & Hya & Hexy).
      exists (r_start y), (r_end y). split; [|done]. apply elem_of_app. right. apply list_elem_of_bind. exists y. split; [|done].
      assert (Hpy : forall q, protection (new_protection p set_max (r_entry q)) = protection (new_protection p set_max (entry_for q a)) /\
        protection (r_entry q) = protection (entry_for q a)) by (intros q; by destruct set_max).
      unfold protect_event. rewrite (proj1 (Hpy y)), (proj2 (Hpy y)), <- Hexy.
      rewrite (proj2 (Z.eqb_neq _ _) Hneq). by left.
  - intros x Hx Hxs Hno. apply mwp_bind. eapply own_unlock; [exact Ho2|done|]. intros st3 Ho3. apply mwp_ret.
    exists R1, (set_lock Unlocked (set_hint h (locked v))), E, G1. split.
    { split; [exact Ho3|eapply good_map; [..|eapply good_weaken; [|exact Hg1]; lia]; done|done|done|done]. }
    right. split_and!; [done..|]. exists (r_start x), (entry_for x (r_start x)).
    rewrite Forall_forall in H2. specialize (H2 x Hx).
    assert (HxR : x ∈ rg_list R1) by (rewrite El1; apply elem_of_app; by right).
    destruct (ordered_mem _ _ _ x Hord1) as (? & ? & ?); [by rewrite <- El1|].
    split_and!; [lia|lia| |done].
    rewrite <- Hm1. apply list_elem_of_split in HxR as (k1 & k2 & Ek). rewrite Ek. rewrite <- El1, Ek in Hord1.
    eapply mapped_at; [exact Hord1|lia].
Qed.
End ops.
