(* ===== verification/VmDelete.v ===== *)
(** * Removing a range

    [vm_map_delete] takes exactly the range out of the map, releases one
    reference to each object it was mapped to, and leaves both hints at entries
    that are still there. *)

From S2P Require Import Prelude Names Splay Table Space Hash Entry World Vm VmMap VmRing VmOwn VmMapInv VmClip VmMapOps.

Definition removed_in (start last : Z) (l l' : list region) : Prop :=
  forall a, mapped l' a = if (start <=? a) && (a <? last) then None else mapped l a.

(** Entries that [vm_map_delete] removes at once. *)
Definition removable (e : vm_map_entry) : Prop := in_transition e = false /\ projected_on e = 0.

Lemma u32_size_sub size x : 0 <= size <= u32_max -> 0 <= x <= size -> u32 (size - x) = size - x.
Proof. intros. apply u32_id. unfold u32_range in *. lia. Qed.

Section delete.
Context {St : Type} `{!ObjectOps St} `{!ObjectLaws St} (env : vm_env St).
Context (rs : gmap Z ring) (maps : gmap Z vm_map) (copies : gmap Z vm_map_copy) (map : Z).
Hypothesis Hzalloc : forall L, L !! zalloc env L = None.

Abbreviation vs := (vmem * St)%type.
Abbreviation own := (own rs maps copies map).
Abbreviation good := (good map).

(** The calls that take a region out of the physical maps. *)
Definition remove_events (v : vm_map) (r : region) : list vm_event :=
  let e := r_entry r in
  let size := u32 (r_end r - r_start r) in
  if vme_object e =? VM_OBJECT_NULL then []
  else (if wired_count e =? 0 then [] else [FaultUnwire map (r_start r) (r_end r)]) ++
    [if vme_object e =? kernel_object env then ObjectPageRemove (vme_object e) (vme_offset e) (u32 (vme_offset e + size))
     else if is_shared e then ObjectPmapRemove (vme_object e) (vme_offset e) (u32 (vme_offset e + size))
     else PmapRemove (vm_pmap v) (r_start r) (r_end r)].

Lemma remove_pages_spec D R v E G (st : vs) l1 r l2 Q :
  own D R v E G st -> rg_list R = l1 ++ r :: l2 ->
  (forall e st', vme_object e = vme_object (r_entry r) -> is_sub_map e = is_sub_map (r_entry r) ->
     own D (with_list (l1 ++ with_entry e r :: l2) R) v (E ++ remove_events v r) G st' -> Q tt st') ->
  mwp (remove_pages env map (r_addr r)) Q st.
Proof.
  intros Ho El HQ. unfold remove_pages. apply mwp_bind. eapply own_links_at; [done..|].
  apply mwp_bind. eapply own_entry_at; [done|rewrite El; apply elem_of_app; right; by left|].
  unfold remove_events in HQ. cbn [vme_start vme_end].
  assert (Hid : with_list (l1 ++ with_entry (r_entry r) r :: l2) R = R).
  { destruct R as [? ? ? l]. simpl in El. unfold with_list, with_entry. simpl. rewrite El. by destruct r. }
  destruct (vme_object (r_entry r) =? VM_OBJECT_NULL).
  { apply mwp_ret. eapply (HQ (r_entry r)); [done..|]. by rewrite Hid, app_nil_r. }
  apply mwp_bind, mwp_when. destruct (wired_count (r_entry r) =? 0); cbn [negb].
  - set (ev := if vme_object (r_entry r) =? kernel_object env then _ else _) in HQ.
    assert (Hend : mwp (log_event ev) Q st).
    { eapply own_log_event; [exact Ho|]. intros st' Ho'. eapply (HQ (r_entry r)); [done..|]. by rewrite Hid. }
    unfold ev in Hend. destruct (_ =? kernel_object env); [exact Hend|]. destruct (is_shared (r_entry r)); [exact Hend|].
    apply mwp_bind. by eapply own_map_at.
  - apply mwp_bind. unfold vm_fault_unwire. apply mwp_bind. eapply own_links_at; [done..|]. cbn [vme_start vme_end].
    eapply own_log_event; [exact Ho|]. intros st1 Ho1. eapply own_update_entry; [exact Ho1|exact El|]. intros st2 Ho2.
    set (ev := if vme_object (r_entry r) =? kernel_object env then _ else _) in HQ.
    assert (Hend : mwp (log_event ev) Q st2).
    { eapply own_log_event; [exact Ho2|]. intros st' Ho'. rewrite <- app_assoc in Ho'.
      eapply (HQ (set_wired 0 0 (r_entry r))); [done..|]. exact Ho'. }
    unfold ev in Hend. destruct (_ =? kernel_object env); [exact Hend|]. destruct (is_shared (r_entry r)); [exact Hend|].
    apply mwp_bind. by eapply own_map_at.
Qed.

Lemma own_deallocate D R v E G G0 (st : vs) o Q :
  own D R v E G st -> rf_held G ≡ₚ held o ++ rf_held G0 -> rf_room G = rf_room G0 ->
  (forall st', own D R v E G0 st' -> Q tt st') ->
  mwp (on_object (vo_deallocate o)) Q st.
Proof.
  intros Ho HG Hk HQ.
  apply (own_perm _ _ _ _ _ _ _ _ _ (mk_refs (rf_room G0) (held o ++ rf_held G0)) _ Hk HG) in Ho.
  eapply (own_object _ _ _ _ _ _ _ _ _ _ _ (fun _ G' => G' = G0)); [done| |by intros [] ? ? ->; apply HQ].
  eapply mwp_mono; [eapply ol_deallocate; exact (own_refs _ _ _ _ _ _ _ _ _ _ Ho)|]. intros ? s' Hs. eauto.
Qed.

(** One entry. *)
Lemma entry_delete_spec dealloc D R v E G F k (st : vs) l1 r l2 Q :
  own D R v E G st -> good k R v G F -> rg_list R = l1 ++ r :: l2 -> projected_on (r_entry r) = 0 ->
  vm_hint v ∈ map :: addrs l1 -> vm_first_free v ∈ map :: addrs l1 ->
  (forall G' st', good k (linked_ring (-1) (l1 ++ l2) R) (set_size (total (l1 ++ l2)) v) G' F ->
     own D (linked_ring (-1) (l1 ++ l2) R) (set_size (total (l1 ++ l2)) v) (E ++ remove_events v r) G' st' -> Q tt st') ->
  mwp (vm_map_entry_delete env dealloc map (r_addr r)) Q st.
Proof.
  intros Ho [[W1 W2 W3 W4 W5 W6 W7] Hp Ha Hroom] El Hproj Hhint Hff HQ. rewrite El in W1, W4, W5, Hp, Ha.
  pose proof (plain_mid _ _ _ Hp) as Hsub.
  assert (HG : exists G0, rf_held G ≡ₚ held (vme_object (r_entry r)) ++ rf_held G0 /\ rf_room G = rf_room G0 /\ accounts G0 (l1 ++ l2) F).
  { exists (mk_refs (rf_room G) (refs_of (l1 ++ l2) ++ F)). split; [|split; [done|by unfold accounts]]. unfold accounts in Ha. rewrite Ha, refs_of_mid. by rewrite <- app_assoc. }
  destruct HG as (G0 & HG & Hk & Hacc).
  unfold vm_map_entry_delete. apply mwp_bind. eapply own_links_at; [done..|].
  apply mwp_bind. eapply own_entry_at; [done|rewrite El; apply elem_of_app; right; by left|].
  rewrite Hproj, andb_false_r. apply mwp_bind, mwp_ret.
  apply mwp_bind. eapply remove_pages_spec; [exact Ho|exact El|]. intros e st1 He Hes Ho1.
  apply mwp_bind. eapply (own_entry_at _ _ _ _ _ _ _ _ _ _ (with_entry e r)); [exact Ho1|simpl; apply elem_of_app; right; by left|].
  cbn [r_entry with_entry]. rewrite Hes, Hsub, He. apply mwp_bind. eapply own_deallocate; [exact Ho1|exact HG|exact Hk|]. intros st2 Ho2.
  apply mwp_bind. eapply (own_unlink _ _ _ _ _ _ _ _ _ _ _ (with_entry e r)); [exact Ho2|done|]. intros st3 Ho3.
  apply mwp_bind. eapply own_update_map; [exact Ho3|]. intros st4 Ho4.
  eapply own_dispose; [exact Ho4|apply lookup_insert_eq|]. intros st5 Ho5.
  cbn [vme_start vme_end] in Ho5.
  assert (HD : D !! r_addr r = None).
  { destruct (D !! r_addr r) as [[k0 e0]|] eqn:HD; [|done].
    destruct (own_loose _ _ _ _ _ _ _ _ _ _ Ho _ _ _ HD) as (_ & _ & Hd). by destruct (detached_ne _ _ _ _ _ _ _ Hd El). }
  rewrite delete_insert_id in Ho5 by done. change (linked_ring (-1) (l1 ++ l2) (with_list (l1 ++ with_entry e r :: l2) R)) with (linked_ring (-1) (l1 ++ l2) R) in Ho5.
  pose proof (ordered_total _ _ _ W1) as Ht. rewrite total_app in Ht, W5. simpl in Ht, W5.
  pose proof (ordered_split _ _ _ _ _ W1) as (Ws1 & Ws2 & Ws3).
  pose proof (ordered_total _ _ _ Ws1). pose proof (ordered_total _ _ _ Ws3).
  rewrite u32_size_sub in Ho5 by lia.
  replace (vm_size v - (r_end r - r_start r)) with (total (l1 ++ l2)) in Ho5 by (rewrite total_app; lia).
  eapply (HQ G0); [|exact Ho5]. split; [split; simpl; try done|..].
  - eapply ordered_join; [exact Ws1|]. eapply ordered_weaken; [| |exact Ws3]; lia.
  - rewrite W4, !length_app. simpl. lia.
  - unfold nodes. simpl. rewrite addrs_app. rewrite elem_of_cons in *. rewrite elem_of_app. tauto.
  - unfold nodes. simpl. rewrite addrs_app. rewrite elem_of_cons in *. rewrite elem_of_app. tauto.
  - unfold plain in *. simpl. rewrite Forall_app, Forall_cons in Hp. rewrite Forall_app. tauto.
  - exact Hacc.
  - unfold roomy in *. lia.
Qed.
Lemma delete_loop_stop dealloc fuel D R v E G (st : vs) l1 l2 start last Q :
  own D R v E G st -> rg_list R = l1 ++ l2 -> Forall (fun x => last <= r_start x) l2 -> Q tt st ->
  mwp (delete_loop env fuel dealloc map (first_addr l2 map) start last) Q st.
Proof.
  intros Ho El Hall HQ.
  assert (Hb : match l2 with [] => false | r :: _ => r_start r <? last end = false).
  { destruct l2 as [|r l2]; [done|]. apply Z.ltb_ge. by inversion Hall. }
  destruct fuel; simpl; apply mwp_bind; (eapply before_end_spec; [done..|]); rewrite Hb; by apply mwp_ret.
Qed.

Lemma set_size_twice x y v : set_size x (set_size y v) = set_size x v.
Proof. done. Qed.

Lemma set_size_same v : set_size (vm_size v) v = v.
Proof. by destruct v. Qed.

Lemma delete_loop_spec dealloc fuel D R v E G F k (st : vs) l1 l2 start last Q :
  own D R v E G st -> good (S k) R v G F -> rg_list R = l1 ++ l2 -> (length l2 <= fuel)%nat ->
  vm_hint v ∈ map :: addrs l1 -> vm_first_free v ∈ map :: addrs l1 ->
  Forall (fun x => r_start x < last -> removable (r_entry x)) l2 ->
  (forall R' G' P S st', rg_list R' = l1 ++ S -> rg_same R R' ->
     Forall (fun x => r_end x <= last) P -> Forall (fun x => last <= r_start x) S ->
     (forall a, mapped (P ++ S) a = mapped l2 a) -> good k R' (set_size (total (l1 ++ S)) v) G' F ->
     own D R' (set_size (total (l1 ++ S)) v) (E ++ (P ≫= remove_events v)) G' st' -> Q tt st') ->
  mwp (delete_loop env fuel dealloc map (first_addr l2 map) start last) Q st.
Proof.
  revert fuel R v E G st Q. induction l2 as [|r l2 IH]; intros fuel R v E G st Q Ho Hg El Hfuel Hh Hff Hrem HQ.
  - eapply delete_loop_stop; [done|done|done|]. pose proof (wf_size _ _ _ (gd_wf _ _ _ _ _ _ Hg)) as Hsz.
    rewrite app_nil_r in El. rewrite El in Hsz.
    eapply (HQ R G [] []); rewrite ?app_nil_r, <- ?Hsz, ?set_size_same, ?app_nil_r; [done..|by eapply good_weaken; [|exact Hg]; lia|done].
  - pose proof (wf_ordered _ _ _ (gd_wf _ _ _ _ _ _ Hg)) as Hord. rewrite El in Hord.
    destruct (Z.ltb_spec (r_start r) last) as [Hlt|Hge].
    + destruct fuel as [|fuel]; [simpl in Hfuel; lia|]. cbn [delete_loop]. apply mwp_bind.
      eapply before_end_spec; [done..|]. rewrite (proj2 (Z.ltb_lt _ _) Hlt). cbn [negb first_addr].
      apply mwp_bind. eapply clip_end_good; [done|exact Ho|exact Hg|exact El|done|].
      intros R1 G1 r' l2' st1 El1 Ha Hs He Hent Hcase Hm Hsame Hn Hg1 Ho1. rewrite <- Ha.
      apply Forall_cons in Hrem as [Hr Hrem]. destruct (Hr Hlt) as [Htr Hpr]. rewrite <- Hent in Htr, Hpr.
      apply mwp_bind. eapply own_entry_at; [exact Ho1|rewrite El1; apply elem_of_app; right; by left|]. rewrite Htr.
      apply mwp_bind. eapply own_next_region; [exact Ho1|exact El1|]. apply mwp_bind.
      destruct Hcase as [(Hend & -> & -> & -> & ->)|Hall].
      * eapply (entry_delete_spec _ _ _ _ _ _ F (S k)); [exact Ho1|exact Hg|exact El|done..|]. intros G2 st2 Hg2 Ho2.
        eapply IH; [exact Ho2|exact Hg2|done|simpl in Hfuel; lia|done..|].
        intros R' G' P S st' El' Hsame' HP HS Hm' Hg' Ho'. rewrite set_size_twice in Hg', Ho'.
        eapply (HQ R' G' (r :: P) S).
        -- done.
        -- done.
        -- by constructor.
        -- done.
        -- intros a. simpl. by rewrite Hm'.
        -- done.
        -- cbn. by rewrite app_assoc.
      * eapply entry_delete_spec; [exact Ho1|exact Hg1|exact El1|done..|]. intros G2 st2 Hg2 Ho2.
        eapply delete_loop_stop; [exact Ho2|done|exact Hall|].
        eapply (HQ (linked_ring (-1) (l1 ++ l2') R1) G2 [r'] l2'); [done|done| |done|done|done|].
        -- constructor; [lia|done].
        -- cbn. by rewrite app_nil_r.
    + apply ordered_app in Hord as [_ Hord]. pose proof (ordered_from _ _ _ _ _ Hord Hge) as Hall.
      eapply delete_loop_stop; [exact Ho|exact El|exact Hall|]. pose proof (wf_size _ _ _ (gd_wf _ _ _ _ _ _ Hg)) as Hsz.
      rewrite El in Hsz.
      by eapply (HQ R G [] (r :: l2)); rewrite <- ?Hsz, ?set_size_same, ?app_nil_r; [..|eapply good_weaken; [|exact Hg]; lia|].
Qed.

Lemma removed_walk lo l1 l2 start last P S :
  ordered lo l1 start -> Forall (fun x => start <= r_start x) l2 ->
  Forall (fun x => r_end x <= last) P -> Forall (fun x => last <= r_start x) S ->
  (forall a, mapped (P ++ S) a = mapped l2 a) -> removed_in start last (l1 ++ l2) (l1 ++ S).
Proof.
  intros H1 H2 HP HS Hm a. rewrite !mapped_app. specialize (Hm a). rewrite mapped_app in Hm.
  destruct (Z.leb_spec start a) as [Hsa|Hsa]; cbn [andb].
  - rewrite (mapped_above _ _ _ _ H1) by lia. destruct (Z.ltb_spec a last) as [Hal|Hal].
    + by rewrite (mapped_from _ _ _ HS).
    + by rewrite (mapped_until _ _ _ HP) in Hm.
  - rewrite (mapped_from _ _ _ H2) in * by lia. destruct (mapped P a); [done|]. by rewrite Hm.
Qed.

(** The addresses before a place in the list. *)
Lemma node_before R (v : vm_map) l1 l2 start a :
  map_wf map R v -> rg_list R = l1 ++ l2 -> Forall (fun x => start <= r_start x) l2 -> a ∈ nodes map R ->
  (a = map \/ exists r, r ∈ rg_list R /\ r_addr r = a /\ r_start r < start) -> a ∈ map :: addrs l1.
Proof.
  intros Hwf El Hall Ha [->|(r & Hr & <- & Hlt)]; [by left|]. right. apply elem_of_addrs.
  rewrite El in Hr. apply elem_of_app in Hr as [|Hr]; [done|]. rewrite Forall_forall in Hall. specialize (Hall r Hr). lia.
Qed.

Lemma own_start_node D R v E G (st : vs) a Q :
  own D R v E G st -> a ∈ nodes map R ->
  (a = map -> Q (rg_lo R) st) -> (forall r, r ∈ rg_list R -> r_addr r = a -> Q (r_start r) st) -> mwp (start_of a) Q st.
Proof.
  intros Ho Ha H1 H2. apply elem_of_cons in Ha as [->|Ha].
  - eapply own_start_map; [done|]. by apply H1.
  - apply list_elem_of_fmap in Ha as (r & -> & Hr). pose proof Hr as Hr'. apply list_elem_of_split in Hr' as (k1 & k2 & Ek).
    eapply own_start_region; [done..|]. by apply H2.
Qed.

(** Where the deletion begins: an entry boundary, with the hint before it. *)
Definition begins_at D R v E F start x (st' : vs) : Prop :=
  exists R2 G2 l1 l2 h2, x = first_addr l2 map /\ rg_list R2 = l1 ++ l2 /\
    ordered (rg_lo R) l1 (Z.max start (rg_lo R)) /\ Forall (fun y => Z.max start (rg_lo R) <= r_start y) l2 /\
    (forall a, mapped (rg_list R2) a = mapped (rg_list R) a) /\ rg_same R R2 /\ h2 ∈ map :: addrs l1 /\
    good 1 R2 (set_hint h2 v) G2 F /\ own D R2 (set_hint h2 v) E G2 st'.

Lemma delete_first_spec D R v E G F (st : vs) start found entry h :
  own D R (set_hint h v) E G st -> good 2 R (set_hint h v) G F -> lookup_answer map R start (found, entry) ->
  ((found, entry).1 = false -> h = (found, entry).2) ->
  mwp (if found then vm_map_clip_start env map entry start;; prev ← prev_of entry; SAVE_HINT map prev;; mret entry
       else next_of entry) (begins_at D R v E F start) st.
Proof.
  intros Ho1 Hg1 Hans Hmiss. pose proof (wf_ordered _ _ _ (gd_wf _ _ _ _ _ _ Hg1)) as Hord.
  destruct found; unfold lookup_answer in Hans; cbn in Hans.
  - destruct Hans as (l1 & x & l2 & El & -> & Hx). apply mwp_bind.
    eapply clip_start_good; [done|exact Ho1|exact Hg1|exact El|lia|].
    intros R' G' r' l1' st2 El' Ha Hs He _ Hm Hsame Hn Hg' Ho2. rewrite <- Ha.
    apply mwp_bind. eapply own_prev_region; [exact Ho2|exact El'|].
    apply mwp_bind. eapply own_update_map; [exact Ho2|]. intros st3 Ho3. apply mwp_ret.
    pose proof (wf_ordered _ _ _ (gd_wf _ _ _ _ _ _ Hg')) as Hord'. rewrite El' in Hord'.
    pose proof Hsame as (Hlo & _). rewrite Hlo in Hord'.
    apply ordered_app in Hord' as [Ho1' Ho2']. pose proof (ordered_le _ _ _ Ho1').
    assert (Hmax : Z.max start (rg_lo R) = r_start r') by (destruct Ho2'; lia).
    exists R', G', l1', (r' :: l2), (last_addr map l1'). rewrite Hmax. split_and!; try done.
    + eapply ordered_weaken; [| |exact Ho1']; [lia|]. destruct Ho2'. lia.
    + by eapply ordered_from.
    + rewrite elem_of_cons. destruct (last_addr_elem map l1') as [->|]; tauto.
    + eapply (good_hint _ _ _ (set_hint h v)); [|exact Hg']. by eapply nodes_last.
  - destruct Hans as (l1 & l2 & El & -> & Hl & Hall). eapply own_next; [exact Ho1|exact El|].
    assert (Hstart : Forall (fun y => Z.max start (rg_lo R) <= r_start y) l2).
    { rewrite Forall_forall in Hall |- *. intros y Hy. specialize (Hall y Hy).
      destruct (ordered_mem _ _ _ y Hord); [rewrite El; apply elem_of_app; by right|lia]. }
    exists R, G, l1, l2, h. split_and!; try done.
    + rewrite El in Hord. apply ordered_app in Hord as [Hord' _]. eapply limit_ordered; [exact Hord'|lia].
    + rewrite (Hmiss eq_refl), elem_of_cons. cbn. destruct (last_addr_elem map l1) as [->|]; tauto.
    + eapply good_weaken; [|exact Hg1]. lia.
Qed.

(** The start of the entry at the free space hint tells if it is before the
    range. *)
Lemma first_free_start D R v E G F k (st : vs) start l1 l2 :
  own D R v E G st -> good k R v G F -> rg_list R = l1 ++ l2 -> Forall (fun y => start <= r_start y) l2 ->
  exists fs, mwp (start_of (vm_first_free v)) (fun y st' => y = fs /\ st' = st) st /\
    (fs < start -> vm_first_free v ∈ map :: addrs l1).
Proof.
  intros Ho2 Hg2 El H2. pose proof (gd_wf _ _ _ _ _ _ Hg2) as Hwf2.
  pose proof (wf_first_free _ _ _ Hwf2) as Hff. apply elem_of_cons in Hff as [Hff|Hff]; cbn [vm_first_free set_hint] in Hff.
  - exists (rg_lo R). rewrite Hff. split; [by eapply own_start_map|]. intros _. by left.
  - apply list_elem_of_fmap in Hff as (r & Hr & Hin). pose proof Hin as Hin'.
    apply list_elem_of_split in Hin' as (k1 & k2 & Ek). exists (r_start r). rewrite Hr.
    split; [by eapply own_start_region|]. intros Hlt. eapply (node_before R _ l1 l2); [exact Hwf2|done|exact H2| |].
    + by eapply nodes_region.
    + right. exists r. split_and!; [done..|lia].
Qed.

Lemma set_first_free_spec D R v E G F k (st : vs) start fs l1 l2 :
  own D R v E G st -> good k R v G F -> rg_list R = l1 ++ l2 -> vm_hint v ∈ map :: addrs l1 ->
  (fs < start -> vm_first_free v ∈ map :: addrs l1) ->
  mwp (when (start <=? fs) (update_map map (set_first_free (last_addr map l1)))) (fun _ st' => exists v3,
    own D R v3 E G st' /\ good k R v3 G F /\ vm_hint v3 ∈ map :: addrs l1 /\ vm_first_free v3 ∈ map :: addrs l1 /\
    vm_lock v3 = vm_lock v /\ vm_pmap v3 = vm_pmap v) st.
Proof.
  intros Ho2 Hg2 El Hh2 Hff.
  assert (Hprev : last_addr map l1 ∈ map :: addrs l1).
  { rewrite elem_of_cons. destruct (last_addr_elem map l1) as [->|]; tauto. }
  apply mwp_when. destruct (Z.leb_spec start fs).
  - eapply own_update_map; [exact Ho2|]. intros st' Ho'. eexists. split; [exact Ho'|]. split_and!; try done.
    destruct Hg2 as [[] ? ? ?]. split; [split|..]; try done. by eapply nodes_last.
  - exists v. split_and!; try done. by apply Hff.
Qed.

Lemma range_delete_spec dealloc D R v E G F (st : vs) start last Q :
  own D R v E G st -> good 2 R v G F ->
  (forall a e, start <= a < last -> mapped (rg_list R) a = Some e -> removable e) ->
  (forall R' v' E' G' st', good 0 R' v' G' F -> own D R' v' E' G' st' -> rg_same R R' ->
     vm_lock v' = vm_lock v -> vm_pmap v' = vm_pmap v -> removed_in start last (rg_list R) (rg_list R') ->
     Q KERN_SUCCESS st') ->
  mwp (vm_map_delete env dealloc map start last) Q st.
Proof.
  intros Ho Hg Hrem HQ. pose proof (wf_ordered _ _ _ (gd_wf _ _ _ _ _ _ Hg)) as Hord. unfold vm_map_delete.
  (* the first entry, with the hint before it *)
  apply mwp_bind. eapply mwp_mono; [eapply lookup_entry_spec; [done|by eapply gd_wf]|].
  intros [found entry] st1 (Hans & h & Hh & Ho1 & Hmiss). pose proof (good_hint _ _ _ _ _ _ h Hh Hg) as Hg1.
  apply mwp_bind. eapply mwp_mono; [by eapply delete_first_spec|]. clear Hans Hmiss Ho1 Hg1.
  intros x st2 (R2 & G2 & l1 & l2 & h2 & -> & El & H1 & H2 & Hm & Hsame & Hh2 & Hg2 & Ho2).
  pose proof (gd_wf _ _ _ _ _ _ Hg2) as Hwf2. pose proof (wf_ordered _ _ _ Hwf2) as Hord2. rewrite El in Hord2.
  (* the free space hint *)
  apply mwp_bind. eapply own_map_at; [exact Ho2|]. apply mwp_bind.
  destruct (first_free_start _ _ _ _ _ _ _ _ start l1 l2 Ho2 Hg2 El) as (fs & Hfs & Hff).
  { eapply Forall_impl; [exact H2|]. simpl. lia. }
  eapply mwp_mono; [exact Hfs|]. intros y st3 [-> ->].
  apply mwp_bind. eapply own_prev; [exact Ho2|exact El|].
  apply mwp_bind. eapply mwp_mono; [by eapply set_first_free_spec|]. intros [] st3 (v3 & Ho3 & Hg3 & Hh3 & Hf3 & Hl3 & Hp3).
  apply mwp_bind. eapply own_fuel; [exact Ho3|]. intros fuel Hfuel. rewrite El, length_app in Hfuel.
  apply mwp_bind. eapply delete_loop_spec; [exact Ho3|exact Hg3|exact El|lia|done|done| |].
  { rewrite Forall_forall in H2 |- *. intros z Hz Hlt. specialize (H2 z Hz). specialize (Hrem (r_start z)).
    rewrite <- Hm, El in Hrem. apply list_elem_of_split in Hz as (k1 & k2 & ->). rewrite app_assoc in Hord2, Hrem.
    destruct (ordered_mem _ _ _ z Hord2); [apply elem_of_app; right; by left|].
    eapply (Hrem (entry_for z (r_start z))); [lia|]. eapply mapped_at; [exact Hord2|lia]. }
  intros R4 G4 P S st4 El4 Hs4 HP HS Hm4 Hg4 Ho4.
  apply mwp_bind. eapply own_map_at; [exact Ho4|].
  assert (Hres : removed_in start last (rg_list R) (rg_list R4)).
  { intros a. rewrite El4. pose proof (removed_walk _ _ _ _ _ _ _ H1 H2 HP HS Hm4 a) as Ha. rewrite Ha, <- El, Hm.
    destruct (Z.leb_spec (Z.max start (rg_lo R)) a), (Z.leb_spec start a), (Z.ltb_spec a last); try done; try lia.
    cbn. by rewrite (mapped_below _ _ _ _ Hord) by lia. }
  apply mwp_bind, mwp_when. destruct (wait_for_space _).
  - eapply own_log_event; [exact Ho4|]. intros st5 Ho5. apply mwp_ret.
    eapply HQ; [exact Hg4|exact Ho5|by eapply rg_same_trans|done..].
  - apply mwp_ret. eapply HQ; [exact Hg4|exact Ho4|by eapply rg_same_trans|done..].
Qed.

Lemma remove_spec D R v E G F (st : vs) start last :
  own D R v E G st -> good 2 R v G F -> vm_lock v = Unlocked ->
  (forall a e, start <= a < last -> mapped (rg_list R) a = Some e -> removable e) ->
  mwp (vm_map_remove env map start last) (fun kr st' => kr = KERN_SUCCESS /\
    exists R' v' E' G', finished rs maps copies map 0 D R R' v v' E' F G' st' /\
      removed_in start last (rg_list R) (rg_list R')) st.
Proof.
  intros Ho Hg Hl Hrem. unfold vm_map_remove. pose proof (wf_ordered _ _ _ (gd_wf _ _ _ _ _ _ Hg)) as Hord.
  apply mwp_bind. eapply own_lock; [done..|]. intros st1 Ho1.
  apply mwp_bind. eapply own_range_check; [exact Ho1|].
  set (t := Z.min last (rg_hi R)). set (s := Z.min (Z.max start (rg_lo R)) t).
  apply mwp_bind, mwp_gets.
  apply mwp_bind. eapply range_delete_spec; [exact Ho1|by eapply good_map; [..|exact Hg]| |].
  { intros a e Ha He. destruct (mapped_elem _ _ _ He) as (r & Hr & Hra & _).
    destruct (ordered_mem _ _ _ _ Hord Hr) as (? & ? & ?). eapply (Hrem a); [lia|done]. }
  intros R' v' E' G' st2 Hg' Ho2 Hsame Hlk Hpm Hre.
  apply mwp_bind. eapply own_unlock; [exact Ho2|by rewrite Hlk|]. intros st3 Ho3. apply mwp_ret. split; [done|].
  eexists R', _, E', G'. split.
  - split; [exact Ho3|by eapply good_map; [..|exact Hg']|done|done|exact Hpm].
  - intros a. rewrite Hre.
    destruct (Z.leb_spec start a), (Z.ltb_spec a last), (Z.leb_spec s a), (Z.ltb_spec a t); try done; try lia; cbn [andb];
      (destruct (Z.lt_ge_cases a (rg_lo R)); [by rewrite (mapped_below _ _ _ _ Hord)|]);
      (destruct (Z.lt_ge_cases a (rg_hi R)); [lia|by rewrite (mapped_above _ _ _ _ Hord)]).
Qed.
End delete.
