(* ===== verification/VmSimplify.v ===== *)
(** * Joining two entries

    [vm_map_simplify] joins an entry with the one before it if they map
    adjacent parts of the same object with the same attributes.  It does not
    look at [in_transition] and [needs_wakeup]: what the addresses of the
    second entry are mapped to stays the same but for these. *)

From S2P Require Import Prelude Names Splay Table Space Hash Entry World Vm VmMap VmRing VmOwn VmMapInv VmClip VmMapOps VmDelete.

(** The entry without the marks of a change in progress. *)
Definition steady (e : vm_map_entry) : vm_map_entry :=
  mk_map_entry (vme_object e) (vme_offset e) (is_shared e) (is_sub_map e) false false (needs_copy e) (protection e)
    (max_protection e) (inheritance e) (wired_count e) (user_wired_count e) (projected_on e).

Definition extended (p x : region) : region := mk_region (r_addr p) (r_start p) (r_end x) (r_entry p).

(** The conditions of [vm_map_simplify]. *)
Definition joinable (p x : region) : Prop :=
  r_end p = r_start x /\ same_attributes (r_entry p) (r_entry x) = true /\
  u32 (vme_offset (r_entry p) + (r_end p - r_start p)) = vme_offset (r_entry x) /\
  projected_on (r_entry p) = 0 /\ projected_on (r_entry x) = 0.

Lemma joined_entry p x a : joinable p x -> steady (entry_for (extended p x) a) = steady (entry_for x a).
Proof.
  intros (He & Hs & Ho & Hp & Hx). unfold same_attributes in Hs. rewrite !andb_true_iff, !negb_true_iff, !Z.eqb_eq in Hs.
  destruct Hs as ((((((((((H1 & H2) & H3) & H4) & H5) & H6) & H7) & H8) & H9) & H10) & H11). apply eqb_prop in H10.
  unfold steady, entry_for. simpl. f_equal; try congruence. rewrite <- Ho. unfold u32. rewrite Zplus_mod_idemp_l. f_equal. lia.
Qed.

Lemma mapped_joined lo l1 p x l2 hi a :
  ordered lo (l1 ++ p :: x :: l2) hi -> joinable p x ->
  steady <$> mapped (l1 ++ extended p x :: l2) a = steady <$> mapped (l1 ++ p :: x :: l2) a.
Proof.
  intros Hord Hj. rewrite !mapped_app. destruct (mapped l1 a); [done|]. simpl.
  apply ordered_split in Hord as (_ & Hp & (Hpx & Hx & _)). destruct Hj as (He & Hj').
  destruct (covers p a) eqn:Cp; [|destruct (covers x a) eqn:Cx].
  - apply covers_spec in Cp. by rewrite (proj2 (covers_spec (extended p x) a)) by (simpl; lia).
  - apply covers_spec in Cx. rewrite (proj2 (covers_spec (extended p x) a)) by (simpl; lia). simpl. f_equal. by apply joined_entry.
  - apply covers_false in Cp, Cx. by rewrite (proj2 (covers_false (extended p x) a)) by (simpl; lia).
Qed.

Section simplify.
Context {St : Type} `{!ObjectOps St} `{!ObjectLaws St} (env : vm_env St).
Context (rs : gmap Z ring) (maps : gmap Z vm_map) (copies : gmap Z vm_map_copy) (map : Z).

Abbreviation vs := (vmem * St)%type.
Abbreviation own := (own rs maps copies map).
Abbreviation good := (good map).
Abbreviation finished := (finished rs maps copies map).

Lemma good_joined k R v G G0 F l1 p x l2 v' :
  good k R v G F -> rg_list R = l1 ++ p :: x :: l2 -> joinable p x -> accounts G0 (l1 ++ p :: l2) F -> roomy k G0 ->
  vm_size v' = vm_size v -> vm_hint v' = r_addr p -> vm_first_free v' = (if vm_first_free v =? r_addr x then r_addr p else vm_first_free v) ->
  good k (with_list (l1 ++ extended p x :: l2) (linked_ring (-1) (l1 ++ p :: l2) R)) v' G0 F.
Proof.
  intros [[W1 W2 W3 W4 W5 W6 W7] Hp Ha Hr] El Hj HG0 Hr0 Hs Hh Hf. destruct Hj as (He & _). rewrite El in W1, W4, W5, Hp.
  pose proof (ordered_split _ _ _ _ _ W1) as (O1 & O2 & (O3 & O4 & O5)).
  assert (Hnodes : forall a, a ∈ nodes map R -> a <> r_addr x -> a ∈ map :: addrs (l1 ++ extended p x :: l2)).
  { intros a. unfold nodes. rewrite El, !addrs_app. simpl. rewrite !elem_of_cons, !elem_of_app, !elem_of_cons. tauto. }
  assert (Hpn : r_addr p ∈ map :: addrs (l1 ++ extended p x :: l2)).
  { rewrite addrs_app. simpl. rewrite elem_of_cons, elem_of_app, elem_of_cons. tauto. }
  split; [split; simpl; try done|..].
  - eapply ordered_join; [exact O1|]. simpl. split_and!; [lia|lia|done].
  - rewrite W4, !length_app. simpl. lia.
  - rewrite Hs, W5, !total_app. simpl. lia.
  - by rewrite Hh.
  - rewrite Hf. destruct (Z.eqb_spec (vm_first_free v) (r_addr x)); [done|by apply Hnodes].
  - unfold plain in *. simpl. rewrite Forall_app, !Forall_cons in *. simpl. tauto.
  - unfold accounts in *. rewrite HG0. simpl. by rewrite !refs_of_mid.
  - done.
Qed.

Lemma join_entries_spec D R v E G F k (st : vs) l1 p x l2 Q :
  own D R v E G st -> good k R v G F -> rg_list R = l1 ++ p :: x :: l2 -> joinable p x ->
  (forall R' v' G' st', rg_list R' = l1 ++ extended p x :: l2 -> rg_same R R' -> vm_lock v' = vm_lock v -> vm_pmap v' = vm_pmap v ->
     good k R' v' G' F -> own D R' v' E G' st' -> Q tt st') ->
  mwp (join_entries map (r_addr p) (r_addr x)) Q st.
Proof.
  intros Ho Hg El Hj HQ. apply mwp_bind. eapply own_map_at; [exact Ho|].
  set (v1 := if vm_first_free v =? r_addr x then set_first_free (r_addr p) v else v).
  assert (Hff : mwp (when (vm_first_free v =? r_addr x) (update_map map (set_first_free (r_addr p)))) (fun _ st' => own D R v1 E G st') st).
  { apply mwp_when. unfold v1. destruct (vm_first_free v =? r_addr x); [by eapply own_update_map|done]. }
  apply mwp_bind. eapply mwp_mono; [exact Hff|]. intros [] st1 Ho1.
  apply mwp_bind. eapply own_update_map; [exact Ho1|]. intros st2 Ho2. set (v2 := set_hint (r_addr p) v1) in *.
  assert (El' : rg_list R = (l1 ++ [p]) ++ x :: l2) by (by rewrite El, <- app_assoc).
  assert (HD : D !! r_addr x = None).
  { destruct (D !! r_addr x) as [[k0 e0]|] eqn:HD; [|done].
    destruct (own_loose _ _ _ _ _ _ _ _ _ _ Ho _ _ _ HD) as (_ & _ & Hd). by destruct (detached_ne _ _ _ _ _ _ _ Hd El'). }
  apply mwp_bind. eapply own_unlink; [exact Ho2|exact El'|]. intros st3 Ho3. rewrite <- app_assoc in Ho3. simpl in Ho3.
  apply mwp_bind, mwp_bind. eapply own_loose_links; [exact Ho3|apply lookup_insert_eq|]. apply mwp_ret. cbn [vme_end].
  apply mwp_bind. eapply own_update_links with (r := p) (s := r_start p) (e := r_end x); [exact Ho3|done|done|]. intros st4 Ho4.
  fold (extended p x) in Ho4. set (R' := with_list _ _) in Ho4.
  pose proof (gd_accounts _ _ _ _ _ _ Hg) as Ha. unfold accounts in Ha. rewrite El', refs_of_mid, <- !app_assoc in Ha. simpl in Ha.
  apply mwp_bind. eapply own_loose_entry; [exact Ho4|apply lookup_insert_eq|].
  apply mwp_bind. eapply (own_deallocate _ _ _ _ _ _ _ _ _ (mk_refs (rf_room G) (refs_of (l1 ++ p :: l2) ++ F))); [exact Ho4|exact Ha|done|].
  intros st5 Ho5. eapply own_dispose; [exact Ho5|apply lookup_insert_eq|]. intros st6 Ho6. rewrite delete_insert_id in Ho6 by done.
  eapply HQ; [| | | | |exact Ho6]; [done|done|by unfold v2, v1; destruct (_ =? _)|by unfold v2, v1; destruct (_ =? _)|].
  eapply good_joined; [exact Hg|exact El|exact Hj|by unfold accounts|exact (gd_room _ _ _ _ _ _ Hg)|by unfold v2, v1; destruct (_ =? _)|done|].
  unfold v2, v1. by destruct (_ =? _).
Qed.

Lemma simplify_spec D R v E G F k (st : vs) start :
  own D R v E G st -> good k R v G F -> vm_lock v = Unlocked ->
  mwp (vm_map_simplify map start) (fun _ st' => exists R' v' G', finished k D R R' v v' E F G' st' /\
    (length (rg_list R') <= length (rg_list R))%nat /\
    forall a, steady <$> mapped (rg_list R') a = steady <$> mapped (rg_list R) a) st.
Proof.
  intros Ho Hg Hl. unfold vm_map_simplify. apply mwp_bind. eapply own_lock; [done..|]. intros st1 Ho1.
  assert (Hg1 : good k R (locked v) G F) by (by eapply good_map; [..|exact Hg]).
  apply mwp_bind. eapply mwp_mono; [eapply lookup_entry_spec; [exact Ho1|apply Hg1]|].
  intros [found entry] st2 (Hans & h & Hh & Ho2 & _). apply (good_hint _ _ _ _ _ _ h Hh) in Hg1. cbn [fst snd] in *.
  assert (Hend : forall R' v' G' (st' : vs), own D R' v' E G' st' -> good k R' v' G' F -> vm_lock v' = WriteLocked -> vm_pmap v' = vm_pmap v ->
    rg_same R R' -> (length (rg_list R') <= length (rg_list R))%nat ->
    (forall a, steady <$> mapped (rg_list R') a = steady <$> mapped (rg_list R) a) ->
    mwp (vm_map_unlock map) (fun _ st' => exists R' v' G', finished k D R R' v v' E F G' st' /\
      (length (rg_list R') <= length (rg_list R))%nat /\
      forall a, steady <$> mapped (rg_list R') a = steady <$> mapped (rg_list R) a) st').
  { intros R' v' G' st' Ho' Hg' Hlk Hpm Hsame Hlen Hm. eapply own_unlock; [exact Ho'|exact Hlk|]. intros st'' Ho''.
    exists R', (set_lock Unlocked v'), G'. split; [|done]. split; [exact Ho''|by eapply good_map; [..|exact Hg']|done|done|done]. }
  pose proof (Hend R _ G st2 Ho2 Hg1 eq_refl eq_refl (conj eq_refl (conj eq_refl eq_refl)) (le_n _) (fun _ => eq_refl)) as Hsame.
  destruct found; unfold lookup_answer in Hans; cbn [fst snd] in Hans.
  2: { apply mwp_bind, mwp_ret. rewrite Z.eqb_refl. by apply mwp_bind, mwp_ret. }
  destruct Hans as (l1 & x & l2 & El & -> & Hx). apply mwp_bind. eapply own_prev_region; [exact Ho2|exact El|].
  destruct l1 as [|p l1 _] using rev_ind; [simpl; rewrite Z.eqb_refl; by apply mwp_bind, mwp_ret|]. rewrite last_addr_snoc.
  assert (El' : rg_list R = l1 ++ p :: x :: l2) by (by rewrite El, <- app_assoc).
  assert (Hp : p ∈ rg_list R) by (rewrite El'; apply elem_of_app; right; by left).
  rewrite (proj2 (Z.eqb_neq _ _) (own_addr_ne _ _ _ _ _ _ _ _ _ _ _ Ho2 Hp)).
  apply mwp_bind, mwp_bind. eapply own_links_at; [exact Ho2|exact El'|]. apply mwp_bind. eapply own_entry_at; [exact Ho2|exact Hp|].
  apply mwp_bind. eapply own_entry_at; [exact Ho2|rewrite El; apply elem_of_app; right; by left|]. cbn [vme_start vme_end].
  apply mwp_when. destruct ((r_end p =? start) && _ && _ && _ && _) eqn:Hc; [|exact Hsame].
  rewrite !andb_true_iff, !Z.eqb_eq in Hc. destruct Hc as ((((Hc1 & Hc2) & Hc3) & Hc4) & Hc5).
  pose proof (wf_ordered _ _ _ (gd_wf _ _ _ _ _ _ Hg)) as Hord. rewrite El' in Hord.
  assert (Hj : joinable p x).
  { pose proof (ordered_split _ _ _ _ _ Hord) as (_ & _ & (? & _)). split_and!; [lia|done..]. }
  eapply join_entries_spec; [exact Ho2|exact Hg1|exact El'|exact Hj|]. intros R' v' G' st' E' Hs' Hlk' Hpm' Hg' Ho'.
  eapply Hend; [exact Ho'|exact Hg'|by rewrite Hlk'|by rewrite Hpm'|done|rewrite E', El', !length_app; simpl; lia|].
  intros a. rewrite E', El'. by eapply mapped_joined.
Qed.
End simplify.
