(* ===== verification/VmEnter.v ===== *)
(** * Entering a mapping

    The search of [vm_map_enter] and [vm_map_find_entry] is a first fit: it
    finds the lowest aligned place from where it begins, or there is none. *)

From S2P Require Import Prelude Names Splay Table Space Hash Entry World Vm VmMap VmRing VmOwn VmMapInv VmClip VmMapOps.

(** ** Alignment *)

Lemma ldiff_mask x n : 0 <= x -> 0 <= n -> Z.ldiff x (2 ^ n - 1) = 2 ^ n * (x / 2 ^ n).
Proof.
  intros Hx Hn. replace (2 ^ n - 1) with (Z.ones n) by (rewrite Z.ones_equiv; lia).
  rewrite Z.ldiff_ones_r, Z.shiftr_div_pow2, Z.shiftl_mul_pow2 by lia. lia.
Qed.

Definition aligned_up (start mask : Z) : Z := Z.ldiff (u32 (start + mask)) mask.

Lemma land_mask_aligned x n : 0 <= n -> Z.land (2 ^ n * x) (2 ^ n - 1) = 0.
Proof.
  intros Hn. replace (2 ^ n - 1) with (Z.ones n) by (rewrite Z.ones_equiv; lia).
  rewrite Z.land_ones by lia. rewrite Z.mul_comm. apply Z.mod_mul. pose proof (Z.pow_pos_nonneg 2 n). lia.
Qed.

Lemma land_mask_multiple s n : 0 <= s -> 0 <= n -> Z.land s (2 ^ n - 1) = 0 -> s = 2 ^ n * (s / 2 ^ n).
Proof.
  intros Hs Hn. replace (2 ^ n - 1) with (Z.ones n) by (rewrite Z.ones_equiv; lia).
  rewrite Z.land_ones by lia. intros Hm. pose proof (Z.div_mod s (2 ^ n)). pose proof (Z.pow_pos_nonneg 2 n). lia.
Qed.

(** Without wrapping around it is the least aligned address from [start]. *)
Lemma aligned_up_least start n : 0 <= start <= u32_max -> 0 <= n <= 32 -> start + (2 ^ n - 1) <= u32_max ->
  let s := aligned_up start (2 ^ n - 1) in
  start <= s <= u32_max /\ Z.land s (2 ^ n - 1) = 0 /\
  (forall s', start <= s' -> Z.land s' (2 ^ n - 1) = 0 -> s <= s').
Proof.
  intros Hs Hn Hw s. unfold s, aligned_up. pose proof (Z.pow_pos_nonneg 2 n ltac:(lia) ltac:(lia)) as Hp.
  rewrite u32_id by (unfold u32_range; lia). rewrite ldiff_mask by lia.
  pose proof (Z.div_mod (start + (2 ^ n - 1)) (2 ^ n) ltac:(lia)) as Hd.
  pose proof (Z.mod_pos_bound (start + (2 ^ n - 1)) (2 ^ n) ltac:(lia)) as Hm.
  split_and!; [lia|lia|by apply land_mask_aligned; lia|].
  intros s' Hs' Ha. pose proof (land_mask_multiple s' n ltac:(lia) ltac:(lia) Ha) as He. rewrite He.
  apply Z.mul_le_mono_nonneg_l; [lia|]. nia.
Qed.

(** Where it wraps around there is no aligned address left. *)
Lemma aligned_up_wraps start n : 0 <= start <= u32_max -> 0 <= n <= 32 -> u32_max < start + (2 ^ n - 1) ->
  aligned_up start (2 ^ n - 1) < start /\
  (forall s', start <= s' <= u32_max -> Z.land s' (2 ^ n - 1) = 0 -> False).
Proof.
  intros Hs Hn Hw. pose proof (Z.pow_pos_nonneg 2 n ltac:(lia) ltac:(lia)) as Hp.
  assert (H32 : 2 ^ 32 = 2 ^ n * 2 ^ (32 - n)) by (rewrite <- Z.pow_add_r by lia; f_equal; lia).
  assert (Hn32 : 2 ^ n <= 2 ^ 32) by (apply Z.pow_le_mono_r; lia). change (2 ^ 32) with 4294967296 in *.
  unfold u32_max in *. split.
  - unfold aligned_up. assert (Hu : u32 (start + (2 ^ n - 1)) = start + (2 ^ n - 1) - 4294967296).
    { unfold u32. symmetry. apply (Z.mod_unique _ _ 1); lia. }
    rewrite Hu, ldiff_mask by lia.
    pose proof (Z.mul_div_le (start + (2 ^ n - 1) - 4294967296) (2 ^ n)). lia.
  - intros s' Hs' Ha. pose proof (land_mask_multiple s' n ltac:(lia) ltac:(lia) Ha) as He.
    set (q := s' / 2 ^ n) in *.
    assert (2 ^ n * q < 2 ^ n * 2 ^ (32 - n)) as Hq1 by lia. apply Z.mul_lt_mono_pos_l in Hq1; [|lia].
    assert (2 ^ n * (2 ^ (32 - n) - 1) < 2 ^ n * q) as Hq2 by (rewrite Z.mul_sub_distr_l; lia).
    apply Z.mul_lt_mono_pos_l in Hq2; lia.
Qed.

(** ** Free ranges *)

Definition free_range (l : list region) (s t : Z) : Prop := forall a, s <= a < t -> mapped l a = None.

Lemma free_between lo l1 l2 hi s t :
  ordered lo (l1 ++ l2) hi -> limit lo l1 <= s -> Forall (fun x => t <= r_start x) l2 -> free_range (l1 ++ l2) s t.
Proof.
  intros Hord Hs Ht a Ha. rewrite mapped_app. apply ordered_app in Hord as [H1 _].
  rewrite (mapped_above _ _ _ _ H1) by lia. apply (mapped_from t); [done|lia].
Qed.

(** A place that is free is beyond a region that does not leave the room. *)
Lemma free_beyond lo l1 r l2 hi s s' size :
  ordered lo (l1 ++ r :: l2) hi -> 0 < size -> s <= s' -> r_start r < s + size ->
  free_range (l1 ++ r :: l2) s' (s' + size) -> r_end r <= s'.
Proof.
  intros Hord Hsz Hs Hr Hf. pose proof (ordered_split _ _ _ _ _ Hord) as (_ & Hlt & _).
  destruct (Z.le_gt_cases (r_end r) s') as [|Hgt]; [done|]. specialize (Hf (Z.max s' (r_start r)) ltac:(lia)).
  rewrite (mapped_at _ _ _ _ _ (Z.max s' (r_start r)) Hord) in Hf by lia. done.
Qed.

Section enter.
Context {St : Type} `{!ObjectOps St} `{!ObjectLaws St} (env : vm_env St).
Context (rs : gmap Z ring) (maps : gmap Z vm_map) (copies : gmap Z vm_map_copy) (map : Z).
Hypothesis Hzalloc : forall L, L !! zalloc env L = None.

Abbreviation vs := (vmem * St)%type.
Abbreviation own := (own rs maps copies map).
Abbreviation good := (good map).

(** A place for [size] bytes from [s] on. *)
Definition fits (R : ring) (n size s : Z) : Prop :=
  Z.land s (2 ^ n - 1) = 0 /\ s + size <= rg_hi R /\ free_range (rg_list R) s (s + size).

(** How the search may end, when it begins at [start]. *)
Definition search_answer (R : ring) (n size start : Z) (r : space_search) : Prop :=
  match r with
  | Space entry s t => exists l1 l2, rg_list R = l1 ++ l2 /\ entry = last_addr map l1 /\ limit (rg_lo R) l1 <= s /\
      t = s + size /\ start <= s /\ fits R n size s /\ Forall (fun x => t <= r_start x) l2 /\
      (forall s', start <= s' -> fits R n size s' -> s <= s')
  | NoSpace => forall s', start <= s' -> fits R n size s' -> False
  | Wrapped => (u32_max < rg_hi R + (2 ^ n - 1)) /\ forall s', start <= s' -> fits R n size s' -> False
  end.

(** The part of a round behind the checks of the limits. *)
Definition try_space (fuel : nat) (entry s size n : Z) : M vs space_search :=
  next ← next_of entry;
  if next =? map then mret (Space entry s (s + size))
  else
    nstart ← start_of next;
    if s + size <=? nstart then mret (Space entry s (s + size))
    else
      match fuel with
      | O => crash
      | S fuel => start ← end_of next; find_space fuel map next start size (2 ^ n - 1)
      end.

(** One round: what is known of the place that is tried. *)
Lemma find_space_step D R v E G (st : vs) n size fuel entry start Q :
  own D R v E G st -> map_wf map R v -> 0 <= n <= 32 -> 0 < size <= u32_max -> 0 <= start <= rg_hi R ->
  (u32_max < rg_hi R + (2 ^ n - 1) -> (forall s', start <= s' -> fits R n size s' -> False) -> Q Wrapped st) ->
  ((forall s', start <= s' -> fits R n size s' -> False) -> Q NoSpace st) ->
  (forall s, start <= s -> s + size <= rg_hi R -> Z.land s (2 ^ n - 1) = 0 ->
     (forall s', start <= s' -> fits R n size s' -> s <= s') -> mwp (try_space fuel entry s size n) Q st) ->
  mwp (find_space fuel map entry start size (2 ^ n - 1)) Q st.
Proof.
  intros Ho Hwf Hn Hsz Hst HW HN HS. pose proof (wf_hi _ _ _ Hwf) as Hhi.
  destruct (Z.le_gt_cases (start + (2 ^ n - 1)) u32_max) as [Hw|Hw].
  - destruct (aligned_up_least start n) as ((Hs1 & Hs2) & Hs3 & Hs4); [lia..|].
    set (s := aligned_up start (2 ^ n - 1)) in *. specialize (HS s).
    assert (Hleast : forall s', start <= s' -> fits R n size s' -> s <= s') by (intros s' Hs' (Ha & _ & _); by apply Hs4).
    destruct (Z.leb_spec (s + size) (rg_hi R)) as [Hle|Hgt].
    + specialize (HS Hs1 Hle Hs3 Hleast). unfold try_space in HS.
      destruct fuel; simpl; fold (aligned_up start (2 ^ n - 1)); fold s; rewrite (proj2 (Z.ltb_ge _ _) Hs1);
        (apply mwp_bind; eapply own_end_map; [exact Ho|]); rewrite u32_id by (unfold u32_range; lia);
        rewrite (proj2 (Z.ltb_ge (rg_hi R) (s + size))), (proj2 (Z.ltb_ge (s + size) s)) by lia; exact HS.
    + assert (Hno : (rg_hi R <? u32 (s + size)) || (u32 (s + size) <? s) = true).
      { destruct (Z.le_gt_cases (s + size) u32_max).
        - rewrite u32_id by (unfold u32_range; lia). by rewrite (proj2 (Z.ltb_lt _ _)) by lia.
        - apply orb_true_iff. right. apply Z.ltb_lt. unfold u32, u32_max in *.
          rewrite <- (Z.mod_unique (s + size) 4294967296 1 (s + size - 4294967296)) by lia. lia. }
      destruct fuel; simpl; fold (aligned_up start (2 ^ n - 1)); fold s; rewrite (proj2 (Z.ltb_ge _ _) Hs1);
        (apply mwp_bind; eapply own_end_map; [exact Ho|]); rewrite Hno; apply mwp_ret, HN;
        intros s' Hs' Hf; specialize (Hleast s' Hs' Hf); destruct Hf as (_ & ? & _); lia.
  - destruct (aligned_up_wraps start n) as [Hlt Hnone]; [lia..|].
    destruct fuel; simpl; fold (aligned_up start (2 ^ n - 1)); rewrite (proj2 (Z.ltb_lt _ _) Hlt); apply mwp_ret, HW; try lia;
      intros s' Hs' (Ha & Hb & _); apply (Hnone s'); [lia|done|lia|done].
Qed.

Lemma find_space_spec D R v E G (st : vs) n size fuel l1 l2 start :
  own D R v E G st -> map_wf map R v -> 0 <= n <= 32 -> 0 < size <= u32_max ->
  rg_list R = l1 ++ l2 -> limit (rg_lo R) l1 <= start <= rg_hi R -> Forall (fun x => start <= r_start x) l2 ->
  (length l2 <= fuel)%nat ->
  mwp (find_space fuel map (last_addr map l1) start size (2 ^ n - 1))
    (fun r st' => st' = st /\ search_answer R n size start r) st.
Proof.
  intros Ho Hwf Hn Hsz. pose proof Hwf as [Hord Hlo _ _ _ _ _].
  revert fuel l1 start. induction l2 as [|r l2 IH]; intros fuel l1 start El Hst Hfrom Hfuel;
    rewrite El in Hord; pose proof (proj1 (ordered_app _ _ _ _) Hord) as [Ho1 Ho2];
    pose proof (ordered_le _ _ _ Ho1) as Hlim; (eapply find_space_step; [exact Ho|exact Hwf|done|done|lia|by split|by split|]);
    intros s Hs Hle Ha Hmin; unfold try_space; (apply mwp_bind; eapply own_next; [exact Ho|exact El|]); cbn [first_addr].
  - rewrite Z.eqb_refl. apply mwp_ret. split; [done|]. exists l1, []. split_and!; try done; try lia.
    split_and!; [done|done|]. rewrite El. eapply free_between; [exact Hord|lia|done].
  - assert (Hne : r_addr r <> map) by (eapply own_addr_ne; [done|rewrite El; apply elem_of_app; right; by left]).
    rewrite (proj2 (Z.eqb_neq _ _) Hne). apply mwp_bind. eapply own_start_region; [exact Ho|exact El|].
    destruct (Z.leb_spec (s + size) (r_start r)) as [Hfit|Hno].
    + apply mwp_ret. split; [done|]. pose proof (ordered_from _ _ _ _ _ Ho2 Hfit) as Hall.
      exists l1, (r :: l2). split_and!; try done; try lia.
      split_and!; [done|done|]. rewrite El. eapply free_between; [exact Hord|lia|done].
    + destruct fuel as [|fuel]; [simpl in Hfuel; lia|]. apply mwp_bind. eapply own_end_region; [exact Ho|exact El|].
      assert (Hend : forall s', start <= s' -> fits R n size s' -> r_end r <= s').
      { intros s' Hs' Hf. pose proof (Hmin s' Hs' Hf). destruct Hf as (_ & _ & Hf). rewrite El in Hf.
        eapply (free_beyond _ _ _ _ _ s s' size); [exact Hord|lia|done|done|done]. }
      pose proof (ordered_split _ _ _ _ _ Hord) as (_ & Hrr & Hro).
      assert (Hnext : Forall (fun x => r_end r <= r_start x) l2).
      { apply Forall_forall. intros x Hx. by destruct (ordered_mem _ _ _ _ Hro Hx). }
      apply ordered_le in Hro. inversion Hfrom; subst.
      rewrite <- (last_addr_snoc map l1 r).
      eapply mwp_mono; [apply (IH fuel (l1 ++ [r])); [by rewrite <- app_assoc|rewrite limit_snoc; lia|done|simpl in Hfuel; lia]|].
      intros a st' [-> Hans]. split; [done|]. destruct Ho2 as (Ho2 & _). destruct a as [entry s1 t1| |]; simpl in *.
      * destruct Hans as (k1 & k2 & Ek & -> & Hk & -> & Hs1 & Hfit & Hall & Hmin1). exists k1, k2.
        split_and!; try done; try lia. intros s' Hs' Hf'. apply Hmin1; [by apply Hend|done].
      * destruct Hans as [Hw' Hmin1]. split; [done|]. intros s' Hs' Hf'. apply (Hmin1 s'); [by apply Hend|done].
      * intros s' Hs' Hf'. apply (Hans s'); [by apply Hend|done].
Qed.
(** ** The new entry *)

Lemma insert_entry_spec D R v E G (st : vs) l1 l2 s t e Q :
  own D R v E G st -> rg_list R = l1 ++ l2 ->
  (forall a st', own D (linked_ring 1 (l1 ++ mk_region a s t e :: l2) R) v E G st' -> Q a st') ->
  mwp (insert_entry env map (last_addr map l1) s t e) Q st.
Proof.
  intros Ho El HQ. unfold insert_entry. apply mwp_bind. eapply own_create; [done..|]. intros a st1 HDa Ho1.
  apply mwp_bind. eapply own_loose_update_links; [exact Ho1|apply lookup_insert_eq|]. intros st2 Ho2.
  rewrite insert_insert_eq in Ho2.
  apply mwp_bind. eapply own_loose_update_entry; [exact Ho2|apply lookup_insert_eq|]. intros st3 Ho3.
  rewrite insert_insert_eq in Ho3.
  apply mwp_bind. eapply own_link; [exact Ho3|exact El|apply lookup_insert_eq|]. intros st4 Ho4.
  rewrite delete_insert_id in Ho4 by done. apply mwp_ret. by apply HQ.
Qed.

(** What an address of a new mapping is mapped to. *)
Definition provides (p : mapping) (s a : Z) (e : vm_map_entry) : Prop :=
  protection e = mp_protection p /\ max_protection e = mp_max_protection p /\ inheritance e = mp_inheritance p /\
  wired_count e = 0 /\ is_shared e = false /\ is_sub_map e = false /\ projected_on e = 0 /\
  (mp_object p <> VM_OBJECT_NULL ->
     vme_object e = mp_object p /\ vme_offset e = u32 (mp_offset p + (a - s)) /\ needs_copy e = mp_needs_copy p /\
     in_transition e = false).

(** An entry that is extended may be in transition. *)
Definition entered (p : mapping) (s t : Z) (l l' : list region) : Prop :=
  (forall a, s <= a < t -> exists e, mapped l' a = Some e /\ provides p s a e /\
     (in_transition e = true -> exists b e', mapped l b = Some e' /\ in_transition e' = true)) /\
  (forall a, ~ (s <= a < t) -> mapped l' a = mapped l a).

Lemma good_insert k R v G F l1 l2 a s t e :
  good k R v G (held (vme_object e) ++ F) -> rg_list R = l1 ++ l2 -> is_sub_map e = false ->
  limit (rg_lo R) l1 <= s -> s < t <= rg_hi R -> Forall (fun x => t <= r_start x) l2 ->
  good k (linked_ring 1 (l1 ++ mk_region a s t e :: l2) R) (set_size (u32 (vm_size v + (t - s))) v) G F.
Proof.
  intros [[W1 W2 W3 W4 W5 W6 W7] Hp Ha Hr] El Hsub Hl Hst Hall. rewrite El in W1, W4, W5, Hp, Ha.
  pose proof (proj1 (ordered_app _ _ _ _) W1) as [O1 O2].
  assert (Hord : ordered (rg_lo R) (l1 ++ mk_region a s t e :: l2) (rg_hi R)).
  { eapply ordered_join; [eapply limit_ordered; [exact O1|exact Hl]|]. simpl. split_and!; [lia|lia|].
    destruct l2 as [|x l2]; [simpl; lia|]. simpl in *. apply Forall_cons in Hall as [? _]. split_and!; [done|tauto..]. }
  pose proof (ordered_total _ _ _ Hord) as Ht. rewrite total_app in Ht. simpl in Ht. rewrite total_app in W5.
  assert (Hnodes : forall x, x ∈ nodes map R -> x ∈ nodes map (linked_ring 1 (l1 ++ mk_region a s t e :: l2) R)).
  { intros x. unfold nodes. simpl. rewrite El, !addrs_app. simpl. rewrite !elem_of_cons, !elem_of_app, !elem_of_cons. tauto. }
  split; [split; simpl; try done; try (by apply Hnodes)|..].
  - rewrite W4, !length_app. simpl. lia.
  - rewrite u32_id by (unfold u32_range; lia). rewrite total_app. simpl. lia.
  - unfold plain in *. simpl. rewrite Forall_app, Forall_cons in *. simpl. tauto.
  - unfold accounts in *. simpl. rewrite refs_of_mid. simpl. by rewrite Ha, app_assoc, (Permutation_app_comm (held _)).
  - done.
Qed.

Lemma entered_insert lo l1 l2 hi s t x e p :
  ordered lo (l1 ++ l2) hi -> limit lo l1 <= s -> Forall (fun y => t <= r_start y) l2 ->
  e = mapping_entry p -> entered p s t (l1 ++ l2) (l1 ++ mk_region x s t e :: l2).
Proof.
  intros Hord Hl Hall ->. apply ordered_app in Hord as [O1 _]. split.
  - intros a Ha. exists (entry_for (mk_region x s t (mapping_entry p)) a). split; [|split; [by split_and!|done]].
    rewrite mapped_app, (mapped_above _ _ _ _ O1) by lia. simpl.
    by rewrite (proj2 (covers_spec (mk_region x s t _) a)) by (simpl; lia).
  - intros a Ha. rewrite !mapped_app. destruct (mapped l1 a); [done|]. simpl.
    by rewrite (proj2 (covers_false (mk_region x s t _) a)) by (simpl; lia).
Qed.

(** The entry before the place grows. *)
Lemma good_extend k R v G F l1 r l2 t :
  good k R v G F -> rg_list R = l1 ++ r :: l2 -> r_end r < t <= rg_hi R -> Forall (fun x => t <= r_start x) l2 ->
  good k (with_list (l1 ++ mk_region (r_addr r) (r_start r) t (r_entry r) :: l2) R)
    (set_size (u32 (vm_size v + (t - r_end r))) v) G F.
Proof.
  intros [[W1 W2 W3 W4 W5 W6 W7] Hp Ha Hr] El Hst Hall.
  assert (Hn : nodes map (with_list (l1 ++ mk_region (r_addr r) (r_start r) t (r_entry r) :: l2) R) = nodes map R)
    by (by eapply nodes_with_region). rewrite El in W1, W4, W5, Hp, Ha.
  pose proof (ordered_split _ _ _ _ _ W1) as (O1 & O2 & O3).
  assert (Hord : ordered (rg_lo R) (l1 ++ mk_region (r_addr r) (r_start r) t (r_entry r) :: l2) (rg_hi R)).
  { eapply ordered_join; [exact O1|]. simpl. split_and!; [lia|lia|].
    destruct l2 as [|x l2]; [simpl; lia|]. simpl in *. apply Forall_cons in Hall as [? _]. split_and!; [done|tauto..]. }
  pose proof (ordered_total _ _ _ Hord) as Ht. rewrite total_app in Ht. simpl in Ht. rewrite total_app in W5. simpl in W5.
  split; [split; simpl; try done; try (by rewrite Hn)|..].
  - rewrite W4, !length_app. done.
  - rewrite u32_id by (unfold u32_range; lia). rewrite total_app. simpl. lia.
  - unfold plain in *. simpl. rewrite Forall_app, Forall_cons in *. simpl. tauto.
  - unfold accounts in *. simpl. by rewrite refs_of_mid in *.
  - done.
Qed.

Lemma entered_extend lo l1 r l2 hi t p :
  ordered lo (l1 ++ r :: l2) hi -> r_end r < t -> Forall (fun y => t <= r_start y) l2 ->
  mp_object p = VM_OBJECT_NULL -> extends_mapping p (r_entry r) = true ->
  entered p (r_end r) t (l1 ++ r :: l2) (l1 ++ mk_region (r_addr r) (r_start r) t (r_entry r) :: l2).
Proof.
  intros Hord Ht Hall Hobj Hext. pose proof (ordered_split _ _ _ _ _ Hord) as (O1 & O2 & O3). split.
  - intros a Ha. exists (entry_for (mk_region (r_addr r) (r_start r) t (r_entry r)) a). split.
    + rewrite mapped_app, (mapped_above _ _ _ _ O1) by lia. simpl.
      by rewrite (proj2 (covers_spec (mk_region _ (r_start r) t _) a)) by (simpl; lia).
    + unfold extends_mapping in Hext. rewrite !andb_true_iff, !negb_true_iff, !Z.eqb_eq in Hext. cbn.
      unfold provides. cbn. split; [tauto|]. intros Htr. exists (r_start r), (entry_for r (r_start r)). split; [|done].
      eapply mapped_at; [exact Hord|lia].
  - intros a Ha. rewrite !mapped_app. destruct (mapped l1 a); [done|]. simpl. destruct (covers r a) eqn:Hc.
    + rewrite covers_spec in Hc. by rewrite (proj2 (covers_spec (mk_region _ (r_start r) t _) a)) by (simpl; lia).
    + rewrite covers_false in Hc. by rewrite (proj2 (covers_false (mk_region _ (r_start r) t _) a)) by (simpl; lia).
Qed.
(** ** The free space hint

    Everything below the end of the entry at [first_free] is mapped. *)
Definition packed (R : ring) (ff : Z) : Prop :=
  ff = map \/ exists r, r ∈ rg_list R /\ r_addr r = ff /\
    forall a, rg_lo R <= a < r_end r -> mapped (rg_list R) a <> None.

(** No object of the map reaches so far that [size] more bytes behind the part
    that is mapped pass the largest offset. *)
Definition extendable (size : Z) (R : ring) : Prop :=
  Forall (fun r => vme_object (r_entry r) <> VM_OBJECT_NULL -> 0 <= vme_offset (r_entry r) /\
    vme_offset (r_entry r) + (r_end r - r_start r) + size <= u32_max - page_mask) (rg_list R).

Lemma own_coalesce D R v E G (st : vs) o x y z Q :
  own D R v E G st -> held o ⊆ rf_held G -> (o <> VM_OBJECT_NULL -> in_object x y z) -> (forall b st', own D R v E G st' -> Q b st') ->
  mwp (on_object (vo_coalesce o x y z)) Q st.
Proof.
  intros Ho Hin Hobj HQ. eapply (own_object _ _ _ _ _ _ _ _ _ _ _ (fun _ G' => G' = G)); [done| |by intros ? ? ? ->; apply HQ].
  eapply mwp_mono; [apply ol_coalesce; [by eapply own_refs|done|done]|]. intros b s' Hs. eauto.
Qed.

(** [coalesced]: the new range is the end of the entry before it. *)
Lemma try_coalesce D R v E G F k (st : vs) l1 l2 s t p Q :
  own D R v E G st -> good k R v G F -> rg_list R = l1 ++ l2 -> extendable (t - s) R -> s < t <= u32_max ->
  (forall st', own D R v E G st' -> Q false st') ->
  (forall k1 r st', own D R v E G st' -> l1 = k1 ++ [r] -> r_end r = s -> mp_object p = VM_OBJECT_NULL ->
     extends_mapping p (r_entry r) = true -> Q true st') ->
  mwp (if negb (mp_object p =? VM_OBJECT_NULL) || (last_addr map l1 =? map) then mret false
       else
         k ← vme_links_at (last_addr map l1);
         e ← entry_at (last_addr map l1);
         if (vme_end k =? s) && extends_mapping p e then
           on_object (vo_coalesce (vme_object e) (vme_offset e) (u32 (vme_end k - vme_start k)) (u32 (t - vme_end k)))
         else mret false) Q st.
Proof.
  intros Ho Hg El Hext Hst HF HT. destruct (Z.eqb_spec (mp_object p) VM_OBJECT_NULL) as [Hobj|]; [|apply mwp_ret; auto]. cbn [negb orb].
  destruct l1 as [|r l1 _] using rev_ind; [rewrite Z.eqb_refl; apply mwp_ret; auto|]. rewrite last_addr_snoc.
  rewrite <- app_assoc in El. simpl in El.
  assert (Hne : r_addr r <> map) by (eapply own_addr_ne; [done|rewrite El; apply elem_of_app; right; by left]).
  rewrite (proj2 (Z.eqb_neq _ _) Hne).
  apply mwp_bind. eapply own_links_at; [done..|]. apply mwp_bind.
  eapply own_entry_at; [done|rewrite El; apply elem_of_app; right; by left|]. cbn [vme_end vme_start].
  destruct (Z.eqb_spec (r_end r) s) as [Hs|]; [|apply mwp_ret; auto].
  destruct (extends_mapping p (r_entry r)) eqn:Hem; [|apply mwp_ret; auto]. cbn [andb].
  pose proof (gd_accounts _ _ _ _ _ _ Hg) as Ha. rewrite El in Ha.
  pose proof (gd_wf _ _ _ _ _ _ Hg) as [Hord Hlo Hhi _ _ _ _]. rewrite El in Hord.
  pose proof (ordered_split _ _ _ _ _ Hord) as (O1 & O2 & O3). apply ordered_le in O1. 
  unfold extendable in Hext. rewrite El in Hext. apply Forall_app in Hext as [_ Hext]. inversion Hext as [|? ? Hr _]; subst.
  eapply own_coalesce; [exact Ho|by eapply accounts_held| |intros [] st' Ho'; eauto].
  intros Hon. destruct (Hr Hon). rewrite !u32_id by (unfold u32_range; lia). unfold in_object. lia.
Qed.

Lemma packed_extend R l1 r l2 t p ff :
  rg_list R = l1 ++ r :: l2 -> r_end r < t ->
  entered p (r_end r) t (rg_list R) (l1 ++ mk_region (r_addr r) (r_start r) t (r_entry r) :: l2) ->
  packed R ff -> packed (with_list (l1 ++ mk_region (r_addr r) (r_start r) t (r_entry r) :: l2) R) ff.
Proof.
  intros El Ht [He1 He2] [->|(x & Hx & <- & Hall)]; [by left|]. right. simpl.
  assert (Hkeep : forall a, mapped (rg_list R) a <> None -> mapped (l1 ++ mk_region (r_addr r) (r_start r) t (r_entry r) :: l2) a <> None).
  { intros a Ha. destruct (decide (r_end r <= a < t)) as [Hin|Hout]; [|by rewrite He2].
    destruct (He1 a Hin) as (e & -> & _). done. }
  rewrite El in Hx. apply elem_of_app in Hx. rewrite elem_of_cons in Hx. destruct Hx as [Hx|[->|Hx]].
  - exists x. split_and!; [apply elem_of_app; by left|done|]. intros a Ha. by apply Hkeep, Hall.
  - exists (mk_region (r_addr r) (r_start r) t (r_entry r)). split_and!; [apply elem_of_app; right; by left|done|].
    simpl. intros a Ha. destruct (Z.lt_ge_cases a (r_end r)).
    + apply Hkeep, Hall. lia.
    + destruct (He1 a ltac:(lia)) as (e & -> & _). done.
  - exists x. split_and!; [apply elem_of_app; right; by right|done|]. intros a Ha. by apply Hkeep, Hall.
Qed.

Lemma packed_insert R l1 l2 a s t e p ff :
  rg_list R = l1 ++ l2 -> entered p s t (rg_list R) (l1 ++ mk_region a s t e :: l2) -> packed R ff ->
  packed (linked_ring 1 (l1 ++ mk_region a s t e :: l2) R) ff.
Proof.
  intros El [He1 He2] [->|(x & Hx & <- & Hall)]; [by left|]. right. simpl.
  assert (Hin : x ∈ l1 ++ mk_region a s t e :: l2).
  { rewrite El in Hx. apply elem_of_app in Hx. apply elem_of_app. rewrite elem_of_cons. tauto. }
  exists x. split_and!; [done..|]. intros b Hb. specialize (Hall b Hb).
  destruct (decide (s <= b < t)) as [Hbin|Hout]; [|by rewrite He2]. destruct (He1 b Hbin) as (e' & -> & _). done.
Qed.

(** The new entry continues what is packed. *)
Lemma packed_new R l1 l2 a s t e p lo :
  lo = limit (rg_lo R) l1 -> s <= lo -> rg_list R = l1 ++ l2 -> (l1 = [] \/ packed R (last_addr map l1)) ->
  NoDup (nodes map R) -> s < t ->
  entered p s t (rg_list R) (l1 ++ mk_region a s t e :: l2) ->
  packed (linked_ring 1 (l1 ++ mk_region a s t e :: l2) R) a.
Proof.
  intros -> Hs El Hp Hnd Hst [He1 He2]. right. simpl. exists (mk_region a s t e).
  split_and!; [apply elem_of_app; right; by left|done|]. simpl. intros b Hb.
  destruct (decide (s <= b < t)) as [Hin|Hout]; [destruct (He1 b Hin) as (e' & -> & _); done|]. rewrite He2 by done.
  destruct l1 as [|r l1 _] using rev_ind; [unfold limit in Hs; simpl in Hs; lia|]. rewrite limit_snoc in Hs.
  rewrite last_addr_snoc in Hp. rewrite <- app_assoc in El. simpl in El.
  destruct Hp as [Hp|[Hp|(x & Hx & Hxa & Hall)]]; [by destruct l1| |].
  - apply NoDup_cons in Hnd as [Hnd _]. destruct Hnd. rewrite <- Hp, El, addrs_app. apply elem_of_app. right. by left.
  - assert (x = r) as ->; [|apply Hall; lia]. apply NoDup_cons in Hnd as [_ Hnd]. unfold addrs in Hnd.
    rewrite El in Hx. apply elem_of_app in Hx. rewrite elem_of_cons in Hx. rewrite El, map_app in Hnd. simpl in Hnd.
    apply NoDup_app in Hnd as (_ & Hd & Hnd). apply NoDup_cons in Hnd as [Hnd _].
    destruct Hx as [Hx|[Hx|Hx]]; [|done|].
    + destruct (Hd (r_addr x)); [by apply elem_of_addrs|]. rewrite Hxa. by left.
    + destruct Hnd. rewrite <- Hxa. by apply elem_of_addrs.
Qed.

Lemma enter_at_spec D R v E G F k (st : vs) anywhere l1 l2 s t size p Q :
  own D R v E G st -> good k R v G (held (mp_object p) ++ F) -> vm_lock v = WriteLocked -> extendable size R ->
  rg_list R = l1 ++ l2 ->
  limit (rg_lo R) l1 <= s -> 0 < size -> t = s + size -> t <= rg_hi R -> Forall (fun x => t <= r_start x) l2 ->
  (forall R' v' st', finished rs maps copies map k D R R' v v' E F G st' -> entered p s t (rg_list R) (rg_list R') ->
     (packed R (vm_first_free v) -> packed R' (vm_first_free v')) -> Q tt st') ->
  mwp (enter_at env map anywhere (last_addr map l1) s t size p) Q st.
Proof.
  intros Ho Hg Hlk Hxt El Hl Hsz Ht Hhi Hall HQ. pose proof (wf_hi _ _ _ (gd_wf _ _ _ _ _ _ Hg)) as Hhi32. pose proof (wf_ordered _ _ _ (gd_wf _ _ _ _ _ _ Hg)) as Hord.
  unfold enter_at. apply mwp_bind. eapply try_coalesce; [exact Ho|exact Hg|exact El|by replace (t - s) with size by lia|lia|..].
  - (* a new entry *)
    intros st1 Ho1. apply mwp_bind. eapply insert_entry_spec; [exact Ho1|exact El|]. intros a st2 Ho2.
    apply mwp_bind. eapply own_update_map; [exact Ho2|]. intros st3 Ho3.
    rewrite El in Hord. pose proof (entered_insert _ _ _ _ s t a _ p Hord Hl Hall eq_refl) as Hent. rewrite <- El in Hent, Hord.
    assert (Hg3 : good k (linked_ring 1 (l1 ++ mk_region a s t (mapping_entry p) :: l2) R)
      (set_size (u32 (vm_size v + size)) v) G F).
    { replace size with (t - s) by lia. eapply good_insert; [exact Hg|done|done|done|lia|done]. }
    set (R' := linked_ring 1 _ R) in *.
    apply mwp_bind. eapply own_map_at; [exact Ho3|]. apply mwp_bind.
    assert (El' : rg_list R' = l1 ++ mk_region a s t (mapping_entry p) :: l2) by done.
    assert (Hlim : mwp (if last_addr map l1 =? map then vm_map_min map else end_of (last_addr map l1))
      (fun x st' => x = limit (rg_lo R) l1 /\ st' = st3) st3).
    { destruct l1 as [|r l1 _] using rev_ind; [unfold vm_map_min; simpl; rewrite Z.eqb_refl; by eapply own_start_map|].
      rewrite last_addr_snoc, limit_snoc. rewrite <- app_assoc in El'.
      assert (Hne : r_addr r <> map) by (eapply own_addr_ne; [exact Ho3|rewrite El'; apply elem_of_app; right; by left]).
      rewrite (proj2 (Z.eqb_neq _ _) Hne). by eapply own_end_region. }
    eapply mwp_mono; [exact Hlim|]. intros x st' [-> ->].
    apply mwp_bind, mwp_when. cbn [vm_first_free set_size].
    assert (Hrest : forall v4 st4, own D R' v4 E G st4 -> v4 = set_size (u32 (vm_size v + size)) v \/
        v4 = set_first_free a (set_size (u32 (vm_size v + size)) v) ->
        (packed R (vm_first_free v) -> packed R' (vm_first_free v4)) ->
      mwp (SAVE_HINT map a;; vm_map_unlock map;;
        when (negb (mp_object p =? VM_OBJECT_NULL) && vm_map_pmap_enter_enable && negb anywhere &&
          negb (mp_needs_copy p) && (size <? 128 * 1024))
        (log_event (PmapEnter map s t (mp_object p) (mp_offset p) (mp_protection p)))) Q st4).
    { intros v4 st4 Ho4 Hv4 Hpk. apply mwp_bind. eapply own_update_map; [exact Ho4|]. intros st5 Ho5.
      apply mwp_bind. eapply own_unlock; [exact Ho5|by destruct Hv4 as [-> | ->]|]. intros st6 Ho6.
      rewrite andb_false_r. simpl. apply mwp_ret. apply (HQ R' (set_lock Unlocked (set_hint a v4))); [|exact Hent|exact Hpk].
      assert (Hna : a ∈ nodes map R') by exact (nodes_region map R' l1 (mk_region a s t (mapping_entry p)) l2 El').
      split; [exact Ho6| |done|done|by destruct Hv4 as [-> | ->]].
      destruct Hg3 as [[] ? ? ?]. destruct Hv4 as [-> | ->]; by split; [split|..]. }
    destruct (Z.eqb_spec (vm_first_free v) (last_addr map l1)) as [Hff|Hff]; cbn [andb].
    + destruct (Z.leb_spec s (limit (rg_lo R) l1)).
      * eapply own_update_map; [exact Ho3|]. intros st4 Ho4. eapply Hrest; [exact Ho4|by right|]. intros Hp. cbn.
        eapply packed_new; [done|done|exact El|rewrite Hff in Hp; by right| |lia|exact Hent].
        by eapply rep_nodup; [eapply own_rep, Ho|apply lookup_insert_eq].
      * eapply Hrest; [exact Ho3|by left|]. intros Hp. by eapply packed_insert.
    + eapply Hrest; [exact Ho3|by left|]. intros Hp. by eapply packed_insert.
  - (* the entry before is extended *)
    intros k1 r st1 Ho1 -> Hre Hobj Hext. rewrite last_addr_snoc. rewrite <- app_assoc in El. simpl in El.
    apply mwp_bind. eapply own_end_region; [exact Ho1|exact El|].
    apply mwp_bind. eapply own_update_map; [exact Ho1|]. intros st2 Ho2.
    apply mwp_bind. eapply own_update_links with (s := r_start r) (e := t); [exact Ho2|exact El|done|]. intros st3 Ho3.
    eapply own_unlock; [exact Ho3|done|]. intros st4 Ho4. rewrite El in Hord.
    assert (Hent : entered p s t (rg_list R) (k1 ++ mk_region (r_addr r) (r_start r) t (r_entry r) :: l2)).
    { rewrite El, <- Hre. eapply entered_extend; [exact Hord|lia|done..]. }
    rewrite Hobj in Hg. cbn [held Z.eqb VM_OBJECT_NULL app] in Hg.
    eapply (HQ (with_list (k1 ++ mk_region (r_addr r) (r_start r) t (r_entry r) :: l2) R)); [|exact Hent|].
    + split; [exact Ho4| |done|done|done]. eapply good_map; [..|eapply good_extend; [exact Hg|exact El|lia|done]]; done.
    + intros Hp. eapply packed_extend; [exact El|lia| |exact Hp]. by rewrite Hre.
Qed.

(** ** At a fixed address *)

(** The place the caller asks for lies within the limits of the map. *)
Definition inside (R : ring) (start size : Z) : Prop := 0 < size /\ rg_lo R <= start /\ start + size <= rg_hi R.

(** A call that fails leaves every entry where it was. *)
Lemma unlock_unchanged D R v E G F k (st : vs) h Q :
  own D R (set_hint h (locked v)) E G st -> good k R v G F -> h ∈ nodes map R ->
  (forall v' st', finished rs maps copies map k D R R v v' E F G st' -> Q tt st') ->
  mwp (vm_map_unlock map) Q st.
Proof.
  intros Ho Hg Hh HQ. eapply own_unlock; [exact Ho|done|]. intros st1 Ho1. eapply HQ.
  split; [exact Ho1|by eapply good_map; [..|apply (good_hint _ _ _ _ _ _ h Hh Hg)]|done|done|done].
Qed.

Lemma not_free_at R l1 x l2 s t : ordered (rg_lo R) (rg_list R) (rg_hi R) -> rg_list R = l1 ++ x :: l2 ->
  (exists a, s <= a < t /\ r_start x <= a < r_end x) -> ~ free_range (rg_list R) s t.
Proof. intros Hord El (a & Ha & Hx) Hf. specialize (Hf a Ha). rewrite El in *. by rewrite (mapped_at _ _ _ _ _ _ Hord Hx) in Hf. Qed.

Lemma wraps_or_outside R start size : rg_hi R <= u32_max -> 0 <= rg_lo R -> 0 <= start <= u32_max -> 0 <= size <= u32_max ->
  if (start <? rg_lo R) || (rg_hi R <? u32 (start + size)) || (u32 (start + size) <=? start)
  then ~ inside R start size else inside R start size /\ u32 (start + size) = start + size.
Proof.
  intros Hhi Hlo Hst Hsz. unfold inside. assert (Hu : u32 (start + size) = start + size \/ u32_max < start + size /\ u32 (start + size) <= start).
  { destruct (Z.le_gt_cases (start + size) u32_max); [left; apply u32_id; unfold u32_range; lia|right]. split; [lia|].
    unfold u32, u32_max in *. rewrite <- (Z.mod_unique (start + size) 4294967296 1 (start + size - 4294967296)) by lia. lia. }
  destruct (Z.ltb_spec start (rg_lo R)), (Z.ltb_spec (rg_hi R) (u32 (start + size))), (Z.leb_spec (u32 (start + size)) start);
    cbn [orb]; lia.
Qed.

Lemma enter_fixed_spec D R v E G F k (st : vs) start size mask p :
  own D R v E G st -> good k R v G (held (mp_object p) ++ F) -> vm_lock v = Unlocked ->
  0 <= start <= u32_max -> 0 <= size <= u32_max -> extendable size R ->
  mwp (enter_fixed env map start size mask p) (fun r st' => r.2 = start /\ exists R' v',
    (r.1 = KERN_SUCCESS /\ Z.land start mask = 0 /\ inside R start size /\
       free_range (rg_list R) start (start + size) /\ finished rs maps copies map k D R R' v v' E F G st' /\
       entered p start (start + size) (rg_list R) (rg_list R') /\
       (packed R (vm_first_free v) -> packed R' (vm_first_free v'))) \/
    (R' = R /\ finished rs maps copies map k D R R v v' E (held (mp_object p) ++ F) G st' /\
      ((r.1 = KERN_NO_SPACE /\ Z.land start mask <> 0) \/
       (r.1 = KERN_INVALID_ADDRESS /\ Z.land start mask = 0 /\ ~ inside R start size) \/
       (r.1 = KERN_NO_SPACE /\ Z.land start mask = 0 /\ inside R start size /\
          ~ free_range (rg_list R) start (start + size))))) st.
Proof.
  intros Ho Hg Hlk Hst Hsz Hxt. pose proof (gd_wf _ _ _ _ _ _ Hg) as Hwf. pose proof Hwf as [Hord Hlo Hhi _ _ _ _].
  unfold enter_fixed. destruct (Z.eqb_spec (Z.land start mask) 0) as [Ha|Ha]; cbn [negb].
  2: { apply mwp_ret. split; [done|]. exists R, v. right. split_and!; [done|by split|by left]. }
  apply mwp_bind. eapply own_lock; [exact Ho|done|]. intros st1 Ho1.
  apply mwp_bind. eapply own_start_map; [exact Ho1|]. apply mwp_bind. eapply own_end_map; [exact Ho1|].
  pose proof (wraps_or_outside R start size Hhi Hlo Hst Hsz) as Hin. cbn zeta.
  destruct (_ || _ || _).
  { apply mwp_bind. rewrite <- (set_hint_same (locked v)) in Ho1.
    eapply unlock_unchanged; [exact Ho1|exact Hg|apply (wf_hint _ _ _ Hwf)|]. intros v' st2 Hfin. apply mwp_ret.
    split; [done|]. exists R, v'. right. split_and!; [done..|]. right. left. by split_and!. }
  destruct Hin as [Hin ->]. pose proof Hin as (Hpos & Hge & Hle). apply mwp_bind.
  eapply mwp_mono; [eapply lookup_entry_spec; [exact Ho1|by destruct Hwf; split]|].
  intros [found entry] st2 (Hans & h & Hh & Ho2 & _). destruct found; unfold lookup_answer in Hans; cbn in Hans.
  - destruct Hans as (l1 & x & l2 & El & -> & Hx). apply mwp_bind.
    eapply unlock_unchanged; [exact Ho2|exact Hg|exact Hh|]. intros v' st3 Hfin. apply mwp_ret.
    split; [done|]. exists R, v'. right. split_and!; [done..|]. right. right. split_and!; try done.
    eapply not_free_at; [exact Hord|exact El|]. exists start. lia.
  - destruct Hans as (l1 & l2 & El & -> & Hl & Hall). rewrite Z.max_l in Hl by lia.
    apply mwp_bind. eapply own_next; [exact Ho2|exact El|]. apply mwp_bind. eapply before_end_spec; [exact Ho2|exact El|].
    destruct (match l2 with [] => false | r :: _ => r_start r <? start + size end) eqn:Hov.
    + destruct l2 as [|x l2]; [done|]. apply Z.ltb_lt in Hov. inversion Hall; subst. apply mwp_bind.
      eapply unlock_unchanged; [exact Ho2|exact Hg|exact Hh|]. intros v' st3 Hfin. apply mwp_ret.
      split; [done|]. exists R, v'. right. split_and!; [done..|]. right. right. split_and!; try done.
      eapply not_free_at; [exact Hord|exact El|]. exists (r_start x).
      rewrite El in Hord. pose proof (ordered_split _ _ _ _ _ Hord). lia.
    + assert (Hall2 : Forall (fun x => start + size <= r_start x) l2).
      { destruct l2 as [|x l2]; [done|]. apply Z.ltb_ge in Hov. rewrite El in Hord.
        apply ordered_app in Hord as [_ Hord]. by eapply ordered_from. }
      apply mwp_bind. eapply enter_at_spec; [exact Ho2| |done|exact Hxt|exact El|exact Hl|exact Hpos|done|exact Hle|exact Hall2|].
      { by eapply good_map; [..|apply (good_hint _ _ _ _ _ _ h Hh Hg)]. }
      intros R' v' st3 [F1 F2 F3 F4 F5] Hent Hpk. apply mwp_ret. split; [done|]. exists R', v'. left.
      split_and!; try done; try lia. rewrite El in *. by eapply free_between.
Qed.

(** ** Anywhere *)

(** Where the search begins: no place is left out before it. *)
Definition search_begin (R : ring) (size start : Z) (r : Z * Z) : Prop :=
  exists l1 l2, rg_list R = l1 ++ l2 /\ r.1 = last_addr map l1 /\ limit (rg_lo R) l1 <= r.2 <= rg_hi R /\
    start <= r.2 /\ Forall (fun x => r.2 <= r_start x) l2 /\
    (forall s', start <= s' -> free_range (rg_list R) s' (s' + size) -> r.2 <= s').

Lemma ordered_next lo l1 r l2 hi : ordered lo (l1 ++ r :: l2) hi -> Forall (fun x => r_end r <= r_start x) l2 /\ r_end r <= hi.
Proof.
  intros Hord. pose proof (ordered_split _ _ _ _ _ Hord) as (_ & _ & H2). split; [|by eapply ordered_le].
  apply Forall_forall. intros x Hx. by destruct (ordered_mem _ _ _ _ H2 Hx).
Qed.

Lemma begin_behind R l1 r l2 size start : ordered (rg_lo R) (rg_list R) (rg_hi R) -> rg_list R = l1 ++ r :: l2 ->
  0 < size -> rg_lo R <= start <= r_end r -> (forall a, start <= a < r_end r -> mapped (rg_list R) a <> None) ->
  search_begin R size start (r_addr r, r_end r).
Proof.
  intros Hord El Hsz Hst Hall. exists (l1 ++ [r]), l2. rewrite limit_snoc, last_addr_snoc.
  assert (Hord' := Hord). rewrite El in Hord'. destruct (ordered_next _ _ _ _ _ Hord').
  split_and!; cbn; [by rewrite <- app_assoc|done|lia|lia|lia|done|].
  intros s' Hs' Hf. destruct (Z.le_gt_cases (r_end r) s') as [|Hgt]; [done|].
  destruct (Hall s' ltac:(lia)). apply Hf. lia.
Qed.

Lemma enter_from_spec D R v E G (st : vs) start size :
  own D R v E G st -> map_wf map R v -> 0 < size -> rg_lo R <= start <= rg_hi R ->
  (start = rg_lo R -> packed R (vm_first_free v)) ->
  mwp (enter_from map start) (fun r st' => search_begin R size start r /\
    exists h, h ∈ nodes map R /\ own D R (set_hint h v) E G st') st.
Proof.
  intros Ho Hwf Hsz Hst Hpk. pose proof Hwf as [Hord _ _ _ _ Hh _]. unfold enter_from.
  apply mwp_bind. eapply own_start_map; [exact Ho|]. destruct (Z.eqb_spec start (rg_lo R)) as [->|Hne].
  - specialize (Hpk eq_refl). apply mwp_bind. eapply own_map_at; [exact Ho|]. cbn zeta.
    assert (Hsame : own D R (set_hint (vm_hint v) v) E G st) by (by rewrite set_hint_same).
    destruct Hpk as [->|(r & Hr & <- & Hall)].
    + rewrite Z.eqb_refl. apply mwp_ret. split; [|by exists (vm_hint v)]. exists [], (rg_list R).
      split_and!; cbn; try done; try (unfold limit; simpl; lia).
      apply Forall_forall. intros x Hx. by destruct (ordered_mem _ _ _ _ Hord Hx).
    + rewrite (proj2 (Z.eqb_neq _ _) (own_addr_ne _ _ _ _ _ _ _ _ _ _ _ Ho Hr)).
      apply list_elem_of_split in Hr as (l1 & l2 & El). apply mwp_bind. eapply own_end_region; [exact Ho|exact El|].
      apply mwp_ret. split; [|by exists (vm_hint v)]. rewrite El in Hord.
      pose proof (ordered_split _ _ _ _ _ Hord) as (O1 & O2 & _). apply ordered_le in O1. rewrite <- El in Hord.
      eapply begin_behind; [done..|lia|done].
  - apply mwp_bind. eapply mwp_mono; [by eapply lookup_entry_spec|].
    intros [found entry] st1 (Hans & h & Hhn & Ho1 & _). destruct found; unfold lookup_answer in Hans; cbn in Hans.
    + destruct Hans as (l1 & x & l2 & El & -> & Hx). apply mwp_bind. eapply own_end_region; [exact Ho1|exact El|].
      apply mwp_ret. split; [|by exists h]. eapply begin_behind; [done..|lia|]. intros a Ha. rewrite El in *.
      by rewrite (mapped_at _ _ _ _ _ a Hord) by lia.
    + destruct Hans as (l1 & l2 & El & -> & Hl & Hall). apply mwp_ret. split; [|by exists h]. exists l1, l2.
      split_and!; cbn; try done; try lia. eapply Forall_impl; [exact Hall|]. simpl. lia.
Qed.

(** The answers of a search that does not wait, from [base] on. *)
Definition entered_anywhere k D R v E F G n size address p (r : kern_return * Z) (st' : vs) : Prop :=
  let base := Z.max address (rg_lo R) in exists R' v',
  (r.1 = KERN_SUCCESS /\ base <= r.2 /\ fits R n size r.2 /\
     (forall s', base <= s' -> fits R n size s' -> r.2 <= s') /\
     finished rs maps copies map k D R R' v v' E F G st' /\
     entered p r.2 (r.2 + size) (rg_list R) (rg_list R') /\
     (packed R (vm_first_free v) -> packed R' (vm_first_free v'))) \/
  (r = (KERN_NO_SPACE, address) /\ R' = R /\ (forall s', base <= s' -> ~ fits R n size s') /\
     finished rs maps copies map k D R R v v' E (held (mp_object p) ++ F) G st').

Lemma enter_anywhere_spec D R v E G F k (st : vs) address size n p :
  own D R v E G st -> good k R v G (held (mp_object p) ++ F) -> vm_lock v = Unlocked -> wait_for_space v = false ->
  0 <= n <= 32 -> 0 < size <= u32_max -> rg_hi R + (2 ^ n - 1) <= u32_max ->
  extendable size R -> (address <= rg_lo R -> packed R (vm_first_free v)) ->
  mwp (enter_anywhere env map address size (2 ^ n - 1) p)
    (fun r st' => exists x, r = Some x /\ entered_anywhere k D R v E F G n size address p x st') st.
Proof.
  intros Ho Hg Hlk Hwait Hn Hsz Hmask Hxt Hpk. pose proof (gd_wf _ _ _ _ _ _ Hg) as Hwf. pose proof Hwf as [Hord Hlo Hhi _ _ _ _].
  unfold enter_anywhere. apply mwp_bind. eapply own_lock; [exact Ho|done|]. intros st1 Ho1.
  apply mwp_bind. eapply own_start_map; [exact Ho1|]. apply mwp_bind. eapply own_end_map; [exact Ho1|]. cbn zeta.
  replace (if address <? rg_lo R then rg_lo R else address) with (Z.max address (rg_lo R)) by (destruct (Z.ltb_spec address (rg_lo R)); lia).
  set (base := Z.max address (rg_lo R)).
  destruct (Z.ltb_spec (rg_hi R) base) as [Hgt|Hle].
  { apply mwp_bind. rewrite <- (set_hint_same (locked v)) in Ho1.
    eapply unlock_unchanged; [exact Ho1|exact Hg|apply (wf_hint _ _ _ Hwf)|]. intros v' st2 Hfin. apply mwp_ret.
    eexists. split; [done|]. exists R, v'. right. split_and!; try done. intros s' Hs' (_ & Hf & _). fold base in Hs'. lia. }
  assert (Hwf1 : map_wf map R (locked v)) by (by destruct Hwf; split).
  apply mwp_bind. eapply mwp_mono; [eapply (enter_from_spec _ _ _ _ _ _ base size); [exact Ho1|done|lia|lia|]|].
  { intros Hb. apply Hpk. lia. }
  intros [entry start] st2 ((l1 & l2 & El & Hent & Hl & Hbs & Hall & Hskip) & h & Hh & Ho2). cbn [fst snd] in *. subst entry.
  assert (Hg2 : good k R (set_hint h (locked v)) G (held (mp_object p) ++ F)) by (by eapply good_map; [..|apply (good_hint _ _ _ _ _ _ h Hh Hg)]).
  apply mwp_bind. eapply own_fuel; [exact Ho2|]. intros fuel Hfuel. rewrite El, length_app in Hfuel. apply mwp_bind.
  eapply mwp_mono; [eapply (find_space_spec _ _ _ _ _ _ n size); [exact Ho2|apply (gd_wf _ _ _ _ _ _ Hg2)|done|done|exact El|done|done|lia]|].
  intros r st' [-> Hans].
  assert (Hbase : forall s', base <= s' -> fits R n size s' -> start <= s') by (intros s' Hs' (_ & _ & Hf); by apply Hskip).
  destruct r as [entry s t| |]; simpl in Hans.
  - destruct Hans as (k1 & k2 & Ek & -> & Hk & -> & Hss & Hfit & Hk2 & Hmin). pose proof Hfit as (_ & Hend & _).
    apply mwp_bind. eapply enter_at_spec; [exact Ho2|exact Hg2|done|exact Hxt|exact Ek|exact Hk|lia|done|exact Hend|exact Hk2|].
    intros R' v' st3 [F1 F2 F3 F4 F5] Hentd Hpk'. apply mwp_ret. eexists. split; [done|]. exists R', v'. left.
    split_and!; try done; cbn [fst snd]; [fold base; lia|]. intros s' Hs' Hf. apply Hmin; [by apply Hbase|done].
  - destruct Hans as [Hw _]. exfalso. lia.
  - apply mwp_bind. eapply own_map_at; [exact Ho2|].
    assert (Hw : wait_for_space (set_hint h (locked v)) = false) by done. rewrite Hw. cbn [andb].
    apply mwp_bind. eapply unlock_unchanged; [exact Ho2|exact Hg|exact Hh|]. intros v' st3 Hfin. apply mwp_ret.
    eexists. split; [done|]. exists R, v'. right. split_and!; try done.
    intros s' Hs' Hf. apply (Hans s'); [by apply Hbase|done].
Qed.

Lemma enter_spec_anywhere D R v E G F k (st : vs) address size n p :
  own D R v E G st -> good k R v G (held (mp_object p) ++ F) -> vm_lock v = Unlocked -> wait_for_space v = false ->
  0 <= n <= 32 -> 0 < size <= u32_max -> rg_hi R + (2 ^ n - 1) <= u32_max ->
  extendable size R -> (address <= rg_lo R -> packed R (vm_first_free v)) ->
  mwp (vm_map_enter env map address size (2 ^ n - 1) true p) (entered_anywhere k D R v E F G n size address p) st.
Proof.
  intros. unfold vm_map_enter. destruct (vm_patience env); cbn [enter_retry]; apply mwp_bind;
    (eapply mwp_mono; [by eapply enter_anywhere_spec|]); intros r st' (x & -> & Hx); by apply mwp_ret.
Qed.
End enter.
