(* ===== verification/VmWire.v ===== *)
(** * Wiring and unwiring a range

    [vm_map_pageable_common]: unwiring is all or nothing; wiring counts every
    entry of the range up, creates the objects that faults will need, and
    takes the counts back if there is a hole or a protection in its way. *)

From S2P Require Import Prelude Names Splay Table Space Hash Entry World Vm VmMap VmRing VmOwn VmMapInv VmClip VmMapOps.

(** ** Counts *)

Definition counted (e : vm_map_entry) : Prop := 0 <= wired_count e < 65536 /\ 0 <= user_wired_count e < 65536.

Lemma u16_id x : 0 <= x < 65536 -> u16 x = x.
Proof. apply Z.mod_small. Qed.

Lemma u16_down_up x : 0 <= x < 65536 -> u16 (u16 (x + 1) - 1) = x.
Proof.
  intros Hx. unfold u16. rewrite Zminus_mod_idemp_l. replace (x + 1 - 1) with x by lia. by apply Z.mod_small.
Qed.

Lemma unwire_wire user e : counted e -> unwire_entry user (wire_entry user e) = e.
Proof.
  intros [Hw Hu]. destruct e as [ob off sh sub tr wk nc pr mx inh w u po]. unfold unwire_entry, wire_entry. simpl in *.
  destruct user; simpl; [|by rewrite u16_down_up].
  rewrite (u16_down_up u) by done. destruct (u =? 0); simpl; [by rewrite u16_down_up|done].
Qed.

(** ** What wiring does to an entry besides counting *)

(** The entry without its place in an object. *)
Definition bare (e : vm_map_entry) : vm_map_entry := set_needs_copy false (set_vme_offset 0 (set_vme_object 0 e)).

Definition writable (e : vm_map_entry) : Prop := Z.land (protection e) VM_PROT_WRITE <> 0.

(** A fault would give the entry another object. *)
Definition replaceable (e : vm_map_entry) : Prop :=
  wired_count e = 0 /\ (vme_object e = VM_OBJECT_NULL \/ (needs_copy e = true /\ writable e)).

(** A fault finds the object in its place. *)
Definition backed (e : vm_map_entry) : Prop :=
  vme_object e <> VM_OBJECT_NULL /\ (needs_copy e = true -> ~ writable e).

(** The entry as it was, or with an object for what it lacked. *)
Definition keeps (e e' : vm_map_entry) : Prop := e' = e \/ (bare e' = bare e /\ replaceable e /\ backed e').

Definition kept (o o' : option vm_map_entry) : Prop := option_Forall2 keeps o o'.

Lemma keeps_bare e e' : keeps e e' -> bare e' = bare e.
Proof. by intros [-> |[? _]]. Qed.

Lemma bare_protection e e' : bare e' = bare e -> protection e' = protection e.
Proof. intros H. by injection H. Qed.

Lemma bare_wired e e' : bare e' = bare e -> wired_count e' = wired_count e /\ user_wired_count e' = user_wired_count e.
Proof. intros H. by injection H. Qed.

Lemma keeps_for r e' a : keeps (r_entry r) e' -> keeps (entry_for r a) (entry_for (with_entry e' r) a).
Proof.
  intros [-> |(Hb & Hr & Hn)]; [by left|right]. split; [|by split]. unfold entry_for, bare in *.
  destruct (r_entry r), e'. simpl in *. injection Hb as -> -> -> -> -> -> -> -> -> ->. done.
Qed.

Lemma backed_for r a : backed (entry_for r a) <-> backed (r_entry r).
Proof. done. Qed.

Lemma keeps_trans e1 e2 e3 : keeps e1 e2 -> keeps e2 e3 -> keeps e1 e3.
Proof.
  intros [-> |(Hb & Hr & Hk)]; [done|]. intros [-> |(_ & [_ [Hn|[Hc Hw]]] & _)]; [by right|by destruct Hk|].
  by destruct Hk as [_ Hk]; destruct (Hk Hc).
Qed.

Lemma kept_trans o1 o2 o3 : kept o1 o2 -> kept o2 o3 -> kept o1 o3.
Proof. intros [] H23; inversion H23; subst; constructor. by eapply keeps_trans. Qed.

Lemma kept_refl o : kept o o.
Proof. destruct o; constructor. by left. Qed.

Lemma kept_region r e' l a : keeps (r_entry r) e' -> kept (mapped (r :: l) a) (mapped (with_entry e' r :: l) a).
Proof.
  intros Hk. simpl. change (covers (with_entry e' r) a) with (covers r a). destruct (covers r a); [|apply kept_refl].
  constructor. by apply keeps_for.
Qed.

Lemma kept_app l s s' a : kept (mapped s a) (mapped s' a) -> kept (mapped (l ++ s) a) (mapped (l ++ s') a).
Proof. intros H. rewrite !mapped_app. destruct (mapped l a); [apply kept_refl|done]. Qed.

Lemma kept_eq o o' : o = o' -> kept o o'.
Proof. intros ->. apply kept_refl. Qed.

Section wire.
Context {St : Type} `{!ObjectOps St} `{!ObjectLaws St} (env : vm_env St).
Context (rs : gmap Z ring) (maps : gmap Z vm_map) (copies : gmap Z vm_map_copy) (map : Z).
Hypothesis Hzalloc : forall L, L !! zalloc env L = None.

Abbreviation vs := (vmem * St)%type.
Abbreviation own := (own rs maps copies map).
Abbreviation good := (good map).

(** ** Objects *)

(** An entry gets another object: the reference to it takes the place of the
    one to the old object. *)
Lemma good_object k R v G G' F l1 r l2 e' :
  good (S k) R v G F -> rg_list R = l1 ++ r :: l2 -> is_sub_map e' = is_sub_map (r_entry r) ->
  rf_held G' ≡ₚ held (vme_object e') ++ refs_of (l1 ++ l2) ++ F -> roomy k G' ->
  good k (with_list (l1 ++ with_entry e' r :: l2) R) v G' F.
Proof.
  intros [[W1 W2 W3 W4 W5 W6 W7] Hp Ha Hr] El Hsub HG' Hr'.
  assert (Hn : nodes map (with_list (l1 ++ with_entry e' r :: l2) R) = nodes map R) by (by eapply nodes_with_region).
  rewrite El in *. split; [split; simpl; try done; try (by rewrite Hn)|..]; simpl.
  - apply ordered_app in W1 as [W1 W1']. apply ordered_app. by split.
  - rewrite W4, !length_app. done.
  - rewrite W5, !total_app. done.
  - unfold plain in *. rewrite Forall_app, Forall_cons in *. simpl. rewrite Hsub. tauto.
  - unfold accounts. rewrite HG', refs_of_mid. simpl. by rewrite app_assoc.
  - done.
Qed.

Lemma own_shadow D R v E G F k (st : vs) l1 r l2 offset length Q :
  own D R v E G st -> good (S k) R v G F -> rg_list R = l1 ++ r :: l2 ->
  (forall o G' st', o <> VM_OBJECT_NULL -> rf_held G' ≡ₚ held o ++ refs_of (l1 ++ l2) ++ F -> roomy k G' ->
     own D R v E G' st' -> Q (o, 0) st') ->
  mwp (on_object (vo_shadow (vme_object (r_entry r)) offset length)) Q st.
Proof.
  intros Ho [_ _ Ha Hr] El HQ. pose proof (own_refs _ _ _ _ _ _ _ _ _ _ Ho) as HG. unfold accounts in Ha. rewrite El, refs_of_mid in Ha.
  eapply (own_object _ _ _ _ _ _ _ _ _ _ _ (fun x G' => x.1 <> VM_OBJECT_NULL /\ x.2 = 0 /\
    rf_held G' = x.1 :: refs_of (l1 ++ l2) ++ F /\ roomy k G')); [done| |].
  - unfold roomy in Hr. eapply mwp_mono; [apply (ol_shadow _ k (refs_of (l1 ++ l2) ++ F))|].
    + eapply ol_weaken; [exact Hr|]. eapply ol_perm; [|exact HG]. by rewrite Ha, app_assoc.
    + intros [o off] s' (Hn & _ & Hoff & Hs'). exists (mk_refs k (o :: refs_of (l1 ++ l2) ++ F)).
      split; [|done]. split_and!; try done. unfold roomy. simpl. lia.
  - intros [o off] G' st' (Hn & Hoff & HG' & Hk) Ho'. cbn [fst snd] in *. subst off. eapply HQ; [done| |exact Hk|done].
    rewrite HG'. unfold held. by rewrite (proj2 (Z.eqb_neq _ _) Hn).
Qed.

Lemma own_allocate D R v E G F k (st : vs) l1 r l2 size Q :
  own D R v E G st -> good (S k) R v G F -> rg_list R = l1 ++ r :: l2 -> vme_object (r_entry r) = VM_OBJECT_NULL ->
  (forall o G' st', o <> VM_OBJECT_NULL -> rf_held G' ≡ₚ held o ++ refs_of (l1 ++ l2) ++ F -> roomy k G' ->
     own D R v E G' st' -> Q o st') ->
  mwp (on_object (vo_allocate size)) Q st.
Proof.
  intros Ho [_ _ Ha Hr] El Hnull HQ. pose proof (own_refs _ _ _ _ _ _ _ _ _ _ Ho) as HG.
  unfold accounts in Ha. rewrite El, refs_of_mid, Hnull in Ha. simpl in Ha.
  eapply (own_object _ _ _ _ _ _ _ _ _ _ _ (fun o G' => o <> VM_OBJECT_NULL /\
    rf_held G' = o :: rf_held G /\ roomy k G')); [done| |].
  - unfold roomy in Hr. eapply mwp_mono; [apply (ol_allocate _ k (rf_held G)); by eapply ol_weaken|].
    intros o s' (Hn & _ & Hs'). exists (mk_refs k (o :: rf_held G)). split; [|done]. split_and!; try done. unfold roomy. simpl. lia.
  - intros o G' st' (Hn & HG' & Hk) Ho'. eapply HQ; [done| |exact Hk|done].
    rewrite HG', Ha. unfold held. by rewrite (proj2 (Z.eqb_neq _ _) Hn).
Qed.

Definition at_entry (l1 : list region) (r : region) (l2 : list region) (R : ring) (e : vm_map_entry) : ring :=
  with_list (l1 ++ with_entry e r :: l2) R.

(** A shadow for what was copied on write, an object for what had none. *)
Lemma prepare_object_spec D R v E G F k (st : vs) l1 r l2 Q :
  own D R v E G st -> good (S k) R v G F -> rg_list R = l1 ++ r :: l2 -> wired_count (r_entry r) = 0 ->
  (forall G' e' st', keeps (r_entry r) e' -> backed e' -> good k (at_entry l1 r l2 R e') v G' F ->
     own D (at_entry l1 r l2 R e') v E G' st' -> Q tt st') ->
  mwp (prepare_object (r_addr r)) Q st.
Proof.
  intros Ho Hg El Hw HQ. unfold prepare_object. assert (Hin : r ∈ rg_list R) by (rewrite El; apply elem_of_app; right; by left).
  apply mwp_bind. eapply own_links_at; [done..|]. apply mwp_bind. eapply own_entry_at; [done..|]. cbn [vme_start vme_end].
  apply mwp_bind, mwp_when. destruct (needs_copy (r_entry r)) eqn:Hnc; [destruct (Z.eqb_spec (Z.land (protection (r_entry r)) VM_PROT_WRITE) 0) as [Hro|Hrw]|];
    cbn [andb negb].
  2: { apply mwp_bind. eapply own_shadow; [exact Ho|exact Hg|exact El|]. intros o G1 st1 Hn HG1 Hk Ho1. cbn [fst snd].
    eapply own_update_entry; [exact Ho1|exact El|]. intros st2 Ho2.
    set (e' := set_needs_copy _ _) in *. fold (with_entry e' r) in Ho2. fold (at_entry l1 r l2 R e') in Ho2.
    apply mwp_bind. eapply (own_entry_at _ _ _ _ _ _ _ _ _ _ (with_entry e' r)); [exact Ho2|simpl; apply elem_of_app; right; by left|].
    apply mwp_when. cbn [r_entry with_entry vme_object e' set_needs_copy set_vme_offset set_vme_object].
    rewrite (proj2 (Z.eqb_neq _ _) Hn). eapply (HQ G1 e'); [|by split| |exact Ho2].
    - right. split_and!; [done|split; [done|by right]|by split].
    - by eapply good_object. }
  all: apply mwp_bind; (eapply own_entry_at; [done..|]); apply mwp_when;
    (destruct (Z.eqb_spec (vme_object (r_entry r)) VM_OBJECT_NULL) as [Hnull|Hn]).
  1, 3: apply mwp_bind; (eapply own_allocate; [exact Ho|exact Hg|exact El|done|]); intros o G1 st1 Hn HG1 Hk Ho1;
    (eapply own_update_entry; [exact Ho1|exact El|]); intros st2 Ho2; set (e' := set_vme_offset 0 _) in *;
    fold (with_entry e' r) in Ho2; fold (at_entry l1 r l2 R e') in Ho2;
    assert (Hbk : backed e') by (split; [done|]; intros Hc Hwr; unfold writable in Hwr; simpl in Hc, Hwr; congruence);
    (eapply (HQ G1 e'); [right; split_and!; [by destruct (r_entry r)|split; [done|by left]|done]|done|by eapply good_object|exact Ho2]).
  all: eapply (HQ G (r_entry r)); [by left|split; [done|]; intros Hc Hwr; unfold writable in Hwr; congruence| |].
  all: unfold at_entry; replace (with_entry (r_entry r) r) with r by (by destruct r); rewrite <- El; destruct R; try exact Ho.
  all: eapply good_weaken; [|exact Hg]; lia.
Qed.

(** ** Clipping, with what it costs *)

Definition cost (b : bool) : nat := if b then 1 else 0.

Lemma clip_end_cost D R v E G F k (st : vs) l1 r l2 s Q :
  own D R v E G st -> good (cost (s <? r_end r) + k) R v G F -> rg_list R = l1 ++ r :: l2 -> r_start r < s ->
  (forall R' G' r' l2' st', rg_list R' = l1 ++ r' :: l2' -> r_addr r' = r_addr r -> r_start r' = r_start r ->
     r_end r' = Z.min s (r_end r) -> r_entry r' = r_entry r ->
     (r_end r <= s /\ l2' = l2) \/ Forall (fun x => s <= r_start x) l2' ->
     (forall a, mapped (r' :: l2') a = mapped (r :: l2) a) -> rg_same R R' ->
     nodes map R ⊆ nodes map R' -> good k R' v G' F -> own D R' v E G' st' -> Q tt st') ->
  mwp (vm_map_clip_end env map (r_addr r) s) Q st.
Proof.
  intros Ho Hg El Hs HQ. destruct (Z.ltb_spec s (r_end r)) as [Hlt|Hge].
  - eapply clip_end_good; [done|exact Ho|exact Hg|exact El|done|]. intros. eapply HQ; try done.
    match goal with H : _ \/ _ |- _ => destruct H as [(? & _ & _ & ? & _)|?]; [by left|by right] end.
  - apply mwp_bind. eapply own_end_region; [done..|]. apply mwp_when. rewrite (proj2 (Z.ltb_ge s (r_end r))) by done.
    eapply HQ; [exact El|done|done|lia|done|by left|done|done|done|exact Hg|done].
Qed.

Lemma clip_start_cost D R v E G F k (st : vs) l1 r l2 s Q :
  own D R v E G st -> good (cost (r_start r <? s) + k) R v G F -> rg_list R = l1 ++ r :: l2 -> s < r_end r ->
  (forall R' G' X r' st', rg_list R' = l1 ++ X ++ r' :: l2 -> r_addr r' = r_addr r -> r_start r' = Z.max s (r_start r) ->
     r_end r' = r_end r -> (exists x, r_entry r' = set_vme_offset x (r_entry r)) -> Forall (fun x => r_end x <= s) X -> (s <= r_start r -> X = []) ->
     (forall a, mapped (X ++ r' :: l2) a = mapped (r :: l2) a) -> rg_same R R' ->
     nodes map R ⊆ nodes map R' -> good k R' v G' F -> own D R' v E G' st' -> Q tt st') ->
  mwp (vm_map_clip_start env map (r_addr r) s) Q st.
Proof.
  intros Ho Hg El Hs HQ. unfold vm_map_clip_start. apply mwp_bind. eapply own_start_region; [done..|].
  apply mwp_when. destruct (Z.ltb_spec (r_start r) s) as [Hlt|Hge].
  - pose proof Hg as [Hwf Hp Ha Hr]. rewrite El in Hp, Ha.
    eapply clip_start_split; [done|done|done|by eapply plain_mid|by eapply accounts_held|exact Hr|]. intros a st' Ho'.
    destruct (good_halves _ _ _ _ _ _ _ _ _ s a (r_addr r) Hg El ltac:(lia) ltac:(by right)) as [Hg' Hm].
    set (x := mk_region a _ _ _) in *. set (y := mk_region (r_addr r) _ _ _) in *.
    eapply (HQ _ _ [x] y); [| | | | | | | | | |exact Hg'|exact Ho'];
      [done|done|cbn; lia|done|by eexists|by repeat constructor|lia| |done|].
    + intros b. eapply (mapped_halves (r_start r) [] r l2); [|lia].
      pose proof (wf_ordered _ _ _ Hwf) as Hord. rewrite El in Hord. apply ordered_split in Hord as (_ & ? & ?).
      simpl. split_and!; [lia|done..].
    + intros b. unfold nodes. cbn. rewrite El, !addrs_app. cbn. rewrite !elem_of_cons, !elem_of_app, !elem_of_cons. tauto.
  - eapply (HQ _ _ []); [exact El|done|lia|done| |done|done|done|done|done|exact Hg|done].
    exists (vme_offset (r_entry r)). by destruct (r_entry r).
Qed.

(** ** One entry of the range *)

Definition wire_cost (start last : Z) (r : region) : nat := S (cost (r_start r <? start) + cost (last <? r_end r)).

Lemma wire_one_spec D R v E G F k (st : vs) l1 r l2 start last user Q :
  own D R v E G st -> good (wire_cost start last r + k) R v G F -> rg_list R = l1 ++ r :: l2 ->
  r_start r < last -> start < r_end r -> start < last ->
  (forall R' G' X y l2' st', rg_list R' = l1 ++ X ++ treated (wire_entry user) y :: l2' -> r_addr y = r_addr r ->
     r_start y = Z.max start (r_start r) -> r_end y = Z.min last (r_end r) ->
     bare (r_entry y) = bare (r_entry r) -> (wired_count (r_entry y) = 0 -> backed (r_entry y)) ->
     Forall (fun x => r_end x <= start) X -> (start <= r_start r -> X = []) -> (r_end r <= last /\ l2' = l2) \/ Forall (fun x => last <= r_start x) l2' ->
     (forall a, kept (mapped (r :: l2) a) (mapped (X ++ y :: l2') a)) -> rg_same R R' -> nodes map R ⊆ nodes map R' ->
     good k R' v G' F -> own D R' v E G' st' -> Q tt st') ->
  mwp (wire_one env map (r_addr r) start last user) Q st.
Proof.
  intros Ho Hg El Hlast Hstart Hlt HQ. unfold wire_one. unfold wire_cost in Hg.
  apply mwp_bind. eapply (clip_end_cost _ _ _ _ _ _ (S (cost (r_start r <? start)) + k)); [exact Ho| |exact El|done|].
  { eapply good_weaken; [|exact Hg]. lia. }
  intros R1 G1 r1 l2' st1 El1 Ha1 Hs1 He1 Hent1 Hcase Hm1 Hsame1 Hn1 Hg1 Ho1. rewrite <- Ha1.
  assert (Hin1 : r1 ∈ rg_list R1) by (rewrite El1; apply elem_of_app; right; by left).
  apply mwp_bind. eapply own_entry_at; [exact Ho1|done|].
  (* the objects *)
  assert (Hprep : forall Q1, (forall G2 e2 st2, keeps (r_entry r1) e2 -> (wired_count (r_entry r1) = 0 -> backed e2) ->
      good (cost (r_start r <? start) + k) (at_entry l1 r1 l2' R1 e2) v G2 F ->
      own D (at_entry l1 r1 l2' R1 e2) v E G2 st2 -> Q1 tt st2) ->
    mwp (when (wired_count (r_entry r1) =? 0) (prepare_object (r_addr r1))) Q1 st1).
  { intros Q1 HQ1. apply mwp_when. destruct (Z.eqb_spec (wired_count (r_entry r1)) 0) as [Hw|Hw].
    - eapply prepare_object_spec; [exact Ho1|exact Hg1|exact El1|done|]. intros G2 e2 st2 Hk Hb Hg2 Ho2. by eapply HQ1.
    - eapply (HQ1 G1 (r_entry r1)); [by left|done| |]; unfold at_entry;
        (replace (with_entry (r_entry r1) r1) with r1 by (by destruct r1)); rewrite <- El1; destruct R1; [|exact Ho1].
      eapply good_weaken; [|exact Hg1]. lia. }
  apply mwp_bind. apply Hprep. intros G2 e2 st2 Hk2 Hb2 Hg2 Ho2. clear Hprep.
  set (r2 := with_entry e2 r1) in *. set (R2 := at_entry l1 r1 l2' R1 e2) in *.
  assert (El2 : rg_list R2 = l1 ++ r2 :: l2') by done. change (r_addr r1) with (r_addr r2).
  apply mwp_bind. eapply clip_start_cost; [exact Ho2| |exact El2|simpl; lia|].
  { change (r_start r2) with (r_start r1). rewrite Hs1. exact Hg2. }
  intros R3 G3 X y st3 El3 Ha3 Hs3 He3 [off Hent3] HX HX0 Hm3 Hsame3 Hn3 Hg3 Ho3. rewrite <- Ha3.
  assert (El3' : rg_list R3 = (l1 ++ X) ++ y :: l2') by (by rewrite <- app_assoc).
  apply mwp_bind. apply mwp_bind. eapply own_end_region; [exact Ho3|exact El3'|]. apply mwp_when.
  change (r_end r2) with (r_end r1) in He3. rewrite (proj2 (Z.ltb_ge last (r_end y))) by lia.
  eapply own_update_entry; [exact Ho3|exact El3'|]. intros st4 Ho4.
  destruct (good_treated _ _ _ _ _ _ _ _ _ _ (attribute_wire user) Hg3 El3') as [Hg4 Hn4].
  assert (Hbare : bare (r_entry y) = bare (r_entry r)).
  { rewrite <- Hent1, Hent3. change (bare (set_vme_offset off (r_entry r2))) with (bare e2). by apply keeps_bare. }
  fold (treated (wire_entry user) y) in Ho4.
  eapply (HQ _ _ X y l2'); [..|exact Hg4|exact Ho4].
  - cbn. by rewrite <- app_assoc.
  - by rewrite Ha3.
  - rewrite Hs3. change (r_start r2) with (r_start r1). lia.
  - lia.
  - done.
  - rewrite Hent3. simpl. intros Hw. apply Hb2. destruct (bare_wired _ _ (keeps_bare _ _ Hk2)). congruence.
  - done.
  - change (r_start r2) with (r_start r1) in HX0. by rewrite <- Hs1.
  - destruct Hcase as [[? ->]|?]; [by left|by right].
  - intros a. rewrite Hm3. eapply kept_trans; [apply kept_eq; symmetry; apply Hm1|]. by apply kept_region.
  - eapply rg_same_trans; [exact Hsame1|exact Hsame3].
  - rewrite Hn4. etrans; [exact Hn1|]. etrans; [|exact Hn3]. unfold R2, at_entry.
    by rewrite (nodes_with_region _ _ _ _ _ (with_entry e2 r1) El1).
Qed.

(** ** Holes, and taking the counts back *)

Definition hole (last : Z) (r : region) (l : list region) : bool :=
  (r_end r <? last) && match l with [] => true | x :: _ => r_end r <? r_start x end.

Lemma hole_behind_spec D R v E G (st : vs) l1 r l2 last Q :
  own D R v E G st -> rg_list R = l1 ++ r :: l2 -> Q (hole last r l2) st -> mwp (hole_behind map (r_addr r) last) Q st.
Proof.
  intros Ho El HQ. unfold hole_behind, hole in *. apply mwp_bind. eapply own_links_at; [done..|]. cbn [vme_start vme_end vme_next].
  destruct (r_end r <? last); [|by apply mwp_ret]. destruct l2 as [|x l2]; cbn [first_addr].
  - rewrite Z.eqb_refl. by apply mwp_ret.
  - assert (El' : rg_list R = (l1 ++ [r]) ++ x :: l2) by (by rewrite <- app_assoc).
    assert (Hne : r_addr x <> map) by (eapply own_addr_ne; [done|rewrite El'; apply elem_of_app; right; by left]).
    rewrite (proj2 (Z.eqb_neq _ _) Hne). apply mwp_bind. eapply own_start_region; [done..|]. by apply mwp_ret.
Qed.

Lemma unwire_back_spec fuel D R v E G F k (st : vs) l1 W l2 start user Q :
  own D R v E G st -> good k R v G F -> rg_list R = l1 ++ W ++ l2 -> Forall (fun x => r_end x <= start) l1 ->
  Forall (fun x => start < r_end x) W -> (length W <= fuel)%nat ->
  (forall R' st', rg_list R' = l1 ++ (treated (unwire_entry user) <$> W) ++ l2 -> rg_same R R' -> nodes map R' = nodes map R ->
     good k R' v G F -> own D R' v E G st' -> Q tt st') ->
  mwp (unwire_back fuel map (last_addr map (l1 ++ W)) start user) Q st.
Proof.
  revert fuel R st l2 Q. induction W as [|r W IH] using rev_ind; intros fuel R st l2 Q Ho Hg El H1 HW Hfuel HQ.
  - rewrite app_nil_r. assert (HR : Q tt st) by (by eapply HQ). destruct l1 as [|x l1 _] using rev_ind.
    + destruct fuel; simpl; rewrite Z.eqb_refl; by apply mwp_ret.
    + rewrite last_addr_snoc. assert (El' : rg_list R = l1 ++ x :: l2) by (by rewrite El, <- app_assoc).
      assert (Hne : r_addr x <> map) by (eapply own_addr_ne; [done|rewrite El'; apply elem_of_app; right; by left]).
      apply Forall_app in H1 as [_ H1]. inversion H1; subst.
      destruct fuel; cbn [unwire_back]; rewrite (proj2 (Z.eqb_neq _ _) Hne); apply mwp_bind; (eapply own_end_region; [done..|]);
        rewrite (proj2 (Z.leb_le (r_end x) start)) by done; by apply mwp_ret.
  - rewrite app_assoc, last_addr_snoc. rewrite length_app in Hfuel. simpl in Hfuel. destruct fuel as [|fuel]; [lia|].
    assert (El' : rg_list R = (l1 ++ W) ++ r :: l2) by (by rewrite El, <- !app_assoc).
    assert (Hne : r_addr r <> map) by (eapply own_addr_ne; [done|rewrite El'; apply elem_of_app; right; by left]).
    apply Forall_app in HW as [HW Hr]. inversion Hr; subst.
    cbn [unwire_back]. rewrite (proj2 (Z.eqb_neq _ _) Hne). apply mwp_bind. eapply own_end_region; [done..|].
    rewrite (proj2 (Z.leb_gt (r_end r) start)) by done.
    apply mwp_bind. eapply own_update_entry; [exact Ho|exact El'|]. intros st1 Ho1.
    fold (treated (unwire_entry user) r) in Ho1.
    destruct (good_treated _ _ _ _ _ _ _ _ _ _ (attribute_unwire user) Hg El') as [Hg1 Hn1].
    apply mwp_bind. eapply (own_prev_region _ _ _ _ _ _ _ _ _ _ _ (treated (unwire_entry user) r)); [exact Ho1|done|].
    eapply (IH _ _ _ (treated (unwire_entry user) r :: l2)); [exact Ho1|exact Hg1|cbn; by rewrite <- app_assoc|done|done|lia|].
    intros R' st' El2 Hs Hn Hg' Ho'. eapply HQ; [|done| |done|done].
    + rewrite El2, fmap_app, <- app_assoc. done.
    + by etrans; [exact Hn|].
Qed.

(** ** Pass 1 *)

Definition allowed (access : Z) (e : vm_map_entry) : Prop := Z.land (protection e) access = access.

(** The range from [s] on begins with the first of these regions. *)
Definition begins (start last s : Z) (l : list region) : Prop :=
  match l with [] => last <= s | r :: _ => Z.max start (r_start r) = s \/ (last <= s /\ last <= r_start r) end.

Definition front_cost (start : Z) (l : list region) : nat := match l with [] => 0 | r :: _ => cost (r_start r <? start) end.

(** [P] is the part of the range as it was before counting. *)
Record wired_part (access start last s : Z) (P S : list region) : Prop := mk_wired_part {
  wp_inside : Forall (fun y => start <= r_start y /\ r_end y <= last) P;
  wp_behind : Forall (fun y => last <= r_start y) S;
  wp_backed : Forall (fun y => wired_count (r_entry y) = 0 -> backed (r_entry y)) P;
  wp_allowed : Forall (fun y => allowed access (r_entry y)) P;
  wp_covered : forall a, s <= a < last -> exists y, y ∈ P /\ r_start y <= a < r_end y
}.

(** Somewhere in the range there is nothing, or an entry that is not [ok]. *)
Definition obstacle (ok : vm_map_entry -> Prop) (s last : Z) (l : list region) : Prop :=
  exists a, s <= a < last /\ forall e, mapped l a = Some e -> ~ ok e.

Section obstacles.
Context (access start last : Z) (L X : list region) (y : region) (l : list region).
Hypothesis HX : Forall (fun x => r_end x <= start) X.
Hypothesis Hy : start <= r_start y < r_end y /\ r_start y < last.
Hypothesis Hkept : forall a, kept (mapped L a) (mapped (X ++ y :: l) a).

Lemma mapped_front a : start <= a -> mapped (X ++ y :: l) a = mapped (y :: l) a.
Proof. intros Ha. by rewrite mapped_app, (mapped_until _ _ _ HX). Qed.

Lemma obstacle_at a : r_start y <= a < last -> mapped (y :: l) a = None -> obstacle (allowed access) (r_start y) last L.
Proof.
  intros Ha Hm. exists a. split; [done|]. intros e He. specialize (Hkept a). rewrite He, mapped_front, Hm in Hkept by lia.
  inversion Hkept.
Qed.

Lemma obstacle_hole hi : ordered (r_end y) l hi -> hole last y l = true -> obstacle (allowed access) (r_start y) last L.
Proof.
  unfold hole. intros Hord [Hlt Hh]%andb_prop. apply Z.ltb_lt in Hlt. apply (obstacle_at (r_end y)); [lia|]. simpl.
  rewrite (proj2 (covers_false y (r_end y))) by lia. destruct l as [|x l']; [done|]. apply Z.ltb_lt in Hh.
  eapply (mapped_from (r_end y + 1)); [|lia]. eapply ordered_from; [exact Hord|lia].
Qed.

Lemma obstacle_protection : ~ allowed access (r_entry y) -> obstacle (allowed access) (r_start y) last L.
Proof.
  intros Hn. exists (r_start y). split; [lia|]. intros e He Hal. apply Hn. specialize (Hkept (r_start y)).
  rewrite He, mapped_front in Hkept by lia. simpl in Hkept. rewrite (proj2 (covers_spec y (r_start y))) in Hkept by lia.
  inversion Hkept as [? ? Hk|]; subst. apply keeps_bare, bare_protection in Hk. unfold allowed in *. simpl in Hk. by rewrite Hk.
Qed.

Lemma obstacle_later : r_end y <= last -> obstacle (allowed access) (r_end y) last l -> obstacle (allowed access) (r_start y) last L.
Proof.
  intros Hl (a & Ha & Hm). exists a. split; [lia|]. intros e He Hal. specialize (Hkept a). rewrite He, mapped_front in Hkept by lia.
  simpl in Hkept. rewrite (proj2 (covers_false y a)) in Hkept by lia. inversion Hkept as [? e' Hk Heq|]; subst.
  apply (Hm e'); [done|]. apply keeps_bare, bare_protection in Hk. unfold allowed in *. by rewrite Hk.
Qed.
End obstacles.

Lemma treated_unwire_wire user P :
  Forall (fun x => counted (r_entry x)) P -> treated (unwire_entry user) <$> (treated (wire_entry user) <$> P) = P.
Proof.
  intros HP. rewrite <- list_fmap_compose. rewrite <- (list_fmap_id P) at 2. apply list_fmap_ext. intros i x Hx.
  apply list_elem_of_lookup_2 in Hx. rewrite Forall_forall in HP. unfold compose, treated. simpl.
  rewrite (unwire_wire user (r_entry x) (HP x Hx)). by destruct x.
Qed.

Lemma counted_bare e e' : bare e' = bare e -> counted e -> counted e'.
Proof. intros Hb. unfold counted. by destruct (bare_wired _ _ Hb) as [-> ->]. Qed.

Lemma begins_next start last y l hi :
  ordered (r_end y) l hi -> hole last y l = false -> start <= r_end y -> begins start last (r_end y) l.
Proof.
  unfold hole. intros Hord Hh Hs. destruct l as [|x l]; cbn [begins].
  - destruct (Z.ltb_spec (r_end y) last); [done|lia].
  - destruct Hord as (? & _). destruct (Z.ltb_spec (r_end y) last); [apply Z.ltb_ge in Hh; left; lia|right; lia].
Qed.

Lemma no_hole_last last y l : hole last y l = false -> Forall (fun x => last <= r_start x) l -> last <= r_end y.
Proof.
  unfold hole. intros Hh Hall. destruct (Z.ltb_spec (r_end y) last); [|done]. cbn [andb] in Hh. destruct l as [|x l]; [done|].
  inversion Hall; subst. apply Z.ltb_ge in Hh. lia.
Qed.

Lemma front_cost_late start l : Forall (fun x => start <= r_start x) l -> front_cost start l = 0%nat.
Proof. destruct l as [|x l]; [done|]. intros Hl. inversion Hl; subst. simpl. unfold cost. by rewrite (proj2 (Z.ltb_ge _ _)). Qed.

Lemma ordered_late start lo l hi : ordered lo l hi -> start <= lo -> Forall (fun x => start <= r_start x) l.
Proof. intros Hord Hs. apply Forall_forall. intros x Hx. destruct (ordered_mem _ _ _ _ Hord Hx). lia. Qed.

(** The entries counted so far are [P] and [y]; the last of them is the obstacle. *)
Lemma wire_fails D R v E G F k (st : vs) l1 P y l2 start user Q :
  own D R v E G st -> good k R v G F -> rg_list R = l1 ++ (treated (wire_entry user) <$> P ++ [y]) ++ l2 ->
  Forall (fun x => r_end x <= start) l1 -> Forall (fun x => start < r_end x) (P ++ [y]) ->
  Forall (fun x => counted (r_entry x)) (P ++ [y]) ->
  (forall R' st', rg_list R' = l1 ++ (P ++ [y]) ++ l2 -> rg_same R R' -> nodes map R' = nodes map R ->
     good k R' v G F -> own D R' v E G st' -> Q false st') ->
  mwp (back ← ring_fuel; unwire_back back map (r_addr y) start user;; mret false) Q st.
Proof.
  intros Ho Hg El H1 HP HPc HQ. apply mwp_bind. eapply own_fuel; [exact Ho|]. intros back Hback. apply mwp_bind.
  assert (Ea : r_addr y = last_addr map (l1 ++ (treated (wire_entry user) <$> P ++ [y]))).
  { rewrite fmap_app, app_assoc. simpl. by rewrite last_addr_snoc. }
  rewrite Ea. eapply unwire_back_spec; [exact Ho|exact Hg|exact El|exact H1| | |].
  - apply Forall_fmap. exact HP.
  - rewrite El, !length_app in Hback. lia.
  - intros R2 st2 E2 Hs2 Hn2 Hg2 Ho2. apply mwp_ret. rewrite (treated_unwire_wire _ _ HPc) in E2. by eapply HQ.
Qed.

Lemma wire_loop_stop fuel D R v E G (st : vs) l1 l2 start last access user Q :
  own D R v E G st -> rg_list R = l1 ++ l2 -> Forall (fun x => last <= r_start x) l2 -> Q true st ->
  mwp (wire_loop env fuel map (first_addr l2 map) start last access user) Q st.
Proof.
  intros Ho El Hall HQ.
  assert (Hb : match l2 with [] => false | r :: _ => r_start r <? last end = false).
  { destruct l2 as [|r l2]; [done|]. apply Z.ltb_ge. by inversion Hall. }
  destruct fuel; cbn [wire_loop]; apply mwp_bind; (eapply before_end_spec; [done..|]); rewrite Hb; by apply mwp_ret.
Qed.

Lemma wire_loop_spec fuel D R v E G F k (st : vs) l1 P l2 start last access user s Q :
  own D R v E G st -> good (length l2 + 1 + front_cost start l2 + k) R v G F ->
  rg_list R = l1 ++ (treated (wire_entry user) <$> P) ++ l2 -> start < last ->
  Forall (fun x => r_end x <= start) l1 -> Forall (fun x => start < r_end x) P ->
  Forall (fun x => counted (r_entry x)) P -> Forall (fun x => counted (r_entry x)) l2 ->
  Forall (fun x => start < r_end x) l2 -> (P = [] \/ front_cost start l2 = 0%nat) -> begins start last s l2 ->
  (length l2 <= fuel)%nat ->
  (forall R' G' X Y S st', rg_list R' = (l1 ++ X) ++ (treated (wire_entry user) <$> P ++ Y) ++ S ->
     (X = [] \/ P = []) -> Forall (fun x => r_end x <= start) X -> first_addr (Y ++ S) map = first_addr l2 map -> wired_part access start last s Y S ->
     (forall a, kept (mapped l2 a) (mapped (X ++ Y ++ S) a)) -> rg_same R R' -> nodes map R ⊆ nodes map R' ->
     good k R' v G' F -> own D R' v E G' st' -> Q true st') ->
  (forall R' G' X Y st', rg_list R' = (l1 ++ X) ++ P ++ Y -> (X = [] \/ P = []) -> obstacle (allowed access) s last l2 ->
     (forall a, kept (mapped l2 a) (mapped (X ++ Y) a)) -> rg_same R R' -> nodes map R ⊆ nodes map R' ->
     good k R' v G' F -> own D R' v E G' st' -> Q false st') ->
  mwp (wire_loop env fuel map (first_addr l2 map) start last access user) Q st.
Proof.
  revert fuel R G st l1 P s k Q. induction l2 as [|r l2 IH];
    intros fuel R G st l1 P s k Q Ho Hg El Hlt H1 HP HPc Hc Hr HF Hb Hfuel HT HN.
  - assert (Hstop : Q true st).
    { eapply (HT R G [] [] []); [by rewrite !app_nil_r in *|by left|done|done| |by intros; apply kept_refl|done|done| |done].
      - split; try done. intros a Ha. simpl in Hb. lia.
      - eapply good_weaken; [|exact Hg]. lia. }
    destruct fuel; cbn [wire_loop]; apply mwp_bind; (eapply (before_end_spec _ _ _ _ _ _ _ _ _ _ (l1 ++ (treated (wire_entry user) <$> P)) []);
      [exact Ho|by rewrite <- app_assoc|]); by apply mwp_ret.
  - assert (El' : rg_list R = (l1 ++ (treated (wire_entry user) <$> P)) ++ r :: l2) by (by rewrite <- app_assoc).
    pose proof (wf_ordered _ _ _ (gd_wf _ _ _ _ _ _ Hg)) as Hord. rewrite El' in Hord.
    destruct fuel as [|fuel]; [simpl in Hfuel; lia|]. cbn [wire_loop]. apply mwp_bind.
    eapply before_end_spec; [exact Ho|exact El'|]. destruct (Z.ltb_spec (r_start r) last) as [Hrl|Hrl]; cbn [negb first_addr].
    2: { apply mwp_ret. eapply (HT R G [] [] (r :: l2)); [by rewrite !app_nil_r|by left|done|done| |by intros; apply kept_refl|done|done| |done].
      - split; try done; [|intros a Ha; destruct Hb as [Hb|[Hb _]]; lia].
        apply ordered_app in Hord as [_ Hord]. by eapply ordered_from.
      - eapply good_weaken; [|exact Hg]. lia. }
    inversion Hr as [|? ? Hrs Hr2]; subst. inversion Hc as [|? ? Hcr Hc2]; subst.
    apply mwp_bind. eapply (wire_one_spec _ _ _ _ _ _ (length l2 + k + (1 - cost (last <? r_end r)))); [exact Ho| |exact El'|done|done|done|].
    { eapply good_weaken; [|exact Hg]. unfold wire_cost, front_cost, cost. simpl. destruct (_ <? _), (last <? _); lia. }
    intros R1 G1 X y l2' st1 El1 Ha1 Hs1 He1 Hbare Hback HX HX0 Hcase Hk Hsame Hn Hg1 Ho1. rewrite <- Ha1.
    assert (HXP : X = [] \/ P = []).
    { destruct HF as [->|HF]; [by right|left]. apply HX0. simpl in HF. unfold cost in HF.
      destruct (Z.ltb_spec (r_start r) start); [done|lia]. }
    set (f := wire_entry user) in *. set (A := (l1 ++ X) ++ (treated f <$> P)).
    assert (El2 : rg_list R1 = A ++ treated f y :: l2').
    { rewrite El1. unfold A. destruct HXP as [-> | ->]; cbn; rewrite ?app_nil_r, <- ?app_assoc; done. }
    assert (Elx : rg_list R1 = (l1 ++ X) ++ (treated f <$> P ++ [y]) ++ l2').
    { rewrite El2. unfold A. by rewrite fmap_app, <- !app_assoc. }
    assert (Es : s = r_start y) by (destruct Hb as [Hb|[_ Hb]]; lia). subst s.
    assert (Hy : start <= r_start y < r_end y /\ r_start y < last).
    { apply ordered_split in Hord. lia. }
    assert (Hord1 : ordered (r_end y) l2' (rg_hi R1)).
    { pose proof (wf_ordered _ _ _ (gd_wf _ _ _ _ _ _ Hg1)) as Ho1'. rewrite El2 in Ho1'. by apply ordered_split in Ho1' as (_ & _ & ?). }
    assert (Hcy : counted (r_entry y)) by (by eapply counted_bare).
    assert (H1X : Forall (fun x => r_end x <= start) (l1 ++ X)) by (by apply Forall_app).
    assert (HPy : Forall (fun x => start < r_end x) (P ++ [y])) by (apply Forall_app; split; [done|]; constructor; [lia|done]).
    assert (HPcy : Forall (fun x => counted (r_entry x)) (P ++ [y])) by (apply Forall_app; split; [done|]; by constructor).
    apply mwp_bind. change (r_addr y) with (r_addr (treated f y)) at 1. eapply hole_behind_spec; [exact Ho1|exact El2|].
    change (hole last (treated f y) l2') with (hole last y l2').
    apply mwp_bind. change (r_addr y) with (r_addr (treated f y)) at 1.
    eapply own_entry_at; [exact Ho1|rewrite El2; apply elem_of_app; right; by left|].
    assert (Epr : protection (r_entry (treated f y)) = protection (r_entry y)) by (unfold f, wire_entry; by destruct user).
    rewrite Epr. destruct (hole last y l2' || negb (Z.land (protection (r_entry y)) access =? access)) eqn:Hfail.
    + (* the counts are taken back *)
      assert (Hobs : obstacle (allowed access) (r_start y) last (r :: l2)).
      { apply orb_prop in Hfail as [Hh|Hp]; [eapply obstacle_hole; [exact HX|exact Hy|exact Hk|exact Hord1|exact Hh]|].
        eapply obstacle_protection; [exact HX|exact Hy|exact Hk|].
        apply negb_true_iff, Z.eqb_neq in Hp. done. }
      eapply wire_fails; [exact Ho1|exact Hg1|exact Elx|done|done|done|]. intros R2 st2 E2 Hs2 Hn2 Hg2 Ho2.
      eapply (HN R2 G1 X (y :: l2')); [by rewrite E2, <- !app_assoc|done|done|done|by eapply rg_same_trans|by rewrite Hn2| |exact Ho2].
      eapply good_weaken; [|exact Hg2]. lia.
    + (* on to the next entry *)
      apply orb_false_elim in Hfail as [Hh Hp]. apply negb_false_iff, Z.eqb_eq in Hp.
      apply mwp_bind. change (r_addr y) with (r_addr (treated f y)). eapply own_next_region; [exact Ho1|exact El2|].
      pose proof (begins_next start _ _ _ _ Hord1 Hh ltac:(lia)) as Hbeg.
      pose proof (front_cost_late _ _ (ordered_late start _ _ _ Hord1 ltac:(lia))) as Hfront.
      destruct Hcase as [[Hrl' ->]|Hall].
      * rewrite (proj2 (Z.ltb_ge last (r_end r))) in Hg1 by done. simpl in Hg1.
        eapply (IH fuel R1 G1 st1 (l1 ++ X) (P ++ [y]) (r_end y) k); [exact Ho1| |exact Elx|done|done|done|done|done| |by right|done|simpl in Hfuel; lia|..].
        -- eapply good_weaken; [|exact Hg1]. lia.
        -- eapply Forall_impl; [exact Hr2|]. done.
        -- intros R' G' X' Y S st' E' HX' _ _ HWP Hk' Hs' Hn' Hg' Ho'.
           assert (X' = []) as -> by (destruct HX' as [|HX']; [done|by apply app_eq_nil in HX' as [_ ?]]).
           eapply (HT R' G' X (y :: Y) S); [| done|done|exact Ha1| | |by eapply rg_same_trans|by etrans|done|done].
           ++ rewrite E', app_nil_r, <- !app_assoc. done.
           ++ destruct HWP as [W1 W2 W3 W4 W5]. split; [constructor; [lia|done]|done|by constructor|by constructor|].
              intros a Ha. destruct (Z.lt_ge_cases a (r_end y)); [exists y; split; [by left|lia]|].
              destruct (W5 a) as (z & Hz & Hza); [lia|]. exists z. split; [by right|done].
           ++ intros a. eapply kept_trans; [apply Hk|]. apply kept_app. simpl. destruct (covers y a); [apply kept_refl|apply Hk'].
        -- intros R' G' X' Y st' E' HX' Hobs Hk' Hs' Hn' Hg' Ho'.
           assert (X' = []) as -> by (destruct HX' as [|HX']; [done|by apply app_eq_nil in HX' as [_ ?]]).
           eapply (HN R' G' X (y :: Y)); [|done| | |by eapply rg_same_trans|by etrans|done|done].
           ++ rewrite E', app_nil_r, <- !app_assoc. done.
           ++ eapply obstacle_later; [exact HX|exact Hy|exact Hk|lia|done].
           ++ intros a. eapply kept_trans; [apply Hk|]. apply kept_app. simpl. destruct (covers y a); [apply kept_refl|apply Hk'].
      * pose proof (no_hole_last _ _ _ Hh Hall) as Hend.
        eapply wire_loop_stop; [exact Ho1|by rewrite Elx, app_assoc|done|].
        eapply (HT R1 G1 X [y] l2'); [exact Elx|done|done|exact Ha1| |exact Hk|done|done| |exact Ho1].
        -- split; [constructor; [lia|done]|done|by constructor|by constructor|]. intros a Ha. exists y. split; [by left|lia].
        -- eapply good_weaken; [|exact Hg1]. lia.
Qed.

(** ** Pass 2 *)

Definition fault_event (r : region) : list vm_event :=
  if (wired_count (r_entry r) =? 1) && (user_wired_count (r_entry r) <=? 1) then [FaultWire map (r_start r) (r_end r)] else [].

Lemma fault_loop_spec fuel D R v E G (st : vs) l1 P S last Q :
  own D R v E G st -> rg_list R = l1 ++ P ++ S -> Forall (fun x => r_start x < last) P ->
  Forall (fun x => last <= r_start x) S -> (length P <= fuel)%nat ->
  (forall st', own D R v (E ++ (P ≫= fault_event)) G st' -> Q tt st') ->
  mwp (fault_loop fuel map (first_addr (P ++ S) map) last) Q st.
Proof.
  revert fuel E st l1 Q. induction P as [|r P IH]; intros fuel E st l1 Q Ho El HP HS Hfuel HQ.
  - assert (Hb : match S with [] => false | r :: _ => r_start r <? last end = false).
    { destruct S as [|r S]; [done|]. apply Z.ltb_ge. by inversion HS. }
    assert (HQ' : Q tt st) by (apply HQ; by rewrite app_nil_r).
    destruct fuel; cbn [fault_loop]; apply mwp_bind; (eapply before_end_spec; [done..|]); cbn [app]; rewrite Hb; by apply mwp_ret.
  - destruct fuel as [|fuel]; [simpl in Hfuel; lia|]. cbn [fault_loop]. inversion HP; subst. apply mwp_bind.
    eapply before_end_spec; [done..|]. cbn [app]. rewrite (proj2 (Z.ltb_lt _ _)) by done. cbn [negb first_addr].
    apply mwp_bind. eapply own_entry_at; [done|rewrite El; apply elem_of_app; right; by left|].
    assert (Hnext : forall st1, own D R v (E ++ fault_event r) G st1 ->
      mwp (next ← next_of (r_addr r); fault_loop fuel map next last) Q st1).
    { intros st1 Ho1. apply mwp_bind. eapply own_next_region; [exact Ho1|exact El|].
      eapply (IH _ _ _ (l1 ++ [r])); [exact Ho1|by rewrite El, <- app_assoc|done|done|simpl in Hfuel; lia|].
      intros st' Ho'. apply HQ. cbn. by rewrite app_assoc. }
    apply mwp_bind, mwp_when. unfold fault_event in Hnext. destruct (_ && _); [|rewrite app_nil_r in Hnext; by apply Hnext].
    unfold vm_fault_wire. apply mwp_bind. eapply own_links_at; [done..|]. eapply own_log_event; [done|]. exact Hnext.
Qed.

(** ** Is the range wired? *)

Definition wired_for (user : bool) (e : vm_map_entry) : Prop :=
  wired_count e <> 0 /\ (user = true -> user_wired_count e <> 0).

Lemma not_wired user e :
  (wired_count e =? 0) || (user && (user_wired_count e =? 0)) = true <-> ~ wired_for user e.
Proof.
  unfold wired_for. destruct (Z.eqb_spec (wired_count e) 0), user, (Z.eqb_spec (user_wired_count e) 0); cbn; naive_solver.
Qed.

Lemma check_wired_spec fuel D R v E G F k (st : vs) l1 l2 start last user s Q :
  own D R v E G st -> good k R v G F -> rg_list R = l1 ++ l2 -> (length l2 <= fuel)%nat ->
  Forall (fun x => start <= r_start x) l2 -> begins start last s l2 ->
  ((forall a, s <= a < last -> exists e, mapped l2 a = Some e /\ wired_for user e) -> Q true st) ->
  (obstacle (wired_for user) s last l2 -> Q false st) ->
  mwp (check_wired fuel map (first_addr l2 map) last user) Q st.
Proof.
  intros Ho Hg. revert fuel l1 s Q. induction l2 as [|r l2 IH]; intros fuel l1 s Q El Hfuel Hst Hb HT HN.
  - assert (HQ : Q true st) by (apply HT; intros a Ha; simpl in Hb; lia).
    destruct fuel; cbn [check_wired]; apply mwp_bind; (eapply (before_end_spec _ _ _ _ _ _ _ _ _ _ l1 []); [done..|]); by apply mwp_ret.
  - destruct fuel as [|fuel]; [simpl in Hfuel; lia|]. inversion Hst; subst. cbn [check_wired]. apply mwp_bind.
    eapply before_end_spec; [done..|]. destruct (Z.ltb_spec (r_start r) last) as [Hrl|Hrl]; cbn [negb first_addr].
    2: { apply mwp_ret, HT. intros a Ha. destruct Hb as [Hb|[Hb _]]; lia. }
    assert (s = r_start r) as -> by (destruct Hb as [Hb|[_ Hb]]; lia).
    pose proof (wf_ordered _ _ _ (gd_wf _ _ _ _ _ _ Hg)) as Hord. rewrite El in Hord. apply ordered_split in Hord as (_ & Hlt & Hord).
    apply mwp_bind. eapply own_entry_at; [done|rewrite El; apply elem_of_app; right; by left|].
    apply mwp_bind. eapply hole_behind_spec; [done..|].
    replace ((wired_count (r_entry r) =? 0) || hole last r l2 || (user && (user_wired_count (r_entry r) =? 0)))
      with (hole last r l2 || ((wired_count (r_entry r) =? 0) || (user && (user_wired_count (r_entry r) =? 0))))
      by (by destruct (wired_count (r_entry r) =? 0), (hole last r l2)).
    destruct (hole last r l2) eqn:Hh; cbn [orb].
    { apply mwp_ret, HN. unfold hole in Hh. apply andb_prop in Hh as [Hlast Hh]. apply Z.ltb_lt in Hlast. exists (r_end r). split; [lia|].
      simpl. rewrite (proj2 (covers_false r (r_end r))) by lia. destruct l2 as [|x l2]; [done|]. apply Z.ltb_lt in Hh.
      rewrite (mapped_from (r_end r + 1)); [done|eapply ordered_from; [exact Hord|lia]|lia]. }
    assert (Hcov : forall a, r_start r <= a < r_end r -> mapped (r :: l2) a = Some (entry_for r a)).
    { intros a Ha. simpl. by rewrite (proj2 (covers_spec r a)). }
    destruct ((wired_count (r_entry r) =? 0) || (user && (user_wired_count (r_entry r) =? 0))) eqn:Hw.
    { apply mwp_ret, HN. exists (r_start r). split; [lia|]. rewrite Hcov by lia. intros e [= <-]. by apply (not_wired user (r_entry r)). }
    assert (Hok : wired_for user (r_entry r)).
    { destruct (decide (wired_count (r_entry r) = 0 \/ (user = true /\ user_wired_count (r_entry r) = 0))) as [Hd|Hd].
      - exfalso. destruct Hd as [Hd|[-> Hd]]; rewrite Hd in Hw; [done|]. rewrite orb_true_r in Hw. done.
      - unfold wired_for. split; [tauto|]. intros ->. tauto. }
    apply mwp_bind. eapply own_next_region; [done..|].
    eapply (IH _ (l1 ++ [r]) (r_end r)); [by rewrite <- app_assoc|simpl in Hfuel; lia|done| | |].
    + eapply begins_next; [exact Hord|done|lia].
    + intros Hall. apply HT. intros a Ha. destruct (Z.lt_ge_cases a (r_end r)).
      * exists (entry_for r a). rewrite Hcov by lia. by split.
      * destruct (Hall a) as (e & He & Hwe); [lia|]. exists e. simpl. by rewrite (proj2 (covers_false r a)) by lia.
    + intros (a & Ha & Hm). apply HN. exists a. split; [lia|]. simpl. by rewrite (proj2 (covers_false r a)) by lia.
Qed.

(** ** Unwiring *)

Definition unwire_event (user : bool) (r : region) : list vm_event :=
  if wired_count (unwire_entry user (r_entry r)) =? 0 then [FaultUnwire map (r_start r) (r_end r)] else [].

Lemma unwire_step_spec D R v E G (st : vs) user l1 r l2 :
  own D R v E G st -> rg_list R = l1 ++ r :: l2 ->
  mwp (unwire_step map user (r_addr r)) (fun _ st' =>
    own D (with_list (l1 ++ treated (unwire_entry user) r :: l2) R) v (E ++ unwire_event user r) G st') st.
Proof.
  intros Ho El. apply mwp_bind. eapply own_update_entry; [done..|]. intros st1 Ho1. set (r' := treated (unwire_entry user) r) in *.
  apply mwp_bind. eapply (own_entry_at _ _ _ _ _ _ _ _ _ _ r'); [exact Ho1|simpl; apply elem_of_app; right; by left|].
  apply mwp_when. unfold unwire_event. cbn [r_entry r' treated with_entry].
  destruct (wired_count (unwire_entry user (r_entry r)) =? 0); [|by rewrite app_nil_r].
  apply mwp_bind. eapply (own_links_at _ _ _ _ _ _ _ _ _ _ _ r'); [exact Ho1|done|]. by eapply own_log_event.
Qed.

Lemma event_of_region (g : region -> list vm_event) (ev : Z -> Z -> vm_event) l a e (p : vm_map_entry -> bool) :
  (forall r, g r = if p (r_entry r) then [ev (r_start r) (r_end r)] else []) ->
  (forall x e0, p (set_vme_offset x e0) = p e0) ->
  mapped l a = Some e -> p e = true -> exists s t, ev s t ∈ l ≫= g /\ s <= a < t.
Proof.
  intros Hg Hp Hm He. destruct (mapped_elem _ _ _ Hm) as (r & Hr & Ha & ->). exists (r_start r), (r_end r). split; [|done].
  apply list_elem_of_bind. exists r. split; [|done]. rewrite Hg. unfold entry_for in He. rewrite Hp in He. rewrite He. by left.
Qed.

Definition inside_map (R : ring) (start last : Z) : Prop := rg_lo R <= start /\ start < last /\ last <= rg_hi R.

(** Up to the lookup of [start] both halves do the same. *)
Lemma pageable_spec D R v E G F k (st : vs) start last access user Q :
  own D R v E G st -> good k R v G F -> vm_lock v = Unlocked -> inside_map R start last ->
  (forall h st', mapped (rg_list R) start = None ->
     finished rs maps copies map k D R R v (set_lock Unlocked (set_hint h (locked v))) E F G st' -> Q KERN_FAILURE st') ->
  (forall h l1 x l2 st', rg_list R = l1 ++ x :: l2 -> r_start x <= start < r_end x ->
     good k R (set_hint h (locked v)) G F -> own D R (set_hint h (locked v)) E G st' ->
     mwp (if access =? VM_PROT_NONE then unwire_range env map (r_addr x) start last user
          else wire_range env map (r_addr x) start last access user) Q st') ->
  mwp (vm_map_pageable_common env map start last access user) Q st.
Proof.
  intros Ho Hg Hl (Hlo & Hlt & Hhi) HN HF. unfold vm_map_pageable_common.
  pose proof (wf_ordered _ _ _ (gd_wf _ _ _ _ _ _ Hg)) as Hord.
  apply mwp_bind. eapply own_lock; [done..|]. intros st1 Ho1. apply mwp_bind. eapply own_range_check; [exact Ho1|].
  replace (Z.min (Z.max start (rg_lo R)) (Z.min last (rg_hi R))) with start by lia. replace (Z.min last (rg_hi R)) with last by lia.
  assert (Hg1 : good k R (locked v) G F) by (by eapply good_map; [..|exact Hg]).
  apply mwp_bind. eapply mwp_mono; [eapply lookup_entry_spec; [exact Ho1|apply Hg1]|].
  intros [found entry] st2 (Hans & h & Hh & Ho2 & _). apply (good_hint _ _ _ _ _ _ h Hh) in Hg1.
  destruct found; unfold lookup_answer in Hans; cbn [fst snd negb] in Hans |- *.
  - destruct Hans as (l1 & x & l2 & El & -> & Hx). by eapply HF.
  - apply mwp_bind. eapply own_unlock; [exact Ho2|done|]. intros st3 Ho3. apply mwp_ret. apply (HN h).
    + destruct Hans as (l1 & l2 & El & _ & Hlim & Hall). rewrite El in *.
      apply ordered_app in Hord as [O1 _]. rewrite mapped_app, (mapped_above _ _ _ _ O1) by lia.
      apply (mapped_from (start + 1)); [|lia]. eapply Forall_impl; [exact Hall|]. simpl. lia.
    + split; [exact Ho3|by eapply good_map; [..|exact Hg1]|done|done|done].
Qed.

Lemma finished_weaken k k' D R R' v v' E' F G' (st' : vs) :
  (k' <= k)%nat -> finished rs maps copies map k D R R' v v' E' F G' st' -> finished rs maps copies map k' D R R' v v' E' F G' st'.
Proof. intros Hk []. split; try done. by eapply good_weaken. Qed.

Lemma unwire_spec D R v E G F (st : vs) start last user :
  own D R v E G st -> good 2 R v G F -> vm_lock v = Unlocked -> inside_map R start last ->
  mwp (vm_map_pageable_common env map start last VM_PROT_NONE user) (fun kr st' =>
    exists R' v' E' G', finished rs maps copies map 0 D R R' v v' E' F G' st' /\
      ((kr = KERN_SUCCESS /\ changed_in start last (unwire_entry user) (rg_list R) (rg_list R') /\
        (forall a, start <= a < last -> exists e, mapped (rg_list R) a = Some e /\ wired_for user e /\
          (wired_count (unwire_entry user e) = 0 -> exists s t, FaultUnwire map s t ∈ E' /\ s <= a < t))) \/
       (E' = E /\ (forall a, mapped (rg_list R') a = mapped (rg_list R) a) /\
        ((kr = KERN_FAILURE /\ mapped (rg_list R) start = None) \/
         (kr = KERN_INVALID_ARGUMENT /\ obstacle (wired_for user) start last (rg_list R)))))) st.
Proof.
  intros Ho Hg Hl Hin. eapply (pageable_spec _ _ _ _ _ _ 2); [done..| |].
  { intros h st' Hm Hfin. exists R, (set_lock Unlocked (set_hint h (locked v))), E, G. split; [by eapply finished_weaken; [|exact Hfin]; lia|].
    right. split_and!; [done..|]. by left. }
  intros h l1 x l2 st2 El Hx Hg1 Ho2. rewrite Z.eqb_refl. destruct Hin as (Hlo & Hlt & Hhi). unfold unwire_range.
  apply mwp_bind. eapply (clip_start_cost _ _ _ _ _ _ 1); [exact Ho2| |exact El|lia|].
  { eapply good_weaken; [|exact Hg1]. unfold cost. destruct (_ <? _); lia. }
  intros R1 G1 X y st3 El1 Ha1 Hs1 He1 _ HX _ Hm1 Hsame1 Hn1 Hg2 Ho3. rewrite <- Ha1. rewrite app_assoc in El1.
  assert (Hmap : forall a, mapped (rg_list R1) a = mapped (rg_list R) a).
  { intros a. rewrite El1, El, <- app_assoc, !mapped_app. rewrite <- mapped_app. by rewrite Hm1. }
  pose proof (wf_ordered _ _ _ (gd_wf _ _ _ _ _ _ Hg2)) as Hord1. rewrite El1 in Hord1.
  assert (Hys : r_start y = start) by lia.
  assert (H2 : Forall (fun z => start <= r_start z) (y :: l2)).
  { apply ordered_app in Hord1 as [_ Hord1']. eapply ordered_from; [exact Hord1'|lia]. }
  pose proof (ordered_split _ _ _ _ _ Hord1) as (Hfront & _ & _). rewrite Hys in Hfront.
  assert (Hsuf : forall a, start <= a -> mapped (rg_list R) a = mapped (y :: l2) a).
  { intros a Ha. rewrite <- Hmap, El1, mapped_app, (mapped_above _ _ _ _ Hfront) by lia. done. }
  apply mwp_bind. eapply own_fuel; [exact Ho3|]. intros fuel Hfuel. rewrite El1, length_app in Hfuel. simpl in Hfuel.
  change (r_addr y) with (first_addr (y :: l2) map).
  apply mwp_bind. eapply (check_wired_spec _ _ _ _ _ _ _ _ _ _ (y :: l2) start last user start); [exact Ho3|exact Hg2|exact El1|simpl; lia|exact H2|left; lia| |].
  - intros Hall. cbn [negb]. apply mwp_bind.
    eapply (range_loop_spec env rs maps copies map Hzalloc _ _ (unwire_entry user) (unwire_event user));
      [apply attribute_unwire| |exact Ho3|exact Hg2|exact El1|simpl; lia|].
    { intros D0 R0 E0 G0 st0 k1 r k2 Ho0 E1. by eapply unwire_step_spec. }
    intros R2 G2 P S st4 El2 Hs2 Hn2 HP HS Hm2 Hg3 Ho4.
    apply mwp_bind. eapply own_unlock; [exact Ho4|done|]. intros st5 Ho5. apply mwp_ret.
    eexists R2, (set_lock Unlocked (set_hint h (locked v))), _, G2. split.
    { split; [exact Ho5|by eapply good_map; [..|exact Hg3]|done|by eapply rg_same_trans; [exact Hsame1|exact Hs2]|done]. }
    left. split_and!; [done|..].
    + intros a. rewrite <- Hmap, El1, El2. by eapply changed_walk; [apply attribute_unwire|..].
    + intros a Ha. destruct (Hall a) as (e & He & Hw); [lia|]. exists e. rewrite Hsuf by lia. split_and!; [done..|]. intros Hz.
      rewrite <- Hm2, mapped_app, (mapped_from _ _ _ HS) in He by lia. destruct (mapped P a) as [e0|] eqn:HPa; [|done].
      injection He as ->. destruct (event_of_region (unwire_event user) (FaultUnwire map) P a e (fun e => wired_count (unwire_entry user e) =? 0)) as (s & t & Hin & Hst); [done|by destruct user|done|by apply Z.eqb_eq|].
      exists s, t. split; [|done]. apply elem_of_app. by right.
  - intros (a & Ha & Hob). cbn [negb]. apply mwp_bind. eapply own_unlock; [exact Ho3|done|]. intros st4 Ho4. apply mwp_ret.
    exists R1, (set_lock Unlocked (set_hint h (locked v))), E, G1. split.
    { split; [exact Ho4|eapply good_map; [..|eapply good_weaken; [|exact Hg2]; lia]; done|done|done|done]. }
    right. split_and!; [done..|]. right. split; [done|]. exists a. split; [done|]. by rewrite Hsuf by lia.
Qed.

(** ** Wiring *)

Lemma wire_entry_offset user x e : wire_entry user (set_vme_offset x e) = set_vme_offset x (wire_entry user e).
Proof. apply (ac_offset _ (attribute_wire user)). Qed.

(** What an address of the range has become. *)
Definition wired_at (E : list vm_event) (access : Z) (user : bool) (l l' : list region) (a : Z) : Prop :=
  exists e e1, mapped l a = Some e /\ allowed access e /\ keeps e e1 /\ (wired_count e = 0 -> backed e1) /\
    mapped l' a = Some (wire_entry user e1) /\
    (wired_count (wire_entry user e1) = 1 -> user_wired_count (wire_entry user e1) <= 1 ->
       exists s t, FaultWire map s t ∈ E /\ s <= a < t).

Lemma part_wired E access user start last L A X Y S :
  wired_part access start last start Y S -> Forall (fun x => r_end x <= start) A -> Forall (fun x => r_end x <= start) X ->
  (forall a, kept (mapped L a) (mapped (A ++ X ++ Y ++ S) a)) ->
  let l' := (A ++ X) ++ (treated (wire_entry user) <$> Y) ++ S in
  (forall a, start <= a < last ->
     wired_at (E ++ ((treated (wire_entry user) <$> Y) ≫= fault_event)) access user L l' a) /\
  (forall a, ~ start <= a < last -> kept (mapped L a) (mapped l' a)).
Proof.
  intros [W1 W2 W3 W4 W5] HA HX Hk l'.
  assert (HAX : Forall (fun x => r_end x <= start) (A ++ X)) by (by apply Forall_app).
  assert (Hl' : forall a, mapped l' a = match mapped (A ++ X) a with Some e => Some e | None =>
      match wire_entry user <$> mapped Y a with Some e => Some e | None => mapped S a end end).
  { intros a. unfold l'. rewrite mapped_app, (mapped_app (treated _ <$> Y)), mapped_treated by apply attribute_wire. done. }
  split.
  - intros a Ha. destruct (W5 a Ha) as (y & Hy & Hya).
    destruct (mapped Y a) as [e1|] eqn:HYa.
    2: { exfalso. clear -Hy Hya HYa. induction Y as [|z Y IH]; [by apply elem_of_nil in Hy|]. simpl in HYa.
         destruct (covers z a) eqn:Hc; [done|]. apply elem_of_cons in Hy as [->|Hy]; [|by apply IH].
         apply covers_false in Hc. lia. }
    specialize (Hk a). rewrite app_assoc, mapped_app, (mapped_until _ _ _ HAX), mapped_app, HYa in Hk by lia.
    inversion Hk as [e ? Hke Heq|]; subst. destruct (mapped_elem _ _ _ HYa) as (z & Hz & Hza & ->).
    rewrite Forall_forall in W3, W4. exists e, (entry_for z a). split_and!; [done| |done| | |].
    + pose proof (bare_protection _ _ (keeps_bare _ _ Hke)) as Hp. unfold allowed. rewrite <- Hp. by apply (W4 z).
    + intros Hw. apply backed_for, (W3 z Hz). destruct (bare_wired _ _ (keeps_bare _ _ Hke)) as [Hwc _]. simpl in Hwc. congruence.
    + by rewrite Hl', (mapped_until _ _ _ HAX), HYa by lia.
    + intros H1 H2. destruct (event_of_region fault_event (FaultWire map) (treated (wire_entry user) <$> Y) a (wire_entry user (entry_for z a))
        (fun e => (wired_count e =? 1) && (user_wired_count e <=? 1))) as (s & t & Hin & Hst); [done|done| | |].
      * by rewrite mapped_treated, HYa by apply attribute_wire.
      * by rewrite H1, (proj2 (Z.leb_le _ _) H2).
      * exists s, t. split; [|done]. apply elem_of_app. by right.
  - intros a Ha. specialize (Hk a). rewrite Hl'. rewrite app_assoc, mapped_app, (mapped_app Y) in Hk.
    destruct (mapped (A ++ X) a); [done|]. destruct (mapped Y a) as [e|] eqn:HYa; [|done].
    destruct (mapped_elem _ _ _ HYa) as (z & Hz & Hza & _). rewrite Forall_forall in W1. destruct (W1 z Hz). lia.
Qed.

Lemma own_unlock_read D R v E G (st : vs) Q :
  own D R v E G st -> vm_lock v = ReadLocked 1 -> (forall st', own D R (set_lock Unlocked v) E G st' -> Q tt st') ->
  mwp (vm_map_unlock map) Q st.
Proof. intros Ho Hl HQ. apply mwp_bind. eapply own_map_at; [done|]. rewrite Hl. by eapply own_update_map. Qed.

Lemma wire_spec D R v E G F k (st : vs) start last access user :
  own D R v E G st -> good (length (rg_list R) + 2 + k) R v G F -> vm_lock v = Unlocked -> inside_map R start last ->
  access <> VM_PROT_NONE -> vm_pmap v <> kernel_pmap env -> Forall (fun x => counted (r_entry x)) (rg_list R) ->
  mwp (vm_map_pageable_common env map start last access user) (fun kr st' =>
    exists R' v' E' G', finished rs maps copies map k D R R' v v' E' F G' st' /\
      ((kr = KERN_SUCCESS /\ (forall a, start <= a < last -> wired_at E' access user (rg_list R) (rg_list R') a) /\
        (forall a, ~ start <= a < last -> kept (mapped (rg_list R) a) (mapped (rg_list R') a))) \/
       (kr = KERN_FAILURE /\ E' = E /\ obstacle (allowed access) start last (rg_list R) /\
        forall a, kept (mapped (rg_list R) a) (mapped (rg_list R') a)))) st.
Proof.
  intros Ho Hg Hl Hin Hacc Hpm Hcnt. eapply pageable_spec; [exact Ho|exact Hg|exact Hl|exact Hin| |].
  { intros h st' Hm Hfin. eexists R, _, E, G. split; [by eapply finished_weaken; [|exact Hfin]; lia|].
    right. split_and!; [done..| |by intros; apply kept_refl]. exists start. destruct Hin. split; [lia|]. by rewrite Hm. }
  intros h l1 x l2 st2 El Hx Hg1 Ho2. rewrite (proj2 (Z.eqb_neq _ _) Hacc). destruct Hin as (Hlo & Hlt & Hhi). unfold wire_range.
  pose proof (wf_ordered _ _ _ (gd_wf _ _ _ _ _ _ Hg1)) as Hord. rewrite El in Hord.
  pose proof (ordered_split _ _ _ _ _ Hord) as (Hfront & _ & Hrest).
  assert (H1 : Forall (fun z => r_end z <= start) l1).
  { apply Forall_forall. intros z Hz. destruct (ordered_mem _ _ _ _ Hfront Hz) as (_ & _ & ?). lia. }
  assert (H2 : Forall (fun z => start < r_end z) (x :: l2)).
  { constructor; [lia|]. apply Forall_forall. intros z Hz. destruct (ordered_mem _ _ _ _ Hrest Hz). lia. }
  rewrite El, Forall_app in Hcnt. destruct Hcnt as [_ Hcnt].
  assert (Hkeep : forall X W, (forall a, kept (mapped (x :: l2) a) (mapped (X ++ W) a)) ->
    forall a, kept (mapped (rg_list R) a) (mapped (l1 ++ X ++ W) a)).
  { intros X W Hk a. rewrite El. by apply kept_app. }
  apply mwp_bind. eapply own_fuel; [exact Ho2|]. intros fuel Hfuel. rewrite El, length_app in Hfuel.
  apply mwp_bind. change (r_addr x) with (first_addr (x :: l2) map).
  eapply (wire_loop_spec _ _ _ _ _ _ _ k _ l1 [] (x :: l2) start last access user start);
    [exact Ho2| |exact El|done|done|done|done|done|done|by left|left; lia|lia|..].
  { eapply good_weaken; [|exact Hg1]. rewrite El, length_app. simpl. unfold cost. destruct (_ <? _); lia. }
  - intros R1 G1 X Y S st3 El1 _ HX Hfirst HWP Hk Hsame Hn Hg2 Ho3. cbn [negb]. pose proof HWP as [W1 W2 _ _ _].
    apply mwp_bind. eapply own_map_at; [exact Ho3|]. cbn [vm_pmap set_hint locked set_timestamp set_lock].
    rewrite (proj2 (Z.eqb_neq _ _) Hpm).
    apply mwp_bind. unfold vm_map_lock_write_to_read. apply mwp_bind. eapply own_map_at; [exact Ho3|]. cbn [vm_lock set_hint locked set_timestamp set_lock].
    eapply own_update_map; [exact Ho3|]. intros st4 Ho4.
    apply mwp_bind. eapply own_fuel; [exact Ho4|]. intros fuel2 Hfuel2. rewrite El1, !length_app in Hfuel2.
    assert (Ef : first_addr (x :: l2) map = first_addr ((treated (wire_entry user) <$> Y) ++ S) map).
    { rewrite <- Hfirst. by destruct Y. }
    rewrite Ef. apply mwp_bind. eapply fault_loop_spec; [exact Ho4|exact El1| |exact W2|cbn in *; lia|].
    { apply Forall_fmap. apply Forall_forall. intros z Hz. rewrite Forall_forall in W1. destruct (W1 z Hz).
      assert (Hzr : treated (wire_entry user) z ∈ rg_list R1).
      { rewrite El1, !elem_of_app. right. left. cbn. apply list_elem_of_fmap. by exists z. }
      destruct (ordered_mem _ _ _ _ (wf_ordered _ _ _ (gd_wf _ _ _ _ _ _ Hg2)) Hzr). simpl in *. lia. }
    intros st5 Ho5. apply mwp_bind, mwp_when. apply mwp_bind. eapply own_unlock_read; [exact Ho5|done|]. intros st6 Ho6. apply mwp_ret.
    eexists R1, _, _, G1. split.
    { split; [exact Ho6|by eapply good_map; [..|exact Hg2]|done|done|done]. }
    left. split; [done|]. rewrite El1. by apply (part_wired _ _ _ _ _ _ l1 X Y S HWP); [..|apply Hkeep].
  - intros R1 G1 X Y st3 El1 _ (a & Ha & Hob) Hk Hsame Hn Hg2 Ho3. cbn [negb].
    apply mwp_bind. eapply own_unlock; [exact Ho3|done|]. intros st4 Ho4. apply mwp_ret.
    eexists R1, _, E, G1. split; [split; [exact Ho4|by eapply good_map; [..|exact Hg2]|done|done|done]|].
    right. split_and!; [done..| |].
    + exists a. split; [done|]. rewrite El, mapped_app, (mapped_until _ _ _ H1) by lia. done.
    + rewrite El1. simpl. rewrite <- app_assoc. by apply Hkeep.
Qed.
End wire.
