(* ===== verification/VmFault.v ===== *)
(** * Looking an address up for a page fault

    [vm_map_lookup] finds the object and offset of an address for an access.
    It gives an entry the object that it still lacks: a shadow if it is copied
    on write and the access writes, a new object if it has none. *)

From S2P Require Import Prelude Names Splay Table Space Hash Entry World Vm VmMap VmRing VmOwn VmMapInv VmClip VmMapOps VmWire.

Definition writes (fault : Z) : bool := negb (Z.land fault VM_PROT_WRITE =? 0).

(** The access that counts: wired pages are made ready for all accesses. *)
Definition full_fault (fault : Z) (e : vm_map_entry) : Z := if negb (wired_count e =? 0) then protection e else fault.

(** What the entry becomes. *)
Record resolved (fault : Z) (e e' : vm_map_entry) : Prop := mk_resolved {
  rs_bare : bare e' = bare e;
  rs_copy : needs_copy e' = needs_copy e && negb (writes (full_fault fault e));
  rs_object : vme_object e' <> VM_OBJECT_NULL;
  rs_same : needs_copy e && writes (full_fault fault e) = false -> vme_object e <> VM_OBJECT_NULL -> e' = e
}.

Definition fault_answer (map fault version : Z) (e e' : vm_map_entry) : found_page :=
  mk_found_page map (vme_object e') (vme_offset e')
    (if needs_copy e' then Z.ldiff (protection e) VM_PROT_WRITE else protection e) (negb (wired_count e =? 0)) version.

Definition protection_error (fault : Z) (e : vm_map_entry) : kern_return :=
  if negb (Z.land (protection e) VM_PROT_NOTIFY =? 0) && writes fault then KERN_WRITE_PROTECTION_FAILURE
  else KERN_PROTECTION_FAILURE.

Lemma resolved_for fault r e' a :
  resolved fault (r_entry r) e' -> resolved fault (entry_for r a) (entry_for (with_entry e' r) a).
Proof.
  intros [H1 H2 H3 H4]. split; [|done|done|].
  - clear -H1. unfold entry_for, bare in *. destruct (r_entry r), e'. simpl in *. by injection H1 as -> -> -> -> -> -> -> -> -> ->.
  - intros Hc Ho. simpl in Ho. unfold entry_for. simpl. by rewrite H4.
Qed.

Section fault.
Context {St : Type} `{!ObjectOps St} `{!ObjectLaws St} (env : vm_env St).
Context (rs : gmap Z ring) (maps : gmap Z vm_map) (copies : gmap Z vm_map_copy) (map : Z).
Hypothesis Hupgrade : forall m, upgrade_lost env m = false.

Abbreviation vs := (vmem * St)%type.
Abbreviation own := (own rs maps copies map).
Abbreviation good := (good map).
Abbreviation finished := (finished rs maps copies map).

(** ** Locks *)

Lemma own_lock_read D R v E G (st : vs) Q :
  own D R v E G st -> vm_lock v = Unlocked -> (forall st', own D R (set_lock (ReadLocked 1) v) E G st' -> Q tt st') ->
  mwp (vm_map_lock_read map) Q st.
Proof. intros Ho Hl HQ. apply mwp_bind. eapply own_map_at; [done|]. rewrite Hl. by eapply own_update_map. Qed.

Lemma own_upgrade D R v E G (st : vs) Q :
  own D R v E G st -> vm_lock v = ReadLocked 1 -> (forall st', own D R (locked v) E G st' -> Q false st') ->
  mwp (vm_map_lock_read_to_write env map) Q st.
Proof.
  intros Ho Hl HQ. apply mwp_bind, mwp_gets. rewrite Hupgrade. apply mwp_bind. eapply own_map_at; [done|]. rewrite Hl.
  apply mwp_bind. eapply own_update_map; [done|]. intros st' Ho'. by apply mwp_ret, HQ.
Qed.

Lemma own_downgrade D R v E G (st : vs) Q :
  own D R v E G st -> vm_lock v = WriteLocked -> (forall st', own D R (set_lock (ReadLocked 1) v) E G st' -> Q tt st') ->
  mwp (vm_map_lock_write_to_read map) Q st.
Proof. intros Ho Hl HQ. apply mwp_bind. eapply own_map_at; [done|]. rewrite Hl. by eapply own_update_map. Qed.

(** ** The entry *)

Lemma lookup_entry_for_spec D R v E G F k (st : vs) vaddr Q :
  own D R v E G st -> good k R v G F ->
  (forall h st', good k R (set_hint h v) G F -> own D R (set_hint h v) E G st' -> mapped (rg_list R) vaddr = None -> Q None st') ->
  (forall h l1 r l2 st', good k R (set_hint h v) G F -> own D R (set_hint h v) E G st' -> rg_list R = l1 ++ r :: l2 ->
     r_start r <= vaddr < r_end r -> Q (Some (r_addr r)) st') ->
  mwp (lookup_entry_for map vaddr) Q st.
Proof.
  intros Ho Hg HN HS. unfold lookup_entry_for. pose proof (gd_wf _ _ _ _ _ _ Hg) as Hwf. pose proof (wf_ordered _ _ _ Hwf) as Hord.
  apply mwp_bind. eapply own_map_at; [done|]. cbn zeta.
  assert (Hfull : mwp (r ← vm_map_lookup_entry map vaddr; let '(found, entry) := r in mret (if (found : bool) then Some entry else None)) Q st).
  { apply mwp_bind. eapply mwp_mono; [by eapply lookup_entry_spec|]. intros [found a] st' (Hans & h & Hh & Ho' & _).
    apply (good_hint _ _ _ _ _ _ h Hh) in Hg. apply mwp_ret. destruct found; unfold lookup_answer in Hans; cbn [fst snd] in Hans.
    - destruct Hans as (l1 & x & l2 & El & -> & Hx). by eapply HS.
    - eapply HN; [exact Hg|exact Ho'|]. destruct Hans as (l1 & l2 & El & _ & Hlim & Hall). rewrite El in *.
      apply ordered_app in Hord as [O1 _]. rewrite mapped_app.
      destruct (Z.lt_ge_cases vaddr (rg_lo R)); [rewrite (mapped_below _ _ _ _ O1) by done|rewrite (mapped_above _ _ _ _ O1) by lia];
        (apply (mapped_from (vaddr + 1)); [|lia]); (eapply Forall_impl; [exact Hall|]); simpl; lia. }
  apply mwp_bind. destruct (Z.eqb_spec (vm_hint v) map) as [_|Hne]; [by apply mwp_ret|].
  pose proof (wf_hint _ _ _ Hwf) as Hh. unfold nodes in Hh. apply elem_of_cons in Hh as [|Hh]; [done|].
  apply list_elem_of_fmap in Hh as (r & Hr & Hin). apply list_elem_of_split in Hin as (l1 & l2 & El). rewrite Hr.
  apply mwp_bind. eapply own_links_at; [done..|]. cbn [vme_start vme_end]. apply mwp_ret.
  destruct (Z.leb_spec (r_start r) vaddr), (Z.ltb_spec vaddr (r_end r)); cbn [andb]; try done.
  apply mwp_ret. eapply (HS (vm_hint v)); [| |exact El|lia]; by rewrite set_hint_same.
Qed.

(** ** The object *)

(** The page of [vaddr], when the entry at [r] has become [e'], and the map
    [v'] is unlocked. *)
Definition page_found (vaddr prot : Z) (wired : bool) (r : region) (e' : vm_map_entry) (v' : vm_map) : lookup_result :=
  PageFound (mk_found_page map (vme_object e') (vme_offset (entry_for (with_entry e' r) vaddr)) prot wired (timestamp v')).

Lemma lookup_done_spec D R v E G F k (st : vs) l1 r l2 vaddr prot wired Q :
  own D R v E G st -> good k R v G F -> vm_lock v = ReadLocked 1 -> rg_list R = l1 ++ r :: l2 ->
  (forall st', finished k D R R v (set_lock Unlocked v) E F G st' -> Q (page_found vaddr prot wired r (r_entry r) v) st') ->
  mwp (lookup_done map (r_addr r) vaddr prot wired) Q st.
Proof.
  intros Ho Hg Hl El HQ. apply mwp_bind. eapply own_links_at; [done..|].
  apply mwp_bind. eapply own_entry_at; [done|rewrite El; apply elem_of_app; right; by left|].
  apply mwp_bind. eapply own_map_at; [done|]. apply mwp_bind. eapply own_unlock_read; [done..|]. intros st' Ho'.
  apply mwp_ret. cbn [vme_start].
  replace (u32 (vaddr - r_start r + vme_offset (r_entry r))) with (vme_offset (entry_for (with_entry (r_entry r) r) vaddr)).
  - apply HQ. split; [exact Ho'|by eapply good_map; [..|exact Hg]|done|done|done].
  - unfold entry_for. simpl. f_equal. lia.
Qed.

Lemma finished_from k D R R1 R' v v1 v' E F G (st : vs) :
  finished k D R1 R' v1 v' E F G st -> rg_same R R1 -> vm_pmap v1 = vm_pmap v -> finished k D R R' v v' E F G st.
Proof. intros [] Hs Hp. split; try done; [by eapply rg_same_trans|congruence]. Qed.

Lemma lookup_object_spec D R v E G F k (st : vs) l1 r l2 vaddr prot wired Q :
  own D R v E G st -> good (S k) R v G F -> vm_lock v = ReadLocked 1 -> rg_list R = l1 ++ r :: l2 ->
  (forall G' v' e' st', bare e' = bare (r_entry r) -> needs_copy e' = needs_copy (r_entry r) -> vme_object e' <> VM_OBJECT_NULL ->
     (vme_object (r_entry r) <> VM_OBJECT_NULL -> e' = r_entry r) ->
     finished k D R (at_entry l1 r l2 R e') v v' E F G' st' -> Q (page_found vaddr prot wired r e' v') st') ->
  mwp (lookup_object env map (r_addr r) vaddr prot wired) Q st.
Proof.
  intros Ho Hg Hl El HQ. apply mwp_bind. eapply own_links_at; [done..|].
  apply mwp_bind. eapply own_entry_at; [done|rewrite El; apply elem_of_app; right; by left|]. cbn [vme_start vme_end].
  destruct (Z.eqb_spec (vme_object (r_entry r)) VM_OBJECT_NULL) as [Hnull|Hn].
  - apply mwp_bind. eapply own_upgrade; [done..|]. intros st1 Ho1.
    apply mwp_bind. eapply own_allocate; [exact Ho1|by eapply good_map; [..|exact Hg]|exact El|done|].
    intros o G2 st2 Hn HG2 Hk Ho2. apply mwp_bind. eapply own_update_entry; [exact Ho2|exact El|]. intros st3 Ho3.
    set (e' := set_vme_offset 0 _) in *. fold (with_entry e' r) in Ho3. fold (at_entry l1 r l2 R e') in Ho3.
    apply mwp_bind. eapply own_downgrade; [exact Ho3|done|]. intros st4 Ho4.
    assert (Hg4 : good k (at_entry l1 r l2 R e') (set_lock (ReadLocked 1) (locked v)) G2 F).
    { eapply good_map; [..|eapply good_object; [exact Hg|exact El|done|exact HG2|exact Hk]]; done. }
    change (r_addr r) with (r_addr (with_entry e' r)).
    eapply lookup_done_spec; [exact Ho4|exact Hg4|done|done|]. intros st5 Hfin.
    eapply (HQ G2 (set_lock Unlocked (set_lock (ReadLocked 1) (locked v))) e'); [by destruct (r_entry r)|done|done|done|].
    eapply finished_from; [exact Hfin|done|done].
  - eapply (lookup_done_spec _ _ _ _ _ _ k); [exact Ho|by eapply good_weaken; [|exact Hg]; lia|done|exact El|]. intros st5 Hfin.
    eapply (HQ G (set_lock Unlocked v) (r_entry r)); [done..|]. unfold at_entry. replace (with_entry (r_entry r) r) with r by (by destruct r).
    rewrite <- El. destruct R. exact Hfin.
Qed.

(** ** The whole lookup *)

Lemma lookup_access_spec D R v E G F k (st : vs) l1 r l2 vaddr fault Q :
  own D R v E G st -> good (S (S k)) R v G F -> vm_lock v = ReadLocked 1 -> rg_list R = l1 ++ r :: l2 ->
  (forall G' v' e' st', resolved fault (r_entry r) e' -> finished k D R (at_entry l1 r l2 R e') v v' E F G' st' ->
     Q (page_found vaddr (if needs_copy e' then Z.ldiff (protection (r_entry r)) VM_PROT_WRITE else protection (r_entry r))
          (negb (wired_count (r_entry r) =? 0)) r e' v') st') ->
  mwp (lookup_access env map (r_addr r) vaddr fault) Q st.
Proof.
  intros Ho Hg Hl El HQ. unfold lookup_access. apply mwp_bind. eapply own_links_at; [done..|].
  apply mwp_bind. eapply own_entry_at; [done|rewrite El; apply elem_of_app; right; by left|].
  cbn zeta. cbn [vme_start vme_end]. fold (full_fault fault (r_entry r)). fold (writes (full_fault fault (r_entry r))).
  assert (Hplain : needs_copy (r_entry r) && writes (full_fault fault (r_entry r)) = false ->
    mwp (lookup_object env map (r_addr r) vaddr (if needs_copy (r_entry r) then Z.ldiff (protection (r_entry r)) VM_PROT_WRITE
      else protection (r_entry r)) (negb (wired_count (r_entry r) =? 0))) Q st).
  { intros Hc. eapply (lookup_object_spec _ _ _ _ _ _ k); [exact Ho|by eapply good_weaken; [|exact Hg]; lia|done|exact El|].
    intros G' v' e' st' H1 H2 H3 H4 Hfin. rewrite <- H2. apply (HQ G' v' e' st'); [|done]. split; [done| |done|by intros _].
    rewrite H2. destruct (needs_copy (r_entry r)); [|done]. simpl in Hc |- *. by rewrite Hc. }
  destruct (needs_copy (r_entry r)) eqn:Hnc; [|by apply Hplain].
  destruct (writes (full_fault fault (r_entry r))) eqn:Hwr; [|by apply Hplain]. clear Hplain.
  apply mwp_bind. eapply own_upgrade; [done..|]. intros st1 Ho1.
  apply mwp_bind. eapply own_update_map; [exact Ho1|]. intros st2 Ho2. set (v2 := set_timestamp _ (locked v)) in *.
  apply mwp_bind. eapply own_shadow; [exact Ho2|by eapply (good_map _ _ _ v); [..|exact Hg]|exact El|].
  intros o G3 st3 Hn HG3 Hk Ho3. cbn [fst snd]. apply mwp_bind. eapply own_update_entry; [exact Ho3|exact El|]. intros st4 Ho4.
  set (e1 := set_needs_copy false _) in *. fold (with_entry e1 r) in Ho4. fold (at_entry l1 r l2 R e1) in Ho4.
  apply mwp_bind. eapply own_downgrade; [exact Ho4|done|]. intros st5 Ho5.
  assert (Hg5 : good (S k) (at_entry l1 r l2 R e1) (set_lock (ReadLocked 1) v2) G3 F).
  { eapply good_map; [..|eapply good_object; [exact Hg|exact El|done|exact HG3|exact Hk]]; done. }
  change (r_addr r) with (r_addr (with_entry e1 r)). eapply (lookup_object_spec _ _ _ _ _ _ k); [exact Ho5|exact Hg5|done|done|].
  intros G' v' e' st' H1 H2 H3 H4 Hfin. cbn [r_entry with_entry] in *. assert (e' = e1) as -> by (by apply H4).
  assert (Hres : resolved fault (r_entry r) e1).
  { split; [by destruct (r_entry r)|by rewrite Hnc, Hwr|done|by rewrite Hnc, Hwr]. }
  apply (HQ G' v' e1 st' Hres). eapply finished_from; [exact Hfin|done|done].
Qed.

(** What the lookup leaves of the map: the entry of [vaddr] is resolved. *)
Definition faulted (fault : Z) (l l' : list region) : Prop :=
  forall a, option_Forall2 (fun e e' => e' = e \/ resolved fault e e') (mapped l a) (mapped l' a).

Lemma faulted_entry fault R l1 r l2 e' :
  rg_list R = l1 ++ r :: l2 -> resolved fault (r_entry r) e' -> faulted fault (rg_list R) (rg_list (at_entry l1 r l2 R e')).
Proof.
  intros El Hr a. rewrite El. simpl. rewrite !mapped_app. destruct (mapped l1 a); [constructor; by left|]. simpl.
  change (covers (with_entry e' r) a) with (covers r a). destruct (covers r a).
  - constructor. right. by apply resolved_for.
  - destruct (mapped l2 a); constructor. by left.
Qed.

Lemma faulted_refl fault l : faulted fault l l.
Proof. intros a. destruct (mapped l a); constructor. by left. Qed.

Definition looked_up (fault vaddr : Z) (l l' : list region) (v' : vm_map) (r : kern_return + found_page) : Prop :=
  match mapped l vaddr with
  | None => r = inl KERN_INVALID_ADDRESS /\ l' = l
  | Some e =>
    (~ allowed fault e /\ r = inl (protection_error fault e) /\ l' = l) \/
    (allowed fault e /\ faulted fault l l' /\ exists e', mapped l' vaddr = Some e' /\ resolved fault e e' /\
       r = inr (fault_answer map fault (timestamp v') e e'))
  end.

Lemma lookup_try_spec D R v E G F k (st : vs) vaddr fault Q :
  own D R v E G st -> good (S (S k)) R v G F -> vm_lock v = Unlocked ->
  (forall R' G' v' r st', looked_up fault vaddr (rg_list R) (rg_list R') v' r -> finished k D R R' v v' E F G' st' ->
     Q (match r with inl kr => LookupFailed kr | inr page => PageFound page end) st') ->
  mwp (lookup_try env map vaddr fault) Q st.
Proof.
  intros Ho Hg Hl HQ. apply mwp_bind. eapply own_lock_read; [done..|]. intros st1 Ho1. set (v1 := set_lock (ReadLocked 1) v) in *.
  assert (Hg1 : good (S (S k)) R v1 G F) by (by eapply good_map; [..|exact Hg]).
  assert (Hfail : forall h st2 kr, own D R (set_hint h v1) E G st2 -> good (S (S k)) R (set_hint h v1) G F ->
    looked_up fault vaddr (rg_list R) (rg_list R) (set_lock Unlocked (set_hint h v1)) (inl kr) ->
    mwp (vm_map_unlock map;; mret (LookupFailed kr)) Q st2).
  { intros h st2 kr Ho2 Hg2 Hlk. apply mwp_bind. eapply own_unlock_read; [exact Ho2|done|]. intros st3 Ho3. apply mwp_ret.
    eapply (HQ R G _ (inl kr)); [exact Hlk|]. split; [exact Ho3| |done|done|done].
    eapply good_map; [..|eapply good_weaken; [|exact Hg2]; lia]; done. }
  apply mwp_bind. eapply lookup_entry_for_spec; [exact Ho1|exact Hg1| |].
  - intros h st2 Hg2 Ho2 Hm. eapply Hfail; [exact Ho2|exact Hg2|]. unfold looked_up. by rewrite Hm.
  - intros h l1 r l2 st2 Hg2 Ho2 El Hr. pose proof (wf_ordered _ _ _ (gd_wf _ _ _ _ _ _ Hg2)) as Hord. rewrite El in Hord.
    assert (Hm : mapped (rg_list R) vaddr = Some (entry_for r vaddr)) by (rewrite El; by eapply mapped_at).
    apply mwp_bind. eapply own_entry_at; [exact Ho2|rewrite El; apply elem_of_app; right; by left|].
    pose proof (gd_plain _ _ _ _ _ _ Hg2) as Hp. rewrite El in Hp. rewrite (plain_mid _ _ _ Hp). cbn zeta.
    destruct (Z.eqb_spec (Z.land fault (protection (r_entry r))) fault) as [Hal|Hal]; cbn [negb].
    2: { eapply Hfail; [exact Ho2|exact Hg2|]. unfold looked_up. rewrite Hm. left. split_and!; [|done|done].
      unfold allowed. simpl. by rewrite Z.land_comm. }
    eapply lookup_access_spec; [exact Ho2|exact Hg2|done|exact El|]. intros G' v' e' st' Hres Hfin.
    eapply (HQ (at_entry l1 r l2 R e') G' v' (inr _)); [|by eapply finished_from; [exact Hfin|..]].
    unfold looked_up. rewrite Hm. right. split_and!; [unfold allowed; simpl; by rewrite Z.land_comm|by apply faulted_entry|].
    exists (entry_for (with_entry e' r) vaddr). split_and!; [|by apply resolved_for|done]. simpl.
    eapply (mapped_at (rg_lo R) l1 (with_entry e' r) l2); [|done].
    pose proof (wf_ordered _ _ _ (gd_wf _ _ _ _ _ _ (fin_good _ _ _ _ _ _ _ _ _ _ _ _ _ _ Hfin))) as Hord'. exact Hord'.
Qed.

Lemma fault_lookup_spec fuel D R v E G F k (st : vs) vaddr fault :
  own D R v E G st -> good (S (S k)) R v G F -> vm_lock v = Unlocked ->
  mwp (vm_map_lookup env fuel map vaddr fault) (fun r st' => exists R' v' G', finished k D R R' v v' E F G' st' /\
    looked_up fault vaddr (rg_list R) (rg_list R') v' r) st.
Proof.
  intros Ho Hg Hl. destruct fuel; cbn [vm_map_lookup]; apply mwp_bind; (eapply lookup_try_spec; [done..|]);
    intros R' G' v' [kr|page] st' Hlk Hfin; apply mwp_ret; by exists R', v', G'.
Qed.
End fault.
