(* ===== verification/VmUser.v ===== *)
(** * The system calls on memory (vm/vm_user.c)

    The calls round their ranges to pages, check their arguments and call the
    operations on maps. *)

From S2P Require Import Prelude Names Splay Table Space Hash Entry World Vm VmMap VmRing VmOwn VmMapInv VmClip VmMapOps VmDelete VmEnter.

Definition HOST_NULL : Z := 0.

Section calls.
Context {St : Type} `{ObjectOps St} (env : vm_env St).

Abbreviation vs := (vmem * St)%type.

(** Memory that is filled with zeros when it is first used. *)
Definition zero_fill : mapping := mk_mapping VM_OBJECT_NULL 0 false VM_PROT_DEFAULT VM_PROT_ALL VM_INHERIT_DEFAULT.

Definition vm_allocate (map addr size : Z) (anywhere : bool) : M vs (kern_return * Z) :=
  if map =? VM_MAP_NULL then mret (KERN_INVALID_ARGUMENT, addr)
  else if size =? 0 then mret (KERN_SUCCESS, 0)
  else
    addr ← (if anywhere then vm_map_min map else mret (vm_trunc_page addr));
    vm_map_enter env map addr (vm_round_page size) 0 anywhere zero_fill.

Definition vm_deallocate (map start size : Z) : M vs kern_return :=
  if map =? VM_MAP_NULL then mret KERN_INVALID_ARGUMENT
  else if size =? 0 then mret KERN_SUCCESS
  else vm_map_remove env map (vm_trunc_page start) (vm_round_page (u32 (start + size))).

Definition valid_inheritance (inheritance : Z) : bool :=
  (inheritance =? VM_INHERIT_NONE) || (inheritance =? VM_INHERIT_COPY) || (inheritance =? VM_INHERIT_SHARE).

(** The calls that refuse ranges with a projected buffer. *)
Definition unless_projected (map start size : Z) (call : M vs kern_return) : M vs kern_return :=
  projected ← projected_buffer_in_range env map start (u32 (start + size));
  if (projected : bool) then mret KERN_INVALID_ARGUMENT else call.

Definition vm_inherit (map start size new_inheritance : Z) : M vs kern_return :=
  if map =? VM_MAP_NULL then mret KERN_INVALID_ARGUMENT
  else if negb (valid_inheritance new_inheritance) then mret KERN_INVALID_ARGUMENT
  else unless_projected map start size
    (vm_map_inherit env map (vm_trunc_page start) (vm_round_page (u32 (start + size))) new_inheritance).

Definition vm_protect (map start size : Z) (set_maximum : bool) (new_prot : Z) : M vs kern_return :=
  if (map =? VM_MAP_NULL) || negb (Z.ldiff new_prot (Z.lor VM_PROT_ALL VM_PROT_NOTIFY) =? 0) then mret KERN_INVALID_ARGUMENT
  else unless_projected map start size
    (vm_map_protect env map (vm_trunc_page start) (vm_round_page (u32 (start + size))) new_prot set_maximum).

(** [result] is what [pmap_attribute] answers. *)
Definition vm_machine_attribute (result : kern_return) (map address size attribute : Z) : M vs kern_return :=
  if map =? VM_MAP_NULL then mret KERN_INVALID_ARGUMENT
  else unless_projected map address size (vm_map_machine_attribute result map address size attribute).

Definition vm_wire (host map start size access : Z) : M vs kern_return :=
  if host =? HOST_NULL then mret KERN_INVALID_HOST
  else if map =? VM_MAP_NULL then mret KERN_INVALID_TASK
  else if negb (Z.ldiff access VM_PROT_ALL =? 0) then mret KERN_INVALID_ARGUMENT
  else unless_projected map start size
    (vm_map_pageable_common env map (vm_trunc_page start) (vm_round_page (u32 (start + size))) access true).

End calls.

(** ** Pages *)

Lemma trunc_page_spec x : 0 <= x -> vm_trunc_page x <= x < vm_trunc_page x + page_size /\ Z.land (vm_trunc_page x) page_mask = 0.
Proof.
  intros Hx. unfold vm_trunc_page. change page_mask with (2 ^ 12 - 1). change page_size with (2 ^ 12).
  rewrite (ldiff_mask x 12) by lia. rewrite land_mask_aligned by lia. split; [|done].
  pose proof (Z_div_mod_eq_full x (2 ^ 12)). pose proof (Z.mod_pos_bound x (2 ^ 12)). lia.
Qed.

Lemma round_page_spec x : 0 <= x -> x + page_mask <= u32_max ->
  x <= vm_round_page x < x + page_size /\ Z.land (vm_round_page x) page_mask = 0.
Proof.
  intros Hx Hm. unfold vm_round_page. rewrite u32_id by (unfold u32_range, page_mask, page_size in *; lia).
  destruct (trunc_page_spec (x + page_mask)) as [Ht Hl]; [unfold page_mask, page_size; lia|].
  split; [|exact Hl]. unfold vm_trunc_page, page_mask, page_size in *. lia.
Qed.

Lemma page_multiple x : 0 <= x -> Z.land x page_mask = 0 -> exists n, x = 4096 * n.
Proof.
  intros Hx Hl. change page_mask with (2 ^ 12 - 1) in Hl. exists (x / 2 ^ 12).
  by rewrite (land_mask_multiple x 12 Hx ltac:(lia) Hl) at 1.
Qed.

Lemma trunc_page_id x : 0 <= x -> Z.land x page_mask = 0 -> vm_trunc_page x = x.
Proof.
  intros Hx Hl. destruct (trunc_page_spec x Hx) as [Ht Ha]. destruct (page_multiple x Hx Hl) as [n ->].
  assert (Hp : 0 <= vm_trunc_page (4096 * n)) by (unfold vm_trunc_page; apply Z.ldiff_nonneg; by left).
  destruct (page_multiple _ Hp Ha) as [m Hm]. unfold page_size in Ht. lia.
Qed.

(** What is rounded up with its start aligned. *)
Lemma round_page_add a size : 0 <= a -> Z.land a page_mask = 0 -> 0 < size -> size + page_mask <= u32_max ->
  a + vm_round_page size <= u32_max -> vm_round_page (u32 (a + size)) = a + vm_round_page size.
Proof.
  intros Ha Hl Hs Hm Hu. destruct (round_page_spec size ltac:(lia) Hm) as [Hr1 Hr2].
  destruct (page_multiple a Ha Hl) as [n ->]. assert (Hrp : 0 <= vm_round_page size) by lia.
  destruct (page_multiple _ Hrp Hr2) as [m Em]. rewrite Em in *. unfold page_mask, page_size, u32_max in *.
  rewrite (u32_id (4096 * n + size)) by (unfold u32_range, u32_max; lia).
  destruct (round_page_spec (4096 * n + size)) as [Hq1 Hq2]; [lia|unfold page_mask, page_size, u32_max; lia|].
  destruct (page_multiple (vm_round_page (4096 * n + size)) ltac:(lia) Hq2) as [q Eq]. rewrite Eq in *. unfold page_size in *. lia.
Qed.

Section user.
Context {St : Type} `{!ObjectOps St} `{!ObjectLaws St} (env : vm_env St).
Context (rs : gmap Z ring) (maps : gmap Z vm_map) (copies : gmap Z vm_map_copy) (map : Z).
Hypothesis Hzalloc : forall L, L !! zalloc env L = None.

Abbreviation vs := (vmem * St)%type.
Abbreviation own := (own rs maps copies map).
Abbreviation good := (good map).
Abbreviation finished := (finished rs maps copies map).

(** ** What is entered can be removed *)

Definition settled (l : list region) : Prop := forall a e, mapped l a = Some e -> in_transition e = false.

Lemma entered_removable p s t l l' a e :
  entered p s t l l' -> mp_object p <> VM_OBJECT_NULL \/ settled l -> s <= a < t -> mapped l' a = Some e -> removable e.
Proof.
  intros [He _] Hp Ha Hm. destruct (He a Ha) as (e' & He' & (_ & _ & _ & _ & _ & _ & Hproj & Hrest) & Htr). simplify_eq.
  split; [|done]. destruct Hp as [Hp|Hset]; [by destruct (Hrest Hp) as (_ & _ & _ & ?)|].
  destruct (in_transition e); [|done]. destruct (Htr eq_refl) as (b & e1 & Hb & Hb1). by rewrite (Hset b e1 Hb) in Hb1.
Qed.

Lemma remove_entered D R R1 v v1 E G F (st : vs) s t p :
  finished 2 D R R1 v v1 E F G st -> entered p s t (rg_list R) (rg_list R1) -> free_range (rg_list R) s t ->
  mp_object p <> VM_OBJECT_NULL \/ settled (rg_list R) ->
  mwp (vm_map_remove env map s t) (fun kr st' => kr = KERN_SUCCESS /\ exists R' v' E' G',
    finished 0 D R R' v v' E' F G' st' /\ forall a, mapped (rg_list R') a = mapped (rg_list R) a) st.
Proof.
  intros [Ho1 Hg1 Hl1 Hs1 Hp1] Hent Hfree Hp.
  eapply mwp_mono; [eapply remove_spec; [done|exact Ho1|exact Hg1|done|intros a e; by eapply entered_removable]|].
  intros kr st2 (-> & R2 & v2 & E2 & G2 & [Ho2 Hg2 Hl2 Hs2 Hp2] & Hrem). split; [done|]. exists R2, v2, E2, G2. split.
  - split; [exact Ho2|exact Hg2|exact Hl2|eapply rg_same_trans; [exact Hs1|exact Hs2]|congruence].
  - intros b. rewrite Hrem. destruct Hent as [_ He2]. destruct (Z.leb_spec s b), (Z.ltb_spec b t); cbn [andb]; try (apply He2; lia).
    by rewrite Hfree.
Qed.

Lemma allocate_fixed_spec D R v E G F k (st : vs) addr size :
  own D R v E G st -> good k R v G F -> vm_lock v = Unlocked -> map <> VM_MAP_NULL -> 0 <= addr <= u32_max ->
  0 < size -> size + page_mask <= u32_max -> extendable (vm_round_page size) R ->
  inside R (vm_trunc_page addr) (vm_round_page size) ->
  free_range (rg_list R) (vm_trunc_page addr) (vm_trunc_page addr + vm_round_page size) ->
  mwp (vm_allocate env map addr size false) (fun r st' => r = (KERN_SUCCESS, vm_trunc_page addr) /\ exists R' v',
    finished k D R R' v v' E F G st' /\
    entered zero_fill (vm_trunc_page addr) (vm_trunc_page addr + vm_round_page size) (rg_list R) (rg_list R')) st.
Proof.
  intros Ho Hg Hl Hm Ha Hs Hmax Hx Hin Hfree. unfold vm_allocate. rewrite (proj2 (Z.eqb_neq _ _) Hm).
  rewrite (proj2 (Z.eqb_neq size 0)) by lia. apply mwp_bind, mwp_ret.
  destruct (trunc_page_spec addr ltac:(lia)) as [Ht _]. destruct (round_page_spec size ltac:(lia) Hmax) as [Hr _].
  unfold page_mask, page_size in *.
  assert (Htr : 0 <= vm_trunc_page addr) by (unfold vm_trunc_page; apply Z.ldiff_nonneg; left; lia).
  eapply mwp_mono; [apply (enter_fixed_spec env rs maps copies map Hzalloc D R v E G F k st _ _ 0 zero_fill); try done; unfold u32_max in *; lia|].
  intros [kr a] st' (Ea & R' & v' & Hcase). cbn [fst snd] in *. subst a. rewrite Z.land_0_r in Hcase.
  destruct Hcase as [(-> & _ & _ & _ & Hfin & Hent & _)|(_ & _ & [[_ ?]|[(_ & _ & ?)|(_ & _ & _ & ?)]])]; try done.
  split; [done|]. by exists R', v'.
Qed.

Lemma allocate_deallocate_spec D R v E G F (st : vs) addr size :
  own D R v E G st -> good 2 R v G F -> vm_lock v = Unlocked -> map <> VM_MAP_NULL -> 0 <= addr <= u32_max ->
  0 < size -> size + page_mask <= u32_max -> extendable (vm_round_page size) R ->
  inside R (vm_trunc_page addr) (vm_round_page size) ->
  free_range (rg_list R) (vm_trunc_page addr) (vm_trunc_page addr + vm_round_page size) -> settled (rg_list R) ->
  mwp (r ← vm_allocate env map addr size false; kr ← vm_deallocate env map r.2 size; mret (r.1, kr)) (fun r st' =>
    r = (KERN_SUCCESS, KERN_SUCCESS) /\ exists R' v' E' G', finished 0 D R R' v v' E' F G' st' /\
      forall a, mapped (rg_list R') a = mapped (rg_list R) a) st.
Proof.
  intros Ho Hg Hl Hm Ha Hs Hmax Hx Hin Hfree Hset. apply mwp_bind.
  eapply mwp_mono; [by eapply allocate_fixed_spec|]. intros r st1 (-> & R1 & v1 & Hfin & Hent). cbn [fst snd].
  destruct (trunc_page_spec addr ltac:(lia)) as [Ht Hal].
  assert (Htr : 0 <= vm_trunc_page addr) by (unfold vm_trunc_page; apply Z.ldiff_nonneg; left; lia).
  pose proof (wf_hi _ _ _ (gd_wf _ _ _ _ _ _ Hg)) as Hhi. destruct Hin as (_ & _ & Hin).
  unfold vm_deallocate. rewrite (proj2 (Z.eqb_neq _ _) Hm), (proj2 (Z.eqb_neq size 0)) by lia.
  rewrite (trunc_page_id (vm_trunc_page addr)), round_page_add by (done || lia).
  apply mwp_bind. eapply mwp_mono; [eapply remove_entered; [exact Hfin|exact Hent|done|by right]|].
  intros kr st2 (-> & R2 & v2 & E2 & G2 & H2). apply mwp_ret. split; [done|]. by exists R2, v2, E2, G2.
Qed.

(** ** Projected buffers *)

Lemma in_range_loop_spec fuel D R v E G (st : vs) l1 l2 last Q :
  own D R v E G st -> ordered (rg_lo R) (rg_list R) (rg_hi R) -> rg_list R = l1 ++ l2 -> (length l2 <= fuel)%nat ->
  (forall b, (b = true <-> exists r, r ∈ l2 /\ projected_on (r_entry r) <> 0 /\ r_start r <= last) -> Q b st) ->
  mwp (in_range_loop fuel map (first_addr l2 map) last) Q st.
Proof.
  intros Ho Hord. revert fuel l1 Q. induction l2 as [|r l2 IH]; intros fuel l1 Q El Hfuel HQ; cbn [first_addr].
  - assert (HF : Q false st).
    { apply HQ. split; [done|]. intros (r & Hr & _). by apply elem_of_nil in Hr. }
    destruct fuel; cbn [in_range_loop]; rewrite Z.eqb_refl; by apply mwp_ret.
  - assert (Hin : r ∈ rg_list R) by (rewrite El; apply elem_of_app; right; by left).
    destruct fuel as [|fuel]; [simpl in Hfuel; lia|]. cbn [in_range_loop].
    rewrite (proj2 (Z.eqb_neq _ _) (own_addr_ne _ _ _ _ _ _ _ _ _ _ _ Ho Hin)).
    apply mwp_bind. eapply own_links_at; [done..|]. apply mwp_bind. eapply own_entry_at; [done..|]. cbn [vme_start vme_next].
    rewrite El in Hord. apply ordered_app in Hord as [_ Hord].
    destruct (Z.eqb_spec (projected_on (r_entry r)) 0) as [Hz|Hz], (Z.leb_spec (r_start r) last) as [Hle|Hgt]; cbn [andb].
    + eapply (IH _ (l1 ++ [r])); [by rewrite <- app_assoc|simpl in Hfuel; lia|]. intros b Hb. apply HQ. rewrite Hb.
      split; intros (x & Hx & Hp & Hs); exists x; (split; [|done]); [by right|]. apply elem_of_cons in Hx as [->|Hx]; done.
    + apply mwp_ret, HQ. split; [done|]. intros (x & Hx & Hp & Hs).
      pose proof (ordered_from _ _ _ _ (r_start r) Hord ltac:(lia)) as Hall. rewrite Forall_forall in Hall. specialize (Hall x Hx). simpl in Hall. lia.
    + apply mwp_ret, HQ. split; [|done]. intros _. exists r. split; [by left|done].
    + apply mwp_ret, HQ. split; [done|]. intros (x & Hx & Hp & Hs).
      pose proof (ordered_from _ _ _ _ (r_start r) Hord ltac:(lia)) as Hall. rewrite Forall_forall in Hall. specialize (Hall x Hx). simpl in Hall. lia.
Qed.

(** The loop looks at every entry that ends behind [start] and begins not
    behind [last]. *)
Lemma in_range_spec D R v E G (st : vs) start last :
  own D R v E G st -> map_wf map R v -> map <> VM_MAP_NULL -> map <> kernel_map env ->
  mwp (projected_buffer_in_range env map start last) (fun b st' =>
    (b = true <-> exists r, r ∈ rg_list R /\ projected_on (r_entry r) <> 0 /\ start < r_end r /\ r_start r <= last) /\
    exists h, h ∈ nodes map R /\ own D R (set_hint h v) E G st') st.
Proof.
  intros Ho Hwf Hm Hk. unfold projected_buffer_in_range. rewrite (proj2 (Z.eqb_neq _ _) Hm), (proj2 (Z.eqb_neq _ _) Hk).
  pose proof (wf_ordered _ _ _ Hwf) as Hord. cbn [orb].
  apply mwp_bind. eapply mwp_mono; [by eapply lookup_entry_spec|]. intros [found a] st1 (Hans & h & Hh & Ho1 & _).
  assert (Hloop : forall l1 l2, rg_list R = l1 ++ l2 -> Forall (fun x => r_end x <= start) l1 -> Forall (fun x => start < r_end x) l2 ->
    mwp (fuel ← ring_fuel; in_range_loop fuel map (first_addr l2 map) last) (fun b st' =>
      (b = true <-> exists r, r ∈ rg_list R /\ projected_on (r_entry r) <> 0 /\ start < r_end r /\ r_start r <= last) /\
      exists h, h ∈ nodes map R /\ own D R (set_hint h v) E G st') st1).
  { intros l1 l2 El H1 H2. apply mwp_bind. eapply own_fuel; [exact Ho1|]. intros fuel Hfuel. rewrite El, length_app in Hfuel.
    eapply in_range_loop_spec; [exact Ho1|exact Hord|exact El|lia|]. intros b Hb. split; [|by exists h]. rewrite Hb, El.
    rewrite Forall_forall in H1, H2. split.
    - intros (r & Hr & Hp & Hs). exists r. split_and!; [apply elem_of_app; by right|done|by apply H2|done].
    - intros (r & Hr & Hp & He & Hs). apply elem_of_app in Hr as [Hr|Hr]; [specialize (H1 r Hr); simpl in H1; lia|by exists r]. }
  destruct found; unfold lookup_answer in Hans; cbn [fst snd] in Hans.
  - destruct Hans as (l1 & x & l2 & El & -> & Hx). apply mwp_bind, mwp_ret. rewrite El in Hord.
    pose proof (ordered_split _ _ _ _ _ Hord) as (O1 & O2 & O3). apply (Hloop l1 (x :: l2)); [done|..].
    + apply Forall_forall. intros z Hz. destruct (ordered_mem _ _ _ _ O1 Hz) as (_ & _ & ?). lia.
    + constructor; [lia|]. apply Forall_forall. intros z Hz. destruct (ordered_mem _ _ _ _ O3 Hz). lia.
  - destruct Hans as (l1 & l2 & El & -> & Hlim & Hall). apply mwp_bind. eapply own_next; [exact Ho1|exact El|].
    rewrite El in Hord. apply ordered_app in Hord as [O1 O2]. apply (Hloop l1 l2); [done|..].
    + apply Forall_forall. intros z Hz. destruct (ordered_mem _ _ _ _ O1 Hz) as (Hlo & Hlt & Hle).
      destruct (Z.le_gt_cases (rg_lo R) start); [lia|].
      (* below the lower limit nothing comes before *)
      exfalso. lia.
    + rewrite Forall_forall in Hall |- *. intros z Hz. specialize (Hall z Hz). simpl in Hall.
      destruct (ordered_mem _ _ _ _ O2 Hz). lia.
Qed.
End user.
