(* ===== verification/VmObject.v ===== *)
(** * Memory objects (vm/vm_object.c, vm_object.h)

    An object is a sequence of pages: those in its queue, those its pager
    keeps, and for the others those of the object it shadows.  The routines
    are translated statement by statement; an object and a port are reached
    by address.  The pages of an object are those of [memq]; the hash table
    by which vm_resident.c finds a page of an object is the search in that
    queue.  Assertions are not part of the model, a [panic] is a crash.  What
    happens to a page outside of its object (it is freed, deactivated, sent to
    the pager) and the messages to pagers are recorded as events. *)

From S2P Require Import Prelude Names Splay Table Space Hash Entry World Vm.

(** ** Data *)

(** A page of an object (vm_page.h); [pg_addr] is the address of the structure. *)
Record vm_page := mk_page {
  pg_addr : Z;
  pg_offset : Z;
  pg_phys_addr : Z;
  pg_busy : bool;
  pg_absent : bool;
  pg_private : bool;
  pg_fictitious : bool;
  pg_dirty : bool;
  pg_precious : bool
}.

Record vm_object := mk_object {
  memq : list vm_page;
  ob_size : Z;
  ob_ref_count : Z;
  resident_page_count : Z;
  ob_copy : Z;
  ob_shadow : Z;
  shadow_offset : Z;
  ob_pager : Z;
  paging_offset : Z;
  pager_request : Z;
  pager_name : Z;
  absent_count : Z;
  paging_in_progress : Z;
  pager_created : bool;
  pager_initialized : bool;
  pager_ready : bool;
  can_persist : bool;
  ob_internal : bool;
  ob_temporary : bool;
  alive : bool;
  last_alloc : Z;
  existence_info : Z
}.

(** Signed 16-bit numbers. *)
Definition s16 (x : Z) : Z := (x + 32768) mod 65536 - 32768.

Definition with_memq x o := mk_object x (ob_size o) (ob_ref_count o) (resident_page_count o) (ob_copy o) (ob_shadow o)
  (shadow_offset o) (ob_pager o) (paging_offset o) (pager_request o) (pager_name o) (absent_count o)
  (paging_in_progress o) (pager_created o) (pager_initialized o) (pager_ready o) (can_persist o) (ob_internal o)
  (ob_temporary o) (alive o) (last_alloc o) (existence_info o).
Definition with_size x o := mk_object (memq o) x (ob_ref_count o) (resident_page_count o) (ob_copy o) (ob_shadow o)
  (shadow_offset o) (ob_pager o) (paging_offset o) (pager_request o) (pager_name o) (absent_count o)
  (paging_in_progress o) (pager_created o) (pager_initialized o) (pager_ready o) (can_persist o) (ob_internal o)
  (ob_temporary o) (alive o) (last_alloc o) (existence_info o).
Definition with_ref_count x o := mk_object (memq o) (ob_size o) x (resident_page_count o) (ob_copy o) (ob_shadow o)
  (shadow_offset o) (ob_pager o) (paging_offset o) (pager_request o) (pager_name o) (absent_count o)
  (paging_in_progress o) (pager_created o) (pager_initialized o) (pager_ready o) (can_persist o) (ob_internal o)
  (ob_temporary o) (alive o) (last_alloc o) (existence_info o).
Definition with_resident x o := mk_object (memq o) (ob_size o) (ob_ref_count o) x (ob_copy o) (ob_shadow o)
  (shadow_offset o) (ob_pager o) (paging_offset o) (pager_request o) (pager_name o) (absent_count o)
  (paging_in_progress o) (pager_created o) (pager_initialized o) (pager_ready o) (can_persist o) (ob_internal o)
  (ob_temporary o) (alive o) (last_alloc o) (existence_info o).
Definition with_copy x o := mk_object (memq o) (ob_size o) (ob_ref_count o) (resident_page_count o) x (ob_shadow o)
  (shadow_offset o) (ob_pager o) (paging_offset o) (pager_request o) (pager_name o) (absent_count o)
  (paging_in_progress o) (pager_created o) (pager_initialized o) (pager_ready o) (can_persist o) (ob_internal o)
  (ob_temporary o) (alive o) (last_alloc o) (existence_info o).
Definition with_shadow x y o := mk_object (memq o) (ob_size o) (ob_ref_count o) (resident_page_count o) (ob_copy o) x
  y (ob_pager o) (paging_offset o) (pager_request o) (pager_name o) (absent_count o)
  (paging_in_progress o) (pager_created o) (pager_initialized o) (pager_ready o) (can_persist o) (ob_internal o)
  (ob_temporary o) (alive o) (last_alloc o) (existence_info o).
Definition with_paging_offset x o := mk_object (memq o) (ob_size o) (ob_ref_count o) (resident_page_count o) (ob_copy o)
  (ob_shadow o) (shadow_offset o) (ob_pager o) x (pager_request o) (pager_name o) (absent_count o)
  (paging_in_progress o) (pager_created o) (pager_initialized o) (pager_ready o) (can_persist o) (ob_internal o)
  (ob_temporary o) (alive o) (last_alloc o) (existence_info o).
Definition with_name x o := mk_object (memq o) (ob_size o) (ob_ref_count o) (resident_page_count o) (ob_copy o)
  (ob_shadow o) (shadow_offset o) (ob_pager o) (paging_offset o) (pager_request o) x (absent_count o)
  (paging_in_progress o) (pager_created o) (pager_initialized o) (pager_ready o) (can_persist o) (ob_internal o)
  (ob_temporary o) (alive o) (last_alloc o) (existence_info o).
Definition with_absent x o := mk_object (memq o) (ob_size o) (ob_ref_count o) (resident_page_count o) (ob_copy o)
  (ob_shadow o) (shadow_offset o) (ob_pager o) (paging_offset o) (pager_request o) (pager_name o) x
  (paging_in_progress o) (pager_created o) (pager_initialized o) (pager_ready o) (can_persist o) (ob_internal o)
  (ob_temporary o) (alive o) (last_alloc o) (existence_info o).
Definition with_alive x o := mk_object (memq o) (ob_size o) (ob_ref_count o) (resident_page_count o) (ob_copy o)
  (ob_shadow o) (shadow_offset o) (ob_pager o) (paging_offset o) (pager_request o) (pager_name o) (absent_count o)
  (paging_in_progress o) (pager_created o) (pager_initialized o) (pager_ready o) (can_persist o) (ob_internal o)
  (ob_temporary o) x (last_alloc o) (existence_info o).
Definition with_last_alloc x o := mk_object (memq o) (ob_size o) (ob_ref_count o) (resident_page_count o) (ob_copy o)
  (ob_shadow o) (shadow_offset o) (ob_pager o) (paging_offset o) (pager_request o) (pager_name o) (absent_count o)
  (paging_in_progress o) (pager_created o) (pager_initialized o) (pager_ready o) (can_persist o) (ob_internal o)
  (ob_temporary o) (alive o) x (existence_info o).
(** The pager of [b], and what is known of it, moves to [o]. *)
Definition with_pager_of b o := mk_object (memq o) (ob_size o) (ob_ref_count o) (resident_page_count o) (ob_copy o)
  (ob_shadow o) (shadow_offset o) (ob_pager b) (paging_offset o) (pager_request b) (pager_name o) (absent_count o)
  (paging_in_progress o) (pager_created b) (pager_initialized b) (pager_ready b) (can_persist o) (ob_internal o)
  (ob_temporary o) (alive o) (last_alloc o) (existence_info b).

(** [vm_object_template], as [vm_object_bootstrap] fills it in. *)
Definition vm_object_template : vm_object :=
  mk_object [] 0 1 0 VM_OBJECT_NULL VM_OBJECT_NULL 0 IP_NULL 0 IP_NULL IP_NULL 0 0 false false false false true true true 0 0.

(** The types a port of an object has (kern/ipc_kobject.h). *)
Definition IKOT_PAGER : Z := 8.
Definition IKOT_PAGER_REQUEST : Z := 9.
Definition IKOT_PAGER_TERMINATING : Z := 15.
Definition IKOT_PAGING_NAME : Z := 16.

Inductive object_event :=
| PageFree (page : vm_page)
| PageDeactivate (page : vm_page)
| ExternalDestroy (existence_info : Z)
| PageOut (pager offset : Z) (page : vm_page)
| PageProtect (phys prot : Z)
| PagerRelease (pager request name : Z)
| PortDealloc (port : Z)
| MakeSend (port : Z).

(** The objects; the type and the object of each port that belongs to one;
    the objects that are cached, oldest first, and their number. *)
Record objects := mk_objects {
  ob_objects : gmap Z vm_object;
  ob_ports : gmap Z (Z * Z);
  vm_object_cached_list : list Z;
  vm_object_cached_count : Z;
  ob_events : list object_event
}.

Definition with_objects x s := mk_objects x (ob_ports s) (vm_object_cached_list s) (vm_object_cached_count s) (ob_events s).
Definition with_port_table x s := mk_objects (ob_objects s) x (vm_object_cached_list s) (vm_object_cached_count s) (ob_events s).
Definition with_cached l n s := mk_objects (ob_objects s) (ob_ports s) l n (ob_events s).
Definition with_ob_events x s :=
  mk_objects (ob_objects s) (ob_ports s) (vm_object_cached_list s) (vm_object_cached_count s) x.

Definition vm_object_cached_max : Z := 100.
Definition vm_object_collapse_allowed : bool := true.
Definition vm_object_collapse_bypass_allowed : bool := true.

(** The machine and the other threads: where the zone allocator finds an
    object, and [ipc_port_alloc_kernel] a port ([IP_NULL] if there is none);
    the modify bit of a page; what other threads do while a thread waits, and
    how often it waits at most; if the lock of the cache is free. *)
Record object_env := mk_object_env {
  oe_zalloc : gmap Z vm_object -> Z;
  ipc_port_alloc_kernel : objects -> Z;
  pmap_is_modified : Z -> bool;
  oe_others : objects -> objects;
  oe_patience : nat;
  vm_object_cache_lock_try : objects -> bool
}.

Section object.
Context (env : object_env).

Abbreviation OM A := (M objects A).

Definition object_at (o : Z) : OM vm_object := fun s =>
  match ob_objects s !! o with Some x => Some (x, s) | None => None end.
Definition update_object (o : Z) (f : vm_object -> vm_object) : OM unit :=
  x ← object_at o; modify (fun s => with_objects (<[o := f x]> (ob_objects s)) s).
Definition object_event_log (e : object_event) : OM unit := modify (fun s => with_ob_events (ob_events s ++ [e]) s).

(** [ip_kotype] and [ipc_kobject_set]. *)
Definition ip_kotype (port : Z) : OM Z := fun s =>
  match ob_ports s !! port with Some (t, _) => Some (t, s) | None => None end.
Definition ipc_kobject_set (port object type : Z) : OM unit :=
  ip_kotype port;; modify (fun s => with_port_table (<[port := (type, object)]> (ob_ports s)) s).
Definition ipc_port_dealloc_kernel (port : Z) : OM unit :=
  modify (fun s => with_port_table (delete port (ob_ports s)) s);; object_event_log (PortDealloc port).

(** ** Pages (vm_resident.c) *)

Definition vm_page_lookup (o offset : Z) : OM (option vm_page) :=
  x ← object_at o; mret (List.find (fun p => pg_offset p =? offset) (memq x)).

Definition vm_page_remove (o : Z) (p : vm_page) : OM unit :=
  update_object o (fun x => with_resident (s16 (resident_page_count x - 1))
    (with_memq (List.filter (fun q => negb (pg_addr q =? pg_addr p)) (memq x)) x)).

(** [vm_page_deactivate_behind] is [TRUE]. *)
Definition vm_page_insert (p : vm_page) (o offset : Z) : OM unit :=
  update_object o (fun x => with_resident (s16 (resident_page_count x + 1))
    (with_memq (memq x ++ [mk_page (pg_addr p) offset (pg_phys_addr p) (pg_busy p) (pg_absent p) (pg_private p)
       (pg_fictitious p) (pg_dirty p) (pg_precious p)]) x));;
  x ← object_at o;
  when (offset =? u32 (last_alloc x + page_size))
    (last_mem ← vm_page_lookup o (last_alloc x);
     match last_mem with
     | Some q => when (negb (pg_busy q)) (object_event_log (PageDeactivate q))
     | None => mret tt
     end);;
  update_object o (with_last_alloc offset).

Definition vm_page_rename (o : Z) (p : vm_page) (new_object new_offset : Z) : OM unit :=
  vm_page_remove o p;; vm_page_insert p new_object new_offset.

Definition vm_page_free (o : Z) (p : vm_page) : OM unit :=
  vm_page_remove o p;;
  object_event_log (PageFree p);;
  when (pg_absent p) (update_object o (fun x => with_absent (u32 (absent_count x - 1)) x)).

(** ** Allocation *)

Definition _vm_object_allocate (size : Z) : OM Z :=
  o ← gets (fun s => oe_zalloc env (ob_objects s));
  modify (fun s => with_objects (<[o := with_size size vm_object_template]> (ob_objects s)) s);;
  mret o.

Definition vm_object_allocate (size : Z) : OM Z :=
  o ← _vm_object_allocate size;
  port ← gets (ipc_port_alloc_kernel env);
  if port =? IP_NULL then crash
  else
    modify (fun s => with_port_table (<[port := (IKOT_NONE, 0)]> (ob_ports s)) s);;
    update_object o (with_name port);;
    ipc_kobject_set port o IKOT_PAGING_NAME;;
    mret o.

Definition vm_object_reference (o : Z) : OM unit :=
  if o =? VM_OBJECT_NULL then mret tt
  else update_object o (fun x => with_ref_count (s16 (ob_ref_count x + 1)) x).

Definition vm_object_shadow (source offset length : Z) : OM (Z * Z) :=
  result ← vm_object_allocate length;
  if result =? VM_OBJECT_NULL then crash
  else update_object result (with_shadow source offset);; mret (result, 0).

(** ** Termination *)

(** One of the ports of an object no longer stands for it. *)
Definition detach_port (port type new_type : Z) : OM unit :=
  if port =? IP_NULL then mret tt
  else
    t ← ip_kotype port;
    if t =? type then ipc_kobject_set port 0 new_type
    else if t =? IKOT_NONE then mret tt else crash.

Definition vm_object_remove (o : Z) : OM unit :=
  x ← object_at o;
  detach_port (ob_pager x) IKOT_PAGER IKOT_PAGER_TERMINATING;;
  detach_port (pager_request x) IKOT_PAGER_REQUEST IKOT_NONE;;
  detach_port (pager_name x) IKOT_PAGING_NAME IKOT_NONE.

Definition memory_object_release (pager request name : Z) : OM unit :=
  object_event_log (PagerRelease pager request name).

Definition vm_object_deactivate_pages (o : Z) : OM unit :=
  x ← object_at o;
  modify (fun s => with_ob_events
    (ob_events s ++ (PageDeactivate <$> List.filter (fun p => negb (pg_busy p)) (memq x))) s).

Fixpoint vm_object_paging_wait (waits : nat) (o : Z) : OM unit :=
  x ← object_at o;
  if paging_in_progress x =? 0 then mret tt
  else
    match waits with
    | O => crash
    | S waits => modify (oe_others env);; vm_object_paging_wait waits o
    end.

(** A page of an object that a pager keeps, and that goes away. *)
Definition terminate_page (o : Z) (p : vm_page) : OM unit :=
  if pg_absent p || pg_private p then vm_page_free o p
  else if pg_fictitious p then crash
  else if pg_dirty p || pmap_is_modified env (pg_phys_addr p) || pg_precious p then
    x ← object_at o;
    vm_page_remove o p;;
    object_event_log (PageOut (ob_pager x) (u32 (pg_offset p + paging_offset x)) p)
  else vm_page_free o p.

(** [while (!queue_empty(&object->memq))] *)
Fixpoint terminate_pages (fuel : nat) (kept : bool) (o : Z) : OM unit :=
  x ← object_at o;
  match memq x, fuel with
  | [], _ => mret tt
  | p :: _, S fuel =>
    (if pg_busy p && negb (pg_absent p) then crash
     else if kept then terminate_page o p else vm_page_free o p);;
    terminate_pages fuel kept o
  | _ :: _, O => crash
  end.

Definition vm_object_terminate (o : Z) : OM unit :=
  update_object o (with_alive false);;
  vm_object_remove o;;
  x ← object_at o;
  when (negb (ob_shadow x =? VM_OBJECT_NULL)) (update_object (ob_shadow x) (with_copy VM_OBJECT_NULL));;
  vm_object_paging_wait (oe_patience env) o;;
  x ← object_at o;
  terminate_pages (length (memq x)) (negb (ob_temporary x || (ob_pager x =? IP_NULL))) o;;
  x ← object_at o;
  (if negb (ob_pager x =? IP_NULL) then memory_object_release (ob_pager x) (pager_request x) (pager_name x)
   else when (negb (pager_name x =? IP_NULL)) (ipc_port_dealloc_kernel (pager_name x)));;
  object_event_log (ExternalDestroy (existence_info x));;
  modify (fun s => with_objects (delete o (ob_objects s)) s).

(** ** Releasing a reference *)

(** What is to be done when the last reference is gone. *)
Inductive last_reference :=
| Kept
| WaitForPager
| Terminate (object : Z).

(** The loop that trims the cache. *)
Fixpoint trim_cache (waits : nat) : OM last_reference :=
  count ← gets vm_object_cached_count;
  if count <=? vm_object_cached_max then mret Kept
  else
    cached ← gets vm_object_cached_list;
    match cached with
    | [] => crash
    | o :: cached =>
      x ← object_at o;
      if negb (pager_created x && negb (pager_initialized x)) then
        modify (with_cached cached (count - 1));;
        mret (Terminate o)
      else
        match waits with
        | O => crash
        | S waits => modify (oe_others env);; trim_cache waits
        end
    end.

Definition cache_object (o : Z) : OM last_reference :=
  modify (fun s => with_cached (vm_object_cached_list s ++ [o]) (vm_object_cached_count s + 1) s);;
  count ← gets vm_object_cached_count;
  vm_object_deactivate_pages o;;
  if count <=? vm_object_cached_max then mret Kept else trim_cache (oe_patience env).

Definition last_reference_gone (o : Z) : OM last_reference :=
  x ← object_at o;
  if can_persist x then cache_object o
  else if pager_created x && negb (pager_initialized x) then
    update_object o (fun x => with_ref_count (s16 (ob_ref_count x + 1)) x);;
    modify (oe_others env);;
    mret WaitForPager
  else mret (Terminate o).

(** [while (object != VM_OBJECT_NULL)] *)
Fixpoint deallocate_loop (fuel : nat) (o : Z) : OM unit :=
  if o =? VM_OBJECT_NULL then mret tt
  else
    match fuel with
    | O => crash
    | S fuel =>
      update_object o (fun x => with_ref_count (s16 (ob_ref_count x - 1)) x);;
      x ← object_at o;
      if 0 <? ob_ref_count x then mret tt
      else
        r ← last_reference_gone o;
        match r with
        | Kept => mret tt
        | WaitForPager => deallocate_loop fuel o
        | Terminate o =>
          x ← object_at o;
          vm_object_terminate o;;
          deallocate_loop fuel (ob_shadow x)
        end
    end.

Definition vm_object_deallocate (o : Z) : OM unit :=
  n ← gets (fun s => size (ob_objects s));
  deallocate_loop (n + oe_patience env) o.

(** ** Collapsing *)

(** [while (!queue_empty(&backing_object->memq))]: the pages move up. *)
Fixpoint move_pages (fuel : nat) (o b backing_offset size : Z) : OM unit :=
  y ← object_at b;
  match memq y, fuel with
  | [], _ => mret tt
  | p :: _, S fuel =>
    let new_offset := u32 (pg_offset p - backing_offset) in
    (if (pg_offset p <? backing_offset) || (size <=? new_offset) then vm_page_free b p
     else
       pp ← vm_page_lookup o new_offset;
       match pp with
       | Some pp => if negb (pg_absent pp) then vm_page_free b p else crash
       | None => vm_page_rename b p o new_offset
       end);;
    move_pages fuel o b backing_offset size
  | _ :: _, O => crash
  end.

(** The only reference to the backing object [b] is that of [o]. *)
Definition collapse_into (o b : Z) : OM unit :=
  x ← object_at o;
  y ← object_at b;
  let backing_offset := shadow_offset x in
  move_pages (length (memq y)) o b backing_offset (ob_size x);;
  y ← object_at b;
  update_object o (with_pager_of y);;
  when (negb (ob_pager y =? IP_NULL)) (ipc_kobject_set (ob_pager y) o IKOT_PAGER);;
  when (negb (pager_request y =? IP_NULL)) (ipc_kobject_set (pager_request y) o IKOT_PAGER_REQUEST);;
  x ← object_at o;
  let old_name_port := pager_name x in
  when (negb (old_name_port =? IP_NULL)) (ipc_kobject_set old_name_port 0 IKOT_NONE);;
  update_object o (with_name (pager_name y));;
  when (negb (pager_name y =? IP_NULL)) (ipc_kobject_set (pager_name y) o IKOT_PAGING_NAME);;
  when (negb (ob_pager y =? IP_NULL))
    (update_object o (with_paging_offset (u32 (paging_offset y + backing_offset))));;
  update_object o (fun x => with_shadow (ob_shadow y) (u32 (shadow_offset x + shadow_offset y)) x);;
  (if ob_shadow y =? VM_OBJECT_NULL then mret tt
   else z ← object_at (ob_shadow y); when (negb (ob_copy z =? VM_OBJECT_NULL)) crash);;
  update_object b (with_alive false);;
  when (negb (old_name_port =? IP_NULL)) (ipc_port_dealloc_kernel old_name_port);;
  modify (fun s => with_objects (delete b (ob_objects s)) s).

(** No page of the backing object is needed by the object [x]. *)
Definition page_shadowed (x : vm_object) (p : vm_page) : bool :=
  let new_offset := u32 (pg_offset p - shadow_offset x) in
  negb ((shadow_offset x <=? pg_offset p) && (new_offset <=? ob_size x) &&
        match List.find (fun q => pg_offset q =? new_offset) (memq x) with None => true | Some _ => false end).

Definition bypass (o b : Z) : OM unit :=
  y ← object_at b;
  update_object o (fun x => with_shadow (ob_shadow y) (shadow_offset x) x);;
  vm_object_reference (ob_shadow y);;
  update_object o (fun x => with_shadow (ob_shadow x) (u32 (shadow_offset x + shadow_offset y)) x);;
  y ← object_at b;
  when (ob_copy y =? o) (update_object b (with_copy VM_OBJECT_NULL));;
  update_object b (fun y => with_ref_count (s16 (ob_ref_count y - 1)) y).

(** One round: [false] if there is nothing more to do. *)
Definition collapse_step (o : Z) : OM bool :=
  if o =? VM_OBJECT_NULL then mret false
  else
    x ← object_at o;
    if pager_created x || negb (paging_in_progress x =? 0) || negb (absent_count x =? 0) then mret false
    else
      let b := ob_shadow x in
      if b =? VM_OBJECT_NULL then mret false
      else
        y ← object_at b;
        if negb (ob_internal y) || negb (paging_in_progress y =? 0) then mret false
        else
          copied ← (if ob_shadow y =? VM_OBJECT_NULL then mret false
                    else z ← object_at (ob_shadow y); mret (negb (ob_copy z =? VM_OBJECT_NULL)));
          if (copied : bool) then mret false
          else if ob_ref_count y =? 1 then
            free ← gets (vm_object_cache_lock_try env);
            if negb free then mret false else collapse_into o b;; mret true
          else if negb vm_object_collapse_bypass_allowed || pager_created y then mret false
          else if forallb (page_shadowed x) (memq y) then bypass o b;; mret true
          else mret false.

Fixpoint collapse_loop (fuel : nat) (o : Z) : OM unit :=
  again ← collapse_step o;
  if negb again then mret tt
  else
    match fuel with
    | O => crash
    | S fuel => collapse_loop fuel o
    end.

Definition vm_object_collapse (o : Z) : OM unit :=
  if negb vm_object_collapse_allowed then mret tt
  else n ← gets (fun s => size (ob_objects s)); collapse_loop n o.

(** ** Coalescing *)

Definition remove_page (o : Z) (p : vm_page) : OM unit :=
  when (negb (pg_fictitious p)) (object_event_log (PageProtect (pg_phys_addr p) VM_PROT_NONE));;
  vm_page_free o p.

(** [for (; start < end; start += page_size)] *)
Fixpoint remove_by_lookup (fuel : nat) (o start last : Z) : OM unit :=
  if negb (start <? last) then mret tt
  else
    match fuel with
    | O => crash
    | S fuel =>
      p ← vm_page_lookup o start;
      match p with Some p => remove_page o p | None => mret tt end;;
      remove_by_lookup fuel o (u32 (start + page_size)) last
    end.

Fixpoint remove_by_iteration (o start last : Z) (pages : list vm_page) : OM unit :=
  match pages with
  | [] => mret tt
  | p :: pages =>
    when ((start <=? pg_offset p) && (pg_offset p <? last)) (remove_page o p);;
    remove_by_iteration o start last pages
  end.

Definition vm_object_page_remove (o start last : Z) : OM unit :=
  x ← object_at o;
  if Z.shiftr (u32 (last - start)) 12 <? u32 (resident_page_count x) / 16
  then remove_by_lookup (Z.to_nat (Z.shiftr (u32 (last - start)) 12 + 2)) o start last
  else remove_by_iteration o start last (memq x).

(** With a second object that is null. *)
Definition vm_object_coalesce (prev_object prev_offset prev_size next_size : Z) : OM bool :=
  if prev_object =? VM_OBJECT_NULL then mret true
  else
    vm_object_collapse prev_object;;
    x ← object_at prev_object;
    if (1 <? ob_ref_count x) || pager_created x || negb (ob_shadow x =? VM_OBJECT_NULL) ||
       negb (ob_copy x =? VM_OBJECT_NULL) || negb (paging_in_progress x =? 0) then mret false
    else
      let newsize := u32 (prev_offset + prev_size + next_size) in
      vm_object_page_remove prev_object (u32 (prev_offset + prev_size)) newsize;;
      x ← object_at prev_object;
      when (ob_size x <? newsize) (update_object prev_object (with_size newsize));;
      mret true.

(** ** What the maps read *)

(** The conditions of [vm_map_submap] on the object. *)
Definition object_unused (o : Z) : OM bool :=
  x ← object_at o;
  mret ((resident_page_count x =? 0) && (ob_copy x =? VM_OBJECT_NULL) && (ob_shadow x =? VM_OBJECT_NULL) &&
        negb (pager_created x)).

Definition object_refs (o : Z) : OM Z := x ← object_at o; mret (ob_ref_count x).

(** [while (object->shadow != VM_OBJECT_NULL)] *)
Fixpoint last_shadow (fuel : nat) (o : Z) : OM Z :=
  x ← object_at o;
  if ob_shadow x =? VM_OBJECT_NULL then mret o
  else match fuel with O => crash | S fuel => last_shadow fuel (ob_shadow x) end.

Definition vm_object_name (o : Z) : OM Z :=
  if o =? VM_OBJECT_NULL then mret IP_NULL
  else
    n ← gets (fun s => size (ob_objects s));
    o ← last_shadow n o;
    x ← object_at o;
    when (negb (pager_name x =? IP_NULL)) (object_event_log (MakeSend (pager_name x)));;
    mret (pager_name x).

Definition object_ops : ObjectOps objects := {|
  vo_reference := vm_object_reference;
  vo_deallocate := vm_object_deallocate;
  vo_allocate := vm_object_allocate;
  vo_shadow := vm_object_shadow;
  vo_coalesce := vm_object_coalesce;
  vo_unused := object_unused;
  vo_refs := object_refs;
  vo_name := vm_object_name
|}.
End object.
