(* ===== verification/VmObjectInv.v ===== *)
(** * Memory objects: the counts of references

    [obj_inv v s k G]: every object has as many references as its count says,
    those in [G] that are held from outside and those of the objects that
    shadow it; the chains of shadows end; an object without references is in
    the cache, and [v] is the one that is being released.  No page moves: no
    paging is in progress. *)

From S2P Require Import Prelude Names Splay Table Space Hash Entry World Vm VmMap VmRing VmOwn VmObject.

(** ** Gathering from all objects *)

Definition gather (f : vm_object -> list Z) (m : gmap Z vm_object) : list Z := map_to_list m ≫= fun ox => f ox.2.

Definition edges : gmap Z vm_object -> list Z := gather (fun x => held (ob_shadow x)).
Definition page_addrs : gmap Z vm_object -> list Z := gather (fun x => pg_addr <$> memq x).

Lemma gather_insert_fresh f m o x : m !! o = None -> gather f (<[o := x]> m) ≡ₚ f x ++ gather f m.
Proof. intros Ho. unfold gather. rewrite map_to_list_insert by done. done. Qed.

Lemma gather_delete f m o x : m !! o = Some x -> gather f m ≡ₚ f x ++ gather f (delete o m).
Proof. intros Ho. rewrite <- (insert_delete_id m o x Ho) at 1. apply gather_insert_fresh. apply lookup_delete_eq. Qed.

Lemma gather_insert f m o x : gather f (<[o := x]> m) ≡ₚ f x ++ gather f (delete o m).
Proof. rewrite <- insert_delete_eq. apply gather_insert_fresh. apply lookup_delete_eq. Qed.

Lemma gather_same f m o x x' : m !! o = Some x -> f x' = f x -> gather f (<[o := x']> m) ≡ₚ gather f m.
Proof. intros Ho Hf. by rewrite gather_insert, Hf, <- gather_delete. Qed.

Lemma edges_delete m o x : m !! o = Some x -> edges m ≡ₚ held (ob_shadow x) ++ edges (delete o m).
Proof. apply (gather_delete (fun x => held (ob_shadow x))). Qed.

Lemma elem_of_gather f m z : z ∈ gather f m <-> exists o x, m !! o = Some x /\ z ∈ f x.
Proof.
  unfold gather. rewrite list_elem_of_bind. split.
  - intros ([o x] & Hz & Hm). exists o, x. by apply elem_of_map_to_list in Hm.
  - intros (o & x & Hm & Hz). exists (o, x). by rewrite elem_of_map_to_list.
Qed.

Definition count (o : Z) (T : list Z) : nat := count_occ Z.eq_dec T o.
Arguments count : simpl never.

Lemma count_cons o z T : count o (z :: T) = ((if decide (z = o) then 1 else 0) + count o T)%nat.
Proof. unfold count. simpl. by destruct (Z.eq_dec z o), (decide (z = o)). Qed.

Lemma count_perm o T T' : T ≡ₚ T' -> count o T = count o T'.
Proof. intros HT. by apply (proj1 (Permutation_count_occ Z.eq_dec T T')). Qed.

Lemma count_app o T T' : count o (T ++ T') = (count o T + count o T')%nat.
Proof. apply count_occ_app. Qed.

Lemma count_elem o T : o ∈ T <-> (0 < count o T)%nat.
Proof. rewrite list_elem_of_In. unfold count. rewrite (count_occ_In Z.eq_dec). lia. Qed.

Lemma count_length o T : (count o T <= length T)%nat.
Proof. unfold count. induction T as [|x T IH]; simpl; [lia|]. destruct (Z.eq_dec x o); lia. Qed.

Lemma count_held o x : count o (held x) = if decide (x = o /\ x <> VM_OBJECT_NULL) then 1%nat else 0%nat.
Proof.
  unfold count, held. destruct (Z.eqb_spec x VM_OBJECT_NULL); simpl; destruct (decide _); try tauto;
    destruct (Z.eq_dec x o); tauto.
Qed.

Lemma elem_of_held o x : o ∈ held x <-> o = x /\ x <> VM_OBJECT_NULL.
Proof.
  unfold held. destruct (Z.eqb_spec x VM_OBJECT_NULL) as [->|Hx]; [|rewrite list_elem_of_singleton; tauto].
  split; [by intros ?%elem_of_nil|tauto].
Qed.

(** ** Chains of shadows *)

Inductive chain (m : gmap Z vm_object) : Z -> list Z -> Prop :=
| chain_end : chain m VM_OBJECT_NULL []
| chain_step o x l : o <> VM_OBJECT_NULL -> m !! o = Some x -> chain m (ob_shadow x) l -> chain m o (o :: l).

Lemma chain_det m o l l' : chain m o l -> chain m o l' -> l = l'.
Proof.
  intros Hc. revert l'. induction Hc as [|o x l Ho Hm Hc IH]; intros l' Hc'; inversion Hc'; subst; try done.
  f_equal. apply IH. congruence.
Qed.

Lemma chain_from m o l z : chain m o l -> z ∈ l -> exists l', chain m z l' /\ (length l' <= length l)%nat.
Proof.
  induction 1 as [|o x l Ho Hm Hc IH]; [by intros ?%elem_of_nil|]. intros [->|Hz]%elem_of_cons.
  - exists (o :: l). split; [by econstructor|done].
  - destruct (IH Hz) as (l' & ? & ?). exists l'. split; [done|simpl; lia].
Qed.

Lemma chain_nodup m o l : chain m o l -> NoDup l.
Proof.
  induction 1 as [|o x l Ho Hm Hc IH]; constructor; [|done]. intros Hin.
  destruct (chain_from _ _ _ _ Hc Hin) as (l' & Hc' & Hlen).
  assert (Hd : chain m o (o :: l)) by (by econstructor). rewrite (chain_det _ _ _ _ Hc' Hd) in Hlen. simpl in Hlen. lia.
Qed.

Lemma chain_dom m o l z : chain m o l -> z ∈ l -> z ∈ dom m.
Proof.
  induction 1 as [|o x l Ho Hm Hc IH]; [by intros ?%elem_of_nil|]. intros [->|Hz]%elem_of_cons; [|by apply IH].
  by apply elem_of_dom_2 in Hm.
Qed.

Lemma chain_length m o l : chain m o l -> (length l <= size m)%nat.
Proof.
  intros Hc. rewrite <- size_dom. rewrite <- (size_list_to_set (C := gset Z) l) by (by eapply chain_nodup).
  apply subseteq_size. intros z Hz. apply elem_of_list_to_set in Hz. by eapply chain_dom.
Qed.

(** The chains only depend on the shadows along them. *)
Lemma chain_agree m m' o l :
  chain m o l -> (forall z x, z ∈ l -> m !! z = Some x -> exists x', m' !! z = Some x' /\ ob_shadow x' = ob_shadow x) ->
  chain m' o l.
Proof.
  induction 1 as [|o x l Ho Hm Hc IH]; intros Hag; [constructor|].
  destruct (Hag o x ltac:(by left) Hm) as (x' & Hm' & Hs). econstructor; [done|exact Hm'|]. rewrite Hs. apply IH.
  intros z y Hz Hy. apply Hag; [by right|done].
Qed.

Definition chains (m : gmap Z vm_object) : Prop :=
  forall o x, m !! o = Some x -> o <> VM_OBJECT_NULL /\ exists l, chain m o l.

Lemma chains_shadow m o x : chains m -> m !! o = Some x -> exists l, chain m (ob_shadow x) l /\ o ∉ l.
Proof.
  intros Hc Ho. destruct (Hc o x Ho) as [Hne [l Hl]]. pose proof (chain_nodup _ _ _ Hl) as Hnd.
  inversion Hl as [|o' x' l' _ Ho' Hl']; subst; [done|]. rewrite Ho in Ho'. inversion Ho'; subst.
  apply NoDup_cons in Hnd as [Hnd _]. by exists l'.
Qed.

(** An object that shadows the object [o] or nothing. *)
Lemma chains_fresh m o x : chains m -> m !! o = None -> o <> VM_OBJECT_NULL ->
  (ob_shadow x = VM_OBJECT_NULL \/ is_Some (m !! ob_shadow x)) -> chains (<[o := x]> m).
Proof.
  intros Hc Ho Hne Hx.
  assert (Hold : forall z l, chain m z l -> chain (<[o := x]> m) z l).
  { intros z l Hz. eapply chain_agree; [exact Hz|]. intros w y Hw Hy. exists y. split; [|done].
    rewrite lookup_insert_ne; [done|]. intros ->. congruence. }
  assert (Hnew : exists l, chain m (ob_shadow x) l).
  { destruct Hx as [->|[y Hy]]; [exists []; constructor|by apply (Hc _ _ Hy)]. }
  intros z y Hz. destruct (decide (z = o)) as [->|Hzo].
  - rewrite lookup_insert_eq in Hz. inversion Hz; subst. split; [done|]. destruct Hnew as [l Hl]. exists (o :: l).
    econstructor; [done|apply lookup_insert_eq|by apply Hold].
  - rewrite lookup_insert_ne in Hz by done. destruct (Hc z y Hz) as [? [l Hl]]. split; [done|]. exists l. by apply Hold.
Qed.

Lemma chains_same m o x x' : chains m -> m !! o = Some x -> ob_shadow x' = ob_shadow x -> chains (<[o := x']> m).
Proof.
  intros Hc Ho Hs z y Hz. assert (Hy : exists y', m !! z = Some y').
  { destruct (decide (z = o)) as [->|Hne]; [by exists x|]. rewrite lookup_insert_ne in Hz by done. by exists y. }
  destruct Hy as [y' Hy']. destruct (Hc z y' Hy') as [? [l Hl]]. split; [done|]. exists l.
  eapply chain_agree; [exact Hl|]. intros w v Hw Hv. destruct (decide (w = o)) as [->|Hne].
  - exists x'. rewrite lookup_insert_eq. by simplify_eq.
  - exists v. by rewrite lookup_insert_ne.
Qed.

(** An object nobody shadows goes away. *)
Lemma chains_delete m o : chains m -> o ∉ edges m -> chains (delete o m).
Proof.
  intros Hc Hno z y Hz. apply lookup_delete_Some in Hz as [Hzo Hz]. destruct (Hc z y Hz) as [Hne [l Hl]].
  split; [done|]. exists l.
  assert (Hout : o ∉ l).
  { clear Hne Hz. induction Hl as [|w x l Hw Hm Hl IH] in y, Hzo |- *; [by intros ?%elem_of_nil|].
    intros [->|Hin]%elem_of_cons; [done|]. destruct (decide (o = ob_shadow x)) as [->|Hne].
    - apply Hno. apply elem_of_gather. exists w, x. split; [done|]. apply elem_of_held. split; [done|].
      intros Hnull. rewrite Hnull in Hl. inversion Hl; subst. by apply elem_of_nil in Hin. done.
    - by apply (IH y). }
  eapply chain_agree; [exact Hl|]. intros w v Hw Hv. exists v. split; [|done]. rewrite lookup_delete_ne; [done|].
  intros ->. done.
Qed.

(** The object [o] shadows [s] instead of [b], which shadows [s]. *)
Lemma chains_skip m o x x' b y : chains m -> m !! o = Some x -> ob_shadow x = b -> m !! b = Some y ->
  ob_shadow x' = ob_shadow y -> chains (<[o := x']> m).
Proof.
  intros Hc Ho Hb Hy Hs z v Hz. assert (Hv : exists v', m !! z = Some v').
  { destruct (decide (z = o)) as [->|Hne]; [by exists x|]. rewrite lookup_insert_ne in Hz by done. by exists v. }
  destruct Hv as [v' Hv']. destruct (Hc z v' Hv') as [Hne [l Hl]]. split; [done|].
  clear Hz Hv' Hne v v'. induction Hl as [|w u l Hw Hu Hl IH]; [exists []; constructor|].
  destruct (decide (w = o)) as [->|Hwo].
  - assert (u = x) as -> by congruence. rewrite Hb in Hl. inversion Hl as [|? y' k ? Hy' Hk]; subst.
    { destruct (Hc _ _ Hy). done. }
    assert (y' = y) as -> by congruence. destruct IH as [l' Hl'].
    destruct (chains_shadow m o x Hc Ho) as (lo & Hlo & Hnin). rewrite (chain_det _ _ _ _ Hlo Hl) in Hnin.
    exists (o :: k). econstructor; [done|apply lookup_insert_eq|]. rewrite Hs. eapply chain_agree; [exact Hk|].
    intros q p Hq Hp. exists p. split; [|done]. rewrite lookup_insert_ne; [done|]. intros ->. apply Hnin. by right.
  - destruct IH as [l' Hl']. exists (w :: l'). econstructor; [done|by rewrite lookup_insert_ne|done].
Qed.

(** ** The invariant *)

Definition page_quiet (p : vm_page) : Prop :=
  pg_busy p = false /\ pg_absent p = false /\ (pg_fictitious p = true -> pg_private p = true).

Record quiet (x : vm_object) : Prop := mk_quiet {
  q_copy : ob_copy x = VM_OBJECT_NULL;
  q_paging : paging_in_progress x = 0;
  q_absent : absent_count x = 0;
  q_pager : pager_created x = true -> pager_initialized x = true /\ ob_pager x <> IP_NULL;
  q_pages : Forall page_quiet (memq x)
}.

Definition port_ok (ports : gmap Z (Z * Z)) (o port type : Z) : Prop := port = IP_NULL \/ ports !! port = Some (type, o).

Record ports_ok (ports : gmap Z (Z * Z)) (o : Z) (x : vm_object) : Prop := mk_ports_ok {
  po_pager : port_ok ports o (ob_pager x) IKOT_PAGER;
  po_request : port_ok ports o (pager_request x) IKOT_PAGER_REQUEST;
  po_name : port_ok ports o (pager_name x) IKOT_PAGING_NAME
}.

Record obj_inv (v : Z) (s : objects) (k : nat) (G : list Z) : Prop := mk_obj_inv {
  oi_count : forall o x, ob_objects s !! o = Some x -> ob_ref_count x = Z.of_nat (count o (G ++ edges (ob_objects s)));
  oi_live : forall o, o ∈ G -> is_Some (ob_objects s !! o);
  oi_chains : chains (ob_objects s);
  oi_quiet : forall o x, ob_objects s !! o = Some x -> quiet x;
  oi_ports : forall o x, ob_objects s !! o = Some x -> ports_ok (ob_ports s) o x;
  oi_room : Z.of_nat (length G + length (edges (ob_objects s)) + k) <= 32767;
  oi_cached : forall o, o ∈ vm_object_cached_list s -> o <> v /\ exists x, ob_objects s !! o = Some x /\ ob_ref_count x = 0;
  oi_cached_nodup : NoDup (vm_object_cached_list s);
  oi_cached_count : vm_object_cached_count s = Z.of_nat (length (vm_object_cached_list s));
  oi_zero : forall o x, ob_objects s !! o = Some x -> ob_ref_count x = 0 -> o = v \/ o ∈ vm_object_cached_list s;
  oi_pages : NoDup (page_addrs (ob_objects s))
}.

Lemma s16_id x : -32768 <= x <= 32767 -> s16 x = x.
Proof. intros Hx. unfold s16. rewrite Z.mod_small; lia. Qed.

Lemma edges_live m o : chains m -> o ∈ edges m -> is_Some (m !! o).
Proof.
  intros Hc (w & x & Hw & Hin)%elem_of_gather. apply elem_of_held in Hin as [-> Hne].
  destruct (chains_shadow m w x Hc Hw) as (l & Hl & _). inversion Hl as [|? y ? ? Hy]; [by rewrite <- H in Hne|]. by exists y.
Qed.

Lemma page_addrs_submseteq m o x x' : m !! o = Some x -> (pg_addr <$> memq x') ⊆+ (pg_addr <$> memq x) ->
  NoDup (page_addrs m) -> NoDup (page_addrs (<[o := x']> m)).
Proof.
  intros Ho Hsub Hnd. unfold page_addrs in *. rewrite (gather_delete _ _ _ _ Ho) in Hnd. rewrite gather_insert.
  apply submseteq_Permutation in Hsub as [k Hk]. rewrite Hk in Hnd. rewrite !NoDup_app in *.
  destruct Hnd as ((? & _ & _) & Hd & ?). split_and!; [done| |done]. intros z Hz. apply Hd. apply elem_of_app. by left.
Qed.

(** One object changes, but not what it shadows. *)
Lemma obj_inv_insert v v' s k k' G G' o x x' :
  obj_inv v s k G -> ob_objects s !! o = Some x -> ob_shadow x' = ob_shadow x -> quiet x' ->
  ob_pager x' = ob_pager x -> pager_request x' = pager_request x -> pager_name x' = pager_name x ->
  (pg_addr <$> memq x') ⊆+ (pg_addr <$> memq x) ->
  ob_ref_count x' = Z.of_nat (count o (G' ++ edges (ob_objects s))) ->
  (forall z, z <> o -> count z G' = count z G) -> (length G' + k' <= length G + k)%nat ->
  (o ∈ vm_object_cached_list s -> ob_ref_count x' = 0 /\ o <> v') ->
  (ob_ref_count x' = 0 -> o = v' \/ o ∈ vm_object_cached_list s) -> (v = VM_OBJECT_NULL \/ v = o) ->
  (v' = VM_OBJECT_NULL \/ v' = o) ->
  obj_inv v' (with_objects (<[o := x']> (ob_objects s)) s) k' G'.
Proof.
  intros [H1 H2 H3 H4 H5 H6 H7 H8 H9 H10 H11] Ho Hs Hq Hp1 Hp2 Hp3 Hpg Hrc Hother Hlen Hc1 Hc2 Hv Hv'.
  assert (He : edges (<[o := x']> (ob_objects s)) ≡ₚ edges (ob_objects s)) by (eapply gather_same; [exact Ho|by rewrite Hs]).
  assert (Hlook : forall z y, <[o := x']> (ob_objects s) !! z = Some y -> (z = o /\ y = x') \/ (z <> o /\ ob_objects s !! z = Some y)).
  { intros z y Hz. destruct (decide (z = o)) as [->|Hne].
    - left. rewrite lookup_insert_eq in Hz. by inversion Hz.
    - right. by rewrite lookup_insert_ne in Hz. }
  destruct (H3 o x Ho) as [Hnull _].
  split; simpl; try done.
  - intros z y Hz. rewrite (count_perm z _ (G' ++ edges (ob_objects s))) by (by rewrite He).
    destruct (Hlook z y Hz) as [[-> ->]|[Hne Hz']]; [done|]. rewrite (H1 z y Hz'), !count_app, Hother; [done|done].
  - intros z Hz. destruct (decide (z = o)) as [->|Hne]; [rewrite lookup_insert_eq; eauto|].
    rewrite lookup_insert_ne by done. apply H2. apply count_elem. rewrite <- Hother by done. by apply count_elem.
  - by eapply chains_same.
  - intros z y Hz. destruct (Hlook z y Hz) as [[-> ->]|[Hne Hz']]; eauto.
  - intros z y Hz. destruct (Hlook z y Hz) as [[-> ->]|[Hne Hz']]; [|eauto].
    destruct (H5 o x Ho). by split; rewrite ?Hp1, ?Hp2, ?Hp3.
  - rewrite (Permutation_length He). lia.
  - intros z Hz. destruct (decide (z = o)) as [->|Hne].
    + destruct (Hc1 Hz). split; [done|]. exists x'. by rewrite lookup_insert_eq.
    + destruct (H7 z Hz) as (? & y & Hy & ?). split.
      * destruct Hv' as [-> | ->]; [|done]. by destruct (H3 z y Hy).
      * exists y. by rewrite lookup_insert_ne.
  - intros z y Hz Hy. destruct (Hlook z y Hz) as [[-> ->]|[Hne Hz']]; [by apply Hc2|].
    destruct (H10 z y Hz' Hy) as [->|]; [|by right]. destruct Hv as [Hv|Hv]; [|done].
    by destruct (H3 v y Hz').
  - by eapply page_addrs_submseteq.
Qed.

(** ** Steps *)

Lemma mwp_object_at o x (s : objects) Q : ob_objects s !! o = Some x -> Q x s -> mwp (object_at o) Q s.
Proof. intros Ho HQ. exists x, s. unfold object_at. by rewrite Ho. Qed.

Lemma mwp_update_object o x f (s : objects) Q :
  ob_objects s !! o = Some x -> Q tt (with_objects (<[o := f x]> (ob_objects s)) s) -> mwp (update_object o f) Q s.
Proof. intros Ho HQ. apply mwp_bind. eapply mwp_object_at; [exact Ho|]. by apply mwp_modify. Qed.

Lemma mwp_kotype port t o (s : objects) Q : ob_ports s !! port = Some (t, o) -> Q t s -> mwp (ip_kotype port) Q s.
Proof. intros Hp HQ. exists t, s. unfold ip_kotype. by rewrite Hp. Qed.

Lemma mwp_kobject_set port o t x (s : objects) Q :
  ob_ports s !! port = Some x -> Q tt (with_port_table (<[port := (t, o)]> (ob_ports s)) s) -> mwp (ipc_kobject_set port o t) Q s.
Proof.
  intros Hp HQ. destruct x as [t' o']. apply mwp_bind. eapply mwp_kotype; [exact Hp|]. by apply mwp_modify.
Qed.

Lemma with_objects_twice m m' s : with_objects m (with_objects m' s) = with_objects m s.
Proof. done. Qed.

Section laws.
Context (env : object_env).
Hypothesis Hzone : forall m, m !! oe_zalloc env m = None /\ oe_zalloc env m <> VM_OBJECT_NULL.
Hypothesis Hport : forall s, ob_ports s !! ipc_port_alloc_kernel env s = None /\ ipc_port_alloc_kernel env s <> IP_NULL.

Abbreviation inv := (obj_inv VM_OBJECT_NULL).

(** ** References *)

Lemma count_room v s k G o : obj_inv v s k G -> Z.of_nat (count o (G ++ edges (ob_objects s)) + k) <= 32767.
Proof. intros [_ _ _ _ _ H _ _ _ _ _]. pose proof (count_length o (G ++ edges (ob_objects s))) as Hl. rewrite length_app in Hl. lia. Qed.

Lemma quiet_ref_count x n : quiet x -> quiet (with_ref_count n x).
Proof. intros []. by split. Qed.

Lemma obj_inv_reference s k G o x :
  inv s (S k) G -> o ∈ G ++ edges (ob_objects s) -> ob_objects s !! o = Some x ->
  inv (with_objects (<[o := with_ref_count (s16 (ob_ref_count x + 1)) x]> (ob_objects s)) s) k (o :: G).
Proof.
  intros Hi Hin Ho. pose proof (oi_count _ _ _ _ Hi o x Ho) as Hc. pose proof (count_room _ _ _ _ o Hi) as Hr.
  apply count_elem in Hin. rewrite count_app in Hc, Hr, Hin.
  assert (Hn : s16 (ob_ref_count x + 1) = Z.of_nat (count o ((o :: G) ++ edges (ob_objects s)))).
  { rewrite s16_id by lia. rewrite count_app, count_cons, Hc, decide_True by done. lia. }
  eapply (obj_inv_insert VM_OBJECT_NULL VM_OBJECT_NULL _ (S k) k G (o :: G)); [done|exact Ho|done| |done..|exact Hn| |simpl; lia| | |by left|by left].
  - apply quiet_ref_count, (oi_quiet _ _ _ _ Hi _ _ Ho).
  - intros z Hz. by rewrite count_cons, decide_False.
  - intros Hca. destruct (oi_cached _ _ _ _ Hi o Hca) as (_ & y & Hy & Hy0). simplify_eq. lia.
  - intros H0. cbn in H0. rewrite s16_id in H0 by lia. lia.
Qed.

Lemma reference_law s k G o :
  inv s (S k) G -> o <> VM_OBJECT_NULL -> o ∈ G -> mwp (vm_object_reference o) (fun _ s' => inv s' k (o :: G)) s.
Proof.
  intros Hi Hne Hin. destruct (oi_live _ _ _ _ Hi o Hin) as [x Ho]. unfold vm_object_reference.
  rewrite (proj2 (Z.eqb_neq _ _) Hne). eapply mwp_update_object; [exact Ho|].
  eapply obj_inv_reference; [done|apply elem_of_app; by left|done].
Qed.

(** ** New objects *)

Definition with_new (o port : Z) (x : vm_object) (s : objects) : objects :=
  mk_objects (<[o := x]> (ob_objects s)) (<[port := (IKOT_PAGING_NAME, o)]> (ob_ports s)) (vm_object_cached_list s)
    (vm_object_cached_count s) (ob_events s).

Lemma allocate_spec s size Q :
  (forall o port, ob_objects s !! o = None -> o <> VM_OBJECT_NULL -> ob_ports s !! port = None ->
     Q o (with_new o port (with_name port (with_size size vm_object_template)) s)) ->
  mwp (vm_object_allocate env size) Q s.
Proof.
  intros HQ. destruct (Hzone (ob_objects s)) as [Ho Hne]. set (o := oe_zalloc env (ob_objects s)) in *.
  apply mwp_bind. apply mwp_bind, mwp_gets. apply mwp_bind, mwp_modify. apply mwp_ret. fold o.
  set (s1 := with_objects _ s). apply mwp_bind, mwp_gets. destruct (Hport s1) as [Hp Hpn].
  set (port := ipc_port_alloc_kernel env s1) in *. rewrite (proj2 (Z.eqb_neq _ _) Hpn).
  apply mwp_bind, mwp_modify. apply mwp_bind. eapply mwp_update_object; [apply lookup_insert_eq|].
  apply mwp_bind. eapply mwp_kobject_set; [apply lookup_insert_eq|]. apply mwp_ret.
  specialize (HQ o port Ho Hne Hp). unfold with_new in HQ. unfold with_port_table, with_objects. simpl.
  by rewrite !insert_insert_eq.
Qed.

Lemma obj_inv_new s k G o port x src :
  inv s (S k) (held src ++ G) -> ob_objects s !! o = None -> o <> VM_OBJECT_NULL -> ob_ports s !! port = None ->
  ob_ref_count x = 1 -> ob_shadow x = src -> quiet x -> ob_pager x = IP_NULL -> pager_request x = IP_NULL ->
  pager_name x = port -> memq x = [] -> inv (with_new o port x s) k (o :: G).
Proof.
  intros [H1 H2 H3 H4 H5 H6 H7 H8 H9 H10 H11] Ho Hne Hp Hrc Hs Hq Hp1 Hp2 Hp3 Hm.
  assert (Hlook : forall z y, <[o := x]> (ob_objects s) !! z = Some y -> (z = o /\ y = x) \/ (z <> o /\ ob_objects s !! z = Some y)).
  { intros z y Hz. destruct (decide (z = o)) as [->|Hzo].
    - left. rewrite lookup_insert_eq in Hz. by inversion Hz.
    - right. by rewrite lookup_insert_ne in Hz. }
  assert (He : edges (<[o := x]> (ob_objects s)) ≡ₚ held src ++ edges (ob_objects s)).
  { unfold edges. rewrite gather_insert_fresh by done. by rewrite Hs. }
  assert (HT : o :: G ++ edges (<[o := x]> (ob_objects s)) ≡ₚ o :: (held src ++ G) ++ edges (ob_objects s)).
  { rewrite He, app_assoc. by rewrite (Permutation_app_comm G). }
  assert (Hfresh : count o ((held src ++ G) ++ edges (ob_objects s)) = 0%nat).
  { destruct (count o _) eqn:Hc; [done|]. assert (Hin : o ∈ (held src ++ G) ++ edges (ob_objects s)) by (apply count_elem; lia).
    apply elem_of_app in Hin as [Hin|Hin]; [destruct (H2 o Hin)|destruct (edges_live _ _ H3 Hin)]; congruence. }
  split; simpl; try done.
  - intros z y Hz. rewrite (count_perm z _ _ HT), count_cons.
    destruct (Hlook z y Hz) as [[-> ->]|[Hzo Hz']].
    + by rewrite Hfresh, decide_True.
    + rewrite decide_False by done. by apply H1.
  - intros z [->|Hz]%elem_of_cons; [rewrite lookup_insert_eq; eauto|].
    destruct (H2 z) as [y Hy]; [apply elem_of_app; by right|]. rewrite lookup_insert_ne by congruence. eauto.
  - apply chains_fresh; [done..|]. rewrite Hs. destruct (decide (src = VM_OBJECT_NULL)) as [|Hsn]; [by left|right].
    apply H2. apply elem_of_app. left. by apply elem_of_held.
  - intros z y Hz. destruct (Hlook z y Hz) as [[-> ->]|[? Hz']]; eauto.
  - intros z y Hz. assert (Hkeep : forall q t, port_ok (ob_ports s) z q t -> port_ok (<[port := (IKOT_PAGING_NAME, o)]> (ob_ports s)) z q t).
    { intros q t [->|Hq']; [by left|right]. rewrite lookup_insert_ne; [done|congruence]. }
    destruct (Hlook z y Hz) as [[-> ->]|[? Hz']].
    + split; [by left|by left|right]. rewrite Hp3. apply lookup_insert_eq.
    + destruct (H5 z y Hz'). split; by apply Hkeep.
  - rewrite (Permutation_length He). rewrite !length_app in *. lia.
  - intros z Hz. destruct (H7 z Hz) as (? & y & Hy & ?). split; [done|]. exists y. rewrite lookup_insert_ne by congruence. done.
  - intros z y Hz Hy. destruct (Hlook z y Hz) as [[-> ->]|[? Hz']]; [lia|eauto].
  - unfold page_addrs. rewrite gather_insert_fresh by done. by rewrite Hm.
Qed.

Lemma allocate_law s k G size :
  inv s (S k) G -> mwp (vm_object_allocate env size) (fun o s' => o <> VM_OBJECT_NULL /\ (o ∉ G) /\ inv s' k (o :: G)) s.
Proof.
  intros Hi. apply allocate_spec. intros o port Ho Hne Hp. split_and!; [done| |].
  - intros Hin. destruct (oi_live _ _ _ _ Hi o Hin). congruence.
  - by eapply (obj_inv_new _ _ _ _ _ _ VM_OBJECT_NULL).
Qed.

Lemma shadow_law s k G o offset length :
  inv s (S k) (held o ++ G) ->
  mwp (vm_object_shadow env o offset length)
    (fun r s' => r.1 <> VM_OBJECT_NULL /\ (r.1 ∉ G) /\ r.2 = 0 /\ inv s' k (r.1 :: G)) s.
Proof.
  intros Hi. apply mwp_bind, allocate_spec. intros a port Ha Hne Hp. rewrite (proj2 (Z.eqb_neq _ _) Hne).
  apply mwp_bind. eapply mwp_update_object; [apply lookup_insert_eq|]. apply mwp_ret. cbn [fst snd]. split_and!; [done| |done|].
  - intros Hin. destruct (oi_live _ _ _ _ Hi a); [apply elem_of_app; by right|]. congruence.
  - unfold with_objects, with_new. cbn [ob_objects ob_ports vm_object_cached_list vm_object_cached_count ob_events].
    rewrite insert_insert_eq. by eapply (obj_inv_new _ _ _ _ _ _ o).
Qed.
End laws.
