(* ===== verification/VmObjectFree.v ===== *)
(** * Memory objects: releasing a reference

    [vm_object_terminate] takes an object away with its pages and ports;
    [vm_object_deallocate] releases one reference, and with the last one of an
    object the reference to what it shadows. *)

From S2P Require Import Prelude Names Splay Table Space Hash Entry World Vm VmMap VmRing VmOwn VmObject VmObjectInv.

(** What an operation on the object [v] leaves alone. *)
Record touches (v : Z) (x : vm_object) (s s' : objects) : Prop := mk_touches {
  to_objects : exists x', ob_objects s' = <[v := x']> (ob_objects s) /\ ob_shadow x' = ob_shadow x /\
    ob_pager x' = ob_pager x /\ pager_request x' = pager_request x /\ pager_name x' = pager_name x;
  to_ports : ob_ports s' = ob_ports s;
  to_cached : vm_object_cached_list s' = vm_object_cached_list s;
  to_count : vm_object_cached_count s' = vm_object_cached_count s
}.

Lemma touches_refl v x s : ob_objects s !! v = Some x -> touches v x s s.
Proof. intros Hv. split; try done. exists x. by rewrite insert_id. Qed.

Lemma touches_step v x s s' s'' x' : touches v x s s' -> ob_objects s' !! v = Some x' -> touches v x' s' s'' -> touches v x s s''.
Proof.
  intros [(y & Hy & Hy1 & Hy2 & Hy3 & Hy4) P C N] Hx' [(z & Hz & Hz1 & Hz2 & Hz3 & Hz4) P' C' N'].
  rewrite Hy, lookup_insert_eq in Hx'. inversion Hx'; subst. split; [|congruence..]. exists z.
  rewrite Hz, Hy, insert_insert_eq. split_and!; congruence.
Qed.

Definition without (p : vm_page) (l : list vm_page) : list vm_page := List.filter (fun q => negb (pg_addr q =? pg_addr p)) l.

Lemma without_head p l : without p (p :: l) = without p l.
Proof. unfold without. simpl. by rewrite Z.eqb_refl. Qed.

Lemma without_length p l : (length (without p l) <= length l)%nat.
Proof. apply List.filter_length_le. Qed.

Lemma without_submseteq p l : without p l ⊆+ l.
Proof. unfold without. induction l as [|q l IH]; simpl; [done|]. destruct (negb _); by constructor. Qed.

Lemma without_forall (P : vm_page -> Prop) p l : Forall P l -> Forall P (without p l).
Proof. rewrite !Forall_forall. intros Hl q Hq. apply Hl. by apply (elem_of_submseteq _ _ _ Hq), without_submseteq. Qed.

Lemma remove_step v x p s Q :
  ob_objects s !! v = Some x ->
  Q tt (with_objects (<[v := with_resident (s16 (resident_page_count x - 1)) (with_memq (without p (memq x)) x)]> (ob_objects s)) s) ->
  mwp (vm_page_remove v p) Q s.
Proof. intros Hv HQ. by eapply mwp_update_object. Qed.

(** A page that is not absent is freed. *)
Lemma free_step v x p s Q :
  ob_objects s !! v = Some x -> pg_absent p = false ->
  (forall s', touches v x s s' ->
     ob_objects s' !! v = Some (with_resident (s16 (resident_page_count x - 1)) (with_memq (without p (memq x)) x)) -> Q tt s') ->
  mwp (vm_page_free v p) Q s.
Proof.
  intros Hv Ha HQ. unfold vm_page_free. apply mwp_bind. eapply remove_step; [exact Hv|]. apply mwp_bind, mwp_modify.
  rewrite Ha. apply mwp_ret. apply HQ.
  - split; try done. eexists. split; [done|]. done.
  - apply lookup_insert_eq.
Qed.

Section free.
Context (env : object_env).

Abbreviation inv := (obj_inv VM_OBJECT_NULL).

Lemma terminate_page_step v x p s Q :
  ob_objects s !! v = Some x -> page_quiet p ->
  (forall s', touches v x s s' ->
     ob_objects s' !! v = Some (with_resident (s16 (resident_page_count x - 1)) (with_memq (without p (memq x)) x)) -> Q tt s') ->
  mwp (terminate_page env v p) Q s.
Proof.
  intros Hv (Hb & Ha & Hf) HQ. unfold terminate_page. rewrite Ha. cbn [orb].
  destruct (pg_private p) eqn:Hp; [by eapply free_step|]. destruct (pg_fictitious p); [by specialize (Hf eq_refl)|].
  destruct (_ || _); [|by eapply free_step].
  apply mwp_bind. eapply mwp_object_at; [exact Hv|]. apply mwp_bind. eapply remove_step; [exact Hv|].
  apply mwp_modify. apply HQ; [|apply lookup_insert_eq]. split; try done. eexists. split; [done|]. done.
Qed.

Lemma terminate_pages_spec kept fuel v x s Q :
  ob_objects s !! v = Some x -> Forall page_quiet (memq x) -> (length (memq x) <= fuel)%nat ->
  (forall s', touches v x s s' -> Q tt s') -> mwp (terminate_pages env fuel kept v) Q s.
Proof.
  revert x s. induction fuel as [|fuel IH]; intros x s Hv Hq Hlen HQ; cbn [terminate_pages]; apply mwp_bind;
    (eapply mwp_object_at; [exact Hv|]); destruct (memq x) as [|p l] eqn:Hm; try (simpl in Hlen; lia);
    try (apply mwp_ret, HQ; by apply touches_refl).
  inversion Hq as [|? ? Hp Hl]; subst. pose proof Hp as (Hb & Ha & Hf). rewrite Hb. cbn [andb]. apply mwp_bind.
  assert (Hnext : forall s', touches v x s s' ->
     ob_objects s' !! v = Some (with_resident (s16 (resident_page_count x - 1)) (with_memq (without p (memq x)) x)) ->
     mwp (terminate_pages env fuel kept v) Q s').
  { intros s' Ht Hv'. rewrite Hm, without_head in Hv'. eapply IH; [exact Hv'| | |].
    - simpl. by apply without_forall.
    - simpl. pose proof (without_length p l). simpl in Hlen. lia.
    - intros s'' Ht'. apply HQ. by eapply touches_step. }
  destruct kept; [by eapply terminate_page_step|by eapply free_step].
Qed.

(** ** Ports *)

Lemma detach_spec port type new o s Q :
  port_ok (ob_ports s) o port type ->
  (forall ports, (forall q, q <> port -> ports !! q = ob_ports s !! q) ->
     (forall q t, t <> type -> port_ok (ob_ports s) o q t -> port_ok ports o q t) -> Q tt (with_port_table ports s)) ->
  mwp (detach_port port type new) Q s.
Proof.
  intros Hp HQ. unfold detach_port. destruct (Z.eqb_spec port IP_NULL) as [->|Hne].
  - apply mwp_ret. destruct s. by apply HQ.
  - destruct Hp as [|Hp]; [done|]. apply mwp_bind. eapply mwp_kotype; [exact Hp|]. rewrite Z.eqb_refl.
    eapply mwp_kobject_set; [exact Hp|]. apply HQ.
    + intros q Hq. by rewrite lookup_insert_ne.
    + intros q t Ht [->|Hq]; [by left|right]. rewrite lookup_insert_ne; [done|]. congruence.
Qed.

Definition ports_of (x : vm_object) : list Z := [ob_pager x; pager_request x; pager_name x].

Lemma object_remove_spec o x s Q :
  ob_objects s !! o = Some x -> ports_ok (ob_ports s) o x ->
  (forall ports, (forall q, q ∉ ports_of x -> ports !! q = ob_ports s !! q) -> Q tt (with_port_table ports s)) ->
  mwp (vm_object_remove o) Q s.
Proof.
  intros Ho [Hp1 Hp2 Hp3] HQ. apply mwp_bind. eapply mwp_object_at; [exact Ho|].
  apply mwp_bind. eapply detach_spec; [exact Hp1|]. intros ports1 Hq1 Hk1.
  apply mwp_bind. eapply detach_spec; [by apply Hk1|]. intros ports2 Hq2 Hk2.
  eapply detach_spec; [by apply Hk2, Hk1|]. intros ports3 Hq3 _. cbn [ob_ports with_port_table] in *.
  apply (HQ ports3). intros q Hq. unfold ports_of in Hq. rewrite !not_elem_of_cons in Hq. destruct Hq as (? & ? & ? & _).
  by rewrite Hq3, Hq2, Hq1.
Qed.

(** ** Termination *)

(** The object is gone, its ports no longer stand for it, and nothing else has
    changed. *)
Record terminated (v : Z) (x : vm_object) (s s' : objects) : Prop := mk_terminated {
  tm_objects : ob_objects s' = delete v (ob_objects s);
  tm_ports : forall q, q ∉ ports_of x -> ob_ports s' !! q = ob_ports s !! q;
  tm_cached : vm_object_cached_list s' = vm_object_cached_list s;
  tm_count : vm_object_cached_count s' = vm_object_cached_count s
}.

Lemma with_copy_same x : ob_copy x = VM_OBJECT_NULL -> with_copy VM_OBJECT_NULL x = x.
Proof. intros H. destruct x. simpl in *. by subst. Qed.

Lemma paging_wait_spec waits o x s Q : ob_objects s !! o = Some x -> paging_in_progress x = 0 -> Q tt s ->
  mwp (vm_object_paging_wait env waits o) Q s.
Proof.
  intros Ho Hp HQ. destruct waits; cbn [vm_object_paging_wait]; apply mwp_bind; (eapply mwp_object_at; [exact Ho|]);
    rewrite Hp; by apply mwp_ret.
Qed.

Lemma terminate_spec v x s Q :
  ob_objects s !! v = Some x -> quiet x -> ports_ok (ob_ports s) v x ->
  (ob_shadow x <> VM_OBJECT_NULL -> ob_shadow x <> v /\ exists y, ob_objects s !! ob_shadow x = Some y /\ quiet y) ->
  (forall s', terminated v x s s' -> Q tt s') -> mwp (vm_object_terminate env v) Q s.
Proof.
  intros Hv Hq Hp Hs HQ. unfold vm_object_terminate. apply mwp_bind. eapply mwp_update_object; [exact Hv|].
  set (s1 := with_objects _ s). assert (Hv1 : ob_objects s1 !! v = Some (with_alive false x)) by apply lookup_insert_eq.
  apply mwp_bind. eapply object_remove_spec; [exact Hv1|by destruct Hp|]. intros ports Hports.
  set (s2 := with_port_table ports s1). apply mwp_bind. eapply mwp_object_at; [exact Hv1|]. apply mwp_bind.
  assert (Hcopy : mwp (when (negb (ob_shadow (with_alive false x) =? VM_OBJECT_NULL))
    (update_object (ob_shadow (with_alive false x)) (with_copy VM_OBJECT_NULL))) (fun _ s' => s' = s2) s2).
  { apply mwp_when. destruct (Z.eqb_spec (ob_shadow (with_alive false x)) VM_OBJECT_NULL) as [|Hne]; [done|]. cbn [negb].
    destruct (Hs Hne) as (Hsv & y & Hy & [Hc _ _ _ _]).
    assert (Hy2 : ob_objects s2 !! ob_shadow (with_alive false x) = Some y) by (simpl; by rewrite lookup_insert_ne).
    eapply mwp_update_object; [exact Hy2|]. rewrite (with_copy_same y Hc), insert_id by exact Hy2. by destruct s. }
  eapply mwp_mono; [exact Hcopy|]. intros [] s' ->.
  apply mwp_bind. eapply (paging_wait_spec _ _ (with_alive false x)); [exact Hv1|apply (q_paging _ Hq)|].
  apply mwp_bind. eapply (mwp_object_at _ (with_alive false x)); [exact Hv1|].
  apply mwp_bind. eapply (terminate_pages_spec _ _ _ (with_alive false x)); [exact Hv1|apply (q_pages _ Hq)|done|].
  intros s3 [(x' & Hx' & Hx1 & Hx2 & Hx3 & Hx4) P3 C3 N3].
  apply mwp_bind. eapply mwp_object_at; [rewrite Hx'; apply lookup_insert_eq|].
  assert (Hdel : delete v (ob_objects s3) = delete v (ob_objects s)).
  { rewrite Hx'. simpl. by rewrite insert_insert_eq, delete_insert_eq. }
  apply mwp_bind. destruct (negb (ob_pager x' =? IP_NULL)).
  - apply mwp_modify, mwp_modify, HQ. split; simpl; [done| |done..]. intros q Hq'. rewrite P3. simpl. by apply Hports.
  - apply mwp_when. destruct (negb (pager_name x' =? IP_NULL)).
    + apply mwp_bind, mwp_modify, mwp_modify, mwp_modify, HQ. split; simpl; [done| |done..].
      intros q Hq'. rewrite lookup_delete_ne, P3; [by apply Hports|]. intros <-. apply Hq'. rewrite Hx4.
      unfold ports_of. rewrite !elem_of_cons. tauto.
    + apply mwp_modify, HQ. split; simpl; [done| |done..]. intros q Hq'. rewrite P3. simpl. by apply Hports.
Qed.

(** ** The invariant *)

Lemma obj_inv_ext v s s' k G :
  ob_objects s' = ob_objects s -> ob_ports s' = ob_ports s -> vm_object_cached_list s' = vm_object_cached_list s ->
  vm_object_cached_count s' = vm_object_cached_count s -> obj_inv v s k G -> obj_inv v s' k G.
Proof. intros E1 E2 E3 E4 []. by split; rewrite ?E1, ?E2, ?E3, ?E4. Qed.

Lemma obj_inv_terminated v x s s' k G :
  obj_inv v s k G -> ob_objects s !! v = Some x -> ob_ref_count x = 0 -> terminated v x s s' ->
  inv s' k (held (ob_shadow x) ++ G).
Proof.
  intros [H1 H2 H3 H4 H5 H6 H7 H8 H9 H10 H11] Hv Hz [T1 T2 T3 T4].
  assert (He : edges (ob_objects s) ≡ₚ held (ob_shadow x) ++ edges (delete v (ob_objects s))) by (by apply edges_delete).
  assert (HT : (held (ob_shadow x) ++ G) ++ edges (delete v (ob_objects s)) ≡ₚ G ++ edges (ob_objects s)).
  { rewrite He. rewrite !app_assoc. by rewrite (Permutation_app_comm G). }
  assert (Hno : v ∉ G ++ edges (ob_objects s)).
  { intros Hin%count_elem. rewrite (H1 v x Hv) in Hz. lia. }
  rewrite elem_of_app in Hno. destruct (H3 v x Hv) as [Hnull _].
  split; rewrite ?T1, ?T3, ?T4; try done.
  - intros z y Hzy. apply lookup_delete_Some in Hzy as [_ Hzy]. by rewrite (count_perm _ _ _ HT), <- (H1 z y Hzy).
  - intros z Hz'. assert (is_Some (ob_objects s !! z) /\ z <> v) as [Hl Hzv]; [|by rewrite lookup_delete_ne].
    apply elem_of_app in Hz' as [Hz'|Hz'].
    + assert (z ∈ edges (ob_objects s)) by (rewrite He; apply elem_of_app; by left).
      split; [by apply edges_live|]. intros ->. tauto.
    + split; [by apply H2|]. intros ->. tauto.
  - apply chains_delete; [done|tauto].
  - intros z y Hzy. apply lookup_delete_Some in Hzy as [_ Hzy]. eauto.
  - intros z y Hzy. apply lookup_delete_Some in Hzy as [Hzv Hzy]. destruct (H5 z y Hzy) as [P1 P2 P3].
    destruct (H5 v x Hv) as [X1 X2 X3].
    assert (Hkeep : forall q t, port_ok (ob_ports s) z q t -> port_ok (ob_ports s') z q t).
    { intros q t [->|Hq]; [by left|]. destruct (decide (q = IP_NULL)) as [->|Hqn]; [by left|right]. rewrite T2; [done|].
      unfold ports_of. rewrite !not_elem_of_cons. unfold port_ok in *. split_and!; [..|apply not_elem_of_nil]; intros ->;
        [destruct X1|destruct X2|destruct X3]; congruence. }
    split; by apply Hkeep.
  - apply Permutation_length in HT. rewrite !length_app in HT. rewrite length_app. lia.
  - intros z Hz'. destruct (H7 z Hz') as (Hzv & y & Hy & Hy0). split; [by destruct (H3 z y Hy)|].
    exists y. by rewrite lookup_delete_ne.
  - intros z y Hzy Hy0. apply lookup_delete_Some in Hzy as [Hzv Hzy]. destruct (H10 z y Hzy Hy0); [done|by right].
  - unfold page_addrs in *. rewrite (gather_delete _ _ _ _ Hv) in H11. by apply NoDup_app in H11 as (_ & _ & ?).
Qed.

Lemma obj_inv_counted v x s k G : obj_inv v s k G -> ob_objects s !! v = Some x -> ob_ref_count x <> 0 -> inv s k G.
Proof.
  intros [H1 H2 H3 H4 H5 H6 H7 H8 H9 H10 H11] Hv Hc. split; try done.
  - intros z Hz. destruct (H7 z Hz) as (? & y & Hy & ?). split; [by destruct (H3 z y Hy)|by exists y].
  - intros z y Hz Hy. destruct (H10 z y Hz Hy) as [->|]; [|by right]. congruence.
Qed.

Lemma obj_inv_release o x s k G :
  inv s k (held o ++ G) -> o <> VM_OBJECT_NULL -> ob_objects s !! o = Some x ->
  obj_inv o (with_objects (<[o := with_ref_count (s16 (ob_ref_count x - 1)) x]> (ob_objects s)) s) (S k) G /\
  s16 (ob_ref_count x - 1) = ob_ref_count x - 1 /\ 0 <= ob_ref_count x - 1.
Proof.
  intros Hi Hne Ho. pose proof (oi_count _ _ _ _ Hi o x Ho) as Hc. pose proof (count_room _ _ _ _ o Hi) as Hr.
  rewrite !count_app, count_held, decide_True in Hc, Hr by done.
  assert (Hn : s16 (ob_ref_count x - 1) = Z.of_nat (count o (G ++ edges (ob_objects s)))) by (rewrite s16_id, count_app; lia).
  split; [|rewrite Hn, count_app; lia].
  eapply (obj_inv_insert VM_OBJECT_NULL o _ k (S k) (held o ++ G) G); [done|exact Ho|done| |done..|exact Hn| | | |by left|by left|by right].
  - apply quiet_ref_count, (oi_quiet _ _ _ _ Hi _ _ Ho).
  - intros z Hz. rewrite count_app, count_held, decide_False; [done|]. intros [? ?]. congruence.
  - unfold held. rewrite (proj2 (Z.eqb_neq _ _) Hne), length_app. simpl. lia.
  - intros Hca. destruct (oi_cached _ _ _ _ Hi o Hca) as (_ & y & Hy & Hy0). simplify_eq. lia.
Qed.

Lemma obj_inv_weaken v s k k' G : (k' <= k)%nat -> obj_inv v s k G -> obj_inv v s k' G.
Proof. intros Hk []. split; try done. lia. Qed.

Lemma obj_inv_cache o x s k G :
  obj_inv o s k G -> ob_objects s !! o = Some x -> ob_ref_count x = 0 ->
  inv (with_cached (vm_object_cached_list s ++ [o]) (vm_object_cached_count s + 1) s) k G.
Proof.
  intros [H1 H2 H3 H4 H5 H6 H7 H8 H9 H10 H11] Ho Hz. split; simpl; try done.
  - intros z [Hz'|Hz']%elem_of_app.
    + destruct (H7 z Hz') as (? & y & Hy & ?). split; [by destruct (H3 z y Hy)|by exists y].
    + apply list_elem_of_singleton in Hz' as ->. split; [by destruct (H3 o x Ho)|by exists x].
  - apply NoDup_app. split_and!; [done| |apply NoDup_singleton]. intros z Hz' ->%list_elem_of_singleton.
    by destruct (H7 o Hz').
  - rewrite length_app. simpl. lia.
  - intros z y Hzy Hy. right. apply elem_of_app. destruct (H10 z y Hzy Hy) as [->|]; [right; by left|by left].
Qed.

Lemma obj_inv_uncache o l s k G :
  inv s k G -> vm_object_cached_list s = o :: l ->
  obj_inv o (with_cached l (vm_object_cached_count s - 1) s) k G /\ exists x, ob_objects s !! o = Some x /\ ob_ref_count x = 0.
Proof.
  intros [H1 H2 H3 H4 H5 H6 H7 H8 H9 H10 H11] Hl. rewrite Hl in *. apply NoDup_cons in H8 as [H8 H8'].
  split; [|by destruct (H7 o ltac:(by left)) as (_ & ?)]. split; simpl; try done.
  - intros z Hz. destruct (H7 z ltac:(by right)) as (_ & ?). split; [|done]. intros ->. done.
  - rewrite H9. simpl. lia.
  - intros z y Hz Hy. destruct (H10 z y Hz Hy) as [->|[->|]%elem_of_cons]; [by destruct (H3 _ _ Hz)|by left|by right].
Qed.

(** ** The last reference *)

Definition gone (s : objects) (k : nat) (G : list Z) (r : last_reference) (s' : objects) : Prop :=
  ob_objects s' = ob_objects s /\
  match r with
  | Kept => inv s' k G
  | WaitForPager => False
  | Terminate v => obj_inv v s' k G /\ exists y, ob_objects s' !! v = Some y /\ ob_ref_count y = 0
  end.

Lemma quiet_initialized x : quiet x -> pager_created x && negb (pager_initialized x) = false.
Proof. intros [_ _ _ H _]. destruct (pager_created x); [|done]. by destruct H as [-> _]. Qed.

Lemma trim_cache_spec waits s k G : inv s k G -> mwp (trim_cache env waits) (gone s k G) s.
Proof.
  intros Hi.
  destruct waits; cbn [trim_cache]; apply mwp_bind, mwp_gets; (destruct (Z.leb_spec (vm_object_cached_count s) vm_object_cached_max);
    [by apply mwp_ret|]); apply mwp_bind, mwp_gets;
    (destruct (vm_object_cached_list s) as [|o l] eqn:Hl;
      [pose proof (oi_cached_count _ _ _ _ Hi) as Hn; rewrite Hl in Hn; unfold vm_object_cached_max in *; simpl in Hn; lia|]);
    destruct (obj_inv_uncache o l s k G Hi Hl) as (Hi' & x & Hx & Hx0); apply mwp_bind;
    (eapply mwp_object_at; [exact Hx|]); rewrite (quiet_initialized x (oi_quiet _ _ _ _ Hi _ _ Hx)); cbn [negb];
    apply mwp_bind, mwp_modify, mwp_ret; (split; [done|]); (split; [exact Hi'|]); by exists x.
Qed.

Lemma last_reference_spec o x s k G :
  obj_inv o s k G -> ob_objects s !! o = Some x -> ob_ref_count x = 0 -> mwp (last_reference_gone env o) (gone s k G) s.
Proof.
  intros Hi Ho Hz. unfold last_reference_gone. apply mwp_bind. eapply mwp_object_at; [exact Ho|].
  destruct (can_persist x).
  - unfold cache_object. apply mwp_bind, mwp_modify. apply mwp_bind, mwp_gets.
    apply mwp_bind. apply mwp_bind. eapply mwp_object_at; [exact Ho|]. apply mwp_modify.
    pose proof (obj_inv_cache o x s k G Hi Ho Hz) as Hi'. set (s1 := with_cached _ _ s) in *.
    set (s2 := with_ob_events _ s1). assert (Hi2 : inv s2 k G) by (by eapply obj_inv_ext; [..|exact Hi']).
    destruct (_ <=? _); [by apply mwp_ret|]. eapply mwp_mono; [by apply trim_cache_spec|]. by intros r s' [? ?].
  - rewrite (quiet_initialized x (oi_quiet _ _ _ _ Hi _ _ Ho)). apply mwp_ret. split; [done|]. split; [done|by exists x].
Qed.

Lemma deallocate_loop_spec fuel s k G o :
  inv s k (held o ++ G) -> (size (ob_objects s) <= fuel)%nat ->
  mwp (deallocate_loop env fuel o) (fun _ s' => inv s' k G) s.
Proof.
  revert s o. induction fuel as [|fuel IH]; intros s o Hi Hfuel; cbn [deallocate_loop];
    (destruct (Z.eqb_spec o VM_OBJECT_NULL) as [->|Hne]; [by apply mwp_ret|]);
    (destruct (oi_live _ _ _ _ Hi o) as [x Ho]; [apply elem_of_app; left; by apply elem_of_held|]).
  - assert (size (ob_objects s) = 0%nat) as H0%map_size_empty_inv by lia. by rewrite H0, lookup_empty in Ho.
  - apply mwp_bind. eapply mwp_update_object; [exact Ho|]. destruct (obj_inv_release o x s k G Hi Hne Ho) as [Hi1 [Hs16 Hge]].
    apply (obj_inv_weaken _ _ (S k) k) in Hi1; [|lia].
    set (x1 := with_ref_count _ x) in *. set (s1 := with_objects _ s) in *.
    assert (Ho1 : ob_objects s1 !! o = Some x1) by apply lookup_insert_eq.
    apply mwp_bind. eapply mwp_object_at; [exact Ho1|]. destruct (Z.ltb_spec 0 (ob_ref_count x1)) as [Hpos|Hzero].
    { apply mwp_ret. eapply obj_inv_counted; [exact Hi1|exact Ho1|lia]. }
    apply mwp_bind. eapply mwp_mono; [eapply last_reference_spec; [exact Hi1|exact Ho1|simpl in *; lia]|].
    intros [| |v] s2 [Hs2 Hr]; [by apply mwp_ret|done|]. destruct Hr as (Hi2 & y & Hy & Hy0).
    apply mwp_bind. eapply mwp_object_at; [exact Hy|].
    apply mwp_bind. eapply terminate_spec; [exact Hy|by apply (oi_quiet _ _ _ _ Hi2 v)|by apply (oi_ports _ _ _ _ Hi2)|..].
    { intros Hsn. destruct (chains_shadow _ _ _ (oi_chains _ _ _ _ Hi2) Hy) as (l & Hl & Hnin).
      inversion Hl as [|w z l' Hw Hz Hl' E1 E2]; [congruence|]. subst. split.
      - intros E. apply Hnin. rewrite <- E. by left.
      - exists z. split; [done|]. by apply (oi_quiet _ _ _ _ Hi2 (ob_shadow y)). }
    intros s3 Ht. apply IH; [by eapply obj_inv_terminated|]. rewrite (tm_objects _ _ _ _ Ht), Hs2.
    rewrite map_size_delete_Some by (rewrite <- Hs2, Hy; eauto). unfold s1. simpl.
    rewrite map_size_insert_Some by eauto. lia.
Qed.

Lemma deallocate_law s k G o : inv s k (held o ++ G) -> mwp (vm_object_deallocate env o) (fun _ s' => inv s' k G) s.
Proof. intros Hi. apply mwp_bind, mwp_gets. apply deallocate_loop_spec; [done|lia]. Qed.
End free.
