(* ===== verification/VmObjectCollapse.v ===== *)
(** * Memory objects: collapsing

    What one round of [vm_object_collapse] does to the objects: the backing
    object disappears into the one that shadows it, or is skipped.  In both
    cases the counts stay right. *)

From S2P Require Import Prelude Names Splay Table Space Hash Entry World Vm VmMap VmRing VmOwn VmObject VmObjectInv VmObjectFree.

Definition at_offset (offset : Z) (p : vm_page) : vm_page :=
  mk_page (pg_addr p) offset (pg_phys_addr p) (pg_busy p) (pg_absent p) (pg_private p) (pg_fictitious p)
    (pg_dirty p) (pg_precious p).

Definition page_at (offset : Z) (l : list vm_page) : option vm_page := List.find (fun p => pg_offset p =? offset) l.

(** The pages of the object when those of the backing object have moved. *)
Fixpoint absorb (backing_offset size : Z) (mine theirs : list vm_page) : list vm_page :=
  match theirs with
  | [] => mine
  | p :: theirs =>
    let new_offset := u32 (pg_offset p - backing_offset) in
    if (pg_offset p <? backing_offset) || (size <=? new_offset) then absorb backing_offset size mine theirs
    else
      match page_at new_offset mine with
      | Some _ => absorb backing_offset size mine theirs
      | None => absorb backing_offset size (mine ++ [at_offset new_offset p]) theirs
      end
  end.

(** The object [x] when it has swallowed the backing object [y]; [n] are the
    number of its pages and the offset of the last page it has got. *)
Definition absorbed (n : Z * Z) (x y : vm_object) : vm_object :=
  mk_object (absorb (shadow_offset x) (ob_size x) (memq x) (memq y)) (ob_size x) (ob_ref_count x) n.1 (ob_copy x)
    (ob_shadow y) (u32 (shadow_offset x + shadow_offset y)) (ob_pager y)
    (if ob_pager y =? IP_NULL then paging_offset x else u32 (paging_offset y + shadow_offset x)) (pager_request y)
    (pager_name y) (absent_count x) (paging_in_progress x) (pager_created y) (pager_initialized y) (pager_ready y)
    (can_persist x) (ob_internal x) (ob_temporary x) (alive x) n.2 (existence_info y).

Definition skipping (x y : vm_object) : vm_object :=
  with_shadow (ob_shadow y) (u32 (shadow_offset x + shadow_offset y)) x.

Lemma absorb_forall (P : vm_page -> Prop) bo size mine theirs :
  (forall p off, P p -> P (at_offset off p)) -> Forall P mine -> Forall P theirs -> Forall P (absorb bo size mine theirs).
Proof.
  intros HP. revert mine. induction theirs as [|p l IH]; intros mine H1 H2; simpl; [done|]. inversion H2; subst.
  destruct (_ || _); [by apply IH|]. destruct (page_at _ mine); [by apply IH|]. apply IH; [|done].
  apply Forall_app. split; [done|]. constructor; [by apply HP|done].
Qed.

Lemma absorb_addrs bo size mine theirs :
  (pg_addr <$> absorb bo size mine theirs) ⊆+ (pg_addr <$> mine) ++ (pg_addr <$> theirs).
Proof.
  revert mine. induction theirs as [|p l IH]; intros mine; simpl; [by rewrite app_nil_r|].
  assert (Hdrop : (pg_addr <$> mine) ++ (pg_addr <$> l) ⊆+ (pg_addr <$> mine) ++ pg_addr p :: (pg_addr <$> l)).
  { apply submseteq_skips_l. by apply submseteq_cons. }
  destruct (_ || _); [by etrans; [apply IH|]|]. destruct (page_at _ mine); [by etrans; [apply IH|]|].
  etrans; [apply IH|]. rewrite fmap_app, <- app_assoc. done.
Qed.

(** ** Moving the pages *)

Definition with_pages (n : Z * Z) (l : list vm_page) (x : vm_object) : vm_object :=
  with_last_alloc n.2 (with_resident n.1 (with_memq l x)).

Definition pages_of (x : vm_object) : Z * Z := (resident_page_count x, last_alloc x).

(** Only the pages of the two objects have changed. *)
Record moved (o b : Z) (x y : vm_object) (l : list vm_page) (s s' : objects) : Prop := mk_moved {
  mv_objects : exists n n', ob_objects s' = <[b := with_pages n' [] y]> (<[o := with_pages n l x]> (ob_objects s));
  mv_ports : ob_ports s' = ob_ports s;
  mv_cached : vm_object_cached_list s' = vm_object_cached_list s;
  mv_count : vm_object_cached_count s' = vm_object_cached_count s
}.

Lemma without_nodup p l : NoDup (pg_addr <$> p :: l) -> without p l = l.
Proof.
  simpl. intros [Hp _]%NoDup_cons. unfold without. induction l as [|q l IH]; [done|]. simpl in *.
  rewrite not_elem_of_cons in Hp. destruct Hp as [Hne Hp].
  rewrite (proj2 (Z.eqb_neq (pg_addr q) (pg_addr p))) by congruence. simpl. by rewrite IH.
Qed.

Lemma with_pages_same x : with_pages (pages_of x) (memq x) x = x.
Proof. by destruct x. Qed.

Lemma moved_none o b x y s :
  ob_objects s !! o = Some x -> ob_objects s !! b = Some y -> memq y = [] -> moved o b x y (memq x) s s.
Proof.
  intros Ho Hb Hm. split; try done. exists (pages_of x), (pages_of y).
  by rewrite <- Hm, !with_pages_same, (insert_id _ o), insert_id.
Qed.

Lemma moved_step o b x y l s s1 s' n n' lx ly :
  o <> b -> ob_objects s1 = <[b := with_pages n' ly y]> (<[o := with_pages n lx x]> (ob_objects s)) ->
  ob_ports s1 = ob_ports s -> vm_object_cached_list s1 = vm_object_cached_list s ->
  vm_object_cached_count s1 = vm_object_cached_count s ->
  moved o b (with_pages n lx x) (with_pages n' ly y) l s1 s' -> moved o b x y l s s'.
Proof.
  intros Hob E1 E2 E3 E4 [(n1 & n1' & M1) M2 M3 M4]. split; [|congruence..]. exists n1, n1'. rewrite M1, E1.
  rewrite (insert_insert_ne _ o b) by done. by rewrite !insert_insert_eq.
Qed.

(** The page behind the new one may be deactivated. *)
Lemma insert_step p o offset x s Q :
  ob_objects s !! o = Some x ->
  (forall E, Q tt (with_ob_events E (with_objects (<[o := with_pages (s16 (resident_page_count x + 1), offset)
     (memq x ++ [at_offset offset p]) x]> (ob_objects s)) s))) ->
  mwp (vm_page_insert p o offset) Q s.
Proof.
  intros Ho HQ. unfold vm_page_insert. apply mwp_bind. eapply mwp_update_object; [exact Ho|].
  set (x1 := with_resident _ _). set (s1 := with_objects _ s).
  assert (H1 : ob_objects s1 !! o = Some x1) by apply lookup_insert_eq. apply mwp_bind. eapply mwp_object_at; [exact H1|].
  assert (Hend : forall E, mwp (update_object o (with_last_alloc offset)) Q (with_ob_events E s1)).
  { intros E. eapply mwp_update_object; [exact H1|]. unfold s1. cbn [ob_objects with_objects with_ob_events].
    rewrite insert_insert_eq. apply (HQ E). }
  assert (Hend' : mwp (update_object o (with_last_alloc offset)) Q s1) by apply (Hend (ob_events s)).
  apply mwp_bind, mwp_when. destruct (_ =? _); [|done].
  apply mwp_bind, mwp_bind. eapply mwp_object_at; [exact H1|]. apply mwp_ret.
  destruct (List.find _ _) as [q|]; [|by apply mwp_ret]. apply mwp_when. destruct (negb _); [|done].
  by apply mwp_modify.
Qed.

Lemma move_pages_spec fuel o b x y s Q :
  o <> b -> ob_objects s !! o = Some x -> ob_objects s !! b = Some y ->
  Forall page_quiet (memq x) -> Forall page_quiet (memq y) -> NoDup (pg_addr <$> memq y) -> (length (memq y) <= fuel)%nat ->
  (forall s', moved o b x y (absorb (shadow_offset x) (ob_size x) (memq x) (memq y)) s s' -> Q tt s') ->
  mwp (move_pages fuel o b (shadow_offset x) (ob_size x)) Q s.
Proof.
  intros Hob. revert x y s. induction fuel as [|fuel IH]; intros x y s Ho Hb Hqx Hqy Hnd Hlen HQ; cbn [move_pages];
    apply mwp_bind; (eapply mwp_object_at; [exact Hb|]); destruct (memq y) as [|p l] eqn:Hm; try (simpl in Hlen; lia).
  1, 2: apply mwp_ret, HQ; by apply moved_none.
  inversion Hqy as [|? ? Hp Hl]; subst. pose proof (without_nodup p l Hnd) as Hwo. pose proof Hnd as Hnd'.
  simpl in Hnd'. apply NoDup_cons in Hnd' as [_ Hnd']. cbn zeta.
  set (new_offset := u32 (pg_offset p - shadow_offset x)).
  assert (Hfree : absorb (shadow_offset x) (ob_size x) (memq x) (p :: l) = absorb (shadow_offset x) (ob_size x) (memq x) l ->
    mwp (vm_page_free b p) (fun _ s' => mwp (move_pages fuel o b (shadow_offset x) (ob_size x)) Q s') s).
  { intros Habs. eapply free_step; [exact Hb|apply Hp|]. intros s1 [(y1 & Hy1 & _) P1 C1 N1] Hb1.
    rewrite Hm, without_head, Hwo in Hb1. rewrite Hy1, lookup_insert_eq in Hb1. inversion Hb1; subst y1.
    eapply (IH x (with_pages (s16 (resident_page_count y - 1), last_alloc y) l y)); [by rewrite Hy1, lookup_insert_ne|by rewrite Hy1, lookup_insert_eq|done|done|done|simpl in Hlen; simpl; lia|].
    intros s' Hmv. apply HQ. rewrite Habs.
    eapply (moved_step o b x y _ s s1 s' (pages_of x) (s16 (resident_page_count y - 1), last_alloc y) (memq x) l); [done| |done..|].
    - by rewrite Hy1, with_pages_same, (insert_id _ o).
    - by rewrite with_pages_same. }
  assert (Hrename : absorb (shadow_offset x) (ob_size x) (memq x) (p :: l) =
      absorb (shadow_offset x) (ob_size x) (memq x ++ [at_offset new_offset p]) l ->
    mwp (vm_page_rename b p o new_offset) (fun _ s' => mwp (move_pages fuel o b (shadow_offset x) (ob_size x)) Q s') s).
  { intros Habs. apply mwp_bind. eapply remove_step; [exact Hb|]. rewrite Hm, without_head, Hwo.
    eapply (insert_step _ _ _ x); [simpl; by rewrite lookup_insert_ne|]. intros E.
    set (x1 := with_pages _ (_ ++ _) x). set (y1 := with_resident _ (with_memq l y)). set (s1 := with_ob_events _ _).
    assert (E1 : ob_objects s1 = <[o := x1]> (<[b := y1]> (ob_objects s))) by done.
    change (shadow_offset x) with (shadow_offset x1). change (ob_size x) with (ob_size x1).
    eapply (IH x1 y1); [rewrite E1; apply lookup_insert_eq|rewrite E1; by rewrite lookup_insert_ne, lookup_insert_eq| |done|done|simpl in Hlen; simpl; lia|].
    { simpl. apply Forall_app. split; [done|]. by constructor. }
    intros s' Hmv. apply HQ. rewrite Habs.
    eapply (moved_step o b x y _ s s1 s' _ (s16 (resident_page_count y - 1), last_alloc y)
      (memq x ++ [at_offset new_offset p]) l); [done| |done..|exact Hmv].
    rewrite E1. by rewrite insert_insert_ne. }
  cbn [absorb] in Hfree, Hrename. fold new_offset in Hfree, Hrename. apply mwp_bind. destruct (_ || _); [by apply Hfree|].
  apply mwp_bind. apply mwp_bind. eapply mwp_object_at; [exact Ho|]. apply mwp_ret. fold (page_at new_offset (memq x)).
  destruct (page_at new_offset (memq x)) as [pp|] eqn:Hfind; [|by apply Hrename].
  assert (Hpp : page_quiet pp).
  { apply List.find_some in Hfind as [Hin _]. rewrite Forall_forall in Hqx. by apply Hqx, list_elem_of_In. }
  destruct Hpp as (_ & -> & _). by apply Hfree.
Qed.

(** ** The ports *)

Definition set_port (q t o : Z) (ports : gmap Z (Z * Z)) : gmap Z (Z * Z) :=
  if q =? IP_NULL then ports else <[q := (t, o)]> ports.

Definition drop_port (q : Z) (ports : gmap Z (Z * Z)) : gmap Z (Z * Z) :=
  if q =? IP_NULL then ports else delete q ports.

Lemma set_port_ne q t o ports q' : q' <> q -> set_port q t o ports !! q' = ports !! q'.
Proof. intros Hne. unfold set_port. destruct (q =? IP_NULL); [done|]. by rewrite lookup_insert_ne. Qed.

Lemma set_port_eq q t o ports : q <> IP_NULL -> set_port q t o ports !! q = Some (t, o).
Proof. intros Hne. unfold set_port. rewrite (proj2 (Z.eqb_neq _ _) Hne). apply lookup_insert_eq. Qed.

Lemma drop_port_ne q ports q' : q' <> q -> drop_port q ports !! q' = ports !! q'.
Proof. intros Hne. unfold drop_port. destruct (q =? IP_NULL); [done|]. by rewrite lookup_delete_ne. Qed.

Lemma mwp_set_port q o t (s : objects) Q :
  q = IP_NULL \/ is_Some (ob_ports s !! q) -> Q tt (with_port_table (set_port q t o (ob_ports s)) s) ->
  mwp (when (negb (q =? IP_NULL)) (ipc_kobject_set q o t)) Q s.
Proof.
  intros Hq HQ. apply mwp_when. unfold set_port in HQ. destruct (Z.eqb_spec q IP_NULL); cbn [negb]; [by destruct s|].
  destruct Hq as [|[x Hx]]; [done|]. by eapply mwp_kobject_set.
Qed.

Lemma mwp_drop_port q (s : objects) Q :
  (forall E, Q tt (with_ob_events E (with_port_table (drop_port q (ob_ports s)) s))) ->
  mwp (when (negb (q =? IP_NULL)) (ipc_port_dealloc_kernel q)) Q s.
Proof.
  intros HQ. apply mwp_when. unfold drop_port in HQ. destruct (q =? IP_NULL); cbn [negb].
  - specialize (HQ (ob_events s)). by destruct s.
  - apply mwp_bind, mwp_modify, mwp_modify. apply HQ.
Qed.

Lemma mwp_when_update (c : bool) o x f (s : objects) Q :
  ob_objects s !! o = Some x -> Q tt (with_objects (<[o := if c then f x else x]> (ob_objects s)) s) ->
  mwp (when c (update_object o f)) Q s.
Proof.
  intros Ho HQ. apply mwp_when. destruct c; [by eapply mwp_update_object|]. rewrite insert_id in HQ by done. by destruct s.
Qed.

(** The table of ports after the ports of [y] have moved to [o]. *)
Definition moved_ports (o : Z) (x y : vm_object) (ports : gmap Z (Z * Z)) : gmap Z (Z * Z) :=
  drop_port (pager_name x) (set_port (pager_name y) IKOT_PAGING_NAME o (set_port (pager_name x) IKOT_NONE 0
    (set_port (pager_request y) IKOT_PAGER_REQUEST o (set_port (ob_pager y) IKOT_PAGER o ports)))).

Lemma moved_ports_other o x y ports q :
  q ∉ ports_of x ++ ports_of y -> moved_ports o x y ports !! q = ports !! q.
Proof.
  unfold ports_of, moved_ports. simpl. rewrite !not_elem_of_cons. intros (? & ? & ? & ? & ? & ? & _).
  by rewrite drop_port_ne, !set_port_ne.
Qed.

(** Two ports of an object that stand for different things differ. *)
Lemma port_ok_ne ports o o' q q' t t' :
  port_ok ports o q t -> port_ok ports o' q' t' -> (t, o) <> (t', o') -> q <> IP_NULL -> q' <> q.
Proof. intros [->|H1] [->|H2] Hne Hq; try congruence. Qed.

Lemma moved_ports_ok o b x y ports n :
  o <> b -> ports_ok ports o x -> ports_ok ports b y -> ports_ok (moved_ports o x y ports) o (absorbed n x y).
Proof.
  intros Hob [X1 X2 X3] [Y1 Y2 Y3]. unfold moved_ports. split; simpl; unfold port_ok.
  - destruct (decide (ob_pager y = IP_NULL)) as [|Hn]; [by left|right].
    assert (Hne : forall q t p, port_ok ports p q t -> (IKOT_PAGER, b) <> (t, p) -> ob_pager y <> q).
    { intros q t p Hq Ht. apply not_eq_sym. eapply port_ok_ne; [exact Y1|exact Hq|exact Ht|exact Hn]. }
    by rewrite drop_port_ne, set_port_ne, set_port_ne, set_port_ne, set_port_eq by
      first [done|by eapply Hne; [exact X3|congruence]|by eapply Hne; [exact Y3|]|by eapply Hne; [exact Y2|]].
  - destruct (decide (pager_request y = IP_NULL)) as [|Hn]; [by left|right].
    assert (Hne : forall q t p, port_ok ports p q t -> (IKOT_PAGER_REQUEST, b) <> (t, p) -> pager_request y <> q).
    { intros q t p Hq Ht. apply not_eq_sym. eapply port_ok_ne; [exact Y2|exact Hq|exact Ht|exact Hn]. }
    by rewrite drop_port_ne, set_port_ne, set_port_ne, set_port_eq by
      first [done|by eapply Hne; [exact X3|congruence]|by eapply Hne; [exact Y3|]].
  - destruct (decide (pager_name y = IP_NULL)) as [|Hn]; [by left|right].
    rewrite drop_port_ne, set_port_eq; [done..|]. apply not_eq_sym.
    eapply port_ok_ne; [exact Y3|exact X3|congruence|exact Hn].
Qed.

(** ** The backing object disappears *)

Lemma port_registered ports o q t : port_ok ports o q t -> q = IP_NULL \/ is_Some (ports !! q).
Proof. intros [->|H]; [by left|right; eauto]. Qed.

Lemma registered_set q t o ports q' :
  q' = IP_NULL \/ is_Some (ports !! q') -> q' = IP_NULL \/ is_Some (set_port q t o ports !! q').
Proof.
  intros [|Hq]; [by left|right]. unfold set_port. destruct (q =? IP_NULL); [done|].
  destruct (decide (q = q')) as [->|Hne]; [rewrite lookup_insert_eq; eauto|by rewrite lookup_insert_ne].
Qed.

Lemma collapse_into_spec o b x y s Q :
  o <> b -> ob_objects s !! o = Some x -> ob_objects s !! b = Some y -> quiet x -> quiet y ->
  ports_ok (ob_ports s) o x -> ports_ok (ob_ports s) b y -> NoDup (pg_addr <$> memq y) ->
  (ob_shadow y <> VM_OBJECT_NULL -> ob_shadow y <> o /\ ob_shadow y <> b /\
     exists z, ob_objects s !! ob_shadow y = Some z /\ quiet z) ->
  (forall n s', ob_objects s' = delete b (<[o := absorbed n x y]> (ob_objects s)) ->
     ob_ports s' = moved_ports o x y (ob_ports s) -> vm_object_cached_list s' = vm_object_cached_list s ->
     vm_object_cached_count s' = vm_object_cached_count s -> Q tt s') ->
  mwp (collapse_into o b) Q s.
Proof.
  intros Hob Ho Hb Hqx Hqy Hpx Hpy Hnd Hsh HQ. unfold collapse_into.
  apply mwp_bind. eapply mwp_object_at; [exact Ho|]. apply mwp_bind. eapply mwp_object_at; [exact Hb|]. cbn zeta.
  apply mwp_bind. eapply move_pages_spec; [done|exact Ho|exact Hb|apply Hqx|apply Hqy|done|done|].
  intros s1 [(n & n' & M1) M2 M3 M4]. set (l := absorb _ _ _ _) in *. rewrite insert_insert_ne in M1 by done.
  set (m0 := <[b := with_pages n' [] y]> (ob_objects s)) in *.
  assert (Hb1 : forall w, <[o := w]> m0 !! b = Some (with_pages n' [] y)).
  { intros w. rewrite lookup_insert_ne by done. apply lookup_insert_eq. }
  apply mwp_bind. eapply mwp_object_at; [rewrite M1; apply Hb1|].
  apply mwp_bind. eapply mwp_update_object; [rewrite M1; apply lookup_insert_eq|]. rewrite M1, insert_insert_eq.
  assert (R1 := port_registered _ _ _ _ (po_pager _ _ _ Hpy)). assert (R2 := port_registered _ _ _ _ (po_request _ _ _ Hpy)).
  assert (R3 := port_registered _ _ _ _ (po_name _ _ _ Hpy)). assert (R4 := port_registered _ _ _ _ (po_name _ _ _ Hpx)).
  rewrite <- M2 in R1, R2, R3, R4.
  apply mwp_bind. apply mwp_set_port; [exact R1|].
  apply mwp_bind. apply mwp_set_port; [by apply registered_set|].
  apply mwp_bind. eapply mwp_object_at; [apply lookup_insert_eq|]. cbn zeta.
  apply mwp_bind. apply mwp_set_port; [by apply registered_set, registered_set|].
  apply mwp_bind. eapply mwp_update_object; [apply lookup_insert_eq|]. cbn [ob_objects with_port_table with_objects]. rewrite insert_insert_eq.
  apply mwp_bind. apply mwp_set_port; [by apply registered_set, registered_set, registered_set|].
  apply mwp_bind. eapply mwp_when_update; [apply lookup_insert_eq|]. cbn [ob_objects with_port_table with_objects]. rewrite insert_insert_eq.
  apply mwp_bind. eapply mwp_update_object; [apply lookup_insert_eq|]. cbn [ob_objects with_port_table with_objects]. rewrite insert_insert_eq.
  set (x' := with_shadow _ _ _). assert (Hx' : x' = absorbed n x y).
  { unfold x', absorbed. simpl. destruct (ob_pager y =? IP_NULL); done. }
  rewrite Hx'. clearbody x'. set (s5 := with_objects _ _).
  apply mwp_bind. assert (Hz : mwp (if ob_shadow (with_pages n' [] y) =? VM_OBJECT_NULL then mret tt
    else z ← object_at (ob_shadow (with_pages n' [] y)); when (negb (ob_copy z =? VM_OBJECT_NULL)) crash) (fun _ s' => s' = s5) s5).
  { destruct (Z.eqb_spec (ob_shadow (with_pages n' [] y)) VM_OBJECT_NULL) as [|Hne]; [by apply mwp_ret|].
    destruct (Hsh Hne) as (H1 & H2 & z & Hz & Hqz). apply mwp_bind.
    eapply (mwp_object_at _ z); [unfold s5, m0; simpl; by rewrite !lookup_insert_ne|]. rewrite (q_copy _ Hqz). by apply mwp_ret. }
  eapply mwp_mono; [exact Hz|]. intros [] s' ->.
  apply mwp_bind. eapply mwp_update_object; [apply Hb1|].
  apply mwp_bind. apply mwp_drop_port. intros E. apply mwp_modify. apply (HQ n); cbn; [|by rewrite M2|exact M3|exact M4].
  unfold m0. rewrite delete_insert_eq, !(delete_insert_ne _ b o), delete_insert_eq by done. done.
Qed.
