(* ===== verification/VmObjectLaws.v ===== *)
(** * Memory objects: what the maps may rely on

    Collapsing and coalescing keep the counts of references right; with the
    other operations this makes vm_object.c an instance of [ObjectLaws]. *)

From S2P Require Import Prelude Names Splay Table Space Hash Entry World Vm VmMap VmRing VmOwn VmObject VmObjectInv VmObjectFree VmObjectCollapse.

Abbreviation inv := (obj_inv VM_OBJECT_NULL).

(** ** Changing what an object shadows *)

Lemma chains_detach m o x x' : chains m -> m !! o = Some x -> ob_shadow x' = VM_OBJECT_NULL -> chains (<[o := x']> m).
Proof.
  intros Hc Ho Hs z v Hz. assert (Hv : exists v', m !! z = Some v').
  { destruct (decide (z = o)) as [->|Hne]; [by exists x|]. rewrite lookup_insert_ne in Hz by done. by exists v. }
  destruct Hv as [v' Hv']. destruct (Hc z v' Hv') as [Hne [l Hl]]. split; [done|].
  clear Hz Hv' Hne v v'. induction Hl as [|w u l Hw Hu Hl [l' Hl']]; [exists []; constructor|].
  destruct (decide (w = o)) as [->|Hwo].
  - exists [o]. econstructor; [done|apply lookup_insert_eq|]. rewrite Hs. constructor.
  - exists (w :: l'). econstructor; [done|by rewrite lookup_insert_ne|done].
Qed.

Lemma chains_attach m o x x' l : chains m -> m !! o = Some x -> ob_shadow x = VM_OBJECT_NULL ->
  chain m (ob_shadow x') l -> o ∉ l -> chains (<[o := x']> m).
Proof.
  intros Hc Ho Hs Hl Hnin z v Hz. assert (Hv : exists v', m !! z = Some v').
  { destruct (decide (z = o)) as [->|Hne]; [by exists x|]. rewrite lookup_insert_ne in Hz by done. by exists v. }
  destruct Hv as [v' Hv']. destruct (Hc z v' Hv') as [Hne [k Hk]]. split; [done|].
  clear Hz Hv' Hne v v'. induction Hk as [|w u k Hw Hu Hk [k' Hk']]; [exists []; constructor|].
  destruct (decide (w = o)) as [->|Hwo].
  - exists (o :: l). econstructor; [done|apply lookup_insert_eq|]. eapply chain_agree; [exact Hl|].
    intros q p Hq Hp. exists p. split; [|done]. rewrite lookup_insert_ne; [done|]. by intros ->.
  - exists (w :: k'). econstructor; [done|by rewrite lookup_insert_ne|done].
Qed.

Lemma app_swap_front {A} (G K R : list A) : G ++ K ++ R ≡ₚ (K ++ G) ++ R.
Proof. by rewrite app_assoc, (Permutation_app_comm G K). Qed.

(** The reference of [o] to what it shadows is exchanged with those outside. *)
Lemma obj_inv_reshadow s k G G' o x w off :
  inv s k G -> ob_objects s !! o = Some x -> chains (<[o := with_shadow w off x]> (ob_objects s)) ->
  held w ++ G' ≡ₚ held (ob_shadow x) ++ G -> (forall z, z ∈ G' -> is_Some (ob_objects s !! z)) ->
  inv (with_objects (<[o := with_shadow w off x]> (ob_objects s)) s) k G'.
Proof.
  intros [H1 H2 H3 H4 H5 H6 H7 H8 H9 H10 H11] Ho Hch HG Hlive.
  assert (HT : G' ++ edges (<[o := with_shadow w off x]> (ob_objects s)) ≡ₚ G ++ edges (ob_objects s)).
  { rewrite (edges_delete _ _ _ Ho). unfold edges. rewrite gather_insert. cbn [ob_shadow with_shadow].
    by rewrite !app_swap_front, HG. }
  assert (Hlook : forall z y, <[o := with_shadow w off x]> (ob_objects s) !! z = Some y ->
    exists y', ob_objects s !! z = Some y' /\ (y = y' \/ (y = with_shadow w off y'))).
  { intros z y Hz. destruct (decide (z = o)) as [->|Hne].
    - rewrite lookup_insert_eq in Hz. inversion Hz; subst. exists x. tauto.
    - rewrite lookup_insert_ne in Hz by done. exists y. tauto. }
  split; simpl; try done.
  - intros z y Hz. rewrite (count_perm z _ _ HT). destruct (Hlook z y Hz) as (y' & Hy' & [-> | ->]); exact (H1 z y' Hy').
  - intros z Hz. destruct (Hlive z Hz) as [y Hy]. destruct (decide (z = o)) as [->|]; [rewrite lookup_insert_eq; eauto|].
    rewrite lookup_insert_ne by done. eauto.
  - intros z y Hz. destruct (Hlook z y Hz) as (y' & Hy' & [-> | ->]); [by eapply H4|]. by destruct (H4 z y' Hy').
  - intros z y Hz. destruct (Hlook z y Hz) as (y' & Hy' & [-> | ->]); [by eapply H5|]. by destruct (H5 z y' Hy').
  - apply Permutation_length in HT. rewrite !length_app in HT. lia.
  - intros z Hz. destruct (H7 z Hz) as (? & y & Hy & Hy0). split; [done|].
    destruct (decide (z = o)) as [->|]; [|exists y; by rewrite lookup_insert_ne].
    exists (with_shadow w off x). rewrite lookup_insert_eq. by simplify_eq.
  - intros z y Hz Hy. destruct (Hlook z y Hz) as (y' & Hy' & [-> | ->]); exact (H10 z y' Hy' Hy).
  - eapply page_addrs_submseteq; [exact Ho|done|done].
Qed.

Lemma obj_inv_detach s k G o x :
  inv s k G -> ob_objects s !! o = Some x ->
  inv (with_objects (<[o := with_shadow VM_OBJECT_NULL 0 x]> (ob_objects s)) s) k (held (ob_shadow x) ++ G).
Proof.
  intros Hi Ho. eapply obj_inv_reshadow; [exact Hi|exact Ho|by eapply chains_detach; [apply Hi|exact Ho|]|done|].
  intros z [Hz|Hz]%elem_of_app; [|by apply (oi_live _ _ _ _ Hi)].
  apply edges_live; [apply Hi|]. apply elem_of_gather. by exists o, x.
Qed.

Lemma obj_inv_attach s k G o x w off l :
  inv s k (held w ++ G) -> ob_objects s !! o = Some x -> ob_shadow x = VM_OBJECT_NULL ->
  chain (ob_objects s) w l -> o ∉ l ->
  inv (with_objects (<[o := with_shadow w off x]> (ob_objects s)) s) k G.
Proof.
  intros Hi Ho Hs Hl Hnin. eapply obj_inv_reshadow; [exact Hi|exact Ho|..].
  - eapply chains_attach; [apply Hi|exact Ho|done|exact Hl|done].
  - rewrite Hs. done.
  - intros z Hz. apply (oi_live _ _ _ _ Hi), elem_of_app. by right.
Qed.

(** Pages and ports of an object change, those of the others do not. *)
Lemma obj_inv_replace s s' k G o x x' :
  inv s k G -> ob_objects s !! o = Some x -> ob_objects s' = <[o := x']> (ob_objects s) ->
  ob_shadow x' = ob_shadow x -> ob_ref_count x' = ob_ref_count x -> quiet x' ->
  (forall z y, z <> o -> ob_objects s !! z = Some y -> ports_ok (ob_ports s') z y) -> ports_ok (ob_ports s') o x' ->
  NoDup (page_addrs (<[o := x']> (ob_objects s))) -> vm_object_cached_list s' = vm_object_cached_list s ->
  vm_object_cached_count s' = vm_object_cached_count s -> inv s' k G.
Proof.
  intros [H1 H2 H3 H4 H5 H6 H7 H8 H9 H10 H11] Ho Hs' Hsh Hrc Hq Hpo Hpx Hnd Hc1 Hc2.
  assert (He : edges (<[o := x']> (ob_objects s)) ≡ₚ edges (ob_objects s)) by (eapply gather_same; [exact Ho|by rewrite Hsh]).
  assert (Hlook : forall z y, <[o := x']> (ob_objects s) !! z = Some y -> (z = o /\ y = x') \/ (z <> o /\ ob_objects s !! z = Some y)).
  { intros z y Hz. destruct (decide (z = o)) as [->|Hne].
    - left. rewrite lookup_insert_eq in Hz. by inversion Hz.
    - right. by rewrite lookup_insert_ne in Hz. }
  split; rewrite ?Hs', ?Hc1, ?Hc2; try done.
  - intros z y Hz. rewrite (count_perm z _ (G ++ edges (ob_objects s))) by (by rewrite He).
    destruct (Hlook z y Hz) as [[-> ->]|[? ?]]; [rewrite Hrc|]; by apply H1.
  - intros z Hz. destruct (H2 z Hz) as [y Hy]. destruct (decide (z = o)) as [->|]; [rewrite lookup_insert_eq; eauto|].
    rewrite lookup_insert_ne by done. eauto.
  - by eapply chains_same.
  - intros z y Hz. destruct (Hlook z y Hz) as [[-> ->]|[? ?]]; eauto.
  - intros z y Hz. destruct (Hlook z y Hz) as [[-> ->]|[? ?]]; eauto.
  - rewrite (Permutation_length He). lia.
  - intros z Hz. destruct (H7 z Hz) as (? & y & Hy & Hy0). split; [done|].
    destruct (decide (z = o)) as [->|]; [|exists y; by rewrite lookup_insert_ne].
    exists x'. rewrite lookup_insert_eq. simplify_eq. by rewrite Hrc.
  - intros z y Hz Hy. destruct (Hlook z y Hz) as [[-> ->]|[? ?]]; [|eauto]. eapply H10; [exact Ho|]. congruence.
Qed.

(** ** Collapsing *)

(** The object, the one it shadows and the rest of the chain. *)
Lemma chain_of_two m o x y : chains m -> m !! o = Some x -> ob_shadow x <> VM_OBJECT_NULL -> m !! ob_shadow x = Some y ->
  exists l, chain m (ob_shadow y) l /\ NoDup (o :: ob_shadow x :: l).
Proof.
  intros Hc Ho Hne Hy. destruct (Hc o x Ho) as [Hn [l Hl]]. pose proof (chain_nodup _ _ _ Hl) as Hnd.
  inversion Hl as [|? x' l1 _ Ho' Hl1]; subst; [done|]. rewrite Ho in Ho'. inversion Ho'; subst x'.
  inversion Hl1 as [E|? y' l2 _ Hy' Hl2]; subst; [by rewrite <- E in Hne|]. rewrite Hy in Hy'. inversion Hy'; subst y'.
  by exists l2.
Qed.

Lemma ports_elsewhere ports o b x y z w : z <> o -> z <> b -> ports_ok ports o x -> ports_ok ports b y -> ports_ok ports z w ->
  ports_ok (moved_ports o x y ports) z w.
Proof.
  intros Hzo Hzb [X1 X2 X3] [Y1 Y2 Y3] [W1 W2 W3].
  assert (Hkeep : forall q t, port_ok ports z q t -> port_ok (moved_ports o x y ports) z q t).
  { intros q t Hq. destruct (decide (q = IP_NULL)) as [|Hn]; [by left|]. destruct Hq as [|Hq]; [done|]. right.
    rewrite moved_ports_other; [done|]. unfold ports_of. simpl. rewrite !not_elem_of_cons. unfold port_ok in *.
    split_and!; [..|apply not_elem_of_nil]; intros ->; [destruct X1|destruct X2|destruct X3|destruct Y1|destruct Y2|destruct Y3];
      congruence. }
  split; by apply Hkeep.
Qed.

Lemma quiet_absorbed n x y : quiet x -> quiet y -> quiet (absorbed n x y).
Proof.
  intros [Q1 Q2 Q3 Q4 Q5] [Y1 Y2 Y3 Y4 Y5]. split; simpl; try done. apply absorb_forall; [|done..].
  by intros p off (? & ? & ?).
Qed.

Lemma page_addrs_absorbed m o b x y n w off : o <> b -> m !! o = Some x -> m !! b = Some y -> NoDup (page_addrs m) ->
  NoDup (page_addrs (<[o := absorbed n x y]> (<[o := with_shadow w off (with_shadow VM_OBJECT_NULL 0 x)]>
    (delete b (<[o := with_shadow VM_OBJECT_NULL 0 x]> m))))).
Proof.
  intros Hob Ho Hb Hnd. rewrite (delete_insert_ne _ b o) by done. rewrite !insert_insert_eq. unfold page_addrs in *.
  rewrite (gather_delete _ _ _ _ Ho), (gather_delete _ (delete o m) b y) in Hnd by (by rewrite lookup_delete_ne).
  rewrite gather_insert, (delete_delete _ o b). cbn [memq absorbed]. rewrite app_assoc in Hnd.
  destruct (submseteq_Permutation _ _ (absorb_addrs (shadow_offset x) (ob_size x) (memq x) (memq y))) as [k Hk].
  rewrite Hk in Hnd. rewrite !NoDup_app in *. destruct Hnd as ((? & _ & _) & Hd & ?). split_and!; [done| |done].
  intros z Hz. apply Hd. apply elem_of_app. by left.
Qed.

Lemma obj_inv_collapse s s' k G o b x y n :
  inv s k G -> ob_objects s !! o = Some x -> ob_shadow x = b -> b <> VM_OBJECT_NULL -> ob_objects s !! b = Some y ->
  ob_ref_count y = 1 -> ob_objects s' = delete b (<[o := absorbed n x y]> (ob_objects s)) ->
  ob_ports s' = moved_ports o x y (ob_ports s) -> vm_object_cached_list s' = vm_object_cached_list s ->
  vm_object_cached_count s' = vm_object_cached_count s -> inv s' k G.
Proof.
  intros Hi Ho Hxb Hbn Hb Hone E1 E2 E3 E4. subst b.
  destruct (chain_of_two _ _ _ _ (oi_chains _ _ _ _ Hi) Ho Hbn Hb) as (l & Hl & Hnd). set (b := ob_shadow x) in *.
  apply NoDup_cons in Hnd as [Hol Hnd]. apply NoDup_cons in Hnd as [Hbl Hnd]. rewrite not_elem_of_cons in Hol. destruct Hol as [Hob Hol].
  (* the object lets go of the backing object *)
  pose proof (obj_inv_detach s k G o x Hi Ho) as HA. set (mA := <[o := with_shadow VM_OBJECT_NULL 0 x]> (ob_objects s)) in *.
  assert (HbA : mA !! b = Some y) by (unfold mA; by rewrite lookup_insert_ne).
  (* which goes away *)
  destruct (obj_inv_release b y (with_objects mA s) k G HA Hbn HbA) as (HB & Hs16 & _).
  set (yB := with_ref_count _ y) in HB. set (sB := with_objects (<[b := yB]> _) _) in HB.
  assert (HT : inv (with_objects (delete b mA) s) (S k) (held (ob_shadow yB) ++ G)).
  { eapply (obj_inv_terminated b yB sB); [exact HB|apply lookup_insert_eq|cbn; lia|].
    split; try done. unfold sB. simpl. by rewrite delete_insert_eq. }
  set (sT := with_objects (delete b mA) s) in HT.
  assert (HoT : ob_objects sT !! o = Some (with_shadow VM_OBJECT_NULL 0 x)).
  { unfold sT, mA. simpl. rewrite lookup_delete_ne by done. apply lookup_insert_eq. }
  (* and is replaced by what it shadowed *)
  assert (HlT : chain (ob_objects sT) (ob_shadow yB) l).
  { eapply chain_agree; [exact Hl|]. intros q p Hq Hp. exists p. split; [|done]. unfold sT, mA. simpl.
    rewrite lookup_delete_ne, lookup_insert_ne; [done|by intros ->..]. }
  pose proof (obj_inv_attach sT (S k) G o _ (ob_shadow yB) (u32 (shadow_offset x + shadow_offset y)) l HT HoT eq_refl HlT Hol) as HD.
  apply (obj_inv_weaken _ _ (S k) k) in HD; [|lia].
  eapply (obj_inv_replace _ s' k G o _ (absorbed n x y)); [exact HD|apply lookup_insert_eq|..|exact E3|exact E4]; try done.
  - rewrite E1. simpl. rewrite insert_insert_eq. unfold mA. rewrite !(delete_insert_ne _ b o) by done. by rewrite insert_insert_eq.
  - apply quiet_absorbed; [by apply (oi_quiet _ _ _ _ Hi o)|by apply (oi_quiet _ _ _ _ Hi b)].
  - intros z w Hzo Hzw. simpl in Hzw. rewrite lookup_insert_ne in Hzw by done. apply lookup_delete_Some in Hzw as [Hzb Hzw].
    unfold mA in Hzw. rewrite lookup_insert_ne in Hzw by done. rewrite E2.
    by apply (ports_elsewhere _ o b); [..|apply (oi_ports _ _ _ _ Hi o)|apply (oi_ports _ _ _ _ Hi b)|apply (oi_ports _ _ _ _ Hi z)].
  - rewrite E2. apply (moved_ports_ok o b); [done|by apply (oi_ports _ _ _ _ Hi o)|by apply (oi_ports _ _ _ _ Hi b)].
  - by apply (page_addrs_absorbed _ o b); [..|apply Hi].
Qed.

(** ** Skipping the backing object *)

Definition counted_up (z : vm_object) : vm_object := with_ref_count (s16 (ob_ref_count z + 1)) z.
Definition counted_down (z : vm_object) : vm_object := with_ref_count (s16 (ob_ref_count z - 1)) z.

Definition bump (z : Z) (m : gmap Z vm_object) : gmap Z vm_object :=
  if z =? VM_OBJECT_NULL then m else alter counted_up z m.

Definition bypassed (o b : Z) (x y : vm_object) (m : gmap Z vm_object) : gmap Z vm_object :=
  <[b := counted_down y]> (<[o := skipping x y]> (bump (ob_shadow y) m)).

Lemma bump_ne z m q : q <> z -> bump z m !! q = m !! q.
Proof. intros Hne. unfold bump. destruct (z =? VM_OBJECT_NULL); [done|]. by rewrite lookup_alter_ne. Qed.

Lemma mwp_reference z (s : objects) Q :
  (z <> VM_OBJECT_NULL -> is_Some (ob_objects s !! z)) -> Q tt (with_objects (bump z (ob_objects s)) s) ->
  mwp (vm_object_reference z) Q s.
Proof.
  intros Hz HQ. unfold vm_object_reference. unfold bump in HQ. destruct (Z.eqb_spec z VM_OBJECT_NULL).
  - apply mwp_ret. by destruct s.
  - destruct (Hz ltac:(done)) as [w Hw]. eapply mwp_update_object; [exact Hw|].
    replace (<[z := _]> (ob_objects s)) with (alter counted_up z (ob_objects s)); [done|].
    apply map_eq. intros i. destruct (decide (i = z)) as [->|].
    + by rewrite lookup_alter_eq, lookup_insert_eq, Hw.
    + by rewrite lookup_alter_ne, lookup_insert_ne.
Qed.

Lemma bypass_spec o b x y s Q :
  o <> b -> o <> VM_OBJECT_NULL -> ob_objects s !! o = Some x -> ob_objects s !! b = Some y -> quiet y ->
  (ob_shadow y <> VM_OBJECT_NULL -> ob_shadow y <> o /\ ob_shadow y <> b /\ is_Some (ob_objects s !! ob_shadow y)) ->
  (forall s', ob_objects s' = bypassed o b x y (ob_objects s) -> ob_ports s' = ob_ports s ->
     vm_object_cached_list s' = vm_object_cached_list s -> vm_object_cached_count s' = vm_object_cached_count s -> Q tt s') ->
  mwp (bypass o b) Q s.
Proof.
  intros Hob Hon Ho Hb Hq Hz HQ. unfold bypass. apply mwp_bind. eapply mwp_object_at; [exact Hb|].
  apply mwp_bind. eapply mwp_update_object; [exact Ho|]. set (m1 := <[o := _]> (ob_objects s)).
  apply mwp_bind. apply mwp_reference.
  { intros Hne. destruct (Hz Hne) as (H1 & H2 & H3). unfold m1. simpl. by rewrite lookup_insert_ne. }
  assert (Hzo : o <> ob_shadow y \/ ob_shadow y = VM_OBJECT_NULL).
  { destruct (decide (ob_shadow y = VM_OBJECT_NULL)) as [|Hne]; [by right|left]. destruct (Hz Hne). congruence. }
  assert (Hzb : b <> ob_shadow y \/ ob_shadow y = VM_OBJECT_NULL).
  { destruct (decide (ob_shadow y = VM_OBJECT_NULL)) as [|Hne]; [by right|left]. destruct (Hz Hne). naive_solver. }
  assert (Hbump : forall q, q <> ob_shadow y \/ ob_shadow y = VM_OBJECT_NULL -> forall m, bump (ob_shadow y) m !! q = m !! q).
  { intros q [Hne|Hn] m; [by apply bump_ne|]. unfold bump. by rewrite Hn. }
  apply mwp_bind. eapply mwp_update_object; [simpl; rewrite (Hbump _ Hzo); apply lookup_insert_eq|].
  cbn [ob_objects with_objects]. set (x2 := with_shadow _ _ _). set (m2 := <[o := x2]> _).
  assert (Hb2 : m2 !! b = Some y) by (unfold m2, m1; by rewrite lookup_insert_ne, (Hbump _ Hzb), lookup_insert_ne).
  apply mwp_bind. eapply mwp_object_at; [exact Hb2|]. apply mwp_bind, mwp_when.
  rewrite (q_copy _ Hq), (proj2 (Z.eqb_neq VM_OBJECT_NULL o)) by congruence.
  eapply mwp_update_object; [exact Hb2|]. apply HQ; try done. cbn [ob_objects with_objects]. unfold bypassed, m2, m1.
  fold (counted_down y). f_equal. apply map_eq. intros q. destruct (decide (q = o)) as [->|Hqo].
  - by rewrite !lookup_insert_eq.
  - rewrite !(lookup_insert_ne _ o q) by done. unfold bump. destruct (ob_shadow y =? VM_OBJECT_NULL); [by rewrite lookup_insert_ne|].
    destruct (decide (q = ob_shadow y)) as [->|]; [rewrite !lookup_alter_eq|rewrite !lookup_alter_ne by done];
      by rewrite lookup_insert_ne.
Qed.

Lemma obj_inv_bump s k G z :
  inv s (S k) G -> (z <> VM_OBJECT_NULL -> z ∈ G ++ edges (ob_objects s)) ->
  inv (with_objects (bump z (ob_objects s)) s) k (held z ++ G).
Proof.
  intros Hi Hz. unfold bump, held. destruct (Z.eqb_spec z VM_OBJECT_NULL) as [->|Hne].
  - eapply (obj_inv_weaken _ _ (S k)); [lia|by destruct s].
  - specialize (Hz Hne). assert (Hw : is_Some (ob_objects s !! z)).
    { apply elem_of_app in Hz as [Hz|Hz]; [by apply (oi_live _ _ _ _ Hi)|]. apply edges_live; [apply Hi|done]. }
    destruct Hw as [w Hw]. replace (alter counted_up z (ob_objects s)) with (<[z := counted_up w]> (ob_objects s)).
    + by apply obj_inv_reference.
    + apply map_eq. intros i. destruct (decide (i = z)) as [->|].
      * by rewrite lookup_alter_eq, lookup_insert_eq, Hw.
      * by rewrite lookup_alter_ne, lookup_insert_ne.
Qed.

Lemma bypassed_order o b x y m off : o <> b -> o <> ob_shadow y \/ ob_shadow y = VM_OBJECT_NULL ->
  b <> ob_shadow y \/ ob_shadow y = VM_OBJECT_NULL -> off = u32 (shadow_offset x + shadow_offset y) ->
  <[o := with_shadow (ob_shadow y) off (with_shadow VM_OBJECT_NULL 0 x)]>
    (bump (ob_shadow y) (<[b := counted_down y]> (<[o := with_shadow VM_OBJECT_NULL 0 x]> m))) = bypassed o b x y m.
Proof.
  intros Hob Hzo Hzb ->. unfold bypassed, bump. apply map_eq. intros q.
  destruct (decide (q = o)) as [->|Hqo]; [by rewrite (lookup_insert_ne _ b o), !lookup_insert_eq|].
  rewrite (lookup_insert_ne _ o q) by done. destruct (Z.eqb_spec (ob_shadow y) VM_OBJECT_NULL) as [Hn|Hn].
  - destruct (decide (q = b)) as [->|]; [by rewrite !lookup_insert_eq|]. by rewrite !lookup_insert_ne.
  - destruct Hzo as [Hzo|]; [|done]. destruct Hzb as [Hzb|]; [|done].
    destruct (decide (q = b)) as [->|]; [by rewrite lookup_alter_ne, !lookup_insert_eq|].
    rewrite (lookup_insert_ne (<[o := _]> _) b q), (lookup_insert_ne _ o q) by done.
    destruct (decide (q = ob_shadow y)) as [->|].
    + rewrite !lookup_alter_eq. by rewrite !lookup_insert_ne.
    + by rewrite !lookup_alter_ne, !lookup_insert_ne.
Qed.

Lemma bump_lookup z m q p : m !! q = Some p -> exists p', bump z m !! q = Some p' /\ ob_shadow p' = ob_shadow p.
Proof.
  intros Hq. unfold bump. destruct (z =? VM_OBJECT_NULL); [by exists p|]. destruct (decide (q = z)) as [->|].
  - exists (counted_up p). by rewrite lookup_alter_eq, Hq.
  - exists p. by rewrite lookup_alter_ne.
Qed.

Lemma not_in_tail (q : Z) (l : list Z) m z : chain m z l -> q ∉ l -> q <> z \/ z = VM_OBJECT_NULL.
Proof. intros Hc Hq. inversion Hc; subst; [by right|left]. intros ->. apply Hq. by left. Qed.

Lemma obj_inv_bypass s s' k G o b x y :
  inv s k G -> ob_objects s !! o = Some x -> ob_shadow x = b -> b <> VM_OBJECT_NULL -> ob_objects s !! b = Some y ->
  ob_ref_count y <> 1 -> ob_objects s' = bypassed o b x y (ob_objects s) -> ob_ports s' = ob_ports s ->
  vm_object_cached_list s' = vm_object_cached_list s -> vm_object_cached_count s' = vm_object_cached_count s -> inv s' k G.
Proof.
  intros Hi Ho Hxb Hbn Hb Hone E1 E2 E3 E4. subst b.
  destruct (chain_of_two _ _ _ _ (oi_chains _ _ _ _ Hi) Ho Hbn Hb) as (l & Hl & Hnd). set (b := ob_shadow x) in *.
  apply NoDup_cons in Hnd as [Hol Hnd]. apply NoDup_cons in Hnd as [Hbl Hnd]. rewrite not_elem_of_cons in Hol. destruct Hol as [Hob Hol].
  pose proof (obj_inv_detach s k G o x Hi Ho) as HA. set (mA := <[o := with_shadow VM_OBJECT_NULL 0 x]> (ob_objects s)) in *.
  assert (HbA : mA !! b = Some y) by (unfold mA; by rewrite lookup_insert_ne).
  destruct (obj_inv_release b y (with_objects mA s) k G HA Hbn HbA) as (HB & Hs16 & Hge).
  fold (counted_down y) in HB. rewrite with_objects_twice in HB. cbn [ob_objects with_objects] in HB.
  set (mB := <[b := counted_down y]> mA) in HB.
  assert (HbB : mB !! b = Some (counted_down y)) by apply lookup_insert_eq.
  apply (obj_inv_counted b (counted_down y)) in HB; [|done|cbn; lia].
  apply obj_inv_bump with (z := ob_shadow y) in HB.
  2: { intros Hne. apply elem_of_app. right. apply elem_of_gather. exists b, (counted_down y). split; [done|]. by apply elem_of_held. }
  rewrite with_objects_twice in HB. cbn [ob_objects with_objects] in HB. set (mC := bump (ob_shadow y) mB) in HB.
  pose proof (not_in_tail _ _ _ _ Hl Hol) as Hzo. pose proof (not_in_tail _ _ _ _ Hl Hbl) as Hzb.
  assert (HoC : mC !! o = Some (with_shadow VM_OBJECT_NULL 0 x)).
  { assert (Hbu : bump (ob_shadow y) mB !! o = mB !! o).
    { destruct Hzo as [Hzo|Hn]; [by apply bump_ne|]. unfold bump. by rewrite Hn. }
    unfold mC. rewrite Hbu. unfold mB, mA. rewrite lookup_insert_ne by done. apply lookup_insert_eq. }
  assert (HlC : chain mC (ob_shadow y) l).
  { eapply chain_agree; [exact Hl|]. intros q p Hq Hp. apply bump_lookup. unfold mB, mA.
    rewrite !lookup_insert_ne; [done|by intros ->..]. }
  pose proof (obj_inv_attach (with_objects mC s) k G o _ (ob_shadow y) (u32 (shadow_offset x + shadow_offset y)) l HB HoC eq_refl HlC Hol) as HD.
  eapply obj_inv_ext; [..|exact HD]; try done. rewrite E1. symmetry. by apply bypassed_order.
Qed.

(** ** One round, and all of them *)

Inductive collapses (o : Z) (s s' : objects) : Prop :=
| Absorbs x y n :
    ob_objects s !! o = Some x -> ob_shadow x <> VM_OBJECT_NULL -> ob_objects s !! ob_shadow x = Some y ->
    pager_created x = false -> ob_internal y = true -> ob_ref_count y = 1 ->
    ob_objects s' = delete (ob_shadow x) (<[o := absorbed n x y]> (ob_objects s)) -> collapses o s s'
| Skips x y :
    ob_objects s !! o = Some x -> ob_shadow x <> VM_OBJECT_NULL -> ob_objects s !! ob_shadow x = Some y ->
    pager_created x = false -> ob_internal y = true -> pager_created y = false ->
    Forall (fun p => page_shadowed x p = true) (memq y) ->
    ob_objects s' = bypassed o (ob_shadow x) x y (ob_objects s) -> collapses o s s'.

(** What stays as it is in an object that is not taking part. *)
Record same_content (p p' : vm_object) : Prop := mk_same_content {
  sc_memq : memq p' = memq p;
  sc_size : ob_size p' = ob_size p;
  sc_internal : ob_internal p' = ob_internal p;
  sc_shadow : ob_shadow p' = ob_shadow p;
  sc_shadow_offset : shadow_offset p' = shadow_offset p;
  sc_created : pager_created p' = pager_created p;
  sc_pager : ob_pager p' = ob_pager p;
  sc_paging_offset : paging_offset p' = paging_offset p
}.

Lemma same_content_refl p : same_content p p.
Proof. by split. Qed.

Lemma bump_content z m q p : m !! q = Some p -> exists p', bump z m !! q = Some p' /\ same_content p p'.
Proof.
  intros Hq. unfold bump. destruct (z =? VM_OBJECT_NULL); [exists p; by split; [|apply same_content_refl]|].
  destruct (decide (q = z)) as [->|].
  - exists (counted_up p). rewrite lookup_alter_eq, Hq. by split.
  - exists p. rewrite lookup_alter_ne by done. by split; [|apply same_content_refl].
Qed.

(** The object afterwards, and the objects further down. *)
Lemma collapses_result o s s' : collapses o s s' -> exists x y x',
  ob_objects s !! o = Some x /\ ob_shadow x <> VM_OBJECT_NULL /\ ob_objects s !! ob_shadow x = Some y /\
  (o <> ob_shadow x -> ob_objects s' !! o = Some x') /\ ob_shadow x' = ob_shadow y /\ ob_size x' = ob_size x /\
  ob_ref_count x' = ob_ref_count x /\
  (forall q p, q <> o -> q <> ob_shadow x -> ob_objects s !! q = Some p ->
     exists p', ob_objects s' !! q = Some p' /\ same_content p p').
Proof.
  intros [x y n Ho Hn Hy Hc Hint Hr Hs|x y Ho Hn Hy Hc Hint Hcy Hp Hs].
  - exists x, y, (absorbed n x y). split_and!; try done.
    + intros Hob. rewrite Hs, lookup_delete_ne by done. apply lookup_insert_eq.
    + intros q p Hqo Hqb Hq. exists p. rewrite Hs, lookup_delete_ne, lookup_insert_ne by done. by split; [|apply same_content_refl].
  - exists x, y, (skipping x y). split_and!; try done.
    + intros Hob. rewrite Hs. unfold bypassed. rewrite lookup_insert_ne by done. apply lookup_insert_eq.
    + intros q p Hqo Hqb Hq. rewrite Hs. unfold bypassed. rewrite !lookup_insert_ne by done. by apply bump_content.
Qed.

Lemma collapses_chain o s s' L : collapses o s s' -> chains (ob_objects s) -> chain (ob_objects s) o L ->
  exists L', chain (ob_objects s') o L' /\ (length L' < length L)%nat.
Proof.
  intros Hc Hch HL. destruct (collapses_result _ _ _ Hc) as (x & y & x' & Ho & Hn & Hy & Hx' & Hsh & _ & _ & Hrest).
  destruct (chain_of_two _ _ _ _ Hch Ho Hn Hy) as (l & Hl & Hnd).
  apply NoDup_cons in Hnd as [Hol Hnd]. apply NoDup_cons in Hnd as [Hbl Hnd]. rewrite not_elem_of_cons in Hol. destruct Hol as [Hob Hol].
  destruct (Hch o x Ho) as [Hon _].
  assert (HL' : chain (ob_objects s) o (o :: ob_shadow x :: l)) by (econstructor; [done|done|]; by econstructor).
  rewrite (chain_det _ _ _ _ HL HL'). exists (o :: l). split; [|simpl; lia].
  econstructor; [done|by apply Hx'|]. rewrite Hsh. eapply chain_agree; [exact Hl|].
  intros q p Hq Hp. destruct (Hrest q p) as (p' & Hp' & Hsame); [by intros ->..|done|]. exists p'. by split; [|apply Hsame].
Qed.

Lemma gather_nodup f m o x : NoDup (gather f m) -> m !! o = Some x -> NoDup (f x).
Proof. intros Hnd Ho. rewrite (gather_delete f m o x Ho) in Hnd. by apply NoDup_app in Hnd as (? & _). Qed.

Section collapse.
Context (env : object_env).

Lemma collapse_step_spec s k G o :
  inv s k G -> (o <> VM_OBJECT_NULL -> is_Some (ob_objects s !! o)) ->
  mwp (collapse_step env o) (fun again s' => inv s' k G /\ if again then collapses o s s' else s' = s) s.
Proof.
  intros Hi Hlive. unfold collapse_step. destruct (Z.eqb_spec o VM_OBJECT_NULL) as [->|Hon]; [by apply mwp_ret|].
  destruct (Hlive Hon) as [x Ho]. apply mwp_bind. eapply mwp_object_at; [exact Ho|].
  destruct (pager_created x) eqn:Hcx; [by apply mwp_ret|]. cbn [orb]. destruct (_ || _); [by apply mwp_ret|]. cbn zeta.
  destruct (Z.eqb_spec (ob_shadow x) VM_OBJECT_NULL) as [|Hbn]; [by apply mwp_ret|].
  destruct (edges_live (ob_objects s) (ob_shadow x)) as [y Hb]; [apply Hi| |].
  { apply elem_of_gather. exists o, x. split; [done|]. by apply elem_of_held. }
  destruct (chain_of_two _ _ _ _ (oi_chains _ _ _ _ Hi) Ho Hbn Hb) as (l & Hl & Hnd).
  apply NoDup_cons in Hnd as [Hol Hnd]. apply NoDup_cons in Hnd as [Hbl _]. rewrite not_elem_of_cons in Hol. destruct Hol as [Hob Hol].
  assert (Hz : ob_shadow y <> VM_OBJECT_NULL -> ob_shadow y <> o /\ ob_shadow y <> ob_shadow x /\
    exists z, ob_objects s !! ob_shadow y = Some z /\ quiet z).
  { intros Hzn. inversion Hl as [E|? z l' _ Hz Hl']; subst; [by rewrite <- E in Hzn|]. rewrite not_elem_of_cons in Hol, Hbl.
    split_and!; [naive_solver..|]. exists z. split; [done|]. by apply (oi_quiet _ _ _ _ Hi (ob_shadow y)). }
  pose proof (oi_quiet _ _ _ _ Hi _ _ Hb) as Hqy.
  apply mwp_bind. eapply mwp_object_at; [exact Hb|]. destruct (ob_internal y) eqn:Hint; [|by apply mwp_ret]. cbn [negb orb].
  destruct (negb _); [by apply mwp_ret|]. apply mwp_bind.
  assert (Hcopied : mwp (if ob_shadow y =? VM_OBJECT_NULL then mret false
    else z ← object_at (ob_shadow y); mret (negb (ob_copy z =? VM_OBJECT_NULL))) (fun c s' => c = false /\ s' = s) s).
  { destruct (Z.eqb_spec (ob_shadow y) VM_OBJECT_NULL) as [|Hzn]; [by apply mwp_ret|].
    destruct (Hz Hzn) as (_ & _ & z & Hzz & Hq). apply mwp_bind. eapply mwp_object_at; [exact Hzz|]. apply mwp_ret.
    by rewrite (q_copy _ Hq). }
  eapply mwp_mono; [exact Hcopied|]. intros c s0 [-> ->]. destruct (Z.eqb_spec (ob_ref_count y) 1) as [Hone|Hmany].
  - apply mwp_bind, mwp_gets. destruct (vm_object_cache_lock_try env s); [|by apply mwp_ret]. cbn [negb].
    apply mwp_bind. eapply collapse_into_spec; [exact Hob|exact Ho|exact Hb|by apply (oi_quiet _ _ _ _ Hi o)|done| | | |exact Hz|].
    + by apply (oi_ports _ _ _ _ Hi).
    + by apply (oi_ports _ _ _ _ Hi).
    + exact (gather_nodup (fun x => pg_addr <$> memq x) _ _ _ (oi_pages _ _ _ _ Hi) Hb).
    + intros n s' E1 E2 E3 E4. apply mwp_ret. split; [by eapply (obj_inv_collapse s s' k G o _ x y n)|]. by eapply Absorbs.
  - cbn [negb vm_object_collapse_bypass_allowed orb]. destruct (pager_created y) eqn:Hcy; [by apply mwp_ret|].
    destruct (forallb (page_shadowed x) (memq y)) eqn:Hall; [|by apply mwp_ret].
    apply mwp_bind. eapply bypass_spec; [exact Hob|exact Hon|exact Ho|exact Hb|exact Hqy| |].
    + intros Hzn. destruct (Hz Hzn) as (? & ? & z & Hzz & _). eauto.
    + intros s' E1 E2 E3 E4. apply mwp_ret. split; [by eapply (obj_inv_bypass s s' k G o _ x y)|].
      eapply Skips; try done. apply Forall_forall. intros p Hp. apply list_elem_of_In in Hp.
      exact (proj1 (List.forallb_forall _ _) Hall p Hp).
Qed.

Lemma collapse_loop_spec fuel s k G o L :
  inv s k G -> chain (ob_objects s) o L -> (length L <= fuel)%nat ->
  mwp (collapse_loop env fuel o) (fun _ s' => inv s' k G /\ rtc (fun a b => inv a k G /\ collapses o a b) s s') s.
Proof.
  revert s L. induction fuel as [|fuel IH]; intros s L Hi HL Hlen; cbn [collapse_loop]; apply mwp_bind;
    (eapply mwp_mono; [eapply collapse_step_spec; [exact Hi|]; intros Hon; inversion HL; [done|eauto]|]);
    intros [] s1 [Hi1 Hc]; cbn [negb]; try (subst s1; by apply mwp_ret; split; [|apply rtc_refl]);
    destruct (collapses_chain _ _ _ _ Hc (oi_chains _ _ _ _ Hi) HL) as (L' & HL' & Hlt); [lia|].
  eapply mwp_mono; [eapply IH; [exact Hi1|exact HL'|lia]|]. intros [] s2 [Hi2 Hr]. split; [done|]. by eapply rtc_l.
Qed.

Lemma collapse_spec s k G o :
  inv s k G -> (o <> VM_OBJECT_NULL -> is_Some (ob_objects s !! o)) ->
  mwp (vm_object_collapse env o) (fun _ s' => inv s' k G /\ rtc (fun a b => inv a k G /\ collapses o a b) s s') s.
Proof.
  intros Hi Hlive. unfold vm_object_collapse. apply mwp_bind, mwp_gets.
  assert (HL : exists L, chain (ob_objects s) o L).
  { destruct (decide (o = VM_OBJECT_NULL)) as [->|Hon]; [exists []; constructor|]. destruct (Hlive Hon) as [x Hx].
    by apply (oi_chains _ _ _ _ Hi o x). }
  destruct HL as [L HL]. eapply collapse_loop_spec; [done|exact HL|by eapply chain_length].
Qed.

(** ** Coalescing *)

(** Pages of one object are taken away. *)
Record loses_pages (o : Z) (s s' : objects) : Prop := mk_loses_pages {
  lp_objects : exists x n l, ob_objects s !! o = Some x /\ ob_objects s' = <[o := with_pages n l x]> (ob_objects s) /\
    l ⊆+ memq x;
  lp_ports : ob_ports s' = ob_ports s;
  lp_cached : vm_object_cached_list s' = vm_object_cached_list s;
  lp_count : vm_object_cached_count s' = vm_object_cached_count s
}.

Lemma loses_pages_refl o x s : ob_objects s !! o = Some x -> loses_pages o s s.
Proof. intros Ho. split; try done. exists x, (pages_of x), (memq x). by rewrite with_pages_same, insert_id. Qed.

Lemma loses_pages_trans o s s' s'' : loses_pages o s s' -> loses_pages o s' s'' -> loses_pages o s s''.
Proof.
  intros [(x & n & l & Ho & E & Hl) P C N] [(x' & n' & l' & Ho' & E' & Hl') P' C' N']. split; [|congruence..].
  rewrite E, lookup_insert_eq in Ho'. inversion Ho'; subst x'. exists x, n', l'. split_and!; [done| |by etrans].
  rewrite E', E, insert_insert_eq. done.
Qed.

Lemma loses_pages_quiet o s s' x : loses_pages o s s' -> ob_objects s !! o = Some x -> quiet x ->
  exists x', ob_objects s' !! o = Some x' /\ quiet x'.
Proof.
  intros [(y & n & l & Ho & E & Hl) _ _ _] Hx [Q1 Q2 Q3 Q4 Q5]. simplify_eq. exists (with_pages n l y).
  rewrite E, lookup_insert_eq. split; [done|]. split; try done. simpl. rewrite Forall_forall in Q5 |- *.
  intros p Hp. apply Q5. by eapply elem_of_submseteq.
Qed.

Lemma remove_page_spec o x p s Q :
  ob_objects s !! o = Some x -> pg_absent p = false -> (forall s', loses_pages o s s' -> Q tt s') ->
  mwp (remove_page o p) Q s.
Proof.
  intros Ho Ha HQ. unfold remove_page. apply mwp_bind, mwp_when.
  assert (Hfree : forall s1, ob_objects s1 = ob_objects s -> ob_ports s1 = ob_ports s ->
    vm_object_cached_list s1 = vm_object_cached_list s -> vm_object_cached_count s1 = vm_object_cached_count s ->
    mwp (vm_page_free o p) Q s1).
  { intros s1 E1 E2 E3 E4. eapply (free_step o x); [by rewrite E1|done|]. intros s2 [(x' & Hx' & _) P C N] Ho2. apply HQ.
    rewrite Hx', lookup_insert_eq in Ho2. inversion Ho2; subst x'. split; [|congruence..].
    exists x, (s16 (resident_page_count x - 1), last_alloc x), (without p (memq x)). rewrite Hx', E1. split_and!; [done..|apply without_submseteq]. }
  destruct (negb _); [apply mwp_modify|]; by apply Hfree.
Qed.

Lemma remove_by_lookup_spec fuel o start last s x Q :
  ob_objects s !! o = Some x -> quiet x -> 0 <= start -> last <= u32_max - page_mask ->
  last - start <= page_size * Z.of_nat fuel -> (forall s', loses_pages o s s' -> Q tt s') ->
  mwp (remove_by_lookup fuel o start last) Q s.
Proof.
  unfold page_mask, page_size. revert start s x. induction fuel as [|fuel IH]; intros start s x Ho Hq Hst Hl Hfuel HQ; cbn [remove_by_lookup];
    (destruct (Z.ltb_spec start last) as [Hlt|Hge]; cbn [negb]; [|apply mwp_ret, HQ; by eapply loses_pages_refl]); [lia|].
  assert (Hu : u32 (start + page_size) = start + 4096) by (apply u32_id; unfold u32_range, page_size, u32_max in *; lia).
  rewrite Hu.
  assert (Hnext : forall s1, loses_pages o s s1 -> mwp (remove_by_lookup fuel o (start + 4096) last) Q s1).
  { intros s1 Hs1. destruct (loses_pages_quiet _ _ _ _ Hs1 Ho Hq) as (x1 & Ho1 & Hq1).
    eapply IH; [exact Ho1|exact Hq1|lia|done|lia|]. intros s2 Hs2. apply HQ. by eapply loses_pages_trans. }
  apply mwp_bind. apply mwp_bind. eapply mwp_object_at; [exact Ho|]. apply mwp_ret.
  destruct (List.find _ (memq x)) as [p|] eqn:Hf; apply mwp_bind; [|apply mwp_ret, Hnext; by eapply loses_pages_refl].
  apply List.find_some in Hf as [Hin _]. pose proof (q_pages _ Hq) as Hpq. rewrite Forall_forall in Hpq.
  destruct (Hpq p) as (_ & Ha & _); [by apply list_elem_of_In|]. by eapply remove_page_spec.
Qed.

Lemma remove_by_iteration_spec pages o start last s x Q :
  ob_objects s !! o = Some x -> quiet x -> Forall page_quiet pages -> (forall s', loses_pages o s s' -> Q tt s') ->
  mwp (remove_by_iteration o start last pages) Q s.
Proof.
  revert s x. induction pages as [|p pages IH]; intros s x Ho Hq Hp HQ; cbn [remove_by_iteration].
  - apply mwp_ret, HQ. by eapply loses_pages_refl.
  - inversion Hp as [|? ? Hp1 Hp2]; subst. apply mwp_bind, mwp_when.
    assert (Hnext : forall s1, loses_pages o s s1 -> mwp (remove_by_iteration o start last pages) Q s1).
    { intros s1 Hs1. destruct (loses_pages_quiet _ _ _ _ Hs1 Ho Hq) as (x1 & Ho1 & Hq1).
      eapply IH; [exact Ho1|exact Hq1|done|]. intros s2 Hs2. apply HQ. by eapply loses_pages_trans. }
    destruct (_ && _); [|apply Hnext; by eapply loses_pages_refl]. eapply remove_page_spec; [exact Ho|apply Hp1|done].
Qed.

Lemma page_remove_spec o start last s x Q :
  ob_objects s !! o = Some x -> quiet x -> 0 <= start <= last -> last <= u32_max - page_mask ->
  (forall s', loses_pages o s s' -> Q tt s') -> mwp (vm_object_page_remove o start last) Q s.
Proof.
  intros Ho Hq Hst Hl HQ. apply mwp_bind. eapply mwp_object_at; [exact Ho|]. destruct (_ <? _).
  - eapply remove_by_lookup_spec; [exact Ho|exact Hq|lia|done| |done]. unfold page_mask, page_size in *.
    rewrite u32_id by (unfold u32_range; lia). rewrite Z.shiftr_div_pow2 by lia. change (2 ^ 12) with 4096.
    pose proof (Z.div_mod (last - start) 4096). pose proof (Z.mod_pos_bound (last - start) 4096).
    pose proof (Z.div_pos (last - start) 4096). lia.
  - eapply remove_by_iteration_spec; [exact Ho|exact Hq|apply Hq|done].
Qed.

Lemma obj_inv_resized s k G o x n l size :
  inv s k G -> ob_objects s !! o = Some x -> l ⊆+ memq x ->
  inv (with_objects (<[o := with_size size (with_pages n l x)]> (ob_objects s)) s) k G.
Proof.
  intros Hi Ho Hl. eapply (obj_inv_insert VM_OBJECT_NULL VM_OBJECT_NULL _ k k G G); [done|exact Ho|done| |done..| | |done|lia| | |by left|by left].
  - destruct (oi_quiet _ _ _ _ Hi _ _ Ho) as [Q1 Q2 Q3 Q4 Q5]. split; try done. simpl. rewrite Forall_forall in Q5 |- *.
    intros p Hp. apply Q5. by eapply elem_of_submseteq.
  - simpl. by apply fmap_submseteq.
  - exact (oi_count _ _ _ _ Hi o x Ho).
  - intros Hc. destruct (oi_cached _ _ _ _ Hi o Hc) as (_ & y & Hy & Hy0). simplify_eq. split; [done|]. by destruct (oi_chains _ _ _ _ Hi _ _ Ho).
  - intros H0. by apply (oi_zero _ _ _ _ Hi o x).
Qed.

Lemma loses_pages_inv s s' k G o size :
  inv s k G -> loses_pages o s s' -> exists x', ob_objects s' !! o = Some x' /\ inv s' k G /\
    inv (with_objects (<[o := with_size size x']> (ob_objects s')) s') k G.
Proof.
  intros Hi [(x & n & l & Ho & E & Hl) P C N]. exists (with_pages n l x). split_and!; [rewrite E; apply lookup_insert_eq| |].
  - pose proof (obj_inv_resized _ _ _ _ _ n l (ob_size x) Hi Ho Hl) as Hi'.
    eapply obj_inv_ext; [..|exact Hi']; done.
  - eapply obj_inv_ext; [..|exact (obj_inv_resized _ _ _ _ _ n l size Hi Ho Hl)]; try done. simpl. by rewrite E, insert_insert_eq.
Qed.

Lemma coalesce_law s k G o offset size1 size2 :
  inv s k G -> held o ⊆ G -> (o <> VM_OBJECT_NULL -> in_object offset size1 size2) ->
  mwp (vm_object_coalesce env o offset size1 size2) (fun _ s' => inv s' k G) s.
Proof.
  intros Hi Hin Hb. unfold vm_object_coalesce. destruct (Z.eqb_spec o VM_OBJECT_NULL) as [->|Hon]; [by apply mwp_ret|].
  destruct (Hb Hon) as (B1 & B2 & B3 & B4). unfold page_mask, page_size in B4.
  assert (HoG : o ∈ G) by (apply Hin; by apply elem_of_held).
  apply mwp_bind. eapply mwp_mono; [eapply collapse_spec; [exact Hi|]; intros _; by apply (oi_live _ _ _ _ Hi)|].
  intros [] s1 [Hi1 _]. destruct (oi_live _ _ _ _ Hi1 o HoG) as [x Ho]. apply mwp_bind. eapply mwp_object_at; [exact Ho|].
  destruct (_ || _ || _ || _ || _); [by apply mwp_ret|]. cbn zeta. rewrite !u32_id by (unfold u32_range; lia).
  apply mwp_bind. eapply page_remove_spec; [exact Ho|by apply (oi_quiet _ _ _ _ Hi1 o)|lia|exact B4|].
  intros s2 Hs2. destruct (loses_pages_inv _ _ _ _ _ (offset + size1 + size2) Hi1 Hs2) as (x2 & Ho2 & Hi2 & Hi2').
  apply mwp_bind. eapply mwp_object_at; [exact Ho2|]. apply mwp_bind, mwp_when. destruct (_ <? _).
  - eapply mwp_update_object; [exact Ho2|]. by apply mwp_ret.
  - by apply mwp_ret.
Qed.
End collapse.

(** ** Reading *)

Lemma last_shadow_spec fuel s k G o L Q :
  inv s k G -> chain (ob_objects s) o L -> o <> VM_OBJECT_NULL -> (length L <= fuel)%nat ->
  (forall z x, ob_objects s !! z = Some x -> Q z s) -> mwp (last_shadow fuel o) Q s.
Proof.
  intros Hi. revert o L. induction fuel as [|fuel IH]; intros o L HL Hon Hlen HQ; (inversion HL as [E|? x l _ Hx Hl]; subst; [done|]);
    cbn [last_shadow]; [simpl in Hlen; lia|]. apply mwp_bind. eapply mwp_object_at; [exact Hx|].
  destruct (Z.eqb_spec (ob_shadow x) VM_OBJECT_NULL) as [|Hsn]; [apply mwp_ret; by eapply HQ|].
  eapply IH; [exact Hl|done|simpl in Hlen; lia|done].
Qed.

Lemma name_law s k G o : inv s k G -> held o ⊆ G -> mwp (vm_object_name o) (fun _ s' => inv s' k G) s.
Proof.
  intros Hi Hin. unfold vm_object_name. destruct (Z.eqb_spec o VM_OBJECT_NULL) as [->|Hon]; [by apply mwp_ret|].
  destruct (oi_live _ _ _ _ Hi o) as [x Ho]; [apply Hin; by apply elem_of_held|].
  destruct (oi_chains _ _ _ _ Hi o x Ho) as [_ [L HL]].
  apply mwp_bind, mwp_gets. apply mwp_bind. eapply last_shadow_spec; [exact Hi|exact HL|done|by eapply chain_length|].
  intros z y Hz. apply mwp_bind. eapply mwp_object_at; [exact Hz|]. apply mwp_bind, mwp_when.
  destruct (negb _); [apply mwp_modify|]; apply mwp_ret; [|done]. by eapply obj_inv_ext; [..|exact Hi].
Qed.

(** ** The instance *)

(** Where the zone and the port allocator find something, they find something
    new. *)
Record env_ok (env : object_env) : Prop := mk_env_ok {
  ev_zone : forall m, m !! oe_zalloc env m = None /\ oe_zalloc env m <> VM_OBJECT_NULL;
  ev_port : forall s, ob_ports s !! ipc_port_alloc_kernel env s = None /\ ipc_port_alloc_kernel env s <> IP_NULL
}.

Lemma obj_inv_perm s k G G' : G ≡ₚ G' -> inv s k G -> inv s k G'.
Proof.
  intros HG [H1 H2 H3 H4 H5 H6 H7 H8 H9 H10 H11]. split; try done.
  - intros o x Ho. rewrite <- (count_perm o (G ++ edges (ob_objects s))) by (by rewrite HG). by apply H1.
  - intros o Hin. apply H2. by rewrite HG.
  - by rewrite <- HG.
Qed.

Definition object_laws (env : object_env) (Hev : env_ok env) : @ObjectLaws objects (object_ops env).
Proof.
  refine (Build_ObjectLaws objects (object_ops env) inv _ _ _ _ _ _ _ _ _ _).
  - intros s k G G'. apply obj_inv_perm.
  - intros s k k' G. apply obj_inv_weaken.
  - intros s k G o. apply reference_law.
  - intros s k G Hi. by apply mwp_ret.
  - intros s k G o. apply deallocate_law.
  - intros s k G size. apply allocate_law; apply Hev.
  - intros s k G o offset length. apply shadow_law; apply Hev.
  - intros s k G o offset size1 size2. apply coalesce_law.
  - intros s k G o Hi Hin. destruct (oi_live _ _ _ _ Hi o Hin) as [x Ho]. apply mwp_bind.
    eapply mwp_object_at; [exact Ho|]. by apply mwp_ret.
  - intros s k G o. apply name_law.
Defined.
