(* ===== verification/VmObjectView.v ===== *)
(** * Memory objects: what collapsing keeps

    [contents m o offset] are the places where the data of an offset of the
    object [o] is looked for, in this order: a page, else the pager and then
    the object that is shadowed.  [vm_object_collapse] does not change them
    for the offsets that belong to the object. *)

From S2P Require Import Prelude Names Splay Table Space Hash Entry World Vm VmMap VmRing VmOwn VmObject VmObjectInv VmObjectFree VmObjectCollapse VmObjectLaws.

Inductive source :=
| FromPage (page : Z)
| FromPager (pager offset : Z).

Fixpoint sources (fuel : nat) (m : gmap Z vm_object) (o offset : Z) : list source :=
  match fuel with
  | O => []
  | S fuel =>
    match m !! o with
    | None => []
    | Some x =>
      match page_at offset (memq x) with
      | Some p => [FromPage (pg_addr p)]
      | None =>
        (if pager_created x then [FromPager (ob_pager x) (u32 (offset + paging_offset x))] else []) ++
        sources fuel m (ob_shadow x) (u32 (offset + shadow_offset x))
      end
    end
  end.

Definition contents (m : gmap Z vm_object) (o offset : Z) : list source := sources (size m) m o offset.

(** An object lies within the one it shadows, if that has a size. *)
Record nested (m : gmap Z vm_object) : Prop := mk_nested {
  ne_range : forall o x, m !! o = Some x -> 0 <= ob_size x /\ 0 <= shadow_offset x /\
    Forall (fun p => 0 <= pg_offset p <= u32_max) (memq x);
  ne_inside : forall o x y, m !! o = Some x -> m !! ob_shadow x = Some y ->
    shadow_offset x + ob_size x <= if ob_internal y then ob_size y else u32_max + 1;
  ne_size : forall o x, m !! o = Some x -> ob_size x <= u32_max + 1
}.

(** ** Looking for a page *)

Lemma page_at_app off l l' : page_at off (l ++ l') = match page_at off l with Some p => Some p | None => page_at off l' end.
Proof. unfold page_at. induction l as [|p l IH]; simpl; [done|]. by destruct (pg_offset p =? off). Qed.

Lemma page_at_cons off p l : page_at off (p :: l) = if pg_offset p =? off then Some p else page_at off l.
Proof. done. Qed.

Lemma page_at_absorb bo size off theirs mine :
  0 <= bo -> 0 <= off < size -> off + bo <= u32_max -> Forall (fun p => 0 <= pg_offset p <= u32_max) theirs ->
  pg_addr <$> page_at off (absorb bo size mine theirs) =
  match page_at off mine with Some p => Some (pg_addr p) | None => pg_addr <$> page_at (off + bo) theirs end.
Proof.
  intros Hbo Hoff Hmax Ht. revert mine. induction Ht as [|p l Hp _ IH]; intros mine; cbn [absorb].
  { by destruct (page_at off mine). }
  assert (Hnew : bo <= pg_offset p -> u32 (pg_offset p - bo) = pg_offset p - bo) by (intros; apply u32_id; unfold u32_range; lia).
  rewrite page_at_cons. destruct (Z.ltb_spec (pg_offset p) bo) as [Hlt|Hge]; cbn [orb].
  - rewrite IH. by rewrite (proj2 (Z.eqb_neq (pg_offset p) (off + bo))) by lia.
  - rewrite (Hnew Hge). destruct (Z.leb_spec size (pg_offset p - bo)) as [Hout|Hin].
    + rewrite IH. by rewrite (proj2 (Z.eqb_neq (pg_offset p) (off + bo))) by lia.
    + destruct (page_at (pg_offset p - bo) mine) as [pp|] eqn:Hpp; rewrite IH.
      * destruct (Z.eqb_spec (pg_offset p) (off + bo)) as [He|]; [|done].
        replace (pg_offset p - bo) with off in Hpp by lia. by rewrite Hpp.
      * rewrite page_at_app, page_at_cons. cbn [pg_offset at_offset]. destruct (page_at off mine); [done|].
        destruct (Z.eqb_spec (pg_offset p) (off + bo)).
        -- by rewrite (proj2 (Z.eqb_eq (pg_offset p - bo) off)) by lia.
        -- by rewrite (proj2 (Z.eqb_neq (pg_offset p - bo) off)) by lia.
Qed.

Lemma page_at_shadowed x l off :
  0 <= shadow_offset x -> 0 <= off < ob_size x -> off + shadow_offset x <= u32_max ->
  Forall (fun p => page_shadowed x p = true) l -> page_at off (memq x) = None -> page_at (off + shadow_offset x) l = None.
Proof.
  intros Hso Hoff Hmax Hl Hnone. destruct (page_at (off + shadow_offset x) l) as [p|] eqn:Hp; [|done]. exfalso.
  apply List.find_some in Hp as [Hin Hpo]. apply Z.eqb_eq in Hpo. rewrite Forall_forall in Hl.
  specialize (Hl p). rewrite list_elem_of_In in Hl. specialize (Hl Hin). unfold page_shadowed in Hl. cbn zeta in Hl.
  rewrite Hpo in Hl. replace (off + shadow_offset x - shadow_offset x) with off in Hl by lia.
  rewrite u32_id in Hl by (unfold u32_range; lia). fold (page_at off (memq x)) in Hl. rewrite Hnone in Hl.
  rewrite (proj2 (Z.leb_le (shadow_offset x) (off + shadow_offset x))), (proj2 (Z.leb_le off (ob_size x))) in Hl by lia. done.
Qed.

(** ** The fuel does not matter *)

Lemma sources_fuel m o L f f' off : chains m -> chain m o L -> (length L <= f)%nat -> (length L <= f')%nat ->
  sources f m o off = sources f' m o off.
Proof.
  intros Hch HL. revert f f' off. induction HL as [|o x L Ho Hx HL IH]; intros f f' off Hf Hf'.
  - assert (Hn : m !! VM_OBJECT_NULL = None) by (destruct (m !! VM_OBJECT_NULL) eqn:E; [by destruct (Hch _ _ E)|done]).
    destruct f, f'; simpl; by rewrite ?Hn.
  - simpl in Hf, Hf'. destruct f as [|f]; [lia|]. destruct f' as [|f']; [lia|]. simpl. rewrite Hx.
    destruct (page_at off (memq x)); [done|]. f_equal. apply IH; lia.
Qed.

Lemma sources_agree m m' o L f off : chain m o L -> (forall q p, q ∈ L -> m !! q = Some p -> exists p', m' !! q = Some p' /\ same_content p p') ->
  (o = VM_OBJECT_NULL -> m' !! o = None /\ m !! o = None) -> (length L <= f)%nat -> chains m -> chains m' ->
  sources f m' o off = sources f m o off.
Proof.
  intros HL. revert f off. induction HL as [|o x L Ho Hx HL IH]; intros f off Hag Hnull Hf Hch Hch'.
  - destruct (Hnull eq_refl) as [H1 H2]. destruct f; simpl; by rewrite ?H1, ?H2.
  - simpl in Hf. destruct f as [|f]; [lia|]. destruct (Hag o x ltac:(by left) Hx) as (x' & Hx' & [S1 S2 S3 S4 S5 S6 S7 S8]).
    simpl. rewrite Hx, Hx', S1, S4, S5, S6, S7, S8. destruct (page_at off (memq x)); [done|]. f_equal. apply IH; [..|lia|done|done].
    + intros q p Hq. apply Hag. by right.
    + intros Hn. split.
      * destruct (m' !! ob_shadow x) eqn:E; [by destruct (Hch' _ _ E)|done].
      * destruct (m !! ob_shadow x) eqn:E; [by destruct (Hch _ _ E)|done].
Qed.

Lemma u32_shift off a b : u32 (u32 (off + a) + b) = u32 (off + u32 (a + b)).
Proof. unfold u32. rewrite Zplus_mod_idemp_l, Zplus_mod_idemp_r. f_equal. lia. Qed.

(** ** One round *)

Lemma sources_step m o x f off : m !! o = Some x -> sources (S f) m o off =
  match page_at off (memq x) with
  | Some p => [FromPage (pg_addr p)]
  | None => (if pager_created x then [FromPager (ob_pager x) (u32 (off + paging_offset x))] else []) ++
      sources f m (ob_shadow x) (u32 (off + shadow_offset x))
  end.
Proof. intros Ho. cbn [sources]. by rewrite Ho. Qed.

Lemma null_is_no_object m : chains m -> m !! VM_OBJECT_NULL = None.
Proof. intros Hch. destruct (m !! VM_OBJECT_NULL) eqn:E; [by destruct (Hch _ _ E)|done]. Qed.

(** The objects below the two that take part are read as before. *)
Lemma below_unchanged o s s' x y l f off :
  collapses o s s' -> chains (ob_objects s) -> chains (ob_objects s') -> ob_objects s !! o = Some x ->
  ob_objects s !! ob_shadow x = Some y -> chain (ob_objects s) (ob_shadow y) l -> NoDup (o :: ob_shadow x :: l) ->
  (length l <= f)%nat -> sources f (ob_objects s') (ob_shadow y) off = sources f (ob_objects s) (ob_shadow y) off.
Proof.
  intros Hc Hch Hch' Ho Hy Hl Hnd Hf. apply NoDup_cons in Hnd as [Hol Hnd]. apply NoDup_cons in Hnd as [Hbl _].
  rewrite not_elem_of_cons in Hol. destruct (collapses_result _ _ _ Hc) as (x0 & y0 & x' & Ho0 & _ & Hy0 & _ & _ & _ & _ & Hrest).
  simplify_eq. eapply sources_agree; [exact Hl| |by intros ->; split; apply null_is_no_object|done..].
  intros q p Hq Hp. apply Hrest; [intros ->; tauto|by intros ->|done].
Qed.

Lemma collapses_contents o s s' k G x off :
  inv s k G -> nested (ob_objects s) -> collapses o s s' -> chains (ob_objects s') -> ob_objects s !! o = Some x ->
  0 <= off < ob_size x -> contents (ob_objects s') o off = contents (ob_objects s) o off.
Proof.
  intros Hi Hne Hc Hch' Ho Hoff. pose proof (oi_chains _ _ _ _ Hi) as Hch. destruct (Hch o x Ho) as [Hon [L HL]].
  destruct (collapses_chain _ _ _ _ Hc Hch HL) as (L' & HL' & _).
  pose proof (chain_length _ _ _ HL) as Hsz. pose proof (chain_length _ _ _ HL') as Hsz'. unfold contents.
  set (f := S (S (size (ob_objects s) + size (ob_objects s')))%nat).
  rewrite (sources_fuel _ _ _ _ f _ Hch HL Hsz) by lia. rewrite (sources_fuel _ _ _ _ f _ Hch' HL' Hsz') by lia.
  destruct (collapses_result _ _ _ Hc) as (x0 & y & x' & Ho0 & Hbn & Hy & Hx' & _). rewrite Ho in Ho0. inversion Ho0; subst x0. clear Ho0.
  destruct (chain_of_two _ _ _ _ Hch Ho Hbn Hy) as (l & Hl & Hnd). pose proof (chain_length _ _ _ Hl) as Hlen.
  assert (Hob : o <> ob_shadow x) by (apply NoDup_cons in Hnd as [Hnd _]; rewrite not_elem_of_cons in Hnd; tauto).
  destruct (ne_range _ Hne o x Ho) as (_ & Hso & _). destruct (ne_range _ Hne _ y Hy) as (_ & _ & Hpy).
  pose proof (ne_inside _ Hne o x y Ho Hy) as Hin. pose proof (ne_size _ Hne _ y Hy) as Hys.
  assert (Hmax : off + shadow_offset x <= u32_max) by (destruct (ob_internal y); lia).
  assert (Hu : u32 (off + shadow_offset x) = off + shadow_offset x) by (apply u32_id; unfold u32_range; lia).
  assert (Hb1 : forall g, (length l <= g)%nat -> sources g (ob_objects s') (ob_shadow y) (u32 (u32 (off + shadow_offset x) + shadow_offset y)) =
    sources g (ob_objects s) (ob_shadow y) (u32 (u32 (off + shadow_offset x) + shadow_offset y))).
  { intros g Hg. by eapply (below_unchanged o s s' x y l). }
  assert (Hf1 : forall g g', (length l <= g)%nat -> (length l <= g')%nat -> sources g (ob_objects s) (ob_shadow y) (u32 (u32 (off + shadow_offset x) + shadow_offset y)) =
    sources g' (ob_objects s) (ob_shadow y) (u32 (u32 (off + shadow_offset x) + shadow_offset y))).
  { intros g g'. by apply sources_fuel. }
  unfold f. rewrite (sources_step _ _ _ _ _ (Hx' Hob)), (sources_step _ _ _ _ _ Ho), (sources_step _ _ _ _ _ Hy).
  inversion Hc as [x1 y1 n Ho1 _ Hy1 Hcx Hint Hone Hs'|x1 y1 Ho1 _ Hy1 Hcx Hint Hcy Hall Hs'];
    rewrite Ho in Ho1; inversion Ho1; subst x1; clear Ho1; rewrite Hy in Hy1; inversion Hy1; subst y1; clear Hy1;
    rewrite Hcx; cbn [app].
  - assert (x' = absorbed n x y) as ->.
    { specialize (Hx' Hob). rewrite Hs', lookup_delete_ne, lookup_insert_eq in Hx' by done. by inversion Hx'. }
    cbn [memq absorbed pager_created ob_pager paging_offset ob_shadow shadow_offset].
    pose proof (page_at_absorb (shadow_offset x) (ob_size x) off (memq y) (memq x) Hso Hoff Hmax Hpy) as Habs.
    rewrite Hu in *. destruct (page_at off (memq x)) as [p|]; [destruct (page_at off (absorb _ _ _ _)); [by inversion Habs|done]|].
    destruct (page_at (off + shadow_offset x) (memq y)) as [p|]; [destruct (page_at off (absorb _ _ _ _)); [by inversion Habs|done]|].
    destruct (page_at off (absorb _ _ _ _)); [done|]. rewrite <- (u32_shift off), Hu, Hb1 by lia. f_equal; [|apply Hf1; lia].
    destruct (pager_created y) eqn:Hcy; [|done]. destruct (q_pager _ (oi_quiet _ _ _ _ Hi _ _ Hy) Hcy) as [_ Hpn].
    rewrite (proj2 (Z.eqb_neq _ _) Hpn). do 2 f_equal. rewrite (Z.add_comm (paging_offset y)), <- (u32_shift off), Hu. done.
  - assert (x' = skipping x y) as ->.
    { specialize (Hx' Hob). rewrite Hs' in Hx'. unfold bypassed in Hx'. rewrite lookup_insert_ne, lookup_insert_eq in Hx' by done. by inversion Hx'. }
    cbn [memq skipping with_shadow pager_created ob_shadow shadow_offset]. rewrite Hcx. cbn [app].
    destruct (page_at off (memq x)) eqn:Hp; [done|]. rewrite Hu in *.
    rewrite (page_at_shadowed x (memq y) off Hso Hoff Hmax Hall Hp), Hcy. cbn [app].
    rewrite <- (u32_shift off), Hu, Hb1 by lia. apply Hf1; lia.
Qed.

(** What an object is afterwards it was before. *)
Lemma collapses_back o s s' q p' : chains (ob_objects s) -> collapses o s s' -> ob_objects s' !! q = Some p' ->
  (q = o /\ exists x y, ob_objects s !! o = Some x /\ ob_objects s !! ob_shadow x = Some y /\ ob_internal y = true /\
     (p' = skipping x y \/ exists n, p' = absorbed n x y)) \/
  (q <> o /\ exists p, ob_objects s !! q = Some p /\ same_content p p').
Proof.
  intros Hch Hc Hq. destruct Hc as [x y n Ho Hbn Hy Hcx Hint Hone Hs'|x y Ho Hbn Hy Hcx Hint Hcy Hall Hs']; rewrite Hs' in Hq;
    destruct (chain_of_two _ _ _ _ Hch Ho Hbn Hy) as (l & _ & Hnd); apply NoDup_cons in Hnd as [Hol _];
    rewrite not_elem_of_cons in Hol; destruct Hol as [Hob _]; (destruct (decide (q = o)) as [->|Hqo]; [left|right]; (split; [done|])).
  - rewrite lookup_delete_ne, lookup_insert_eq in Hq by done. inversion Hq; subst. exists x, y. split_and!; try done. right. by exists n.
  - apply lookup_delete_Some in Hq as [_ Hq]. rewrite lookup_insert_ne in Hq by done. exists p'. by split; [|apply same_content_refl].
  - unfold bypassed in Hq. rewrite lookup_insert_ne, lookup_insert_eq in Hq by done. inversion Hq; subst. exists x, y. naive_solver.
  - unfold bypassed in Hq. destruct (decide (q = ob_shadow x)) as [->|Hqb].
    + rewrite lookup_insert_eq in Hq. inversion Hq; subst. exists y. by split.
    + rewrite !lookup_insert_ne in Hq by done. unfold bump in Hq. destruct (_ =? _); [exists p'; by split; [|apply same_content_refl]|].
      apply lookup_alter_Some in Hq as [(<- & p & Hp & ->)|[_ Hp]]; [exists p; by split|exists p'; by split; [|apply same_content_refl]].
Qed.

Lemma nested_absorb bo size mine theirs :
  Forall (fun p => 0 <= pg_offset p <= u32_max) mine -> Forall (fun p => 0 <= pg_offset p <= u32_max) theirs ->
  Forall (fun p => 0 <= pg_offset p <= u32_max) (absorb bo size mine theirs).
Proof.
  intros Hm Ht. revert mine Hm. induction Ht as [|p l Hp _ IH]; intros mine Hm; cbn [absorb]; [done|].
  destruct (_ || _); [by apply IH|]. destruct (page_at _ mine); [by apply IH|]. apply IH. apply Forall_app. split; [done|].
  constructor; [|done]. cbn [at_offset pg_offset]. pose proof (u32_in_range (pg_offset p - bo)) as Hr. unfold u32_range in Hr. lia.
Qed.

Lemma collapses_nested o s s' : chains (ob_objects s) -> nested (ob_objects s) -> collapses o s s' -> nested (ob_objects s').
Proof.
  intros Hch [N1 N2 N3] Hc. split.
  - intros q p' Hq. destruct (collapses_back _ _ _ _ _ Hch Hc Hq) as [(-> & x & y & Ho & Hy & _ & Hp')|(_ & p & Hp & [S1 S2 S3 S4 S5 S6 S7 S8])].
    + destruct (N1 o x Ho) as (A1 & A2 & A3). destruct (N1 _ y Hy) as (_ & B2 & B3).
      pose proof (u32_in_range (shadow_offset x + shadow_offset y)) as Hr. unfold u32_range in Hr.
      destruct Hp' as [->|[n ->]]; cbn; split_and!; [done|lia|done|done|lia|by apply nested_absorb].
    + rewrite S1, S2, S5. by apply (N1 q).
  - intros q p' w Hq Hw.
    assert (Hsize : forall z z', ob_objects s' !! z = Some z' -> exists z0, ob_objects s !! z = Some z0 /\ ob_size z' = ob_size z0 /\ ob_internal z' = ob_internal z0).
    { intros z z' Hz. destruct (collapses_back _ _ _ _ _ Hch Hc Hz) as [(-> & x & y & Ho & _ & _ & Hp')|(_ & p & Hp & [])].
      - exists x. by destruct Hp' as [->|[n ->]].
      - by exists p. }
    destruct (Hsize _ _ Hw) as (w0 & Hw0 & -> & ->).
    destruct (collapses_back _ _ _ _ _ Hch Hc Hq) as [(-> & x & y & Ho & Hy & Hint & Hp')|(_ & p & Hp & [S1 S2 S3 S4 S5 S6 S7 S8])].
    + assert (Hw1 : ob_objects s !! ob_shadow y = Some w0) by (by destruct Hp' as [->|[n ->]]).
      pose proof (N2 o x y Ho Hy) as I1. rewrite Hint in I1. pose proof (N2 _ y w0 Hy Hw1) as I2.
      destruct (N1 o x Ho) as (A1 & A2 & _). destruct (N1 _ y Hy) as (B1 & B2 & _).
      pose proof (N3 _ w0 Hw1) as I3.
      assert (Hu : u32 (shadow_offset x + shadow_offset y) <= shadow_offset x + shadow_offset y) by (unfold u32; apply Z.mod_le; lia).
      destruct Hp' as [->|[n ->]]; cbn; destruct (ob_internal w0); lia.
    + rewrite S2, S5. eapply N2; [exact Hp|by rewrite <- S4].
  - intros q p' Hq. destruct (collapses_back _ _ _ _ _ Hch Hc Hq) as [(-> & x & y & Ho & _ & _ & Hp')|(_ & p & Hp & Hsc)].
    + destruct Hp' as [->|[n ->]]; exact (N3 o x Ho).
    + rewrite (sc_size _ _ Hsc). by apply (N3 q).
Qed.

(** ** All rounds *)

Lemma collapse_contents s s' k G o x :
  rtc (fun a b => inv a k G /\ collapses o a b) s s' -> inv s' k G -> nested (ob_objects s) -> ob_objects s !! o = Some x ->
  nested (ob_objects s') /\ (exists x', ob_objects s' !! o = Some x' /\ ob_size x' = ob_size x) /\
  forall off, 0 <= off < ob_size x -> contents (ob_objects s') o off = contents (ob_objects s) o off.
Proof.
  intros Hr Hi' . revert x. induction Hr as [s|s s1 s2 [Hi Hc] Hr IH]; intros x Hne Ho; [by eauto|].
  assert (Hi1 : inv s1 k G) by (inversion Hr as [|? ? ? [? _]]; by subst).
  pose proof (oi_chains _ _ _ _ Hi) as Hch.
  destruct (collapses_result _ _ _ Hc) as (x0 & y & x' & Ho0 & Hbn & Hy & Hx' & _ & Hsz & _).
  rewrite Ho in Ho0. inversion Ho0; subst x0. destruct (chain_of_two _ _ _ _ Hch Ho Hbn Hy) as (l & _ & Hnd).
  assert (Hob : o <> ob_shadow x) by (apply NoDup_cons in Hnd as [Hnd _]; rewrite not_elem_of_cons in Hnd; tauto).
  destruct (IH Hi' x') as (Hn2 & (x2 & Hx2 & Hsz2) & Hcon); [by eapply collapses_nested|by apply Hx'|].
  split_and!; [done|exists x2; split; [done|congruence]|]. intros off Hoff. rewrite Hcon by (rewrite Hsz; lia).
  eapply collapses_contents; [exact Hi|done|exact Hc|apply Hi1|exact Ho|done].
Qed.
