(* ===== verification/VmSamples.v ===== *)
(** * A map over three objects

    A concrete state for the statements about maps and objects: the map at
    100 has three entries, two of them with objects; the object 11 shadows
    the object 12. *)

From S2P Require Import Prelude Names Splay Table Space Hash Entry World Vm VmMap VmRing VmOwn VmMapInv VmClip VmMapOps VmDelete VmEnter VmObject VmObjectInv VmObjectFree VmObjectCollapse VmObjectLaws VmObjectView.

(** ** Fresh addresses *)

Definition next_free {A} (m : gmap Z A) : Z := 1 + map_fold (fun k _ a => Z.max k a) 0 m.

Lemma next_free_above {A} (m : gmap Z A) : 0 < next_free m /\ forall k x, m !! k = Some x -> k < next_free m.
Proof.
  unfold next_free.
  cut (0 <= map_fold (fun k (_ : A) a => Z.max k a) 0 m /\ forall k x, m !! k = Some x -> k <= map_fold (fun k _ a => Z.max k a) 0 m).
  { intros [H1 H2]. split; [lia|]. intros k x Hk. specialize (H2 k x Hk). lia. }
  apply (map_fold_weak_ind (fun r m => 0 <= r /\ forall k x, m !! k = Some x -> k <= r)).
  - split; [lia|]. intros k x. by rewrite lookup_empty.
  - intros i x m' r _ [Hr IH]. split; [lia|]. intros k y [[-> _]|[_ Hk]]%lookup_insert_Some; [lia|].
    specialize (IH k y Hk). lia.
Qed.

Lemma next_free_fresh {A} (m : gmap Z A) : m !! next_free m = None /\ next_free m <> 0.
Proof.
  destruct (next_free_above m) as [H1 H2]. split; [|lia]. destruct (m !! next_free m) eqn:E; [|done]. specialize (H2 _ _ E). lia.
Qed.

(** ** Objects *)

Definition sample_object_env : object_env :=
  mk_object_env next_free (fun s => next_free (ob_ports s)) (fun _ => false) id 1 (fun _ => true).

Lemma sample_object_env_ok : env_ok sample_object_env.
Proof. split; intros; apply next_free_fresh. Qed.

Definition sample_page (addr offset : Z) : vm_page := mk_page addr offset (addr * 4096) false false false false true false.

Definition sample_object (size shadow name : Z) (pages : list vm_page) : vm_object :=
  mk_object pages size 1 (Z.of_nat (length pages)) VM_OBJECT_NULL shadow 0 IP_NULL 0 IP_NULL name 0 0 false false false
    false true true true 0 0.

Definition sample_vm_objects : objects := mk_objects
  (<[10 := sample_object 0x2000 VM_OBJECT_NULL 610 [sample_page 500 0]]>
   (<[11 := sample_object 0x2000 12 611 [sample_page 501 0]]>
    (<[12 := sample_object 0x4000 VM_OBJECT_NULL 612 [sample_page 502 0; sample_page 503 0x1000]]> ∅)))
  (<[610 := (IKOT_PAGING_NAME, 10)]> (<[611 := (IKOT_PAGING_NAME, 11)]> (<[612 := (IKOT_PAGING_NAME, 12)]> ∅)))
  [] 0 [].

Ltac sample_cases :=
  repeat match goal with
  | H : _ !! _ = Some _ |- _ => apply lookup_insert_Some in H as [[<- <-]|[_ H]]
  | H : ∅ !! _ = Some _ |- _ => by rewrite lookup_empty in H
  end.

Lemma sample_objects_inv : obj_inv VM_OBJECT_NULL sample_vm_objects 9 [10; 11].
Proof.
  split; cbn [ob_objects ob_ports vm_object_cached_list vm_object_cached_count sample_vm_objects].
  - intros o x Ho. sample_cases; vm_compute; reflexivity.
  - intros o [->|[->|Ho]%elem_of_cons]%elem_of_cons; [eexists; reflexivity..|by apply elem_of_nil in Ho].
  - intros o x Ho. sample_cases; (split; [done|]).
    + exists [10]. econstructor; [done|reflexivity|constructor].
    + exists [11; 12]. econstructor; [done|reflexivity|]. econstructor; [done|reflexivity|constructor].
    + exists [12]. econstructor; [done|reflexivity|constructor].
  - intros o x Ho. sample_cases; by split; repeat constructor.
  - intros o x Ho. sample_cases; (split; [by left|by left|by right]).
  - vm_compute. discriminate.
  - intros o Ho. by apply elem_of_nil in Ho.
  - constructor.
  - reflexivity.
  - intros o x Ho Hz. sample_cases; discriminate.
  - refine (bool_decide_unpack _ _). vm_compute. exact I.
Qed.

(** ** A map *)

Definition sample_mapped (object offset : Z) : vm_map_entry :=
  mk_map_entry object offset false false false false false VM_PROT_DEFAULT VM_PROT_ALL VM_INHERIT_DEFAULT 0 0 0.

Definition sample_ring : ring := mk_ring 0x1000 0xc0000000 (mk_header 3 true)
  [mk_region 201 0x1000 0x3000 (sample_mapped 10 0); mk_region 202 0x3000 0x4000 (sample_mapped VM_OBJECT_NULL 0);
   mk_region 203 0x6000 0x8000 (sample_mapped 11 0)].

Definition sample_map : vm_map := mk_vm_map Unlocked 77 0x5000 1 203 202 false false 0.

Definition sample_memory : vmem := mk_vmem
  (<[100 := mk_links 203 201 0x1000 0xc0000000]> (<[201 := mk_links 100 202 0x1000 0x3000]>
    (<[202 := mk_links 201 203 0x3000 0x4000]> (<[203 := mk_links 202 100 0x6000 0x8000]> ∅))))
  (<[201 := sample_mapped 10 0]> (<[202 := sample_mapped VM_OBJECT_NULL 0]> (<[203 := sample_mapped 11 0]> ∅)))
  (<[100 := mk_header 3 true]> ∅) (<[100 := sample_map]> ∅) ∅ [].

Definition sample_refs : refs := mk_refs 9 [10; 11].

#[export] Instance sample_ops : ObjectOps objects := object_ops sample_object_env.
#[export] Instance sample_object_laws : ObjectLaws objects := object_laws sample_object_env sample_object_env_ok.

Definition sample_vm_env : vm_env objects := mk_vm_env next_free 1 2 3 4 id (fun _ => false) 2.

Lemma sample_zalloc L : L !! zalloc sample_vm_env L = None.
Proof. apply next_free_fresh. Qed.

Lemma sample_own : own ∅ ∅ ∅ 100 ∅ sample_ring sample_map [] sample_refs (sample_memory, sample_vm_objects).
Proof.
  split; cbn [fst snd]; try done.
  - split.
    + intros hdr R [[<- <-]|[_ HR]]%lookup_insert_Some; [|by rewrite lookup_empty in HR]. split; try done.
      * intros r Hr. repeat (apply elem_of_cons in Hr as [->|Hr]; [reflexivity|]). by apply elem_of_nil in Hr.
      * refine (bool_decide_unpack _ _). vm_compute. exact I.
    + intros h1 h2 R1 R2 a [[<- <-]|[_ H1]]%lookup_insert_Some [[<- <-]|[_ H2]]%lookup_insert_Some; try done; by rewrite lookup_empty in *.
  - apply sample_objects_inv.
Qed.

Lemma sample_good : good 100 9 sample_ring sample_map sample_refs [].
Proof.
  split; [split|..]; try (vm_compute; congruence).
  - cbn. lia.
  - refine (bool_decide_unpack _ _). vm_compute. exact I.
  - refine (bool_decide_unpack _ _). vm_compute. exact I.
  - by repeat constructor.
  - unfold accounts. reflexivity.
  - unfold roomy. done.
Qed.
