(* ===== verification/Samples.v ===== *)
(** * Concrete states

    Small states on which the theorems are applied: a new space with one
    allocated name, a port, and the messages and threads around it. *)

From S2P Require Import Prelude Names Splay Table Space Hash Entry EntryInv Alloc World Port.
From S2P Require Import PortInv PortQueue Right RightBits RightLaws RightWp RightInv RightOps RightNotify Object ObjectInv.

#[export] Existing Instance generation_names.

(** ** A space *)

Definition sample_space : ipc_space := (ipc_entry_get (new_space 0)).1.
Definition sample_name : Z := 0x100.
Definition sample_entry : entry_ref := TableEntry 1.
Definition sample_addr : Z := 0x4000.
Definition sample_hash : Global.ghash := Global.ipc_hash_init 0 1000.

#[export] Instance sample_names : NameSpace (ipc_space * Global.ghash) := space_names sample_addr.
#[export] Instance sample_laws : NameSpaceLaws (ipc_space * Global.ghash) := space_names_laws sample_addr.

Lemma sample_space_new : space_inv None (new_space 0).
Proof. apply create_inv. simpl. lia. Qed.

Lemma sample_allocated : allocated (new_space 0) sample_space sample_name sample_entry.
Proof.
  pose proof (entry_get_spec (new_space 0) sample_space_new) as Hs.
  assert (Hget : (ipc_entry_get (new_space 0)).2 = Some (sample_name, sample_entry)) by reflexivity.
  unfold sample_space. destruct (ipc_entry_get _) as [s' res]. simpl in Hget. subst res. apply Hs.
Qed.

(** The space with a right in its one entry. *)
Definition sample_with (b o q : Z) : ipc_space * Global.ghash :=
  (write_entry sample_space sample_entry b o q, sample_hash).

Lemma sample_fresh :
  held (Some sample_name) (sample_space, sample_hash) sample_name sample_entry (sample_space, sample_hash)
    0 0 0 0 0 false false.
Proof.
  destruct sample_allocated as (Hinv & Hden & _). split; try done. by exists 0.
Qed.

Lemma sample_held b o q t u ma co :
  becomes 0 b t u ma co ->
  held (Some sample_name) (sample_space, sample_hash) sample_name sample_entry (sample_with b o q)
    b o q t u ma co.
Proof. intros Hb. exact (held_write _ _ _ _ _ _ _ _ _ _ _ _ b o q _ _ _ _ sample_fresh Hb). Qed.

(** Bits computed from their description. *)
Lemma sample_bits b t u ma co :
  0 <= b < 8388608 -> IE_BITS_TYPE b = t -> IE_BITS_UREFS b = u ->
  has b IE_BITS_MAREQUEST = ma -> has b IE_BITS_COMPAT = co -> becomes 0 b t u ma co.
Proof.
  intros Hb Ht Hu Hm Hc. split; [split; try done; unfold u32_range, u32_max; lia|].
  apply frame_of_bits. intros i Hi. rewrite Z.bits_0. by apply tree_bits_testbit.
Qed.

(** ** A port *)

Definition sample_port : Z := 0x8000.
Definition active_bits : Z := io_makebits true IOT_PORT IKOT_NONE.

Definition sample_port_data : ipc_port :=
  mk_port 5 active_bits sample_name sample_addr 2 2 1 0x9000 IP_NULL None IPS_NULL sample_port 0 0 5 [] ipc_mqueue_init.

Definition sample_world_of (p : ipc_port) : world :=
  mk_world {[ sample_port := p ]} ∅ ∅ ∅ 7 [].

Definition sample_world : world := sample_world_of sample_port_data.

Lemma sample_lookup p : w_ports (sample_world_of p) !! sample_port = Some p.
Proof. simpl. by rewrite lookup_singleton_eq. Qed.

Lemma sample_counts : counts_ok sample_port_data.
Proof. unfold counts_ok, u32_range, u32_max. simpl. lia. Qed.

Lemma sample_receivable : receivable sample_world sample_port_data.
Proof.
  split_and!; [unfold u32_range, u32_max; simpl; lia| |done].
  split; [constructor|..]; by intros ? ?%elem_of_nil.
Qed.

Lemma sample_alive b t u ma :
  becomes 0 b t u ma false -> wf_right t u ma false sample_port 0 ->
  has t MACH_PORT_TYPE_PORT_RIGHTS = true ->
  alive (Some sample_name) (sample_space, sample_hash) sample_name sample_entry
    (sample_with b sample_port 0) sample_world sample_port sample_port_data b t u 0 ma false.
Proof.
  intros Hb Hwf Hpr. split; [by apply sample_held|done|done|done|done|apply sample_counts|by left].
Qed.

(** The same port after its death. *)
Definition dead_port_data : ipc_port := set_ip_bits 0 sample_port_data.

(** ** A name in the splay tree *)

Definition sample_env : environment := {|
  other_threads := fun st => st;
  it_entries_alloc := fun _ => true;
  ite_alloc := fun m => Some (fresh (dom m))
|}.

(** A name whose index is beyond the table. *)
Definition tree_name : Z := 0x900.
Definition tree_entry : entry_ref := TreeEntry 1%positive.

(** A space with a send right for the sample port under [tree_name], linked in
    the reverse hash table. *)
Definition tree_space : ipc_space * Global.ghash :=
  match ipc_entry_alloc_name sample_addr sample_env 2 (new_space 0) sample_hash tree_name None with
  | Some (KERN_SUCCESS, Some r, s, g) =>
    ipc_hash_insert sample_addr
      (write_entry s r (Z.lor MACH_PORT_TYPE_SEND 1) sample_port 0) g sample_port tree_name r
  | _ => (new_space 0, sample_hash)
  end.

Lemma tree_space_lookup : (ns_lookup tree_space tree_name).2 = Some tree_entry.
Proof. vm_compute. done. Qed.

Lemma fresh_not_in (m : gmap ite_ptr ipc_tree_entry) p : ite_alloc sample_env m = Some p -> m !! p = None.
Proof. simpl. intros [= <-]. apply not_elem_of_dom. apply is_fresh. Qed.

(** ** Hash tables *)

Definition empty_table : list ipc_entry := new_table 4.

Lemma sample_table_ok : Local.local_ok empty_table (fun _ => False).
Proof.
  assert (Hslot : forall s, 0 <= s < tlen empty_table -> Local.slot empty_table s = 0).
  { intros s Hs. assert (Hc : s = 0 \/ s = 1 \/ s = 2 \/ s = 3) by (change (tlen empty_table) with 4 in Hs; lia).
    by destruct Hc as [-> |[-> |[-> | ->]]]. }
  split; [|..|done|done].
  - intros s Hs Hne. by destruct (Hne (Hslot s Hs)).
  - intros s1 s2 H1 _ Hne. by destruct (Hne (Hslot s1 H1)).
Qed.

Definition one_index_table : list ipc_entry :=
  Local.ipc_hash_local_insert empty_table (tlen empty_table) (ie_object (tget empty_table 2)) 2.

Lemma one_index_ok : Local.local_ok one_index_table (fun i => i = 2 \/ False).
Proof. apply Local.local_insert_spec; [apply sample_table_ok|vm_compute; done|auto]. Qed.

Lemma sample_hash_ok : Global.ghash_ok sample_hash.
Proof.
  split; [by vm_compute|]. split; [by vm_compute|]. intros k e Hin.
  destruct (Global.empty_buckets sample_hash) with (e := e); [vm_compute; repeat constructor|by exists k].
Qed.

(** ** A splay tree *)

Definition sample_tree : ipc_splay_tree (E := nat) :=
  ipc_splay_tree_insert
    (ipc_splay_tree_insert (ipc_splay_tree_init (mk_splay 0 ITE_NULL [] [])) 0x700 1%nat) 0x300 2%nat.

Lemma sample_tree_ok : splay_ok sample_tree /\ to_list sample_tree = [(0x300, 2%nat); (0x700, 1%nat)].
Proof.
  split; [|reflexivity]. apply insert_spec; [apply insert_spec; [by apply splay_ok_null|..]|..];
    try (unfold u32_range, u32_max; lia).
  - by intros ?%elem_of_nil.
  - change (to_list _) with [(0x700, 1%nat)]. simpl. intros ?%list_elem_of_singleton. lia.
Qed.

(** ** A space with one send right *)

Definition send_bits : Z := Z.lor MACH_PORT_TYPE_SEND 1.

Lemma send_bits_ok : becomes 0 send_bits MACH_PORT_TYPE_SEND 1 false false.
Proof. by apply sample_bits. Qed.

Lemma send_wf : wf_right MACH_PORT_TYPE_SEND 1 false false sample_port 0.
Proof. by constructor. Qed.

Abbreviation send_space := (sample_with send_bits sample_port 0).
Abbreviation sample_base := (sample_space, sample_hash).

Lemma send_alive :
  alive (Some sample_name) sample_base sample_name sample_entry send_space sample_world sample_port
    sample_port_data send_bits MACH_PORT_TYPE_SEND 1 0 false false.
Proof. apply sample_alive; [apply send_bits_ok|apply send_wf|done]. Qed.

Lemma send_space_inv : space_inv None send_space.1.
Proof. exact (h_ok _ _ _ _ _ _ _ _ _ _ _ _ (a_held _ _ _ _ _ _ _ _ _ _ _ _ _ _ send_alive)). Qed.

(** The entry after [ipc_entry_get], which has no object yet. *)
Lemma sample_space_ready :
  space_inv (Some sample_name) sample_space /\ denotes (Some sample_name) sample_space sample_name sample_entry.
Proof. destruct sample_allocated as (Hinv & Hden & _). done. Qed.

(** The same, as a map of names to rights. *)
Lemma sample_live b t u :
  becomes 0 b t u false false -> wf_right t u false false sample_port 0 -> has t MACH_PORT_TYPE_PORT_RIGHTS = true ->
  live_right (sample_with b sample_port 0) sample_world sample_name sample_port sample_port_data t u 0 false false.
Proof.
  intros Hb Hwf Hpr. destruct (sample_alive b t u false Hb Hwf Hpr) as [Hh _ _ Hp Hact Hc Hdn].
  destruct (wf_type _ _ _ _ _ _ Hwf) as [_ Ht].
  assert (Hhole : hole_of sample_name t = None) by (unfold hole_of; by rewrite (proj2 (Z.eqb_neq _ _))).
  split; try done.
  - rewrite <- Hhole. apply Hh.
  - split; [|done]. rewrite <- Hhole at 1. by apply (means_held _ _ _ _ _ _ _ _ _ _ _ _ _ Hh).
Qed.

Lemma send_live :
  live_right send_space sample_world sample_name sample_port sample_port_data MACH_PORT_TYPE_SEND 1 0 false false.
Proof. apply sample_live; [apply send_bits_ok|apply send_wf|done]. Qed.

Abbreviation receive_space := (sample_with MACH_PORT_TYPE_RECEIVE sample_port 0).

Lemma receive_live :
  live_right receive_space sample_world sample_name sample_port sample_port_data MACH_PORT_TYPE_RECEIVE 0 0 false false.
Proof. apply sample_live; [by apply sample_bits|by constructor|done]. Qed.
