(* ===== verification/RightTheorems.v ===== *)
(** * Theorems on rights (ipc/ipc_right.c)

    The operations on rights, run on the translated space of ipc_entry.c and
    ipc_hash.c.  Each theorem says that the call returns, with which result,
    and what has become of the entry, of the other names of the space and of
    the port's counts. *)

From S2P Require Import Prelude Names Splay Table Space Hash Entry EntryInv Alloc Dealloc World.
From S2P Require Import Port PortInv PortQueue Right RightBits RightLaws RightWp RightInv RightOps.
From S2P Require Import RightNotify Samples.

Section theorems.
Context `{PortConfig} `{!EntrySizes} (addr : Z).
#[local] Instance nspace : NameSpace (ipc_space * Global.ghash) := space_names addr.
#[local] Instance nlaws : NameSpaceLaws (ipc_space * Global.ghash) := space_names_laws addr.
Implicit Types (s : ipc_space * Global.ghash) (w : world) (p : ipc_port).

(** [ipc_right_copyin] of a live right the entry has succeeds with the
    port, for each of the six message types.  Send rights, send-once rights
    and references are conserved: what the port counts changes by what the
    entry loses and what the caller is given, one reference and the right
    named by the message type.  The entry stays well formed or becomes empty,
    no other name of the space and no other port is touched, and a send-once
    right is returned for a port-deleted notification only if it was the
    registered request of an entry that is now empty. *)
Theorem copyin_conserves_rights h0 s0 name r s w port p b t u q ma co m deadok :
  alive h0 s0 name r s w port p b t u q ma co -> copyin_type m = true -> permits m t = true ->
  (m = MACH_MSG_TYPE_MOVE_RECEIVE -> receivable w p) ->
  exists dn s' w', ipc_right_copyin name r m deadok (s, w) = Some ((KERN_SUCCESS, port, dn), (s', w')) /\
    taken h0 s0 name r m port p t q co w dn s' w'.
Proof.
  intros Ha Hm Hp Hr. destruct (wp_returns _ _ _ (copyin_spec _ _ _ _ _ _ _ _ _ _ _ _ _ _ m deadok Ha Hm Hp Hr))
    as (res & [s' w'] & Hrun & dn & -> & Ht). eauto.
Qed.

(** A copyin that asks for a right the entry does not have returns
    KERN_INVALID_RIGHT and changes nothing at all. *)
Theorem copyin_refusal_changes_nothing h0 s0 name r s w port p b t u q ma co m deadok :
  alive h0 s0 name r s w port p b t u q ma co -> copyin_type m = true -> permits m t = false ->
  ipc_right_copyin name r m deadok (s, w) = Some ((KERN_INVALID_RIGHT, IO_NULL, IP_NULL), (s, w)).
Proof.
  intros Ha Hm Hp. destruct (wp_returns _ _ _ (copyin_refused _ _ _ _ _ _ _ _ _ _ _ _ _ _ m deadok Ha Hm Hp))
    as (res & st & -> & -> & ->). done.
Qed.

(** Copyin of a send or send-once right whose port has died.  A compat
    entry disappears and the call returns KERN_INVALID_NAME.  Any other entry
    becomes a dead name, with one user reference more if a dead-name
    notification is on its way; with [deadok] the copyin succeeds with
    IO_DEAD and takes a user reference (none for COPY_SEND), without it the
    call returns KERN_INVALID_RIGHT.  The port loses the entry's reference. *)
Theorem copyin_of_dead_right h0 s0 name r s w port p b t u q ma co m deadok :
  held h0 s0 name r s b port q t u ma co -> wf_right t u ma co port q -> mortal t ->
  w_ports w !! port = Some p -> ip_active p = false -> takes_send m = true ->
  exists res s', ipc_right_copyin name r m deadok (s, w) =
      Some (res, (s', released port p (emitted (check_events t ma name) w))) /\
    if co then res = (KERN_INVALID_NAME, IO_NULL, IP_NULL) /\ gone h0 s0 name s'
    else dead_taken h0 s0 name r m (dead_urefs u q) deadok res s'.
Proof.
  intros Hh Hwf Hmo Hp Hact Hm.
  destruct (wp_returns _ _ _ (copyin_dead_spec _ _ _ _ _ _ _ _ _ _ _ _ _ _ m deadok Hh Hwf Hmo Hp Hact Hm))
    as (res & [s' w'] & Hrun & Hw & Hres). simpl in Hw. subst w'. eauto.
Qed.

(** [ipc_right_copyin_check] answers TRUE exactly when the copyin that
    follows (with dead rights allowed) returns KERN_SUCCESS, and changes
    nothing; so do the callers that check first and copy in later, under the
    same lock, rely on it. *)
Theorem copyin_check_predicts_copyin h0 s0 name r s w port p b t u q ma co m :
  held h0 s0 name r s b port q t u ma co -> wf_right t u ma co port q ->
  has t MACH_PORT_TYPE_PORT_RIGHTS = true -> w_ports w !! port = Some p -> counts_ok p ->
  copyin_type m = true ->
  (if ip_active p then dn_known p name q /\ receivable w p else mortal t /\ takes_send m = true) ->
  exists ok, ipc_right_copyin_check name r m (s, w) = Some (ok, (s, w)) /\
    (ok = true <-> exists obj dn st, ipc_right_copyin name r m true (s, w) = Some ((KERN_SUCCESS, obj, dn), st)).
Proof.
  intros Hh Hwf Hpr Hp Hc Hm Hst. destruct (ip_active p) eqn:Hact.
  - destruct Hst as [Hdn Hrv]. assert (Ha : alive h0 s0 name r s w port p b t u q ma co) by done.
    exists (permits m t). split; [by apply (copyin_check_spec _ _ _ _ _ _ _ _ _ _ _ _ _ _ _ Ha)|].
    destruct (permits m t) eqn:Hperm; (split; [intros ?|]); try done.
    + destruct (wp_returns _ _ _ (copyin_spec _ _ _ _ _ _ _ _ _ _ _ _ _ _ m true Ha Hm Hperm (fun _ => Hrv)))
        as (res & st & Hrun & dn & -> & _). eauto.
    + intros (obj & dn & st & Hrun).
      destruct (wp_returns _ _ _ (copyin_refused _ _ _ _ _ _ _ _ _ _ _ _ _ _ m true Ha Hm Hperm))
        as (res & st' & Hrun' & -> & _). by rewrite Hrun in Hrun'.
  - destruct Hst as [Hmo Hts]. exists (negb co).
    split; [by apply (copyin_check_dead_spec _ _ _ _ _ _ _ _ _ _ _ _ _ _ _ Hh Hwf Hmo Hp Hact Hts)|].
    destruct (wp_returns _ _ _ (copyin_dead_spec _ _ _ _ _ _ _ _ _ _ _ _ _ _ m true Hh Hwf Hmo Hp Hact Hts))
      as (res & st & Hrun & _ & Hres). destruct co; simpl; split; try done.
    + intros (obj & dn & st' & Hrun'). destruct Hres as [-> _]. by rewrite Hrun in Hrun'.
    + intros _. destruct Hres as [-> _]. eauto.
Qed.

(** [ipc_right_copyout] of a send right gives the entry a user reference,
    turning a receive right into a send/receive right, and the port counts
    one send right and one reference less outside the space.  Only when the
    user references would reach their maximum does it refuse, with
    KERN_UREFS_OVERFLOW and nothing changed, or, if the caller asked for it,
    leave the references at their maximum and drop the right. *)
Theorem copyout_send_conserves_rights h0 s0 name r s w port p b t u q ma co ov :
  held h0 s0 name r s b port q t u ma co -> receptacle t u ma co port q -> port <> IO_NULL ->
  accepts MACH_MSG_TYPE_PORT_SEND t -> w_ports w !! port = Some p -> counts_ok p ->
  exists kr s' w', ipc_right_copyout addr name r MACH_MSG_TYPE_PORT_SEND ov port (s, w) = Some (kr, (s', w')) /\
    if has t MACH_PORT_TYPE_SEND && (u + 1 =? MACH_PORT_UREFS_MAX) && negb ov
    then kr = KERN_UREFS_OVERFLOW /\ s' = s /\ w' = w
    else kr = KERN_SUCCESS /\
      given h0 s0 name r MACH_MSG_TYPE_PORT_SEND port p t u q ma co s' w' (Z.lor t MACH_PORT_TYPE_SEND)
        (if has t MACH_PORT_TYPE_SEND && (u + 1 =? MACH_PORT_UREFS_MAX) then u else u + 1).
Proof.
  intros H1 H2 H3 H4 H5 H6.
  destruct (wp_returns _ _ _ (copyout_send_spec addr _ _ _ _ _ _ _ _ _ _ _ _ _ _ ov H1 H2 H3 H4 H5 H6))
    as (kr & [s' w'] & Hrun & Hres). exists kr, s', w'. split; [done|].
  destruct (_ && _ && _); [|done]. by destruct Hres as [-> [= -> ->]].
Qed.

(** [ipc_right_copyout] of a receive right makes the space the receiver
    under the entry's name; a send right already there becomes a send/receive
    right and one of the two references is dropped.  The port it was in
    transit to loses its reference. *)
Theorem copyout_receive_makes_receiver h0 s0 name r s w port p b t u q ma co ov :
  held h0 s0 name r s b port q t u ma co -> receptacle t u ma co port q -> port <> IO_NULL ->
  accepts MACH_MSG_TYPE_PORT_RECEIVE t -> w_ports w !! port = Some p -> counts_ok p ->
  (ip_destination p = IP_NULL \/ ip_destination p <> port /\ is_Some (w_ports w !! ip_destination p)) ->
  exists s' w', ipc_right_copyout addr name r MACH_MSG_TYPE_PORT_RECEIVE ov port (s, w) =
      Some (KERN_SUCCESS, (s', w')) /\
    given h0 s0 name r MACH_MSG_TYPE_PORT_RECEIVE port p t u q ma co s' w' (Z.lor t MACH_PORT_TYPE_RECEIVE) u /\
    exists p', w_ports w' !! port = Some p' /\ ip_receiver p' = addr /\ ip_receiver_name p' = name.
Proof.
  intros H1 H2 H3 H4 H5 H6 H7.
  destruct (wp_returns _ _ _ (copyout_receive_spec addr _ _ _ _ _ _ _ _ _ _ _ _ _ _ ov H1 H2 H3 H4 H5 H6 H7))
    as (kr & [s' w'] & Hrun & -> & Hg & Hp'). eauto 10.
Qed.

(** [ipc_right_dealloc] on a live right releases one user reference.  The
    last reference of a send right takes the right out of the space: the port
    loses a send right and a reference, the dead-name request is cancelled,
    and the no-senders and port-deleted notifications that are due are sent.
    A send/receive entry keeps its receive right, a send-once right goes with
    a send-once notification, and an entry without such rights is refused. *)
Theorem dealloc_releases_one_reference h0 s0 name r s w port p b t u q ma co :
  alive h0 s0 name r s w port p b t u q ma co ->
  exists kr s' w', ipc_right_dealloc name r (s, w) = Some (kr, (s', w')) /\
    deallocates h0 s0 name r port p t u q ma co s w kr s' w'.
Proof.
  intros Ha. destruct (wp_returns _ _ _ (dealloc_live_spec _ _ _ _ _ _ _ _ _ _ _ _ _ _ Ha))
    as (kr & [s' w'] & Hrun & Hres). eauto.
Qed.

(** [ipc_right_delta] on a live send right adds [delta] user references.
    It refuses with KERN_INVALID_VALUE if there are too few and with
    KERN_UREFS_OVERFLOW if a send right would get the maximum or more, and
    then nothing has changed; when the count reaches zero the right goes as
    with [ipc_right_dealloc]. *)
Theorem delta_changes_send_references env h0 s0 name r s w port p b t u q ma co delta :
  alive h0 s0 name r s w port p b t u q ma co -> i32_range delta ->
  exists kr s' w', ipc_right_delta env name r MACH_PORT_RIGHT_SEND delta (s, w) = Some (kr, (s', w')) /\
    delta_send_result h0 s0 name r port p t u q ma co delta s w kr s' w'.
Proof.
  intros Ha Hd. destruct (wp_returns _ _ _ (delta_send_spec env _ _ _ _ _ _ _ _ _ _ _ _ _ _ delta Ha Hd))
    as (kr & [s' w'] & Hrun & Hres). eauto.
Qed.

(** [ipc_right_delta] on a dead name keeps its user references between 1
    and the maximum, deallocates the name when they reach zero, and refuses
    without a change otherwise. *)
Theorem delta_changes_dead_name_references env h0 s0 name r s w b u delta :
  held h0 s0 name r s b IO_NULL 0 MACH_PORT_TYPE_DEAD_NAME u false false ->
  0 < u <= MACH_PORT_UREFS_MAX -> i32_range delta ->
  exists kr s', ipc_right_delta env name r MACH_PORT_RIGHT_DEAD_NAME delta (s, w) = Some (kr, (s', w)) /\
    if u + delta <? 0 then kr = KERN_INVALID_VALUE /\ s' = s
    else if (0 <? delta) && (MACH_PORT_UREFS_MAX <? u + delta) then kr = KERN_UREFS_OVERFLOW /\ s' = s
    else kr = KERN_SUCCESS /\
      if u + delta =? 0 then gone h0 s0 name s'
      else exists b', held h0 s0 name r s' b' IO_NULL 0 MACH_PORT_TYPE_DEAD_NAME (u + delta) false false /\
             wf_right MACH_PORT_TYPE_DEAD_NAME (u + delta) false false IO_NULL 0.
Proof.
  intros Hh Hu Hd. destruct (wp_returns _ _ _ (delta_dead_spec env _ _ _ _ _ w _ _ delta Hh Hu Hd))
    as (kr & [s' w'] & Hrun & Hw & Hres). simpl in Hw. subst w'. eauto.
Qed.

(** [ipc_right_check] on an entry whose port is alive does nothing; if
    the port has died, the entry's reference is released and the entry is
    turned into a dead name with its user references (one more for a pending
    dead-name notification), or deallocated if it is a compat entry. *)
Theorem check_turns_dead_rights_into_dead_names h0 s0 name r s w port p b q t u ma co :
  held h0 s0 name r s b port q t u ma co -> w_ports w !! port = Some p ->
  wf_right t u ma co port q -> (ip_active p = false -> mortal t) ->
  if ip_active p then ipc_right_check port name r (s, w) = Some (false, (s, w))
  else exists s', ipc_right_check port name r (s, w) =
         Some (true, (s', released port p (emitted (check_events t ma name) w))) /\
       if co then gone h0 s0 name s'
       else exists b', held h0 s0 name r s' b' IO_NULL 0 MACH_PORT_TYPE_DEAD_NAME (dead_urefs u q) false false /\
              wf_right MACH_PORT_TYPE_DEAD_NAME (dead_urefs u q) false false IO_NULL 0.
Proof.
  intros Hh Hp Hwf Hmo.
  assert (Hwp : wp (ipc_right_check port name r) (fun x st =>
    if ip_active p then x = false /\ st = (s, w) else x = true /\ exists s',
      st = (s', released port p (emitted (check_events t ma name) w)) /\
      if co then gone h0 s0 name s' else exists b', held h0 s0 name r s' b' IO_NULL 0
        MACH_PORT_TYPE_DEAD_NAME (dead_urefs u q) false false) (s, w)).
  { eapply wp_check; [done..| |  |].
    - by intros ->.
    - intros -> ->. eauto.
    - intros -> -> s' b' Hh'. eauto 10. }
  apply wp_returns in Hwp as (x & st & Hrun & Hres). destruct (ip_active p) eqn:Hact.
  - by destruct Hres as [-> ->].
  - destruct Hres as (-> & s' & -> & Hres). exists s'. split; [done|]. destruct co; [done|].
    destruct Hres as [b' Hb']. exists b'. split; [done|]. constructor. by eapply dead_urefs_bound; [|apply Hmo].
Qed.

(** [ipc_right_dnrequest] on a live right, with nobody else running and
    memory available, goes round its loop at most twice, and registers the
    send-once right with the port under the entry's name; the request it
    replaces is returned, all others stay, and the entry stops being a compat
    entry. *)
Theorem dnrequest_registers env h0 s0 name r s w port p b t u q ma co imm notify :
  alive h0 s0 name r s w port p b t u q ma co -> ns_active s = true -> u32_range name ->
  name <> MACH_PORT_NULL -> notify <> IP_NULL -> quiet env p ->
  (forall d, ip_dnrequests p = Some d -> dn_ok d) ->
  exists previous s' w', ipc_right_dnrequest env 2 name imm notify (s, w) =
      Some ((KERN_SUCCESS, previous), (s', w')) /\
    requested h0 s0 name r port p t u q ma co notify w previous s' w'.
Proof.
  intros H1 H2 H3 H4 H5 H6 H7.
  destruct (wp_returns _ _ _ (dnrequest_alone env _ _ _ _ _ _ _ _ _ _ _ _ _ _ imm notify H1 H2 H3 H4 H5 H6 H7))
    as (res & [s' w'] & Hrun & prev & -> & Hreq). eauto.
Qed.

End theorems.

(** The copyin of an old-style message that takes a pure send right out
    of a space (MSG_TYPE_PORT with [dealloc]) does not take it out of the
    reverse hash table: the name and its tree entry are gone, and the reverse
    lookup of the port still returns them. *)
Theorem copyin_compat_leaves_stale_hash_entry :
  exists s' w',
    ipc_right_copyin_compat tree_name tree_entry MSG_TYPE_PORT true (tree_space, sample_world) =
      Some ((KERN_SUCCESS, sample_port), (s', w')) /\
    (ns_lookup s' tree_name).2 = None /\ is_ites s'.1 = ∅ /\
    (ns_hash_lookup s' sample_port).2 = Some (tree_name, tree_entry).
Proof.
  destruct (ipc_right_copyin_compat tree_name tree_entry MSG_TYPE_PORT true (tree_space, sample_world))
    as [[res [s' w']]|] eqn:Hrun; vm_compute in Hrun; [|discriminate Hrun].
  injection Hrun as <- <- <-. eexists _, _. split; [reflexivity|]. vm_compute. by split_and!.
Qed.

(** ** The theorems at work *)

Lemma copyin_conserves_rights_witness :
  exists dn s' w', ipc_right_copyin sample_name sample_entry MACH_MSG_TYPE_MOVE_SEND false
      (send_space, sample_world) = Some ((KERN_SUCCESS, sample_port, dn), (s', w')) /\
    taken (Some sample_name) sample_base sample_name sample_entry MACH_MSG_TYPE_MOVE_SEND sample_port
      sample_port_data MACH_PORT_TYPE_SEND 0 false sample_world dn s' w'.
Proof.
  exact (copyin_conserves_rights sample_addr _ _ _ _ _ _ _ _ _ _ _ _ _ _ MACH_MSG_TYPE_MOVE_SEND false
    send_alive eq_refl eq_refl ltac:(discriminate)).
Defined.

Lemma copyin_refusal_changes_nothing_witness :
  ipc_right_copyin sample_name sample_entry MACH_MSG_TYPE_MAKE_SEND true (send_space, sample_world) =
    Some ((KERN_INVALID_RIGHT, IO_NULL, IP_NULL), (send_space, sample_world)).
Proof.
  exact (copyin_refusal_changes_nothing sample_addr _ _ _ _ _ _ _ _ _ _ _ _ _ _ MACH_MSG_TYPE_MAKE_SEND true
    send_alive eq_refl eq_refl).
Defined.

Lemma copyin_of_dead_right_witness :
  exists res s', ipc_right_copyin sample_name sample_entry MACH_MSG_TYPE_COPY_SEND true
      (send_space, sample_world_of dead_port_data) =
      Some (res, (s', released sample_port dead_port_data
        (emitted (check_events MACH_PORT_TYPE_SEND false sample_name) (sample_world_of dead_port_data)))) /\
    dead_taken (Some sample_name) sample_base sample_name sample_entry MACH_MSG_TYPE_COPY_SEND 1 true res s'.
Proof.
  exact (copyin_of_dead_right sample_addr _ _ _ _ _ _ _ dead_port_data _ _ _ _ _ _ MACH_MSG_TYPE_COPY_SEND true
    (a_held _ _ _ _ _ _ _ _ _ _ _ _ _ _ send_alive) send_wf (or_introl eq_refl) (sample_lookup _) eq_refl eq_refl).
Defined.

Lemma copyin_check_predicts_copyin_witness :
  exists ok, ipc_right_copyin_check sample_name sample_entry MACH_MSG_TYPE_MOVE_SEND_ONCE
      (send_space, sample_world) = Some (ok, (send_space, sample_world)) /\
    (ok = true <-> exists obj dn st, ipc_right_copyin sample_name sample_entry MACH_MSG_TYPE_MOVE_SEND_ONCE true
       (send_space, sample_world) = Some ((KERN_SUCCESS, obj, dn), st)).
Proof.
  exact (copyin_check_predicts_copyin sample_addr _ _ _ _ _ _ _ sample_port_data _ _ _ _ _ _
    MACH_MSG_TYPE_MOVE_SEND_ONCE (a_held _ _ _ _ _ _ _ _ _ _ _ _ _ _ send_alive) send_wf eq_refl
    (sample_lookup _) sample_counts eq_refl (conj (or_introl eq_refl) sample_receivable)).
Defined.

(** A new entry that names the port, as [ipc_object_copyout] makes it. *)
Lemma empty_held :
  held (Some sample_name) sample_base sample_name sample_entry (sample_with 0 sample_port 0)
    0 sample_port 0 0 0 false false.
Proof. apply sample_held. by apply sample_bits. Qed.

Lemma copyout_send_conserves_rights_witness :
  exists kr s' w', ipc_right_copyout sample_addr sample_name sample_entry MACH_MSG_TYPE_PORT_SEND false sample_port
      (sample_with 0 sample_port 0, sample_world) = Some (kr, (s', w')) /\ kr = KERN_SUCCESS /\
    given (Some sample_name) sample_base sample_name sample_entry MACH_MSG_TYPE_PORT_SEND sample_port
      sample_port_data 0 0 0 false false s' w' MACH_PORT_TYPE_SEND 1.
Proof.
  exact (copyout_send_conserves_rights sample_addr _ _ _ _ _ _ _ sample_port_data _ _ _ _ _ _ false
    empty_held ltac:(by left) ltac:(done) ltac:(right; left; auto) (sample_lookup _) sample_counts).
Defined.

Definition travelling_port : ipc_port := no_receiver sample_port_data.

Lemma copyout_receive_makes_receiver_witness :
  exists s' w', ipc_right_copyout sample_addr sample_name sample_entry MACH_MSG_TYPE_PORT_RECEIVE false sample_port
      (send_space, sample_world_of travelling_port) = Some (KERN_SUCCESS, (s', w')) /\
    given (Some sample_name) sample_base sample_name sample_entry MACH_MSG_TYPE_PORT_RECEIVE sample_port
      travelling_port MACH_PORT_TYPE_SEND 1 0 false false s' w' MACH_PORT_TYPE_SEND_RECEIVE 1 /\
    exists p', w_ports w' !! sample_port = Some p' /\ ip_receiver p' = sample_addr /\
      ip_receiver_name p' = sample_name.
Proof.
  exact (copyout_receive_makes_receiver sample_addr _ _ _ _ _ _ _ travelling_port _ _ _ _ _ _ false
    (a_held _ _ _ _ _ _ _ _ _ _ _ _ _ _ send_alive) (or_intror send_wf) ltac:(done) ltac:(right; right; auto)
    (sample_lookup _) sample_counts (or_introl eq_refl)).
Defined.

Lemma dealloc_releases_one_reference_witness :
  exists kr s' w', ipc_right_dealloc sample_name sample_entry (send_space, sample_world) = Some (kr, (s', w')) /\
    deallocates (Some sample_name) sample_base sample_name sample_entry sample_port sample_port_data
      MACH_PORT_TYPE_SEND 1 0 false false send_space sample_world kr s' w'.
Proof. exact (dealloc_releases_one_reference sample_addr _ _ _ _ _ _ _ _ _ _ _ _ _ _ send_alive). Defined.

Definition sample_right_env : right_env (ipc_space * Global.ghash) :=
  mk_right_env (fun its => Some (0xa000, replicate (Z.to_nat (dn_size its)) (mk_ipr 0 0))) id id true.

Lemma delta_changes_send_references_witness :
  exists kr s' w', ipc_right_delta sample_right_env sample_name sample_entry MACH_PORT_RIGHT_SEND 65534
      (send_space, sample_world) = Some (kr, (s', w')) /\
    delta_send_result (Some sample_name) sample_base sample_name sample_entry sample_port sample_port_data
      MACH_PORT_TYPE_SEND 1 0 false false 65534 send_space sample_world kr s' w'.
Proof.
  exact (delta_changes_send_references sample_addr sample_right_env _ _ _ _ _ _ _ _ _ _ _ _ _ _ 65534
    send_alive ltac:(unfold i32_range; lia)).
Defined.

Definition dead_bits : Z := Z.lor MACH_PORT_TYPE_DEAD_NAME 3.

Lemma dead_held :
  held (Some sample_name) sample_base sample_name sample_entry (sample_with dead_bits IO_NULL 0)
    dead_bits IO_NULL 0 MACH_PORT_TYPE_DEAD_NAME 3 false false.
Proof. apply sample_held. by apply sample_bits. Qed.

Lemma delta_changes_dead_name_references_witness :
  exists kr s', ipc_right_delta sample_right_env sample_name sample_entry MACH_PORT_RIGHT_DEAD_NAME (-3)
      (sample_with dead_bits IO_NULL 0, sample_world) = Some (kr, (s', sample_world)) /\
    kr = KERN_SUCCESS /\ gone (Some sample_name) sample_base sample_name s'.
Proof.
  exact (delta_changes_dead_name_references sample_addr sample_right_env _ _ _ _ _ sample_world _ _ (-3)
    dead_held ltac:(unfold MACH_PORT_UREFS_MAX; lia) ltac:(unfold i32_range; lia)).
Defined.

Lemma check_turns_dead_rights_into_dead_names_witness :
  exists s', ipc_right_check sample_port sample_name sample_entry (send_space, sample_world_of dead_port_data) =
      Some (true, (s', released sample_port dead_port_data
        (emitted (check_events MACH_PORT_TYPE_SEND false sample_name) (sample_world_of dead_port_data)))) /\
    exists b', held (Some sample_name) sample_base sample_name sample_entry s' b' IO_NULL 0
        MACH_PORT_TYPE_DEAD_NAME 1 false false /\
      wf_right MACH_PORT_TYPE_DEAD_NAME 1 false false IO_NULL 0.
Proof.
  exact (check_turns_dead_rights_into_dead_names sample_addr _ _ _ _ _ _ _ dead_port_data _ _ _ _ _ _
    (a_held _ _ _ _ _ _ _ _ _ _ _ _ _ _ send_alive) (sample_lookup _) send_wf (fun _ => or_introl eq_refl)).
Defined.

Lemma sample_quiet : quiet sample_right_env sample_port_data.
Proof. do 2 (split; [done|]). split; [done|]. by eexists _, _. Qed.

Lemma dnrequest_registers_witness :
  exists previous s' w', ipc_right_dnrequest sample_right_env 2 sample_name false 0xb000 (send_space, sample_world) =
      Some ((KERN_SUCCESS, previous), (s', w')) /\
    requested (Some sample_name) sample_base sample_name sample_entry sample_port sample_port_data
      MACH_PORT_TYPE_SEND 1 0 false false 0xb000 sample_world previous s' w'.
Proof.
  exact (dnrequest_registers sample_addr sample_right_env _ _ _ _ _ _ _ _ _ _ _ _ _ _ false 0xb000
    send_alive eq_refl ltac:(unfold u32_range, u32_max, sample_name; lia) ltac:(done) ltac:(done)
    sample_quiet ltac:(discriminate)).
Defined.

