(* ===== verification/SpaceTheorems.v ===== *)
(** * Theorems on spaces (ipc/ipc_entry.c, ipc_splay.c, ipc_hash.c, ipc_space.c)

    The capability table: allocation, lookup and deallocation of names, the
    growth of the table while other threads run, and the two data structures
    underneath, the splay tree and the reverse hash tables. *)

From S2P Require Import Prelude Names Splay Table Space Hash Entry EntryInv Alloc Dealloc Grow.
From S2P Require Import Retry World Port PortInv PortQueue Right RightBits RightLaws RightWp.
From S2P Require Import RightInv Samples.

Section entries.
Context `{PortConfig} `{!EntrySizes}.

(** A new space satisfies the invariant of ipc_entry.c (the free list
    holds exactly the unused entries, collision bits and counters agree with
    the empty tree) and no name denotes anything in it. *)
Theorem created_space_is_empty initial :
  (initial < its_last)%nat ->
  space_inv None (new_space initial) /\ forall name r, ~ denotes None (new_space initial) name r.
Proof. apply create_inv. Qed.

(** [ipc_entry_lookup] finds the entry a name denotes, in the table or in
    the splay tree, and nothing else; it may reorganize the tree, but the
    space keeps its invariant and all names their meaning. *)
Theorem lookup_finds_what_names_denote s name :
  space_inv None s -> u32_range name ->
  let '(s', found) := ipc_entry_lookup s name in
  (forall r, found = Some r <-> denotes None s name r) /\
  space_inv None s' /\ (forall name' c, means None s' name' c <-> means None s name' c).
Proof.
  intros Hinv Hname. destruct (entry_lookup_spec s name Hinv Hname) as (tree & Heq & Hok & Hl & Hr).
  destruct (with_tree_inv None s tree Hinv Hok Hl) as (Hinv' & Hden & Hread).
  destruct (ipc_entry_lookup s name) as [s' found]. simpl in *. subst s'. split_and!; [done|done|].
  intros name' c. unfold means, content. setoid_rewrite Hden. by setoid_rewrite Hread.
Qed.

(** [ipc_entry_get] takes a free entry under a valid name that denoted
    nothing before, empty and with no right, and leaves every other name as
    it was; it fails only if every entry of the table is used. *)
Theorem get_allocates_a_fresh_name s :
  space_inv None s ->
  match ipc_entry_get s with
  | (s', None) => s' = s /\ forall i, 0 < i < is_table_size s -> used None (is_table s) i
  | (s', Some (name, r)) => allocated s s' name r /\ MACH_PORT_VALID name = true
  end.
Proof. apply entry_get_spec. Qed.

(** [ipc_entry_dealloc] of an entry whose right has been taken out makes
    exactly its name meaningless.  If names in the splay tree collide with
    the freed table entry, one of them moves into the table and keeps its
    meaning, and the collision bit stays on if there are more. *)
Theorem dealloc_frees_exactly_one_name addr hole s g name r :
  space_inv hole s -> hole = None \/ hole = Some name -> denotes hole s name r ->
  ie_object (read_entry s r) = IO_NULL ->
  let s' := (ipc_entry_dealloc addr s g name r).1 in
  space_inv None s' /\ forall name' c, means None s' name' c <-> name' <> name /\ means hole s name' c.
Proof. apply dealloc_spec. Qed.

(** Installing the larger table moves the tree entries that now fit into
    it, threads the free list through the new part, and recounts the small
    collisions; every name keeps its meaning and the invariant holds for the
    new size. *)
Theorem growing_keeps_all_names addr s g :
  space_inv None s -> (is_table_next s < its_last)%nat ->
  let nits := S (is_table_next s) in
  let s' := (grow_install addr (is_table_size s) (its_size (is_table_next s)) (its_size nits) nits s g).1 in
  space_inv None s' /\ is_table_size s' = its_size (is_table_next s) /\ is_table_next s' = nits /\
  is_active s' = is_active s /\ is_growing s' = is_growing s /\
  forall name c, means None s' name c <-> means None s name c.
Proof. apply grow_install_spec. Qed.

(** C17: [ipc_entry_grow_table] returns, whatever well-behaved threads do
    while the space is unlocked: the loop that grows the table again is
    bounded by the table of sizes.  It leaves an active space with its
    invariant, relates the spaces by nothing but the steps of the others, and
    returns KERN_NO_SPACE only for a table of the largest size. *)
Theorem grow_table_terminates addr env R s g :
  well_behaved env R -> is_active s = true -> space_inv None s ->
  exists res, ipc_entry_grow_table addr env s g = Some res /\ grow_returns env R s res.
Proof. intros WB. by apply grow_table_spec. Qed.

(** Whenever [ipc_entry_alloc] returns, among other threads, it has
    allocated a fresh name in the space as it found it at that moment, or says
    truthfully that the space is dead, that the table cannot grow, or that
    memory is short. *)
Theorem alloc_is_correct_among_threads addr env R fuel s g res :
  well_behaved env R -> good s -> ipc_entry_alloc addr env fuel s g = Some res -> alloc_returns R s res.
Proof. intros WB. by apply entry_alloc_spec. Qed.

(** Running alone, [ipc_entry_alloc] returns after at most one round for
    every size the table can still grow to, and then has allocated a fresh
    name without changing the meaning of any other, unless the space is out
    of names or memory. *)
Theorem alloc_returns_alone addr env s g :
  (forall st, other_threads env st = st) -> (forall m p, ite_alloc env m = Some p -> m !! p = None) ->
  is_active s = true -> is_growing s = false -> space_inv None s ->
  exists res, ipc_entry_alloc addr env (S (its_last - is_table_next s)) s g = Some res /\
    alloc_returns same_means s res.
Proof.
  intros Halone Hite Hact Hgro Hinv.
  destruct (alone_alloc_returns addr env Halone Hite (S (its_last - is_table_next s)) s g) as [res Hres]; [done..|lia|].
  exists res. split; [done|]. eapply entry_alloc_spec; [by apply alone_well_behaved|by intros _|done].
Qed.

(** Running alone, [ipc_entry_alloc_name] returns, and gives the entry
    the name denotes or a new one for it, in the table or in the splay tree,
    with every other name as before; except for names of index 0 whose
    generation is that of the head of the free list. *)
Theorem alloc_name_returns_alone addr env s g name :
  (forall st, other_threads env st = st) -> (forall m p, ite_alloc env m = Some p -> m !! p = None) ->
  is_active s = true -> is_growing s = false -> space_inv None s ->
  u32_range name -> MACH_PORT_VALID name = true -> ~ shadowed name ->
  exists res, ipc_entry_alloc_name addr env (its_last - is_table_next s + 2) s g name None = Some res /\
    alloc_name_returns same_means s name res.
Proof.
  intros Halone Hite Hact Hgro Hinv Hname Hv Hns.
  destruct (alone_alloc_name_returns addr env Halone Hite name Hname (its_last - is_table_next s + 2) s g None)
    as [res Hres]; [done..|simpl; lia|].
  exists res. split; [done|].
  eapply entry_alloc_name_spec; [by apply alone_well_behaved|done|done|done|by intros _| |exact Hres]. done.
Qed.

(** ** A space at work *)

Section work.
Context (addr : Z) (env : environment) (R : ipc_space -> ipc_space -> Prop) (WB : well_behaved env R).
#[local] Instance wspace : NameSpace (ipc_space * Global.ghash) := space_names addr.
#[local] Instance wlaws : NameSpaceLaws (ipc_space * Global.ghash) := space_names_laws addr.

(** What the kernel does with the entries of a space.  The first component is
    the name of an entry that was allocated and has no right yet: its caller
    fills or frees it before anything else happens. *)
Inductive work : option Z * (ipc_space * Global.ghash) -> option Z * (ipc_space * Global.ghash) -> Prop :=
| work_lookup s g name : is_active s = true -> u32_range name ->
    work (None, (s, g)) (None, ((ipc_entry_lookup s name).1, g))
| work_get s g s' name r : is_active s = true -> ipc_entry_get s = (s', Some (name, r)) ->
    work (None, (s, g)) (Some name, (s', g))
| work_alloc s g fuel kr res s' g' : ipc_entry_alloc addr env fuel s g = Some (kr, res, s', g') ->
    work (None, (s, g)) (fst <$> res, (s', g'))
| work_alloc_name s g fuel name kr res s' g' : u32_range name -> MACH_PORT_VALID name = true -> ~ shadowed name ->
    ipc_entry_alloc_name addr env fuel s g name None = Some (kr, res, s', g') ->
    work (None, (s, g))
      ((r ← res; if IE_BITS_TYPE (ie_bits (read_entry s' r)) =? 0 then Some name else None), (s', g'))
| work_write h sg name r bits object request : is_active sg.1 = true ->
    denotes h sg.1 name r -> h = None \/ h = Some name -> same_frame (ie_bits (read_entry sg.1 r)) bits -> 0 <= bits ->
    work (h, sg) (hole_after name bits, ns_write sg r bits object request)
| work_dealloc h s g name r : is_active s = true -> denotes h s name r -> h = None \/ h = Some name ->
    ie_object (read_entry s r) = IO_NULL -> work (h, (s, g)) (None, ipc_entry_dealloc addr s g name r)
| work_hash_insert h s g object name r : is_active s = true -> denotes h s name r ->
    work (h, (s, g)) (h, ipc_hash_insert addr s g object name r)
| work_hash_delete h s g object name r : is_active s = true -> denotes h s name r ->
    work (h, (s, g)) (h, ipc_hash_delete addr s g object name r)
| work_others s g : work (None, (s, g)) (None, other_threads env (s, g)).

Definition well_formed (st : option Z * (ipc_space * Global.ghash)) : Prop :=
  is_active st.2.1 = true -> space_inv st.1 st.2.1.

Lemma allocated_untyped s s' name r :
  allocated s s' name r -> IE_BITS_TYPE (ie_bits (read_entry s' r)) = 0.
Proof.
  intros (_ & Hd & Hfree & Hm). destruct (Hm name (content s' r)) as [Hc _].
  destruct Hc as [[_ Hc]|(r' & Hd' & _)]; [by exists r| |by destruct (Hfree r')].
  injection Hc as Hb _ _. by rewrite <- TYPE_RIGHT, Hb.
Qed.

Lemma work_well_formed st st' : work st st' -> well_formed st -> well_formed st'.
Proof.
  destruct 1 as [s g name Hact Hname|s g s' name r Hact Hget|s g fuel kr res s' g' Hal
    |s g fuel name kr res s' g' Hname Hv Hns Hal|h [s g] name r bits object request Hact Hd Hh Hf Hb
    |h s g name r Hact Hd Hh Ho|h s g object name r Hact Hd|h s g object name r Hact Hd|s g];
    unfold well_formed; simpl; intros Hok Hact'.
  - destruct (entry_lookup_spec s name (Hok Hact) Hname) as (tree & -> & Hok' & Hl & _).
    by destruct (with_tree_inv None s tree (Hok Hact) Hok' Hl).
  - pose proof (entry_get_spec s (Hok Hact)) as Hs. rewrite Hget in Hs. apply Hs.
  - apply (entry_alloc_spec addr env R WB) in Hal; [|done].
    destruct kr, res as [[name r]|]; simpl in Hal; try done;
      try (by destruct Hal; congruence); try (by destruct_and? Hal; auto).
    destruct Hal as (_ & _ & s0 & _ & _ & _ & Hal). apply Hal.
  - apply (entry_alloc_name_spec addr env R WB) in Hal; [|done..].
    destruct kr, res as [r|]; simpl in Hal; try done;
      try (by destruct Hal; congruence); try (by destruct_and? Hal; auto).
    destruct Hal as (_ & s0 & _ & Hinv & _ & [[Hd Hr]|Hal]).
    + simpl. rewrite (proj2 (Z.eqb_neq _ _)); [by eapply resplayed_inv|].
      refine (@ns_typed _ wspace wlaws None (s', g') name r _ _ ltac:(done)).
      * exact (resplayed_inv _ _ _ Hinv Hr).
      * exact (proj2 (resplayed_denotes _ _ _ _ _ Hr) Hd).
    + simpl. rewrite (proj2 (Z.eqb_eq _ _)); [apply Hal|]. by eapply allocated_untyped.
  - exact (proj1 (@ns_write_law _ wspace wlaws h (s, g) name r bits object request (Hok Hact) Hd Hh Hf Hb)).
  - exact (proj1 (@ns_dealloc_law _ wspace wlaws h (s, g) name r (Hok Hact) Hd Hh Ho)).
  - exact (proj1 (@ns_hash_insert_law _ wspace wlaws h (s, g) object name r (Hok Hact) Hd)).
  - exact (proj1 (@ns_hash_delete_law _ wspace wlaws h (s, g) object name r (Hok Hact) Hd)).
  - by apply (wb_good env R WB).
Qed.

Lemma works_well_formed st st' : rtc work st st' -> well_formed st -> well_formed st'.
Proof. induction 1 as [|x y z Hxy _ IH]; [done|]. intros Hx. apply IH. by eapply work_well_formed. Qed.

(** C12: Whatever sequence of operations runs on a space from its creation, among
    other well-behaved threads, the space stays well formed: as long as it is
    active it satisfies the invariant of ipc_entry.c, a name denotes one entry
    at most, an entry has one name, and only an entry that its allocator still
    holds in its hands has no right. *)
Theorem spaces_stay_well_formed initial g h s g' :
  (initial < its_last)%nat -> rtc work (None, (new_space initial, g)) (h, (s, g')) -> is_active s = true ->
  space_inv h s /\
  (forall name r1 r2, denotes h s name r1 -> denotes h s name r2 -> r1 = r2) /\
  (forall name1 name2 r, denotes h s name1 r -> denotes h s name2 r -> name1 = name2) /\
  (forall name r, denotes h s name r -> h <> Some name -> IE_BITS_TYPE (ie_bits (read_entry s r)) <> 0).
Proof.
  intros Hi Hrun Hact.
  assert (Hwf : well_formed (h, (s, g'))).
  { eapply works_well_formed; [exact Hrun|]. intros _. by apply create_inv. }
  specialize (Hwf Hact). simpl in Hwf. split_and!; [done|..].
  - intros name r1 r2. apply (@ns_unique _ wspace wlaws h (s, g') name r1 r2 Hwf).
  - intros n1 n2 r. apply (@ns_separate _ wspace wlaws h (s, g') n1 n2 r Hwf).
  - intros name r. apply (@ns_typed _ wspace wlaws h (s, g') name r Hwf).
Qed.
End work.
End entries.

(** With port generations, [ipc_entry_alloc_name] of the valid name 0xff
    succeeds and puts an entry into the tree that [ipc_entry_lookup] never
    finds: the lookup stops at the head of the free list, whose generation
    matches. *)
Theorem name_of_index_zero_is_lost :
  MACH_PORT_VALID 0xff = true /\
  exists r s g, ipc_entry_alloc_name sample_addr sample_env 2 (new_space 0) sample_hash 0xff None =
      Some (KERN_SUCCESS, Some r, s, g) /\
    forall bits, (ipc_entry_lookup (write_entry s r bits sample_port 0) 0xff).2 = None.
Proof.
  split; [done|]. eexists (TreeEntry 1%positive), _, _. split; [vm_compute; reflexivity|].
  intros bits. vm_compute. reflexivity.
Qed.

(** ** Reverse hash tables *)

Section hashes.
Context `{PortConfig}.
Import Local Global.

(** [ipc_hash_local_lookup] finds an index that is in the table and has
    the object, with the name of its entry, whenever there is one. *)
Theorem local_lookup_correct table held obj :
  local_ok table held -> 0 < tlen table ->
  match ipc_hash_local_lookup table (tlen table) obj with
  | Some (name, index) =>
    held index /\ ie_object (tget table index) = obj /\
    name = MACH_PORT_MAKEB index (ie_bits (tget table index))
  | None => forall index, held index -> ie_object (tget table index) <> obj
  end.
Proof. apply local_lookup_spec. Qed.

(** [ipc_hash_local_insert] adds the index to the open-addressing table
    and no search that succeeded before fails afterwards. *)
Theorem local_insert_correct table held index :
  local_ok table held -> 0 < index < tlen table -> ~ held index ->
  local_ok (ipc_hash_local_insert table (tlen table) (ie_object (tget table index)) index)
    (fun i => i = index \/ held i).
Proof. apply local_insert_spec. Qed.

(** [ipc_hash_local_delete] takes the index out and closes the hole, so
    that every remaining index is still reached from its hash value. *)
Theorem local_delete_correct table held index :
  local_ok table held -> held index ->
  local_ok (ipc_hash_local_delete table (tlen table) (ie_object (tget table index)) index)
    (fun i => i <> index /\ held i).
Proof. apply local_delete_spec. Qed.

(** C21: The local reverse hash table, an open-addressing table inside the table of
    entries, holds exactly the indices that were inserted and not deleted: a
    search finds an index with the object whenever there is one, an insertion
    loses no search, and a deletion closes the hole so that every remaining
    index is still reached from its hash value. *)
Theorem local_table_correct table held :
  local_ok table held -> 0 < tlen table ->
  (forall obj, match ipc_hash_local_lookup table (tlen table) obj with
   | Some (name, index) =>
     held index /\ ie_object (tget table index) = obj /\
     name = MACH_PORT_MAKEB index (ie_bits (tget table index))
   | None => forall index, held index -> ie_object (tget table index) <> obj
   end) /\
  (forall index, 0 < index < tlen table -> ~ held index ->
     local_ok (ipc_hash_local_insert table (tlen table) (ie_object (tget table index)) index)
       (fun i => i = index \/ held i)) /\
  (forall index, held index ->
     local_ok (ipc_hash_local_delete table (tlen table) (ie_object (tget table index)) index)
       (fun i => i <> index /\ held i)).
Proof.
  intros Hok Hlen. split_and!.
  - intros obj. by apply local_lookup_correct.
  - intros index. by apply local_insert_correct.
  - intros index. by apply local_delete_correct.
Qed.

(** A search of the global table finds a linked tree entry of the space
    and object if there is one, and moving it to the front of its bucket
    changes nothing else; insertion links exactly one more entry. *)
Theorem global_table_correct g space obj name ptr :
  ghash_ok g ->
  (let '(g', found) := ipc_hash_global_lookup g space obj in
   ghash_ok g' /\ (forall e, linked g' e <-> linked g e) /\
   match found with
   | Some (name, ptr) => linked g (mk_linked space obj name ptr)
   | None => forall name ptr, ~ linked g (mk_linked space obj name ptr)
   end) /\
  ghash_ok (ipc_hash_global_insert g space obj name ptr) /\
  (forall e, linked (ipc_hash_global_insert g space obj name ptr) e <->
             e = mk_linked space obj name ptr \/ linked g e).
Proof. intros Hg. split; [by apply global_lookup_spec|by apply global_insert_spec]. Qed.
End hashes.

(** The size [ipc_hash_init] starts from. *)
Definition wanted_size (configured ipc_tree_entry_max : Z) : Z :=
  if configured =? 0 then Z.max 32 (Z.shiftr ipc_tree_entry_max 8) else configured.

Lemma wanted_size_eq configured m :
  wanted_size configured m =
    (if configured =? 0 then (if Z.shiftr m 8 <? 32 then 32 else Z.shiftr m 8) else configured).
Proof. unfold wanted_size. destruct (configured =? 0); [|done]. destruct (Z.ltb_spec (Z.shiftr m 8) 32); lia. Qed.

(** [ipc_hash_init] rounds the size up to a power of two, so that the
    mask selects every bucket, and starts with an empty table. *)
Theorem hash_init_rounds_to_power_of_two configured m :
  0 < wanted_size configured m < 2147483648 ->
  let g := Global.ipc_hash_init configured m in
  exists k, 0 <= k /\ Global.ipc_hash_global_mask g + 1 = 2 ^ k /\
    wanted_size configured m <= 2 ^ k < 2 * wanted_size configured m /\
    Global.ghash_ok g /\ forall e, ~ Global.linked g e.
Proof.
  intros Hs. unfold Global.ipc_hash_init. rewrite <- wanted_size_eq. set (size := wanted_size configured m) in *.
  assert (Hempty : forall n mask, Global.ipc_hash_global_mask (Global.mk_ghash (replicate n []) mask) = mask /\
            (forall e, ~ Global.linked (Global.mk_ghash (replicate n []) mask) e)).
  { intros n mask. split; [done|]. apply Global.empty_buckets. by apply Forall_replicate. }
  assert (Hok : forall n mask, 0 <= mask -> n = Z.to_nat (mask + 1) ->
            Global.ghash_ok (Global.mk_ghash (replicate n []) mask)).
  { intros n mask Hm ->. split; [simpl; by rewrite length_replicate|]. split; [done|]. intros k e Hin.
    exfalso. eapply (proj2 (Hempty _ mask)). by exists k. }
  rewrite (u32_id (size - 1)) by (unfold u32_range, u32_max; lia).
  destruct (Z.eqb_spec (Z.land size (size - 1)) 0) as [Hz|Hz]; cbn [negb].
  - destruct (Z.eq_dec size 1) as [H1|H1].
    + exists 0. rewrite H1. do 3 (split; [done|]). split; [by apply Hok|apply Hempty].
    + pose proof (Global.low_ones_power (size - 1) ltac:(lia)) as Hp.
      rewrite Z.sub_add in Hp. specialize (Hp Hz). exists (Z.log2 (size - 1) + 1).
      pose proof (Z.log2_nonneg (size - 1)).
      do 3 (split; [cbn [Global.ipc_hash_global_mask]; lia|]).
    split; [apply Hok; [lia|f_equal; lia]|apply Hempty].
  - assert (Hne : size - 1 <> 0) by (intros He; apply Hz; rewrite He; apply Z.land_0_r).
    pose proof (Global.round_up_spec 32 (size - 1) 0) as Hr. rewrite Z.lor_0_r in Hr. change (2 ^ 0) with 1 in Hr.
    pose proof (Z.log2_nonneg (size - 1)). assert (Hlog : Z.log2 (size - 1) < 31) by (apply Z.log2_lt_pow2; lia).
    rewrite Hr by lia. pose proof (Z.log2_spec (size - 1) ltac:(lia)) as [Hlo Hhi].
    pose proof (Z.pow_succ_r 2 (Z.log2 (size - 1)) ltac:(lia)) as Hsucc.
    assert (Hbig : 2 ^ (Z.log2 (size - 1) + 1) <= 2 ^ 31) by (apply Z.pow_le_mono_r; lia).
    change (2 ^ 31) with 2147483648 in Hbig. unfold Z.succ in *.
    rewrite u32_id by (unfold u32_range, u32_max; lia).
    exists (Z.log2 (size - 1) + 1). do 3 (split; [cbn [Global.ipc_hash_global_mask]; lia|]).
    split; [apply Hok; [lia|f_equal; lia]|apply Hempty].
Qed.

(** ** Splay trees *)

Section splay.
Context {E : Type}.
Implicit Types s : ipc_splay_tree (E := E).

(** A lookup in a splay tree, whatever shape earlier accesses gave it,
    finds the entry of the name and no other, and keeps the contents. *)
Theorem splay_lookup_correct s name :
  splay_ok s ->
  splay_ok (ipc_splay_tree_lookup s name).1 /\
  to_list (ipc_splay_tree_lookup s name).1 = to_list s /\
  (forall e, (ipc_splay_tree_lookup s name).2 = Some e <-> (name, e) ∈ to_list s).
Proof. apply lookup_spec. Qed.

(** Inserting a name puts it in its place in the order of names, and
    deleting it again gives back the contents. *)
Theorem splay_insert_delete_roundtrip s name entry :
  splay_ok s -> u32_range name -> name ∉ keys (to_list s) ->
  let s1 := ipc_splay_tree_insert s name entry in
  splay_ok s1 /\ to_list s1 = below name (to_list s) ++ (name, entry) :: above name (to_list s) /\
  splay_ok (ipc_splay_tree_delete s1 name) /\ to_list (ipc_splay_tree_delete s1 name) = to_list s.
Proof.
  intros Hok Hr Hn s1. destruct (insert_spec s name entry Hok Hr Hn) as [Hok1 Hl1]. fold s1 in Hok1, Hl1.
  assert (Hin : name ∈ keys (to_list s1)).
  { rewrite Hl1. apply elem_of_keys. exists entry. apply elem_of_app. right. apply elem_of_cons. by left. }
  destruct (delete_spec s1 name Hok1 Hin) as [Hok2 Hl2]. split_and!; [done|done|done|].
  pose proof (splay_ok_sorted s1 Hok1) as Hs. rewrite Hl1 in Hs, Hl2.
  rewrite Hl2. destruct (filters_around name name entry (below name (to_list s)) (above name (to_list s)))
    as (-> & _ & ->).
  { intros x Hx. by apply elem_of_keys_below in Hx as [_ Hx]. }
  { intros x Hx. by apply elem_of_keys_above in Hx as [_ Hx]. }
  rewrite Z.ltb_irrefl. by apply below_above; [apply splay_ok_sorted|].
Qed.

(** A split cuts the contents at a name, and joining the parts gives the
    contents back. *)
Theorem splay_split_join_roundtrip s name small :
  splay_ok s -> u32_range name ->
  let '(s1, small1) := ipc_splay_tree_split s name small in
  splay_ok s1 /\ splay_ok small1 /\
  to_list s1 = from name (to_list s) /\ to_list small1 = below name (to_list s) /\
  let '(s2, small2) := ipc_splay_tree_join s1 small1 in
  splay_ok s2 /\ to_list small2 = [] /\ to_list s2 = to_list s.
Proof.
  intros Hok Hr. pose proof (split_spec s name small Hok Hr) as Hs.
  destruct (ipc_splay_tree_split s name small) as [s1 small1]. destruct Hs as (H1 & H2 & H3 & H4).
  split_and!; try done. pose proof (join_spec s1 small1 H1 H2) as Hj.
  destruct (ipc_splay_tree_join s1 small1) as [s2 small2]. destruct Hj as (K1 & K2 & K3).
  - intros x y Hx Hy. rewrite H4 in Hx. rewrite H3 in Hy.
    apply elem_of_keys_below in Hx as [_ Hx]. apply elem_of_keys_from in Hy as [_ Hy]. lia.
  - split_and!; [done|done|]. rewrite K3, H3, H4. by apply below_from, splay_ok_sorted.
Qed.

(** [ipc_splay_tree_bounds] returns the greatest name not above and the
    least name not below the one given, or the sentinels. *)
Theorem splay_bounds_are_tight s name :
  splay_ok s -> u32_range name ->
  let '(s', lower, upper) := ipc_splay_tree_bounds s name in
  splay_ok s' /\ to_list s' = to_list s /\
  tight_lower name (to_list s) lower /\ tight_upper name (to_list s) upper.
Proof. apply bounds_spec. Qed.

(** C20: Splay trees implement lists sorted by name.  In a tree of any shape that
    earlier accesses gave it, a lookup finds the entry of the name and no
    other; an insertion puts a new name in its place and a deletion takes it
    out again; a split cuts the list and a join puts the parts together; the
    bounds are the nearest names. *)
Theorem splay_trees_implement_sorted_lists s name small :
  splay_ok s -> u32_range name ->
  (let '(s', found) := ipc_splay_tree_lookup s name in
   splay_ok s' /\ to_list s' = to_list s /\ forall e, found = Some e <-> (name, e) ∈ to_list s) /\
  (forall entry, name ∉ keys (to_list s) ->
   let s1 := ipc_splay_tree_insert s name entry in
   splay_ok s1 /\ to_list s1 = below name (to_list s) ++ (name, entry) :: above name (to_list s) /\
   splay_ok (ipc_splay_tree_delete s1 name) /\ to_list (ipc_splay_tree_delete s1 name) = to_list s) /\
  (let '(s1, small1) := ipc_splay_tree_split s name small in
   splay_ok s1 /\ splay_ok small1 /\
   to_list s1 = from name (to_list s) /\ to_list small1 = below name (to_list s) /\
   let '(s2, small2) := ipc_splay_tree_join s1 small1 in
   splay_ok s2 /\ to_list small2 = [] /\ to_list s2 = to_list s) /\
  (let '(s', lower, upper) := ipc_splay_tree_bounds s name in
   splay_ok s' /\ to_list s' = to_list s /\
   tight_lower name (to_list s) lower /\ tight_upper name (to_list s) upper).
Proof.
  intros Hok Hr. split_and!.
  - pose proof (splay_lookup_correct s name Hok) as Hl. by destruct (ipc_splay_tree_lookup s name).
  - intros entry. by apply splay_insert_delete_roundtrip.
  - by apply splay_split_join_roundtrip.
  - by apply splay_bounds_are_tight.
Qed.

(** The traversal that reuses the child pointers of the tree visits every
    entry once in the order of names, ends, and leaves a tree with exactly
    the entries that were not deleted on the way. *)
Theorem splay_traversal_visits_in_order {St : Type} (f : St -> Z * E -> St * bool) (st : St) s :
  splay_ok s ->
  (traverse_splay f st s).1 = (visit_all f st (to_list s)).1 /\
  splay_ok (traverse_splay f st s).2 /\
  to_list (traverse_splay f st s).2 = (visit_all f st (to_list s)).2.
Proof. apply traverse_splay_spec. Qed.
End splay.

(** A name is its index and its generation and nothing more, and the
    order of names is the order of indices first, which is what splitting
    the tree of names at the table size relies on. *)
Theorem names_are_index_and_generation `{PortConfig} name index gen :
  u32_range name -> 0 <= index <= index_limit -> gen_ok gen ->
  MACH_PORT_MAKE (MACH_PORT_INDEX name) (MACH_PORT_GEN name) = name /\
  MACH_PORT_INDEX (MACH_PORT_MAKE index gen) = index /\ MACH_PORT_GEN (MACH_PORT_MAKE index gen) = gen /\
  (name < MACH_PORT_MAKE index 0 <-> MACH_PORT_INDEX name < index).
Proof.
  intros Hn Hi Hg. split_and!; [by apply MAKE_INDEX_GEN|by apply INDEX_MAKE|by apply GEN_MAKE|by apply name_lt_MAKE].
Qed.

(** ** The theorems at work *)

Lemma created_space_is_empty_witness :
  space_inv None (new_space 2) /\ forall name r, ~ denotes None (new_space 2) name r.
Proof. apply created_space_is_empty. simpl. lia. Defined.

Lemma lookup_finds_what_names_denote_witness :
  let '(s', found) := ipc_entry_lookup send_space.1 sample_name in
  (forall r, found = Some r <-> denotes None send_space.1 sample_name r) /\
  space_inv None s' /\ (forall name' c, means None s' name' c <-> means None send_space.1 name' c).
Proof.
  exact (lookup_finds_what_names_denote send_space.1 sample_name send_space_inv
    ltac:(unfold u32_range, u32_max, sample_name; lia)).
Defined.

Lemma get_allocates_a_fresh_name_witness :
  match ipc_entry_get send_space.1 with
  | (s', None) => s' = send_space.1 /\ forall i, 0 < i < is_table_size send_space.1 -> used None (is_table send_space.1) i
  | (s', Some (name, r)) => allocated send_space.1 s' name r /\ MACH_PORT_VALID name = true
  end.
Proof. exact (get_allocates_a_fresh_name send_space.1 send_space_inv). Defined.

Lemma dealloc_frees_exactly_one_name_witness :
  let s' := (ipc_entry_dealloc sample_addr sample_space sample_hash sample_name sample_entry).1 in
  space_inv None s' /\
  forall name' c, means None s' name' c <-> name' <> sample_name /\ means (Some sample_name) sample_space name' c.
Proof.
  exact (dealloc_frees_exactly_one_name sample_addr (Some sample_name) sample_space sample_hash sample_name sample_entry
    (proj1 sample_space_ready) (or_intror eq_refl) (proj2 sample_space_ready) eq_refl).
Defined.

Lemma growing_keeps_all_names_witness :
  let s := send_space.1 in
  let nits := S (is_table_next s) in
  let s' := (grow_install sample_addr (is_table_size s) (its_size (is_table_next s)) (its_size nits) nits s
    sample_hash).1 in
  space_inv None s' /\ is_table_size s' = its_size (is_table_next s) /\ is_table_next s' = nits /\
  is_active s' = is_active s /\ is_growing s' = is_growing s /\
  forall name c, means None s' name c <-> means None s name c.
Proof. apply (growing_keeps_all_names sample_addr send_space.1 sample_hash send_space_inv). simpl. lia. Defined.

Lemma sample_env_alone : well_behaved sample_env same_means.
Proof. apply alone_well_behaved; [done|apply fresh_not_in]. Qed.

Lemma grow_table_terminates_witness :
  exists res, ipc_entry_grow_table sample_addr sample_env send_space.1 sample_hash = Some res /\
    grow_returns sample_env same_means send_space.1 res.
Proof.
  exact (grow_table_terminates sample_addr sample_env same_means send_space.1 sample_hash sample_env_alone eq_refl
    send_space_inv).
Defined.

Lemma alloc_is_correct_among_threads_witness :
  exists res, ipc_entry_alloc sample_addr sample_env 1 send_space.1 sample_hash = Some res /\
    alloc_returns same_means send_space.1 res.
Proof.
  destruct (ipc_entry_alloc sample_addr sample_env 1 send_space.1 sample_hash) as [res|] eqn:Hres.
  - exists res. split; [reflexivity|].
    exact (alloc_is_correct_among_threads sample_addr sample_env same_means 1 _ sample_hash res sample_env_alone
      (fun _ => send_space_inv) Hres).
  - vm_compute in Hres. discriminate Hres.
Defined.

Lemma alloc_returns_alone_witness :
  exists res, ipc_entry_alloc sample_addr sample_env (S (its_last - is_table_next send_space.1)) send_space.1
      sample_hash = Some res /\ alloc_returns same_means send_space.1 res.
Proof.
  exact (alloc_returns_alone sample_addr sample_env send_space.1 sample_hash (fun _ => eq_refl) fresh_not_in
    eq_refl eq_refl send_space_inv).
Defined.

Lemma alloc_name_returns_alone_witness :
  exists res, ipc_entry_alloc_name sample_addr sample_env (its_last - is_table_next send_space.1 + 2) send_space.1
      sample_hash tree_name None = Some res /\ alloc_name_returns same_means send_space.1 tree_name res.
Proof.
  exact (alloc_name_returns_alone sample_addr sample_env send_space.1 sample_hash tree_name (fun _ => eq_refl)
    fresh_not_in eq_refl eq_refl send_space_inv ltac:(unfold u32_range, u32_max, tree_name; lia) eq_refl
    ltac:(intros [Hi _]; discriminate Hi)).
Defined.

Lemma local_lookup_correct_witness :
  match Local.ipc_hash_local_lookup one_index_table (tlen one_index_table) 0 with
  | Some (name, index) =>
    (index = 2 \/ False) /\ ie_object (tget one_index_table index) = 0 /\
    name = MACH_PORT_MAKEB index (ie_bits (tget one_index_table index))
  | None => forall index, index = 2 \/ False -> ie_object (tget one_index_table index) <> 0
  end.
Proof. exact (local_lookup_correct one_index_table (fun i => i = 2 \/ False) 0 one_index_ok eq_refl). Defined.

Lemma local_insert_correct_witness :
  Local.local_ok (Local.ipc_hash_local_insert one_index_table (tlen one_index_table)
    (ie_object (tget one_index_table 3)) 3) (fun i => i = 3 \/ (i = 2 \/ False)).
Proof.
  exact (local_insert_correct one_index_table (fun i => i = 2 \/ False) 3 one_index_ok (conj eq_refl eq_refl)
    ltac:(intros [He|[]]; discriminate He)).
Defined.

Lemma local_delete_correct_witness :
  Local.local_ok (Local.ipc_hash_local_delete one_index_table (tlen one_index_table)
    (ie_object (tget one_index_table 2)) 2) (fun i => i <> 2 /\ (i = 2 \/ False)).
Proof.
  exact (local_delete_correct one_index_table (fun i => i = 2 \/ False) 2 one_index_ok (or_introl eq_refl)).
Defined.

Lemma global_table_correct_witness :
  (let '(g', found) := Global.ipc_hash_global_lookup sample_hash sample_addr sample_port in
   Global.ghash_ok g' /\ (forall e, Global.linked g' e <-> Global.linked sample_hash e) /\
   match found with
   | Some (name, ptr) => Global.linked sample_hash (Global.mk_linked sample_addr sample_port name ptr)
   | None => forall name ptr, ~ Global.linked sample_hash (Global.mk_linked sample_addr sample_port name ptr)
   end) /\
  Global.ghash_ok (Global.ipc_hash_global_insert sample_hash sample_addr sample_port tree_name 1%positive) /\
  (forall e, Global.linked (Global.ipc_hash_global_insert sample_hash sample_addr sample_port tree_name 1%positive) e <->
             e = Global.mk_linked sample_addr sample_port tree_name 1%positive \/ Global.linked sample_hash e).
Proof. exact (global_table_correct sample_hash sample_addr sample_port tree_name 1%positive sample_hash_ok). Defined.

Lemma hash_init_rounds_to_power_of_two_witness :
  let g := Global.ipc_hash_init 100 0 in
  exists k, 0 <= k /\ Global.ipc_hash_global_mask g + 1 = 2 ^ k /\
    wanted_size 100 0 <= 2 ^ k < 2 * wanted_size 100 0 /\
    Global.ghash_ok g /\ forall e, ~ Global.linked g e.
Proof. exact (hash_init_rounds_to_power_of_two 100 0 (conj eq_refl eq_refl)). Defined.

Lemma splay_lookup_correct_witness :
  splay_ok (ipc_splay_tree_lookup sample_tree 0x700).1 /\
  to_list (ipc_splay_tree_lookup sample_tree 0x700).1 = to_list sample_tree /\
  (forall e, (ipc_splay_tree_lookup sample_tree 0x700).2 = Some e <-> (0x700, e) ∈ to_list sample_tree).
Proof. exact (splay_lookup_correct sample_tree 0x700 (proj1 sample_tree_ok)). Defined.

Lemma splay_insert_delete_roundtrip_witness :
  let s1 := ipc_splay_tree_insert sample_tree 0x500 3%nat in
  splay_ok s1 /\ to_list s1 = below 0x500 (to_list sample_tree) ++ (0x500, 3%nat) :: above 0x500 (to_list sample_tree) /\
  splay_ok (ipc_splay_tree_delete s1 0x500) /\ to_list (ipc_splay_tree_delete s1 0x500) = to_list sample_tree.
Proof.
  apply (splay_insert_delete_roundtrip sample_tree 0x500 3%nat (proj1 sample_tree_ok)).
  - unfold u32_range, u32_max. lia.
  - rewrite (proj2 sample_tree_ok). unfold keys. simpl. set_solver by lia.
Defined.

Lemma splay_split_join_roundtrip_witness :
  let '(s1, small1) := ipc_splay_tree_split sample_tree 0x500 (ipc_splay_tree_init sample_tree) in
  splay_ok s1 /\ splay_ok small1 /\
  to_list s1 = from 0x500 (to_list sample_tree) /\ to_list small1 = below 0x500 (to_list sample_tree) /\
  let '(s2, small2) := ipc_splay_tree_join s1 small1 in
  splay_ok s2 /\ to_list small2 = [] /\ to_list s2 = to_list sample_tree.
Proof.
  exact (splay_split_join_roundtrip sample_tree 0x500 (ipc_splay_tree_init sample_tree) (proj1 sample_tree_ok)
    ltac:(unfold u32_range, u32_max; lia)).
Defined.

Lemma splay_bounds_are_tight_witness :
  let '(s', lower, upper) := ipc_splay_tree_bounds sample_tree 0x500 in
  splay_ok s' /\ to_list s' = to_list sample_tree /\
  tight_lower 0x500 (to_list sample_tree) lower /\ tight_upper 0x500 (to_list sample_tree) upper.
Proof.
  exact (splay_bounds_are_tight sample_tree 0x500 (proj1 sample_tree_ok) ltac:(unfold u32_range, u32_max; lia)).
Defined.

(** A visitor that sums the entries and deletes those above a name. *)
Definition sum_and_prune (acc : nat) (x : Z * nat) : nat * bool := ((acc + x.2)%nat, 0x500 <? x.1).

Lemma splay_traversal_visits_in_order_witness :
  (traverse_splay sum_and_prune 0%nat sample_tree).1 = (visit_all sum_and_prune 0%nat (to_list sample_tree)).1 /\
  splay_ok (traverse_splay sum_and_prune 0%nat sample_tree).2 /\
  to_list (traverse_splay sum_and_prune 0%nat sample_tree).2 = (visit_all sum_and_prune 0%nat (to_list sample_tree)).2.
Proof. exact (splay_traversal_visits_in_order sum_and_prune 0%nat sample_tree (proj1 sample_tree_ok)). Defined.

Lemma names_are_index_and_generation_witness :
  MACH_PORT_MAKE (MACH_PORT_INDEX 0x103) (MACH_PORT_GEN 0x103) = 0x103 /\
  MACH_PORT_INDEX (MACH_PORT_MAKE 5 0x2000000) = 5 /\ MACH_PORT_GEN (MACH_PORT_MAKE 5 0x2000000) = 0x2000000 /\
  (0x103 < MACH_PORT_MAKE 5 0 <-> MACH_PORT_INDEX 0x103 < 5).
Proof.
  apply names_are_index_and_generation.
  - unfold u32_range, u32_max. lia.
  - by vm_compute.
  - split; [reflexivity|]. unfold u32_range, u32_max. lia.
Defined.

(** A name is allocated and filled. *)
Lemma send_space_works :
  rtc (work sample_addr sample_env) (None, (new_space 0, sample_hash)) (None, send_space).
Proof.
  destruct sample_space_ready as [_ Hden].
  eapply rtc_l; [apply (work_get _ _ (new_space 0) sample_hash sample_space sample_name sample_entry); reflexivity|].
  eapply rtc_l; [apply (work_write _ _ (Some sample_name) (sample_space, sample_hash) sample_name sample_entry
    send_bits sample_port 0)|apply rtc_refl]; [done|exact Hden|by right| |done].
  apply (frame_of_bits 0). intros i Hi. rewrite Z.bits_0. by apply tree_bits_testbit.
Qed.

Lemma spaces_stay_well_formed_witness :
  space_inv None send_space.1 /\
  (forall name r1 r2, denotes None send_space.1 name r1 -> denotes None send_space.1 name r2 -> r1 = r2) /\
  (forall name1 name2 r, denotes None send_space.1 name1 r -> denotes None send_space.1 name2 r -> name1 = name2) /\
  (forall name r, denotes None send_space.1 name r -> None <> Some name ->
     IE_BITS_TYPE (ie_bits (read_entry send_space.1 r)) <> 0).
Proof.
  exact (spaces_stay_well_formed sample_addr sample_env same_means sample_env_alone 0 sample_hash None send_space.1
    sample_hash ltac:(simpl; lia) send_space_works eq_refl).
Defined.

Lemma local_table_correct_witness :
  Local.local_ok (Local.ipc_hash_local_delete one_index_table (tlen one_index_table)
    (ie_object (tget one_index_table 2)) 2) (fun i => i <> 2 /\ (i = 2 \/ False)).
Proof.
  exact (proj2 (proj2 (local_table_correct one_index_table (fun i => i = 2 \/ False) one_index_ok eq_refl)) 2
    (or_introl eq_refl)).
Defined.

Lemma splay_trees_implement_sorted_lists_witness :
  (let '(s', found) := ipc_splay_tree_lookup sample_tree 0x700 in
   splay_ok s' /\ to_list s' = to_list sample_tree /\ forall e, found = Some e <-> (0x700, e) ∈ to_list sample_tree) /\
  (let '(s', lower, upper) := ipc_splay_tree_bounds sample_tree 0x700 in
   splay_ok s' /\ to_list s' = to_list sample_tree /\
   tight_lower 0x700 (to_list sample_tree) lower /\ tight_upper 0x700 (to_list sample_tree) upper).
Proof.
  destruct (splay_trees_implement_sorted_lists sample_tree 0x700 (ipc_splay_tree_init sample_tree)
    (proj1 sample_tree_ok) ltac:(unfold u32_range, u32_max; lia)) as (Hl & _ & _ & Hb). exact (conj Hl Hb).
Defined.
