(* ===== verification/PortTheorems.v ===== *)
(** * Theorems on ports (ipc/ipc_port.c, ipc_mqueue.c)

    What other parts of the kernel and user programs rely on: receive rights
    in transit never form a circle, the notifications a port owes are sent
    once and only when they are due, a port that dies tells everybody who
    waits for it, and messages stay in order when a port changes queues. *)

From S2P Require Import Prelude Names Splay Table Space Hash Entry EntryInv Alloc World Port.
From S2P Require Import PortInv PortQueue PortDestroy Right RightBits RightLaws RightWp RightInv.
From S2P Require Import Samples.

(** C13: [ipc_port_check_circularity] finds out, for any chain of receive
    rights in transit, whether queueing a message that carries [port] at
    [dest] would make [port] unreachable; if so nothing changes, and if not
    the port is in transit to [dest] afterwards, [dest] has a reference more,
    and there is still no circle. *)
Theorem check_circularity_prevents_circles w trylock port dest p d :
  no_circles w -> w_ports w !! port = Some p -> w_ports w !! dest = Some d ->
  ip_active p = true -> ip_receiver_name p = MACH_PORT_NULL -> ip_destination p = IP_NULL ->
  dest <> IP_NULL ->
  exists circular w', ipc_port_check_circularity trylock port dest w = Some (circular, w') /\
    (circular = true <-> exists l, leads w dest l port) /\
    (circular = true -> w' = w) /\
    (circular = false -> w' = queued port dest p d w /\ no_circles w').
Proof. apply check_circularity_spec. Qed.

(** Releasing a send right of a live port takes a reference and a send
    right; the no-senders notification is sent, with the make-send count and
    once, exactly if this was the last send right and somebody asked. *)
Theorem release_send_notifies_on_last_right w port p :
  w_ports w !! port = Some p -> ip_active p = true -> 0 < ip_srights p -> u32_range (ip_srights p) ->
  0 < ip_references p -> u32_range (ip_references p) ->
  exists w' p', ipc_port_release_send port w = Some (tt, w') /\ w_ports w' = <[port := p']> (w_ports w) /\
    ip_srights p' = ip_srights p - 1 /\ ip_references p' = ip_references p - 1 /\ ip_active p' = true /\
    (ip_srights p = 1 /\ ip_nsrequest p <> IP_NULL ->
       w_events w' = w_events w ++ [NotifyNoSenders (ip_nsrequest p) (ip_mscount p)] /\ ip_nsrequest p' = IP_NULL) /\
    (ip_srights p <> 1 \/ ip_nsrequest p = IP_NULL ->
       w_events w' = w_events w /\ ip_nsrequest p' = ip_nsrequest p).
Proof.
  intros Hp Hact Hs Hsr Hr Hrr. rewrite (release_send_active w port p Hp Hact).
  unfold u32_range, u32_max in *.
  rewrite (u32_id (ip_srights p - 1)), (u32_id (ip_references p - 1)) by (unfold u32_range, u32_max; lia).
  eexists _, (without_send (set_ip_references (ip_references p - 1) p)). split; [reflexivity|]. split; [done|].
  unfold without_send, no_senders_events, no_senders_due. simpl.
  rewrite (u32_id (ip_srights p - 1)) by (unfold u32_range, u32_max; lia).
  destruct (Z.eqb_spec (ip_srights p - 1) 0) as [H1|H1], (Z.eqb_spec (ip_nsrequest p) IP_NULL) as [Hn|Hn]; simpl;
    rewrite ?app_nil_r; split_and!; try done; intros ?; try (split; done); destruct_and?; destruct_or?; done || lia.
Qed.

(** C14: A port with no backup port dies when it is destroyed: the blocked
    senders go on, the no-senders requester, the owners of the messages, the
    dead-name requesters and the kernel object are told in this order and
    once each, the port is dead and stamped, and its memory is freed exactly
    if no name refers to it. *)
Theorem destroy_tells_everybody w trylock port p :
  w_ports w !! port = Some p -> ip_pdrequest p = IP_NULL -> doomed 0 w p ->
  exists w', ipc_port_destroy trylock port w = Some (tt, w') /\ died port p w w' /\
    forall p', w_ports w' !! port = Some p' ->
      ip_active p' = false /\ ip_timestamp p' = w_timestamp w /\ 0 < ip_references p'.
Proof.
  intros Hp Hpd Hd. unfold ipc_port_destroy. run_ports. rewrite Hpd, Z.eqb_refl. cbn [negb].
  destruct (destroy_dead_spec w port p Hp Hd) as (w' & Hw' & Hdied). exists w'. split_and!; [done|done|].
  intros p' Hp'. rewrite (di_ports _ _ _ _ Hdied) in Hp'.
  destruct (Z.eqb_spec (left_references p) 0) as [Hz|Hz]; [by rewrite lookup_delete_eq in Hp'|].
  rewrite lookup_insert_eq in Hp'. injection Hp' as <-.
  split_and!; [exact (dead_port_inactive _ p)|done|].
  destruct Hd as [_ _ Hr _]. unfold left_references in *. simpl. lia.
Qed.

(** C15: A port with a backup port (a send-once right in [ip_pdrequest]) is
    not destroyed but sent there, in one port-destroyed notification, with
    everything but its receiver kept and no circle made; if it would complete
    a circle the backup right is released and the port dies. *)
Theorem destroy_sends_port_to_backup w trylock port p backup d :
  no_circles w -> w_ports w !! port = Some p -> w_ports w !! backup = Some d ->
  ip_active p = true -> ip_pdrequest p = backup -> backup <> IP_NULL -> ip_pdsendp backup = false ->
  doomed (if backup =? port then 1 else 0) w p ->
  let w0 := put_port port (limbo p) w in
  let d0 := if backup =? port then limbo p else d in
  exists w', ipc_port_destroy trylock port w = Some (tt, w') /\
    ((forall l, ~ leads w0 backup l port) ->
       w' = emitted [NotifyPortDestroyed backup port] (queued port backup (limbo p) d w0) /\ no_circles w') /\
    ((exists l, leads w0 backup l port) ->
       died port (dying port backup p) (put_port backup (without_sonce d0) w0) w').
Proof. apply destroy_backup_spec. Qed.

(** [ipc_mqueue_move] takes exactly the messages of [port] out of the
    source queue and keeps their order: the first ones go to the receivers
    waiting at the destination whose buffers are large enough, first come
    first served and with consecutive sequence numbers, and the others are
    appended to the destination; a message waits there only if no receiver
    is left. *)
Theorem mqueue_move_keeps_order dest source port w p :
  w_ports w !! port = Some p -> u32_range (ip_seqno p) -> queue_ok w dest -> queue_ok w source ->
  exists dest' source' w' woken takers n,
    ipc_mqueue_move dest source port w = Some ((dest', source'), w') /\
    imq_threads source' = imq_threads source /\
    moved port (imq_messages source) (imq_messages dest) (imq_threads dest) w p
      (imq_messages source') (imq_messages dest') (imq_threads dest') w' woken takers n.
Proof. apply mqueue_move_spec. Qed.

(** A dead-name request that [ipc_port_dnrequest] registers takes a free
    element of the table and disturbs no other, and [ipc_port_dncancel] with
    the index gives the send-once right back and restores the table's
    contents; it fails only if the table is full. *)
Theorem dead_name_request_roundtrip w port p t name soright :
  w_ports w !! port = Some p -> ip_dnrequests p = Some t -> dn_ok t -> name <> MACH_PORT_NULL ->
  exists r w1, ipc_port_dnrequest port name soright w = Some (r, w1) /\
  match r with
  | None => w1 = w /\ forall i, 0 < i < rlen t -> registered t i <> None
  | Some index => exists t1 t2,
      w1 = put_port port (set_ip_dnrequests (Some t1) p) w /\ dn_ok t1 /\ registered t index = None /\
      (forall i, registered t1 i = if i =? index then Some (name, soright) else registered t i) /\
      ipc_port_dncancel port name index w1 = Some (soright, put_port port (set_ip_dnrequests (Some t2) p) w) /\
      dn_ok t2 /\ forall i, registered t2 i = registered t i
  end.
Proof.
  intros Hp Ht Hok Hn. destruct (dnrequest_spec w port p t name soright Hp Ht Hok Hn) as (r & w1 & Hrun & Hr).
  exists r, w1. split; [done|]. destruct r as [index|]; [|done].
  destruct Hr as (t1 & -> & Hok1 & Hfree & Hi & _ & _ & Hreg).
  destruct (dncancel_spec (put_port port (set_ip_dnrequests (Some t1) p) w) port
    (set_ip_dnrequests (Some t1) p) t1 name index soright) as (t2 & Hrun2 & Hok2 & _ & _ & Hreg2).
  { apply put_port_lookup. } { done. } { done. } { by rewrite Hreg, Z.eqb_refl. }
  exists t1, t2. rewrite Hrun2, put_port_put. split_and!; try done.
  intros i. rewrite Hreg2, Hreg. by destruct (Z.eqb_spec i index) as [->|].
Qed.

(** ** The theorems at work *)

(** Two ports: the receive right of [sample_port] is in limbo and the other
    port is in a message queued at it. *)
Definition other_port : Z := 0x8040.
Definition limbo_port : ipc_port := limbo sample_port_data.
Definition travelling : ipc_port := set_ip_data sample_port limbo_port.
Definition chain_world : world :=
  mk_world {[ sample_port := limbo_port; other_port := travelling ]} ∅ ∅ ∅ 7 [].

Lemma chain_first : leads chain_world sample_port [] sample_port.
Proof. by eapply leads_end; [vm_compute; reflexivity|]. Qed.

Lemma chain_second : leads chain_world other_port [other_port] sample_port.
Proof. eapply leads_step; [vm_compute; reflexivity|done|apply chain_first]. Qed.

Lemma chain_no_circles : no_circles chain_world.
Proof.
  intros q x. simpl. intros [[<- _]|[_ [<- _]%lookup_singleton_Some]]%lookup_insert_Some.
  - eexists _, _. apply chain_first.
  - eexists _, _. apply chain_second.
Qed.

Lemma check_circularity_prevents_circles_witness :
  exists circular w', ipc_port_check_circularity true sample_port other_port chain_world = Some (circular, w') /\
    (circular = true <-> exists l, leads chain_world other_port l sample_port) /\
    (circular = true -> w' = chain_world) /\
    (circular = false -> w' = queued sample_port other_port limbo_port travelling chain_world /\ no_circles w').
Proof.
  exact (check_circularity_prevents_circles chain_world true sample_port other_port limbo_port travelling
    chain_no_circles eq_refl eq_refl eq_refl eq_refl eq_refl ltac:(discriminate)).
Defined.

Definition last_sender : ipc_port := set_ip_srights 1 sample_port_data.

Lemma release_send_notifies_on_last_right_witness :
  exists w' p', ipc_port_release_send sample_port (sample_world_of last_sender) = Some (tt, w') /\
    w_ports w' = <[sample_port := p']> (w_ports (sample_world_of last_sender)) /\
    ip_srights p' = 0 /\ ip_references p' = 4 /\ ip_active p' = true /\
    (ip_srights last_sender = 1 /\ ip_nsrequest last_sender <> IP_NULL ->
       w_events w' = [] ++ [NotifyNoSenders 0x9000 2] /\ ip_nsrequest p' = IP_NULL) /\
    (ip_srights last_sender <> 1 \/ ip_nsrequest last_sender = IP_NULL ->
       w_events w' = [] /\ ip_nsrequest p' = 0x9000).
Proof.
  apply (release_send_notifies_on_last_right (sample_world_of last_sender) sample_port last_sender eq_refl eq_refl);
    unfold u32_range, u32_max; simpl; lia.
Defined.

(** A port with a blocked sender, two messages and dead-name requests of a
    task and of a space. *)
Definition dn_table : ipc_port_requests :=
  mk_requests 0xa000 1 [mk_ipr 3 0; mk_ipr 0xb000 0x200; mk_ipr 0xc001 0x300; mk_ipr 0 0].
Definition doomed_port : ipc_port :=
  set_ip_dnrequests (Some dn_table) (set_ip_blocked [0x5000]
    (set_ip_messages (mk_mqueue [0x6000; 0x6100] []) (set_ip_references 4 sample_port_data))).
Definition doomed_world : world :=
  mk_world {[ sample_port := doomed_port ]} ∅ {[ 0x5000 := mk_thread 1 0 0 0 ]}
    {[ 0x6000 := mk_kmsg 0 17 24 sample_port 0; 0x6100 := mk_kmsg 0 17 32 sample_port 0 ]} 7 [].

Lemma doomed_port_ok : doomed 0 doomed_world doomed_port.
Proof.
  split.
  - intros th ->%list_elem_of_singleton. vm_compute. by eexists.
  - intros k [-> | ->%list_elem_of_singleton]%elem_of_cons; vm_compute; by eexists.
  - simpl. lia.
  - unfold u32_range, u32_max. simpl. lia.
Qed.

Lemma destroy_tells_everybody_witness :
  exists w', ipc_port_destroy true sample_port doomed_world = Some (tt, w') /\
    died sample_port doomed_port doomed_world w' /\
    forall p', w_ports w' !! sample_port = Some p' ->
      ip_active p' = false /\ ip_timestamp p' = 7 /\ 0 < ip_references p'.
Proof. exact (destroy_tells_everybody doomed_world true sample_port doomed_port eq_refl eq_refl doomed_port_ok). Defined.

(** The events of this death, in order. *)
Example doomed_port_events :
  death_events sample_port doomed_port =
    [ThreadGo 0x5000; NotifySendOnce 0x9000; KmsgDestroy 0x6000; KmsgDestroy 0x6100;
     NotifyDeadName 0xb000 0x200; DeleteCompat sample_port 0xc000 0x300].
Proof. reflexivity. Qed.

(** A port whose backup is another port. *)
Definition backed_port : ipc_port := set_ip_pdrequest other_port sample_port_data.
Definition backup_world : world :=
  mk_world {[ sample_port := backed_port; other_port := sample_port_data ]} ∅ ∅ ∅ 7 [].

Lemma backup_no_circles : no_circles backup_world.
Proof.
  intros q x. simpl. intros [[<- _]|[_ [<- _]%lookup_singleton_Some]]%lookup_insert_Some;
    eexists _, _; (eapply leads_end; [vm_compute; reflexivity|done]).
Qed.

Lemma backed_port_ok : doomed (if other_port =? sample_port then 1 else 0) backup_world backed_port.
Proof. split; simpl; [by intros ? ?%elem_of_nil..|lia|unfold u32_range, u32_max; lia]. Qed.

Lemma destroy_sends_port_to_backup_witness :
  let w0 := put_port sample_port (limbo backed_port) backup_world in
  let d0 := sample_port_data in
  exists w', ipc_port_destroy true sample_port backup_world = Some (tt, w') /\
    ((forall l, ~ leads w0 other_port l sample_port) ->
       w' = emitted [NotifyPortDestroyed other_port sample_port]
              (queued sample_port other_port (limbo backed_port) sample_port_data w0) /\ no_circles w') /\
    ((exists l, leads w0 other_port l sample_port) ->
       died sample_port (dying sample_port other_port backed_port) (put_port other_port (without_sonce d0) w0) w').
Proof.
  exact (destroy_sends_port_to_backup backup_world true sample_port backed_port other_port sample_port_data
    backup_no_circles eq_refl eq_refl eq_refl eq_refl ltac:(discriminate) eq_refl backed_port_ok).
Defined.

(** Two receivers wait, the first with a small buffer. *)
Definition receivers : ipc_mqueue := mk_mqueue [] [0x5000; 0x5100].
Definition senders : ipc_mqueue := mk_mqueue [0x6000; 0x6100] [].
Definition queue_world : world :=
  mk_world {[ sample_port := sample_port_data ]} ∅
    {[ 0x5000 := mk_thread 1 0 0 8; 0x5100 := mk_thread 1 0 0 64 ]}
    {[ 0x6000 := mk_kmsg 0 17 24 sample_port 0; 0x6100 := mk_kmsg 0 17 32 sample_port 0 ]} 7 [].

Lemma receivers_ok : queue_ok queue_world receivers.
Proof.
  split; simpl.
  - by apply (bool_decide_unpack _).
  - intros th [-> | ->%list_elem_of_singleton]%elem_of_cons; vm_compute; by eexists.
  - by intros ? ?%elem_of_nil.
Qed.

Lemma senders_ok : queue_ok queue_world senders.
Proof.
  split; simpl.
  - constructor.
  - by intros ? ?%elem_of_nil.
  - intros k [-> | ->%list_elem_of_singleton]%elem_of_cons; vm_compute; by eexists.
Qed.

Lemma mqueue_move_keeps_order_witness :
  exists dest' source' w' woken takers n,
    ipc_mqueue_move receivers senders sample_port queue_world = Some ((dest', source'), w') /\
    imq_threads source' = imq_threads senders /\
    moved sample_port (imq_messages senders) (imq_messages receivers) (imq_threads receivers) queue_world
      sample_port_data (imq_messages source') (imq_messages dest') (imq_threads dest') w' woken takers n.
Proof.
  exact (mqueue_move_keeps_order receivers senders sample_port queue_world sample_port_data eq_refl
    (proj1 sample_receivable) receivers_ok senders_ok).
Defined.

Lemma dn_table_ok : dn_ok dn_table.
Proof.
  split; [reflexivity|reflexivity|]. exists [3]. split_and!; [done|apply NoDup_singleton|].
  intros i. change (rlen dn_table) with 4. rewrite list_elem_of_singleton. split; [by intros ->|].
  intros [Hi Hn]. assert (Hc : i = 1 \/ i = 2 \/ i = 3) by lia. by destruct Hc as [-> |[-> | ->]].
Qed.

Lemma dead_name_request_roundtrip_witness :
  exists r w1, ipc_port_dnrequest sample_port 0x400 0xd000 doomed_world = Some (r, w1) /\
  match r with
  | None => w1 = doomed_world /\ forall i, 0 < i < rlen dn_table -> registered dn_table i <> None
  | Some index => exists t1 t2,
      w1 = put_port sample_port (set_ip_dnrequests (Some t1) doomed_port) doomed_world /\ dn_ok t1 /\
      registered dn_table index = None /\
      (forall i, registered t1 i = if i =? index then Some (0x400, 0xd000) else registered dn_table i) /\
      ipc_port_dncancel sample_port 0x400 index w1 =
        Some (0xd000, put_port sample_port (set_ip_dnrequests (Some t2) doomed_port) doomed_world) /\
      dn_ok t2 /\ forall i, registered t2 i = registered dn_table i
  end.
Proof.
  exact (dead_name_request_roundtrip doomed_world sample_port doomed_port dn_table 0x400 0xd000 eq_refl eq_refl
    dn_table_ok ltac:(discriminate)).
Defined.
