(* ===== verification/MessageTheorems.v ===== *)
(** * Theorems on messages and the threads that send and receive them

    Queues of threads and messages, sending and receiving. *)

From S2P Require Import Prelude Names Splay Table Space Entry World Queue Port PortInv PortQueue.
From S2P Require Import Mqueue MqueueSpec MqueueInv.

(** ** Sending and receiving *)




(** A port with room for one message, three messages for it (the second one
    circular) and four threads. *)
Definition lost_world : world :=
  mk_world
    {[ 0x8000 := mk_port 4 0x80000000 0x100 0x4000 0 1 0 0 0 None 0 0x8000 0 0 1 [] ipc_mqueue_init ]} ∅
    {[ 1 := mk_thread 0 0 0 0; 2 := mk_thread 0 0 0 0; 3 := mk_thread 0 0 0 0; 4 := mk_thread 0 0 0 0 ]}
    {[ 0x6000 := mk_kmsg 0 17 24 0x8000 0;
       0x6100 := mk_kmsg 0 (17 + MACH_MSGH_BITS_CIRCULAR) 24 0x8000 0;
       0x6200 := mk_kmsg 0 17 24 0x8000 0 ]} 7 [].

Lemma lost_world_fresh : fresh_world lost_world.
Proof.
  split.
  - intros port p Hp. simpl in Hp. apply lookup_singleton_Some in Hp as [_ <-]. simpl. split_and!; try done.
  - intros pset s Hs. simpl in Hs. by rewrite lookup_empty in Hs.
  - by vm_compute.
Qed.

(** [unused] by computation. *)
Lemma unused_by w pcs kmsg :
  bool_decide (map_Forall (fun _ p => kmsg ∉ imq_messages (ip_messages p)) (w_ports w)) = true -> w_psets w = ∅ ->
  (forall th d, pcs !! th = Some d -> ~ holds w th d kmsg) -> unused (mk_config w pcs) kmsg.
Proof.
  intros Hp%bool_decide_eq_true Hs Hh. split; [done|]. simpl. intros [(P & p' & HP & Hin)|(S & s & HS & _)].
  - by apply (Hp P p').
  - by rewrite Hs, lookup_empty in HS.
Qed.

(** The memory after a thread has run from [c]. *)
Definition after_send (th : Z) (c : send_pc) (w : world) : world :=
  match send_step th THREAD_AWAKENED c w with Some (_, w') => w' | None => w end.
Definition after_receive (th : Z) (c : recv_pc) (w : world) : world :=
  match recv_step th THREAD_AWAKENED c w with Some (_, w') => w' | None => w end.

(** Thread 1 fills the queue, threads 2 and 3 block behind it, thread 4
    receives and wakes thread 2, whose message is circular. *)
Definition lost_1 : world := after_send 1 (SendTry 0x8000 0x6000 0 0) lost_world.
Definition lost_2 : world := after_send 2 (SendTry 0x8000 0x6100 0 0) lost_1.
Definition lost_3 : world := after_send 3 (SendTry 0x8000 0x6200 0 0) lost_2.
Definition lost_4 : world := after_receive 4 (RecvTry (PortQueue 0x8000) 0 100 0) lost_3.
Definition lost_5 : world := after_receive 4 (RecvHave 0x8000 0x6000 0) lost_4.
Definition lost_6 : world := after_send 2 (SendTry 0x8000 0x6100 0 0) lost_5.

Section lost.
Context (server : Z -> M world Z).
Abbreviation go := (rtc (step 0x9990 server)).

Lemma lost_call w pcs th kmsg :
  pcs !! th = None -> is_Some (w_threads w !! th) -> unused (mk_config w pcs) kmsg ->
  send_start 1 0x9990 server kmsg 0 0 w = Some (SendTry 0x8000 kmsg 0 0, w) ->
  step 0x9990 server (mk_config w pcs) (mk_config w (<[th := Sending (SendTry 0x8000 kmsg 0 0)]> pcs)).
Proof. apply step_call_send. Qed.

(** Running a thread, and returning. *)
Lemma lost_send w pcs th c c' :
  pcs !! th = Some (Sending c) -> send_step th THREAD_AWAKENED c w = Some (c', after_send th c w) ->
  step 0x9990 server (mk_config w pcs) (mk_config (after_send th c w) (<[th := Sending c']> pcs)).
Proof. apply step_send. Qed.
Lemma lost_receive w pcs th c c' :
  pcs !! th = Some (Receiving c) -> recv_step th THREAD_AWAKENED c w = Some (c', after_receive th c w) ->
  step 0x9990 server (mk_config w pcs) (mk_config (after_receive th c w) (<[th := Receiving c']> pcs)).
Proof. apply step_receive. Qed.

Lemma eq_reach c c' : c = c' -> go c c'.
Proof. intros ->. apply rtc_refl. Qed.

(** Thread 1 sends and returns. *)
Lemma lost_first : go (mk_config lost_world ∅) (mk_config lost_1 ∅).
Proof.
  eapply rtc_l; [apply (lost_call _ _ 1 0x6000); [done|by eexists| |by vm_compute]|].
  { by apply unused_by; [vm_compute|done|]. }
  eapply rtc_l; [apply (lost_send _ _ 1 (SendTry 0x8000 0x6000 0 0) (SendReturn 0)); [apply lookup_insert_eq|by vm_compute]|].
  eapply rtc_l; [eapply (step_return _ _ _ _ 1); [apply lookup_insert_eq|done]|].
  apply eq_reach. by vm_compute.
Qed.

(** The port in the end: thread 3 is blocked, nothing is queued. *)
Definition lost_port : ipc_port :=
  mk_port 4 0x80000000 0x100 0x4000 0 1 0 0 0 None 0 0x8000 1 0 1 [3] ipc_mqueue_init.

Definition lost_wait (kmsg : Z) : pc := Sending (SendWait 0x8000 kmsg 0 0).
Definition lost_pcs : gmap Z pc := <[3 := lost_wait 0x6200]> (<[2 := lost_wait 0x6100]> ∅).

(** Threads 2 and 3 block. *)
Lemma lost_second : go (mk_config lost_1 ∅) (mk_config lost_3 lost_pcs).
Proof.
  eapply rtc_l; [apply (lost_call _ _ 2 0x6100); [done|by eexists| |by vm_compute]|].
  { by apply unused_by; [vm_compute|done|]. }
  eapply rtc_l; [apply (lost_send _ _ 2 (SendTry 0x8000 0x6100 0 0) (SendWait 0x8000 0x6100 0 0));
    [apply lookup_insert_eq|by vm_compute]|].
  rewrite insert_insert_eq.
  eapply rtc_l; [apply (lost_call _ _ 3 0x6200); [done|by eexists| |by vm_compute]|].
  { apply unused_by; [by vm_compute|done|]. intros th d Hd. apply lookup_insert_Some in Hd as [[<- <-]|[_ Hd]]; [done|by rewrite lookup_empty in Hd]. }
  eapply rtc_l; [apply (lost_send _ _ 3 (SendTry 0x8000 0x6200 0 0) (SendWait 0x8000 0x6200 0 0));
    [apply lookup_insert_eq|by vm_compute]|].
  rewrite insert_insert_eq. apply eq_reach. by vm_compute.
Qed.

(** Thread 4 receives; thread 2 is woken, its message is destroyed. *)
Lemma lost_third : go (mk_config lost_3 lost_pcs) (mk_config lost_6 {[ 3 := lost_wait 0x6200 ]}).
Proof.
  eapply rtc_l; [apply (step_call_receive _ _ _ _ 4 (PortQueue 0x8000) 0 100 0 (mk_mqueue [0x6000] [])); [done|by eexists|by vm_compute]|].
  eapply rtc_l; [apply (lost_receive _ _ 4 (RecvTry (PortQueue 0x8000) 0 100 0) (RecvHave 0x8000 0x6000 0));
    [apply lookup_insert_eq|by vm_compute]|].
  eapply rtc_l; [apply (lost_receive _ _ 4 (RecvHave 0x8000 0x6000 0) (RecvReturn 0 0x6000 0));
    [apply lookup_insert_eq|by vm_compute]|].
  eapply rtc_l; [eapply (step_return _ _ _ _ 4); [apply lookup_insert_eq|done]|].
  eapply rtc_l; [apply (lost_send _ _ 2 (SendWait 0x8000 0x6100 0 0) (SendTry 0x8000 0x6100 0 0)); [by vm_compute|by vm_compute]|].
  eapply rtc_l; [apply (lost_send _ _ 2 (SendTry 0x8000 0x6100 0 0) (SendReturn 0)); [by vm_compute|by vm_compute]|].
  eapply rtc_l; [eapply (step_return _ _ _ _ 2); [apply lookup_insert_eq|done]|].
  apply eq_reach. by vm_compute.
Qed.
End lost.

(** A wake-up can be lost.  When a receive makes room in a full queue it wakes
    one sender; if the message of that sender is circular, ipc_mqueue_send
    destroys the message and returns without using the room, and without
    waking the next sender.  In the state reached here the queue is empty, its
    limit is 1, the only thread that is still in a call is a sender that is
    blocked, and no thread that receives later wakes it until some other
    message is sent. *)
Theorem circular_message_loses_a_wakeup (server : Z -> M world Z) :
  exists w c p, fresh_world w /\ reachable 0x9990 server (mk_config w ∅) c /\
    w_ports (cf_world c) !! 0x8000 = Some p /\
    cf_pcs c = {[ 3 := lost_wait 0x6200 ]} /\ ip_blocked p = [3] /\
    ip_msgcount p = 0 /\ ip_qlimit p = 1 /\ v_msgs (cf_world c) (queue_of 0x8000 p) = [] /\
    send_wake 3 THREAD_AWAKENED 0x8000 0x6200 0 0 (cf_world c) = None.
Proof.
  exists lost_world, (mk_config lost_6 {[ 3 := lost_wait 0x6200 ]}), lost_port.
  split; [apply lost_world_fresh|]. split; [|by vm_compute].
  etransitivity; [apply lost_first|]. etransitivity; [apply lost_second|]. apply lost_third.
Qed.

(** Messages, queues and counts are as before. *)
Definition messages_same (w w' : world) : Prop :=
  w_kmsgs w' = w_kmsgs w /\ (forall q, v_msgs w' q = v_msgs w q) /\ (forall port, v_count w' port = v_count w port).

Lemma messages_same_refl w : messages_same w w.
Proof. by split_and!. Qed.

Lemma failed_send th why w w' c mr :
  send_step th why c w = Some (SendReturn mr, w') -> mr <> MACH_MSG_SUCCESS ->
  messages_same w w' /\
  (forall port kmsg option time_out, c = SendTry port kmsg option time_out ->
     w' = w /\ mr = MACH_SEND_TIMED_OUT /\ v_limit w port <= v_count w port).
Proof.
  intros H Hmr. destruct c as [port kmsg o tm|port kmsg o tm|mr']; simpl in H.
  - unfold send_try in H. apply bind_inv in H as (p & w0 & [Hp ->]%port_at_inv & H).
    destruct (ip_active p); simpl in H.
    + apply bind_inv in H as (k & w0 & [Hk ->]%kmsg_at_inv & H). destruct (may_send o p k) eqn:Hmay.
      { apply bind_inv in H as (u & w1 & _ & [= <- _]). done. }
      destruct (_ && _).
      * injection H as <- <-. split; [apply messages_same_refl|]. intros ? ? ? ? [= <- <- <- <-]. split_and!; try done.
        rewrite (limit_view _ _ _ Hp), (count_view _ _ _ Hp). unfold may_send in Hmay.
        destruct (Z.ltb_spec (ip_msgcount p) (ip_qlimit p)); [done|lia].
      * apply bind_inv in H as (u & w1 & _ & H). by apply bind_inv in H as (u' & w2 & _ & H).
    + do 4 apply bind_inv in H as (? & ? & _ & H). by injection H as <- _.
  - unfold send_wake in H. apply bind_inv in H as (t & w0 & [Ht ->]%thread_at_inv & H). destruct (_ =? _); [done|].
    apply bind_inv in H as ([] & w1 & (p & Hp & ->)%update_port_inv & H). destruct why; try done. injection H as <- <-.
    split; [|done]. split_and!; [done| |].
    + intros q. by apply (put_port_msgs_same _ p).
    + intros x. by apply (put_port_count_same _ p).
  - injection H as <- <-. split; [apply messages_same_refl|done].
Qed.

Lemma failed_receive th why w w' c mr kmsg seqno :
  recv_step th why c w = Some (RecvReturn mr kmsg seqno, w') -> mr <> MACH_MSG_SUCCESS ->
  messages_same w w' /\
  (forall q option max_size time_out, c = RecvTry q option max_size time_out ->
     w' = w /\ (mr = MACH_RCV_TIMED_OUT /\ v_msgs w q = [] \/
                mr = MACH_RCV_TOO_LARGE /\ exists k ks, v_msgs w q = k :: ks /\ max_size < size_of w k /\ kmsg = size_of w k)).
Proof.
  intros H Hmr. destruct c as [q o m tm|q o m tm|port k n|mr' k n]; simpl in H.
  - unfold recv_try in H. apply bind_inv in H as (mq & w0 & [Hmq ->]%mqueue_at_inv & H).
    pose proof (msgs_view _ _ _ Hmq) as Hv. destruct (imq_messages mq) as [|k ks] eqn:Hms.
    + destruct (_ && _).
      * injection H as <- <- <- <-. split; [apply messages_same_refl|]. intros ? ? ? ? [= <- <- <- <-]. auto.
      * apply bind_inv in H as (u & w1 & _ & H). by apply bind_inv in H as (u' & w2 & _ & H).
    + apply bind_inv in H as (x & w0 & [Hk ->]%kmsg_at_inv & H). destruct (Z.ltb_spec m (msgh_size x)).
      * injection H as <- <- <- <-. split; [apply messages_same_refl|]. intros ? ? ? ? [= <- <- <- <-].
        assert (size_of w k = msgh_size x) as Hz by (unfold size_of; by rewrite Hk).
        split; [done|]. right. split; [done|]. exists k, ks. by rewrite Hz.
      * apply bind_inv in H as (u & w1 & _ & H). by apply bind_inv in H as (u' & w2 & _ & H).
  - unfold recv_wake in H. apply bind_inv in H as (t & w0 & [Ht ->]%thread_at_inv & H). split; [|done].
    destruct (_ =? _); [by apply bind_inv in H as (? & ? & _ & H)|].
    destruct (_ =? _); [injection H as <- <- <- <-; apply messages_same_refl|].
    destruct (_ || _); [injection H as <- <- <- <-; apply messages_same_refl|]. destruct (_ =? _); [|done].
    apply bind_inv in H as (mq & w0 & [Hmq ->]%mqueue_at_inv & H).
    apply bind_inv in H as ([] & w1 & [Hs ->]%set_mqueue_inv & H). destruct why; try done. injection H as <- <- <- <-.
    split_and!; [by destruct q| |].
    + intros q'. destruct (mq_views_put q (set_receivers (remove_thread th (imq_threads mq)) mq) w Hs) as [Hv _].
      rewrite Hv. unfold upd. case_decide; [|done]. subst. by rewrite (msgs_view _ _ _ Hmq).
    + intros x. apply put_mq_count.
  - unfold recv_finish in H. do 4 apply bind_inv in H as (? & ? & _ & H). injection H. congruence.
  - injection H as <- <- <- <-. split; [apply messages_same_refl|done].
Qed.

(** A call that fails leaves the messages alone: a send that is timed out or
    interrupted and a receive that finds its buffer too small, its port dead
    or moved, is timed out or interrupted.  No message is taken from or added
    to any queue, no message and no count changes.  A send is timed out only
    when the queue is full, a receive only when it is empty. *)
Theorem failed_calls_keep_messages th why w w' :
  (forall c mr, send_step th why c w = Some (SendReturn mr, w') -> mr <> MACH_MSG_SUCCESS ->
     w_kmsgs w' = w_kmsgs w /\ (forall q, v_msgs w' q = v_msgs w q) /\ (forall port, v_count w' port = v_count w port) /\
     (forall port kmsg option time_out, c = SendTry port kmsg option time_out ->
        w' = w /\ mr = MACH_SEND_TIMED_OUT /\ v_limit w port <= v_count w port)) /\
  (forall c mr kmsg seqno, recv_step th why c w = Some (RecvReturn mr kmsg seqno, w') -> mr <> MACH_MSG_SUCCESS ->
     w_kmsgs w' = w_kmsgs w /\ (forall q, v_msgs w' q = v_msgs w q) /\ (forall port, v_count w' port = v_count w port) /\
     (forall q option max_size time_out, c = RecvTry q option max_size time_out ->
        w' = w /\ (mr = MACH_RCV_TIMED_OUT /\ v_msgs w q = [] \/
                   mr = MACH_RCV_TOO_LARGE /\ exists k ks, v_msgs w q = k :: ks /\ max_size < size_of w k /\ kmsg = size_of w k))).
Proof.
  split.
  - intros c mr H Hmr. destruct (failed_send _ _ _ _ _ _ H Hmr) as [(? & ? & ?) Hc]. split_and!; try done; apply Hc.
  - intros c mr kmsg seqno H Hmr. destruct (failed_receive _ _ _ _ _ _ _ _ H Hmr) as [(? & ? & ?) ?]. by split_and!.
Qed.

(** C19: The circular queues of threads and messages implement lists.  Take any
    sequence of the operations (add at the end, remove an element, take the
    first one) that is allowed on lists: an element that is in no queue is
    added, one that is in the queue is removed.  Then the code, for threads and
    for messages, runs through on memory that represents the lists, returns
    the same elements in the same order and leaves memory that represents the
    resulting lists; walking a queue of messages with ipc_kmsg_queue_next from
    any of its elements visits the list. *)
Theorem queues_implement_lists :
  (forall ops r Q xs Q', represents thread_outside r Q -> mapM perform_list ops Q = Some (xs, Q') ->
     exists r', mapM (perform thread_queues) ops r = Some (xs, r') /\ represents thread_outside r' Q') /\
  (forall ops r Q xs Q', represents kmsg_outside r Q -> mapM perform_list ops Q = Some (xs, Q') ->
     exists r', mapM (perform kmsg_queues) ops r = Some (xs, r') /\ represents kmsg_outside r' Q') /\
  (forall r Q q l1 x l2, represents kmsg_outside r Q -> q_lists Q !! q = Some (l1 ++ x :: l2) ->
     ipc_kmsg_queue_next q x r = Some (List.hd Q_NULL l2, r)).
Proof.
  split_and!.
  - intros. by eapply (performs_refine (O := thread_queues)).
  - intros. by eapply (performs_refine (O := kmsg_queues)).
  - intros. by eapply kmsg_queue_next_spec.
Qed.

(** ** The theorems on concrete states *)

(** The port, the threads and three messages, none of them circular. *)
Definition plain_world : world :=
  mk_world (w_ports lost_world) ∅ (w_threads lost_world)
    {[ 0x6000 := mk_kmsg 0 17 24 0x8000 0; 0x6100 := mk_kmsg 0 17 24 0x8000 0 ]} 7 [].



(** Thread 1 fills the queue, thread 2 blocks. *)
Definition plain_1 : world := after_send 1 (SendTry 0x8000 0x6000 0 0) plain_world.






(** A full queue, a send that does not want to wait and a receive whose buffer
    is too small. *)
Lemma failed_calls_keep_messages_witness :
  (send_step 2 THREAD_AWAKENED (SendTry 0x8000 0x6100 MACH_SEND_TIMEOUT 0) plain_1 =
     Some (SendReturn MACH_SEND_TIMED_OUT, plain_1) /\ v_limit plain_1 0x8000 <= v_count plain_1 0x8000) /\
  (recv_step 3 THREAD_AWAKENED (RecvTry (PortQueue 0x8000) 0 23 0) plain_1 =
     Some (RecvReturn MACH_RCV_TOO_LARGE 24 0, plain_1) /\
   exists k ks, v_msgs plain_1 (PortQueue 0x8000) = k :: ks /\ 23 < size_of plain_1 k).
Proof.
  assert (Hs : send_step 2 THREAD_AWAKENED (SendTry 0x8000 0x6100 MACH_SEND_TIMEOUT 0) plain_1 =
    Some (SendReturn MACH_SEND_TIMED_OUT, plain_1)) by (by vm_compute).
  assert (Hr : recv_step 3 THREAD_AWAKENED (RecvTry (PortQueue 0x8000) 0 23 0) plain_1 =
    Some (RecvReturn MACH_RCV_TOO_LARGE 24 0, plain_1)) by (by vm_compute).
  split.
  - split; [exact Hs|]. destruct (proj1 (failed_calls_keep_messages _ _ _ _) _ _ Hs ltac:(done)) as (_ & _ & _ & Ht).
    apply (Ht _ _ _ _ eq_refl).
  - split; [exact Hr|]. destruct (proj2 (failed_calls_keep_messages _ _ _ _) _ _ _ _ Hr ltac:(done)) as (_ & _ & _ & Ht).
    destruct (Ht _ _ _ _ eq_refl) as [_ [[? _]|(_ & k & ks & Hk & Hlt & _)]]; [done|]. exists k, ks. exact (conj Hk Hlt).
Defined.

(** An empty queue and two threads. *)
Definition two_threads : rings :=
  mk_rings {[ 0x100 := Q_NULL ]} {[ 1 := mk_links 1 1; 2 := mk_links 2 2 ]}.
Definition two_lists : lists := mk_lists {[ 0x100 := [] ]} {[ 1; 2 ]}.

Lemma two_threads_represent : represents thread_outside two_threads two_lists.
Proof.
  split; simpl.
  - intros q. destruct (decide (q = 0x100)) as [->|]; [done|]. by rewrite !lookup_singleton_ne.
  - intros x. rewrite lookup_insert_is_Some, lookup_singleton_is_Some. set_solver.
  - intros q l [_ <-]%lookup_singleton_Some. split_and!; [constructor|set_solver|done].
  - intros q q' l l' x [_ <-]%lookup_singleton_Some. set_solver.
  - intros x k Hk _. apply lookup_insert_Some in Hk as [[<- <-]|[_ [<- <-]%lookup_singleton_Some]]; done.
Qed.

Lemma queues_implement_lists_witness :
  exists r', mapM (perform thread_queues) [Enqueue 0x100 1; Enqueue 0x100 2; Dequeue 0x100; Remove 0x100 2] two_threads =
      Some ([0; 0; 1; 0], r') /\
    represents thread_outside r' (mk_lists {[ 0x100 := [] ]} {[ 1; 2 ]}).
Proof.
  exact (proj1 queues_implement_lists [Enqueue 0x100 1; Enqueue 0x100 2; Dequeue 0x100; Remove 0x100 2]
    two_threads two_lists [0; 0; 1; 0] _ two_threads_represent ltac:(by vm_compute)).
Defined.
