(* ===== verification/ObjectTheorems.v ===== *)
(** * Theorems on capabilities and on the calls on ports

    The routines of ipc_object.c and the system calls of mach_port.c, run on
    the translated space of ipc_entry.c and ipc_hash.c. *)

From S2P Require Import Prelude Names Splay Table Space Hash Entry EntryInv Alloc Dealloc Grow Retry.
From S2P Require Import World Port PortInv PortQueue Mqueue Right RightBits RightLaws RightWp RightInv RightOps.
From S2P Require Import RightNotify Object ObjectInv PortSpace MachPort ListInv Samples.

(** ** Names allocated by a thread that runs alone *)

Section alone.
Context `{PortConfig} `{!EntrySizes} (addr : Z) (env : environment) (fuel : nat).
Context (Halone : forall st, other_threads env st = st).
Context (Hite : forall m p, ite_alloc env m = Some p -> m !! p = None).

#[local] Instance anames : NameSpace (ipc_space * Global.ghash) := space_names addr.
#[local] Instance alaws : NameSpaceLaws (ipc_space * Global.ghash) := space_names_laws addr.
#[local] Instance aalloc : NameAlloc (ipc_space * Global.ghash) := space_alloc addr env fuel id.

Lemma eq_keeps_new (w w' : world) : w = w' -> keeps_new w w'.
Proof. by intros ->. Qed.

#[local] Instance aalloc_laws : NameAllocLaws (ipc_space * Global.ghash) :=
  space_alloc_laws addr env fuel id same_means (alone_well_behaved env Halone Hite) eq (fun _ => eq_refl) eq_keeps_new.

(** The space is in use, nobody is growing it, and there is fuel to grow its
    table to the last size. *)
Record quiet_space (s : ipc_space) : Prop := {
  qs_active : is_active s = true;
  qs_growing : is_growing s = false;
  qs_inv : space_inv None s;
  qs_fuel : (its_last - is_table_next s + 2 <= fuel)%nat
}.

Lemma quiet_returns s g : quiet_space s -> na_returns (s, g).
Proof.
  intros [Hact Hgr Hinv Hf]. split; simpl.
  - apply alone_alloc_returns; try done. lia.
  - intros name Hname. by apply alone_alloc_name_returns.
Qed.

(** Other threads do nothing, so what is seen after the allocation is what
    was there before. *)
Lemma same_updated s s0 g g0 st name v :
  same_means s s0 -> updated (s0, g0) st name v -> updated (s, g) st name v.
Proof.
  intros Hm [Hok Hu]. split; [done|]. intros n c. rewrite Hu. destruct (decide (n = name)); [done|]. exact (Hm n c).
Qed.

Lemma same_unnamed s s0 g g0 name : same_means s s0 -> unnamed (s0, g0) name -> unnamed (s, g) name.
Proof. intros Hm Hun c Hc. exact (Hun c (proj2 (Hm name c) Hc)). Qed.



(** The port a call was given, with a receive right in the space. *)
Definition receive_born (name port : Z) (w : world) : world :=
  put_port port (ipc_port_init port addr name new_port) w.

(** [mach_port_allocate_name] of a receive right: the name was not in use (or
    only by a compat right whose port is dead, which goes) and now denotes the
    new receive right; or it is in use and nothing changes. *)
Theorem allocate_name_takes_free_names io_alloc s g w name :
  addr <> IS_NULL -> quiet_space s -> u32_range name -> ~ shadowed name -> rights_ok (s, g) w ->
  (forall port, io_alloc IOT_PORT w = Some port -> w_ports w !! port = None) ->
  exists kr st,
    mach_port_allocate_name addr io_alloc MACH_PORT_RIGHT_RECEIVE name ((s, g), w) = Some (kr, st) /\
    match kr with
    | KERN_SUCCESS => exists port w1, io_alloc IOT_PORT w = Some port /\
        available (s, g) (created IOT_PORT port w) name w1 /\
        updated (s, g) st.1 name (Some (packed MACH_PORT_TYPE_RECEIVE 0 false false, port, 0)) /\
        st.2 = receive_born name port w1
    | KERN_INVALID_VALUE => MACH_PORT_VALID name = false /\ st = ((s, g), w)
    | KERN_NAME_EXISTS => ~ unnamed (s, g) name /\ unchanged (s, g) st.1 /\ w_ports st.2 = w_ports w
    | _ => kr ∈ [KERN_INVALID_TASK; KERN_NO_SPACE; KERN_RESOURCE_SHORTAGE] /\
        (forall n c, means None st.1.1 n c <-> means None s n c) /\ w_ports st.2 = w_ports w
    end.
Proof.
  intros Haddr Hq Hname Hns Hrights Hfresh.
  unfold mach_port_allocate_name. rewrite (proj2 (Z.eqb_neq _ _)) by done.
  destruct (MACH_PORT_VALID name) eqn:Hv; cbn [negb]; [|by eexists _, _].
  cbn [Z.eqb MACH_PORT_RIGHT_RECEIVE Pos.eqb].
  assert (Hgood : ns_good (s, g)) by (intros _; apply Hq).
  assert (Hplain : plain MACH_PORT_TYPE_RECEIVE 0) by (by split_and!).
  assert (Hrely : forall object s0 w0, io_alloc IOT_PORT w = Some object ->
    na_meanwhile ((s, g), created IOT_PORT object w) (s0, w0) -> ns_ok None s0 -> rights_ok s0 w0).
  { intros object [s0 g0] w0 Hobj [Hm Hw0] _. simpl in Hm, Hw0. subst w0. intros n c Hc.
    destruct (Hrights n c (proj1 (Hm n c) Hc)) as (t & u & ma & co & o & q & -> & Hwf & Hport).
    exists t, u, ma, co, o, q. split_and!; try done. intros Ht. destruct (Hport Ht) as (p & Hp & Hrest).
    exists p. split; [|done]. simpl. rewrite lookup_insert_ne; [done|]. intros ->. by rewrite (Hfresh o Hobj) in Hp. }
  destruct (wp_returns _ _ _ (object_alloc_name_spec io_alloc (s, g) w name IOT_PORT MACH_PORT_TYPE_RECEIVE 0
    Hname Hv Hns Hgood (quiet_returns s g Hq) Hplain ltac:(done) ltac:(by left) Hrely))
    as ([kr port] & [s' w'] & Hrun & Hspec).
  rewrite run_bind. unfold ipc_port_alloc_name. rewrite run_bind, Hrun.
  destruct (io_alloc IOT_PORT w) as [object|] eqn:Hobj; cycle 1.
  { destruct Hspec as ([= -> ->] & [= -> ->]). eexists _, _. split; [done|]. split_and!; [set_solver|done..]. }
  destruct Hspec as (Hport & [s0 g0] & w0 & [Hm Hw0] & Hspec). simpl in Hm, Hw0, Hport. subst w0 port.
  assert (Hdel : w_ports (discarded IOT_PORT object (created IOT_PORT object w)) = w_ports w).
  { simpl. rewrite delete_insert_id; [done|]. by apply Hfresh. }
  assert (Hmm : forall st, unchanged (s0, g0) st -> unchanged (s, g) st).
  { intros st [Hok Hu]. split; [done|]. intros n c. rewrite Hu. exact (Hm n c). }
  destruct (decide (kr = KERN_SUCCESS)) as [->|Hns1].
  { destruct Hspec as (w1 & Hav & Hup & Hw). cbn [fst snd] in *. subst w'. simpl. eexists KERN_SUCCESS, _.
    split; [unfold on_world, update_port, mbind, M_bind, port_at; simpl; rewrite lookup_insert_eq; reflexivity|].
    exists object, w1. split_and!; [done| |exact (same_updated _ _ g g0 _ _ _ Hm Hup)|].
    - destruct Hav as [[Hun ->]|(t & u & ma & o & q & p & [Hme Hwf] & Hrest)].
      + left. split; [exact (same_unnamed _ _ g g0 _ Hm Hun)|done].
      + right. exists t, u, ma, o, q, p. split; [|done]. split; [|done]. exact (proj1 (Hm _ _) Hme).
    - simpl. unfold receive_born, born, put_port, with_ports. simpl. by rewrite !insert_insert_eq. }
  destruct (decide (kr = KERN_NAME_EXISTS)) as [->|Hns2].
  { destruct Hspec as ((t & u & ma & co & o & q & [Hme _]) & Hu & Hw). cbn [fst snd] in *. subst w'.
    eexists KERN_NAME_EXISTS, _. split; [done|]. split_and!; [|by apply Hmm|exact Hdel].
    intros Hun. exact (Hun _ (proj1 (Hm _ _) Hme)). }
  destruct kr; try done; destruct Hspec as [[[? _]|[?|?]] [= -> ->]]; try done;
    (eexists _, _; split; [done|]; split_and!; [set_solver|apply Hm|exact Hdel]).
Qed.
End alone.

(** ** Rights in and out of a space *)

Section theorems.
Context `{PortConfig} `{!EntrySizes} (addr : Z).
#[local] Instance onspace : NameSpace (ipc_space * Global.ghash) := space_names addr.
#[local] Instance onlaws : NameSpaceLaws (ipc_space * Global.ghash) := space_names_laws addr.
Implicit Types (s : ipc_space * Global.ghash) (w : world) (p : ipc_port).

(** C9: [ipc_object_copyin] of a right that a name denotes, for each of the six
    message types: the call returns the port, and the space is a map of names
    to rights that has changed at this name only; when the entry has no right
    left the name is free again.  Send rights, send-once rights and
    references are conserved. *)
Theorem object_copyin_conserves_rights s w name port p t u q ma co m :
  live_right s w name port p t u q ma co -> copyin_type m = true -> permits m t = true ->
  (m = MACH_MSG_TYPE_MOVE_RECEIVE -> receivable w p) ->
  exists s' w' p' t' u' ma' q' dn ev,
    ipc_object_copyin name m (s, w) = Some ((KERN_SUCCESS, port), (s', w')) /\
    copied_from s s' name port t' u' ma' co q' /\
    w_ports w' = <[port := p']> (w_ports w) /\ ip_active p' = true /\
    balanced p p' t t' (count (gives_send m)) (count (gives_sonce m)) 1 /\
    w_events w' = ev ++ deleted_events dn name /\
    (dn <> IP_NULL -> t' = 0 /\ exists d, ip_dnrequests p = Some d /\ registered d q = Some (name, dn)).
Proof.
  intros Hl Hm Hp Hr. destruct (wp_returns _ _ _ (object_copyin_spec s w name port p t u q ma co m Hl Hm Hp Hr))
    as (res & [s' w'] & Hrun & -> & p' & t' & u' & ma' & q' & dn & ev & Hrest).
  exists s', w', p', t', u', ma', q', dn, ev. split; [done|]. exact Hrest.
Qed.

(** C11: What [ipc_object_copyin] does when it cannot give the right: a dead space,
    a name that denotes nothing and a right the entry does not have are
    reported, and nothing changes; a right whose port has died, if it is not a
    compat right, is copied in as IO_DEAD and becomes a dead name, which loses
    a user reference (none for COPY_SEND). *)
Theorem object_copyin_failures s w name m :
  u32_range name -> copyin_type m = true ->
  (ns_active s = false -> ipc_object_copyin name m (s, w) = Some ((KERN_INVALID_TASK, IO_NULL), (s, w))) /\
  (ns_active s = true -> ns_ok None s -> unnamed s name ->
     exists s', ipc_object_copyin name m (s, w) = Some ((KERN_INVALID_NAME, IO_NULL), (s', w)) /\ unchanged s s') /\
  (forall port p t u q ma co, live_right s w name port p t u q ma co -> permits m t = false ->
     exists s', ipc_object_copyin name m (s, w) = Some ((KERN_INVALID_RIGHT, IO_NULL), (s', w)) /\ unchanged s s') /\
  (forall port p t u q ma, ns_active s = true -> ns_ok None s -> named s name t u ma false port q -> mortal t ->
     w_ports w !! port = Some p -> ip_active p = false -> takes_send m = true ->
     exists s', ipc_object_copyin name m (s, w) =
         Some ((KERN_SUCCESS, IO_DEAD), (s', released port p (emitted (check_events t ma name) w))) /\
       updated s s' name
         (if dead_urefs u q =? urefs_taken m then None
          else Some (packed MACH_PORT_TYPE_DEAD_NAME (dead_urefs u q - urefs_taken m) false false, IO_NULL, 0))).
Proof.
  intros Hname Hm. split_and!.
  - intros Hact. unfold ipc_object_copyin, with_entry. by rewrite run_bind, lookup_dead_space.
  - intros Hact Hok Hun. destruct (lookup_unnamed s w name Hact Hok Hname Hun) as (s' & Hrun & Hu).
    exists s'. split; [|done]. unfold ipc_object_copyin, with_entry. by rewrite run_bind, Hrun.
  - intros port p t u q ma co Hl Hp.
    destruct (wp_returns _ _ _ (object_copyin_refused s w name port p t u q ma co m Hl Hm Hp))
      as (res & [s' w'] & Hrun & -> & Hu & Hw). simpl in *. subst w'. eauto.
  - intros port p t u q ma Hact Hok Hn Hmo Hp Hdead Hts.
    destruct (wp_returns _ _ _ (object_copyin_dead s w name port p t u q ma m Hok Hact Hname Hn Hmo Hp Hdead Hts))
      as (res & [s' w'] & Hrun & -> & Hw & Hu). simpl in *. subst w'. eauto.
Qed.
End theorems.

Section copyout.
Context `{PortConfig} `{!EntrySizes} (addr : Z) (env : environment) (fuel : nat).
Context (Halone : forall st, other_threads env st = st).
Context (Hite : forall m p, ite_alloc env m = Some p -> m !! p = None).
#[local] Instance cnames : NameSpace (ipc_space * Global.ghash) := space_names addr.
#[local] Instance claws : NameSpaceLaws (ipc_space * Global.ghash) := space_names_laws addr.
#[local] Instance calloc : NameAlloc (ipc_space * Global.ghash) := space_alloc addr env fuel id.


(** [ipc_object_copyout] of a send or receive right for a port the space knows:
    the right joins the one under that name, and the caller gets the name.  A
    send right adds a user reference; at the maximum the call fails with
    KERN_UREFS_OVERFLOW and changes nothing, or drops the right if the caller
    said so. *)
Theorem copyout_joins_the_known_name n s g w port p m ov name r s1 t u q ma co :
  space_inv None s -> is_active s = true -> u32_range name -> carried w port m p ->
  known_as addr (s, g) port m p name r s1 -> denotes None s name r -> named (s, g) name t u ma co port q ->
  accepts m t ->
  exists res st, ipc_object_copyout addr (S n) port m ov ((s, g), w) = Some (res, st) /\
    if (m =? MACH_MSG_TYPE_PORT_SEND) && has t MACH_PORT_TYPE_SEND && (u + 1 =? MACH_PORT_UREFS_MAX) && negb ov
    then res = (KERN_UREFS_OVERFLOW, MACH_PORT_NULL) /\ unchanged (s, g) st.1 /\ st.2 = w
    else res = (KERN_SUCCESS, name) /\
      gets_right addr (s, g) name m port p t u q ma co
        (if has t MACH_PORT_TYPE_SEND && (u + 1 =? MACH_PORT_UREFS_MAX) then u else u + added_urefs m) st.
Proof.
  intros H1 H2 H3 H4 H5 H6 H7 H8.
  destruct (wp_returns _ _ _ (copyout_known_spec (NameSpaceLaws0 := claws) addr n (s, g) w port p m ov name r s1 t u q ma co H1 H2 H3 H4 H5 H6 H7 H8))
    as (res & st & Hrun & Hrest). eauto.
Qed.
End copyout.

(** ** Rights the kernel makes *)

(** A send right the kernel makes or copies, and gives up again: the port's
    counts are as before, the make-send count tells that a right was made, and
    the no-senders notification is sent if the right was the only one and
    somebody had asked. *)
Theorem kernel_send_right_roundtrip trylock w port p m :
  w_ports w !! port = Some p -> ip_active p = true -> counts_ok p ->
  m = MACH_MSG_TYPE_MAKE_SEND \/ m = MACH_MSG_TYPE_COPY_SEND /\ 0 < ip_srights p ->
  ip_srights p < u32_max -> u32_range (ip_mscount p) ->
  exists w1 w2 p2, ipc_object_copyin_from_kernel port m w = Some (tt, w1) /\
    ipc_object_destroy trylock port MACH_MSG_TYPE_PORT_SEND w1 = Some (tt, w2) /\
    ipc_object_copyin_type m = Some MACH_MSG_TYPE_PORT_SEND /\
    w_ports w2 = <[port := p2]> (w_ports w) /\ counts p2 = counts p /\ ip_active p2 = true /\
    ip_mscount p2 = u32 (ip_mscount p + count (m =? MACH_MSG_TYPE_MAKE_SEND)) /\
    w_events w2 = w_events w ++
      (if (ip_srights p =? 0) && negb (ip_nsrequest p =? IP_NULL)
       then [NotifyNoSenders (ip_nsrequest p) (u32 (ip_mscount p + 1))] else []).
Proof.
  intros Hp Hact (Hr & Hs & Hso) Hm Hlt Hms.
  assert (Hu : u32 (u32 (ip_srights p + 1) - 1) = ip_srights p).
  { rewrite (u32_id (ip_srights p + 1)) by (unfold u32_range in *; lia).
    replace (ip_srights p + 1 - 1) with (ip_srights p) by lia. by apply u32_id. }
  assert (Hur : u32 (u32 (ip_references p + 1) - 1) = ip_references p).
  { rewrite <- (u32_id (ip_references p)) at 2 by done. unfold u32. rewrite Zminus_mod_idemp_l. f_equal. lia. }
  set (p1 := set_ip_references (u32 (ip_references p + 1)) (set_ip_srights (u32 (ip_srights p + 1))
    (set_ip_mscount (u32 (ip_mscount p + count (m =? MACH_MSG_TYPE_MAKE_SEND))) p))).
  assert (Hmake : ipc_object_copyin_from_kernel port m w = Some (tt, put_port port p1 w)).
  { unfold ipc_object_copyin_from_kernel, ip_reference. destruct Hm as [-> | [-> _]]; simpl.
    - run_ports. done.
    - run_ports. rewrite Hact. unfold when. run_ports. subst p1. simpl; rewrite Z.add_0_r, (u32_id (ip_mscount p)) by done. by destruct p. }
  set (p2 := without_send (set_ip_references (u32 (ip_references p1 - 1)) p1)).
  exists (put_port port p1 w), (emitted (no_senders_events (set_ip_srights (u32 (ip_srights p1 - 1)) p1))
    (put_port port p2 (put_port port p1 w))), p2.
  split; [done|]. split.
  { unfold ipc_object_destroy. simpl. by rewrite (release_send_active (put_port port p1 w) port p1 (put_port_lookup _ _ _)). }
  split; [by destruct Hm as [-> | [-> _]]|]. split; [simpl; by rewrite insert_insert_eq|].
  unfold p2, without_send, no_senders_events, no_senders_due. simpl. rewrite !Hu, !Hur.
  assert (Hcount : (ip_srights p =? 0) = true -> count (m =? MACH_MSG_TYPE_MAKE_SEND) = 1).
  { intros Hz%Z.eqb_eq. by destruct Hm as [-> | [-> ?]]; [|lia]. }
  destruct (ip_srights p =? 0), (ip_nsrequest p =? IP_NULL); simpl; split_and!; try done.
  by rewrite Hcount.
Qed.

(** ** The queue to receive from *)

Section receiving.
Context `{PortConfig} `{!EntrySizes} (addr : Z).
#[local] Instance rnspace : NameSpace (ipc_space * Global.ghash) := space_names addr.
#[local] Instance rnlaws : NameSpaceLaws (ipc_space * Global.ghash) := space_names_laws addr.
Implicit Types (s : ipc_space * Global.ghash) (w : world).

(** [ipc_mqueue_copyin] of a name that denotes a right, up to the test of its
    type. *)
Lemma mqueue_copyin_entry s w name t u ma co o q :
  ns_ok None s -> ns_active s = true -> u32_range name -> named s name t u ma co o q ->
  exists s', unchanged s s' /\
    ipc_mqueue_copyin name (s, w) =
      (if has t MACH_PORT_TYPE_RECEIVE then
         p ← on_world (port_at o);
         in_set ← (if negb (ip_pset p =? IPS_NULL) then
                     x ← on_world (pset_at (ip_pset p));
                     if ips_active x then mret true
                     else on_world (ipc_pset_remove (ip_pset p) o);; on_world (ips_check_unlock (ip_pset p));; mret false
                   else mret false);
         if (in_set : bool) then mret (MACH_RCV_IN_SET, None)
         else on_world (ip_reference o);; mret (MACH_MSG_SUCCESS, Some (PortQueue o, o))
       else if has t MACH_PORT_TYPE_PORT_SET then
         on_world (ips_reference o);; mret (MACH_MSG_SUCCESS, Some (PsetQueue o, o))
       else mret (MACH_RCV_INVALID_NAME, None)) (s', w).
Proof.
  intros Hok Hact Hname Hn. destruct (named_held _ _ _ _ _ _ _ _ Hok Hn) as (r & b & Hh). destruct Hn as [Hm Hwf].
  destruct (wf_type _ _ _ _ _ _ Hwf) as [_ Ht].
  assert (Hhole : hole_of name t = None) by (unfold hole_of; by rewrite (proj2 (Z.eqb_neq _ _))).
  destruct (ns_lookup_law s name Hok Hname) as [Hpres Hfind].
  assert (Hr : (ns_lookup s name).2 = Some r) by (apply Hfind; rewrite <- Hhole; apply Hh).
  pose proof (preserved_held _ _ _ _ _ (ns_lookup s name).1 _ _ _ _ _ _ _ Hh ltac:(by rewrite Hhole)) as Hh'.
  destruct (h_read _ _ _ _ _ _ _ _ _ _ _ _ Hh') as [i Hi]. pose proof (h_desc _ _ _ _ _ _ _ _ _ _ _ _ Hh) as Hd.
  exists (ns_lookup s name).1. split; [by apply preserved_unchanged|].
  unfold ipc_mqueue_copyin. rewrite run_bind. unfold gets. cbn [fst]. rewrite Hact. cbn [negb].
  rewrite run_bind. unfold of_space. cbn [fst snd]. destruct (ns_lookup s name) as [s1 res]. cbn [fst snd] in Hr, Hi |- *. subst res.
  rewrite run_bind. unfold ie_read, gets. cbn [fst]. rewrite Hi. cbn [ie_bits ie_object].
  rewrite !(has_type b) by done. by rewrite (b_type _ _ _ _ _ Hd).
Qed.

(** [ipc_mqueue_copyin] finds the queue messages are sent to.  For a receive
    right whose port is in no set it is the port's own queue, and the port has
    a reference more; a port in a set is received from through the set
    (MACH_RCV_IN_SET, nothing changes), whose name gives the set's queue: the
    queue [ipc_mqueue_send] uses for the port.  Any other right is refused. *)
Theorem mqueue_copyin_finds_the_queue s w name t u ma co o q :
  ns_ok None s -> ns_active s = true -> u32_range name -> named s name t u ma co o q ->
  (forall p, has t MACH_PORT_TYPE_RECEIVE = true -> w_ports w !! o = Some p -> ip_pset p = IPS_NULL ->
     exists s', unchanged s s' /\ ipc_mqueue_copyin name (s, w) =
       Some ((MACH_MSG_SUCCESS, Some (queue_of o p, o)),
             (s', put_port o (set_ip_references (u32 (ip_references p + 1)) p) w))) /\
  (forall p x, has t MACH_PORT_TYPE_RECEIVE = true -> w_ports w !! o = Some p -> ip_pset p <> IPS_NULL ->
     w_psets w !! ip_pset p = Some x -> ips_active x = true ->
     exists s', unchanged s s' /\ ipc_mqueue_copyin name (s, w) = Some ((MACH_RCV_IN_SET, None), (s', w))) /\
  (forall x port p, t = MACH_PORT_TYPE_PORT_SET -> w_psets w !! o = Some x -> ip_pset p = o -> o <> IPS_NULL ->
     exists s', unchanged s s' /\ ipc_mqueue_copyin name (s, w) =
       Some ((MACH_MSG_SUCCESS, Some (queue_of port p, o)),
             (s', with_psets (<[o := set_ips_references (u32 (ips_references x + 1)) x]> (w_psets w)) w))) /\
  (has t MACH_PORT_TYPE_RECEIVE = false -> has t MACH_PORT_TYPE_PORT_SET = false ->
     exists s', unchanged s s' /\ ipc_mqueue_copyin name (s, w) = Some ((MACH_RCV_INVALID_NAME, None), (s', w))).
Proof.
  intros Hok Hact Hname Hn. destruct (mqueue_copyin_entry s w name t u ma co o q Hok Hact Hname Hn)
    as (s' & Hu & ->). split_and!.
  - intros p Hr Hp Hps. exists s'. split; [done|]. rewrite Hr, run_bind. unfold on_world at 1. cbn [snd fst].
    unfold port_at at 1. rewrite Hp, Hps. unfold queue_of. rewrite Hps, Z.eqb_refl. cbn [negb]. rewrite run_bind. cbn [mret M_ret].
    rewrite run_bind. unfold on_world. cbn [fst snd]. unfold ip_reference. by rewrite (update_port_run _ _ _ _ Hp).
  - intros p x Hr Hp Hps Hx Hax. exists s'. split; [done|]. rewrite Hr, run_bind. unfold on_world at 1. cbn [snd fst].
    unfold port_at at 1. rewrite Hp, (proj2 (Z.eqb_neq _ _)) by done. cbn [negb]. rewrite !run_bind.
    unfold on_world at 1. cbn [snd fst]. unfold pset_at at 1. by rewrite Hx, Hax.
  - intros x port p -> Hx Hps Ho. exists s'. split; [done|]. cbn [has MACH_PORT_TYPE_PORT_SET].
    change (has MACH_PORT_TYPE_PORT_SET MACH_PORT_TYPE_RECEIVE) with false.
    change (has MACH_PORT_TYPE_PORT_SET MACH_PORT_TYPE_PORT_SET) with true. cbn beta iota.
    rewrite run_bind. unfold on_world. cbn [fst snd]. unfold ips_reference, update_pset. rewrite run_bind.
    unfold pset_at. rewrite Hx. unfold queue_of. by rewrite Hps, (proj2 (Z.eqb_neq _ _)).
  - intros Hr Hs. exists s'. split; [done|]. by rewrite Hr, Hs.
Qed.
End receiving.

(** ** Where the code departs from its description *)




#[local] Instance calls_alloc : NameAlloc (ipc_space * Global.ghash) := space_alloc sample_addr sample_env 10 id.


Section departures.
Context `{PortConfig} `{!EntrySizes} (addr : Z).
#[local] Instance dnspace : NameSpace (ipc_space * Global.ghash) := space_names addr.
#[local] Instance dnlaws : NameSpaceLaws (ipc_space * Global.ghash) := space_names_laws addr.
Implicit Types (s : ipc_space * Global.ghash) (w : world).

(** [mach_port_set_qlimit] accepts 0, with which every sender blocks for good,
    although mach_port.defs asks for at least 1. *)
Theorem queue_limit_zero_is_accepted s w name port p t u q ma co :
  addr <> IS_NULL -> live_right s w name port p t u q ma co -> has t MACH_PORT_TYPE_RECEIVE = true ->
  0 <= ip_qlimit p ->
  exists s', mach_port_set_qlimit addr name 0 (s, w) =
      Some (KERN_SUCCESS, (s', put_port port (set_ip_qlimit 0 p) w)) /\ unchanged s s'.
Proof.
  intros Haddr [Hok Hact Hname Hn Hpr Hp Halive Hc Hdn] Ht Hq.
  destruct (translate_spec s w name MACH_PORT_RIGHT_RECEIVE t u ma co port q Hok Hact Hname Hn ltac:(done))
    as (s' & Hrun & Hu). exists s'. split; [|done].
  unfold mach_port_set_qlimit. rewrite (proj2 (Z.eqb_neq _ _)) by done. simpl.
  unfold ipc_port_translate_receive. rewrite run_bind, Hrun. fold MACH_PORT_TYPE_RECEIVE. rewrite Ht, run_bind.
  unfold on_world. cbn [snd]. unfold ipc_port_set_qlimit. run_ports.
  rewrite (proj2 (Z.ltb_ge _ _)) by done. rewrite run_bind. cbn [mret M_ret]. run_ports. by destruct p.
Qed.

(** [port_set_deallocate] of a name that denotes nothing, or in a dead space,
    returns the code of the new interface, although its description (and
    every other old call) says KERN_INVALID_ARGUMENT. *)
Theorem port_set_deallocate_leaks_new_codes env s w name :
  addr <> IS_NULL -> u32_range name ->
  (ns_active s = false -> port_set_deallocate addr env name (s, w) = Some (KERN_INVALID_TASK, (s, w))) /\
  (ns_active s = true -> ns_ok None s -> unnamed s name ->
     exists s', port_set_deallocate addr env name (s, w) = Some (KERN_INVALID_NAME, (s', w))).
Proof.
  intros Haddr Hname. unfold port_set_deallocate. rewrite (proj2 (Z.eqb_neq _ _)) by done. unfold with_entry. split.
  - intros Hact. by rewrite run_bind, lookup_dead_space.
  - intros Hact Hok Hun. destruct (lookup_unnamed s w name Hact Hok Hname Hun) as (s' & Hrun & _).
    exists s'. by rewrite run_bind, Hrun.
Qed.
End departures.

(** ** Listing a space *)

Section listing.
Context `{PortConfig} `{!EntrySizes} (space : Z) (vm_allocate : Z -> bool).
Context (Hspace : space <> IS_NULL) (Hvm : forall size, vm_allocate size = true).

(** [mach_port_names] returns every name of the space exactly once, with the
    type [mach_port_names_helper] computes; a compat right whose port is dead
    is left out.  The names fit into the memory the call has allocated, the
    call goes round its loop at most twice, and the space is unchanged. *)
Theorem names_lists_every_name_once s g w :
  listable s w ->
  exists names s', mach_port_names space vm_allocate id 2 ((s, g), w) =
      Some ((KERN_SUCCESS, names), ((s', g), with_timestamp (u32 (w_timestamp w + 1)) w)) /\
    NoDup (map fst names) /\
    (forall name type, (name, type) ∈ names <->
       exists r, denotes None s name r /\ listed_as w (w_timestamp w) (read_entry s r) name = Some (name, type)) /\
    Z.of_nat (length names) * sizeof_mach_port <= names_needed s /\
    space_inv None s' /\ same_means s s'.
Proof.
  intros [Hinv Hact Hports Hc].
  destruct (mach_port_names_alone space vm_allocate s g w Hspace Hact (Hvm _) Hinv Hports) as (s' & Hrs & ->).
  set (h := fun x : Z * entry_ref => listed_as w (w_timestamp w) (read_entry s x.2) x.1).
  assert (Hh : forall x y, h x = Some y -> y.1 = x.1).
  { intros [n r] [n' t']. unfold h. apply listed_as_name. }
  exists (omap h (all_names s)), s'. split; [done|]. split_and!.
  - by apply (nodup_omap_keys h fst fst); [|apply all_names_nodup].
  - intros name type. rewrite list_elem_of_omap. split.
    + intros ([n r] & Hin & Hy). pose proof (Hh _ _ Hy) as Hn. simpl in Hn. subst n. exists r.
      split; [by apply all_names_spec|done].
    + intros (r & Hd & Hy). exists (name, r). split; [by apply all_names_spec|done].
  - pose proof (names_needed_enough s Hinv Hc). pose proof (length_omap h (all_names s)). unfold sizeof_mach_port in *. lia.
  - by eapply resplayed_inv.
  - intros n c. by apply resplayed_means.
Qed.

(** [mach_port_get_set_status] returns the members of a port set: the names of
    the ports in the set whose receive rights the space holds, however many
    there are. *)
Theorem set_status_lists_members s g w name r :
  listable s w -> u32_range name -> denotes None s name r ->
  IE_BITS_TYPE (ie_bits (read_entry s r)) = MACH_PORT_TYPE_PORT_SET ->
  let pset := ie_object (read_entry s r) in
  exists names s', mach_port_get_set_status space vm_allocate id 2 name ((s, g), w) =
      Some ((KERN_SUCCESS, names), ((s', g), w)) /\
    (forall member, member ∈ names <-> exists n r' p, denotes None s n r' /\
       has (ie_bits (read_entry s r')) MACH_PORT_TYPE_RECEIVE = true /\
       w_ports w !! ie_object (read_entry s r') = Some p /\ ip_pset p = pset /\ ip_receiver_name p = member) /\
    space_inv None s' /\ same_means s s'.
Proof.
  intros Hli Hname Hd Ht pset.
  destruct (set_status_alone space vm_allocate Hvm g w name r Hname s Hspace Hli Hd Ht) as (s' & Hrs & ->).
  exists (members s w pset), s'. split; [done|]. split_and!.
  - intros member. unfold members, member_of. rewrite list_elem_of_omap. split.
    + intros ([n r'] & Hin & Hm). simpl in Hm. destruct (has _ MACH_PORT_TYPE_RECEIVE) eqn:Hr; [|done].
      destruct (w_ports w !! _) as [p|] eqn:Hp; [|done]. simpl in Hm.
      destruct (Z.eqb_spec pset (ip_pset p)); [|done]. injection Hm as <-.
      exists n, r', p. split_and!; try done. apply all_names_spec; [apply Hli|done].
    + intros (n & r' & p & Hn & Hr & Hp & Hps & Hm). exists (n, r'). split; [apply all_names_spec; [apply Hli|done]|].
      simpl. rewrite Hr, Hp. simpl. rewrite Hps, Z.eqb_refl. by rewrite Hm.
  - eapply resplayed_inv; [apply Hli|done].
  - intros n c. by apply resplayed_means.
Qed.
End listing.

(** ** The theorems on concrete states *)

Abbreviation empty_space := (new_space 0, sample_hash).

Lemma empty_space_names name r : ~ denotes None (new_space 0) name r.
Proof.
  rewrite <- all_names_spec by apply sample_space_new.
  change (all_names (new_space 0)) with (@nil (Z * entry_ref)). apply not_elem_of_nil.
Qed.

Lemma empty_space_unnamed name : unnamed empty_space name.
Proof. intros c (r & Hd & _). exact (empty_space_names _ _ Hd). Qed.

Lemma empty_space_quiet : quiet_space 600 (new_space 0).
Proof. split; [done|done|apply sample_space_new|apply Nat.leb_le; by vm_compute]. Qed.

Definition next_port (otype : Z) (w : world) : option Z := Some (fresh (dom (w_ports w))).

Lemma next_port_fresh w port : next_port IOT_PORT w = Some port -> w_ports w !! port = None.
Proof. intros [= <-]. apply not_elem_of_dom, is_fresh. Qed.


Lemma empty_space_rights w : rights_ok empty_space w.
Proof. intros name c Hc. by destruct (empty_space_unnamed name c). Qed.

Lemma allocate_name_takes_free_names_witness :
  exists kr st,
    mach_port_allocate_name (H := space_names sample_addr) (NameAlloc0 := space_alloc sample_addr sample_env 600 id)
      sample_addr next_port MACH_PORT_RIGHT_RECEIVE tree_name (empty_space, sample_world) = Some (kr, st) /\
    match kr with
    | KERN_SUCCESS => exists port w1, next_port IOT_PORT sample_world = Some port /\
        available empty_space (created IOT_PORT port sample_world) tree_name w1 /\
        updated empty_space st.1 tree_name (Some (packed MACH_PORT_TYPE_RECEIVE 0 false false, port, 0)) /\
        st.2 = receive_born sample_addr tree_name port w1
    | KERN_INVALID_VALUE => MACH_PORT_VALID tree_name = false /\ st = (empty_space, sample_world)
    | KERN_NAME_EXISTS => ~ unnamed empty_space tree_name /\ unchanged empty_space st.1 /\
        w_ports st.2 = w_ports sample_world
    | _ => kr ∈ [KERN_INVALID_TASK; KERN_NO_SPACE; KERN_RESOURCE_SHORTAGE] /\
        (forall n c, means None st.1.1 n c <-> means None (new_space 0) n c) /\ w_ports st.2 = w_ports sample_world
    end.
Proof.
  exact (allocate_name_takes_free_names sample_addr sample_env 600 (fun _ => eq_refl) fresh_not_in next_port
    (new_space 0) sample_hash sample_world tree_name ltac:(done) empty_space_quiet
    ltac:(unfold u32_range, u32_max, tree_name; lia) ltac:(by intros [? _]) (empty_space_rights _) (next_port_fresh _)).
Defined.

Lemma object_copyin_conserves_rights_witness :
  exists s' w' p' t' u' ma' q' dn ev,
    ipc_object_copyin sample_name MACH_MSG_TYPE_MOVE_RECEIVE (receive_space, sample_world) =
      Some ((KERN_SUCCESS, sample_port), (s', w')) /\
    copied_from receive_space s' sample_name sample_port t' u' ma' false q' /\
    w_ports w' = <[sample_port := p']> (w_ports sample_world) /\ ip_active p' = true /\
    balanced sample_port_data p' MACH_PORT_TYPE_RECEIVE t' 0 0 1 /\
    w_events w' = ev ++ deleted_events dn sample_name /\
    (dn <> IP_NULL -> t' = 0 /\ exists d, ip_dnrequests sample_port_data = Some d /\ registered d 0 = Some (sample_name, dn)).
Proof.
  exact (object_copyin_conserves_rights sample_addr _ _ _ _ _ _ _ _ _ _ MACH_MSG_TYPE_MOVE_RECEIVE
    receive_live eq_refl eq_refl (fun _ => sample_receivable)).
Defined.

Lemma object_copyin_failures_witness :
  exists s', ipc_object_copyin sample_name MACH_MSG_TYPE_COPY_SEND (receive_space, sample_world) =
      Some ((KERN_INVALID_RIGHT, IO_NULL), (s', sample_world)) /\ unchanged receive_space s'.
Proof.
  destruct (object_copyin_failures sample_addr receive_space sample_world sample_name MACH_MSG_TYPE_COPY_SEND
    (lr_name _ _ _ _ _ _ _ _ _ _ receive_live) eq_refl) as (_ & _ & Hrefused & _).
  exact (Hrefused _ _ _ _ _ _ _ receive_live eq_refl).
Defined.



Lemma copyout_joins_the_known_name_witness :
  exists res st,
    ipc_object_copyout (H := space_names sample_addr) (NameAlloc0 := space_alloc sample_addr sample_env 600 id)
      sample_addr 1 sample_port MACH_MSG_TYPE_PORT_SEND false (receive_space, sample_world) = Some (res, st) /\
    res = (KERN_SUCCESS, sample_name) /\
    gets_right sample_addr receive_space sample_name MACH_MSG_TYPE_PORT_SEND sample_port sample_port_data
      MACH_PORT_TYPE_RECEIVE 0 0 false false 1 st.
Proof.
  refine (copyout_joins_the_known_name sample_addr sample_env 600 0 receive_space.1 sample_hash sample_world sample_port
    sample_port_data MACH_MSG_TYPE_PORT_SEND false sample_name sample_entry (ns_lookup receive_space sample_name).1
    MACH_PORT_TYPE_RECEIVE 0 0 false false (lr_ok _ _ _ _ _ _ _ _ _ _ receive_live) eq_refl
    (lr_name _ _ _ _ _ _ _ _ _ _ receive_live) _ _ _ (lr_right _ _ _ _ _ _ _ _ _ _ receive_live) _).
  - split; [by left|done|apply sample_lookup|done|exact sample_counts|done].
  - split; [done|]. left. by vm_compute.
  - constructor; [by vm_compute|by left|done].
  - right. left. split; [done|by right; right; left].
Defined.

Lemma kernel_send_right_roundtrip_witness :
  exists w1 w2 p2, ipc_object_copyin_from_kernel sample_port MACH_MSG_TYPE_MAKE_SEND sample_world = Some (tt, w1) /\
    ipc_object_destroy true sample_port MACH_MSG_TYPE_PORT_SEND w1 = Some (tt, w2) /\
    ipc_object_copyin_type MACH_MSG_TYPE_MAKE_SEND = Some MACH_MSG_TYPE_PORT_SEND /\
    w_ports w2 = <[sample_port := p2]> (w_ports sample_world) /\ counts p2 = counts sample_port_data /\
    ip_active p2 = true /\ ip_mscount p2 = u32 (ip_mscount sample_port_data + 1) /\
    w_events w2 = w_events sample_world ++ [].
Proof.
  refine (kernel_send_right_roundtrip true sample_world sample_port sample_port_data MACH_MSG_TYPE_MAKE_SEND
    (sample_lookup _) eq_refl sample_counts (or_introl eq_refl) _ _); unfold u32_range, u32_max; simpl; lia.
Defined.

(** A port set and a receive right whose port is in the set. *)
Definition set_space : ipc_space := (sample_with MACH_PORT_TYPE_PORT_SET 0xc000 0).1.
Definition second_space : ipc_space := (ipc_entry_get set_space).1.
Definition second_name : Z := 0x200.
Definition second_entry : entry_ref := TableEntry 2.
Definition member_space : ipc_space := write_entry second_space second_entry MACH_PORT_TYPE_RECEIVE sample_port 0.
Definition member_world : world := sample_world_of (set_ip_pset 0xc000 (set_ip_receiver_name second_name sample_port_data)).

Lemma set_space_inv : space_inv None set_space.
Proof.
  exact (h_ok _ _ _ _ _ _ _ _ _ _ _ _
    (sample_held MACH_PORT_TYPE_PORT_SET 0xc000 0 MACH_PORT_TYPE_PORT_SET 0 false false ltac:(by apply sample_bits))).
Qed.

Lemma second_fresh :
  held (Some second_name) (second_space, sample_hash) second_name second_entry (second_space, sample_hash)
    0 0 0 0 0 false false.
Proof.
  pose proof (entry_get_spec set_space set_space_inv) as Hs.
  assert (Hget : (ipc_entry_get set_space).2 = Some (second_name, second_entry)) by reflexivity.
  assert (Hal : allocated set_space second_space second_name second_entry).
  { unfold second_space. destruct (ipc_entry_get _) as [s' res]. simpl in Hget. subst res. apply Hs. }
  destruct Hal as (Hinv & Hden & _). split; try done. by exists 0.
Qed.

Lemma member_space_inv : space_inv None member_space.
Proof.
  exact (h_ok _ _ _ _ _ _ _ _ _ _ _ _ (held_write _ _ _ _ _ _ _ _ _ _ _ _ MACH_PORT_TYPE_RECEIVE sample_port 0
    MACH_PORT_TYPE_RECEIVE 0 false false second_fresh ltac:(by apply sample_bits))).
Qed.

Lemma member_space_listable : listable member_space member_world.
Proof.
  split; [apply member_space_inv|done| |by vm_compute].
  intros name r Hd. apply all_names_spec in Hd; [|apply member_space_inv].
  change (all_names member_space) with [(sample_name, sample_entry); (second_name, second_entry)] in Hd.
  apply elem_of_cons in Hd as [[= -> ->]|[= -> ->]%list_elem_of_singleton]; [done|]. intros _. by eexists.
Qed.

Lemma names_lists_every_name_once_witness :
  exists names s', mach_port_names sample_addr (fun _ => true) id 2 ((member_space, sample_hash), member_world) =
      Some ((KERN_SUCCESS, names), ((s', sample_hash), with_timestamp (u32 (7 + 1)) member_world)) /\
    NoDup (map fst names) /\
    (forall name type, (name, type) ∈ names <->
       exists r, denotes None member_space name r /\
         listed_as member_world 7 (read_entry member_space r) name = Some (name, type)) /\
    Z.of_nat (length names) * sizeof_mach_port <= names_needed member_space /\
    space_inv None s' /\ same_means member_space s'.
Proof.
  exact (names_lists_every_name_once sample_addr (fun _ => true) ltac:(done) (fun _ => eq_refl) member_space sample_hash
    member_world member_space_listable).
Defined.

Lemma set_status_lists_members_witness :
  exists names s', mach_port_get_set_status sample_addr (fun _ => true) id 2 sample_name
      ((member_space, sample_hash), member_world) =
      Some ((KERN_SUCCESS, names), ((s', sample_hash), member_world)) /\
    (forall member, member ∈ names <-> exists n r' p, denotes None member_space n r' /\
       has (ie_bits (read_entry member_space r')) MACH_PORT_TYPE_RECEIVE = true /\
       w_ports member_world !! ie_object (read_entry member_space r') = Some p /\ ip_pset p = 0xc000 /\
       ip_receiver_name p = member) /\
    space_inv None s' /\ same_means member_space s'.
Proof.
  exact (set_status_lists_members sample_addr (fun _ => true) ltac:(done) (fun _ => eq_refl) member_space sample_hash
    member_world sample_name sample_entry member_space_listable ltac:(unfold u32_range, u32_max, sample_name; lia)
    ltac:(constructor; [by vm_compute|by left|done]) eq_refl).
Defined.
