(* ===== verification/RequestTheorems.v ===== *)
(** * Theorems on message-accepted requests (ipc/ipc_marequest.c)

    The table of requests, and the life of a request: made by a sender that
    forces a message into a full queue, answered when the message is received,
    on the translated space of ipc_entry.c and ipc_hash.c. *)

From S2P Require Import Prelude Names Splay Table Space Hash Entry EntryInv Alloc Dealloc Grow Retry.
From S2P Require Import World Port PortInv PortQueue Right RightBits RightLaws RightWp RightInv RightOps.
From S2P Require Import RightNotify Object ObjectInv PortSpace Marequest MarequestInv Samples.

(** The chains of the hash table hold a finite map from spaces and names to
    requests: it is empty at the start; linking a request, taking one out,
    cancelling it and giving it a new name change the map at the keys they
    should, and every other request stays linked and says what it said. *)
Theorem request_table_correct `{PortConfig} t F s n x :
  table_ok t F -> x <> IMAR_NULL ->
  (forall configured max, table_ok (ipc_marequest_init configured max) ∅) /\
  (forall r, F !! (s, n) = None -> ma_mem t !! x = Some r -> imar_space r = s -> imar_name r = n ->
     (forall k, F !! k <> Some x) ->
     exists t', link_request s n x t = Some (tt, t') /\ table_ok t' (<[(s, n) := x]> F) /\
       same_keys (ma_mem t) (ma_mem t')) /\
  (F !! (s, n) = Some x ->
     (exists t', ipc_marequest_cancel s n t = Some (tt, t') /\ table_ok t' (delete (s, n) F) /\
        renamed (ma_mem t) (ma_mem t') x MACH_PORT_NULL) /\
     (forall new, F !! (s, new) = None ->
        exists t', ipc_marequest_rename s n new t = Some (tt, t') /\
          table_ok t' (<[(s, new) := x]> (delete (s, n) F)) /\ renamed (ma_mem t) (ma_mem t') x new)).
Proof.
  intros Hok Hx0. split_and!.
  - apply init_spec.
  - intros r HF Hr Hs Hn Hout. destruct (link_spec t F s n x r) as (t' & ? & ? & ? & _); [done..|]. eauto.
  - intros HF. split.
    + destruct (cancel_spec t F s n x Hok HF) as (t' & ? & ? & ? & _). eauto.
    + intros new Hnew. destruct (rename_spec t F s n new x Hok HF Hnew Hx0) as (t' & ? & ? & ? & _). eauto.
Qed.

Section requests.
Context `{PortConfig} `{!EntrySizes} (addr is_notify : Z).
Context (imar_alloc : gmap Z ipc_marequest -> option Z).
#[local] Instance qnames : NameSpace (ipc_space * Global.ghash) := space_names addr.
#[local] Instance qlaws : NameSpaceLaws (ipc_space * Global.ghash) := space_names_laws addr.
Implicit Types (s : ipc_space * Global.ghash) (w : world) (p : ipc_port) (t : imars) (F : gmap (Z * Z) Z).

(** C23: A sender asks, for a right it has and that has no request, to be told on a
    port it receives from.  The request is made and the entry is marked; while
    it is, a second request is refused.  When the message is received the mark
    is gone, the table is as before, and the sender is told once, with the name
    of the right.  If the right has been given up in between (which cancels the
    request), the sender is told without a name, and the space is not touched. *)
Theorem accepted_message_is_told_once s w t F name port p ty u q co r s1 notify soright w1 x :
  live_right s w name port p ty u q false co -> name <> MACH_PORT_NULL -> denotes None s.1 name r ->
  known_as addr s port MACH_MSG_TYPE_PORT_SEND p name r s1 -> notify_named s w notify soright w1 ->
  table_ok t F -> F !! (addr, name) = None ->
  imar_alloc (ma_mem t) = Some x -> ma_mem t !! x = None -> x <> IMAR_NULL ->
  exists s' t', ipc_marequest_create addr imar_alloc port notify ((s, w), t) =
      Some ((MACH_MSG_SUCCESS, x), ((s', emitted [SpaceReference] w1), t')) /\
    updated s s' name (Some (packed ty u true co, port, q)) /\ table_ok t' (<[(addr, name) := x]> F) /\
    (forall w2 p2 s2 notify2 y, w_ports w2 !! port = Some p2 -> ip_active p2 = true ->
       known_as addr s' port MACH_MSG_TYPE_PORT_SEND p2 name r s2 -> imar_alloc (ma_mem t') = Some y ->
       ipc_marequest_create addr imar_alloc port notify2 ((s', w2), t') =
         Some ((MACH_SEND_NOTIFY_IN_PROGRESS, IMAR_NULL), ((s2, w2), t'))) /\
    (forall w2, exists s2 t2, serve_request addr is_notify (MarequestDestroy x) ((s', w2), t') =
         Some (tt, ((s2, emitted [SpaceRelease; NotifyMsgAccepted soright name] w2), t2)) /\
       unchanged s s2 /\ table_ok t2 F /\ ma_mem t2 !! x = None) /\
    (forall s2 w2, exists t2 t3, serve_request addr is_notify (MarequestCancel name) ((s2, w2), t') =
         Some (tt, ((s2, w2), t2)) /\
       serve_request addr is_notify (MarequestDestroy x) ((s2, w2), t2) =
         Some (tt, ((s2, emitted [SpaceRelease; NotifyMsgAccepted soright MACH_PORT_NULL] w2), t3)) /\
       table_ok t3 F /\ ma_mem t3 !! x = None).
Proof.
  intros Hl Hn0 Hd Hk Hn Hok HF Hal Hfree Hx0.
  destruct (create_run addr imar_alloc s w t F name port p ty u q co r s1 notify soright w1 x Hl Hd Hk Hn Hok HF Hal Hfree Hx0)
    as (s' & b & t' & rq & Hrun & Hh & Hok' & Hrq & Hkey).
  pose proof Hl as [Hso Hact Hname [Hme Hwf] _ _ _ _ _]. destruct (wf_type _ _ _ _ _ _ Hwf) as [_ Ht].
  assert (Hact' : ns_active s' = true) by (rewrite (h_active _ _ _ _ _ _ _ _ _ _ _ _ Hh); done).
  assert (HF' : <[(addr, name) := x]> F !! (addr, name) = Some x) by apply lookup_insert_eq.
  assert (Hdel : delete (addr, name) (<[(addr, name) := x]> F) = F) by (by apply delete_insert_id).
  assert (Hsr : soright <> IP_NULL) by apply Hn.
  exists s', t'. split; [done|]. split_and!; [by eapply held_updated|done|..].
  - intros w2 p2 s2 notify2 y Hp2 Hact2 Hk2 Hy. by eapply create_refused.
  - intros w2. destruct (destroy_run addr is_notify s name r s' w2 t' _ b port q ty u co x rq soright Hh Ht Hact' Hname Hn0
      Hok' HF' Hrq Hkey Hsr) as (s2 & b2 & t2 & Hrun2 & Hh2 & Hok2 & Hgone). rewrite Hdel in Hok2.
    exists s2, t2. split_and!; try done. by eapply held_unchanged.
  - intros s2 w2. destruct (cancel_spec t' _ addr name x Hok' HF') as (t2 & Hrun2 & Hok2 & Hren & _). rewrite Hdel in Hok2.
    pose proof (Hren x) as Hrx. rewrite Hrq, Z.eqb_refl in Hrx. simpl in Hrx.
    destruct (ma_mem t2 !! x) as [rq2|] eqn:Hrq2; [|done]. injection Hrx as _ Hname2 Hso2. injection Hkey as _ _ Hso1.
    destruct (destroy_cancelled addr is_notify (s2, w2) t2 F x rq2 soright Hok2) as (t3 & Hrun3 & Hok3 & Hgone); try done.
    + intros k. by apply (request_out t F).
    + by rewrite Hso2.
    + exists t2, t3. split_and!; try done. by apply run_on_imars.
Qed.
End requests.

(** ** The theorems on concrete states *)

(** A table of 16 buckets with two requests in one chain. *)
Definition first_request : ipc_marequest := mk_imar sample_addr 0x700 0x9000 0xe100.
Definition second_request : ipc_marequest := mk_imar sample_addr 0x1700 0x9000 IMAR_NULL.
Definition two_requests : imars :=
  mk_imars 15 (<[7%nat := 0xe000]> (replicate 16 IMAR_NULL)) {[ 0xe000 := first_request; 0xe100 := second_request ]}.
Definition two_keys : gmap (Z * Z) Z := {[ (sample_addr, 0x700) := 0xe000; (sample_addr, 0x1700) := 0xe100 ]}.

Lemma two_keys_lookup k x : two_keys !! k = Some x ->
  k = (sample_addr, 0x700) /\ x = 0xe000 \/ k = (sample_addr, 0x1700) /\ x = 0xe100.
Proof. unfold two_keys. intros [[<- <-]|[_ [<- <-]%lookup_singleton_Some]]%lookup_insert_Some; auto. Qed.

Lemma two_requests_ok : table_ok two_requests two_keys.
Proof.
  split.
  - by vm_compute.
  - intros b h Hb. destruct (decide (b = 7%nat)) as [->|Hne].
    + injection Hb as <-. exists [0xe000; 0xe100]. split_and!.
      * simpl. split_and!; [done..|]. exists first_request. split; [done|]. simpl. split_and!; [done..|]. by exists second_request.
      * by apply (bool_decide_unpack _).
      * intros x. split.
        -- intros [->|[->|?%elem_of_nil]%elem_of_cons]%elem_of_cons; [exists sample_addr, 0x700|exists sample_addr, 0x1700|done];
             by vm_compute.
        -- intros (s & n & [[_ ->]|[_ ->]]%two_keys_lookup & _); [by left|by right; left].
    + change (ma_heads two_requests) with (<[7%nat := 0xe000]> (replicate 16 IMAR_NULL)) in Hb.
      rewrite list_lookup_insert_ne in Hb by done.
      apply lookup_replicate in Hb as [-> _]. exists []. split_and!; [done|constructor|].
      intros x. split; [by intros ?%elem_of_nil|].
      intros (s & n & [[[= -> ->] ->]|[[= -> ->] ->]]%two_keys_lookup & Hh); by vm_compute in Hh; subst b.
  - intros s n x [[[= -> ->] ->]|[[= -> ->] ->]]%two_keys_lookup; by eexists.
Qed.

Lemma request_table_correct_witness :
  exists t', ipc_marequest_cancel sample_addr 0x1700 two_requests = Some (tt, t') /\
    table_ok t' (delete (sample_addr, 0x1700) two_keys) /\
    renamed (ma_mem two_requests) (ma_mem t') 0xe100 MACH_PORT_NULL.
Proof.
  destruct (request_table_correct two_requests two_keys sample_addr 0x1700 0xe100 two_requests_ok ltac:(done))
    as (_ & _ & Hin). exact (proj1 (Hin eq_refl)).
Defined.

Definition next_request (mem : gmap Z ipc_marequest) : option Z := Some 0xe200.

Lemma accepted_message_is_told_once_witness :
  exists s' t', ipc_marequest_create sample_addr next_request sample_port sample_name
      ((receive_space, sample_world), two_requests) =
      Some ((MACH_MSG_SUCCESS, 0xe200),
        ((s', emitted [SpaceReference] (put_port sample_port (with_sonce sample_port_data) sample_world)), t')) /\
    updated receive_space s' sample_name (Some (packed MACH_PORT_TYPE_RECEIVE 0 true false, sample_port, 0)) /\
    table_ok t' (<[(sample_addr, sample_name) := 0xe200]> two_keys).
Proof.
  destruct (accepted_message_is_told_once sample_addr 0 next_request receive_space sample_world two_requests
    two_keys sample_name sample_port sample_port_data MACH_PORT_TYPE_RECEIVE 0 0 false sample_entry
    (ns_lookup receive_space sample_name).1 sample_name sample_port
    (put_port sample_port (with_sonce sample_port_data) sample_world) 0xe200 receive_live ltac:(done))
    as (s' & t' & Hrun & Hup & Hok & _); [constructor; [by vm_compute|by left|done]|split; [done|left; by vm_compute]| |
      exact two_requests_ok|by vm_compute|done|by vm_compute|done|].
  - split; [done|]. split; [exact (lr_name _ _ _ _ _ _ _ _ _ _ receive_live)|]. split; [done|].
    exists sample_port_data, MACH_PORT_TYPE_RECEIVE, 0, false, false, 0.
    split; [exact (lr_right _ _ _ _ _ _ _ _ _ _ receive_live)|by split].
  - exists s', t'. exact (conj Hrun (conj Hup Hok)).
Defined.
