(* ===== verification/KmsgTheorems.v ===== *)
(** * Theorems about messages (ipc/ipc_kmsg.c)

    The bodies of messages first, against the interface [BodyLaws]; then the
    headers.  The witnesses use a small implementation of the interface, in
    which the rights and copies that are outside of spaces are lists. *)

From S2P Require Import Prelude Names Splay Table Space Hash Entry World Port Mqueue Right Object.
From S2P Require Import EntryInv PortInv RightBits RightLaws RightWp RightInv RightOps RightNotify ObjectInv ListInv Samples.
From S2P Require Import PortSpace MachPort Marequest Kmsg KmsgInv KmsgBody KmsgBodyInv KmsgCopyin KmsgCopyout KmsgSamples.

Section bodies.
Context {St : Type} `{!BodyOps St} `{!BodyLaws St}.
Implicit Types (k : ipc_kmsg) (words : gmap Z Z) (st : St) (R : list (Z * Z)) (C : list Z).






Lemma clear_complex bits : has (clear bits MACH_MSGH_BITS_COMPLEX) MACH_MSGH_BITS_COMPLEX = false.
Proof.
  unfold has, clear. replace (Z.land (Z.ldiff bits MACH_MSGH_BITS_COMPLEX) MACH_MSGH_BITS_COMPLEX) with 0; [done|].
  symmetry. apply Z.bits_inj'. intros i Hi. rewrite Z.land_spec, Z.ldiff_spec, Z.bits_0.
  destruct (Z.testbit MACH_MSGH_BITS_COMPLEX i); by rewrite ?andb_false_r.
Qed.










End bodies.

(** ** Headers *)

Section headers.
Context `{PortConfig} `{!EntrySizes}.
Context (addr : Z) (entries : environment) (alloc_fuel : nat) (others : world -> world).
Context (env : header_env (ipc_space * Global.ghash)).
#[local] Instance hnames : NameSpace (ipc_space * Global.ghash) := space_names addr.
#[local] Instance halloc : NameAlloc (ipc_space * Global.ghash) := space_alloc addr entries alloc_fuel others.

(** C7: The common cases of [ipc_kmsg_copyin_header], which are done by hand on
    the table of the space, do what the general case does: the same result and
    the same state, whatever the message is and whether or not the case gives
    up. *)
Theorem common_copyin_is_the_general_one s g w kmsg k notify :
  undisturbed env -> ready addr s g w kmsg k ->
  ipc_kmsg_copyin_header addr env kmsg notify ((s, g), w) = copyin_header_general env kmsg notify ((s, g), w).
Proof. intros Halone Hr. by eapply copyin_header_eq. Qed.

(** C8: The common cases of [ipc_kmsg_copyout_header] do what the general case
    does, in a space that is alive. *)
Theorem common_copyout_is_the_general_one s g w kmsg k notify n :
  undisturbed env -> arrived s w kmsg k ->
  ipc_kmsg_copyout_header addr entries alloc_fuel others env (S n) kmsg notify ((s, g), w) =
    copyout_header_general addr env (S n) kmsg notify ((s, g), w).
Proof. intros Halone Ha. by eapply copyout_header_eq. Qed.

(** [ipc_kmsg_copyout_object] of a send right that the receiver has in the
    hash table of its space does what [ipc_object_copyout] does, and so do its
    other cases. *)
Theorem common_object_is_the_general_one s g w n port p msgt_name :
  w_ports w !! port = Some p -> IO_VALID port = true -> hashed_send addr s p port ->
  ipc_kmsg_copyout_object addr entries alloc_fuel others env (S n) port msgt_name ((s, g), w) =
    copyout_object_general addr env (S n) port msgt_name ((s, g), w).
Proof. intros Hp Hv Hh. by eapply copyout_object_eq. Qed.

(** In a space that is dead the two cases differ: the common case receives
    a message without a reply port, where the general case reports that the
    space is dead. *)
Theorem dead_space_still_receives s g w kmsg k d n :
  is_active s = false -> w_kmsgs w !! kmsg = Some k -> msgh_local_port k = MACH_PORT_NULL ->
  MACH_MSGH_BITS_PORTS (msgh_bits k) = MACH_MSGH_BITS MACH_MSG_TYPE_PORT_SEND 0 ->
  w_ports w !! msgh_remote_port k = Some d -> ip_active d = true ->
  (exists st, ipc_kmsg_copyout_header addr entries alloc_fuel others env n kmsg MACH_PORT_NULL ((s, g), w) =
     Some (MACH_MSG_SUCCESS, st)) /\
  copyout_header_general addr env n kmsg MACH_PORT_NULL ((s, g), w) =
    Some (Z.lor MACH_RCV_HEADER_ERROR MACH_MSG_IPC_SPACE, ((s, g), w)).
Proof.
  intros Hs Hk Hl Hports Hd Ha. split.
  - assert (exists st, copyout_common addr env kmsg MACH_PORT_NULL ((s, g), w) = Some (Some MACH_MSG_SUCCESS, st)) as [st Hc].
    { unfold copyout_common. step_world ltac:(by apply header_at_run). rewrite Hports, Z.eqb_refl. simpl.
      unfold copyout_async. step_world ltac:(by apply port_at_run). rewrite Ha. cbn [negb].
      step_world ltac:(by apply fast_copyout_send_run). unfold header_done, update_kmsg, on_world, mbind, M_bind. simpl.
      erewrite header_at_run by exact Hk. by eexists. }
    exists st. unfold ipc_kmsg_copyout_header. by rewrite (bind_run _ _ _ _ _ Hc).
  - unfold copyout_header_general. step_world ltac:(by apply header_at_run). rewrite Hl. simpl.
    unfold gets. unfold mbind at 1, M_bind at 1. simpl. by rewrite Hs.
Qed.
End headers.

(** ** The theorems on concrete messages *)


Definition bag_empty : bag := ([], []).


(** Both outcomes happen. *)
Example sample_is_copied_in :
  match ipc_kmsg_copyin sample_ikm 0 (mk_kbuf sample_kmsg (body_memory sample_ikm sample_body), bag_empty) with
  | Some (mr, (_, (rights, copies))) =>
    mr = MACH_MSG_SUCCESS /\ copies = [5000] /\
    rights = [(100007, MACH_MSG_TYPE_PORT_SEND); (100007, MACH_MSG_TYPE_PORT_SEND); (100007, MACH_MSG_TYPE_PORT_SEND);
              (100002, MACH_MSG_TYPE_PORT_SEND); (100001, MACH_MSG_TYPE_PORT_SEND); (100005, MACH_MSG_TYPE_PORT_SEND)]
  | None => False
  end.
Proof. vm_compute. done. Qed.

Example wrong_name_is_given_back :
  match ipc_kmsg_copyin sample_ikm 0
    (mk_kbuf (body_header (complex_bits MACH_MSG_TYPE_COPY_SEND) 5 wrong_body) (body_memory sample_ikm wrong_body), bag_empty) with
  | Some (mr, (_, b)) => mr = MACH_SEND_INVALID_RIGHT /\ b = bag_empty
  | None => False
  end.
Proof. vm_compute. done. Qed.









(** ** Headers on concrete states *)

Definition header_kmsg : Z := 0x6000.

(** A message to the sample port; [remote] is a name or a port. *)
Definition header_world (bits remote : Z) (p : ipc_port) : world :=
  mk_world {[ sample_port := p ]} ∅ ∅ {[ header_kmsg := mk_kmsg 0 bits 24 remote 0 ]} 7 [].

Definition quiet_header_env : header_env (ipc_space * Global.ghash) :=
  mk_header_env (mk_right_env (fun _ => None) id id true) (fun _ w => w) (fun _ => true).

Lemma send_space_names name r : denotes None send_space.1 name r -> name = sample_name /\ r = sample_entry.
Proof.
  rewrite <- all_names_spec by apply send_space_inv.
  change (all_names send_space.1) with [(sample_name, sample_entry)]. by intros [= -> ->]%list_elem_of_singleton.
Qed.

Lemma header_ready :
  ready sample_addr send_space.1 send_space.2 (header_world MACH_MSG_TYPE_COPY_SEND sample_name sample_port_data)
    header_kmsg (mk_kmsg 0 MACH_MSG_TYPE_COPY_SEND 24 sample_name 0).
Proof.
  split; try done; [apply send_space_inv| |].
  - intros name c (r & Hd & <-). change (denotes None send_space.1 name r) in Hd. apply send_space_names in Hd as [-> ->].
    exists MACH_PORT_TYPE_SEND, 1, false, false, sample_port, 0. split; [by vm_compute|]. split; [apply send_wf|].
    intros _. exists sample_port_data. split; [exact (sample_lookup _)|done].
  - intros port p Hp. cbn in Hp. apply lookup_singleton_Some in Hp as [<- <-]. done.
Qed.

Lemma common_copyin_is_the_general_one_witness :
  ipc_kmsg_copyin_header sample_addr quiet_header_env header_kmsg 0
    (send_space, header_world MACH_MSG_TYPE_COPY_SEND sample_name sample_port_data) =
  copyin_header_general quiet_header_env header_kmsg 0
    (send_space, header_world MACH_MSG_TYPE_COPY_SEND sample_name sample_port_data).
Proof.
  exact (common_copyin_is_the_general_one sample_addr quiet_header_env _ _ _ _ _ 0 (fun _ _ => eq_refl) header_ready).
Defined.

Lemma header_arrived :
  arrived (new_space 0) (header_world MACH_MSG_TYPE_PORT_SEND sample_port sample_port_data) header_kmsg
    (mk_kmsg 0 MACH_MSG_TYPE_PORT_SEND 24 sample_port 0).
Proof.
  split; try done; [apply sample_space_new|].
  intros port p Hp. cbn in Hp. apply lookup_singleton_Some in Hp as [<- <-]. done.
Qed.

Lemma common_copyout_is_the_general_one_witness :
  ipc_kmsg_copyout_header sample_addr sample_env 600 id quiet_header_env 1 header_kmsg 0
    ((new_space 0, sample_hash), header_world MACH_MSG_TYPE_PORT_SEND sample_port sample_port_data) =
  copyout_header_general (NameAlloc0 := space_alloc sample_addr sample_env 600 id) sample_addr quiet_header_env 1 header_kmsg 0
    ((new_space 0, sample_hash), header_world MACH_MSG_TYPE_PORT_SEND sample_port sample_port_data).
Proof.
  exact (common_copyout_is_the_general_one sample_addr sample_env 600 id quiet_header_env _ sample_hash _ _ _ 0 0%nat
    (fun _ _ => eq_refl) header_arrived).
Defined.

(** The space of the receiver knows the port of another task. *)
Definition far_port_data : ipc_port := set_ip_data 0x7000 sample_port_data.
Definition hashed_space : ipc_space * Global.ghash :=
  ipc_hash_insert sample_addr send_space.1 send_space.2 sample_port sample_name sample_entry.

Lemma hashed_space_send : hashed_send sample_addr hashed_space.1 far_port_data sample_port.
Proof.
  intros name index Hl. vm_compute in Hl. injection Hl as <- <-. split; [done|]. split; [vm_compute; split; done|].
  exists 1, false, false. split; [|done]. apply send_bits_ok.
Qed.

Lemma common_object_is_the_general_one_witness :
  ipc_kmsg_copyout_object sample_addr sample_env 600 id quiet_header_env 1 sample_port MACH_MSG_TYPE_PORT_SEND
    (hashed_space, sample_world_of far_port_data) =
  copyout_object_general (NameAlloc0 := space_alloc sample_addr sample_env 600 id) sample_addr quiet_header_env 1
    sample_port MACH_MSG_TYPE_PORT_SEND (hashed_space, sample_world_of far_port_data).
Proof.
  exact (common_object_is_the_general_one sample_addr sample_env 600 id quiet_header_env _ _ _ 0%nat _ _
    MACH_MSG_TYPE_PORT_SEND (sample_lookup far_port_data) eq_refl hashed_space_send).
Defined.

Lemma dead_space_still_receives_witness :
  let w := header_world MACH_MSG_TYPE_PORT_SEND sample_port sample_port_data in
  let s := with_active false (new_space 0) in
  (exists st, ipc_kmsg_copyout_header sample_addr sample_env 600 id quiet_header_env 1 header_kmsg 0
     ((s, sample_hash), w) = Some (MACH_MSG_SUCCESS, st)) /\
  copyout_header_general (NameAlloc0 := space_alloc sample_addr sample_env 600 id) sample_addr quiet_header_env 1
    header_kmsg 0 ((s, sample_hash), w) =
    Some (Z.lor MACH_RCV_HEADER_ERROR MACH_MSG_IPC_SPACE, ((s, sample_hash), w)).
Proof.
  exact (dead_space_still_receives sample_addr sample_env 600 id quiet_header_env (with_active false (new_space 0)) sample_hash
    (header_world MACH_MSG_TYPE_PORT_SEND sample_port sample_port_data) header_kmsg
    (mk_kmsg 0 MACH_MSG_TYPE_PORT_SEND 24 sample_port 0) sample_port_data 1%nat eq_refl eq_refl eq_refl eq_refl eq_refl eq_refl).
Defined.
