(* ===== verification/VmTheorems.v ===== *)
(** * Theorems about address maps and memory objects (vm/vm_map.c, vm_object.c)

    The statements about maps hold for every implementation of the objects
    that keeps the laws [ObjectLaws]; [object_laws] shows that vm_object.c
    does, and the witnesses run on it. *)

From S2P Require Import Prelude Names Splay Table Space Hash Entry World Vm VmMap VmRing VmOwn VmMapInv VmClip VmMapOps VmDelete VmSimplify VmEnter VmWire VmFault VmUser VmObject VmObjectInv VmObjectFree VmObjectCollapse VmObjectLaws VmObjectView VmSamples.

(** ** Maps *)

Section maps.
Context {St : Type} `{!ObjectOps St} `{!ObjectLaws St} (env : vm_env St).
Context (rs : gmap Z ring) (maps : gmap Z vm_map) (copies : gmap Z vm_map_copy) (map : Z).

Abbreviation vs := (vmem * St)%type.

(** The map at [map] has the ring [R] and the record [v], is as it should be
    and not locked; the references [F] are held by others, and [k] more
    references can be made. *)
Definition ready (k : nat) D (R : ring) (v : vm_map) (E : list vm_event) (G : refs) (F : list Z) (st : vs) : Prop :=
  own rs maps copies map D R v E G st /\ good map k R v G F /\ vm_lock v = Unlocked.

Definition zone_ok : Prop := forall L, L !! zalloc env L = None.

(** [vm_map_lookup_entry] finds the entry of an address exactly if one is
    mapped there, wherever the hint points, and otherwise the place where it
    would be; nothing but the hint changes. *)
Theorem map_lookup_finds_the_entry k D R v E G F (st : vs) address :
  ready k D R v E G F st ->
  mwp (vm_map_lookup_entry map address) (fun r st' =>
    lookup_answer map R address r /\ (r.1 = true <-> mapped (rg_list R) address <> None) /\
    exists h, h ∈ nodes map R /\ own rs maps copies map D R (set_hint h v) E G st') st.
Proof.
  intros (Ho & Hg & Hl). pose proof (gd_wf _ _ _ _ _ _ Hg) as Hwf. pose proof (wf_ordered _ _ _ Hwf) as Hord.
  eapply mwp_mono; [by eapply lookup_entry_spec|]. intros [found a] st' (Hans & h & Hh & Ho' & _).
  split_and!; [done| |by exists h]. unfold lookup_answer in Hans. destruct found; cbn in *; split; try done.
  - intros _. destruct Hans as (l1 & x & l2 & El & _ & Hx). rewrite El in *. by rewrite (mapped_at _ _ _ _ _ _ Hord Hx).
  - intros Hm. exfalso. apply Hm. destruct Hans as (l1 & l2 & El & _ & Hlim & Hall). rewrite El in *.
    apply ordered_app in Hord as [O1 _]. rewrite mapped_app.
    destruct (Z.lt_ge_cases address (rg_lo R)); [rewrite (mapped_below _ _ _ _ O1) by done|rewrite (mapped_above _ _ _ _ O1) by lia];
      (apply (mapped_from (address + 1)); [|lia]); (eapply Forall_impl; [exact Hall|]); simpl; lia.
Qed.

(** C26: [vm_map_enter] at a fixed address maps exactly the range, with the
    object, offsets and attributes it is given, if the range is aligned,
    within the map and free; otherwise it says why and leaves every entry as
    it was.  The reference to the object moves into the map, or stays with the
    caller. *)
Theorem enter_fixed_is_exact k D R v E G F (st : vs) start size mask p :
  zone_ok -> ready k D R v E G (held (mp_object p) ++ F) st -> 0 <= start <= u32_max -> 0 <= size <= u32_max ->
  extendable size R ->
  mwp (vm_map_enter env map start size mask false p) (fun r st' => r.2 = start /\ exists R' v',
    (r.1 = KERN_SUCCESS /\ Z.land start mask = 0 /\ inside R start size /\
       free_range (rg_list R) start (start + size) /\ finished rs maps copies map k D R R' v v' E F G st' /\
       entered p start (start + size) (rg_list R) (rg_list R') /\
       (packed map R (vm_first_free v) -> packed map R' (vm_first_free v'))) \/
    (R' = R /\ finished rs maps copies map k D R R v v' E (held (mp_object p) ++ F) G st' /\
      ((r.1 = KERN_NO_SPACE /\ Z.land start mask <> 0) \/
       (r.1 = KERN_INVALID_ADDRESS /\ Z.land start mask = 0 /\ ~ inside R start size) \/
       (r.1 = KERN_NO_SPACE /\ Z.land start mask = 0 /\ inside R start size /\
          ~ free_range (rg_list R) start (start + size))))) st.
Proof. intros Hz (Ho & Hg & Hl) Hst Hsz Hx. by apply enter_fixed_spec. Qed.


(** C37: With a mask that covers every bit the search for space wraps around at
    once, and [vm_map_enter] returns with the map locked for ever. *)
Theorem wrapped_search_keeps_the_lock k D R v E G F (st : vs) address size p :
  ready k D R v E G F st -> rg_lo R < address <= rg_hi R -> 0 < size ->
  mwp (vm_map_enter env map address size (2 ^ 32 - 1) true p) (fun r st' =>
    r = (KERN_NO_SPACE, address) /\ exists v', vm_maps st'.1 !! map = Some v' /\ vm_lock v' = WriteLocked) st.
Proof.
  intros (Ho & Hg & Hl) Ha Hsz. pose proof (gd_wf _ _ _ _ _ _ Hg) as Hwf. pose proof Hwf as [Hord Hlo Hhi _ _ _ _].
  assert (Hany : mwp (enter_anywhere env map address size (2 ^ 32 - 1) p) (fun r st' =>
    r = Some (KERN_NO_SPACE, address) /\ exists v', vm_maps st'.1 !! map = Some v' /\ vm_lock v' = WriteLocked) st).
  { unfold enter_anywhere. apply mwp_bind. eapply own_lock; [exact Ho|done|]. intros st1 Ho1.
    apply mwp_bind. eapply own_start_map; [exact Ho1|]. apply mwp_bind. eapply own_end_map; [exact Ho1|]. cbn zeta.
    rewrite (proj2 (Z.ltb_ge address (rg_lo R))), (proj2 (Z.ltb_ge (rg_hi R) address)) by lia.
    apply mwp_bind. eapply mwp_mono; [eapply (enter_from_spec rs maps copies map _ _ _ _ _ _ address size);
      [exact Ho1|by destruct Hwf; split|done|lia|intros; lia]|].
    intros [entry start] st2 ((l1 & l2 & _ & _ & Hlim & Hge & _) & h & _ & Ho2). cbn [fst snd] in *.
    apply mwp_bind. eapply own_fuel; [exact Ho2|]. intros fuel _.
    assert (Hw : aligned_up start (2 ^ 32 - 1) < start) by (apply (aligned_up_wraps start 32); unfold u32_max in *; lia).
    apply mwp_bind. destruct fuel; cbn [find_space]; fold (aligned_up start (2 ^ 32 - 1)); rewrite (proj2 (Z.ltb_lt _ _) Hw);
      apply mwp_ret, mwp_ret; (split; [done|]); exists (set_hint h (locked v));
      by rewrite (own_maps _ _ _ _ _ _ _ _ _ _ Ho2), lookup_insert_eq. }
  unfold vm_map_enter. destruct (vm_patience env); cbn [enter_retry]; apply mwp_bind; (eapply mwp_mono; [exact Hany|]);
    intros r st' [-> Hv]; by apply mwp_ret.
Qed.


(** What [vm_map_enter] maps [vm_map_remove] takes away again: the map is
    what it was, and the reference to the object is released. *)
Theorem enter_then_remove_restores D R v E G F (st : vs) start size mask p :
  zone_ok -> ready 2 D R v E G (held (mp_object p) ++ F) st -> 0 <= start <= u32_max -> 0 <= size <= u32_max ->
  extendable size R -> mp_object p <> VM_OBJECT_NULL -> Z.land start mask = 0 -> inside R start size ->
  free_range (rg_list R) start (start + size) ->
  mwp (r ← vm_map_enter env map start size mask false p; vm_map_remove env map start (start + size)) (fun kr st' =>
    kr = KERN_SUCCESS /\ exists R' v' E' G', finished rs maps copies map 0 D R R' v v' E' F G' st' /\
      forall a, mapped (rg_list R') a = mapped (rg_list R) a) st.
Proof.
  intros Hz (Ho & Hg & Hl) Hst Hsz Hx Hp Hm Hin Hf. apply mwp_bind. eapply mwp_mono; [by apply (enter_fixed_spec env rs maps copies map Hz D R v E G F 2)|].
  intros [kr a] st1 (_ & R1 & v1 & [(_ & _ & _ & _ & Hfin & Hent & _)|(_ & _ & [[_ ?]|[(_ & _ & ?)|(_ & _ & _ & ?)]])]); try done.
  eapply remove_entered; [done|exact Hfin|exact Hent|done|by left].
Qed.

(** C29: [vm_map_protect] changes the protection of exactly the range and takes
    away the rights of the mapped pages, or, if the maximum protection of one
    entry does not allow it, changes nothing. *)
Theorem protect_is_all_or_nothing D R v E G F (st : vs) start last p set_max :
  zone_ok -> ready 2 D R v E G F st ->
  mwp (vm_map_protect env map start last p set_max) (fun kr st' =>
    exists R' v' E' G', finished rs maps copies map 0 D R R' v v' E' F G' st' /\
      ((kr = KERN_SUCCESS /\
        changed_in start last (new_protection p set_max) (rg_list R) (rg_list R') /\
        (forall a e, start <= a < last -> mapped (rg_list R) a = Some e -> allows p e /\
          (protection (new_protection p set_max e) <> protection e -> exists s t,
             PmapProtect (vm_pmap v) s t (protection (new_protection p set_max e)) ∈ E' /\ s <= a < t))) \/
       (kr = KERN_PROTECTION_FAILURE /\ E' = E /\ (forall a, mapped (rg_list R') a = mapped (rg_list R) a) /\
        exists a e, start <= a < last /\ mapped (rg_list R) a = Some e /\ ~ allows p e))) st.
Proof. intros Hz (Ho & Hg & Hl). by eapply protect_spec. Qed.

(** [vm_map_inherit] changes the inheritance of exactly the range. *)
Theorem inherit_is_exact D R v E G F (st : vs) start last x :
  zone_ok -> ready 2 D R v E G F st ->
  mwp (vm_map_inherit env map start last x) (fun kr st' => kr = KERN_SUCCESS /\
    exists R' v' G', finished rs maps copies map 0 D R R' v v' E F G' st' /\
      changed_in start last (set_inheritance x) (rg_list R) (rg_list R')) st.
Proof. intros Hz (Ho & Hg & Hl). by eapply inherit_spec. Qed.
(** C33: [vm_map_pageable] with no access takes one wiring from every entry of
    the range, and unwires the pages of those that lose the last, if all of
    the range is mapped and wired; otherwise it changes nothing and says so. *)
Theorem unwire_is_all_or_nothing D R v E G F (st : vs) start last user :
  zone_ok -> ready 2 D R v E G F st -> inside_map R start last ->
  mwp (vm_map_pageable_common env map start last VM_PROT_NONE user) (fun kr st' =>
    exists R' v' E' G', finished rs maps copies map 0 D R R' v v' E' F G' st' /\
      ((kr = KERN_SUCCESS /\ changed_in start last (unwire_entry user) (rg_list R) (rg_list R') /\
        (forall a, start <= a < last -> exists e, mapped (rg_list R) a = Some e /\ wired_for user e /\
          (wired_count (unwire_entry user e) = 0 -> exists s t, FaultUnwire map s t ∈ E' /\ s <= a < t))) \/
       (E' = E /\ (forall a, mapped (rg_list R') a = mapped (rg_list R) a) /\
        ((kr = KERN_FAILURE /\ mapped (rg_list R) start = None) \/
         (kr = KERN_INVALID_ARGUMENT /\ obstacle (wired_for user) start last (rg_list R)))))) st.
Proof. intros Hz (Ho & Hg & Hl) Hin. by eapply unwire_spec. Qed.

(** C30: [vm_map_pageable] with an access wires every entry of the range once
    more, with its object in place, and has the pages of those faulted in that
    were not wired, if all of the range is mapped and allows the access;
    otherwise it fails and takes back all it has counted.  What it gives
    entries on the way are the objects a fault would have given them. *)
Theorem wire_is_exact_or_undone D R v E G F k (st : vs) start last access user :
  zone_ok -> ready (length (rg_list R) + 2 + k) D R v E G F st -> inside_map R start last ->
  access <> VM_PROT_NONE -> vm_pmap v <> kernel_pmap env -> Forall (fun x => counted (r_entry x)) (rg_list R) ->
  mwp (vm_map_pageable_common env map start last access user) (fun kr st' =>
    exists R' v' E' G', finished rs maps copies map k D R R' v v' E' F G' st' /\
      ((kr = KERN_SUCCESS /\ (forall a, start <= a < last -> wired_at map E' access user (rg_list R) (rg_list R') a) /\
        (forall a, ~ start <= a < last -> kept (mapped (rg_list R) a) (mapped (rg_list R') a))) \/
       (kr = KERN_FAILURE /\ E' = E /\ obstacle (allowed access) start last (rg_list R) /\
        forall a, kept (mapped (rg_list R) a) (mapped (rg_list R') a)))) st.
Proof. intros Hz (Ho & Hg & Hl) Hin Ha Hp Hc. by eapply wire_spec. Qed.


(** C34: [vm_map_simplify] never adds an entry, and every address stays mapped
    to what it was mapped to, but for the marks of changes in progress. *)
Theorem simplify_keeps_the_mapping D R v E G F k (st : vs) start :
  ready k D R v E G F st ->
  mwp (vm_map_simplify map start) (fun _ st' => exists R' v' G', finished rs maps copies map k D R R' v v' E F G' st' /\
    (length (rg_list R') <= length (rg_list R))%nat /\
    forall a, steady <$> mapped (rg_list R') a = steady <$> mapped (rg_list R) a) st.
Proof. intros (Ho & Hg & Hl). by eapply simplify_spec. Qed.


(** [projected_buffer_in_range] finds a projected buffer that overlaps the
    range, but also one that only begins where the range ends. *)
Theorem projected_range_reaches_too_far k D R v E G F (st : vs) start last :
  ready k D R v E G F st -> map <> VM_MAP_NULL -> map <> kernel_map env ->
  mwp (projected_buffer_in_range env map start last) (fun b st' =>
    (b = true <-> exists r, r ∈ rg_list R /\ projected_on (r_entry r) <> 0 /\ start < r_end r /\ r_start r <= last) /\
    exists h, h ∈ nodes map R /\ own rs maps copies map D R (set_hint h v) E G st') st.
Proof. intros (Ho & Hg & Hl) Hm Hk. by eapply in_range_spec; [|apply (gd_wf _ _ _ _ _ _ Hg)|..]. Qed.
End maps.

(** ** Objects *)

(** C36: [vm_object_deallocate] gives back exactly one reference: the counts of
    all objects stay right, and an object whose last reference is gone is
    cached or terminated, with the objects below it in turn. *)
Theorem deallocate_gives_back_one_reference env s k G o :
  obj_inv VM_OBJECT_NULL s k (held o ++ G) ->
  mwp (vm_object_deallocate env o) (fun _ s' => obj_inv VM_OBJECT_NULL s' k G) s.
Proof. apply deallocate_law. Qed.

(** C35: [vm_object_collapse] ends, keeps every count right and changes none of
    the places where the data of the object is looked for. *)
Theorem collapse_keeps_the_contents env s k G o x :
  obj_inv VM_OBJECT_NULL s k G -> nested (ob_objects s) -> ob_objects s !! o = Some x ->
  mwp (vm_object_collapse env o) (fun _ s' => obj_inv VM_OBJECT_NULL s' k G /\ nested (ob_objects s') /\
    forall offset, 0 <= offset < ob_size x -> contents (ob_objects s') o offset = contents (ob_objects s) o offset) s.
Proof.
  intros Hi Hn Ho. eapply mwp_mono; [eapply collapse_spec; [exact Hi|by intros _; eauto]|].
  intros [] s' [Hi' Hr]. split; [done|]. by destruct (collapse_contents s s' k G o x Hr Hi' Hn Ho) as (? & _ & ?).
Qed.

(** ** Witnesses *)

Abbreviation sample_state := (sample_memory, sample_vm_objects).

Lemma sample_ready : ready ∅ ∅ ∅ 100 9 ∅ sample_ring sample_map [] sample_refs [] sample_state.
Proof. split; [apply sample_own|]. split; [apply sample_good|done]. Qed.

Lemma ready_weaken {St} `{!ObjectOps St} `{!ObjectLaws St} rs maps copies map k k' D R v E G F (st : vmem * St) :
  (k' <= k)%nat -> ready rs maps copies map k D R v E G F st -> ready rs maps copies map k' D R v E G F st.
Proof. intros Hk (Ho & Hg & Hl). split; [done|]. split; [by eapply good_weaken|done]. Qed.

(** A map with one entry, and the caller holds a reference to the object 11;
    the entry may be a buffer projected on [p]. *)
Definition one_mapped (p : Z) : vm_map_entry := set_projected_on p (sample_mapped 10 0).
Definition one_ring (p : Z) : ring := mk_ring 0x1000 0xc0000000 (mk_header 1 true) [mk_region 201 0x1000 0x3000 (one_mapped p)].
Definition small_map : vm_map := mk_vm_map Unlocked 77 0x2000 1 100 201 false false 0.
Definition one_memory (p : Z) : vmem := mk_vmem
  (<[100 := mk_links 201 201 0x1000 0xc0000000]> (<[201 := mk_links 100 100 0x1000 0x3000]> ∅))
  (<[201 := one_mapped p]> ∅) (<[100 := mk_header 1 true]> ∅) (<[100 := small_map]> ∅) ∅ [].
Abbreviation one_state p := (one_memory p, sample_vm_objects).
Abbreviation small_ring := (one_ring 0).
Abbreviation small_state := (one_state 0).

Lemma one_ready p : ready ∅ ∅ ∅ 100 2 ∅ (one_ring p) small_map [] sample_refs [11] (one_state p).
Proof.
  split; [|split; [|done]].
  - split; cbn [fst snd]; try done.
    + split.
      * intros hdr R [[<- <-]|[_ HR]]%lookup_insert_Some; [|by rewrite lookup_empty in HR]. split; try done.
        -- intros r Hr. apply elem_of_cons in Hr as [->|Hr]; [reflexivity|]. by apply elem_of_nil in Hr.
        -- refine (bool_decide_unpack _ _). vm_compute. exact I.
      * intros h1 h2 R1 R2 a [[<- <-]|[_ H1]]%lookup_insert_Some [[<- <-]|[_ H2]]%lookup_insert_Some; try done; by rewrite lookup_empty in *.
    + apply sample_objects_inv.
  - split; [split|..]; try (vm_compute; congruence); [cbn; lia|..].
    + refine (bool_decide_unpack _ _). vm_compute. exact I.
    + refine (bool_decide_unpack _ _). vm_compute. exact I.
    + by repeat constructor.
    + unfold accounts. reflexivity.
    + unfold roomy. cbn. lia.
Qed.

Lemma small_ready : ready ∅ ∅ ∅ 100 2 ∅ small_ring small_map [] sample_refs [11] small_state.
Proof. apply one_ready. Qed.

Definition new_mapping : mapping := mk_mapping 11 0x1000 false VM_PROT_DEFAULT VM_PROT_ALL VM_INHERIT_DEFAULT.

Lemma small_extendable : extendable 0x1000 small_ring.
Proof. repeat constructor; cbn; unfold u32_max, page_mask, page_size; lia. Qed.

Lemma small_free : free_range (rg_list small_ring) 0x5000 0x6000.
Proof.
  intros a Ha. cbn. unfold covers. cbn. destruct (Z.leb_spec 0x1000 a), (Z.ltb_spec a 0x3000); try done. lia.
Qed.

Lemma map_lookup_finds_the_entry_witness :
  mwp (vm_map_lookup_entry 100 0x3800) (fun r st' =>
    lookup_answer 100 sample_ring 0x3800 r /\ (r.1 = true <-> mapped (rg_list sample_ring) 0x3800 <> None) /\
    exists h, h ∈ nodes 100 sample_ring /\ own ∅ ∅ ∅ 100 ∅ sample_ring (set_hint h sample_map) [] sample_refs st') sample_state.
Proof. exact (map_lookup_finds_the_entry ∅ ∅ ∅ 100 9 ∅ sample_ring sample_map [] sample_refs [] _ 0x3800 sample_ready). Defined.

Lemma enter_fixed_is_exact_witness : exists r st',
  vm_map_enter sample_vm_env 100 0x5000 0x1000 0xfff false new_mapping small_state = Some (r, st') /\
  r = (KERN_SUCCESS, 0x5000) /\ exists R' v', finished ∅ ∅ ∅ 100 2 ∅ small_ring R' small_map v' [] [] sample_refs st' /\
    entered new_mapping 0x5000 0x6000 (rg_list small_ring) (rg_list R').
Proof.
  destruct (enter_fixed_is_exact sample_vm_env ∅ ∅ ∅ 100 2 ∅ small_ring small_map [] sample_refs [] small_state 0x5000 0x1000 0xfff
    new_mapping sample_zalloc small_ready ltac:(unfold u32_max; lia) ltac:(unfold u32_max; lia) small_extendable)
    as ([kr a] & st' & Hrun & Ha & R' & v' & [(Hk & _ & _ & _ & Hf & He & _)|(_ & _ & Hbad)]); exists (kr, a), st'; (split; [exact Hrun|]).
  - cbn in Ha, Hk. subst. split; [reflexivity|]. exists R', v'. split; [exact Hf|exact He].
  - exfalso. destruct Hbad as [[_ Hb]|[(_ & _ & Hb)|(_ & _ & _ & Hb)]]; apply Hb.
    + reflexivity.
    + unfold inside. cbn. lia.
    + exact small_free.
Defined.



Lemma wrapped_search_keeps_the_lock_witness :
  mwp (vm_map_enter sample_vm_env 100 0x4000 0x1000 (2 ^ 32 - 1) true new_mapping) (fun r st' =>
    r = (KERN_NO_SPACE, 0x4000) /\ exists v', vm_maps st'.1 !! 100 = Some v' /\ vm_lock v' = WriteLocked) small_state.
Proof.
  exact (wrapped_search_keeps_the_lock sample_vm_env ∅ ∅ ∅ 100 2 ∅ small_ring small_map [] sample_refs [11] small_state 0x4000 0x1000
    new_mapping small_ready ltac:(cbn; lia) ltac:(lia)).
Defined.



Lemma enter_then_remove_restores_witness :
  mwp (r ← vm_map_enter sample_vm_env 100 0x5000 0x1000 0xfff false new_mapping; vm_map_remove sample_vm_env 100 0x5000 0x6000)
    (fun kr st' => kr = KERN_SUCCESS /\ exists R' v' E' G', finished ∅ ∅ ∅ 100 0 ∅ small_ring R' small_map v' E' [] G' st' /\
      forall a, mapped (rg_list R') a = mapped (rg_list small_ring) a) small_state.
Proof.
  exact (enter_then_remove_restores sample_vm_env ∅ ∅ ∅ 100 ∅ small_ring small_map [] sample_refs [] small_state 0x5000 0x1000 0xfff
    new_mapping sample_zalloc small_ready ltac:(unfold u32_max; lia) ltac:(unfold u32_max; lia) small_extendable ltac:(discriminate)
    eq_refl ltac:(unfold inside; cbn; lia) small_free).
Defined.

Lemma sample_allows a e : mapped (rg_list sample_ring) a = Some e -> allows VM_PROT_READ e.
Proof.
  intros Hm. destruct (mapped_elem _ _ _ Hm) as (r & Hr & _ & ->). apply allows_for. cbn in Hr.
  repeat (apply elem_of_cons in Hr as [->|Hr]; [reflexivity|]). by apply elem_of_nil in Hr.
Qed.

Lemma protect_is_all_or_nothing_witness : exists kr st',
  vm_map_protect sample_vm_env 100 0x2000 0x7000 VM_PROT_READ false sample_state = Some (kr, st') /\ kr = KERN_SUCCESS /\
  exists R' v' E' G', finished ∅ ∅ ∅ 100 0 ∅ sample_ring R' sample_map v' E' [] G' st' /\
    changed_in 0x2000 0x7000 (new_protection VM_PROT_READ false) (rg_list sample_ring) (rg_list R').
Proof.
  destruct (protect_is_all_or_nothing sample_vm_env ∅ ∅ ∅ 100 ∅ sample_ring sample_map [] sample_refs [] sample_state 0x2000 0x7000
    VM_PROT_READ false sample_zalloc (ready_weaken _ _ _ _ 9 2 _ _ _ _ _ _ _ ltac:(lia) sample_ready))
    as (kr & st' & Hrun & R' & v' & E' & G' & Hf & [(Hk & Hc & _)|(_ & _ & _ & a & e & _ & Hm & Hno)]); exists kr, st'; (split; [exact Hrun|]).
  - split; [exact Hk|]. exists R', v', E', G'. split; [exact Hf|exact Hc].
  - exfalso. exact (Hno (sample_allows a e Hm)).
Defined.

Lemma inherit_is_exact_witness :
  mwp (vm_map_inherit sample_vm_env 100 0x2000 0x7000 VM_INHERIT_NONE) (fun kr st' => kr = KERN_SUCCESS /\
    exists R' v' G', finished ∅ ∅ ∅ 100 0 ∅ sample_ring R' sample_map v' [] [] G' st' /\
      changed_in 0x2000 0x7000 (set_inheritance VM_INHERIT_NONE) (rg_list sample_ring) (rg_list R')) sample_state.
Proof.
  exact (inherit_is_exact sample_vm_env ∅ ∅ ∅ 100 ∅ sample_ring sample_map [] sample_refs [] sample_state 0x2000 0x7000 VM_INHERIT_NONE
    sample_zalloc (ready_weaken _ _ _ _ 9 2 _ _ _ _ _ _ _ ltac:(lia) sample_ready)).
Defined.

Lemma unwire_is_all_or_nothing_witness : exists kr st',
  vm_map_pageable_common sample_vm_env 100 0x2000 0x4000 VM_PROT_NONE true sample_state = Some (kr, st') /\ kr <> KERN_SUCCESS /\
  exists R' v' G', finished ∅ ∅ ∅ 100 0 ∅ sample_ring R' sample_map v' [] [] G' st' /\
    forall a, mapped (rg_list R') a = mapped (rg_list sample_ring) a.
Proof.
  destruct (unwire_is_all_or_nothing sample_vm_env ∅ ∅ ∅ 100 ∅ sample_ring sample_map [] sample_refs [] sample_state 0x2000 0x4000 true
    sample_zalloc (ready_weaken _ _ _ _ 9 2 _ _ _ _ _ _ _ ltac:(lia) sample_ready) ltac:(unfold inside_map; cbn; lia))
    as (kr & st' & Hrun & R' & v' & E' & G' & Hf & [(_ & _ & Hw)|(-> & Hm & Hk)]); exists kr, st'; (split; [exact Hrun|]).
  - exfalso. destruct (Hw 0x2000 ltac:(lia)) as (e & He & [Hn _] & _). cbn in He. injection He as <-. exact (Hn eq_refl).
  - split; [by destruct Hk as [[-> _]|[-> _]]|]. exists R', v', G'. split; [exact Hf|exact Hm].
Defined.

Lemma sample_counted : Forall (fun x => counted (r_entry x)) (rg_list sample_ring).
Proof. repeat constructor; cbn; lia. Qed.

Lemma sample_allowed a e : mapped (rg_list sample_ring) a = Some e -> allowed VM_PROT_READ e.
Proof.
  intros Hm. destruct (mapped_elem _ _ _ Hm) as (r & Hr & _ & ->). cbn in Hr.
  repeat (apply elem_of_cons in Hr as [->|Hr]; [reflexivity|]). by apply elem_of_nil in Hr.
Qed.

Lemma sample_covered a : 0x2000 <= a < 0x4000 -> mapped (rg_list sample_ring) a <> None.
Proof.
  intros Ha. cbn. unfold covers. cbn.
  destruct (Z.leb_spec 0x1000 a), (Z.ltb_spec a 0x3000), (Z.leb_spec 0x3000 a), (Z.ltb_spec a 0x4000); (discriminate || lia).
Qed.

Lemma wire_is_exact_or_undone_witness : exists kr st',
  vm_map_pageable_common sample_vm_env 100 0x2000 0x4000 VM_PROT_READ true sample_state = Some (kr, st') /\ kr = KERN_SUCCESS /\
  exists R' v' E' G', finished ∅ ∅ ∅ 100 4 ∅ sample_ring R' sample_map v' E' [] G' st' /\
    forall a, 0x2000 <= a < 0x4000 -> wired_at 100 E' VM_PROT_READ true (rg_list sample_ring) (rg_list R') a.
Proof.
  destruct (wire_is_exact_or_undone sample_vm_env ∅ ∅ ∅ 100 ∅ sample_ring sample_map [] sample_refs [] 4 sample_state 0x2000 0x4000
    VM_PROT_READ true sample_zalloc sample_ready ltac:(unfold inside_map; cbn; lia) ltac:(discriminate) ltac:(discriminate) sample_counted)
    as (kr & st' & Hrun & R' & v' & E' & G' & Hf & [(Hk & Hw & _)|(_ & _ & (a & Ha & Hno) & _)]); exists kr, st'; (split; [exact Hrun|]).
  - split; [exact Hk|]. exists R', v', E', G'. split; [exact Hf|exact Hw].
  - exfalso. destruct (mapped (rg_list sample_ring) a) as [e|] eqn:He.
    + exact (Hno e eq_refl (sample_allowed a e He)).
    + exact (sample_covered a Ha He).
Defined.


Lemma simplify_keeps_the_mapping_witness :
  mwp (vm_map_simplify 100 0x3000) (fun _ st' => exists R' v' G', finished ∅ ∅ ∅ 100 9 ∅ sample_ring R' sample_map v' [] [] G' st' /\
    (length (rg_list R') <= 3)%nat /\ forall a, steady <$> mapped (rg_list R') a = steady <$> mapped (rg_list sample_ring) a) sample_state.
Proof.
  exact (simplify_keeps_the_mapping ∅ ∅ ∅ 100 ∅ sample_ring sample_map [] sample_refs [] 9 sample_state 0x3000 sample_ready).
Defined.



(** A buffer at 0x1000, and a range that ends there. *)
Lemma projected_range_reaches_too_far_witness : exists st',
  projected_buffer_in_range sample_vm_env 100 0 0x1000 (one_state 55) = Some (true, st').
Proof.
  destruct (projected_range_reaches_too_far sample_vm_env ∅ ∅ ∅ 100 2 ∅ (one_ring 55) small_map [] sample_refs [11] (one_state 55) 0 0x1000
    (one_ready 55) ltac:(discriminate) ltac:(discriminate)) as (b & st' & Hrun & [_ Hb] & _).
  exists st'. rewrite Hrun, Hb; [reflexivity|]. exists (mk_region 201 0x1000 0x3000 (one_mapped 55)). split_and!; [by left|discriminate|cbn; lia..].
Defined.

Definition allocated (r : option (kern_return * Z * (vmem * objects))) : option (kern_return * Z * option vm_map_links) :=
  match r with Some (a, st) => Some (a, vm_links st.1 !! next_free (one_memory 0).(vm_links)) | None => None end.

(** [vm_allocate] of more than 0xfffff000 bytes anywhere succeeds: the
    size wraps around to zero, and what is allocated is nothing, or an entry
    that ends where it begins.  At a fixed address it is refused. *)
Theorem huge_allocation_is_empty :
  allocated (vm_allocate sample_vm_env 100 0 0xfffff001 true small_state) = Some (KERN_SUCCESS, 0x3000, None) /\
  allocated (vm_allocate sample_vm_env 100 0 0xfffff001 true (one_state 55)) =
    Some (KERN_SUCCESS, 0x3000, Some (mk_links 201 100 0x3000 0x3000)) /\
  allocated (vm_allocate sample_vm_env 100 0x5000 0xfffff001 false small_state) = Some (KERN_INVALID_ADDRESS, 0x5000, None).
Proof. split_and!; vm_compute; reflexivity. Qed.

Definition object_after (o : Z) (r : option (unit * objects)) : option vm_object :=
  match r with Some (_, s) => ob_objects s !! o | None => None end.

Lemma deallocate_gives_back_one_reference_witness : exists s',
  vm_object_deallocate sample_object_env 11 sample_vm_objects = Some (tt, s') /\ obj_inv VM_OBJECT_NULL s' 9 [10] /\
  ob_objects s' !! 12 = None.
Proof.
  assert (Hi : obj_inv VM_OBJECT_NULL sample_vm_objects 9 (held 11 ++ [10])).
  { eapply obj_inv_perm; [|exact sample_objects_inv]. cbn. apply Permutation_swap. }
  destruct (deallocate_gives_back_one_reference sample_object_env sample_vm_objects 9 [10] 11 Hi) as ([] & s' & Hrun & Hi').
  exists s'. split; [exact Hrun|]. split; [exact Hi'|].
  assert (Hgone : object_after 12 (vm_object_deallocate sample_object_env 11 sample_vm_objects) = None) by (vm_compute; reflexivity).
  rewrite Hrun in Hgone. exact Hgone.
Defined.

Lemma sample_nested : nested (ob_objects sample_vm_objects).
Proof.
  split; cbn [ob_objects sample_vm_objects].
  - intros o x Ho. sample_cases; cbn; (split; [lia|]); (split; [lia|]); repeat constructor; cbn; unfold u32_max; lia.
  - intros o x y Ho Hy. repeat (apply lookup_insert_Some in Ho as [[<- <-]|[_ Ho]];
      [vm_compute in Hy; first [discriminate Hy|injection Hy as <-; cbn; lia]|]). by rewrite lookup_empty in Ho.
  - intros o x Ho. sample_cases; cbn; unfold u32_max; lia.
Qed.

Lemma collapse_keeps_the_contents_witness : exists s',
  vm_object_collapse sample_object_env 11 sample_vm_objects = Some (tt, s') /\ ob_objects s' !! 12 = None /\
  forall offset, 0 <= offset < 0x2000 ->
    contents (ob_objects s') 11 offset = contents (ob_objects sample_vm_objects) 11 offset.
Proof.
  destruct (collapse_keeps_the_contents sample_object_env sample_vm_objects 9 [10; 11] 11 _ sample_objects_inv sample_nested eq_refl)
    as ([] & s' & Hrun & _ & _ & Hc).
  exists s'. split; [exact Hrun|]. split; [|exact Hc].
  assert (Hgone : object_after 12 (vm_object_collapse sample_object_env 11 sample_vm_objects) = None) by (vm_compute; reflexivity).
  rewrite Hrun in Hgone. exact Hgone.
Defined.
