(* ===== verification/LockTheorems.v ===== *)
(** * Theorems about sleep locks (kern/lock.c)

    For any number of threads that use a lock as [allowed] says, on one
    processor or on several. *)

From S2P Require Import Prelude Names Splay Table Space World Vm Lock LockInv LockSteps LockView.

(** The threads, and how often one of them may hold the lock: the counts of the
    lock have 16 and 12 bits. *)
Record lock_users (ts : list Z) (nest : nat) : Prop := mk_lock_users {
  us_distinct : NoDup ts;
  us_threads : NO_THREAD ∉ ts;
  us_nest : 0 < Z.of_nat nest < 4096;
  us_many : Z.of_nat (length ts) * Z.of_nat nest < 65536
}.

Lemma users_inv lock_wait_time ts nest c : lock_users ts nest -> lock_reachable lock_wait_time ts nest c -> lock_inv ts nest c.
Proof. intros [] Hr. by apply (reachable_inv lock_wait_time). Qed.

(** C38: A thread that holds the lock for writing is the only one that holds
    it, in every state the threads can reach; the lock counts the readers. *)
Theorem writers_are_alone lock_wait_time ts nest s h t :
  lock_users ts nest -> lock_reachable lock_wait_time ts nest (s, h) ->
  read_count (sys_lock s) = Z.of_nat (sum_list_with (fun u => h_reads (h u)) ts) /\
  (h_write (h t) <> None -> forall u, u <> t -> h u = nothing).
Proof. intros Hu Hr. destruct (users_inv _ _ _ _ Hu Hr) as [Hh _]. split; [exact (hs_reads _ _ _ _ _ Hh)|intros Hw u; by apply (hs_excl _ _ _ _ _ Hh)]. Qed.

(** C39: Nobody sleeps in vain: a thread sleeps only while what it waits for is
    not there and the lock knows that somebody waits, and then another thread
    holds the lock or is on its way; and the last thread inside, when nobody
    holds the lock, returns with it. *)
Theorem nobody_sleeps_in_vain lock_wait_time ts nest s h t a :
  lock_users ts nest -> lock_reachable lock_wait_time ts nest (s, h) -> sys_threads s !! t = Some a ->
  (forall w, a = Asleep w -> waiting (sys_lock s) = true /\ blocked w (sys_lock s) = true /\ exists u, busy s h u) /\
  ((forall u, u <> t -> sys_threads s !! u = None /\ h u = nothing) ->
     exists r s', lock_continue lock_wait_time t s = Some (Returns r, s')).
Proof.
  intros Hu Hr Ha. pose proof (users_inv _ _ _ _ Hu Hr) as Hi. destruct s as [l th]. cbn [sys_threads sys_lock] in *. split.
  - intros w ->. destruct Hi as [Hh Hat]. destruct (Hat t w Ha) as [H1 H2]. split_and!; [done|done|]. by eapply blocked_busy; [split|].
  - intros Ho. destruct (last_free ts nest l th h Hi t a Ha Ho) as (H1 & H2 & H3). by apply (continue_returns lock_wait_time t a).
Qed.

(** C40: The lock is the one that address maps rely on: whatever the threads do,
    a step leaves it as it is, locks it for writing when it is free, lets a
    reader in or out, upgrades the only reader, unlocks it or turns its writer
    into a reader. *)
Theorem lock_implements_the_map_lock lock_wait_time ts nest c c' :
  lock_users ts nest -> lock_reachable lock_wait_time ts nest c -> lock_step lock_wait_time ts nest c c' ->
  lock_turn (lock_view ts c.2) (lock_view ts c'.2).
Proof.
  intros Hu Hr Hs. pose proof (users_inv _ _ _ _ Hu Hr) as Hi. destruct Hu as [U1 U2 U3 U4].
  pose proof (step_inv _ _ _ U1 U2 U3 U4 _ _ Hi Hs) as Hi'.
  assert (Hal : forall c, lock_inv ts nest c -> alone c.2) by (intros ? [Hh _] u v; by apply (hs_excl _ _ _ _ _ Hh)).
  pose proof (Hal _ Hi) as Ha. pose proof (Hal _ Hi') as Ha'.
  destruct Hs as [s h t c p s' Ht Hout Hc Hrun|s h t a p s' Hta Hrun]; cbn [snd] in *.
  - apply view_turn; [done..|]. destruct s as [l th]. apply (call_turn nest); [apply (hs_ok _ _ _ _ _ (proj1 Hi))|done|].
    intros -> ->. by eapply try_write_free.
  - destruct Hi as [Hh Hat]. assert (Hn : h t = nothing) by (apply (hs_idle _ _ _ _ _ Hh); unfold waits; cbn; by rewrite Hta).
    apply view_turn; [done| |done|done|rewrite Hn; apply wait_turn].
    destruct (decide (t ∈ ts)) as [|Hx]; [done|]. destruct (hs_out _ _ _ _ _ Hh t Hx) as [_ Hw]. unfold waits in Hw. cbn in Hw. by rewrite Hta in Hw.
Qed.

(** ** Two ways in which recursive locks fail *)

Fixpoint lock_calls (lock_wait_time : Z) (l : list (Z * lock_call)) : M lock_system (list progress) :=
  match l with
  | [] => mret []
  | (t, c) :: l => p ← lock_perform lock_wait_time t c; ps ← lock_calls lock_wait_time l; mret (p :: ps)
  end.

Abbreviation new_lock := (mk_lock_system (lock_init true) ∅).

Definition answers (r : option (list progress * lock_system)) : option (list progress) := fst <$> r.

(** A writer that may lock recursively and becomes a reader upgrades its
    lock at once, without a bit that keeps others out: another thread gets the
    write lock as well. *)
Theorem recursive_upgrade_is_not_exclusive :
  answers (lock_calls 0 [(1, CallWrite); (1, CallSetRecursive); (1, CallWriteToRead); (1, CallReadToWrite); (2, CallWrite)] new_lock) =
    Some [Returns true; Returns true; Returns true; Returns false; Returns true].
Proof. vm_compute. reflexivity. Qed.

(** A thread that holds the lock for writing since an upgrade cannot make it
    recursive: the kernel panics. *)
Theorem upgraded_lock_cannot_be_recursive :
  answers (lock_calls 0 [(1, CallRead); (1, CallReadToWrite)] new_lock) = Some [Returns true; Returns false] /\
  lock_calls 0 [(1, CallRead); (1, CallReadToWrite); (1, CallSetRecursive)] new_lock = None.
Proof. split; vm_compute; reflexivity. Qed.

(** ** Witnesses *)

Lemma three_users : lock_users [1; 2; 3] 2.
Proof. split; [refine (bool_decide_unpack _ _); vm_compute; exact I..|vm_compute; by split|vm_compute; done]. Qed.

(** Thread 1 writes, and thread 2 waits to read. *)
Definition one_writes : lock_system := mk_lock_system (mk_lock NO_THREAD 0 false true false true 0) ∅.
Definition one_holds : Z -> hold := upd 1 (mk_hold 0 0 (Some ByWrite) false) (fun _ => nothing).
Definition two_waits : lock_system := mk_lock_system (mk_lock NO_THREAD 0 false true true true 0) (<[2 := Asleep WantRead]> ∅).
Definition two_holds : Z -> hold := upd 2 nothing one_holds.

Lemma one_writes_step : lock_step 0 [1; 2; 3] 2 (lock_fresh true) (one_writes, one_holds).
Proof. apply (step_call 0 [1; 2; 3] 2 new_lock (fun _ => nothing) 1 CallWrite (Returns true) one_writes); [by left|done|by left|by vm_compute]. Qed.

Lemma two_waits_step : lock_step 0 [1; 2; 3] 2 (one_writes, one_holds) (two_waits, two_holds).
Proof. apply (step_call 0 [1; 2; 3] 2 one_writes one_holds 2 CallRead Waits two_waits); [by right; left|done|by left|by vm_compute]. Qed.

Lemma one_writes_reachable : lock_reachable 0 [1; 2; 3] 2 (one_writes, one_holds).
Proof. exists true. apply rtc_once, one_writes_step. Qed.

Lemma two_waits_reachable : lock_reachable 0 [1; 2; 3] 2 (two_waits, two_holds).
Proof. exists true. eapply rtc_l; [apply one_writes_step|apply rtc_once, two_waits_step]. Qed.

Lemma writers_are_alone_witness : read_count (sys_lock two_waits) = 0 /\ two_holds 2 = nothing.
Proof.
  destruct (writers_are_alone 0 [1; 2; 3] 2 two_waits two_holds 1 three_users two_waits_reachable) as [Hr Ha].
  split; [exact Hr|]. apply Ha; [vm_compute; discriminate|discriminate].
Defined.

Lemma nobody_sleeps_in_vain_witness : waiting (sys_lock two_waits) = true /\ exists u, busy two_waits two_holds u.
Proof.
  destruct (nobody_sleeps_in_vain 0 [1; 2; 3] 2 two_waits two_holds 2 (Asleep WantRead) three_users two_waits_reachable eq_refl) as [Hs _].
  destruct (Hs WantRead eq_refl) as (Hw & _ & Hu). split; [exact Hw|exact Hu].
Defined.

Lemma fresh_reachable : lock_reachable 0 [1; 2; 3] 2 (lock_fresh true).
Proof. exists true. apply rtc_refl. Qed.

Lemma lock_implements_the_map_lock_witness : lock_turn Unlocked WriteLocked /\ lock_view [1; 2; 3] one_holds = WriteLocked.
Proof. split; [exact (lock_implements_the_map_lock 0 [1; 2; 3] 2 _ _ three_users fresh_reachable one_writes_step)|vm_compute; reflexivity]. Defined.
